(* ===== verification/_CoqProject ===== *)
-Q . S2P
Prelude.v
Text.v
Json.v
Numbers.v
Dsl.v
Cypher.v
Values.v
Catalog.v
Files.v
Index.v
Store.v
Codec.v
Persist.v
Tx.v
Exec.v
Ops.v
Parser.v
Plan.v
Find.v
Explain.v
Session.v
Backend.v
Repo.v
Batch.v
Runtime.v
Api.v
Security.v
AuditSink.v
Durable.v
Serializers.v
Workspace.v
Interchange.v
Render.v
Terminal.v
Neo4j.v
Database.v
Neo4jServer.v
Neo4jModel.v
Neo4jRuntime.v
Neo4jRuns.v
TerminalRuns.v
Autocommit.v
Service.v
Wire.v
Client.v
Handlers.v
Served.v
AuditStore.v
AuditRecovery.v
AuditIds.v
AuditCodec.v
