(* ===== verification/Prelude.v ===== *)
(** * A verification development for grm-rs

    grm-rs is a typed graph engine in Rust: models with labels and typed
    properties, a query language compiled to a kernel graph query, an
    in-memory backend with transactions, a session with a run-time schema, and
    an autocommitting, crash-safe workspace on files.  This library models the
    engine from the property values to the workspace and proves what makes each
    layer correct.

    ** The program and the files that model it

    A workspace ([src/src/runtime/workspace.rs]) runs requests
    ([runtime/ops.rs], [runtime/batch.rs]) on a session
    ([runtime/session.rs]).  The session checks them against its catalog of
    models ([runtime/catalog.rs], [runtime/value.rs]), builds queries
    ([dsl/]) and runs each in one transaction of the in-memory backend
    ([backend/inmemory/]) over the graph store ([backend/graphstore.rs]).
    Every mutation answers a durable operation, which the workspace appends to
    a log ([runtime/durability.rs]) next to the session's snapshot
    ([backend/persisted.rs], [fsutil.rs]).  A workspace can also be served to
    remote clients ([src/grm-service-api/src/lib.rs]): a request is converted
    from its message, classified into the operations it needs, authorised
    against a table of permissions, and every step of it is audited, in memory
    or in a store of its own on disk ([src/grm-service-api/src/audit_store.rs]).

    - [Prelude]: errors ([error.rs]), the result monad, ordered maps, lists.
    - [Text]: Rust strings, [char]s, integer parsing and printing.
    - [Json], [Numbers]: [serde_json::Value], [f64], and a concrete
      [serde_json::Number] for the witnesses.
    - [Dsl]: [dsl/*.rs] and the traits of [model/*.rs]: filters, patterns,
      traversal builders, [compile_to_graph], [validate], paging, rows.
    - [Values]: [runtime/value.rs]: the primitive kinds, canonical forms of
      dates, times, decimals and durations, parsing, validation, comparison.
    - [Catalog]: [runtime/catalog.rs]: models, [validate_props], the catalog
      of a session.
    - [Files]: [fsutil.rs] over a model of [std::fs] with failures and crashes
      at every system call.
    - [Index], [Store]: [backend/graphstore.rs], with its eager indexes and the
      lazily rebuilt property cache.
    - [Codec]: a concrete serializer for witnesses; [Persist]:
      [backend/persisted.rs].
    - [Tx]: [backend/inmemory/graphtx.rs] and the transactions of
      [inmemorytx.rs]: delta, visible view, commit, rollback, interleavings.
    - [Exec]: the query executor of [inmemorytx.rs] and [returnplan.rs].
    - [Ops]: the request and response types of [runtime/ops.rs] and the
      adapters that build requests from text.
    - [Parser]: [runtime/parser.rs]: the tokenizer, query terms, commands.
    - [Plan]: [backend/plan.rs]: access paths, steps, plans and their text.
    - [Find]: the find queries of [runtime/session.rs]; [Explain]: their plans
      and profiles.
    - [Session]: its mutations, their durable operations and the replay.
    - [Backend]: the traits of [backend/graph.rs], the in-memory backend as an
      instance of them, and what is written over them: the client of
      [client/graphclient.rs] and the macros of [repo/macros.rs].  [Repo]:
      [repo/*.rs] and [decode/*.rs].
    - [Cypher]: [backend/cypher.rs], the translation of graph queries to Cypher.
    - [Neo4j]: [backend/neo4j.rs], over a driver.  [Database]: what a database
      promises; [Neo4jServer]: that the Neo4j backend keeps it, over a server
      that runs the statements it sends; [Neo4jModel]: a small such server.
      [Neo4jRuntime]: [runtime/neo4j.rs], requests and batches of a Neo4j
      session; [Neo4jRuns]: its theorems.
    - [Batch]: [runtime/batch.rs] and [apply_session_batch].
    - [Runtime]: the dispatcher [execute_runtime].
    - [Durable], [Serializers]: the append log, saving, loading, checkpoints.
    - [Workspace]: [runtime/workspace.rs].
    - [Interchange]: the interchange document of a session, its export and its
      import, and the read-only admin requests ([runtime/session.rs]).
    - [Render]: the texts a command-line session writes: tables, graphs, plans,
      profiles, summaries.  [Terminal]: the session itself, [CliSession]: its
      commands, scripts, wizards, script transactions and autocommit, over a
      reader, a writer and files.  [TerminalRuns], [Autocommit]: its theorems
      ([runtime/session.rs]).
    - [Api], [Security], [AuditSink]: [src/grm-service-api/src/lib.rs]: the messages
      of the service and their conversions; principals, the permission table,
      the classification of requests, certificates and the configuration
      file; the audit events and the bounded sink.
    - [Service]: its in-process workspaces: creating, opening, closing and
      executing against the files below one root.  [Wire]: the messages on the
      wire and back.  [Client]: the remote client's calls.  [Handlers],
      [Served]: the handlers of the calls, from the peer's address and the
      certificate to the audited answer.
    - [AuditStore]: [audit_store.rs], the durable audit store, operation by
      operation; [AuditRecovery]: what is on disk however they end;
      [AuditIds]: the identifiers it issues; [AuditCodec]: a concrete
      serializer of its records, and the theorems at small stores.

    ** How code becomes definitions

    A method that takes [&mut self] takes the state last and answers it next to
    its result; [Result] is [result], and a panic, where the code has one, is
    [None] of an [option].  A [BTreeMap] is a [gmap] iterated in key order
    ([KeyOrd], [bt_iter], [bs_iter] of [Prelude]), a [HashMap] a [gmap], whose
    iteration order no definition depends on.  An [i64] is a [Z] with its
    wrap-around or overflow written out at each operation that has one.  Effects
    on files are a monad over the file system and a list of faults, one per
    system call, so that a theorem on every list of faults is a theorem on every
    failure and every crash.  The calls of the service are served one at a time:
    the order in which the code's locks let them in is the order of a list.

    Code that is not in the repository is a parameter with its documented laws:
    [SerdeNumber]/[NumberLaws] (the numbers of [serde_json]),
    [Formats]/[FormatLaws] ([base64], [uuid], [chrono]),
    [SnapshotCodec]/[SnapshotLaws], [SessionCodec]/[SessionLaws],
    [InterchangeCodec]/[InterchangeLaws] and [AuditCodec]/[AuditCodecLaws] (the
    serializers of a graph, of a session, of an interchange document and of the
    audit's records), [IoText] (the text of an I/O
    error), [JsonText] (the text of a JSON value, which the command line
    shows), [Machine] (the readings of the clock and the tags of temporary
    files), [Digest]/[DigestLaws] (SHA-256, of which only the length of a digest
    is used), [EventLayout]/[EventLayoutLaws] (the size of an event's record in
    memory), [Neo4jDriver]/[Neo4jServerLaws] (the driver of Neo4j and its server).
    What the derive macros promise of a model is [NodeModelLaws].  [Numbers],
    [Values], [Persist], [Serializers], [Interchange], [Security], [AuditSink],
    [Neo4jModel] and [AuditCodec] have instances that satisfy the laws, at which
    the witnesses are evaluated.

    ** What is proved

    - Store ([Store.store_run_wf] and the lookup theorems): every index always
      says what the nodes and relationships say, so every lookup is a scan.
    - Transactions ([Tx]): each operation refines its meaning on the visible
      graph, a committed run leaves what its operations mean, interleaved
      transactions never share an id; and where deletions are lost.
    - Queries ([Dsl], [Exec], [Find]): compilation is total and well formed,
      the executor finds exactly the paths that match and pages them, and the
      session's flat find is a filtered scan, sorted and paged.
    - Commands ([Parser]): a written command is read back, a query term is
      read as what it says; plans ([Plan], [Explain]) bind before they use,
      and tell what the find they explain does.
    - Values and catalog: parsed values are valid, canonical durations and
      decimals mean what they should, property maps are checked exactly.
    - Sessions ([Session], [Batch], [Runtime]): every mutation keeps the graph
      consistent with the catalog or changes nothing; the durable operations
      of any run replay to its state; atomic batches are all or nothing.
    - Durability ([Persist], [Durable], [Workspace]): writes are crash-atomic,
      damaged files fall back to the backup, the workspace opened anew is the
      workspace that was closed; and the crash that leaves a stale log.
    - Backends ([Backend], [Repo]): over any backend that keeps the contract of
      the traits, as the in-memory one does, a repository is a map of models.
    - Neo4j ([Cypher], [Neo4jServer], [Neo4jModel], [Neo4jRuns]): the Cypher
      statement of a query says what the query says, whatever its names hold; a
      transaction does what its operations mean or leaves nothing; a batch is
      all or nothing and keeps the data in line with the schema.
    - Interchange: a document is imported exactly when it is well formed; the
      export of an imported session is the document, and importing the export
      of a session gives its catalog and graph; and what the largest identifier
      does.
    - The command line ([TerminalRuns], [Autocommit]): every run ends, whatever
      its input and whatever fails; a failed script transaction leaves no trace;
      with autocommit on, opening the files anew gives the committed session;
      and three ways past these: a script cut off in a continued line, a
      checkpoint inside a transaction, an instance made by a wizard.
    - The service ([Api], [Security], [AuditSink]): a request converted by the
      client is the request the server runs; a request is allowed exactly when
      the table grants every operation it needs, and none is left out of its
      classification; the audit sink keeps the latest events within its limits.
    - Its workspaces ([Service], [Client]): every file has one writer, creating a
      workspace only adds files, a remote call is the local one.
    - Its handlers ([Served]): the audit only refuses; in the secured profile
      every call is audited before it has an effect, every executed request is
      granted, every outcome is recorded; and where the recorded durability is
      not that of the files.
    - The durable audit store ([AuditRecovery], [AuditIds], [AuditCodec]): an
      acknowledged event is on disk however the append ends, opening reads the
      log, a probe restores order, no identifier is issued twice; and which
      accepted events no opening can read.

    ** Fuel

    Some loops have no structural measure.  [Durable.read_loop] reads at least
    one byte a round and gets the length of the file plus one;
    [Durable.log_is_read_to_the_end] shows it ends.  [AuditStore.read_records_loop]
    does the same on the audit's log ([AuditRecovery.read_records_loop_ok]), and
    [AuditStore.prune_loop] drops an event a round
    ([AuditRecovery.prune_loop_pruned]).  [Service.next_available_workspace_ref]
    tries one name more than there are files ([Service.free_name_is_found]).  The
    loops of the command line ([Terminal.repeat_turns]) read a line every turn
    that goes on, and get a turn more than their reader has bytes left
    ([TerminalRuns.terminal_ends]).  [Neo4j.collect_rounds] takes a row off a
    result stream each round and gets a round more than it holds
    ([Neo4jServer.collect_keeps]).  The other scans of text
    recurse on the text or carry its length in the same way ([Text]).

    ** Not modelled

    The driver [neo4rs] of the Neo4j backend and the database behind it, which are
    parameters; the derive macros, which write the models the repositories are
    generic in; the argument parsing around the command-line session, whose
    paths are kept as the texts they are given as; of the service the set-up of TLS and
    sockets, the reading of the configuration file from disk and the bytes of [prost]; the
    bindings and front ends ([grm-cli], [grm-mcp], [grm-python],
    [grm-flight-deck*]). *)

From stdpp Require Export base gmap sets list strings sorting.
From stdpp Require Export fin_maps fin_map_dom.
From Stdlib Require Export Lia.

(** ** Errors and fallible computations ([src/src/error.rs]) *)

Inductive GrmError : Type :=
  | Backend (msg : string)
  | Mapping (msg : string)
  | NotFound
  | Constraint (msg : string)
  | TransactionClosed
  | NotSupported (msg : string)
  | SaveAborted (msg : string)
  | LoadAborted (msg : string).

#[export] Instance GrmError_eq_dec : EqDecision GrmError.
Proof. solve_decision. Defined.

(** [crate::Result<T>] *)
Inductive result (A : Type) : Type :=
  | Ok (a : A)
  | Err (e : GrmError).
Arguments Ok {A} a.
Arguments Err {A} e.

#[export] Instance result_eq_dec {A} `{EqDecision A} : EqDecision (result A).
Proof. solve_decision. Defined.

(** The [?] operator is monadic bind, [Ok] its unit. *)
#[export] Instance result_ret : MRet result := λ A a, Ok a.
#[export] Instance result_bind : MBind result := λ A B f m,
  match m with Ok a => f a | Err e => Err e end.
#[export] Instance result_fmap : FMap result := λ A B f m,
  match m with Ok a => Ok (f a) | Err e => Err e end.

Definition is_ok {A} (r : result A) : bool :=
  match r with Ok _ => true | Err _ => false end.

Definition error_of {A} (r : result A) : option GrmError :=
  match r with Ok _ => None | Err e => Some e end.

(** [Option::ok_or] / [ok_or_else] *)
Definition ok_or {A} (o : option A) (e : GrmError) : result A :=
  match o with Some a => Ok a | None => Err e end.

(** A [for] loop with early return on [Err]. *)
Fixpoint try_fold {A B} (f : B → A → result B) (b : B) (l : list A) : result B :=
  match l with
  | [] => Ok b
  | a :: l => match f b a with Ok b' => try_fold f b' l | Err e => Err e end
  end.

Lemma bind_Ok {A B} (m : result A) (f : A → result B) b :
  mbind f m = Ok b ↔ ∃ a, m = Ok a ∧ f a = Ok b.
Proof. destruct m; cbn; naive_solver. Qed.

Lemma fmap_Ok {A B} (m : result A) (f : A → B) b :
  f <$> m = Ok b ↔ ∃ a, m = Ok a ∧ f a = b.
Proof. destruct m; cbn; split; [eauto| |eauto|]; naive_solver. Qed.

Lemma ok_or_Ok {A} (o : option A) e a : ok_or o e = Ok a ↔ o = Some a.
Proof. destruct o; cbn; naive_solver. Qed.

Lemma mapM_Ok {A B} (f : A → result B) l k :
  mapM f l = Ok k ↔ Forall2 (λ x y, f x = Ok y) l k.
Proof.
  revert k. induction l as [|x l IH]; intros k; cbn.
  - split; [intros [= <-]; constructor | inversion 1; done].
  - split.
    + rewrite bind_Ok. intros (y & Hy & H).
      apply bind_Ok in H as (k' & Hk & [= <-]).
      constructor; [done|]. by apply IH.
    + inversion 1 as [|? y ? k' Hxy Hk]; subst. rewrite Hxy. cbn.
      apply IH in Hk. by rewrite Hk.
Qed.

Lemma mapM_cons {A B} (f : A → result B) x l :
  mapM f (x :: l) = (y ← f x; k ← mapM f l; mret (y :: k)).
Proof. done. Qed.

Lemma mapM_app_err {A B} (f : A → result B) l1 x k e :
  mapM f l1 = Ok k → f x = Err e → mapM f (l1 ++ [x]) = Err e.
Proof.
  revert k. induction l1 as [|y l1 IH]; intros k Hk Hx; cbn in *; [by rewrite Hx|].
  destruct (f y) as [b|]; cbn in *; [|done]. destruct (mapM f l1) as [k1|]; cbn in *; [|done].
  by rewrite (IH k1).
Qed.

Lemma try_fold_app {A B} (f : B → A → result B) b l1 l2 :
  try_fold f b (l1 ++ l2) =
  match try_fold f b l1 with Ok b' => try_fold f b' l2 | Err e => Err e end.
Proof.
  revert b. induction l1 as [|a l1 IH]; intros b; cbn; [done|].
  destruct (f b a); [apply IH|done].
Qed.

(** Opens every successful step of a fallible computation in a hypothesis. *)
Ltac inv_ok :=
  repeat match goal with
  | H : Ok _ = Ok _ |- _ => injection H as H
  | H : Err _ = Ok _ |- _ => discriminate H
  | H : Ok _ = Err _ |- _ => discriminate H
  | H : mbind _ _ = Ok _ |- _ => apply bind_Ok in H as (? & ? & H)
  | H : fmap _ _ = Ok _ |- _ => apply fmap_Ok in H as (? & ? & H)
  | H : ok_or _ _ = Ok _ |- _ => apply ok_or_Ok in H
  end; subst.

(** ** Machine integers: [i64] with two's complement wrap-around *)

Definition i64_min : Z := - 2 ^ 63.
Definition i64_max : Z := 2 ^ 63 - 1.
Definition u64_max : Z := 2 ^ 64 - 1.

Definition in_i64 (z : Z) : bool := (i64_min <=? z)%Z && (z <=? i64_max)%Z.
Definition in_u64 (z : Z) : bool := (0 <=? z)%Z && (z <=? u64_max)%Z.

Definition i64_wrap (z : Z) : Z := (z + 2 ^ 63) `mod` 2 ^ 64 - 2 ^ 63.

(** [a + b] on [i64] in a build without overflow checks. *)
Definition i64_add (a b : Z) : Z := i64_wrap (a + b).

Lemma i64_wrap_range z : (i64_min ≤ i64_wrap z ≤ i64_max)%Z.
Proof.
  unfold i64_wrap, i64_min, i64_max.
  pose proof (Z.mod_pos_bound (z + 2 ^ 63) (2 ^ 64) ltac:(lia)). lia.
Qed.

Lemma i64_wrap_id z : (i64_min ≤ z ≤ i64_max)%Z → i64_wrap z = z.
Proof.
  unfold i64_wrap, i64_min, i64_max. intros H. rewrite Z.mod_small; lia.
Qed.

Lemma i64_add_small a b :
  (i64_min ≤ a + b ≤ i64_max)%Z → i64_add a b = (a + b)%Z.
Proof. apply i64_wrap_id. Qed.

(** ** Ordered maps and sets ([BTreeMap], [BTreeSet])

    A [BTreeMap<K, V>] is a [gmap K V], whose equality is extensional; its
    iteration order is that of the keys, which [bt_iter] makes explicit. *)

Class KeyOrd (K : Type) := {
  key_le : relation K;
  key_le_dec :: RelDecision key_le;
  key_le_trans :: Transitive key_le;
  key_le_total :: Total key_le;
  key_le_antisymm :: AntiSymm (=) key_le;
}.

#[export] Instance Z_key : KeyOrd Z.
Proof. refine {| key_le := Z.le |}. Defined.

#[export] Instance N_key : KeyOrd N.
Proof. refine {| key_le := N.le |}. Defined.

#[export] Instance string_key : KeyOrd string.
Proof. refine {| key_le := String.le |}. Defined.

Section btree.
Context {K : Type} `{Countable K} `{!KeyOrd K}.

Definition entry_le {V} (a b : K * V) : Prop := key_le a.1 b.1.
#[global] Instance entry_le_dec {V} : RelDecision (@entry_le V).
Proof. intros a b. unfold entry_le. apply _. Defined.
#[global] Instance entry_le_trans {V} : Transitive (@entry_le V).
Proof. intros a b c. unfold entry_le. apply transitivity. Qed.
#[global] Instance entry_le_total {V} : Total (@entry_le V).
Proof. intros a b. unfold entry_le. apply total, _. Qed.

(** [m.iter()] *)
Definition bt_iter {V} (m : gmap K V) : list (K * V) :=
  merge_sort entry_le (map_to_list m).
(** [m.keys()] *)
Definition bt_keys {V} (m : gmap K V) : list K := (bt_iter m).*1.
(** [m.values()] *)
Definition bt_values {V} (m : gmap K V) : list V := (bt_iter m).*2.
(** [s.iter()] of a [BTreeSet] *)
Definition bs_iter (s : gset K) : list K := merge_sort key_le (elements s).

Lemma bt_iter_Permutation {V} (m : gmap K V) : bt_iter m ≡ₚ map_to_list m.
Proof. apply merge_sort_Permutation. Qed.

Lemma elem_of_bt_iter {V} (m : gmap K V) k v :
  (k, v) ∈ bt_iter m ↔ m !! k = Some v.
Proof. by rewrite bt_iter_Permutation, elem_of_map_to_list. Qed.

Lemma bt_keys_NoDup {V} (m : gmap K V) : NoDup (bt_keys m).
Proof.
  unfold bt_keys. rewrite bt_iter_Permutation. apply NoDup_fst_map_to_list.
Qed.

Lemma elem_of_bt_keys {V} (m : gmap K V) k :
  k ∈ bt_keys m ↔ is_Some (m !! k).
Proof.
  unfold bt_keys. rewrite list_elem_of_fmap. split.
  - intros ([k' v] & -> & Hin). apply elem_of_bt_iter in Hin. by exists v.
  - intros [v Hv]. exists (k, v). by rewrite elem_of_bt_iter.
Qed.

Lemma elem_of_bt_values {V} (m : gmap K V) v :
  v ∈ bt_values m ↔ ∃ k, m !! k = Some v.
Proof.
  unfold bt_values. rewrite list_elem_of_fmap. split.
  - intros ([k v'] & -> & Hin). apply elem_of_bt_iter in Hin. by exists k.
  - intros [k Hv]. exists (k, v). by rewrite elem_of_bt_iter.
Qed.

Lemma bt_iter_sorted {V} (m : gmap K V) : StronglySorted entry_le (bt_iter m).
Proof. apply StronglySorted_merge_sort; apply _. Qed.

Lemma bt_iter_empty {V} : bt_iter (∅ : gmap K V) = [].
Proof. unfold bt_iter. by rewrite map_to_list_empty. Qed.

Lemma length_bt_iter {V} (m : gmap K V) : length (bt_iter m) = size m.
Proof. rewrite bt_iter_Permutation. apply length_map_to_list. Qed.

Lemma elem_of_bs_iter (s : gset K) k : k ∈ bs_iter s ↔ k ∈ s.
Proof. unfold bs_iter. by rewrite merge_sort_Permutation, elem_of_elements. Qed.

Lemma bs_iter_NoDup (s : gset K) : NoDup (bs_iter s).
Proof. unfold bs_iter. rewrite merge_sort_Permutation. apply NoDup_elements. Qed.

Lemma bs_iter_sorted (s : gset K) : StronglySorted key_le (bs_iter s).
Proof. apply StronglySorted_merge_sort; apply _. Qed.

Lemma bs_iter_empty : bs_iter ∅ = [].
Proof. unfold bs_iter. by rewrite elements_empty. Qed.

Lemma length_bs_iter (s : gset K) : length (bs_iter s) = size s.
Proof. unfold bs_iter. by rewrite merge_sort_Permutation. Qed.

(** Ordered iteration is determined by the contents. *)
Lemma sorted_NoDup_unique (l1 l2 : list K) :
  StronglySorted key_le l1 → StronglySorted key_le l2 →
  NoDup l1 → NoDup l2 → (∀ x, x ∈ l1 ↔ x ∈ l2) → l1 = l2.
Proof.
  intros Hs1 Hs2 Hn1 Hn2 Hel.
  eapply (StronglySorted_unique key_le); [exact Hs1|exact Hs2|].
  by apply NoDup_Permutation.
Qed.
End btree.

(** [map.extend(entries)]: later entries overwrite earlier ones. *)
Definition bt_extend {K V} `{Countable K} (m : gmap K V) (l : list (K * V)) : gmap K V :=
  foldl (λ m e, <[e.1 := e.2]> m) m l.

Lemma lookup_bt_extend_iter {K V} `{Countable K} `{!KeyOrd K} (m p : gmap K V) :
  bt_extend m (bt_iter p) = p ∪ m.
Proof.
  unfold bt_extend. apply map_eq; intros k.
  assert (∀ (l : list (K * V)) (m : gmap K V), NoDup l.*1 →
    foldl (λ m e, <[e.1 := e.2]> m) m l !! k
    = ((list_to_map l : gmap K V) ∪ m) !! k) as Haux.
  { clear m. induction l as [|[j v] l IH]; intros m Hnd; cbn.
    - by rewrite (left_id_L ∅ (∪)).
    - apply NoDup_cons in Hnd as [Hj Hnd]. rewrite IH by done.
      destruct (decide (j = k)) as [->|Hne].
      + rewrite lookup_union_r by (by apply not_elem_of_list_to_map_1).
        rewrite lookup_insert_eq. symmetry. apply lookup_union_Some_l, lookup_insert_eq.
      + rewrite !lookup_union, !lookup_insert_ne by done. done. }
  rewrite Haux by apply bt_keys_NoDup. do 2 f_equal.
  rewrite <-(list_to_map_to_list p) at 2.
  apply list_to_map_proper; [apply bt_keys_NoDup|apply bt_iter_Permutation].
Qed.

(** ** Folds over lists of updates *)

(** A field of a record updated in a loop is itself updated in a loop. *)
Lemma foldl_field {S A F} (fld : S → F) (f : S → A → S) (g : F → A → F) l s :
  (∀ s a, fld (f s a) = g (fld s) a) → fld (foldl f s l) = foldl g (fld s) l.
Proof.
  intros Hfld. revert s. induction l as [|a l IH]; intros s; cbn; [done|].
  by rewrite IH, Hfld.
Qed.

(** A field no iteration touches keeps its value. *)
Lemma foldl_frame {S A F} (fld : S → F) (f : S → A → S) l s :
  (∀ s a, fld (f s a) = fld s) → fld (foldl f s l) = fld s.
Proof.
  intros Hfld. revert s. induction l as [|a l IH]; intros s; cbn; [done|].
  by rewrite IH, Hfld.
Qed.

Lemma foldl_inv {S A} (P : S → Prop) (f : S → A → S) l s :
  P s → (∀ s a, a ∈ l → P s → P (f s a)) → P (foldl f s l).
Proof.
  revert s. induction l as [|a l IH]; intros s Hs Hf; cbn; [done|].
  apply IH; [apply Hf; [left|done]|]. intros; apply Hf; [by right|done].
Qed.

(** A nested loop is a loop over the concatenation. *)
Lemma foldl_concat {A B S} (f : S → B → S) (g : A → list B) l s :
  foldl (λ s a, foldl f s (g a)) s l = foldl f s (concat (map g l)).
Proof.
  revert s. induction l as [|a l IH]; intros s; cbn; [done|].
  by rewrite foldl_app, IH.
Qed.

Lemma StronglySorted_sublist {A} (R : relation A) l1 l2 :
  l1 `sublist_of` l2 → StronglySorted R l2 → StronglySorted R l1.
Proof.
  induction 1 as [|x l1 l2 Hsub IH|x l1 l2 Hsub IH]; [constructor| |].
  - intros [Hs Hf]%StronglySorted_inv. constructor; [by apply IH|].
    rewrite Forall_forall in Hf |- *. intros y Hy. eapply Hf, elem_of_sublist; eauto.
  - intros [Hs _]%StronglySorted_inv. by apply IH.
Qed.

Lemma list_to_map_bt_iter {K V} `{Countable K} `{!KeyOrd K} (m : gmap K V) :
  list_to_map (bt_iter m) = m.
Proof.
  rewrite <-(list_to_map_to_list m) at 2.
  apply list_to_map_proper; [apply bt_keys_NoDup|apply bt_iter_Permutation].
Qed.


(** [m.iter().map(|(k, v)| Ok((k, f(v)?))).collect::<Result<BTreeMap<_, _>>>()] *)
Definition bt_try_map {K V W} `{Countable K} `{!KeyOrd K} (f : V → result W)
    (m : gmap K V) : result (gmap K W) :=
  list_to_map <$> mapM (λ e : K * V, w ← f e.2; Ok (e.1, w)) (bt_iter m).

Lemma bt_try_map_Ok {K V W} `{Countable K} `{!KeyOrd K} (f : V → result W) (m : gmap K V)
    (m' : gmap K W) :
  bt_try_map f m = Ok m' →
  ∀ k, match m !! k, m' !! k with
       | Some v, Some w => f v = Ok w
       | None, None => True
       | _, _ => False
       end.
Proof.
  unfold bt_try_map. intros (l & Hl & <-)%fmap_Ok k. apply mapM_Ok in Hl.
  assert (Forall2 (λ e e' : K * _, e.1 = e'.1 ∧ f e.2 = Ok e'.2) (bt_iter m) l) as HF.
  { eapply Forall2_impl; [exact Hl|]. intros e e' He. by apply bind_Ok in He as (w & ? & [= <-]). }
  assert (l.*1 = bt_keys m) as Hkeys.
  { unfold bt_keys. clear Hl. by induction HF as [|e e' ? ? [? ?] ? IH]; cbn; [|f_equal]. }
  assert (NoDup l.*1) as Hnd by (rewrite Hkeys; apply bt_keys_NoDup).
  destruct (m !! k) as [v|] eqn:Hv.
  - apply elem_of_bt_iter, list_elem_of_lookup in Hv as [i Hi].
    eapply Forall2_lookup_l in HF as ([k' w] & Hi' & Heq & Hf); [|exact Hi]. cbn in *. subst k'.
    rewrite (elem_of_list_to_map_1 l k w); [done|done|]. by eapply list_elem_of_lookup_2.
  - destruct (list_to_map l !! k) as [w|] eqn:Hw; [|done].
    apply elem_of_list_to_map_2 in Hw.
    assert (k ∈ l.*1) as Hk by (apply list_elem_of_fmap; by exists (k, w)).
    rewrite Hkeys, elem_of_bt_keys, Hv in Hk. by destruct Hk.
Qed.

Lemma bt_try_map_total {K V W} `{Countable K} `{!KeyOrd K} (f : V → result W) (m : gmap K V) :
  (∀ k v, m !! k = Some v → ∃ w, f v = Ok w) → ∃ m', bt_try_map f m = Ok m'.
Proof.
  intros Hf. unfold bt_try_map.
  assert (∀ e, e ∈ bt_iter m → ∃ w, f e.2 = Ok w) as Hf'.
  { intros [k v] He%elem_of_bt_iter. by eapply Hf. }
  induction (bt_iter m) as [|e l IH]; [by eexists|]. cbn.
  destruct (Hf' e (list_elem_of_here _ _)) as [w ->]. cbn.
  destruct IH as [m' Hm']; [intros e' He'; apply Hf'; by right|].
  apply fmap_Ok in Hm' as (l' & -> & _). cbn. by eexists.
Qed.

Lemma bt_try_map_inverse {K V W} `{Countable K} `{!KeyOrd K} (f : V → result W)
    (g : W → result V) (m : gmap K V) (m' : gmap K W) :
  bt_try_map f m = Ok m' →
  (∀ k v w, m !! k = Some v → f v = Ok w → g w = Ok v) →
  bt_try_map g m' = Ok m.
Proof.
  intros Hm' Hg. pose proof (bt_try_map_Ok _ _ _ Hm') as Hf.
  destruct (bt_try_map_total g m') as [m'' Hm''].
  { intros k w Hw. specialize (Hf k). rewrite Hw in Hf.
    destruct (m !! k) as [v|] eqn:Hv; [|done]. eauto. }
  rewrite Hm''. f_equal. apply map_eq. intros k.
  pose proof (bt_try_map_Ok _ _ _ Hm'' k) as Hk. specialize (Hf k).
  destruct (m !! k) as [v|] eqn:Hv, (m' !! k) as [w|], (m'' !! k) as [v'|]; try done.
  f_equal. rewrite (Hg _ _ _ Hv Hf) in Hk. by injection Hk.
Qed.
