(* ===== verification/Text.v ===== *)
(** * Rust strings

    A [String]/[&str] is a Rocq [string] whose characters are the UTF-8 bytes.
    A [char] is the (short) string of its bytes.  The functions here are the
    [str] and integer parsing and printing functions of the language's
    standard library that the modelled code calls. *)

From Stdlib Require Export Ascii String.
From S2P Require Export Prelude.

#[global] Arguments String.append !_ _ / : simpl nomatch.
#[global] Arguments String.eqb : simpl never.

Local Open Scope string_scope.
Local Open Scope Z_scope.

(** ** Bytes and characters *)

Definition byte_val (c : ascii) : Z := Z.of_N (N_of_ascii c).
Definition byte_in (lo hi : Z) (c : ascii) : bool :=
  (lo <=? byte_val c) && (byte_val c <=? hi).

Definition is_ascii_digit (c : ascii) : bool := byte_in 48 57 c.
Definition is_ascii_uppercase (c : ascii) : bool := byte_in 65 90 c.
Definition is_ascii_lowercase (c : ascii) : bool := byte_in 97 122 c.
Definition is_ascii_alphabetic (c : ascii) : bool :=
  is_ascii_uppercase c || is_ascii_lowercase c.
Definition is_ascii_alphanumeric (c : ascii) : bool :=
  is_ascii_alphabetic c || is_ascii_digit c.

(** [s.chars().all(p)] for a predicate that only holds of ASCII characters:
    the bytes of a non-ASCII character are all at least 128. *)
Fixpoint all_chars (p : ascii → bool) (s : string) : bool :=
  match s with EmptyString => true | String c s => p c && all_chars p s end.

Definition is_continuation (c : ascii) : bool := byte_in 128 191 c.

(** [s.chars()]: a character starts at every byte that is not a UTF-8
    continuation byte. *)
Fixpoint utf8_chars (s : string) : list string :=
  match s with
  | EmptyString => []
  | String b s =>
      match utf8_chars s with
      | (String c cs) :: k =>
          if is_continuation c then String b (String c cs) :: k
          else String b EmptyString :: String c cs :: k
      | k => String b EmptyString :: k
      end
  end.

Definition concat_chars (l : list string) : string := foldr String.append "" l.

Lemma concat_utf8_chars s : concat_chars (utf8_chars s) = s.
Proof.
  induction s as [|b s IH]; cbn; [done|]. rewrite <-IH at 2.
  destruct (utf8_chars s) as [|[|c cs] k]; cbn; [done..|].
  destruct (is_continuation c); done.
Qed.

Definition bytes (l : list Z) : string :=
  foldr (λ b s, String (ascii_of_N (Z.to_N b)) s) "" l.

(** The Unicode [White_Space] characters, in UTF-8. *)
Definition whitespace_chars : list string :=
  map bytes
    [[9]; [10]; [11]; [12]; [13]; [32]; [194; 133]; [194; 160];
     [225; 154; 128];
     [226; 128; 128]; [226; 128; 129]; [226; 128; 130]; [226; 128; 131];
     [226; 128; 132]; [226; 128; 133]; [226; 128; 134]; [226; 128; 135];
     [226; 128; 136]; [226; 128; 137]; [226; 128; 138];
     [226; 128; 168]; [226; 128; 169]; [226; 128; 175]; [226; 129; 159];
     [227; 128; 128]].

(** [char::is_whitespace] *)
Definition char_is_whitespace (c : string) : bool :=
  existsb (String.eqb c) whitespace_chars.

Fixpoint skip_while {A} (p : A → bool) (l : list A) : list A :=
  match l with
  | [] => []
  | x :: l' => if p x then skip_while p l' else l
  end.

(** [str::trim], [str::trim_end] *)
Definition str_trim_end (s : string) : string :=
  concat_chars (rev (skip_while char_is_whitespace (rev (utf8_chars s)))).
Definition str_trim (s : string) : string :=
  concat_chars
    (rev (skip_while char_is_whitespace
       (rev (skip_while char_is_whitespace (utf8_chars s))))).

(** [str::to_ascii_lowercase] *)
Definition ascii_lower (c : ascii) : ascii :=
  if is_ascii_uppercase c then ascii_of_N (N_of_ascii c + 32) else c.
Fixpoint to_ascii_lowercase (s : string) : string :=
  match s with
  | EmptyString => EmptyString
  | String c s => String (ascii_lower c) (to_ascii_lowercase s)
  end.

(** [str::from_utf8] succeeds. *)
Fixpoint utf8_valid (s : string) : bool :=
  match s with
  | EmptyString => true
  | String a s =>
      if byte_in 0 127 a then utf8_valid s
      else match s with
           | EmptyString => false
           | String b s =>
               if byte_in 194 223 a then is_continuation b && utf8_valid s
               else match s with
                    | EmptyString => false
                    | String c s =>
                        if byte_in 224 239 a
                        then byte_in (if byte_in 224 224 a then 160 else 128)
                                     (if byte_in 237 237 a then 159 else 191) b
                             && is_continuation c && utf8_valid s
                        else match s with
                             | EmptyString => false
                             | String d s =>
                                 byte_in 240 244 a
                                 && byte_in (if byte_in 240 240 a then 144 else 128)
                                            (if byte_in 244 244 a then 143 else 191) b
                                 && is_continuation c && is_continuation d && utf8_valid s
                             end
                    end
           end
  end.

(** ** Prefixes, suffixes, substrings, splitting *)

Definition str_is_empty (s : string) : bool := String.eqb s "".

(** [str::strip_prefix] *)
Fixpoint str_strip_prefix (p s : string) : option string :=
  match p, s with
  | EmptyString, _ => Some s
  | String a p, String b s => if Ascii.eqb a b then str_strip_prefix p s else None
  | String _ _, EmptyString => None
  end.

Definition str_starts_with (p s : string) : bool := bool_decide (is_Some (str_strip_prefix p s)).

(** [str::strip_suffix] *)
Fixpoint str_strip_suffix (p s : string) : option string :=
  if String.eqb s p then Some ""
  else match s with
       | EmptyString => None
       | String c s => String c <$> str_strip_suffix p s
       end.

Definition str_ends_with (p s : string) : bool := bool_decide (is_Some (str_strip_suffix p s)).

(** [s.split_once(p)] *)
Fixpoint split_once (p s : string) : option (string * string) :=
  match str_strip_prefix p s with
  | Some rest => Some ("", rest)
  | None =>
      match s with
      | EmptyString => None
      | String c s => (λ kv, (String c kv.1, kv.2)) <$> split_once p s
      end
  end.

(** [s.contains(p)] *)
Definition str_contains (p s : string) : bool := bool_decide (is_Some (split_once p s)).

(** [s.split(c)] *)
Fixpoint split_char (sep : ascii) (s : string) : list string :=
  match s with
  | EmptyString => [""]
  | String c s =>
      if Ascii.eqb c sep then "" :: split_char sep s
      else match split_char sep s with
           | x :: l => String c x :: l
           | [] => [String c ""]
           end
  end.

(** [s[..n]] and [s[n..]], at a character boundary *)
Fixpoint str_take (n : nat) (s : string) : string :=
  match n, s with
  | S n, String c s => String c (str_take n s)
  | _, _ => ""
  end.
Fixpoint str_drop (n : nat) (s : string) : string :=
  match n, s with
  | O, _ => s
  | S n, String _ s => str_drop n s
  | S _, EmptyString => EmptyString
  end.

(** [parts.join(sep)] *)
Definition join (sep : string) (l : list string) : string := String.concat sep l.

(** [s.trim_start_matches(p)] *)
Fixpoint trim_start_matches_fuel (fuel : nat) (p s : string) : string :=
  match fuel with
  | O => s
  | S fuel =>
      match str_strip_prefix p s with
      | Some rest => if str_is_empty p then s else trim_start_matches_fuel fuel p rest
      | None => s
      end
  end.
Definition trim_start_matches (p s : string) : string :=
  trim_start_matches_fuel (String.length s) p s.

Lemma str_strip_prefix_Some p s r : str_strip_prefix p s = Some r ↔ s = p +:+ r.
Proof.
  revert s. induction p as [|a p IH]; intros s; cbn.
  { destruct s; split; congruence. }
  destruct s as [|b s]; [by split|].
  destruct (Ascii.eqb_spec a b) as [->|Hne].
  - rewrite IH. split; [by intros ->|by intros [= ->]].
  - split; congruence.
Qed.

Lemma starts_with_spec p s : str_starts_with p s = true ↔ ∃ r, s = p +:+ r.
Proof.
  unfold str_starts_with. rewrite bool_decide_eq_true. unfold is_Some.
  by setoid_rewrite str_strip_prefix_Some.
Qed.

Lemma split_once_Some p s k v :
  split_once p s = Some (k, v) → s = k +:+ p +:+ v.
Proof.
  revert k v. induction s as [|c s IH]; intros k v; cbn.
  - destruct (str_strip_prefix p "") eqn:Hp; [|done].
    intros [= <- <-]. by apply str_strip_prefix_Some in Hp.
  - destruct (str_strip_prefix p (String c s)) eqn:Hp.
    + intros [= <- <-]. by apply str_strip_prefix_Some in Hp.
    + destruct (split_once p s) as [[k' v']|] eqn:Hs; [|done]; cbn.
      intros [= <- <-]. cbn. f_equal. by apply IH.
Qed.

Lemma str_strip_suffix_Some p s r : str_strip_suffix p s = Some r → s = r +:+ p.
Proof.
  revert r. induction s as [|c s IH]; intros r; cbn.
  - destruct (String.eqb_spec "" p) as [<-|]; [|done]. by intros [= <-].
  - destruct (String.eqb_spec (String c s) p) as [<-|]; [by intros [= <-]|].
    destruct (str_strip_suffix p s) eqn:Hs; [|done]; cbn. intros [= <-]; cbn.
    f_equal. by apply IH.
Qed.

(** ** Printing and parsing integers *)

Definition digit_char (d : Z) : ascii := ascii_of_N (Z.to_N (48 + d)).
Definition digit_val (c : ascii) : option Z :=
  if is_ascii_digit c then Some (byte_val c - 48) else None.

Fixpoint digits_fuel (fuel : nat) (n : Z) (acc : string) : string :=
  match fuel with
  | O => acc
  | S fuel =>
      let acc := String (digit_char (n `mod` 10)) acc in
      if n <? 10 then acc else digits_fuel fuel (n `div` 10) acc
  end.

(** Decimal digits of a non-negative integer. *)
Definition u_to_string (n : Z) : string :=
  digits_fuel (S (Z.to_nat (Z.log2 n))) n "".

(** [Display] for the integer types *)
Definition Z_to_string (z : Z) : string :=
  if z <? 0 then String "-" (u_to_string (- z)) else u_to_string z.
Definition nat_to_string (n : nat) : string := u_to_string (Z.of_nat n).

Fixpoint parse_digits (s : string) (acc : Z) : option Z :=
  match s with
  | EmptyString => Some acc
  | String c s => d ← digit_val c; parse_digits s (acc * 10 + d)
  end.

Definition check_range (lo hi : Z) (o : option Z) : option Z :=
  z ← o; if (lo <=? z) && (z <=? hi) then Some z else None.

(** [str::parse] at a signed integer type with range [lo..=hi] *)
Definition parse_signed (lo hi : Z) (s : string) : option Z :=
  match s with
  | "" | "+" | "-" => None
  | String "+" r => check_range lo hi (parse_digits r 0)
  | String "-" r => check_range lo hi (Z.opp <$> parse_digits r 0)
  | _ => check_range lo hi (parse_digits s 0)
  end.

(** [str::parse] at an unsigned integer type *)
Definition parse_unsigned (hi : Z) (s : string) : option Z :=
  match s with
  | "" | "+" | "-" => None
  | String "+" r => check_range 0 hi (parse_digits r 0)
  | _ => check_range 0 hi (parse_digits s 0)
  end.

Definition parse_i64 : string → option Z := parse_signed i64_min i64_max.
Definition parse_i128 : string → option Z := parse_signed (- 2 ^ 127) (2 ^ 127 - 1).
(** [usize] of a 64-bit target *)
Definition parse_usize : string → option Z := parse_unsigned u64_max.

Lemma parse_i64_range s z : parse_i64 s = Some z → in_i64 z = true.
Proof.
  unfold parse_i64, parse_signed, in_i64. intros Hz.
  repeat case_match; try done; unfold check_range in Hz;
    apply bind_Some in Hz as (z' & _ & Hz); destruct (_ && _) eqn:Hr; naive_solver.
Qed.

Lemma byte_val_digit d : 0 ≤ d < 10 → byte_val (digit_char d) = 48 + d.
Proof.
  intros Hd. unfold byte_val, digit_char. rewrite N_ascii_embedding; lia.
Qed.

Lemma digit_val_digit d : 0 ≤ d < 10 → digit_val (digit_char d) = Some d.
Proof.
  intros Hd. unfold digit_val, is_ascii_digit, byte_in.
  rewrite byte_val_digit by done.
  rewrite (proj2 (Z.leb_le 48 _)), (proj2 (Z.leb_le _ 57)) by lia. cbn. f_equal. lia.
Qed.

Lemma parse_digits_fuel fuel n s :
  0 ≤ n < 2 ^ Z.of_nat fuel →
  parse_digits (digits_fuel fuel n s) 0 = parse_digits s n.
Proof.
  revert n s. induction fuel as [|fuel IH]; intros n s Hn.
  { cbn in *. replace n with 0 by lia. done. }
  assert (0 ≤ n `mod` 10 < 10) as Hm by (apply Z.mod_pos_bound; lia).
  cbn -[Z.mul]. destruct (Z.ltb_spec n 10) as [Hlt|Hge].
  - cbn. rewrite digit_val_digit by done. cbn. f_equal. rewrite Z.mod_small; lia.
  - rewrite IH.
    + cbn. rewrite digit_val_digit by done. cbn. f_equal.
      pose proof (Z.div_mod n 10 ltac:(lia)). lia.
    + rewrite Nat2Z.inj_succ, Z.pow_succ_r in Hn by lia.
      split; [apply Z.div_pos; lia|]. apply Z.div_lt_upper_bound; lia.
Qed.

Lemma log2_fuel n : 0 ≤ n → n < 2 ^ Z.of_nat (S (Z.to_nat (Z.log2 n))).
Proof.
  intros Hn. rewrite Nat2Z.inj_succ, Z2Nat.id by apply Z.log2_nonneg.
  destruct (decide (n = 0)) as [->|Hne]; [done|].
  apply Z.log2_spec. lia.
Qed.

Lemma parse_u_to_string n : 0 ≤ n → parse_digits (u_to_string n) 0 = Some n.
Proof.
  intros Hn. unfold u_to_string. rewrite parse_digits_fuel; [done|].
  split; [done|]. by apply log2_fuel.
Qed.

(** ** Characters and trimming *)

Local Open Scope list_scope.

(** A character: a byte, then continuation bytes. *)
Definition char_ok (c : string) : Prop :=
  ∃ b cs, c = String b cs ∧ all_chars is_continuation cs = true.
Definition char_starts (c : string) : Prop :=
  ∃ b cs, c = String b cs ∧ is_continuation b = false ∧ all_chars is_continuation cs = true.

Definition chunked (l : list string) : Prop :=
  match l with [] => True | c :: l => char_ok c ∧ Forall char_starts l end.

Lemma char_starts_ok c : char_starts c → char_ok c.
Proof. intros (b & cs & ? & _ & ?). by exists b, cs. Qed.

Lemma utf8_chars_chunked s : chunked (utf8_chars s).
Proof.
  induction s as [|b s IH]; cbn; [done|].
  destruct (utf8_chars s) as [|c k]; [by split; [exists b, ""|]|].
  destruct IH as [(b' & cs & -> & Hcs) Hk]. destruct (is_continuation b') eqn:Hb'; cbn.
  - split; [|done]. exists b, (String b' cs). cbn. by rewrite Hb'.
  - split; [by exists b, ""|]. constructor; [by exists b', cs|done].
Qed.

Lemma utf8_chars_concat l : chunked l → utf8_chars (concat_chars l) = l.
Proof.
  assert (∀ l, Forall char_starts l → utf8_chars (concat_chars l) = l →
    ∀ cs b, all_chars is_continuation cs = true →
    utf8_chars (String b (cs +:+ concat_chars l)) = String b cs :: l) as Haux.
  { clear l. intros l Hl IH cs. induction cs as [|c cs IHcs]; intros b Hcs.
    - cbn [String.append]. cbn [utf8_chars]. rewrite IH.
      destruct Hl as [|? l (b' & cs' & -> & Hb' & _)]; [done|]. by rewrite Hb'.
    - cbn in Hcs. apply andb_true_iff in Hcs as [Hc Hcs].
      specialize (IHcs c Hcs). cbn [String.append]. cbn [utf8_chars] in IHcs |- *.
      rewrite IHcs. by rewrite Hc. }
  assert (∀ l, Forall char_starts l → utf8_chars (concat_chars l) = l) as Hstarts.
  { clear l. induction l as [|c l IH]; [done|].
    intros [(b & cs & -> & _ & Hcs) Hl]%Forall_cons. cbn [concat_chars foldr String.append].
    apply Haux; auto. }
  destruct l as [|c l]; [done|]. intros [(b & cs & -> & Hcs) Hl].
  cbn [concat_chars foldr String.append]. apply Haux; auto.
Qed.

Lemma chunked_infix l1 l2 l3 : chunked (l1 ++ l2 ++ l3) → chunked l2.
Proof.
  destruct l1 as [|c l1]; cbn.
  - destruct l2 as [|c l2]; cbn; [done|]. intros [? [? ?]%Forall_app]. done.
  - intros [_ Hl]. apply Forall_app in Hl as [_ Hl]. apply Forall_app in Hl as [Hl _].
    destruct Hl as [|c' l2 Hc ?]; [done|]. split; [by apply char_starts_ok|done].
Qed.

Section skip.
Context {A : Type} (p : A → bool).

Lemma skip_while_split l : ∃ d, l = d ++ skip_while p l.
Proof.
  induction l as [|x l [d IH]]; cbn; [by exists []|].
  destruct (p x); [|by exists []]. exists (x :: d). cbn. by f_equal.
Qed.

Lemma skip_while_head l x k : skip_while p l = x :: k → p x = false.
Proof.
  induction l as [|y l IH]; cbn; [done|]. destruct (p y) eqn:Hy; [done|]. by intros [= -> ->].
Qed.

Lemma skip_while_fix l : (∀ x k, l = x :: k → p x = false) → skip_while p l = l.
Proof. destruct l as [|x l]; [done|]. intros Hl. cbn. by rewrite (Hl x l). Qed.

(** Both ends dropped. *)
Definition skip_both (l : list A) : list A := rev (skip_while p (rev (skip_while p l))).

Lemma skip_both_infix l : ∃ pre post, l = pre ++ skip_both l ++ post.
Proof.
  destruct (skip_while_split l) as [pre Hpre].
  destruct (skip_while_split (rev (skip_while p l))) as [post Hpost].
  exists pre, (rev post). unfold skip_both. rewrite <-rev_app_distr, <-Hpost, rev_involutive. done.
Qed.

Lemma skip_both_idem l : skip_both (skip_both l) = skip_both l.
Proof.
  unfold skip_both. set (m := skip_while p l). set (r := skip_while p (rev m)).
  destruct (skip_while_split (rev m)) as [d Hd]. fold r in Hd.
  assert (skip_while p (rev r) = rev r) as ->.
  { apply skip_while_fix. intros x k Hx. apply (skip_while_head l x (k ++ rev d)). fold m.
    rewrite <-(rev_involutive m), Hd, rev_app_distr, Hx. done. }
  rewrite rev_involutive. f_equal. apply skip_while_fix. intros x k Hx.
  by apply (skip_while_head (rev m) x k).
Qed.
End skip.

Lemma str_trim_idem s : str_trim (str_trim s) = str_trim s.
Proof.
  unfold str_trim at 1. unfold str_trim at 1.
  fold (skip_both char_is_whitespace (utf8_chars s)).
  destruct (skip_both_infix char_is_whitespace (utf8_chars s)) as (pre & post & Hs).
  rewrite utf8_chars_concat.
  - fold (skip_both char_is_whitespace (skip_both char_is_whitespace (utf8_chars s))).
    by rewrite skip_both_idem.
  - apply (chunked_infix pre _ post). rewrite <-Hs. apply utf8_chars_chunked.
Qed.

(** ** Splitting and digits *)

Lemma length_append s t : String.length (s +:+ t) = (String.length s + String.length t)%nat.
Proof. induction s as [|c s IH]; cbn; [done|]. by rewrite IH. Qed.

Lemma append_assoc s t u : (s +:+ t) +:+ u = s +:+ t +:+ u.
Proof. induction s as [|c s IH]; cbn; [done|]. by rewrite IH. Qed.

Lemma append_nil_r s : s +:+ "" = s.
Proof. induction s as [|c s IH]; cbn; [done|]. by rewrite IH. Qed.

Lemma all_chars_app p s t : all_chars p (s +:+ t) = all_chars p s && all_chars p t.
Proof. induction s as [|c s IH]; cbn; [done|]. by rewrite IH, andb_assoc. Qed.

Lemma all_chars_impl (p q : ascii → bool) s :
  (∀ c, p c = true → q c = true) → all_chars p s = true → all_chars q s = true.
Proof.
  intros Hpq. induction s as [|c s IH]; cbn; [done|].
  rewrite !andb_true_iff. intros [? ?]. auto.
Qed.

Lemma str_strip_prefix_app p s : str_strip_prefix p (p +:+ s) = Some s.
Proof. by apply str_strip_prefix_Some. Qed.

Lemma str_strip_suffix_app s p : str_strip_suffix p (s +:+ p) = Some s.
Proof.
  induction s as [|c s IH]; cbn [String.append].
  - destruct p; cbn; by rewrite ?String.eqb_refl.
  - cbn [str_strip_suffix]. rewrite (proj2 (String.eqb_neq _ _)).
    + by rewrite IH.
    + intros Heq%(f_equal String.length). cbn in Heq. rewrite length_append in Heq. lia.
Qed.

(** No character of [s] is [c]. *)
Definition lacks (c : ascii) : string → bool := all_chars (λ x, negb (Ascii.eqb x c)).

Lemma split_char_lacks c s : lacks c s = true → split_char c s = [s].
Proof.
  induction s as [|b s IH]; cbn; [done|]. rewrite andb_true_iff, negb_true_iff.
  intros [-> Hs]. by rewrite IH.
Qed.

Lemma split_char_app c s t :
  lacks c s = true → split_char c (s +:+ String c t) = s :: split_char c t.
Proof.
  induction s as [|b s IH]; cbn; [by rewrite Ascii.eqb_refl|].
  rewrite andb_true_iff, negb_true_iff. intros [-> Hs]. by rewrite IH.
Qed.

(** The parts are free of the separator and joined by it. *)
Lemma split_char_parts c s :
  ∃ x l, split_char c s = x :: l ∧ Forall (λ p, lacks c p = true) (x :: l) ∧
         s = join (String c "") (x :: l).
Proof.
  induction s as [|b s (x & l & Heq & Hl & Hs)]; cbn; [by exists "", []; repeat constructor|].
  rewrite Heq. destruct (Ascii.eqb_spec b c) as [->|Hb].
  - exists "", (x :: l). split_and!; [done|by constructor|]. by rewrite Hs.
  - exists (String b x), l. apply Forall_cons in Hl as [Hx Hl]. split_and!; [done| |].
    + constructor; [|done]. cbn. rewrite andb_true_iff, negb_true_iff. split; [|done].
      by apply Ascii.eqb_neq.
    + rewrite Hs. by destruct l.
Qed.

Definition digits_only : string → bool := all_chars is_ascii_digit.

Lemma digits_lack c s : is_ascii_digit c = false → digits_only s = true → lacks c s = true.
Proof.
  intros Hc. apply all_chars_impl. intros x Hx. apply negb_true_iff, Ascii.eqb_neq.
  intros ->. congruence.
Qed.

Lemma is_digit_digit_char d : 0 ≤ d < 10 → is_ascii_digit (digit_char d) = true.
Proof.
  intros Hd. unfold is_ascii_digit, byte_in. rewrite byte_val_digit by done.
  apply andb_true_iff. rewrite !Z.leb_le. lia.
Qed.

Lemma digits_only_fuel fuel n acc :
  digits_only acc = true → digits_only (digits_fuel fuel n acc) = true.
Proof.
  revert n acc. induction fuel as [|fuel IH]; intros n acc Hacc; cbn -[Z.modulo]; [done|].
  assert (digits_only (String (digit_char (n `mod` 10)) acc) = true) as Hd.
  { cbn -[Z.modulo]. rewrite is_digit_digit_char; [done|]. apply Z.mod_pos_bound. lia. }
  case_match; [done|]. by apply IH.
Qed.

Lemma u_to_string_digits n : digits_only (u_to_string n) = true.
Proof. by apply digits_only_fuel. Qed.

Lemma digits_fuel_length fuel n acc k :
  0 ≤ n < 10 ^ Z.of_nat k → (0 < k)%nat →
  (String.length (digits_fuel fuel n acc) ≤ k + String.length acc)%nat.
Proof.
  revert n acc k. induction fuel as [|fuel IH]; intros n acc k Hn Hk; cbn -[Z.modulo]; [lia|].
  destruct (Z.ltb_spec n 10); cbn -[Z.modulo]; [lia|].
  destruct k as [|[|k]]; [lia|cbn in Hn; lia|].
  etrans; [apply (IH _ _ (S k)); [|lia]|cbn; lia].
  split; [apply Z.div_pos; lia|]. apply Z.div_lt_upper_bound; [lia|].
  rewrite <-Z.pow_succ_r, <-Nat2Z.inj_succ by lia. lia.
Qed.

Lemma digits_fuel_nonempty fuel n acc :
  str_is_empty acc = false → str_is_empty (digits_fuel fuel n acc) = false.
Proof.
  revert n acc. induction fuel as [|fuel IH]; intros n acc Hacc; cbn -[Z.modulo]; [done|].
  case_match; [done|]. by apply IH.
Qed.

Lemma u_to_string_nonempty n : str_is_empty (u_to_string n) = false.
Proof.
  unfold u_to_string. cbn -[Z.modulo]. case_match; [done|]. by apply digits_fuel_nonempty.
Qed.

Lemma u_to_string_length n k :
  0 ≤ n < 10 ^ Z.of_nat k → (0 < k)%nat → (String.length (u_to_string n) ≤ k)%nat.
Proof. intros. etrans; [by apply (digits_fuel_length _ _ _ k)|cbn; lia]. Qed.

Lemma parse_digits_app s t acc :
  parse_digits (s +:+ t) acc = parse_digits s acc ≫= parse_digits t.
Proof.
  revert acc. induction s as [|c s IH]; intros acc; cbn; [done|].
  destruct (digit_val c); cbn; [apply IH|done].
Qed.

(** The value of a text of digits. *)
Definition dval (s : string) : Z := default 0 (parse_digits s 0).

Lemma parse_digits_only s acc :
  digits_only s = true →
  parse_digits s acc = Some (acc * 10 ^ Z.of_nat (String.length s) + dval s) ∧
  0 ≤ dval s < 10 ^ Z.of_nat (String.length s).
Proof.
  assert (∀ s (acc : Z), digits_only s = true → ∃ v, 0 ≤ v < 10 ^ Z.of_nat (String.length s) ∧
    ∀ acc, parse_digits s acc = Some (acc * 10 ^ Z.of_nat (String.length s) + v)) as Haux.
  { clear s acc. induction s as [|c s IH]; intros acc Hs.
    { exists 0. split; [cbn; lia|]. intros a. cbn. f_equal. lia. }
    apply andb_true_iff in Hs as [Hc Hs]. destruct (IH 0 Hs) as (v & Hv & Hp).
    pose proof Hc as Hd. unfold is_ascii_digit, byte_in in Hd.
    apply andb_true_iff in Hd as [Hlo%Z.leb_le Hhi%Z.leb_le].
    cbn [String.length parse_digits]. rewrite Nat2Z.inj_succ, Z.pow_succ_r by lia.
    exists ((byte_val c - 48) * 10 ^ Z.of_nat (String.length s) + v). split; [nia|].
    intros a. unfold digit_val. rewrite Hc. cbn -[Z.mul]. rewrite Hp. f_equal. lia. }
  intros Hs. destruct (Haux s acc Hs) as (v & Hv & Hp).
  assert (dval s = v) as -> by (unfold dval; rewrite Hp; cbn; lia). by rewrite Hp.
Qed.

Lemma dval_app s t :
  digits_only s = true → digits_only t = true →
  dval (s +:+ t) = dval s * 10 ^ Z.of_nat (String.length t) + dval t.
Proof.
  intros Hs Ht. unfold dval at 1. rewrite parse_digits_app.
  destruct (parse_digits_only s 0 Hs) as [-> _]. cbn -[Z.mul Z.add].
  destruct (parse_digits_only t (0 * 10 ^ Z.of_nat (String.length s) + dval s) Ht) as [-> _].
  cbn -[Z.mul Z.add]. lia.
Qed.

Lemma dval_u_to_string n : 0 ≤ n → dval (u_to_string n) = n.
Proof. intros Hn. unfold dval. by rewrite parse_u_to_string. Qed.

Lemma parse_signed_digits lo hi s :
  digits_only s = true → str_is_empty s = false → lo ≤ dval s ≤ hi →
  parse_signed lo hi s = Some (dval s).
Proof.
  intros Hs Hne Hr. destruct (parse_digits_only s 0 Hs) as [Hp _].
  assert (parse_signed lo hi s = check_range lo hi (parse_digits s 0)) as ->.
  { destruct s as [|[[] [] [] [] [] [] [] []] s]; try done; by destruct s. }
  rewrite Hp, Z.mul_0_l, Z.add_0_l. unfold check_range. cbn -[Z.leb].
  by rewrite (proj2 (Z.leb_le lo _)), (proj2 (Z.leb_le _ hi)) by lia.
Qed.

(** A printed integer is read back, when it is in the range of the type. *)
Lemma parse_signed_to_string lo hi z :
  parse_signed lo hi (Z_to_string z) = check_range lo hi (Some z).
Proof.
  unfold Z_to_string. destruct (Z.ltb_spec z 0).
  - pose proof (u_to_string_nonempty (- z)) as Hne.
    assert (parse_signed lo hi (String "-" (u_to_string (- z)))
            = check_range lo hi (Z.opp <$> parse_digits (u_to_string (- z)) 0)) as ->
      by (by destruct (u_to_string (- z))).
    rewrite parse_u_to_string by lia. cbn -[check_range]. by rewrite Z.opp_involutive.
  - pose proof (u_to_string_nonempty z) as Hne. pose proof (u_to_string_digits z) as Hd.
    assert (parse_signed lo hi (u_to_string z)
            = check_range lo hi (parse_digits (u_to_string z) 0)) as ->.
    { destruct (u_to_string z) as [|[[] [] [] [] [] [] [] []] s]; try done; by destruct s. }
    by rewrite parse_u_to_string.
Qed.

(** ** Strings from the end *)

Lemma str_rev_ind (P : string → Prop) :
  P "" → (∀ c s, P s → P (s +:+ String c "")) → ∀ s, P s.
Proof.
  intros Hnil Hsnoc s. rewrite <-(string_of_list_ascii_of_string s).
  induction (list_ascii_of_string s) as [|c l IH] using rev_ind; [done|].
  assert (string_of_list_ascii (l ++ [c]) = string_of_list_ascii l +:+ String c "") as ->; [|auto].
  clear. induction l as [|d l IH]; [done|]. cbn. by rewrite IH.
Qed.

Lemma str_snoc_inj s t c d : s +:+ String c "" = t +:+ String d "" → s = t ∧ c = d.
Proof.
  revert t. induction s as [|x s IH]; intros [|y t]; cbn; [by intros [=]| | |].
  - intros [= -> Heq]. by destruct t.
  - intros [= -> Heq]. by destruct s.
  - intros [= -> [-> ->]%IH]. done.
Qed.

Lemma str_snoc_nil s c : s +:+ String c "" ≠ "".
Proof. by destruct s. Qed.
