(* ===== verification/Json.v ===== *)
(** * JSON values and [f64]

    [serde_json::Value] is an enum whose variants the code matches on, so it
    is an inductive type here.  [serde_json::Number] is opaque to the code,
    which only calls its accessors: it is a type-class parameter
    [SerdeNumber], with what its documentation promises in [NumberLaws].
    [f64] is the language's: IEEE 754 binary64, as the Standard Library's
    [spec_float]. *)

From Stdlib Require Export SpecFloat.
From S2P Require Export Prelude.

(** ** [f64] *)

Abbreviation f64 := spec_float.

Definition f64_prec : Z := 53.
Definition f64_emax : Z := 1024.

(** [z as f64]: round to nearest, ties to even. *)
Definition f64_of_Z (z : Z) : f64 := binary_normalize f64_prec f64_emax z 0 false.

(** The canonical representatives of the format. *)
Definition f64_valid (x : f64) : bool := valid_binary f64_prec f64_emax x.

Definition f64_is_finite (x : f64) : bool :=
  match x with S754_zero _ | S754_finite _ _ _ => true | _ => false end.

(** [f64::to_bits] *)
Definition f64_to_bits (x : f64) : Z :=
  let sign (s : bool) : Z := (if s then 2 ^ 63 else 0)%Z in
  match x with
  | S754_zero s => sign s
  | S754_infinity s => sign s + 2047 * 2 ^ 52
  | S754_nan => 4095 * 2 ^ 51
  | S754_finite s m e =>
      if (Zpos m <? 2 ^ 52)%Z
      then sign s + Zpos m
      else sign s + (e + 1075) * 2 ^ 52 + (Zpos m - 2 ^ 52)
  end%Z.

(** [==], [<], [<=] on [f64] *)
Definition f64_eqb (x y : f64) : bool := SFeqb x y.
Definition f64_ltb (x y : f64) : bool := SFltb x y.
Definition f64_leb (x y : f64) : bool := SFleb x y.

(** The two zeros are equal and have different bits. *)
Definition signed_zero_pair (x y : f64) : Prop :=
  match x, y with S754_zero s, S754_zero t => s ≠ t | _, _ => False end.

Lemma f64_eqb_bits x y :
  f64_eqb x y = true → ¬ signed_zero_pair x y → f64_to_bits x = f64_to_bits y.
Proof.
  unfold f64_eqb, SFeqb, signed_zero_pair.
  destruct x as [[]|[]| |[] m e], y as [[]|[]| |[] n d]; cbn; intros Heq Hz;
    try discriminate; try reflexivity; try (exfalso; by apply Hz).
  all: destruct (e ?= d)%Z eqn:He; try discriminate.
  all: apply Z.compare_eq in He as ->.
  all: change (Pos.compare_cont Eq m n) with (m ?= n)%positive in Heq.
  all: destruct (m ?= n)%positive eqn:Hm; try discriminate.
  all: by apply Pos.compare_eq in Hm as ->.
Qed.

(** ** [serde_json::Number] *)

Class SerdeNumber := {
  Number : Type;
  (** [PartialEq] *)
  number_eqb : Number → Number → bool;
  number_as_i64 : Number → option Z;
  number_as_u64 : Number → option Z;
  number_as_f64 : Number → option f64;
  number_is_f64 : Number → bool;
  (** [Number::from(i64)], [Number::from(u64)] and [Number::from_f64] *)
  number_from_i64 : Z → Number;
  number_from_u64 : Z → Number;
  number_from_f64 : f64 → option Number;
  (** [Display] *)
  number_to_string : Number → string;
}.

(** [is_i64] and [is_u64] hold exactly when the accessor returns a value. *)
Definition number_is_i64 `{SerdeNumber} (n : Number) : bool :=
  bool_decide (is_Some (number_as_i64 n)).
Definition number_is_u64 `{SerdeNumber} (n : Number) : bool :=
  bool_decide (is_Some (number_as_u64 n)).

Class NumberLaws `{SerdeNumber} : Prop := {
  number_eqb_refl n : number_eqb n n = true;
  number_eqb_accessors m n :
    number_eqb m n = true →
    number_as_i64 m = number_as_i64 n ∧ number_as_u64 m = number_as_u64 n ∧
    match number_as_f64 m, number_as_f64 n with
    | Some x, Some y => x = y ∨ f64_eqb x y = true
    | None, None => True
    | _, _ => False
    end;
  number_from_i64_as z :
    in_i64 z = true → number_as_i64 (number_from_i64 z) = Some z;
  number_from_u64_as z :
    in_u64 z = true → number_as_u64 (number_from_u64 z) = Some z;
  number_as_i64_from n z :
    number_as_i64 n = Some z → in_i64 z = true;
  number_from_f64_as x n :
    number_from_f64 x = Some n →
    number_is_f64 n = true ∧ number_as_f64 n = Some x;
  number_from_f64_finite x :
    f64_is_finite x = true → f64_valid x = true → is_Some (number_from_f64 x);
  (** "For any Number on which is_f64 returns true, as_f64 is guaranteed to
      return the floating point value", and such a number is not an integer. *)
  number_is_f64_as n :
    number_is_f64 n = true →
    is_Some (number_as_f64 n) ∧ number_as_i64 n = None ∧ number_as_u64 n = None;
  (** A number is an [i64], a [u64] or an [f64], and compares by its value; a
      float is finite, so its bits identify it. *)
  number_cases n :
    number_is_f64 n = true ∨ is_Some (number_as_i64 n) ∨ is_Some (number_as_u64 n);
  number_eqb_i64 m n z :
    number_as_i64 m = Some z → number_as_i64 n = Some z → number_eqb m n = true;
  number_eqb_u64 m n z :
    number_as_u64 m = Some z → number_as_u64 n = Some z → number_eqb m n = true;
  number_eqb_f64 m n x y :
    number_is_f64 m = true → number_is_f64 n = true →
    number_as_f64 m = Some x → number_as_f64 n = Some y →
    f64_to_bits x = f64_to_bits y → number_eqb m n = true;
  number_eqb_is_f64 m n :
    number_eqb m n = true → number_is_f64 m = number_is_f64 n;
  (** "Only finite values are allowed", and they are values of the format. *)
  number_is_f64_finite n x :
    number_is_f64 n = true → number_as_f64 n = Some x →
    f64_is_finite x = true ∧ f64_valid x = true;
}.

(** ** [serde_json::Value] *)

Section value.
Context `{SerdeNumber}.

(** An [Object] lists its entries in key order, as the default [BTreeMap]
    representation of [serde_json::Map] iterates. *)
Inductive Value : Type :=
  | Null
  | Bool (b : bool)
  | Num (n : Number)
  | Str (s : string)
  | Array (l : list Value)
  | Object (m : list (string * Value)).

(** [PartialEq for Value] *)
Fixpoint value_eqb (v w : Value) {struct v} : bool :=
  match v, w with
  | Null, Null => true
  | Bool a, Bool b => Bool.eqb a b
  | Num m, Num n => number_eqb m n
  | Str s, Str t => String.eqb s t
  | Array l, Array k =>
      (fix go l k {struct l} :=
         match l, k with
         | [], [] => true
         | x :: l, y :: k => value_eqb x y && go l k
         | _, _ => false
         end) l k
  | Object l, Object k =>
      (fix go l k {struct l} :=
         match l, k with
         | [], [] => true
         | (i, x) :: l, (j, y) :: k => String.eqb i j && value_eqb x y && go l k
         | _, _ => false
         end) l k
  | _, _ => false
  end.

Definition as_str (v : Value) : option string :=
  match v with Str s => Some s | _ => None end.
Definition as_bool (v : Value) : option bool :=
  match v with Bool b => Some b | _ => None end.
Definition as_number (v : Value) : option Number :=
  match v with Num n => Some n | _ => None end.
Definition as_object (v : Value) : option (list (string * Value)) :=
  match v with Object m => Some m | _ => None end.
Definition as_i64 (v : Value) : option Z :=
  match v with Num n => number_as_i64 n | _ => None end.
Definition as_u64 (v : Value) : option Z :=
  match v with Num n => number_as_u64 n | _ => None end.
Definition as_f64 (v : Value) : option f64 :=
  match v with Num n => number_as_f64 n | _ => None end.
Definition is_object (v : Value) : bool :=
  match v with Object _ => true | _ => false end.

(** [Map::get] *)
Fixpoint object_get (m : list (string * Value)) (key : string) : option Value :=
  match m with
  | [] => None
  | (k, v) :: m => if String.eqb k key then Some v else object_get m key
  end.

(** [Value::from(i64)] *)
Definition value_from_i64 (z : Z) : Value := Num (number_from_i64 z).
Definition value_from_u64 (z : Z) : Value := Num (number_from_u64 z).

Section induction.
Context (P : Value → Prop).
Context (Hnull : P Null) (Hbool : ∀ b, P (Bool b)) (Hnum : ∀ n, P (Num n)).
Context (Hstr : ∀ s, P (Str s)).
Context (Harr : ∀ l, Forall P l → P (Array l)).
Context (Hobj : ∀ m, Forall (λ e, P e.2) m → P (Object m)).

Fixpoint value_nested_ind (v : Value) : P v :=
  match v with
  | Null => Hnull
  | Bool b => Hbool b
  | Num n => Hnum n
  | Str s => Hstr s
  | Array l => Harr l
      ((fix go l : Forall P l :=
          match l with
          | [] => @List.Forall_nil _ P
          | x :: l => @List.Forall_cons _ P x l (value_nested_ind x) (go l)
          end) l)
  | Object m => Hobj m
      ((fix go m : Forall (λ e, P e.2) m :=
          match m with
          | [] => @List.Forall_nil _ (λ e, P e.2)
          | e :: m =>
              @List.Forall_cons _ (λ e, P e.2) e m (value_nested_ind e.2) (go m)
          end) m)
  end.
End induction.

Lemma value_eqb_refl `{!NumberLaws} v : value_eqb v v = true.
Proof.
  induction v as [|b|n|s|l IH|m IH] using value_nested_ind; cbn; try done.
  - by destruct b.
  - apply number_eqb_refl.
  - apply String.eqb_refl.
  - induction IH as [|x l Hx _ IHl]; [done|]. by rewrite Hx, IHl.
  - induction IH as [|[k x] m Hx _ IHm]; [done|]. cbn in Hx.
    by rewrite String.eqb_refl, Hx, IHm.
Qed.
End value.

(** [dsl::Props] *)
Abbreviation Props := (gmap string Value).
