(* ===== verification/Numbers.v ===== *)
(** * A concrete [serde_json::Number]

    The development is parametric in [SerdeNumber].  This file gives the
    reading of the crate's documentation under its default features (a number
    is a [u64], a negative [i64] or a finite [f64]) and proves that it
    satisfies [NumberLaws], so that the hypotheses on numbers can hold. *)

From S2P Require Export Prelude Text Json.

Definition u64_ok (z : Z) : bool := (0 <=? z)%Z && (z <=? u64_max)%Z.
Definition neg_ok (z : Z) : bool := (i64_min <=? z)%Z && (z <? 0)%Z.
Definition float_ok (x : f64) : bool :=
  f64_is_finite x && f64_valid x.

Inductive number_repr : Type :=
  | PosInt (z : Z) (H : u64_ok z = true)
  | NegInt (z : Z) (H : neg_ok z = true)
  | Float (x : f64) (H : float_ok x = true).

Definition repr_eqb (m n : number_repr) : bool :=
  match m, n with
  | PosInt a _, PosInt b _ | NegInt a _, NegInt b _ => (a =? b)%Z
  | Float x _, Float y _ => f64_eqb x y
  | _, _ => false
  end.

Definition repr_as_i64 (n : number_repr) : option Z :=
  match n with
  | PosInt z _ => if (z <=? i64_max)%Z then Some z else None
  | NegInt z _ => Some z
  | Float _ _ => None
  end.
Definition repr_as_u64 (n : number_repr) : option Z :=
  match n with PosInt z _ => Some z | _ => None end.
Definition repr_as_f64 (n : number_repr) : option f64 :=
  match n with
  | PosInt z _ | NegInt z _ => Some (f64_of_Z z)
  | Float x _ => Some x
  end.
Definition repr_is_f64 (n : number_repr) : bool :=
  match n with Float _ _ => true | _ => false end.

Lemma u64_ok_zero : u64_ok 0 = true.
Proof. reflexivity. Qed.

(** A value outside [i64] is no argument the code can pass. *)
Definition repr_from_i64 (z : Z) : number_repr :=
  match decide (u64_ok z = true) with
  | left H => PosInt z H
  | right _ =>
      match decide (neg_ok z = true) with
      | left H => NegInt z H
      | right _ => PosInt 0 u64_ok_zero
      end
  end.
Definition repr_from_u64 (z : Z) : number_repr :=
  match decide (u64_ok z = true) with
  | left H => PosInt z H
  | right _ => PosInt 0 u64_ok_zero
  end.
Definition repr_from_f64 (x : f64) : option number_repr :=
  match decide (float_ok x = true) with
  | left H => Some (Float x H)
  | right _ => None
  end.

(** Decimal digits for integers; the shortest round-trip rendering of a float
    is not modelled, its bits stand for it. *)
Definition repr_to_string (n : number_repr) : string :=
  match n with
  | PosInt z _ | NegInt z _ => Z_to_string z
  | Float x _ => String.append "f" (Z_to_string (f64_to_bits x))
  end.

Definition serde_default : SerdeNumber := {|
  Number := number_repr;
  number_eqb := repr_eqb;
  number_as_i64 := repr_as_i64;
  number_as_u64 := repr_as_u64;
  number_as_f64 := repr_as_f64;
  number_is_f64 := repr_is_f64;
  number_from_i64 := repr_from_i64;
  number_from_u64 := repr_from_u64;
  number_from_f64 := repr_from_f64;
  number_to_string := repr_to_string;
|}.

Lemma f64_eqb_refl x : float_ok x = true → f64_eqb x x = true.
Proof.
  unfold f64_eqb, SFeqb. destruct x as [s| | |s m e]; cbn; try done.
  intros _. rewrite Z.compare_refl. change (Pos.compare_cont Eq m m) with (m ?= m)%positive.
  rewrite Pos.compare_refl. by destruct s.
Qed.

Lemma digits2_pos_bounds m :
  (2 ^ (Zpos (digits2_pos m) - 1) ≤ Zpos m < 2 ^ Zpos (digits2_pos m))%Z.
Proof.
  induction m as [m IH|m IH|]; cbn [digits2_pos]; [| |cbn; lia].
  all: rewrite Pos2Z.inj_succ; set (d := Zpos (digits2_pos m)) in *.
  all: assert (0 < d)%Z by (unfold d; lia).
  all: replace (Z.succ d - 1)%Z with (Z.succ (d - 1)) by lia.
  all: rewrite !Z.pow_succ_r by lia; lia.
Qed.

(** A finite float of the format is subnormal or has 53 significant bits. *)
Lemma float_ok_finite s m e :
  float_ok (S754_finite s m e) = true →
  (Zpos m < 2 ^ 53)%Z ∧ (-1074 ≤ e ≤ 971)%Z ∧
  ((Zpos m < 2 ^ 52)%Z → e = (-1074)%Z).
Proof.
  unfold float_ok, f64_valid, valid_binary, bounded, canonical_mantissa, fexp, emin.
  cbn [f64_is_finite]. rewrite !andb_true_l, andb_true_iff, Z.eqb_eq, Z.leb_le.
  unfold f64_prec, f64_emax. intros [Hc Hle].
  destruct (digits2_pos_bounds m) as [Hlo Hhi].
  set (d := Zpos (digits2_pos m)) in *.
  assert (0 < d)%Z by (unfold d; lia).
  assert (d ≤ 53)%Z as Hd by lia.
  split_and!; [|lia|lia|].
  - eapply Z.lt_le_trans; [exact Hhi|]. apply Z.pow_le_mono_r; lia.
  - intros Hm. assert (¬ (53 ≤ d)%Z); [|lia]. intros Hd'.
    assert (2 ^ 52 ≤ 2 ^ (d - 1))%Z by (apply Z.pow_le_mono_r; lia). lia.
Qed.

(** On finite floats of the format, the bits determine the value. *)
Lemma f64_to_bits_inj x y :
  float_ok x = true → float_ok y = true → f64_to_bits x = f64_to_bits y → x = y.
Proof.
  destruct x as [s| | |s m e], y as [t| | |t n d]; intros Hx Hy; try discriminate;
    try apply float_ok_finite in Hx as (? & ? & ?);
    try apply float_ok_finite in Hy as (? & ? & ?);
    unfold f64_to_bits; repeat case_match; try done; try lia; intros Hb;
    repeat match goal with
    | H : (_ <? _)%Z = true |- _ => apply Z.ltb_lt in H
    | H : (_ <? _)%Z = false |- _ => apply Z.ltb_ge in H
    end; try lia.
  all: try (f_equal; lia).
Qed.

#[export] Instance serde_default_laws : @NumberLaws serde_default.
Proof.
  constructor; cbn.
  - intros [z H|z H|x H]; cbn; [apply Z.eqb_refl..|by apply f64_eqb_refl].
  - intros [a Ha|a Ha|x Hx] [b Hb|b Hb|y Hy]; cbn; try discriminate.
    + intros ->%Z.eqb_eq. split_and!; [done|done|by left].
    + intros ->%Z.eqb_eq. split_and!; [done|done|by left].
    + intros Heq. by split_and!; [| |right].
  - intros z. unfold in_i64, repr_from_i64, repr_as_i64. intros Hz.
    apply andb_true_iff in Hz as [Hlo Hhi]. apply Z.leb_le in Hlo.
    destruct (decide (u64_ok z = true)) as [Hd|Hd]; [by rewrite Hhi|].
    destruct (decide (neg_ok z = true)) as [Hd'|Hd']; [done|].
    exfalso. apply Z.leb_le in Hhi. unfold u64_ok, neg_ok, u64_max, i64_max in *.
    rewrite andb_true_iff, Z.leb_le, Z.leb_le in Hd.
    rewrite andb_true_iff, Z.leb_le, Z.ltb_lt in Hd'. lia.
  - intros z Hz. unfold repr_from_u64. by destruct (decide (u64_ok z = true)).
  - intros [z H|z H|x H] z'; cbn; [case_match; [|done]| |done]; intros [= <-];
      unfold in_i64, u64_ok, neg_ok, i64_min, i64_max in *;
      rewrite ?andb_true_iff, ?Z.leb_le, ?Z.ltb_lt in *; lia.
  - intros x n. unfold repr_from_f64. case_decide as Hx; [|done]. by intros [= <-].
  - intros x Hf Hv. unfold repr_from_f64.
    case_decide as Hx; [by eexists|]. destruct Hx. unfold float_ok. by rewrite Hf, Hv.
  - intros [z H|z H|x H]; cbn; naive_solver.
  - intros [z H|z H|x H]; cbn; eauto.
  - intros [a Ha|a Ha|x Hx] [b Hb|b Hb|y Hy] z; cbn; repeat case_match;
      intros; simplify_eq; try apply Z.eqb_refl; unfold u64_ok, neg_ok in *;
      rewrite ?andb_true_iff, ?Z.leb_le, ?Z.ltb_lt in *; lia.
  - intros [a Ha|a Ha|x Hx] [b Hb|b Hb|y Hy] z; cbn; intros; simplify_eq;
      apply Z.eqb_refl.
  - intros [a Ha|a Ha|x Hx] [b Hb|b Hb|y Hy] ? ?; cbn; intros; simplify_eq.
    rewrite (f64_to_bits_inj _ _ Hx Hy) by done. by apply f64_eqb_refl.
  - by intros [a Ha|a Ha|x Hx] [b Hb|b Hb|y Hy].
  - intros [a Ha|a Ha|x Hx] y; cbn; try done. intros _ [= <-]. by apply andb_true_iff in Hx.
Qed.
