(* ===== verification/Dsl.v ===== *)
(** * The query language: filters, patterns, the kernel graph query

    Models [src/src/dsl/] (compare, eval, graph, nodepattern, paging,
    property, query, result) and the model traits of [src/src/model/]. *)

From S2P Require Export Prelude Text Json Numbers.

Local Open Scope string_scope.

(** ** Comparison operators, variables, directions *)

Inductive CompareOp := OpEq | OpNe | OpGt | OpGe | OpLt | OpLe | OpContains.

#[export] Instance CompareOp_eq_dec : EqDecision CompareOp.
Proof. solve_decision. Defined.

(** [VarId(pub u32)] *)
Record VarId := { var_index : N }.

#[export] Instance VarId_eq_dec : EqDecision VarId.
Proof. solve_decision. Defined.
#[export] Instance VarId_countable : Countable VarId.
Proof.
  by refine (inj_countable' var_index (λ n, {| var_index := n |}) _); intros [].
Defined.
#[export] Program Instance VarId_key : KeyOrd VarId :=
  {| key_le a b := (var_index a ≤ var_index b)%N |}.
Next Obligation. intros a b. apply _. Defined.
Next Obligation. intros a b c; cbn. lia. Qed.
Next Obligation. intros a b; cbn. lia. Qed.
Next Obligation. intros [a] [b]; cbn. intros. f_equal. lia. Qed.

Record VarGen := { vg_next : N }.

Definition VarGen_default : VarGen := {| vg_next := 0 |}.

(** [VarGen::fresh]: the counter is a [u32]. *)
Definition fresh (vg : VarGen) : VarId * VarGen :=
  ({| var_index := vg_next vg |}, {| vg_next := (vg_next vg + 1) `mod` 2 ^ 32 |}).

Inductive Direction := DirOut | DirIn | DirBoth.

#[export] Instance Direction_eq_dec : EqDecision Direction.
Proof. solve_decision. Defined.

Inductive ReturnKind := KindNode | KindRel.

#[export] Instance ReturnKind_eq_dec : EqDecision ReturnKind.
Proof. solve_decision. Defined.

Inductive ReturnMode := ReturnRoot | ReturnEnd | ReturnRelMode.

Inductive Return := ReturnNode (v : VarId) | ReturnRel (v : VarId).

Record HopMatch := {
  hop_start : VarId;
  hop_rel_type : option string;
  hop_rel_var : VarId;
  hop_dir : Direction;
  hop_end : VarId;
  hop_end_labels : list string;
}.

(** ** Paging ([dsl/paging.rs]); [usize] is [N] below [2^64]. *)

Definition usize_max : N := 2 ^ 64 - 1.
Definition saturating_add (a b : N) : N := N.min (a + b) usize_max.
Definition len {A} (l : list A) : N := N.of_nat (length l).

Definition apply_paging {A} (items : list A) (offset limit : option N) : list A :=
  let start := default 0%N offset in
  if (len items <=? start)%N then []
  else
    let end_ := match limit with
                | Some limit => N.min (saturating_add start limit) (len items)
                | None => len items
                end in
    take (N.to_nat (end_ - start)) (drop (N.to_nat start) items).

(** The window the pair denotes. *)
Definition page {A} (items : list A) (offset limit : option N) : list A :=
  let rest := drop (N.to_nat (default 0%N offset)) items in
  match limit with Some n => take (N.to_nat n) rest | None => rest end.

(** ** Filters and graph queries *)

Section dsl.
Context `{SerdeNumber}.

Record PropertyFilter := {
  pf_key : string;
  pf_op : CompareOp;
  pf_value : Value;
}.

(** [Property::eq], [ne], [contains], [gt], [lt] *)
Definition property_eq (key : string) (v : Value) : PropertyFilter :=
  {| pf_key := key; pf_op := OpEq; pf_value := v |}.
Definition property_ne (key : string) (v : Value) : PropertyFilter :=
  {| pf_key := key; pf_op := OpNe; pf_value := v |}.
Definition property_contains (key : string) (s : string) : PropertyFilter :=
  {| pf_key := key; pf_op := OpContains; pf_value := Str s |}.
Definition property_gt (key : string) (v : Value) : PropertyFilter :=
  {| pf_key := key; pf_op := OpGt; pf_value := v |}.
Definition property_lt (key : string) (v : Value) : PropertyFilter :=
  {| pf_key := key; pf_op := OpLt; pf_value := v |}.

(** [dsl/eval.rs] *)
Definition numeric_cmp (a b : Value) (cmp : f64 → f64 → bool) : bool :=
  match as_f64 a, as_f64 b with
  | Some la, Some rb => cmp la rb
  | _, _ => false
  end.

Definition filter_matches (value : Value) (op : CompareOp) (rhs : Value) : bool :=
  match op with
  | OpEq => value_eqb value rhs
  | OpNe => negb (value_eqb value rhs)
  | OpGt => numeric_cmp value rhs (λ a b, f64_ltb b a)
  | OpGe => numeric_cmp value rhs (λ a b, f64_leb b a)
  | OpLt => numeric_cmp value rhs f64_ltb
  | OpLe => numeric_cmp value rhs f64_leb
  | OpContains =>
      match as_str value, as_str rhs with
      | Some lhs, Some rhs => str_contains rhs lhs
      | _, _ => false
      end
  end.

Fixpoint props_match_filters (props : Props) (filters : list PropertyFilter) : bool :=
  match filters with
  | [] => true
  | f :: filters =>
      match props !! pf_key f with
      | None => false
      | Some value =>
          if filter_matches value (pf_op f) (pf_value f)
          then props_match_filters props filters
          else false
      end
  end.

Record NodeMatch := {
  nm_var : VarId;
  nm_labels : list string;
  nm_id_filter : option Z;
  nm_property_filters : list PropertyFilter;
}.

Inductive MatchClause :=
  | MatchNode (nm : NodeMatch)
  | MatchHop (hop : HopMatch).

Record GraphQuery := {
  gq_matches : list MatchClause;
  gq_where : list PropertyFilter;
  gq_ret : Return;
  gq_limit : option N;
  gq_offset : option N;
}.

Definition return_var (q : GraphQuery) : VarId :=
  match gq_ret q with ReturnNode v | ReturnRel v => v end.

Definition return_kind (q : GraphQuery) : ReturnKind :=
  match gq_ret q with ReturnNode _ => KindNode | ReturnRel _ => KindRel end.

Definition return_is_rel (q : GraphQuery) : bool :=
  match gq_ret q with ReturnRel _ => true | _ => false end.

(** [None] is the panic of a query that does not start with a node. *)
Definition root_var (q : GraphQuery) : option VarId :=
  match gq_matches q with
  | MatchNode n :: _ => Some (nm_var n)
  | _ => None
  end.

Definition end_var (q : GraphQuery) : option VarId :=
  root ← root_var q;
  Some (foldl (λ e mc, match mc with MatchHop h => hop_end h | _ => e end)
          root (gq_matches q)).

Definition clause_vars (mc : MatchClause) : list VarId :=
  match mc with
  | MatchNode n => [nm_var n]
  | MatchHop h => [hop_rel_var h; hop_end h]
  end.

(** [Vec::dedup]: drops consecutive repetitions. *)
Fixpoint dedup (l : list VarId) : list VarId :=
  match l with
  | x :: (y :: _) as l' => if decide (x = y) then dedup l' else x :: dedup l'
  | _ => l
  end.

Definition bound_vars (q : GraphQuery) : list VarId :=
  dedup (concat (map clause_vars (gq_matches q))).

(** [{:?}] of a [VarId] *)
Definition debug_var (v : VarId) : string :=
  "VarId(" +:+ u_to_string (Z.of_N (var_index v)) +:+ ")".

Definition validate_clause (bound : gset VarId) (mc : MatchClause)
    : result (gset VarId) :=
  match mc with
  | MatchNode n => Ok ({[nm_var n]} ∪ bound)
  | MatchHop h =>
      if decide (hop_start h ∈ bound)
      then Ok ({[hop_end h]} ∪ bound)
      else Err (Mapping ("HopMatch.start " +:+ debug_var (hop_start h)
                         +:+ " not bound before hop"))
  end.

Definition validate (q : GraphQuery) : result unit :=
  match gq_matches q with
  | [] => Err (Mapping "GraphQuery has no match clauses")
  | MatchNode n :: rest =>
      _ ← try_fold validate_clause {[nm_var n]} rest; Ok tt
  | MatchHop _ :: _ => Err (Mapping "GraphQuery must start with NodeMatch")
  end.

(** ** Kernel values and rows *)

Record NodeValue := { nv_id : Z; nv_labels : list string; nv_props : Props }.
Record RelValue := {
  rv_id : Z; rv_ty : string; rv_from : Z; rv_to : Z; rv_props : Props }.

Inductive KernelValue :=
  | KNode (n : NodeValue)
  | KRel (r : RelValue)
  | KScalar (v : Value).

Definition as_node (v : KernelValue) : option NodeValue :=
  match v with KNode n => Some n | _ => None end.

Record QueryRow := { row_values : gmap VarId KernelValue }.
Record QueryResult := { qr_rows : list QueryRow }.

Definition get_returned (row : QueryRow) (gq : GraphQuery) : option KernelValue :=
  match gq_ret gq with
  | ReturnNode v | ReturnRel v => row_values row !! v
  end.
Definition row_contains_key (row : QueryRow) (v : VarId) : bool :=
  bool_decide (is_Some (row_values row !! v)).
Definition row_get (row : QueryRow) (v : VarId) : option KernelValue :=
  row_values row !! v.
End dsl.

(** ** Model traits ([model/nodemodel.rs], [model/relmodel.rs]) *)

Class NodeModel `{SerdeNumber} (M : Type) := {
  LABELS : list string;
  NodeId : Type;
  node_id_into : NodeId → Z;
  node_id_from : Z → NodeId;
  node_id : M → NodeId;
  node_set_id : M → NodeId → M;
  node_to_properties : M → Props;
  node_from_properties : NodeId → Props → result M;
}.
Arguments LABELS {_} M {_}.
Arguments NodeId {_} M {_}.
Arguments node_id_into {_} M {_} _.
Arguments node_id_from {_} M {_} _.
Arguments node_from_properties {_} M {_} _ _.

(** The endpoint ids are passed as the [i64] they convert from. *)
Class RelModel `{SerdeNumber} (R : Type) := {
  TYPE : string;
  RelId : Type;
  rel_id_from : Z → RelId;
  rel_set_id : R → RelId → R;
  rel_set_from : R → Z → R;
  rel_set_to : R → Z → R;
  rel_to_properties : R → Props;
  rel_from_parts : RelId → Z → Z → Props → result R;
  FromLabels : list string;
  ToLabels : list string;
}.
Arguments TYPE {_} R {_}.
Arguments RelId {_} R {_}.
Arguments rel_id_from {_} R {_} _.
Arguments rel_from_parts {_} R {_} _ _ _ _.
Arguments FromLabels {_} R {_}.
Arguments ToLabels {_} R {_}.

(** ** Typed node patterns ([dsl/nodepattern.rs]) *)

Section pattern.
Context `{SerdeNumber}.

Record TraversalStep := {
  ts_dir : Direction;
  ts_rel_type : option string;
  ts_end_labels : list string;
  ts_end_filters : list PropertyFilter;
  ts_end_alias : option string;
}.

Record NodePattern (T : Type) `{!NodeModel T} := {
  np_labels : list string;
  np_alias : option string;
  np_id : option (NodeId T);
  np_property_filters : list PropertyFilter;
  np_traversals : list TraversalStep;
}.
#[global] Arguments np_labels {T _} _.
#[global] Arguments np_alias {T _} _.
#[global] Arguments np_id {T _} _.
#[global] Arguments np_property_filters {T _} _.
#[global] Arguments np_traversals {T _} _.

Section builder.
Context {T : Type} `{!NodeModel T}.

(** [NodePattern::new] *)
Definition pattern_new : NodePattern T :=
  {| np_labels := LABELS T; np_alias := None; np_id := None;
     np_property_filters := []; np_traversals := [] |}.

Definition pattern_alias (p : NodePattern T) (alias : string) : NodePattern T :=
  {| np_labels := np_labels p; np_alias := Some alias; np_id := np_id p;
     np_property_filters := np_property_filters p;
     np_traversals := np_traversals p |}.

Definition pattern_with_id (p : NodePattern T) (id : NodeId T) : NodePattern T :=
  {| np_labels := np_labels p; np_alias := np_alias p; np_id := Some id;
     np_property_filters := np_property_filters p;
     np_traversals := np_traversals p |}.

Definition pattern_filters (p : NodePattern T) (fs : list PropertyFilter)
    : NodePattern T :=
  {| np_labels := np_labels p; np_alias := np_alias p; np_id := np_id p;
     np_property_filters := np_property_filters p ++ fs;
     np_traversals := np_traversals p |}.

Definition pattern_filter (p : NodePattern T) (f : PropertyFilter) : NodePattern T :=
  pattern_filters p [f].

Definition primary_label (p : NodePattern T) : string :=
  default "" (head (np_labels p)).

(** [TraversalBuilder] / [TraversalBuilderAny]: the pattern, the
    direction, and the relationship type when there is one. *)
Record TraversalBuilder := {
  tb_pat : NodePattern T;
  tb_dir : Direction;
  tb_type : option string;
}.

Definition pattern_out R `{!RelModel R} (p : NodePattern T) :=
  {| tb_pat := p; tb_dir := DirOut; tb_type := Some (TYPE R) |}.
Definition pattern_incoming R `{!RelModel R} (p : NodePattern T) :=
  {| tb_pat := p; tb_dir := DirIn; tb_type := Some (TYPE R) |}.
Definition pattern_both R `{!RelModel R} (p : NodePattern T) :=
  {| tb_pat := p; tb_dir := DirBoth; tb_type := Some (TYPE R) |}.
Definition pattern_out_any (p : NodePattern T) :=
  {| tb_pat := p; tb_dir := DirOut; tb_type := None |}.
Definition pattern_incoming_any (p : NodePattern T) :=
  {| tb_pat := p; tb_dir := DirIn; tb_type := None |}.
Definition pattern_both_any (p : NodePattern T) :=
  {| tb_pat := p; tb_dir := DirBoth; tb_type := None |}.

Definition push_traversal (p : NodePattern T) (t : TraversalStep) : NodePattern T :=
  {| np_labels := np_labels p; np_alias := np_alias p; np_id := np_id p;
     np_property_filters := np_property_filters p;
     np_traversals := np_traversals p ++ [t] |}.

(** [to::<M>()] *)
Definition builder_to M `{!NodeModel M} (b : TraversalBuilder) : NodePattern T :=
  push_traversal (tb_pat b)
    {| ts_dir := tb_dir b; ts_rel_type := tb_type b;
       ts_end_labels := LABELS M; ts_end_filters := []; ts_end_alias := None |}.
End builder.

(** [to_where::<M>(build)] *)
Definition builder_to_where {T} `{!NodeModel T} M `{!NodeModel M}
    (b : TraversalBuilder (T := T)) (build : NodePattern M → NodePattern M)
    : NodePattern T :=
  let end_pat := build pattern_new in
  push_traversal (tb_pat b)
    {| ts_dir := tb_dir b; ts_rel_type := tb_type b;
       ts_end_labels := LABELS M;
       ts_end_filters := np_property_filters end_pat;
       ts_end_alias := np_alias end_pat |}.

(** ** Typed queries ([dsl/query.rs]) *)

Record Query (T : Type) `{!NodeModel T} := {
  q_pattern : NodePattern T;
  q_limit : option N;
  q_offset : option N;
  q_return_mode : ReturnMode;
}.
#[global] Arguments q_pattern {T _} _.
#[global] Arguments q_limit {T _} _.
#[global] Arguments q_offset {T _} _.
#[global] Arguments q_return_mode {T _} _.

Section query.
Context {T : Type} `{!NodeModel T}.

Definition query_matching (p : NodePattern T) : Query T :=
  {| q_pattern := p; q_limit := None; q_offset := None;
     q_return_mode := ReturnRoot |}.
Definition query_limit (q : Query T) (n : N) : Query T :=
  {| q_pattern := q_pattern q; q_limit := Some n; q_offset := q_offset q;
     q_return_mode := q_return_mode q |}.
Definition query_offset (q : Query T) (n : N) : Query T :=
  {| q_pattern := q_pattern q; q_limit := q_limit q; q_offset := Some n;
     q_return_mode := q_return_mode q |}.
Definition query_return (q : Query T) (m : ReturnMode) : Query T :=
  {| q_pattern := q_pattern q; q_limit := q_limit q; q_offset := q_offset q;
     q_return_mode := m |}.

(** ** Compilation to the kernel ([Query::compile_to_graph]) *)

(** The loop over the traversal steps: the clauses it pushes, the last
    relationship variable, the current node variable. *)
Fixpoint compile_steps (vg : VarGen) (current : VarId) (last_rel : option VarId)
    (steps : list TraversalStep) : list MatchClause * option VarId * VarId :=
  match steps with
  | [] => ([], last_rel, current)
  | step :: steps =>
      let '(rel_id, vg) := fresh vg in
      let '(end_id, vg) := fresh vg in
      let hop := MatchHop
        {| hop_start := current; hop_rel_type := ts_rel_type step;
           hop_rel_var := rel_id; hop_dir := ts_dir step;
           hop_end := end_id; hop_end_labels := ts_end_labels step |} in
      let node := MatchNode
        {| nm_var := end_id; nm_labels := ts_end_labels step;
           nm_id_filter := None;
           nm_property_filters := ts_end_filters step |} in
      let '(cs, lr, cur) := compile_steps vg end_id (Some rel_id) steps in
      (hop :: node :: cs, lr, cur)
  end.

Definition end_var_from_matches (matches : list MatchClause) (root : VarId) : VarId :=
  foldl (λ last m, match m with MatchNode nm => nm_var nm | _ => last end)
    root matches.

(** [None] is the panic of [return_rel] on a query without traversals. *)
Definition compile_to_graph (q : Query T) : option GraphQuery :=
  let p := q_pattern q in
  let '(root, vg) := fresh VarGen_default in
  let root_match := MatchNode
    {| nm_var := root; nm_labels := np_labels p;
       nm_id_filter := node_id_into T <$> np_id p;
       nm_property_filters := np_property_filters p |} in
  let '(cs, last_rel, _) := compile_steps vg root None (np_traversals p) in
  let matches := root_match :: cs in
  let end_var := end_var_from_matches matches root in
  ret ← match q_return_mode q with
        | ReturnRoot => Some (ReturnNode root)
        | ReturnEnd => Some (ReturnNode end_var)
        | ReturnRelMode => ReturnRel <$> last_rel
        end;
  Some {| gq_matches := matches; gq_where := []; gq_ret := ret;
          gq_limit := q_limit q; gq_offset := q_offset q |}.
End query.
End pattern.

(** ** Facts *)

Lemma drop_ge_len {A} (l : list A) n : (len l ≤ n)%N → drop (N.to_nat n) l = [].
Proof. unfold len. intros. apply drop_ge. lia. Qed.

(** paging returns exactly the window [offset .. offset + limit] of the
    items, including when [offset + limit] would overflow [usize]. *)
Theorem apply_paging_window {A} (items : list A) (offset limit : option N) :
  (len items ≤ usize_max)%N →
  apply_paging items offset limit = page items offset limit.
Proof.
  intros Hlen. unfold apply_paging, page. set (s := default 0%N offset).
  destruct (N.leb_spec (len items) s) as [Hle|Hlt].
  - rewrite drop_ge_len by done. destruct limit; [by rewrite take_nil|done].
  - destruct limit as [n|]; cbn.
    + unfold saturating_add.
      assert (length (drop (N.to_nat s) items) = N.to_nat (len items - s)) as Hl.
      { rewrite length_drop. unfold len in *. lia. }
      destruct (N.leb_spec n (len items - s)).
      * f_equal. unfold len in *. lia.
      * rewrite !take_ge; [done|unfold len in *; lia..].
    + apply take_ge. rewrite length_drop. unfold len. lia.
Qed.

Section facts.
Context `{SerdeNumber}.

(** A reference definition of filtering: every filter finds its property
    and the property satisfies it. *)
Definition filters_hold (props : Props) (filters : list PropertyFilter) : Prop :=
  Forall (λ f, ∃ v, props !! pf_key f = Some v ∧
                    filter_matches v (pf_op f) (pf_value f) = true) filters.

Lemma props_match_filters_spec props filters :
  props_match_filters props filters = true ↔ filters_hold props filters.
Proof.
  unfold filters_hold.
  induction filters as [|f fs IH]; cbn; [split; [constructor|done]|].
  rewrite Forall_cons, <-IH. destruct (props !! pf_key f) as [v|]; [|naive_solver].
  destruct (filter_matches v _ _) eqn:Hm; split; try naive_solver.
Qed.

(** The variables a compiled chain of [n] hops from counter [k] binds. *)
Definition var_at (k : nat) : VarId := {| var_index := N.of_nat k |}.

Lemma fresh_at k :
  (N.of_nat (S k) < 2 ^ 32)%N →
  fresh {| vg_next := N.of_nat k |} = (var_at k, {| vg_next := N.of_nat (S k) |}).
Proof.
  intros Hk. unfold fresh, var_at; cbn. do 2 f_equal.
  rewrite N.mod_small; lia.
Qed.

Lemma compile_steps_cons vg cur lr step steps :
  compile_steps vg cur lr (step :: steps) =
  let '(rel_id, vg) := fresh vg in
  let '(end_id, vg) := fresh vg in
  let '(cs, lr, cur') := compile_steps vg end_id (Some rel_id) steps in
  (MatchHop {| hop_start := cur; hop_rel_type := ts_rel_type step;
               hop_rel_var := rel_id; hop_dir := ts_dir step;
               hop_end := end_id; hop_end_labels := ts_end_labels step |}
   :: MatchNode {| nm_var := end_id; nm_labels := ts_end_labels step;
                   nm_id_filter := None;
                   nm_property_filters := ts_end_filters step |} :: cs, lr, cur').
Proof. done. Qed.

(** Every hop of a compiled chain starts at a bound node variable. *)
Lemma compile_steps_validate steps vg cur lr bound :
  cur ∈ bound →
  is_ok (try_fold validate_clause bound (compile_steps vg cur lr steps).1.1) = true.
Proof.
  revert vg cur lr bound.
  induction steps as [|step steps IH]; intros vg cur lr bound Hcur; [done|].
  rewrite compile_steps_cons. destruct (fresh vg) as [r vg1].
  destruct (fresh vg1) as [e vg2].
  specialize (IH vg2 e (Some r)).
  destruct (compile_steps vg2 e (Some r) steps) as [[cs lr'] cur']; cbn in *.
  rewrite decide_True by done. cbn. apply IH. set_solver.
Qed.

Lemma compile_steps_end steps vg cur lr :
  foldl (λ last m, match m with MatchNode nm => nm_var nm | _ => last end)
    cur (compile_steps vg cur lr steps).1.1
  = (compile_steps vg cur lr steps).2 ∧
  foldl (λ e mc, match mc with MatchHop h => hop_end h | _ => e end)
    cur (compile_steps vg cur lr steps).1.1
  = (compile_steps vg cur lr steps).2.
Proof.
  revert vg cur lr. induction steps as [|step steps IH]; intros vg cur lr; [done|].
  rewrite compile_steps_cons. destruct (fresh vg) as [r vg1].
  destruct (fresh vg1) as [e vg2]. specialize (IH vg2 e (Some r)).
  by destruct (compile_steps vg2 e (Some r) steps) as [[cs lr'] cur']; cbn in *.
Qed.

Lemma compile_steps_last_rel steps vg cur lr :
  (compile_steps vg cur lr steps).1.2 = lr ∧ steps = [] ∨
  steps ≠ [] ∧ is_Some (compile_steps vg cur lr steps).1.2.
Proof.
  destruct steps as [|step steps]; [by left|right; split; [done|]].
  revert vg cur lr step. induction steps as [|step' steps IH]; intros vg cur lr step;
    rewrite compile_steps_cons; destruct (fresh vg) as [r vg1];
    destruct (fresh vg1) as [e vg2]; cbn -[compile_steps].
  - by exists r.
  - specialize (IH vg2 e (Some r) step').
    by destruct (compile_steps vg2 e (Some r) (step' :: steps)) as [[cs lr'] cur'].
Qed.

Lemma compile_steps_vars steps k cur lr :
  (N.of_nat (k + 2 * length steps) < 2 ^ 32)%N →
  let '(cs, lr', cur') :=
    compile_steps {| vg_next := N.of_nat k |} cur lr steps in
  concat (map clause_vars cs) =
    concat (map (λ i, [var_at (k + 2 * i); var_at (S (k + 2 * i)); var_at (S (k + 2 * i))])
              (seq 0 (length steps))) ∧
  match length steps with
  | O => lr' = lr ∧ cur' = cur
  | S n => lr' = Some (var_at (k + 2 * n)) ∧ cur' = var_at (S (k + 2 * n))
  end.
Proof.
  revert k cur lr. induction steps as [|step steps IH]; intros k cur lr Hk; [done|].
  rewrite compile_steps_cons. cbn [length] in Hk.
  rewrite !fresh_at by lia.
  specialize (IH (S (S k)) (var_at (S k)) (Some (var_at k)) ltac:(lia)).
  destruct (compile_steps _ _ _ _) as [[cs lr'] cur']. destruct IH as [Hcs Hend].
  split.
  - cbn. rewrite Hcs, !Nat.add_0_r. do 3 f_equal. rewrite <-seq_shift, map_map.
    f_equal. apply map_ext; intros i.
    by replace (k + (S i + (S i + 0))) with (S (S k) + 2 * i) by lia.
  - cbn. destruct (length steps) as [|n]; destruct Hend as [-> ->].
    + by rewrite !Nat.add_0_r.
    + split; [do 2 f_equal|f_equal]; lia.
Qed.

Lemma dedup_pairs k n :
  dedup (var_at k :: concat (map (λ i, [var_at (S k + 2 * i); var_at (S (S k + 2 * i));
                                        var_at (S (S k + 2 * i))]) (seq 0 n)))
  = map var_at (seq k (S (2 * n))).
Proof.
  revert k. induction n as [|n IH]; intros k; [done|].
  assert (Hne : ∀ a b, a ≠ b → var_at a ≠ var_at b).
  { intros a b Hab [= Heq%Nat2N.inj]. done. }
  assert (Hseq : seq k (S (2 * S n)) = k :: S k :: seq (S (S k)) (S (2 * n))).
  { by replace (S (2 * S n)) with (S (S (S (2 * n)))) by lia. }
  rewrite Hseq. cbn [map]. rewrite <-(IH (S (S k))).
  change (seq 0 (S n)) with (0 :: seq 1 n). cbn [map concat app].
  replace (S k + 2 * 0) with (S k) by lia.
  replace (map (λ i, [var_at (S k + 2 * i); var_at (S (S k + 2 * i));
                      var_at (S (S k + 2 * i))]) (seq 1 n))
    with (map (λ i, [var_at (S (S (S k)) + 2 * i); var_at (S (S (S (S k)) + 2 * i));
                     var_at (S (S (S (S k)) + 2 * i))]) (seq 0 n)).
  2: { rewrite <-seq_shift, map_map. apply map_ext; intros i.
       by replace (S k + 2 * S i) with (S (S (S k)) + 2 * i) by lia. }
  generalize (concat (map (λ i, [var_at (S (S (S k)) + 2 * i);
    var_at (S (S (S (S k)) + 2 * i)); var_at (S (S (S (S k)) + 2 * i))]) (seq 0 n))).
  intros tl. cbn [dedup].
  rewrite decide_False by (apply Hne; lia).
  rewrite decide_False by (apply Hne; lia).
  by rewrite decide_True.
Qed.

Section compiled.
Context {T : Type} `{!NodeModel T}.

Lemma compile_to_graph_inv (q : Query T) g :
  compile_to_graph q = Some g →
  ∃ p cs lr cur ret,
    compile_steps {| vg_next := 1 |} (var_at 0) None (np_traversals (q_pattern q))
      = (cs, lr, cur) ∧
    p = MatchNode {| nm_var := var_at 0; nm_labels := np_labels (q_pattern q);
          nm_id_filter := node_id_into T <$> np_id (q_pattern q);
          nm_property_filters := np_property_filters (q_pattern q) |} ∧
    match q_return_mode q with
    | ReturnRoot => ret = ReturnNode (var_at 0)
    | ReturnEnd => ret = ReturnNode cur
    | ReturnRelMode => ∃ r, lr = Some r ∧ ret = ReturnRel r
    end ∧
    g = {| gq_matches := p :: cs; gq_where := []; gq_ret := ret;
           gq_limit := q_limit q; gq_offset := q_offset q |}.
Proof.
  unfold compile_to_graph. change (fresh VarGen_default) with (var_at 0, {| vg_next := 1 |}).
  pose proof (compile_steps_end (np_traversals (q_pattern q)) {| vg_next := 1 |}
                (var_at 0) None) as [Hend _].
  destruct (compile_steps _ _ _ _) as [[cs lr] cur]; cbn in *.
  intros Hq. eexists _, cs, lr, cur. rewrite Hend in Hq.
  destruct (q_return_mode q); cbn in Hq;
    [| |destruct lr as [r|]; cbn in Hq; [|done]]; injection Hq as <-;
    eexists; split_and!; eauto.
Qed.

(** a compiled query satisfies the kernel's invariant: it starts with a
    node and every hop starts at an already bound node variable. *)
Theorem compile_to_graph_validates (q : Query T) g :
  compile_to_graph q = Some g → validate g = Ok tt.
Proof.
  intros (p & cs & lr & cur & ret & Hcs & -> & _ & ->)%compile_to_graph_inv.
  pose proof (compile_steps_validate (np_traversals (q_pattern q))
    {| vg_next := 1 |} (var_at 0) None {[var_at 0]} ltac:(set_solver)) as Hok.
  rewrite Hcs in Hok. unfold validate; cbn in *.
  by destruct (try_fold _ _ _).
Qed.

(** compilation panics exactly for a relationship return without a
    traversal. *)
Theorem compile_to_graph_total (q : Query T) :
  compile_to_graph q = None ↔
  q_return_mode q = ReturnRelMode ∧ np_traversals (q_pattern q) = [].
Proof.
  unfold compile_to_graph. destruct (fresh VarGen_default) as [root vg].
  pose proof (compile_steps_last_rel (np_traversals (q_pattern q)) vg root None)
    as Hlr.
  destruct (compile_steps _ _ _ _) as [[cs lr] cur]; cbn in *.
  destruct (q_return_mode q), lr; cbn in *; naive_solver eauto using is_Some_None.
Qed.

(** the variables of a compiled query of [n] hops are pairwise distinct:
    they are the first [2 n + 1] variables in match order, and the returned
    one is among them. *)
Theorem compile_to_graph_bound_vars (q : Query T) g :
  (N.of_nat (S (2 * length (np_traversals (q_pattern q)))) < 2 ^ 32)%N →
  compile_to_graph q = Some g →
  bound_vars g = map var_at (seq 0 (S (2 * length (np_traversals (q_pattern q))))) ∧
  NoDup (bound_vars g) ∧ return_var g ∈ bound_vars g.
Proof.
  intros Hlen (p & cs & lr & cur & ret & Hcs & -> & Hret & ->)%compile_to_graph_inv.
  pose proof (compile_steps_vars (np_traversals (q_pattern q)) 1 (var_at 0) None
    ltac:(lia)) as Hvars.
  change (N.of_nat 1) with 1%N in Hvars. rewrite Hcs in Hvars.
  destruct Hvars as [Hcat Hend]. unfold bound_vars, return_var; cbn [gq_matches gq_ret].
  assert (∀ r, dedup (concat (map clause_vars (MatchNode r :: cs))) =
               dedup (nm_var r :: concat (map clause_vars cs))) as -> by done.
  rewrite Hcat. cbn [nm_var]. rewrite dedup_pairs.
  set (n := length (np_traversals (q_pattern q))) in *.
  assert (∀ i, i < S (2 * n) → var_at i ∈ map var_at (seq 0 (S (2 * n)))) as Hin.
  { intros i Hi. apply list_elem_of_fmap. exists i. split; [done|].
    apply elem_of_seq. lia. }
  split_and!; [done| |].
  - apply NoDup_fmap_2; [|apply NoDup_seq].
    by intros i j [= ?%Nat2N.inj].
  - destruct (q_return_mode q).
    + subst ret. apply Hin. lia.
    + subst ret. destruct n as [|m]; destruct Hend as [_ ->]; apply Hin; lia.
    + destruct Hret as (r & -> & ->).
      destruct n as [|m]; destruct Hend as [[= Hr] _]. subst r.
      apply Hin. lia.
Qed.
End compiled.

(** A query whose every node variable is the root's or a hop's end, and whose
    returned variable is bound with the returned kind. *)
Definition query_wellformed (q : GraphQuery) : Prop :=
  ∃ nm ms, gq_matches q = MatchNode nm :: ms ∧
    (∀ m, MatchNode m ∈ ms → ∃ h, MatchHop h ∈ ms ∧ hop_end h = nm_var m) ∧
    (∀ h, MatchHop h ∈ ms → hop_rel_var h ≠ nm_var nm) ∧
    (∀ h h', MatchHop h ∈ ms → MatchHop h' ∈ ms → hop_rel_var h ≠ hop_end h') ∧
    match gq_ret q with
    | ReturnNode v => v = nm_var nm ∨ ∃ h, MatchHop h ∈ ms ∧ hop_end h = v
    | ReturnRel v => ∃ h, MatchHop h ∈ ms ∧ hop_rel_var h = v
    end.

Lemma compile_steps_shape steps k cur lr :
  (N.of_nat (k + 2 * length steps) < 2 ^ 32)%N →
  let '(cs, lr', cur') := compile_steps {| vg_next := N.of_nat k |} cur lr steps in
  (∀ h, MatchHop h ∈ cs → ∃ i, hop_rel_var h = var_at (k + 2 * i) ∧
                              hop_end h = var_at (S (k + 2 * i))) ∧
  (∀ m, MatchNode m ∈ cs → ∃ h, MatchHop h ∈ cs ∧ hop_end h = nm_var m) ∧
  (cur' = cur ∨ ∃ h, MatchHop h ∈ cs ∧ hop_end h = cur') ∧
  (lr' = lr ∨ ∃ h, MatchHop h ∈ cs ∧ lr' = Some (hop_rel_var h)).
Proof.
  revert k cur lr. induction steps as [|step steps IH]; intros k cur lr Hk.
  { cbn. split_and!; [set_solver|set_solver|by left|by left]. }
  rewrite compile_steps_cons. cbn [length] in Hk.
  rewrite !fresh_at by lia.
  specialize (IH (S (S k)) (var_at (S k)) (Some (var_at k)) ltac:(lia)).
  destruct (compile_steps _ _ _ _) as [[cs lr'] cur']. destruct IH as (Hh & Hn & Hc & Hl).
  set (hop := {| hop_start := cur |}). set (node := {| nm_var := var_at (S k) |}).
  assert (MatchHop hop ∈ MatchHop hop :: MatchNode node :: cs) as Hin by by left.
  split_and!.
  - intros h [[= ->]|[?|Hin']%elem_of_cons]%elem_of_cons; [|done|].
    + exists 0. cbn. by rewrite !Nat.add_0_r.
    + destruct (Hh h Hin') as (i & -> & ->). exists (S i).
      split; [|f_equal]; f_equal; lia.
  - intros m [?|[[= ->]|Hin']%elem_of_cons]%elem_of_cons; [done| |].
    + by exists hop.
    + destruct (Hn m Hin') as (h & ? & ?). exists h. split; [by do 2 right|done].
  - right. destruct Hc as [->|(h & ? & ?)]; [by exists hop|].
    exists h. split; [by do 2 right|done].
  - right. destruct Hl as [->|(h & ? & ?)]; [by exists hop|].
    exists h. split; [by do 2 right|done].
Qed.

Lemma compile_to_graph_wellformed {T} `{!NodeModel T} (q : Query T) g :
  (N.of_nat (S (2 * length (np_traversals (q_pattern q)))) < 2 ^ 32)%N →
  compile_to_graph q = Some g → query_wellformed g.
Proof.
  intros Hlen (p & cs & lr & cur & ret & Hcs & -> & Hret & ->)%compile_to_graph_inv.
  pose proof (compile_steps_shape (np_traversals (q_pattern q)) 1 (var_at 0) None
    ltac:(lia)) as Hshape.
  change (N.of_nat 1) with 1%N in Hshape. rewrite Hcs in Hshape.
  destruct Hshape as (Hh & Hn & Hc & Hl). eexists _, cs. split; [done|]. cbn.
  split_and!; [done| | |].
  - intros h (i & -> & _)%Hh [= Heq]; lia.
  - intros h h' (i & -> & _)%Hh (j & _ & ->)%Hh [= Heq]; lia.
  - destruct (q_return_mode q); [subst; by left|subst; destruct Hc as [->|]; auto|].
    destruct Hret as (r & -> & ->). destruct Hl as [|(h & ? & [= ->])]; [done|eauto].
Qed.

End facts.


(** ** Witnesses *)

Section dsl_witnesses.
#[local] Existing Instance serde_default.

(** A model without fields besides its id. *)
Record WPerson := { wp_id : Z }.
#[local] Instance WPerson_model : NodeModel WPerson := {|
  LABELS := ["Person"]; NodeId := Z; node_id_into := λ z, z; node_id_from := λ z, z;
  node_id := wp_id; node_set_id := λ _ z, {| wp_id := z |};
  node_to_properties := λ _, ∅;
  node_from_properties := λ id _, Ok {| wp_id := id |};
|}.

Definition w_query : Query WPerson :=
  query_return (query_matching (builder_to WPerson (pattern_both_any pattern_new))) ReturnEnd.
Definition w_graph_query : GraphQuery :=
  {| gq_matches :=
       [MatchNode {| nm_var := var_at 0; nm_labels := ["Person"]; nm_id_filter := None;
                     nm_property_filters := [] |};
        MatchHop {| hop_start := var_at 0; hop_rel_type := None; hop_rel_var := var_at 1;
                    hop_dir := DirBoth; hop_end := var_at 2; hop_end_labels := ["Person"] |};
        MatchNode {| nm_var := var_at 2; nm_labels := ["Person"]; nm_id_filter := None;
                     nm_property_filters := [] |}];
     gq_where := []; gq_ret := ReturnNode (var_at 2); gq_limit := None; gq_offset := None |}.

Lemma apply_paging_window_witness :
  apply_paging [1; 2; 3; 4]%Z (Some 1%N) (Some 2%N) = [2; 3]%Z ∧
  apply_paging [1; 2; 3; 4]%Z (Some 1%N) (Some usize_max)
  = page [1; 2; 3; 4]%Z (Some 1%N) (Some usize_max).
Proof. split; [reflexivity|]. apply apply_paging_window. vm_compute. discriminate. Defined.

Lemma compile_to_graph_validates_witness : validate w_graph_query = Ok tt.
Proof. apply (compile_to_graph_validates w_query). reflexivity. Defined.

Lemma compile_to_graph_bound_vars_witness :
  bound_vars w_graph_query = [var_at 0; var_at 1; var_at 2] ∧
  NoDup (bound_vars w_graph_query) ∧ return_var w_graph_query ∈ bound_vars w_graph_query.
Proof.
  apply (compile_to_graph_bound_vars w_query); [vm_compute; reflexivity|reflexivity].
Defined.
End dsl_witnesses.
