(* ===== verification/Cypher.v ===== *)
(** * The translation of graph queries to Cypher ([src/src/backend/cypher.rs])

    [graph_query_to_cypher] writes a kernel graph query as the text of a Cypher
    statement and a map of parameters.  The text is meant for a database; what the
    kernel can check is that it says what the query says: a reader of the grammar
    the translation writes in, with the escaping of Cypher's quoted names, finds in
    the text the pattern, the conditions with their values, the variables and the
    page of the query, whatever its names and values hold. *)

From S2P Require Export Dsl.

Local Open Scope string_scope.

Section cypher.
Context `{SerdeNumber}.

(** ** The translation *)

Record CypherQuery := { cq_text : string; cq_params : gmap string Value }.

(** [Translator::default()] is [{| tr_params := ∅; tr_next_param := 0 |}]. *)
Record Translator := { tr_params : gmap string Value; tr_next_param : N }.
Definition Translator_default : Translator := {| tr_params := ∅; tr_next_param := 0 |}.

Definition param_name (n : N) : string := "p" +:+ u_to_string (Z.of_N n).
Definition push_param (value : Value) (t : Translator) : string * Translator :=
  let name := param_name (tr_next_param t) in
  (name, {| tr_params := <[name := value]> (tr_params t);
            tr_next_param := (tr_next_param t + 1)%N |}).

(** [name.replace('`', "``")] *)
Definition is_backtick (c : ascii) : bool := Ascii.eqb c "`".
#[local] Arguments is_backtick : simpl never.
Fixpoint double_backticks (s : string) : string :=
  match s with
  | EmptyString => ""
  | String c s =>
      if is_backtick c then String c (String c (double_backticks s))
      else String c (double_backticks s)
  end.
Definition cypher_name (name : string) : string := "`" +:+ double_backticks name +:+ "`".
Definition property_key (key : string) : string := cypher_name key.
Definition var_name (var : VarId) : string := "v" +:+ u_to_string (Z.of_N (var_index var)).

Definition label_text (label : string) : string := ":" +:+ cypher_name label.
Definition node_pattern (var : VarId) (labels : list string) : string :=
  "(" +:+ var_name var +:+ String.concat "" (map label_text labels) +:+ ")".
Definition relationship_pattern (dir : Direction) (var : VarId) (rel_type : option string)
    : string :=
  let rel_type := match rel_type with Some ty => ":" +:+ cypher_name ty | None => "" end in
  match dir with
  | DirOut => "-[" +:+ var_name var +:+ rel_type +:+ "]->"
  | DirIn => "<-[" +:+ var_name var +:+ rel_type +:+ "]-"
  | DirBoth => "-[" +:+ var_name var +:+ rel_type +:+ "]-"
  end.

(** The operator between a property and its parameter. *)
Definition operator_text (op : CompareOp) : string :=
  match op with
  | OpEq => " = "
  | OpNe => " <> "
  | OpGt => " > "
  | OpGe => " >= "
  | OpLt => " < "
  | OpLe => " <= "
  | OpContains => " CONTAINS "
  end.
Definition property_predicate (var : string) (filter : PropertyFilter) (t : Translator)
    : string * Translator :=
  let '(param, t) := push_param (pf_value filter) t in
  let prop := var +:+ "." +:+ property_key (pf_key filter) in
  (prop +:+ operator_text (pf_op filter) +:+ "$" +:+ param, t).

Definition collect_node_match (nodes : gmap VarId NodeMatch) (clause : MatchClause)
    : gmap VarId NodeMatch :=
  match clause with
  | MatchNode node => <[nm_var node := node]> nodes
  | MatchHop _ => nodes
  end.
Definition collect_node_matches (q : GraphQuery) : gmap VarId NodeMatch :=
  foldl collect_node_match ∅ (gq_matches q).

(** The labels the end of a hop is written with. *)
Definition hop_labels (node_matches : gmap VarId NodeMatch) (hop : HopMatch) : list string :=
  match node_matches !! hop_end hop with
  | Some node => match nm_labels node with [] => hop_end_labels hop | labels => labels end
  | None => hop_end_labels hop
  end.
Definition push_hop (node_matches : gmap VarId NodeMatch) (pattern : string)
    (clause : MatchClause) : string :=
  match clause with
  | MatchNode _ => pattern
  | MatchHop hop =>
      pattern +:+ relationship_pattern (hop_dir hop) (hop_rel_var hop) (hop_rel_type hop)
      +:+ node_pattern (hop_end hop) (hop_labels node_matches hop)
  end.
Definition build_match_pattern (q : GraphQuery) (node_matches : gmap VarId NodeMatch)
    : result string :=
  match gq_matches q with
  | MatchNode root :: clauses =>
      Ok (foldl (push_hop node_matches) (node_pattern (nm_var root) (nm_labels root)) clauses)
  | _ => Err (Mapping "GraphQuery must start with NodeMatch")
  end.

(** [iter.map(|x| f(x, translator))], collected. *)
Fixpoint map_translated {A} (f : A → Translator → string * Translator) (l : list A)
    (t : Translator) : list string * Translator :=
  match l with
  | [] => ([], t)
  | x :: l =>
      let '(text, t) := f x t in
      let '(texts, t) := map_translated f l t in
      (text :: texts, t)
  end.
Definition node_predicates (node : NodeMatch) (t : Translator) : list string * Translator :=
  let name := var_name (nm_var node) in
  let '(ids, t) :=
    match nm_id_filter node with
    | Some id =>
        let '(param, t) := push_param (value_from_i64 id) t in
        (["id(" +:+ name +:+ ") = $" +:+ param], t)
    | None => ([], t)
    end in
  let '(props, t) := map_translated (property_predicate name) (nm_property_filters node) t in
  ((ids ++ props)%list, t).
Fixpoint all_node_predicates (nodes : list NodeMatch) (t : Translator)
    : list string * Translator :=
  match nodes with
  | [] => ([], t)
  | node :: nodes =>
      let '(texts, t) := node_predicates node t in
      let '(rest, t) := all_node_predicates nodes t in
      ((texts ++ rest)%list, t)
  end.
Definition build_predicates (q : GraphQuery) (root : VarId)
    (node_matches : gmap VarId NodeMatch) (t : Translator) : list string * Translator :=
  let '(nodes, t) := all_node_predicates (bt_values node_matches) t in
  let '(roots, t) := map_translated (property_predicate (var_name root)) (gq_where q) t in
  ((nodes ++ roots)%list, t).

Definition optional_clause (keyword : string) (n : option N) : string :=
  match n with Some n => keyword +:+ u_to_string (Z.of_N n) | None => "" end.

(** [None] is the panic of [root_var], which [validate] rules out. *)
Definition graph_query_to_cypher (q : GraphQuery) : option (result CypherQuery) :=
  match validate q with
  | Err e => Some (Err e)
  | Ok _ =>
      let node_matches := collect_node_matches q in
      match build_match_pattern q node_matches with
      | Err e => Some (Err e)
      | Ok pattern =>
          root ← root_var q;
          let '(predicates, t) := build_predicates q root node_matches Translator_default in
          let return_clause := "RETURN " +:+ Text.join ", " (map var_name (bound_vars q)) in
          let conditions :=
            match predicates with
            | [] => ""
            | _ => " WHERE " +:+ Text.join " AND " predicates
            end in
          Some (Ok {| cq_text := "MATCH " +:+ pattern +:+ conditions +:+ " " +:+ return_clause
                                 +:+ optional_clause " SKIP " (gq_offset q)
                                 +:+ optional_clause " LIMIT " (gq_limit q);
                      cq_params := tr_params t |})
      end
  end.

(** ** What a statement says *)

Inductive CypherTerm := TermId | TermProperty (key : string).
Record CypherCondition := {
  cc_var : VarId;
  cc_term : CypherTerm;
  cc_op : CompareOp;
  cc_value : Value;
}.
Record CypherHop := {
  ch_dir : Direction;
  ch_var : VarId;
  ch_type : option string;
  ch_end : VarId;
  ch_labels : list string;
}.
Record CypherStatement := {
  cs_root : VarId;
  cs_labels : list string;
  cs_hops : list CypherHop;
  cs_where : list CypherCondition;
  cs_return : list VarId;
  cs_skip : option N;
  cs_limit : option N;
}.

(** *** What a query asks a statement to say *)

Definition filter_condition (var : VarId) (filter : PropertyFilter) : CypherCondition :=
  {| cc_var := var; cc_term := TermProperty (pf_key filter); cc_op := pf_op filter;
     cc_value := pf_value filter |}.
Definition node_conditions (node : NodeMatch) : list CypherCondition :=
  (match nm_id_filter node with
   | Some id => [{| cc_var := nm_var node; cc_term := TermId; cc_op := OpEq;
                    cc_value := value_from_i64 id |}]
   | None => []
   end ++ map (filter_condition (nm_var node)) (nm_property_filters node))%list.
Definition query_conditions (q : GraphQuery) (root : VarId) : list CypherCondition :=
  (concat (map node_conditions (bt_values (collect_node_matches q)))
   ++ map (filter_condition root) (gq_where q))%list.
Definition clause_to_hop (node_matches : gmap VarId NodeMatch) (clause : MatchClause)
    : option CypherHop :=
  match clause with
  | MatchNode _ => None
  | MatchHop hop =>
      Some {| ch_dir := hop_dir hop; ch_var := hop_rel_var hop; ch_type := hop_rel_type hop;
              ch_end := hop_end hop; ch_labels := hop_labels node_matches hop |}
  end.
Definition query_statement (q : GraphQuery) : option CypherStatement :=
  match gq_matches q with
  | MatchNode root :: clauses =>
      Some {| cs_root := nm_var root;
              cs_labels := nm_labels root;
              cs_hops := omap (clause_to_hop (collect_node_matches q)) clauses;
              cs_where := query_conditions q (nm_var root);
              cs_return := bound_vars q;
              cs_skip := gq_offset q;
              cs_limit := gq_limit q |}
  | _ => None
  end.

(** *** The reader

    A reader takes what it reads off the front of a text. *)
Definition reader (A : Type) : Type := string → option (A * string).
Definition r_ret {A} (a : A) : reader A := λ s, Some (a, s).
Definition r_bind {A B} (m : reader A) (f : A → reader B) : reader B := λ s,
  match m s with Some (a, s) => f a s | None => None end.
Definition r_or {A} (m k : reader A) : reader A := λ s,
  match m s with Some r => Some r | None => k s end.
Definition r_token (token : string) : reader () := λ s,
  match str_strip_prefix token s with Some s => Some (tt, s) | None => None end.
Definition r_option {A} (m : reader A) : reader (option A) :=
  r_or (r_bind m (λ a, r_ret (Some a))) (r_ret None).
Fixpoint r_many_fuel {A} (fuel : nat) (m : reader A) : reader (list A) := λ s,
  match fuel with
  | O => Some ([], s)
  | S fuel =>
      match m s with
      | Some (a, s) => r_bind (r_many_fuel fuel m) (λ l, r_ret (a :: l)) s
      | None => Some ([], s)
      end
  end.
Definition r_many {A} (m : reader A) : reader (list A) := λ s, r_many_fuel (String.length s) m s.

(** What is left of a quoted name, up to a backtick that is not doubled. *)
Fixpoint quoted_rest (s : string) : option (string * string) :=
  match s with
  | EmptyString => None
  | String c rest =>
      if is_backtick c then
        match rest with
        | String d rest' =>
            if is_backtick d
            then match quoted_rest rest' with
                 | Some (name, s) => Some (String c name, s)
                 | None => None
                 end
            else Some ("", rest)
        | EmptyString => Some ("", rest)
        end
      else match quoted_rest rest with
           | Some (name, s) => Some (String c name, s)
           | None => None
           end
  end.
Definition r_name : reader string := r_bind (r_token "`") (λ _, quoted_rest).
Fixpoint digits_of (s : string) : string * string :=
  match s with
  | EmptyString => ("", "")
  | String c rest =>
      if is_ascii_digit c then let '(digits, s) := digits_of rest in (String c digits, s)
      else ("", s)
  end.
Definition r_number : reader N := λ s,
  match digits_of s with
  | (EmptyString, _) => None
  | (digits, s) => match parse_digits digits 0 with
                   | Some n => Some (Z.to_N n, s)
                   | None => None
                   end
  end.
Definition r_var : reader VarId :=
  r_bind (r_token "v") (λ _, r_bind r_number (λ n, r_ret {| var_index := n |})).
Definition r_label : reader string := r_bind (r_token ":") (λ _, r_name).
Definition r_node : reader (VarId * list string) :=
  r_bind (r_token "(") (λ _, r_bind r_var (λ var, r_bind (r_many r_label) (λ labels,
  r_bind (r_token ")") (λ _, r_ret (var, labels))))).
(** The inside of the brackets of a relationship. *)
Definition r_rel : reader (VarId * option string) :=
  r_bind r_var (λ var, r_bind (r_option r_label) (λ ty, r_ret (var, ty))).
Definition r_arrow : reader (Direction * (VarId * option string)) :=
  r_or (r_bind (r_token "<-[") (λ _, r_bind r_rel (λ rel,
        r_bind (r_token "]-") (λ _, r_ret (DirIn, rel)))))
       (r_bind (r_token "-[") (λ _, r_bind r_rel (λ rel,
        r_or (r_bind (r_token "]->") (λ _, r_ret (DirOut, rel)))
             (r_bind (r_token "]-") (λ _, r_ret (DirBoth, rel)))))).
Definition r_hop : reader CypherHop :=
  r_bind r_arrow (λ '(dir, (var, ty)), r_bind r_node (λ '(end_var, labels),
  r_ret {| ch_dir := dir; ch_var := var; ch_type := ty; ch_end := end_var;
           ch_labels := labels |})).
Definition r_term : reader (VarId * CypherTerm) :=
  r_or (r_bind (r_token "id(") (λ _, r_bind r_var (λ var,
        r_bind (r_token ")") (λ _, r_ret (var, TermId)))))
       (r_bind r_var (λ var, r_bind (r_token ".") (λ _, r_bind r_name (λ key,
        r_ret (var, TermProperty key))))).
Definition r_operator_text (op : CompareOp) : reader CompareOp :=
  r_bind (r_token (operator_text op)) (λ _, r_ret op).
Definition r_operator : reader CompareOp :=
  foldr r_or (λ _, None)
    (map r_operator_text [OpEq; OpNe; OpGt; OpGe; OpLt; OpLe; OpContains]).
(** A parameter is read as its value. *)
Definition r_param (params : gmap string Value) : reader Value :=
  r_bind (r_token "$p") (λ _, r_bind r_number (λ n s,
    match params !! param_name n with Some value => Some (value, s) | None => None end)).
Definition r_condition (params : gmap string Value) : reader CypherCondition :=
  r_bind r_term (λ '(var, term), r_bind r_operator (λ op, r_bind (r_param params) (λ value,
  r_ret {| cc_var := var; cc_term := term; cc_op := op; cc_value := value |}))).
(** One or more, with the separator between them. *)
Definition r_separated {A} (sep : string) (m : reader A) : reader (list A) :=
  r_bind m (λ a, r_bind (r_many (r_bind (r_token sep) (λ _, m))) (λ l, r_ret (a :: l))).
Definition r_conditions (params : gmap string Value) : reader (list CypherCondition) :=
  r_or (r_bind (r_token " WHERE ") (λ _, r_separated " AND " (r_condition params)))
       (r_ret []).
Definition r_clause (keyword : string) : reader (option N) :=
  r_option (r_bind (r_token keyword) (λ _, r_number)).
Definition r_statement (params : gmap string Value) : reader CypherStatement :=
  r_bind (r_token "MATCH ") (λ _, r_bind r_node (λ '(root, labels),
  r_bind (r_many r_hop) (λ hops, r_bind (r_conditions params) (λ conditions,
  r_bind (r_token " RETURN ") (λ _, r_bind (r_separated ", " r_var) (λ vars,
  r_bind (r_clause " SKIP ") (λ skip, r_bind (r_clause " LIMIT ") (λ limit,
  r_ret {| cs_root := root; cs_labels := labels; cs_hops := hops; cs_where := conditions;
           cs_return := vars; cs_skip := skip; cs_limit := limit |})))))))).
Definition read_cypher (c : CypherQuery) : option CypherStatement :=
  match r_statement (cq_params c) (cq_text c) with
  | Some (statement, EmptyString) => Some statement
  | _ => None
  end.

(** ** Readers read what is written

    [takes ok m text a]: in front of a rest that is [ok], [m] takes [text] as [a]
    and leaves the rest. *)
Definition takes {A} (ok : string → Prop) (m : reader A) (text : string) (a : A) : Prop :=
  ∀ rest, ok rest → m (text +:+ rest) = Some (a, rest).
Definition anything (_ : string) : Prop := True.
(** The rest does not go on with such a character. *)
Definition not_first (p : ascii → bool) (rest : string) : Prop :=
  match rest with EmptyString => True | String c _ => p c = false end.
Definition after_name : string → Prop := not_first is_backtick.
Definition after_number : string → Prop := not_first is_ascii_digit.

Lemma takes_weaken {A} (ok ok' : string → Prop) (m : reader A) text a :
  takes ok m text a → (∀ rest, ok' rest → ok rest) → takes ok' m text a.
Proof. intros Hm Hok rest Hrest. by apply Hm, Hok. Qed.
Lemma takes_ret {A} ok (a : A) : takes ok (r_ret a) "" a.
Proof. done. Qed.
Lemma takes_token token : takes anything (r_token token) token tt.
Proof. intros rest _. unfold r_token. by rewrite str_strip_prefix_app. Qed.
Lemma takes_bind {A B} ok ok1 (m : reader A) (f : A → reader B) t1 t2 a b :
  takes ok1 m t1 a → takes ok (f a) t2 b → (∀ rest, ok rest → ok1 (t2 +:+ rest)) →
  takes ok (r_bind m f) (t1 +:+ t2) b.
Proof.
  intros Hm Hf Hok rest Hrest. unfold r_bind. rewrite append_assoc, Hm by auto. by apply Hf.
Qed.
Lemma takes_then {A B} ok ok1 (m : reader A) (g : A → B) t a :
  takes ok1 m t a → (∀ rest, ok rest → ok1 rest) →
  takes ok (r_bind m (λ a, r_ret (g a))) t (g a).
Proof. intros Hm Hok rest Hrest. unfold r_bind. by rewrite Hm by auto. Qed.
Lemma takes_last {A B} ok ok1 (m : reader A) (f : A → reader B) t a b :
  takes ok1 m t a → f a = r_ret b → (∀ rest, ok rest → ok1 rest) → takes ok (r_bind m f) t b.
Proof. intros Hm Hf Hok rest Hrest. unfold r_bind. by rewrite Hm, Hf by auto. Qed.
Lemma takes_after {A} ok token (m : reader A) text a :
  takes ok m text a → takes ok (r_bind (r_token token) (λ _, m)) (token +:+ text) a.
Proof. intros Hm. eapply takes_bind; [apply takes_token|exact Hm|done]. Qed.
Lemma takes_first {A} ok (m k : reader A) text a : takes ok m text a → takes ok (r_or m k) text a.
Proof. intros Hm rest Hrest. unfold r_or. by rewrite Hm. Qed.
Lemma takes_second {A} ok (m k : reader A) text a :
  (∀ rest, ok rest → m (text +:+ rest) = None) → takes ok k text a → takes ok (r_or m k) text a.
Proof. intros Hm Hk rest Hrest. unfold r_or. rewrite Hm by done. by apply Hk. Qed.

Lemma concat_cons t ts : String.concat "" (t :: ts) = t +:+ String.concat "" ts.
Proof. destruct ts; cbn; [by rewrite append_nil_r|done]. Qed.
(** Texts that are not empty, each read as its value. *)
Definition all_read {A} (ok : string → Prop) (m : reader A) : list string → list A → Prop :=
  Forall2 (λ t a, takes ok m t a ∧ t ≠ "" ∧ ∀ rest, ok (t +:+ rest)).
Lemma takes_many {A} (ok : string → Prop) (m : reader A) ts l :
  all_read ok m ts l →
  takes (λ rest, ok rest ∧ m rest = None) (r_many m) (String.concat "" ts) l.
Proof.
  intros Hall rest [Hok Hstop].
  assert (∀ fuel, (length l ≤ fuel)%nat →
    r_many_fuel fuel m (String.concat "" ts +:+ rest) = Some (l, rest)) as Hfuel.
  { induction Hall as [|t a ts l (Ha & Hne & _) Hall IH]; intros fuel Hfuel.
    { cbn. destruct fuel; cbn; [done|by rewrite Hstop]. }
    destruct fuel as [|fuel]; [cbn in Hfuel; lia|]. cbn [r_many_fuel].
    rewrite concat_cons, append_assoc, Ha.
    2:{ destruct Hall as [|? ? ? ? (_ & _ & Ht)]; [done|]. rewrite concat_cons, append_assoc.
        apply Ht. }
    unfold r_bind. rewrite IH; [done|cbn in Hfuel; lia]. }
  apply Hfuel. rewrite length_append. clear Hfuel Hok Hstop.
  induction Hall as [|t a ts l (_ & Hne & _) _ IH]; [cbn; lia|]. rewrite concat_cons, length_append.
  assert (String.length t ≠ 0%nat) by by destruct t. cbn [length]. lia.
Qed.

Lemma join_separated sep t ts :
  Text.join sep (t :: ts) = t +:+ String.concat "" (map (String.append sep) ts).
Proof.
  unfold Text.join. revert t. induction ts as [|u ts IH]; intros t.
  { cbn. by rewrite append_nil_r. }
  change (String.concat sep (t :: u :: ts)) with (t +:+ sep +:+ String.concat sep (u :: ts)).
  cbn [map]. by rewrite IH, concat_cons, append_assoc.
Qed.
Lemma takes_separated {A} ok sep (m : reader A) t ts a l :
  all_read ok m (t :: ts) (a :: l) → sep ≠ "" → (∀ rest, ok (sep +:+ rest)) →
  takes (λ rest, ok rest ∧ r_token sep rest = None) (r_separated sep m)
    (Text.join sep (t :: ts)) (a :: l).
Proof.
  intros [(Ha & _ & _) Hall]%Forall2_cons Hsep Hok. rewrite join_separated.
  eapply (takes_bind _ ok); [exact Ha| |].
  - eapply (takes_then _ _ _ (cons a)); [apply (takes_many ok)|].
    + apply Forall2_fmap_l. eapply Forall2_impl; [exact Hall|]. intros u b (Hb & _ & _).
      split; [by apply takes_after|]. split; [by destruct sep|].
      intros rest. cbn. rewrite append_assoc. apply Hok.
    + intros rest [? Hstop]. split; [done|]. unfold r_bind. by rewrite Hstop.
  - intros rest [? _]. destruct ts as [|u ts]; [done|]. cbn [map].
    rewrite concat_cons, !append_assoc. apply Hok.
Qed.

(** *** Words *)

Lemma takes_name name : takes after_name r_name (cypher_name name) name.
Proof.
  intros rest Hrest. unfold r_name, cypher_name, r_bind, r_token. cbn.
  rewrite append_assoc. cbn [String.append].
  induction name as [|c name IH]; cbn.
  { change (is_backtick "`") with true. cbn.
    destruct rest as [|d rest]; [done|]. unfold after_name, not_first in Hrest. by rewrite Hrest. }
  destruct (is_backtick c) eqn:Hc; cbn; rewrite !Hc; by rewrite IH.
Qed.
Lemma digits_of_app s rest :
  digits_only s = true → after_number rest → digits_of (s +:+ rest) = (s, rest).
Proof.
  intros Hs Hrest. induction s as [|c s IH]; cbn in *.
  - destruct rest as [|d rest]; cbn in *; [done|]. by rewrite Hrest.
  - apply andb_true_iff in Hs as [-> Hs]. by rewrite IH.
Qed.
Lemma takes_number n : takes after_number r_number (u_to_string (Z.of_N n)) n.
Proof.
  intros rest Hrest. unfold r_number. rewrite digits_of_app by (try apply u_to_string_digits; done).
  pose proof (u_to_string_nonempty (Z.of_N n)) as Hne.
  rewrite parse_u_to_string by lia. rewrite N2Z.id.
  by destruct (u_to_string (Z.of_N n)).
Qed.
Lemma takes_var var : takes after_number r_var (var_name var) var.
Proof.
  destruct var as [n]. apply takes_after.
  eapply (takes_then _ _ _ (λ n, {| var_index := n |})); [apply takes_number|done].
Qed.
Lemma takes_label label : takes after_name r_label (label_text label) label.
Proof. apply takes_after, takes_name. Qed.

(** *** Patterns *)

Lemma takes_node var labels : takes anything r_node (node_pattern var labels) (var, labels).
Proof.
  apply takes_after. eapply (takes_bind _ after_number); [apply takes_var| |].
  - eapply takes_bind; [apply (takes_many after_name)| |].
    + apply Forall2_fmap_l, Forall_Forall2_diag, Forall_true. intros label.
      split; [apply takes_label|done].
    + eapply (takes_after anything ")"), takes_ret.
    + done.
  - intros rest _. destruct labels as [|label labels]; [done|]. cbn [map].
    by rewrite concat_cons, !append_assoc.
Qed.

Definition rel_text (var : VarId) (rel_type : option string) : string :=
  var_name var +:+ match rel_type with Some ty => label_text ty | None => "" end.
Definition before_bracket (rest : string) : Prop := ∃ s, rest = "]" +:+ s.
Lemma takes_rel var rel_type : takes before_bracket r_rel (rel_text var rel_type) (var, rel_type).
Proof.
  eapply (takes_bind _ after_number); [apply takes_var| |].
  - eapply (takes_then _ _ _ (λ ty, (var, ty))); [|done]. unfold r_option. destruct rel_type as [ty|].
    + eapply takes_first, (takes_then _ _ _ Some); [apply takes_label|by intros ? [? ->]].
    + apply takes_second; [by intros ? [? ->]|apply takes_ret].
  - intros rest [s ->]. by destruct rel_type.
Qed.
Definition before_node (rest : string) : Prop := ∃ s, rest = "(" +:+ s.
Lemma takes_arrow dir var rel_type :
  takes before_node r_arrow (relationship_pattern dir var rel_type) (dir, (var, rel_type)).
Proof.
  assert (∀ close, (match rel_type with Some ty => ":" +:+ cypher_name ty | None => "" end)
    +:+ close = (match rel_type with Some ty => label_text ty | None => "" end) +:+ close)
    as Hty by by destruct rel_type.
  assert (∀ close, before_bracket close → ∀ rest, before_node rest → before_bracket (close +:+ rest))
    as Hclose.
  { intros close [s ->] rest _. exists (s +:+ rest). by rewrite append_assoc. }
  unfold relationship_pattern. destruct dir; rewrite Hty, <-(append_assoc (var_name var));
    fold (rel_text var rel_type).
  - apply takes_second; [done|]. apply takes_after.
    eapply (takes_bind _ before_bracket); [apply takes_rel| |apply Hclose; by exists "->"].
    apply takes_first. eapply takes_weaken; [apply (takes_after anything "]->"), takes_ret|done].
  - apply takes_first. apply takes_after.
    eapply (takes_bind _ before_bracket); [apply takes_rel| |apply Hclose; by exists "-"].
    eapply takes_weaken; [apply (takes_after anything "]-"), takes_ret|done].
  - apply takes_second; [done|]. apply takes_after.
    eapply (takes_bind _ before_bracket); [apply takes_rel| |apply Hclose; by exists "-"].
    apply takes_second; [by intros ? [? ->]|].
    eapply takes_weaken; [apply (takes_after anything "]-"), takes_ret|done].
Qed.
Definition hop_text (hop : CypherHop) : string :=
  relationship_pattern (ch_dir hop) (ch_var hop) (ch_type hop)
  +:+ node_pattern (ch_end hop) (ch_labels hop).
Lemma takes_hop hop : takes anything r_hop (hop_text hop) hop.
Proof.
  eapply (takes_bind _ before_node); [apply takes_arrow| |].
  - eapply (takes_last _ anything); [apply takes_node|by destruct hop|done].
  - intros rest _. unfold node_pattern. rewrite !append_assoc. by eexists.
Qed.

(** *** Conditions *)

Definition subject_text (var : VarId) (term : CypherTerm) : string :=
  match term with
  | TermId => "id(" +:+ var_name var +:+ ")"
  | TermProperty key => var_name var +:+ "." +:+ property_key key
  end.
Definition condition_text (n : N) (c : CypherCondition) : string :=
  subject_text (cc_var c) (cc_term c) +:+ operator_text (cc_op c) +:+ "$" +:+ param_name n.

Definition before_space (rest : string) : Prop := ∃ s, rest = " " +:+ s.
Lemma takes_term var term : takes before_space r_term (subject_text var term) (var, term).
Proof.
  destruct term as [|key]; cbn [subject_text].
  - apply takes_first. apply takes_after. eapply (takes_bind _ after_number); [apply takes_var| |done].
    eapply takes_weaken; [apply (takes_after anything ")"), takes_ret|done].
  - apply takes_second; [done|]. eapply (takes_bind _ after_number); [apply takes_var| |done].
    apply takes_after. eapply (takes_last _ after_name); [apply takes_name|done|by intros ? [? ->]].
Qed.
Definition before_param (rest : string) : Prop := ∃ s, rest = "$" +:+ s.
Lemma takes_operator op : takes before_param r_operator (operator_text op) op.
Proof. intros ? [rest ->]. by destruct op. Qed.
Lemma takes_param params n value :
  params !! param_name n = Some value →
  takes after_number (r_param params) ("$" +:+ param_name n) value.
Proof.
  intros Hn. apply (takes_after after_number "$p"). intros rest Hrest. unfold r_bind.
  by rewrite takes_number, Hn by done.
Qed.
Lemma takes_condition params n c :
  params !! param_name n = Some (cc_value c) →
  takes after_number (r_condition params) (condition_text n c) c.
Proof.
  intros Hn. eapply (takes_bind _ before_space); [apply takes_term| |].
  - eapply (takes_bind _ before_param); [apply takes_operator| |].
    + eapply (takes_last _ after_number); [by apply takes_param|by destruct c|done].
    + intros rest _. by eexists.
  - intros rest _. rewrite !append_assoc. destruct (cc_op c); by eexists.
Qed.

(** The conditions with their numbers, from [n] on. *)
Fixpoint condition_texts (n : N) (l : list CypherCondition) : list string :=
  match l with
  | [] => []
  | c :: l => condition_text n c :: condition_texts (n + 1) l
  end.

Lemma condition_texts_read params n l :
  (∀ k c, l !! k = Some c → params !! param_name (n + N.of_nat k) = Some (cc_value c)) →
  all_read after_number (r_condition params) (condition_texts n l) l.
Proof.
  revert n. induction l as [|c l IH]; intros n Hparams; constructor.
  - split; [apply takes_condition; specialize (Hparams 0%nat c eq_refl); by rewrite N.add_0_r in Hparams|].
    split; [by destruct c as [? []]|]. intros rest. by destruct c as [? []].
  - apply IH. intros k d Hk. specialize (Hparams (S k) d Hk).
    by replace (n + 1 + N.of_nat k)%N with (n + N.of_nat (S k))%N by lia.
Qed.
Definition conditions_text (texts : list string) : string :=
  match texts with [] => "" | _ => " WHERE " +:+ Text.join " AND " texts end.
Definition before_return (rest : string) : Prop := ∃ s, rest = " RETURN " +:+ s.
Lemma takes_conditions params texts l :
  all_read after_number (r_condition params) texts l →
  takes before_return (r_conditions params) (conditions_text texts) l.
Proof.
  intros Hall. destruct Hall as [|t c ts l Hc Hall].
  - apply takes_second; [by intros ? [? ->]|apply takes_ret].
  - apply takes_first, takes_after. eapply takes_weaken.
    + apply (takes_separated after_number); [by constructor|done|done].
    + by intros ? [? ->].
Qed.

(** *** The page and the statement *)

Lemma takes_clause (ok : string → Prop) keyword n :
  keyword ≠ "" → (∀ rest, ok rest → after_number rest ∧ r_token keyword rest = None) →
  takes ok (r_clause keyword) (optional_clause keyword n) n.
Proof.
  intros Hne Hok. unfold r_clause, r_option. destruct n as [n|]; cbn [optional_clause].
  - apply takes_first. eapply (takes_then _ after_number _ Some);
      [apply takes_after, takes_number|by intros ? [? _]%Hok].
  - apply takes_second; [|apply takes_ret]. intros rest [_ Hrest]%Hok.
    unfold r_bind. cbn. by rewrite Hrest.
Qed.

(** The text of a statement whose conditions are written with these texts. *)
Definition statement_text (st : CypherStatement) (conditions : list string) : string :=
  "MATCH " +:+ node_pattern (cs_root st) (cs_labels st)
  +:+ String.concat "" (map hop_text (cs_hops st)) +:+ conditions_text conditions
  +:+ " RETURN " +:+ Text.join ", " (map var_name (cs_return st))
  +:+ optional_clause " SKIP " (cs_skip st) +:+ optional_clause " LIMIT " (cs_limit st).

Lemma statement_takes params st texts :
  cs_return st ≠ [] → all_read after_number (r_condition params) texts (cs_where st) →
  r_statement params (statement_text st texts) = Some (st, "").
Proof.
  intros Hreturn Hall. rewrite <-(append_nil_r (statement_text st texts)).
  cut (takes (λ rest, rest = "") (r_statement params) (statement_text st texts) st); [auto|].
  destruct st as [root labels hops conditions [|var vars] skip limit]; [done|].
  cbn [cs_where] in Hall. unfold statement_text, r_statement.
  cbn [cs_root cs_labels cs_hops cs_return cs_skip cs_limit map].
  apply takes_after. eapply (takes_bind _ anything); [apply takes_node| |done].
  eapply takes_bind; [apply (takes_many anything)| |].
  { apply Forall2_fmap_l, Forall_Forall2_diag, Forall_true. intros hop.
    split; [apply takes_hop|]. split; [|done]. unfold hop_text. by destruct (ch_dir hop). }
  { eapply (takes_bind _ before_return); [by apply takes_conditions| |intros rest _; by eexists].
    apply takes_after. eapply takes_bind; [apply (takes_separated after_number)| |].
    - constructor; [split; [apply takes_var|done]|].
      apply Forall2_fmap_l, Forall_Forall2_diag, Forall_true. intros v. split; [apply takes_var|done].
    - done.
    - done.
    - eapply (takes_bind _ (λ rest, after_number rest ∧ r_token " SKIP " rest = None));
        [by apply takes_clause|eapply (takes_last _ (λ rest, rest = ""))|].
      + apply takes_clause; [done|by intros ? ->].
      + done.
      + done.
      + intros rest ->. by destruct limit.
    - intros rest ->. destruct skip, limit; done. }
  intros rest ->. split; [done|]. by destruct texts.
Qed.

(** ** The translation writes the statement of the query *)

#[local] Arguments param_name : simpl never.
#[local] Arguments var_name : simpl never.
#[local] Arguments cypher_name : simpl never.

(** The parameters of conditions are pushed in their order. *)
Definition push_condition (t : Translator) (c : CypherCondition) : Translator :=
  (push_param (cc_value c) t).2.
Definition push_conditions (l : list CypherCondition) (t : Translator) : Translator :=
  foldl push_condition t l.
(** The texts and the translator conditions end with. *)
Definition written (l : list CypherCondition) (t : Translator) : list string * Translator :=
  (condition_texts (tr_next_param t) l, push_conditions l t).

Lemma next_push_conditions l t :
  tr_next_param (push_conditions l t) = (tr_next_param t + N.of_nat (length l))%N.
Proof.
  revert t. induction l as [|c l IH]; intros t; [cbn; lia|].
  change (push_conditions (c :: l) t) with (push_conditions l (push_condition t c)).
  rewrite IH. cbn. lia.
Qed.
Lemma condition_texts_app n l1 l2 :
  condition_texts n (l1 ++ l2)
  = (condition_texts n l1 ++ condition_texts (n + N.of_nat (length l1)) l2)%list.
Proof.
  revert n. induction l1 as [|c l1 IH]; intros n; cbn; [by rewrite N.add_0_r|].
  rewrite IH. do 3 f_equal. lia.
Qed.
Lemma written_app l1 l2 t :
  written (l1 ++ l2) t
  = ((written l1 t).1 ++ (written l2 (written l1 t).2).1, (written l2 (written l1 t).2).2)%list.
Proof.
  unfold written. cbn. rewrite condition_texts_app, next_push_conditions.
  unfold push_conditions. by rewrite foldl_app.
Qed.

Lemma map_translated_written var l t :
  map_translated (property_predicate (var_name var)) l t = written (map (filter_condition var) l) t.
Proof.
  revert t. induction l as [|f l IH]; intros t; [done|].
  cbn. rewrite IH. unfold written. cbn. unfold condition_text. cbn. by rewrite !append_assoc.
Qed.
Lemma node_predicates_written node t : node_predicates node t = written (node_conditions node) t.
Proof.
  unfold node_predicates, node_conditions. destruct (nm_id_filter node) as [id|].
  - rewrite written_app. cbn -[map_translated written]. rewrite map_translated_written.
    unfold written, condition_texts, condition_text. cbn. by rewrite append_assoc.
  - by rewrite map_translated_written.
Qed.
Lemma all_node_predicates_written nodes t :
  all_node_predicates nodes t = written (concat (map node_conditions nodes)) t.
Proof.
  revert t. induction nodes as [|node nodes IH]; intros t; [done|]. cbn -[written].
  rewrite node_predicates_written. destruct (written (node_conditions node) t) as [texts t'] eqn:Hw.
  by rewrite IH, written_app, Hw.
Qed.
Lemma build_predicates_written q root t :
  build_predicates q root (collect_node_matches q) t = written (query_conditions q root) t.
Proof.
  unfold build_predicates, query_conditions. rewrite all_node_predicates_written.
  set (l := concat _). destruct (written l t) as [texts t'] eqn:Hw.
  by rewrite map_translated_written, written_app, Hw.
Qed.
Lemma pattern_written node_matches clauses pattern :
  foldl (push_hop node_matches) pattern clauses
  = pattern +:+ String.concat "" (map hop_text (omap (clause_to_hop node_matches) clauses)).
Proof.
  revert pattern. induction clauses as [|clause clauses IH]; intros pattern.
  { cbn. by rewrite append_nil_r. }
  cbn [foldl]. rewrite IH. destruct clause as [node|hop]; cbn [push_hop omap list_omap clause_to_hop];
    [done|]. cbn [map].
  rewrite concat_cons. unfold hop_text at 2. by rewrite !append_assoc.
Qed.

(** *** Its parameters *)

Lemma param_name_inj n m : param_name n = param_name m → n = m.
Proof.
  intros Heq. enough (Some (Z.of_N n) = Some (Z.of_N m)) as [= ?] by lia.
  rewrite <-!parse_u_to_string by lia. unfold param_name in Heq.
  apply (f_equal (str_strip_prefix "p")) in Heq. rewrite !str_strip_prefix_app in Heq.
  by injection Heq as ->.
Qed.
Lemma push_conditions_params l t name v :
  (∀ n, (tr_next_param t ≤ n)%N → tr_params t !! param_name n = None) →
  tr_params (push_conditions l t) !! name = Some v ↔
  tr_params t !! name = Some v ∨
  ∃ k c, name = param_name (tr_next_param t + N.of_nat k) ∧ l !! k = Some c ∧ cc_value c = v.
Proof.
  revert t. induction l as [|c l IH]; intros t Hfresh.
  { cbn. naive_solver. }
  change (push_conditions (c :: l) t) with (push_conditions l (push_condition t c)).
  rewrite IH; cbn.
  2:{ intros n Hn. rewrite lookup_insert_ne by (intros ?%param_name_inj; lia). apply Hfresh. lia. }
  rewrite lookup_insert_Some. split.
  - intros [[[<- <-]|[_ ?]]|(k & d & -> & Hk & Hd)].
    + right. exists 0%nat, c. by rewrite N.add_0_r.
    + by left.
    + right. exists (S k), d. split_and!; [f_equal; lia|done|done].
  - intros [Hname|([|k] & d & -> & Hk & Hd)].
    + left. right. split; [|done]. intros <-. by rewrite Hfresh in Hname by lia.
    + left. left. injection Hk as <-. by rewrite N.add_0_r.
    + right. exists k, d. split_and!; [f_equal; lia|done|done].
Qed.

Lemma dedup_nonempty x l : dedup (x :: l) ≠ [].
Proof.
  revert x. induction l as [|y l IH]; intros x; [done|]. cbn. case_decide; [apply IH|done].
Qed.


(** *** Where a hop starts

    Neither the text nor the parameters depend on the start of a hop: a query whose
    hops branch is written as the chain of its hops.  Compiled queries are chains. *)
Definition with_start (start : VarId) (clause : MatchClause) : MatchClause :=
  match clause with
  | MatchHop hop =>
      MatchHop {| hop_start := start; hop_rel_type := hop_rel_type hop;
                  hop_rel_var := hop_rel_var hop; hop_dir := hop_dir hop;
                  hop_end := hop_end hop; hop_end_labels := hop_end_labels hop |}
  | MatchNode _ => clause
  end.
Definition starting_at (start : VarId) (q : GraphQuery) : GraphQuery :=
  {| gq_matches := map (with_start start) (gq_matches q); gq_where := gq_where q;
     gq_ret := gq_ret q; gq_limit := gq_limit q; gq_offset := gq_offset q |}.
Lemma starts_are_not_written q start :
  is_ok (validate q) = true → is_ok (validate (starting_at start q)) = true →
  graph_query_to_cypher (starting_at start q) = graph_query_to_cypher q.
Proof.
  unfold graph_query_to_cypher.
  destruct (validate q) as [[]|e] eqn:Hq; [|done].
  destruct (validate (starting_at start q)) as [[]|e]; [|done]. intros _ _.
  assert (collect_node_matches (starting_at start q) = collect_node_matches q) as ->.
  { unfold collect_node_matches. cbn. generalize (∅ : gmap VarId NodeMatch).
    induction (gq_matches q) as [|[] l IH]; intros nodes; cbn; [done| |]; apply IH. }
  assert (bound_vars (starting_at start q) = bound_vars q) as ->.
  { unfold bound_vars. cbn. f_equal. f_equal. rewrite map_map. by apply map_ext; intros []. }
  unfold build_match_pattern, root_var. cbn.
  destruct (gq_matches q) as [|[root|hop] clauses]; [done| |done]. cbn.
  assert (∀ p, foldl (push_hop (collect_node_matches q)) p (map (with_start start) clauses)
    = foldl (push_hop (collect_node_matches q)) p clauses) as ->.
  { induction clauses as [|[] l IH]; intros p; cbn; [done| |]; apply IH. }
  done.
Qed.

(** Each hop of a list of clauses starts where the one before ends. *)
Fixpoint chained (current : VarId) (clauses : list MatchClause) : bool :=
  match clauses with
  | [] => true
  | MatchNode _ :: clauses => chained current clauses
  | MatchHop hop :: clauses => bool_decide (hop_start hop = current) && chained (hop_end hop) clauses
  end.
Lemma compiled_steps_chained vg current last steps :
  chained current (compile_steps vg current last steps).1.1 = true.
Proof.
  revert vg current last. induction steps as [|step steps IH]; intros vg current last; [done|]. cbn.
  match goal with |- context [compile_steps ?a ?b ?c ?d] => specialize (IH a b c);
    destruct (compile_steps a b c d) as [[cs lr] cur] end.
  cbn in *. rewrite bool_decide_true by done. exact IH.
Qed.
Lemma compiled_query_chained `{!NodeModel T} (query : Query T) q :
  compile_to_graph query = Some q →
  ∃ root clauses, gq_matches q = MatchNode root :: clauses ∧ chained (nm_var root) clauses = true.
Proof.
  unfold compile_to_graph. destruct (fresh _) as [root vg].
  pose proof (compiled_steps_chained vg root None (np_traversals (q_pattern query))) as Hchain.
  destruct (compile_steps _ _ _ _) as [[cs last] cur]. cbn in *.
  intros (ret & _ & [= <-])%bind_Some. cbn. by do 2 eexists.
Qed.
End cypher.

Section cypher_examples.
#[local] Existing Instance serde_default.

(** Names with quotes and a value in the middle of a text that looks like Cypher. *)
Definition hostile_name : string := "x`}) DETACH DELETE (n) //``".
Definition hostile_query : GraphQuery :=
  {| gq_matches :=
       [MatchNode {| nm_var := var_at 0; nm_labels := [hostile_name]; nm_id_filter := Some 7%Z;
                     nm_property_filters :=
                       [{| pf_key := "`a` = 1 OR ``"; pf_op := OpContains;
                           pf_value := Str "$p0` OR 1 = 1" |}] |};
        MatchHop {| hop_start := var_at 0; hop_rel_type := Some "`"; hop_rel_var := var_at 1;
                    hop_dir := DirIn; hop_end := var_at 2; hop_end_labels := [] |}];
     gq_where := []; gq_ret := ReturnNode (var_at 2); gq_limit := Some 3; gq_offset := None |}%N.
Definition hostile_text : string :=
  "MATCH (v0:`x``}) DETACH DELETE (n) //`````)<-[v1:````]-(v2) WHERE id(v0) = $p0 AND v0.```a`` = 1 OR ````` CONTAINS $p1 RETURN v0, v1, v2 LIMIT 3".
Example hostile_query_is_quoted :
  match graph_query_to_cypher hostile_query with
  | Some (Ok c) => cq_text c = hostile_text ∧ bt_keys (cq_params c) = ["p0"; "p1"]
  | _ => False
  end.
Proof. vm_compute. split; reflexivity. Qed.
End cypher_examples.
