(* ===== verification/Values.v ===== *)
(** * Typed property values ([src/src/runtime/value.rs])

    The primitive kinds of the runtime schema: parsing a value of a kind from
    its text, the canonical form of the tagged kinds, validation, comparison.
    The [base64], [uuid] and [chrono] crates are parameters ([Formats]), with
    what the date-time code relies on in [FormatLaws]. *)

From S2P Require Export Prelude Text Json Numbers Dsl.

From Stdlib Require Import QArith_base.

Local Close Scope Q_scope.
Local Open Scope string_scope.

(** ** Parsing [f64]: correctly rounded decimal notation *)

Definition f64_div_pow10 (neg : bool) (m : positive) (k : Z) : f64 :=
  SFdiv f64_prec f64_emax (S754_finite neg m 0) (S754_finite false (Z.to_pos (10 ^ k)) 0).

(** The float nearest to [m * 10 ^ e] with the given sign. *)
Definition f64_of_decimal (neg : bool) (m e : Z) : f64 :=
  match m with
  | Zpos p =>
      if (0 <=? e)%Z
      then binary_normalize f64_prec f64_emax ((if neg then -1 else 1) * m * 10 ^ e) 0 neg
      else f64_div_pow10 neg p (- e)
  | _ => S754_zero neg
  end.

Fixpoint span_digits (s : string) : string * string :=
  match s with
  | EmptyString => ("", "")
  | String c r =>
      if is_ascii_digit c then let '(d, r') := span_digits r in (String c d, r')
      else ("", s)
  end.

Definition digits_value (s : string) : Z := default 0%Z (parse_digits s 0).

Definition strip_sign (s : string) : bool * string :=
  match s with
  | String "-" r => (true, r)
  | String "+" r => (false, r)
  | _ => (false, s)
  end.

(** An exponent part, or the end of the text. *)
Definition parse_exponent (s : string) : option Z :=
  match s with
  | EmptyString => Some 0%Z
  | String c r =>
      if Ascii.eqb c "e" || Ascii.eqb c "E"
      then let '(neg, r) := strip_sign r in
           let '(d, rest) := span_digits r in
           if str_is_empty d || negb (str_is_empty rest) then None
           else Some (if neg then - digits_value d else digits_value d)%Z
      else None
  end.

(** [str::parse::<f64>] *)
Definition parse_f64 (s : string) : option f64 :=
  let '(neg, body) := strip_sign s in
  let lower := to_ascii_lowercase body in
  if String.eqb lower "inf" || String.eqb lower "infinity" then Some (S754_infinity neg)
  else if String.eqb lower "nan" then Some S754_nan
  else
    let '(whole, rest) := span_digits body in
    let '(frac, rest) :=
      match rest with String "." r => span_digits r | _ => ("", rest) end in
    if str_is_empty (whole +:+ frac) then None
    else e ← parse_exponent rest;
         Some (f64_of_decimal neg (digits_value (whole +:+ frac))
                              (e - Z.of_nat (String.length frac))).

Example parse_f64_tests :
  parse_f64 "1.5" = Some (S754_finite false 6755399441055744 (-52)) ∧
  parse_f64 "-.5e1" = Some (S754_finite true 5629499534213120 (-50)) ∧
  parse_f64 "1e400" = Some (S754_infinity false) ∧ parse_f64 "." = None ∧
  parse_f64 "0.1" = Some (S754_finite false 7205759403792794 (-56)).
Proof. by vm_compute. Qed.

(** ** The formats of other crates *)

Class Formats := {
  (** [base64::engine::general_purpose::STANDARD] *)
  base64_decode : string → option string;
  base64_encode : string → string;
  (** [uuid::Uuid] *)
  Uuid : Type;
  uuid_parse_str : string → option Uuid;
  uuid_hyphenated : Uuid → string;
  (** [chrono::NaiveDate], with the format [%Y-%m-%d] *)
  NaiveDate : Type;
  naive_date_parse : string → option NaiveDate;
  naive_date_format : NaiveDate → string;
  (** [chrono::DateTime<Utc>]; parsing converts to UTC. *)
  DateTime : Type;
  parse_from_rfc3339 : string → option DateTime;
  timestamp_subsec_nanos : DateTime → Z;
  to_rfc3339_secs : DateTime → string;
  to_rfc3339_nanos : DateTime → string;
  datetime_cmp : DateTime → DateTime → comparison;
  (** Not called by the code, for the laws: the year, and what is printed before
      the fraction of a second. *)
  datetime_year : DateTime → Z;
  rfc3339_prefix : DateTime → string;
}.

(** ** Kinds *)

Inductive PrimitiveKind :=
  | KString | KInt | KFloat | KBool | KBytes | KDecimal | KDate | KDateTime | KDuration | KUuid.

#[export] Instance PrimitiveKind_eq_dec : EqDecision PrimitiveKind.
Proof. solve_decision. Defined.

Definition kind_keyword (k : PrimitiveKind) : string :=
  match k with
  | KString => "string" | KInt => "int" | KFloat => "float" | KBool => "bool"
  | KBytes => "bytes" | KDecimal => "decimal" | KDate => "date"
  | KDateTime => "datetime" | KDuration => "duration" | KUuid => "uuid"
  end.

Definition kind_parse_keyword (input : string) : option PrimitiveKind :=
  match to_ascii_lowercase (str_trim input) with
  | "string" => Some KString
  | "int" => Some KInt
  | "float" => Some KFloat
  | "bool" => Some KBool
  | "bytes" => Some KBytes
  | "decimal" => Some KDecimal
  | "date" => Some KDate
  | "datetime" => Some KDateTime
  | "duration" => Some KDuration
  | "uuid" => Some KUuid
  | _ => None
  end.

Section values.
Context `{SerdeNumber} `{Formats}.

Definition tagged (kind : PrimitiveKind) (value : string) : Value :=
  Object [("$grm_type", Str (kind_keyword kind)); ("value", Str value)].

Definition typed_value_parts (value : Value) : option (string * string) :=
  object ← as_object value;
  kind ← object_get object "$grm_type" ≫= as_str;
  raw ← object_get object "value" ≫= as_str;
  if (length object =? 2)%nat then Some (kind, raw) else None.

Definition typed_value_kind (value : Value) : option string := fst <$> typed_value_parts value.
Definition typed_value_payload (value : Value) : option string := snd <$> typed_value_parts value.

Definition finite_float_value (value : f64) : result Value :=
  if negb (f64_is_finite value) then Err (Constraint "expected finite float value")
  else ok_or (Num <$> number_from_f64 value) (Constraint "expected finite float value").

(** [if canonical != raw { return Err(e) } Ok(tagged(kind, canonical))] *)
Definition tag_canonical (kind : PrimitiveKind) (canonical raw : string) (e : GrmError)
    : result Value :=
  if String.eqb canonical raw then Ok (tagged kind canonical) else Err e.

Definition canonical_bytes_value (input : string) : result Value :=
  let trimmed := str_trim input in
  let e := Constraint "expected canonical base64 bytes value" in
  bs ← ok_or (base64_decode trimmed) e;
  tag_canonical KBytes (base64_encode bs) trimmed e.

Definition canonical_date_value (input : string) : result Value :=
  let raw := str_trim input in
  let e := Constraint "expected canonical date value YYYY-MM-DD" in
  date ← ok_or (naive_date_parse raw) e;
  tag_canonical KDate (naive_date_format date) raw e.

(** [while s.ends_with(c) { s.pop(); }] *)
Fixpoint trim_end_char (c : ascii) (s : string) : string :=
  match s with
  | EmptyString => EmptyString
  | String b s =>
      match trim_end_char c s with
      | EmptyString => if Ascii.eqb b c then EmptyString else String b EmptyString
      | s => String b s
      end
  end.

(** [s.pop()] *)
Fixpoint str_pop (s : string) : string :=
  match s with
  | EmptyString | String _ EmptyString => EmptyString
  | String c s => String c (str_pop s)
  end.

Definition canonical_datetime (utc : DateTime) : string :=
  if (timestamp_subsec_nanos utc =? 0)%Z then to_rfc3339_secs utc
  else trim_end_char "0" (str_pop (to_rfc3339_nanos utc)) +:+ "Z".

Definition canonical_datetime_value (input : string) : result Value :=
  utc ← ok_or (parse_from_rfc3339 (str_trim input))
              (Constraint "expected RFC3339 datetime with explicit offset");
  Ok (tagged KDateTime (canonical_datetime utc)).

(** *** Durations, in nanoseconds: [i128] *)

Definition i128_min : Z := - 2 ^ 127.
Definition i128_max : Z := 2 ^ 127 - 1.
Definition i128_checked (z : Z) : option Z :=
  if ((i128_min <=? z) && (z <=? i128_max))%Z then Some z else None.

Definition duration_error : GrmError :=
  Constraint "expected canonical duration value like PT0S or -PT1.5S".

(** [while s.len() < n { s.push('0'); }] *)
Fixpoint pad_zeros (n : nat) (s : string) : string :=
  match n, s with
  | O, _ => s
  | S n, EmptyString => String "0" (pad_zeros n EmptyString)
  | S n, String c s => String c (pad_zeros n s)
  end.

Definition parse_decimal_seconds_to_nanos (raw : string) : result Z :=
  if str_is_empty raw then Err duration_error
  else
    let parts := split_char "." raw in
    let whole := default "" (parts !! 0%nat) in
    let frac := parts !! 1%nat in
    if bool_decide (is_Some (parts !! 2%nat))
       || str_is_empty whole
       || negb (all_chars is_ascii_digit whole)
       || match frac with
          | Some part => str_is_empty part || (9 <? String.length part)%nat
                         || negb (all_chars is_ascii_digit part)
          | None => false
          end
    then Err duration_error
    else
      whole ← ok_or (parse_i128 whole)
                    (Constraint "duration seconds are outside supported range");
      let frac_digits := pad_zeros 9 (default "" frac) in
      frac ← (if str_is_empty frac_digits then Ok 0%Z
              else ok_or (parse_i128 frac_digits)
                         (Constraint "duration fraction is outside supported range"));
      ok_or (v ← i128_checked (whole * 1000000000); i128_checked (v + frac))
            (Constraint "duration is outside supported range").

Definition duration_body (raw : string) : result string :=
  let body := default raw (str_strip_prefix "-" raw) in
  ok_or (str_strip_prefix "PT" body ≫= str_strip_suffix "S") duration_error.

Definition parse_duration_nanos (raw : string) : result Z :=
  seconds ← duration_body raw;
  nanos ← parse_decimal_seconds_to_nanos seconds;
  Ok (if str_starts_with "-" raw then - nanos else nanos)%Z.

(** [format!("{frac:09}")] of a number below [10 ^ 9] *)
Definition format_09 (n : Z) : string :=
  let s := u_to_string n in
  concat_chars (repeat "0" (9 - String.length s)) +:+ s.

Definition format_duration_nanos (nanos : Z) : string :=
  let negative := (nanos <? 0)%Z in
  let abs := Z.abs nanos in
  let whole := (abs / 1000000000)%Z in
  let frac := (abs `mod` 1000000000)%Z in
  (if negative && negb (abs =? 0)%Z then "-" else "") +:+ "PT" +:+ u_to_string whole
  +:+ (if (frac =? 0)%Z then "" else "." +:+ trim_end_char "0" (format_09 frac)) +:+ "S".

Definition canonical_duration_value (input : string) : result Value :=
  let raw := str_trim input in
  if str_is_empty raw then Err duration_error
  else
    seconds ← duration_body raw;
    nanos ← parse_decimal_seconds_to_nanos seconds;
    let signed := (if str_starts_with "-" raw then - nanos else nanos)%Z in
    tag_canonical KDuration (format_duration_nanos signed) raw duration_error.

Definition canonical_uuid_value (input : string) : result Value :=
  let raw := str_trim input in
  let e := Constraint "expected canonical uuid value" in
  uuid ← ok_or (uuid_parse_str raw) e;
  tag_canonical KUuid (uuid_hyphenated uuid) raw e.

(** *** Decimals *)

Definition decimal_error : GrmError := Constraint "expected canonical finite decimal value".

(** [raw.strip_prefix('-').map_or((false, raw), |rest| (true, rest))] *)
Definition split_minus (raw : string) : bool * string :=
  match str_strip_prefix "-" raw with Some rest => (true, rest) | None => (false, raw) end.

Definition canonical_decimal (input : string) : result string :=
  let raw := str_trim input in
  if str_starts_with "+" raw then Err decimal_error
  else
    let '(negative, rest) := split_minus raw in
    if str_is_empty rest || str_contains "e" rest || str_contains "E" rest
    then Err decimal_error
    else
      let parts := split_char "." rest in
      let int := default "" (parts !! 0%nat) in
      let frac := parts !! 1%nat in
      if bool_decide (is_Some (parts !! 2%nat))
         || str_is_empty int
         || negb (all_chars is_ascii_digit int)
         || match frac with
            | Some part => str_is_empty part || negb (all_chars is_ascii_digit part)
            | None => false
            end
      then Err decimal_error
      else if (1 <? String.length int)%nat && str_starts_with "0" int then Err decimal_error
      else
        let frac := trim_end_char "0" (default "" frac) in
        let is_zero := all_chars (Ascii.eqb "0") int && str_is_empty frac in
        if negative && is_zero then Err decimal_error
        else
          let out := (if negative then "-" else "") +:+ int
                     +:+ (if str_is_empty frac then "" else "." +:+ frac) in
          if String.eqb out raw then Ok out else Err decimal_error.

Definition canonical_decimal_value (input : string) : result Value :=
  canonical ← canonical_decimal input; Ok (tagged KDecimal canonical).

(** ** Parsing and validation *)

Definition parse_typed_value (kind : PrimitiveKind) (input : string) : result Value :=
  match kind with
  | KString => Ok (Str input)
  | KInt => ok_or (value_from_i64 <$> parse_i64 (str_trim input)) (Constraint "expected int value")
  | KFloat =>
      value ← ok_or (parse_f64 (str_trim input)) (Constraint "expected finite float value");
      finite_float_value value
  | KBool =>
      match to_ascii_lowercase (str_trim input) with
      | "true" => Ok (Bool true)
      | "false" => Ok (Bool false)
      | _ => Err (Constraint "expected bool value (true/false)")
      end
  | KBytes => canonical_bytes_value input
  | KDecimal => canonical_decimal_value input
  | KDate => canonical_date_value input
  | KDateTime => canonical_datetime_value input
  | KDuration => canonical_duration_value input
  | KUuid => canonical_uuid_value input
  end.

Definition validate_value_for_kind (kind : PrimitiveKind) (value : Value) : bool :=
  match kind with
  | KString => match value with Str _ => true | _ => false end
  | KInt => bool_decide (is_Some (as_i64 value))
  | KFloat =>
      match as_number value with
      | Some number =>
          number_is_f64 number &&
          match number_as_f64 number with Some x => f64_is_finite x | None => false end
      | None => false
      end
  | KBool => match value with Bool _ => true | _ => false end
  | _ =>
      match typed_value_parts value with
      | Some (actual, raw) =>
          String.eqb actual (kind_keyword kind) &&
          match parse_typed_value kind raw with
          | Ok v => value_eqb v value
          | Err _ => false
          end
      | None => false
      end
  end.

Definition typed_json_object (kind : PrimitiveKind) (value : string) : Value :=
  tagged kind value.
End values.

(** ** Comparison *)

Section compare.
Context `{SerdeNumber} `{Formats}.

Definition values_have_same_kind (left right : Value) : bool :=
  match left, right with
  | Null, Null | Bool _, Bool _ | Str _, Str _ | Array _, Array _ => true
  | Num l, Num r =>
      (number_is_i64 l && number_is_i64 r)
      || (number_is_u64 l && number_is_u64 r)
      || (number_is_f64 l && number_is_f64 r)
  | Object _, Object _ =>
      match typed_value_parts left, typed_value_parts right with
      | Some (left_kind, _), Some (right_kind, _) => String.eqb left_kind right_kind
      | _, _ => false
      end
  | _, _ => false
  end.

Definition decimal_parts (raw : string) : bool * string * string :=
  let '(negative, rest) := split_minus raw in
  let parts := split_char "." rest in
  (negative, default "" (parts !! 0%nat), default "" (parts !! 1%nat)).

(** The byte at [idx], or [b'0'] past the end. *)
Definition digit_at (s : string) (idx : nat) : Z :=
  match String.get idx s with Some c => byte_val c | None => 48 end.

(** [a.then(b)] *)
Definition ordering_then (a b : comparison) : comparison :=
  match a with Eq => b | _ => a end.

Definition frac_ordering (left right : string) : comparison :=
  let max_frac := Nat.max (String.length left) (String.length right) in
  default Eq (List.find (λ ord, match ord with Eq => false | _ => true end)
                        (map (λ idx, (digit_at left idx ?= digit_at right idx)%Z)
                             (seq 0 max_frac))).

Definition compare_decimal (left right : string) : option comparison :=
  let '(left_neg, left_int, left_frac) := decimal_parts left in
  let '(right_neg, right_int, right_frac) := decimal_parts right in
  if negb (Bool.eqb left_neg right_neg) then Some (if left_neg then Lt else Gt)
  else
    let int_ord := ordering_then (String.length left_int ?= String.length right_int)%nat
                                 (String.compare left_int right_int) in
    let ord := ordering_then int_ord (frac_ordering left_frac right_frac) in
    Some (if left_neg then CompOpp ord else ord).

Definition bool_cmp (a b : bool) : comparison :=
  match a, b with false, true => Lt | true, false => Gt | _, _ => Eq end.

(** [both l r = Some (x, y)] when both options are set. *)
Definition both {A} (l r : option A) : option (A * A) :=
  match l, r with Some x, Some y => Some (x, y) | _, _ => None end.

Definition f64_pair (left right : Value) : option (f64 * f64) :=
  match as_number left, as_number right with
  | Some l, Some r =>
      if number_is_f64 l && number_is_f64 r then both (as_f64 left) (as_f64 right) else None
  | _, _ => None
  end.

Definition compare_typed_value_order (left right : Value) : option comparison :=
  if negb (values_have_same_kind left right) then None
  else
    match both (as_i64 left) (as_i64 right) with
    | Some (l, r) => Some (l ?= r)%Z
    | None =>
    match f64_pair left right with
    | Some (l, r) => SFcompare l r
    | None =>
    match both (as_str left) (as_str right) with
    | Some (l, r) => Some (String.compare l r)
    | None =>
    match both (as_bool left) (as_bool right) with
    | Some (l, r) => Some (bool_cmp l r)
    | None =>
    match typed_value_parts left, typed_value_parts right with
    | Some (left_kind, left_raw), Some (right_kind, right_raw) =>
        if negb (String.eqb left_kind right_kind) then None
        else
          match left_kind with
          | "bytes" | "uuid" | "date" => Some (String.compare left_raw right_raw)
          | "datetime" =>
              l ← parse_from_rfc3339 left_raw;
              r ← parse_from_rfc3339 right_raw;
              Some (datetime_cmp l r)
          | "decimal" => compare_decimal left_raw right_raw
          | "duration" =>
              match parse_duration_nanos left_raw, parse_duration_nanos right_raw with
              | Ok l, Ok r => Some (l ?= r)%Z
              | _, _ => None
              end
          | _ => None
          end
    | _, _ => None
    end end end end end.

Definition compare_typed_values (left : Value) (op : CompareOp) (right : Value) : bool :=
  if negb (values_have_same_kind left right) then false
  else
    match op with
    | OpEq => value_eqb left right
    | OpNe => negb (value_eqb left right)
    | OpGt => bool_decide (compare_typed_value_order left right = Some Gt)
    | OpGe => match compare_typed_value_order left right with
              | Some ord => bool_decide (ord ≠ Lt) | None => false end
    | OpLt => bool_decide (compare_typed_value_order left right = Some Lt)
    | OpLe => match compare_typed_value_order left right with
              | Some ord => bool_decide (ord ≠ Gt) | None => false end
    | OpContains => match both (as_str left) (as_str right) with
                    | Some (lhs, rhs) => str_contains rhs lhs | None => false end
    end.
End compare.

(** ** Texts without white space, and trailing zeros *)

Local Open Scope list_scope.
Local Open Scope Z_scope.

(** Printable ASCII, none of which is white space. *)
Definition is_plain (c : ascii) : bool := byte_in 33 126 c.

Lemma plain_not_space c : is_plain c = true → char_is_whitespace (String c "") = false.
Proof. destruct c as [[] [] [] [] [] [] [] []]; vm_compute; done. Qed.

Lemma plain_not_continuation c : is_plain c = true → is_continuation c = false.
Proof. destruct c as [[] [] [] [] [] [] [] []]; vm_compute; done. Qed.

Lemma utf8_chars_plain s :
  all_chars is_plain s = true →
  utf8_chars s = map (λ c, String c "") (list_ascii_of_string s) ∧
  Forall (λ x, char_is_whitespace x = false) (utf8_chars s).
Proof.
  induction s as [|c s IH]; cbn -[char_is_whitespace]; [by split|].
  intros [Hc Hs]%andb_true_iff. destruct (IH Hs) as [Heq Hsp]. rewrite Heq in Hsp |- *.
  destruct s as [|d s]; cbn -[char_is_whitespace] in *.
  - split; [done|]. constructor; [by apply plain_not_space|done].
  - apply andb_true_iff in Hs as [Hd _]. rewrite plain_not_continuation by done.
    split; [done|]. constructor; [by apply plain_not_space|done].
Qed.

Lemma str_trim_plain s : all_chars is_plain s = true → str_trim s = s.
Proof.
  intros [_ Hs]%utf8_chars_plain. unfold str_trim.
  assert (∀ l, Forall (λ x, char_is_whitespace x = false) l → skip_while char_is_whitespace l = l)
    as Hfix.
  { intros l Hl. apply skip_while_fix. intros x k ->. by apply Forall_cons in Hl as [? _]. }
  rewrite (Hfix (utf8_chars s)), (Hfix (rev _)), rev_involutive by (try apply Forall_rev; done).
  apply concat_utf8_chars.
Qed.

Lemma digit_plain c : is_ascii_digit c = true → is_plain c = true.
Proof.
  unfold is_ascii_digit, is_plain, byte_in. rewrite !andb_true_iff, !Z.leb_le. lia.
Qed.

Lemma pad_trim_zeros s : pad_zeros (String.length s) (trim_end_char "0" s) = s.
Proof.
  induction s as [|b s IH]; cbn; [done|].
  destruct (trim_end_char "0" s) as [|c t].
  - destruct (Ascii.eqb_spec b "0") as [->|]; cbn; by rewrite IH.
  - cbn. by rewrite IH.
Qed.

Lemma trim_zeros_digits s : digits_only s = true → digits_only (trim_end_char "0" s) = true.
Proof.
  induction s as [|b s IH]; [done|]. cbn [trim_end_char].
  intros Hs. apply andb_true_iff in Hs as [Hb Hs]. specialize (IH Hs).
  destruct (trim_end_char "0" s) as [|c t].
  - destruct (Ascii.eqb b "0"); [done|]. cbn. by rewrite Hb.
  - unfold digits_only in *. cbn [all_chars] in *. by rewrite Hb.
Qed.

Lemma trim_zeros_length s : (String.length (trim_end_char "0" s) ≤ String.length s)%nat.
Proof.
  induction s as [|b s IH]; cbn; [lia|]. destruct (trim_end_char "0" s); [case_match|]; cbn in *; lia.
Qed.

Lemma pad_zeros_app n s :
  (String.length s ≤ n)%nat → pad_zeros n s = s +:+ pad_zeros (n - String.length s) "".
Proof.
  revert n. induction s as [|c s IH]; intros n Hn; cbn; [by rewrite Nat.sub_0_r|].
  destruct n as [|n]; cbn in Hn; [lia|]. cbn. f_equal. apply IH. lia.
Qed.

Lemma pad_zeros_empty n :
  digits_only (pad_zeros n "") = true ∧ String.length (pad_zeros n "") = n ∧
  dval (pad_zeros n "") = 0.
Proof.
  induction n as [|n (IHd & IHl & IHv)]; [done|]. cbn [pad_zeros].
  split_and!; [done|cbn; by f_equal|].
  change (String "0" (pad_zeros n "")) with ("0" +:+ pad_zeros n "").
  rewrite dval_app, IHv by done. done.
Qed.

Lemma pad_zeros_value n s :
  digits_only s = true → (String.length s ≤ n)%nat →
  digits_only (pad_zeros n s) = true ∧ String.length (pad_zeros n s) = n ∧
  dval (pad_zeros n s) = dval s * 10 ^ (Z.of_nat n - Z.of_nat (String.length s)).
Proof.
  intros Hs Hn. destruct (pad_zeros_empty (n - String.length s)) as (Hd & Hl & Hv).
  rewrite pad_zeros_app by done. split_and!.
  - unfold digits_only. by rewrite all_chars_app, andb_true_iff.
  - rewrite length_append, Hl. lia.
  - rewrite dval_app, Hv, Hl by done. rewrite Nat2Z.inj_sub by done. lia.
Qed.

(** Digits of value zero are zeros. *)
Lemma dval_zero s : digits_only s = true → dval s = 0 → trim_end_char "0" s = "".
Proof.
  induction s as [|c s IH]; [done|]. intros Hs Hv.
  change (String c s) with (String c "" +:+ s) in Hv.
  apply andb_true_iff in Hs as [Hc Hs]. rewrite dval_app in Hv; [|cbn; by rewrite Hc|done].
  destruct (parse_digits_only s 0 Hs) as [_ Hr].
  assert (digits_only (String c "") = true) as Hc' by (cbn; by rewrite Hc).
  destruct (parse_digits_only _ 0 Hc') as [_ Hr'].
  assert (dval s = 0 ∧ dval (String c "") = 0) as [Hs0 Hc0] by nia.
  cbn [trim_end_char]. rewrite (IH Hs Hs0).
  destruct c as [[] [] [] [] [] [] [] []]; vm_compute in Hc, Hc0; done.
Qed.

(** ** Durations *)

Section durations.
Context `{SerdeNumber} `{Formats}.

(** The seconds of a duration in canonical form. *)
Definition format_seconds (n : Z) : string :=
  u_to_string (n / 1000000000) +:+
  (if n `mod` 1000000000 =? 0 then ""
   else "." +:+ trim_end_char "0" (format_09 (n `mod` 1000000000))).

Lemma format_duration_eq n :
  format_duration_nanos n
  = (if n <? 0 then "-" else "") +:+ "PT" +:+ format_seconds (Z.abs n) +:+ "S".
Proof.
  unfold format_duration_nanos, format_seconds. rewrite append_assoc. f_equal.
  destruct (Z.ltb_spec n 0); [|done]. by rewrite (proj2 (Z.eqb_neq _ _)) by lia.
Qed.

Lemma repeat_zero_digits n :
  digits_only (concat_chars (repeat "0" n)) = true ∧
  String.length (concat_chars (repeat "0" n)) = n ∧ dval (concat_chars (repeat "0" n)) = 0.
Proof.
  induction n as [|n (IHd & IHl & IHv)]; [done|]. cbn [repeat concat_chars foldr].
  fold (concat_chars (repeat "0" n)). split_and!; [done|cbn; by f_equal|].
  by rewrite dval_app, IHv.
Qed.

Lemma format_09_ok n :
  0 ≤ n < 10 ^ 9 →
  digits_only (format_09 n) = true ∧ String.length (format_09 n) = 9%nat ∧
  dval (format_09 n) = n.
Proof.
  intros Hn. unfold format_09. pose proof (u_to_string_length n 9 Hn ltac:(lia)) as Hlen.
  destruct (repeat_zero_digits (9 - String.length (u_to_string n))) as (Hd & Hl & Hv).
  split_and!.
  - unfold digits_only. rewrite all_chars_app, andb_true_iff.
    split; [done|apply u_to_string_digits].
  - rewrite length_append, Hl. lia.
  - rewrite dval_app, Hv, dval_u_to_string by (done || lia || apply u_to_string_digits). lia.
Qed.

Lemma i128_checked_ok z : i128_min ≤ z ≤ i128_max → i128_checked z = Some z.
Proof.
  intros Hz. unfold i128_checked. by rewrite (proj2 (Z.leb_le _ _)), (proj2 (Z.leb_le _ _)) by lia.
Qed.

Lemma i128_checked_Some z v : i128_checked z = Some v → v = z ∧ i128_min ≤ v ≤ i128_max.
Proof.
  unfold i128_checked. destruct (_ && _) eqn:Hr; [|done]. intros [= <-].
  apply andb_true_iff in Hr as [?%Z.leb_le ?%Z.leb_le]. lia.
Qed.

Lemma digits_not_dot s : digits_only s = true → lacks "." s = true.
Proof. by apply digits_lack. Qed.

(** What the parser makes of a whole part and an optional fraction. *)
Lemma parse_seconds_eq w frac :
  let n := dval w * 1000000000 + dval (pad_zeros 9 (default "" frac)) in
  digits_only w = true → str_is_empty w = false →
  match frac with
  | Some f => digits_only f = true ∧ str_is_empty f = false ∧ (String.length f ≤ 9)%nat
  | None => True
  end → n ≤ i128_max →
  parse_decimal_seconds_to_nanos (w +:+ from_option (String ".") "" frac) = Ok n.
Proof.
  intros n Hdw Hnw Hfrac Hn. unfold parse_decimal_seconds_to_nanos.
  assert (str_is_empty (w +:+ from_option (String ".") "" frac) = false) as -> by by destruct w.
  assert (split_char "." (w +:+ from_option (String ".") "" frac)
          = w :: match frac with Some f => [f] | None => [] end) as ->.
  { destruct frac as [f|]; cbn [from_option].
    - destruct Hfrac as [? _]. by rewrite split_char_app, split_char_lacks by by apply digits_not_dot.
    - by rewrite append_nil_r, split_char_lacks by by apply digits_not_dot. }
  destruct (parse_digits_only w 0 Hdw) as [_ Hw].
  destruct (pad_zeros_value 9 (default "" frac)) as (Hdp & Hlp & _);
    [by destruct frac as [f|]; [apply Hfrac|]|destruct frac as [f|]; [apply Hfrac|cbn; lia]|].
  destruct (parse_digits_only _ 0 Hdp) as [_ Hp]. rewrite Hlp in Hp.
  change (10 ^ Z.of_nat 9) with 1000000000 in Hp. unfold n in Hn.
  assert (str_is_empty (pad_zeros 9 (default "" frac)) = false) as Hnp
    by (by destruct (pad_zeros 9 (default "" frac))).
  assert (parse_i128 w = Some (dval w)) as Hpw.
  { apply parse_signed_digits; [done..|]. unfold i128_max in *. lia. }
  assert (parse_i128 (pad_zeros 9 (default "" frac)) = Some (dval (pad_zeros 9 (default "" frac))))
    as Hpp by (apply parse_signed_digits; [done..|lia]).
  assert ((v ← i128_checked (dval w * 1000000000);
           i128_checked (v + dval (pad_zeros 9 (default "" frac)))) = Some n) as Hsum.
  { rewrite i128_checked_ok by (unfold i128_min, i128_max in *; lia).
    unfold mbind, option_bind.
    rewrite i128_checked_ok by (unfold i128_min, i128_max in *; lia). done. }
  destruct frac as [f|]; cbn [lookup list_lookup default from_option id] in *;
    rewrite Hnw; fold digits_only; rewrite Hdw;
    [destruct Hfrac as (Hdf & Hnf & Hlf); rewrite Hdf, Hnf, (proj2 (Nat.ltb_ge _ _)) by done|].
  all: match goal with |- context [pad_zeros 9 ?x] => set (p9 := pad_zeros 9 x) in * end.
  all: clearbody p9; set (dw := dval w) in *; set (dp := dval p9) in *; clearbody dw dp.
  all: cbn -[Z.mul Z.add parse_i128 i128_checked]; rewrite Hpw.
  all: cbn -[Z.mul Z.add parse_i128 i128_checked]; rewrite Hnp, Hpp.
  all: cbn -[Z.mul Z.add i128_checked]; by rewrite Hsum.
Qed.

Lemma parse_format_seconds n :
  0 ≤ n ≤ i128_max → parse_decimal_seconds_to_nanos (format_seconds n) = Ok n.
Proof.
  intros Hn. pose proof (Z.mod_pos_bound n 1000000000 ltac:(lia)) as Hm.
  pose proof (Z.div_mod n 1000000000 ltac:(lia)) as Hdiv.
  assert (0 ≤ n / 1000000000) as Hq by (apply Z.div_pos; lia).
  unfold format_seconds. set (q := n / 1000000000) in *. set (m := n `mod` 1000000000) in *.
  destruct (format_09_ok m ltac:(lia)) as (Hd9 & Hl9 & Hv9).
  set (f := trim_end_char "0" (format_09 m)).
  assert (pad_zeros 9 f = format_09 m) as Hpad by (rewrite <-Hl9; apply pad_trim_zeros).
  assert ((if m =? 0 then "" else "." +:+ f)
          = from_option (String ".") "" (if m =? 0 then None else Some f)) as ->
    by by destruct (m =? 0).
  assert (dval (pad_zeros 9 (default "" (if m =? 0 then None else Some f))) = m) as Hfm.
  { destruct (Z.eqb_spec m 0) as [->|]; cbn [default from_option id];
      [apply pad_zeros_empty|by rewrite Hpad]. }
  pose proof (parse_seconds_eq (u_to_string q) (if m =? 0 then None else Some f)) as Hparse.
  cbv zeta in Hparse. rewrite Hfm, dval_u_to_string in Hparse by done.
  replace (q * 1000000000 + m) with n in Hparse by lia. apply Hparse;
    [apply u_to_string_digits|apply u_to_string_nonempty| |lia].
  destruct (Z.eqb_spec m 0) as [|Hm0]; [done|]. split_and!.
  - by apply trim_zeros_digits.
  - destruct f eqn:Hf; [|done]. exfalso. rewrite <-Hpad in Hv9.
    rewrite (proj2 (proj2 (pad_zeros_empty 9))) in Hv9. lia.
  - rewrite <-Hl9. apply trim_zeros_length.
Qed.
Lemma duration_body_format n :
  duration_body (format_duration_nanos n) = Ok (format_seconds (Z.abs n)) ∧
  str_starts_with "-" (format_duration_nanos n) = (n <? 0).
Proof.
  rewrite format_duration_eq. unfold duration_body, str_starts_with.
  assert (str_strip_prefix "PT" ("PT" +:+ format_seconds (Z.abs n) +:+ "S") ≫= str_strip_suffix "S"
          = Some (format_seconds (Z.abs n))) as Hbody.
  { rewrite str_strip_prefix_app. cbn [mbind option_bind]. apply str_strip_suffix_app. }
  destruct (n <? 0).
  - rewrite str_strip_prefix_app. cbn [default from_option id]. by rewrite Hbody.
  - change ("" +:+ "PT" +:+ format_seconds (Z.abs n) +:+ "S")
      with ("PT" +:+ format_seconds (Z.abs n) +:+ "S").
    assert (str_strip_prefix "-" ("PT" +:+ format_seconds (Z.abs n) +:+ "S") = None) as -> by done.
    cbn [default from_option id]. by rewrite Hbody.
Qed.

Definition in_duration_range (n : Z) : Prop := Z.abs n ≤ i128_max.

Lemma parse_format_duration n :
  in_duration_range n → parse_duration_nanos (format_duration_nanos n) = Ok n.
Proof.
  intros Hn. unfold in_duration_range in Hn. unfold parse_duration_nanos.
  destruct (duration_body_format n) as [-> ->]. cbn [mbind result_bind].
  rewrite parse_format_seconds by lia. cbn [mbind result_bind]. f_equal.
  destruct (Z.ltb_spec n 0); lia.
Qed.

Lemma format_seconds_plain n : all_chars is_plain (format_seconds n) = true.
Proof.
  unfold format_seconds. rewrite all_chars_app, andb_true_iff. split.
  - eapply all_chars_impl; [apply digit_plain|apply u_to_string_digits].
  - destruct (_ =? 0); [done|]. change (all_chars is_plain
      (String "." (trim_end_char "0" (format_09 (n `mod` 1000000000)))) = true).
    cbn [all_chars]. apply andb_true_iff. split; [done|].
    eapply all_chars_impl; [apply digit_plain|]. apply trim_zeros_digits.
    apply format_09_ok, Z.mod_pos_bound. lia.
Qed.

Lemma format_duration_plain n : all_chars is_plain (format_duration_nanos n) = true.
Proof.
  rewrite format_duration_eq, !all_chars_app, format_seconds_plain. by destruct (n <? 0).
Qed.

(** The parser only answers numbers the type holds. *)
Lemma parse_seconds_range s n :
  parse_decimal_seconds_to_nanos s = Ok n → 0 ≤ n ≤ i128_max.
Proof.
  unfold parse_decimal_seconds_to_nanos. destruct (str_is_empty s); [done|].
  set (whole := default "" _). set (frac := split_char "." s !! 1%nat).
  case_match eqn:Hc; [done|]. rewrite !orb_false_iff, !negb_false_iff in Hc.
  destruct Hc as (((_ & Hne) & Hdw) & Hfrac). fold digits_only in Hdw.
  destruct (pad_zeros_empty 9) as (Hd0 & _ & _).
  assert (digits_only (pad_zeros 9 (default "" frac)) = true) as Hdp.
  { destruct frac as [f|]; [|done]. rewrite !orb_false_iff, negb_false_iff in Hfrac.
    destruct Hfrac as ((_ & Hl%Nat.ltb_ge) & Hf). cbn [default from_option id].
    by apply pad_zeros_value. }
  assert (∀ t v, digits_only t = true → parse_i128 t = Some v → 0 ≤ v) as Hpos.
  { intros t v Ht. destruct (parse_digits_only t 0 Ht) as [Hp Hr]. unfold parse_i128.
    destruct (str_is_empty t) eqn:Hte; [by destruct t|].
    assert (parse_signed (- 2 ^ 127) (2 ^ 127 - 1) t
            = check_range (- 2 ^ 127) (2 ^ 127 - 1) (parse_digits t 0)) as ->.
    { destruct t as [|[[] [] [] [] [] [] [] []] t]; try done; by destruct t. }
    rewrite Hp, Z.mul_0_l, Z.add_0_l. unfold check_range. cbn -[Z.leb Z.pow].
    destruct (_ && _); [|done]. intros [= <-]. apply Hr. }
  intros Hn. apply bind_Ok in Hn as (w & Hw%ok_or_Ok & Hn). apply bind_Ok in Hn as (f & Hf & Hn).
  apply ok_or_Ok in Hn. apply bind_Some in Hn as (v & Hv & Hn).
  assert (0 ≤ f) as Hf0.
  { destruct (str_is_empty (pad_zeros 9 (default "" frac))); [by injection Hf as <-|].
    apply ok_or_Ok in Hf. by eapply Hpos. }
  apply Hpos in Hw; [|done]. apply i128_checked_Some in Hv, Hn. lia.
Qed.

Lemma duration_roundtrip_eq :
  (∀ n, in_duration_range n → parse_duration_nanos (format_duration_nanos n) = Ok n) ∧
  (∀ input v, canonical_duration_value input = Ok v ↔
     ∃ n, in_duration_range n ∧ str_trim input = format_duration_nanos n ∧
          v = tagged KDuration (format_duration_nanos n)).
Proof.
  split; [apply parse_format_duration|]. intros input v. unfold canonical_duration_value.
  set (raw := str_trim input). split.
  - destruct (str_is_empty raw); [done|]. intros Hv.
    apply bind_Ok in Hv as (secs & _ & Hv). apply bind_Ok in Hv as (n & Hn & Hv).
    apply parse_seconds_range in Hn. unfold tag_canonical in Hv.
    destruct (String.eqb_spec (format_duration_nanos (if str_starts_with "-" raw then - n else n)) raw)
      as [Heq|]; [|done]. injection Hv as <-. eexists. split_and!; [|by symmetry|done].
    unfold in_duration_range. case_match; lia.
  - intros (n & Hn & Hraw & ->). rewrite Hraw.
    assert (str_is_empty (format_duration_nanos n) = false) as ->
      by (rewrite format_duration_eq; by destruct (n <? 0)).
    destruct (duration_body_format n) as [-> ->]. cbn [mbind result_bind].
    unfold in_duration_range in Hn. rewrite parse_format_seconds by lia. cbn [mbind result_bind].
    assert ((if n <? 0 then - Z.abs n else Z.abs n) = n) as -> by (destruct (Z.ltb_spec n 0); lia).
    unfold tag_canonical. by rewrite String.eqb_refl.
Qed.
(** C8: a duration is accepted exactly when its text is the canonical form of a
    number of nanoseconds, from which the number is read back: no number in
    range overflows and none is lost. *)
Theorem duration_roundtrip :
  (∀ n, in_duration_range n → parse_duration_nanos (format_duration_nanos n) = Ok n) ∧
  (∀ input v, canonical_duration_value input = Ok v ↔
     ∃ n, in_duration_range n ∧ str_trim input = format_duration_nanos n ∧
          v = tagged KDuration (format_duration_nanos n)).
Proof. apply duration_roundtrip_eq. Qed.
End durations.

(** ** What is parsed validates *)

Section validation.
Context `{SerdeNumber} `{!NumberLaws} `{Formats}.

(** RFC 3339 as [chrono] reads and writes it: a year has four digits, a fraction
    at least one; a leap second has from [10 ^ 9] nanoseconds, printed as second 60. *)
Class FormatLaws : Prop := {
  subsec_nanos_nonneg t : 0 ≤ timestamp_subsec_nanos t;
  rfc3339_plain t :
    all_chars is_plain (to_rfc3339_secs t) = true ∧ all_chars is_plain (rfc3339_prefix t) = true;
  parse_rfc3339_secs t :
    timestamp_subsec_nanos t = 0 → 0 ≤ datetime_year t ≤ 9999 →
    parse_from_rfc3339 (to_rfc3339_secs t) = Some t;
  rfc3339_nanos_eq t :
    to_rfc3339_nanos t
    = rfc3339_prefix t +:+ "." +:+ format_09 (timestamp_subsec_nanos t `mod` 10 ^ 9) +:+ "Z";
  parse_rfc3339_fraction t f :
    0 ≤ datetime_year t ≤ 9999 → digits_only f = true → str_is_empty f = false →
    (String.length f ≤ 9)%nat →
    dval (pad_zeros 9 f) = timestamp_subsec_nanos t `mod` 10 ^ 9 →
    parse_from_rfc3339 (rfc3339_prefix t +:+ "." +:+ f +:+ "Z") = Some t;
  parse_rfc3339_no_fraction s : parse_from_rfc3339 (s +:+ ".Z") = None;
}.
Context `{!FormatLaws}.

(** An instant whose canonical text is an RFC 3339 text. *)
Definition datetime_regular (t : DateTime) : Prop :=
  0 ≤ datetime_year t ≤ 9999 ∧
  (timestamp_subsec_nanos t = 0 ∨ timestamp_subsec_nanos t `mod` 10 ^ 9 ≠ 0).

Lemma str_pop_app s c : str_pop (s +:+ String c "") = s.
Proof.
  induction s as [|b s IH]; [done|]. cbn [String.append str_pop].
  destruct (s +:+ String c "") eqn:Hs; [by destruct s|]. by rewrite <-IH.
Qed.

Lemma trim_end_app c s t :
  trim_end_char c (s +:+ t)
  = if str_is_empty (trim_end_char c t) then trim_end_char c s else s +:+ trim_end_char c t.
Proof.
  induction s as [|b s IH]; cbn [String.append trim_end_char].
  { by destruct (trim_end_char c t). }
  rewrite IH. destruct (trim_end_char c t); cbn [str_is_empty]; [done|].
  change (str_is_empty (String a s0)) with false. cbn iota. by destruct s.
Qed.

Lemma canonical_datetime_fraction t :
  timestamp_subsec_nanos t ≠ 0 →
  canonical_datetime t
  = rfc3339_prefix t +:+ "." +:+
    trim_end_char "0" (format_09 (timestamp_subsec_nanos t `mod` 10 ^ 9)) +:+ "Z".
Proof.
  intros Hn. unfold canonical_datetime. rewrite (proj2 (Z.eqb_neq _ _)) by done.
  rewrite rfc3339_nanos_eq. set (ds := format_09 _).
  assert (rfc3339_prefix t +:+ "." +:+ ds +:+ "Z" = (rfc3339_prefix t +:+ "." +:+ ds) +:+ "Z") as ->
    by by rewrite !append_assoc.
  rewrite str_pop_app, <-append_assoc, trim_end_app, !append_assoc.
  rewrite (trim_end_app "0" _ "."). change (trim_end_char "0" ".") with ".".
  change (str_is_empty ".") with false.
  destruct (trim_end_char "0" ds) as [|c s].
  - change (str_is_empty "") with true. cbv iota. by rewrite append_assoc.
  - change (str_is_empty (String c s)) with false. cbv iota. by rewrite !append_assoc.
Qed.

(** Parsing the canonical text gives it back. *)
Definition canonical_fixed (parse : string → result Value) : Prop :=
  ∀ input v, parse input = Ok v → ∃ kind raw, v = tagged kind raw ∧ parse raw = Ok v.

Lemma tag_canonical_Ok kind canonical raw e v :
  tag_canonical kind canonical raw e = Ok v → canonical = raw ∧ v = tagged kind raw.
Proof. unfold tag_canonical. destruct (String.eqb_spec canonical raw) as [->|]; [|done]. by intros [= <-]. Qed.

(** Validation of a tagged value re-parses its payload. *)
Lemma validate_tagged kind raw :
  match kind with KString | KInt | KFloat | KBool => False | _ => True end →
  parse_typed_value kind raw = Ok (tagged kind raw) →
  validate_value_for_kind kind (tagged kind raw) = true.
Proof.
  intros Hk Hp. assert (typed_value_parts (tagged kind raw) = Some (kind_keyword kind, raw)) as Hparts
    by done.
  assert (validate_value_for_kind kind (tagged kind raw)
    = String.eqb (kind_keyword kind) (kind_keyword kind) &&
      match parse_typed_value kind raw with Ok v => value_eqb v (tagged kind raw) | Err _ => false end)
    as ->.
  { unfold validate_value_for_kind. rewrite Hparts. by destruct kind. }
  rewrite Hp, String.eqb_refl. apply value_eqb_refl.
Qed.

Lemma parse_datetime_again t :
  datetime_regular t →
  canonical_datetime_value (canonical_datetime t) = Ok (tagged KDateTime (canonical_datetime t)).
Proof.
  intros [Hy Hreg]. destruct (rfc3339_plain t) as [Hps Hpp].
  assert (all_chars is_plain (canonical_datetime t) = true ∧
          parse_from_rfc3339 (canonical_datetime t) = Some t) as [Hplain Hparse].
  { destruct (decide (timestamp_subsec_nanos t = 0)) as [Hz|Hz].
    { unfold canonical_datetime. rewrite Hz. split; [done|by apply parse_rfc3339_secs]. }
    destruct Hreg as [?|Hm]; [done|]. rewrite canonical_datetime_fraction by done.
    set (m := timestamp_subsec_nanos t `mod` 10 ^ 9) in *.
    destruct (format_09_ok m) as (Hd & Hl & Hv); [apply Z.mod_pos_bound; lia|].
    pose proof (trim_zeros_digits _ Hd) as Hdt. pose proof (pad_trim_zeros (format_09 m)) as Hpad.
    rewrite Hl in Hpad. split.
    - rewrite !all_chars_app, Hpp.
      by rewrite (all_chars_impl _ _ _ digit_plain Hdt).
    - apply parse_rfc3339_fraction; [done|done| | |by rewrite Hpad, Hv].
      + destruct (trim_end_char "0" (format_09 m)); [|done]. exfalso.
        rewrite <-Hpad in Hv. rewrite (proj2 (proj2 (pad_zeros_empty 9))) in Hv. lia.
      + rewrite <-Hl. apply trim_zeros_length. }
  unfold canonical_datetime_value. rewrite str_trim_plain, Hparse by done. done.
Qed.

Lemma trim_end_idem c s : trim_end_char c (trim_end_char c s) = trim_end_char c s.
Proof.
  induction s as [|b s IH]; cbn [trim_end_char]; [done|].
  destruct (trim_end_char c s) as [|d t] eqn:Hs.
  - destruct (Ascii.eqb b c) eqn:Hb; [done|]. cbn. by rewrite Hb.
  - cbn [trim_end_char] in IH |- *. by rewrite IH.
Qed.

(** The texts [canonical_decimal] accepts. *)
Record decimal_text (c : string) (neg : bool) (int frac : string) : Prop := {
  dt_text : c = (if neg then "-" else "") +:+ int
                +:+ (if str_is_empty frac then "" else "." +:+ frac);
  dt_int : digits_only int = true;
  dt_int_nonempty : str_is_empty int = false;
  dt_int_lead : (1 <? String.length int)%nat && str_starts_with "0" int = false;
  dt_frac : digits_only frac = true;
  dt_frac_trim : trim_end_char "0" frac = frac;
  dt_sign : neg = true → all_chars (Ascii.eqb "0") int && str_is_empty frac = false;
}.

Lemma canonical_decimal_inv input c :
  canonical_decimal input = Ok c →
  c = str_trim input ∧ ∃ neg int frac, decimal_text c neg int frac.
Proof.
  unfold canonical_decimal. destruct (str_starts_with "+" _); [done|].
  destruct (split_minus (str_trim input)) as [neg rest].
  destruct (_ || _ || _); [done|]. set (int := default "" _).
  set (part := split_char "." rest !! 1%nat).
  destruct (_ || _) eqn:Hparts; [done|]. destruct (_ && str_starts_with "0" int) eqn:Hlead; [done|].
  set (frac := trim_end_char "0" (default "" part)).
  destruct (neg && _) eqn:Hsign; [done|]. set (out := _ +:+ _).
  destruct (String.eqb_spec out (str_trim input)) as [Heq|]; [|done]. intros [= <-].
  split; [done|]. exists neg, int, frac.
  rewrite !orb_false_iff, negb_false_iff in Hparts. destruct Hparts as (((_ & Hne) & Hd) & Hf).
  split; try done.
  - apply trim_zeros_digits. destruct part as [f|]; [|done]. cbn.
    rewrite orb_false_iff, negb_false_iff in Hf. apply Hf.
  - apply trim_end_idem.
  - intros ->. apply Hsign.
Qed.

Lemma parsed_values_ok kind input v :
  parse_typed_value kind input = Ok v →
  (∀ t, kind = KDateTime → parse_from_rfc3339 (str_trim input) = Some t → datetime_regular t) →
  validate_value_for_kind kind v = true.
Proof.
  intros Hp Hreg. destruct kind; cbn in Hp.
  - by injection Hp as <-.
  - apply ok_or_Ok, fmap_Some in Hp as (z & Hz & ->). cbn.
    rewrite number_from_i64_as by (by eapply parse_i64_range). by apply bool_decide_eq_true.
  - apply bind_Ok in Hp as (x & _ & Hp). unfold finite_float_value in Hp.
    destruct (f64_is_finite x) eqn:Hx; [|done]. cbn in Hp.
    apply ok_or_Ok, fmap_Some in Hp as (n & Hn & ->). cbn.
    destruct (number_from_f64_as _ _ Hn) as [-> ->]. by rewrite Hx.
  - repeat case_match; try done; by injection Hp as <-.
  - pose proof Hp as Hp'. apply bind_Ok in Hp' as (b & Hb & [Hc ->]%tag_canonical_Ok).
    apply validate_tagged; [done|]. cbn [parse_typed_value]. unfold canonical_bytes_value. rewrite str_trim_idem.
    apply Hp.
  - apply bind_Ok in Hp as (c & Hc & [= <-]). apply validate_tagged; [done|]. cbn [parse_typed_value].
    pose proof Hc as [-> _]%canonical_decimal_inv.
    assert (canonical_decimal (str_trim input) = canonical_decimal input) as Heq.
    { unfold canonical_decimal. by rewrite str_trim_idem. }
    unfold canonical_decimal_value. by rewrite Heq, Hc.
  - pose proof Hp as Hp'. apply bind_Ok in Hp' as (b & Hb & [Hc ->]%tag_canonical_Ok).
    apply validate_tagged; [done|]. cbn [parse_typed_value]. unfold canonical_date_value. rewrite str_trim_idem.
    apply Hp.
  - apply bind_Ok in Hp as (t & Ht%ok_or_Ok & [= <-]). apply validate_tagged; [done|].
    apply parse_datetime_again. by apply Hreg.
  - pose proof (proj1 (proj2 duration_roundtrip_eq input v) Hp) as (n & Hn & Hraw & ->).
    apply validate_tagged; [done|]. cbn [parse_typed_value]. apply duration_roundtrip_eq. exists n.
    split_and!; [done| |done]. apply str_trim_plain, format_duration_plain.
  - pose proof Hp as Hp'. apply bind_Ok in Hp' as (b & Hb & [Hc ->]%tag_canonical_Ok).
    apply validate_tagged; [done|]. cbn [parse_typed_value]. unfold canonical_uuid_value. rewrite str_trim_idem.
    apply Hp.
Qed.

(** C7: what the parser of a kind accepts, the validator of the kind accepts; of
    date-times, those whose UTC year has four digits and that are not exactly a
    leap second. *)
Theorem parsed_values_validate kind input v :
  parse_typed_value kind input = Ok v →
  (∀ t, kind = KDateTime → parse_from_rfc3339 (str_trim input) = Some t → datetime_regular t) →
  validate_value_for_kind kind v = true.
Proof. apply parsed_values_ok. Qed.

(** A date-time that is exactly a leap second is accepted, and stored as a
    text without fraction digits that its own validator rejects. *)
Theorem leap_second_not_valid input t :
  parse_from_rfc3339 (str_trim input) = Some t → timestamp_subsec_nanos t = 10 ^ 9 →
  ∃ v, parse_typed_value KDateTime input = Ok v ∧ validate_value_for_kind KDateTime v = false.
Proof.
  intros Ht Hn. exists (tagged KDateTime (canonical_datetime t)).
  cbn [parse_typed_value]. unfold canonical_datetime_value at 1. rewrite Ht. split; [done|].
  assert (∃ e, canonical_datetime_value (canonical_datetime t) = Err e) as [e He].
  { rewrite canonical_datetime_fraction by (rewrite Hn; done). rewrite Hn.
    change (trim_end_char "0" (format_09 (10 ^ 9 `mod` 10 ^ 9))) with "".
    change ("." +:+ "" +:+ "Z") with ".Z". destruct (rfc3339_plain t) as [_ Hpp].
    unfold canonical_datetime_value. rewrite str_trim_plain, parse_rfc3339_no_fraction;
      [by eexists|]. by rewrite all_chars_app, Hpp. }
  set (c := canonical_datetime t) in *. clearbody c.
  change (validate_value_for_kind KDateTime (tagged KDateTime c))
    with (match canonical_datetime_value c with
          | Ok v => value_eqb v (tagged KDateTime c) | Err _ => false end).
  by rewrite He.
Qed.
End validation.

(** ** The order of decimals is that of the rationals *)

Section decimals.

(** The number whose [n] digits are [a i], [a (i + 1)], ... *)
Fixpoint poly (a : nat → Z) (n i : nat) : Z :=
  match n with O => 0 | S n => a i * 10 ^ Z.of_nat n + poly a n (S i) end.

Definition digit_fun (a : nat → Z) : Prop := ∀ k, 0 ≤ a k ≤ 9.

Lemma poly_bound a n i : digit_fun a → 0 ≤ poly a n i < 10 ^ Z.of_nat n.
Proof.
  intros Ha. revert i. induction n as [|n IH]; intros i; cbn [poly]; [lia|].
  rewrite Nat2Z.inj_succ, Z.pow_succ_r by lia. specialize (IH (S i)). specialize (Ha i). nia.
Qed.

Lemma poly_shift a n i : poly (λ k, a (S k)) n i = poly a n (S i).
Proof. revert i. induction n as [|n IH]; intros i; cbn [poly]; [done|]. by rewrite IH. Qed.

Lemma compare_minus (x y c : Z) : (x - c ?= y - c) = (x ?= y).
Proof. unfold Z.sub. rewrite !(Z.add_comm _ (- c)). apply Z.add_compare_mono_l. Qed.

(** Comparing a leading part, then the rest. *)
Lemma compare_lead (x y u v : Z) n :
  0 ≤ u < 10 ^ n → 0 ≤ v < 10 ^ n →
  (x * 10 ^ n + u ?= y * 10 ^ n + v) = ordering_then (x ?= y) (u ?= v).
Proof.
  intros Hu Hv. destruct (Z.compare_spec x y) as [->|Hlt|Hgt]; cbn [ordering_then].
  - apply Z.add_compare_mono_l.
  - apply Z.compare_lt_iff. nia.
  - apply Z.compare_gt_iff. nia.
Qed.

Lemma first_difference a b n i :
  digit_fun a → digit_fun b →
  default Eq (List.find (λ ord, match ord with Eq => false | _ => true end)
                        (map (λ k, a k ?= b k) (seq i n)))
  = (poly a n i ?= poly b n i).
Proof.
  intros Ha Hb. revert i. induction n as [|n IH]; intros i; [done|].
  cbn [seq map List.find poly]. rewrite compare_lead by by apply poly_bound.
  rewrite <-IH. by destruct (a i ?= b i).
Qed.

Lemma dval_cons c s :
  is_ascii_digit c = true → digits_only s = true →
  dval (String c s) = (byte_val c - 48) * 10 ^ Z.of_nat (String.length s) + dval s.
Proof.
  intros Hc Hs. change (String c s) with (String c "" +:+ s).
  rewrite dval_app by (done || cbn; by rewrite Hc). f_equal. f_equal.
  unfold dval, parse_digits, digit_val. rewrite Hc. cbn -[Z.mul Z.add]. lia.
Qed.

Definition digit_of (s : string) (k : nat) : Z := digit_at s k - 48.

Lemma digit_of_fun s : digits_only s = true → digit_fun (digit_of s).
Proof.
  unfold digit_of, digit_at. intros Hs k. revert k.
  induction s as [|c s IH]; intros k; cbn [String.get]; [lia|].
  apply andb_true_iff in Hs as [Hc Hs]. destruct k as [|k]; [|by apply IH].
  unfold is_ascii_digit, byte_in in Hc. rewrite andb_true_iff, !Z.leb_le in Hc. lia.
Qed.

Lemma poly_digits s n :
  digits_only s = true → (String.length s ≤ n)%nat → poly (digit_of s) n 0 = dval (pad_zeros n s).
Proof.
  revert n. induction s as [|c s IH]; intros n Hs Hn.
  - destruct (pad_zeros_empty n) as (_ & _ & ->). generalize 0%nat.
    induction n as [|n IHn]; intros i; cbn [poly]; [done|]. rewrite IHn by (cbn; lia). done.
  - apply andb_true_iff in Hs as [Hc Hs]. destruct n as [|n]; [cbn in Hn; lia|].
    cbn in Hn. destruct (pad_zeros_value n s Hs ltac:(lia)) as (Hd & Hl & _).
    cbn [pad_zeros poly]. rewrite dval_cons, Hl by done. f_equal.
    rewrite <-IH, <-poly_shift by (done || lia). done.
Qed.

Lemma frac_ordering_spec l r :
  digits_only l = true → digits_only r = true →
  let m := Nat.max (String.length l) (String.length r) in
  frac_ordering l r = (dval (pad_zeros m l) ?= dval (pad_zeros m r)).
Proof.
  intros Hl Hr m. unfold frac_ordering. fold m.
  assert (map (λ idx, digit_at l idx ?= digit_at r idx) (seq 0 m)
          = map (λ idx, digit_of l idx ?= digit_of r idx) (seq 0 m)) as ->.
  { apply map_ext. intros k. symmetry. apply compare_minus. }
  rewrite first_difference by by apply digit_of_fun. by rewrite !poly_digits by (done || lia).
Qed.

Lemma string_compare_digits l r :
  digits_only l = true → digits_only r = true → String.length l = String.length r →
  String.compare l r = (dval l ?= dval r).
Proof.
  revert r. induction l as [|a l IH]; intros [|b r]; try done.
  intros [Ha Hl]%andb_true_iff [Hb Hr]%andb_true_iff [= Hlen].
  rewrite !dval_cons, Hlen, compare_lead by
    (done || (rewrite <-?Hlen; by apply (parse_digits_only _ 0)) || by apply (parse_digits_only _ 0)).
  cbn [String.compare]. rewrite IH by done. unfold Ascii.compare.
  assert ((byte_val a - 48 ?= byte_val b - 48) = (N_of_ascii a ?= N_of_ascii b)%N) as ->.
  { rewrite compare_minus. unfold byte_val. apply N2Z.inj_compare. }
  by destruct (_ ?= _)%N.
Qed.
(** The rational a decimal text denotes. *)
Definition decimal_value (c : string) : Q :=
  let '(neg, int, frac) := decimal_parts c in
  Qmake ((if neg then -1 else 1) * dval (int +:+ frac))
        (Z.to_pos (10 ^ Z.of_nat (String.length frac))).

Lemma decimal_parts_text c neg int frac :
  decimal_text c neg int frac → decimal_parts c = (neg, int, frac).
Proof.
  intros [-> Hdi Hni _ Hdf _ _]. unfold decimal_parts, split_minus.
  set (tail := if str_is_empty frac then "" else "." +:+ frac).
  assert ((match str_strip_prefix "-" ((if neg then "-" else "") +:+ int +:+ tail) with
           | Some rest => (true, rest)
           | None => (false, (if neg then "-" else "") +:+ int +:+ tail)
           end) = (neg, int +:+ tail)) as ->.
  { destruct neg; [by rewrite str_strip_prefix_app|]. destruct int as [|c int]; [done|].
    apply andb_true_iff in Hdi as [Hc _]. destruct c as [[] [] [] [] [] [] [] []]; done. }
  unfold tail. destruct (str_is_empty frac) eqn:Hf.
  - rewrite append_nil_r, split_char_lacks by by apply digits_not_dot.
    by destruct frac.
  - change ("." +:+ frac) with (String "." frac).
    by rewrite split_char_app, split_char_lacks by by apply digits_not_dot.
Qed.

(** Without leading zeros, a longer whole part is a greater one. *)
Lemma int_ordering l r :
  digits_only l = true → digits_only r = true → str_is_empty l = false → str_is_empty r = false →
  (1 <? String.length l)%nat && str_starts_with "0" l = false →
  (1 <? String.length r)%nat && str_starts_with "0" r = false →
  ordering_then (String.length l ?= String.length r)%nat (String.compare l r)
  = (dval l ?= dval r).
Proof.
  assert (∀ l r, digits_only l = true → digits_only r = true → str_is_empty l = false →
    (1 <? String.length r)%nat && str_starts_with "0" r = false →
    (String.length l < String.length r)%nat → dval l < dval r) as Hless.
  { clear l r. intros l r Hdl Hdr Hnl Hlead Hlt.
    destruct (parse_digits_only l 0 Hdl) as [_ [_ Hl]].
    destruct l as [|a l]; [done|]. destruct r as [|c r]; [cbn in Hlt; lia|].
    apply andb_true_iff in Hdr as [Hc Hdr]. destruct (parse_digits_only r 0 Hdr) as [_ Hr].
    rewrite (dval_cons c r) by done.
    assert (1 ≤ byte_val c - 48) as Hlead1.
    { rewrite (proj2 (Nat.ltb_lt _ _)) in Hlead by (cbn in *; lia).
      destruct c as [[] [] [] [] [] [] [] []]; vm_compute in Hc, Hlead |- *; done. }
    assert (10 ^ Z.of_nat (String.length (String a l)) ≤ 10 ^ Z.of_nat (String.length r)).
    { apply Z.pow_le_mono_r; cbn [String.length] in *; lia. }
    nia. }
  intros Hdl Hdr Hnl Hnr Hll Hlr. destruct (Nat.compare_spec (String.length l) (String.length r)).
  - by apply string_compare_digits.
  - symmetry. apply Z.compare_lt_iff. by apply Hless.
  - symmetry. apply Z.compare_gt_iff. by apply Hless.
Qed.

Lemma compare_scale (x y c : Z) : 0 < c → (x * c ?= y * c) = (x ?= y).
Proof. intros Hc. symmetry. rewrite !(Z.mul_comm _ c). by apply Zmult_compare_compat_l, Z.lt_gt. Qed.

(** The part before the sign. *)
Lemma unsigned_ordering li lf ri rf :
  digits_only lf = true → digits_only rf = true →
  digits_only li = true → digits_only ri = true →
  ordering_then (dval li ?= dval ri) (frac_ordering lf rf)
  = (dval (li +:+ lf) * 10 ^ Z.of_nat (String.length rf)
     ?= dval (ri +:+ rf) * 10 ^ Z.of_nat (String.length lf)).
Proof.
  intros Hlf Hrf Hli Hri. rewrite frac_ordering_spec by done.
  set (m := Nat.max _ _).
  destruct (pad_zeros_value m lf Hlf ltac:(lia)) as (Hdl & Hll & Hvl).
  destruct (pad_zeros_value m rf Hrf ltac:(lia)) as (Hdr & Hlr & Hvr).
  destruct (parse_digits_only _ 0 Hdl) as [_ Hbl]. destruct (parse_digits_only _ 0 Hdr) as [_ Hbr].
  rewrite Hll in Hbl. rewrite Hlr in Hbr. rewrite <-(compare_lead _ _ _ _ (Z.of_nat m)) by done.
  rewrite !dval_app, Hvl, Hvr by done.
  set (a := Z.of_nat (String.length lf)) in *. set (b := Z.of_nat (String.length rf)) in *.
  set (k := Z.of_nat m) in *. assert (0 ≤ a ≤ k ∧ 0 ≤ b ≤ k ∧ k ≤ a + b) as (Ha & Hb & Hk) by lia.
  assert (10 ^ k = 10 ^ a * 10 ^ (k - a)) as Hka by (rewrite <-Z.pow_add_r by lia; f_equal; lia).
  assert (10 ^ k = 10 ^ b * 10 ^ (k - b)) as Hkb by (rewrite <-Z.pow_add_r by lia; f_equal; lia).
  assert (10 ^ b = 10 ^ (k - a) * 10 ^ (a + b - k)) as Hb'
    by (rewrite <-Z.pow_add_r by lia; f_equal; lia).
  assert (10 ^ a = 10 ^ (k - b) * 10 ^ (a + b - k)) as Ha'
    by (rewrite <-Z.pow_add_r by lia; f_equal; lia).
  assert (0 < 10 ^ (a + b - k)) as Hpos by (apply Z.pow_pos_nonneg; lia).
  rewrite <-(compare_scale _ _ (10 ^ (a + b - k))) by done. f_equal.
  - rewrite Hb', Hka. ring.
  - rewrite Ha', Hkb. ring.
Qed.

Lemma negative_value c neg int frac :
  decimal_text c neg int frac → neg = true → 0 < dval (int +:+ frac).
Proof.
  intros [_ Hdi Hni _ Hdf Htrim Hsign] Hneg. specialize (Hsign Hneg). rewrite dval_app by done.
  destruct (parse_digits_only int 0 Hdi) as [_ Hi]. destruct (parse_digits_only frac 0 Hdf) as [_ Hf].
  destruct (decide (dval frac = 0)) as [Hf0|]; [|nia].
  apply dval_zero in Hf0; [|done]. rewrite Htrim in Hf0. subst frac.
  destruct (decide (dval int = 0)) as [Hi0|]; [|nia]. exfalso.
  assert (all_chars (Ascii.eqb "0") int = true) as Hz; [|by rewrite Hz in Hsign].
  apply dval_zero in Hi0; [|done]. clear -Hi0. induction int as [|c s IH]; [done|].
  cbn [trim_end_char] in Hi0. destruct (trim_end_char "0" s); [|done].
  destruct (Ascii.eqb_spec c "0") as [->|]; [|done]. by apply IH.
Qed.

Lemma compare_opp (x y : Z) : (- x ?= - y) = CompOpp (x ?= y).
Proof. by rewrite Z.compare_opp, Z.compare_antisym. Qed.

(** the comparison of stored decimals is the order of the rational numbers
    they denote. *)
Theorem decimals_compare_exactly l l' r r' :
  canonical_decimal l = Ok l' → canonical_decimal r = Ok r' →
  compare_decimal l' r' = Some (Qcompare (decimal_value l') (decimal_value r')).
Proof.
  intros [_ (ln & li & lf & Hl)]%canonical_decimal_inv [_ (rn & ri & rf & Hr)]%canonical_decimal_inv.
  unfold compare_decimal, decimal_value.
  rewrite (decimal_parts_text _ _ _ _ Hl), (decimal_parts_text _ _ _ _ Hr).
  pose proof (negative_value _ _ _ _ Hl) as Hln. pose proof (negative_value _ _ _ _ Hr) as Hrn.
  destruct Hl as [_ Hdi Hni Hlead Hdf _ _], Hr as [_ Hdi' Hni' Hlead' Hdf' _ _].
  rewrite int_ordering, unsigned_ordering by done. unfold Qcompare. cbn [Qnum Qden].
  rewrite !Z2Pos.id by (apply Z.pow_pos_nonneg; lia).
  assert (0 ≤ dval (li +:+ lf) ∧ 0 ≤ dval (ri +:+ rf)) as [Hl0 Hr0].
  { split; apply (parse_digits_only _ 0); unfold digits_only in *;
      by rewrite all_chars_app, andb_true_iff. }
  set (x := dval (li +:+ lf)) in *. set (y := dval (ri +:+ rf)) in *.
  assert (0 < 10 ^ Z.of_nat (String.length lf)) by (apply Z.pow_pos_nonneg; lia).
  assert (0 < 10 ^ Z.of_nat (String.length rf)) by (apply Z.pow_pos_nonneg; lia).
  destruct ln, rn; cbn [negb Bool.eqb]; f_equal.
  - rewrite <-compare_opp. f_equal; ring.
  - symmetry. apply Z.compare_lt_iff. specialize (Hln eq_refl). nia.
  - symmetry. apply Z.compare_gt_iff. specialize (Hrn eq_refl). nia.
  - by rewrite !Z.mul_1_l.
Qed.
End decimals.

(** ** Formats the laws hold of, and the theorems at concrete texts *)

Section witness.
#[local] Existing Instance serde_default.

(** An instant printed as its seconds, with an [L] for a leap second. *)
Record WInstant := {
  wi_leap : bool;
  wi_secs : N;
  wi_nanos : Z;
  wi_ok : (0 <=? wi_nanos) && (wi_nanos <? 10 ^ 9) = true;
}.

Definition wi_prefix (t : WInstant) : string :=
  (if wi_leap t then "L" else "") +:+ u_to_string (Z.of_N (wi_secs t)).

Definition wi_make (leap : bool) (secs nanos : Z) : option WInstant :=
  match decide ((0 <=? nanos) && (nanos <? 10 ^ 9) = true) with
  | left H => Some {| wi_leap := leap; wi_secs := Z.to_N secs; wi_nanos := nanos; wi_ok := H |}
  | right _ => None
  end.

Definition wi_parse (s : string) : option WInstant :=
  s ← str_strip_suffix "Z" s;
  let '(leap, s) := match str_strip_prefix "L" s with Some s => (true, s) | None => (false, s) end in
  match split_char "." s with
  | [w] => wi_make leap (dval w) 0
  | [w; f] => if str_is_empty f then None else wi_make leap (dval w) (dval (pad_zeros 9 f))
  | _ => None
  end.

Definition wi_subsec (t : WInstant) : Z := wi_nanos t + (if wi_leap t then 10 ^ 9 else 0).

Definition w_formats : Formats := {|
  base64_decode s := Some s;
  base64_encode s := s;
  Uuid := string;
  uuid_parse_str s := Some s;
  uuid_hyphenated s := s;
  NaiveDate := string;
  naive_date_parse s := Some s;
  naive_date_format s := s;
  DateTime := WInstant;
  parse_from_rfc3339 := wi_parse;
  timestamp_subsec_nanos := wi_subsec;
  to_rfc3339_secs t := wi_prefix t +:+ "Z";
  to_rfc3339_nanos t := wi_prefix t +:+ "." +:+ format_09 (wi_subsec t `mod` 10 ^ 9) +:+ "Z";
  datetime_cmp t u := (Z.of_N (wi_secs t) * 10 ^ 9 + wi_subsec t
                       ?= Z.of_N (wi_secs u) * 10 ^ 9 + wi_subsec u);
  datetime_year t := 1970;
  rfc3339_prefix := wi_prefix;
|}.
#[local] Existing Instance w_formats.

Lemma wi_make_eq t : wi_make (wi_leap t) (Z.of_N (wi_secs t)) (wi_nanos t) = Some t.
Proof.
  destruct t as [leap secs nanos Hok]. unfold wi_make. cbn [wi_leap wi_secs wi_nanos].
  destruct (decide _) as [H|]; [|done]. rewrite N2Z.id. do 2 f_equal. apply proof_irrel.
Qed.

Lemma wi_mod t : wi_subsec t `mod` 10 ^ 9 = wi_nanos t.
Proof.
  destruct t as [leap secs nanos Hok]. unfold wi_subsec. cbn [wi_leap wi_nanos].
  apply andb_true_iff in Hok as [?%Z.leb_le ?%Z.ltb_lt]. destruct leap.
  - replace (nanos + 10 ^ 9) with (nanos + 1 * 10 ^ 9) by lia.
    rewrite Z.mod_add by done. by apply Z.mod_small.
  - rewrite Z.add_0_r. by apply Z.mod_small.
Qed.

Lemma wi_strip_leap t (rest : string) :
  match str_strip_prefix "L" (wi_prefix t +:+ rest) with
  | Some s => (true, s) | None => (false, wi_prefix t +:+ rest)
  end = (wi_leap t, u_to_string (Z.of_N (wi_secs t)) +:+ rest).
Proof.
  unfold wi_prefix. destruct (wi_leap t); [done|]. cbn [String.append].
  pose proof (u_to_string_digits (Z.of_N (wi_secs t))) as Hd.
  pose proof (u_to_string_nonempty (Z.of_N (wi_secs t))) as Hn.
  destruct (u_to_string (Z.of_N (wi_secs t))) as [|c s]; [done|].
  apply andb_true_iff in Hd as [Hc _]. destruct c as [[] [] [] [] [] [] [] []]; done.
Qed.

Lemma w_formats_laws : FormatLaws.
Proof.
  split.
  - intros [leap secs nanos Hok]. change (0 ≤ nanos + (if leap then 10 ^ 9 else 0)).
    apply andb_true_iff in Hok as [?%Z.leb_le _]. destruct leap; lia.
  - intros t. assert (all_chars is_plain (wi_prefix t) = true) as Hp.
    { unfold wi_prefix. rewrite all_chars_app, andb_true_iff. split; [by destruct (wi_leap t)|].
      eapply all_chars_impl; [apply digit_plain|apply u_to_string_digits]. }
    split; [|done]. change (all_chars is_plain (wi_prefix t +:+ "Z") = true).
    by rewrite all_chars_app, Hp.
  - intros t Hn _. change (wi_parse (wi_prefix t +:+ "Z") = Some t). unfold wi_parse. rewrite str_strip_suffix_app. cbn [mbind option_bind].
    pose proof (wi_strip_leap t "") as Hl. rewrite append_nil_r in Hl. rewrite Hl, append_nil_r.
    rewrite split_char_lacks by apply digits_not_dot, u_to_string_digits.
    rewrite dval_u_to_string by lia. etrans; [|apply wi_make_eq].
    f_equal. rewrite <-wi_mod. change (wi_subsec t = 0) in Hn. by rewrite Hn.
  - done.
  - intros t f _ Hd Hne Hlen Hv. change (dval (pad_zeros 9 f) = wi_subsec t `mod` 10 ^ 9) in Hv.
    change (wi_parse (wi_prefix t +:+ "." +:+ f +:+ "Z") = Some t).
    rewrite wi_mod in Hv. unfold wi_parse.
    assert (wi_prefix t +:+ "." +:+ f +:+ "Z" = (wi_prefix t +:+ String "." f) +:+ "Z") as ->
      by by rewrite append_assoc.
    rewrite str_strip_suffix_app. cbn [mbind option_bind]. rewrite wi_strip_leap.
    rewrite split_char_app, split_char_lacks
      by (apply digits_not_dot; done || apply u_to_string_digits).
    rewrite Hne, dval_u_to_string, Hv by lia. apply wi_make_eq.
  - intros s. change (wi_parse (s +:+ ".Z") = None). unfold wi_parse.
    assert (s +:+ ".Z" = (s +:+ ".") +:+ "Z") as -> by by rewrite append_assoc.
    rewrite str_strip_suffix_app. cbn [mbind option_bind].
    assert (∀ u, match split_char "." (u +:+ ".") with
                 | [] | [_] => False | [w; f] => f = "" | _ => True end) as Hs.
    { induction u as [|c u IH]; [done|]. cbn [String.append split_char]. revert IH.
      by destruct (Ascii.eqb c "."), (split_char "." (u +:+ ".")) as [|? [|? [|? ?]]]. }
    assert (∀ leap u, match split_char "." (u +:+ ".") with
       | [w] => wi_make leap (dval w) 0
       | [w; f] => if str_is_empty f then None else wi_make leap (dval w) (dval (pad_zeros 9 f))
       | _ => None end = None) as Hnone.
    { intros leap u. specialize (Hs u). destruct (split_char "." (u +:+ ".")) as [|w [|f []]];
        try done. by subst. }
    destruct (str_strip_prefix "L" (s +:+ ".")) as [u|] eqn:Hu; [|apply Hnone].
    apply str_strip_prefix_Some in Hu. destruct s as [|c s]; [done|]. injection Hu as -> <-.
    apply Hnone.
Qed.
#[local] Existing Instance w_formats_laws.

Lemma duration_roundtrip_witness :
  parse_duration_nanos (format_duration_nanos (- 1500000000)) = Ok (- 1500000000).
Proof. apply (proj1 duration_roundtrip). apply Z.leb_le. reflexivity. Defined.

Lemma parsed_values_validate_witness :
  parse_typed_value KDateTime " 5.5Z" = Ok (tagged KDateTime "5.5Z") ∧
  validate_value_for_kind KDateTime (tagged KDateTime "5.5Z") = true.
Proof.
  split; [reflexivity|]. apply (parsed_values_validate KDateTime " 5.5Z"); [reflexivity|].
  intros t _ Ht. split; [by split|]. right.
  change (wi_parse (str_trim " 5.5Z") = Some t) in Ht. injection Ht as <-. discriminate.
Defined.

Lemma leap_second_not_valid_witness :
  ∃ v, parse_typed_value KDateTime "L59Z" = Ok v ∧ validate_value_for_kind KDateTime v = false.
Proof. eapply (leap_second_not_valid "L59Z"); reflexivity. Defined.

Lemma decimals_compare_exactly_witness :
  compare_decimal "-10.25" "-9.5" = Some (Qcompare (decimal_value "-10.25") (decimal_value "-9.5")).
Proof.
  apply (decimals_compare_exactly "-10.25" _ " -9.5"); reflexivity.
Defined.
End witness.
