(* ===== verification/Catalog.v ===== *)
(** * The runtime schema ([src/src/runtime/catalog.rs])

    Node and relationship models defined at run time, their validation of
    property maps, and the catalog that keeps them by name. *)

From S2P Require Export Prelude Text Json Numbers Values.

Local Open Scope string_scope.

(** ** Types and models *)

(** [RuntimeValueType] has the variants of [PrimitiveKind]; the two [From]
    implementations map them by name. *)
Inductive RuntimeValueType :=
  | TString | TInt | TFloat | TBool | TBytes | TDecimal | TDate | TDateTime | TDuration | TUuid.

#[export] Instance RuntimeValueType_eq_dec : EqDecision RuntimeValueType.
Proof. solve_decision. Defined.

Definition kind_of_type (t : RuntimeValueType) : PrimitiveKind :=
  match t with
  | TString => KString | TInt => KInt | TFloat => KFloat | TBool => KBool | TBytes => KBytes
  | TDecimal => KDecimal | TDate => KDate | TDateTime => KDateTime | TDuration => KDuration
  | TUuid => KUuid
  end.
Definition type_of_kind (k : PrimitiveKind) : RuntimeValueType :=
  match k with
  | KString => TString | KInt => TInt | KFloat => TFloat | KBool => TBool | KBytes => TBytes
  | KDecimal => TDecimal | KDate => TDate | KDateTime => TDateTime | KDuration => TDuration
  | KUuid => TUuid
  end.

Definition type_parse_keyword (input : string) : option RuntimeValueType :=
  type_of_kind <$> kind_parse_keyword input.

Definition type_keyword (t : RuntimeValueType) : string :=
  match t with
  | TString => "string" | TInt => "int" | TFloat => "float" | TBool => "bool"
  | TBytes => "bytes" | TDecimal => "decimal" | TDate => "date"
  | TDateTime => "datetime" | TDuration => "duration" | TUuid => "uuid"
  end.

Record RuntimeField := {
  field_name : string;
  field_type : RuntimeValueType;
  field_required : bool;
}.

Inductive RuntimeSchemaOrigin := Declared | Inferred.
Inductive BackendIdType := IdInt64 | IdUuid.

Definition id_type_keyword (t : BackendIdType) : string :=
  match t with IdInt64 => "int" | IdUuid => "uuid" end.

Record RuntimeNodeModel := {
  nm_name : string;
  nm_label : string;
  nm_id_field : string;
  nm_id_type : BackendIdType;
  nm_origin : RuntimeSchemaOrigin;
  nm_fields : list RuntimeField;
}.

Record RuntimeRelModel := {
  rm_name : string;
  rm_rel_type : string;
  rm_from_model : string;
  rm_to_model : string;
  rm_id_field : string;
  rm_id_type : BackendIdType;
  rm_origin : RuntimeSchemaOrigin;
  rm_fields : list RuntimeField;
}.

#[export] Instance RuntimeField_eq_dec : EqDecision RuntimeField.
Proof. solve_decision. Defined.
#[export] Instance RuntimeSchemaOrigin_eq_dec : EqDecision RuntimeSchemaOrigin.
Proof. solve_decision. Defined.
#[export] Instance BackendIdType_eq_dec : EqDecision BackendIdType.
Proof. solve_decision. Defined.
#[export] Instance RuntimeNodeModel_eq_dec : EqDecision RuntimeNodeModel.
Proof. solve_decision. Defined.
#[export] Instance RuntimeRelModel_eq_dec : EqDecision RuntimeRelModel.
Proof. solve_decision. Defined.

(** ** Names *)

Definition is_name_char (c : ascii) : bool := is_ascii_alphanumeric c || Ascii.eqb c "_".

(** The first [char] of a name is ASCII when its first byte is. *)
Definition validate_model_name (name : string) : result unit :=
  match name with
  | EmptyString => Err (Constraint "model name cannot be empty")
  | String first _ =>
      if negb (is_ascii_uppercase first)
      then Err (Constraint "model name must be PascalCase and start with an uppercase letter")
      else if negb (all_chars is_name_char name)
      then Err (Constraint "model name must contain only ASCII letters, digits, or underscores")
      else Ok tt
  end.

Definition validate_field_name (name : string) : result unit :=
  match name with
  | EmptyString => Err (Constraint "field name cannot be empty")
  | String first _ =>
      if String.eqb name "id"
      then Err (Constraint "field name 'id' is reserved and cannot be used")
      else if negb (is_ascii_alphabetic first || Ascii.eqb first "_")
      then Err (Constraint "field name must start with a letter or underscore")
      else if negb (all_chars is_name_char name)
      then Err (Constraint "field name must contain only ASCII letters, digits, or underscores")
      else Ok tt
  end.

Definition parse_required_flag (input : string) : option bool :=
  match to_ascii_lowercase (str_trim input) with
  | "y" | "yes" | "required" => Some true
  | "n" | "no" | "optional" => Some false
  | _ => None
  end.

(** The loop both constructors run: valid names, none twice. *)
Definition check_field (seen : gset string) (field : RuntimeField) : result (gset string) :=
  _ ← validate_field_name (field_name field);
  if decide (field_name field ∈ seen)
  then Err (Constraint ("field '" +:+ field_name field +:+ "' is defined more than once"))
  else Ok ({[field_name field]} ∪ seen).
Definition check_fields (id_field : string) (fields : list RuntimeField) : result (gset string) :=
  try_fold check_field {[id_field]} fields.

Definition RuntimeNodeModel_new (name id_field : string) (id_type : BackendIdType)
    (fields : list RuntimeField) : result RuntimeNodeModel :=
  _ ← validate_model_name name;
  _ ← validate_field_name id_field;
  _ ← check_fields id_field fields;
  Ok {| nm_name := name; nm_label := name; nm_id_field := id_field; nm_id_type := id_type;
        nm_origin := Declared; nm_fields := fields |}.

Definition RuntimeRelModel_new (name from_model to_model id_field : string)
    (id_type : BackendIdType) (fields : list RuntimeField) : result RuntimeRelModel :=
  _ ← validate_model_name name;
  _ ← validate_model_name from_model;
  _ ← validate_model_name to_model;
  _ ← validate_field_name id_field;
  _ ← check_fields id_field fields;
  Ok {| rm_name := name; rm_rel_type := name; rm_from_model := from_model;
        rm_to_model := to_model; rm_id_field := id_field; rm_id_type := id_type;
        rm_origin := Declared; rm_fields := fields |}.

(** [self.fields.iter().find(|field| field.name == name)] *)
Definition find_field (fields : list RuntimeField) (name : string) : option RuntimeField :=
  List.find (λ field, String.eqb (field_name field) name) fields.

(** ** Property maps *)

Section props.
Context `{SerdeNumber} `{Formats}.

Definition parse_value (t : RuntimeValueType) (input : string) : result Value :=
  parse_typed_value (kind_of_type t) input.

(** The walk over [raw_values.keys()] that rejects the first unknown one. *)
Definition check_known {V} (kind model_name : string) (fields : list RuntimeField)
    (values : gmap string V) : result unit :=
  try_fold (λ _ key,
    match find_field fields key with
    | Some _ => Ok tt
    | None => Err (Constraint ("unknown field '" +:+ key +:+ "' for " +:+ kind +:+ " '"
                               +:+ model_name +:+ "'"))
    end) tt (bt_keys values).

Definition missing_field (field : RuntimeField) : GrmError :=
  Constraint ("missing required field '" +:+ field_name field +:+ "'").

(** The bodies of the loops over the fields. *)
Definition validate_field (kind model_name : string) (values : Props) (props : Props)
    (field : RuntimeField) : result Props :=
  match values !! field_name field with
  | Some value =>
      if validate_value_for_kind (kind_of_type (field_type field)) value
      then Ok (<[field_name field := value]> props)
      else Err (Constraint ("field '" +:+ field_name field +:+ "' for " +:+ kind +:+ " '"
                            +:+ model_name +:+ "' must be " +:+ type_keyword (field_type field)))
  | None => if field_required field then Err (missing_field field) else Ok props
  end.
Definition input_field (raw_values : gmap string string) (props : Props) (field : RuntimeField)
    : result Props :=
  match raw_values !! field_name field with
  | Some value =>
      parsed ← parse_value (field_type field) value;
      Ok (<[field_name field := parsed]> props)
  | None => if field_required field then Err (missing_field field) else Ok props
  end.

(** The bodies of the two [validate_instance_input] differ in the name of the
    kind only. *)
Definition validate_input (kind model_name : string) (fields : list RuntimeField)
    (raw_values : gmap string string) : result Props :=
  _ ← check_known kind model_name fields raw_values;
  try_fold (input_field raw_values) ∅ fields.

Definition validate_props_for_fields (kind model_name : string) (fields : list RuntimeField)
    (values : Props) : result Props :=
  _ ← check_known kind model_name fields values;
  try_fold (validate_field kind model_name values) ∅ fields.

Definition node_validate_instance_input (m : RuntimeNodeModel) (raw_values : gmap string string)
    : result Props :=
  validate_input "model" (nm_name m) (nm_fields m) raw_values.
Definition node_validate_instance_props (m : RuntimeNodeModel) (values : Props) : result Props :=
  validate_props_for_fields "model" (nm_name m) (nm_fields m) values.
Definition rel_validate_instance_input (m : RuntimeRelModel) (raw_values : gmap string string)
    : result Props :=
  validate_input "relationship model" (rm_name m) (rm_fields m) raw_values.
Definition rel_validate_instance_props (m : RuntimeRelModel) (values : Props) : result Props :=
  validate_props_for_fields "relationship model" (rm_name m) (rm_fields m) values.
End props.

(** ** The catalog *)

Record SessionModelCatalog := {
  node_models : gmap string RuntimeNodeModel;
  rel_models : gmap string RuntimeRelModel;
}.

#[export] Instance SessionModelCatalog_eq_dec : EqDecision SessionModelCatalog.
Proof. solve_decision. Defined.

Definition catalog_new : SessionModelCatalog := {| node_models := ∅; rel_models := ∅ |}.

Definition catalog_is_empty (c : SessionModelCatalog) : bool :=
  bool_decide (node_models c = ∅) && bool_decide (rel_models c = ∅).

Definition name_taken (c : SessionModelCatalog) (name : string) : bool :=
  bool_decide (is_Some (node_models c !! name)) || bool_decide (is_Some (rel_models c !! name)).

Definition already_exists (name : string) : GrmError :=
  Constraint ("model '" +:+ name +:+ "' already exists in this session").

Definition register_node_model (model : RuntimeNodeModel) (c : SessionModelCatalog)
    : result SessionModelCatalog :=
  if name_taken c (nm_name model) then Err (already_exists (nm_name model))
  else Ok {| node_models := <[nm_name model := model]> (node_models c);
             rel_models := rel_models c |}.

Definition register_rel_model (model : RuntimeRelModel) (c : SessionModelCatalog)
    : result SessionModelCatalog :=
  if name_taken c (rm_name model) then Err (already_exists (rm_name model))
  else Ok {| node_models := node_models c;
             rel_models := <[rm_name model := model]> (rel_models c) |}.

Definition get_node_model (c : SessionModelCatalog) (name : string) : option RuntimeNodeModel :=
  node_models c !! name.
Definition get_rel_model (c : SessionModelCatalog) (name : string) : option RuntimeRelModel :=
  rel_models c !! name.
Definition list_node_models (c : SessionModelCatalog) : list RuntimeNodeModel :=
  bt_values (node_models c).
Definition list_rel_models (c : SessionModelCatalog) : list RuntimeRelModel :=
  bt_values (rel_models c).

(** ** Fields and names *)

(** A field list a constructor accepts. *)
Definition fields_ok (id_field : string) (fields : list RuntimeField) : Prop :=
  NoDup (id_field :: map field_name fields) ∧
  Forall (λ name, validate_field_name name = Ok tt) (id_field :: map field_name fields).

Lemma unit_Ok (r : result unit) u : r = Ok u → r = Ok tt.
Proof. by destruct u. Qed.

Lemma check_fields_seen fields seen seen' :
  try_fold check_field seen fields = Ok seen' →
  NoDup (map field_name fields) ∧ (∀ x, x ∈ map field_name fields → x ∉ seen) ∧
  Forall (λ name, validate_field_name name = Ok tt) (map field_name fields).
Proof.
  revert seen. induction fields as [|f fields IH]; intros seen; cbn.
  - intros _. split_and!; [constructor|set_solver|constructor].
  - unfold check_field at 1. destruct (validate_field_name (field_name f)) as [[]|] eqn:Hv; cbn; [|done].
    destruct (decide (field_name f ∈ seen)) as [|Hnew]; [done|].
    intros (Hnd & Hfresh & Hall)%IH. split_and!.
    + constructor; [|done]. intros Hin%Hfresh. set_solver.
    + intros x [->|Hx]%elem_of_cons; [done|]. intros Hs. apply (Hfresh x Hx). set_solver.
    + by constructor.
Qed.

Lemma check_fields_ok id_field fields seen :
  validate_field_name id_field = Ok tt → check_fields id_field fields = Ok seen →
  fields_ok id_field fields.
Proof.
  intros Hid (Hnd & Hfresh & Hall)%check_fields_seen. split; constructor; try done.
  intros Hin%Hfresh. set_solver.
Qed.

Definition node_model_ok (m : RuntimeNodeModel) : Prop :=
  validate_model_name (nm_name m) = Ok tt ∧ nm_label m = nm_name m ∧
  fields_ok (nm_id_field m) (nm_fields m).
Definition rel_model_ok (m : RuntimeRelModel) : Prop :=
  validate_model_name (rm_name m) = Ok tt ∧ rm_rel_type m = rm_name m ∧
  fields_ok (rm_id_field m) (rm_fields m).

Lemma RuntimeNodeModel_new_ok name id_field t fields m :
  RuntimeNodeModel_new name id_field t fields = Ok m →
  node_model_ok m ∧ nm_name m = name ∧ nm_fields m = fields.
Proof.
  unfold RuntimeNodeModel_new. intros Hm.
  apply bind_Ok in Hm as (u & Hn%unit_Ok & Hm). apply bind_Ok in Hm as (u' & Hi%unit_Ok & Hm).
  apply bind_Ok in Hm as (seen & Hf & [= <-]). split; [|done]. split_and!; try done. cbn.
  by eapply check_fields_ok.
Qed.

Lemma RuntimeRelModel_new_ok name from to id_field t fields m :
  RuntimeRelModel_new name from to id_field t fields = Ok m →
  rel_model_ok m ∧ rm_name m = name ∧ rm_from_model m = from ∧ rm_to_model m = to ∧
  rm_fields m = fields.
Proof.
  unfold RuntimeRelModel_new. intros Hm.
  apply bind_Ok in Hm as (u & Hn%unit_Ok & Hm). apply bind_Ok in Hm as (? & _ & Hm).
  apply bind_Ok in Hm as (? & _ & Hm). apply bind_Ok in Hm as (u' & Hi%unit_Ok & Hm).
  apply bind_Ok in Hm as (seen & Hf & [= <-]). split; [|done]. split_and!; try done. cbn.
  by eapply check_fields_ok.
Qed.

Lemma find_field_Some fields name f :
  find_field fields name = Some f → f ∈ fields ∧ field_name f = name.
Proof.
  intros [Hin Heq%String.eqb_eq]%find_some. by rewrite list_elem_of_In.
Qed.

Lemma find_field_None fields name :
  find_field fields name = None ↔ ∀ f, f ∈ fields → field_name f ≠ name.
Proof.
  split.
  - intros Hn f Hf Heq. apply list_elem_of_In in Hf.
    pose proof (find_none _ _ Hn f Hf) as Hne. cbn in Hne. by rewrite Heq, String.eqb_refl in Hne.
  - intros Hf. destruct (find_field fields name) as [f|] eqn:Hfind; [|done].
    apply find_field_Some in Hfind as [Hin Heq]. by apply Hf in Hin.
Qed.

Lemma try_fold_unit_Ok {A} (f : unit → A → result unit) l u :
  try_fold f tt l = Ok u ↔ u = tt ∧ ∀ a, a ∈ l → f tt a = Ok tt.
Proof.
  induction l as [|a l IH]; cbn.
  - split; [intros [= <-]; split; [done|set_solver]|by intros [-> _]].
  - split.
    + destruct (f tt a) as [[]|] eqn:Ha; [|done]. intros [-> Hl]%IH. split; [done|].
      intros b [->|Hb]%elem_of_cons; auto.
    + intros [-> Hl]. rewrite Hl by by left. apply IH. split; [done|].
      intros b Hb. apply Hl. by right.
Qed.

(** ** Validated property maps conform to the model *)

Section conforms.
Context `{SerdeNumber} `{Formats}.

(** Every property is a declared field; every field that is set has a value of
    its type, and every other one is optional. *)
Definition conforms (fields : list RuntimeField) (props : Props) : Prop :=
  (∀ key, is_Some (props !! key) → ∃ f, f ∈ fields ∧ field_name f = key) ∧
  ∀ f, f ∈ fields →
    match props !! field_name f with
    | Some v => validate_value_for_kind (kind_of_type (field_type f)) v = true
    | None => field_required f = false
    end.

Lemma check_known_Ok {V} kind model fields (values : gmap string V) u :
  check_known kind model fields values = Ok u ↔
  ∀ key, is_Some (values !! key) → ∃ f, f ∈ fields ∧ field_name f = key.
Proof.
  unfold check_known. rewrite try_fold_unit_Ok. setoid_rewrite elem_of_bt_keys. split.
  - intros [_ Hall] key Hk. specialize (Hall key Hk).
    destruct (find_field fields key) as [f|] eqn:Hf; [|done].
    exists f. by apply find_field_Some.
  - intros Hall. split; [by destruct u|]. intros key Hk.
    destruct (find_field fields key) eqn:Hf; [done|].
    rewrite find_field_None in Hf. destruct (Hall key Hk) as (f & Hin & Heq). by apply Hf in Hin.
Qed.

(** What the loop over the fields collects. *)
Definition pick (fields : list RuntimeField) (values acc : Props) : Props :=
  foldl (λ acc f, match values !! field_name f with
                  | Some v => <[field_name f := v]> acc
                  | None => acc
                  end) acc fields.

Lemma lookup_pick fields (values acc : Props) k :
  pick fields values acc !! k
  = match values !! k with
    | Some v => if decide (k ∈ map field_name fields) then Some v else acc !! k
    | None => acc !! k
    end.
Proof.
  unfold pick. revert acc. induction fields as [|f fields IH]; intros acc; cbn [foldl map].
  { destruct (values !! k); [|done]. by rewrite decide_False by set_solver. }
  rewrite IH. destruct (decide (k = field_name f)) as [->|Hne].
  - destruct (values !! field_name f) as [v|] eqn:Hv; [|done].
    rewrite lookup_insert_eq, (decide_True (P := _ ∈ _ :: _)) by by left. by case_decide.
  - assert (match values !! field_name f with
            | Some v => <[field_name f:=v]> acc | None => acc end !! k = acc !! k) as ->
      by (destruct (values !! field_name f); [by rewrite lookup_insert_ne|done]).
    destruct (values !! k); [|done]. apply decide_ext. set_solver.
Qed.

Lemma pick_all fields (values : Props) :
  (∀ key, is_Some (values !! key) → ∃ f, f ∈ fields ∧ field_name f = key) →
  pick fields values ∅ = values.
Proof.
  intros Hknown. apply map_eq. intros k. rewrite lookup_pick, lookup_empty.
  destruct (values !! k) as [v|] eqn:Hv; [|done]. rewrite decide_True; [done|].
  destruct (Hknown k) as (f & Hf & <-); [by eexists|]. apply list_elem_of_fmap. by exists f.
Qed.

Lemma validate_loop kind model fields (values acc props : Props) :
  try_fold (validate_field kind model values) acc fields = Ok props ↔
  (∀ f, f ∈ fields →
    match values !! field_name f with
    | Some v => validate_value_for_kind (kind_of_type (field_type f)) v = true
    | None => field_required f = false
    end) ∧
  props = pick fields values acc.
Proof.
  revert acc. induction fields as [|f fields IH]; intros acc; cbn.
  - split; [intros [= <-]; split; [set_solver|done]|by intros [_ ->]].
  - assert (∀ (P : RuntimeField → Prop), (∀ g, g ∈ f :: fields → P g) ↔ P f ∧ ∀ g, g ∈ fields → P g)
      as Hcons by (intros P; setoid_rewrite elem_of_cons; naive_solver).
    rewrite Hcons. unfold validate_field at 1, pick. cbn. fold (pick fields values).
    destruct (values !! field_name f) as [v|];
      [destruct (validate_value_for_kind _ v)|destruct (field_required f)];
      rewrite ?IH; naive_solver.
Qed.

Lemma validate_props_ok kind model fields values props :
  validate_props_for_fields kind model fields values = Ok props ↔
  props = values ∧ conforms fields values.
Proof.
  unfold validate_props_for_fields, conforms. split.
  - intros ([] & Hk & Hl)%bind_Ok. pose proof (proj1 (check_known_Ok _ _ _ _ _) Hk) as Hk'. apply validate_loop in Hl as [Hf ->].
    by rewrite pick_all.
  - intros [-> [Hk Hf]]. apply bind_Ok. exists tt. rewrite check_known_Ok. split; [done|].
    apply validate_loop. by rewrite pick_all.
Qed.

(** the validator accepts a property map exactly when it conforms to the
    fields of the model, and answers it unchanged. *)
Theorem props_validated_exactly (nm : RuntimeNodeModel) (rm : RuntimeRelModel)
    (values props : Props) :
  (node_validate_instance_props nm values = Ok props ↔
     props = values ∧ conforms (nm_fields nm) values) ∧
  (rel_validate_instance_props rm values = Ok props ↔
     props = values ∧ conforms (rm_fields rm) values).
Proof. split; apply validate_props_ok. Qed.
End conforms.

(** ** Property maps given as texts *)

Section inputs.
Context `{SerdeNumber} `{!NumberLaws} `{Formats} `{!FormatLaws}.

Lemma input_loop (raw : gmap string string) fields (acc props : Props) :
  NoDup (map field_name fields) →
  try_fold (input_field raw) acc fields = Ok props →
  (∀ f, f ∈ fields →
    match raw !! field_name f with
    | Some s => ∃ v, parse_value (field_type f) s = Ok v ∧ props !! field_name f = Some v
    | None => field_required f = false ∧ props !! field_name f = acc !! field_name f
    end) ∧
  (∀ k, k ∉ map field_name fields → props !! k = acc !! k).
Proof.
  revert acc. induction fields as [|f fields IH]; intros acc; cbn.
  { intros _ [= <-]. split; [set_solver|done]. }
  intros [Hf Hnd]%NoDup_cons Hl. unfold input_field at 1 in Hl.
  destruct (raw !! field_name f) as [s|] eqn:Hs.
  - destruct (parse_value (field_type f) s) as [v|] eqn:Hv; [|done]. cbn in Hl.
    destruct (IH _ Hnd Hl) as [Hall Hout]. split.
    + intros g [->|Hg]%elem_of_cons.
      * rewrite Hs. exists v. split; [done|]. by rewrite Hout, lookup_insert_eq.
      * specialize (Hall g Hg). rewrite lookup_insert_ne in Hall; [done|].
        intros Heq. apply Hf. rewrite Heq. apply list_elem_of_fmap. by exists g.
    + intros k Hk. rewrite Hout by set_solver. apply lookup_insert_ne. set_solver.
  - destruct (field_required f) eqn:Hr; [done|].
    destruct (IH _ Hnd Hl) as [Hall Hout]. split; [|intros k Hk; apply Hout; set_solver].
    intros g [->|Hg]%elem_of_cons; [|by apply Hall]. rewrite Hs. split; [done|by apply Hout].
Qed.

(** No date-time among the texts is one the parser cannot store canonically. *)
Definition inputs_regular (fields : list RuntimeField) (raw : gmap string string) : Prop :=
  ∀ f s t, f ∈ fields → field_type f = TDateTime → raw !! field_name f = Some s →
    parse_from_rfc3339 (str_trim s) = Some t → datetime_regular t.

Lemma input_conforms kind model fields raw props :
  NoDup (map field_name fields) → inputs_regular fields raw →
  validate_input kind model fields raw = Ok props →
  conforms fields props ∧ dom props = dom raw.
Proof.
  intros Hnd Hreg Hin. unfold validate_input in Hin. apply bind_Ok in Hin as ([] & Hk & Hl).
  pose proof (proj1 (check_known_Ok _ _ _ _ _) Hk) as Hknown.
  destruct (input_loop _ _ _ _ Hnd Hl) as [Hall Hout].
  assert (∀ key, is_Some (props !! key) → ∃ f, f ∈ fields ∧ field_name f = key) as Hkp.
  { intros key [v Hv]. destruct (decide (key ∈ map field_name fields)) as [Hin|Hin].
    - apply list_elem_of_fmap in Hin as (f & -> & ?). eauto.
    - rewrite Hout, lookup_empty in Hv by done. done. }
  split; [split; [done|]|].
  - intros f Hf. specialize (Hall f Hf). destruct (raw !! field_name f) as [s|] eqn:Hs.
    + destruct Hall as (v & Hv & ->).
      apply (parsed_values_ok _ _ _ Hv). intros t Ht Hp. apply (Hreg f s t); try done.
      by destruct (field_type f).
    + destruct Hall as [? ->]. by rewrite lookup_empty.
  - apply set_eq. intros key. rewrite !elem_of_dom. split.
    + intros Hp. destruct (Hkp key Hp) as (f & Hf & <-). specialize (Hall f Hf).
      destruct (raw !! field_name f); [by eexists|]. destruct Hall as [_ Hn].
      rewrite Hn, lookup_empty in Hp. by destruct Hp.
    + intros [s Hs]. destruct (Hknown key) as (f & Hf & <-); [by eexists|].
      specialize (Hall f Hf). rewrite Hs in Hall. destruct Hall as (v & _ & ->). by eexists.
Qed.
End inputs.

(** ** The catalog keeps its models apart *)

Record catalog_ok (c : SessionModelCatalog) : Prop := {
  co_node name m : node_models c !! name = Some m → nm_name m = name ∧ node_model_ok m;
  co_rel name m : rel_models c !! name = Some m →
    rm_name m = name ∧ rel_model_ok m ∧
    is_Some (node_models c !! rm_from_model m) ∧ is_Some (node_models c !! rm_to_model m);
  co_apart name : node_models c !! name = None ∨ rel_models c !! name = None;
}.

Lemma catalog_new_ok : catalog_ok catalog_new.
Proof. split; cbn; [intros ???; by rewrite lookup_empty in *..|]. by left. Qed.

Lemma name_taken_false c name :
  name_taken c name = false ↔ node_models c !! name = None ∧ rel_models c !! name = None.
Proof.
  unfold name_taken. rewrite orb_false_iff, !bool_decide_eq_false, <-!eq_None_not_Some. done.
Qed.

Lemma register_node_model_ok m c c' :
  node_model_ok m → catalog_ok c → register_node_model m c = Ok c' → catalog_ok c'.
Proof.
  unfold register_node_model. intros Hm [Hn Hr Ha].
  destruct (name_taken c (nm_name m)) eqn:Ht; [done|]. intros [= <-].
  apply name_taken_false in Ht as [Hfn Hfr]. split; cbn.
  - intros name m' [[<- <-]|[_ Hl]]%lookup_insert_Some; [done|by apply Hn].
  - intros name r Hl. destruct (Hr name r Hl) as (? & ? & ? & ?).
    split_and!; try done; by apply lookup_insert_is_Some'; right.
  - intros name. destruct (decide (nm_name m = name)) as [<-|Hne]; [by right|].
    rewrite lookup_insert_ne by done. apply Ha.
Qed.

Lemma register_rel_model_ok m c c' :
  rel_model_ok m → is_Some (node_models c !! rm_from_model m) →
  is_Some (node_models c !! rm_to_model m) →
  catalog_ok c → register_rel_model m c = Ok c' → catalog_ok c'.
Proof.
  unfold register_rel_model. intros Hm Hf Ht [Hn Hr Ha].
  destruct (name_taken c (rm_name m)) eqn:Htk; [done|]. intros [= <-].
  apply name_taken_false in Htk as [Hfn Hfr]. split; cbn; [done| |].
  - intros name m' [[<- <-]|[_ Hl]]%lookup_insert_Some; [done|by apply Hr].
  - intros name. destruct (decide (rm_name m = name)) as [<-|Hne]; [by left|].
    rewrite lookup_insert_ne by done. apply Ha.
Qed.
