(* ===== verification/Files.v ===== *)
(** * Files ([src/src/fsutil.rs])

    The part of the standard library's [Path] and [fs] the program writes its
    files with, and the crash-safe writes built on them.  A path is the list of
    its components; the file system maps the file a path names to its bytes.
    Every system call may succeed, fail, or be the last one before the process
    is killed: a list of [fault]s, one per call, says which, and a list that is
    too short lets the remaining calls succeed.  Effects of the calls before a
    crash stand (the model is of a killed process, not of a power loss). *)

From S2P Require Export Prelude Text.

Local Open Scope string_scope.

(** ** Paths *)

(** [Path::components]: the names between the slashes, with [p_abs] for a
    leading root; a [.] is kept at the front only. *)
Record Path := { p_abs : bool; p_comps : list string }.

#[export] Instance Path_eq_dec : EqDecision Path.
Proof. solve_decision. Defined.

(** [Path::parent], [Path::file_name], [Path::join] of a file name *)
Definition path_parent (p : Path) : option Path :=
  match p_comps p with
  | [] => None
  | _ => Some {| p_abs := p_abs p; p_comps := removelast (p_comps p) |}
  end.
Definition path_file_name (p : Path) : option string :=
  match last (p_comps p) with
  | Some name => if String.eqb name "." || String.eqb name ".." then None else Some name
  | None => None
  end.
Definition path_join (p : Path) (name : string) : Path :=
  {| p_abs := p_abs p; p_comps := p_comps p ++ [name] |}.
Definition path_is_empty (p : Path) : bool :=
  negb (p_abs p) && match p_comps p with [] => true | _ => false end.
Definition path_dot : Path := {| p_abs := false; p_comps := ["."] |}.

(** [path.parent().filter(non-empty).unwrap_or(".")] *)
Definition parent_or_dot (p : Path) : Path :=
  match path_parent p with
  | Some parent => if path_is_empty parent then path_dot else parent
  | None => path_dot
  end.

Definition backup_path (p : Path) : Path :=
  path_join (parent_or_dot p) (default "grm-data" (path_file_name p) +:+ ".bak").
Definition log_path (p : Path) : Path :=
  path_join (parent_or_dot p) (default "grm-data" (path_file_name p) +:+ ".log").
(** [tag] is the process id and the clock reading, joined by a dash. *)
Definition atomic_temp_path (tag : string) (p : Path) : Path :=
  path_join (parent_or_dot p)
    ("." +:+ default "grm-temp" (path_file_name p) +:+ ".tmp-" +:+ tag).

(** ** The file system *)

(** The file a path names: a [.] names the directory it is in. *)
Definition FileKey : Type := bool * list string.
#[export] Instance FileKey_eq_dec : EqDecision FileKey := _.
#[export] Instance FileKey_countable : Countable FileKey := _.

Definition file_key (p : Path) : FileKey :=
  (p_abs p, filter (λ c, c ≠ ".") (p_comps p)).

Abbreviation FileSys := (@gmap FileKey FileKey_eq_dec FileKey_countable string).

Inductive io_error := NotFoundError | ExistsError | OtherError.
Inductive outcome (A : Type) := Done (a : A) | Failed (e : io_error) | Crashed.
Arguments Done {A} a.
Arguments Failed {A} e.
Arguments Crashed {A}.

(** [CallFails n] and [CallCrashes n] write [n] bytes first, where the call
    writes any. *)
Inductive fault := CallOk | CallFails (n : nat) | CallCrashes (n : nat).

(** A computation that makes system calls. *)
Definition io (A : Type) : Type := list fault → FileSys → outcome A * list fault * FileSys.

#[export] Instance io_ret : MRet io := λ A a fl fs, (Done a, fl, fs).
Definition io_fail {A} (e : io_error) : io A := λ fl fs, (Failed e, fl, fs).
#[export] Instance io_bind : MBind io := λ A B f m fl fs,
  match m fl fs with
  | (Done a, fl, fs) => f a fl fs
  | (Failed e, fl, fs) => (Failed e, fl, fs)
  | (Crashed, fl, fs) => (Crashed, fl, fs)
  end.

(** [m.inspect_err(cleanup)]: the result of the clean-up is dropped. *)
Definition inspect_err {A} (m : io A) (cleanup : io unit) : io A := λ fl fs,
  match m fl fs with
  | (Failed e, fl, fs) =>
      match cleanup fl fs with
      | (Crashed, fl, fs) => (Crashed, fl, fs)
      | (_, fl, fs) => (Failed e, fl, fs)
      end
  | r => r
  end.

(** One system call: [eff] when it runs, [partial n] when it stops early. *)
Definition io_call {A} (eff : FileSys → (A * FileSys) + io_error) (partial : nat → FileSys → FileSys) : io A :=
  λ fl fs,
    match fl with
    | CallFails n :: fl => (Failed OtherError, fl, partial n fs)
    | CallCrashes n :: fl => (Crashed, fl, partial n fs)
    | _ => match eff fs with
           | inl (a, fs) => (Done a, tail fl, fs)
           | inr e => (Failed e, tail fl, fs)
           end
    end.

(** [write(true).create_new(true).open] *)
Definition open_create_new (p : Path) : io unit :=
  io_call (λ fs, match fs !! file_key p with
                 | Some _ => inr ExistsError
                 | None => inl (tt, <[file_key p := ""]> fs)
                 end) (λ _ fs, fs).
(** [create(true).append(true).open] *)
Definition open_append (p : Path) : io unit :=
  io_call (λ fs, inl (tt, match fs !! file_key p with
                          | Some _ => fs
                          | None => <[file_key p := ""]> fs
                          end)) (λ _ fs, fs).
(** [write_all] at the end of the open file *)
Definition append_bytes (p : Path) (bs : string) (fs : FileSys) : FileSys :=
  <[file_key p := default "" (fs !! file_key p) +:+ bs]> fs.
Definition write_all (p : Path) (bs : string) : io unit :=
  io_call (λ fs, inl (tt, append_bytes p bs fs))
          (λ n fs, append_bytes p (String.substring 0 n bs) fs).
(** [sync_all] of a file or a directory *)
Definition sync_all : io unit := io_call (λ fs, inl (tt, fs)) (λ _ fs, fs).
Definition fs_rename (p q : Path) : io unit :=
  io_call (λ fs, match fs !! file_key p with
                 | Some bs => inl (tt, <[file_key q := bs]> (delete (file_key p) fs))
                 | None => inr NotFoundError
                 end) (λ _ fs, fs).
Definition fs_remove_file (p : Path) : io unit :=
  io_call (λ fs, match fs !! file_key p with
                 | Some _ => inl (tt, delete (file_key p) fs)
                 | None => inr NotFoundError
                 end) (λ _ fs, fs).
Definition fs_read (p : Path) : io string :=
  io_call (λ fs, match fs !! file_key p with
                 | Some bs => inl (bs, fs)
                 | None => inr NotFoundError
                 end) (λ _ fs, fs).
(** [Path::exists]: no answer is no file. *)
Definition fs_exists (p : Path) : io bool := λ fl fs,
  match fl with
  | CallCrashes _ :: fl => (Crashed, fl, fs)
  | CallFails _ :: fl => (Done false, fl, fs)
  | _ => (Done (bool_decide (is_Some (fs !! file_key p))), tail fl, fs)
  end.

(** ** Crash-safe writes *)

(** [sync_parent_dir]: opening the directory, then its sync. *)
Definition sync_parent_dir : io unit := sync_all ≫= λ _, sync_all.

Definition write_file_atomically (tag : string) (p : Path) (bs : string) : io unit :=
  let temp := atomic_temp_path tag p in
  open_create_new temp ≫= λ _,
  write_all temp bs ≫= λ _,
  sync_all ≫= λ _,
  inspect_err (fs_rename temp p) (fs_remove_file temp) ≫= λ _,
  sync_parent_dir.

Definition write_file_atomically_with_backup (tags : string * string) (p : Path)
    (bs : string) : io unit :=
  write_file_atomically tags.1 p bs ≫= λ _,
  write_file_atomically tags.2 (backup_path p) bs.

(** ** The files a write touches *)




Lemma append_not_dot s t : (1 < String.length s)%nat → s +:+ t ≠ ".".
Proof. intros Hs Heq%(f_equal String.length). rewrite length_append in Heq. cbn in Heq. lia. Qed.

(** A file of the given name in the directory of [p]. *)
Definition sibling (p : Path) (name : string) : Path := path_join (parent_or_dot p) name.

Lemma file_key_join p name :
  name ≠ "." → file_key (path_join p name) = ((file_key p).1, ((file_key p).2 ++ [name])%list).
Proof.
  intros Hn. unfold file_key, path_join. cbn.
  rewrite filter_app, filter_cons_True by done. done.
Qed.

Lemma file_key_sibling_inj p n m :
  n ≠ "." → m ≠ "." → file_key (sibling p n) = file_key (sibling p m) → n = m.
Proof.
  intros Hn Hm. unfold sibling. rewrite !file_key_join by done. intros [= Heq].
  by apply app_inj_tail in Heq as [_ ?].
Qed.

Lemma file_key_parent abs l x :
  file_key (parent_or_dot {| p_abs := abs; p_comps := l ++ [x] |})
  = (abs, filter (λ c, c ≠ ".") l).
Proof.
  unfold parent_or_dot, path_parent. cbn.
  assert ((l ++ [x])%list ≠ []) as Hne by (by destruct l).
  destruct (l ++ [x])%list eqn:Hl; [done|]. rewrite <-Hl, removelast_last.
  unfold path_is_empty. cbn. by destruct abs, l.
Qed.

Lemma file_key_sibling_self p n :
  n ≠ "." → file_key (sibling p n) = file_key p → last (p_comps p) = Some n.
Proof.
  intros Hn. unfold sibling. rewrite file_key_join by done. destruct p as [abs comps].
  destruct comps as [|x l _] using rev_ind.
  { unfold file_key. cbn. by intros [=]. }
  rewrite file_key_parent. unfold file_key. cbn. rewrite last_snoc. intros [= Heq].
  rewrite filter_app in Heq. apply app_inv_head in Heq.
  destruct (decide (x = ".")) as [->|Hx].
  - by rewrite filter_cons_False in Heq by (intros []; done).
  - rewrite filter_cons_True in Heq by done. by injection Heq as ->.
Qed.

(** The file name the derived paths are built from. *)
Lemma file_name_last p n :
  last (p_comps p) = Some n → n ≠ "." → n ≠ ".." → path_file_name p = Some n.
Proof.
  unfold path_file_name. intros -> H1 H2.
  by rewrite !(proj2 (String.eqb_neq _ _)).
Qed.

(** A name longer than the one it is built from names another file. *)
Lemma sibling_self_ne p (f : string → string) d :
  (∀ s, (String.length s + 2 < String.length (f s))%nat) →
  file_key (sibling p (f (default d (path_file_name p)))) ≠ file_key p.
Proof.
  intros Hf. set (n := f _).
  assert (2 < String.length n)%nat as Hlen by (eapply Nat.le_lt_trans; [|apply Hf]; lia).
  assert (n ≠ "." ∧ n ≠ "..") as [H1 H2] by (split; intros ->; cbn in Hlen; lia).
  intros Hl%file_key_sibling_self; [|done]. apply file_name_last in Hl; [|done..].
  subst n. rewrite Hl in Hlen. rewrite Hl in Hl. cbn in *.
  injection Hl as Hl%(f_equal String.length).
  pose proof (Hf (f (default d (path_file_name p)))). lia.
Qed.

Lemma sibling_ne p n m :
  String.length n ≠ String.length m → (1 < String.length n)%nat → (1 < String.length m)%nat →
  file_key (sibling p n) ≠ file_key (sibling p m).
Proof.
  intros Hne Hn Hm Heq. apply file_key_sibling_inj in Heq; [congruence|..];
    intros ->; cbn in *; lia.
Qed.

Lemma file_key_sibling_sibling p n m :
  n ≠ "." → m ≠ "." → file_key (sibling (sibling p n) m) = file_key (sibling p m).
Proof.
  intros Hn Hm. unfold sibling at 1 3. rewrite !file_key_join by done.
  unfold sibling, path_join. by rewrite file_key_parent.
Qed.

Lemma file_name_sibling p n : n ≠ "." → n ≠ ".." → path_file_name (sibling p n) = Some n.
Proof. intros. apply file_name_last; [apply last_snoc|done..]. Qed.

Lemma backup_path_ne p : file_key (backup_path p) ≠ file_key p.
Proof. apply (sibling_self_ne p (λ s, s +:+ ".bak") "grm-data"). intros s. rewrite length_append. cbn. lia. Qed.
Lemma log_path_ne p : file_key (log_path p) ≠ file_key p.
Proof. apply (sibling_self_ne p (λ s, s +:+ ".log") "grm-data"). intros s. rewrite length_append. cbn. lia. Qed.
Lemma temp_path_ne tag p : file_key (atomic_temp_path tag p) ≠ file_key p.
Proof.
  apply (sibling_self_ne p (λ s, "." +:+ s +:+ ".tmp-" +:+ tag) "grm-temp").
  intros s. rewrite !length_append. cbn. lia.
Qed.

Ltac name_lengths :=
  rewrite ?length_append; cbn; destruct (path_file_name _) as [name|]; cbn; try destruct name; cbn; lia.

Lemma backup_log_ne p : file_key (backup_path p) ≠ file_key (log_path p).
Proof.
  unfold backup_path, log_path. change path_join with (λ p, path_join p). intros Heq.
  apply file_key_sibling_inj in Heq.
  - induction (default "grm-data" (path_file_name p)) as [|c s IH]; cbn in Heq; [done|].
    injection Heq as Heq. by apply IH.
  - intros Hd%(f_equal String.length). rewrite length_append in Hd. cbn in Hd. lia.
  - intros Hd%(f_equal String.length). rewrite length_append in Hd. cbn in Hd. lia.
Qed.

(** A temporary file of [p] is neither the backup nor the log of [p]. *)
Lemma temp_ne_backup tag p : file_key (atomic_temp_path tag p) ≠ file_key (backup_path p).
Proof. apply sibling_ne; name_lengths. Qed.
Lemma temp_ne_log tag p : file_key (atomic_temp_path tag p) ≠ file_key (log_path p).
Proof. apply sibling_ne; name_lengths. Qed.

(** Nor is a temporary file of the backup the file [p] or its log. *)
Lemma backup_temp_key tag p :
  file_key (atomic_temp_path tag (backup_path p))
  = file_key (sibling p ("." +:+ (default "grm-data" (path_file_name p) +:+ ".bak")
                         +:+ ".tmp-" +:+ tag)).
Proof.
  set (b := default "grm-data" (path_file_name p) +:+ ".bak").
  assert (3 < String.length b)%nat as Hb by (unfold b; rewrite length_append; cbn; lia).
  unfold atomic_temp_path, backup_path. fold b. fold (sibling p b).
  rewrite file_name_sibling by (intros ->; cbn in Hb; lia). cbn [default].
  apply file_key_sibling_sibling; [intros ->; cbn in Hb; lia|].
  intros Hd%(f_equal String.length). rewrite !length_append in Hd. cbn in Hd. lia.
Qed.

Lemma backup_temp_ne tag p : file_key (atomic_temp_path tag (backup_path p)) ≠ file_key p.
Proof.
  rewrite backup_temp_key.
  apply (sibling_self_ne p (λ s, "." +:+ (s +:+ ".bak") +:+ ".tmp-" +:+ tag) "grm-data").
  intros s. rewrite !length_append. cbn. lia.
Qed.
Lemma backup_temp_ne_log tag p :
  file_key (atomic_temp_path tag (backup_path p)) ≠ file_key (log_path p).
Proof. rewrite backup_temp_key. apply sibling_ne; name_lengths. Qed.

(** ** What holds however the calls end *)

(** Every run of [m] from [fs] ends in a state of [Q]. *)
Definition io_post {A} (m : io A) (Q : outcome A → FileSys → Prop) (fs : FileSys) : Prop :=
  ∀ fl, let '(r, _, fs') := m fl fs in Q r fs'.

Lemma io_post_ret {A} (a : A) (Q : outcome A → FileSys → Prop) fs :
  Q (Done a) fs → io_post (mret a) Q fs.
Proof. by intros HQ fl. Qed.

Lemma io_post_bind {A B} (m : io A) (f : A → io B) (Q : outcome B → FileSys → Prop) fs :
  io_post m (λ r fs, match r with
                     | Done a => io_post (f a) Q fs
                     | Failed e => Q (Failed e) fs
                     | Crashed => Q Crashed fs
                     end) fs →
  io_post (m ≫= f) Q fs.
Proof.
  intros Hm fl. specialize (Hm fl). unfold mbind, io_bind.
  destruct (m fl fs) as [[[a|e|] fl'] fs']; [apply Hm|done..].
Qed.

Lemma io_post_call {A} (eff : FileSys → (A * FileSys) + io_error) (partial : nat → FileSys → FileSys) (Q : outcome A → FileSys → Prop) fs :
  match eff fs with inl (a, fs') => Q (Done a) fs' | inr e => Q (Failed e) fs end →
  (∀ n, Q (Failed OtherError) (partial n fs) ∧ Q Crashed (partial n fs)) →
  io_post (io_call eff partial) Q fs.
Proof.
  intros Heff Hpart [|[|n|n] fl]; cbn; try apply Hpart.
  all: destruct (eff fs) as [[a fs']|e]; done.
Qed.

Lemma io_post_inspect {A} (m : io A) cleanup (Q : outcome A → FileSys → Prop) fs :
  io_post m (λ r fs, match r with
                     | Failed e =>
                         io_post cleanup (λ r fs, match r with
                                                  | Crashed => Q Crashed fs
                                                  | _ => Q (Failed e) fs
                                                  end) fs
                     | _ => Q r fs
                     end) fs →
  io_post (inspect_err m cleanup) Q fs.
Proof.
  intros Hm fl. specialize (Hm fl). unfold inspect_err.
  destruct (m fl fs) as [[[a|e|] fl'] fs']; [done| |done].
  specialize (Hm fl'). destruct (cleanup fl' fs') as [[[] ?] ?]; done.
Qed.

Lemma io_post_mono {A} (m : io A) (Q R : outcome A → FileSys → Prop) fs :
  io_post m Q fs → (∀ r fs', Q r fs' → R r fs') → io_post m R fs.
Proof.
  intros Hm HQ fl. specialize (Hm fl). destruct (m fl fs) as [[r ?] fs']. by apply HQ.
Qed.

Lemma io_post_run {A} (m : io A) (Q : outcome A → FileSys → Prop) fs fl r fl' fs' :
  io_post m Q fs → m fl fs = (r, fl', fs') → Q r fs'.
Proof. intros Hm Heq. specialize (Hm fl). by rewrite Heq in Hm. Qed.

Lemma io_post_sync_all (Q : outcome unit → FileSys → Prop) fs :
  (∀ r, Q r fs) → io_post sync_all Q fs.
Proof. intros HQ. by apply io_post_call. Qed.

Lemma io_post_sync_parent_dir (Q : outcome unit → FileSys → Prop) fs :
  (∀ r, Q r fs) → io_post sync_parent_dir Q fs.
Proof.
  intros HQ. apply io_post_bind, io_post_sync_all.
  intros []; [by apply io_post_sync_all|done..].
Qed.

(** The files outside [ks] keep their bytes. *)
Definition only_changed (ks : list FileKey) (fs fs' : FileSys) : Prop :=
  ∀ k, k ∉ ks → fs' !! k = fs !! k.

(** The outcomes of a crash-safe write to [p] through [temp]. *)
Record wrote (p temp : Path) (bs : string) (fs : FileSys) (r : outcome unit) (fs' : FileSys) : Prop := {
  wr_frame : only_changed [file_key p; file_key temp] fs fs';
  wr_atomic : fs' !! file_key p = fs !! file_key p ∨ fs' !! file_key p = Some bs;
  wr_done : r = Done tt → fs' !! file_key p = Some bs;
}.

Lemma write_file_atomically_post tag p bs fs :
  io_post (write_file_atomically tag p bs) (wrote p (atomic_temp_path tag p) bs fs) fs.
Proof.
  pose proof (temp_path_ne tag p) as Hne.
  unfold write_file_atomically. set (temp := atomic_temp_path tag p) in *.
  assert (∀ r fs', (∀ k, k ≠ file_key temp → fs' !! k = fs !! k) → r ≠ Done tt →
    wrote p temp bs fs r fs') as Hbad.
  { intros r fs' Hf Hr. split; [|left; by apply Hf|done].
    intros k Hk. apply Hf. intros ->. apply Hk. right. by left. }
  assert (∀ r : outcome unit, wrote p temp bs fs r
    (<[file_key p := bs]> (delete (file_key temp) (<[file_key temp := bs]> fs)))) as Hgood.
  { intros r. split; [|right; apply lookup_insert_eq|intros _; apply lookup_insert_eq].
    intros k Hk. rewrite !not_elem_of_cons in Hk. destruct Hk as (? & ? & _).
    by rewrite lookup_insert_ne, lookup_delete_ne, lookup_insert_ne. }
  apply io_post_bind, io_post_call; [|intros n; split; by apply Hbad].
  destruct (fs !! file_key temp) eqn:Htemp; [by apply Hbad|].
  apply io_post_bind, io_post_call; unfold append_bytes; rewrite lookup_insert_eq; cbn [default].
  2: { intros n. rewrite insert_insert_eq.
       split; apply Hbad; try done; intros k Hk; by rewrite lookup_insert_ne. }
  rewrite insert_insert_eq. cbn.
  assert (∀ r, r ≠ Done tt → wrote p temp bs fs r (<[file_key temp := bs]> fs)) as Hbad'.
  { intros r Hr. apply Hbad; [|done]. intros k Hk. by rewrite lookup_insert_ne. }
  apply io_post_bind, io_post_sync_all. intros [[]| |]; [|by apply Hbad'..].
  apply io_post_bind, io_post_inspect, io_post_call.
  - rewrite lookup_insert_eq. apply io_post_sync_parent_dir. intros r. by apply Hgood.
  - intros _. split; [|by apply Hbad']. apply io_post_call.
    + rewrite lookup_insert_eq. apply Hbad; [|done].
      intros k Hk. by rewrite lookup_delete_ne, lookup_insert_ne.
    + intros _. split; by apply Hbad'.
Qed.

(** The outcomes of a write with a backup: the backup changes only once the
    file holds the new bytes. *)
Record saved (tags : string * string) (p : Path) (bs : string) (fs : FileSys) (r : outcome unit)
    (fs' : FileSys) : Prop := {
  sv_frame : only_changed
    [file_key p; file_key (atomic_temp_path tags.1 p); file_key (backup_path p);
     file_key (atomic_temp_path tags.2 (backup_path p))] fs fs';
  sv_file : fs' !! file_key p = fs !! file_key p ∨ fs' !! file_key p = Some bs;
  sv_backup : fs' !! file_key (backup_path p) = fs !! file_key (backup_path p) ∨
    fs' !! file_key (backup_path p) = Some bs ∧ fs' !! file_key p = Some bs;
  sv_done : r = Done tt →
    fs' !! file_key p = Some bs ∧ fs' !! file_key (backup_path p) = Some bs;
}.

Lemma write_with_backup_post tags p bs fs :
  io_post (write_file_atomically_with_backup tags p bs) (saved tags p bs fs) fs.
Proof.
  pose proof (backup_path_ne p) as Hb. pose proof (temp_ne_backup tags.1 p) as Ht.
  pose proof (backup_temp_ne tags.2 p) as Ht2.
  pose proof (temp_path_ne tags.2 (backup_path p)) as Ht3.
  apply io_post_bind. eapply io_post_mono; [apply write_file_atomically_post|].
  intros r fs1 [Hframe Hat Hdone].
  assert (fs1 !! file_key (backup_path p) = fs !! file_key (backup_path p)) as Hkeep.
  { apply Hframe. rewrite !not_elem_of_cons. split_and!; try done. by apply not_elem_of_nil. }
  assert (∀ r' fs2, r' ≠ Done tt → fs2 = fs1 → saved tags p bs fs r' fs2) as Hbad.
  { intros r' fs2 Hr ->. split; [|done|by left|done]. intros k Hk. apply Hframe. set_solver. }
  destruct r as [[]|e|]; [|by apply Hbad..]. specialize (Hdone eq_refl).
  eapply io_post_mono; [apply write_file_atomically_post|].
  intros r fs2 [Hframe2 Hat2 Hdone2].
  assert (fs2 !! file_key p = fs1 !! file_key p) as Hkeep2.
  { apply Hframe2. rewrite !not_elem_of_cons. split_and!; try done. by apply not_elem_of_nil. }
  rewrite Hdone in Hkeep2. split.
  - intros k Hk. rewrite Hframe2 by set_solver. apply Hframe. set_solver.
  - by right.
  - rewrite <-Hkeep. destruct Hat2 as [?|?]; [by left|by right].
  - intros Hr. split; [done|by apply Hdone2].
Qed.

(** With no fault and no leftover temporary file a write succeeds. *)
Lemma write_file_atomically_runs tag p bs (fs : FileSys) :
  fs !! file_key (atomic_temp_path tag p) = None →
  write_file_atomically tag p bs [] fs = (Done tt, [], <[file_key p := bs]> fs).
Proof.
  intros Hnone. unfold write_file_atomically, mbind, io_bind, open_create_new, io_call.
  rewrite Hnone. cbn. unfold append_bytes. rewrite lookup_insert_eq. cbn.
  unfold inspect_err, fs_rename, io_call. rewrite lookup_insert_eq. cbn. do 3 f_equal.
  rewrite insert_insert_eq. by apply delete_insert_id.
Qed.

Lemma write_with_backup_runs tags p bs (fs : FileSys) :
  fs !! file_key (atomic_temp_path tags.1 p) = None →
  fs !! file_key (atomic_temp_path tags.2 (backup_path p)) = None →
  write_file_atomically_with_backup tags p bs [] fs
  = (Done tt, [], <[file_key (backup_path p) := bs]> (<[file_key p := bs]> fs)).
Proof.
  intros H1 H2. unfold write_file_atomically_with_backup, mbind, io_bind.
  rewrite write_file_atomically_runs by done.
  apply write_file_atomically_runs. rewrite lookup_insert_ne; [done|].
  apply not_eq_sym, backup_temp_ne.
Qed.
