(* ===== verification/Index.v ===== *)
(** * Secondary indexes

    The [BTreeMap<K, BTreeSet<i64>>] indexes of [src/src/backend/graphstore.rs]:
    insertion ([entry(..).or_default().insert(..)]), removal
    ([remove_index_entry]) and what it means that an index represents a
    relation between keys and ids. *)

From S2P Require Export Prelude.

Section index.
Context {K : Type} `{Countable K}.

Abbreviation index := (gmap K (gset Z)).
Implicit Types (m : index) (k : K) (id : Z).

(** [index.get(key)], with a missing key as the empty set *)
Definition idx_get m k : gset Z := default ∅ (m !! k).

(** [index.get(key).map(|ids| ids.iter().copied().collect()).unwrap_or_default()] *)
Definition idx_ids m k : list Z :=
  match m !! k with Some ids => bs_iter ids | None => [] end.

(** [index.entry(key).or_default().insert(id)] *)
Definition idx_insert m k id : index :=
  <[k := {[id]} ∪ default ∅ (m !! k)]> m.

Definition remove_index_entry m k id : index :=
  match m !! k with
  | Some ids =>
      let ids := ids ∖ {[id]} in
      if decide (ids = ∅) then delete k m else <[k := ids]> m
  | None => m
  end.

Definition idx_insert_all m (ks : list K) id : index :=
  foldl (λ m k, idx_insert m k id) m ks.
Definition idx_remove_all m (ks : list K) id : index :=
  foldl (λ m k, remove_index_entry m k id) m ks.

(** [m] holds exactly the pairs of [P], and no key with an empty set. *)
Record idx_spec m (P : K → Z → Prop) : Prop := {
  idx_spec_elem k id : id ∈ idx_get m k ↔ P k id;
  idx_spec_nonempty k : m !! k ≠ Some ∅;
}.

Lemma idx_ids_elements m k : idx_ids m k = bs_iter (idx_get m k).
Proof. unfold idx_ids, idx_get. by destruct (m !! k). Qed.

Lemma elem_of_idx_insert m k id k' id' :
  id' ∈ idx_get (idx_insert m k id) k' ↔ (k' = k ∧ id' = id) ∨ id' ∈ idx_get m k'.
Proof.
  unfold idx_get, idx_insert. destruct (decide (k = k')) as [->|Hne].
  - rewrite lookup_insert_eq. cbn. set_solver.
  - rewrite lookup_insert_ne by done. naive_solver.
Qed.

Lemma elem_of_remove_index_entry m k id k' id' :
  id' ∈ idx_get (remove_index_entry m k id) k' ↔
  id' ∈ idx_get m k' ∧ ¬ (k' = k ∧ id' = id).
Proof.
  unfold idx_get, remove_index_entry.
  destruct (m !! k) as [ids|] eqn:Hk; cbn.
  - case_decide as Hids; (destruct (decide (k = k')) as [->|Hne];
      [rewrite ?lookup_delete_eq, ?lookup_insert_eq, Hk; cbn; set_solver
      |rewrite ?lookup_delete_ne, ?lookup_insert_ne by done; naive_solver]).
  - split; [|naive_solver]. intros Hin. split; [done|]. intros [-> ->].
    rewrite Hk in Hin. set_solver.
Qed.

Lemma idx_spec_empty : idx_spec ∅ (λ _ _, False).
Proof.
  split; intros k; unfold idx_get; rewrite lookup_empty; cbn; [set_solver|done].
Qed.

Lemma idx_spec_iff m P Q :
  idx_spec m P → (∀ k id, P k id ↔ Q k id) → idx_spec m Q.
Proof. intros [Hel Hne] HPQ. split; [|done]. intros k id. by rewrite Hel. Qed.

Lemma idx_spec_insert m P k id :
  idx_spec m P → idx_spec (idx_insert m k id) (λ k' id', (k' = k ∧ id' = id) ∨ P k' id').
Proof.
  intros [Hel Hne]. split.
  - intros k' id'. by rewrite elem_of_idx_insert, Hel.
  - intros k' Hk'. unfold idx_insert in Hk'.
    destruct (decide (k = k')) as [->|Hkk].
    + rewrite lookup_insert_eq in Hk'. injection Hk' as Hk'. set_solver.
    + rewrite lookup_insert_ne in Hk' by done. by apply (Hne k').
Qed.

Lemma idx_spec_remove m P k id :
  idx_spec m P →
  idx_spec (remove_index_entry m k id) (λ k' id', P k' id' ∧ ¬ (k' = k ∧ id' = id)).
Proof.
  intros [Hel Hne]. split.
  - intros k' id'. by rewrite elem_of_remove_index_entry, Hel.
  - intros k' Hk'. unfold remove_index_entry in Hk'.
    destruct (m !! k) as [ids|] eqn:Hk; [|by apply (Hne k')].
    case_decide as Hids; destruct (decide (k = k')) as [->|Hkk];
      rewrite ?lookup_delete_eq, ?lookup_insert_eq in Hk'; try done;
      rewrite ?lookup_delete_ne, ?lookup_insert_ne in Hk' by done;
      [by apply (Hne k')|by injection Hk' as Hk'|by apply (Hne k')].
Qed.

Lemma idx_spec_insert_all m P ks id :
  idx_spec m P →
  idx_spec (idx_insert_all m ks id) (λ k' id', (k' ∈ ks ∧ id' = id) ∨ P k' id').
Proof.
  unfold idx_insert_all. revert m P. induction ks as [|k ks IH]; intros m P HP; cbn.
  - eapply idx_spec_iff; [done|]. set_solver.
  - eapply idx_spec_iff; [by apply IH, idx_spec_insert|]. set_solver.
Qed.

Lemma idx_spec_remove_all m P ks id :
  idx_spec m P →
  idx_spec (idx_remove_all m ks id) (λ k' id', P k' id' ∧ ¬ (k' ∈ ks ∧ id' = id)).
Proof.
  unfold idx_remove_all. revert m P. induction ks as [|k ks IH]; intros m P HP; cbn.
  - eapply idx_spec_iff; [done|]. set_solver.
  - eapply idx_spec_iff; [by apply IH, idx_spec_remove|]. set_solver.
Qed.

(** Indexing every item of a list, each under its own keys. *)
Lemma idx_spec_insert_items {A} (keys : A → list K) (id : A → Z) (l : list A) m P :
  idx_spec m P →
  idx_spec (foldl (λ m a, idx_insert_all m (keys a) (id a)) m l)
    (λ k i, (∃ a, a ∈ l ∧ k ∈ keys a ∧ i = id a) ∨ P k i).
Proof.
  revert m P. induction l as [|a l IH]; intros m P HP; cbn.
  - eapply idx_spec_iff; [done|]. set_solver.
  - eapply idx_spec_iff; [by eapply IH, idx_spec_insert_all|].
    intros k i. set_solver.
Qed.

(** An index is determined by what it represents. *)
Lemma idx_spec_unique m1 m2 P : idx_spec m1 P → idx_spec m2 P → m1 = m2.
Proof.
  intros [Hel1 Hne1] [Hel2 Hne2]. apply map_eq; intros k.
  assert (idx_get m1 k = idx_get m2 k) as Hget.
  { apply set_eq; intros i. by rewrite Hel1, Hel2. }
  unfold idx_get in Hget. specialize (Hne1 k). specialize (Hne2 k).
  destruct (m1 !! k), (m2 !! k); cbn in *; congruence.
Qed.

Lemma elem_of_idx_ids m P k id :
  idx_spec m P → id ∈ idx_ids m k ↔ P k id.
Proof. intros HP. by rewrite idx_ids_elements, elem_of_bs_iter, (idx_spec_elem _ _ HP). Qed.

Lemma idx_ids_sorted m k : StronglySorted Z.le (idx_ids m k).
Proof. rewrite idx_ids_elements. exact (bs_iter_sorted (idx_get m k)). Qed.

Lemma idx_ids_NoDup m k : NoDup (idx_ids m k).
Proof. rewrite idx_ids_elements. apply bs_iter_NoDup. Qed.
End index.
