(* ===== verification/Store.v ===== *)
(** * The in-memory graph store

    Models [src/src/backend/graphstore.rs]: nodes and relationships by id, the
    label, property, type and adjacency indexes, and the lazily rebuilt
    property cache. *)

From S2P Require Export Prelude Text Json Numbers Dsl Index.

(** ** Data *)

Inductive ValueKey :=
  | VKNull
  | VKBool (b : bool)
  | VKInt (z : Z)
  | VKUInt (z : Z)
  | VKFloatBits (bits : Z)
  | VKString (s : string).

#[export] Instance ValueKey_eq_dec : EqDecision ValueKey.
Proof. solve_decision. Defined.
#[export] Instance ValueKey_countable : Countable ValueKey.
Proof.
  refine (inj_countable'
    (λ k, match k with
          | VKNull => inl ()
          | VKBool b => inr (inl b)
          | VKInt z => inr (inr (inl z))
          | VKUInt z => inr (inr (inr (inl z)))
          | VKFloatBits z => inr (inr (inr (inr (inl z))))
          | VKString s => inr (inr (inr (inr (inr s))))
          end)
    (λ s, match s with
          | inl _ => VKNull
          | inr (inl b) => VKBool b
          | inr (inr (inl z)) => VKInt z
          | inr (inr (inr (inl z))) => VKUInt z
          | inr (inr (inr (inr (inl z)))) => VKFloatBits z
          | inr (inr (inr (inr (inr s)))) => VKString s
          end) _).
  by intros [].
Defined.

Section store.
Context `{SerdeNumber}.

Record StoredNode := {
  sn_id : Z;
  sn_labels : list string;
  sn_props : Props;
}.

Record StoredRel := {
  sr_id : Z;
  sr_rel_type : string;
  sr_from : Z;
  sr_to : Z;
  sr_props : Props;
}.

Definition ValueKey_from_value (value : Value) : option ValueKey :=
  match value with
  | Null => Some VKNull
  | Bool b => Some (VKBool b)
  | Num n =>
      match number_as_i64 n with
      | Some z => Some (VKInt z)
      | None =>
          match number_as_u64 n with
          | Some z => Some (VKUInt z)
          | None => (λ x, VKFloatBits (f64_to_bits x)) <$> number_as_f64 n
          end
      end
  | Str s => Some (VKString s)
  | Array _ | Object _ => None
  end.

Record GraphStore := {
  next_node_id : Z;
  next_rel_id : Z;
  nodes : gmap Z StoredNode;
  rels : gmap Z StoredRel;
  nodes_by_label : gmap string (gset Z);
  node_props : gmap (string * string * ValueKey) (gset Z);
  node_props_any : gmap (string * ValueKey) (gset Z);
  node_props_dirty : bool;
  rels_by_type : gmap string (gset Z);
  outgoing : gmap (Z * string) (gset Z);
  incoming : gmap (Z * string) (gset Z);
  outgoing_any : gmap Z (gset Z);
  incoming_any : gmap Z (gset Z);
}.

Definition GraphStore_default : GraphStore := {|
  next_node_id := 1; next_rel_id := 1; nodes := ∅; rels := ∅;
  nodes_by_label := ∅; node_props := ∅; node_props_any := ∅;
  node_props_dirty := false; rels_by_type := ∅; outgoing := ∅; incoming := ∅;
  outgoing_any := ∅; incoming_any := ∅;
|}.

(** Assignments to the fields of [self]. *)
Definition set_nodes (m : gmap Z StoredNode) (s : GraphStore) : GraphStore :=
  {| next_node_id := next_node_id s; next_rel_id := next_rel_id s; nodes := m;
     rels := rels s; nodes_by_label := nodes_by_label s; node_props := node_props s;
     node_props_any := node_props_any s; node_props_dirty := node_props_dirty s;
     rels_by_type := rels_by_type s; outgoing := outgoing s; incoming := incoming s;
     outgoing_any := outgoing_any s; incoming_any := incoming_any s |}.
Definition set_rels (m : gmap Z StoredRel) (s : GraphStore) : GraphStore :=
  {| next_node_id := next_node_id s; next_rel_id := next_rel_id s; nodes := nodes s;
     rels := m; nodes_by_label := nodes_by_label s; node_props := node_props s;
     node_props_any := node_props_any s; node_props_dirty := node_props_dirty s;
     rels_by_type := rels_by_type s; outgoing := outgoing s; incoming := incoming s;
     outgoing_any := outgoing_any s; incoming_any := incoming_any s |}.
Definition set_nodes_by_label (m : gmap string (gset Z)) (s : GraphStore) : GraphStore :=
  {| next_node_id := next_node_id s; next_rel_id := next_rel_id s; nodes := nodes s;
     rels := rels s; nodes_by_label := m; node_props := node_props s;
     node_props_any := node_props_any s; node_props_dirty := node_props_dirty s;
     rels_by_type := rels_by_type s; outgoing := outgoing s; incoming := incoming s;
     outgoing_any := outgoing_any s; incoming_any := incoming_any s |}.
Definition set_property_cache (m : gmap (string * string * ValueKey) (gset Z))
    (any : gmap (string * ValueKey) (gset Z)) (dirty : bool) (s : GraphStore) : GraphStore :=
  {| next_node_id := next_node_id s; next_rel_id := next_rel_id s; nodes := nodes s;
     rels := rels s; nodes_by_label := nodes_by_label s; node_props := m;
     node_props_any := any; node_props_dirty := dirty;
     rels_by_type := rels_by_type s; outgoing := outgoing s; incoming := incoming s;
     outgoing_any := outgoing_any s; incoming_any := incoming_any s |}.
Definition set_dirty (dirty : bool) (s : GraphStore) : GraphStore :=
  set_property_cache (node_props s) (node_props_any s) dirty s.
Definition set_rel_indexes (ty : gmap string (gset Z))
    (out inc : gmap (Z * string) (gset Z)) (out_any inc_any : gmap Z (gset Z))
    (s : GraphStore) : GraphStore :=
  {| next_node_id := next_node_id s; next_rel_id := next_rel_id s; nodes := nodes s;
     rels := rels s; nodes_by_label := nodes_by_label s; node_props := node_props s;
     node_props_any := node_props_any s; node_props_dirty := node_props_dirty s;
     rels_by_type := ty; outgoing := out; incoming := inc;
     outgoing_any := out_any; incoming_any := inc_any |}.
Definition set_next_ids (nn nr : Z) (s : GraphStore) : GraphStore :=
  {| next_node_id := nn; next_rel_id := nr; nodes := nodes s;
     rels := rels s; nodes_by_label := nodes_by_label s; node_props := node_props s;
     node_props_any := node_props_any s; node_props_dirty := node_props_dirty s;
     rels_by_type := rels_by_type s; outgoing := outgoing s; incoming := incoming s;
     outgoing_any := outgoing_any s; incoming_any := incoming_any s |}.

(** ** Index maintenance *)

Definition index_node_labels (node : StoredNode) (s : GraphStore) : GraphStore :=
  set_nodes_by_label
    (foldl (λ m label, idx_insert m label (sn_id node)) (nodes_by_label s)
           (sn_labels node)) s.

Definition index_node_props (node : StoredNode) (s : GraphStore) : GraphStore :=
  let any :=
    foldl (λ m '(key, value),
             match ValueKey_from_value value with
             | Some value_key => idx_insert m (key, value_key) (sn_id node)
             | None => m
             end) (node_props_any s) (bt_iter (sn_props node)) in
  let scoped :=
    foldl (λ m label,
             foldl (λ m '(key, value),
                      match ValueKey_from_value value with
                      | Some value_key =>
                          idx_insert m (label, key, value_key) (sn_id node)
                      | None => m
                      end) m (bt_iter (sn_props node)))
          (node_props s) (sn_labels node) in
  set_property_cache scoped any (node_props_dirty s) s.

Definition deindex_node (node : StoredNode) (s : GraphStore) : GraphStore :=
  let '(by_label, scoped) :=
    foldl (λ '(by_label, scoped) label,
             (remove_index_entry by_label label (sn_id node),
              foldl (λ m '(key, value),
                       match ValueKey_from_value value with
                       | Some value_key =>
                           remove_index_entry m (label, key, value_key) (sn_id node)
                       | None => m
                       end) scoped (bt_iter (sn_props node))))
          (nodes_by_label s, node_props s) (sn_labels node) in
  let any :=
    foldl (λ m '(key, value),
             match ValueKey_from_value value with
             | Some value_key => remove_index_entry m (key, value_key) (sn_id node)
             | None => m
             end) (node_props_any s) (bt_iter (sn_props node)) in
  set_nodes_by_label by_label (set_property_cache scoped any (node_props_dirty s) s).

Definition index_relationship (rel : StoredRel) (s : GraphStore) : GraphStore :=
  set_rel_indexes
    (idx_insert (rels_by_type s) (sr_rel_type rel) (sr_id rel))
    (idx_insert (outgoing s) (sr_from rel, sr_rel_type rel) (sr_id rel))
    (idx_insert (incoming s) (sr_to rel, sr_rel_type rel) (sr_id rel))
    (idx_insert (outgoing_any s) (sr_from rel) (sr_id rel))
    (idx_insert (incoming_any s) (sr_to rel) (sr_id rel)) s.

Definition deindex_relationship (rel : StoredRel) (s : GraphStore) : GraphStore :=
  set_rel_indexes
    (remove_index_entry (rels_by_type s) (sr_rel_type rel) (sr_id rel))
    (remove_index_entry (outgoing s) (sr_from rel, sr_rel_type rel) (sr_id rel))
    (remove_index_entry (incoming s) (sr_to rel, sr_rel_type rel) (sr_id rel))
    (remove_index_entry (outgoing_any s) (sr_from rel) (sr_id rel))
    (remove_index_entry (incoming_any s) (sr_to rel) (sr_id rel)) s.

(** ** Rebuilding the indexes *)

Definition clear_indexes (s : GraphStore) : GraphStore :=
  set_nodes_by_label ∅
    (set_property_cache ∅ ∅ (node_props_dirty s) (set_rel_indexes ∅ ∅ ∅ ∅ ∅ s)).

Definition rebuild_indexes (s : GraphStore) : GraphStore :=
  let s := clear_indexes s in
  let s := foldl (λ s node, index_node_props node (index_node_labels node s))
                 s (bt_values (nodes s)) in
  let s := foldl (λ s rel, index_relationship rel s) s (bt_values (rels s)) in
  set_dirty false s.

Definition rebuild_load_indexes (s : GraphStore) : GraphStore :=
  let s := clear_indexes s in
  let s := foldl (λ s node, index_node_labels node s) s (bt_values (nodes s)) in
  let s := foldl (λ s rel, index_relationship rel s) s (bt_values (rels s)) in
  set_dirty (negb (bool_decide (nodes s = ∅))) s.

Definition rebuild_node_property_index (s : GraphStore) : GraphStore :=
  let s := set_property_cache ∅ ∅ (node_props_dirty s) s in
  let s := foldl (λ s node, index_node_props node s) s (bt_values (nodes s)) in
  set_dirty false s.

(** ** Writes *)

Definition insert_node (id : Z) (node : StoredNode) (s : GraphStore)
    : option StoredNode * GraphStore :=
  let previous := nodes s !! id in
  let s := set_nodes (<[id := node]> (nodes s)) s in
  let s := match previous with Some p => deindex_node p s | None => s end in
  let s := index_node_labels node s in
  (previous, set_dirty true s).

Definition insert_node_deferred_property_index (id : Z) (node : StoredNode)
    (s : GraphStore) : option StoredNode * GraphStore :=
  let previous := nodes s !! id in
  let s := set_nodes (<[id := node]> (nodes s)) s in
  let s := match previous with Some p => deindex_node p s | None => s end in
  let s := index_node_labels node s in
  (previous, set_dirty true s).

Definition insert_relationship (id : Z) (rel : StoredRel) (s : GraphStore)
    : option StoredRel * GraphStore :=
  let previous := rels s !! id in
  let s := set_rels (<[id := rel]> (rels s)) s in
  let s := match previous with Some p => deindex_relationship p s | None => s end in
  (previous, index_relationship rel s).

Definition remove_relationship (id : Z) (s : GraphStore) : option StoredRel * GraphStore :=
  let removed := rels s !! id in
  let s := set_rels (delete id (rels s)) s in
  (removed, match removed with Some rel => deindex_relationship rel s | None => s end).

(** [rel.from == id || rel.to == id] *)
Definition rel_touches (id : Z) (rel : StoredRel) : bool :=
  (sr_from rel =? id)%Z || (sr_to rel =? id)%Z.

Definition remove_node (id : Z) (s : GraphStore) : option StoredNode * GraphStore :=
  let removed := nodes s !! id in
  let s := set_nodes (delete id (nodes s)) s in
  match removed with
  | Some node =>
      let s := set_dirty true (deindex_node node s) in
      let rel_ids := map sr_id (filter (λ rel, rel_touches id rel) (bt_values (rels s))) in
      (removed, foldl (λ s rel_id, (remove_relationship rel_id s).2) s rel_ids)
  | None => (None, s)
  end.

(** ** Reads *)

Definition outgoing_relationship_ids (from : Z) (rel_type : option string)
    (s : GraphStore) : list Z :=
  match rel_type with
  | Some rel_type => idx_ids (outgoing s) (from, rel_type)
  | None => idx_ids (outgoing_any s) from
  end.

Definition incoming_relationship_ids (to : Z) (rel_type : option string)
    (s : GraphStore) : list Z :=
  match rel_type with
  | Some rel_type => idx_ids (incoming s) (to, rel_type)
  | None => idx_ids (incoming_any s) to
  end.

Definition node_ids_by_label (label : string) (s : GraphStore) : list Z :=
  idx_ids (nodes_by_label s) label.

Definition relationship_ids_by_type (rel_type : string) (s : GraphStore) : list Z :=
  idx_ids (rels_by_type s) rel_type.

Definition refresh_property_index (s : GraphStore) : GraphStore :=
  if node_props_dirty s then rebuild_node_property_index s else s.

(** Property lookups take [&mut self]: they may rebuild the cache. *)
Definition node_ids_by_label_property (label key : string) (value : Value)
    (s : GraphStore) : list Z * GraphStore :=
  let s := refresh_property_index s in
  match ValueKey_from_value value with
  | None => ([], s)
  | Some value_key => (idx_ids (node_props s) (label, key, value_key), s)
  end.

Definition node_has_value (key : string) (value : Value) (node : StoredNode) : bool :=
  match sn_props node !! key with
  | Some node_value => value_eqb node_value value
  | None => false
  end.

Definition node_ids_by_property (key : string) (value : Value) (s : GraphStore)
    : list Z * GraphStore :=
  let s := refresh_property_index s in
  match ValueKey_from_value value with
  | None =>
      (map sn_id (filter (λ node, node_has_value key value node) (bt_values (nodes s))), s)
  | Some value_key => (idx_ids (node_props_any s) (key, value_key), s)
  end.

Definition property_value_is_indexable (value : Value) : bool :=
  bool_decide (is_Some (ValueKey_from_value value)).

Definition summary_counts_by_storage_type (s : GraphStore)
    : nat * nat * gmap string nat * gmap string nat :=
  (size (nodes s), size (rels s),
   (λ ids, size ids) <$> nodes_by_label s, (λ ids, size ids) <$> rels_by_type s).

(** ** The representation invariant *)

Definition has_label (s : GraphStore) (label : string) (id : Z) : Prop :=
  ∃ node, nodes s !! id = Some node ∧ label ∈ sn_labels node.
Definition has_prop_key (s : GraphStore) (k : string * ValueKey) (id : Z) : Prop :=
  ∃ node v, nodes s !! id = Some node ∧ sn_props node !! k.1 = Some v ∧
            ValueKey_from_value v = Some k.2.
Definition has_label_prop_key (s : GraphStore) (k : string * string * ValueKey)
    (id : Z) : Prop :=
  ∃ node v, nodes s !! id = Some node ∧ k.1.1 ∈ sn_labels node ∧
            sn_props node !! k.1.2 = Some v ∧ ValueKey_from_value v = Some k.2.
Definition rel_at {K} (s : GraphStore) (f : StoredRel → K) (k : K) (id : Z) : Prop :=
  ∃ rel, rels s !! id = Some rel ∧ f rel = k.

Record store_wf (s : GraphStore) : Prop := {
  wf_node_id id node : nodes s !! id = Some node → sn_id node = id;
  wf_rel_id id rel : rels s !! id = Some rel → sr_id rel = id;
  wf_label : idx_spec (nodes_by_label s) (has_label s);
  wf_props : node_props_dirty s = false → idx_spec (node_props s) (has_label_prop_key s);
  wf_props_any : node_props_dirty s = false → idx_spec (node_props_any s) (has_prop_key s);
  wf_type : idx_spec (rels_by_type s) (rel_at s sr_rel_type);
  wf_out : idx_spec (outgoing s) (rel_at s (λ r, (sr_from r, sr_rel_type r)));
  wf_in : idx_spec (incoming s) (rel_at s (λ r, (sr_to r, sr_rel_type r)));
  wf_out_any : idx_spec (outgoing_any s) (rel_at s sr_from);
  wf_in_any : idx_spec (incoming_any s) (rel_at s sr_to);
}.

(** What a store denotes: its graph and its counters; the indexes are derived. *)
Definition same_graph (s t : GraphStore) : Prop :=
  nodes s = nodes t ∧ rels s = rels t ∧
  next_node_id s = next_node_id t ∧ next_rel_id s = next_rel_id t.

(** Every relationship has both its ends in the store. *)
Definition no_dangling (s : GraphStore) : Prop :=
  ∀ id rel, rels s !! id = Some rel →
    is_Some (nodes s !! sr_from rel) ∧ is_Some (nodes s !! sr_to rel).

End store.

(** ** The keys a node is indexed under *)

Section keys.
Context `{SerdeNumber}.

Definition value_keys (props : list (string * Value)) : list (string * ValueKey) :=
  omap (λ e, pair e.1 <$> ValueKey_from_value e.2) props.

Definition any_keys (node : StoredNode) : list (string * ValueKey) :=
  value_keys (bt_iter (sn_props node)).

Definition scoped_keys (node : StoredNode) : list (string * string * ValueKey) :=
  concat (map (λ label, map (λ k, (label, k.1, k.2)) (any_keys node)) (sn_labels node)).

Lemma elem_of_any_keys node k vk :
  (k, vk) ∈ any_keys node ↔
  ∃ v, sn_props node !! k = Some v ∧ ValueKey_from_value v = Some vk.
Proof.
  unfold any_keys, value_keys. rewrite list_elem_of_omap. split.
  - intros ([k' v] & Hin & Hv). cbn in Hv. apply elem_of_bt_iter in Hin.
    destruct (ValueKey_from_value v) eqn:Hvk; cbn in Hv; simplify_eq. eauto.
  - intros (v & Hin & Hv). exists (k, v). rewrite elem_of_bt_iter. split; [done|].
    cbn. by rewrite Hv.
Qed.

Lemma elem_of_scoped_keys node l k vk :
  (l, k, vk) ∈ scoped_keys node ↔ l ∈ sn_labels node ∧ (k, vk) ∈ any_keys node.
Proof.
  unfold scoped_keys. rewrite list_elem_of_In, in_concat. split.
  - intros (ks & (l' & <- & Hl')%in_map_iff & ([k' vk'] & [= -> -> ->] & Hk)%in_map_iff).
    by rewrite !list_elem_of_In.
  - rewrite !list_elem_of_In. intros [Hl Hk]. eexists. split.
    + by apply (in_map (λ label, map (λ k, (label, k.1, k.2)) (any_keys node))).
    + by apply (in_map (λ k, (l, k.1, k.2)) _ (k, vk)).
Qed.

(** The loops over [node.props] are loops over the keys. *)
Lemma foldl_value_keys {S} (op : S → string * ValueKey → S) props m :
  foldl (λ m '(key, value),
           match ValueKey_from_value value with
           | Some value_key => op m (key, value_key)
           | None => m
           end) m props
  = foldl op m (value_keys props).
Proof.
  revert m. induction props as [|[k v] props IH]; intros m; cbn; [done|].
  by destruct (ValueKey_from_value v); cbn.
Qed.

Lemma foldl_scoped_keys {S} (op : S → string * string * ValueKey → S) node m :
  foldl (λ m label,
           foldl (λ m '(key, value),
                    match ValueKey_from_value value with
                    | Some value_key => op m (label, key, value_key)
                    | None => m
                    end) m (bt_iter (sn_props node))) m (sn_labels node)
  = foldl op m (scoped_keys node).
Proof.
  assert (∀ l ks m, foldl (λ m k, op m (l, k.1, k.2)) m ks
                    = foldl op m (map (λ k, (l, k.1, k.2)) ks)) as Hmap.
  { intros l ks. induction ks as [|k ks IH]; intros m'; cbn; [done|apply IH]. }
  unfold scoped_keys. rewrite <-foldl_concat. revert m.
  induction (sn_labels node) as [|l ls IH]; intros m; cbn; [done|].
  rewrite (foldl_value_keys (λ m k, op m (l, k.1, k.2))), Hmap. apply IH.
Qed.

(** *** What each loop does to each index *)

Lemma index_node_labels_eq node s :
  index_node_labels node s =
  set_nodes_by_label (idx_insert_all (nodes_by_label s) (sn_labels node) (sn_id node)) s.
Proof. done. Qed.

Lemma index_node_props_eq node s :
  index_node_props node s =
  set_property_cache (idx_insert_all (node_props s) (scoped_keys node) (sn_id node))
    (idx_insert_all (node_props_any s) (any_keys node) (sn_id node))
    (node_props_dirty s) s.
Proof.
  unfold index_node_props, idx_insert_all. f_equal.
  - by rewrite (foldl_scoped_keys (λ m k, idx_insert m k (sn_id node))).
  - by rewrite (foldl_value_keys (λ m k, idx_insert m k (sn_id node))).
Qed.

Lemma deindex_node_eq node s :
  deindex_node node s =
  set_nodes_by_label (idx_remove_all (nodes_by_label s) (sn_labels node) (sn_id node))
    (set_property_cache (idx_remove_all (node_props s) (scoped_keys node) (sn_id node))
      (idx_remove_all (node_props_any s) (any_keys node) (sn_id node))
      (node_props_dirty s) s).
Proof.
  unfold deindex_node, idx_remove_all.
  rewrite (foldl_value_keys (λ m k, remove_index_entry m k (sn_id node))).
  rewrite <-(foldl_scoped_keys (λ m k, remove_index_entry m k (sn_id node))).
  generalize (nodes_by_label s) (node_props s).
  induction (sn_labels node) as [|l ls IH]; intros m1 m2; [done|]. cbn. apply IH.
Qed.
End keys.

(** ** The invariant: every operation preserves it *)

Section wf.
Context `{SerdeNumber}.
Implicit Types (s t : GraphStore) (node : StoredNode) (rel : StoredRel).

#[global] Instance same_graph_equiv : Equivalence same_graph.
Proof. unfold same_graph. split; [done| |]; red; naive_solver congruence. Qed.

Lemma has_label_ext s t l i : nodes s = nodes t → has_label s l i ↔ has_label t l i.
Proof. unfold has_label. by intros ->. Qed.
Lemma has_prop_key_ext s t k i :
  nodes s = nodes t → has_prop_key s k i ↔ has_prop_key t k i.
Proof. unfold has_prop_key. by intros ->. Qed.
Lemma has_label_prop_key_ext s t k i :
  nodes s = nodes t → has_label_prop_key s k i ↔ has_label_prop_key t k i.
Proof. unfold has_label_prop_key. by intros ->. Qed.
Lemma rel_at_ext {K} s t (f : StoredRel → K) k i :
  rels s = rels t → rel_at s f k i ↔ rel_at t f k i.
Proof. unfold rel_at. by intros ->. Qed.

Lemma default_wf : store_wf GraphStore_default.
Proof.
  split; cbn; try done; intros; (eapply idx_spec_iff; [apply idx_spec_empty|]);
    intros k i; split; try done; unfold has_label, has_prop_key, has_label_prop_key, rel_at;
    cbn; setoid_rewrite lookup_empty; naive_solver.
Qed.

(** The facts about relationship indexes come in fives. *)
Record rel_indexes_ok s (P : StoredRel → Z → Prop) : Prop := {
  rio_type : idx_spec (rels_by_type s) (λ k i, ∃ r, P r i ∧ sr_rel_type r = k);
  rio_out : idx_spec (outgoing s) (λ k i, ∃ r, P r i ∧ (sr_from r, sr_rel_type r) = k);
  rio_in : idx_spec (incoming s) (λ k i, ∃ r, P r i ∧ (sr_to r, sr_rel_type r) = k);
  rio_out_any : idx_spec (outgoing_any s) (λ k i, ∃ r, P r i ∧ sr_from r = k);
  rio_in_any : idx_spec (incoming_any s) (λ k i, ∃ r, P r i ∧ sr_to r = k);
}.

Lemma rel_indexes_iff s P Q :
  (∀ r i, P r i ↔ Q r i) → rel_indexes_ok s P → rel_indexes_ok s Q.
Proof.
  intros HPQ [H1 H2 H3 H4 H5].
  split; (eapply idx_spec_iff; [eassumption|]); cbn; intros; by setoid_rewrite HPQ.
Qed.

Lemma rel_indexes_empty s :
  rels_by_type s = ∅ → outgoing s = ∅ → incoming s = ∅ →
  outgoing_any s = ∅ → incoming_any s = ∅ → rel_indexes_ok s (λ _ _, False).
Proof.
  intros H1 H2 H3 H4 H5.
  split; rewrite ?H1, ?H2, ?H3, ?H4, ?H5;
    (eapply idx_spec_iff; [apply idx_spec_empty|]); naive_solver.
Qed.

Lemma index_relationship_ok s P rel :
  rel_indexes_ok s P →
  rel_indexes_ok (index_relationship rel s) (λ r i, (r = rel ∧ i = sr_id rel) ∨ P r i).
Proof.
  intros [H1 H2 H3 H4 H5].
  split; cbn; (eapply idx_spec_iff; [apply idx_spec_insert; eassumption|]);
    cbn; naive_solver.
Qed.

(** Removing an entry is exact when [rel] is the only relationship of its id. *)
Lemma deindex_relationship_ok s P rel :
  (∀ r, P r (sr_id rel) → r = rel) →
  rel_indexes_ok s P →
  rel_indexes_ok (deindex_relationship rel s) (λ r i, P r i ∧ i ≠ sr_id rel).
Proof.
  intros Huniq [H1 H2 H3 H4 H5].
  split; cbn; (eapply idx_spec_iff; [apply idx_spec_remove; eassumption|]);
    cbn; intros k i; (destruct (decide (i = sr_id rel)) as [->|]; [|naive_solver]);
    (split; [|naive_solver]); intros [(r & Hr & Hk) Hn]; destruct Hn;
    rewrite (Huniq r Hr) in Hk; done.
Qed.

Lemma wf_rel_indexes s :
  store_wf s → rel_indexes_ok s (λ r i, rels s !! i = Some r).
Proof. intros Hwf. by destruct Hwf. Qed.

(** Assembling [store_wf] from its groups. *)
Lemma store_wf_intro s :
  (∀ id node, nodes s !! id = Some node → sn_id node = id) →
  (∀ id rel, rels s !! id = Some rel → sr_id rel = id) →
  idx_spec (nodes_by_label s) (has_label s) →
  (node_props_dirty s = false →
    idx_spec (node_props s) (has_label_prop_key s) ∧
    idx_spec (node_props_any s) (has_prop_key s)) →
  rel_indexes_ok s (λ r i, rels s !! i = Some r) →
  store_wf s.
Proof. intros ??? Hp []. split; try done; intros; by apply Hp. Qed.

(** [t] has the node side of [s]. *)
Definition same_node_side s t : Prop :=
  nodes t = nodes s ∧ next_node_id t = next_node_id s ∧
  next_rel_id t = next_rel_id s ∧ nodes_by_label t = nodes_by_label s ∧
  node_props t = node_props s ∧ node_props_any t = node_props_any s ∧
  node_props_dirty t = node_props_dirty s.

Lemma store_wf_node_side s t :
  same_node_side s t → store_wf s →
  (∀ id rel, rels t !! id = Some rel → sr_id rel = id) →
  rel_indexes_ok t (λ r i, rels t !! i = Some r) → store_wf t.
Proof.
  intros (Hn & _ & _ & Hl & Hp & Hpa & Hd) Hwf Hr Hok. apply store_wf_intro; [|done| |..|done].
  - rewrite Hn. apply (wf_node_id _ Hwf).
  - rewrite Hl. eapply idx_spec_iff; [apply (wf_label _ Hwf)|].
    intros; by apply has_label_ext.
  - rewrite Hp, Hpa, Hd. intros Hdirty. split.
    + eapply idx_spec_iff; [by apply (wf_props _ Hwf)|].
      intros; by apply has_label_prop_key_ext.
    + eapply idx_spec_iff; [by apply (wf_props_any _ Hwf)|].
      intros; by apply has_prop_key_ext.
Qed.

(** *** Relationship writes *)

Lemma remove_relationship_frame id s :
  same_node_side s (remove_relationship id s).2 ∧
  rels (remove_relationship id s).2 = delete id (rels s).
Proof. unfold remove_relationship. by destruct (rels s !! id). Qed.

Lemma remove_relationship_wf id s :
  store_wf s → store_wf (remove_relationship id s).2.
Proof.
  intros Hwf. pose proof (remove_relationship_frame id s) as [Hside Hr].
  apply (store_wf_node_side s); [done|done| |]; rewrite Hr.
  - intros i r [_ Hi]%lookup_delete_Some. by apply (wf_rel_id _ Hwf).
  - pose proof (wf_rel_indexes s Hwf) as Hok.
    unfold remove_relationship. destruct (rels s !! id) as [rel|] eqn:Hid; cbn [snd].
    + assert (sr_id rel = id) as Hrid by by apply (wf_rel_id _ Hwf).
      eapply rel_indexes_iff; [|apply (deindex_relationship_ok (set_rels (delete id (rels s)) s)
        (λ r i, rels s !! i = Some r))].
      * intros r i. cbn. rewrite Hrid, lookup_delete_Some. naive_solver.
      * rewrite Hrid. naive_solver.
      * by destruct Hok.
    + rewrite delete_id by done. by destruct Hok.
Qed.

Lemma insert_relationship_frame id rel s :
  same_node_side s (insert_relationship id rel s).2 ∧
  rels (insert_relationship id rel s).2 = <[id := rel]> (rels s).
Proof. unfold insert_relationship. by destruct (rels s !! id). Qed.

Lemma insert_relationship_wf id rel s :
  sr_id rel = id → store_wf s → store_wf (insert_relationship id rel s).2.
Proof.
  intros Hid Hwf. pose proof (insert_relationship_frame id rel s) as [Hside Hr].
  apply (store_wf_node_side s); [done|done| |]; rewrite Hr.
  - intros i r [[<- <-]|[_ Hi]]%lookup_insert_Some; [done|].
    by apply (wf_rel_id _ Hwf).
  - pose proof (wf_rel_indexes s Hwf) as Hok.
    assert (Hold : rel_indexes_ok
      match rels s !! id with
      | Some p => deindex_relationship p (set_rels (<[id := rel]> (rels s)) s)
      | None => set_rels (<[id := rel]> (rels s)) s
      end (λ r i, rels s !! i = Some r ∧ i ≠ id)).
    { destruct (rels s !! id) as [p|] eqn:Hp'.
      - assert (sr_id p = id) as Hpid by by apply (wf_rel_id _ Hwf).
        eapply rel_indexes_iff; [|apply (deindex_relationship_ok _
          (λ r i, rels s !! i = Some r)); [|by destruct Hok]]; cbn; rewrite Hpid;
          naive_solver.
      - apply (rel_indexes_iff _ (λ r i, rels s !! i = Some r)); [|by destruct Hok].
        naive_solver congruence. }
    unfold insert_relationship. cbn [snd].
    eapply rel_indexes_iff; [|by apply index_relationship_ok].
    intros r i. cbn. rewrite lookup_insert_Some, Hid. naive_solver.
Qed.

(** *** Node writes *)

Lemma deindex_old_node_label s id node p :
  store_wf s → sn_id node = id → nodes s !! id = p →
  idx_spec
    (idx_insert_all
       (match p with
        | Some p => idx_remove_all (nodes_by_label s) (sn_labels p) (sn_id p)
        | None => nodes_by_label s
        end) (sn_labels node) id)
    (λ l i, ∃ n, <[id := node]> (nodes s) !! i = Some n ∧ l ∈ sn_labels n).
Proof.
  intros Hwf Hid Hp. destruct p as [p|].
  - assert (sn_id p = id) as Hpid by by apply (wf_node_id _ Hwf).
    eapply idx_spec_iff; [apply idx_spec_insert_all, idx_spec_remove_all, (wf_label _ Hwf)|].
    intros l i. cbn. unfold has_label. setoid_rewrite lookup_insert_Some.
    destruct (decide (i = id)) as [->|Hi]; naive_solver.
  - eapply idx_spec_iff; [apply idx_spec_insert_all, (wf_label _ Hwf)|].
    intros l i. cbn. unfold has_label. setoid_rewrite lookup_insert_Some.
    destruct (decide (i = id)) as [->|Hi]; naive_solver.
Qed.

Lemma insert_node_fields id node s :
  let t := (insert_node id node s).2 in
  nodes t = <[id := node]> (nodes s) ∧ rels t = rels s ∧
  next_node_id t = next_node_id s ∧ next_rel_id t = next_rel_id s ∧
  node_props_dirty t = true ∧
  nodes_by_label t =
    idx_insert_all
      match nodes s !! id with
      | Some p => idx_remove_all (nodes_by_label s) (sn_labels p) (sn_id p)
      | None => nodes_by_label s
      end (sn_labels node) (sn_id node) ∧
  (∀ P, rel_indexes_ok s P → rel_indexes_ok t P).
Proof.
  unfold insert_node. cbn [snd].
  destruct (nodes s !! id) as [p|]; [rewrite deindex_node_eq|];
    rewrite index_node_labels_eq; split_and!; try done; by intros P [].
Qed.

Lemma insert_node_wf id node s :
  sn_id node = id → store_wf s → store_wf (insert_node id node s).2.
Proof.
  intros Hid Hwf. pose proof (insert_node_fields id node s) as
    (Hn & Hr & _ & _ & Hd & Hl & Hok).
  apply store_wf_intro.
  - rewrite Hn. intros i n [[<- <-]|[_ Hi]]%lookup_insert_Some; [done|].
    by apply (wf_node_id _ Hwf).
  - rewrite Hr. apply (wf_rel_id _ Hwf).
  - rewrite Hl, Hid. eapply idx_spec_iff; [by eapply deindex_old_node_label|].
    intros l i. unfold has_label. by rewrite Hn.
  - by rewrite Hd.
  - rewrite Hr. apply Hok, wf_rel_indexes, Hwf.
Qed.

Lemma foldl_remove_relationship ids s :
  store_wf s →
  let t := foldl (λ s id, (remove_relationship id s).2) s ids in
  store_wf t ∧ same_node_side s t ∧
  ∀ i, rels t !! i = if decide (i ∈ ids) then None else rels s !! i.
Proof.
  revert s. induction ids as [|id ids IH]; intros s Hwf; cbn.
  - split_and!; [done|done|]. intros i. by rewrite decide_False by apply not_elem_of_nil.
  - destruct (remove_relationship_frame id s) as [Hside Hrels].
    destruct (IH _ (remove_relationship_wf id s Hwf)) as (Hwf' & Hside' & Hrels').
    split_and!; [done| |].
    + unfold same_node_side in *. naive_solver congruence.
    + intros i. rewrite Hrels', Hrels.
      destruct (decide (i = id)) as [->|Hi].
      * rewrite lookup_delete_eq. rewrite (decide_True _ _ (list_elem_of_here _ _)).
        by case_decide.
      * rewrite lookup_delete_ne by done.
        destruct (decide (i ∈ ids)) as [Hin|Hin].
        -- by rewrite decide_True by (by right).
        -- by rewrite decide_False by (intros [?|?]%elem_of_cons; done).
Qed.

Lemma remove_node_base_wf id s node :
  store_wf s → nodes s !! id = Some node →
  store_wf (set_dirty true (deindex_node node (set_nodes (delete id (nodes s)) s))).
Proof.
  intros Hwf Hid. assert (sn_id node = id) as Hnid by by apply (wf_node_id _ Hwf).
  rewrite deindex_node_eq. apply store_wf_intro; cbn; try done.
  - intros i n [_ Hi]%lookup_delete_Some. by apply (wf_node_id _ Hwf).
  - apply (wf_rel_id _ Hwf).
  - eapply idx_spec_iff; [apply idx_spec_remove_all, (wf_label _ Hwf)|].
    intros l i. unfold has_label. cbn. setoid_rewrite lookup_delete_Some.
    destruct (decide (i = id)) as [->|Hi]; naive_solver.
  - destruct (wf_rel_indexes s Hwf). by split.
Qed.

Lemma set_nodes_absent id s :
  nodes s !! id = None → set_nodes (delete id (nodes s)) s = s.
Proof. intros Hid. rewrite delete_id by done. by destruct s. Qed.

Definition touching_ids id s : list Z :=
  map sr_id (filter (λ rel, rel_touches id rel) (bt_values (rels s))).

Lemma elem_of_touching_ids id s i :
  store_wf s →
  i ∈ touching_ids id s ↔ ∃ r, rels s !! i = Some r ∧ rel_touches id r = true.
Proof.
  intros Hwf. unfold touching_ids. rewrite list_elem_of_fmap. split.
  - intros (r & -> & [Ht Hr]%list_elem_of_filter). rewrite elem_of_bt_values in Hr.
    destruct Hr as [k Hr]. rewrite (wf_rel_id _ Hwf _ _ Hr). eauto using Is_true_true_1.
  - intros (r & Hr & Ht). exists r. split; [by rewrite (wf_rel_id _ Hwf _ _ Hr)|].
    apply list_elem_of_filter. rewrite elem_of_bt_values. eauto using Is_true_true_2.
Qed.

(** What [remove_node] leaves: the node and every relationship touching it
    are gone, nothing else is. *)
Lemma remove_node_effect id s :
  store_wf s →
  let t := (remove_node id s).2 in
  store_wf t ∧ nodes t = delete id (nodes s) ∧
  next_node_id t = next_node_id s ∧ next_rel_id t = next_rel_id s ∧
  rels t = match nodes s !! id with
           | Some _ => filter (λ e, rel_touches id e.2 = false) (rels s)
           | None => rels s
           end.
Proof.
  intros Hwf. unfold remove_node. destruct (nodes s !! id) as [node|] eqn:Hid.
  - cbn [snd]. pose proof (remove_node_base_wf id s node Hwf Hid) as Hwf1.
    revert Hwf1. set (s1 := set_dirty _ _). intros Hwf1.
    assert (nodes s1 = delete id (nodes s) ∧ rels s1 = rels s ∧
            next_node_id s1 = next_node_id s ∧ next_rel_id s1 = next_rel_id s)
      as (Hn1 & Hr1 & Hnn1 & Hnr1) by (by unfold s1; rewrite deindex_node_eq).
    change (map sr_id _) with (touching_ids id s1).
    destruct (foldl_remove_relationship (touching_ids id s1) s1 Hwf1) as (Hwf2 & Hside & Hrels).
    destruct Hside as (Hn2 & Hnn2 & Hnr2 & _).
    split_and!; [done|congruence..|].
    apply map_eq; intros i. rewrite Hrels, Hr1.
    pose proof (elem_of_touching_ids id s1 i Hwf1) as Hin. rewrite Hr1 in Hin.
    case_decide as Hi.
    + apply Hin in Hi as (r & Hr & Ht). symmetry. apply map_lookup_filter_None.
      right. intros r' Hr'. cbn. congruence.
    + destruct (rels s !! i) as [r|] eqn:Hr; symmetry.
      * apply map_lookup_filter_Some. split; [done|]. cbn.
        destruct (rel_touches id r) eqn:Ht; [|done]. destruct Hi. apply Hin. eauto.
      * apply map_lookup_filter_None. by left.
  - cbn [snd]. rewrite set_nodes_absent by done. split_and!; try done.
    by rewrite delete_id.
Qed.

(** *** Rebuilding *)

Definition ids_match s : Prop :=
  (∀ id node, nodes s !! id = Some node → sn_id node = id) ∧
  (∀ id rel, rels s !! id = Some rel → sr_id rel = id).

(** Looping over the values of a map keyed by id visits each entry. *)
Lemma bt_values_keyed {V} (m : gmap Z V) (f : V → Z) (Q : V → Prop) i :
  (∀ id v, m !! id = Some v → f v = id) →
  (∃ v, v ∈ bt_values m ∧ Q v ∧ i = f v) ↔ ∃ v, m !! i = Some v ∧ Q v.
Proof.
  intros Hf. split.
  - intros (v & [k Hk]%elem_of_bt_values & HQ & ->). rewrite (Hf _ _ Hk). eauto.
  - intros (v & Hv & HQ). exists v. rewrite elem_of_bt_values, (Hf _ _ Hv). eauto.
Qed.

Definition index_node node s := index_node_props node (index_node_labels node s).

Lemma foldl_index_rels l s P :
  rel_indexes_ok s P →
  rel_indexes_ok (foldl (λ s rel, index_relationship rel s) s l)
    (λ r i, (r ∈ l ∧ i = sr_id r) ∨ P r i).
Proof.
  revert s P. induction l as [|r l IH]; intros s P HP; cbn.
  - eapply rel_indexes_iff; [|done]. set_solver.
  - eapply rel_indexes_iff; [|by eapply IH, index_relationship_ok]. set_solver.
Qed.

Lemma rebuild_rels_ok s t :
  ids_match s → rel_indexes_ok t (λ _ _, False) →
  rel_indexes_ok (foldl (λ s rel, index_relationship rel s) t (bt_values (rels s)))
    (λ r i, rels s !! i = Some r).
Proof.
  intros [_ Hids] Ht. eapply rel_indexes_iff; [|by apply foldl_index_rels].
  intros r i. cbn. pose proof (bt_values_keyed (rels s) sr_id (λ r', r' = r) i Hids) as Hk.
  naive_solver.
Qed.

Lemma foldl_labels_ok (f : GraphStore → StoredNode → GraphStore) s t :
  ids_match s →
  (∀ t n, nodes_by_label (f t n) = idx_insert_all (nodes_by_label t) (sn_labels n) (sn_id n)) →
  nodes_by_label t = ∅ →
  idx_spec (nodes_by_label (foldl f t (bt_values (nodes s)))) (has_label s).
Proof.
  intros [Hids _] Hf Ht.
  rewrite (foldl_field nodes_by_label f
    (λ m n, idx_insert_all m (sn_labels n) (sn_id n)) _ _ Hf), Ht.
  eapply idx_spec_iff; [apply idx_spec_insert_items, idx_spec_empty|].
  intros l i. pose proof (bt_values_keyed (nodes s) sn_id (λ n, l ∈ sn_labels n) i Hids).
  unfold has_label. naive_solver.
Qed.

Lemma foldl_props_ok (f : GraphStore → StoredNode → GraphStore) s t :
  ids_match s →
  (∀ t n, node_props (f t n) = idx_insert_all (node_props t) (scoped_keys n) (sn_id n)) →
  (∀ t n, node_props_any (f t n) = idx_insert_all (node_props_any t) (any_keys n) (sn_id n)) →
  node_props t = ∅ → node_props_any t = ∅ →
  idx_spec (node_props (foldl f t (bt_values (nodes s)))) (has_label_prop_key s) ∧
  idx_spec (node_props_any (foldl f t (bt_values (nodes s)))) (has_prop_key s).
Proof.
  intros [Hids _] Hf Hfa Ht Hta.
  rewrite (foldl_field node_props f
    (λ m n, idx_insert_all m (scoped_keys n) (sn_id n)) _ _ Hf), Ht.
  rewrite (foldl_field node_props_any f
    (λ m n, idx_insert_all m (any_keys n) (sn_id n)) _ _ Hfa), Hta. split.
  - eapply idx_spec_iff; [apply idx_spec_insert_items, idx_spec_empty|].
    intros [[l k] vk] i.
    pose proof (bt_values_keyed (nodes s) sn_id (λ n, (l, k, vk) ∈ scoped_keys n) i Hids) as Hk.
    setoid_rewrite elem_of_scoped_keys in Hk. setoid_rewrite elem_of_scoped_keys.
    setoid_rewrite elem_of_any_keys in Hk. setoid_rewrite elem_of_any_keys.
    unfold has_label_prop_key. cbn. naive_solver.
  - eapply idx_spec_iff; [apply idx_spec_insert_items, idx_spec_empty|].
    intros [k vk] i.
    pose proof (bt_values_keyed (nodes s) sn_id (λ n, (k, vk) ∈ any_keys n) i Hids) as Hk.
    setoid_rewrite elem_of_any_keys in Hk. setoid_rewrite elem_of_any_keys.
    unfold has_prop_key. cbn. naive_solver.
Qed.

(** The fields node indexing leaves alone, and those relationship indexing does. *)
Definition graph_part s := (nodes s, rels s, next_node_id s, next_rel_id s).
Definition rel_part s :=
  (rels_by_type s, outgoing s, incoming s, outgoing_any s, incoming_any s).
Definition node_part s :=
  (nodes_by_label s, node_props s, node_props_any s, node_props_dirty s).

Lemma same_graph_part s t : graph_part s = graph_part t ↔ same_graph s t.
Proof. unfold graph_part, same_graph. split; [|naive_solver congruence]. by intros [=]. Qed.

Lemma foldl_rels_frame l s :
  let t := foldl (λ s rel, index_relationship rel s) s l in
  graph_part t = graph_part s ∧ node_part t = node_part s.
Proof. split; by apply foldl_frame. Qed.

Lemma foldl_node_labels_frame l s :
  let t := foldl (λ s node, index_node_labels node s) s l in
  graph_part t = graph_part s ∧ rel_part t = rel_part s.
Proof. split; by apply foldl_frame. Qed.

Lemma foldl_index_node_frame l s :
  let t := foldl (λ s node, index_node_props node (index_node_labels node s)) s l in
  graph_part t = graph_part s ∧ rel_part t = rel_part s.
Proof. split; by apply foldl_frame. Qed.

Lemma foldl_node_props_frame l s :
  let t := foldl (λ s node, index_node_props node s) s l in
  graph_part t = graph_part s ∧ rel_part t = rel_part s ∧
  nodes_by_label t = nodes_by_label s ∧ node_props_dirty t = node_props_dirty s.
Proof. split_and!; by apply foldl_frame. Qed.

Lemma ids_match_ext s t : graph_part s = graph_part t → ids_match s → ids_match t.
Proof. unfold graph_part, ids_match. by intros [= -> -> _ _]. Qed.

Lemma wf_ids_match s : store_wf s → ids_match s.
Proof. intros []. by split. Qed.

Lemma rel_indexes_ext s t P :
  rel_part s = rel_part t → rel_indexes_ok s P → rel_indexes_ok t P.
Proof. unfold rel_part. intros [=] []. split; congruence. Qed.

Lemma rebuild_indexes_wf s :
  ids_match s → store_wf (rebuild_indexes s) ∧ same_graph s (rebuild_indexes s).
Proof.
  intros Hids. unfold rebuild_indexes.
  set (s0 := clear_indexes s). set (s1 := foldl _ s0 _).
  destruct (foldl_index_node_frame (bt_values (nodes s0)) s0) as [Hg1 Hr1].
  fold s1 in Hg1, Hr1. set (s2 := foldl _ s1 _).
  destruct (foldl_rels_frame (bt_values (rels s1)) s1) as [Hg2 Hn2].
  fold s2 in Hg2, Hn2.
  assert (graph_part s = graph_part s2) as Hg by (by rewrite Hg2, Hg1).
  assert (ids_match s2) as Hids2 by by eapply ids_match_ext.
  assert (rels s1 = rels s ∧ nodes s2 = nodes s ∧ rels s2 = rels s) as (Hr1' & Hn2' & Hr2')
    by (unfold graph_part in *; naive_solver congruence).
  pose proof (foldl_labels_ok (λ t n, index_node_props n (index_node_labels n t)) s s0 Hids)
    as Hl. pose proof (foldl_props_ok (λ t n, index_node_props n (index_node_labels n t))
      s s0 Hids) as Hp.
  change (bt_values (nodes s)) with (bt_values (nodes s0)) in Hl, Hp. fold s1 in Hl, Hp.
  injection Hn2 as Hnl Hnp Hnpa _.
  split; [|by apply same_graph_part].
  apply store_wf_intro; cbn; [apply Hids2..| | |].
  - rewrite Hnl. eapply idx_spec_iff; [apply Hl|];
      [intros; by rewrite index_node_props_eq|done|]. intros; by apply has_label_ext.
  - intros _. rewrite Hnp, Hnpa. destruct Hp as [Hp Hpa];
      try (intros; by rewrite index_node_props_eq); [done..|].
    split; eapply idx_spec_iff; try done; intros;
      [by apply has_label_prop_key_ext|by apply has_prop_key_ext].
  - eapply rel_indexes_ext, rel_indexes_iff; [| |apply (rebuild_rels_ok s s1 Hids)].
    + unfold s2. by rewrite Hr1'.
    + intros. by rewrite Hr2'.
    + eapply rel_indexes_ext; [symmetry; exact Hr1|]. by apply rel_indexes_empty.
Qed.

Lemma rebuild_load_indexes_wf s :
  ids_match s → store_wf (rebuild_load_indexes s) ∧ same_graph s (rebuild_load_indexes s).
Proof.
  intros Hids. unfold rebuild_load_indexes.
  set (s0 := clear_indexes s). set (s1 := foldl _ s0 _).
  destruct (foldl_node_labels_frame (bt_values (nodes s0)) s0) as [Hg1 Hr1].
  pose proof (foldl_frame node_props (λ s node, index_node_labels node s)
    (bt_values (nodes s0)) s0 ltac:(done)) as Hp1.
  pose proof (foldl_frame node_props_any (λ s node, index_node_labels node s)
    (bt_values (nodes s0)) s0 ltac:(done)) as Hpa1.
  fold s1 in Hg1, Hr1, Hp1, Hpa1. set (s2 := foldl _ s1 _).
  destruct (foldl_rels_frame (bt_values (rels s1)) s1) as [Hg2 Hn2].
  fold s2 in Hg2, Hn2.
  assert (graph_part s = graph_part s2) as Hg by (by rewrite Hg2, Hg1).
  assert (ids_match s2) as Hids2 by by eapply ids_match_ext.
  assert (rels s1 = rels s ∧ nodes s2 = nodes s ∧ rels s2 = rels s) as (Hr1' & Hn2' & Hr2')
    by (unfold graph_part in *; naive_solver congruence).
  pose proof (foldl_labels_ok (λ t n, index_node_labels n t) s s0 Hids
    ltac:(done) ltac:(done)) as Hl.
  change (bt_values (nodes s)) with (bt_values (nodes s0)) in Hl. fold s1 in Hl.
  injection Hn2 as Hnl Hnp Hnpa _.
  split; [|by apply same_graph_part].
  apply store_wf_intro; cbn; [apply Hids2..| | |].
  - rewrite Hnl. eapply idx_spec_iff; [exact Hl|]. intros; by apply has_label_ext.
  - rewrite negb_false_iff, bool_decide_eq_true, Hn2', Hnp, Hnpa, Hp1, Hpa1. intros Hemp.
    split; (eapply idx_spec_iff; [apply idx_spec_empty|]); intros k i; cbn;
      unfold has_label_prop_key, has_prop_key; cbn; rewrite Hn2', Hemp;
      setoid_rewrite lookup_empty; naive_solver.
  - eapply rel_indexes_ext, rel_indexes_iff; [| |apply (rebuild_rels_ok s s1 Hids)].
    + unfold s2. by rewrite Hr1'.
    + intros. by rewrite Hr2'.
    + eapply rel_indexes_ext; [symmetry; exact Hr1|]. by apply rel_indexes_empty.
Qed.

Lemma rebuild_node_property_index_wf s :
  store_wf s →
  store_wf (rebuild_node_property_index s) ∧
  same_graph s (rebuild_node_property_index s) ∧
  node_props_dirty (rebuild_node_property_index s) = false.
Proof.
  intros Hwf. pose proof (wf_ids_match s Hwf) as Hids.
  unfold rebuild_node_property_index.
  set (s0 := set_property_cache ∅ ∅ _ s). set (s1 := foldl _ s0 _).
  destruct (foldl_node_props_frame (bt_values (nodes s0)) s0) as (Hg1 & Hr1 & Hl1 & Hd1).
  fold s1 in Hg1, Hr1, Hl1, Hd1.
  assert (graph_part s = graph_part s1) as Hg by (by rewrite Hg1).
  assert (ids_match s1) as Hids1 by by eapply ids_match_ext.
  assert (nodes s1 = nodes s ∧ rels s1 = rels s) as [Hn1 Hr1']
    by (unfold graph_part in *; naive_solver congruence).
  pose proof (foldl_props_ok (λ t n, index_node_props n t) s s0 Hids) as Hp.
  change (bt_values (nodes s)) with (bt_values (nodes s0)) in Hp. fold s1 in Hp.
  split_and!; [|by apply same_graph_part|done].
  apply store_wf_intro; cbn; [apply Hids1..| | |].
  - rewrite Hl1. eapply idx_spec_iff; [apply (wf_label _ Hwf)|].
    intros; by apply has_label_ext.
  - intros _. destruct Hp as [Hp Hpa];
      try (intros; by rewrite index_node_props_eq); [done..|].
    split; eapply idx_spec_iff; try done; intros;
      [by apply has_label_prop_key_ext|by apply has_prop_key_ext].
  - eapply rel_indexes_ext, rel_indexes_iff; [| |apply wf_rel_indexes, Hwf].
    + by injection Hr1.
    + intros. by rewrite Hr1'.
Qed.

Lemma refresh_wf s :
  store_wf s →
  store_wf (refresh_property_index s) ∧ same_graph s (refresh_property_index s) ∧
  node_props_dirty (refresh_property_index s) = false.
Proof.
  intros Hwf. unfold refresh_property_index. destruct (node_props_dirty s) eqn:Hd.
  - by apply rebuild_node_property_index_wf.
  - done.
Qed.
End wf.

(** ** Results *)

Section results.
Context `{SerdeNumber}.
Implicit Types (s t : GraphStore).

(** The writes and the lookups that may touch the cache, as one step. *)
Inductive StoreOp :=
  | OpInsertNode (id : Z) (node : StoredNode)
  | OpInsertNodeDeferred (id : Z) (node : StoredNode)
  | OpRemoveNode (id : Z)
  | OpInsertRel (id : Z) (rel : StoredRel)
  | OpRemoveRel (id : Z)
  | OpRebuild
  | OpRebuildLoad
  | OpRebuildProps
  | OpLookupLabelProp (label key : string) (value : Value)
  | OpLookupProp (key : string) (value : Value).

Definition store_step s (op : StoreOp) : GraphStore :=
  match op with
  | OpInsertNode id node => (insert_node id node s).2
  | OpInsertNodeDeferred id node => (insert_node_deferred_property_index id node s).2
  | OpRemoveNode id => (remove_node id s).2
  | OpInsertRel id rel => (insert_relationship id rel s).2
  | OpRemoveRel id => (remove_relationship id s).2
  | OpRebuild => rebuild_indexes s
  | OpRebuildLoad => rebuild_load_indexes s
  | OpRebuildProps => rebuild_node_property_index s
  | OpLookupLabelProp label key value => (node_ids_by_label_property label key value s).2
  | OpLookupProp key value => (node_ids_by_property key value s).2
  end.

(** Every caller stores an entity under its own id. *)
Definition op_ids_ok (op : StoreOp) : Prop :=
  match op with
  | OpInsertNode id node | OpInsertNodeDeferred id node => sn_id node = id
  | OpInsertRel id rel => sr_id rel = id
  | _ => True
  end.

Lemma store_step_wf s op : op_ids_ok op → store_wf s → store_wf (store_step s op).
Proof.
  intros Hop Hwf. destruct op; cbn in *.
  - by apply insert_node_wf.
  - by apply insert_node_wf.
  - by apply remove_node_effect.
  - by apply insert_relationship_wf.
  - by apply remove_relationship_wf.
  - by apply rebuild_indexes_wf, wf_ids_match.
  - by apply rebuild_load_indexes_wf, wf_ids_match.
  - by apply rebuild_node_property_index_wf.
  - unfold node_ids_by_label_property. destruct (ValueKey_from_value value); by apply refresh_wf.
  - unfold node_ids_by_property. destruct (ValueKey_from_value value); by apply refresh_wf.
Qed.

(** C2: whatever sequence of writes, rebuilds and lookups a fresh store goes
    through, every index holds exactly what the nodes and relationships
    say, and the property cache does whenever it is not marked dirty. *)
Theorem store_run_wf (ops : list StoreOp) :
  Forall op_ids_ok ops → store_wf (foldl store_step GraphStore_default ops).
Proof.
  intros Hops. apply foldl_inv; [apply default_wf|].
  intros s op Hin. apply store_step_wf. by eapply Forall_forall.
Qed.

(** *** Lookups *)

(** Two [f64] numbers that are zeros of opposite sign: equal as values,
    different as [ValueKey]s. *)
Definition zero_clash (v w : Value) : Prop :=
  match v, w with
  | Num m, Num n =>
      number_is_f64 m = true ∧ number_is_f64 n = true ∧
      ∃ x y, number_as_f64 m = Some x ∧ number_as_f64 n = Some y ∧ signed_zero_pair x y
  | _, _ => False
  end.

Lemma number_key_eqb `{!NumberLaws} m n :
  ¬ zero_clash (Num m) (Num n) →
  number_eqb m n = true ↔ ValueKey_from_value (Num m) = ValueKey_from_value (Num n).
Proof.
  intros Hclash. cbn. split.
  - intros Heq. pose proof (number_eqb_is_f64 m n Heq) as Hf.
    destruct (number_eqb_accessors m n Heq) as (-> & -> & Hx).
    destruct (number_as_i64 n) eqn:Hi; [done|]. destruct (number_as_u64 n) eqn:Hu; [done|].
    destruct (number_cases n) as [Hn|[Hn|Hn]];
      [|by rewrite Hi in Hn; destruct Hn|by rewrite Hu in Hn; destruct Hn].
    destruct (number_as_f64 m) as [x|] eqn:Hm, (number_as_f64 n) as [y|] eqn:Hy; try done.
    cbn. destruct Hx as [->|Hxy]; [done|]. do 2 f_equal. apply f64_eqb_bits; [done|].
    intros Hz. apply Hclash. cbn. rewrite Hf, Hn. eauto 10.
  - assert (∀ k, number_as_i64 k = None → number_as_u64 k = None →
                 number_is_f64 k = true ∧ is_Some (number_as_f64 k)) as Hflt.
    { intros k Hi Hu. destruct (number_cases k) as [Hk|[Hk|Hk]];
        [|rewrite ?Hi, ?Hu in Hk; by destruct Hk..].
      split; [done|]. by apply number_is_f64_as. }
    destruct (number_as_i64 m) eqn:Him, (number_as_i64 n) eqn:Hin,
      (number_as_u64 m) eqn:Hum, (number_as_u64 n) eqn:Hun,
      (number_as_f64 m) as [x|] eqn:Hx, (number_as_f64 n) as [y|] eqn:Hy;
      cbn; intros Heq; simplify_eq; eauto using number_eqb_i64, number_eqb_u64.
    + destruct (Hflt m), (Hflt n); try done. by eapply number_eqb_f64.
    + destruct (Hflt m) as [_ [? ?]]; congruence.
Qed.

Lemma value_key_eqb `{!NumberLaws} v w :
  is_Some (ValueKey_from_value w) → ¬ zero_clash v w →
  value_eqb v w = true ↔ ValueKey_from_value v = ValueKey_from_value w.
Proof.
  intros [k Hk] Hclash. destruct w as [|b|n|t| |]; try done; destruct v as [|c|m|u| |];
    try (cbn; split; intros; simplify_eq; done);
    try (cbn in *; split; [done|]; intros Heq; rewrite <-Heq in Hk; done);
    try (cbn; split; [done|]; repeat case_match; try done;
         by match goal with |- context [number_as_f64 ?n] => destruct (number_as_f64 n) end).
  - cbn. rewrite Bool.eqb_true_iff. naive_solver.
  - by apply number_key_eqb.
  - cbn. rewrite String.eqb_eq. naive_solver.
Qed.

(** The reference: scan the nodes in id order. *)
Definition scan_nodes (P : StoredNode → bool) s : list Z :=
  map sn_id (filter (λ node, P node) (bt_values (nodes s))).

Lemma elem_of_scan_nodes P s i :
  ids_match s → i ∈ scan_nodes P s ↔ ∃ node, nodes s !! i = Some node ∧ P node = true.
Proof.
  intros [Hids _]. unfold scan_nodes. rewrite list_elem_of_fmap.
  setoid_rewrite list_elem_of_filter.
  pose proof (bt_values_keyed (nodes s) sn_id (λ n, P n = true) i Hids) as Hk.
  rewrite <-Hk. split.
  - intros (n & -> & HP & Hn). eauto using Is_true_true_1.
  - intros (n & Hn & HP & ->). eauto using Is_true_true_2.
Qed.

Lemma bt_values_ids_sorted {V} (m : gmap Z V) (f : V → Z) :
  (∀ id v, m !! id = Some v → f v = id) → map f (bt_values m) = bt_keys m.
Proof.
  intros Hf. unfold bt_values, bt_keys. rewrite map_map. apply map_ext_in.
  intros [k v] Hin. cbn. apply Hf, elem_of_bt_iter. by apply list_elem_of_In.
Qed.

Lemma bt_keys_sorted {V} (m : gmap Z V) : StronglySorted Z.le (bt_keys m).
Proof.
  unfold bt_keys. pose proof (bt_iter_sorted m) as Hs. revert Hs.
  induction (bt_iter m) as [|[k v] l IH]; cbn; [constructor|].
  intros [Hs Hf]%StronglySorted_inv. constructor; [by apply IH|].
  apply List.Forall_map. eapply Forall_impl; [exact Hf|]. by intros [k' v'].
Qed.

Definition scan_rels (P : StoredRel → bool) s : list Z :=
  map sr_id (filter (λ rel, P rel) (bt_values (rels s))).

(** A filtered walk over a map keyed by id is sorted and exact. *)
Lemma filtered_ids_spec {V} (m : gmap Z V) (f : V → Z) (P : V → bool) :
  (∀ id v, m !! id = Some v → f v = id) →
  let ids := map f (filter (λ v, P v) (bt_values m)) in
  StronglySorted Z.le ids ∧ NoDup ids ∧
  ∀ i, i ∈ ids ↔ ∃ v, m !! i = Some v ∧ P v = true.
Proof.
  intros Hf ids. assert (ids `sublist_of` bt_keys m) as Hsub.
  { rewrite <-(bt_values_ids_sorted m f Hf). subst ids.
    induction (bt_values m) as [|v l IH]; [done|]. rewrite filter_cons.
    case_decide; cbn; by constructor. }
  split_and!.
  - eapply StronglySorted_sublist; [exact Hsub|apply bt_keys_sorted].
  - exact (sublist_NoDup _ _ (bt_keys_NoDup m) Hsub).
  - intros i. subst ids. rewrite list_elem_of_fmap. setoid_rewrite list_elem_of_filter.
    rewrite <-(bt_values_keyed m f (λ v, P v = true) i Hf). split.
    + intros (v & -> & HP & Hv). eauto using Is_true_true_1.
    + intros (v & Hv & HP & ->). eauto using Is_true_true_2.
Qed.

(** An index lookup is the walk with the predicate the index represents. *)
Lemma idx_ids_filtered {K V} `{Countable K} (idx : gmap K (gset Z)) Q (m : gmap Z V)
    (f : V → Z) (P : V → bool) k :
  idx_spec idx Q → (∀ id v, m !! id = Some v → f v = id) →
  (∀ i, Q k i ↔ ∃ v, m !! i = Some v ∧ P v = true) →
  idx_ids idx k = map f (filter (λ v, P v) (bt_values m)).
Proof.
  intros Hidx Hf HQ. destruct (filtered_ids_spec m f P Hf) as (Hs & Hnd & Hel).
  eapply (sorted_NoDup_unique (K := Z)); [apply idx_ids_sorted|done|apply idx_ids_NoDup|done|].
  intros i. by rewrite (elem_of_idx_ids _ _ _ _ Hidx), HQ, Hel.
Qed.

Lemma scan_nodes_same P s t : same_graph s t → scan_nodes P s = scan_nodes P t.
Proof. unfold scan_nodes. by intros [-> _]. Qed.

Lemma node_has_value_key `{!NumberLaws} key value vk node :
  ValueKey_from_value value = Some vk →
  (∀ v, sn_props node !! key = Some v → ¬ zero_clash v value) →
  node_has_value key value node = true ↔
  ∃ v, sn_props node !! key = Some v ∧ ValueKey_from_value v = Some vk.
Proof.
  intros Hvk Hz. unfold node_has_value. destruct (sn_props node !! key) as [v|] eqn:Hv.
  - rewrite value_key_eqb, Hvk by (rewrite ?Hvk; eauto). naive_solver.
  - naive_solver.
Qed.

(** No node has, under [key], the zero of the other sign. *)
Definition no_zero_clash (key : string) (value : Value) s : Prop :=
  ∀ id node v, nodes s !! id = Some node → sn_props node !! key = Some v →
               ¬ zero_clash v value.

(** What each property lookup returns, in the terms of the graph. *)
Lemma label_property_ids `{!NumberLaws} label key value s :
  store_wf s → property_value_is_indexable value = true → no_zero_clash key value s →
  let '(ids, t) := node_ids_by_label_property label key value s in
  store_wf t ∧ same_graph s t ∧ StronglySorted Z.le ids ∧ NoDup ids ∧
  ∀ i, i ∈ ids ↔ ∃ node, nodes s !! i = Some node ∧ label ∈ sn_labels node ∧
                         node_has_value key value node = true.
Proof.
  intros Hwf [vk Hvk]%bool_decide_eq_true Hz.
  destruct (refresh_wf s Hwf) as (Hwf' & Hsame & Hd).
  unfold node_ids_by_label_property. rewrite Hvk.
  split_and!; [done|done|apply idx_ids_sorted|apply idx_ids_NoDup|].
  intros i. rewrite (elem_of_idx_ids _ _ _ _ (wf_props _ Hwf' Hd)).
  unfold has_label_prop_key. destruct Hsame as [Hn _]. rewrite <-Hn. cbn. split.
  - intros (node & v & Hnode & Hl & Hv & Hk). exists node. split_and!; [done..|].
    eapply node_has_value_key; eauto.
  - intros (node & Hnode & Hl & Hhas).
    eapply node_has_value_key in Hhas as (v & ? & ?); eauto 10.
Qed.

Lemma property_ids `{!NumberLaws} key value s :
  store_wf s → property_value_is_indexable value = true → no_zero_clash key value s →
  let '(ids, t) := node_ids_by_property key value s in
  store_wf t ∧ same_graph s t ∧ StronglySorted Z.le ids ∧ NoDup ids ∧
  ∀ i, i ∈ ids ↔ ∃ node, nodes s !! i = Some node ∧ node_has_value key value node = true.
Proof.
  intros Hwf [vk Hvk]%bool_decide_eq_true Hz.
  destruct (refresh_wf s Hwf) as (Hwf' & Hsame & Hd).
  unfold node_ids_by_property. rewrite Hvk.
  split_and!; [done|done|apply idx_ids_sorted|apply idx_ids_NoDup|].
  intros i. rewrite (elem_of_idx_ids _ _ _ _ (wf_props_any _ Hwf' Hd)).
  unfold has_prop_key. destruct Hsame as [Hn _]. rewrite <-Hn. cbn. split.
  - intros (node & v & Hnode & Hv & Hk). exists node. split; [done|].
    eapply node_has_value_key; eauto.
  - intros (node & Hnode & Hhas).
    eapply node_has_value_key in Hhas as (v & ? & ?); eauto 10.
Qed.

(** Sorted ids are the walk with the predicate they satisfy. *)
Lemma ids_filtered {V} (m : gmap Z V) (f : V → Z) (P : V → bool) ids :
  StronglySorted Z.le ids → NoDup ids → (∀ id v, m !! id = Some v → f v = id) →
  (∀ i, i ∈ ids ↔ ∃ v, m !! i = Some v ∧ P v = true) →
  ids = map f (filter (λ v, P v) (bt_values m)).
Proof.
  intros Hs Hnd Hf Hel. destruct (filtered_ids_spec m f P Hf) as (Hs' & Hnd' & Hel').
  eapply (sorted_NoDup_unique (K := Z)); [done..|]. intros i. by rewrite Hel, Hel'.
Qed.

(** A label-and-property lookup answers what a scan of the nodes in id
    order answers, whether or not the property cache was stale. *)
Theorem label_property_lookup_is_scan `{!NumberLaws} label key value s :
  store_wf s → property_value_is_indexable value = true → no_zero_clash key value s →
  (node_ids_by_label_property label key value s).1 =
  scan_nodes (λ node, bool_decide (label ∈ sn_labels node) && node_has_value key value node) s.
Proof.
  intros Hwf Hix Hz. pose proof (label_property_ids label key value s Hwf Hix Hz) as Hids.
  destruct (node_ids_by_label_property label key value s) as [ids t].
  destruct Hids as (_ & _ & Hs & Hnd & Hel).
  apply ids_filtered; [done|done|apply (wf_node_id _ Hwf)|].
  intros i. rewrite Hel. setoid_rewrite andb_true_iff. by setoid_rewrite bool_decide_eq_true.
Qed.

(** a lookup by property alone answers what a scan answers, for every
    value: arrays and objects, which have no key, are compared directly. *)
Theorem property_lookup_is_scan `{!NumberLaws} key value s :
  store_wf s → no_zero_clash key value s →
  (node_ids_by_property key value s).1 = scan_nodes (node_has_value key value) s.
Proof.
  intros Hwf Hz. destruct (property_value_is_indexable value) eqn:Hix.
  - pose proof (property_ids key value s Hwf Hix Hz) as Hids.
    destruct (node_ids_by_property key value s) as [ids t].
    destruct Hids as (_ & _ & Hs & Hnd & Hel).
    by apply ids_filtered; [| |apply (wf_node_id _ Hwf)|].
  - unfold node_ids_by_property, property_value_is_indexable in *.
    apply bool_decide_eq_false in Hix. destruct (refresh_wf s Hwf) as (_ & Hsame & _).
    destruct (ValueKey_from_value value); [destruct Hix; eauto|]. cbn [fst].
    by apply scan_nodes_same.
Qed.

(** [rel_type] as the adjacency queries take it. *)
Definition type_matches (ty : option string) (rel : StoredRel) : bool :=
  match ty with Some ty => String.eqb (sr_rel_type rel) ty | None => true end.

Lemma elem_of_outgoing id s i :
  store_wf s →
  i ∈ outgoing_relationship_ids id None s ↔
  ∃ rel, rels s !! i = Some rel ∧ sr_from rel = id.
Proof. intros Hwf. apply (elem_of_idx_ids _ _ _ _ (wf_out_any _ Hwf)). Qed.
Lemma elem_of_incoming id s i :
  store_wf s →
  i ∈ incoming_relationship_ids id None s ↔
  ∃ rel, rels s !! i = Some rel ∧ sr_to rel = id.
Proof. intros Hwf. apply (elem_of_idx_ids _ _ _ _ (wf_in_any _ Hwf)). Qed.

(** the adjacency lists of a node are the relationships that leave it,
    respectively reach it, with the asked type if any, in id order. *)
Theorem adjacency_is_scan (id : Z) (ty : option string) s :
  store_wf s →
  outgoing_relationship_ids id ty s
    = scan_rels (λ rel, (sr_from rel =? id)%Z && type_matches ty rel) s ∧
  incoming_relationship_ids id ty s
    = scan_rels (λ rel, (sr_to rel =? id)%Z && type_matches ty rel) s.
Proof.
  intros Hwf. unfold outgoing_relationship_ids, incoming_relationship_ids.
  split; destruct ty as [ty|]; cbn;
    (eapply idx_ids_filtered;
      [by apply wf_out || by apply wf_out_any || by apply wf_in || by apply wf_in_any
      |apply (wf_rel_id _ Hwf)|]);
    intros i; unfold rel_at; setoid_rewrite andb_true_iff; setoid_rewrite Z.eqb_eq;
    try setoid_rewrite String.eqb_eq; naive_solver congruence.
Qed.

Lemma remove_node_rels (id : Z) s :
  store_wf s → no_dangling s →
  ∀ i, rels (remove_node id s).2 !! i =
       (rels s !! i) ≫= λ rel, if rel_touches id rel then None else Some rel.
Proof.
  intros Hwf Hnd i. pose proof (remove_node_effect id s Hwf) as (_ & _ & _ & _ & Hr).
  rewrite Hr. destruct (nodes s !! id) as [node|] eqn:Hid.
  - rewrite map_lookup_filter. destruct (rels s !! i) as [rel|]; cbn; [|done].
    by destruct (rel_touches id rel).
  - destruct (rels s !! i) as [rel|] eqn:Hi; cbn; [|done].
    destruct (rel_touches id rel) eqn:Ht; [|done].
    destruct (Hnd _ _ Hi) as [Hf Hto]. unfold rel_touches in Ht.
    apply orb_true_iff in Ht as [Ht|Ht]; apply Z.eqb_eq in Ht; rewrite Ht, Hid in *;
      by destruct Hf, Hto.
Qed.

Lemma rel_touches_false id rel :
  rel_touches id rel = false ↔ sr_from rel ≠ id ∧ sr_to rel ≠ id.
Proof. unfold rel_touches. by rewrite orb_false_iff, !Z.eqb_neq. Qed.

Lemma rel_touches_true id rel :
  rel_touches id rel = true ↔ sr_from rel = id ∨ sr_to rel = id.
Proof. unfold rel_touches. by rewrite orb_true_iff, !Z.eqb_eq. Qed.

Lemma remove_node_no_dangling (id : Z) s :
  store_wf s → no_dangling s → no_dangling (remove_node id s).2.
Proof.
  intros Hwf Hnd i rel Hi. rewrite remove_node_rels in Hi by done.
  pose proof (remove_node_effect id s Hwf) as (_ & Hn & _).
  destruct (rels s !! i) as [rel'|] eqn:Hi'; [|done]. cbn in Hi.
  destruct (rel_touches id rel') eqn:Ht; [done|]. injection Hi as <-.
  apply rel_touches_false in Ht as [Hf Hto].
  rewrite Hn, !lookup_delete_ne by done. by apply (Hnd i).
Qed.

(** removing a node removes it, exactly the relationships that touch it,
    and leaves no dangling relationship; an unknown id changes nothing. *)
Theorem remove_node_cascades (id : Z) s :
  store_wf s → no_dangling s →
  let '(removed, t) := remove_node id s in
  removed = nodes s !! id ∧ store_wf t ∧ no_dangling t ∧
  nodes t = delete id (nodes s) ∧
  (∀ i, rels t !! i =
     (rels s !! i) ≫= λ rel, if rel_touches id rel then None else Some rel).
Proof.
  intros Hwf Hnd. pose proof (remove_node_effect id s Hwf) as (Hwf' & Hn & _).
  pose proof (remove_node_rels id s Hwf Hnd) as Hr.
  pose proof (remove_node_no_dangling id s Hwf Hnd) as Hnd'.
  assert ((remove_node id s).1 = nodes s !! id) as Hrem.
  { unfold remove_node. by destruct (nodes s !! id). }
  by destruct (remove_node id s) as [removed t].
Qed.
End results.

(** ** Witnesses: a store of two nodes and a relationship *)

Section store_witnesses.
#[local] Existing Instance serde_default.

Definition w_node (id : Z) (name : string) : StoredNode :=
  {| sn_id := id; sn_labels := ["Person"%string];
     sn_props := {["name"%string := Str name]} |}.
Definition w_rel (id from to : Z) : StoredRel :=
  {| sr_id := id; sr_rel_type := "KNOWS"%string; sr_from := from; sr_to := to;
     sr_props := ∅ |}.

Definition w_ops : list StoreOp :=
  [OpInsertNode 1 (w_node 1 "ann"); OpInsertNode 2 (w_node 2 "bob");
   OpInsertRel 1 (w_rel 1 1 2)].
Definition w_store : GraphStore := foldl store_step GraphStore_default w_ops.

Lemma w_store_wf : store_wf w_store.
Proof.
  unfold w_store, w_ops. cbn [foldl].
  repeat (apply store_step_wf; [reflexivity|]). apply default_wf.
Qed.

Lemma w_no_clash key s : no_zero_clash key (Str "ann") s.
Proof. intros id node v _ _ Hc. by destruct v. Qed.

Lemma w_no_dangling : no_dangling w_store.
Proof.
  intros i rel Hi. assert (rels w_store = {[1%Z := w_rel 1 1 2]}) as Hr by done.
  rewrite Hr in Hi. apply lookup_singleton_Some in Hi as [_ <-]. split; by eexists.
Qed.

Lemma store_run_wf_witness : store_wf (foldl store_step GraphStore_default w_ops).
Proof. apply store_run_wf. repeat constructor. Defined.

Lemma label_property_lookup_is_scan_witness :
  (node_ids_by_label_property "Person" "name" (Str "ann") w_store).1 = [1%Z] ∧
  (node_ids_by_label_property "Person" "name" (Str "ann") w_store).1 =
  scan_nodes (λ node, bool_decide ("Person"%string ∈ sn_labels node)
                      && node_has_value "name" (Str "ann") node) w_store.
Proof.
  split; [vm_compute; reflexivity|].
  apply label_property_lookup_is_scan; [apply w_store_wf|reflexivity|apply w_no_clash].
Defined.

Lemma property_lookup_is_scan_witness :
  (node_ids_by_property "name" (Str "ann") w_store).1 =
  scan_nodes (node_has_value "name" (Str "ann")) w_store.
Proof. apply property_lookup_is_scan; [apply w_store_wf|apply w_no_clash]. Defined.

Lemma adjacency_is_scan_witness :
  outgoing_relationship_ids 1 None w_store = [1%Z] ∧
  outgoing_relationship_ids 1 None w_store
    = scan_rels (λ rel, (sr_from rel =? 1)%Z && type_matches None rel) w_store.
Proof. split; [vm_compute; reflexivity|]. apply adjacency_is_scan, w_store_wf. Defined.

Lemma remove_node_cascades_witness :
  let '(removed, t) := remove_node 2 w_store in
  removed = nodes w_store !! 2%Z ∧ store_wf t ∧ no_dangling t ∧
  nodes t = delete 2%Z (nodes w_store) ∧
  (∀ i, rels t !! i =
     (rels w_store !! i) ≫= λ rel, if rel_touches 2 rel then None else Some rel).
Proof. apply remove_node_cascades; [apply w_store_wf|apply w_no_dangling]. Defined.
End store_witnesses.
