(* ===== verification/Codec.v ===== *)
(** * A concrete serializer

    The serializers of the program are parameters of the development with a
    round-trip law.  This file has a function that satisfies such a law, for
    the witnesses: the code of a countable value, as a string of binary
    digits. *)

From stdpp Require Import countable.
From S2P Require Export Prelude Text Json Numbers Index Store.

Local Open Scope string_scope.

Fixpoint pos_to_digits (p : positive) : string :=
  match p with xH => "" | xO p => String "0" (pos_to_digits p) | xI p => String "1" (pos_to_digits p) end.
Fixpoint pos_of_digits (s : string) : option positive :=
  match s with
  | "" => Some xH
  | String "0" s => xO <$> pos_of_digits s
  | String "1" s => xI <$> pos_of_digits s
  | _ => None
  end.

Definition to_digits {A} `{Countable A} (a : A) : string := pos_to_digits (encode a).
Definition of_digits {A} `{Countable A} (s : string) : option A := pos_of_digits s ≫= decode.

Lemma pos_of_to_digits p : pos_of_digits (pos_to_digits p) = Some p.
Proof. induction p as [p IH|p IH|]; cbn; by rewrite ?IH. Qed.

Lemma of_to_digits {A} `{Countable A} (a : A) : of_digits (to_digits a) = Some a.
Proof. unfold of_digits, to_digits. rewrite pos_of_to_digits. cbn. apply decode_encode. Qed.

Lemma to_digits_utf8 {A} `{Countable A} (a : A) : utf8_valid (to_digits a) = true.
Proof. unfold to_digits. induction (encode a) as [p IH|p IH|]; cbn; done. Qed.

(** ** The data of the store is countable *)

#[export] Instance spec_float_eq_dec : EqDecision spec_float.
Proof. solve_decision. Defined.
#[export] Program Instance spec_float_countable : Countable spec_float :=
  inj_countable'
    (λ x, match x with
          | S754_zero s => inl (inl s)
          | S754_infinity s => inl (inr s)
          | S754_nan => inr None
          | S754_finite s m e => inr (Some (s, m, e))
          end)
    (λ y, match y with
          | inl (inl s) => S754_zero s
          | inl (inr s) => S754_infinity s
          | inr None => S754_nan
          | inr (Some (s, m, e)) => S754_finite s m e
          end) _.
Next Obligation. by intros []. Qed.

Definition repr_code (n : number_repr) : Z + Z + spec_float :=
  match n with
  | PosInt z _ => inl (inl z)
  | NegInt z _ => inl (inr z)
  | Float x _ => inr x
  end.
Definition repr_decode (c : Z + Z + spec_float) : option number_repr :=
  match c with
  | inl (inl z) => match decide (u64_ok z = true) with left H => Some (PosInt z H) | _ => None end
  | inl (inr z) => match decide (neg_ok z = true) with left H => Some (NegInt z H) | _ => None end
  | inr x => match decide (float_ok x = true) with left H => Some (Float x H) | _ => None end
  end.

Lemma repr_decode_code n : repr_decode (repr_code n) = Some n.
Proof.
  destruct n as [z Hz|z Hz|x Hx]; cbn; case_decide as Hd; try done; do 2 f_equal; apply proof_irrel.
Qed.

#[export] Instance repr_code_inj : Inj (=) (=) repr_code.
Proof. intros m n Heq%(f_equal repr_decode). rewrite !repr_decode_code in Heq. congruence. Qed.
#[export] Instance number_repr_eq_dec : EqDecision number_repr := inj_eq_dec repr_code.
#[export] Instance number_repr_countable : Countable number_repr :=
  inj_countable repr_code repr_decode repr_decode_code.

#[local] Existing Instance serde_default.

Definition ValueLeaf : Type := option bool + number_repr + string.

Fixpoint value_code (v : @Value serde_default) : gen_tree ValueLeaf :=
  match v with
  | Null => GenLeaf (inl (inl None))
  | Bool b => GenLeaf (inl (inl (Some b)))
  | Num n => GenLeaf (inl (inr n))
  | Str s => GenLeaf (inr s)
  | Array l => GenNode 0 (map value_code l)
  | Object m => GenNode 1 (map (λ e, GenNode 2 [GenLeaf (inr e.1); value_code e.2]) m)
  end.
Fixpoint value_decode (t : gen_tree ValueLeaf) : @Value serde_default :=
  match t with
  | GenLeaf (inl (inl None)) => Null
  | GenLeaf (inl (inl (Some b))) => Bool b
  | GenLeaf (inl (inr n)) => @Num serde_default n
  | GenLeaf (inr s) => Str s
  | GenNode 0 l => Array (map value_decode l)
  | GenNode _ l =>
      Object (map (λ t, match t with
                        | GenNode _ [GenLeaf (inr k); t] => (k, value_decode t)
                        | _ => ("", Null)
                        end) l)
  end.

Lemma value_decode_code v : value_decode (value_code v) = v.
Proof.
  induction v as [|b|n|s|l IH|m IH] using value_nested_ind; cbn; try done; f_equal.
  - rewrite map_map. induction IH as [|x l Hx _ IHl]; cbn; [done|by rewrite Hx, IHl].
  - rewrite map_map. induction IH as [|[k x] m Hx _ IHm]; cbn in *; [done|by rewrite Hx, IHm].
Qed.

#[export] Instance value_code_inj : Inj (=) (=) value_code.
Proof. intros v w Heq%(f_equal value_decode). by rewrite !value_decode_code in Heq. Qed.
#[export] Instance value_eq_dec : EqDecision (@Value serde_default) := inj_eq_dec value_code.
#[export] Instance value_countable : Countable (@Value serde_default) :=
  inj_countable' value_code value_decode value_decode_code.

#[export] Instance StoredNode_eq_dec : EqDecision (@StoredNode serde_default).
Proof. solve_decision. Defined.
#[export] Program Instance StoredNode_countable : Countable (@StoredNode serde_default) :=
  inj_countable' (λ n, (sn_id n, sn_labels n, sn_props n))
    (λ '(i, l, p), {| sn_id := i; sn_labels := l; sn_props := p |}) _.
Next Obligation. by intros []. Qed.

#[export] Instance StoredRel_eq_dec : EqDecision (@StoredRel serde_default).
Proof. solve_decision. Defined.
#[export] Program Instance StoredRel_countable : Countable (@StoredRel serde_default) :=
  inj_countable' (λ r, (sr_id r, sr_rel_type r, sr_from r, sr_to r, sr_props r))
    (λ '(i, t, f, o, p), {| sr_id := i; sr_rel_type := t; sr_from := f; sr_to := o; sr_props := p |}) _.
Next Obligation. by intros []. Qed.
