(* ===== verification/Persist.v ===== *)
(** * Saving and loading a graph ([src/src/backend/persisted.rs])

    The store's snapshot in JSON and in binary form, written crash-safely and
    read back with a fallback to the backup.  The serializers ([serde_json],
    [bincode], with the derived implementations) are third-party code: the
    class [SnapshotCodec], with what their documentation promises in
    [SnapshotLaws]. *)

From S2P Require Export Prelude Text Json Numbers Files Index Store Codec.

Local Open Scope string_scope.

Section persisted.
Context `{SerdeNumber}.

(** ** The persisted forms *)

Record PersistedGraphStore := {
  pg_next_node_id : Z;
  pg_next_rel_id : Z;
  pg_nodes : gmap Z StoredNode;
  pg_rels : gmap Z StoredRel;
}.

Record BinaryStoredNode := {
  bn_id : Z;
  bn_labels : list string;
  bn_props : gmap string string;
}.

Record BinaryStoredRel := {
  br_id : Z;
  br_rel_type : string;
  br_from : Z;
  br_to : Z;
  br_props : gmap string string;
}.

Record BinaryPersistedGraphStore := {
  bpg_next_node_id : Z;
  bpg_next_rel_id : Z;
  bpg_nodes : gmap Z BinaryStoredNode;
  bpg_rels : gmap Z BinaryStoredRel;
}.

Definition to_persisted (s : GraphStore) : PersistedGraphStore :=
  {| pg_next_node_id := next_node_id s; pg_next_rel_id := next_rel_id s;
     pg_nodes := nodes s; pg_rels := rels s |}.

(** The store [from_persisted] builds before it indexes it. *)
Definition bare_store (nn nr : Z) (ns : gmap Z StoredNode) (rs : gmap Z StoredRel) : GraphStore :=
  {| next_node_id := nn; next_rel_id := nr; nodes := ns; rels := rs;
     nodes_by_label := ∅; node_props := ∅; node_props_any := ∅; node_props_dirty := false;
     rels_by_type := ∅; outgoing := ∅; incoming := ∅; outgoing_any := ∅; incoming_any := ∅ |}.

Definition from_persisted (p : PersistedGraphStore) : GraphStore :=
  rebuild_load_indexes
    (bare_store (pg_next_node_id p) (pg_next_rel_id p) (pg_nodes p) (pg_rels p)).

(** ** The serializers *)

Class SnapshotCodec := {
  (** [serde_json::to_string_pretty] and [from_str] *)
  json_of_graph : PersistedGraphStore → option string;
  graph_of_json : string → option PersistedGraphStore;
  (** [serde_json::to_vec] and [from_slice] *)
  json_of_value : Value → option string;
  value_of_json : string → option Value;
  (** [bincode::serialize] and [deserialize] *)
  bytes_of_graph : BinaryPersistedGraphStore → option string;
  graph_of_bytes : string → option BinaryPersistedGraphStore;
}.

(** A value [serde_json] reads back as it wrote it: without floats (parsing one
    may lose its last bit unless the crate's [float_roundtrip] feature is on),
    and less deep than the parser's recursion limit (128 with the snapshot's
    own nesting).  The rest holds of every Rust value: strings are UTF-8 and
    the keys of an object increase. *)
Fixpoint keys_increase (l : list string) : bool :=
  match l with
  | k :: ((k' :: _) as l') =>
      bool_decide (String.le k k') && negb (String.eqb k k') && keys_increase l'
  | _ => true
  end.

Fixpoint json_safe (depth : nat) (v : Value) : bool :=
  match v with
  | Null | Bool _ => true
  | Num n => negb (number_is_f64 n)
  | Str s => utf8_valid s
  | Array l =>
      match depth with O => false | S depth => forallb (json_safe depth) l end
  | Object m =>
      match depth with
      | O => false
      | S depth =>
          keys_increase (m.*1) && forallb (λ e, utf8_valid e.1 && json_safe depth e.2) m
      end
  end.

Definition json_max_depth : nat := 100.

Definition props_safe (props : Props) : Prop :=
  map_Forall (λ key v, utf8_valid key = true ∧ json_safe json_max_depth v = true) props.
Definition graph_safe (p : PersistedGraphStore) : Prop :=
  map_Forall (λ _ n, Forall (λ l, utf8_valid l = true) (sn_labels n) ∧ props_safe (sn_props n))
             (pg_nodes p) ∧
  map_Forall (λ _ r, utf8_valid (sr_rel_type r) = true ∧ props_safe (sr_props r)) (pg_rels p).
Definition binary_strings_ok (p : BinaryPersistedGraphStore) : Prop :=
  map_Forall (λ _ n, Forall (λ l, utf8_valid l = true) (bn_labels n) ∧
                     map_Forall (λ key _, utf8_valid key = true) (bn_props n)) (bpg_nodes p) ∧
  map_Forall (λ _ r, utf8_valid (br_rel_type r) = true ∧
                     map_Forall (λ key _, utf8_valid key = true) (br_props r)) (bpg_rels p).

Class SnapshotLaws `{!SnapshotCodec} : Prop := {
  json_of_graph_total p : is_Some (json_of_graph p);
  json_of_graph_utf8 p b : json_of_graph p = Some b → utf8_valid b = true;
  graph_of_json_of p b : json_of_graph p = Some b → graph_safe p → graph_of_json b = Some p;
  json_of_value_total v : is_Some (json_of_value v);
  value_of_json_of v b :
    json_of_value v = Some b → json_safe json_max_depth v = true → value_of_json b = Some v;
  bytes_of_graph_total p : is_Some (bytes_of_graph p);
  graph_of_bytes_of p b :
    bytes_of_graph p = Some b → binary_strings_ok p → graph_of_bytes b = Some p;
}.

Context `{!SnapshotCodec}.

Definition encode_props (props : Props) : result (gmap string string) :=
  bt_try_map (λ value, ok_or (json_of_value value)
                             (SaveAborted "failed to encode property value")) props.
Definition decode_props (props : gmap string string) : result Props :=
  bt_try_map (λ bs, ok_or (value_of_json bs)
                          (LoadAborted "failed to decode property value")) props.

Definition encode_node (node : StoredNode) : result BinaryStoredNode :=
  props ← encode_props (sn_props node);
  Ok {| bn_id := sn_id node; bn_labels := sn_labels node; bn_props := props |}.
Definition encode_rel (rel : StoredRel) : result BinaryStoredRel :=
  props ← encode_props (sr_props rel);
  Ok {| br_id := sr_id rel; br_rel_type := sr_rel_type rel; br_from := sr_from rel;
        br_to := sr_to rel; br_props := props |}.

Definition to_binary_persisted (s : GraphStore) : result BinaryPersistedGraphStore :=
  ns ← bt_try_map encode_node (nodes s);
  rs ← bt_try_map encode_rel (rels s);
  Ok {| bpg_next_node_id := next_node_id s; bpg_next_rel_id := next_rel_id s;
        bpg_nodes := ns; bpg_rels := rs |}.

Definition decode_node (node : BinaryStoredNode) : result StoredNode :=
  props ← decode_props (bn_props node);
  Ok {| sn_id := bn_id node; sn_labels := bn_labels node; sn_props := props |}.
Definition decode_rel (rel : BinaryStoredRel) : result StoredRel :=
  props ← decode_props (br_props rel);
  Ok {| sr_id := br_id rel; sr_rel_type := br_rel_type rel; sr_from := br_from rel;
        sr_to := br_to rel; sr_props := props |}.

Definition from_binary_persisted (p : BinaryPersistedGraphStore) : result GraphStore :=
  ns ← bt_try_map decode_node (bpg_nodes p);
  rs ← bt_try_map decode_rel (bpg_rels p);
  Ok (rebuild_load_indexes (bare_store (bpg_next_node_id p) (bpg_next_rel_id p) ns rs)).

(** ** Files *)

(** [m.map_err(|_| e)?] *)
Definition or_abort {A B} (m : io A) (e : GrmError) (k : A → io (result B)) : io (result B) :=
  λ fl fs,
    match m fl fs with
    | (Done a, fl, fs) => k a fl fs
    | (Failed _, fl, fs) => (Done (Err e), fl, fs)
    | (Crashed, fl, fs) => (Crashed, fl, fs)
    end.

(** [fs::read_to_string]: bytes that are not UTF-8 are an error. *)
Definition read_to_string (p : Path) : io string :=
  bs ← fs_read p;
  if utf8_valid bs then mret bs else io_fail OtherError.

Definition save_to_file (tags : string * string) (p : Path) (s : GraphStore)
    : io (result unit) :=
  match json_of_graph (to_persisted s) with
  | None => mret (Err (SaveAborted "failed to serialize graph as JSON"))
  | Some json =>
      or_abort (write_file_atomically_with_backup tags p json)
               (SaveAborted "failed to write JSON graph file") (λ _, mret (Ok tt))
  end.

Definition load_from_file (p : Path) : io (result GraphStore) :=
  or_abort (read_to_string p) (LoadAborted "failed to read JSON graph file") (λ json,
  match graph_of_json json with
  | Some persisted => mret (Ok (from_persisted persisted))
  | None =>
      or_abort (read_to_string (backup_path p))
               (LoadAborted "failed to deserialize JSON graph file") (λ json,
      match graph_of_json json with
      | Some persisted => mret (Ok (from_persisted persisted))
      | None => mret (Err (LoadAborted "failed to deserialize JSON graph file"))
      end)
  end).

Definition save_to_binary_file (tags : string * string) (p : Path) (s : GraphStore)
    : io (result unit) :=
  match to_binary_persisted s with
  | Err e => mret (Err e)
  | Ok persisted =>
      match bytes_of_graph persisted with
      | None => mret (Err (SaveAborted "failed to serialize graph as binary"))
      | Some bs =>
          or_abort (write_file_atomically_with_backup tags p bs)
                   (SaveAborted "failed to write binary graph file") (λ _, mret (Ok tt))
      end
  end.

Definition load_from_binary_file (p : Path) : io (result GraphStore) :=
  or_abort (fs_read p) (LoadAborted "failed to read binary graph file") (λ bs,
  match graph_of_bytes bs with
  | Some persisted => mret (from_binary_persisted persisted)
  | None =>
      or_abort (fs_read (backup_path p))
               (LoadAborted "failed to deserialize binary graph file") (λ bs,
      match graph_of_bytes bs with
      | Some persisted => mret (from_binary_persisted persisted)
      | None => mret (Err (LoadAborted "failed to deserialize binary graph file"))
      end)
  end).
End persisted.

(** ** Both formats at once *)

Section formats.
Context `{SerdeNumber} `{!SnapshotCodec}.
Implicit Types (s t : GraphStore) (p : Path) (fs : FileSys).

Inductive GraphFormat := JsonFormat | BinaryFormat.

Definition save_as (f : GraphFormat) :=
  match f with JsonFormat => save_to_file | BinaryFormat => save_to_binary_file end.
Definition load_as (f : GraphFormat) :=
  match f with JsonFormat => load_from_file | BinaryFormat => load_from_binary_file end.

(** The bytes a format writes for a store, what it accepts as readable bytes,
    and what it reads in them. *)
Definition snapshot_bytes (f : GraphFormat) s : result string :=
  match f with
  | JsonFormat => ok_or (json_of_graph (to_persisted s))
                        (SaveAborted "failed to serialize graph as JSON")
  | BinaryFormat =>
      persisted ← to_binary_persisted s;
      ok_or (bytes_of_graph persisted) (SaveAborted "failed to serialize graph as binary")
  end.
Definition readable (f : GraphFormat) (bs : string) : bool :=
  match f with JsonFormat => utf8_valid bs | BinaryFormat => true end.
Definition snapshot_of (f : GraphFormat) (bs : string) : option (result GraphStore) :=
  match f with
  | JsonFormat => Ok ∘ from_persisted <$> graph_of_json bs
  | BinaryFormat => from_binary_persisted <$> graph_of_bytes bs
  end.
Definition read_error (f : GraphFormat) : GrmError :=
  match f with
  | JsonFormat => LoadAborted "failed to read JSON graph file"
  | BinaryFormat => LoadAborted "failed to read binary graph file"
  end.
Definition decode_error (f : GraphFormat) : GrmError :=
  match f with
  | JsonFormat => LoadAborted "failed to deserialize JSON graph file"
  | BinaryFormat => LoadAborted "failed to deserialize binary graph file"
  end.

Definition read_file (f : GraphFormat) (file : option string) : option string :=
  bs ← file; if readable f bs then Some bs else None.

(** What a load answers for the contents of the file and of its backup. *)
Definition load_result (f : GraphFormat) (file backup : option string) : result GraphStore :=
  match read_file f file with
  | None => Err (read_error f)
  | Some bs =>
      match snapshot_of f bs with
      | Some r => r
      | None =>
          match read_file f backup with
          | None => Err (decode_error f)
          | Some bs => default (Err (decode_error f)) (snapshot_of f bs)
          end
      end
  end.

Lemma fs_read_runs p fs :
  fs_read p [] fs
  = (match fs !! file_key p with Some bs => Done bs | None => Failed NotFoundError end, [], fs).
Proof. unfold fs_read, io_call. by destruct (fs !! file_key p). Qed.

Lemma read_to_string_runs p fs :
  read_to_string p [] fs
  = (match fs !! file_key p with
     | Some bs => if utf8_valid bs then Done bs else Failed OtherError
     | None => Failed NotFoundError
     end, [], fs).
Proof.
  unfold read_to_string, mbind, io_bind. rewrite fs_read_runs.
  destruct (fs !! file_key p) as [bs|]; [|done]. by destruct (utf8_valid bs).
Qed.

Lemma load_as_runs f p fs :
  load_as f p [] fs
  = (Done (load_result f (fs !! file_key p) (fs !! file_key (backup_path p))), [], fs).
Proof.
  unfold load_result, read_file, load_as.
  destruct f; [unfold load_from_file|unfold load_from_binary_file]; unfold or_abort at 1;
    rewrite ?read_to_string_runs, ?fs_read_runs; cbn;
    destruct (fs !! file_key p) as [bs|]; cbn; try done.
  - destruct (utf8_valid bs); cbn; [|done]. destruct (graph_of_json bs); [done|]. cbn.
    unfold or_abort. rewrite read_to_string_runs.
    destruct (fs !! file_key (backup_path p)) as [bs'|]; cbn; [|done].
    destruct (utf8_valid bs'); cbn; [|done]. by destruct (graph_of_json bs').
  - destruct (graph_of_bytes bs); [done|]. cbn. unfold or_abort. rewrite fs_read_runs.
    destruct (fs !! file_key (backup_path p)) as [bs'|]; cbn; [|done].
    by destruct (graph_of_bytes bs').
Qed.

Lemma save_as_runs f tags p s fl fs bs :
  snapshot_bytes f s = Ok bs →
  save_as f tags p s fl fs
  = match write_file_atomically_with_backup tags p bs fl fs with
    | (Done _, fl, fs) => (Done (Ok tt), fl, fs)
    | (Failed _, fl, fs) =>
        (Done (Err (SaveAborted match f with
                                | JsonFormat => "failed to write JSON graph file"
                                | BinaryFormat => "failed to write binary graph file"
                                end)), fl, fs)
    | (Crashed, fl, fs) => (Crashed, fl, fs)
    end.
Proof.
  unfold snapshot_bytes, save_as, save_to_file, save_to_binary_file.
  destruct f; intros Hbs; inv_ok.
  - rewrite Hbs. done.
  - match goal with Hp : to_binary_persisted s = _ |- _ => by rewrite Hp, Hbs end.
Qed.

(** ** The snapshot of a store reads back as the store *)

Definition reload s : GraphStore := from_persisted (to_persisted s).

Lemma reload_ok s : store_wf s → same_graph s (reload s) ∧ store_wf (reload s).
Proof.
  intros Hwf. destruct (rebuild_load_indexes_wf
    (bare_store (next_node_id s) (next_rel_id s) (nodes s) (rels s))) as [? Hsame];
    [apply (wf_ids_match _ Hwf)|]. split; [exact Hsame|done].
Qed.
End formats.

Section snapshots.
Context `{SerdeNumber} `{!SnapshotCodec} `{!SnapshotLaws}.
Implicit Types (s t : GraphStore) (p : Path) (fs : FileSys).

Lemma encode_props_ok props :
  props_safe props → ∃ bs, encode_props props = Ok bs ∧ decode_props bs = Ok props ∧
    map_Forall (λ key _, utf8_valid key = true) bs.
Proof.
  intros Hsafe. destruct (bt_try_map_total (λ value, ok_or (json_of_value value)
    (SaveAborted "failed to encode property value")) props) as [bs Hbs].
  { intros key v _. destruct (json_of_value_total v) as [b ->]. by eexists. }
  exists bs. split_and!; [done| |].
  - eapply bt_try_map_inverse; [exact Hbs|]. intros key v b Hv Hb%ok_or_Ok.
    apply ok_or_Ok. eapply value_of_json_of; [done|]. by eapply (Hsafe key v).
  - intros key b Hb. pose proof (bt_try_map_Ok _ _ _ Hbs key) as Hk. rewrite Hb in Hk.
    destruct (props !! key) as [v|] eqn:Hv; [|done]. by eapply (Hsafe key v).
Qed.

Lemma to_binary_ok s :
  graph_safe (to_persisted s) →
  ∃ b, to_binary_persisted s = Ok b ∧ binary_strings_ok b ∧ from_binary_persisted b = Ok (reload s).
Proof.
  intros [Hns Hrs]. cbn in *.
  assert (∀ k n, nodes s !! k = Some n → ∃ b, encode_node n = Ok b ∧ decode_node b = Ok n ∧
    Forall (λ l, utf8_valid l = true) (bn_labels b) ∧
    map_Forall (λ key _, utf8_valid key = true) (bn_props b)) as Hn.
  { intros k n Hk. destruct (Hns k n Hk) as [? (bs & He & Hd & ?)%encode_props_ok].
    eexists. unfold encode_node, decode_node. rewrite He. split; [done|]. cbn.
    rewrite Hd. by destruct n. }
  assert (∀ k r, rels s !! k = Some r → ∃ b, encode_rel r = Ok b ∧ decode_rel b = Ok r ∧
    utf8_valid (br_rel_type b) = true ∧
    map_Forall (λ key _, utf8_valid key = true) (br_props b)) as Hr.
  { intros k r Hk. destruct (Hrs k r Hk) as [? (bs & He & Hd & ?)%encode_props_ok].
    eexists. unfold encode_rel, decode_rel. rewrite He. split; [done|]. cbn.
    rewrite Hd. by destruct r. }
  destruct (bt_try_map_total encode_node (nodes s)) as [ns Hens];
    [intros k n Hk; destruct (Hn k n Hk) as (? & ? & _); eauto|].
  destruct (bt_try_map_total encode_rel (rels s)) as [rs Hers];
    [intros k n Hk; destruct (Hr k n Hk) as (? & ? & _); eauto|].
  eexists. unfold to_binary_persisted. rewrite Hens. cbn. rewrite Hers. cbn.
  split_and!; [done| |].
  - split; cbn; intros k b Hb;
      [pose proof (bt_try_map_Ok _ _ _ Hens k) as Hk|pose proof (bt_try_map_Ok _ _ _ Hers k) as Hk];
      rewrite Hb in Hk; case_match; try done.
    + destruct (Hn k _ ltac:(done)) as (b' & Hb' & _ & ?). rewrite Hk in Hb'. by injection Hb' as <-.
    + destruct (Hr k _ ltac:(done)) as (b' & Hb' & _ & ?). rewrite Hk in Hb'. by injection Hb' as <-.
  - unfold from_binary_persisted. cbn.
    rewrite (bt_try_map_inverse _ decode_node _ _ Hens);
      [|intros k n b Hk Hb; destruct (Hn k n Hk) as (? & ? & ? & ?); congruence]. cbn.
    rewrite (bt_try_map_inverse _ decode_rel _ _ Hers);
      [|intros k n b Hk Hb; destruct (Hr k n Hk) as (? & ? & ? & ?); congruence]. done.
Qed.

(** Either format writes bytes that read back as the store. *)
Lemma snapshot_ok f s :
  graph_safe (to_persisted s) →
  ∃ bs, snapshot_bytes f s = Ok bs ∧ readable f bs = true ∧ snapshot_of f bs = Some (Ok (reload s)).
Proof.
  intros Hsafe. destruct f; cbn.
  - destruct (json_of_graph_total (to_persisted s)) as [b Hb]. exists b.
    rewrite Hb, (json_of_graph_utf8 _ _ Hb), (graph_of_json_of _ _ Hb Hsafe). done.
  - destruct (to_binary_ok s Hsafe) as (b & -> & Hstr & Hback).
    destruct (bytes_of_graph_total b) as [bs Hbs]. exists bs. cbn.
    rewrite Hbs, (graph_of_bytes_of _ _ Hbs Hstr). cbn. by rewrite Hback.
Qed.

Lemma load_result_primary f bs r backup :
  readable f bs = true → snapshot_of f bs = Some r → load_result f (Some bs) backup = r.
Proof. intros Hr Hs. unfold load_result, read_file. cbn. by rewrite Hr, Hs. Qed.

(** A save that ends in any way leaves a file that loads as before or as saved. *)
Lemma save_outcome f tags p s t0 fl fs r fl' fs' :
  graph_safe (to_persisted s) →
  load_as f p [] fs = (Done (Ok t0), [], fs) →
  save_as f tags p s fl fs = (r, fl', fs') →
  ∃ t, load_as f p [] fs' = (Done (Ok t), [], fs') ∧ (t = t0 ∨ t = reload s) ∧
       (r = Done (Ok tt) → t = reload s).
Proof.
  intros Hsafe Hload Hsave. destruct (snapshot_ok f s Hsafe) as (bs & Hbs & Hread & Hof).
  rewrite (save_as_runs _ _ _ _ _ _ _ Hbs) in Hsave. rewrite load_as_runs in Hload.
  injection Hload as Hload.
  destruct (write_file_atomically_with_backup tags p bs fl fs) as [[r1 fl1] fs1] eqn:Hw.
  assert (fs' = fs1 ∧ (r = Done (Ok tt) → r1 = Done tt)) as [-> Hr]
    by (destruct r1 as [[]|e|]; injection Hsave as <- <- <-; by split).
  apply (io_post_run _ _ _ _ _ _ _ (write_with_backup_post tags p bs fs)) in Hw
    as [_ Hfile Hbackup Hdone].
  setoid_rewrite load_as_runs.
  assert (fs1 !! file_key p = Some bs →
    load_result f (fs1 !! file_key p) (fs1 !! file_key (backup_path p)) = Ok (reload s)) as Hnew.
  { intros ->. by apply load_result_primary. }
  destruct Hfile as [Hold|Hfile].
  - destruct Hbackup as [Hb|[_ Hfile]]; [|exists (reload s); rewrite Hnew by done; naive_solver].
    rewrite Hold, Hb, Hload. exists t0. split_and!; [done|by left|].
    intros Hr1. destruct (Hdone (Hr Hr1)) as [Hfile _].
    specialize (Hnew Hfile). rewrite Hold, Hb, Hload in Hnew. by injection Hnew.
  - exists (reload s). rewrite Hnew by done. naive_solver.
Qed.

(** With no fault and no leftover temporary file, what is saved is loaded. *)
Lemma save_then_load f tags p s fs :
  graph_safe (to_persisted s) →
  fs !! file_key (atomic_temp_path tags.1 p) = None →
  fs !! file_key (atomic_temp_path tags.2 (backup_path p)) = None →
  ∃ fs', save_as f tags p s [] fs = (Done (Ok tt), [], fs') ∧
    load_as f p [] fs' = (Done (Ok (reload s)), [], fs').
Proof.
  intros Hsafe Ht1 Ht2. destruct (snapshot_ok f s Hsafe) as (bs & Hbs & Hread & Hof).
  exists (<[file_key (backup_path p) := bs]> (<[file_key p := bs]> fs)).
  rewrite (save_as_runs _ _ _ _ _ _ _ Hbs), write_with_backup_runs by done.
  rewrite load_as_runs, lookup_insert_ne, lookup_insert_eq by apply backup_path_ne.
  by rewrite (load_result_primary _ _ _ _ Hread Hof).
Qed.



(** after a completed save, a file overwritten with bytes its format does
    not decode still loads from the backup, except that a JSON file that is no
    longer UTF-8, and a file that is gone, do not. *)
Theorem damaged_file_recovery f tags p s fs fs' damaged :
  store_wf s → graph_safe (to_persisted s) →
  save_as f tags p s [] fs = (Done (Ok tt), [], fs') →
  snapshot_of f damaged = None →
  (load_as f p [] (<[file_key p := damaged]> fs')).1.1 =
    Done (if readable f damaged then Ok (reload s) else Err (read_error f)) ∧
  (load_as f p [] (delete (file_key p) fs')).1.1 = Done (Err (read_error f)).
Proof.
  intros Hwf Hsafe Hsave Hbad. destruct (snapshot_ok f s Hsafe) as (bs & Hbs & Hread & Hof).
  rewrite (save_as_runs _ _ _ _ _ _ _ Hbs) in Hsave.
  destruct (write_file_atomically_with_backup tags p bs [] fs) as [[[[]|e|] fl1] fs1] eqn:Hw;
    [|done..]. injection Hsave as -> ->.
  apply (io_post_run _ _ _ _ _ _ _ (write_with_backup_post tags p bs fs)) in Hw
    as [_ _ _ Hdone]. destruct (Hdone eq_refl) as [_ Hb].
  rewrite !load_as_runs. unfold load_result, read_file. cbn.
  rewrite lookup_insert_eq, lookup_insert_ne, lookup_delete_eq, Hb
    by apply not_eq_sym, backup_path_ne. cbn.
  split; [|done]. destruct (readable f damaged); [|done]. cbn.
  by rewrite Hbad, Hread, Hof.
Qed.
End snapshots.

(** ** A serializer the laws hold of, and the theorems at a small store *)

Section witness.
#[local] Existing Instance serde_default.

#[export] Instance PersistedGraphStore_eq_dec : EqDecision PersistedGraphStore.
Proof. solve_decision. Defined.
#[export] Program Instance PersistedGraphStore_countable : Countable PersistedGraphStore :=
  inj_countable' (λ p, (pg_next_node_id p, pg_next_rel_id p, pg_nodes p, pg_rels p))
    (λ '(nn, nr, ns, rs), {| pg_next_node_id := nn; pg_next_rel_id := nr;
                             pg_nodes := ns; pg_rels := rs |}) _.
Next Obligation. by intros []. Qed.

#[export] Instance BinaryStoredNode_eq_dec : EqDecision BinaryStoredNode.
Proof. solve_decision. Defined.
#[export] Program Instance BinaryStoredNode_countable : Countable BinaryStoredNode :=
  inj_countable' (λ n, (bn_id n, bn_labels n, bn_props n))
    (λ '(i, l, p), {| bn_id := i; bn_labels := l; bn_props := p |}) _.
Next Obligation. by intros []. Qed.

#[export] Instance BinaryStoredRel_eq_dec : EqDecision BinaryStoredRel.
Proof. solve_decision. Defined.
#[export] Program Instance BinaryStoredRel_countable : Countable BinaryStoredRel :=
  inj_countable' (λ r, (br_id r, br_rel_type r, br_from r, br_to r, br_props r))
    (λ '(i, t, f, o, p), {| br_id := i; br_rel_type := t; br_from := f; br_to := o;
                            br_props := p |}) _.
Next Obligation. by intros []. Qed.

#[export] Instance BinaryPersistedGraphStore_eq_dec : EqDecision BinaryPersistedGraphStore.
Proof. solve_decision. Defined.
#[export] Program Instance BinaryPersistedGraphStore_countable :
    Countable BinaryPersistedGraphStore :=
  inj_countable' (λ p, (bpg_next_node_id p, bpg_next_rel_id p, bpg_nodes p, bpg_rels p))
    (λ '(nn, nr, ns, rs), {| bpg_next_node_id := nn; bpg_next_rel_id := nr;
                             bpg_nodes := ns; bpg_rels := rs |}) _.
Next Obligation. by intros []. Qed.

Definition digits_codec : SnapshotCodec := {|
  json_of_graph p := Some (to_digits p);
  graph_of_json := of_digits;
  json_of_value v := Some (to_digits v);
  value_of_json := of_digits;
  bytes_of_graph p := Some (to_digits p);
  graph_of_bytes := of_digits;
|}.
#[local] Existing Instance digits_codec.

Lemma digits_codec_laws : SnapshotLaws.
Proof.
  split.
  - intros p. exact (mk_is_Some _ _ eq_refl).
  - intros p b Hb. injection Hb as <-. apply to_digits_utf8.
  - intros p b Hb _. injection Hb as <-. apply of_to_digits.
  - intros v. exact (mk_is_Some _ _ eq_refl).
  - intros v b Hb _. injection Hb as <-. apply of_to_digits.
  - intros p. exact (mk_is_Some _ _ eq_refl).
  - intros p b Hb _. injection Hb as <-. apply of_to_digits.
Qed.
#[local] Existing Instance digits_codec_laws.

Definition w_path : Path := {| p_abs := false; p_comps := ["graphs"; "social.json"] |}.
Definition w_tags : string * string := ("17-1", "17-2").

Lemma w_store_safe : graph_safe (to_persisted w_store).
Proof. split; apply (bool_decide_unpack _); vm_compute; exact I. Qed.

Lemma w_empty_safe : graph_safe (to_persisted GraphStore_default).
Proof. split; apply map_Forall_empty. Qed.



Lemma damaged_file_recovery_witness :
  ∃ fs', save_as JsonFormat w_tags w_path w_store [] ∅ = (Done (Ok tt), [], fs') ∧
    (load_as JsonFormat w_path [] (<[file_key w_path := "garbage"]> fs')).1.1 =
      Done (if readable JsonFormat "garbage" then Ok (reload w_store)
            else Err (read_error JsonFormat)) ∧
    (load_as JsonFormat w_path [] (delete (file_key w_path) fs')).1.1 =
      Done (Err (read_error JsonFormat)).
Proof.
  destruct (save_then_load JsonFormat w_tags w_path w_store ∅ w_store_safe
    (lookup_empty _) (lookup_empty _))
    as (fs' & Hsave & _).
  exists fs'. split; [exact Hsave|].
  apply (damaged_file_recovery JsonFormat w_tags w_path w_store ∅ fs' "garbage");
    [apply w_store_wf|apply w_store_safe|exact Hsave|reflexivity].
Defined.
End witness.
