(* ===== verification/Tx.v ===== *)
(** * In-memory transactions

    Models [src/src/backend/inmemory/inmemorytx.rs] (the transaction, its
    delta, the visible view, the backend's snapshots) and the write and lookup
    operations of [src/src/backend/inmemory/graphtx.rs].

    Transactions share one store behind [Arc<Mutex<GraphStore>>]: an operation
    takes the store and its own transaction and returns both.  Every operation
    locks the store for its whole body or for single reads between which no
    other one of the same transaction runs, so one operation is one step. *)

From S2P Require Export Prelude Text Json Dsl Index Store.

Section tx.
Context `{SerdeNumber}.

Record TxDelta := {
  td_nodes : gmap Z StoredNode;
  td_deleted_nodes : gset Z;
  td_rels : gmap Z StoredRel;
  td_deleted_rels : gset Z;
}.

Definition TxDelta_default : TxDelta :=
  {| td_nodes := ∅; td_deleted_nodes := ∅; td_rels := ∅; td_deleted_rels := ∅ |}.

Record InMemoryTx := {
  tx_working_copy : option GraphStore;
  tx_delta : TxDelta;
  tx_committed : bool;
}.

(** [InMemoryTx::new] *)
Definition tx_new : InMemoryTx :=
  {| tx_working_copy := None; tx_delta := TxDelta_default; tx_committed := false |}.

Definition set_working (w : GraphStore) (tx : InMemoryTx) : InMemoryTx :=
  {| tx_working_copy := Some w; tx_delta := tx_delta tx; tx_committed := tx_committed tx |}.
Definition set_delta (d : TxDelta) (tx : InMemoryTx) : InMemoryTx :=
  {| tx_working_copy := tx_working_copy tx; tx_delta := d; tx_committed := tx_committed tx |}.
Definition set_committed (tx : InMemoryTx) : InMemoryTx :=
  {| tx_working_copy := tx_working_copy tx; tx_delta := tx_delta tx; tx_committed := true |}.

(** Assignments to the parts of [self.delta]. *)
Definition delta_insert_node (id : Z) (node : StoredNode) (d : TxDelta) : TxDelta :=
  {| td_nodes := <[id := node]> (td_nodes d); td_deleted_nodes := td_deleted_nodes d;
     td_rels := td_rels d; td_deleted_rels := td_deleted_rels d |}.
Definition delta_insert_rel (id : Z) (rel : StoredRel) (d : TxDelta) : TxDelta :=
  {| td_nodes := td_nodes d; td_deleted_nodes := td_deleted_nodes d;
     td_rels := <[id := rel]> (td_rels d); td_deleted_rels := td_deleted_rels d |}.
Definition delta_undelete_node (id : Z) (d : TxDelta) : TxDelta :=
  {| td_nodes := td_nodes d; td_deleted_nodes := td_deleted_nodes d ∖ {[id]};
     td_rels := td_rels d; td_deleted_rels := td_deleted_rels d |}.
Definition delta_undelete_rel (id : Z) (d : TxDelta) : TxDelta :=
  {| td_nodes := td_nodes d; td_deleted_nodes := td_deleted_nodes d;
     td_rels := td_rels d; td_deleted_rels := td_deleted_rels d ∖ {[id]} |}.

(** [if self.delta.nodes.remove(&id).is_none() { self.delta.deleted_nodes.insert(id); }] *)
Definition delta_remove_node (id : Z) (d : TxDelta) : TxDelta :=
  match td_nodes d !! id with
  | Some _ =>
      {| td_nodes := delete id (td_nodes d); td_deleted_nodes := td_deleted_nodes d;
         td_rels := td_rels d; td_deleted_rels := td_deleted_rels d |}
  | None =>
      {| td_nodes := td_nodes d; td_deleted_nodes := {[id]} ∪ td_deleted_nodes d;
         td_rels := td_rels d; td_deleted_rels := td_deleted_rels d |}
  end.
Definition delta_remove_rel (id : Z) (d : TxDelta) : TxDelta :=
  match td_rels d !! id with
  | Some _ =>
      {| td_nodes := td_nodes d; td_deleted_nodes := td_deleted_nodes d;
         td_rels := delete id (td_rels d); td_deleted_rels := td_deleted_rels d |}
  | None =>
      {| td_nodes := td_nodes d; td_deleted_nodes := td_deleted_nodes d;
         td_rels := td_rels d; td_deleted_rels := {[id]} ∪ td_deleted_rels d |}
  end.

(** ** Applying the delta, the working copy, ids *)

Definition bump_node_id (id : Z) (s : GraphStore) : GraphStore :=
  set_next_ids (Z.max (next_node_id s) (i64_add id 1)) (next_rel_id s) s.
Definition bump_rel_id (id : Z) (s : GraphStore) : GraphStore :=
  set_next_ids (next_node_id s) (Z.max (next_rel_id s) (i64_add id 1)) s.

Definition apply_delta_to (d : TxDelta) (s : GraphStore) : GraphStore :=
  let s := foldl (λ s id, (remove_node id s).2) s (bs_iter (td_deleted_nodes d)) in
  let s := foldl (λ s id, (remove_relationship id s).2) s (bs_iter (td_deleted_rels d)) in
  let s := foldl (λ s '(id, node), (insert_node id node (bump_node_id id s)).2)
                 s (bt_iter (td_nodes d)) in
  foldl (λ s '(id, rel), (insert_relationship id rel (bump_rel_id id s)).2)
        s (bt_iter (td_rels d)).

Definition materialize_working_copy (s : GraphStore) (tx : InMemoryTx) : InMemoryTx :=
  match tx_working_copy tx with
  | Some _ => tx
  | None => set_working (apply_delta_to (tx_delta tx) s) tx
  end.

Definition allocate_node_id (s : GraphStore) : Z * GraphStore :=
  (next_node_id s, set_next_ids (i64_add (next_node_id s) 1) (next_rel_id s) s).
Definition allocate_rel_id (s : GraphStore) : Z * GraphStore :=
  (next_rel_id s, set_next_ids (next_node_id s) (i64_add (next_rel_id s) 1) s).

(** ** The visible view *)

(** [a.or_else(|| b)] *)
Definition or_else {A} (a b : option A) : option A :=
  match a with Some x => Some x | None => b end.

Definition visible_node (s : GraphStore) (tx : InMemoryTx) (id : Z) : option StoredNode :=
  match tx_working_copy tx with
  | Some w => nodes w !! id
  | None =>
      if decide (id ∈ td_deleted_nodes (tx_delta tx)) then None
      else or_else (td_nodes (tx_delta tx) !! id) (nodes s !! id)
  end.

Definition visible_rel (s : GraphStore) (tx : InMemoryTx) (id : Z) : option StoredRel :=
  match tx_working_copy tx with
  | Some w => rels w !! id
  | None =>
      if decide (id ∈ td_deleted_rels (tx_delta tx)) then None
      else
        rel ← or_else (td_rels (tx_delta tx) !! id) (rels s !! id);
        if decide (sr_from rel ∈ td_deleted_nodes (tx_delta tx)) then None
        else if decide (sr_to rel ∈ td_deleted_nodes (tx_delta tx)) then None
        else Some rel
  end.

Definition visible_nodes_by_property (key : string) (value : Value)
    (s : GraphStore) (tx : InMemoryTx) : list StoredNode * GraphStore :=
  match tx_working_copy tx with
  | Some w => (filter (λ node, node_has_value key value node) (bt_values (nodes w)), s)
  | None =>
      let d := tx_delta tx in
      let '(ids, s) := node_ids_by_property key value s in
      let base :=
        filter (λ node, bool_decide (sn_id node ∉ td_deleted_nodes d)
                        && bool_decide (td_nodes d !! sn_id node = None)
                        && node_has_value key value node)
               (omap (λ id, nodes s !! id) ids) in
      (base ++ filter (λ node, node_has_value key value node) (bt_values (td_nodes d)), s)
  end.

(** ** Adjacency *)

Definition rel_matches_neighbor (rel : StoredRel) (node : Z) (rel_type : option string)
    (dir : Direction) : bool :=
  type_matches rel_type rel &&
  match dir with
  | DirOut => (sr_from rel =? node)%Z
  | DirIn => (sr_to rel =? node)%Z
  | DirBoth => (sr_from rel =? node)%Z || (sr_to rel =? node)%Z
  end.

Definition neighbor_id (rel : StoredRel) (node : Z) (dir : Direction) : option Z :=
  match dir with
  | DirOut => if (sr_from rel =? node)%Z then Some (sr_to rel) else None
  | DirIn => if (sr_to rel =? node)%Z then Some (sr_from rel) else None
  | DirBoth =>
      if (sr_from rel =? node)%Z then Some (sr_to rel)
      else if (sr_to rel =? node)%Z then Some (sr_from rel) else None
  end.

Definition relationship_ids (node : Z) (rel_type : option string) (dir : Direction)
    (s : GraphStore) : list Z :=
  match dir with
  | DirOut => outgoing_relationship_ids node rel_type s
  | DirIn => incoming_relationship_ids node rel_type s
  | DirBoth =>
      outgoing_relationship_ids node rel_type s ++ incoming_relationship_ids node rel_type s
  end.

(** The loop over relationship ids of both pair collectors: an id already
    seen is skipped, and so is one [pair] has no answer for. *)
Definition collect_pairs (pair : Z → option (StoredRel * StoredNode))
    (seen : gset Z) (ids : list Z) : gset Z * list (StoredRel * StoredNode) :=
  foldl (λ '(seen, pairs) rel_id,
           if decide (rel_id ∈ seen) then (seen, pairs)
           else ({[rel_id]} ∪ seen,
                 match pair rel_id with Some p => pairs ++ [p] | None => pairs end))
        (seen, []) ids.

Definition materialized_neighbor_pairs (w : GraphStore) (node : Z)
    (rel_type : option string) (dir : Direction) : list (StoredRel * StoredNode) :=
  (collect_pairs
     (λ rel_id,
        rel ← rels w !! rel_id;
        id ← neighbor_id rel node dir;
        neighbor ← nodes w !! id;
        Some (rel, neighbor)) ∅ (relationship_ids node rel_type dir w)).2.

Definition visible_neighbor_pair (s : GraphStore) (tx : InMemoryTx) (node rel_id : Z)
    (dir : Direction) : option (StoredRel * StoredNode) :=
  rel ← visible_rel s tx rel_id;
  id ← neighbor_id rel node dir;
  neighbor ← visible_node s tx id;
  Some (rel, neighbor).

Definition visible_neighbor_pairs (node : Z) (rel_type : option string) (dir : Direction)
    (s : GraphStore) (tx : InMemoryTx) : list (StoredRel * StoredNode) :=
  match tx_working_copy tx with
  | Some w => materialized_neighbor_pairs w node rel_type dir
  | None =>
      let d := tx_delta tx in
      if decide (node ∈ td_deleted_nodes d) then []
      else if bool_decide (td_nodes d !! node = None) && bool_decide (nodes s !! node = None)
      then []
      else
        let '(seen, pairs) :=
          collect_pairs (λ rel_id, visible_neighbor_pair s tx node rel_id dir) ∅
                        (relationship_ids node rel_type dir s) in
        (foldl (λ '(seen, pairs) rel,
                  if negb (rel_matches_neighbor rel node rel_type dir)
                  then (seen, pairs)
                  else if decide (sr_id rel ∈ seen) then (seen, pairs)
                  else ({[sr_id rel]} ∪ seen,
                        match id ← neighbor_id rel node dir; visible_node s tx id with
                        | Some neighbor => pairs ++ [(rel, neighbor)]
                        | None => pairs
                        end))
               (seen, pairs) (bt_values (td_rels d))).2
  end.

Definition visible_related_rel_ids (node : Z) (s : GraphStore) (tx : InMemoryTx) : gset Z :=
  match tx_working_copy tx with
  | Some w =>
      list_to_set (map sr_id (filter (λ rel, rel_touches node rel) (bt_values (rels w))))
  | None =>
      let d := tx_delta tx in
      if decide (node ∈ td_deleted_nodes d) then ∅
      else if bool_decide (td_nodes d !! node = None) && bool_decide (nodes s !! node = None)
      then ∅
      else
        let ids : gset Z :=
          list_to_set (outgoing_relationship_ids node None s
                       ++ incoming_relationship_ids node None s) in
        filter (λ id, is_Some (visible_rel s tx id)) ids
        ∪ list_to_set (map sr_id (filter (λ rel, rel_touches node rel)
                                         (bt_values (td_rels d))))
  end.

(** ** Operations ([graphtx.rs])

    Every one of them returns [Ok]; the value below is the one inside. *)

(** [for (k, v) in props { node.props.insert(k, v); }] *)
Definition node_with_props (node : StoredNode) (props : Props) : StoredNode :=
  {| sn_id := sn_id node; sn_labels := sn_labels node;
     sn_props := bt_extend (sn_props node) (bt_iter props) |}.
Definition rel_with_props (rel : StoredRel) (props : Props) : StoredRel :=
  {| sr_id := sr_id rel; sr_rel_type := sr_rel_type rel; sr_from := sr_from rel;
     sr_to := sr_to rel; sr_props := bt_extend (sr_props rel) (bt_iter props) |}.

Definition create_node (labels : list string) (props : Props)
    (s : GraphStore) (tx : InMemoryTx) : StoredNode * GraphStore * InMemoryTx :=
  let '(id, s) := allocate_node_id s in
  let node := {| sn_id := id; sn_labels := labels; sn_props := props |} in
  let d := delta_insert_node id node (delta_undelete_node id (tx_delta tx)) in
  match tx_working_copy tx with
  | Some w =>
      let w := (insert_node id node (bump_node_id id w)).2 in
      (node, s, set_delta d (set_working w tx))
  | None => (node, s, set_delta d tx)
  end.

Definition create_nodes_step
    (st : list StoredNode * GraphStore * InMemoryTx) (insert : list string * Props)
    : list StoredNode * GraphStore * InMemoryTx :=
  let '(created, s, tx) := st in
  let '(labels, props) := insert in
  let '(id, s) := allocate_node_id s in
  let node := {| sn_id := id; sn_labels := labels; sn_props := props |} in
  let d := delta_insert_node id node (delta_undelete_node id (tx_delta tx)) in
  match tx_working_copy tx with
  | Some w =>
      let w := (insert_node_deferred_property_index id node (bump_node_id id w)).2 in
      (created ++ [node], s, set_delta d (set_working w tx))
  | None => (created ++ [node], s, set_delta d tx)
  end.

Definition create_nodes (inserts : list (list string * Props))
    (s : GraphStore) (tx : InMemoryTx) : list StoredNode * GraphStore * InMemoryTx :=
  foldl create_nodes_step ([], s, tx) inserts.

Definition update_node (id : Z) (props : Props) (s : GraphStore) (tx : InMemoryTx)
    : option StoredNode * InMemoryTx :=
  let d := tx_delta tx in
  match tx_working_copy tx with
  | Some w =>
      match nodes w !! id with
      | Some node =>
          let node := node_with_props node props in
          (Some node,
           set_delta (delta_insert_node id node (delta_undelete_node id d))
                     (set_working (insert_node id node w).2 tx))
      | None => (None, tx)
      end
  | None =>
      if decide (id ∈ td_deleted_nodes d) then (None, tx)
      else
        match or_else (td_nodes d !! id) (nodes s !! id) with
        | Some node =>
            let node := node_with_props node props in
            (Some node, set_delta (delta_insert_node id node d) tx)
        | None => (None, tx)
        end
  end.

Definition delete_node (id : Z) (s : GraphStore) (tx : InMemoryTx) : InMemoryTx :=
  let related_rel_ids := visible_related_rel_ids id s tx in
  let tx :=
    match tx_working_copy tx with
    | Some w => set_working (remove_node id w).2 tx
    | None => tx
    end in
  let d := delta_remove_node id (tx_delta tx) in
  let d := foldl (λ d rel_id, delta_remove_rel rel_id d) d (bs_iter related_rel_ids) in
  set_delta d tx.

Definition find_node_by_id (id : Z) (s : GraphStore) (tx : InMemoryTx)
    : option StoredNode :=
  match tx_working_copy tx with
  | Some w => nodes w !! id
  | None =>
      if decide (id ∈ td_deleted_nodes (tx_delta tx)) then None
      else or_else (td_nodes (tx_delta tx) !! id) (nodes s !! id)
  end.

Definition find_nodes_by_property (key : string) (value : Value)
    (s : GraphStore) (tx : InMemoryTx) : list StoredNode * GraphStore :=
  visible_nodes_by_property key value s tx.

Definition create_relationship (from to : Z) (rel_type : string) (props : Props)
    (s : GraphStore) (tx : InMemoryTx) : StoredRel * GraphStore * InMemoryTx :=
  let '(id, s) := allocate_rel_id s in
  let rel := {| sr_id := id; sr_rel_type := rel_type; sr_from := from; sr_to := to;
                sr_props := props |} in
  let d := delta_insert_rel id rel (delta_undelete_rel id (tx_delta tx)) in
  match tx_working_copy tx with
  | Some w =>
      let w := (insert_relationship id rel (bump_rel_id id w)).2 in
      (rel, s, set_delta d (set_working w tx))
  | None => (rel, s, set_delta d tx)
  end.

(** The working copy's relationship is updated in place, past its indexes. *)
Definition update_relationship (id : Z) (props : Props) (s : GraphStore) (tx : InMemoryTx)
    : option StoredRel * InMemoryTx :=
  let d := tx_delta tx in
  match tx_working_copy tx with
  | Some w =>
      match rels w !! id with
      | Some rel =>
          let rel := rel_with_props rel props in
          (Some rel,
           set_delta (delta_insert_rel id rel (delta_undelete_rel id d))
                     (set_working (set_rels (<[id := rel]> (rels w)) w) tx))
      | None => (None, tx)
      end
  | None =>
      if decide (id ∈ td_deleted_rels d) then (None, tx)
      else
        match or_else (td_rels d !! id) (rels s !! id) with
        | Some rel =>
            let rel := rel_with_props rel props in
            (Some rel, set_delta (delta_insert_rel id rel d) tx)
        | None => (None, tx)
        end
  end.

Definition delete_relationship (id : Z) (tx : InMemoryTx) : InMemoryTx :=
  let tx :=
    match tx_working_copy tx with
    | Some w => set_working (remove_relationship id w).2 tx
    | None => tx
    end in
  set_delta (delta_remove_rel id (tx_delta tx)) tx.

Definition tx_outgoing (from : Z) (rel_type : option string) (s : GraphStore)
    (tx : InMemoryTx) : list (StoredRel * StoredNode) :=
  visible_neighbor_pairs from rel_type DirOut s tx.
Definition tx_incoming (to : Z) (rel_type : option string) (s : GraphStore)
    (tx : InMemoryTx) : list (StoredRel * StoredNode) :=
  visible_neighbor_pairs to rel_type DirIn s tx.
Definition tx_both (node : Z) (rel_type : option string) (s : GraphStore)
    (tx : InMemoryTx) : list (StoredRel * StoredNode) :=
  visible_neighbor_pairs node rel_type DirBoth s tx.

(** [commit] and [rollback] consume the transaction. *)
Definition tx_commit (s : GraphStore) (tx : InMemoryTx) : GraphStore * InMemoryTx :=
  (apply_delta_to (tx_delta tx) s, set_committed tx).
Definition tx_rollback (s : GraphStore) (tx : InMemoryTx) : GraphStore * InMemoryTx :=
  (s, set_committed tx).

(** ** The backend's snapshots *)

Definition snapshot_nodes (s : GraphStore) : list StoredNode := bt_values (nodes s).
Definition snapshot_relationships (s : GraphStore) : list StoredRel := bt_values (rels s).

Definition snapshot_nodes_filtered (label : string) (id : option Z)
    (property : option (string * Value)) (s : GraphStore) : list StoredNode * GraphStore :=
  match id with
  | Some id =>
      (match nodes s !! id with
       | Some node => if existsb (λ l, String.eqb l label) (sn_labels node) then [node] else []
       | None => []
       end, s)
  | None =>
      let '(node_ids, s) :=
        match property with
        | Some (key, value) => node_ids_by_label_property label key value s
        | None => (node_ids_by_label label s, s)
        end in
      (omap (λ id, nodes s !! id) node_ids, s)
  end.

Definition rel_selected (rel_type : string) (from to : option Z) (rel : StoredRel) : bool :=
  String.eqb (sr_rel_type rel) rel_type
  && match from with Some from => (sr_from rel =? from)%Z | None => true end
  && match to with Some to => (sr_to rel =? to)%Z | None => true end.

Definition snapshot_relationships_filtered (rel_type : string) (id from to : option Z)
    (s : GraphStore) : list StoredRel :=
  match id with
  | Some id =>
      match rels s !! id with
      | Some rel => if rel_selected rel_type from to rel then [rel] else []
      | None => []
      end
  | None =>
      let rel_ids :=
        match from, to with
        | Some from, Some to =>
            let outgoing := outgoing_relationship_ids from (Some rel_type) s in
            let incoming := incoming_relationship_ids to (Some rel_type) s in
            if (length outgoing <=? length incoming)%nat then outgoing else incoming
        | Some from, None => outgoing_relationship_ids from (Some rel_type) s
        | None, Some to => incoming_relationship_ids to (Some rel_type) s
        | None, None => relationship_ids_by_type rel_type s
        end in
      filter (λ rel, rel_selected rel_type from to rel) (omap (λ id, rels s !! id) rel_ids)
  end.
End tx.

(** ** The specification: one graph, changed in place *)

Section spec.
Context `{SerdeNumber}.

Record AGraph := {
  ag_nodes : gmap Z StoredNode;
  ag_rels : gmap Z StoredRel;
  ag_next_node : Z;
  ag_next_rel : Z;
}.

Inductive TxOp :=
  | CreateNode (labels : list string) (props : Props)
  | UpdateNode (id : Z) (props : Props)
  | DeleteNode (id : Z)
  | FindNode (id : Z)
  | CreateRelationship (from to : Z) (rel_type : string) (props : Props)
  | UpdateRelationship (id : Z) (props : Props)
  | DeleteRelationship (id : Z).

Inductive TxResult :=
  | RNode (node : StoredNode)
  | RNodeOpt (node : option StoredNode)
  | RRel (rel : StoredRel)
  | RRelOpt (rel : option StoredRel)
  | RUnit.

(** What each operation means on a graph. *)
Definition spec_step (op : TxOp) (g : AGraph) : TxResult * AGraph :=
  match op with
  | CreateNode labels props =>
      let id := ag_next_node g in
      let node := {| sn_id := id; sn_labels := labels; sn_props := props |} in
      (RNode node,
       {| ag_nodes := <[id := node]> (ag_nodes g); ag_rels := ag_rels g;
          ag_next_node := id + 1; ag_next_rel := ag_next_rel g |})
  | UpdateNode id props =>
      match ag_nodes g !! id with
      | Some node =>
          let node := {| sn_id := sn_id node; sn_labels := sn_labels node;
                         sn_props := props ∪ sn_props node |} in
          (RNodeOpt (Some node),
           {| ag_nodes := <[id := node]> (ag_nodes g); ag_rels := ag_rels g;
              ag_next_node := ag_next_node g; ag_next_rel := ag_next_rel g |})
      | None => (RNodeOpt None, g)
      end
  | DeleteNode id =>
      (RUnit,
       {| ag_nodes := delete id (ag_nodes g);
          ag_rels := filter (λ e, rel_touches id e.2 = false) (ag_rels g);
          ag_next_node := ag_next_node g; ag_next_rel := ag_next_rel g |})
  | FindNode id => (RNodeOpt (ag_nodes g !! id), g)
  | CreateRelationship from to rel_type props =>
      let id := ag_next_rel g in
      let rel := {| sr_id := id; sr_rel_type := rel_type; sr_from := from; sr_to := to;
                    sr_props := props |} in
      (RRel rel,
       {| ag_nodes := ag_nodes g; ag_rels := <[id := rel]> (ag_rels g);
          ag_next_node := ag_next_node g; ag_next_rel := id + 1 |})
  | UpdateRelationship id props =>
      match ag_rels g !! id with
      | Some rel =>
          let rel := {| sr_id := sr_id rel; sr_rel_type := sr_rel_type rel;
                        sr_from := sr_from rel; sr_to := sr_to rel;
                        sr_props := props ∪ sr_props rel |} in
          (RRelOpt (Some rel),
           {| ag_nodes := ag_nodes g; ag_rels := <[id := rel]> (ag_rels g);
              ag_next_node := ag_next_node g; ag_next_rel := ag_next_rel g |})
      | None => (RRelOpt None, g)
      end
  | DeleteRelationship id =>
      (RUnit,
       {| ag_nodes := ag_nodes g; ag_rels := delete id (ag_rels g);
          ag_next_node := ag_next_node g; ag_next_rel := ag_next_rel g |})
  end%Z.

(** The same operations on the shared store and the transaction. *)
Definition tx_step (op : TxOp) (s : GraphStore) (tx : InMemoryTx)
    : TxResult * GraphStore * InMemoryTx :=
  match op with
  | CreateNode labels props =>
      let '(node, s, tx) := create_node labels props s tx in (RNode node, s, tx)
  | UpdateNode id props =>
      let '(node, tx) := update_node id props s tx in (RNodeOpt node, s, tx)
  | DeleteNode id => (RUnit, s, delete_node id s tx)
  | FindNode id => (RNodeOpt (find_node_by_id id s tx), s, tx)
  | CreateRelationship from to rel_type props =>
      let '(rel, s, tx) := create_relationship from to rel_type props s tx in
      (RRel rel, s, tx)
  | UpdateRelationship id props =>
      let '(rel, tx) := update_relationship id props s tx in (RRelOpt rel, s, tx)
  | DeleteRelationship id => (RUnit, s, delete_relationship id tx)
  end.

(** *** Abstraction: the view of a transaction in delta mode *)

Definition view_nodes (s : GraphStore) (tx : InMemoryTx) : gmap Z StoredNode :=
  filter (λ e, e.1 ∉ td_deleted_nodes (tx_delta tx)) (td_nodes (tx_delta tx) ∪ nodes s).

Definition view_rels (s : GraphStore) (tx : InMemoryTx) : gmap Z StoredRel :=
  filter (λ e, (e.1 ∉ td_deleted_rels (tx_delta tx)) ∧
               (sr_from e.2 ∉ td_deleted_nodes (tx_delta tx)) ∧
               sr_to e.2 ∉ td_deleted_nodes (tx_delta tx))
         (td_rels (tx_delta tx) ∪ rels s).

Definition view (s : GraphStore) (tx : InMemoryTx) : AGraph :=
  {| ag_nodes := view_nodes s tx; ag_rels := view_rels s tx;
     ag_next_node := next_node_id s; ag_next_rel := next_rel_id s |}.

Definition graph_of (s : GraphStore) : AGraph :=
  {| ag_nodes := nodes s; ag_rels := rels s;
     ag_next_node := next_node_id s; ag_next_rel := next_rel_id s |}.

(** An entity the transaction changed and the store also has. *)
Definition updated_node (s : GraphStore) (tx : InMemoryTx) (id : Z) : Prop :=
  is_Some (td_nodes (tx_delta tx) !! id) ∧ is_Some (nodes s !! id).
Definition updated_rel (s : GraphStore) (tx : InMemoryTx) (id : Z) : Prop :=
  is_Some (td_rels (tx_delta tx) !! id) ∧ is_Some (rels s !! id).

(** The operations that mean what they say: ids do not overflow, a new
    relationship has visible ends, and nothing updated in the transaction is
    deleted in it (see [update_then_delete_survives]). *)
Definition legal (op : TxOp) (s : GraphStore) (tx : InMemoryTx) : Prop :=
  match op with
  | CreateNode _ _ => (next_node_id s < i64_max)%Z
  | DeleteNode id =>
      ¬ updated_node s tx id ∧
      ∀ r rel, rels s !! r = Some rel → rel_touches id rel = true → ¬ updated_rel s tx r
  | CreateRelationship from to _ _ =>
      (next_rel_id s < i64_max)%Z ∧
      is_Some (view_nodes s tx !! from) ∧ is_Some (view_nodes s tx !! to)
  | DeleteRelationship id => ¬ updated_rel s tx id
  | UpdateNode _ _ | FindNode _ | UpdateRelationship _ _ => True
  end.

Record tx_inv (s : GraphStore) (tx : InMemoryTx) : Prop := {
  ti_wf : store_wf s;
  ti_closed : no_dangling s;
  ti_mode : tx_working_copy tx = None;
  ti_node id node :
    td_nodes (tx_delta tx) !! id = Some node →
    sn_id node = id ∧ id ∉ td_deleted_nodes (tx_delta tx);
  ti_rel id rel :
    td_rels (tx_delta tx) !! id = Some rel →
    sr_id rel = id ∧ (id ∉ td_deleted_rels (tx_delta tx)) ∧
    is_Some (view_nodes s tx !! sr_from rel) ∧ is_Some (view_nodes s tx !! sr_to rel);
  ti_shape id rel base :
    td_rels (tx_delta tx) !! id = Some rel → rels s !! id = Some base →
    sr_from rel = sr_from base ∧ sr_to rel = sr_to base ∧
    sr_rel_type rel = sr_rel_type base;
  ti_dead id rel n :
    rels s !! id = Some rel → n ∈ td_deleted_nodes (tx_delta tx) →
    rel_touches n rel = true → id ∈ td_deleted_rels (tx_delta tx);
  ti_next_node id :
    is_Some (nodes s !! id) ∨ is_Some (td_nodes (tx_delta tx) !! id) →
    (i64_min ≤ id < next_node_id s)%Z;
  ti_next_rel id :
    is_Some (rels s !! id) ∨ is_Some (td_rels (tx_delta tx) !! id) →
    (i64_min ≤ id < next_rel_id s)%Z;
  ti_bounds : (i64_min ≤ next_node_id s ≤ i64_max)%Z ∧ (i64_min ≤ next_rel_id s ≤ i64_max)%Z;
}.
End spec.

(** ** Every operation simulates its meaning *)

Section simulation.
Context `{SerdeNumber}.
Implicit Types (s : GraphStore) (tx : InMemoryTx).

Lemma view_nodes_lookup s tx id :
  view_nodes s tx !! id =
  if decide (id ∈ td_deleted_nodes (tx_delta tx)) then None
  else or_else (td_nodes (tx_delta tx) !! id) (nodes s !! id).
Proof.
  unfold view_nodes. rewrite map_lookup_filter, lookup_union.
  destruct (td_nodes _ !! id), (nodes s !! id); cbn;
    repeat (case_decide || case_guard); cbn in *; naive_solver.
Qed.

Lemma view_rels_lookup s tx id :
  view_rels s tx !! id =
  if decide (id ∈ td_deleted_rels (tx_delta tx)) then None
  else
    rel ← or_else (td_rels (tx_delta tx) !! id) (rels s !! id);
    if decide (sr_from rel ∈ td_deleted_nodes (tx_delta tx)) then None
    else if decide (sr_to rel ∈ td_deleted_nodes (tx_delta tx)) then None
    else Some rel.
Proof.
  unfold view_rels. rewrite map_lookup_filter, lookup_union.
  assert (union (td_rels (tx_delta tx) !! id) (rels s !! id)
          = or_else (td_rels (tx_delta tx) !! id) (rels s !! id)) as ->
    by (by destruct (td_rels _ !! id), (rels s !! id)).
  destruct (or_else _ _) as [rel|]; cbn; [|by case_decide].
  repeat (case_decide || case_guard); cbn in *; naive_solver.
Qed.

(** In delta mode the map is what the lookups see. *)
Lemma visible_node_view s tx id :
  tx_working_copy tx = None → visible_node s tx id = view_nodes s tx !! id.
Proof. intros Hm. unfold visible_node. by rewrite Hm, view_nodes_lookup. Qed.
Lemma visible_rel_view s tx id :
  tx_working_copy tx = None → visible_rel s tx id = view_rels s tx !! id.
Proof. intros Hm. unfold visible_rel. by rewrite Hm, view_rels_lookup. Qed.

Lemma view_node_Some s tx id node :
  view_nodes s tx !! id = Some node ↔
  (id ∉ td_deleted_nodes (tx_delta tx)) ∧
  (td_nodes (tx_delta tx) !! id = Some node ∨
   (td_nodes (tx_delta tx) !! id = None ∧ nodes s !! id = Some node)).
Proof.
  rewrite view_nodes_lookup. case_decide; destruct (td_nodes _ !! id); naive_solver.
Qed.

(** Under the invariant a relationship is hidden only by its own deletion. *)
Lemma view_rel_Some s tx id rel :
  tx_inv s tx →
  view_rels s tx !! id = Some rel ↔
  (id ∉ td_deleted_rels (tx_delta tx)) ∧
  (td_rels (tx_delta tx) !! id = Some rel ∨
   (td_rels (tx_delta tx) !! id = None ∧ rels s !! id = Some rel)).
Proof.
  intros Hinv. rewrite view_rels_lookup. case_decide as Hd; [naive_solver|].
  destruct (td_rels (tx_delta tx) !! id) as [rel'|] eqn:Htd; cbn.
  - destruct (ti_rel _ _ Hinv _ _ Htd) as (_ & _ & [n1 Hf%view_node_Some] & [n2 Ht%view_node_Some]).
    rewrite !decide_False by tauto. naive_solver.
  - destruct (rels s !! id) as [rel'|] eqn:Hs; cbn; [|naive_solver].
    rewrite !decide_False; [naive_solver|..]; intros Hin; apply Hd;
      (eapply (ti_dead _ _ Hinv); [done|exact Hin|]); apply rel_touches_true; auto.
Qed.

(** The view is closed: a visible relationship has visible ends. *)
Lemma view_closed s tx id rel :
  tx_inv s tx → view_rels s tx !! id = Some rel →
  is_Some (view_nodes s tx !! sr_from rel) ∧ is_Some (view_nodes s tx !! sr_to rel).
Proof.
  intros Hinv Hv. apply (view_rel_Some _ _ _ _ Hinv) in Hv as [Hd [Htd|[Htd Hs]]].
  - by apply (ti_rel _ _ Hinv) in Htd as (_ & _ & ? & ?).
  - destruct (ti_closed _ _ Hinv _ _ Hs) as [[nf Hf] [nt Ht]].
    assert (∀ n node, nodes s !! n = Some node → rel_touches n rel = true →
              is_Some (view_nodes s tx !! n)) as Haux.
    { intros n node Hn Htouch. rewrite view_nodes_lookup, decide_False.
      - rewrite Hn. by destruct (td_nodes _ !! n).
      - intros Hin. apply Hd. by eapply (ti_dead _ _ Hinv). }
    split; eapply Haux; eauto; apply rel_touches_true; auto.
Qed.

Lemma new_inv s :
  store_wf s → no_dangling s →
  (∀ id, is_Some (nodes s !! id) → (i64_min ≤ id < next_node_id s)%Z) →
  (∀ id, is_Some (rels s !! id) → (i64_min ≤ id < next_rel_id s)%Z) →
  (i64_min ≤ next_node_id s ≤ i64_max)%Z → (i64_min ≤ next_rel_id s ≤ i64_max)%Z →
  tx_inv s tx_new.
Proof.
  intros. split; cbn; try done; setoid_rewrite lookup_empty; try done;
    intros id [|[]]; try done; auto.
Qed.

Lemma view_new s : view s tx_new = graph_of s.
Proof.
  unfold view, graph_of. f_equal; apply map_eq; intros i.
  - rewrite view_nodes_lookup. cbn. rewrite decide_False by set_solver.
    by rewrite lookup_empty.
  - rewrite view_rels_lookup. cbn. rewrite decide_False by set_solver.
    rewrite lookup_empty. cbn. destruct (rels s !! i); cbn; [|done].
    by rewrite !decide_False by set_solver.
Qed.

Lemma set_next_ids_wf nn nr s : store_wf s → store_wf (set_next_ids nn nr s).
Proof. intros []. by split. Qed.

Lemma set_next_ids_no_dangling nn nr s : no_dangling s → no_dangling (set_next_ids nn nr s).
Proof. done. Qed.

(** The statement of the simulation, for one operation. *)
Definition simulates op s tx : Prop :=
  let '(r, s', tx') := tx_step op s tx in
  spec_step op (view s tx) = (r, view s' tx') ∧ tx_inv s' tx'.

Lemma AGraph_eq n1 r1 nn1 nr1 n2 r2 nn2 nr2 :
  (∀ i, n1 !! i = n2 !! i) → (∀ i, r1 !! i = r2 !! i) → nn1 = nn2 → nr1 = nr2 →
  {| ag_nodes := n1; ag_rels := r1; ag_next_node := nn1; ag_next_rel := nr1 |} =
  {| ag_nodes := n2; ag_rels := r2; ag_next_node := nn2; ag_next_rel := nr2 |}.
Proof. intros Hn Hr -> ->. f_equal; by apply map_eq. Qed.

(** The two parts of a view are determined by membership. *)
Lemma view_rels_ext s tx s' tx' i :
  (∀ rel, view_rels s tx !! i = Some rel ↔ view_rels s' tx' !! i = Some rel) →
  view_rels s tx !! i = view_rels s' tx' !! i.
Proof. intros Hiff. apply option_eq. exact Hiff. Qed.

Lemma sim_create_node labels props s tx :
  tx_inv s tx → legal (CreateNode labels props) s tx →
  simulates (CreateNode labels props) s tx.
Proof.
  intros Hinv Hlt. cbn in Hlt. unfold simulates, tx_step, create_node, allocate_node_id.
  rewrite (ti_mode _ _ Hinv). destruct (ti_bounds _ _ Hinv) as [Hb Hbr].
  set (id := next_node_id s). set (node := {| sn_id := id |}).
  rewrite i64_add_small by (unfold id; lia). set (s' := set_next_ids _ _ s).
  set (tx' := set_delta _ tx).
  assert (nodes s !! id = None ∧ td_nodes (tx_delta tx) !! id = None) as [Hns Hnt].
  { split; apply eq_None_not_Some; intros Hsome;
      assert (i64_min ≤ id < next_node_id s)%Z by (apply (ti_next_node _ _ Hinv); auto);
      unfold id in *; lia. }
  assert (∀ i, view_nodes s' tx' !! i = if decide (i = id) then Some node
                                        else view_nodes s tx !! i) as Hvn.
  { intros i. rewrite !view_nodes_lookup. cbn. case_decide; case_decide; subst.
    - set_solver.
    - by rewrite decide_True by set_solver.
    - by rewrite lookup_insert_eq.
    - rewrite lookup_insert_ne by done. rewrite (decide_False (P:=_ ∈ _)) by set_solver. done. }
  assert (tx_inv s' tx') as Hinv'.
  { split; cbn.
    - apply set_next_ids_wf, (ti_wf _ _ Hinv).
    - apply (ti_closed _ _ Hinv).
    - apply (ti_mode _ _ Hinv).
    - intros i n [[<- <-]|[Hi Hn]]%lookup_insert_Some; [split; [done|set_solver]|].
      apply (ti_node _ _ Hinv) in Hn as [? ?]. set_solver.
    - intros i r Hr. apply (ti_rel _ _ Hinv) in Hr as (? & ? & Hf & Ht).
      rewrite !Hvn. split_and!; [done..| |]; by case_decide.
    - apply (ti_shape _ _ Hinv).
    - intros i r n Hr Hn. apply (ti_dead _ _ Hinv i r n Hr). set_solver.
    - intros i Hi. assert (i = id ∨ (i64_min ≤ i < next_node_id s)%Z); [|unfold id in *; lia].
      destruct (decide (i = id)) as [|Hne]; [by left|right]. apply (ti_next_node _ _ Hinv).
      by rewrite lookup_insert_ne in Hi by done.
    - apply (ti_next_rel _ _ Hinv).
    - unfold id in *. lia. }
  split; [|done]. cbn. f_equal. apply AGraph_eq; try done; intros i.
  - rewrite Hvn. fold id. destruct (decide (i = id)) as [->|]; [by rewrite lookup_insert_eq|].
    by rewrite lookup_insert_ne.
  - apply option_eq; intros rel. by rewrite !view_rel_Some by done.
Qed.

Lemma sim_update_node id props s tx :
  tx_inv s tx → simulates (UpdateNode id props) s tx.
Proof.
  intros Hinv. unfold simulates, tx_step, update_node. rewrite (ti_mode _ _ Hinv). cbn.
  destruct (view_nodes s tx !! id) as [node|] eqn:Hv; rewrite view_nodes_lookup in Hv;
    (case_decide as Hd; [done|]); rewrite Hv; [|by repeat case_decide].
  unfold node_with_props. rewrite lookup_bt_extend_iter. set (node' := {| sn_id := _ |}).
  set (tx' := set_delta _ tx).
  assert (sn_id node = id) as Hid.
  { destruct (td_nodes (tx_delta tx) !! id) as [n|] eqn:Htd; cbn in Hv.
    - injection Hv as ->. by apply (ti_node _ _ Hinv) in Htd as [].
    - by apply (wf_node_id _ (ti_wf _ _ Hinv)). }
  assert (∀ i, view_nodes s tx' !! i = if decide (i = id) then Some node'
                                       else view_nodes s tx !! i) as Hvn.
  { intros i. rewrite !view_nodes_lookup. cbn. destruct (decide (i = id)) as [->|].
    - by rewrite decide_False, lookup_insert_eq.
    - by rewrite lookup_insert_ne. }
  assert (tx_inv s tx') as Hinv'.
  { destruct Hinv. split; cbn; try done.
    - intros i n [[<- <-]|[Hi Hn]]%lookup_insert_Some; [done|by apply ti_node0].
    - intros i r Hr. apply ti_rel0 in Hr as (? & ? & Hf & Ht). rewrite !Hvn.
      split_and!; [done..| |]; by case_decide.
    - intros i [Hi|Hi]; [by apply ti_next_node0; left|]. apply ti_next_node0.
      destruct (decide (i = id)) as [->|]; [|by rewrite lookup_insert_ne in Hi; auto].
      destruct (td_nodes (tx_delta tx) !! id); cbn in Hv; [right|left]; eauto. }
  split; [|done]. f_equal. apply AGraph_eq; try done; intros i.
  rewrite Hvn. destruct (decide (i = id)) as [->|]; [by rewrite lookup_insert_eq|].
  by rewrite lookup_insert_ne.
Qed.

Lemma sim_create_relationship from to ty props s tx :
  tx_inv s tx → legal (CreateRelationship from to ty props) s tx →
  simulates (CreateRelationship from to ty props) s tx.
Proof.
  intros Hinv (Hlt & Hfrom & Hto). unfold simulates, tx_step, create_relationship, allocate_rel_id.
  rewrite (ti_mode _ _ Hinv). destruct (ti_bounds _ _ Hinv) as [Hbn Hb].
  set (id := next_rel_id s). set (rel := {| sr_id := id |}).
  rewrite i64_add_small by (unfold id; lia). set (s' := set_next_ids _ _ s).
  set (tx' := set_delta _ tx).
  assert (rels s !! id = None ∧ td_rels (tx_delta tx) !! id = None) as [Hns Hnt].
  { split; apply eq_None_not_Some; intros Hsome;
      assert (i64_min ≤ id < next_rel_id s)%Z by (apply (ti_next_rel _ _ Hinv); auto);
      unfold id in *; lia. }
  assert (tx_inv s' tx') as Hinv'.
  { split; cbn.
    - apply set_next_ids_wf, (ti_wf _ _ Hinv).
    - apply (ti_closed _ _ Hinv).
    - apply (ti_mode _ _ Hinv).
    - apply (ti_node _ _ Hinv).
    - intros i r [[<- <-]|[Hi Hr]]%lookup_insert_Some.
      + split_and!; [done|set_solver|done|done].
      + apply (ti_rel _ _ Hinv) in Hr as (? & ? & Hf & Ht).
        split_and!; [done|set_solver|done|done].
    - intros i r base [[<- <-]|[Hi Hr]]%lookup_insert_Some Hbase; [congruence|].
      by eapply (ti_shape _ _ Hinv).
    - intros i r n Hr Hn Ht. pose proof (ti_dead _ _ Hinv i r n Hr Hn Ht).
      assert (i ≠ id) by congruence. set_solver.
    - apply (ti_next_node _ _ Hinv).
    - intros i Hi. assert (i = id ∨ (i64_min ≤ i < next_rel_id s)%Z); [|unfold id in *; lia].
      destruct (decide (i = id)) as [|Hne]; [by left|right]. apply (ti_next_rel _ _ Hinv).
      by rewrite lookup_insert_ne in Hi by done.
    - unfold id in *. lia. }
  split; [|done]. cbn. f_equal. apply AGraph_eq; try done; intros i. fold id.
  apply option_eq; intros r. rewrite lookup_insert_Some, !view_rel_Some by done. cbn.
  rewrite lookup_insert_Some. destruct (decide (i = id)) as [->|Hi].
  - rewrite lookup_insert_eq. set_solver.
  - rewrite lookup_insert_ne by done. set_solver.
Qed.

Lemma sim_update_relationship id props s tx :
  tx_inv s tx → simulates (UpdateRelationship id props) s tx.
Proof.
  intros Hinv. unfold simulates, tx_step, update_relationship. rewrite (ti_mode _ _ Hinv). cbn.
  destruct (view_rels s tx !! id) as [rel|] eqn:Hv.
  2: { assert (∀ r, ¬ ((id ∉ td_deleted_rels (tx_delta tx)) ∧
               or_else (td_rels (tx_delta tx) !! id) (rels s !! id) = Some r)) as Hnone.
       { intros r [Hd Hr]. assert (view_rels s tx !! id = Some r); [|congruence].
         apply view_rel_Some; [done|]. split; [done|].
         destruct (td_rels (tx_delta tx) !! id); cbn in Hr; naive_solver. }
       case_decide as Hd; [done|].
       destruct (or_else _ _) as [r|]; [by destruct (Hnone r)|done]. }
  pose proof (view_closed _ _ _ _ Hinv Hv) as [Hf Ht].
  apply (view_rel_Some _ _ _ _ Hinv) in Hv as [Hd Hv]. rewrite decide_False by done.
  assert (or_else (td_rels (tx_delta tx) !! id) (rels s !! id) = Some rel) as ->
    by (by destruct Hv as [->|[-> ->]]).
  assert (sr_id rel = id) as Hid.
  { destruct Hv as [Hr|[_ Hr]]; [by apply (ti_rel _ _ Hinv) in Hr as []|].
    by apply (wf_rel_id _ (ti_wf _ _ Hinv)). }
  unfold rel_with_props. rewrite lookup_bt_extend_iter. set (rel' := {| sr_id := _ |}).
  set (tx' := set_delta _ tx).
  assert (tx_inv s tx') as Hinv'.
  { pose proof Hinv as Hinv0. destruct Hinv0. split; cbn; try done.
    - intros i r [[<- <-]|[Hi Hr]]%lookup_insert_Some; [done|by apply ti_rel0].
    - intros i r base [[<- <-]|[Hi Hr]]%lookup_insert_Some Hbase; [|by eapply ti_shape0].
      destruct Hv as [Hv|[_ Hv]]; [|by simplify_eq].
      apply (ti_shape0 _ _ _ Hv Hbase).
    - intros i [Hi|Hi]; [by apply ti_next_rel0; left|]. apply ti_next_rel0.
      destruct (decide (i = id)) as [->|]; [|by rewrite lookup_insert_ne in Hi; auto].
      destruct Hv as [Hv|[_ Hv]]; eauto. }
  split; [|done]. f_equal. apply AGraph_eq; try done; intros i.
  apply option_eq; intros r. rewrite lookup_insert_Some, !view_rel_Some by done. cbn.
  rewrite lookup_insert_Some. destruct (decide (i = id)) as [->|Hi].
  - rewrite lookup_insert_eq. naive_solver.
  - rewrite lookup_insert_ne by done. naive_solver.
Qed.

Lemma sim_delete_relationship id s tx :
  tx_inv s tx → legal (DeleteRelationship id) s tx → simulates (DeleteRelationship id) s tx.
Proof.
  intros Hinv Hlegal. cbn in Hlegal. unfold simulates, tx_step, delete_relationship.
  rewrite (ti_mode _ _ Hinv). set (tx' := set_delta _ tx).
  assert (∀ i, i ∈ td_deleted_rels (tx_delta tx') ↔
    i ∈ td_deleted_rels (tx_delta tx) ∨ (i = id ∧ td_rels (tx_delta tx) !! id = None)) as Hdel.
  { intros i. cbn. unfold delta_remove_rel.
    destruct (td_rels (tx_delta tx) !! id) eqn:Htd; cbn; set_solver. }
  assert (td_rels (tx_delta tx') = delete id (td_rels (tx_delta tx))) as Htd'.
  { cbn. unfold delta_remove_rel. destruct (td_rels (tx_delta tx) !! id) eqn:Htd; cbn; [done|].
    by rewrite delete_id. }
  assert (td_nodes (tx_delta tx') = td_nodes (tx_delta tx) ∧
          td_deleted_nodes (tx_delta tx') = td_deleted_nodes (tx_delta tx)) as [Hn Hdn].
  { cbn. unfold delta_remove_rel. by destruct (td_rels (tx_delta tx) !! id). }
  assert (∀ i, view_nodes s tx' !! i = view_nodes s tx !! i) as Hvn.
  { intros i. by rewrite !view_nodes_lookup, Hn, Hdn. }
  assert (tx_inv s tx') as Hinv'.
  { pose proof Hinv as Hinv0. destruct Hinv0.
    split; rewrite ?Htd', ?Hn, ?Hdn; try done.
    - intros i r [Hi Hr]%lookup_delete_Some. apply ti_rel0 in Hr as (? & ? & ? & ?).
      rewrite !Hvn, Hdel. naive_solver.
    - intros i r base [Hi Hr]%lookup_delete_Some. by apply ti_shape0.
    - intros i r n Hr Hdn' Ht. apply Hdel. left. by eapply ti_dead0.
    - intros i [Hi|Hi]; apply ti_next_rel0; [by left|right].
      destruct Hi as [r [_ Hr]%lookup_delete_Some]. eauto. }
  split; [|done]. cbn [spec_step]. f_equal. apply AGraph_eq; [intros i; by rewrite Hvn|intros i|done|done].
  change (ag_rels (view s tx)) with (view_rels s tx).
  apply option_eq; intros r. rewrite lookup_delete_Some, !view_rel_Some by done.
  rewrite Hdel, Htd', lookup_delete_Some. unfold updated_rel in Hlegal.
  destruct (decide (i = id)) as [->|Hi].
  2: { rewrite lookup_delete_ne by done. clear -Hi. intuition congruence. }
  rewrite lookup_delete_eq. clear -Hlegal. destruct (td_rels (tx_delta tx) !! id); [|naive_solver].
  split; [naive_solver|]. intros [_ [|[_ Hr]]]; [naive_solver|]. destruct Hlegal; eauto.
Qed.

Lemma foldl_delta_remove_rel ids d :
  NoDup ids →
  let d' := foldl (λ d id, delta_remove_rel id d) d ids in
  td_nodes d' = td_nodes d ∧ td_deleted_nodes d' = td_deleted_nodes d ∧
  (∀ i, td_rels d' !! i = if decide (i ∈ ids) then None else td_rels d !! i) ∧
  (∀ i, i ∈ td_deleted_rels d' ↔
        i ∈ td_deleted_rels d ∨ (i ∈ ids ∧ td_rels d !! i = None)).
Proof.
  revert d. induction ids as [|id ids IH]; intros d Hnd; cbn.
  - split_and!; [done..| |]; intros i; [by rewrite decide_False by apply not_elem_of_nil|].
    set_solver.
  - apply NoDup_cons in Hnd as [Hid Hnd].
    destruct (IH (delta_remove_rel id d) Hnd) as (-> & -> & Hr & Hd). clear IH.
    assert (td_rels (delta_remove_rel id d) = delete id (td_rels d)) as Hr1.
    { unfold delta_remove_rel. destruct (td_rels d !! id) eqn:Htd; cbn; [done|].
      by rewrite delete_id. }
    assert (∀ i, i ∈ td_deleted_rels (delta_remove_rel id d) ↔
              i ∈ td_deleted_rels d ∨ (i = id ∧ td_rels d !! id = None)) as Hd1.
    { intros i. unfold delta_remove_rel.
      destruct (td_rels d !! id) eqn:Htd; cbn; set_solver. }
    split_and!; [unfold delta_remove_rel; by case_match..| |]; intros i.
    + rewrite Hr, Hr1. destruct (decide (i = id)) as [->|Hi].
      * rewrite lookup_delete_eq, (decide_True (P := id ∈ id :: ids)) by (by left).
        by case_decide.
      * rewrite lookup_delete_ne by done.
        destruct (decide (i ∈ ids)); [rewrite decide_True|rewrite decide_False]; set_solver.
    + rewrite Hd, Hd1, Hr1, elem_of_cons. destruct (decide (i = id)) as [->|Hi].
      * rewrite lookup_delete_eq. naive_solver.
      * rewrite lookup_delete_ne by done. naive_solver.
Qed.

Lemma elem_of_related s tx id r :
  tx_inv s tx →
  r ∈ visible_related_rel_ids id s tx ↔
  ∃ rel, view_rels s tx !! r = Some rel ∧ rel_touches id rel = true.
Proof.
  intros Hinv. unfold visible_related_rel_ids. rewrite (ti_mode _ _ Hinv).
  assert (view_nodes s tx !! id = None →
    ¬ ∃ rel, view_rels s tx !! r = Some rel ∧ rel_touches id rel = true) as Hno.
  { intros Hnone (rel & Hv & Ht). destruct (view_closed _ _ _ _ Hinv Hv) as [[? Hf] [? Hto]].
    apply rel_touches_true in Ht as [?|?]; congruence. }
  rewrite view_nodes_lookup in Hno. case_decide as Hd; [set_solver|].
  case_match eqn:Habs.
  { apply andb_true_iff in Habs as [Htd%bool_decide_eq_true Hs%bool_decide_eq_true].
    rewrite Htd, Hs in Hno. set_solver. }
  rewrite elem_of_union, elem_of_filter, !elem_of_list_to_set, elem_of_app,
    elem_of_outgoing, elem_of_incoming, list_elem_of_fmap, visible_rel_view by apply Hinv.
  split.
  - intros [[[rel Hv] Hbase]|(rel & -> & Hin)].
    + exists rel. split; [done|]. rewrite rel_touches_true.
      apply (view_rel_Some _ _ _ _ Hinv) in Hv as [_ [Htd|[_ Hs]]]; [|naive_solver].
      destruct Hbase as [(b & Hb & <-)|(b & Hb & <-)];
        destruct (ti_shape _ _ Hinv _ _ _ Htd Hb) as (? & ? & _); auto.
    + apply list_elem_of_filter in Hin as [Ht%Is_true_true_1 [k Hk]%elem_of_bt_values].
      exists rel. split; [|done]. destruct (ti_rel _ _ Hinv _ _ Hk) as (-> & Hnd & _).
      apply view_rel_Some; auto.
  - intros (rel & Hv & Ht). pose proof Hv as Hv'.
    apply (view_rel_Some _ _ _ _ Hinv) in Hv as [_ [Htd|[_ Hs]]].
    + right. exists rel. split; [by destruct (ti_rel _ _ Hinv _ _ Htd)|].
      apply list_elem_of_filter. rewrite elem_of_bt_values. eauto using Is_true_true_2.
    + left. split; [by eexists|]. apply rel_touches_true in Ht as [?|?]; eauto.
Qed.

(** What [delete_node] does to the delta. *)
Record delta_deleted (id : Z) s tx (d : TxDelta) : Prop := {
  dd_nodes : td_nodes d = delete id (td_nodes (tx_delta tx));
  dd_dead_nodes i :
    i ∈ td_deleted_nodes d ↔
    i ∈ td_deleted_nodes (tx_delta tx) ∨ (i = id ∧ td_nodes (tx_delta tx) !! id = None);
  dd_rels i rel :
    td_rels d !! i = Some rel ↔
    td_rels (tx_delta tx) !! i = Some rel ∧ rel_touches id rel = false;
  dd_dead_rels i :
    i ∈ td_deleted_rels d ↔
    i ∈ td_deleted_rels (tx_delta tx) ∨
    ((∃ rel, view_rels s tx !! i = Some rel ∧ rel_touches id rel = true) ∧
     td_rels (tx_delta tx) !! i = None);
}.

Lemma delete_node_delta id s tx :
  tx_inv s tx →
  ∃ d, delete_node id s tx = set_delta d tx ∧ delta_deleted id s tx d.
Proof.
  intros Hinv. unfold delete_node. rewrite (ti_mode _ _ Hinv).
  set (d1 := delta_remove_node id (tx_delta tx)). eexists. split; [done|].
  destruct (foldl_delta_remove_rel (bs_iter (visible_related_rel_ids id s tx)) d1
    (bs_iter_NoDup _)) as (Hn & Hdn & Hr & Hdr).
  assert (td_rels d1 = td_rels (tx_delta tx) ∧ td_deleted_rels d1 = td_deleted_rels (tx_delta tx))
    as [Hr1 Hdr1] by (unfold d1, delta_remove_node; by case_match).
  rewrite Hr1 in Hr, Hdr. rewrite Hdr1 in Hdr. split.
  - rewrite Hn. unfold d1, delta_remove_node. case_match eqn:Htd; cbn; [done|].
    by rewrite delete_id.
  - intros i. rewrite Hdn. unfold d1, delta_remove_node.
    case_match eqn:Htd; cbn; set_solver.
  - intros i rel. rewrite Hr.
    case_decide as Hi; rewrite elem_of_bs_iter, elem_of_related in Hi by done.
    + split; [done|]. intros [Htd Ht]. destruct Hi as (rel' & Hv & Ht').
      apply (view_rel_Some _ _ _ _ Hinv) in Hv as [_ [?|[? _]]]; congruence.
    + split; [|tauto]. intros Htd. split; [done|]. destruct (rel_touches id rel) eqn:Ht; [|done].
      destruct Hi. exists rel. split; [|done]. apply view_rel_Some; [done|].
      split; [by apply (ti_rel _ _ Hinv) in Htd as (_ & ? & _)|by left].
  - intros i. by rewrite Hdr, elem_of_bs_iter, elem_of_related.
Qed.

Lemma delete_node_view_nodes id s tx d :
  delta_deleted id s tx d → ¬ updated_node s tx id →
  ∀ i, view_nodes s (set_delta d tx) !! i = delete id (view_nodes s tx) !! i.
Proof.
  intros [Hn Hdn _ _] Hln i. apply option_eq; intros n.
  rewrite lookup_delete_Some, !view_node_Some.
  cbn. rewrite Hn, Hdn, lookup_delete_Some. unfold updated_node in Hln.
  destruct (decide (i = id)) as [->|Hi].
  - rewrite lookup_delete_eq. clear -Hln. destruct (td_nodes (tx_delta tx) !! id).
    + split; [|naive_solver]. intros [_ [[? _]|[_ Hs]]]; [done|]. destruct Hln; eauto.
    + naive_solver.
  - rewrite lookup_delete_ne by done. clear -Hi. intuition congruence.
Qed.

(** A stored relationship without a delta entry dies iff it touches the node. *)
Lemma delete_node_dead_base id s tx d i rel :
  tx_inv s tx → delta_deleted id s tx d →
  rels s !! i = Some rel → td_rels (tx_delta tx) !! i = None →
  i ∉ td_deleted_rels (tx_delta tx) →
  i ∈ td_deleted_rels d ↔ rel_touches id rel = true.
Proof.
  intros Hinv Hdd Hs Htd Hnd. rewrite (dd_dead_rels _ _ _ _ Hdd). split.
  - intros [|[(rel' & Hv & Ht) _]]; [done|].
    apply (view_rel_Some _ _ _ _ Hinv) in Hv as [_ [?|[_ ?]]]; congruence.
  - intros Ht. right. split; [|done]. exists rel. split; [|done].
    apply view_rel_Some; auto.
Qed.

Lemma delete_node_inv id s tx d :
  tx_inv s tx → legal (DeleteNode id) s tx → delta_deleted id s tx d →
  tx_inv s (set_delta d tx).
Proof.
  intros Hinv [Hln Hlr] Hdd.
  pose proof (delete_node_view_nodes _ _ _ _ Hdd Hln) as Hvn.
  pose proof Hinv as Hinv0. destruct Hinv0. pose proof Hdd as Hdd0. destruct Hdd0.
  split; cbn; rewrite ?dd_nodes0; try done.
  - intros i n [Hi Hn']%lookup_delete_Some. rewrite dd_dead_nodes0.
    apply ti_node0 in Hn' as [? ?]. naive_solver.
  - intros i rel [Htd Ht]%dd_rels0. apply rel_touches_false in Ht as [Hf Hto].
    destruct (ti_rel0 _ _ Htd) as (? & ? & ? & ?).
    rewrite !Hvn, !lookup_delete_ne, dd_dead_rels0 by done. naive_solver.
  - intros i rel base [Htd _]%dd_rels0. by apply ti_shape0.
  - intros i rel n Hs Hin Ht. apply dd_dead_nodes0 in Hin as [Hin|[-> Hnone]].
    + apply dd_dead_rels0. left. by eapply ti_dead0.
    + destruct (decide (i ∈ td_deleted_rels (tx_delta tx))) as [Hd|Hd].
      * apply dd_dead_rels0. by left.
      * destruct (td_rels (tx_delta tx) !! i) eqn:Htd.
        -- destruct (Hlr _ _ Hs Ht). split; eauto.
        -- by apply (delete_node_dead_base id s tx d i rel).
  - intros i [Hi|Hi]; apply ti_next_node0; [by left|right].
    destruct Hi as [n [_ Hi]%lookup_delete_Some]. eauto.
  - intros i [Hi|[rel Hi]]; apply ti_next_rel0; [by left|right].
    apply dd_rels0 in Hi as [Hi _]. eauto.
Qed.

Lemma sim_delete_node id s tx :
  tx_inv s tx → legal (DeleteNode id) s tx → simulates (DeleteNode id) s tx.
Proof.
  intros Hinv Hlegal. unfold simulates, tx_step.
  destruct (delete_node_delta id s tx Hinv) as (d & -> & Hdd).
  pose proof (delete_node_inv _ _ _ _ Hinv Hlegal Hdd) as Hinv'. destruct Hlegal as [Hln Hlr].
  split; [|done]. cbn [spec_step]. f_equal. apply AGraph_eq; [|intros i|done|done].
  { intros i. by rewrite (delete_node_view_nodes _ _ _ _ Hdd). }
  change (ag_rels (view s tx)) with (view_rels s tx).
  apply option_eq; intros r. rewrite map_lookup_filter_Some, !view_rel_Some by done. cbn.
  rewrite (dd_rels _ _ _ _ Hdd). split.
  - intros [[Hnd [Htd|[Htd Hs]]] Ht].
    + split; [|auto]. rewrite (dd_dead_rels _ _ _ _ Hdd). naive_solver.
    + rewrite (delete_node_dead_base id s tx d i r) by done. split; [congruence|]. right.
      split; [|done]. apply eq_None_not_Some. intros [r' [? _]%(dd_rels _ _ _ _ Hdd)].
      congruence.
  - intros [Hnd [[Htd Ht]|[Htd Hs]]].
    + rewrite (dd_dead_rels _ _ _ _ Hdd) in Hnd. naive_solver.
    + assert (i ∉ td_deleted_rels (tx_delta tx)) as Hnd'
        by (rewrite (dd_dead_rels _ _ _ _ Hdd) in Hnd; tauto).
      destruct (td_rels (tx_delta tx) !! i) as [r'|] eqn:Htd'.
      * destruct (rel_touches id r') eqn:Ht;
          [|by rewrite (proj2 (dd_rels _ _ _ _ Hdd i r')) in Htd].
        exfalso. destruct (ti_shape _ _ Hinv _ _ _ Htd' Hs) as (Hf & Hto & _).
        assert (rel_touches id r = true) as Ht'.
        { revert Ht. rewrite !rel_touches_true. by rewrite Hf, Hto. }
        destruct (Hlr _ _ Hs Ht'). split; eauto.
      * destruct (rel_touches id r) eqn:Ht; [|naive_solver].
        destruct Hnd. by apply (delete_node_dead_base id s tx d i r).
Qed.

Lemma sim_find_node id s tx : tx_inv s tx → simulates (FindNode id) s tx.
Proof.
  intros Hinv. unfold simulates, tx_step, find_node_by_id. rewrite (ti_mode _ _ Hinv).
  split; [|done]. cbn. do 2 f_equal. apply view_nodes_lookup.
Qed.
End simulation.

(** ** Commit publishes the view *)

Section commit.
Context `{SerdeNumber}.
Implicit Types (s t : GraphStore) (tx : InMemoryTx).

Lemma foldl_remove_node ids s :
  store_wf s → no_dangling s →
  let t := foldl (λ s id, (remove_node id s).2) s ids in
  store_wf t ∧ no_dangling t ∧
  next_node_id t = next_node_id s ∧ next_rel_id t = next_rel_id s ∧
  (∀ i, nodes t !! i = if decide (i ∈ ids) then None else nodes s !! i) ∧
  (∀ i rel, rels t !! i = Some rel ↔
     rels s !! i = Some rel ∧ ∀ n, n ∈ ids → rel_touches n rel = false).
Proof.
  revert s. induction ids as [|id ids IH]; intros s Hwf Hnd; cbn.
  - split_and!; [done..| |]; intros i; [|set_solver].
    by rewrite decide_False by apply not_elem_of_nil.
  - destruct (remove_node_effect id s Hwf) as (Hwf1 & Hn1 & Hnn1 & Hnr1 & _).
    pose proof (remove_node_rels id s Hwf Hnd) as Hr1.
    pose proof (remove_node_no_dangling id s Hwf Hnd) as Hnd1.
    destruct (IH _ Hwf1 Hnd1) as (Hwf2 & Hnd2 & Hnn2 & Hnr2 & Hn2 & Hr2).
    split_and!; [done|done|congruence|congruence| |].
    + intros i. rewrite Hn2, Hn1. destruct (decide (i = id)) as [->|Hi].
      * rewrite lookup_delete_eq, (decide_True (P := id ∈ id :: ids)) by (by left).
        by case_decide.
      * rewrite lookup_delete_ne by done.
        destruct (decide (i ∈ ids)); [rewrite decide_True|rewrite decide_False]; set_solver.
    + intros i rel. rewrite Hr2, Hr1. setoid_rewrite elem_of_cons.
      destruct (rels s !! i) as [rel'|]; cbn; [|naive_solver].
      destruct (rel_touches id rel') eqn:Ht; naive_solver congruence.
Qed.

Lemma foldl_insert_nodes l s :
  NoDup l.*1 → store_wf s →
  (∀ id node, (id, node) ∈ l → sn_id node = id ∧ (i64_min ≤ id < next_node_id s)%Z) →
  (next_node_id s ≤ i64_max)%Z →
  let t := foldl (λ s '(id, node), (insert_node id node (bump_node_id id s)).2) s l in
  store_wf t ∧ next_node_id t = next_node_id s ∧ next_rel_id t = next_rel_id s ∧
  rels t = rels s ∧ (∀ i, nodes t !! i = or_else ((list_to_map l : gmap Z StoredNode) !! i)
                                                 (nodes s !! i)).
Proof.
  revert s. induction l as [|[id node] l IH]; intros s Hnd Hwf Hl Hmax; cbn -[insert_node].
  - by split_and!.
  - apply NoDup_cons in Hnd as [Hid Hnd].
    destruct (Hl id node) as [Hidn Hlt]; [by left|].
    assert (next_node_id (bump_node_id id s) = next_node_id s) as Hb.
    { cbn. rewrite i64_add_small by lia. lia. }
    destruct (insert_node_fields id node (bump_node_id id s))
      as (Hn1 & Hr1 & Hnn1 & Hnr1 & _). rewrite Hb in Hnn1.
    pose proof (insert_node_wf id node (bump_node_id id s) Hidn
      (set_next_ids_wf _ _ _ Hwf)) as Hwf1.
    destruct (IH _ Hnd Hwf1) as (Hwf2 & Hnn2 & Hnr2 & Hr2 & Hn2).
    { intros i n Hin. rewrite Hnn1. apply Hl. by right. }
    { by rewrite Hnn1. }
    split_and!; [done|congruence|by rewrite Hnr2, Hnr1|by rewrite Hr2, Hr1|].
    intros i. rewrite Hn2, Hn1. cbn [nodes bump_node_id set_next_ids].
    destruct (decide (i = id)) as [->|Hi].
    + rewrite !lookup_insert_eq. by rewrite not_elem_of_list_to_map_1.
    + by rewrite !lookup_insert_ne.
Qed.

Lemma foldl_insert_rels l s :
  NoDup l.*1 → store_wf s →
  (∀ id rel, (id, rel) ∈ l → sr_id rel = id ∧ (i64_min ≤ id < next_rel_id s)%Z) →
  (next_rel_id s ≤ i64_max)%Z →
  let t := foldl (λ s '(id, rel), (insert_relationship id rel (bump_rel_id id s)).2) s l in
  store_wf t ∧ next_node_id t = next_node_id s ∧ next_rel_id t = next_rel_id s ∧
  nodes t = nodes s ∧ (∀ i, rels t !! i = or_else ((list_to_map l : gmap Z StoredRel) !! i)
                                                 (rels s !! i)).
Proof.
  revert s. induction l as [|[id rel] l IH]; intros s Hnd Hwf Hl Hmax;
    cbn -[insert_relationship].
  - by split_and!.
  - apply NoDup_cons in Hnd as [Hid Hnd].
    destruct (Hl id rel) as [Hidn Hlt]; [by left|].
    assert (next_rel_id (bump_rel_id id s) = next_rel_id s) as Hb.
    { cbn. rewrite i64_add_small by lia. lia. }
    destruct (insert_relationship_frame id rel (bump_rel_id id s))
      as ((Hn1 & Hnn1 & Hnr1 & _) & Hr1). rewrite Hb in Hnr1.
    pose proof (insert_relationship_wf id rel (bump_rel_id id s) Hidn
      (set_next_ids_wf _ _ _ Hwf)) as Hwf1.
    destruct (IH _ Hnd Hwf1) as (Hwf2 & Hnn2 & Hnr2 & Hn2 & Hr2).
    { intros i n Hin. rewrite Hnr1. apply Hl. by right. }
    { by rewrite Hnr1. }
    split_and!; [done|by rewrite Hnn2, Hnn1|congruence|by rewrite Hn2, Hn1|].
    intros i. rewrite Hr2, Hr1. cbn [rels bump_rel_id set_next_ids].
    destruct (decide (i = id)) as [->|Hi].
    + rewrite !lookup_insert_eq. by rewrite not_elem_of_list_to_map_1.
    + by rewrite !lookup_insert_ne.
Qed.

(** The graph [apply_delta_to] leaves is the transaction's view. *)
Lemma apply_delta_view s tx :
  tx_inv s tx →
  let t := apply_delta_to (tx_delta tx) s in
  store_wf t ∧ no_dangling t ∧ graph_of t = view s tx.
Proof.
  intros Hinv. unfold apply_delta_to. set (d := tx_delta tx).
  destruct (ti_bounds _ _ Hinv) as [Hbn Hbr].
  destruct (foldl_remove_node (bs_iter (td_deleted_nodes d)) s (ti_wf _ _ Hinv) (ti_closed _ _ Hinv))
    as (Hwf1 & Hnd1 & Hnn1 & Hnr1 & Hn1 & Hr1). revert Hwf1 Hnd1 Hnn1 Hnr1 Hn1 Hr1.
  generalize (foldl (λ s id, (remove_node id s).2) s (bs_iter (td_deleted_nodes d))) as s1.
  intros s1 Hwf1 Hnd1 Hnn1 Hnr1 Hn1 Hr1. setoid_rewrite elem_of_bs_iter in Hr1.
  destruct (foldl_remove_relationship (bs_iter (td_deleted_rels d)) s1 Hwf1)
    as (Hwf2 & (Hn2 & Hnn2 & Hnr2 & _) & Hr2). revert Hwf2 Hn2 Hnn2 Hnr2 Hr2.
  generalize (foldl (λ s id, (remove_relationship id s).2) s1 (bs_iter (td_deleted_rels d))) as s2.
  intros s2 Hwf2 Hn2 Hnn2 Hnr2 Hr2.
  destruct (foldl_insert_nodes (bt_iter (td_nodes d)) s2) as (Hwf3 & Hnn3 & Hnr3 & Hr3 & Hn3);
    [apply bt_keys_NoDup|done| |rewrite Hnn2, Hnn1; lia|].
  { intros id node Hin%elem_of_bt_iter. rewrite Hnn2, Hnn1. split.
    - by apply (ti_node _ _ Hinv) in Hin as [].
    - apply (ti_next_node _ _ Hinv). right. by eexists. }
  revert Hwf3 Hnn3 Hnr3 Hr3 Hn3. generalize (foldl (λ s '(id, node),
    (insert_node id node (bump_node_id id s)).2) s2 (bt_iter (td_nodes d))) as s3.
  intros s3 Hwf3 Hnn3 Hnr3 Hr3 Hn3.
  destruct (foldl_insert_rels (bt_iter (td_rels d)) s3) as (Hwf4 & Hnn4 & Hnr4 & Hn4 & Hr4);
    [apply bt_keys_NoDup|done| |rewrite Hnr3, Hnr2, Hnr1; lia|].
  { intros id rel Hin%elem_of_bt_iter. rewrite Hnr3, Hnr2, Hnr1. split.
    - by apply (ti_rel _ _ Hinv) in Hin as [].
    - apply (ti_next_rel _ _ Hinv). right. by eexists. }
  revert Hwf4 Hnn4 Hnr4 Hn4 Hr4. generalize (foldl (λ s '(id, rel),
    (insert_relationship id rel (bump_rel_id id s)).2) s3 (bt_iter (td_rels d))) as s4.
  intros s4 Hwf4 Hnn4 Hnr4 Hn4 Hr4.
  rewrite list_to_map_bt_iter in Hn3. rewrite list_to_map_bt_iter in Hr4.
  assert (graph_of s4 = view s tx) as Hgraph.
  { apply AGraph_eq; [intros i..|congruence|congruence].
    - rewrite Hn4, Hn3, Hn2, Hn1, view_nodes_lookup. fold d.
      repeat case_decide; rewrite ?elem_of_bs_iter in *; try done.
      destruct (td_nodes d !! i) eqn:Htd; [|done].
      by apply (ti_node _ _ Hinv) in Htd as [].
    - apply option_eq; intros rel. rewrite view_rel_Some by done. fold d.
      rewrite Hr4, Hr3, Hr2. destruct (td_rels d !! i) as [r|] eqn:Htd; cbn.
      + pose proof (ti_rel _ _ Hinv _ _ Htd) as (_ & ? & _). naive_solver.
      + case_decide as Hd; rewrite elem_of_bs_iter in Hd; [naive_solver|].
        rewrite Hr1. split; [naive_solver|]. intros [_ [|[_ Hs]]]; [done|].
        split; [done|]. intros n Hn. apply not_true_iff_false. intros Ht.
        apply Hd. by eapply (ti_dead _ _ Hinv). }
  split_and!; [done| |done].
  intros i rel Hi. injection Hgraph as Hgn Hgr _ _. rewrite Hgn. rewrite Hgr in Hi.
  by eapply view_closed.
Qed.
End commit.

(** ** Results *)

Section results.
Context `{SerdeNumber}.
Implicit Types (s t : GraphStore) (tx : InMemoryTx).

Lemma tx_step_simulates op s tx : tx_inv s tx → legal op s tx → simulates op s tx.
Proof.
  intros Hinv Hlegal. destruct op.
  - by apply sim_create_node.
  - by apply sim_update_node.
  - by apply sim_delete_node.
  - by apply sim_find_node.
  - by apply sim_create_relationship.
  - by apply sim_update_relationship.
  - by apply sim_delete_relationship.
Qed.

(** Operations write to the delta: the stored graph stays as it is. *)
Lemma tx_step_frame op s tx :
  nodes (tx_step op s tx).1.2 = nodes s ∧ rels (tx_step op s tx).1.2 = rels s.
Proof.
  destruct op; cbn; unfold create_node, create_relationship; cbn;
    try destruct (tx_working_copy tx); try done;
    by destruct (update_node _ _ _ _) || by destruct (update_relationship _ _ _ _).
Qed.

(** inside a transaction every operation does to the visible graph, and
    answers, exactly what it means on a plain graph: reads see the
    transaction's own writes. *)
Theorem tx_step_refines (op : TxOp) s tx :
  tx_inv s tx → legal op s tx →
  let '(r, s', tx') := tx_step op s tx in
  spec_step op (view s tx) = (r, view s' tx') ∧
  nodes s' = nodes s ∧ rels s' = rels s.
Proof.
  intros Hinv Hlegal. pose proof (tx_step_simulates op s tx Hinv Hlegal) as Hsim.
  unfold simulates in Hsim.
  pose proof (tx_step_frame op s tx) as Hstore.
  destruct (tx_step op s tx) as [[r s'] tx']. by destruct Hsim as [? _].
Qed.

(** Running operations one after the other, each legal when it is reached. *)
Fixpoint tx_run (ops : list TxOp) s tx : list TxResult * GraphStore * InMemoryTx :=
  match ops with
  | [] => ([], s, tx)
  | op :: ops =>
      let '(r, s, tx) := tx_step op s tx in
      let '(rs, s, tx) := tx_run ops s tx in (r :: rs, s, tx)
  end.
Fixpoint spec_run (ops : list TxOp) (g : AGraph) : list TxResult * AGraph :=
  match ops with
  | [] => ([], g)
  | op :: ops =>
      let '(r, g) := spec_step op g in let '(rs, g) := spec_run ops g in (r :: rs, g)
  end.
Fixpoint legal_run (ops : list TxOp) s tx : Prop :=
  match ops with
  | [] => True
  | op :: ops =>
      legal op s tx ∧ legal_run ops (tx_step op s tx).1.2 (tx_step op s tx).2
  end.

Lemma tx_run_simulates ops s tx :
  tx_inv s tx → legal_run ops s tx →
  let '(rs, s', tx') := tx_run ops s tx in
  spec_run ops (view s tx) = (rs, view s' tx') ∧ tx_inv s' tx'.
Proof.
  revert s tx. induction ops as [|op ops IH]; intros s tx Hinv Hlegal; [done|].
  destruct Hlegal as [Hop Hrest]. pose proof (tx_step_simulates op s tx Hinv Hop) as Hsim.
  unfold simulates in Hsim. cbn -[tx_step spec_step].
  destruct (tx_step op s tx) as [[r s1] tx1]. destruct Hsim as [-> Hinv1].
  specialize (IH s1 tx1 Hinv1 Hrest).
  destruct (tx_run ops s1 tx1) as [[rs s2] tx2]. by destruct IH as [-> Hinv2].
Qed.

Lemma tx_run_frame ops s tx :
  nodes (tx_run ops s tx).1.2 = nodes s ∧ rels (tx_run ops s tx).1.2 = rels s.
Proof.
  revert s tx. induction ops as [|op ops IH]; intros s tx; [done|].
  destruct (tx_step_frame op s tx) as [Hn Hr]. cbn -[tx_step].
  destruct (tx_step op s tx) as [[r s1] tx1]. specialize (IH s1 tx1). cbn in Hn, Hr.
  destruct (tx_run ops s1 tx1) as [[rs s2] tx2]. cbn in *. by rewrite <-Hn, <-Hr.
Qed.

(** A store whose ids are below its counters, as [begin_tx] finds it. *)
Record store_ready s : Prop := {
  sr_wf : store_wf s;
  sr_closed : no_dangling s;
  sr_node_ids id : is_Some (nodes s !! id) → (i64_min ≤ id < next_node_id s)%Z;
  sr_rel_ids id : is_Some (rels s !! id) → (i64_min ≤ id < next_rel_id s)%Z;
  sr_node_bound : (i64_min ≤ next_node_id s ≤ i64_max)%Z;
  sr_rel_bound : (i64_min ≤ next_rel_id s ≤ i64_max)%Z;
}.

Lemma store_ready_inv s : store_ready s → tx_inv s tx_new.
Proof. intros []. by apply new_inv. Qed.


(** deleting a node the same transaction updated only forgets the
    update: the node stays visible and survives the commit in its old
    version, while its relationships are deleted. *)
Theorem update_then_delete_survives (id : Z) (props : Props) node s :
  store_ready s → nodes s !! id = Some node →
  let tx1 := (update_node id props s tx_new).2 in
  let tx2 := delete_node id s tx1 in
  find_node_by_id id s tx2 = Some node ∧
  nodes (tx_commit s tx2).1 !! id = Some node ∧
  (∀ r rel, rels s !! r = Some rel → rel_touches id rel = true →
            rels (tx_commit s tx2).1 !! r = None).
Proof.
  intros Hready Hid tx1 tx2. pose proof (store_ready_inv s Hready) as Hinv.
  pose proof (sim_update_node id props s tx_new Hinv) as Hsim.
  assert (tx_step (UpdateNode id props) s tx_new =
    (RNodeOpt (Some (node_with_props node props)), s, tx1) ∧
    tx_delta tx1 = delta_insert_node id (node_with_props node props) TxDelta_default)
    as [Hstep Hd1].
  { unfold tx1, tx_step, update_node. cbn. by rewrite Hid. }
  unfold simulates in Hsim. rewrite Hstep in Hsim. destruct Hsim as [_ Hinv1].
  destruct (delete_node_delta id s tx1 Hinv1) as (d & Htx2 & Hdd). fold tx2 in Htx2.
  assert (td_nodes d = ∅) as Hn.
  { rewrite (dd_nodes _ _ _ _ Hdd), Hd1. cbn. by rewrite delete_insert_eq, delete_empty. }
  assert (∀ i, i ∉ td_deleted_nodes d) as Hdn.
  { intros i. rewrite (dd_dead_nodes _ _ _ _ Hdd), Hd1. cbn. rewrite lookup_insert_eq.
    set_solver. }
  assert (∀ i, td_rels d !! i = None) as Hr.
  { intros i. apply eq_None_not_Some. intros [rel Hrel].
    apply (dd_rels _ _ _ _ Hdd) in Hrel as [Hrel _]. by rewrite Hd1 in Hrel. }
  assert (tx_inv s tx2) as Hinv2.
  { rewrite Htx2. destruct Hinv1. split; cbn; try done.
    - rewrite Hn. intros i n. by rewrite lookup_empty.
    - intros i rel. by rewrite Hr.
    - intros i rel base. by rewrite Hr.
    - intros i rel n _ Hin. by destruct (Hdn n).
    - intros i [Hi|Hi]; [apply ti_next_node0; by left|]. rewrite Hn, lookup_empty in Hi.
      by destruct Hi.
    - intros i [Hi|Hi]; [apply ti_next_rel0; by left|]. rewrite Hr in Hi. by destruct Hi. }
  destruct (apply_delta_view s tx2 Hinv2) as (_ & _ & Hg).
  assert (nodes (tx_commit s tx2).1 = view_nodes s tx2) as -> by exact (f_equal ag_nodes Hg).
  assert (rels (tx_commit s tx2).1 = view_rels s tx2) as -> by exact (f_equal ag_rels Hg).
  assert (view_nodes s tx2 !! id = Some node) as Hv.
  { apply view_node_Some. rewrite Htx2. cbn. rewrite Hn, lookup_empty. auto. }
  split_and!; [|done|].
  - rewrite <-visible_node_view in Hv by apply Hinv2. exact Hv.
  - intros r rel Hs Ht. apply eq_None_not_Some. intros [rel' Hv'].
    apply (view_rel_Some _ _ _ _ Hinv2) in Hv' as [Hnd _]. apply Hnd. rewrite Htx2. cbn.
    apply (dd_dead_rels _ _ _ _ Hdd). right. rewrite Hd1. split; [|done].
    exists rel. split; [|done]. apply (view_rel_Some _ _ _ _ Hinv1). rewrite Hd1. cbn.
    split; [set_solver|]. by right.
Qed.

(** *** A relationship to a node deleted in the same transaction *)

Lemma foldl_remove_node_nodes ids s :
  store_wf s →
  let t := foldl (λ s id, (remove_node id s).2) s ids in
  store_wf t ∧ ∀ i, nodes t !! i = if decide (i ∈ ids) then None else nodes s !! i.
Proof.
  revert s. induction ids as [|id ids IH]; intros s Hwf; cbn.
  - split; [done|]. intros i. by rewrite decide_False by apply not_elem_of_nil.
  - destruct (remove_node_effect id s Hwf) as (Hwf1 & Hn1 & _).
    destruct (IH _ Hwf1) as [Hwf2 Hn2]. split; [done|]. intros i. rewrite Hn2, Hn1.
    destruct (decide (i = id)) as [->|Hi].
    + rewrite lookup_delete_eq, (decide_True (P := id ∈ id :: ids)) by (by left).
      by case_decide.
    + rewrite lookup_delete_ne by done.
      destruct (decide (i ∈ ids)); [rewrite decide_True|rewrite decide_False]; set_solver.
Qed.

Lemma foldl_remove_relationship_nodes ids s :
  nodes (foldl (λ s id, (remove_relationship id s).2) s ids) = nodes s.
Proof.
  apply foldl_frame. intros t id. by destruct (remove_relationship_frame id t) as [[-> _] _].
Qed.

Lemma foldl_insert_nodes_nodes (m : gmap Z StoredNode) s :
  nodes (foldl (λ s '(id, node), (insert_node id node (bump_node_id id s)).2) s (bt_iter m))
  = m ∪ nodes s.
Proof.
  rewrite (foldl_field nodes _ (λ m e, <[e.1 := e.2]> m)); [apply lookup_bt_extend_iter|].
  intros t [id node]. by destruct (insert_node_fields id node (bump_node_id id t)) as [-> _].
Qed.

Lemma foldl_insert_rels_rels (m : gmap Z StoredRel) s :
  let t := foldl (λ s '(id, rel), (insert_relationship id rel (bump_rel_id id s)).2)
                 s (bt_iter m) in
  rels t = m ∪ rels s ∧ nodes t = nodes s.
Proof.
  split.
  - rewrite (foldl_field rels _ (λ m e, <[e.1 := e.2]> m)); [apply lookup_bt_extend_iter|].
    intros t [id rel]. by destruct (insert_relationship_frame id rel (bump_rel_id id t)) as [_ ->].
  - apply foldl_frame. intros t [id rel].
    by destruct (insert_relationship_frame id rel (bump_rel_id id t)) as [[-> _] _].
Qed.

(** Whatever the delta, its entries are stored and its other deletions stick. *)
Lemma apply_delta_entries d s :
  store_wf s →
  (∀ i, nodes (apply_delta_to d s) !! i =
        or_else (td_nodes d !! i)
                (if decide (i ∈ td_deleted_nodes d) then None else nodes s !! i)) ∧
  (∀ i rel, td_rels d !! i = Some rel → rels (apply_delta_to d s) !! i = Some rel).
Proof.
  intros Hwf. unfold apply_delta_to.
  destruct (foldl_insert_rels_rels (td_rels d) (foldl
    (λ s '(id, node), (insert_node id node (bump_node_id id s)).2)
    (foldl (λ s id, (remove_relationship id s).2)
       (foldl (λ s id, (remove_node id s).2) s (bs_iter (td_deleted_nodes d)))
       (bs_iter (td_deleted_rels d))) (bt_iter (td_nodes d)))) as [-> ->].
  rewrite foldl_insert_nodes_nodes, foldl_remove_relationship_nodes.
  destruct (foldl_remove_node_nodes (bs_iter (td_deleted_nodes d)) s Hwf) as [_ Hn].
  split; intros i.
  - rewrite lookup_union, Hn. repeat case_decide; rewrite elem_of_bs_iter in *; try done;
      destruct (td_nodes d !! i), (nodes s !! i); done.
  - intros rel Hrel. by apply lookup_union_Some_l.
Qed.

(** a relationship created to a node the same transaction deleted is
    invisible in the transaction, yet the commit stores it, dangling. *)
Theorem create_after_delete_dangles (id to : Z) (ty : string) (props : Props) s :
  store_ready s →
  let tx1 := delete_node id s tx_new in
  let '(rel, s2, tx2) := create_relationship id to ty props s tx1 in
  visible_rel s2 tx2 (sr_id rel) = None ∧
  rels (tx_commit s2 tx2).1 !! sr_id rel = Some rel ∧
  nodes (tx_commit s2 tx2).1 !! sr_from rel = None.
Proof.
  intros Hready tx1. pose proof (store_ready_inv s Hready) as Hinv.
  destruct (delete_node_delta id s tx_new Hinv) as (d & Htx1 & Hdd). fold tx1 in Htx1.
  assert (∀ i, td_nodes d !! i = None) as Hn.
  { intros i. rewrite (dd_nodes _ _ _ _ Hdd). cbn. rewrite lookup_delete_None.
    right. apply lookup_empty. }
  assert (id ∈ td_deleted_nodes d) as Hdead by (apply (dd_dead_nodes _ _ _ _ Hdd); auto).
  rewrite Htx1. unfold create_relationship, allocate_rel_id. cbn -[apply_delta_to].
  set (d' := delta_insert_rel _ _ _). set (s2 := set_next_ids _ _ s).
  destruct (apply_delta_entries d' s2 (set_next_ids_wf _ _ _ (sr_wf _ Hready))) as [Hnodes Hrels].
  split_and!.
  - unfold visible_rel. cbn. rewrite decide_False by set_solver. rewrite lookup_insert_eq. cbn.
    by rewrite decide_True.
  - apply Hrels. cbn. by rewrite lookup_insert_eq.
  - rewrite Hnodes. cbn. by rewrite Hn, decide_True.
Qed.

(** ** Interleaved transactions on the shared store *)

Record Sys := {
  sys_store : GraphStore;
  sys_txs : gmap nat InMemoryTx;
  (** every node id ever handed out, latest first *)
  sys_allocated : list Z;
}.

Definition result_ids (r : TxResult) : list Z :=
  match r with RNode node => [sn_id node] | _ => [] end.

Inductive sys_step : Sys → Sys → Prop :=
  | sys_begin i σ :
      sys_txs σ !! i = None →
      sys_step σ {| sys_store := sys_store σ; sys_txs := <[i := tx_new]> (sys_txs σ);
                    sys_allocated := sys_allocated σ |}
  | sys_op i op tx r s' tx' σ :
      sys_txs σ !! i = Some tx →
      (next_node_id (sys_store σ) < i64_max)%Z → (next_rel_id (sys_store σ) < i64_max)%Z →
      tx_step op (sys_store σ) tx = (r, s', tx') →
      sys_step σ {| sys_store := s'; sys_txs := <[i := tx']> (sys_txs σ);
                    sys_allocated := result_ids r ++ sys_allocated σ |}
  | sys_lookup i tx key value σ :
      sys_txs σ !! i = Some tx →
      sys_step σ {| sys_store := (find_nodes_by_property key value (sys_store σ) tx).2;
                    sys_txs := sys_txs σ; sys_allocated := sys_allocated σ |}
  | sys_commit i tx σ :
      sys_txs σ !! i = Some tx →
      sys_step σ {| sys_store := (tx_commit (sys_store σ) tx).1;
                    sys_txs := delete i (sys_txs σ); sys_allocated := sys_allocated σ |}
  | sys_rollback i tx σ :
      sys_txs σ !! i = Some tx →
      sys_step σ {| sys_store := (tx_rollback (sys_store σ) tx).1;
                    sys_txs := delete i (sys_txs σ); sys_allocated := sys_allocated σ |}.

Definition sys_init : Sys :=
  {| sys_store := GraphStore_default; sys_txs := ∅; sys_allocated := [] |}.

(** Ids below the counters, in the store and in a delta. *)
Record counters_ok s : Prop := {
  co_wf : store_wf s;
  co_node id : is_Some (nodes s !! id) → (i64_min ≤ id < next_node_id s)%Z;
  co_rel id : is_Some (rels s !! id) → (i64_min ≤ id < next_rel_id s)%Z;
  co_bounds : (i64_min ≤ next_node_id s ≤ i64_max)%Z ∧ (i64_min ≤ next_rel_id s ≤ i64_max)%Z;
}.

Record tx_keys_ok s tx : Prop := {
  tk_mode : tx_working_copy tx = None;
  tk_node id node :
    td_nodes (tx_delta tx) !! id = Some node →
    sn_id node = id ∧ (i64_min ≤ id < next_node_id s)%Z;
  tk_rel id rel :
    td_rels (tx_delta tx) !! id = Some rel →
    sr_id rel = id ∧ (i64_min ≤ id < next_rel_id s)%Z;
}.

Definition counters_le s t : Prop :=
  (next_node_id s ≤ next_node_id t)%Z ∧ (next_rel_id s ≤ next_rel_id t)%Z.

Lemma tx_keys_mono s t tx : counters_le s t → tx_keys_ok s tx → tx_keys_ok t tx.
Proof.
  intros [Hn Hr] []. split; [done|..].
  - intros id node Hid. destruct (tk_node0 _ _ Hid). split; [done|lia].
  - intros id rel Hid. destruct (tk_rel0 _ _ Hid). split; [done|lia].
Qed.

Lemma apply_delta_counters s tx :
  counters_ok s → tx_keys_ok s tx →
  let t := apply_delta_to (tx_delta tx) s in
  counters_ok t ∧ next_node_id t = next_node_id s ∧ next_rel_id t = next_rel_id s.
Proof.
  intros Hok Hkeys. set (d := tx_delta tx).
  destruct (co_bounds _ Hok) as [Hbn Hbr].
  set (Q := λ t, store_wf t ∧ next_node_id t = next_node_id s ∧ next_rel_id t = next_rel_id s ∧
    (∀ id, is_Some (nodes t !! id) → (i64_min ≤ id < next_node_id s)%Z) ∧
    (∀ id, is_Some (rels t !! id) → (i64_min ≤ id < next_rel_id s)%Z)).
  cut (Q (apply_delta_to d s)).
  { intros (? & Hn & Hr & ? & ?). cbn -[apply_delta_to]. split; [|done].
    split; rewrite ?Hn, ?Hr; done. }
  unfold apply_delta_to. apply foldl_inv; [apply foldl_inv; [apply foldl_inv; [apply foldl_inv|]|]|].
  - destruct Hok. split_and!; try done; naive_solver.
  - intros t id _ (Hwf & Hn & Hr & Hns & Hrs).
    destruct (remove_node_effect id t Hwf) as (Hwf' & Hn' & Hnn & Hnr & Hr').
    split_and!; [done|congruence|congruence|..].
    + intros i [n Hi]. rewrite Hn' in Hi. apply lookup_delete_Some in Hi as [_ Hi]. eauto.
    + intros i [rel Hi]. rewrite Hr' in Hi. apply Hrs.
      destruct (nodes t !! id); [apply map_lookup_filter_Some in Hi as [Hi _]|]; eauto.
  - intros t id _ (Hwf & Hn & Hr & Hns & Hrs).
    destruct (remove_relationship_frame id t) as [(Hn' & Hnn & Hnr & _) Hr'].
    split_and!; [by apply remove_relationship_wf|congruence|congruence|by rewrite Hn'|].
    intros i [rel Hi]. rewrite Hr' in Hi. apply lookup_delete_Some in Hi as [_ Hi]. eauto.
  - intros t [id node] Hin%elem_of_bt_iter (Hwf & Hn & Hr & Hns & Hrs).
    destruct (tk_node _ _ Hkeys _ _ Hin) as [Hid Hlt].
    destruct (insert_node_fields id node (bump_node_id id t)) as (Hn' & Hr' & Hnn & Hnr & _).
    assert (next_node_id (bump_node_id id t) = next_node_id s) as Hb.
    { cbn. rewrite i64_add_small by lia. lia. }
    split_and!; [by apply insert_node_wf, set_next_ids_wf|congruence|by rewrite Hnr|..].
    + intros i [n Hi]. rewrite Hn' in Hi.
      apply lookup_insert_Some in Hi as [[<- _]|[_ Hi]]; [done|eauto].
    + intros i. rewrite Hr'. apply Hrs.
  - intros t [id rel] Hin%elem_of_bt_iter (Hwf & Hn & Hr & Hns & Hrs).
    destruct (tk_rel _ _ Hkeys _ _ Hin) as [Hid Hlt].
    destruct (insert_relationship_frame id rel (bump_rel_id id t)) as [(Hn' & Hnn & Hnr & _) Hr'].
    assert (next_rel_id (bump_rel_id id t) = next_rel_id s) as Hb.
    { cbn. rewrite i64_add_small by lia. lia. }
    split_and!; [by apply insert_relationship_wf, set_next_ids_wf|by rewrite Hnn|congruence|..].
    + intros i. rewrite Hn'. apply Hns.
    + intros i [n Hi]. rewrite Hr' in Hi.
      apply lookup_insert_Some in Hi as [[<- _]|[_ Hi]]; [done|eauto].
Qed.

Lemma delete_node_td id s tx :
  (∀ i n, td_nodes (tx_delta (delete_node id s tx)) !! i = Some n →
          td_nodes (tx_delta tx) !! i = Some n) ∧
  (∀ i r, td_rels (tx_delta (delete_node id s tx)) !! i = Some r →
          td_rels (tx_delta tx) !! i = Some r).
Proof.
  unfold delete_node. cbn [tx_delta set_delta].
  destruct (foldl_delta_remove_rel (bs_iter (visible_related_rel_ids id s tx))
    (delta_remove_node id (tx_delta match tx_working_copy tx with
       | Some w => set_working (remove_node id w).2 tx | None => tx end))
    (bs_iter_NoDup _)) as (-> & _ & Hr & _).
  assert (tx_delta match tx_working_copy tx with
       | Some w => set_working (remove_node id w).2 tx | None => tx end = tx_delta tx) as Hd
    by by destruct (tx_working_copy tx).
  rewrite Hd in *. split.
  - intros i n. unfold delta_remove_node. destruct (td_nodes (tx_delta tx) !! id); [|done].
    cbn [td_nodes]. by intros [_ ?]%lookup_delete_Some.
  - intros i r. rewrite Hr. case_decide; [done|]. unfold delta_remove_node.
    by destruct (td_nodes (tx_delta tx) !! id).
Qed.

Lemma keys_insert_node id node d s tx :
  td_nodes d = td_nodes (tx_delta tx) → td_rels d = td_rels (tx_delta tx) →
  tx_keys_ok s tx → sn_id node = id → (i64_min ≤ id < next_node_id s)%Z →
  tx_keys_ok s (set_delta (delta_insert_node id node d) tx).
Proof.
  intros Hn Hr [] Hid Hlt. split; cbn; rewrite ?Hn, ?Hr; try done.
  intros i n Hi. apply lookup_insert_Some in Hi as [[<- <-]|[_ Hi]]; [done|by apply tk_node0].
Qed.

Lemma keys_insert_rel id rel d s tx :
  td_nodes d = td_nodes (tx_delta tx) → td_rels d = td_rels (tx_delta tx) →
  tx_keys_ok s tx → sr_id rel = id → (i64_min ≤ id < next_rel_id s)%Z →
  tx_keys_ok s (set_delta (delta_insert_rel id rel d) tx).
Proof.
  intros Hn Hr [] Hid Hlt. split; cbn; rewrite ?Hn, ?Hr; try done.
  intros i n [[<- <-]|[_ Hi]]%lookup_insert_Some; [done|by apply tk_rel0].
Qed.

Lemma seen_node_keys id node s tx :
  counters_ok s → tx_keys_ok s tx →
  or_else (td_nodes (tx_delta tx) !! id) (nodes s !! id) = Some node →
  sn_id node = id ∧ (i64_min ≤ id < next_node_id s)%Z.
Proof.
  intros Hok Hkeys Hor. destruct (td_nodes (tx_delta tx) !! id) eqn:Htd; cbn in Hor.
  - simplify_eq. by apply (tk_node _ _ Hkeys).
  - split; [by apply (wf_node_id _ (co_wf _ Hok))|apply (co_node _ Hok); eauto].
Qed.

Lemma seen_rel_keys id rel s tx :
  counters_ok s → tx_keys_ok s tx →
  or_else (td_rels (tx_delta tx) !! id) (rels s !! id) = Some rel →
  sr_id rel = id ∧ (i64_min ≤ id < next_rel_id s)%Z.
Proof.
  intros Hok Hkeys Hor. destruct (td_rels (tx_delta tx) !! id) eqn:Htd; cbn in Hor.
  - simplify_eq. by apply (tk_rel _ _ Hkeys).
  - split; [by apply (wf_rel_id _ (co_wf _ Hok))|apply (co_rel _ Hok); eauto].
Qed.

Lemma counters_ok_advance s nn nr :
  counters_ok s → (next_node_id s ≤ nn ≤ i64_max)%Z → (next_rel_id s ≤ nr ≤ i64_max)%Z →
  counters_ok (set_next_ids nn nr s) ∧ counters_le s (set_next_ids nn nr s).
Proof.
  intros [Hwf Hn Hr [Hbn Hbr]] Hnn Hnr. split; [|unfold counters_le; cbn; lia].
  split; cbn; [by apply set_next_ids_wf| | |lia].
  - intros id Hid. specialize (Hn id Hid). lia.
  - intros id Hid. specialize (Hr id Hid). lia.
Qed.

(** Every operation keeps the ids below the counters; a new node's id is the
    counter. *)
Lemma tx_step_keys op s tx r s' tx' :
  counters_ok s → tx_keys_ok s tx →
  (next_node_id s < i64_max)%Z → (next_rel_id s < i64_max)%Z →
  tx_step op s tx = (r, s', tx') →
  counters_ok s' ∧ counters_le s s' ∧ tx_keys_ok s' tx' ∧
  (result_ids r = [] ∨
   result_ids r = [next_node_id s] ∧ next_node_id s' = (next_node_id s + 1)%Z).
Proof.
  intros Hok Hkeys Hln Hlr Hstep. pose proof (co_bounds _ Hok) as [Hbn Hbr].
  pose proof (tk_mode _ _ Hkeys) as Hmode.
  assert (counters_le s s) as Hrefl by done.
  destruct op; cbn in Hstep;
    unfold create_node, update_node, create_relationship, update_relationship,
      delete_relationship in Hstep; cbn in Hstep; rewrite ?Hmode in Hstep.
  - injection Hstep as <- <- <-. rewrite i64_add_small by lia.
    destruct (counters_ok_advance s (next_node_id s + 1) (next_rel_id s)) as [Hok' Hle];
      [done|lia..|]. split_and!; [done..| |by right].
    apply keys_insert_node; [done..|by apply (tx_keys_mono s)|done|cbn; lia].
  - case_decide; [by simplify_eq/=; eauto 10|].
    destruct (or_else _ _) as [node|] eqn:Hor; simplify_eq/=; [|by eauto 10].
    destruct (seen_node_keys _ _ _ _ Hok Hkeys Hor).
    split_and!; [done..|by apply keys_insert_node|by left].
  - destruct (delete_node_td id s tx) as [Hn Hr]. simplify_eq. split_and!; [done..| |by left].
    split; [unfold delete_node; by rewrite Hmode|intros i n ?%Hn; by apply (tk_node _ _ Hkeys)|].
    intros i n ?%Hr. by apply (tk_rel _ _ Hkeys).
  - simplify_eq/=. by eauto 10.
  - injection Hstep as <- <- <-. rewrite i64_add_small by lia.
    destruct (counters_ok_advance s (next_node_id s) (next_rel_id s + 1)) as [Hok' Hle];
      [done|lia..|]. split_and!; [done..| |by left].
    apply keys_insert_rel; [done..|by apply (tx_keys_mono s)|done|cbn; lia].
  - case_decide; [by simplify_eq/=; eauto 10|].
    destruct (or_else _ _) as [rel|] eqn:Hor; simplify_eq/=; [|by eauto 10].
    destruct (seen_rel_keys _ _ _ _ Hok Hkeys Hor).
    split_and!; [done..|by apply keys_insert_rel|by left].
  - simplify_eq/=. split_and!; [done..| |by left]. destruct Hkeys.
    split; cbn; [done|..]; unfold delta_remove_rel; case_match; cbn; try done.
    intros i n [_ Hi]%lookup_delete_Some. by apply tk_rel0.
Qed.

Record sys_inv (σ : Sys) : Prop := {
  si_counters : counters_ok (sys_store σ);
  si_txs i tx : sys_txs σ !! i = Some tx → tx_keys_ok (sys_store σ) tx;
  si_fresh : NoDup (sys_allocated σ);
  si_below id : id ∈ sys_allocated σ → (id < next_node_id (sys_store σ))%Z;
}.

Lemma find_nodes_by_property_store key value s tx :
  counters_ok s → let t := (find_nodes_by_property key value s tx).2 in
  counters_ok t ∧ same_graph s t.
Proof.
  intros Hok. unfold find_nodes_by_property, visible_nodes_by_property.
  destruct (tx_working_copy tx); [done|]. unfold node_ids_by_property.
  destruct (refresh_wf s (co_wf _ Hok)) as (Hwf & Hsame & _).
  assert (counters_ok (refresh_property_index s)) as Hok'.
  { destruct Hsame as (Hn & Hr & Hnn & Hnr). destruct Hok. split; [done|..].
    - by rewrite <-Hn, <-Hnn.
    - by rewrite <-Hr, <-Hnr.
    - by rewrite <-Hnn, <-Hnr. }
  by destruct (ValueKey_from_value value).
Qed.

Lemma sys_step_inv σ τ : sys_step σ τ → sys_inv σ → sys_inv τ.
Proof.
  intros Hstep [Hok Htxs Hfresh Hbelow]. destruct Hstep as
    [i σ Hi|i op tx r s' tx' σ Hi Hln Hlr Hop|i tx key value σ Hi|i tx σ Hi|i tx σ Hi].
  - split; cbn; try done. intros j tx [[<- <-]|[_ Hj]]%lookup_insert_Some; [|by eapply Htxs].
    split; cbn; [done|..]; intros ??; by rewrite lookup_empty.
  - destruct (tx_step_keys op _ _ _ _ _ Hok (Htxs _ _ Hi) Hln Hlr Hop)
      as (Hok' & Hle & Hkeys & Hids).
    split; cbn; [done|..].
    + intros j t [[<- <-]|[_ Hj]]%lookup_insert_Some; [done|].
      by eapply tx_keys_mono, Htxs.
    + destruct Hids as [->|[-> _]]; [done|]. constructor; [|done].
      intros Hin%Hbelow. lia.
    + destruct Hle as [Hle _].
      destruct Hids as [->|[-> Heq]]; [intros id Hin%Hbelow; lia|].
      intros id [->|Hin%Hbelow]%elem_of_cons; lia.
  - destruct (find_nodes_by_property_store key value (sys_store σ) tx Hok) as [Hok' Hsame].
    destruct Hsame as (_ & _ & Hnn & Hnr).
    assert (counters_le (sys_store σ) (find_nodes_by_property key value (sys_store σ) tx).2)
      as Hle by (split; lia).
    split; cbn; [done|..|done|]; [intros j t Hj; by eapply tx_keys_mono, Htxs|].
    rewrite <-Hnn. apply Hbelow.
  - destruct (apply_delta_counters (sys_store σ) tx Hok (Htxs _ _ Hi)) as (Hok' & Hnn & Hnr).
    assert (counters_le (sys_store σ) (tx_commit (sys_store σ) tx).1) as Hle
      by (split; cbn -[apply_delta_to]; lia).
    split; cbn -[apply_delta_to]; [done|..|done|by rewrite Hnn].
    intros j t [_ Hj]%lookup_delete_Some. by eapply tx_keys_mono, Htxs.
  - split; cbn; try done. intros j t [_ Hj]%lookup_delete_Some. by eapply Htxs.
Qed.

Lemma sys_init_inv : sys_inv sys_init.
Proof.
  split; cbn.
  - split; cbn; [apply default_wf|by intros id []|by intros id []|done].
  - intros i tx. by rewrite lookup_empty.
  - constructor.
  - set_solver.
Qed.

(** C3: however transactions interleave on the shared store, no node id is
    handed out twice, ids stay below the counters in the store and in every
    open transaction, the indexes stay consistent, and no transaction
    leaves delta mode. *)
Theorem sys_reachable_inv (σ : Sys) :
  rtc sys_step sys_init σ →
  store_wf (sys_store σ) ∧ NoDup (sys_allocated σ) ∧
  (∀ id, is_Some (nodes (sys_store σ) !! id) → (id < next_node_id (sys_store σ))%Z) ∧
  (∀ i tx, sys_txs σ !! i = Some tx →
     tx_working_copy tx = None ∧
     ∀ id node, td_nodes (tx_delta tx) !! id = Some node →
                sn_id node = id ∧ (id < next_node_id (sys_store σ))%Z).
Proof.
  intros Hrtc. assert (sys_inv σ) as [Hok Htxs Hfresh Hbelow].
  { revert Hrtc. generalize sys_init_inv. generalize sys_init. intros σ0 H0 Hrtc.
    induction Hrtc; [done|]. eauto using sys_step_inv. }
  split_and!; [apply Hok|done|intros id Hid; apply (co_node _ Hok) in Hid; lia|].
  intros i tx Hi. destruct (Htxs _ _ Hi) as [Hm Hn _]. split; [done|].
  intros id node Hid. apply Hn in Hid as [? ?]. split; [done|lia].
Qed.

(** *** Adjacency through the delta *)

(** Both loops of [visible_neighbor_pairs], over items with an id each. *)
Definition collect {A} (key : A → Z) (f : A → option (StoredRel * StoredNode))
    (st : gset Z * list (StoredRel * StoredNode)) (items : list A) :=
  foldl (λ '(seen, pairs) a,
           if decide (key a ∈ seen) then (seen, pairs)
           else ({[key a]} ∪ seen,
                 match f a with Some p => pairs ++ [p] | None => pairs end)) st items.

(** The delta loop skips the relationships [P] rejects. *)
Lemma collect_filter (P : StoredRel → bool) (h : StoredRel → option StoredNode) st items :
  foldl (λ '(seen, pairs) rel,
           if negb (P rel) then (seen, pairs)
           else if decide (sr_id rel ∈ seen) then (seen, pairs)
           else ({[sr_id rel]} ∪ seen,
                 match h rel with
                 | Some neighbor => pairs ++ [(rel, neighbor)]
                 | None => pairs
                 end)) st items
  = collect sr_id (λ rel, pair rel <$> h rel) st (filter (λ rel, P rel) items).
Proof.
  revert st. induction items as [|a items IH]; intros [seen pairs]; [done|].
  rewrite filter_cons. cbn [foldl]. rewrite IH. clear IH.
  destruct (P a); cbn [negb]; [|by rewrite decide_False by (intros [])].
  rewrite (decide_True (P := true)) by done. cbn. by destruct (h a).
Qed.

Definition pair_ids (pairs : list (StoredRel * StoredNode)) : list Z :=
  map (λ p, sr_id p.1) pairs.

Lemma collect_spec {A} (key : A → Z) f (items : list A) seen pairs :
  (∀ a p, a ∈ items → f a = Some p → sr_id p.1 = key a) →
  (∀ i, i ∈ pair_ids pairs → i ∈ seen) → NoDup (pair_ids pairs) →
  (∀ a b, a ∈ items → b ∈ items → key a = key b → f a = f b) →
  let st := collect key f (seen, pairs) items in
  (∀ i, i ∈ st.1 ↔ i ∈ seen ∨ ∃ a, a ∈ items ∧ key a = i) ∧
  NoDup (pair_ids st.2) ∧ (∀ i, i ∈ pair_ids st.2 → i ∈ st.1) ∧
  (∀ p, p ∈ st.2 ↔ p ∈ pairs ∨ ∃ a, a ∈ items ∧ (key a ∉ seen) ∧ f a = Some p).
Proof.
  unfold collect. revert seen pairs.
  induction items as [|a items IH]; intros seen pairs Hid Hseen Hnd Hkey; cbn.
  - split_and!; [|done..|]; set_solver.
  - assert (∀ b p, b ∈ items → f b = Some p → sr_id p.1 = key b) as Hid'
      by (intros; apply Hid; [by right|done]).
    assert (∀ b c, b ∈ items → c ∈ items → key b = key c → f b = f c) as Hkey'
      by (intros; apply Hkey; [by right..|done]).
    case_decide as Ha.
    + destruct (IH seen pairs Hid' Hseen Hnd Hkey') as (Hs & Hn & Hp & Hel).
      split_and!; [|exact Hn|exact Hp|]; intros x; rewrite ?Hs, ?Hel; clear -Ha;
        setoid_rewrite elem_of_cons; naive_solver.
    + assert (∀ p, f a = Some p → sr_id p.1 = key a) as Hida by (intros; apply Hid; [by left|done]).
      assert (∀ p, p ∈ match f a with Some q => pairs ++ [q] | None => pairs end
               ↔ p ∈ pairs ∨ f a = Some p) as Hadd.
      { clear. intros p. destruct (f a) as [q|]; [|naive_solver].
        rewrite elem_of_app, list_elem_of_singleton. naive_solver. }
      destruct (IH ({[key a]} ∪ seen)
        match f a with Some p => pairs ++ [p] | None => pairs end) as (Hs & Hn & Hp & Hel);
        [done| | |done|].
      * intros i (p & -> & [Hin|Hf]%Hadd)%list_elem_of_fmap; apply elem_of_union; [right|left].
        -- apply Hseen, list_elem_of_fmap. eauto.
        -- rewrite (Hida p Hf). by apply elem_of_singleton.
      * destruct (f a) as [p|]; [|done]. unfold pair_ids. rewrite map_app, NoDup_app. cbn.
        rewrite (Hida p eq_refl). split_and!; [done| |apply NoDup_singleton].
        intros i Hi ->%list_elem_of_singleton. by apply Ha, Hseen.
      * split_and!; [|exact Hn|exact Hp|].
        -- intros i. rewrite Hs. clear. setoid_rewrite elem_of_cons. set_solver.
        -- intros p. rewrite Hel, Hadd. setoid_rewrite elem_of_cons.
           setoid_rewrite not_elem_of_union. setoid_rewrite not_elem_of_singleton.
           split; [clear -Ha; naive_solver|].
           intros [?|(b & [->|Hb] & Hnb & Hfb)]; [by left; left|by left; right|].
           destruct (decide (key b = key a)) as [Heq|Hne]; [|by right; eauto].
           left. right. rewrite <-Hfb. apply Hkey; [by left|by right|done].
Qed.

Lemma elem_of_relationship_ids node ty dir s i :
  store_wf s →
  i ∈ relationship_ids node ty dir s ↔
  ∃ rel, rels s !! i = Some rel ∧ rel_matches_neighbor rel node ty dir = true.
Proof.
  intros Hwf. assert (∀ ty, i ∈ outgoing_relationship_ids node ty s ↔
    ∃ rel, rels s !! i = Some rel ∧ sr_from rel = node ∧ type_matches ty rel = true) as Hout.
  { intros [t|]; cbn; [rewrite (elem_of_idx_ids _ _ _ _ (wf_out _ Hwf))
      |rewrite (elem_of_idx_ids _ _ _ _ (wf_out_any _ Hwf))]; unfold rel_at;
      try setoid_rewrite String.eqb_eq; naive_solver congruence. }
  assert (∀ ty, i ∈ incoming_relationship_ids node ty s ↔
    ∃ rel, rels s !! i = Some rel ∧ sr_to rel = node ∧ type_matches ty rel = true) as Hin.
  { intros [t|]; cbn; [rewrite (elem_of_idx_ids _ _ _ _ (wf_in _ Hwf))
      |rewrite (elem_of_idx_ids _ _ _ _ (wf_in_any _ Hwf))]; unfold rel_at;
      try setoid_rewrite String.eqb_eq; naive_solver congruence. }
  unfold rel_matches_neighbor. setoid_rewrite andb_true_iff.
  destruct dir; cbn; rewrite ?elem_of_app, ?Hout, ?Hin.
  - setoid_rewrite Z.eqb_eq. naive_solver.
  - setoid_rewrite Z.eqb_eq. naive_solver.
  - setoid_rewrite orb_true_iff. setoid_rewrite Z.eqb_eq. naive_solver.
Qed.

Lemma neighbor_id_matches rel node ty dir :
  rel_matches_neighbor rel node ty dir = true →
  ∃ i, neighbor_id rel node dir = Some i ∧ (i = sr_from rel ∨ i = sr_to rel).
Proof.
  unfold rel_matches_neighbor, neighbor_id. intros [_ Hm]%andb_true_iff. destruct dir.
  - rewrite Hm. eauto.
  - rewrite Hm. eauto.
  - destruct (sr_from rel =? node)%Z; [eauto|]. cbn in Hm. rewrite Hm. eauto.
Qed.

(** The pair of a visible relationship that matches. *)
Lemma visible_neighbor_pair_Some s tx node r dir p :
  tx_inv s tx →
  visible_neighbor_pair s tx node r dir = Some p ↔
  view_rels s tx !! r = Some p.1 ∧
  ∃ i, neighbor_id p.1 node dir = Some i ∧ view_nodes s tx !! i = Some p.2.
Proof.
  intros Hinv. unfold visible_neighbor_pair. rewrite visible_rel_view by apply Hinv.
  destruct (view_rels s tx !! r) as [rel|]; cbn; [|naive_solver].
  destruct (neighbor_id rel node dir) as [i|] eqn:Hi; cbn.
  - rewrite visible_node_view by apply Hinv. destruct p as [rel' n]. cbn.
    destruct (view_nodes s tx !! i) eqn:Hn; cbn; naive_solver.
  - naive_solver.
Qed.

(** An id found in an adjacency index, or an entry of the delta, has the ends
    and the type the view gives it. *)
Lemma view_rel_matches s tx r rel base node ty dir :
  tx_inv s tx → view_rels s tx !! r = Some rel → rels s !! r = Some base →
  rel_matches_neighbor base node ty dir = true → rel_matches_neighbor rel node ty dir = true.
Proof.
  intros Hinv Hv Hbase Hm.
  apply (view_rel_Some _ _ _ _ Hinv) in Hv as [_ [Htd|[_ Hs]]]; [|by simplify_eq].
  destruct (ti_shape _ _ Hinv _ _ _ Htd Hbase) as (Hf & Ht & Hty).
  unfold rel_matches_neighbor, type_matches in *. by rewrite Hf, Ht, Hty.
Qed.

Lemma view_rel_id s tx r rel : tx_inv s tx → view_rels s tx !! r = Some rel → sr_id rel = r.
Proof.
  intros Hinv Hv. apply (view_rel_Some _ _ _ _ Hinv) in Hv as [_ [Htd|[_ Hs]]].
  - by apply (ti_rel _ _ Hinv) in Htd as [].
  - by apply (wf_rel_id _ (ti_wf _ _ Hinv)).
Qed.

Lemma elem_of_delta_items s tx node ty dir rel :
  tx_inv s tx →
  rel ∈ filter (λ rel, rel_matches_neighbor rel node ty dir)
               (bt_values (td_rels (tx_delta tx))) ↔
  td_rels (tx_delta tx) !! sr_id rel = Some rel ∧ rel_matches_neighbor rel node ty dir = true.
Proof.
  intros Hinv. rewrite list_elem_of_filter, elem_of_bt_values. split.
  - intros [Hm [k Hk]]. destruct (ti_rel _ _ Hinv _ _ Hk) as [-> _]. eauto using Is_true_true_1.
  - intros [Hk Hm]. eauto using Is_true_true_2.
Qed.

(** From a visible node the two loops collect each matching relationship. *)
Lemma neighbor_pairs_spec (node : Z) (ty : option string) (dir : Direction) s tx :
  tx_inv s tx → is_Some (view_nodes s tx !! node) →
  let pairs := visible_neighbor_pairs node ty dir s tx in
  NoDup (pair_ids pairs) ∧
  ∀ rel n, (rel, n) ∈ pairs ↔
    view_rels s tx !! sr_id rel = Some rel ∧ rel_matches_neighbor rel node ty dir = true ∧
    ∃ i, neighbor_id rel node dir = Some i ∧ view_nodes s tx !! i = Some n.
Proof.
  intros Hinv Hnode. unfold visible_neighbor_pairs. rewrite (ti_mode _ _ Hinv).
  assert ((node ∉ td_deleted_nodes (tx_delta tx)) ∧
    bool_decide (td_nodes (tx_delta tx) !! node = None) && bool_decide (nodes s !! node = None)
    = false) as [Hd Habs].
  { destruct Hnode as [n [Hd Hn]%view_node_Some]. split; [done|].
    apply andb_false_iff. destruct Hn as [->|[_ ->]]; auto. }
  rewrite decide_False, Habs by done.
  set (f := λ rel_id, visible_neighbor_pair s tx node rel_id dir).
  change (collect_pairs f ∅ (relationship_ids node ty dir s))
    with (collect (λ i, i) f (∅, []) (relationship_ids node ty dir s)).
  destruct (collect_spec (λ i, i) f (relationship_ids node ty dir s) ∅ []) as (Hseen & Hnd & Hsub & Hel).
  { intros r p _ Hp. apply (visible_neighbor_pair_Some _ _ _ _ _ _ Hinv) in Hp as [Hv _].
    by apply (view_rel_id s tx). }
  { set_solver. } { constructor. } { by intros a b _ _ ->. }
  destruct (collect _ f (∅, []) (relationship_ids node ty dir s)) as [seen pairs].
  cbn [fst snd] in *.
  rewrite (collect_filter (λ rel, rel_matches_neighbor rel node ty dir)
    (λ rel, id ← neighbor_id rel node dir; visible_node s tx id)).
  destruct (collect_spec sr_id (λ rel, pair rel <$> (id ← neighbor_id rel node dir;
    visible_node s tx id)) (filter (λ rel, rel_matches_neighbor rel node ty dir)
      (bt_values (td_rels (tx_delta tx)))) seen pairs) as (_ & Hnd' & _ & Hel').
  { intros rel p _ Hp. by apply fmap_Some in Hp as (n & _ & ->). }
  { done. } { done. }
  { intros a b [Ha _]%(elem_of_delta_items s) [Hb _]%(elem_of_delta_items s) Hab; [|done..].
    rewrite Hab in Ha. by simplify_eq. }
  split; [exact Hnd'|]. intros rel n. rewrite Hel', Hel. split.
  - intros [[Hin|(r & Hr & _ & Hf)]|(rel' & Hitem & _ & Hf)]; [set_solver| |].
    + apply (visible_neighbor_pair_Some _ _ _ _ _ _ Hinv) in Hf as [Hv (i & Hi & Hn)]. cbn in *.
      rewrite (view_rel_id _ _ _ _ Hinv Hv). split_and!; [done| |eauto].
      apply elem_of_relationship_ids in Hr as (base & Hbase & Hm); [|apply Hinv].
      by eapply view_rel_matches.
    + apply (elem_of_delta_items s) in Hitem as [Htd Hm]; [|done].
      apply fmap_Some in Hf as (n' & Hn & [= -> ->]).
      apply bind_Some in Hn as (i & Hi & Hn). rewrite visible_node_view in Hn by apply Hinv.
      split_and!; [|done|eauto]. apply view_rel_Some; [done|].
      split; [by apply (ti_rel _ _ Hinv) in Htd as (_ & ? & _)|by left].
  - intros (Hv & Hm & i & Hi & Hn). pose proof Hv as Hv'.
    apply (view_rel_Some _ _ _ _ Hinv) in Hv' as [Hnd0 Hcase].
    destruct (decide (sr_id rel ∈ seen)) as [Hin|Hout].
    + left. right. apply Hseen in Hin as [Hin|(r & Hr & ->)]; [set_solver|].
      exists (sr_id rel). split_and!; [done|set_solver|].
      apply visible_neighbor_pair_Some; [done|]. eauto.
    + destruct Hcase as [Htd|[_ Hs]].
      * right. exists rel. split_and!; [by apply (elem_of_delta_items s)|done|]. rewrite Hi. cbn.
        rewrite visible_node_view by apply Hinv. by rewrite Hn.
      * destruct Hout. apply Hseen. right. exists (sr_id rel). split; [|done].
        apply elem_of_relationship_ids; [apply Hinv|]. eauto.
Qed.

(** traversing from a visible node answers each visible relationship that
    has the asked type and direction exactly once, with the node at its
    other end as the transaction sees it; from an invisible node, nothing. *)
Theorem neighbor_pairs_exact (node : Z) (ty : option string) (dir : Direction) s tx :
  tx_inv s tx →
  let pairs := visible_neighbor_pairs node ty dir s tx in
  NoDup (pair_ids pairs) ∧
  ∀ rel n, (rel, n) ∈ pairs ↔
    is_Some (view_nodes s tx !! node) ∧
    view_rels s tx !! sr_id rel = Some rel ∧ rel_matches_neighbor rel node ty dir = true ∧
    ∃ i, neighbor_id rel node dir = Some i ∧ view_nodes s tx !! i = Some n.
Proof.
  intros Hinv. destruct (view_nodes s tx !! node) as [nd|] eqn:Hnode.
  - destruct (neighbor_pairs_spec node ty dir s tx Hinv) as [Hnd Hel]; [by eexists|].
    split; [done|]. intros rel n. rewrite Hel. split; [|by intros [_ ?]]. eauto.
  - assert (visible_neighbor_pairs node ty dir s tx = []) as ->.
    { unfold visible_neighbor_pairs. rewrite (ti_mode _ _ Hinv).
      rewrite view_nodes_lookup in Hnode. case_decide; [done|].
      destruct (td_nodes (tx_delta tx) !! node); [done|]. cbn in Hnode. by rewrite Hnode. }
    split; [constructor|]. intros rel n. split; [set_solver|]. by intros [[] _].
Qed.
End results.

(** ** Witnesses *)

Section tx_witnesses.
#[local] Existing Instance serde_default.

Definition w_tx_store : GraphStore := set_next_ids 3 2 w_store.

Lemma w_keys {V} (m : gmap Z V) (b : Z) :
  forallb (λ k, (i64_min <=? k)%Z && (k <? b)%Z) (bt_keys m) = true →
  ∀ id, is_Some (m !! id) → (i64_min ≤ id < b)%Z.
Proof.
  rewrite forallb_forall. intros Hall id Hid%elem_of_bt_keys%list_elem_of_In.
  apply Hall in Hid. apply andb_true_iff in Hid as [?%Z.leb_le ?%Z.ltb_lt]. lia.
Qed.

Lemma w_ready : store_ready w_tx_store.
Proof.
  split.
  - apply set_next_ids_wf, w_store_wf.
  - apply set_next_ids_no_dangling, w_no_dangling.
  - apply w_keys. vm_compute. reflexivity.
  - apply w_keys. vm_compute. reflexivity.
  - by vm_compute.
  - by vm_compute.
Qed.

Definition w_tx_ops : list TxOp :=
  [CreateNode ["Person"%string] {["name"%string := Str "cid"]};
   CreateRelationship 1 3 "KNOWS" ∅; DeleteNode 2; FindNode 2;
   UpdateNode 1 {["name"%string := Str "eve"]}].

(** The goals of a concrete [legal_run], by evaluation. *)
Ltac legal_eval :=
  repeat match goal with
  | |- legal_run [] _ _ => exact I
  | |- legal_run (_ :: _) _ _ => split
  | |- legal (DeleteNode _) _ _ => split
  | |- legal (CreateRelationship _ _ _ _) _ _ => split; [|split]
  | |- legal (DeleteRelationship _) _ _ => red
  | |- legal (UpdateNode _ _) _ _ => exact I
  | |- legal (FindNode _) _ _ => exact I
  | |- legal (UpdateRelationship _ _) _ _ => exact I
  | |- legal (CreateNode _ _) _ _ => red
  | |- (_ < _)%Z => vm_compute; reflexivity
  | |- is_Some _ => apply (bool_decide_unpack _); vm_compute; exact I
  | |- ¬ updated_node _ _ _ =>
      let H1 := fresh in intros [H1 _]; apply (bool_decide_eq_true_2 _) in H1;
      vm_compute in H1; discriminate H1
  end.

Lemma w_legal : legal_run w_tx_ops w_tx_store tx_new.
Proof.
  unfold w_tx_ops. legal_eval.
  intros r rel Hr _ [Htd _].
  rewrite !(proj2 (tx_step_frame _ _ _)) in Hr.
  assert (rels w_tx_store = {[1%Z := w_rel 1 1 2]}) as Heq by done.
  rewrite Heq in Hr. apply lookup_singleton_Some in Hr as [<- _].
  apply (bool_decide_eq_true_2 _) in Htd. vm_compute in Htd. discriminate Htd.
Qed.


Lemma tx_step_refines_witness :
  let '(r, s', tx') := tx_step (UpdateNode 1 {["name"%string := Str "eve"]}) w_tx_store tx_new in
  spec_step (UpdateNode 1 {["name"%string := Str "eve"]}) (view w_tx_store tx_new)
    = (r, view s' tx') ∧
  nodes s' = nodes w_tx_store ∧ rels s' = rels w_tx_store.
Proof. apply tx_step_refines; [apply store_ready_inv, w_ready|exact I]. Defined.

Lemma update_then_delete_survives_witness :
  let tx1 := (update_node 2 {["name"%string := Str "eve"]} w_tx_store tx_new).2 in
  let tx2 := delete_node 2 w_tx_store tx1 in
  find_node_by_id 2 w_tx_store tx2 = Some (w_node 2 "bob") ∧
  nodes (tx_commit w_tx_store tx2).1 !! 2%Z = Some (w_node 2 "bob") ∧
  (∀ r rel, rels w_tx_store !! r = Some rel → rel_touches 2 rel = true →
            rels (tx_commit w_tx_store tx2).1 !! r = None).
Proof. apply update_then_delete_survives; [apply w_ready|reflexivity]. Defined.

Lemma create_after_delete_dangles_witness :
  let tx1 := delete_node 2 w_tx_store tx_new in
  let '(rel, s2, tx2) := create_relationship 2 1 "KNOWS" ∅ w_tx_store tx1 in
  visible_rel s2 tx2 (sr_id rel) = None ∧
  rels (tx_commit s2 tx2).1 !! sr_id rel = Some rel ∧
  nodes (tx_commit s2 tx2).1 !! sr_from rel = None.
Proof. apply create_after_delete_dangles, w_ready. Defined.

Definition w_sys : Sys :=
  {| sys_store := GraphStore_default; sys_txs := <[0 := tx_new]> ∅; sys_allocated := [] |}.

Lemma sys_reachable_inv_witness :
  store_wf (sys_store w_sys) ∧ NoDup (sys_allocated w_sys) ∧
  (∀ id, is_Some (nodes (sys_store w_sys) !! id) → (id < next_node_id (sys_store w_sys))%Z) ∧
  (∀ i tx, sys_txs w_sys !! i = Some tx →
     tx_working_copy tx = None ∧
     ∀ id node, td_nodes (tx_delta tx) !! id = Some node →
                sn_id node = id ∧ (id < next_node_id (sys_store w_sys))%Z).
Proof.
  apply (sys_reachable_inv w_sys). apply rtc_once. exact (sys_begin 0 sys_init eq_refl).
Defined.

Lemma neighbor_pairs_exact_witness :
  let pairs := visible_neighbor_pairs 1 None DirOut w_tx_store tx_new in
  NoDup (pair_ids pairs) ∧
  ∀ rel n, (rel, n) ∈ pairs ↔
    is_Some (view_nodes w_tx_store tx_new !! 1%Z) ∧
    view_rels w_tx_store tx_new !! sr_id rel = Some rel ∧
    rel_matches_neighbor rel 1 None DirOut = true ∧
    ∃ i, neighbor_id rel 1 DirOut = Some i ∧ view_nodes w_tx_store tx_new !! i = Some n.
Proof. apply neighbor_pairs_exact, store_ready_inv, w_ready. Defined.
End tx_witnesses.
