(* ===== verification/Exec.v ===== *)
(** * Query execution over the in-memory store

    Models the execution of a kernel graph query by a transaction
    ([src/src/backend/inmemory/inmemorytx.rs], from [labels_match] to
    [execute_graph_query]) and [src/src/backend/inmemory/returnplan.rs]. *)

From S2P Require Export Prelude Text Json Numbers Dsl Index Store Tx.

Section exec.
Context `{SerdeNumber}.

(** ** Matching nodes *)

Definition labels_match (node_labels required : list string) : bool :=
  forallb (λ l, existsb (λ nl, String.eqb nl l) node_labels) required.

(** The body repeats that of [props_match_filters] on the node's properties. *)
Definition stored_node_matches_filters (node : StoredNode) (filters : list PropertyFilter)
    : bool :=
  props_match_filters (sn_props node) filters.

Definition keep_smallest (best : option (list Z)) (candidate : list Z) : option (list Z) :=
  match best with
  | Some current => if (length candidate <? length current)%nat then Some candidate else best
  | None => Some candidate
  end.

Definition is_eq_filter (f : PropertyFilter) : bool :=
  bool_decide (pf_op f = OpEq) && property_value_is_indexable (pf_value f).

Definition base_node_candidate_ids (labels : list string) (filters : list PropertyFilter)
    (s : GraphStore) : list Z * GraphStore :=
  let eq_filters := filter (λ f, is_eq_filter f) filters in
  let '(best, s) :=
    match labels with
    | [] =>
        foldl (λ '(best, s) f,
                 let '(ids, s) := node_ids_by_property (pf_key f) (pf_value f) s in
                 (keep_smallest best ids, s)) (None, s) eq_filters
    | _ =>
        let '(best, s) :=
          foldl (λ st label,
                   foldl (λ '(best, s) f,
                            let '(ids, s) :=
                              node_ids_by_label_property label (pf_key f) (pf_value f) s in
                            (keep_smallest best ids, s)) st eq_filters) (None, s) labels in
        match best with
        | Some _ => (best, s)
        | None => (foldl (λ best label, keep_smallest best (node_ids_by_label label s))
                         None labels, s)
        end
    end in
  (match best with Some ids => ids | None => bt_keys (nodes s) end, s).

Definition node_matches (labels : list string) (filters : list PropertyFilter)
    (node : StoredNode) : bool :=
  labels_match (sn_labels node) labels && stored_node_matches_filters node filters.

Definition base_nodes_matching (labels : list string) (filters : list PropertyFilter)
    (s : GraphStore) (tx : InMemoryTx) : list StoredNode * GraphStore :=
  let d := tx_delta tx in
  let '(ids, s) := base_node_candidate_ids labels filters s in
  (filter (λ node, bool_decide (sn_id node ∉ td_deleted_nodes d)
                   && bool_decide (td_nodes d !! sn_id node = None)
                   && node_matches labels filters node)
          (omap (λ id, nodes s !! id) ids), s).

Definition visible_nodes_matching (labels : list string) (filters : list PropertyFilter)
    (s : GraphStore) (tx : InMemoryTx) : list StoredNode * GraphStore :=
  match tx_working_copy tx with
  | Some w => (filter (λ node, node_matches labels filters node) (bt_values (nodes w)), s)
  | None =>
      let '(base, s) := base_nodes_matching labels filters s tx in
      (base ++ filter (λ node, node_matches labels filters node)
                      (bt_values (td_nodes (tx_delta tx))), s)
  end.

(** ** Bindings *)

Record Binding := {
  b_root : Z;
  b_cur : Z;
  b_rels : gmap VarId Z;
  b_nodes : gmap VarId Z;
}.

Definition new_root (root_var : VarId) (root_id : Z) : Binding :=
  {| b_root := root_id; b_cur := root_id; b_rels := ∅; b_nodes := {[root_var := root_id]} |}.

Record ExecCtx := { ctx_root_nm : NodeMatch; ctx_hops : list HopMatch }.

Definition clause_node (m : MatchClause) : option NodeMatch :=
  match m with MatchNode nm => Some nm | MatchHop _ => None end.
Definition clause_hop (m : MatchClause) : option HopMatch :=
  match m with MatchNode _ => None | MatchHop h => Some h end.

(** [ExecCtx::build]: the node matches after the first are collected into a map
    that is dropped. *)
Definition ExecCtx_build (q : GraphQuery) : result ExecCtx :=
  root_nm ← ok_or (head (omap clause_node (gq_matches q)))
                  (Backend "GraphQuery missing root NodeMatch");
  Ok {| ctx_root_nm := root_nm; ctx_hops := omap clause_hop (gq_matches q) |}.

Definition seed_roots (nm : NodeMatch) (s : GraphStore) (tx : InMemoryTx)
    : list Binding * GraphStore :=
  match nm_id_filter nm with
  | Some id =>
      (match visible_node s tx id with
       | Some node =>
           if node_matches (nm_labels nm) (nm_property_filters nm) node
           then [new_root (nm_var nm) (sn_id node)] else []
       | None => []
       end, s)
  | None =>
      let '(ns, s) := visible_nodes_matching (nm_labels nm) (nm_property_filters nm) s tx in
      (map (λ node, new_root (nm_var nm) (sn_id node)) ns, s)
  end.

Definition create_next_binding (b : Binding) (rel : StoredRel) (end_node_id : Z)
    (hop : HopMatch) : Binding :=
  {| b_root := b_root b; b_cur := end_node_id;
     b_rels := <[hop_rel_var hop := sr_id rel]> (b_rels b);
     b_nodes := <[hop_end hop := end_node_id]> (b_nodes b) |}.

Definition traverse_single_hop_pure (hop : HopMatch) (b : Binding)
    (pairs : list (StoredRel * StoredNode)) : list Binding :=
  omap (λ '(rel, end_node),
          if labels_match (sn_labels end_node) (hop_end_labels hop)
          then Some (create_next_binding b rel (sn_id end_node) hop) else None) pairs.

Definition traverse_single_hop (hop : HopMatch) (s : GraphStore) (tx : InMemoryTx)
    (b : Binding) : list Binding :=
  traverse_single_hop_pure hop b
    match hop_dir hop with
    | DirOut => tx_outgoing (b_cur b) (hop_rel_type hop) s tx
    | DirIn => tx_incoming (b_cur b) (hop_rel_type hop) s tx
    | DirBoth => tx_both (b_cur b) (hop_rel_type hop) s tx
    end.

(** The loop of [traverse_hops], which stops as soon as no binding is left. *)
Fixpoint traverse_hops (hops : list HopMatch) (s : GraphStore) (tx : InMemoryTx)
    (bindings : list Binding) : list Binding :=
  match hops with
  | [] => bindings
  | hop :: hops =>
      match concat (map (traverse_single_hop hop s tx) bindings) with
      | [] => []
      | next => traverse_hops hops s tx next
      end
  end.

(** ** Selecting and emitting *)

Definition returned_id (q : GraphQuery) (b : Binding) : option Z :=
  match return_kind q with
  | KindNode => b_nodes b !! return_var q
  | KindRel => b_rels b !! return_var q
  end.

(** The fold that keeps the first binding of each returned id. *)
Definition unique_step (q : GraphQuery) (st : gset Z * list Binding) (b : Binding)
    : gset Z * list Binding :=
  let '(seen, out) := st in
  match returned_id q b with
  | Some id => if decide (id ∈ seen) then (seen, out) else ({[id]} ∪ seen, out ++ [b])
  | None => (seen, out)
  end.

Definition unique_bindings (q : GraphQuery) (bindings : list Binding) : list Binding :=
  (foldl (unique_step q) (∅, []) bindings).2.

Definition select_bindings_for_return (q : GraphQuery) (bindings : list Binding)
    : list Binding :=
  let result := unique_bindings q bindings in
  let off := default 0%N (gq_offset q) in
  if (len result <=? off)%N then []
  else
    let result := drop (N.to_nat off) result in
    match gq_limit q with Some lim => take (N.to_nat lim) result | None => result end.

Definition stored_node_to_kernel (node : StoredNode) : KernelValue :=
  KNode {| nv_id := sn_id node; nv_labels := sn_labels node; nv_props := sn_props node |}.
Definition stored_rel_to_kernel (rel : StoredRel) : KernelValue :=
  KRel {| rv_id := sr_id rel; rv_ty := sr_rel_type rel; rv_from := sr_from rel;
          rv_to := sr_to rel; rv_props := sr_props rel |}.

(** One row: the visible nodes of the binding, then its visible relationships. *)
Definition emit_row (s : GraphStore) (tx : InMemoryTx) (b : Binding) : QueryRow :=
  let node_values := omap (λ id, stored_node_to_kernel <$> visible_node s tx id) (b_nodes b) in
  let rel_values := omap (λ id, stored_rel_to_kernel <$> visible_rel s tx id) (b_rels b) in
  {| row_values := rel_values ∪ node_values |}.

Definition emit_rows_from_bindings (s : GraphStore) (tx : InMemoryTx)
    (bindings : list Binding) : list QueryRow :=
  map (emit_row s tx) bindings.

(** The ids [execute_graph_query] collects for its trace only. *)
Inductive ReturnPlan := PlanNode (v : VarId) (return_is_root : bool) | PlanRel (v : VarId).

Definition ReturnPlan_new (q : GraphQuery) (root_var : VarId) : ReturnPlan :=
  match gq_ret q with
  | ReturnNode v => PlanNode v (bool_decide (v = root_var))
  | ReturnRel v => PlanRel v
  end.

Definition collect_ids (p : ReturnPlan) (bindings : list Binding) : list Z :=
  (foldl (λ '(seen, out) b,
            match (match p with
                   | PlanNode _ return_is_root =>
                       Some (if return_is_root then b_root b else b_cur b)
                   | PlanRel v => b_rels b !! v
                   end) with
            | Some id => if decide (id ∈ seen) then (seen, out)
                         else ({[id]} ∪ seen, out ++ [id])
            | None => (seen, out)
            end) ((∅ : gset Z), []) bindings).2.

Definition execute_graph_query (q : GraphQuery) (s : GraphStore) (tx : InMemoryTx)
    : result QueryResult * GraphStore :=
  match ExecCtx_build q with
  | Err e => (Err e, s)
  | Ok ctx =>
      let '(bindings, s) := seed_roots (ctx_root_nm ctx) s tx in
      match bindings with
      | [] => (Ok {| qr_rows := [] |}, s)
      | _ =>
          match traverse_hops (ctx_hops ctx) s tx bindings with
          | [] => (Ok {| qr_rows := [] |}, s)
          | bindings =>
              let selected := select_bindings_for_return q bindings in
              (Ok {| qr_rows := emit_rows_from_bindings s tx selected |}, s)
          end
      end
  end.

(** [InMemoryBackend::execute_graph]: a fresh transaction, never committed. *)
Definition backend_execute_graph (q : GraphQuery) (s : GraphStore)
    : result QueryResult * GraphStore :=
  execute_graph_query q s tx_new.
End exec.

(** ** The candidate index is an optimisation of a scan *)

Section candidates.
Context `{SerdeNumber} `{!NumberLaws}.
Implicit Types (s t : GraphStore) (tx : InMemoryTx) (labels : list string)
  (filters : list PropertyFilter).

(** Ids among which no node satisfying [P] is missed. *)
Record candidates s (P : StoredNode → bool) (ids : list Z) : Prop := {
  cd_sorted : StronglySorted Z.le ids;
  cd_NoDup : NoDup ids;
  cd_complete id node : nodes s !! id = Some node → P node = true → id ∈ ids;
}.

Definition best_ok s P (best : option (list Z)) : Prop :=
  match best with Some ids => candidates s P ids | None => True end.

Lemma keep_smallest_ok s P best ids :
  best_ok s P best → candidates s P ids → best_ok s P (keep_smallest best ids).
Proof. unfold keep_smallest. destruct best; [case_match|]; done. Qed.

Lemma candidates_all s P : candidates s P (bt_keys (nodes s)).
Proof.
  split; [apply bt_keys_sorted|apply bt_keys_NoDup|].
  intros id node Hid _. apply elem_of_bt_keys. by eexists.
Qed.

Lemma candidates_same s t P ids : nodes s = nodes t → candidates s P ids ↔ candidates t P ids.
Proof. intros Hn. split; intros []; split; try done; by rewrite Hn || rewrite <-Hn. Qed.

(** Dropping the non-candidates from a walk loses nothing. *)
Lemma candidates_scan s P ids :
  store_wf s → candidates s P ids →
  filter (λ node, P node) (omap (λ id, nodes s !! id) ids)
  = filter (λ node, P node) (bt_values (nodes s)).
Proof.
  intros Hwf [Hs Hnd Hc].
  set (P' := λ id, match nodes s !! id with Some node => P node | None => false end).
  assert (∀ l : list Z, filter (λ node, P node) (omap (λ id, nodes s !! id) l)
               = omap (λ id, nodes s !! id) (filter (λ id, P' id) l)) as Hcomm.
  { intros l. induction l as [|id l IH]; [done|].
    rewrite (filter_cons (λ id, P' id)). cbn.
    assert (P' id = match nodes s !! id with Some node => P node | None => false end) as -> by done.
    destruct (nodes s !! id) as [node|] eqn:Hid; [|done].
    rewrite filter_cons, IH. destruct (P node).
    - rewrite !decide_True by done. cbn. by rewrite Hid.
    - by rewrite !decide_False by (intros []). }
  assert (bt_values (nodes s) = omap (λ id, nodes s !! id) (bt_keys (nodes s))) as ->.
  { unfold bt_keys, bt_values.
    assert (∀ l : list (Z * StoredNode), (∀ e, e ∈ l → nodes s !! e.1 = Some e.2) →
      l.*2 = omap (λ id, nodes s !! id) l.*1) as Haux.
    { induction l as [|[k v] l IH]; [done|]. intros Hl. cbn.
      pose proof (Hl (k, v) (list_elem_of_here _ _)) as Hkv. cbn in Hkv. rewrite Hkv.
      f_equal. apply IH.
      intros e He. apply Hl. by right. }
    apply Haux. intros [k v]. apply elem_of_bt_iter. }
  rewrite !Hcomm. f_equal.
  eapply (sorted_NoDup_unique (K := Z)).
  - eapply StronglySorted_sublist; [apply sublist_filter|done].
  - eapply StronglySorted_sublist; [apply sublist_filter|apply bt_keys_sorted].
  - by apply NoDup_filter.
  - apply NoDup_filter, bt_keys_NoDup.
  - intros id. rewrite !list_elem_of_filter, elem_of_bt_keys. unfold P'.
    destruct (nodes s !! id) as [node|] eqn:Hid; [|naive_solver].
    split; [naive_solver|]. intros [HP _]. split; [done|].
    apply (Hc _ _ Hid). by apply Is_true_true_1.
Qed.

Lemma labels_match_spec node_labels required :
  labels_match node_labels required = true ↔ ∀ l, l ∈ required → l ∈ node_labels.
Proof.
  unfold labels_match. rewrite forallb_forall. setoid_rewrite existsb_exists.
  setoid_rewrite list_elem_of_In. split.
  - intros Hall l Hl. by destruct (Hall l Hl) as (l' & ? & ->%String.eqb_eq).
  - intros Hall l Hl. exists l. split; [by apply Hall|apply String.eqb_refl].
Qed.

(** A matching node has the value of every equality filter. *)
Lemma node_matches_eq_filter labels filters node f :
  node_matches labels filters node = true → f ∈ filters → is_eq_filter f = true →
  node_has_value (pf_key f) (pf_value f) node = true ∧
  property_value_is_indexable (pf_value f) = true.
Proof.
  unfold node_matches, stored_node_matches_filters, is_eq_filter.
  rewrite !andb_true_iff, props_match_filters_spec, bool_decide_eq_true.
  intros [_ Hf] Hin [Hop Hix]. split; [|done].
  eapply Forall_forall in Hf as (v & Hv & Hm); [|exact Hin].
  rewrite Hop in Hm. unfold node_has_value. by rewrite Hv.
Qed.

(** No equality filter asks for the zero a stored property has in the other sign. *)
Definition filters_zero_ok filters s : Prop :=
  ∀ f, f ∈ filters → no_zero_clash (pf_key f) (pf_value f) s.

Lemma no_zero_clash_same key value s t :
  nodes s = nodes t → no_zero_clash key value s → no_zero_clash key value t.
Proof. unfold no_zero_clash. by intros ->. Qed.

(** One lookup of the loops: it keeps the store and adds a candidate list. *)
Definition lookup_ok s P (st : option (list Z) * GraphStore) : Prop :=
  store_wf st.2 ∧ same_graph s st.2 ∧ best_ok s P st.1.

Lemma candidate_step_label s labels filters label f best s1 :
  filters_zero_ok filters s → f ∈ filters → is_eq_filter f = true → label ∈ labels →
  lookup_ok s (node_matches labels filters) (best, s1) →
  lookup_ok s (node_matches labels filters)
    (let '(ids, s) := node_ids_by_label_property label (pf_key f) (pf_value f) s1 in
     (keep_smallest best ids, s)).
Proof.
  intros Hz Hf Heq Hl (Hwf & Hsame & Hbest). cbn in *.
  pose proof (label_property_ids label (pf_key f) (pf_value f) s1 Hwf) as Hids.
  destruct (node_ids_by_label_property _ _ _ _) as [ids t].
  destruct Hids as (Hwf' & Hsame' & Hs & Hnd & Hel).
  { by apply andb_true_iff in Heq as [_ ?]. }
  { eapply no_zero_clash_same; [|by apply Hz]. apply Hsame. }
  split_and!; [done|by etrans|]. apply keep_smallest_ok; [done|].
  split; [done|done|]. intros id node Hid Hm. apply Hel. exists node.
  destruct Hsame as [<- _]. split_and!; [done| |by eapply node_matches_eq_filter].
  apply andb_true_iff in Hm as [Hm _]. rewrite labels_match_spec in Hm. by apply Hm.
Qed.

Lemma candidate_step_any s labels filters f best s1 :
  filters_zero_ok filters s → f ∈ filters → is_eq_filter f = true →
  lookup_ok s (node_matches labels filters) (best, s1) →
  lookup_ok s (node_matches labels filters)
    (let '(ids, s) := node_ids_by_property (pf_key f) (pf_value f) s1 in
     (keep_smallest best ids, s)).
Proof.
  intros Hz Hf Heq (Hwf & Hsame & Hbest). cbn in *.
  pose proof (property_ids (pf_key f) (pf_value f) s1 Hwf) as Hids.
  destruct (node_ids_by_property _ _ _) as [ids t].
  destruct Hids as (Hwf' & Hsame' & Hs & Hnd & Hel).
  { by apply andb_true_iff in Heq as [_ ?]. }
  { eapply no_zero_clash_same; [|by apply Hz]. apply Hsame. }
  split_and!; [done|by etrans|]. apply keep_smallest_ok; [done|].
  split; [done|done|]. intros id node Hid Hm. apply Hel. exists node.
  destruct Hsame as [<- _]. split; [done|]. by eapply node_matches_eq_filter.
Qed.

Lemma base_node_candidate_ids_ok labels filters s :
  store_wf s → filters_zero_ok filters s →
  let '(ids, t) := base_node_candidate_ids labels filters s in
  store_wf t ∧ same_graph s t ∧ candidates s (node_matches labels filters) ids.
Proof.
  intros Hwf Hz. unfold base_node_candidate_ids.
  set (P := node_matches labels filters).
  set (eqs := filter (λ f, is_eq_filter f) filters).
  assert (∀ f, f ∈ eqs → f ∈ filters ∧ is_eq_filter f = true) as Heqs.
  { intros f [? ?]%list_elem_of_filter. eauto using Is_true_true_1. }
  assert (∀ st : option (list Z) * GraphStore, lookup_ok s P st →
    let '(ids, t) := (match st.1 with Some ids => ids | None => bt_keys (nodes st.2) end, st.2) in
    store_wf t ∧ same_graph s t ∧ candidates s P ids) as Hfin.
  { intros [[ids|] t] (Hwf' & Hsame & Hbest); cbn in *; [done|]. split_and!; [done..|].
    destruct Hsame as [Hn _]. rewrite <-Hn. apply candidates_all. }
  assert (lookup_ok s P (None, s)) as Hinit by done.
  destruct labels as [|l ls].
  - set (st := foldl _ (None, s) eqs). specialize (Hfin st). destruct st as [best t] eqn:Hst.
    apply Hfin. rewrite <-Hst. apply foldl_inv; [done|].
    intros [best' s'] f [? ?]%Heqs Hst'. by apply candidate_step_any.
  - set (st := foldl _ (None, s) (l :: ls)).
    assert (lookup_ok s P st) as Hok.
    { apply foldl_inv; [done|]. intros st1 label Hlabel Hst1. apply foldl_inv; [done|].
      intros [best' s'] f [? ?]%Heqs Hst2. by apply candidate_step_label. }
    destruct st as [[ids|] t]; [by apply (Hfin (Some ids, t))|].
    apply (Hfin (foldl (λ best label, keep_smallest best (node_ids_by_label label t))
                       None (l :: ls), t)).
    destruct Hok as (Hwf' & Hsame & _). split_and!; [done..|]. cbn [fst].
    apply foldl_inv; [done|]. intros best label Hlabel Hbest. apply keep_smallest_ok; [done|].
    split; [apply idx_ids_sorted|apply idx_ids_NoDup|]. intros id node Hid Hm.
    apply (elem_of_idx_ids _ _ _ _ (wf_label _ Hwf')). exists node. destruct Hsame as [<- _].
    split; [done|]. apply andb_true_iff in Hm as [Hm _]. rewrite labels_match_spec in Hm. by apply Hm.
Qed.

(** seeding from the smallest index hit gives the nodes a scan of the
    store gives, in the same order, and leaves the graph unchanged. *)
Theorem base_nodes_matching_is_scan labels filters s tx :
  store_wf s → filters_zero_ok filters s →
  let '(found, t) := base_nodes_matching labels filters s tx in
  same_graph s t ∧ store_wf t ∧
  found = filter (λ node, bool_decide (sn_id node ∉ td_deleted_nodes (tx_delta tx))
                          && bool_decide (td_nodes (tx_delta tx) !! sn_id node = None)
                          && node_matches labels filters node) (bt_values (nodes s)).
Proof.
  intros Hwf Hz. unfold base_nodes_matching.
  pose proof (base_node_candidate_ids_ok labels filters s Hwf Hz) as Hc.
  destruct (base_node_candidate_ids labels filters s) as [ids t].
  destruct Hc as (Hwf' & Hsame & Hc). split_and!; [done..|].
  destruct Hsame as [Hn _]. rewrite <-Hn.
  apply (candidates_scan s (λ node, bool_decide (sn_id node ∉ td_deleted_nodes (tx_delta tx))
    && bool_decide (td_nodes (tx_delta tx) !! sn_id node = None)
    && node_matches labels filters node)); [done|].
  destruct Hc as [Hs Hnd Hcomp]. split; [done|done|].
  intros id node Hid Hm. apply (Hcomp _ _ Hid). by apply andb_true_iff in Hm as [_ ?].
Qed.
End candidates.

(** ** Execution finds exactly the matching paths *)

Section paths.
Context `{SerdeNumber} `{!NumberLaws}.
Implicit Types (s t : GraphStore) (tx : InMemoryTx).

(** Refreshing the property cache changes nothing a transaction sees. *)
Lemma tx_inv_same s t tx : same_graph s t → store_wf t → tx_inv s tx → tx_inv t tx.
Proof.
  intros (Hn & Hr & Hnn & Hnr) Hwf Hinv. destruct Hinv.
  assert (∀ i, view_nodes t tx !! i = view_nodes s tx !! i) as Hv
    by (intros; by rewrite !view_nodes_lookup, Hn).
  split; try done; unfold no_dangling in *; rewrite <-?Hn, <-?Hr, <-?Hnn, <-?Hnr;
    try done.
  intros id rel Hid. rewrite !Hv. by apply ti_rel.
Qed.

Lemma view_nodes_same s t tx : same_graph s t → view_nodes t tx = view_nodes s tx.
Proof. unfold view_nodes. by intros [-> _]. Qed.
Lemma view_rels_same s t tx : same_graph s t → view_rels t tx = view_rels s tx.
Proof. unfold view_rels. by intros (_ & -> & _). Qed.

Lemma view_node_id s tx id node :
  tx_inv s tx → view_nodes s tx !! id = Some node → sn_id node = id.
Proof.
  intros Hinv [_ [Htd|[_ Hs]]]%view_node_Some.
  - by apply (ti_node _ _ Hinv) in Htd as [].
  - by apply (wf_node_id _ (ti_wf _ _ Hinv)).
Qed.

(** A binding a root node match starts from. *)
Definition root_binding s tx (nm : NodeMatch) (b : Binding) : Prop :=
  ∃ node, view_nodes s tx !! sn_id node = Some node ∧
    node_matches (nm_labels nm) (nm_property_filters nm) node = true ∧
    (∀ id, nm_id_filter nm = Some id → sn_id node = id) ∧
    b = new_root (nm_var nm) (sn_id node).

(** One hop: a visible relationship of the asked type and direction, to a
    visible node with the asked labels. *)
Definition hop_binding s tx (hop : HopMatch) (b b' : Binding) : Prop :=
  ∃ rel node, view_rels s tx !! sr_id rel = Some rel ∧
    rel_matches_neighbor rel (b_cur b) (hop_rel_type hop) (hop_dir hop) = true ∧
    neighbor_id rel (b_cur b) (hop_dir hop) = Some (sn_id node) ∧
    view_nodes s tx !! sn_id node = Some node ∧
    labels_match (sn_labels node) (hop_end_labels hop) = true ∧
    b' = create_next_binding b rel (sn_id node) hop.

Inductive path s tx : list HopMatch → Binding → Binding → Prop :=
  | path_nil b : path s tx [] b b
  | path_cons hop hops b1 b2 b3 :
      hop_binding s tx hop b1 b2 → path s tx hops b2 b3 → path s tx (hop :: hops) b1 b3.

Lemma visible_nodes_matching_spec labels filters s tx :
  tx_inv s tx → filters_zero_ok filters s →
  let '(found, t) := visible_nodes_matching labels filters s tx in
  store_wf t ∧ same_graph s t ∧
  ∀ node, node ∈ found ↔
    view_nodes s tx !! sn_id node = Some node ∧ node_matches labels filters node = true.
Proof.
  intros Hinv Hz. unfold visible_nodes_matching. rewrite (ti_mode _ _ Hinv).
  unfold base_nodes_matching.
  pose proof (base_node_candidate_ids_ok labels filters s (ti_wf _ _ Hinv) Hz) as Hc.
  destruct (base_node_candidate_ids labels filters s) as [ids t].
  destruct Hc as (Hwf & Hsame & [_ _ Hc]). split_and!; [done..|].
  intros node. rewrite elem_of_app, !list_elem_of_filter, list_elem_of_omap, elem_of_bt_values.
  rewrite view_node_Some. destruct Hsame as [Hn _]. rewrite <-Hn. split.
  - intros [[Hp (id & Hid & Hs)]|[Hm [id Htd]]].
    + apply Is_true_true_1 in Hp. rewrite !andb_true_iff, !bool_decide_eq_true in Hp.
      rewrite (wf_node_id _ (ti_wf _ _ Hinv) _ _ Hs) in *. naive_solver.
    + destruct (ti_node _ _ Hinv _ _ Htd) as [-> ?]. eauto using Is_true_true_1.
  - intros [[Hd [Htd|[Htd Hs]]] Hm]; [right; eauto using Is_true_true_2|left].
    split; [|eauto]. apply Is_true_true_2. by rewrite !andb_true_iff, !bool_decide_eq_true.
Qed.

Lemma seed_roots_spec nm s tx :
  tx_inv s tx → filters_zero_ok (nm_property_filters nm) s →
  let '(bs, t) := seed_roots nm s tx in
  store_wf t ∧ same_graph s t ∧ ∀ b, b ∈ bs ↔ root_binding s tx nm b.
Proof.
  intros Hinv Hz. unfold seed_roots, root_binding. destruct (nm_id_filter nm) as [id|].
  - split_and!; [apply Hinv|done|]. intros b. rewrite visible_node_view by apply Hinv.
    destruct (view_nodes s tx !! id) as [node|] eqn:Hv.
    + pose proof (view_node_id _ _ _ _ Hinv Hv) as Hid. destruct (node_matches _ _ node) eqn:Hm.
      * rewrite list_elem_of_singleton. split; [naive_solver|].
        intros (node' & Hv' & _ & Hid' & ->). rewrite (Hid' _ eq_refl) in *. congruence.
      * split; [set_solver|]. intros (node' & Hv' & Hm' & Hid' & _).
        rewrite (Hid' _ eq_refl) in *. congruence.
    + split; [set_solver|]. intros (node' & Hv' & _ & Hid' & _).
      rewrite (Hid' _ eq_refl) in *. congruence.
  - pose proof (visible_nodes_matching_spec (nm_labels nm) (nm_property_filters nm) s tx Hinv Hz)
      as Hspec.
    destruct (visible_nodes_matching _ _ s tx) as [ns t]. destruct Hspec as (Hwf & Hsame & Hel).
    split_and!; [done..|]. intros b. rewrite list_elem_of_fmap. setoid_rewrite Hel. naive_solver.
Qed.

Lemma traverse_single_hop_spec hop s tx b :
  tx_inv s tx → is_Some (view_nodes s tx !! b_cur b) →
  ∀ b', b' ∈ traverse_single_hop hop s tx b ↔ hop_binding s tx hop b b'.
Proof.
  intros Hinv Hcur b'. unfold traverse_single_hop, traverse_single_hop_pure.
  rewrite list_elem_of_omap.
  assert (∀ rel node, (rel, node) ∈ match hop_dir hop with
      | DirOut => tx_outgoing (b_cur b) (hop_rel_type hop) s tx
      | DirIn => tx_incoming (b_cur b) (hop_rel_type hop) s tx
      | DirBoth => tx_both (b_cur b) (hop_rel_type hop) s tx
      end ↔ (rel, node) ∈ visible_neighbor_pairs (b_cur b) (hop_rel_type hop) (hop_dir hop) s tx)
    as Hdir by (intros; by destruct (hop_dir hop)).
  destruct (neighbor_pairs_spec (b_cur b) (hop_rel_type hop) (hop_dir hop) s tx Hinv Hcur)
    as [_ Hel].
  unfold hop_binding. split.
  - intros ([rel node] & Hin & Hb). apply Hdir, Hel in Hin as (Hv & Hm & i & Hi & Hn).
    pose proof (view_node_id _ _ _ _ Hinv Hn) as <-.
    destruct (labels_match _ _) eqn:Hl; [|done]. injection Hb as <-. eauto 10.
  - intros (rel & node & Hv & Hm & Hi & Hn & Hl & ->). exists (rel, node).
    split; [|by rewrite Hl]. apply Hdir, Hel. eauto 10.
Qed.

Lemma hop_binding_cur s tx hop b b' :
  hop_binding s tx hop b b' → is_Some (view_nodes s tx !! b_cur b').
Proof. intros (rel & node & _ & _ & _ & Hn & _ & ->). by eexists. Qed.

Lemma traverse_hops_spec hops s tx bs :
  tx_inv s tx → (∀ b, b ∈ bs → is_Some (view_nodes s tx !! b_cur b)) →
  ∀ b', b' ∈ traverse_hops hops s tx bs ↔ ∃ b, b ∈ bs ∧ path s tx hops b b'.
Proof.
  intros Hinv. revert bs. induction hops as [|hop hops IH]; intros bs Hcur b'; cbn.
  - split; [eauto using path|]. intros (b & Hb & Hp). by inversion Hp; subst.
  - assert (∀ b2, b2 ∈ concat (map (traverse_single_hop hop s tx) bs) ↔
              ∃ b, b ∈ bs ∧ hop_binding s tx hop b b2) as Hnext.
    { intros b2. rewrite list_elem_of_In, in_concat. split.
      - intros (l & (b & <- & Hb%list_elem_of_In)%in_map_iff & Hl%list_elem_of_In).
        exists b. split; [done|]. apply traverse_single_hop_spec in Hl; auto.
      - intros (b & Hb & Hhop). exists (traverse_single_hop hop s tx b).
        rewrite <-!list_elem_of_In. split; [by apply list_elem_of_fmap_2|].
        apply traverse_single_hop_spec; auto. }
    assert (∀ b2, b2 ∈ concat (map (traverse_single_hop hop s tx) bs) →
              is_Some (view_nodes s tx !! b_cur b2)) as Hcur'.
    { intros b2 (b & _ & Hhop)%Hnext. by eapply hop_binding_cur. }
    specialize (IH (concat (map (traverse_single_hop hop s tx) bs)) Hcur' b').
    assert ((∃ b, b ∈ bs ∧ path s tx (hop :: hops) b b') ↔
      ∃ b2, b2 ∈ concat (map (traverse_single_hop hop s tx) bs) ∧ path s tx hops b2 b') as ->.
    { split.
      - intros (b & Hb & Hp). inversion Hp; subst. eexists. rewrite Hnext. eauto.
      - intros (b2 & (b & Hb & Hhop)%Hnext & Hp). eauto using path. }
    destruct (concat _) as [|b0 l]; [set_solver|done].
Qed.

Lemma emit_row_same s t tx b :
  tx_inv s tx → same_graph s t → store_wf t → emit_row t tx b = emit_row s tx b.
Proof.
  intros Hinv Hsame Hwf. pose proof (tx_inv_same _ _ _ Hsame Hwf Hinv) as Hinv'.
  assert (∀ id, visible_node t tx id = visible_node s tx id) as Hn.
  { intros id. rewrite !visible_node_view by (apply Hinv || apply Hinv').
    by rewrite (view_nodes_same s t). }
  assert (∀ id, visible_rel t tx id = visible_rel s tx id) as Hr.
  { intros id. rewrite !visible_rel_view by (apply Hinv || apply Hinv').
    by rewrite (view_rels_same s t). }
  unfold emit_row. do 2 f_equal; apply map_eq; intros v; rewrite !lookup_omap;
    [destruct (b_rels b !! v)|destruct (b_nodes b !! v)]; cbn; by rewrite ?Hn, ?Hr.
Qed.

Lemma select_nil q : select_bindings_for_return q [] = [].
Proof.
  unfold select_bindings_for_return. change (len (unique_bindings q [])) with 0%N.
  by rewrite (proj2 (N.leb_le 0 _) (N.le_0_l _)).
Qed.

(** The paths an execution finds, as a lemma. *)
Lemma execute_paths (q : GraphQuery) ctx s tx :
  tx_inv s tx → ExecCtx_build q = Ok ctx →
  filters_zero_ok (nm_property_filters (ctx_root_nm ctx)) s →
  let '(res, t) := execute_graph_query q s tx in
  same_graph s t ∧ store_wf t ∧
  ∃ bs, res = Ok {| qr_rows := map (emit_row s tx) (select_bindings_for_return q bs) |} ∧
    ∀ b, b ∈ bs ↔ ∃ r, root_binding s tx (ctx_root_nm ctx) r ∧ path s tx (ctx_hops ctx) r b.
Proof.
  intros Hinv Hctx Hz. unfold execute_graph_query. rewrite Hctx.
  pose proof (seed_roots_spec (ctx_root_nm ctx) s tx Hinv Hz) as Hseed.
  destruct (seed_roots (ctx_root_nm ctx) s tx) as [roots t].
  destruct Hseed as (Hwf & Hsame & Hroots).
  pose proof (tx_inv_same _ _ _ Hsame Hwf Hinv) as Hinv'.
  assert (∀ b, b ∈ roots → is_Some (view_nodes t tx !! b_cur b)) as Hcur.
  { intros b (node & Hn & _ & _ & ->)%Hroots. rewrite (view_nodes_same s t) by done.
    by eexists. }
  assert (∀ hops b b', path t tx hops b b' ↔ path s tx hops b b') as Hpath.
  { assert (∀ hop b b', hop_binding t tx hop b b' ↔ hop_binding s tx hop b b') as Hhop.
    { intros. unfold hop_binding. by rewrite (view_nodes_same s t), (view_rels_same s t). }
    intros hops b b'; split; induction 1; econstructor; eauto; by apply Hhop. }
  pose proof (traverse_hops_spec (ctx_hops ctx) t tx roots Hinv' Hcur) as Htrav.
  assert (∀ b, b ∈ traverse_hops (ctx_hops ctx) t tx roots ↔
    ∃ r, root_binding s tx (ctx_root_nm ctx) r ∧ path s tx (ctx_hops ctx) r b) as Hbs.
  { intros b. rewrite Htrav. setoid_rewrite Hroots. by setoid_rewrite Hpath. }
  destruct roots as [|r0 rs].
  { split_and!; [done..|]. exists []. rewrite select_nil. split; [done|].
    intros b. split; [set_solver|]. intros (r & Hr%Hroots & _). set_solver. }
  destruct (traverse_hops (ctx_hops ctx) t tx (r0 :: rs)) as [|b0 bs].
  { split_and!; [done..|]. exists []. by rewrite select_nil. }
  split_and!; [done..|]. exists (b0 :: bs). split; [|done].
  unfold emit_rows_from_bindings. do 2 f_equal. apply map_ext. intros b.
  by apply emit_row_same.
Qed.

End paths.

(** ** Selection, and the contract on rows *)

Section rows.
Context `{SerdeNumber}.
Implicit Types (s t : GraphStore) (tx : InMemoryTx) (q : GraphQuery).

Lemma sublist_omap {A B} (f : A → option B) (l k : list A) :
  l `sublist_of` k → omap f l `sublist_of` omap f k.
Proof.
  induction 1 as [|x l k _ IH|x l k _ IH]; cbn; [constructor|..];
    destruct (f x); try exact IH; by constructor.
Qed.

(** The state of the loop after the bindings [bs]. *)
Record unique_ok q (bs : list Binding) (st : gset Z * list Binding) : Prop := {
  uq_seen id : id ∈ st.1 ↔ id ∈ omap (returned_id q) st.2;
  uq_NoDup : NoDup (omap (returned_id q) st.2);
  uq_from (b : Binding) : b ∈ st.2 → b ∈ bs ∧ is_Some (returned_id q b);
  uq_all (b : Binding) (id : Z) : b ∈ bs → returned_id q b = Some id → id ∈ st.1;
}.

Lemma unique_bindings_ok q bs :
  ∃ seen, unique_ok q bs (seen, unique_bindings q bs).
Proof.
  exists (foldl (unique_step q) (∅, []) bs).1. unfold unique_bindings.
  rewrite <-surjective_pairing.
  induction bs as [|b bs IH] using rev_ind.
  { split; cbn; [set_solver|constructor|set_solver|set_solver]. }
  rewrite foldl_snoc. destruct (foldl (unique_step q) (∅, []) bs) as [seen out].
  destruct IH as [Hseen Hnd Hfrom Hall]. cbn in Hseen, Hnd, Hfrom, Hall.
  unfold unique_step. destruct (returned_id q b) as [id|] eqn:Hid; [case_decide as Hin|]; split; cbn.
  - done.
  - done.
  - intros c Hc. rewrite elem_of_app. naive_solver.
  - intros c i [Hc| ->%list_elem_of_singleton]%elem_of_app Hi; [by eapply Hall|by simplify_eq].
  - intros i. rewrite omap_app, elem_of_union, elem_of_singleton, elem_of_app, Hseen. cbn.
    rewrite Hid, list_elem_of_singleton. naive_solver.
  - rewrite omap_app, NoDup_app. cbn. rewrite Hid. split_and!; [done| |apply NoDup_singleton].
    intros i Hi ->%list_elem_of_singleton. by apply Hin, Hseen.
  - intros c [Hc| ->%list_elem_of_singleton]%elem_of_app; rewrite elem_of_app.
    + naive_solver.
    + rewrite list_elem_of_singleton. eauto.
  - intros c i [Hc| ->%list_elem_of_singleton]%elem_of_app Hi; apply elem_of_union.
    + right. by eapply Hall.
    + left. apply elem_of_singleton. congruence.
  - done.
  - done.
  - intros c Hc. rewrite elem_of_app. naive_solver.
  - intros c i [Hc| ->%list_elem_of_singleton]%elem_of_app Hi; [by eapply Hall|congruence].
Qed.

(** The selection keeps one binding per returned id, none with an id is
    lost, and pages the result: no two rows answer the same entity. *)
Theorem select_bindings_window q (bs : list Binding) :
  (len (unique_bindings q bs) ≤ usize_max)%N →
  select_bindings_for_return q bs = page (unique_bindings q bs) (gq_offset q) (gq_limit q) ∧
  NoDup (omap (returned_id q) (select_bindings_for_return q bs)) ∧
  (∀ b, b ∈ unique_bindings q bs → b ∈ bs ∧ is_Some (returned_id q b)) ∧
  (∀ b id, b ∈ bs → returned_id q b = Some id →
     ∃ b', b' ∈ unique_bindings q bs ∧ returned_id q b' = Some id).
Proof.
  intros Hlen. destruct (unique_bindings_ok q bs) as (seen & [Hseen Hnd Hfrom Hall]).
  cbn in Hseen, Hnd, Hfrom, Hall.
  assert (select_bindings_for_return q bs = page (unique_bindings q bs) (gq_offset q) (gq_limit q))
    as Hpage.
  { unfold select_bindings_for_return, page.
    destruct (N.leb_spec (len (unique_bindings q bs)) (default 0%N (gq_offset q))) as [Hle|Hlt];
      [|done].
    rewrite drop_ge_len by done. destruct (gq_limit q); [by rewrite take_nil|done]. }
  assert (page (unique_bindings q bs) (gq_offset q) (gq_limit q) `sublist_of` unique_bindings q bs)
    as Hsub.
  { unfold page. destruct (gq_limit q); [etrans; [apply sublist_take|]|]; apply sublist_drop. }
  split_and!; [done| |done|].
  - rewrite Hpage. eapply sublist_NoDup; [exact Hnd|].
    by apply sublist_omap.
  - intros b id Hb Hid. pose proof (Hall _ _ Hb Hid) as Hin.
    apply Hseen, list_elem_of_omap in Hin as (b' & ? & ?). eauto.
Qed.

Lemma elem_of_selected q bs b : b ∈ select_bindings_for_return q bs → b ∈ bs.
Proof.
  destruct (unique_bindings_ok q bs) as (seen & [_ _ Hfrom _]). cbn in Hfrom.
  unfold select_bindings_for_return. case_match; [set_solver|]. intros Hb.
  apply Hfrom. eapply elem_of_sublist; [exact Hb|].
  destruct (gq_limit q); [etrans; [apply sublist_take|]|]; apply sublist_drop.
Qed.

(** *** Where the filters of later node matches go *)

Definition drop_end_filters (m : MatchClause) : MatchClause :=
  match m with
  | MatchNode nm => MatchNode {| nm_var := nm_var nm; nm_labels := nm_labels nm;
                                 nm_id_filter := None; nm_property_filters := [] |}
  | MatchHop h => MatchHop h
  end.

(** The query without [where_] and without any condition on nodes after the root. *)
Definition root_filters_only q : GraphQuery :=
  {| gq_matches := match gq_matches q with
                   | m :: ms => m :: map drop_end_filters ms
                   | [] => []
                   end;
     gq_where := []; gq_ret := gq_ret q; gq_limit := gq_limit q; gq_offset := gq_offset q |}.

Lemma clause_hop_drop ms : omap clause_hop (map drop_end_filters ms) = omap clause_hop ms.
Proof. induction ms as [|[nm|h] ms IH]; cbn; [done|done|by rewrite IH]. Qed.

(** The in-memory executor never looks at the conditions on the end nodes
    of hops nor at [where_]: a query answers what it answers without them. *)
Theorem end_filters_ignored q nm ms s tx :
  gq_matches q = MatchNode nm :: ms →
  execute_graph_query q s tx = execute_graph_query (root_filters_only q) s tx.
Proof.
  intros Hq. unfold execute_graph_query.
  assert (ExecCtx_build (root_filters_only q) = ExecCtx_build q) as ->.
  { unfold ExecCtx_build, root_filters_only. cbn. rewrite Hq. cbn. by rewrite clause_hop_drop. }
  done.
Qed.
End rows.

Section contract.
Context `{SerdeNumber} `{!NumberLaws}.
Implicit Types (s t : GraphStore) (tx : InMemoryTx) (q : GraphQuery).

(** What a binding has after the hops [hops]: visible entities only, and one
    for each variable the hops name. *)
Record binding_ok s tx (root : VarId) (hops : list HopMatch) (b : Binding) : Prop := {
  bk_nodes v id : b_nodes b !! v = Some id → is_Some (view_nodes s tx !! id);
  bk_rels v id : b_rels b !! v = Some id → is_Some (view_rels s tx !! id);
  bk_node_vars v :
    is_Some (b_nodes b !! v) ↔ v = root ∨ ∃ h, h ∈ hops ∧ hop_end h = v;
  bk_rel_vars v : is_Some (b_rels b !! v) ↔ ∃ h, h ∈ hops ∧ hop_rel_var h = v;
}.

Lemma root_binding_ok s tx nm b :
  root_binding s tx nm b → binding_ok s tx (nm_var nm) [] b.
Proof.
  intros (node & Hn & _ & _ & ->). split; cbn.
  - intros v id [<- <-]%lookup_singleton_Some. by eexists.
  - intros v id. by rewrite lookup_empty.
  - intros v. split.
    + intros [id [<- _]%lookup_singleton_Some]. by left.
    + intros [->|(h & Hin & _)]; [rewrite lookup_singleton_eq; by eexists|set_solver].
  - intros v. rewrite lookup_empty. split; [by intros []|]. intros (h & Hin & _). set_solver.
Qed.

Lemma is_Some_insert {A} (m : gmap VarId A) i j x :
  is_Some (<[i := x]> m !! j) ↔ i = j ∨ is_Some (m !! j).
Proof.
  destruct (decide (i = j)) as [->|Hne].
  - rewrite lookup_insert_eq. split; [by left|by eexists].
  - rewrite lookup_insert_ne by done. naive_solver.
Qed.

Lemma hop_binding_ok s tx root hops hop b b' :
  hop_binding s tx hop b b' → binding_ok s tx root hops b →
  binding_ok s tx root (hops ++ [hop]) b'.
Proof.
  intros (rel & node & Hr & _ & _ & Hn & _ & ->) [Hbn Hbr Hvn Hvr]. split; cbn.
  - intros v id [[_ <-]|[_ Hid]]%lookup_insert_Some; [by eexists|by eapply Hbn].
  - intros v id [[_ <-]|[_ Hid]]%lookup_insert_Some; [by eexists|by eapply Hbr].
  - intros v. rewrite is_Some_insert, Hvn. setoid_rewrite elem_of_app.
    setoid_rewrite list_elem_of_singleton. naive_solver.
  - intros v. rewrite is_Some_insert, Hvr. setoid_rewrite elem_of_app.
    setoid_rewrite list_elem_of_singleton. naive_solver.
Qed.

Lemma path_binding_ok s tx root done hops b b' :
  path s tx hops b b' → binding_ok s tx root done b →
  binding_ok s tx root (done ++ hops) b'.
Proof.
  intros Hp. revert done. induction Hp as [b|hop hops b1 b2 b3 Hhop Hp IH]; intros done Hok.
  - by rewrite app_nil_r.
  - rewrite cons_middle, app_assoc. apply IH. by eapply hop_binding_ok.
Qed.

(** A row of such a binding has a value for each variable: relationships for
    the relationship variables, nodes for the others. *)
Lemma emit_row_ok s tx root hops b v :
  tx_inv s tx → binding_ok s tx root hops b →
  (is_Some (b_rels b !! v) →
     ∃ r, row_values (emit_row s tx b) !! v = Some (stored_rel_to_kernel r)) ∧
  (b_rels b !! v = None → is_Some (b_nodes b !! v) →
     ∃ n, row_values (emit_row s tx b) !! v = Some (stored_node_to_kernel n)).
Proof.
  intros Hinv Hok. cbn. rewrite lookup_union, !lookup_omap. split.
  - intros [id Hid]. destruct (bk_rels _ _ _ _ _ Hok v id Hid) as [r Hr].
    rewrite Hid. cbn. rewrite visible_rel_view, Hr by apply Hinv. cbn.
    exists r. by destruct (_ ≫= _).
  - intros Hnone [id Hid]. destruct (bk_nodes _ _ _ _ _ Hok v id Hid) as [n Hn].
    rewrite Hnone, Hid. cbn. rewrite visible_node_view, Hn by apply Hinv. cbn. by exists n.
Qed.

Definition kernel_kind (v : KernelValue) : option ReturnKind :=
  match v with KNode _ => Some KindNode | KRel _ => Some KindRel | KScalar _ => None end.

Lemma elem_of_dedup v (l : list VarId) : v ∈ dedup l → v ∈ l.
Proof.
  induction l as [|x [|y l] IH]; [done|done|]. cbn [dedup].
  case_decide; [intros ?%IH; by right|]. intros [->|?%IH]%elem_of_cons; [by left|by right].
Qed.

(** the row contract of the backend trait, for every compiled query: each
    row has a value for every variable the query binds, and its returned
    variable holds an entity of the returned kind. *)
Theorem execute_row_contract {T} `{!NodeModel T} (q0 : Query T) q nm ms s tx rows :
  (N.of_nat (S (2 * length (np_traversals (q_pattern q0)))) < 2 ^ 32)%N →
  compile_to_graph q0 = Some q → gq_matches q = MatchNode nm :: ms →
  tx_inv s tx → filters_zero_ok (nm_property_filters nm) s →
  (execute_graph_query q s tx).1 = Ok {| qr_rows := rows |} →
  ∀ row, row ∈ rows →
    (∀ v, v ∈ bound_vars q → row_contains_key row v = true) ∧
    ∃ value, get_returned row q = Some value ∧ kernel_kind value = Some (return_kind q).
Proof.
  intros Hlen Hq Hms Hinv Hz Hres row Hrow.
  pose proof (compile_to_graph_wellformed q0 q Hlen Hq)
    as (nm' & ms' & Hms' & Hnodes & Hroot & Hdisj & Hret).
  rewrite Hms in Hms'. injection Hms' as <- <-.
  set (ctx := {| ctx_root_nm := nm; ctx_hops := omap clause_hop (gq_matches q) |}).
  assert (ExecCtx_build q = Ok ctx) as Hctx
    by (unfold ExecCtx_build, ctx; by rewrite Hms).
  pose proof (execute_paths q ctx s tx Hinv Hctx Hz) as Hexec.
  destruct (execute_graph_query q s tx) as [res t]. cbn in Hres. subst res.
  destruct Hexec as (_ & _ & bs & [= ->] & Hbs).
  apply list_elem_of_fmap in Hrow as (b & -> & Hb).
  assert (b ∈ bs) as Hin.
  { eapply elem_of_selected; exact Hb. }
  apply Hbs in Hin as (r & Hr & Hp).
  pose proof (path_binding_ok s tx (nm_var nm) [] _ _ _ Hp (root_binding_ok _ _ _ _ Hr)) as Hok.
  cbn [app ctx_hops ctx] in Hok.
  assert (∀ h, h ∈ omap clause_hop (gq_matches q) ↔ MatchHop h ∈ ms) as Hhops.
  { intros h. rewrite Hms, list_elem_of_omap. split.
    - intros ([m|h'] & Hin & [= ->]). by apply elem_of_cons in Hin as [|].
    - intros Hin. exists (MatchHop h). split; [by right|done]. }
  pose proof (λ v, emit_row_ok s tx _ _ b v Hinv Hok) as Hemit.
  assert (∀ v, (∃ h, MatchHop h ∈ ms ∧ hop_rel_var h = v) →
    ∃ rel, row_values (emit_row s tx b) !! v = Some (stored_rel_to_kernel rel)) as Hrel.
  { intros v (h & Hh & Hv). apply Hemit, (bk_rel_vars _ _ _ _ _ Hok).
    exists h. by rewrite Hhops. }
  assert (∀ v, (v = nm_var nm ∨ ∃ h, MatchHop h ∈ ms ∧ hop_end h = v) →
    ∃ n, row_values (emit_row s tx b) !! v = Some (stored_node_to_kernel n)) as Hnode.
  { intros v Hv. apply Hemit.
    - apply eq_None_not_Some. rewrite (bk_rel_vars _ _ _ _ _ Hok). intros (h & Hh%Hhops & Hhv).
      destruct Hv as [->|(h' & Hh' & <-)]; 
        [exact (Hroot _ Hh Hhv)|exact (Hdisj _ _ Hh Hh' Hhv)].
    - rewrite (bk_node_vars _ _ _ _ _ Hok). setoid_rewrite Hhops. naive_solver. }
  split.
  - intros v Hv%elem_of_dedup. unfold row_contains_key. apply bool_decide_eq_true.
    rewrite Hms in Hv. cbn in Hv. apply elem_of_cons in Hv as [->|Hv].
    { destruct (Hnode (nm_var nm)) as [n ->]; [by left|by eexists]. }
    rewrite list_elem_of_In, in_concat in Hv.
    destruct Hv as (l & ([m|h] & <- & Hc%list_elem_of_In)%in_map_iff & Hl%list_elem_of_In); cbn in Hl.
    + apply list_elem_of_singleton in Hl as ->. destruct (Hnodes m Hc) as (h & Hh & <-).
      destruct (Hnode (hop_end h)) as [n ->]; [right; eauto|by eexists].
    + apply elem_of_cons in Hl as [->|Hl%list_elem_of_singleton].
      * destruct (Hrel (hop_rel_var h)) as [n ->]; [eauto|by eexists].
      * subst v. destruct (Hnode (hop_end h)) as [n ->]; [right; eauto|by eexists].
  - unfold get_returned, return_kind. destruct (gq_ret q) as [v|v].
    + destruct (Hnode v Hret) as [n ->]. by eexists.
    + destruct (Hrel v Hret) as [r' ->]. by eexists.
Qed.
End contract.

(** ** Witnesses *)

Section exec_witnesses.
#[local] Existing Instance serde_default.
#[local] Existing Instance WPerson_model.

Definition rows_of (r : result QueryResult) : list QueryRow :=
  match r with Ok r => qr_rows r | Err _ => [] end.

Lemma rows_of_ok r : is_ok r = true → r = Ok {| qr_rows := rows_of r |}.
Proof. by destruct r as [[rows]|]. Qed.

Definition w_filters : list PropertyFilter := [property_eq "name" (Str "ann")].

Lemma w_filters_ok s : filters_zero_ok w_filters s.
Proof. intros f ->%list_elem_of_singleton. apply w_no_clash. Qed.

Lemma w_no_filters s : filters_zero_ok [] s.
Proof. intros f. by intros ?%elem_of_nil. Qed.

Definition w_rows : list QueryRow :=
  rows_of (execute_graph_query w_graph_query w_tx_store tx_new).1.

Definition w_root : NodeMatch :=
  {| nm_var := var_at 0; nm_labels := ["Person"%string]; nm_id_filter := None;
     nm_property_filters := [] |}.
Definition w_hop : HopMatch :=
  {| hop_start := var_at 0; hop_rel_type := None; hop_rel_var := var_at 1;
     hop_dir := DirBoth; hop_end := var_at 2; hop_end_labels := ["Person"%string] |}.

Lemma base_nodes_matching_is_scan_witness :
  let '(found, t) := base_nodes_matching ["Person"%string] w_filters w_store tx_new in
  same_graph w_store t ∧ store_wf t ∧
  found = filter (λ node, bool_decide (sn_id node ∉ td_deleted_nodes (tx_delta tx_new))
                          && bool_decide (td_nodes (tx_delta tx_new) !! sn_id node = None)
                          && node_matches ["Person"%string] w_filters node)
                 (bt_values (nodes w_store)).
Proof. apply base_nodes_matching_is_scan; [apply w_store_wf|apply w_filters_ok]. Defined.


Definition w_binding (id : Z) : Binding := new_root (var_at 2) id.

Lemma select_bindings_window_witness :
  let bs := [w_binding 1; w_binding 2; w_binding 1] in
  len (unique_bindings w_graph_query bs) = 2%N ∧
  select_bindings_for_return w_graph_query bs
    = page (unique_bindings w_graph_query bs) None None ∧
  NoDup (omap (returned_id w_graph_query) (select_bindings_for_return w_graph_query bs)).
Proof.
  split; [reflexivity|].
  destruct (select_bindings_window w_graph_query [w_binding 1; w_binding 2; w_binding 1])
    as (Hpage & Hnd & _); [vm_compute; discriminate|]. by split.
Defined.

(** The query of [w_graph_query] with a filter on its end node. *)
Definition w_filtered_query : GraphQuery :=
  {| gq_matches :=
       [MatchNode w_root; MatchHop w_hop;
        MatchNode {| nm_var := var_at 2; nm_labels := ["Person"%string]; nm_id_filter := None;
                     nm_property_filters := w_filters |}];
     gq_where := w_filters; gq_ret := ReturnNode (var_at 2); gq_limit := None;
     gq_offset := None |}.

Lemma end_filters_ignored_witness :
  execute_graph_query w_filtered_query w_tx_store tx_new
  = execute_graph_query w_graph_query w_tx_store tx_new.
Proof. exact (end_filters_ignored w_filtered_query w_root _ w_tx_store tx_new eq_refl). Defined.

Lemma execute_row_contract_witness :
  length w_rows = 2 ∧
  ∀ row, row ∈ w_rows →
    (∀ v, v ∈ bound_vars w_graph_query → row_contains_key row v = true) ∧
    ∃ value, get_returned row w_graph_query = Some value ∧
             kernel_kind value = Some (return_kind w_graph_query).
Proof.
  split; [vm_compute; reflexivity|].
  apply (execute_row_contract w_query w_graph_query w_root
    [MatchHop w_hop; MatchNode {| nm_var := var_at 2; nm_labels := ["Person"%string];
       nm_id_filter := None; nm_property_filters := [] |}] w_tx_store tx_new w_rows).
  - vm_compute. reflexivity.
  - reflexivity.
  - reflexivity.
  - apply store_ready_inv, w_ready.
  - apply w_no_filters.
  - apply rows_of_ok. vm_compute. reflexivity.
Defined.
End exec_witnesses.
