(* ===== verification/Ops.v ===== *)
(** * Requests of the runtime ([src/src/runtime/ops.rs])

    The structured requests and responses, the batch operations of
    [runtime/batch.rs], the durable operations of [runtime/durability.rs], and
    the adapters that build find requests from key/value filters. *)

From S2P Require Export Prelude Text Json Numbers Dsl Values Catalog Store.

Local Open Scope string_scope.

(** ** Schema requests *)

(** [FieldValueType] has the variants of [RuntimeValueType]. *)
Inductive FieldValueType :=
  | FString | FInt | FFloat | FBool | FBytes | FDecimal | FDate | FDateTime | FDuration | FUuid.

Definition runtime_type (t : FieldValueType) : RuntimeValueType :=
  match t with
  | FString => TString | FInt => TInt | FFloat => TFloat | FBool => TBool | FBytes => TBytes
  | FDecimal => TDecimal | FDate => TDate | FDateTime => TDateTime | FDuration => TDuration
  | FUuid => TUuid
  end.

Record FieldSpec := {
  fs_name : string;
  fs_value_type : FieldValueType;
  fs_required : bool;
}.

(** [TryFrom<FieldSpec> for RuntimeField], which never fails. *)
Definition runtime_field (field : FieldSpec) : result RuntimeField :=
  Ok {| field_name := fs_name field; field_type := runtime_type (fs_value_type field);
        field_required := fs_required field |}.

Record DefineNodeRequest := {
  dn_name : string;
  dn_id_field : string;
  dn_fields : list FieldSpec;
}.

Record DefineEdgeRequest := {
  de_name : string;
  de_from_model : string;
  de_to_model : string;
  de_id_field : string;
  de_fields : list FieldSpec;
}.

(** ** Find requests *)

Inductive PredicateOp := PEq | PNe | PGt | PGe | PLt | PLe | PContains.

#[export] Instance PredicateOp_eq_dec : EqDecision PredicateOp.
Proof. solve_decision. Defined.

Definition compare_op (op : PredicateOp) : CompareOp :=
  match op with
  | PEq => OpEq | PNe => OpNe | PGt => OpGt | PGe => OpGe | PLt => OpLt | PLe => OpLe
  | PContains => OpContains
  end.

Inductive OrderDirection := OrderAsc | OrderDesc.

Record OrderSpec := { os_field : string; os_direction : OrderDirection }.

Inductive TraversalDirection := TraverseOut | TraverseIn | TraverseBoth.
Inductive TraversalReturn := TraverseToEnd | TraverseToRoot | TraverseToEdge.

#[export] Instance TraversalReturn_eq_dec : EqDecision TraversalReturn.
Proof. solve_decision. Defined.

Record TraversalStepRequest := {
  ts_direction : TraversalDirection;
  ts_edge_model : option string;
  ts_end_model : string;
}.

(** A [key=value] term of a command line ([runtime/parser.rs]). *)
Record QueryTerm := { qt_key : string; qt_value : string }.

Section requests.
Context `{SerdeNumber}.

Record PropertyPredicate := {
  pp_field : string;
  pp_op : PredicateOp;
  pp_value : Value;
}.

Record NodeFindRequest := {
  nf_model : string;
  nf_predicates : list PropertyPredicate;
  nf_end_predicates : list PropertyPredicate;
  nf_edge_predicates : list PropertyPredicate;
  nf_traversals : list TraversalStepRequest;
  nf_order : list OrderSpec;
  nf_limit : option N;
  nf_offset : option N;
  nf_id : option Z;
  nf_return_mode : option TraversalReturn;
}.

Record EdgeFindRequest := {
  ef_model : string;
  ef_predicates : list PropertyPredicate;
  ef_order : list OrderSpec;
  ef_limit : option N;
  ef_offset : option N;
  ef_id : option Z;
  ef_from : option Z;
  ef_to : option Z;
}.

Definition NodeFindRequest_default (model : string) : NodeFindRequest :=
  {| nf_model := model; nf_predicates := []; nf_end_predicates := [];
     nf_edge_predicates := []; nf_traversals := []; nf_order := []; nf_limit := None;
     nf_offset := None; nf_id := None; nf_return_mode := None |}.
Definition EdgeFindRequest_default (model : string) : EdgeFindRequest :=
  {| ef_model := model; ef_predicates := []; ef_order := []; ef_limit := None;
     ef_offset := None; ef_id := None; ef_from := None; ef_to := None |}.

(** ** Mutation requests *)

Record NodeCreateRequest := { nc_model : string; nc_props : Props }.
Record NodeUpdateRequest := { nu_model : string; nu_id : Z; nu_props : Props }.
Record NodeDeleteRequest := { nd_model : string; nd_id : Z }.
Record EdgeCreateRequest := { ec_model : string; ec_from : Z; ec_to : Z; ec_props : Props }.
Record EdgeUpdateRequest := { eu_model : string; eu_id : Z; eu_props : Props }.
Record EdgeDeleteRequest := { ed_model : string; ed_id : Z }.

Record RuntimeDelete := { del_model : string; del_id : Z }.

(** ** Durable operations ([runtime/durability.rs]) *)

Inductive DurableOperation :=
  | RegisterNodeModel (model : RuntimeNodeModel)
  | RegisterRelModel (model : RuntimeRelModel)
  | UpsertNode (node : StoredNode)
  | DurDeleteNode (id : Z)
  | UpsertRel (rel : StoredRel)
  | DurDeleteRel (id : Z)
  | DurBatch (ops : list DurableOperation).

Record RuntimeOperationOutcome (T : Type) := { ro_value : T; ro_durable_op : DurableOperation }.

(** ** Batches ([runtime/batch.rs]) *)

Record SessionBatchFieldParam := {
  bf_name : string;
  bf_value_type : string;
  bf_required : bool;
}.

Inductive SessionBatchEndpoint := EndpointId (id : Z) | EndpointRef (local_ref : string).

Inductive SessionBatchResponse := BatchSummaryResponse | BatchDetailedResponse.

(** Each variant carries the fields of its [SessionBatch...Params] struct. *)
Inductive SessionBatchOp :=
  | BSchemaDefineNode (name id_field : string) (fields : list SessionBatchFieldParam)
  | BSchemaDefineEdge (name from_model to_model id_field : string)
      (fields : list SessionBatchFieldParam)
  | BNodeCreate (model : string) (props : Props) (local_ref : option string)
  | BNodeUpdate (model : string) (id : Z) (props : Props)
  | BNodeDelete (model : string) (id : Z)
  | BEdgeCreate (model : string) (from to : SessionBatchEndpoint) (props : Props)
  | BEdgeUpdate (model : string) (id : Z) (props : Props)
  | BEdgeDelete (model : string) (id : Z).

(** [SessionBatchParams]; [BatchRequest] has the same fields. *)
Record SessionBatchParams := {
  bp_atomic : bool;
  bp_allow_deletes : bool;
  bp_response : SessionBatchResponse;
  bp_ops : list SessionBatchOp;
}.

(** ** Adapters: from filters to requests *)

Definition value_to_raw (value : Value) : result string :=
  match value with
  | Str value => Ok value
  | Num value => Ok (number_to_string value)
  | Bool value => Ok (if value then "true" else "false")
  | Object _ =>
      match typed_value_payload value with
      | Some payload => Ok payload
      | None => Err (Constraint
          "structured property values are not supported by runtime operations")
      end
  | Null => Err (Constraint "null property values are not supported by runtime operations")
  | Array _ => Err (Constraint
      "structured property values are not supported by runtime operations")
  end.

(** The table the loop of [split_filter_key] tries in order. *)
Definition filter_suffixes : list (string * PredicateOp) :=
  [("!", PNe); (">=", PGe); ("<=", PLe); (">", PGt); ("<", PLt); ("~", PContains)].

(** The loop, stopping at the first suffix the key has; an empty field breaks
    out of it. *)
Fixpoint split_suffix (raw_key : string) (suffixes : list (string * PredicateOp))
    : string * PredicateOp :=
  match suffixes with
  | [] => (raw_key, PEq)
  | (suffix, op) :: suffixes =>
      match str_strip_suffix suffix raw_key with
      | Some field => if str_is_empty field then (raw_key, PEq) else (field, op)
      | None => split_suffix raw_key suffixes
      end
  end.

Definition split_filter_key (raw_key : string) : result (string * PredicateOp) :=
  Ok (split_suffix raw_key filter_suffixes).

(** The loop over the segments: the orders so far and the fields seen. *)
Definition order_segment (st : list OrderSpec * gset string) (segment : string)
    : result (list OrderSpec * gset string) :=
  let '(order, seen) := st in
  match split_once ":" segment with
  | None => Err (Constraint
      "order must use order=<field>:asc|desc[,<field>:asc|desc ...]")
  | Some (field, direction) =>
      if decide (field ∈ seen)
      then Err (Constraint ("duplicate order field '" +:+ field +:+ "'"))
      else
        direction ←
          (if String.eqb direction "asc" then Ok OrderAsc
           else if String.eqb direction "desc" then Ok OrderDesc
           else Err (Constraint "order direction must be asc or desc"));
        Ok ((order ++ [{| os_field := field; os_direction := direction |}])%list,
            {[field]} ∪ seen)
  end.

Definition parse_order_value (raw : string) : result (list OrderSpec) :=
  fst <$> try_fold order_segment ([], ∅) (split_char "," raw).

Definition parse_traversal_value (raw : string) : result TraversalStepRequest :=
  match split_char ":" raw with
  | [dir; link; end_model] =>
      direction ←
        (if String.eqb dir "out" || String.eqb dir "outgoing" then Ok TraverseOut
         else if String.eqb dir "in" || String.eqb dir "incoming" then Ok TraverseIn
         else if String.eqb dir "both" then Ok TraverseBoth
         else Err (Constraint "via direction must be one of: out, in, both"));
      edge_model ←
        (if String.eqb link "*" then Ok None
         else if String.eqb link "" then Err (Constraint "via link model cannot be empty")
         else Ok (Some link));
      if str_is_empty end_model then Err (Constraint "via end model cannot be empty")
      else Ok {| ts_direction := direction; ts_edge_model := edge_model;
                 ts_end_model := end_model |}
  | _ => Err (Constraint "via must use via=<out|in|both>:<LinkName|*>:<EndModel>")
  end.

Definition parse_traversal_return_value (raw : string) : result TraversalReturn :=
  if String.eqb raw "end" then Ok TraverseToEnd
  else if String.eqb raw "root" then Ok TraverseToRoot
  else if String.eqb raw "edge" || String.eqb raw "rel" then Ok TraverseToEdge
  else Err (Constraint "return must be one of: root, end, edge").

Definition parse_usize_value (raw field : string) : result N :=
  ok_or (Z.to_N <$> parse_usize (str_trim raw))
        (Constraint (field +:+ " must be a non-negative integer")).
Definition parse_i64_value (raw field : string) : result Z :=
  ok_or (parse_i64 (str_trim raw)) (Constraint (field +:+ " must be an int id")).

(** The key decides which part of the request a filter sets. *)
Definition adapter_predicate (key : string) (value : Value) : result PropertyPredicate :=
  '(field, op) ← split_filter_key key;
  Ok {| pp_field := field; pp_op := op; pp_value := value |}.

Definition push_node_find_adapter_value (request : NodeFindRequest)
    (filter : string * Value) : result NodeFindRequest :=
  let '(raw_key, value) := filter in
  raw_value ← value_to_raw value;
  let '{| nf_model := model; nf_predicates := predicates; nf_end_predicates := ends;
          nf_edge_predicates := edges; nf_traversals := steps; nf_order := order;
          nf_limit := limit; nf_offset := offset; nf_id := id;
          nf_return_mode := mode |} := request in
  if String.eqb raw_key "format" then Ok request
  else if String.eqb raw_key "limit" then
    limit ← parse_usize_value raw_value "limit";
    Ok (Build_NodeFindRequest model predicates ends edges steps order (Some limit) offset id mode)
  else if String.eqb raw_key "offset" then
    offset ← parse_usize_value raw_value "offset";
    Ok (Build_NodeFindRequest model predicates ends edges steps order limit (Some offset) id mode)
  else if String.eqb raw_key "order" then
    order ← parse_order_value raw_value;
    Ok (Build_NodeFindRequest model predicates ends edges steps order limit offset id mode)
  else if String.eqb raw_key "id" then
    id ← parse_i64_value raw_value "id";
    Ok (Build_NodeFindRequest model predicates ends edges steps order limit offset (Some id) mode)
  else if String.eqb raw_key "via" then
    step ← parse_traversal_value raw_value;
    Ok (Build_NodeFindRequest model predicates ends edges (steps ++ [step])%list order limit
                              offset id mode)
  else if String.eqb raw_key "return" then
    mode ← parse_traversal_return_value raw_value;
    Ok (Build_NodeFindRequest model predicates ends edges steps order limit offset id (Some mode))
  else if str_starts_with "end." raw_key then
    predicate ← adapter_predicate (trim_start_matches "end." raw_key) value;
    Ok (Build_NodeFindRequest model predicates (ends ++ [predicate])%list edges steps order limit
                              offset id mode)
  else if str_starts_with "edge." raw_key || str_starts_with "rel." raw_key then
    let inner := match str_strip_prefix "edge." raw_key with
                 | Some inner => inner
                 | None => default raw_key (str_strip_prefix "rel." raw_key)
                 end in
    predicate ← adapter_predicate inner value;
    Ok (Build_NodeFindRequest model predicates ends (edges ++ [predicate])%list steps order limit
                              offset id mode)
  else
    predicate ← adapter_predicate raw_key value;
    if String.eqb (pp_field predicate) "id"
    then Err (Constraint "backend id filter 'id' only supports '='")
    else Ok (Build_NodeFindRequest model (predicates ++ [predicate])%list ends edges steps order
                                   limit offset id mode).

Definition from_adapter_query_terms (model : string) (terms : list QueryTerm)
    : result NodeFindRequest :=
  try_fold push_node_find_adapter_value (NodeFindRequest_default model)
    (map (λ term, (qt_key term, Str (qt_value term))) terms).

Definition from_adapter_filter_values (model : string) (filters : Props)
    : result NodeFindRequest :=
  try_fold push_node_find_adapter_value (NodeFindRequest_default model) (bt_iter filters).

(** The loop body of [EdgeFindRequest::from_adapter_filter_values]. *)
Definition push_edge_find_adapter_value (request : EdgeFindRequest)
    (filter : string * Value) : result EdgeFindRequest :=
  let '(raw_key, value) := filter in
  raw_value ← value_to_raw value;
  let '{| ef_model := model; ef_predicates := predicates; ef_order := order;
          ef_limit := limit; ef_offset := offset; ef_id := id; ef_from := from;
          ef_to := to |} := request in
  if String.eqb raw_key "format" then Ok request
  else if String.eqb raw_key "limit" then
    limit ← parse_usize_value raw_value "limit";
    Ok (Build_EdgeFindRequest model predicates order (Some limit) offset id from to)
  else if String.eqb raw_key "offset" then
    offset ← parse_usize_value raw_value "offset";
    Ok (Build_EdgeFindRequest model predicates order limit (Some offset) id from to)
  else if String.eqb raw_key "order" then
    order ← parse_order_value raw_value;
    Ok (Build_EdgeFindRequest model predicates order limit offset id from to)
  else if String.eqb raw_key "id" then
    id ← parse_i64_value raw_value "id";
    Ok (Build_EdgeFindRequest model predicates order limit offset (Some id) from to)
  else if String.eqb raw_key "from" then
    from ← parse_i64_value raw_value "from";
    Ok (Build_EdgeFindRequest model predicates order limit offset id (Some from) to)
  else if String.eqb raw_key "to" then
    to ← parse_i64_value raw_value "to";
    Ok (Build_EdgeFindRequest model predicates order limit offset id from (Some to))
  else
    predicate ← adapter_predicate raw_key value;
    let field := pp_field predicate in
    if String.eqb field "id" || String.eqb field "from" || String.eqb field "to"
    then Err (Constraint ("special filter '" +:+ field +:+ "' only supports '='"))
    else Ok (Build_EdgeFindRequest model (predicates ++ [predicate])%list order limit offset id
                                   from to).

Definition edge_from_adapter_filter_values (model : string) (filters : Props)
    : result EdgeFindRequest :=
  try_fold push_edge_find_adapter_value (EdgeFindRequest_default model) (bt_iter filters).
End requests.

#[global] Arguments ro_value {_ _} _.
#[global] Arguments ro_durable_op {_ _} _.
