(* ===== verification/Parser.v ===== *)
(** * The command line ([src/src/runtime/parser.rs])

    A line is cut into tokens, with quotes and escapes, and the tokens are read
    as one command of a session.  Errors carry the line, the column and a caret
    under it. *)

From S2P Require Export Ops.

Local Open Scope string_scope.

(** ** Errors at a place of the input *)

Definition newline_char : ascii := "010"%char.
Definition newline : string := String newline_char "".

(** The part of [s] behind its last newline, and the part before its first. *)
Definition last_line (s : string) : string := List.last (split_char newline_char s) "".
Definition first_line (s : string) : string := hd "" (split_char newline_char s).

Fixpoint spaces (n : nat) : string :=
  match n with O => "" | S n => String " " (spaces n) end.

Definition constraint_at (input : string) (offset : nat) (message : string) : GrmError :=
  let offset := Nat.min offset (String.length input) in
  let before := str_take offset input in
  let line := last_line before +:+ first_line (str_drop offset input) in
  let line_number := length (split_char newline_char before) in
  let column := S (length (utf8_chars (last_line before))) in
  Constraint (message +:+ " at line " +:+ nat_to_string line_number +:+ ", column "
              +:+ nat_to_string column +:+ newline +:+ line +:+ newline
              +:+ spaces (column - 1) +:+ "^").

(** ** Tokens *)

Record ParsedToken := { pt_text : string; pt_start : nat }.

(** [input.char_indices()] *)
Fixpoint indexed (start : nat) (chars : list string) : list (nat * string) :=
  match chars with
  | [] => []
  | c :: chars => (start, c) :: indexed (start + String.length c) chars
  end.
Definition char_indices (input : string) : list (nat * string) := indexed 0 (utf8_chars input).

Definition double_quote : string := String "034"%char "".
Definition single_quote : string := "'".
Definition backslash : string := "\".

(** The character an escape stands for. *)
Definition escaped_char (next : string) : option string :=
  if String.eqb next "n" then Some newline
  else if String.eqb next "t" then Some (String "009"%char "")
  else if String.eqb next backslash then Some backslash
  else if String.eqb next single_quote then Some single_quote
  else if String.eqb next double_quote then Some double_quote
  else None.

(** The local variables of the loop. *)
Record TokenState := {
  tok_done : list ParsedToken;
  tok_current : string;
  tok_start : nat;
  tok_quote : option (string * nat);
}.

Definition push_char (c : string) (st : TokenState) : TokenState :=
  {| tok_done := tok_done st; tok_current := tok_current st +:+ c; tok_start := tok_start st;
     tok_quote := tok_quote st |}.
(** [if current.is_empty() { current_start = index }] *)
Definition note_start (index : nat) (st : TokenState) : TokenState :=
  if str_is_empty (tok_current st)
  then {| tok_done := tok_done st; tok_current := tok_current st; tok_start := index;
          tok_quote := tok_quote st |}
  else st.
Definition set_quote (quote : option (string * nat)) (st : TokenState) : TokenState :=
  {| tok_done := tok_done st; tok_current := tok_current st; tok_start := tok_start st;
     tok_quote := quote |}.
(** A token that is empty is not pushed. *)
Definition flush_token (st : TokenState) : TokenState :=
  if str_is_empty (tok_current st) then st
  else {| tok_done := tok_done st ++ [{| pt_text := tok_current st; pt_start := tok_start st |}];
          tok_current := ""; tok_start := tok_start st; tok_quote := tok_quote st |}.

Fixpoint tokenize_loop (input : string) (chars : list (nat * string)) (st : TokenState)
    : result TokenState :=
  match chars with
  | [] => Ok st
  | (index, ch) :: chars =>
      match tok_quote st with
      | Some (q, _) =>
          if String.eqb ch backslash then
            match chars with
            | [] => Err (constraint_at input index
                           "unterminated escape sequence in quoted string")
            | (_, next) :: chars =>
                match escaped_char next with
                | Some c => tokenize_loop input chars (push_char c st)
                | None => Err (constraint_at input index
                    ("invalid escape sequence '\" +:+ next +:+ "' in quoted string"))
                end
            end
          else if String.eqb ch q then tokenize_loop input chars (set_quote None st)
          else tokenize_loop input chars (push_char ch st)
      | None =>
          if String.eqb ch double_quote || String.eqb ch single_quote
          then tokenize_loop input chars (set_quote (Some (ch, index)) (note_start index st))
          else if char_is_whitespace ch then tokenize_loop input chars (flush_token st)
          else tokenize_loop input chars (push_char ch (note_start index st))
      end
  end.

Definition tokenize_command_line_internal (input : string) : result (list ParsedToken) :=
  st ← tokenize_loop input (char_indices input)
         {| tok_done := []; tok_current := ""; tok_start := 0; tok_quote := None |};
  match tok_quote st with
  | Some (_, quote_start) => Err (constraint_at input quote_start "unterminated quoted string")
  | None => Ok (tok_done (flush_token st))
  end.

(** ** Arguments *)

Record KeyValueArg := { kv_key : string; kv_value : string }.

Definition required_positional (command : string) (args : list ParsedToken) (index : nat)
    : result string :=
  ok_or (pt_text <$> args !! index) (Constraint ("missing required argument for " +:+ command)).

Definition expect_single_arg (command : string) (args : list ParsedToken) : result string :=
  match args with
  | [arg] => Ok (pt_text arg)
  | _ => Err (Constraint ("usage: " +:+ command +:+ " <name>"))
  end.

Definition parse_assignment (input : string) (arg : ParsedToken) : result KeyValueArg :=
  match split_once "=" (pt_text arg) with
  | None => Err (constraint_at input (pt_start arg)
                   ("expected key=value argument, got '" +:+ pt_text arg +:+ "'"))
  | Some (key, value) => Ok {| kv_key := key; kv_value := value |}
  end.
Definition parse_assignments (args : list ParsedToken) (input : string)
    : result (list KeyValueArg) := mapM (parse_assignment input) args.

Definition order_shape : string :=
  "order must use order=<field>:asc|desc[,<field>:asc|desc ...]".
Definition validate_order_segment (input : string) (start : nat) (segment : string) : result unit :=
  match split_once ":" segment with
  | None => Err (constraint_at input start order_shape)
  | Some (field, direction) =>
      if str_is_empty field then Err (constraint_at input start order_shape)
      else if String.eqb direction "asc" || String.eqb direction "desc" then Ok tt
      else Err (constraint_at input start "order direction must be asc or desc")
  end.
Definition validate_order_term_shape (raw input : string) (start : nat) : result unit :=
  try_fold (λ _, validate_order_segment input start) tt (split_char "," raw).

Definition validate_format_term_shape (raw input : string) (start : nat) : result unit :=
  if existsb (String.eqb raw) ["default"; "jsonl"; "table"; "graph"] then Ok tt
  else Err (constraint_at input start "format must be one of: default, jsonl, table, graph").

(** The operators in the order the loop of [split_query_term] tries them. *)
Definition term_operators : list string := ["!="; ">="; "<="; ">"; "<"; "~"; "="].

(** What the key of a term keeps of its operator. *)
Definition term_key (key operator : string) : string :=
  if String.eqb operator "=" then key
  else if String.eqb operator "!=" then key +:+ "!"
  else key +:+ operator.

Definition invalid_term (input : string) (start : nat) (arg : string) : GrmError :=
  constraint_at input start ("invalid query term '" +:+ arg +:+ "'").

(** The loop, leaving at the first operator the term contains. *)
Fixpoint split_at_operator (arg input : string) (start : nat) (operators : list string)
    : result (string * string) :=
  match operators with
  | [] => Err (invalid_term input start arg)
  | operator :: operators =>
      match split_once operator arg with
      | Some (key, value) =>
          if str_is_empty key || str_is_empty value then Err (invalid_term input start arg)
          else
            let key := term_key key operator in
            _ ← (if String.eqb key "order" then validate_order_term_shape value input start
                 else Ok tt);
            _ ← (if String.eqb key "format" then validate_format_term_shape value input start
                 else Ok tt);
            Ok (key, value)
      | None => split_at_operator arg input start operators
      end
  end.
Definition split_query_term (arg input : string) (start : nat) : result (string * string) :=
  if str_contains ">>" arg || str_contains "<<" arg then Err (invalid_term input start arg)
  else split_at_operator arg input start term_operators.

Definition query_term (kv : string * string) : QueryTerm :=
  {| qt_key := kv.1; qt_value := kv.2 |}.
Definition parse_query_terms_from_strs (args : list string) : result (list QueryTerm) :=
  mapM (λ arg, query_term <$> split_query_term arg arg 0) args.
Definition parse_query_terms (args : list ParsedToken) (input : string) : result (list QueryTerm) :=
  mapM (λ arg, query_term <$> split_query_term (pt_text arg) input (pt_start arg)) args.

(** ** Commands *)

Inductive SessionCommand :=
  | CmdHelp
  | CmdExit
  | CmdSessionDescribe (verbose : bool)
  | CmdSessionIndexes (verbose : bool)
  | CmdTxBegin
  | CmdTxCommit
  | CmdModelDefine (args : list string)
  | CmdModelList
  | CmdModelShow (name : string)
  | CmdLinkDefine (args : list string)
  | CmdLinkList
  | CmdLinkShow (name : string)
  | CmdNodeCreate (binding : option string) (model_name : string) (assignments : list KeyValueArg)
  | CmdNodeFind (model_name : string) (terms : list QueryTerm)
  | CmdSessionExplainNodeFind (model_name : string) (terms : list QueryTerm) (verbose : bool)
  | CmdSessionProfileNodeFind (model_name : string) (terms : list QueryTerm) (verbose : bool)
  | CmdNodeUpdate (model_name id : string) (assignments : list KeyValueArg)
  | CmdNodeDelete (model_name id : string)
  | CmdEdgeCreate (model_name : string) (assignments : list KeyValueArg)
  | CmdEdgeFind (model_name : string) (terms : list QueryTerm)
  | CmdSessionExplainEdgeFind (model_name : string) (terms : list QueryTerm) (verbose : bool)
  | CmdSessionProfileEdgeFind (model_name : string) (terms : list QueryTerm) (verbose : bool)
  | CmdEdgeUpdate (model_name id : string) (assignments : list KeyValueArg)
  | CmdEdgeDelete (model_name id : string)
  | CmdSessionSave (args : list string)
  | CmdSessionLoad (args : list string)
  | CmdSessionImport (args : list string)
  | CmdSessionExport (args : list string)
  | CmdSessionCompact
  | CmdSessionAutocommit (args : list string)
  | CmdUnknown (raw : string).

Definition parse_optional_verbose_flag (command : string) (args : list ParsedToken) : result bool :=
  let usage := Err (Constraint ("usage: " +:+ command +:+ " [--verbose]")) in
  match args with
  | [] => Ok false
  | [arg] => if String.eqb (pt_text arg) "--verbose" then Ok true else usage
  | _ => usage
  end.

Definition strip_optional_verbose_flag (args : list ParsedToken) : bool * list ParsedToken :=
  match args with
  | arg :: rest => if String.eqb (pt_text arg) "--verbose" then (true, rest) else (false, args)
  | [] => (false, args)
  end.

(** [args.get(n).map(|token| token.start).unwrap_or(input.len())] *)
Definition arg_start (args : list ParsedToken) (n : nat) (input : string) : nat :=
  default (String.length input) (pt_start <$> args !! n).

Definition parse_session_introspection (command : string) (args : list ParsedToken)
    (input : string) (profile : bool) : result SessionCommand :=
  let '(verbose, args) := strip_optional_verbose_flag args in
  nested ← required_positional command args 0;
  if String.eqb nested "node.find" then
    model_name ← required_positional command args 1;
    terms ← parse_query_terms (drop 2 args) input;
    Ok (if profile then CmdSessionProfileNodeFind model_name terms verbose
        else CmdSessionExplainNodeFind model_name terms verbose)
  else if String.eqb nested "edge.find" then
    model_name ← required_positional command args 1;
    terms ← parse_query_terms (drop 2 args) input;
    Ok (if profile then CmdSessionProfileEdgeFind model_name terms verbose
        else CmdSessionExplainEdgeFind model_name terms verbose)
  else Err (constraint_at input (arg_start args 0 input)
              ("usage: " +:+ command +:+ " node.find <ModelName> [terms...] | " +:+ command
               +:+ " edge.find <LinkName> [terms...]")).

(** [char::is_ascii_alphabetic], [char::is_ascii_alphanumeric]: a character of
    more than one byte is neither. *)
Definition char_is (p : ascii → bool) (c : string) : bool :=
  match c with String b EmptyString => p b | _ => false end.

Definition validate_binding_name (name input : string) (start : nat) : result unit :=
  match utf8_chars name with
  | [] => Err (constraint_at input start "binding name cannot be empty")
  | first :: _ as chars =>
      if negb (char_is is_ascii_alphabetic first || String.eqb first "_")
      then Err (constraint_at input start "binding name must start with a letter or underscore")
      else if negb (forallb (λ ch, char_is is_ascii_alphanumeric ch || String.eqb ch "_") chars)
      then Err (constraint_at input start
                  "binding name must contain only ASCII letters, digits, or underscores")
      else Ok tt
  end.

Definition parse_node_create (command : string) (args : list ParsedToken) (input : string)
    (binding : option string) : result SessionCommand :=
  model_name ← required_positional command args 0;
  assignments ← parse_assignments (drop 1 args) input;
  Ok (CmdNodeCreate binding model_name assignments).

Definition parse_let_command (args : list ParsedToken) (input : string) : result SessionCommand :=
  binding ← required_positional "let" args 0;
  _ ← validate_binding_name binding input (arg_start args 0 input);
  equals ← required_positional "let" args 1;
  if negb (String.eqb equals "=")
  then Err (constraint_at input (arg_start args 1 input)
              "usage: let <name> = node.create <ModelName> [field=value ...]")
  else
    nested_command ← required_positional "let" args 2;
    if String.eqb nested_command "node.create"
    then parse_node_create nested_command (drop 3 args) input (Some binding)
    else Err (constraint_at input (arg_start args 2 input)
                "let currently supports node.create only").

(** [<family>.find], [.update] and [.delete] of nodes and edges *)
Definition parse_find (cmd : string → list QueryTerm → SessionCommand) (command : string)
    (args : list ParsedToken) (input : string) : result SessionCommand :=
  model_name ← required_positional command args 0;
  terms ← parse_query_terms (drop 1 args) input;
  Ok (cmd model_name terms).
Definition parse_update (cmd : string → string → list KeyValueArg → SessionCommand)
    (command : string) (args : list ParsedToken) (input : string) : result SessionCommand :=
  model_name ← required_positional command args 0;
  id ← required_positional command args 1;
  assignments ← parse_assignments (drop 2 args) input;
  Ok (cmd model_name id assignments).
Definition parse_delete (cmd : string → string → SessionCommand) (command : string)
    (args : list ParsedToken) : result SessionCommand :=
  model_name ← required_positional command args 0;
  id ← required_positional command args 1;
  Ok (cmd model_name id).
Definition parse_no_args (cmd : SessionCommand) (usage : string) (args : list ParsedToken)
    : result SessionCommand :=
  match args with [] => Ok cmd | _ => Err (Constraint ("usage: " +:+ usage)) end.

(** The arms of [parse_command_line], in their order. *)
Definition parse_command (command : string) (args : list ParsedToken) (trimmed : string)
    : result SessionCommand :=
  let named name := String.eqb command name in
  let texts := pt_text <$> args in
  if named "?" || named "help" || named "session.help" then Ok CmdHelp
  else if named "exit" || named "session.exit" then Ok CmdExit
  else if named "session.describe"
  then CmdSessionDescribe <$> parse_optional_verbose_flag command args
  else if named "session.indexes"
  then CmdSessionIndexes <$> parse_optional_verbose_flag command args
  else if named "tx.begin" || named "transaction.begin" then parse_no_args CmdTxBegin "tx.begin" args
  else if named "tx.commit" || named "transaction.commit" then parse_no_args CmdTxCommit "tx.commit" args
  else if named "model.define" then Ok (CmdModelDefine texts)
  else if named "model.list" then Ok CmdModelList
  else if named "model.show" then CmdModelShow <$> expect_single_arg command args
  else if named "link.define" then Ok (CmdLinkDefine texts)
  else if named "link.list" then Ok CmdLinkList
  else if named "link.show" then CmdLinkShow <$> expect_single_arg command args
  else if named "let" then parse_let_command args trimmed
  else if named "node.create" then parse_node_create command args trimmed None
  else if named "node.find" then parse_find CmdNodeFind command args trimmed
  else if named "node.update" || named "node.edit" then parse_update CmdNodeUpdate command args trimmed
  else if named "node.delete" then parse_delete CmdNodeDelete command args
  else if named "edge.create" then
    model_name ← required_positional command args 0;
    assignments ← parse_assignments (drop 1 args) trimmed;
    Ok (CmdEdgeCreate model_name assignments)
  else if named "edge.find" then parse_find CmdEdgeFind command args trimmed
  else if named "session.explain" then parse_session_introspection command args trimmed false
  else if named "session.profile" then parse_session_introspection command args trimmed true
  else if named "edge.update" || named "edge.edit" then parse_update CmdEdgeUpdate command args trimmed
  else if named "edge.delete" then parse_delete CmdEdgeDelete command args
  else if named "session.save" then Ok (CmdSessionSave texts)
  else if named "session.load" then Ok (CmdSessionLoad texts)
  else if named "session.import" then Ok (CmdSessionImport texts)
  else if named "session.export" then Ok (CmdSessionExport texts)
  else if named "session.compact" then parse_no_args CmdSessionCompact "session.compact" args
  else if named "session.autocommit" then Ok (CmdSessionAutocommit texts)
  else Ok (CmdUnknown trimmed).

Definition parse_command_line (input : string) : result SessionCommand :=
  let trimmed := str_trim input in
  tokens ← tokenize_command_line_internal trimmed;
  match tokens with
  | [] => Ok (CmdUnknown "")
  | command :: args => parse_command (pt_text command) args trimmed
  end.

(** ** Tokens are read as they are quoted *)

Local Open Scope list_scope.

(** A text in double quotes, as the list of its characters: quotes and
    backslashes are escaped, anything else stands for itself. *)
Definition quote_char (c : string) : list string :=
  if String.eqb c double_quote || String.eqb c backslash then [backslash; c] else [c].
Definition quoted (text : string) : list string :=
  double_quote :: (utf8_chars text ≫= quote_char) ++ [double_quote].
Fixpoint quoted_words (texts : list string) : list string :=
  match texts with
  | [] => []
  | [text] => quoted text
  | text :: texts => quoted text ++ " "%string :: quoted_words texts
  end.
Definition command_line (texts : list string) : string := concat_chars (quoted_words texts).

(** What a token can be: every [String] is valid UTF-8, and an empty token is
    not kept. *)
Definition token_text (text : string) : Prop := text ≠ ""%string ∧ utf8_valid text = true.

Lemma utf8_valid_chars s : utf8_valid s = true → Forall char_starts (utf8_chars s).
Proof.
  destruct s as [|b s]; [constructor|]. intros Hv.
  assert (is_continuation b = false) as Hb.
  { destruct (is_continuation b) eqn:Hb; [|done]. unfold is_continuation in Hb.
    assert (∀ lo hi, (191 < lo ∨ hi < 128)%Z → byte_in lo hi b = false) as Hno.
    { unfold byte_in in *. apply andb_true_iff in Hb as [?%Z.leb_le ?%Z.leb_le].
      intros lo hi Hor. apply andb_false_iff. rewrite !Z.leb_gt. lia. }
    cbn [utf8_valid] in Hv. rewrite !Hno in Hv by lia.
    destruct s as [|c1 s]; [discriminate Hv|]. destruct s as [|c2 s]; [discriminate Hv|].
    destruct s as [|c3 s]; discriminate Hv. }
  pose proof (utf8_chars_chunked (String b s)) as Hch. cbn in Hch |- *.
  destruct (utf8_chars s) as [|[|c cs] k]; cbn in *.
  - constructor; [|done]. by exists b, "".
  - destruct Hch as [_ Hk]. constructor; [by exists b, ""|done].
  - destruct (is_continuation c) eqn:Hc; cbn in Hch; destruct Hch as [(b' & cs' & [= <- <-] & Hcs) Hk];
      (constructor; [by eexists b, _|done]).
Qed.

Lemma quoted_starts text : utf8_valid text = true → Forall char_starts (quoted text).
Proof.
  intros Hv%utf8_valid_chars. unfold quoted. constructor; [by exists "034"%char, ""|].
  apply Forall_app. split; [|constructor; [by exists "034"%char, ""|constructor]].
  induction Hv as [|c l Hc _ IH]; cbn; [constructor|]. apply Forall_app. split; [|done].
  unfold quote_char. destruct (_ || _); repeat constructor; try done. by exists "\"%char, "".
Qed.

Lemma quoted_words_starts texts :
  Forall token_text texts → Forall char_starts (quoted_words texts).
Proof.
  induction 1 as [|text texts [_ Hv] _ IH]; cbn [quoted_words]; [constructor|].
  pose proof (quoted_starts _ Hv) as Hq. destruct texts as [|text' texts]; [done|].
  apply Forall_app. split; [done|]. constructor; [by exists " "%char, ""|done].
Qed.

Lemma command_line_chars texts :
  Forall token_text texts → utf8_chars (command_line texts) = quoted_words texts.
Proof.
  intros Hts. apply utf8_chars_concat. pose proof (quoted_words_starts _ Hts) as Hs.
  destruct (quoted_words texts); [done|]. apply Forall_cons in Hs as [? ?].
  split; [by apply char_starts_ok|done].
Qed.

Lemma quoted_words_ends texts :
  texts ≠ [] → ∃ l, quoted_words texts = double_quote :: l ++ [double_quote].
Proof.
  induction texts as [|text texts IH]; [done|]. intros _. cbn [quoted_words].
  destruct texts as [|text' texts]; [by eexists|].
  destruct IH as [l ->]; [done|]. unfold quoted.
  eexists ((utf8_chars text ≫= quote_char) ++ double_quote :: " "%string :: double_quote :: l).
  cbn. f_equal. rewrite <-!app_assoc. cbn. done.
Qed.

Lemma command_line_trim texts :
  Forall token_text texts → str_trim (command_line texts) = command_line texts.
Proof.
  intros Hts. unfold str_trim. rewrite (command_line_chars _ Hts).
  destruct texts as [|text texts]; [done|].
  destruct (quoted_words_ends (text :: texts)) as [l Hl]; [done|].
  unfold command_line. rewrite Hl. f_equal.
  rewrite (skip_while_fix _ (double_quote :: l ++ [double_quote])) by (by intros ? ? [= <- <-]).
  rewrite skip_while_fix; [by rewrite rev_involutive|].
  change (double_quote :: l ++ [double_quote]) with ((double_quote :: l) ++ [double_quote]).
  rewrite rev_app_distr. by intros ? ? [= <- <-].
Qed.

(** *** The loop on quoted texts *)

(** Inside double quotes the characters of the text are pushed. *)
Lemma tokenize_quoted input l : ∀ start qs st rest,
  Forall char_starts l → tok_quote st = Some (double_quote, qs) →
  tokenize_loop input (indexed start ((l ≫= quote_char) ++ rest)) st
  = tokenize_loop input
      (indexed (start + String.length (concat_chars (l ≫= quote_char))) rest)
      {| tok_done := tok_done st; tok_current := tok_current st +:+ concat_chars l;
         tok_start := tok_start st; tok_quote := Some (double_quote, qs) |}.
Proof.
  induction l as [|c l IH]; intros start qs st rest Hl Hq.
  { cbn. rewrite append_nil_r, Nat.add_0_r, <-Hq. by destruct st. }
  apply Forall_cons in Hl as [Hc Hl]. cbn [mbind list_bind]. unfold quote_char at 1.
  destruct (String.eqb c double_quote || String.eqb c backslash) eqn:Hesc.
  - cbn [app indexed tokenize_loop]. rewrite Hq. cbn [String.eqb].
    assert (escaped_char c = Some c) as Hec.
    { apply orb_true_iff in Hesc as [->%String.eqb_eq | ->%String.eqb_eq]; done. }
    change (String.eqb backslash backslash) with true. cbn match. rewrite Hec.
    rewrite (IH _ qs) by assumption. cbn [tok_done tok_current tok_start tok_quote push_char].
    f_equal; [|by rewrite append_assoc].
    f_equal. unfold quote_char. rewrite Hesc. cbn [app concat_chars foldr].
    rewrite !length_append. unfold backslash. cbn [String.length]. unfold concat_chars. lia.
  - apply orb_false_iff in Hesc as [Hdq Hbs]. cbn [app indexed tokenize_loop].
    rewrite Hq, Hbs, Hdq. rewrite (IH _ qs) by assumption.
    cbn [tok_done tok_current tok_start tok_quote push_char].
    f_equal; [|by rewrite append_assoc].
    f_equal. unfold quote_char. rewrite Hdq, Hbs. cbn [orb app concat_chars foldr].
    rewrite length_append. unfold concat_chars. lia.
Qed.

Lemma concat_chars_app l k : concat_chars (l ++ k) = (concat_chars l +:+ concat_chars k)%string.
Proof.
  unfold concat_chars. induction l as [|c l IH]; cbn; [done|]. by rewrite IH, append_assoc.
Qed.

(** A quoted text leaves its text, outside quotes again. *)
Lemma tokenize_text input text start st rest :
  utf8_valid text = true → tok_quote st = None → tok_current st = ""%string →
  ∃ n, tokenize_loop input (indexed start (quoted text ++ rest)) st
  = tokenize_loop input (indexed n rest)
      {| tok_done := tok_done st; tok_current := text; tok_start := start; tok_quote := None |}.
Proof.
  intros Hv Hq Hcur. unfold quoted. cbn [app indexed tokenize_loop]. rewrite Hq.
  cbn [String.eqb]. change (String.eqb double_quote double_quote) with true. cbn match.
  unfold note_start. rewrite Hcur. cbn [str_is_empty String.eqb orb].
  rewrite <-app_assoc, (tokenize_quoted _ _ _ start) by (by try apply utf8_valid_chars).
  cbn [tok_done tok_current tok_start set_quote].
  cbn [app indexed tokenize_loop tok_quote].
  change (String.eqb double_quote backslash) with false.
  change (String.eqb double_quote double_quote) with true. cbn match.
  cbn [String.append]. rewrite concat_utf8_chars. by eexists.
Qed.

Lemma tokenize_words input texts : ∀ start st,
  Forall token_text texts → tok_quote st = None → tok_current st = ""%string →
  ∃ st', tokenize_loop input (indexed start (quoted_words texts)) st = Ok st' ∧
    tok_quote st' = None ∧
    pt_text <$> tok_done (flush_token st') = (pt_text <$> tok_done st) ++ texts.
Proof.
  induction texts as [|text texts IH]; intros start st Hts Hq Hcur.
  { exists st. cbn. unfold flush_token. rewrite Hcur. cbn. by rewrite app_nil_r. }
  apply Forall_cons in Hts as [[Hne Hv] Hts]. cbn [quoted_words].
  assert (str_is_empty text = false) as Hemp by (by apply String.eqb_neq).
  assert (∀ rest, ∃ n, tokenize_loop input (indexed start (quoted text ++ rest)) st
    = tokenize_loop input (indexed n rest)
        {| tok_done := tok_done st; tok_current := text; tok_start := start;
           tok_quote := None |}) as Htext by (intros rest; by apply tokenize_text).
  destruct texts as [|text' texts].
  - destruct (Htext []) as [n Hn]. rewrite app_nil_r in Hn. rewrite Hn.
    eexists. split; [reflexivity|]. split; [done|]. unfold flush_token. cbn. rewrite Hemp. cbn.
    by rewrite fmap_app.
  - destruct (Htext (" "%string :: quoted_words (text' :: texts))) as [n ->].
    cbn [indexed tokenize_loop tok_quote].
    change (String.eqb " " double_quote || String.eqb " " single_quote) with false.
    change (char_is_whitespace " ") with true. cbn match.
    unfold flush_token at 1. cbn [tok_current tok_done tok_start tok_quote]. rewrite Hemp.
    edestruct (IH (n + 1)) as (st' & Hrun & Hq' & Hdone); [exact Hts| | |].
    3: { exists st'. split; [exact Hrun|]. split; [done|]. rewrite Hdone. cbn.
         by rewrite fmap_app, <-app_assoc. }
    all: done.
Qed.

Lemma tokenize_command_line texts :
  Forall token_text texts →
  ∃ tokens, tokenize_command_line_internal (command_line texts) = Ok tokens ∧
    pt_text <$> tokens = texts.
Proof.
  intros Hts. unfold tokenize_command_line_internal, char_indices.
  rewrite (command_line_chars _ Hts).
  destruct (tokenize_words (command_line texts) texts 0
    {| tok_done := []; tok_current := ""; tok_start := 0; tok_quote := None |} Hts eq_refl eq_refl)
    as (st & -> & Hq & Hdone).
  cbn [mbind result_bind]. rewrite Hq. by eexists.
Qed.

Lemma command_line_read command texts :
  Forall token_text (command :: texts) →
  ∃ args, parse_command_line (command_line (command :: texts))
      = parse_command command args (command_line (command :: texts)) ∧ pt_text <$> args = texts.
Proof.
  intros Hts. unfold parse_command_line. rewrite (command_line_trim _ Hts).
  destruct (tokenize_command_line _ Hts) as ([|token args] & -> & Htexts); [done|].
  cbn in Htexts. injection Htexts as <- <-. by exists args.
Qed.

(** ** Query terms *)

(** The characters the operators are made of. *)
Definition operator_char (c : ascii) : bool :=
  existsb (Ascii.eqb c) ["!"; ">"; "<"; "~"; "="]%char.
Definition plain_field (s : string) : bool := all_chars (λ c, negb (operator_char c)) s.

Lemma plain_split_once p c field s :
  plain_field field = true → operator_char c = true →
  split_once (String c p) (field +:+ s) = (λ kv, (field +:+ kv.1, kv.2)%string) <$> split_once (String c p) s.
Proof.
  intros Hf Hc. induction field as [|b field IH].
  { cbn [String.append]. by destruct (split_once _ s) as [[? ?]|]. }
  unfold plain_field in *. cbn [all_chars] in Hf. apply andb_true_iff in Hf as [Hb Hf].
  assert (Ascii.eqb c b = false) as Hne.
  { apply Ascii.eqb_neq. intros ->. by rewrite Hc in Hb. }
  change (String b field +:+ s)%string with (String b (field +:+ s)).
  cbn [split_once str_strip_prefix]. rewrite Hne, IH by done.
  by destruct (split_once _ s) as [[? ?]|].
Qed.

Lemma plain_contains p c field s :
  plain_field field = true → operator_char c = true →
  str_contains (String c p) (field +:+ s) = str_contains (String c p) s.
Proof.
  intros Hf Hc. unfold str_contains. rewrite plain_split_once by done.
  apply bool_decide_ext. by rewrite fmap_is_Some.
Qed.

(** Decides the comparisons of closed strings in the goal. *)
Ltac compute_eqb :=
  repeat match goal with
  | |- context [String.eqb ?a ?b] =>
      let r := eval vm_compute in (String.eqb a b) in
      lazymatch r with
      | true => change (String.eqb a b) with true
      | false => change (String.eqb a b) with false
      end
  end; cbn match.

(** The operator [op] is the first one tried that occurs in [rest]. *)
Definition first_operator (op rest : string) : Prop :=
  str_contains ">>" rest = false ∧ str_contains "<<" rest = false ∧
  ∃ before after, term_operators = before ++ op :: after ∧
    Forall (λ p, str_contains p rest = false) before.

Lemma term_operators_plain p :
  p ∈ term_operators → ∃ c q, p = String c q ∧ operator_char c = true.
Proof.
  unfold term_operators. intros Hp.
  repeat (apply elem_of_cons in Hp as [->|Hp]; [by eexists _, _|]). by apply elem_of_nil in Hp.
Qed.

(** A term splits at the first operator, in the order of the loop, that occurs
    behind a field free of operator characters. *)
Lemma split_at_operator_field field rest input start ops k v :
  plain_field field = true → (∀ p, p ∈ ops → p ∈ term_operators) →
  split_at_operator (field +:+ rest) input start ops = Ok (k, v) →
  ∃ before p after k', ops = before ++ p :: after ∧
    Forall (λ q, str_contains q rest = false) before ∧
    split_once p rest = Some (k', v) ∧ k = term_key (field +:+ k') p ∧ v ≠ ""%string.
Proof.
  intros Hf. induction ops as [|p ops IH]; intros Hops; [done|]. cbn [split_at_operator].
  destruct (term_operators_plain p (Hops p ltac:(left))) as (c & q & -> & Hc).
  rewrite plain_split_once by done.
  destruct (split_once (String c q) rest) as [[k' v']|] eqn:Hs; cbn [fmap option_fmap option_map fst snd].
  - destruct (_ || str_is_empty v') eqn:Hemp; [done|]. apply orb_false_iff in Hemp as [_ Hv].
    intros (? & _ & (? & _ & [= <- <-])%bind_Ok)%bind_Ok.
    exists [], (String c q), ops, k'. split_and!; try done. by apply String.eqb_neq in Hv.
  - intros (before & p & after & k' & -> & Hb & ?)%IH; [|intros; apply Hops; by right].
    exists (String c q :: before), p, after, k'. split; [done|]. split; [|done].
    constructor; [|done]. unfold str_contains. by rewrite Hs.
Qed.

(** The shapes that [order] and [format] demand of their values do not matter
    for other fields. *)
Definition free_field (field : string) : Prop :=
  field ≠ ""%string ∧ field ≠ "order"%string ∧ field ≠ "format"%string ∧ plain_field field = true.

Lemma term_key_free field op : free_field field → op ∈ term_operators →
  term_key field op ≠ "order"%string ∧ term_key field op ≠ "format"%string.
Proof.
  intros (_ & Ho & Hf & _) Hop. unfold term_operators in Hop.
  assert (∀ c, operator_char c = true → ∀ q w, plain_field w = true → (field +:+ String c q)%string ≠ w)
    as Hne.
  { intros c Hc q w Hw <-. unfold plain_field in Hw. rewrite all_chars_app in Hw.
    cbn [all_chars] in Hw. rewrite Hc, andb_comm in Hw. done. }
  repeat (apply elem_of_cons in Hop as [->|Hop];
    [unfold term_key; compute_eqb; first [by split|split; by apply Hne]|]).
  by apply elem_of_nil in Hop.
Qed.

Lemma split_query_term_ok field op value input start :
  free_field field → op ∈ term_operators → value ≠ ""%string →
  first_operator op (op +:+ value) →
  split_query_term (field +:+ op +:+ value) input start = Ok (term_key field op, value).
Proof.
  intros Hff Hop Hv (Hgg & Hll & before & after & Hops & Hb).
  destruct (Hff) as (Hne & _ & _ & Hf).
  unfold split_query_term. rewrite !(plain_contains _ _ field), Hgg, Hll by done. cbn [orb].
  assert (∀ p, p ∈ before ++ op :: after → p ∈ term_operators) as Hin by (by rewrite <-Hops).
  rewrite Hops. clear Hops. induction Hb as [|p before Hp _ IH]; cbn [app split_at_operator].
  - destruct (term_operators_plain op Hop) as (c & q & -> & Hc).
    rewrite plain_split_once by done.
    assert (split_once (String c q) (String c q +:+ value) = Some ("", value)%string) as ->.
    { change (String c q +:+ value)%string with (String c (q +:+ value)). cbn [split_once].
      change (String c (q +:+ value)) with (String c q +:+ value)%string.
      by rewrite str_strip_prefix_app. }
    cbn [fmap option_fmap option_map fst snd]. rewrite append_nil_r.
    destruct (term_key_free field _ Hff Hop) as [Ho Hfm].
    rewrite (proj2 (String.eqb_neq _ _) Ho), (proj2 (String.eqb_neq _ _) Hfm).
    unfold str_is_empty. rewrite (proj2 (String.eqb_neq _ _) Hne), (proj2 (String.eqb_neq _ _) Hv).
    done.
  - destruct (term_operators_plain p (Hin p ltac:(left))) as (c & q & -> & Hc).
    rewrite plain_split_once by done. unfold str_contains in Hp.
    destruct (split_once (String c q) (op +:+ value)); [exfalso; apply bool_decide_eq_false in Hp; apply Hp; by eexists|].
    cbn [fmap option_fmap option_map]. apply IH. intros. apply Hin. by right.
Qed.

(** The operator of a term, as the session reads it off the key. *)
Definition operator_predicate (op : string) : PredicateOp :=
  if String.eqb op "!=" then PNe else if String.eqb op ">=" then PGe
  else if String.eqb op "<=" then PLe else if String.eqb op ">" then PGt
  else if String.eqb op "<" then PLt else if String.eqb op "~" then PContains else PEq.

Lemma plain_no_suffix p c field :
  plain_field field = true → operator_char c = true →
  str_strip_suffix (p +:+ String c "") field = None.
Proof.
  intros Hf Hc. destruct (str_strip_suffix _ field) as [r|] eqn:Hs; [|done].
  apply str_strip_suffix_Some in Hs. subst field. unfold plain_field in Hf.
  rewrite !all_chars_app in Hf. cbn [all_chars] in Hf. rewrite Hc in Hf. cbn in Hf.
  by rewrite !andb_false_r in Hf.
Qed.

Lemma suffix_other field p q c d :
  plain_field field = true → c ≠ d →
  str_strip_suffix (p +:+ String c "") (field +:+ q +:+ String d "") = None.
Proof.
  intros _ Hne. destruct (str_strip_suffix _ _) as [r|] eqn:Hs; [|done].
  apply str_strip_suffix_Some in Hs. rewrite <-!append_assoc in Hs.
  by apply str_snoc_inj in Hs as [_ ?].
Qed.

Lemma split_filter_key_term field op :
  free_field field → op ∈ term_operators →
  split_filter_key (term_key field op) = Ok (field, operator_predicate op).
Proof.
  intros (Hne & _ & _ & Hf) Hop.
  assert (str_is_empty field = false) as Hemp by (by apply String.eqb_neq).
  pose proof (λ p c, plain_no_suffix p c field Hf) as Hno.
  pose proof (λ p q c d, suffix_other field p q c d Hf) as Hot.
  assert (∀ c d : ascii, c ≠ "="%char → str_strip_suffix (String d (String "="%char "")) (field +:+ String c "") = None)
    as Hde by (intros c d Hcd; apply (Hot (String d "") "" _ _); congruence).
  unfold split_filter_key, term_operators in *. f_equal. unfold filter_suffixes.
  repeat (apply elem_of_cons in Hop as [->|Hop]); [..|by apply elem_of_nil in Hop];
    unfold term_key, operator_predicate; compute_eqb; cbn [split_suffix].
  - by rewrite str_strip_suffix_app, Hemp.
  - assert (str_strip_suffix "!" (field +:+ ">=") = None) as -> by by apply (Hot "" ">").
    by rewrite str_strip_suffix_app, Hemp.
  - assert (str_strip_suffix "!" (field +:+ "<=") = None) as -> by by apply (Hot "" "<").
    destruct (str_strip_suffix ">=" (field +:+ "<=")) as [r|] eqn:Hs.
    { apply str_strip_suffix_Some in Hs.
      change "<="%string with ("<" +:+ "=")%string in Hs.
      change ">="%string with (">" +:+ "=")%string in Hs.
      rewrite <-!append_assoc in Hs. apply str_snoc_inj in Hs as [Hs _].
      by apply str_snoc_inj in Hs as [_ ?]. }
    by rewrite str_strip_suffix_app, Hemp.
  - assert (str_strip_suffix "!" (field +:+ ">") = None) as -> by by apply (Hot "" "").
    rewrite !Hde by done. by rewrite str_strip_suffix_app, Hemp.
  - assert (str_strip_suffix "!" (field +:+ "<") = None) as -> by by apply (Hot "" "").
    assert (str_strip_suffix ">" (field +:+ "<") = None) as -> by by apply (Hot "" "").
    rewrite !Hde by done. by rewrite str_strip_suffix_app, Hemp.
  - assert (str_strip_suffix "!" (field +:+ "~") = None) as -> by by apply (Hot "" "").
    assert (str_strip_suffix ">" (field +:+ "~") = None) as -> by by apply (Hot "" "").
    assert (str_strip_suffix "<" (field +:+ "~") = None) as -> by by apply (Hot "" "").
    rewrite !Hde by done. by rewrite str_strip_suffix_app, Hemp.
  - pose proof (λ c, Hno "" c) as Hone. cbn [String.append] in Hone.
    assert (str_strip_suffix ">=" field = None) as -> by by apply (Hno ">").
    assert (str_strip_suffix "<=" field = None) as -> by by apply (Hno "<").
    by rewrite !Hone.
Qed.

Lemma first_operator_necessary field op value input start :
  free_field field → op ∈ term_operators → value ≠ ""%string →
  split_query_term (field +:+ op +:+ value) input start = Ok (term_key field op, value) →
  first_operator op (op +:+ value).
Proof.
  intros Hff Hop Hv. destruct (Hff) as (Hne & _ & _ & Hf). unfold split_query_term.
  rewrite !(plain_contains _ _ field) by done.
  destruct (str_contains ">>" (op +:+ value) || str_contains "<<" (op +:+ value)) eqn:Hsh; [done|].
  apply orb_false_iff in Hsh as [Hgg Hll].
  intros (before & p & after & k' & Hops & Hb & Hs & _ & _)%split_at_operator_field; [|done..].
  split_and!; [done..|]. exists before, after. split; [|done].
  assert (p = op) as ->; [|done].
  apply split_once_Some in Hs as Heq. apply (f_equal String.length) in Heq.
  rewrite !length_append in Heq.
  assert (p ∈ term_operators) as Hp by (rewrite Hops; apply elem_of_app; right; left).
  assert (String.length op = 1 ∨ String.length op = 2) as Hlo.
  { clear -Hop. unfold term_operators in Hop.
    repeat (apply elem_of_cons in Hop as [->|Hop]; [cbn; lia|]). by apply elem_of_nil in Hop. }
  assert (String.length p = 1 ∨ String.length p = 2) as Hlp.
  { clear -Hp. unfold term_operators in Hp.
    repeat (apply elem_of_cons in Hp as [->|Hp]; [cbn; lia|]). by apply elem_of_nil in Hp. }
  destruct (decide (k' = ""%string)) as [->|Hk].
  - apply split_once_Some in Hs. cbn [String.append String.length] in *.
    clear -Hs Heq. assert (String.length p = String.length op) as Hlen by lia. clear Heq.
    revert op Hs Hlen. induction p as [|c p IH]; intros [|d op] Hs Hlen; cbn in *; try done.
    injection Hs as -> Hs. f_equal. symmetry. symmetry. apply IH; [done|lia].
  - exfalso. destruct k' as [|c k']; [done|]. cbn [String.length] in *.
    assert (k' = ""%string ∧ String.length op = 2 ∧ String.length p = 1) as (-> & Hl2 & Hl1).
    { destruct k'; cbn in *; [|lia]. split; [done|lia]. }
    apply split_once_Some in Hs.
    assert (op ∈ before) as Hin.
    { clear -Hops Hl2 Hl1 Hop Hp. unfold term_operators in *.
      destruct before as [|b1 [|b2 [|b3 before]]]; cbn in Hops; injection Hops as <- ?; subst;
        try (cbn in Hl1; lia).
      repeat match goal with H : _ :: _ = _ |- _ => injection H as <- ? end. subst.
      repeat (apply elem_of_cons in Hop as [->|Hop]; [first [set_solver|cbn in Hl2; lia]|]).
      by apply elem_of_nil in Hop. }
    rewrite Forall_forall in Hb. specialize (Hb op Hin). unfold str_contains in Hb.
    apply bool_decide_eq_false in Hb. apply Hb.
    destruct (term_operators_plain op Hop) as (c' & q & -> & _).
    change (String c' q +:+ value)%string with (String c' (q +:+ value)). cbn [split_once].
    change (String c' (q +:+ value)) with (String c' q +:+ value)%string.
    rewrite str_strip_prefix_app. by eexists.
Qed.

(** a term [field op value] is read as that condition exactly when no operator
    the parser looks for first occurs in [op value]: then, and only then, the
    key is the field with its operator, which the session reads back as the
    predicate.  A value that contains [<], [>], [~] or [!=] cannot be compared
    with [=], quoted or not. *)
Theorem query_term_exact field op value input start :
  free_field field → op ∈ term_operators → value ≠ ""%string →
  (split_query_term (field +:+ op +:+ value) input start = Ok (term_key field op, value)
     ↔ first_operator op (op +:+ value)) ∧
  split_filter_key (term_key field op) = Ok (field, operator_predicate op).
Proof.
  intros Hff Hop Hv. split; [split|].
  - by apply first_operator_necessary.
  - by apply split_query_term_ok.
  - by apply split_filter_key_term.
Qed.

(** ** Commands are read as they are written *)

Definition assignment_text (kv : KeyValueArg) : string := (kv_key kv +:+ "=" +:+ kv_value kv)%string.
(** A term with its operator; equality keeps none in the key. *)
Definition term_text (t : QueryTerm) : string :=
  if existsb (λ op, str_ends_with op (qt_key t)) [">="; "<="; ">"; "<"; "~"]%string
  then (qt_key t +:+ qt_value t)%string else (qt_key t +:+ "=" +:+ qt_value t)%string.

Definition flag_text (verbose : bool) : list string := if verbose then ["--verbose"]%string else [].

(** The words of a command. *)
Definition command_texts (c : SessionCommand) : list string :=
  (match c with
  | CmdHelp => ["help"]
  | CmdExit => ["exit"]
  | CmdSessionDescribe verbose => "session.describe" :: flag_text verbose
  | CmdSessionIndexes verbose => "session.indexes" :: flag_text verbose
  | CmdTxBegin => ["tx.begin"]
  | CmdTxCommit => ["tx.commit"]
  | CmdModelDefine args => "model.define" :: args
  | CmdModelList => ["model.list"]
  | CmdModelShow name => ["model.show"; name]
  | CmdLinkDefine args => "link.define" :: args
  | CmdLinkList => ["link.list"]
  | CmdLinkShow name => ["link.show"; name]
  | CmdNodeCreate None m kvs => "node.create" :: m :: map assignment_text kvs
  | CmdNodeCreate (Some b) m kvs =>
      "let" :: b :: "=" :: "node.create" :: m :: map assignment_text kvs
  | CmdNodeFind m ts => "node.find" :: m :: map term_text ts
  | CmdSessionExplainNodeFind m ts verbose =>
      "session.explain" :: flag_text verbose ++ "node.find" :: m :: map term_text ts
  | CmdSessionProfileNodeFind m ts verbose =>
      "session.profile" :: flag_text verbose ++ "node.find" :: m :: map term_text ts
  | CmdNodeUpdate m id kvs => "node.update" :: m :: id :: map assignment_text kvs
  | CmdNodeDelete m id => ["node.delete"; m; id]
  | CmdEdgeCreate m kvs => "edge.create" :: m :: map assignment_text kvs
  | CmdEdgeFind m ts => "edge.find" :: m :: map term_text ts
  | CmdSessionExplainEdgeFind m ts verbose =>
      "session.explain" :: flag_text verbose ++ "edge.find" :: m :: map term_text ts
  | CmdSessionProfileEdgeFind m ts verbose =>
      "session.profile" :: flag_text verbose ++ "edge.find" :: m :: map term_text ts
  | CmdEdgeUpdate m id kvs => "edge.update" :: m :: id :: map assignment_text kvs
  | CmdEdgeDelete m id => ["edge.delete"; m; id]
  | CmdSessionSave args => "session.save" :: args
  | CmdSessionLoad args => "session.load" :: args
  | CmdSessionImport args => "session.import" :: args
  | CmdSessionExport args => "session.export" :: args
  | CmdSessionCompact => ["session.compact"]
  | CmdSessionAutocommit args => "session.autocommit" :: args
  | CmdUnknown raw => []
  end)%string.

Definition binding_ok (name : string) : bool :=
  match utf8_chars name with
  | [] => false
  | first :: _ as chars =>
      (char_is is_ascii_alphabetic first || String.eqb first "_")
      && forallb (λ ch, char_is is_ascii_alphanumeric ch || String.eqb ch "_") chars
  end.

(** The term of an unambiguous condition. *)
Definition term_ok (t : QueryTerm) : Prop :=
  ∃ field op, free_field field ∧ op ∈ term_operators ∧ qt_value t ≠ ""%string ∧
    first_operator op (op +:+ qt_value t) ∧ qt_key t = term_key field op.

(** What a command holds when it came from a line: no key contains an equals
    sign, conditions are unambiguous, bindings are names. *)
Definition command_ok (c : SessionCommand) : Prop :=
  match c with
  | CmdNodeCreate b _ kvs =>
      (∀ name, b = Some name → binding_ok name = true) ∧
      Forall (λ kv, lacks "=" (kv_key kv) = true) kvs
  | CmdNodeUpdate _ _ kvs | CmdEdgeCreate _ kvs | CmdEdgeUpdate _ _ kvs =>
      Forall (λ kv, lacks "=" (kv_key kv) = true) kvs
  | CmdNodeFind _ ts | CmdEdgeFind _ ts
  | CmdSessionExplainNodeFind _ ts _ | CmdSessionProfileNodeFind _ ts _
  | CmdSessionExplainEdgeFind _ ts _ | CmdSessionProfileEdgeFind _ ts _ => Forall term_ok ts
  | CmdUnknown _ => False
  | _ => True
  end.

Lemma split_once_lacks c k v : lacks c k = true → split_once (String c "") (k +:+ String c v) = Some (k, v).
Proof.
  induction k as [|b k IH]; intros Hk.
  - cbn [String.append split_once str_strip_prefix]. by rewrite Ascii.eqb_refl.
  - unfold lacks in *. cbn [all_chars] in Hk. apply andb_true_iff in Hk as [Hb Hk%IH].
    apply negb_true_iff in Hb. change (String b k +:+ String c v)%string with (String b (k +:+ String c v)).
    cbn [split_once str_strip_prefix]. rewrite Ascii.eqb_sym, Hb, Hk. done.
Qed.

Lemma parse_assignments_texts args kvs input :
  pt_text <$> args = map assignment_text kvs →
  Forall (λ kv, lacks "=" (kv_key kv) = true) kvs → parse_assignments args input = Ok kvs.
Proof.
  unfold parse_assignments. intros Hargs Hkvs. apply mapM_Ok. revert args Hargs.
  induction Hkvs as [|[k v] kvs Hk _ IH]; intros [|arg args] Hargs; try done.
  cbn in Hargs. injection Hargs as Harg Hargs. constructor; [|by apply IH].
  unfold parse_assignment. rewrite Harg. unfold assignment_text. cbn [kv_key kv_value].
  change ("=" +:+ v)%string with (String "=" v). by rewrite split_once_lacks.
Qed.

Lemma term_text_op t field op :
  qt_key t = term_key field op → free_field field → op ∈ term_operators →
  term_text t = (field +:+ op +:+ qt_value t)%string.
Proof.
  intros Hk (_ & _ & _ & Hf) Hop. unfold term_text. rewrite Hk.
  pose proof (λ p c, plain_no_suffix p c field Hf) as Hno.
  assert (∀ s o : string, str_strip_suffix s o = None → str_ends_with s o = false) as Hends.
  { intros s o Hs. unfold str_ends_with. rewrite Hs. by apply bool_decide_eq_false, is_Some_None. }
  assert (∀ k o, str_ends_with o (k +:+ o) = true) as Hself.
  { intros k o. unfold str_ends_with. rewrite str_strip_suffix_app. by apply bool_decide_eq_true. }
  unfold term_operators in Hop.
  repeat (apply elem_of_cons in Hop as [->|Hop]); [..|by apply elem_of_nil in Hop];
    unfold term_key; compute_eqb; cbn [existsb];
    rewrite ?Hself, ?orb_true_r; try by rewrite append_assoc.
  - rewrite !Hends; [cbn [orb]; by rewrite append_assoc|..].
    + by apply (suffix_other field "" "" "~"%char "!"%char).
    + by apply (suffix_other field "" "" "<"%char "!"%char).
    + by apply (suffix_other field "" "" ">"%char "!"%char).
    + by apply (suffix_other field "<" "" "="%char "!"%char).
    + by apply (suffix_other field ">" "" "="%char "!"%char).
  - rewrite !Hends; [done|..].
    + by apply (Hno "").
    + by apply (Hno "").
    + by apply (Hno "").
    + by apply (Hno "<").
    + by apply (Hno ">").
Qed.

Lemma parse_terms_texts args ts input :
  pt_text <$> args = map term_text ts → Forall term_ok ts → parse_query_terms args input = Ok ts.
Proof.
  unfold parse_query_terms. intros Hargs Hts. apply mapM_Ok. revert args Hargs.
  induction Hts as [|t ts (field & op & Hff & Hop & Hv & Hfirst & Hk) _ IH];
    intros [|arg args] Hargs; try done.
  cbn in Hargs. injection Hargs as Harg Hargs. constructor; [|by apply IH].
  rewrite Harg, (term_text_op t field op) by done.
  rewrite split_query_term_ok by done. cbn. rewrite <-Hk. by destruct t.
Qed.

Lemma binding_ok_validates name input start :
  binding_ok name = true → validate_binding_name name input start = Ok tt.
Proof.
  unfold binding_ok, validate_binding_name. destruct (utf8_chars name) as [|c l]; [done|].
  intros [-> ->]%andb_true_iff. done.
Qed.

(** Reading the arguments of a written command. *)
Lemma positional_text command args texts n text :
  pt_text <$> args = texts → texts !! n = Some text → required_positional command args n = Ok text.
Proof.
  intros <- Hn. unfold required_positional. rewrite list_lookup_fmap in Hn. by rewrite Hn.
Qed.

Lemma parsed_drop n args texts : pt_text <$> args = texts → pt_text <$> drop n args = drop n texts.
Proof. intros <-. by rewrite fmap_drop. Qed.

Lemma parse_node_create_texts command args input binding m kvs :
  pt_text <$> args = m :: map assignment_text kvs →
  Forall (λ kv, lacks "=" (kv_key kv) = true) kvs →
  parse_node_create command args input binding = Ok (CmdNodeCreate binding m kvs).
Proof.
  intros Hargs Hkvs. unfold parse_node_create.
  rewrite (positional_text _ _ _ 0 m Hargs) by done. cbn [mbind result_bind].
  by rewrite (parse_assignments_texts (drop 1 args) kvs) by (done || apply (parsed_drop 1 _ _ Hargs)).
Qed.

Lemma parse_find_texts cmd command args input m ts :
  pt_text <$> args = m :: map term_text ts → Forall term_ok ts →
  parse_find cmd command args input = Ok (cmd m ts).
Proof.
  intros Hargs Hts. unfold parse_find.
  rewrite (positional_text _ _ _ 0 m Hargs) by done. cbn [mbind result_bind].
  by rewrite (parse_terms_texts (drop 1 args) ts) by (done || apply (parsed_drop 1 _ _ Hargs)).
Qed.

Lemma parse_update_texts cmd command args input m id kvs :
  pt_text <$> args = m :: id :: map assignment_text kvs →
  Forall (λ kv, lacks "=" (kv_key kv) = true) kvs →
  parse_update cmd command args input = Ok (cmd m id kvs).
Proof.
  intros Hargs Hkvs. unfold parse_update.
  rewrite (positional_text _ _ _ 0 m Hargs), (positional_text _ _ _ 1 id Hargs) by done.
  cbn [mbind result_bind].
  by rewrite (parse_assignments_texts (drop 2 args) kvs) by (done || apply (parsed_drop 2 _ _ Hargs)).
Qed.

Lemma parse_delete_texts cmd command args m id :
  pt_text <$> args = [m; id] → parse_delete cmd command args = Ok (cmd m id).
Proof.
  intros Hargs. unfold parse_delete.
  by rewrite (positional_text _ _ _ 0 m Hargs), (positional_text _ _ _ 1 id Hargs) by done.
Qed.

Lemma expect_single_texts command args name :
  pt_text <$> args = [name] → expect_single_arg command args = Ok name.
Proof. destruct args as [|arg [|? ?]]; try done. by intros [= <-]. Qed.

Lemma verbose_flag_texts command args verbose :
  pt_text <$> args = flag_text verbose → parse_optional_verbose_flag command args = Ok verbose.
Proof.
  destruct verbose, args as [|arg [|? ?]]; try done. intros [= Harg]. cbn. by rewrite Harg.
Qed.

(** The nested find of [session.explain] and [session.profile]. *)
Definition introspection (profile node : bool) (m : string) (ts : list QueryTerm) (verbose : bool)
    : SessionCommand :=
  match profile, node with
  | true, true => CmdSessionProfileNodeFind m ts verbose
  | true, false => CmdSessionProfileEdgeFind m ts verbose
  | false, true => CmdSessionExplainNodeFind m ts verbose
  | false, false => CmdSessionExplainEdgeFind m ts verbose
  end.

Lemma parse_introspection_texts command args input profile (node : bool) m ts verbose :
  pt_text <$> args
    = flag_text verbose ++ (if node then "node.find" else "edge.find")%string :: m :: map term_text ts →
  Forall term_ok ts →
  parse_session_introspection command args input profile = Ok (introspection profile node m ts verbose).
Proof.
  intros Hargs Hts. unfold parse_session_introspection.
  assert (∃ args', strip_optional_verbose_flag args = (verbose, args') ∧
    pt_text <$> args' = (if node then "node.find" else "edge.find")%string :: m :: map term_text ts)
    as (args' & -> & Hargs').
  { destruct args as [|arg args]; [destruct verbose; done|].
    destruct verbose; cbn in Hargs; injection Hargs as Harg Hargs;
      unfold strip_optional_verbose_flag; rewrite Harg; [by exists args|].
    exists (arg :: args). rewrite <-Harg, <-Hargs. split; [|done]. rewrite Harg. by destruct node. }
  rewrite (positional_text _ _ _ 0 _ Hargs'), (positional_text _ _ _ 1 m Hargs') by done.
  cbn [mbind result_bind].
  rewrite (parse_terms_texts (drop 2 args') ts) by (done || apply (parsed_drop 2 _ _ Hargs')).
  destruct node, profile; compute_eqb; done.
Qed.


(** ** Concrete lines *)


(** [title=a b] is read as written, [title=a<b] as a condition on a field
    named [title=a]. *)
Lemma query_term_exact_witness :
  split_query_term "title=a b" "" 0 = Ok ("title", "a b")%string ∧
  split_query_term "title=a<b" "" 0 = Ok ("title=a<", "b")%string.
Proof.
  split; [|reflexivity].
  apply (query_term_exact "title" "=" "a b" "" 0).
  - split_and!; try discriminate; reflexivity.
  - unfold term_operators. repeat (left || right).
  - discriminate.
  - split; [reflexivity|]. split; [reflexivity|].
    exists ["!="; ">="; "<="; ">"; "<"; "~"]%string, []. split; [reflexivity|].
    repeat (constructor; [reflexivity|]). constructor.
Defined.
