(* ===== verification/Plan.v ===== *)
(** * Execution plans ([src/src/backend/plan.rs])

    The logical steps a graph query is explained as, their access paths and
    indexes, and their text. *)

From S2P Require Export Dsl.

Local Open Scope string_scope.

(** ** Access paths and indexes *)

Inductive AccessPath :=
  | NodeIdLookup
  | NodeLabelIndex
  | NodePropertyIndex
  | RelationshipIdLookup
  | RelationshipTypeIndex
  | RelationshipEndpointAdjacency
  | OutgoingAdjacency
  | IncomingAdjacency
  | BidirectionalAdjacency
  | Scan.

#[export] Instance AccessPath_eq_dec : EqDecision AccessPath.
Proof. solve_decision. Defined.

Definition index_name (path : AccessPath) : option string :=
  match path with
  | NodeIdLookup => Some "system.node.id"
  | NodeLabelIndex => Some "system.node.label"
  | NodePropertyIndex => Some "system.node.property"
  | RelationshipIdLookup => Some "system.edge.id"
  | RelationshipTypeIndex => Some "system.edge.type"
  | RelationshipEndpointAdjacency => None
  | OutgoingAdjacency => Some "system.edge.outgoing_adjacency"
  | IncomingAdjacency => Some "system.edge.incoming_adjacency"
  | BidirectionalAdjacency => None
  | Scan => None
  end.
Definition is_scan (path : AccessPath) : bool := match path with Scan => true | _ => false end.

Inductive IndexKind := IndexSystem | IndexUserDefined.
Inductive IndexEntity := IndexNode | IndexEdge.

Record IndexMetadata := {
  im_name : string;
  im_kind : IndexKind;
  im_entity : IndexEntity;
  im_fields : list string;
  im_durable : bool;
  im_derived : bool;
}.

Definition system_index (name : string) (entity : IndexEntity) (fields : list string)
    : IndexMetadata :=
  {| im_name := name; im_kind := IndexSystem; im_entity := entity; im_fields := fields;
     im_durable := false; im_derived := true |}.

Definition system_index_catalog : list IndexMetadata :=
  [system_index "system.node.id" IndexNode ["id"];
   system_index "system.node.label" IndexNode ["label"];
   system_index "system.node.property" IndexNode ["label"; "property"; "value"];
   system_index "system.edge.id" IndexEdge ["id"];
   system_index "system.edge.type" IndexEdge ["type"];
   system_index "system.edge.outgoing_adjacency" IndexEdge ["from"; "type"];
   system_index "system.edge.incoming_adjacency" IndexEdge ["to"; "type"]].

(** ** Steps *)

Inductive PlanStepKind :=
  | PNodeById (var : VarId) (labels : list string) (id : Z)
  | PNodeLabelScan (var : VarId) (labels : list string)
  | PNodePropertySeek (var : VarId) (labels : list string) (key : string)
  | PNodeCheck (var : VarId) (labels : list string)
  | PNodeFilter (var : VarId) (labels : list string) (id : option Z) (keys : list string)
  | PRelationshipById (var : VarId) (rel_type : string) (id : Z)
  | PRelationshipTypeScan (var : VarId) (rel_type : string)
  | PRelationshipEndpointSeek (var : VarId) (rel_type : string) (from to : option Z)
  | PRelationshipFilter (var : VarId) (rel_type : string) (keys : list string)
  | PExpandOut (from rel to : VarId) (rel_type : option string)
  | PExpandIn (from rel to : VarId) (rel_type : option string)
  | PExpandBoth (from rel to : VarId) (rel_type : option string)
  | PReturn (var : VarId) (kind : ReturnKind).

Definition logical_name (kind : PlanStepKind) : string :=
  match kind with
  | PNodeById _ _ _ => "NodeById"
  | PNodeLabelScan _ _ => "NodeLabelScan"
  | PNodePropertySeek _ _ _ => "NodePropertySeek"
  | PNodeCheck _ _ => "NodeCheck"
  | PNodeFilter _ _ _ _ => "NodeFilter"
  | PRelationshipById _ _ _ => "RelationshipById"
  | PRelationshipTypeScan _ _ => "RelationshipTypeScan"
  | PRelationshipEndpointSeek _ _ _ _ => "RelationshipEndpointSeek"
  | PRelationshipFilter _ _ _ => "RelationshipFilter"
  | PExpandOut _ _ _ _ => "ExpandOut"
  | PExpandIn _ _ _ _ => "ExpandIn"
  | PExpandBoth _ _ _ _ => "ExpandBoth"
  | PReturn _ _ => "Return"
  end.

Definition access_path (kind : PlanStepKind) : option AccessPath :=
  match kind with
  | PNodeById _ _ _ => Some NodeIdLookup
  | PNodeLabelScan _ labels => Some (match labels with [] => Scan | _ => NodeLabelIndex end)
  | PNodePropertySeek _ _ _ => Some NodePropertyIndex
  | PRelationshipById _ _ _ => Some RelationshipIdLookup
  | PRelationshipTypeScan _ _ => Some RelationshipTypeIndex
  | PRelationshipEndpointSeek _ _ from to =>
      Some (match from, to with
            | Some _, Some _ => RelationshipEndpointAdjacency
            | Some _, None => OutgoingAdjacency
            | None, Some _ => IncomingAdjacency
            | None, None => RelationshipTypeIndex
            end)
  | PExpandOut _ _ _ _ => Some OutgoingAdjacency
  | PExpandIn _ _ _ _ => Some IncomingAdjacency
  | PExpandBoth _ _ _ _ => Some BidirectionalAdjacency
  | PNodeFilter _ _ _ _ | PRelationshipFilter _ _ _ => Some Scan
  | PNodeCheck _ _ | PReturn _ _ => None
  end.

Definition both_adjacencies : list string :=
  ["system.edge.outgoing_adjacency"; "system.edge.incoming_adjacency"].
Definition candidate_index_names (kind : PlanStepKind) : list string :=
  match kind with
  | PRelationshipEndpointSeek _ _ (Some _) (Some _) => both_adjacencies
  | PExpandBoth _ _ _ _ => both_adjacencies
  | _ => match access_path kind ≫= index_name with Some name => [name] | None => [] end
  end.

(** ** Text *)

Definition fmt_var (v : VarId) : string := "v" +:+ u_to_string (Z.of_N (var_index v)).
Definition fmt_labels (labels : list string) : string :=
  match labels with [] => "*" | _ => Text.join "+" labels end.
Definition fmt_rel_type (rel_type : option string) : string :=
  match rel_type with Some ty => ":" +:+ ty | None => "" end.
(** [if let Some(id) = id { write!(f, " {name}={id}") }] *)
Definition fmt_field (name : string) (id : option Z) : string :=
  match id with Some id => " " +:+ name +:+ "=" +:+ Z_to_string id | None => "" end.
Definition fmt_keys (keys : list string) : string :=
  match keys with [] => "" | _ => " " +:+ Text.join "," keys end.
Definition fmt_return_kind (kind : ReturnKind) : string :=
  match kind with KindNode => "Node" | KindRel => "Rel" end.

Definition kind_to_string (kind : PlanStepKind) : string :=
  match kind with
  | PNodeById var labels id =>
      "NodeById " +:+ fmt_var var +:+ " " +:+ fmt_labels labels +:+ " id=" +:+ Z_to_string id
  | PNodeLabelScan var labels => "NodeLabelScan " +:+ fmt_var var +:+ " " +:+ fmt_labels labels
  | PNodePropertySeek var labels key =>
      "NodePropertySeek " +:+ fmt_var var +:+ " " +:+ fmt_labels labels +:+ "." +:+ key
  | PNodeCheck var labels => "NodeCheck " +:+ fmt_var var +:+ " " +:+ fmt_labels labels
  | PNodeFilter var labels id keys =>
      "NodeFilter " +:+ fmt_var var +:+ " " +:+ fmt_labels labels +:+ fmt_field "id" id
      +:+ fmt_keys keys
  | PRelationshipById var rel_type id =>
      "RelationshipById " +:+ fmt_var var +:+ " :" +:+ rel_type +:+ " id=" +:+ Z_to_string id
  | PRelationshipTypeScan var rel_type =>
      "RelationshipTypeScan " +:+ fmt_var var +:+ " :" +:+ rel_type
  | PRelationshipEndpointSeek var rel_type from to =>
      "RelationshipEndpointSeek " +:+ fmt_var var +:+ " :" +:+ rel_type
      +:+ fmt_field "from" from +:+ fmt_field "to" to
  | PRelationshipFilter var rel_type keys =>
      "RelationshipFilter " +:+ fmt_var var +:+ " :" +:+ rel_type +:+ fmt_keys keys
  | PExpandOut from rel to rel_type =>
      "ExpandOut " +:+ fmt_var from +:+ " -[" +:+ fmt_var rel +:+ fmt_rel_type rel_type
      +:+ "]-> " +:+ fmt_var to
  | PExpandIn from rel to rel_type =>
      "ExpandIn " +:+ fmt_var from +:+ " <-[" +:+ fmt_var rel +:+ fmt_rel_type rel_type
      +:+ "]- " +:+ fmt_var to
  | PExpandBoth from rel to rel_type =>
      "ExpandBoth " +:+ fmt_var from +:+ " -[" +:+ fmt_var rel +:+ fmt_rel_type rel_type
      +:+ "]- " +:+ fmt_var to
  | PReturn var kind => "Return " +:+ fmt_return_kind kind +:+ " " +:+ fmt_var var
  end.

(** ** Plans *)

Record PlannerStepMetadata := {
  pl_chosen_anchor : option string;
  pl_candidate_access_paths : list AccessPath;
  pl_selected_access_path : option AccessPath;
  pl_residual_filters : list string;
  pl_order : list string;
  pl_limit : option N;
  pl_offset : option N;
}.

Definition planner_new (chosen_anchor : option string) (candidates : list AccessPath)
    (selected : option AccessPath) (residual_filters : list string) : PlannerStepMetadata :=
  {| pl_chosen_anchor := chosen_anchor; pl_candidate_access_paths := candidates;
     pl_selected_access_path := selected; pl_residual_filters := residual_filters;
     pl_order := []; pl_limit := None; pl_offset := None |}.
Definition with_paging (order : list string) (limit offset : option N) (p : PlannerStepMetadata)
    : PlannerStepMetadata :=
  {| pl_chosen_anchor := pl_chosen_anchor p;
     pl_candidate_access_paths := pl_candidate_access_paths p;
     pl_selected_access_path := pl_selected_access_path p;
     pl_residual_filters := pl_residual_filters p;
     pl_order := order; pl_limit := limit; pl_offset := offset |}.

Record PlanStep := { ps_kind : PlanStepKind; ps_planner : option PlannerStepMetadata }.

Definition step_new (kind : PlanStepKind) : PlanStep := {| ps_kind := kind; ps_planner := None |}.
Definition with_planner (planner : PlannerStepMetadata) (step : PlanStep) : PlanStep :=
  {| ps_kind := ps_kind step; ps_planner := Some planner |}.
Definition step_to_string (step : PlanStep) : string := kind_to_string (ps_kind step).

Record ExecutionPlan := { ep_steps : list PlanStep }.

Definition numbered_step (idx : nat) (step : PlanStep) : string :=
  nat_to_string (S idx) +:+ ". " +:+ step_to_string step.
Definition plan_to_string (plan : ExecutionPlan) : string :=
  Text.join (String "010"%char "") (imap numbered_step (ep_steps plan)).

Record ProfileStepMetrics := {
  pm_step_index : nat;
  pm_kind : string;
  pm_access_path : option AccessPath;
  pm_input_rows : option nat;
  pm_output_rows : option nat;
  pm_elapsed_micros : option Z;
}.

Section plans.
Context `{SerdeNumber}.

Definition node_check_or_filter_step (var : VarId) (labels : list string) (id : option Z)
    (filters : list PropertyFilter) : PlanStepKind :=
  let keys := pf_key <$> filters in
  if bool_decide (is_Some id) || negb (bool_decide (keys = []))
  then PNodeFilter var labels id keys else PNodeCheck var labels.

Definition first_equality_filter (filters : list PropertyFilter) : option PropertyFilter :=
  List.find (λ filter, bool_decide (pf_op filter = OpEq)) filters.

Definition node_step (node : NodeMatch) : PlanStepKind :=
  match nm_id_filter node with
  | Some id => PNodeById (nm_var node) (nm_labels node) id
  | None =>
      match first_equality_filter (nm_property_filters node) with
      | Some filter => PNodePropertySeek (nm_var node) (nm_labels node) (pf_key filter)
      | None => PNodeLabelScan (nm_var node) (nm_labels node)
      end
  end.
Definition hop_step (hop : HopMatch) : PlanStepKind :=
  match hop_dir hop with
  | DirOut => PExpandOut (hop_start hop) (hop_rel_var hop) (hop_end hop) (hop_rel_type hop)
  | DirIn => PExpandIn (hop_start hop) (hop_rel_var hop) (hop_end hop) (hop_rel_type hop)
  | DirBoth => PExpandBoth (hop_start hop) (hop_rel_var hop) (hop_end hop) (hop_rel_type hop)
  end.

(** The loop body of [for_graph_query]: the steps and the bound nodes so far. *)
Definition plan_clause (st : list PlanStep * list VarId) (clause : MatchClause)
    : list PlanStep * list VarId :=
  let '(steps, bound) := st in
  match clause with
  | MatchNode node =>
      if bool_decide (nm_var node ∈ bound)
      then (steps ++ [step_new (node_check_or_filter_step (nm_var node) (nm_labels node)
                                  (nm_id_filter node) (nm_property_filters node))], bound)%list
      else (steps ++ [step_new (node_step node)], bound ++ [nm_var node])%list
  | MatchHop hop =>
      (steps ++ [step_new (hop_step hop)],
       if bool_decide (hop_end hop ∈ bound) then bound else bound ++ [hop_end hop])%list
  end.

Definition for_graph_query (query : GraphQuery) : ExecutionPlan :=
  {| ep_steps := ((foldl plan_clause ([], []) (gq_matches query)).1
       ++ [step_new (PReturn (return_var query) (return_kind query))])%list |}.

(** ** The steps follow the clauses *)

(** The variables a step needs and the ones it binds. *)
Definition step_needs (kind : PlanStepKind) : list VarId :=
  match kind with
  | PNodeCheck v _ | PNodeFilter v _ _ _ | PRelationshipFilter v _ _ | PReturn v _ => [v]
  | PExpandOut from _ _ _ | PExpandIn from _ _ _ | PExpandBoth from _ _ _ => [from]
  | _ => []
  end.
Definition step_binds (kind : PlanStepKind) : list VarId :=
  match kind with
  | PNodeById v _ _ | PNodeLabelScan v _ | PNodePropertySeek v _ _
  | PRelationshipById v _ _ | PRelationshipTypeScan v _ | PRelationshipEndpointSeek v _ _ _ => [v]
  | PExpandOut _ rel to _ | PExpandIn _ rel to _ | PExpandBoth _ rel to _ => [rel; to]
  | _ => []
  end.
(** Every step needs only what the steps before it bound. *)
Fixpoint runnable (bound : list VarId) (steps : list PlanStep) : Prop :=
  match steps with
  | [] => True
  | step :: steps =>
      (∀ v, v ∈ step_needs (ps_kind step) → v ∈ bound) ∧
      runnable (bound ++ step_binds (ps_kind step))%list steps
  end.
End plans.

Section plan_facts.
Context `{SerdeNumber}.
Implicit Types (steps : list PlanStep) (q : GraphQuery).

Definition steps_bind (steps : list PlanStep) : list VarId := steps ≫= λ step, step_binds (ps_kind step).

Lemma steps_bind_app steps steps' :
  steps_bind (steps ++ steps') = (steps_bind steps ++ steps_bind steps')%list.
Proof. apply bind_app. Qed.

Lemma runnable_app bound steps steps' :
  runnable bound (steps ++ steps') ↔
  runnable bound steps ∧ runnable (bound ++ steps_bind steps)%list steps'.
Proof.
  revert bound. induction steps as [|step steps IH]; intros bound; cbn [runnable app].
  { cbn. rewrite app_nil_r. tauto. }
  rewrite IH. cbn [steps_bind mbind list_bind]. rewrite app_assoc. unfold steps_bind. tauto.
Qed.

(** What the loop has made of the clauses so far. *)
Record plan_inv (bound : gset VarId) (seen : list VarId) (st : list PlanStep * list VarId) : Prop := {
  pv_bound v : v ∈ bound ↔ v ∈ st.2;
  pv_binds v : v ∈ st.2 → v ∈ steps_bind st.1;
  pv_seen v : v ∈ seen → v ∈ steps_bind st.1;
  pv_run : runnable [] st.1;
}.

Lemma node_step_binds node : step_binds (node_step node) = [nm_var node].
Proof. unfold node_step. destruct (nm_id_filter node); [done|]. by destruct (first_equality_filter _). Qed.
Lemma node_step_needs node : step_needs (node_step node) = [].
Proof. unfold node_step. destruct (nm_id_filter node); [done|]. by destruct (first_equality_filter _). Qed.
Lemma hop_step_binds hop : step_binds (hop_step hop) = [hop_rel_var hop; hop_end hop].
Proof. unfold hop_step. by destruct (hop_dir hop). Qed.
Lemma hop_step_needs hop : step_needs (hop_step hop) = [hop_start hop].
Proof. unfold hop_step. by destruct (hop_dir hop). Qed.
Lemma check_step_binds v labels id filters :
  step_binds (node_check_or_filter_step v labels id filters) = [].
Proof. unfold node_check_or_filter_step. by destruct (_ || _). Qed.
Lemma check_step_needs v labels id filters :
  step_needs (node_check_or_filter_step v labels id filters) = [v].
Proof. unfold node_check_or_filter_step. by destruct (_ || _). Qed.

(** One more step keeps the plan runnable when what it needs is bound. *)
Lemma runnable_snoc steps step :
  runnable [] steps → (∀ v, v ∈ step_needs (ps_kind step) → v ∈ steps_bind steps) →
  runnable [] (steps ++ [step]).
Proof. intros Hrun Hneeds. apply runnable_app. cbn. auto. Qed.

Lemma steps_bind_snoc steps step v :
  v ∈ steps_bind (steps ++ [step]) ↔ v ∈ steps_bind steps ∨ v ∈ step_binds (ps_kind step).
Proof. rewrite steps_bind_app, elem_of_app. cbn. by rewrite app_nil_r. Qed.

Lemma plan_clause_inv bound bound' seen st clause :
  validate_clause bound clause = Ok bound' → plan_inv bound seen st →
  plan_inv bound' (seen ++ clause_vars clause) (plan_clause st clause).
Proof.
  destruct st as [steps vars]. intros Hval [Hb Hbinds Hseen Hrun]. cbn [fst snd] in *.
  destruct clause as [node|hop]; cbn [validate_clause plan_clause clause_vars] in *.
  - injection Hval as <-. destruct (bool_decide_reflect (nm_var node ∈ vars)) as [Hin|Hin].
    + split; cbn [fst snd].
      * intros v. rewrite <-Hb. set_solver.
      * intros v Hv. apply steps_bind_snoc. auto.
      * intros v. rewrite steps_bind_snoc, elem_of_app, list_elem_of_singleton. naive_solver.
      * apply runnable_snoc; [done|]. cbn. rewrite check_step_needs.
        intros v ->%list_elem_of_singleton. auto.
    + split; cbn [fst snd].
      * intros v. specialize (Hb v). rewrite elem_of_app, list_elem_of_singleton. set_solver.
      * intros v. rewrite steps_bind_snoc. cbn [ps_kind step_new].
        rewrite node_step_binds, !elem_of_app, !list_elem_of_singleton. naive_solver.
      * intros v. rewrite steps_bind_snoc. cbn [ps_kind step_new].
        rewrite node_step_binds, !elem_of_app, !list_elem_of_singleton. naive_solver.
      * apply runnable_snoc; [done|]. cbn. rewrite node_step_needs. by intros v ?%elem_of_nil.
  - destruct (decide (hop_start hop ∈ bound)) as [Hstart|]; [|done]. injection Hval as <-.
    split; cbn [fst snd].
    + intros v. case_bool_decide as Hin.
      * apply Hb in Hin. rewrite <-Hb. set_solver.
      * specialize (Hb v). rewrite elem_of_app, list_elem_of_singleton. set_solver.
    + intros v Hv. apply steps_bind_snoc. cbn [ps_kind step_new]. rewrite hop_step_binds.
      case_bool_decide; [auto|]. apply elem_of_app in Hv as [?| ->%list_elem_of_singleton]; [auto|].
      right. right. left.
    + intros v. rewrite steps_bind_snoc. cbn [ps_kind step_new]. rewrite hop_step_binds, elem_of_app.
      naive_solver.
    + apply runnable_snoc; [done|]. cbn. rewrite hop_step_needs.
      intros v ->%list_elem_of_singleton. apply Hbinds, Hb, Hstart.
Qed.

Lemma plan_clauses_inv clauses : ∀ bound bound' seen st,
  try_fold validate_clause bound clauses = Ok bound' → plan_inv bound seen st →
  plan_inv bound' (seen ++ concat (map clause_vars clauses)) (foldl plan_clause st clauses).
Proof.
  induction clauses as [|clause clauses IH]; intros bound bound' seen st Hval Hinv; cbn in *.
  { injection Hval as <-. by rewrite app_nil_r. }
  destruct (validate_clause bound clause) as [bound1|] eqn:Hc; [|done].
  rewrite app_assoc. eapply IH; [done|]. by eapply plan_clause_inv.
Qed.

Lemma plan_clause_length st clause : length (plan_clause st clause).1 = S (length st.1).
Proof.
  destruct st as [steps vars], clause as [node|hop]; cbn [plan_clause];
    [case_bool_decide|]; cbn; rewrite length_app; cbn; lia.
Qed.

Lemma plan_clauses_length clauses st :
  length (foldl plan_clause st clauses).1 = (length st.1 + length clauses)%nat.
Proof.
  revert st. induction clauses as [|clause clauses IH]; intros st; cbn; [lia|].
  rewrite IH, plan_clause_length. lia.
Qed.

(** the plan of a valid query has one step for each clause and a return step,
  and can be run in its order: every expansion, check and filter is of a
  variable an earlier step has bound, and so is the return. *)
Theorem plan_runs_in_order q :
  validate q = Ok tt → return_var q ∈ bound_vars q →
  length (ep_steps (for_graph_query q)) = S (length (gq_matches q)) ∧
  runnable [] (ep_steps (for_graph_query q)).
Proof.
  intros Hval Hret. unfold for_graph_query; cbn [ep_steps]. split.
  { rewrite length_app, plan_clauses_length. cbn. lia. }
  unfold validate in Hval. destruct (gq_matches q) as [|[node|] rest] eqn:Hm; [done| |done].
  apply bind_Ok in Hval as (bound & Hval & _).
  assert (try_fold validate_clause ∅ (gq_matches q) = Ok bound) as Hall.
  { rewrite Hm. cbn. by rewrite right_id_L by apply _. }
  assert (plan_inv ∅ [] ([], [])) as H0.
  { split; cbn; try done; intros v; [|by intros ?%elem_of_nil..].
    rewrite elem_of_nil. set_solver. }
  rewrite <-Hm. pose proof (plan_clauses_inv _ _ _ _ _ Hall H0) as [_ _ Hseen Hrun].
  apply runnable_snoc; [done|]. cbn. intros v ->%list_elem_of_singleton. apply Hseen.
  cbn. unfold bound_vars in Hret. revert Hret. generalize (concat (map clause_vars (gq_matches q))).
  intros l. induction l as [|x l IH]; [done|]. cbn [dedup]. destruct l as [|y l]; [done|].
  destruct (decide (x = y)) as [->|]; [intros; right; auto|].
  intros [->|Hin]%elem_of_cons; [left|right; auto].
Qed.
End plan_facts.

(** ** A concrete plan *)

Section plan_witness.
Existing Instance serde_default.

Definition w_plan_query : GraphQuery :=
  {| gq_matches :=
       [MatchNode {| nm_var := {| var_index := 0 |}; nm_labels := ["Person"]; nm_id_filter := None;
                     nm_property_filters := [property_eq "name" (Str "Ada")] |};
        MatchHop {| hop_start := {| var_index := 0 |}; hop_rel_type := Some "WROTE";
                    hop_rel_var := {| var_index := 1 |}; hop_dir := DirOut;
                    hop_end := {| var_index := 2 |}; hop_end_labels := ["Post"] |}];
     gq_where := []; gq_ret := ReturnNode {| var_index := 2 |}; gq_limit := None;
     gq_offset := None |}.

Example plan_text :
  map step_to_string (ep_steps (for_graph_query w_plan_query))
  = ["NodePropertySeek v0 Person.name"; "ExpandOut v0 -[v1:WROTE]-> v2"; "Return Node v2"].
Proof. by vm_compute. Qed.

Lemma plan_runs_in_order_witness :
  length (ep_steps (for_graph_query w_plan_query)) = 3 ∧
  runnable [] (ep_steps (for_graph_query w_plan_query)).
Proof.
  apply (plan_runs_in_order w_plan_query); [by vm_compute|].
  apply (bool_decide_unpack _). by vm_compute.
Defined.
End plan_witness.
