(* ===== verification/Find.v ===== *)
(** * Find queries of a session ([src/src/runtime/session.rs])

    The queries a session builds from command-line terms or from structured
    requests, their predicates checked against the schema, the flat node and
    edge finds, and the traversal find. *)

From S2P Require Export Ops Tx Exec.

Local Open Scope string_scope.

(** ** Queries *)

Inductive SortDirection := SortAsc | SortDesc.
Inductive OutputFormat := FormatDefault | FormatJsonl | FormatTable | FormatGraph.
Inductive SessionTraversalReturn := StrEnd | StrRoot | StrEdge.

#[export] Instance OutputFormat_eq_dec : EqDecision OutputFormat.
Proof. solve_decision. Defined.
#[export] Instance SessionTraversalReturn_eq_dec : EqDecision SessionTraversalReturn.
Proof. solve_decision. Defined.

Definition SortDirection_keyword (d : SortDirection) : string :=
  match d with SortAsc => "asc" | SortDesc => "desc" end.

Record SessionOrder := { so_field : string; so_direction : SortDirection }.

Record SessionTraversalStep := {
  st_direction : Direction;
  st_rel_model_name : option string;
  st_end_model_name : string;
}.

Section queries.
Context `{SerdeNumber}.

Inductive SessionPredicateValue := Lexical (raw : string) | Typed (value : Value).

Record SessionPredicate := {
  sp_field : string;
  sp_op : CompareOp;
  sp_value : SessionPredicateValue;
}.

Record NodeFindQuery := {
  nq_predicates : list SessionPredicate;
  nq_end_predicates : list SessionPredicate;
  nq_edge_predicates : list SessionPredicate;
  nq_traversals : list SessionTraversalStep;
  nq_order : list SessionOrder;
  nq_limit : option N;
  nq_offset : option N;
  nq_id_filter : option Z;
  nq_return_mode : SessionTraversalReturn;
  nq_format : OutputFormat;
}.

Record EdgeFindQuery := {
  eq_predicates : list SessionPredicate;
  eq_order : list SessionOrder;
  eq_limit : option N;
  eq_offset : option N;
  eq_id_filter : option Z;
  eq_from_filter : option Z;
  eq_to_filter : option Z;
  eq_format : OutputFormat;
}.

Definition NodeFindQuery_default : NodeFindQuery :=
  {| nq_predicates := []; nq_end_predicates := []; nq_edge_predicates := [];
     nq_traversals := []; nq_order := []; nq_limit := None; nq_offset := None;
     nq_id_filter := None; nq_return_mode := StrEnd; nq_format := FormatDefault |}.
Definition EdgeFindQuery_default : EdgeFindQuery :=
  {| eq_predicates := []; eq_order := []; eq_limit := None; eq_offset := None;
     eq_id_filter := None; eq_from_filter := None; eq_to_filter := None;
     eq_format := FormatDefault |}.

(** ** Parsing terms *)

Definition OutputFormat_parse (raw : string) : result OutputFormat :=
  if String.eqb raw "default" then Ok FormatDefault
  else if String.eqb raw "jsonl" then Ok FormatJsonl
  else if String.eqb raw "table" then Ok FormatTable
  else if String.eqb raw "graph" then Ok FormatGraph
  else Err (Constraint "format must be one of: default, jsonl, table, graph").

Definition SessionTraversalReturn_parse (raw : string) : result SessionTraversalReturn :=
  if String.eqb raw "end" then Ok StrEnd
  else if String.eqb raw "root" then Ok StrRoot
  else if String.eqb raw "edge" || String.eqb raw "rel" then Ok StrEdge
  else Err (Constraint "return must be one of: root, end, edge").

Definition via_error : GrmError :=
  Constraint "via must use via=<out|in|both>:<LinkName|*>:<EndModel>".

Definition parse_traversal_step (raw : string) : result SessionTraversalStep :=
  match split_char ":" raw with
  | [] => Err via_error
  | dir :: parts =>
      direction ←
        (if String.eqb dir "out" || String.eqb dir "outgoing" then Ok DirOut
         else if String.eqb dir "in" || String.eqb dir "incoming" then Ok DirIn
         else if String.eqb dir "both" then Ok DirBoth
         else Err via_error);
      match parts with
      | [] => Err via_error
      | link :: parts =>
          rel_model_name ←
            (if String.eqb link "*" then Ok None
             else if negb (str_is_empty link) then Ok (Some link) else Err via_error);
          match parts with
          | [end_model] =>
              if negb (str_is_empty end_model)
              then Ok {| st_direction := direction; st_rel_model_name := rel_model_name;
                         st_end_model_name := end_model |}
              else Err via_error
          | _ => Err via_error
          end
      end
  end.

(** The suffixes and the loop are those of [split_filter_key]; the operator
    names it goes through are the operators. *)
Definition split_predicate_key (raw_key : string) : result (string * CompareOp) :=
  let '(field, op) := split_suffix raw_key filter_suffixes in Ok (field, compare_op op).

Definition order_term_segment (st : list SessionOrder * gset string) (segment : string)
    : result (list SessionOrder * gset string) :=
  let '(orders, seen) := st in
  match split_once ":" segment with
  | None => Err (Constraint
      "order must use order=<field>:asc|desc[,<field>:asc|desc ...]")
  | Some (field, direction) =>
      direction ←
        (if String.eqb direction "asc" then Ok SortAsc
         else if String.eqb direction "desc" then Ok SortDesc
         else Err (Constraint "order direction must be asc or desc"));
      if decide (field ∈ seen)
      then Err (Constraint ("duplicate order field '" +:+ field +:+ "'"))
      else Ok ((orders ++ [{| so_field := field; so_direction := direction |}])%list,
               {[field]} ∪ seen)
  end.

Definition parse_order_term (raw : string) : result (list SessionOrder) :=
  fst <$> try_fold order_term_segment ([], ∅) (split_char "," raw).

Definition parse_usize_term (raw subject : string) : result N :=
  ok_or (Z.to_N <$> parse_usize raw)
        (Constraint (subject +:+ " must be a non-negative integer")).

Definition parse_backend_id (raw : string) (id_type : BackendIdType) (subject : string)
    : result Z :=
  match id_type with
  | IdInt64 => ok_or (parse_i64 (str_trim raw)) (Constraint (subject +:+ " must be an int id"))
  | IdUuid => Err (NotSupported
      "uuid runtime session ids are not supported by this backend yet")
  end.

Definition lexical_predicate (key raw_value : string) : result SessionPredicate :=
  '(field, op) ← split_predicate_key key;
  Ok {| sp_field := field; sp_op := op; sp_value := Lexical raw_value |}.

(** The loop body of [parse_node_find_terms]. *)
Definition node_find_term (model : RuntimeNodeModel) (id_type : BackendIdType)
    (query : NodeFindQuery) (term : QueryTerm) : result NodeFindQuery :=
  let raw_key := qt_key term in
  let raw_value := qt_value term in
  let '{| nq_predicates := predicates; nq_end_predicates := ends; nq_edge_predicates := edges;
          nq_traversals := steps; nq_order := order; nq_limit := limit; nq_offset := offset;
          nq_id_filter := id; nq_return_mode := mode; nq_format := format |} := query in
  if String.eqb raw_key "format" then
    format ← OutputFormat_parse raw_value;
    Ok (Build_NodeFindQuery predicates ends edges steps order limit offset id mode format)
  else if String.eqb raw_key "limit" then
    limit ← parse_usize_term raw_value "limit";
    Ok (Build_NodeFindQuery predicates ends edges steps order (Some limit) offset id mode format)
  else if String.eqb raw_key "offset" then
    offset ← parse_usize_term raw_value "offset";
    Ok (Build_NodeFindQuery predicates ends edges steps order limit (Some offset) id mode format)
  else if String.eqb raw_key "order" then
    order ← parse_order_term raw_value;
    Ok (Build_NodeFindQuery predicates ends edges steps order limit offset id mode format)
  else if String.eqb raw_key "via" then
    step ← parse_traversal_step raw_value;
    Ok (Build_NodeFindQuery predicates ends edges (steps ++ [step])%list order limit offset id
                            mode format)
  else if String.eqb raw_key "return" then
    mode ← SessionTraversalReturn_parse raw_value;
    Ok (Build_NodeFindQuery predicates ends edges steps order limit offset id mode format)
  else if String.eqb raw_key "id" || String.eqb raw_key (nm_id_field model) then
    id ← parse_backend_id raw_value id_type raw_key;
    Ok (Build_NodeFindQuery predicates ends edges steps order limit offset (Some id) mode format)
  else if str_starts_with "end." raw_key then
    predicate ← lexical_predicate (trim_start_matches "end." raw_key) raw_value;
    Ok (Build_NodeFindQuery predicates (ends ++ [predicate])%list edges steps order limit offset
                            id mode format)
  else if str_starts_with "edge." raw_key || str_starts_with "rel." raw_key then
    let inner := match str_strip_prefix "edge." raw_key with
                 | Some inner => inner
                 | None => default raw_key (str_strip_prefix "rel." raw_key)
                 end in
    predicate ← lexical_predicate inner raw_value;
    Ok (Build_NodeFindQuery predicates ends (edges ++ [predicate])%list steps order limit offset
                            id mode format)
  else
    predicate ← lexical_predicate raw_key raw_value;
    let field := sp_field predicate in
    if String.eqb field "id" || String.eqb field (nm_id_field model)
    then Err (Constraint ("backend id filter '" +:+ field +:+ "' only supports '='"))
    else Ok (Build_NodeFindQuery (predicates ++ [predicate])%list ends edges steps order limit
                                 offset id mode format).

(** The checks after the loop, which [node_find_query_from_request] also
    makes, with its own word for a step. *)
Definition check_traversal_use (filters_error return_error : string) (query : NodeFindQuery)
    : result NodeFindQuery :=
  match nq_traversals query with
  | [] =>
      match nq_end_predicates query, nq_edge_predicates query with
      | [], [] =>
          if decide (nq_return_mode query = StrEnd) then Ok query
          else Err (Constraint return_error)
      | _, _ => Err (Constraint filters_error)
      end
  | _ => Ok query
  end.

Definition parse_node_find_terms (terms : list QueryTerm) (model : RuntimeNodeModel)
    (id_type : BackendIdType) : result NodeFindQuery :=
  query ← try_fold (node_find_term model id_type) NodeFindQuery_default terms;
  check_traversal_use "traversal filters require at least one via= traversal"
    "return=root|end|edge is only supported with via= traversal" query.

Definition parse_node_find_query (filters : gmap string string) (model : RuntimeNodeModel)
    (id_type : BackendIdType) : result NodeFindQuery :=
  parse_node_find_terms (map (λ e, {| qt_key := e.1; qt_value := e.2 |}) (bt_iter filters))
    model id_type.

(** The loop body of [parse_edge_find_query]. *)
Definition edge_find_filter (model : RuntimeRelModel) (rel_id_type node_id_type : BackendIdType)
    (query : EdgeFindQuery) (filter : string * string) : result EdgeFindQuery :=
  let '(raw_key, raw_value) := filter in
  let '{| eq_predicates := predicates; eq_order := order; eq_limit := limit;
          eq_offset := offset; eq_id_filter := id; eq_from_filter := from;
          eq_to_filter := to; eq_format := format |} := query in
  if String.eqb raw_key "format" then
    format ← OutputFormat_parse raw_value;
    Ok (Build_EdgeFindQuery predicates order limit offset id from to format)
  else if String.eqb raw_key "limit" then
    limit ← parse_usize_term raw_value "limit";
    Ok (Build_EdgeFindQuery predicates order (Some limit) offset id from to format)
  else if String.eqb raw_key "offset" then
    offset ← parse_usize_term raw_value "offset";
    Ok (Build_EdgeFindQuery predicates order limit (Some offset) id from to format)
  else if String.eqb raw_key "order" then
    order ← parse_order_term raw_value;
    Ok (Build_EdgeFindQuery predicates order limit offset id from to format)
  else if String.eqb raw_key "from" then
    from ← parse_backend_id raw_value node_id_type "from";
    Ok (Build_EdgeFindQuery predicates order limit offset id (Some from) to format)
  else if String.eqb raw_key "to" then
    to ← parse_backend_id raw_value node_id_type "to";
    Ok (Build_EdgeFindQuery predicates order limit offset id from (Some to) format)
  else if String.eqb raw_key "id" || String.eqb raw_key (rm_id_field model) then
    id ← parse_backend_id raw_value rel_id_type raw_key;
    Ok (Build_EdgeFindQuery predicates order limit offset (Some id) from to format)
  else
    predicate ← lexical_predicate raw_key raw_value;
    let field := sp_field predicate in
    if String.eqb field "id" || String.eqb field (rm_id_field model)
       || String.eqb field "from" || String.eqb field "to"
    then Err (Constraint ("special filter '" +:+ field +:+ "' only supports '='"))
    else Ok (Build_EdgeFindQuery (predicates ++ [predicate])%list order limit offset id from to
                                 format).

Definition parse_edge_find_query (filters : gmap string string) (model : RuntimeRelModel)
    (rel_id_type node_id_type : BackendIdType) : result EdgeFindQuery :=
  try_fold (edge_find_filter model rel_id_type node_id_type) EdgeFindQuery_default
    (bt_iter filters).

(** ** Structured requests *)

Definition session_predicate (predicate : PropertyPredicate) : SessionPredicate :=
  {| sp_field := pp_field predicate; sp_op := compare_op (pp_op predicate);
     sp_value := Typed (pp_value predicate) |}.
Definition session_sort_direction (d : OrderDirection) : SortDirection :=
  match d with OrderAsc => SortAsc | OrderDesc => SortDesc end.
Definition session_order (order : OrderSpec) : SessionOrder :=
  {| so_field := os_field order; so_direction := session_sort_direction (os_direction order) |}.
Definition session_traversal_direction (d : TraversalDirection) : Direction :=
  match d with TraverseOut => DirOut | TraverseIn => DirIn | TraverseBoth => DirBoth end.
Definition session_traversal_return (m : TraversalReturn) : SessionTraversalReturn :=
  match m with
  | TraverseToEnd => StrEnd | TraverseToRoot => StrRoot | TraverseToEdge => StrEdge
  end.
Definition session_traversal_step (step : TraversalStepRequest) : SessionTraversalStep :=
  {| st_direction := session_traversal_direction (ts_direction step);
     st_rel_model_name := ts_edge_model step; st_end_model_name := ts_end_model step |}.

Definition typed_value_to_raw (value : Value) : result string := value_to_raw value.
Definition typed_id_value_to_i64 (value : Value) (id_type : BackendIdType) (subject : string)
    : result Z :=
  raw ← typed_value_to_raw value; parse_backend_id raw id_type subject.

Definition require_eq_special_filter (predicate : PropertyPredicate) : result unit :=
  if decide (pp_op predicate = PEq) then Ok tt
  else Err (Constraint ("special filter '" +:+ pp_field predicate +:+ "' only supports '='")).

(** The loops over the request's predicates: the id filter and the others. *)
Definition node_request_predicate (model : RuntimeNodeModel) (id_type : BackendIdType)
    (st : option Z * list SessionPredicate) (predicate : PropertyPredicate)
    : result (option Z * list SessionPredicate) :=
  let '(id_filter, predicates) := st in
  if String.eqb (pp_field predicate) "id" || String.eqb (pp_field predicate) (nm_id_field model)
  then
    if negb (bool_decide (pp_op predicate = PEq))
    then Err (Constraint ("backend id filter '" +:+ pp_field predicate
                          +:+ "' only supports '='"))
    else id ← typed_id_value_to_i64 (pp_value predicate) id_type (pp_field predicate);
         Ok (Some id, predicates)
  else Ok (id_filter, (predicates ++ [session_predicate predicate])%list).
Definition edge_request_predicate (model : RuntimeRelModel) (id_type : BackendIdType)
    (st : option Z * list SessionPredicate) (predicate : PropertyPredicate)
    : result (option Z * list SessionPredicate) :=
  let '(id_filter, predicates) := st in
  if String.eqb (pp_field predicate) "id" || String.eqb (pp_field predicate) (rm_id_field model)
  then
    _ ← require_eq_special_filter predicate;
    id ← typed_id_value_to_i64 (pp_value predicate) id_type (pp_field predicate);
    Ok (Some id, predicates)
  else Ok (id_filter, (predicates ++ [session_predicate predicate])%list).

Definition node_find_query_from_request (catalog : SessionModelCatalog) (id_type : BackendIdType)
    (request : NodeFindRequest) : result NodeFindQuery :=
  model ← ok_or (get_node_model catalog (nf_model request)) NotFound;
  '(id_filter, predicates) ←
    try_fold (node_request_predicate model id_type) (nf_id request, []) (nf_predicates request);
  check_traversal_use "traversal filters require at least one traversal step"
    "return=root|end|edge is only supported with traversal steps"
    {| nq_predicates := predicates;
       nq_end_predicates := map session_predicate (nf_end_predicates request);
       nq_edge_predicates := map session_predicate (nf_edge_predicates request);
       nq_traversals := map session_traversal_step (nf_traversals request);
       nq_order := map session_order (nf_order request);
       nq_limit := nf_limit request; nq_offset := nf_offset request;
       nq_id_filter := id_filter;
       nq_return_mode := default StrEnd (session_traversal_return <$> nf_return_mode request);
       nq_format := FormatDefault |}.

Definition edge_find_query_from_request (catalog : SessionModelCatalog) (id_type : BackendIdType)
    (request : EdgeFindRequest) : result EdgeFindQuery :=
  model ← ok_or (get_rel_model catalog (ef_model request)) NotFound;
  '(id_filter, predicates) ←
    try_fold (edge_request_predicate model id_type) (ef_id request, []) (ef_predicates request);
  Ok {| eq_predicates := predicates; eq_order := map session_order (ef_order request);
        eq_limit := ef_limit request; eq_offset := ef_offset request;
        eq_id_filter := id_filter; eq_from_filter := ef_from request;
        eq_to_filter := ef_to request; eq_format := FormatDefault |}.
End queries.

(** ** Predicates against the schema *)

(** A checked predicate: the field, the operator, the value. *)
Abbreviation PropFilter := (string * CompareOp * Value)%type.

Section finds.
Context `{SerdeNumber} `{Formats}.

Definition predicate_value (value : SessionPredicateValue) (value_type : RuntimeValueType)
    (field model_kind model_name : string) : result Value :=
  match value with
  | Lexical raw => parse_value value_type raw
  | Typed value =>
      if validate_value_for_kind (kind_of_type value_type) value then Ok value
      else Err (Constraint ("predicate field '" +:+ field +:+ "' for " +:+ model_kind +:+ " '"
                            +:+ model_name +:+ "' must be " +:+ type_keyword value_type))
  end.

Definition unknown_field (field kind model_name : string) : GrmError :=
  Constraint ("unknown field '" +:+ field +:+ "' for " +:+ kind +:+ " '" +:+ model_name +:+ "'").

(** The loop body [parse_model_predicates] and [parse_rel_predicates] share. *)
Definition parse_predicate (kind model_name : string) (fields : list RuntimeField)
    (predicate : SessionPredicate) : result PropFilter :=
  field ← ok_or (find_field fields (sp_field predicate))
                (unknown_field (sp_field predicate) kind model_name);
  value ← predicate_value (sp_value predicate) (field_type field) (sp_field predicate)
                          kind model_name;
  Ok (sp_field predicate, sp_op predicate, value).

Definition parse_model_predicates (predicates : list SessionPredicate) (model : RuntimeNodeModel)
    : result (list PropFilter) :=
  mapM (parse_predicate "model" (nm_name model) (nm_fields model)) predicates.
Definition parse_rel_predicates (predicates : list SessionPredicate) (model : RuntimeRelModel)
    : result (list PropFilter) :=
  mapM (parse_predicate "link" (rm_name model) (rm_fields model)) predicates.

(** The loop body of [parse_model_filters] and [parse_rel_filters], which skip
    the special keys. *)
Definition parse_filter (special : string → bool) (kind model_name : string)
    (fields : list RuntimeField) (parsed : Props) (filter : string * string) : result Props :=
  let '(key, raw) := filter in
  if special key then Ok parsed
  else
    field ← ok_or (find_field fields key) (unknown_field key kind model_name);
    value ← parse_value (field_type field) raw;
    Ok (<[key := value]> parsed).

Definition parse_model_filters (filters : gmap string string) (model : RuntimeNodeModel)
    : result Props :=
  try_fold (parse_filter (λ key, String.eqb key "id" || String.eqb key (nm_id_field model))
                         "model" (nm_name model) (nm_fields model)) ∅ (bt_iter filters).
Definition parse_rel_filters (filters : gmap string string) (model : RuntimeRelModel)
    : result Props :=
  try_fold (parse_filter (λ key, String.eqb key "id" || String.eqb key (rm_id_field model)
                                 || String.eqb key "from" || String.eqb key "to")
                         "link" (rm_name model) (rm_fields model)) ∅ (bt_iter filters).

Definition matches_predicate (props : Props) (f : PropFilter) : bool :=
  let '(key, op, value) := f in
  match props !! key with
  | Some stored => compare_typed_values stored op value
  | None => false
  end.
Definition matches_predicates (props : Props) (filters : list PropFilter) : bool :=
  forallb (matches_predicate props) filters.

(** ** Ordering and paging *)

(** [slice::sort_by] is a stable sort: for a comparison that is a total
    preorder its result is the one stable sorted permutation, which insertion
    computes too. *)
Fixpoint insert_by {A} (cmp : A → A → comparison) (x : A) (l : list A) : list A :=
  match l with
  | [] => [x]
  | y :: k => match cmp x y with Gt => y :: insert_by cmp x k | _ => x :: l end
  end.
Definition sort_by {A} (cmp : A → A → comparison) (l : list A) : list A :=
  foldr (insert_by cmp) [] l.

Definition compare_orderable_values (l r : Value) : comparison :=
  default Eq (compare_typed_value_order l r).
Definition compare_optional_values (l r : option Value) : comparison :=
  match l, r with
  | Some l, Some r => compare_orderable_values l r
  | Some _, None => Lt
  | None, Some _ => Gt
  | None, None => Eq
  end.

(** [Ordering::reverse] for descending order. *)
Definition directed (d : SortDirection) (c : comparison) : comparison :=
  match d with SortAsc => c | SortDesc => CompOpp c end.

(** The loop over the orders: the first one that tells the two apart. *)
Fixpoint first_order {A} (key_cmp : string → A → A → comparison) (orders : list SessionOrder)
    (l r : A) : comparison :=
  match orders with
  | [] => Eq
  | order :: orders =>
      match directed (so_direction order) (key_cmp (so_field order) l r) with
      | Eq => first_order key_cmp orders l r
      | c => c
      end
  end.

Definition node_key_compare (model : RuntimeNodeModel) (field : string) (l r : StoredNode)
    : comparison :=
  if String.eqb field "id" || String.eqb field (nm_id_field model) then (sn_id l ?= sn_id r)%Z
  else compare_optional_values (sn_props l !! field) (sn_props r !! field).
Definition rel_key_compare (model : RuntimeRelModel) (field : string) (l r : StoredRel)
    : comparison :=
  if String.eqb field "id" then (sr_id l ?= sr_id r)%Z
  else if String.eqb field "from" then (sr_from l ?= sr_from r)%Z
  else if String.eqb field "to" then (sr_to l ?= sr_to r)%Z
  else if String.eqb field (rm_id_field model) then (sr_id l ?= sr_id r)%Z
  else compare_optional_values (sr_props l !! field) (sr_props r !! field).

Definition compare_node_order_values (model : RuntimeNodeModel) (orders : list SessionOrder)
    : StoredNode → StoredNode → comparison := first_order (node_key_compare model) orders.
Definition compare_rel_order_values (model : RuntimeRelModel) (orders : list SessionOrder)
    : StoredRel → StoredRel → comparison := first_order (rel_key_compare model) orders.

Definition unknown_order_field (field kind model_name : string) : GrmError :=
  Constraint ("unknown order field '" +:+ field +:+ "' for " +:+ kind +:+ " '" +:+ model_name
              +:+ "'").

Definition validate_node_order_fields (model : RuntimeNodeModel) (orders : list SessionOrder)
    : result unit :=
  try_fold (λ _ order,
    if String.eqb (so_field order) "id" || String.eqb (so_field order) (nm_id_field model)
    then Ok tt
    else match find_field (nm_fields model) (so_field order) with
         | Some _ => Ok tt
         | None => Err (unknown_order_field (so_field order) "model" (nm_name model))
         end) tt orders.
Definition validate_rel_order_fields (model : RuntimeRelModel) (orders : list SessionOrder)
    : result unit :=
  try_fold (λ _ order,
    if String.eqb (so_field order) "id" || String.eqb (so_field order) (rm_id_field model)
       || String.eqb (so_field order) "from" || String.eqb (so_field order) "to"
    then Ok tt
    else match find_field (rm_fields model) (so_field order) with
         | Some _ => Ok tt
         | None => Err (unknown_order_field (so_field order) "link" (rm_name model))
         end) tt orders.

Definition sort_nodes (ns : list StoredNode) (model : RuntimeNodeModel)
    (orders : list SessionOrder) : result (list StoredNode) :=
  _ ← validate_node_order_fields model orders;
  Ok (sort_by (compare_node_order_values model orders) ns).
Definition sort_relationships (rs : list StoredRel) (model : RuntimeRelModel)
    (orders : list SessionOrder) : result (list StoredRel) :=
  _ ← validate_rel_order_fields model orders;
  Ok (sort_by (compare_rel_order_values model orders) rs).

(** [if !orders.is_empty() { sort(..)? }] *)
Definition sort_if {A} (orders : list SessionOrder) (sort : list A → result (list A))
    (items : list A) : result (list A) :=
  match orders with [] => Ok items | _ => sort items end.

(** [apply_offset_limit] has the body of [dsl::apply_paging]. *)
Definition apply_offset_limit {A} (items : list A) (offset limit : option N) : list A :=
  let start := default 0%N offset in
  if (len items <=? start)%N then []
  else
    let end_ := match limit with
                | Some limit => N.min (saturating_add start limit) (len items)
                | None => len items
                end in
    take (N.to_nat (end_ - start)) (drop (N.to_nat start) items).

(** ** Flat finds *)

(** The first equality on a value the property index may hold. *)
Definition indexed_property (filters : list PropFilter) : option (string * Value) :=
  (λ f : PropFilter, (f.1.1, f.2)) <$>
  List.find (λ f : PropFilter, bool_decide (f.1.2 = OpEq) && negb (is_object f.2)) filters.

Definition find_nodes_with_query (catalog : SessionModelCatalog) (model_name : string)
    (query : NodeFindQuery) (s : GraphStore) : result (list StoredNode) * GraphStore :=
  match (model ← ok_or (get_node_model catalog model_name) NotFound;
         prop_filters ← parse_model_predicates (nq_predicates query) model;
         Ok (model, prop_filters)) with
  | Err e => (Err e, s)
  | Ok (model, prop_filters) =>
      let '(ns, s) := snapshot_nodes_filtered (nm_label model) (nq_id_filter query)
                        (indexed_property prop_filters) s in
      let ns := filter (λ node, matches_predicates (sn_props node) prop_filters) ns in
      (ns ← sort_if (nq_order query) (λ ns, sort_nodes ns model (nq_order query)) ns;
       Ok (apply_offset_limit ns (nq_offset query) (nq_limit query)), s)
  end.

Definition find_relationships_with_query (catalog : SessionModelCatalog) (model_name : string)
    (query : EdgeFindQuery) (s : GraphStore) : result (list StoredRel) :=
  model ← ok_or (get_rel_model catalog model_name) NotFound;
  prop_filters ← parse_rel_predicates (eq_predicates query) model;
  let rs := snapshot_relationships_filtered (rm_rel_type model) (eq_id_filter query)
              (eq_from_filter query) (eq_to_filter query) s in
  let rs := filter (λ rel, matches_predicates (sr_props rel) prop_filters) rs in
  rs ← sort_if (eq_order query) (λ rs, sort_relationships rs model (eq_order query)) rs;
  Ok (apply_offset_limit rs (eq_offset query) (eq_limit query)).

(** ** Traversal finds *)

Record RuntimeTraversalPlan := {
  tp_graph_query : GraphQuery;
  tp_root_var : VarId;
  tp_end_var : VarId;
  tp_return_rel_var : VarId;
  tp_end_model : RuntimeNodeModel;
  tp_return_rel_model : RuntimeRelModel;
}.

Definition traversal_step_matches_models (start_model end_model : RuntimeNodeModel)
    (rel_model : RuntimeRelModel) (dir : Direction) : bool :=
  let out := String.eqb (rm_from_model rel_model) (nm_name start_model)
             && String.eqb (rm_to_model rel_model) (nm_name end_model) in
  let in_ := String.eqb (rm_to_model rel_model) (nm_name start_model)
             && String.eqb (rm_from_model rel_model) (nm_name end_model) in
  match dir with DirOut => out | DirIn => in_ | DirBoth => out || in_ end.

Definition direction_debug (dir : Direction) : string :=
  match dir with DirOut => "Out" | DirIn => "In" | DirBoth => "Both" end.

Definition validate_traversal_step_models (start_model end_model : RuntimeNodeModel)
    (rel_model : RuntimeRelModel) (dir : Direction) : result unit :=
  if traversal_step_matches_models start_model end_model rel_model dir then Ok tt
  else Err (Constraint ("link '" +:+ rm_name rel_model +:+ "' does not connect "
                        +:+ nm_name start_model +:+ " to " +:+ nm_name end_model +:+ " in "
                        +:+ direction_debug dir +:+ " direction")).

Definition resolve_any_traversal_model (catalog : SessionModelCatalog)
    (start_model end_model : RuntimeNodeModel) (dir : Direction)
    : result (option RuntimeRelModel) :=
  match filter (λ model, traversal_step_matches_models start_model end_model model dir)
               (list_rel_models catalog) with
  | [] => Err (Constraint ("no link connects " +:+ nm_name start_model +:+ " to "
                           +:+ nm_name end_model +:+ " in the requested direction"))
  | [model] => Ok (Some model)
  | _ => Err (Constraint ("multiple links connect " +:+ nm_name start_model +:+ " to "
                          +:+ nm_name end_model
                          +:+ "; use an explicit link name instead of '*'"))
  end.

(** What the loop over the steps carries. *)
Record PlanState := {
  ps_vg : VarGen;
  ps_matches : list MatchClause;
  ps_current_var : VarId;
  ps_current_model : RuntimeNodeModel;
  ps_last_rel_var : option VarId;
  ps_last_rel_model : option RuntimeRelModel;
}.

Definition plan_step (catalog : SessionModelCatalog) (st : PlanState)
    (step : SessionTraversalStep) : result PlanState :=
  let start_model := ps_current_model st in
  end_model ← ok_or (get_node_model catalog (st_end_model_name step))
    (Constraint ("unknown traversal end model '" +:+ st_end_model_name step +:+ "'"));
  rel_model ←
    match st_rel_model_name step with
    | Some name =>
        Some <$> ok_or (get_rel_model catalog name)
                       (Constraint ("unknown traversal link '" +:+ name +:+ "'"))
    | None => resolve_any_traversal_model catalog start_model end_model (st_direction step)
    end;
  _ ← match rel_model with
      | Some rel_model =>
          validate_traversal_step_models start_model end_model rel_model (st_direction step)
      | None => Ok tt
      end;
  let '(rel_var, vg) := Dsl.fresh (ps_vg st) in
  let '(end_var, vg) := Dsl.fresh vg in
  Ok {| ps_vg := vg;
        ps_matches := (ps_matches st ++
          [MatchHop {| hop_start := ps_current_var st; hop_rel_type := rm_rel_type <$> rel_model;
                       hop_rel_var := rel_var; hop_dir := st_direction step; hop_end := end_var;
                       hop_end_labels := [nm_label end_model] |};
           MatchNode {| nm_var := end_var; nm_labels := [nm_label end_model];
                        nm_id_filter := None; nm_property_filters := [] |}])%list;
        ps_current_var := end_var; ps_current_model := end_model;
        ps_last_rel_var := Some rel_var; ps_last_rel_model := rel_model |}.

Definition property_filter (f : PropFilter) : PropertyFilter :=
  {| pf_key := f.1.1; pf_op := f.1.2; pf_value := f.2 |}.

Definition build_runtime_graph_query (catalog : SessionModelCatalog)
    (root_model : RuntimeNodeModel) (query : NodeFindQuery) : result RuntimeTraversalPlan :=
  let '(root_var, vg) := Dsl.fresh VarGen_default in
  root_filters ← parse_model_predicates (nq_predicates query) root_model;
  st ← try_fold (plan_step catalog)
    {| ps_vg := vg;
       ps_matches := [MatchNode {| nm_var := root_var; nm_labels := [nm_label root_model];
                                   nm_id_filter := nq_id_filter query;
                                   nm_property_filters := map property_filter root_filters |}];
       ps_current_var := root_var; ps_current_model := root_model;
       ps_last_rel_var := None; ps_last_rel_model := None |} (nq_traversals query);
  return_value ←
    match nq_return_mode query with
    | StrRoot => Ok (ReturnNode root_var)
    | StrEnd => Ok (ReturnNode (ps_current_var st))
    | StrEdge => ReturnRel <$> ok_or (ps_last_rel_var st)
                   (Constraint "return=edge requires at least one traversal hop")
    end;
  let graph_query := {| gq_matches := ps_matches st; gq_where := []; gq_ret := return_value;
                        gq_limit := None; gq_offset := None |} in
  _ ← validate graph_query;
  return_rel_model ← ok_or (ps_last_rel_model st)
    (Constraint "traversal query requires at least one traversal hop");
  Ok {| tp_graph_query := graph_query; tp_root_var := root_var;
        tp_end_var := ps_current_var st;
        tp_return_rel_var := default root_var (ps_last_rel_var st);
        tp_end_model := ps_current_model st; tp_return_rel_model := return_rel_model |}.

(** [stored_node_from_kernel], [stored_rel_from_kernel] after the projections. *)
Definition stored_node_from_kernel (node : NodeValue) : StoredNode :=
  {| sn_id := nv_id node; sn_labels := nv_labels node; sn_props := nv_props node |}.
Definition stored_rel_from_kernel (rel : RelValue) : StoredRel :=
  {| sr_id := rv_id rel; sr_rel_type := rv_ty rel; sr_from := rv_from rel; sr_to := rv_to rel;
     sr_props := rv_props rel |}.
Definition kernel_rel (value : KernelValue) : option RelValue :=
  match value with KRel rel => Some rel | _ => None end.

Definition node_at (row : QueryRow) (v : VarId) : option NodeValue := row_get row v ≫= as_node.
Definition rel_at_var (row : QueryRow) (v : VarId) : option RelValue := row_get row v ≫= kernel_rel.

(** The three filters of the rows; the last two let everything through when
    they have no predicate. *)
Definition row_passes (plan : RuntimeTraversalPlan)
    (root_filters end_filters edge_filters : list PropFilter) (row : QueryRow) : bool :=
  match node_at row (tp_root_var plan) with
  | Some node => matches_predicates (nv_props node) root_filters
  | None => false
  end &&
  match end_filters, node_at row (tp_end_var plan) with
  | [], _ => true
  | _, Some node => matches_predicates (nv_props node) end_filters
  | _, None => false
  end &&
  match edge_filters, rel_at_var row (tp_return_rel_var plan) with
  | [], _ => true
  | _, Some rel => matches_predicates (rv_props rel) edge_filters
  | _, None => false
  end.

Inductive SessionQueryResult :=
  | QNodes (model : RuntimeNodeModel) (rows : list StoredNode)
  | QEdges (model : RuntimeRelModel) (rows : list StoredRel)
  | QGraph (plan : RuntimeTraversalPlan) (rows : list QueryRow)
           (return_mode : SessionTraversalReturn).

Definition row_count (r : SessionQueryResult) : N :=
  match r with
  | QNodes _ rows => len rows | QEdges _ rows => len rows | QGraph _ rows _ => len rows
  end.

(** [compare_optional_nodes] and [compare_optional_rels] *)
Definition compare_optional {A} (cmp : A → A → comparison) (l r : option A) : comparison :=
  match l, r with
  | Some l, Some r => cmp l r
  | Some _, None => Lt
  | None, Some _ => Gt
  | None, None => Eq
  end.

Definition returned_node (gq : GraphQuery) (row : QueryRow) : option StoredNode :=
  stored_node_from_kernel <$> (get_returned row gq ≫= as_node).
Definition returned_rel (gq : GraphQuery) (row : QueryRow) : option StoredRel :=
  stored_rel_from_kernel <$> (get_returned row gq ≫= kernel_rel).

Definition sort_query_rows_by_node_return (rows : list QueryRow) (gq : GraphQuery)
    (model : RuntimeNodeModel) (orders : list SessionOrder) : result (list QueryRow) :=
  _ ← validate_node_order_fields model orders;
  Ok (sort_by (λ l r, compare_optional (compare_node_order_values model orders)
                        (returned_node gq l) (returned_node gq r)) rows).
Definition sort_query_rows_by_rel_return (rows : list QueryRow) (gq : GraphQuery)
    (model : RuntimeRelModel) (orders : list SessionOrder) : result (list QueryRow) :=
  _ ← validate_rel_order_fields model orders;
  Ok (sort_by (λ l r, compare_optional (compare_rel_order_values model orders)
                        (returned_rel gq l) (returned_rel gq r)) rows).

(** The part of [execute_node_traversal_query] after the rows are filtered. *)
Definition traversal_result (root_model : RuntimeNodeModel) (plan : RuntimeTraversalPlan)
    (query : NodeFindQuery) (filtered_rows : list QueryRow) : result SessionQueryResult :=
  let gq := tp_graph_query plan in
  let model := if decide (nq_return_mode query = StrRoot) then root_model
               else tp_end_model plan in
  let page {A} (rows : list A) := apply_offset_limit rows (nq_offset query) (nq_limit query) in
  if decide (nq_format query = FormatGraph) then
    rows ← match return_kind gq with
           | KindNode => sort_if (nq_order query) (λ rows,
               sort_query_rows_by_node_return rows gq model (nq_order query)) filtered_rows
           | KindRel => sort_if (nq_order query) (λ rows,
               sort_query_rows_by_rel_return rows gq (tp_return_rel_model plan)
                                             (nq_order query)) filtered_rows
           end;
    Ok (QGraph plan (page rows) (nq_return_mode query))
  else
    match return_kind gq with
    | KindNode =>
        rows ← sort_if (nq_order query) (λ rows, sort_nodes rows model (nq_order query))
                       (omap (returned_node gq) filtered_rows);
        Ok (QNodes model (page rows))
    | KindRel =>
        rows ← sort_if (nq_order query)
                       (λ rows, sort_relationships rows (tp_return_rel_model plan) (nq_order query))
                       (omap (returned_rel gq) filtered_rows);
        Ok (QEdges (tp_return_rel_model plan) (page rows))
    end.

Definition execute_node_traversal_query (catalog : SessionModelCatalog) (model_name : string)
    (query : NodeFindQuery) (s : GraphStore) : result SessionQueryResult * GraphStore :=
  match (root_model ← ok_or (get_node_model catalog model_name) NotFound;
         root_filters ← parse_model_predicates (nq_predicates query) root_model;
         plan ← build_runtime_graph_query catalog root_model query;
         Ok (root_model, root_filters, plan)) with
  | Err e => (Err e, s)
  | Ok (root_model, root_filters, plan) =>
      let '(res, s) := execute_graph_query (tp_graph_query plan) s tx_new in
      match res with
      | Err e => (Err e, s)
      | Ok res =>
          let s := (tx_commit s tx_new).1 in
          (end_filters ← parse_model_predicates (nq_end_predicates query) (tp_end_model plan);
           edge_filters ← parse_rel_predicates (nq_edge_predicates query)
                                               (tp_return_rel_model plan);
           traversal_result root_model plan query
             (filter (λ row, row_passes plan root_filters end_filters edge_filters row)
                     (qr_rows res)), s)
      end
  end.

Definition execute_node_query (catalog : SessionModelCatalog) (model_name : string)
    (query : NodeFindQuery) (s : GraphStore) : result SessionQueryResult * GraphStore :=
  match nq_traversals query with
  | [] =>
      let '(rows, s) := find_nodes_with_query catalog model_name query s in
      (rows ← rows;
       model ← ok_or (get_node_model catalog model_name) NotFound;
       Ok (QNodes model rows), s)
  | _ => execute_node_traversal_query catalog model_name query s
  end.

(** ** The session's find operations *)

Inductive SessionFindResult := FoundNodes (ns : list StoredNode) | FoundEdges (rs : list StoredRel).

Definition structured_result (r : SessionQueryResult) : result SessionFindResult :=
  match r with
  | QNodes _ rows => Ok (FoundNodes rows)
  | QEdges _ rows => Ok (FoundEdges rows)
  | QGraph _ _ _ => Err (NotSupported "graph format is not supported by structured find results")
  end.

(** [?] on a fallible step that comes before one on the store. *)
Definition then_find {A B} (r : result A) (k : A → GraphStore → result B * GraphStore)
    (s : GraphStore) : result B * GraphStore :=
  match r with Ok a => k a s | Err e => (Err e, s) end.

Definition node_find (catalog : SessionModelCatalog) (id_type : BackendIdType)
    (request : NodeFindRequest) : GraphStore → result SessionFindResult * GraphStore :=
  then_find (node_find_query_from_request catalog id_type request) (λ query s,
    let '(r, s) := execute_node_query catalog (nf_model request) query s in
    (r ≫= structured_result, s)).

Definition find_nodes_with_terms (catalog : SessionModelCatalog) (id_type : BackendIdType)
    (model_name : string) (terms : list QueryTerm)
    : GraphStore → result SessionFindResult * GraphStore :=
  then_find (model ← ok_or (get_node_model catalog model_name) NotFound;
             parse_node_find_terms terms model id_type) (λ query s,
    let '(r, s) := execute_node_query catalog model_name query s in
    (r ≫= structured_result, s)).

Definition find_nodes (catalog : SessionModelCatalog) (id_type : BackendIdType)
    (model_name : string) (filters : gmap string string)
    : GraphStore → result (list StoredNode) * GraphStore :=
  then_find (model ← ok_or (get_node_model catalog model_name) NotFound;
             parse_node_find_query filters model id_type) (λ query s,
    find_nodes_with_query catalog model_name query s).

Definition edge_find (catalog : SessionModelCatalog) (id_type : BackendIdType)
    (request : EdgeFindRequest) (s : GraphStore) : result (list StoredRel) :=
  query ← edge_find_query_from_request catalog id_type request;
  find_relationships_with_query catalog (ef_model request) query s.

Definition find_relationships (catalog : SessionModelCatalog) (rel_id_type node_id_type : BackendIdType)
    (model_name : string) (filters : gmap string string) (s : GraphStore)
    : result (list StoredRel) :=
  model ← ok_or (get_rel_model catalog model_name) NotFound;
  query ← parse_edge_find_query filters model rel_id_type node_id_type;
  find_relationships_with_query catalog model_name query s.
End finds.

(** ** A flat find is a scan *)

Section flat.
Context `{SerdeNumber} `{!NumberLaws} `{Formats} `{!FormatLaws}.
Implicit Types (s t : GraphStore) (filters : list PropFilter).

Lemma validated_indexable kind v :
  validate_value_for_kind kind v = true → is_object v = false →
  property_value_is_indexable v = true.
Proof.
  intros Hv Ho. apply bool_decide_eq_true.
  assert (∀ n, is_Some (number_as_i64 n) ∨ is_Some (number_as_f64 n) →
    is_Some (ValueKey_from_value (Num n))) as Hnum.
  { intros n Hn. cbn. destruct (number_as_i64 n); [by eexists|].
    destruct (number_as_u64 n); [by eexists|]. destruct Hn as [[? ?]|[x ->]]; [done|by eexists]. }
  destruct kind; cbn in Hv; try (destruct v; try done; by eexists).
  - apply bool_decide_eq_true in Hv. destruct v; try (by destruct Hv). apply Hnum. by left.
  - destruct v as [| |n| | |]; try done. cbn in Hv. apply andb_true_iff in Hv as [_ Hv].
    apply Hnum. right. destruct (number_as_f64 n); [by eexists|done].
Qed.

Lemma parsed_indexable ty raw v :
  parse_value ty raw = Ok v → is_object v = false → property_value_is_indexable v = true.
Proof.
  intros Hp Ho. unfold parse_value in Hp. destruct (decide (kind_of_type ty = KDateTime)) as [Hk|Hk].
  - rewrite Hk in Hp. apply bind_Ok in Hp as (x & _ & [= <-]). done.
  - eapply validated_indexable; [|done]. eapply parsed_values_ok; [done|]. by intros.
Qed.

(** The equality the index is asked for is one of the filters, on a value it
    may hold. *)
Lemma indexed_property_ok predicates model filters key value :
  parse_model_predicates predicates model = Ok filters →
  indexed_property filters = Some (key, value) →
  (key, OpEq, value) ∈ filters ∧ property_value_is_indexable value = true.
Proof.
  intros Hf Hi. unfold indexed_property in Hi. apply fmap_Some in Hi as ([[k op] v] & Hfind & Heq).
  cbn in Heq. injection Heq as -> ->.
  apply List.find_some in Hfind as [Hin Hop]. apply list_elem_of_In in Hin. cbn in Hop.
  apply andb_true_iff in Hop as [Hop%bool_decide_eq_true Ho%negb_true_iff]. subst op.
  split; [done|]. apply mapM_Ok in Hf.
  apply list_elem_of_lookup in Hin as [i Hi].
  destruct (Forall2_lookup_r _ _ _ _ _ Hf Hi) as (p & _ & Hp).
  unfold parse_predicate in Hp. apply bind_Ok in Hp as (field & _ & Hp).
  apply bind_Ok in Hp as (w & Hw & [= _ _ ->]).
  unfold predicate_value in Hw. destruct (sp_value p) as [raw|typed].
  - by eapply parsed_indexable.
  - destruct (validate_value_for_kind _ typed) eqn:Hv; [|done]. injection Hw as ->.
    by eapply validated_indexable.
Qed.

Lemma matches_has_value node filters key value :
  matches_predicates (sn_props node) filters = true → (key, OpEq, value) ∈ filters →
  node_has_value key value node = true.
Proof.
  unfold matches_predicates. rewrite forallb_forall. intros Hall Hin.
  specialize (Hall _ (proj1 (list_elem_of_In _ _) Hin)). cbn in Hall. unfold node_has_value.
  destruct (sn_props node !! key) as [v|]; [|done]. unfold compare_typed_values in Hall.
  by destruct (negb _).
Qed.

(** What a flat find asks of a node. *)
Definition found_by (model : RuntimeNodeModel) (query : NodeFindQuery) filters (node : StoredNode)
    : bool :=
  bool_decide (nm_label model ∈ sn_labels node)
  && match nq_id_filter query with Some id => bool_decide (sn_id node = id) | None => true end
  && matches_predicates (sn_props node) filters.

Lemma has_label_existsb label node :
  existsb (λ l, String.eqb l label) (sn_labels node) = bool_decide (label ∈ sn_labels node).
Proof.
  apply eq_true_iff_eq. rewrite existsb_exists, bool_decide_eq_true. split.
  - intros (l & Hl & ->%String.eqb_eq). by apply list_elem_of_In.
  - intros Hl. exists label. rewrite String.eqb_refl. by apply list_elem_of_In in Hl.
Qed.

Lemma filter_bool_ext {A} (f g : A → bool) (l : list A) :
  (∀ x, x ∈ l → f x = g x) → filter (λ x, f x) l = filter (λ x, g x) l.
Proof.
  induction l as [|x l IH]; intros Hfg; [done|]. rewrite !filter_cons, (Hfg x) by by left.
  rewrite IH by (intros y Hy; apply Hfg; by right). done.
Qed.

Lemma filter_bool_singleton {A} (f : A → bool) (x : A) :
  filter (λ x, f x) [x] = if f x then [x] else [].
Proof. rewrite filter_cons. by destruct (f x). Qed.

Lemma snapshot_nodes_scan model query filters s :
  store_wf s → parse_model_predicates (nq_predicates query) model = Ok filters →
  (∀ key value, indexed_property filters = Some (key, value) → no_zero_clash key value s) →
  let '(ns, t) := snapshot_nodes_filtered (nm_label model) (nq_id_filter query)
                    (indexed_property filters) s in
  store_wf t ∧ same_graph s t ∧
  filter (λ node, matches_predicates (sn_props node) filters) ns
  = filter (λ node, found_by model query filters node) (bt_values (nodes s)).
Proof.
  intros Hwf Hf Hz. unfold snapshot_nodes_filtered, found_by.
  destruct (nq_id_filter query) as [id|].
  - split_and!; [done..|]. rewrite <-(candidates_scan s _ [id]); [| done|].
    + cbn [omap list_omap]. destruct (nodes s !! id) as [node|] eqn:Hid; [|done].
      rewrite has_label_existsb, (filter_bool_singleton (λ node, _ && _)).
      rewrite (bool_decide_true (sn_id node = id)) by by apply (wf_node_id _ Hwf).
      destruct (bool_decide (nm_label model ∈ sn_labels node)); [|done].
      by rewrite (filter_bool_singleton (λ node, _)).
    + split; [repeat constructor|apply NoDup_singleton|]. intros i node Hi Hm.
      rewrite !andb_true_iff in Hm. destruct Hm as [[_ Hm%bool_decide_eq_true] _].
      apply list_elem_of_singleton. rewrite <-Hm. symmetry. by apply (wf_node_id _ Hwf).
  - assert (∀ ids t, store_wf t → same_graph s t → StronglySorted Z.le ids → NoDup ids →
      (∀ i, i ∈ ids → ∃ node, nodes s !! i = Some node ∧ nm_label model ∈ sn_labels node) →
      (∀ i node, nodes s !! i = Some node → nm_label model ∈ sn_labels node →
         matches_predicates (sn_props node) filters = true → i ∈ ids) →
      store_wf t ∧ same_graph s t ∧
      filter (λ node, matches_predicates (sn_props node) filters) (omap (λ id, nodes t !! id) ids)
      = filter (λ node, bool_decide (nm_label model ∈ sn_labels node) && true
                        && matches_predicates (sn_props node) filters) (bt_values (nodes s)))
      as Hids.
    { intros ids t Hwft Hsame Hs Hnd Hlab Hcomp. split_and!; [done..|].
      destruct Hsame as [<- _]. rewrite <-(candidates_scan s _ ids); [|done|].
      - apply (filter_bool_ext (λ node, _) (λ node, _)). intros node Hnode.
        apply list_elem_of_omap in Hnode as (i & Hi & Hni). destruct (Hlab i Hi) as (node' & Hn' & Hl).
        assert (node' = node) as -> by congruence. by rewrite bool_decide_true.
      - split; [done|done|]. intros i node Hi Hm. rewrite !andb_true_iff in Hm.
        destruct Hm as [[Hl%bool_decide_eq_true _] Hm]. by eapply Hcomp. }
    destruct (indexed_property filters) as [[key value]|] eqn:Hi.
    + destruct (indexed_property_ok _ _ _ _ _ Hf Hi) as [Hin Hix].
      pose proof (label_property_ids (nm_label model) key value s Hwf Hix (Hz _ _ eq_refl)) as Hl.
      destruct (node_ids_by_label_property _ _ _ s) as [ids t].
      destruct Hl as (Hwft & Hsame & Hs & Hnd & Hel). apply Hids; try done.
      * intros i (node & ? & ? & _)%Hel. eauto.
      * intros i node Hn Hl Hm. apply Hel. eauto using matches_has_value.
    + apply Hids; [done|done|apply idx_ids_sorted|apply idx_ids_NoDup| |].
      * intros i Hi'. by apply (elem_of_idx_ids _ _ _ _ (wf_label _ Hwf)) in Hi'.
      * intros i node Hn Hl _. apply (elem_of_idx_ids _ _ _ _ (wf_label _ Hwf)). by exists node.
Qed.

(** a find without traversals answers what a scan of the nodes does: those
    with the model's label (and the id) that satisfy every predicate, in id
    order, then sorted and paged; it changes at most the lazy index. *)
Theorem flat_find_is_scan (c : SessionModelCatalog) name model query filters s :
  store_wf s → get_node_model c name = Some model →
  parse_model_predicates (nq_predicates query) model = Ok filters →
  (∀ key value, indexed_property filters = Some (key, value) → no_zero_clash key value s) →
  let '(r, t) := find_nodes_with_query c name query s in
  store_wf t ∧ same_graph s t ∧
  r = (ns ← sort_if (nq_order query) (λ ns, sort_nodes ns model (nq_order query))
              (filter (λ node, found_by model query filters node) (bt_values (nodes s)));
       Ok (apply_offset_limit ns (nq_offset query) (nq_limit query))).
Proof.
  intros Hwf Hm Hf Hz. unfold find_nodes_with_query. rewrite Hm. cbn -[parse_model_predicates].
  rewrite Hf. cbn -[snapshot_nodes_filtered sort_if].
  pose proof (snapshot_nodes_scan model query filters s Hwf Hf Hz) as Hs.
  destruct (snapshot_nodes_filtered _ _ _ s) as [ns t]. destruct Hs as (? & ? & ->). done.
Qed.
End flat.
