(* ===== verification/Explain.v ===== *)
(** * Explaining and profiling finds ([src/src/runtime/session.rs])

    The plan a session explains a find as, the run it profiles, and their JSON.
    A profile reads the clock many times: [clock n] is the [n]-th reading of a
    request, in nanoseconds. *)

From S2P Require Export Plan Find.

Local Open Scope string_scope.

(** ** Durations *)

(** [{:.3}] of an [f64]: the nearest multiple of a thousandth, ties to even. *)
Definition round_half_even (n d : Z) : Z :=
  let q := (n / d)%Z in
  let r := (2 * (n mod d))%Z in
  if (r <? d)%Z then q else if (d <? r)%Z then (q + 1)%Z else (q + q mod 2)%Z.
Definition fixed3_digits (n : Z) : string :=
  u_to_string (n / 1000) +:+ "." +:+ u_to_string (n mod 1000 / 100)
  +:+ u_to_string (n mod 100 / 10) +:+ u_to_string (n mod 10).
Definition fixed3 (x : f64) : string :=
  match x with
  | S754_zero s => (if s then "-" else "") +:+ "0.000"
  | S754_infinity s => (if s then "-" else "") +:+ "inf"
  | S754_nan => "NaN"
  | S754_finite s m e =>
      (if s then "-" else "")
      +:+ fixed3_digits (round_half_even (Zpos m * 1000 * 2 ^ Z.max e 0) (2 ^ Z.max (- e) 0))
  end.

(** [Duration], in nanoseconds: [as_secs], [as_millis], [as_micros], [as_secs_f64] *)
Definition as_secs (d : Z) : Z := (d / 10 ^ 9)%Z.
Definition as_millis (d : Z) : Z := (d / 10 ^ 6)%Z.
Definition as_micros (d : Z) : Z := (d / 1000)%Z.
Definition as_secs_f64 (d : Z) : f64 :=
  SFadd f64_prec f64_emax (f64_of_Z (as_secs d))
    (SFdiv f64_prec f64_emax (f64_of_Z (d mod 10 ^ 9)) (f64_of_Z (10 ^ 9))).

Definition format_profile_duration (d : Z) : string :=
  if (0 <? as_secs d)%Z then fixed3 (as_secs_f64 d) +:+ "s"
  else if (0 <? as_millis d)%Z
  then fixed3 (SFmul f64_prec f64_emax (as_secs_f64 d) (f64_of_Z 1000)) +:+ "ms"
  else u_to_string (as_micros d) +:+ "us".

Section explain.
Context `{SerdeNumber} `{Formats}.

(** ** The planner's notes *)

Definition predicate_keys (filters : list PropFilter) : list string := (λ f, f.1.1) <$> filters.

(** The keys but the first equality on the selected one. *)
Fixpoint residual_predicate_keys (filters : list PropFilter) (selected : option string)
    : list string :=
  match filters with
  | [] => []
  | (key, op, _) :: filters =>
      if bool_decide (op = OpEq) && bool_decide (selected = Some key)
      then predicate_keys filters
      else key :: residual_predicate_keys filters selected
  end.

Definition is_equality (f : PropFilter) : bool := bool_decide (f.1.2 = OpEq).
Definition first_equality_key (filters : list PropFilter) : option string :=
  (λ f : PropFilter, f.1.1) <$> List.find is_equality filters.

Definition node_candidate_access_paths (query : NodeFindQuery) (filters : list PropFilter)
    : list AccessPath :=
  ((if bool_decide (is_Some (nq_id_filter query)) then [NodeIdLookup] else [])
   ++ (if existsb is_equality filters then [NodePropertyIndex] else []) ++ [NodeLabelIndex])%list.

Definition edge_candidate_access_paths (query : EdgeFindQuery) : list AccessPath :=
  ((if bool_decide (is_Some (eq_id_filter query)) then [RelationshipIdLookup] else [])
   ++ match eq_from_filter query, eq_to_filter query with
      | Some _, Some _ => [OutgoingAdjacency; IncomingAdjacency]
      | Some _, None => [OutgoingAdjacency]
      | None, Some _ => [IncomingAdjacency]
      | None, None => []
      end ++ [RelationshipTypeIndex])%list.

Definition edge_endpoint_anchor (query : EdgeFindQuery) : string :=
  match eq_from_filter query, eq_to_filter query with
  | Some from, Some to => "from=" +:+ Z_to_string from +:+ ",to=" +:+ Z_to_string to
  | Some from, None => "from=" +:+ Z_to_string from
  | None, Some to => "to=" +:+ Z_to_string to
  | None, None => "type"
  end.

Definition order_terms (order : list SessionOrder) : list string :=
  (λ o, so_field o +:+ ":" +:+ SortDirection_keyword (so_direction o)) <$> order.

Definition access_path_for_index_name (index : string) : option AccessPath :=
  if String.eqb index "system.node.id" then Some NodeIdLookup
  else if String.eqb index "system.node.label" then Some NodeLabelIndex
  else if String.eqb index "system.node.property" then Some NodePropertyIndex
  else if String.eqb index "system.edge.id" then Some RelationshipIdLookup
  else if String.eqb index "system.edge.type" then Some RelationshipTypeIndex
  else if String.eqb index "system.edge.outgoing_adjacency" then Some OutgoingAdjacency
  else if String.eqb index "system.edge.incoming_adjacency" then Some IncomingAdjacency
  else None.

(** ** Explaining a node find *)

Definition var_zero : VarId := {| var_index := 0 |}.

Definition id_anchor (id : Z) : string := "id=" +:+ Z_to_string id.

Definition paged (query : NodeFindQuery) (p : PlannerStepMetadata) : PlannerStepMetadata :=
  with_paging (order_terms (nq_order query)) (nq_limit query) (nq_offset query) p.

(** The first step of a find without traversals. *)
Definition node_anchor_step (model : RuntimeNodeModel) (query : NodeFindQuery)
    (filters : list PropFilter) : PlanStep :=
  let labels := [nm_label model] in
  let candidates := node_candidate_access_paths query filters in
  match nq_id_filter query with
  | Some id =>
      with_planner (paged query (planner_new (Some (id_anchor id)) candidates (Some NodeIdLookup)
                                   (predicate_keys filters)))
        (step_new (PNodeById var_zero labels id))
  | None =>
      match first_equality_key filters with
      | Some key =>
          with_planner (paged query
              (planner_new (Some (nm_label model +:+ "." +:+ key)) candidates
                 (Some NodePropertyIndex) (residual_predicate_keys filters (Some key))))
            (step_new (PNodePropertySeek var_zero labels key))
      | None =>
          with_planner (paged query (planner_new (Some (nm_label model)) candidates
                                       (Some NodeLabelIndex) (predicate_keys filters)))
            (step_new (PNodeLabelScan var_zero labels))
      end
  end.

Definition residual_filter_keys (query : NodeFindQuery) (filters : list PropFilter) : list string :=
  match nq_id_filter query, first_equality_key filters with
  | Some _, _ => predicate_keys filters
  | None, Some key => residual_predicate_keys filters (Some key)
  | None, None => predicate_keys filters
  end.

(** [if !keys.is_empty() { steps.push(..) }] *)
Definition filter_step (kind : list string → PlanStepKind) (keys : list string) : list PlanStep :=
  match keys with [] => [] | _ => [step_new (kind keys)] end.

Definition explain_flat (model : RuntimeNodeModel) (query : NodeFindQuery) : result ExecutionPlan :=
  prop_filters ← parse_model_predicates (nq_predicates query) model;
  _ ← validate_node_order_fields model (nq_order query);
  Ok {| ep_steps :=
          (node_anchor_step model query prop_filters
           :: filter_step (PNodeFilter var_zero [nm_label model] None)
                (residual_filter_keys query prop_filters)
           ++ [step_new (PReturn var_zero KindNode)])%list |}.

(** The residual keys and the anchor of a plan whose root is reached by a path. *)
Definition root_residual (selected : option AccessPath) (root_filters : list PropFilter)
    : list string :=
  match selected with
  | Some NodePropertyIndex =>
      match first_equality_key root_filters with
      | Some key => residual_predicate_keys root_filters (Some key)
      | None => predicate_keys root_filters
      end
  | _ => predicate_keys root_filters
  end.
Definition root_anchor (model : RuntimeNodeModel) (query : NodeFindQuery)
    (root_filters : list PropFilter) (path : AccessPath) : string :=
  match path with
  | NodeIdLookup =>
      match nq_id_filter query with Some id => id_anchor id | None => nm_label model end
  | NodePropertyIndex =>
      match first_equality_key root_filters with
      | Some key => nm_label model +:+ "." +:+ key
      | None => nm_label model
      end
  | _ => nm_label model
  end.

Definition plan_first_step (model : RuntimeNodeModel) (query : NodeFindQuery)
    (root_filters : list PropFilter) (steps : list PlanStep) : list PlanStep :=
  match steps with
  | [] => []
  | step :: steps =>
      let selected := access_path (ps_kind step) in
      with_planner (paged query
          (planner_new (root_anchor model query root_filters <$> selected)
             (node_candidate_access_paths query root_filters) selected
             (root_residual selected root_filters))) step :: steps
  end.

Definition is_expand (kind : PlanStepKind) : bool :=
  match kind with PExpandOut _ _ _ _ | PExpandIn _ _ _ _ | PExpandBoth _ _ _ _ => true | _ => false end.
Definition plan_expand (step : PlanStep) : PlanStep :=
  if is_expand (ps_kind step) then
    with_planner (planner_new (Some (step_to_string step))
        (omap access_path_for_index_name (candidate_index_names (ps_kind step)))
        (access_path (ps_kind step)) []) step
  else step.

Definition explain_traversal (catalog : SessionModelCatalog) (model : RuntimeNodeModel)
    (query : NodeFindQuery) : result ExecutionPlan :=
  runtime_plan ← build_runtime_graph_query catalog model query;
  end_filters ← parse_model_predicates (nq_end_predicates query) (tp_end_model runtime_plan);
  edge_filters ← parse_rel_predicates (nq_edge_predicates query) (tp_return_rel_model runtime_plan);
  _ ← match return_kind (tp_graph_query runtime_plan) with
      | KindNode =>
          validate_node_order_fields
            (if decide (nq_return_mode query = StrRoot) then model else tp_end_model runtime_plan)
            (nq_order query)
      | KindRel => validate_rel_order_fields (tp_return_rel_model runtime_plan) (nq_order query)
      end;
  let steps := ep_steps (for_graph_query (tp_graph_query runtime_plan)) in
  root_filters ← parse_model_predicates (nq_predicates query) model;
  let steps := plan_expand <$> plan_first_step model query root_filters steps in
  let return_step := last steps in
  let steps := removelast steps in
  let selected := match steps with step :: _ => access_path (ps_kind step) | [] => None end in
  Ok {| ep_steps :=
    (steps
     ++ filter_step (PNodeFilter (tp_root_var runtime_plan) [nm_label model] (nq_id_filter query))
          (root_residual selected root_filters)
     ++ filter_step (PNodeFilter (tp_end_var runtime_plan) [nm_label (tp_end_model runtime_plan)] None)
          (predicate_keys end_filters)
     ++ filter_step (PRelationshipFilter (tp_return_rel_var runtime_plan)
                       (rm_rel_type (tp_return_rel_model runtime_plan))) (predicate_keys edge_filters)
     ++ match return_step with Some step => [step] | None => [] end)%list |}.

Definition explain_node_find_query (catalog : SessionModelCatalog) (model_name : string)
    (query : NodeFindQuery) : result ExecutionPlan :=
  model ← ok_or (get_node_model catalog model_name) NotFound;
  match nq_traversals query with
  | [] => explain_flat model query
  | _ => explain_traversal catalog model query
  end.

(** ** Explaining an edge find *)

Definition edge_paged (query : EdgeFindQuery) (p : PlannerStepMetadata) : PlannerStepMetadata :=
  with_paging (order_terms (eq_order query)) (eq_limit query) (eq_offset query) p.

Definition edge_anchor_step (model : RuntimeRelModel) (query : EdgeFindQuery)
    (filters : list PropFilter) : PlanStep :=
  let candidates := edge_candidate_access_paths query in
  let noted anchor selected kind :=
    with_planner (edge_paged query (planner_new (Some anchor) candidates (Some selected)
                                      (predicate_keys filters))) (step_new kind) in
  let seek selected :=
    noted (edge_endpoint_anchor query) selected
      (PRelationshipEndpointSeek var_zero (rm_rel_type model) (eq_from_filter query)
         (eq_to_filter query)) in
  match eq_id_filter query with
  | Some id =>
      noted (id_anchor id) RelationshipIdLookup (PRelationshipById var_zero (rm_rel_type model) id)
  | None =>
      match eq_from_filter query, eq_to_filter query with
      | Some _, Some _ => seek RelationshipEndpointAdjacency
      | Some _, None => seek OutgoingAdjacency
      | None, Some _ => seek IncomingAdjacency
      | None, None =>
          noted (rm_rel_type model) RelationshipTypeIndex
            (PRelationshipTypeScan var_zero (rm_rel_type model))
      end
  end.

Definition explain_edge_find_query (catalog : SessionModelCatalog) (model_name : string)
    (query : EdgeFindQuery) : result ExecutionPlan :=
  model ← ok_or (get_rel_model catalog model_name) NotFound;
  prop_filters ← parse_rel_predicates (eq_predicates query) model;
  _ ← validate_rel_order_fields model (eq_order query);
  Ok {| ep_steps :=
          (edge_anchor_step model query prop_filters
           :: filter_step (PRelationshipFilter var_zero (rm_rel_type model))
                (predicate_keys prop_filters)
           ++ [step_new (PReturn var_zero KindRel)])%list |}.

(** ** JSON *)

(** Objects list their keys in order, as a [serde_json::Map] does. *)
Definition usize_json (n : N) : Value := value_from_u64 (Z.of_N n).
Definition opt_json {A} (f : A → Value) (o : option A) : Value :=
  match o with Some a => f a | None => Null end.
Definition strings_json (l : list string) : Value := Array (Str <$> l).

(** [#[serde(rename_all = "snake_case")]] *)
Definition access_path_json (path : AccessPath) : Value :=
  Str match path with
      | NodeIdLookup => "node_id_lookup"
      | NodeLabelIndex => "node_label_index"
      | NodePropertyIndex => "node_property_index"
      | RelationshipIdLookup => "relationship_id_lookup"
      | RelationshipTypeIndex => "relationship_type_index"
      | RelationshipEndpointAdjacency => "relationship_endpoint_adjacency"
      | OutgoingAdjacency => "outgoing_adjacency"
      | IncomingAdjacency => "incoming_adjacency"
      | BidirectionalAdjacency => "bidirectional_adjacency"
      | Scan => "scan"
      end.

Definition planner_json (p : PlannerStepMetadata) : Value :=
  Object [("candidate_access_paths", Array (access_path_json <$> pl_candidate_access_paths p));
          ("chosen_anchor", opt_json Str (pl_chosen_anchor p));
          ("limit", opt_json usize_json (pl_limit p));
          ("offset", opt_json usize_json (pl_offset p));
          ("order", strings_json (pl_order p));
          ("residual_filters", strings_json (pl_residual_filters p));
          ("selected_access_path", opt_json access_path_json (pl_selected_access_path p))].

Definition plan_step_value (step : PlanStep) : Value :=
  let path := access_path (ps_kind step) in
  Object [("access_path", opt_json access_path_json path);
          ("display", Str (step_to_string step));
          ("index", opt_json Str (path ≫= index_name));
          ("indexes", strings_json (candidate_index_names (ps_kind step)));
          ("kind", Str (logical_name (ps_kind step)));
          ("planner", opt_json planner_json (ps_planner step));
          ("scan", Bool (default false (is_scan <$> path)))].

Definition plan_value (plan : ExecutionPlan) : Value :=
  Object [("details", Array (plan_step_value <$> ep_steps plan));
          ("steps", strings_json (step_to_string <$> ep_steps plan));
          ("text", Str (plan_to_string plan))].

Definition explain_value (command target : string) (plan : ExecutionPlan) : Value :=
  Object [("command", Str command); ("plan", plan_value plan); ("target", Str target)].

Definition nat_json (n : nat) : Value := value_from_u64 (Z.of_nat n).
Definition metrics_json (m : ProfileStepMetrics) : Value :=
  Object [("access_path", opt_json access_path_json (pm_access_path m));
          ("elapsed_micros", opt_json value_from_u64 (pm_elapsed_micros m));
          ("input_rows", opt_json nat_json (pm_input_rows m));
          ("kind", Str (pm_kind m));
          ("output_rows", opt_json nat_json (pm_output_rows m));
          ("step_index", nat_json (pm_step_index m))].

Record ProfilePhaseTimings := {
  pt_explain : option Z;
  pt_anchor_metric : option Z;
  pt_execute_node_query : option Z;
  pt_metric_push : option Z;
  pt_profile_value : option Z;
}.

(** [#[serde(skip_serializing_if = "Option::is_none")]] *)
Definition present (key : string) (o : option Z) : list (string * Value) :=
  match o with Some z => [(key, value_from_u64 z)] | None => [] end.
Definition phase_timings_json (t : ProfilePhaseTimings) : Value :=
  Object (present "anchor_metric" (pt_anchor_metric t)
          ++ present "execute_node_query" (pt_execute_node_query t)
          ++ present "explain" (pt_explain t) ++ present "metric_push" (pt_metric_push t)
          ++ present "profile_value" (pt_profile_value t))%list.

(** [profile_value], with the entry [phase_timings] in its place. *)
Definition profile_entries (command target : string) (plan : ExecutionPlan) (row_count : N)
    (elapsed : Z) (metrics : list ProfileStepMetrics) (phases : list (string * Value)) : Value :=
  Object ([("command", Str command);
           ("elapsed", Object [("display", Str (format_profile_duration elapsed));
                               ("micros", value_from_u64 (as_micros elapsed))]);
           ("per_step_metrics", Array (metrics_json <$> metrics))]
          ++ phases
          ++ [("plan", plan_value plan); ("result_rows", usize_json row_count);
              ("target", Str target)])%list.

(** ** Explain requests *)

Definition explain_nodes (catalog : SessionModelCatalog) (id_type : BackendIdType)
    (request : NodeFindRequest) : result Value :=
  query ← node_find_query_from_request catalog id_type request;
  plan ← explain_node_find_query catalog (nf_model request) query;
  Ok (explain_value "node.find" (nf_model request) plan).
Definition explain_edges (catalog : SessionModelCatalog) (id_type : BackendIdType)
    (request : EdgeFindRequest) : result Value :=
  query ← edge_find_query_from_request catalog id_type request;
  plan ← explain_edge_find_query catalog (ef_model request) query;
  Ok (explain_value "edge.find" (ef_model request) plan).

(** ** Profiling *)

Definition push_step_metric (plan : ExecutionPlan) (step_index : nat)
    (input_rows output_rows : option nat) (elapsed : option Z) (metrics : list ProfileStepMetrics)
    : list ProfileStepMetrics :=
  if existsb (λ m, (pm_step_index m =? step_index)%nat) metrics then metrics
  else
    match ep_steps plan !! step_index with
    | Some step =>
        (metrics ++ [{| pm_step_index := step_index; pm_kind := logical_name (ps_kind step);
                        pm_access_path := access_path (ps_kind step); pm_input_rows := input_rows;
                        pm_output_rows := output_rows;
                        pm_elapsed_micros := as_micros <$> elapsed |}])%list
    | None => metrics
    end.

Fixpoint position_of {A} (p : A → bool) (l : list A) : option nat :=
  match l with
  | [] => None
  | x :: l => if p x then Some 0 else S <$> position_of p l
  end.
Definition plan_step_index (plan : ExecutionPlan) (predicate : PlanStepKind → bool) : option nat :=
  position_of (λ step, predicate (ps_kind step)) (ep_steps plan).

Definition is_node_filter (kind : PlanStepKind) : bool :=
  match kind with PNodeFilter _ _ _ _ => true | _ => false end.
Definition is_rel_filter (kind : PlanStepKind) : bool :=
  match kind with PRelationshipFilter _ _ _ => true | _ => false end.

Variable clock : nat → Z.

(** A computation on the store that reads the clock. *)
Definition prof (A : Type) : Type := GraphStore → nat → result A * GraphStore * nat.

#[export] Instance prof_ret : MRet prof := λ A a s k, (Ok a, s, k).
#[export] Instance prof_bind : MBind prof := λ A B f m s k,
  match m s k with
  | (Ok a, s, k) => f a s k
  | (Err e, s, k) => (Err e, s, k)
  end.
Definition prof_lift {A} (r : result A) : prof A := λ s k, (r, s, k).
Definition prof_store {A} (m : GraphStore → A * GraphStore) : prof A := λ s k,
  let '(a, s) := m s in (Ok a, s, k).

(** [Instant::now()] and [started.elapsed()], which is not negative. *)
Definition instant_now : prof Z := λ s k, (Ok (clock k), s, S k).
Definition elapsed_since (started : Z) : prof Z := λ s k, (Ok (Z.max 0 (clock k - started)), s, S k).

Definition rows_len {A} (l : list A) : option nat := Some (length l).

(** The phases the two flat profiles share: a filter step of the plan, if it has
  one, is timed; [keep] is the retained predicate. *)
Definition filter_phase {A} (plan : ExecutionPlan) (is_filter : PlanStepKind → bool)
    (keep : A → bool) (items : list A) (metrics : list ProfileStepMetrics)
    : prof (list A * list ProfileStepMetrics) :=
  match plan_step_index plan is_filter with
  | Some filter_index =>
      filter_started ← instant_now;
      elapsed ← elapsed_since filter_started;
      let kept := filter keep items in
      mret (M:=prof) (kept, push_step_metric plan filter_index (rows_len items) (rows_len kept)
                              (Some elapsed) metrics)
  | None => mret (M:=prof) (filter keep items, metrics)
  end.
(** Sorting and paging. *)
Definition return_phase {A} (plan : ExecutionPlan) (sort : list A → result (list A))
    (offset limit : option N) (st : list A * list ProfileStepMetrics)
    : prof (list A * list ProfileStepMetrics) :=
  return_started ← instant_now;
  sorted ← prof_lift (sort st.1);
  elapsed ← elapsed_since return_started;
  let paged := apply_offset_limit sorted offset limit in
  mret (M:=prof) (paged, push_step_metric plan (length (ep_steps plan) - 1) (rows_len st.1)
                           (rows_len paged) (Some elapsed) st.2).

(** [profile_flat_node_query] *)
Definition profile_flat_node_query (catalog : SessionModelCatalog) (model_name : string)
    (query : NodeFindQuery) (plan : ExecutionPlan)
    : prof (SessionQueryResult * list ProfileStepMetrics) :=
  model ← prof_lift (ok_or (get_node_model catalog model_name) NotFound);
  prop_filters ← prof_lift (parse_model_predicates (nq_predicates query) model);
  anchor_started ← instant_now;
  ns ← prof_store (snapshot_nodes_filtered (nm_label model) (nq_id_filter query)
                     (indexed_property prop_filters));
  anchor_elapsed ← elapsed_since anchor_started;
  let metrics := push_step_metric plan 0 (Some 0) (rows_len ns) (Some anchor_elapsed) [] in
  kept ← filter_phase plan is_node_filter (λ node, matches_predicates (sn_props node) prop_filters)
           ns metrics;
  out ← return_phase plan (sort_if (nq_order query) (λ ns, sort_nodes ns model (nq_order query)))
          (nq_offset query) (nq_limit query) kept;
  mret (M:=prof) (QNodes model out.1, out.2).

(** The two loops of [profile_traversal_query] over the steps: each pushes a
  metric for the steps it looks for, and adds up the time that takes. *)
Fixpoint push_steps (plan : ExecutionPlan) (wanted : PlanStepKind → bool) (index : nat)
    (steps : list PlanStep) (st : list ProfileStepMetrics * Z) : prof (list ProfileStepMetrics * Z) :=
  match steps with
  | [] => mret (M:=prof) st
  | step :: steps =>
      if wanted (ps_kind step) then
        started ← instant_now;
        let metrics := push_step_metric plan index None None None st.1 in
        elapsed ← elapsed_since started;
        push_steps plan wanted (S index) steps (metrics, (st.2 + elapsed)%Z)
      else push_steps plan wanted (S index) steps st
  end.

Definition profile_traversal_query (catalog : SessionModelCatalog) (model_name : string)
    (query : NodeFindQuery) (plan : ExecutionPlan)
    : prof (SessionQueryResult * list ProfileStepMetrics * ProfilePhaseTimings) :=
  root_model ← prof_lift (ok_or (get_node_model catalog model_name) NotFound);
  prop_filters ← prof_lift (parse_model_predicates (nq_predicates query) root_model);
  anchor_started ← instant_now;
  root_candidates ← prof_store (snapshot_nodes_filtered (nm_label root_model) (nq_id_filter query)
                                  (indexed_property prop_filters));
  anchor_metric_elapsed ← elapsed_since anchor_started;
  started ← instant_now;
  let metrics := push_step_metric plan 0 (Some 0) (rows_len root_candidates)
                   (Some anchor_metric_elapsed) [] in
  pushed ← elapsed_since started;
  execute_started ← instant_now;
  res ← prof_store (execute_node_query catalog model_name query);
  res ← prof_lift res;
  execute_elapsed ← elapsed_since execute_started;
  st ← push_steps plan is_expand 0 (ep_steps plan) (metrics, pushed);
  st ← push_steps plan (λ kind, is_node_filter kind || is_rel_filter kind) 0 (ep_steps plan) st;
  started ← instant_now;
  let metrics := push_step_metric plan (length (ep_steps plan) - 1) None
                   (Some (N.to_nat (row_count res))) None st.1 in
  pushed ← elapsed_since started;
  mret (M:=prof) (res, metrics,
    {| pt_explain := None; pt_anchor_metric := Some (as_micros anchor_metric_elapsed);
       pt_execute_node_query := Some (as_micros execute_elapsed);
       pt_metric_push := Some (as_micros (st.2 + pushed)); pt_profile_value := None |}).

Record SessionProfileResult := {
  sp_result : SessionQueryResult;
  sp_elapsed : Z;
  sp_metrics : list ProfileStepMetrics;
  sp_phase_timings : option ProfilePhaseTimings;
}.

Definition profile_node_query (catalog : SessionModelCatalog) (model_name : string)
    (query : NodeFindQuery) (plan : ExecutionPlan) : prof SessionProfileResult :=
  total_started ← instant_now;
  out ← match nq_traversals query with
        | [] =>
            out ← profile_flat_node_query catalog model_name query plan;
            mret (M:=prof) (out.1, out.2, None)
        | _ =>
            out ← profile_traversal_query catalog model_name query plan;
            mret (M:=prof) (out.1.1, out.1.2, Some out.2)
        end;
  elapsed ← elapsed_since total_started;
  mret (M:=prof) {| sp_result := out.1.1; sp_elapsed := elapsed; sp_metrics := out.1.2;
          sp_phase_timings := out.2 |}.

Definition profile_edge_query (catalog : SessionModelCatalog) (model_name : string)
    (query : EdgeFindQuery) (plan : ExecutionPlan)
    : prof (list StoredRel * Z * list ProfileStepMetrics) :=
  total_started ← instant_now;
  model ← prof_lift (ok_or (get_rel_model catalog model_name) NotFound);
  prop_filters ← prof_lift (parse_rel_predicates (eq_predicates query) model);
  anchor_started ← instant_now;
  rs ← prof_store (λ s, (snapshot_relationships_filtered (rm_rel_type model) (eq_id_filter query)
                           (eq_from_filter query) (eq_to_filter query) s, s));
  anchor_elapsed ← elapsed_since anchor_started;
  let metrics := push_step_metric plan 0 (Some 0) (rows_len rs) (Some anchor_elapsed) [] in
  kept ← filter_phase plan is_rel_filter (λ rel, matches_predicates (sr_props rel) prop_filters)
           rs metrics;
  out ← return_phase plan
          (sort_if (eq_order query) (λ rs, sort_relationships rs model (eq_order query)))
          (eq_offset query) (eq_limit query) kept;
  total ← elapsed_since total_started;
  mret (M:=prof) (out.1, total, out.2).

Definition profile_value_with_phase_timing (command target : string) (plan : ExecutionPlan)
    (rows : N) (elapsed : Z) (metrics : list ProfileStepMetrics)
    (phase_timings : option ProfilePhaseTimings) : prof Value :=
  started ← instant_now;
  profile_value_elapsed ← elapsed_since started;
  mret (M:=prof) (profile_entries command target plan rows elapsed metrics
    match phase_timings with
    | Some t =>
        [("phase_timings", phase_timings_json
            {| pt_explain := pt_explain t; pt_anchor_metric := pt_anchor_metric t;
               pt_execute_node_query := pt_execute_node_query t;
               pt_metric_push := pt_metric_push t;
               pt_profile_value := Some (as_micros profile_value_elapsed) |})]
    | None => []
    end).

Definition set_explain (elapsed : Z) (t : ProfilePhaseTimings) : ProfilePhaseTimings :=
  {| pt_explain := Some (as_micros elapsed); pt_anchor_metric := pt_anchor_metric t;
     pt_execute_node_query := pt_execute_node_query t; pt_metric_push := pt_metric_push t;
     pt_profile_value := pt_profile_value t |}.

(** The arms [NodeFind] and [Traversal] of [profile]. *)
Definition profile_nodes (catalog : SessionModelCatalog) (id_type : BackendIdType)
    (request : NodeFindRequest) : prof Value :=
  query ← prof_lift (node_find_query_from_request catalog id_type request);
  explain_started ← instant_now;
  plan ← prof_lift (explain_node_find_query catalog (nf_model request) query);
  explain_elapsed ← elapsed_since explain_started;
  profile ← profile_node_query catalog (nf_model request) query plan;
  profile_value_with_phase_timing "node.find" (nf_model request) plan
    (row_count (sp_result profile)) (sp_elapsed profile) (sp_metrics profile)
    (set_explain explain_elapsed <$> sp_phase_timings profile).

Definition profile_edges (catalog : SessionModelCatalog) (id_type : BackendIdType)
    (request : EdgeFindRequest) : prof Value :=
  query ← prof_lift (edge_find_query_from_request catalog id_type request);
  plan ← prof_lift (explain_edge_find_query catalog (ef_model request) query);
  out ← profile_edge_query catalog (ef_model request) query plan;
  profile_value_with_phase_timing "edge.find" (ef_model request) plan (len out.1.1) out.1.2 out.2
    None.
End explain.

(** ** An explanation tells what the find does *)

Section explained.
Context `{SerdeNumber} `{Formats}.
Implicit Types (c : SessionModelCatalog) (s : GraphStore) (filters : list PropFilter).
Variable clock : nat → Z.

(** The key a plan's first step seeks. *)
Definition anchor_keys (step : PlanStep) : list string :=
  match ps_kind step with PNodePropertySeek _ _ key => [key] | _ => [] end.
Definition filter_keys (steps : list PlanStep) : list string :=
  steps ≫= λ step, match ps_kind step with
                   | PNodeFilter _ _ _ keys | PRelationshipFilter _ _ keys => keys
                   | _ => []
                   end.

Lemma residual_keys_split filters key :
  first_equality_key filters = Some key →
  key :: residual_predicate_keys filters (Some key) ≡ₚ predicate_keys filters.
Proof.
  unfold first_equality_key. induction filters as [|[[k op] v] filters IH]; [done|].
  cbn [List.find residual_predicate_keys predicate_keys].
  unfold is_equality at 1. cbn [fst snd]. destruct (bool_decide_reflect (op = OpEq)) as [->|Hop]; cbn.
  - intros [= <-]. by case_bool_decide.
  - intros Hk. etransitivity; [apply perm_swap|]. constructor. by apply IH.
Qed.

Lemma filter_step_keys var labels id keys :
  filter_keys (filter_step (PNodeFilter var labels id) keys) = keys.
Proof. destruct keys as [|k keys]; [done|]. cbn. by rewrite app_nil_r. Qed.

(** The first step and the filter cover each predicate once. *)
Lemma flat_plan_covers model query filters :
  (anchor_keys (node_anchor_step model query filters)
   ++ residual_filter_keys query filters)%list ≡ₚ predicate_keys filters.
Proof.
  unfold node_anchor_step, residual_filter_keys. destruct (nq_id_filter query); [done|].
  destruct (first_equality_key filters) as [key|] eqn:Hk; [|done].
  by apply residual_keys_split.
Qed.

Lemma validate_node_order_nil model : validate_node_order_fields model [] = Ok tt.
Proof. done. Qed.

(** Sorting what a validated order sorts. *)
Lemma sort_if_validated model orders (ns : list StoredNode) :
  validate_node_order_fields model orders = Ok tt →
  ∃ sorted, sort_if orders (λ ns, sort_nodes ns model orders) ns = Ok sorted.
Proof.
  intros Hval. destruct orders as [|o orders]; [by eexists|]. unfold sort_if, sort_nodes.
  rewrite Hval. by eexists.
Qed.

Lemma push_metric_before plan i ins outs e metrics n :
  (i < n)%nat → Forall (λ m, (pm_step_index m < n)%nat) metrics →
  Forall (λ m, (pm_step_index m < n)%nat) (push_step_metric plan i ins outs e metrics).
Proof.
  intros Hi Hms. unfold push_step_metric. destruct (existsb _ metrics); [done|].
  destruct (ep_steps plan !! i); [|done]. apply Forall_app. split; [done|by constructor].
Qed.

Lemma push_metric_last plan i ins outs e metrics :
  (i < length (ep_steps plan))%nat → Forall (λ m, (pm_step_index m < i)%nat) metrics →
  ∃ m, last (push_step_metric plan i ins outs e metrics) = Some m ∧ pm_step_index m = i ∧
       pm_output_rows m = outs.
Proof.
  intros Hi Hms. unfold push_step_metric. destruct (existsb _ metrics) eqn:He.
  { apply existsb_exists in He as (m & Hin & Hm%Nat.eqb_eq).
    rewrite Forall_forall in Hms. apply list_elem_of_In, Hms in Hin. lia. }
  destruct (lookup_lt_is_Some_2 (ep_steps plan) i Hi) as [step ->].
  rewrite last_snoc. by eexists.
Qed.

Lemma filter_phase_run {A} plan is_filter (keep : A → bool) items metrics s k n :
  Forall (λ m, (pm_step_index m < n)%nat) metrics →
  (∀ i, plan_step_index plan is_filter = Some i → (i < n)%nat) →
  ∃ metrics' k', filter_phase clock plan is_filter keep items metrics s k
      = (Ok (filter keep items, metrics'), s, k') ∧
    Forall (λ m, (pm_step_index m < n)%nat) metrics'.
Proof.
  intros Hms Hi. unfold filter_phase. destruct (plan_step_index plan is_filter) as [i|].
  - eexists _, _. split; [reflexivity|]. by apply push_metric_before; [apply Hi|].
  - by eexists _, _.
Qed.

(** The last metric counts the rows. *)
Lemma return_phase_run {A} plan sort offset limit (items sorted : list A) metrics s k :
  (0 < length (ep_steps plan))%nat → sort items = Ok sorted →
  Forall (λ m, (pm_step_index m < length (ep_steps plan) - 1)%nat) metrics →
  ∃ metrics' m k', return_phase clock plan sort offset limit (items, metrics) s k
      = (Ok (apply_offset_limit sorted offset limit, metrics'), s, k') ∧
    last metrics' = Some m ∧
    pm_output_rows m = Some (length (apply_offset_limit sorted offset limit)).
Proof.
  intros Hpos Hsort Hms. unfold return_phase, mbind, prof_bind, instant_now, prof_lift. cbn [fst snd].
  destruct (push_metric_last plan (length (ep_steps plan) - 1) (rows_len items)
    (rows_len (apply_offset_limit sorted offset limit)) (Some (Z.max 0 (clock (S k) - clock k))) metrics)
    as (m & Hm & _ & Ho); [lia|exact Hms|].
  rewrite Hsort. by eexists _, m, _.
Qed.

(** The position of the filter in a plan of an anchor, filters and a return. *)
Lemma filter_position is_filter anchor (filters : list PlanStep) kind :
  is_filter (ps_kind anchor) = false → is_filter kind = false → (length filters ≤ 1)%nat →
  ∀ i, plan_step_index {| ep_steps := (anchor :: filters ++ [step_new kind])%list |} is_filter = Some i →
  (i < length (anchor :: filters ++ [step_new kind])%list - 1)%nat.
Proof.
  intros Ha Hr Hlen i. unfold plan_step_index. cbn [ep_steps position_of]. rewrite Ha.
  destruct filters as [|f [|? ?]]; cbn [app position_of length step_new ps_kind] in *; [| |lia];
    rewrite ?Hr; [done|]. destruct (is_filter (ps_kind f)); cbn; [|done].
  intros [= <-]. lia.
Qed.

Lemma filter_step_length kind keys : (length (filter_step kind keys) ≤ 1)%nat.
Proof. destruct keys; cbn; lia. Qed.

Lemma anchor_not_filter model query filters :
  is_node_filter (ps_kind (node_anchor_step model query filters)) = false.
Proof.
  unfold node_anchor_step. destruct (nq_id_filter query); [done|].
  by destruct (first_equality_key filters).
Qed.

(** C18: explaining a flat find fails exactly as the find would; its plan anchors
  the find, filters and returns, and the anchor and the filter together
  cover every condition once; and profiling it answers the very rows of the
  find, leaves the store as the find does, and counts the rows in its last
  metric. *)
Theorem explain_tells_the_find c name query s k :
  nq_traversals query = [] →
  match explain_node_find_query c name query with
  | Err e => (find_nodes_with_query c name query s).1 = Err e
  | Ok plan =>
      ∃ model filters anchor filtering rows t profile m k',
        get_node_model c name = Some model ∧
        parse_model_predicates (nq_predicates query) model = Ok filters ∧
        ep_steps plan = (anchor :: filtering ++ [step_new (PReturn var_zero KindNode)])%list ∧
        (anchor_keys anchor ++ filter_keys filtering)%list ≡ₚ predicate_keys filters ∧
        find_nodes_with_query c name query s = (Ok rows, t) ∧
        profile_node_query clock c name query plan s k = (Ok profile, t, k') ∧
        sp_result profile = QNodes model rows ∧
        last (sp_metrics profile) = Some m ∧ pm_output_rows m = Some (length rows)
  end.
Proof.
  intros Htr. unfold explain_node_find_query, find_nodes_with_query, profile_node_query.
  rewrite Htr. destruct (get_node_model c name) as [model|] eqn:Hmodel; [|done]. cbn [ok_or mbind result_bind].
  unfold explain_flat, profile_flat_node_query.
  destruct (parse_model_predicates (nq_predicates query) model) as [filters|e] eqn:Hp; [|done].
  cbn [mbind result_bind].
  set (keep := λ node, matches_predicates (sn_props node) filters).
  set (sort := sort_if (nq_order query) (λ ns, sort_nodes ns model (nq_order query))).
  destruct (snapshot_nodes_filtered (nm_label model) (nq_id_filter query) (indexed_property filters) s)
    as [ns t] eqn:Hsnap.
  destruct (validate_node_order_fields model (nq_order query)) as [[]|e] eqn:Hval; cbn [mbind result_bind].
  2: { destruct (nq_order query) as [|o os] eqn:Ho; [done|]. cbn [fst]. unfold sort, sort_if, sort_nodes.
       by rewrite Hval. }
  destruct (sort_if_validated model (nq_order query) (filter keep ns) Hval) as [sorted Hsorted].
  set (plan := {| ep_steps := _ |}).
  assert (0 < length (ep_steps plan) - 1)%nat as Hlen by (cbn; rewrite length_app; cbn; lia).
  set (m0 := push_step_metric plan 0 (Some 0) (rows_len ns) (Some (Z.max 0 (clock (S (S k)) - clock (S k)))) []).
  destruct (filter_phase_run plan is_node_filter keep ns m0 t (S (S (S k)))
              (length (ep_steps plan) - 1)) as (ms1 & k1 & Hrun1 & Hms1);
    [by apply push_metric_before| |].
  { apply filter_position; [apply anchor_not_filter|done|apply filter_step_length]. }
  destruct (return_phase_run plan sort (nq_offset query) (nq_limit query) (filter keep ns) sorted ms1
              t k1) as (metrics & m & k2 & Hrun2 & Hlast & Hrows); [lia|done|done|].
  set (rows := apply_offset_limit sorted (nq_offset query) (nq_limit query)) in *.
  eexists model, filters, _, _, rows, t,
    {| sp_result := QNodes model rows; sp_elapsed := _; sp_metrics := metrics;
       sp_phase_timings := None |}, m, _.
  split_and!; [done|done|reflexivity| | | |reflexivity|exact Hlast|exact Hrows].
  - rewrite filter_step_keys. apply flat_plan_covers.
  - assert (sort (filter (λ node, matches_predicates (sn_props node) filters) ns) = Ok sorted) as ->
      by exact Hsorted. reflexivity.
  - unfold mbind, prof_bind, instant_now, prof_lift, prof_store, elapsed_since. cbn -[filter_phase return_phase push_step_metric].
    rewrite Hmodel. cbn -[filter_phase return_phase push_step_metric]. rewrite Hp, Hsnap. fold m0. fold keep.
    rewrite Hrun1. fold sort. rewrite Hrun2. reflexivity.
Qed.
End explained.
