(* ===== verification/Session.v ===== *)
(** * The session ([src/src/runtime/session.rs], [src/src/client/graphclient.rs])

    A session is an in-memory graph with a catalog of models.  Every mutation
    checks its input against the catalog, runs one transaction on the graph and
    answers the durable operation that replays it. *)

From S2P Require Export Find.

Local Open Scope string_scope.

Section session.
Context `{SerdeNumber} `{Formats}.

Record SessionState := { ss_store : GraphStore; ss_catalog : SessionModelCatalog }.

Definition session_new : SessionState :=
  {| ss_store := GraphStore_default; ss_catalog := catalog_new |}.

(** A snapshot is a copy of the graph and of the catalog; restoring replaces
    both. *)
Definition snapshot (σ : SessionState) : SessionState := σ.
Definition restore (saved : SessionState) (_ : SessionState) : SessionState := saved.

Definition set_store (s : GraphStore) (σ : SessionState) : SessionState :=
  {| ss_store := s; ss_catalog := ss_catalog σ |}.
Definition set_catalog (c : SessionModelCatalog) (σ : SessionState) : SessionState :=
  {| ss_store := ss_store σ; ss_catalog := c |}.

(** The in-memory backend's ids. *)
Definition node_id_type : BackendIdType := IdInt64.
Definition rel_id_type : BackendIdType := IdInt64.

(** ** Fallible steps on the session *)

Definition session (A : Type) : Type := SessionState → result A * SessionState.

#[global] Instance session_ret : MRet session := λ A a σ, (Ok a, σ).
#[global] Instance session_bind : MBind session := λ A B f m σ,
  match m σ with
  | (Ok a, σ) => f a σ
  | (Err e, σ) => (Err e, σ)
  end.

Definition lift {A} (r : result A) : session A := λ σ, (r, σ).
Definition catalog : session SessionModelCatalog := λ σ, (Ok (ss_catalog σ), σ).
(** A read that may refresh the graph's lazy index. *)
Definition on_store {A} (f : GraphStore → result A * GraphStore) : session A := λ σ,
  let '(r, s) := f (ss_store σ) in (r, set_store s σ).

(** ** Transactions ([Transaction] of [graphclient.rs])

    The wrapper holds the backend transaction until it is committed or rolled
    back. *)
Definition Transaction : Type := option InMemoryTx.

Definition tx_mut (tx : Transaction) : result InMemoryTx := ok_or tx TransactionClosed.
Definition take_inner (tx : Transaction) : result InMemoryTx * Transaction :=
  (ok_or tx TransactionClosed, None).

(** Steps inside a transaction: on the shared graph and the wrapper. *)
Definition txm (A : Type) : Type :=
  GraphStore → Transaction → result A * GraphStore * Transaction.

#[global] Instance txm_ret : MRet txm := λ A a s tx, (Ok a, s, tx).
#[global] Instance txm_bind : MBind txm := λ A B f m s tx,
  match m s tx with
  | (Ok a, s, tx) => f a s tx
  | (Err e, s, tx) => (Err e, s, tx)
  end.

Definition tx_lift {A} (r : result A) : txm A := λ s tx, (r, s, tx).

(** [tx.tx_mut()?.op(..).await?] *)
Definition tx_op {A} (op : GraphStore → InMemoryTx → A * GraphStore * InMemoryTx) : txm A :=
  λ s tx, match tx_mut tx with
          | Ok inner => let '(a, s, inner) := op s inner in (Ok a, s, Some inner)
          | Err e => (Err e, s, tx)
          end.
Definition commit : txm unit := λ s tx,
  match take_inner tx with
  | (Ok inner, tx) => (Ok tt, (tx_commit s inner).1, tx)
  | (Err e, tx) => (Err e, s, tx)
  end.
Definition rollback : txm unit := λ s tx,
  match take_inner tx with
  | (Ok inner, tx) => (Ok tt, (tx_rollback s inner).1, tx)
  | (Err e, tx) => (Err e, s, tx)
  end.

(** [self.client.transaction()], the steps, and the drop at the end of the
    scope, which does nothing. *)
Definition in_transaction {A} (steps : txm A) : session A := λ σ,
  let '(r, s, _) := steps (ss_store σ) (Some tx_new) in (r, set_store s σ).

Definition tx_create_node labels props : txm StoredNode := tx_op (create_node labels props).
Definition tx_update_node id props : txm (option StoredNode) :=
  tx_op (λ s tx, let '(node, tx) := update_node id props s tx in (node, s, tx)).
Definition tx_delete_node id : txm unit := tx_op (λ s tx, (tt, s, delete_node id s tx)).
Definition tx_find_node id : txm (option StoredNode) :=
  tx_op (λ s tx, (find_node_by_id id s tx, s, tx)).
Definition tx_create_relationship from to rel_type props : txm StoredRel :=
  tx_op (create_relationship from to rel_type props).
Definition tx_update_relationship id props : txm (option StoredRel) :=
  tx_op (λ s tx, let '(rel, tx) := update_relationship id props s tx in (rel, s, tx)).
Definition tx_delete_relationship id : txm unit :=
  tx_op (λ s tx, (tt, s, delete_relationship id tx)).

(** ** The schema *)

Definition register_model (model : RuntimeNodeModel) : session unit := λ σ,
  match register_node_model model (ss_catalog σ) with
  | Ok c => (Ok tt, set_catalog c σ)
  | Err e => (Err e, σ)
  end.

Definition not_defined (side name : string) : GrmError :=
  Constraint (side +:+ " model '" +:+ name +:+ "' is not defined in this session").

Definition session_register_rel_model (model : RuntimeRelModel) : session unit := λ σ,
  match (_ ← ok_or (get_node_model (ss_catalog σ) (rm_from_model model))
                   (not_defined "from" (rm_from_model model));
         _ ← ok_or (get_node_model (ss_catalog σ) (rm_to_model model))
                   (not_defined "to" (rm_to_model model));
         register_rel_model model (ss_catalog σ)) with
  | Ok c => (Ok tt, set_catalog c σ)
  | Err e => (Err e, σ)
  end.

Abbreviation Outcome := RuntimeOperationOutcome.

Definition apply_define_node (request : DefineNodeRequest) : session (Outcome RuntimeNodeModel) :=
  fields ← lift (mapM runtime_field (dn_fields request));
  model ← lift (RuntimeNodeModel_new (dn_name request) (dn_id_field request) node_id_type fields);
  _ ← register_model model;
  mret {| ro_value := model; ro_durable_op := RegisterNodeModel model |}.

Definition apply_define_edge (request : DefineEdgeRequest) : session (Outcome RuntimeRelModel) :=
  fields ← lift (mapM runtime_field (de_fields request));
  model ← lift (RuntimeRelModel_new (de_name request) (de_from_model request)
                  (de_to_model request) (de_id_field request) rel_id_type fields);
  _ ← session_register_rel_model model;
  mret {| ro_value := model; ro_durable_op := RegisterRelModel model |}.

(** ** Nodes *)

Definition node_model (model_name : string) : session RuntimeNodeModel :=
  c ← catalog; lift (ok_or (get_node_model c model_name) NotFound).
Definition rel_model (model_name : string) : session RuntimeRelModel :=
  c ← catalog; lift (ok_or (get_rel_model c model_name) NotFound).

Definition create_node_tx (model : RuntimeNodeModel) (props : Props) : session StoredNode :=
  in_transaction (
    created ← tx_create_node [nm_label model] props;
    _ ← commit;
    mret created).

Definition create_instance (model_name : string) (raw_values : gmap string string)
    : session StoredNode :=
  model ← node_model model_name;
  props ← lift (node_validate_instance_input model raw_values);
  create_node_tx model props.

Definition create_instance_from_props (model_name : string) (values : Props)
    : session StoredNode :=
  model ← node_model model_name;
  props ← lift (node_validate_instance_props model values);
  create_node_tx model props.

Definition node_not_found (id : Z) : GrmError :=
  Constraint ("node '" +:+ Z_to_string id +:+ "' was not found").

(** [existing.labels.iter().any(|label| label == name)] *)
Definition has_label_named (node : StoredNode) (name : string) : bool :=
  existsb (λ label, String.eqb label name) (sn_labels node).

(** The checks an update and a deletion make first. *)
Definition existing_node (model : RuntimeNodeModel) (id : Z) : txm StoredNode :=
  found ← tx_find_node id;
  existing ← tx_lift (ok_or found (node_not_found id));
  if has_label_named existing (nm_label model) then mret existing
  else tx_lift (Err (Constraint ("node '" +:+ Z_to_string id +:+ "' does not match model '"
                                 +:+ nm_name model +:+ "'"))).

Definition update_node_tx (model : RuntimeNodeModel) (id : Z) (props : Props)
    : session StoredNode :=
  in_transaction (
    _ ← existing_node model id;
    found ← tx_update_node id props;
    updated ← tx_lift (ok_or found (node_not_found id));
    _ ← commit;
    mret updated).

(** The loop of [validate_update_props]: given fields only, each of its type. *)
Definition update_prop (kind model_name : string) (fields : list RuntimeField) (props : Props)
    (entry : string * Value) : result Props :=
  let '(key, value) := entry in
  field ← ok_or (find_field fields key) (unknown_field key kind model_name);
  if validate_value_for_kind (kind_of_type (field_type field)) value
  then Ok (<[key := value]> props)
  else Err (Constraint ("field '" +:+ field_name field +:+ "' for " +:+ kind +:+ " '"
                        +:+ model_name +:+ "' must be " +:+ type_keyword (field_type field))).
Definition validate_update_props (kind model_name : string) (fields : list RuntimeField)
    (values : Props) : result Props :=
  try_fold (update_prop kind model_name fields) ∅ (bt_iter values).

(** The session's [parse_backend_id] has the body of the free function. *)
Definition update_node_instance (model_name id : string) (raw_values : gmap string string)
    : session StoredNode :=
  model ← node_model model_name;
  raw_id ← lift (parse_backend_id id node_id_type "node id");
  props ← lift (parse_model_filters raw_values model);
  update_node_tx model raw_id props.

Definition update_node_instance_from_props (model_name : string) (raw_id : Z) (values : Props)
    : session StoredNode :=
  model ← node_model model_name;
  props ← lift (validate_update_props "model" (nm_name model) (nm_fields model) values);
  update_node_tx model raw_id props.

Definition delete_node_instance (model_name id : string) : session unit :=
  model ← node_model model_name;
  raw_id ← lift (parse_backend_id id node_id_type "node id");
  in_transaction (
    _ ← existing_node model raw_id;
    _ ← tx_delete_node raw_id;
    commit).

(** ** Edges *)

Definition end_node (side : string) (id : Z) (model_name : string) : txm unit :=
  found ← tx_find_node id;
  node ← tx_lift (ok_or found
    (Constraint (side +:+ " node '" +:+ Z_to_string id +:+ "' was not found")));
  if has_label_named node model_name then mret tt
  else tx_lift (Err (Constraint (side +:+ " node '" +:+ Z_to_string id
                                 +:+ "' does not match model '" +:+ model_name +:+ "'"))).

Definition create_relationship_tx (model : RuntimeRelModel) (from to : Z) (props : Props)
    : session StoredRel :=
  in_transaction (
    _ ← end_node "from" from (rm_from_model model);
    _ ← end_node "to" to (rm_to_model model);
    created ← tx_create_relationship from to (rm_rel_type model) props;
    _ ← commit;
    mret created).

Definition create_relationship_instance (model_name from_id to_id : string)
    (raw_values : gmap string string) : session StoredRel :=
  model ← rel_model model_name;
  props ← lift (rel_validate_instance_input model raw_values);
  from_raw ← lift (parse_backend_id from_id node_id_type "from node");
  to_raw ← lift (parse_backend_id to_id node_id_type "to node");
  create_relationship_tx model from_raw to_raw props.

Definition create_relationship_instance_from_props (model_name : string) (from_raw to_raw : Z)
    (values : Props) : session StoredRel :=
  model ← rel_model model_name;
  props ← lift (rel_validate_instance_props model values);
  create_relationship_tx model from_raw to_raw props.

Definition edge_not_found (id : Z) : GrmError :=
  Constraint ("edge '" +:+ Z_to_string id +:+ "' was not found").

(** The edge with the id, looked up by a find on [id]. *)
Definition existing_edge (model_name : string) (raw_id : Z) : session StoredRel :=
  c ← catalog;
  found ← on_store (λ s, (find_relationships c rel_id_type node_id_type model_name
                            {["id" := Z_to_string raw_id]} s, s));
  lift (ok_or (head found) (edge_not_found raw_id)).

Definition update_relationship_tx (raw_id : Z) (existing : StoredRel) (props : Props)
    : session StoredRel :=
  in_transaction (
    found ← tx_update_relationship (sr_id existing) props;
    updated ← tx_lift (ok_or found (edge_not_found raw_id));
    _ ← commit;
    mret updated).

Definition update_relationship_instance (model_name id : string)
    (raw_values : gmap string string) : session StoredRel :=
  model ← rel_model model_name;
  raw_id ← lift (parse_backend_id id rel_id_type "edge id");
  props ← lift (parse_rel_filters raw_values model);
  existing ← existing_edge model_name raw_id;
  update_relationship_tx raw_id existing props.

Definition update_relationship_instance_from_props (model_name : string) (raw_id : Z)
    (values : Props) : session StoredRel :=
  model ← rel_model model_name;
  props ← lift (validate_update_props "relationship model" (rm_name model) (rm_fields model)
                  values);
  existing ← existing_edge model_name raw_id;
  update_relationship_tx raw_id existing props.

Definition delete_relationship_instance (model_name id : string) : session unit :=
  raw_id ← lift (parse_backend_id id rel_id_type "edge id");
  existing ← existing_edge model_name raw_id;
  in_transaction (
    _ ← tx_delete_relationship (sr_id existing);
    commit).

(** ** Mutations with their durable operation *)

Definition apply_node_create (request : NodeCreateRequest) : session (Outcome StoredNode) :=
  node ← create_instance_from_props (nc_model request) (nc_props request);
  mret {| ro_value := node; ro_durable_op := UpsertNode node |}.
Definition apply_node_update (request : NodeUpdateRequest) : session (Outcome StoredNode) :=
  node ← update_node_instance_from_props (nu_model request) (nu_id request) (nu_props request);
  mret {| ro_value := node; ro_durable_op := UpsertNode node |}.
Definition apply_node_delete (request : NodeDeleteRequest) : session (Outcome RuntimeDelete) :=
  _ ← delete_node_instance (nd_model request) (Z_to_string (nd_id request));
  mret {| ro_value := {| del_model := nd_model request; del_id := nd_id request |};
          ro_durable_op := DurDeleteNode (nd_id request) |}.
Definition apply_edge_create (request : EdgeCreateRequest) : session (Outcome StoredRel) :=
  edge ← create_relationship_instance_from_props (ec_model request) (ec_from request)
           (ec_to request) (ec_props request);
  mret {| ro_value := edge; ro_durable_op := UpsertRel edge |}.
Definition apply_edge_update (request : EdgeUpdateRequest) : session (Outcome StoredRel) :=
  edge ← update_relationship_instance_from_props (eu_model request) (eu_id request)
           (eu_props request);
  mret {| ro_value := edge; ro_durable_op := UpsertRel edge |}.
Definition apply_edge_delete (request : EdgeDeleteRequest) : session (Outcome RuntimeDelete) :=
  _ ← delete_relationship_instance (ed_model request) (Z_to_string (ed_id request));
  mret {| ro_value := {| del_model := ed_model request; del_id := ed_id request |};
          ro_durable_op := DurDeleteRel (ed_id request) |}.

(** ** Replaying the durable log *)

Definition max_id (next id : Z) : Z := Z.max next (i64_add id 1).

(** [store.next_node_id = store.next_node_id.max(node.id + 1)] *)
Definition advance_node_id (id : Z) (s : GraphStore) : GraphStore :=
  set_next_ids (max_id (next_node_id s) id) (next_rel_id s) s.
Definition advance_rel_id (id : Z) (s : GraphStore) : GraphStore :=
  set_next_ids (next_node_id s) (max_id (next_rel_id s) id) s.

Fixpoint apply_session_log_entry (entry : DurableOperation) (σ : SessionState)
    : result SessionState :=
  let s := ss_store σ in
  let c := ss_catalog σ in
  match entry with
  | RegisterNodeModel model =>
      match get_node_model c (nm_name model) with
      | Some _ => Ok σ
      | None => c ← register_node_model model c; Ok (set_catalog c σ)
      end
  | RegisterRelModel model =>
      match get_rel_model c (rm_name model) with
      | Some _ => Ok σ
      | None => c ← register_rel_model model c; Ok (set_catalog c σ)
      end
  | UpsertNode node =>
      Ok (set_store (insert_node (sn_id node) node (advance_node_id (sn_id node) s)).2 σ)
  | DurDeleteNode id => Ok (set_store (remove_node id s).2 σ)
  | UpsertRel rel =>
      Ok (set_store (insert_relationship (sr_id rel) rel (advance_rel_id (sr_id rel) s)).2 σ)
  | DurDeleteRel id => Ok (set_store (remove_relationship id s).2 σ)
  | DurBatch ops =>
      (fix go (ops : list DurableOperation) (σ : SessionState) : result SessionState :=
         match ops with
         | [] => Ok σ
         | op :: ops => σ ← apply_session_log_entry op σ; go ops σ
         end) ops σ
  end.

(** The loop of [apply_session_log] over the entries it read. *)
Definition replay (entries : list DurableOperation) (σ : SessionState) : result SessionState :=
  try_fold (λ σ entry,
    match apply_session_log_entry entry σ with
    | Ok σ => Ok σ
    | Err _ => Err (LoadAborted "failed to apply session log file")
    end) σ entries.
End session.

(** ** What the steps of a handler do *)

Section handlers.
Context `{SerdeNumber} `{Formats}.
Implicit Types (σ τ : SessionState) (s t : GraphStore).

Lemma set_store_same σ : set_store (ss_store σ) σ = σ.
Proof. by destruct σ. Qed.
Lemma set_catalog_same σ : set_catalog (ss_catalog σ) σ = σ.
Proof. by destruct σ. Qed.

Lemma session_bind_lift {A B} (r : result A) (f : A → session B) σ :
  (lift r ≫= f) σ = match r with Ok a => f a σ | Err e => (Err e, σ) end.
Proof. by destruct r. Qed.

(** An empty store is ready. *)
Lemma default_ready : store_ready GraphStore_default.
Proof.
  split; cbn -[i64_max]; try (intros ? [? Hl]; by rewrite lookup_empty in Hl); try done;
    apply default_wf.
Qed.
(** What a commit leaves is ready for the next transaction. *)
Lemma committed_ready s tx :
  tx_inv s tx → graph_of (tx_commit s tx).1 = view s tx ∧ store_ready (tx_commit s tx).1.
Proof.
  intros Hinv. destruct (apply_delta_view s tx Hinv) as (Hwf & Hnd & Hg).
  cbn -[apply_delta_to]. rewrite Hg. split; [done|].
  injection Hg as Hn Hr Hnn Hnr. split; try done.
  - intros id. rewrite Hn, Hnn. intros [node Hv%view_node_Some].
    apply (ti_next_node _ _ Hinv). destruct Hv as [_ [?|[_ ?]]]; [right|left]; by eexists.
  - intros id. rewrite Hr, Hnr. intros [rel Hv].
    apply (view_rel_Some _ _ _ _ Hinv) in Hv. apply (ti_next_rel _ _ Hinv).
    destruct Hv as [_ [?|[_ ?]]]; [right|left]; by eexists.
  - rewrite Hnn. apply (ti_bounds _ _ Hinv).
  - rewrite Hnr. apply (ti_bounds _ _ Hinv).
Qed.

(** A transaction of one operation, committed. *)
Lemma committed_ok op s :
  store_ready s → legal op s tx_new →
  let '(r, s', tx) := tx_step op s tx_new in
  spec_step op (graph_of s) = (r, graph_of (tx_commit s' tx).1) ∧
  store_ready (tx_commit s' tx).1.
Proof.
  intros Hready Hlegal. pose proof (store_ready_inv s Hready) as Hinv.
  pose proof (tx_step_simulates op s tx_new Hinv Hlegal) as Hsim. unfold simulates in Hsim.
  rewrite view_new in Hsim. destruct (tx_step op s tx_new) as [[r s'] tx].
  destruct Hsim as [Hspec Hinv']. by destruct (committed_ready s' tx Hinv') as [-> ?].
Qed.

Lemma find_node_new id s : find_node_by_id id s tx_new = nodes s !! id.
Proof.
  unfold find_node_by_id. cbn. rewrite decide_False by set_solver. by rewrite lookup_empty.
Qed.

(** The checks before an update or a deletion leave the transaction as it was. *)
Lemma existing_node_run model id s :
  ∃ r, existing_node model id s (Some tx_new) = (r, s, Some tx_new) ∧
    ∀ node, r = Ok node ↔
      nodes s !! id = Some node ∧ has_label_named node (nm_label model) = true.
Proof.
  unfold existing_node, tx_find_node, tx_op, mbind, txm_bind. cbn -[find_node_by_id].
  rewrite find_node_new. unfold tx_lift.
  destruct (nodes s !! id) as [node|]; cbn;
    [|by eexists; split; [done|]; intros; split; [|intros []]].
  destruct (has_label_named node (nm_label model)) eqn:Hl; eexists; (split; [done|]);
    intros node'; (split; [by intros [= <-]|intros [[= <-] Hl']]); congruence.
Qed.

Lemma end_node_run side id name s :
  ∃ r, end_node side id name s (Some tx_new) = (r, s, Some tx_new) ∧
    (r = Ok tt ↔ ∃ node, nodes s !! id = Some node ∧ has_label_named node name = true).
Proof.
  unfold end_node, tx_find_node, tx_op, mbind, txm_bind. cbn -[find_node_by_id].
  rewrite find_node_new. unfold tx_lift.
  destruct (nodes s !! id) as [node|]; cbn;
    [|by eexists; split; [done|]; split; [|intros (? & ? & _)]].
  destruct (has_label_named node name) eqn:Hl; eexists; (split; [done|]);
    (split; [by eauto|intros (node' & [= <-] & Hl')]); congruence.
Qed.

Lemma str_trim_Z_to_string z : str_trim (Z_to_string z) = Z_to_string z.
Proof.
  apply str_trim_plain. unfold Z_to_string.
  case_match; cbn; (eapply all_chars_impl; [exact digit_plain|apply u_to_string_digits]).
Qed.

Lemma parse_id_to_string id type subject id' :
  parse_backend_id (Z_to_string id) type subject = Ok id' → id' = id.
Proof.
  destruct type; [|done]. unfold parse_backend_id. rewrite str_trim_Z_to_string.
  unfold parse_i64. rewrite parse_signed_to_string. unfold check_range. cbn.
  case_match; cbn; [by intros [= <-]|done].
Qed.

Lemma bt_iter_singleton {V} (k : string) (v : V) : bt_iter {[k := v]} = [(k, v)].
Proof. unfold bt_iter. by rewrite map_to_list_singleton. Qed.

(** The find on [id] looks one relationship up. *)
Definition edge_of_type (s : GraphStore) (model : RuntimeRelModel) (id : Z) : option StoredRel :=
  rel ← rels s !! id;
  if String.eqb (sr_rel_type rel) (rm_rel_type model) then Some rel else None.

Lemma parse_id_filter raw model ty1 ty2 :
  parse_edge_find_query {["id" := raw]} model ty1 ty2 =
  id ← parse_backend_id raw ty1 "id";
  Ok {| eq_predicates := []; eq_order := []; eq_limit := None; eq_offset := None;
        eq_id_filter := Some id; eq_from_filter := None; eq_to_filter := None;
        eq_format := FormatDefault |}.
Proof.
  unfold parse_edge_find_query. rewrite bt_iter_singleton. cbn -[parse_backend_id].
  repeat (rewrite (proj2 (String.eqb_neq _ _)) by done; cbn -[parse_backend_id]).
  rewrite String.eqb_refl. cbn -[parse_backend_id].
  by destruct (parse_backend_id raw ty1 "id").
Qed.

Lemma matches_no_predicates (rs : list StoredRel) :
  filter (λ rel, matches_predicates (sr_props rel) []) rs = rs.
Proof. induction rs as [|rel rs IH]; [done|]. rewrite filter_cons_True by done. by rewrite IH. Qed.

Lemma existing_edge_run name id σ :
  ∃ r, existing_edge name id σ = (r, σ) ∧
    ∀ rel, r = Ok rel →
      ∃ m, get_rel_model (ss_catalog σ) name = Some m ∧
           edge_of_type (ss_store σ) m id = Some rel.
Proof.
  unfold existing_edge, catalog, on_store, mbind, session_bind. cbn -[find_relationships].
  rewrite set_store_same. unfold find_relationships.
  destruct (get_rel_model (ss_catalog σ) name) as [m|] eqn:Hm; cbn -[parse_edge_find_query];
    [|by eexists].
  rewrite parse_id_filter.
  destruct (parse_backend_id (Z_to_string id) rel_id_type "id") as [id'|] eqn:Hid;
    cbn -[find_relationships_with_query]; [|by eexists].
  apply parse_id_to_string in Hid as ->. unfold find_relationships_with_query. rewrite Hm. cbn -[matches_predicates].
  rewrite matches_no_predicates. unfold edge_of_type.
  destruct (rels (ss_store σ) !! id) as [rel|]; cbn; [|by eexists].
  unfold rel_selected. rewrite !andb_true_r.
  destruct (String.eqb _ _) eqn:Hty; cbn; eexists; (split; [done|]); [|done].
  intros rel' Hrel. cbn in Hrel. injection Hrel as <-. exists m. by rewrite Hty.
Qed.
End handlers.

Section effects.
Context `{SerdeNumber} `{Formats}.
Implicit Types (σ τ : SessionState) (s t : GraphStore) (g : AGraph).

(** A handler's outcome: an error changes nothing; a success keeps the catalog
    and a ready store, and relates its answer to the new graph. *)
Definition outcome {A} (r : result A * SessionState) σ (P : A → AGraph → Prop) : Prop :=
  match r with
  | (Ok a, σ') =>
      ss_catalog σ' = ss_catalog σ ∧ store_ready (ss_store σ') ∧ P a (graph_of (ss_store σ'))
  | (Err _, σ') => σ' = σ
  end.

Lemma outcome_lift {A B} (r : result A) (f : A → session B) σ P :
  (∀ a, r = Ok a → outcome (f a σ) σ P) → outcome ((lift r ≫= f) σ) σ P.
Proof. intros Hf. rewrite session_bind_lift. destruct r; [by apply Hf|done]. Qed.

Lemma not_updated_new s id : ¬ updated_node s tx_new id ∧ ¬ updated_rel s tx_new id.
Proof. split; intros [[? Hl] _]; cbn in Hl; by rewrite lookup_empty in Hl. Qed.

Definition labelled g id name : Prop :=
  ∃ node, ag_nodes g !! id = Some node ∧ has_label_named node name = true.

Lemma create_node_tx_ok m props σ :
  store_ready (ss_store σ) → (next_node_id (ss_store σ) < i64_max)%Z →
  outcome (create_node_tx m props σ) σ (λ node g,
    spec_step (CreateNode [nm_label m] props) (graph_of (ss_store σ)) = (RNode node, g)).
Proof.
  intros Hready Hroom. pose proof (committed_ok (CreateNode [nm_label m] props) _ Hready Hroom) as Hc.
  cbn -[create_node spec_step tx_commit graph_of] in Hc. unfold create_node_tx, in_transaction, tx_create_node, tx_op, commit, mbind, txm_bind.
  cbn -[create_node spec_step tx_commit graph_of].
  destruct (create_node [nm_label m] props (ss_store σ) tx_new) as [[node s'] tx].
  cbn -[spec_step tx_commit graph_of]. destruct Hc as [? ?]. done.
Qed.

Lemma update_node_tx_ok m id props σ :
  store_ready (ss_store σ) →
  outcome (update_node_tx m id props σ) σ (λ node g,
    labelled (graph_of (ss_store σ)) id (nm_label m) ∧
    spec_step (UpdateNode id props) (graph_of (ss_store σ)) = (RNodeOpt (Some node), g)).
Proof.
  intros Hready. pose proof (committed_ok (UpdateNode id props) _ Hready I) as Hc.
  cbn -[update_node spec_step tx_commit graph_of] in Hc.
  destruct (existing_node_run m id (ss_store σ)) as (r & Hrun & Hr).
  unfold update_node_tx, in_transaction, tx_update_node, tx_op, tx_lift, commit, mbind, txm_bind.
  rewrite Hrun. destruct r as [node0|e]; cbn -[update_node spec_step tx_commit graph_of];
    [|by rewrite set_store_same].
  destruct (proj1 (Hr node0) eq_refl) as [Hn Hl].
  destruct (update_node id props (ss_store σ) tx_new) as [[node|] tx];
    cbn -[spec_step tx_commit graph_of]; [|by rewrite set_store_same].
  destruct Hc as [Hspec ?]. split_and!; try done. by exists node0.
Qed.

Lemma delete_node_tx_ok m id σ :
  store_ready (ss_store σ) →
  outcome (in_transaction (_ ← existing_node m id; _ ← tx_delete_node id; commit) σ) σ (λ _ g,
    labelled (graph_of (ss_store σ)) id (nm_label m) ∧
    spec_step (DeleteNode id) (graph_of (ss_store σ)) = (RUnit, g)).
Proof.
  intros Hready. assert (legal (DeleteNode id) (ss_store σ) tx_new) as Hlegal.
  { split; [apply not_updated_new|]. intros r rel _ _. apply not_updated_new. }
  pose proof (committed_ok _ _ Hready Hlegal) as Hc.
  cbn -[delete_node spec_step tx_commit graph_of] in Hc.
  destruct (existing_node_run m id (ss_store σ)) as (r & Hrun & Hr).
  unfold in_transaction, tx_delete_node, tx_op, commit, mbind, txm_bind.
  rewrite Hrun. destruct r as [node0|e]; cbn -[delete_node spec_step tx_commit graph_of];
    [|by rewrite set_store_same].
  destruct (proj1 (Hr node0) eq_refl) as [Hn Hl]. destruct Hc as [Hspec ?].
  split_and!; try done. by exists node0.
Qed.

Lemma create_relationship_tx_ok m from to props σ :
  store_ready (ss_store σ) → (next_rel_id (ss_store σ) < i64_max)%Z →
  outcome (create_relationship_tx m from to props σ) σ (λ rel g,
    labelled (graph_of (ss_store σ)) from (rm_from_model m) ∧
    labelled (graph_of (ss_store σ)) to (rm_to_model m) ∧
    spec_step (CreateRelationship from to (rm_rel_type m) props) (graph_of (ss_store σ))
      = (RRel rel, g)).
Proof.
  intros Hready Hroom.
  destruct (end_node_run "from" from (rm_from_model m) (ss_store σ)) as (r1 & Hrun1 & Hr1).
  destruct (end_node_run "to" to (rm_to_model m) (ss_store σ)) as (r2 & Hrun2 & Hr2).
  unfold create_relationship_tx, in_transaction, tx_create_relationship, tx_op, commit, mbind,
    txm_bind.
  rewrite Hrun1. destruct r1 as [[]|e]; cbn -[create_relationship spec_step tx_commit graph_of];
    [|by rewrite set_store_same].
  rewrite Hrun2. destruct r2 as [[]|e]; cbn -[create_relationship spec_step tx_commit graph_of];
    [|by rewrite set_store_same].
  destruct (proj1 Hr1 eq_refl) as (nf & Hf & Hlf), (proj1 Hr2 eq_refl) as (nt & Ht & Hlt).
  assert (legal (CreateRelationship from to (rm_rel_type m) props) (ss_store σ) tx_new) as Hlegal.
  { split; [done|]. pose proof (f_equal ag_nodes (view_new (ss_store σ))) as Hv. cbn in Hv.
    rewrite Hv. split; by eexists. }
  pose proof (committed_ok _ _ Hready Hlegal) as Hc.
  cbn -[create_relationship spec_step tx_commit graph_of] in Hc.
  destruct (create_relationship from to (rm_rel_type m) props (ss_store σ) tx_new)
    as [[rel s'] tx]. cbn -[spec_step tx_commit graph_of]. destruct Hc as [Hspec ?].
  split_and!; try done; [by exists nf|by exists nt].
Qed.

Lemma update_relationship_tx_ok raw_id existing props σ :
  store_ready (ss_store σ) →
  outcome (update_relationship_tx raw_id existing props σ) σ (λ rel g,
    spec_step (UpdateRelationship (sr_id existing) props) (graph_of (ss_store σ))
      = (RRelOpt (Some rel), g)).
Proof.
  intros Hready. pose proof (committed_ok (UpdateRelationship (sr_id existing) props) _ Hready I) as Hc.
  cbn -[update_relationship spec_step tx_commit graph_of] in Hc.
  unfold update_relationship_tx, in_transaction, tx_update_relationship, tx_op, tx_lift, commit,
    mbind, txm_bind. cbn -[update_relationship spec_step tx_commit graph_of].
  destruct (update_relationship (sr_id existing) props (ss_store σ) tx_new) as [[rel|] tx];
    cbn -[spec_step tx_commit graph_of]; [|by rewrite set_store_same]. by destruct Hc.
Qed.

Lemma delete_relationship_tx_ok id σ :
  store_ready (ss_store σ) →
  outcome (in_transaction (_ ← tx_delete_relationship id; commit) σ) σ (λ _ g,
    spec_step (DeleteRelationship id) (graph_of (ss_store σ)) = (RUnit, g)).
Proof.
  intros Hready. assert (legal (DeleteRelationship id) (ss_store σ) tx_new) as Hlegal
    by apply not_updated_new.
  by pose proof (committed_ok _ _ Hready Hlegal) as [? ?].
Qed.
End effects.

(** ** Replaying an operation redoes it *)

Section replay.
Context `{SerdeNumber} `{Formats}.
Implicit Types (σ τ : SessionState) (s t : GraphStore) (g : AGraph).

(** Two sessions with the same graph and catalog; the second one's indexes are
    consistent, whatever its lazy index holds. *)
Record same_session σ τ : Prop := {
  ss_graph : graph_of (ss_store τ) = graph_of (ss_store σ);
  ss_models : ss_catalog τ = ss_catalog σ;
  ss_wf : store_wf (ss_store τ);
}.

Definition replays (op : DurableOperation) σ σ' : Prop :=
  ∀ τ, same_session σ τ → ∃ τ', apply_session_log_entry op τ = Ok τ' ∧ same_session σ' τ'.

Lemma graph_of_eq s t : graph_of s = graph_of t ↔ same_graph s t.
Proof. unfold graph_of, same_graph. split; [by intros [= -> -> -> ->]|by intros (-> & -> & -> & ->)]. Qed.

Lemma same_ready σ τ : same_session σ τ → store_ready (ss_store σ) → store_ready (ss_store τ).
Proof.
  intros [(Hn & Hr & Hnn & Hnr)%graph_of_eq _ Hwf] []. unfold no_dangling in *.
  split; try done; unfold no_dangling; by rewrite ?Hn, ?Hr, ?Hnn, ?Hnr.
Qed.

Lemma same_session_refl σ : store_ready (ss_store σ) → same_session σ σ.
Proof. intros []. by split. Qed.

Lemma max_id_fresh next id :
  (i64_min ≤ id < i64_max)%Z → max_id next id = Z.max next (id + 1).
Proof. intros Hid. unfold max_id. rewrite i64_add_small; [done|]. unfold i64_max, i64_min in *. lia. Qed.

Lemma upsert_node_replays node σ σ' :
  store_ready (ss_store σ) → ss_catalog σ' = ss_catalog σ →
  (i64_min ≤ sn_id node < i64_max)%Z →
  graph_of (ss_store σ') =
    {| ag_nodes := <[sn_id node := node]> (nodes (ss_store σ)); ag_rels := rels (ss_store σ);
       ag_next_node := Z.max (next_node_id (ss_store σ)) (sn_id node + 1);
       ag_next_rel := next_rel_id (ss_store σ) |} →
  replays (UpsertNode node) σ σ'.
Proof.
  intros Hready Hc Hid Hg τ [Hgτ Hcτ Hwf]. eexists. split; [done|]. split; cbn -[insert_node].
  - destruct (insert_node_fields (sn_id node) node (advance_node_id (sn_id node) (ss_store τ)))
      as (Hn & Hr & Hnn & Hnr & _).
    rewrite Hg. unfold graph_of in Hgτ |- *. rewrite Hn, Hr, Hnn, Hnr. cbn.
    rewrite max_id_fresh by done. by injection Hgτ as -> -> -> ->.
  - congruence.
  - apply insert_node_wf; [done|]. by apply set_next_ids_wf.
Qed.

Lemma upsert_rel_replays rel σ σ' :
  store_ready (ss_store σ) → ss_catalog σ' = ss_catalog σ →
  (i64_min ≤ sr_id rel < i64_max)%Z →
  graph_of (ss_store σ') =
    {| ag_nodes := nodes (ss_store σ); ag_rels := <[sr_id rel := rel]> (rels (ss_store σ));
       ag_next_node := next_node_id (ss_store σ);
       ag_next_rel := Z.max (next_rel_id (ss_store σ)) (sr_id rel + 1) |} →
  replays (UpsertRel rel) σ σ'.
Proof.
  intros Hready Hc Hid Hg τ [Hgτ Hcτ Hwf]. eexists. split; [done|]. split; cbn -[insert_relationship].
  - destruct (insert_relationship_frame (sr_id rel) rel (advance_rel_id (sr_id rel) (ss_store τ)))
      as ((Hn & Hnn & Hnr & _) & Hr).
    rewrite Hg. unfold graph_of in Hgτ |- *. rewrite Hr, Hn, Hnn, Hnr. cbn.
    rewrite max_id_fresh by done. by injection Hgτ as -> -> -> ->.
  - congruence.
  - apply insert_relationship_wf; [done|]. by apply set_next_ids_wf.
Qed.

Lemma delete_node_replays id σ σ' :
  store_ready (ss_store σ) → ss_catalog σ' = ss_catalog σ →
  graph_of (ss_store σ') = (spec_step (DeleteNode id) (graph_of (ss_store σ))).2 →
  replays (DurDeleteNode id) σ σ'.
Proof.
  intros Hready Hc Hg τ Hsame. pose proof (same_ready _ _ Hsame Hready) as Hτ.
  destruct Hsame as [Hgτ Hcτ Hwf]. eexists. split; [done|].
  destruct (remove_node_effect id (ss_store τ) Hwf) as (Hwf' & Hn & Hnn & Hnr & _).
  split; cbn -[remove_node]; [|congruence|done].
  rewrite Hg, <-Hgτ. apply AGraph_eq; try done; intros i; [by rewrite Hn|].
  rewrite (remove_node_rels _ _ Hwf (sr_closed _ Hτ)), map_lookup_filter. cbn.
  destruct (rels (ss_store τ) !! i) as [rel|]; cbn; [|done].
  destruct (rel_touches id rel); by case_guard.
Qed.

Lemma delete_rel_replays id σ σ' :
  ss_catalog σ' = ss_catalog σ →
  graph_of (ss_store σ') = (spec_step (DeleteRelationship id) (graph_of (ss_store σ))).2 →
  replays (DurDeleteRel id) σ σ'.
Proof.
  intros Hc Hg τ [Hgτ Hcτ Hwf]. eexists. split; [done|].
  destruct (remove_relationship_frame id (ss_store τ)) as ((Hn & Hnn & Hnr & _) & Hr).
  split; cbn -[remove_relationship]; [|congruence|by apply remove_relationship_wf].
  rewrite Hg, <-Hgτ. unfold graph_of. cbn -[remove_relationship]. by rewrite Hr, Hn, Hnn, Hnr.
Qed.
End replay.

(** ** The graph of a session conforms to its catalog *)

Section conformance.
Context `{SerdeNumber} `{Formats}.
Implicit Types (σ τ : SessionState) (s t : GraphStore) (g : AGraph) (c : SessionModelCatalog).

Definition node_conforms c (node : StoredNode) : Prop :=
  ∃ m, get_node_model c (nm_name m) = Some m ∧ sn_labels node = [nm_label m] ∧
       conforms (nm_fields m) (sn_props node).

Definition rel_conforms c g (rel : StoredRel) : Prop :=
  ∃ m, get_rel_model c (rm_name m) = Some m ∧ sr_rel_type rel = rm_rel_type m ∧
       conforms (rm_fields m) (sr_props rel) ∧
       labelled g (sr_from rel) (rm_from_model m) ∧ labelled g (sr_to rel) (rm_to_model m).

Record graph_conforms c g : Prop := {
  gc_nodes id node : ag_nodes g !! id = Some node → node_conforms c node;
  gc_rels id rel : ag_rels g !! id = Some rel → rel_conforms c g rel;
}.

Record session_inv σ : Prop := {
  si_ready : store_ready (ss_store σ);
  si_catalog : catalog_ok (ss_catalog σ);
  si_graph : graph_conforms (ss_catalog σ) (graph_of (ss_store σ));
}.

Lemma session_new_inv : session_inv session_new.
Proof.
  split; [apply default_ready|apply catalog_new_ok|].
  - split; intros ?? Hl; cbn in Hl; by rewrite lookup_empty in Hl.
Qed.

(** *** The schema may grow *)

Lemma node_conforms_grow c c' node :
  (∀ name m, get_node_model c name = Some m → get_node_model c' name = Some m) →
  node_conforms c node → node_conforms c' node.
Proof. intros Hc (m & Hm & ?). exists m. auto. Qed.

Lemma rel_conforms_grow c c' g rel :
  (∀ name m, get_rel_model c name = Some m → get_rel_model c' name = Some m) →
  rel_conforms c g rel → rel_conforms c' g rel.
Proof. intros Hc (m & Hm & ?). exists m. auto. Qed.

(** *** Updates *)

Lemma update_loop kind model fields l (acc props : Props) :
  try_fold (update_prop kind model fields) acc l = Ok props →
  props = bt_extend acc l ∧
  ∀ k v, (k, v) ∈ l → ∃ f, find_field fields k = Some f ∧
    validate_value_for_kind (kind_of_type (field_type f)) v = true.
Proof.
  revert acc. induction l as [|[k v] l IH]; intros acc.
  { intros [= <-]. split; [done|]. intros ?? Hl. by apply elem_of_nil in Hl. }
  cbn -[validate_value_for_kind]. destruct (find_field fields k) as [f|] eqn:Hf; [|done].
  cbn -[validate_value_for_kind].
  destruct (validate_value_for_kind _ v) eqn:Hv; [|done]. intros [-> Hl]%IH. split; [done|].
  intros k' v' [[= -> ->]|Hin]%elem_of_cons; [by exists f|by apply Hl].
Qed.

Definition fits (fields : list RuntimeField) (values : Props) : Prop :=
  ∀ k v, values !! k = Some v → ∃ f, find_field fields k = Some f ∧
    validate_value_for_kind (kind_of_type (field_type f)) v = true.

Lemma validate_update_ok kind model fields values props :
  validate_update_props kind model fields values = Ok props →
  props = values ∧ fits fields values.
Proof.
  intros [-> Hl]%update_loop. rewrite lookup_bt_extend_iter, (right_id_L ∅ (∪)).
  split; [done|]. intros k v Hv. apply Hl. by apply elem_of_bt_iter.
Qed.

Lemma conforms_update fields (old values : Props) :
  NoDup (map field_name fields) → conforms fields old → fits fields values →
  conforms fields (values ∪ old).
Proof.
  intros Hnd [Hk Hf] Hfits. split.
  - intros key [v Hv]. apply lookup_union_Some_raw in Hv as [Hv|[_ Hv]].
    + destruct (Hfits _ _ Hv) as (f & Hfind & _). exists f. by apply find_field_Some.
    + apply Hk. by eexists.
  - intros f Hin. destruct (values !! field_name f) as [v|] eqn:Hv.
    + rewrite (lookup_union_Some_l _ _ _ v Hv).
      destruct (Hfits _ _ Hv) as (f' & [Hin' Heq]%find_field_Some & Hval).
      assert (f' = f) as ->; [|done].
      apply list_elem_of_lookup in Hin as [i Hi], Hin' as [j Hj].
      assert (i = j) as ->; [|congruence]. eapply NoDup_lookup; [exact Hnd|..];
        rewrite list_lookup_fmap; [by rewrite Hi|]. rewrite Hj. cbn. by rewrite Heq.
    + rewrite lookup_union_r by done. by apply Hf.
Qed.

Lemma model_fields_nodup id_field fields : fields_ok id_field fields → NoDup (map field_name fields).
Proof. intros [[_ Hnd]%NoDup_cons _]. done. Qed.

(** A node's label names its model. *)
Lemma labelled_model c node m :
  catalog_ok c → node_conforms c node → get_node_model c (nm_name m) = Some m →
  has_label_named node (nm_label m) = true →
  sn_labels node = [nm_label m] ∧ conforms (nm_fields m) (sn_props node).
Proof.
  intros Hc (m' & Hm' & Hl & Hf) Hm Hlabel. unfold has_label_named in Hlabel. rewrite Hl in Hlabel.
  cbn in Hlabel. rewrite orb_false_r in Hlabel. apply String.eqb_eq in Hlabel.
  destruct (Catalog.co_node _ Hc _ _ Hm') as [_ (_ & Hlm' & _)], (Catalog.co_node _ Hc _ _ Hm) as [_ (_ & Hlm & _)].
  assert (nm_name m' = nm_name m) as Heq by congruence. rewrite Heq, Hm in Hm'.
  injection Hm' as <-. done.
Qed.

Lemma typed_model c g rel m :
  catalog_ok c → rel_conforms c g rel → get_rel_model c (rm_name m) = Some m →
  sr_rel_type rel = rm_rel_type m →
  conforms (rm_fields m) (sr_props rel) ∧
  labelled g (sr_from rel) (rm_from_model m) ∧ labelled g (sr_to rel) (rm_to_model m).
Proof.
  intros Hc (m' & Hm' & Hty & ? & ? & ?) Hm Hty'.
  destruct (Catalog.co_rel _ Hc _ _ Hm') as (_ & (_ & Hr' & _) & _), (Catalog.co_rel _ Hc _ _ Hm) as (_ & (_ & Hr & _) & _).
  assert (rm_name m' = rm_name m) as Heq by congruence. rewrite Heq, Hm in Hm'.
  by injection Hm' as <-.
Qed.
End conformance.

(** ** Every mutation keeps the session consistent and can be replayed *)

(** An equation on a result and a graph, taken apart. *)
Ltac split_spec H Hres Hg :=
  pose proof (f_equal fst H) as Hres; pose proof (f_equal snd H) as Hg; cbn [fst snd] in Hres, Hg;
  clear H.

Section mutations.
Context `{SerdeNumber} `{Formats}.
Implicit Types (σ τ : SessionState) (s t : GraphStore) (g : AGraph) (c : SessionModelCatalog).

Lemma conf_create_node c g m props :
  graph_conforms c g → get_node_model c (nm_name m) = Some m → conforms (nm_fields m) props →
  ag_nodes g !! ag_next_node g = None →
  graph_conforms c (spec_step (CreateNode [nm_label m] props) g).2.
Proof.
  intros [Hn Hr] Hm Hp Hfresh. split; cbn.
  - intros id node [[<- <-]|[_ Hl]]%lookup_insert_Some; [|by eapply Hn]. by exists m.
  - intros id rel (m' & ? & ? & ? & (nf & Hf & ?) & (nt & Ht & ?))%Hr. exists m'.
    split_and!; try done; cbn; [exists nf|exists nt]; (split; [|done]); cbn;
      rewrite lookup_insert_ne; congruence.
Qed.

Lemma conf_update_node c g m id props node :
  catalog_ok c → graph_conforms c g → get_node_model c (nm_name m) = Some m →
  labelled g id (nm_label m) → fits (nm_fields m) props →
  (spec_step (UpdateNode id props) g).1 = RNodeOpt (Some node) →
  graph_conforms c (spec_step (UpdateNode id props) g).2.
Proof.
  intros Hc [Hn Hr] Hm (old & Hold & Hl) Hp. cbn. rewrite Hold. intros _.
  destruct (labelled_model c old m Hc (Hn _ _ Hold) Hm Hl) as [Hlab Hconf]. split; cbn.
  - intros i node' [[<- <-]|[_ Hl']]%lookup_insert_Some; [|by eapply Hn]. exists m.
    split_and!; [done..|]. cbn. apply conforms_update; [|done..].
    eapply model_fields_nodup. by destruct (Catalog.co_node _ Hc _ _ Hm) as [_ (_ & _ & ?)].
  - assert (∀ i name, labelled g i name → ∃ node, (<[id:={| sn_id := sn_id old;
        sn_labels := sn_labels old; sn_props := props ∪ sn_props old |}]> (ag_nodes g)) !! i
        = Some node ∧ has_label_named node name = true) as Hkeep.
    { intros i name (ni & Hi & ?). destruct (decide (id = i)) as [<-|Hne].
      - eexists. rewrite lookup_insert_eq. split; [done|]. rewrite Hold in Hi. by injection Hi as <-.
      - exists ni. by rewrite lookup_insert_ne. }
    intros i rel (m' & ? & ? & ? & ? & ?)%Hr. exists m'. split_and!; try done; by apply Hkeep.
Qed.

Lemma conf_delete_node c g id :
  graph_conforms c g → graph_conforms c (spec_step (DeleteNode id) g).2.
Proof.
  intros [Hn Hr]. split; cbn.
  - intros i node [_ Hl]%lookup_delete_Some. by eapply Hn.
  - intros i rel [Hl Ht]%map_lookup_filter_Some. cbn in Ht.
    destruct (Hr _ _ Hl) as (m & ? & ? & ? & (nf & Hf & ?) & (nt & Hto & ?)).
    apply rel_touches_false in Ht as [? ?]. exists m.
    split_and!; try done; cbn; [exists nf|exists nt]; (split; [|done]); cbn;
      rewrite lookup_delete_ne; congruence.
Qed.

Lemma conf_create_rel c g m from to props :
  graph_conforms c g → get_rel_model c (rm_name m) = Some m → conforms (rm_fields m) props →
  labelled g from (rm_from_model m) → labelled g to (rm_to_model m) →
  graph_conforms c (spec_step (CreateRelationship from to (rm_rel_type m) props) g).2.
Proof.
  intros [Hn Hr] Hm Hp Hf Ht. split; cbn; [by apply Hn|].
  intros id rel [[<- <-]|[_ Hl]]%lookup_insert_Some; [|by eapply Hr]. by exists m.
Qed.

Lemma conf_update_rel c g m id props old rel :
  catalog_ok c → graph_conforms c g → get_rel_model c (rm_name m) = Some m →
  ag_rels g !! id = Some old → sr_rel_type old = rm_rel_type m → fits (rm_fields m) props →
  (spec_step (UpdateRelationship id props) g).1 = RRelOpt (Some rel) →
  graph_conforms c (spec_step (UpdateRelationship id props) g).2.
Proof.
  intros Hc [Hn Hr] Hm Hold Hty Hp. cbn. rewrite Hold. intros _.
  destruct (typed_model c g old m Hc (Hr _ _ Hold) Hm Hty) as (Hconf & Hf & Ht).
  split; cbn; [by apply Hn|].
  intros i rel' [[<- <-]|[_ Hl]]%lookup_insert_Some; [|by eapply Hr]. exists m.
  split_and!; try done. cbn. apply conforms_update; [|done..].
  eapply model_fields_nodup. by destruct (Catalog.co_rel _ Hc _ _ Hm) as (_ & (_ & _ & ?) & _).
Qed.

Lemma conf_delete_rel c g id :
  graph_conforms c g → graph_conforms c (spec_step (DeleteRelationship id) g).2.
Proof.
  intros [Hn Hr]. split; cbn; [by apply Hn|].
  intros i rel [_ Hl]%lookup_delete_Some. by eapply Hr.
Qed.

(** *** Structured mutations *)

Inductive Mutation :=
  | MDefineNode (request : DefineNodeRequest)
  | MDefineEdge (request : DefineEdgeRequest)
  | MNodeCreate (request : NodeCreateRequest)
  | MNodeUpdate (request : NodeUpdateRequest)
  | MNodeDelete (request : NodeDeleteRequest)
  | MEdgeCreate (request : EdgeCreateRequest)
  | MEdgeUpdate (request : EdgeUpdateRequest)
  | MEdgeDelete (request : EdgeDeleteRequest).

(** The durable operation the mutation answers. *)
Definition apply_mutation (m : Mutation) : session DurableOperation :=
  match m with
  | MDefineNode r => o ← apply_define_node r; mret (ro_durable_op o)
  | MDefineEdge r => o ← apply_define_edge r; mret (ro_durable_op o)
  | MNodeCreate r => o ← apply_node_create r; mret (ro_durable_op o)
  | MNodeUpdate r => o ← apply_node_update r; mret (ro_durable_op o)
  | MNodeDelete r => o ← apply_node_delete r; mret (ro_durable_op o)
  | MEdgeCreate r => o ← apply_edge_create r; mret (ro_durable_op o)
  | MEdgeUpdate r => o ← apply_edge_update r; mret (ro_durable_op o)
  | MEdgeDelete r => o ← apply_edge_delete r; mret (ro_durable_op o)
  end.

(** Ids are left for one more node and one more relationship. *)
Definition room σ : Prop :=
  (next_node_id (ss_store σ) < i64_max)%Z ∧ (next_rel_id (ss_store σ) < i64_max)%Z.

Definition uses_one_id σ σ' : Prop :=
  (next_node_id (ss_store σ') ≤ next_node_id (ss_store σ) + 1)%Z ∧
  (next_rel_id (ss_store σ') ≤ next_rel_id (ss_store σ) + 1)%Z.

(** What a fallible step of a session guarantees, from [σ]. *)
Definition sound {A} (r : result A * SessionState) σ (op : A → DurableOperation) : Prop :=
  match r with
  | (Ok a, σ') => session_inv σ' ∧ replays (op a) σ σ' ∧ uses_one_id σ σ'
  | (Err _, σ') => σ' = σ
  end.

Lemma sound_lift {A B} (r : result A) (f : A → session B) σ op :
  (∀ a, r = Ok a → sound (f a σ) σ op) → sound ((lift r ≫= f) σ) σ op.
Proof. intros Hf. rewrite session_bind_lift. destruct r; [by apply Hf|done]. Qed.

(** The answer is built from the step's. *)
Lemma sound_bind {A B} (m : session A) (f : A → B) σ op :
  sound (m σ) σ (λ a, op (f a)) → sound ((a ← m; mret (f a)) σ) σ op.
Proof.
  unfold sound, mbind, session_bind. by destruct (m σ) as [[a|e] σ'].
Qed.

(** From the outcome on the graph. *)
Lemma outcome_sound {A} (r : result A * SessionState) σ (P : A → AGraph → Prop) op :
  session_inv σ → outcome r σ P →
  (∀ a σ', P a (graph_of (ss_store σ')) → ss_catalog σ' = ss_catalog σ →
     store_ready (ss_store σ') →
     graph_conforms (ss_catalog σ) (graph_of (ss_store σ')) ∧ replays (op a) σ σ' ∧
     uses_one_id σ σ') →
  sound r σ op.
Proof.
  intros [Hready Hc Hg] Hout Hop. destruct r as [[a|e] σ']; [|done].
  destruct Hout as (Hcat & Hready' & HP). destruct (Hop a σ' HP Hcat Hready') as (? & ? & ?).
  split_and!; try done. split; by rewrite ?Hcat.
Qed.

(** *** Each handler *)

Lemma runtime_fields_ok l fields : mapM runtime_field l = Ok fields → length fields = length l.
Proof. intros Hf%mapM_Ok. by rewrite (Forall2_length _ _ _ Hf). Qed.

Lemma register_node_grows m c c' name m' :
  register_node_model m c = Ok c' → get_node_model c name = Some m' →
  get_node_model c' name = Some m'.
Proof.
  unfold register_node_model, get_node_model. destruct (name_taken c (nm_name m)) eqn:Ht; [done|].
  intros [= <-] Hl. apply name_taken_false in Ht as [Hn _]. cbn. rewrite lookup_insert_ne; congruence.
Qed.
Lemma register_rel_grows m c c' name m' :
  register_rel_model m c = Ok c' → get_rel_model c name = Some m' →
  get_rel_model c' name = Some m'.
Proof.
  unfold register_rel_model, get_rel_model. destruct (name_taken c (rm_name m)) eqn:Ht; [done|].
  intros [= <-] Hl. apply name_taken_false in Ht as [_ Hr]. cbn. rewrite lookup_insert_ne; congruence.
Qed.
Lemma register_node_keeps_rels m c c' :
  register_node_model m c = Ok c' → rel_models c' = rel_models c.
Proof. unfold register_node_model. case_match; [done|]. by intros [= <-]. Qed.
Lemma register_rel_keeps_nodes m c c' :
  register_rel_model m c = Ok c' → node_models c' = node_models c.
Proof. unfold register_rel_model. case_match; [done|]. by intros [= <-]. Qed.

Lemma same_session_catalog σ τ c :
  same_session σ τ → same_session (set_catalog c σ) (set_catalog c τ).
Proof. by intros []. Qed.

Lemma uses_none σ c : uses_one_id σ (set_catalog c σ).
Proof. unfold uses_one_id. cbn. lia. Qed.

Lemma conf_register_node m c c' g :
  register_node_model m c = Ok c' → graph_conforms c g → graph_conforms c' g.
Proof.
  intros Hreg [Hn Hr]. split.
  - intros id node Hl. eapply node_conforms_grow; [|by eapply Hn].
    intros name m'. by apply (register_node_grows _ _ _ _ _ Hreg).
  - intros id rel Hl. eapply rel_conforms_grow; [|by eapply Hr].
    intros name m'. unfold get_rel_model. by rewrite (register_node_keeps_rels _ _ _ Hreg).
Qed.
Lemma conf_register_rel m c c' g :
  register_rel_model m c = Ok c' → graph_conforms c g → graph_conforms c' g.
Proof.
  intros Hreg [Hn Hr]. split.
  - intros id node Hl. eapply node_conforms_grow; [|by eapply Hn].
    intros name m'. unfold get_node_model. by rewrite (register_rel_keeps_nodes _ _ _ Hreg).
  - intros id rel Hl. eapply rel_conforms_grow; [|by eapply Hr].
    intros name m'. by apply (register_rel_grows _ _ _ _ _ Hreg).
Qed.

Lemma define_node_sound r σ :
  session_inv σ → sound (apply_define_node r σ) σ ro_durable_op.
Proof.
  intros [Hready Hc Hg]. apply sound_lift. intros fields Hfields. apply sound_lift. intros m Hm.
  apply RuntimeNodeModel_new_ok in Hm as (Hok & _ & _).
  unfold register_model, mbind, session_bind.
  destruct (register_node_model m (ss_catalog σ)) as [c'|] eqn:Hreg; cbn; [|done].
  split_and!; [| |apply uses_none].
  - split; [done|by eapply register_node_model_ok|by eapply conf_register_node].
  - intros τ Hsame. eexists. split; [|by apply same_session_catalog]. cbn.
    destruct Hsame as [_ -> _]. unfold get_node_model. pose proof Hreg as Hreg'.
    unfold register_node_model in Hreg'. destruct (name_taken _ _) eqn:Ht; [done|].
    apply name_taken_false in Ht as [-> _]. by rewrite Hreg.
Qed.

Lemma define_edge_sound r σ :
  session_inv σ → sound (apply_define_edge r σ) σ ro_durable_op.
Proof.
  intros [Hready Hc Hg]. apply sound_lift. intros fields Hfields. apply sound_lift. intros m Hm.
  apply RuntimeRelModel_new_ok in Hm as (Hok & _).
  unfold session_register_rel_model, mbind, session_bind.
  destruct (get_node_model (ss_catalog σ) (rm_from_model m)) eqn:Hfrom; cbn; [|done].
  destruct (get_node_model (ss_catalog σ) (rm_to_model m)) eqn:Hto; cbn; [|done].
  destruct (register_rel_model m (ss_catalog σ)) as [c'|] eqn:Hreg; cbn; [|done].
  split_and!; [| |apply uses_none].
  - split; [done|eapply register_rel_model_ok; try done; by eexists|by eapply conf_register_rel].
  - intros τ Hsame. eexists. split; [|by apply same_session_catalog]. cbn.
    destruct Hsame as [_ -> _]. unfold get_rel_model. pose proof Hreg as Hreg'.
    unfold register_rel_model in Hreg'. destruct (name_taken _ _) eqn:Ht; [done|].
    apply name_taken_false in Ht as [_ ->]. by rewrite Hreg.
Qed.

Lemma node_model_bind {B} name (f : RuntimeNodeModel → session B) σ op :
  session_inv σ →
  (∀ m, get_node_model (ss_catalog σ) (nm_name m) = Some m → nm_name m = name →
     sound (f m σ) σ op) → sound ((node_model name ≫= f) σ) σ op.
Proof.
  intros [_ Hc _] Hf. unfold node_model, catalog, lift, mbind, session_bind.
  destruct (get_node_model (ss_catalog σ) name) as [m|] eqn:Hm; cbn; [|done].
  destruct (Catalog.co_node _ Hc _ _ Hm) as [<- _]. by apply Hf.
Qed.
Lemma rel_model_bind {B} name (f : RuntimeRelModel → session B) σ op :
  session_inv σ →
  (∀ m, get_rel_model (ss_catalog σ) (rm_name m) = Some m → rm_name m = name →
     sound (f m σ) σ op) → sound ((rel_model name ≫= f) σ) σ op.
Proof.
  intros [_ Hc _] Hf. unfold rel_model, catalog, lift, mbind, session_bind.
  destruct (get_rel_model (ss_catalog σ) name) as [m|] eqn:Hm; cbn; [|done].
  destruct (Catalog.co_rel _ Hc _ _ Hm) as [<- _]. by apply Hf.
Qed.

Lemma create_node_sound m props σ :
  session_inv σ → room σ → get_node_model (ss_catalog σ) (nm_name m) = Some m →
  conforms (nm_fields m) props → sound (create_node_tx m props σ) σ UpsertNode.
Proof.
  intros Hinv [Hroom _] Hm Hp. pose proof Hinv as [Hready Hc Hg].
  apply (outcome_sound _ _ _ _ Hinv (create_node_tx_ok m props σ Hready Hroom)).
  intros node σ' Hspec Hcat Hready'. split_spec Hspec Hres Hg'.
  pose proof (sr_node_bound _ Hready) as Hb. split_and!.
  - rewrite <-Hg'. apply (conf_create_node _ _ m props Hg Hm Hp). cbn.
    apply eq_None_not_Some. intros Hs%(sr_node_ids _ Hready). lia.
  - cbn in Hres. injection Hres as <-. apply upsert_node_replays; try done; cbn; [lia|].
    rewrite <-Hg'. cbn. f_equal. lia.
  - cbn in Hg'. unfold uses_one_id. injection Hg' as _ _ Hnn Hnr. lia.
Qed.

Lemma update_node_sound m id props σ :
  session_inv σ → get_node_model (ss_catalog σ) (nm_name m) = Some m →
  fits (nm_fields m) props → sound (update_node_tx m id props σ) σ UpsertNode.
Proof.
  intros Hinv Hm Hp. pose proof Hinv as [Hready Hc Hg].
  apply (outcome_sound _ _ _ _ Hinv (update_node_tx_ok m id props σ Hready)).
  intros node σ' [Hl Hspec] Hcat Hready'. split_spec Hspec Hres Hg'. split_and!.
  - rewrite <-Hg'. by apply (conf_update_node _ _ m id props node).
  - destruct Hl as (old & Hold & _). cbn in Hold, Hres, Hg'. rewrite Hold in Hres, Hg'.
    injection Hres as <-. pose proof (sr_node_ids _ Hready id (mk_is_Some _ _ Hold)) as Hid.
    pose proof (sr_node_bound _ Hready) as Hb. pose proof (wf_node_id _ (sr_wf _ Hready) _ _ Hold) as Hsn.
    apply upsert_node_replays; try done; cbn; rewrite Hsn; [lia|].
    rewrite <-Hg'. cbn. rewrite ?Hsn. f_equal. lia.
  - cbn in Hg'. unfold uses_one_id. destruct (nodes (ss_store σ) !! id);
      injection Hg' as _ _ Hnn Hnr; lia.
Qed.

Lemma delete_node_sound m id σ :
  session_inv σ →
  sound (in_transaction (_ ← existing_node m id; _ ← tx_delete_node id; commit) σ) σ
    (λ _, DurDeleteNode id).
Proof.
  intros Hinv. pose proof Hinv as [Hready Hc Hg].
  apply (outcome_sound _ _ _ _ Hinv (delete_node_tx_ok m id σ Hready)).
  intros _ σ' [_ Hspec] Hcat Hready'. split_spec Hspec Hres Hg'. split_and!.
  - rewrite <-Hg'. by apply conf_delete_node.
  - by apply delete_node_replays.
  - unfold uses_one_id. injection Hg' as _ _ Hnn Hnr. lia.
Qed.

Lemma create_relationship_sound m from to props σ :
  session_inv σ → room σ → get_rel_model (ss_catalog σ) (rm_name m) = Some m →
  conforms (rm_fields m) props → sound (create_relationship_tx m from to props σ) σ UpsertRel.
Proof.
  intros Hinv [_ Hroom] Hm Hp. pose proof Hinv as [Hready Hc Hg].
  apply (outcome_sound _ _ _ _ Hinv (create_relationship_tx_ok m from to props σ Hready Hroom)).
  intros rel σ' (Hf & Ht & Hspec) Hcat Hready'. split_spec Hspec Hres Hg'.
  pose proof (sr_rel_bound _ Hready) as Hb. split_and!.
  - rewrite <-Hg'. by apply (conf_create_rel _ _ m).
  - cbn in Hres. injection Hres as <-. apply upsert_rel_replays; try done; cbn; [lia|].
    rewrite <-Hg'. cbn. f_equal. lia.
  - cbn in Hg'. unfold uses_one_id. injection Hg' as _ _ Hnn Hnr. lia.
Qed.

Lemma edge_of_type_Some s m id rel :
  store_wf s → edge_of_type s m id = Some rel →
  rels s !! id = Some rel ∧ sr_rel_type rel = rm_rel_type m ∧ sr_id rel = id.
Proof.
  intros Hwf. unfold edge_of_type. destruct (rels s !! id) as [rel'|] eqn:Hr; cbn; [|done].
  destruct (String.eqb_spec (sr_rel_type rel') (rm_rel_type m)); [|done]. intros [= <-].
  split_and!; try done. by apply (wf_rel_id _ Hwf).
Qed.

Lemma update_relationship_sound m raw_id existing props σ :
  session_inv σ → get_rel_model (ss_catalog σ) (rm_name m) = Some m →
  edge_of_type (ss_store σ) m raw_id = Some existing → fits (rm_fields m) props →
  sound (update_relationship_tx raw_id existing props σ) σ UpsertRel.
Proof.
  intros Hinv Hm He Hp. pose proof Hinv as [Hready Hc Hg].
  apply (edge_of_type_Some _ _ _ _ (sr_wf _ Hready)) in He as (Hold & Hty & Hsid).
  apply (outcome_sound _ _ _ _ Hinv (update_relationship_tx_ok raw_id existing props σ Hready)).
  intros rel σ' Hspec Hcat Hready'. rewrite Hsid in Hspec. split_spec Hspec Hres Hg'. split_and!.
  - rewrite <-Hg'. by apply (conf_update_rel _ _ m raw_id props existing rel).
  - cbn in Hres, Hg'. rewrite Hold in Hres, Hg'. injection Hres as <-.
    pose proof (sr_rel_ids _ Hready raw_id (mk_is_Some _ _ Hold)) as Hid.
    pose proof (sr_rel_bound _ Hready) as Hb.
    apply upsert_rel_replays; try done; cbn; rewrite Hsid; [lia|].
    rewrite <-Hg'. cbn. rewrite ?Hsid. f_equal. lia.
  - cbn in Hg'. unfold uses_one_id. destruct (rels (ss_store σ) !! raw_id);
      injection Hg' as _ _ Hnn Hnr; lia.
Qed.

Lemma delete_relationship_sound id σ :
  session_inv σ →
  sound (in_transaction (_ ← tx_delete_relationship id; commit) σ) σ (λ _, DurDeleteRel id).
Proof.
  intros Hinv. pose proof Hinv as [Hready Hc Hg].
  apply (outcome_sound _ _ _ _ Hinv (delete_relationship_tx_ok id σ Hready)).
  intros _ σ' Hspec Hcat Hready'. split_spec Hspec Hres Hg'. split_and!.
  - rewrite <-Hg'. by apply conf_delete_rel.
  - by apply delete_rel_replays.
  - unfold uses_one_id. injection Hg' as _ _ Hnn Hnr. lia.
Qed.

Lemma mutation_sound mut σ : session_inv σ → room σ → sound (apply_mutation mut σ) σ id.
Proof.
  intros Hinv Hroom. destruct mut as [r|r|r|r|r|r|r|r]; apply sound_bind.
  - by apply define_node_sound.
  - by apply define_edge_sound.
  - apply sound_bind. apply node_model_bind; [done|]. intros m Hm _. apply sound_lift.
    intros props [-> Hp]%validate_props_ok. by apply create_node_sound.
  - apply sound_bind. apply node_model_bind; [done|]. intros m Hm _. apply sound_lift.
    intros props [-> Hp]%validate_update_ok. by apply update_node_sound.
  - apply sound_bind. apply node_model_bind; [done|]. intros m Hm _. apply sound_lift.
    intros i ->%parse_id_to_string. by apply delete_node_sound.
  - apply sound_bind. apply rel_model_bind; [done|]. intros m Hm _. apply sound_lift.
    intros props [-> Hp]%validate_props_ok. by apply create_relationship_sound.
  - apply sound_bind. apply rel_model_bind; [done|]. intros m Hm Hname. apply sound_lift.
    intros props [-> Hp]%validate_update_ok.
    destruct (existing_edge_run (eu_model r) (eu_id r) σ) as (res & Hrun & Hres).
    unfold mbind at 1, session_bind. rewrite Hrun. destruct res as [existing|]; [|done].
    destruct (Hres existing eq_refl) as (m' & Hm' & He). rewrite <-Hname, Hm in Hm'.
    injection Hm' as <-. by apply (update_relationship_sound m).
  - apply sound_bind. unfold delete_relationship_instance. apply sound_lift.
    intros i ->%parse_id_to_string.
    destruct (existing_edge_run (ed_model r) (ed_id r) σ) as (res & Hrun & Hres).
    unfold mbind at 1, session_bind. rewrite Hrun. destruct res as [existing|]; [|done].
    destruct (Hres existing eq_refl) as (m' & _ & He).
    apply (edge_of_type_Some _ _ _ _ (sr_wf _ (si_ready _ Hinv))) in He as (_ & _ & ->).
    by apply delete_relationship_sound.
Qed.
End mutations.

(** ** Runs of mutations *)

Section runs.
Context `{SerdeNumber} `{Formats}.
Implicit Types (σ τ : SessionState).

(** The mutations of a caller one after the other, going on after errors, with
    the durable operations of those that succeeded. *)
Fixpoint run_mutations (ms : list Mutation) σ : list DurableOperation * SessionState :=
  match ms with
  | [] => ([], σ)
  | m :: ms =>
      match apply_mutation m σ with
      | (Ok op, σ) => let '(ops, σ) := run_mutations ms σ in (op :: ops, σ)
      | (Err _, σ) => run_mutations ms σ
      end
  end.

Definition room_for (n : nat) σ : Prop :=
  (next_node_id (ss_store σ) + Z.of_nat n ≤ i64_max)%Z ∧
  (next_rel_id (ss_store σ) + Z.of_nat n ≤ i64_max)%Z.

Lemma run_sound ms σ τ :
  session_inv σ → room_for (length ms) σ → same_session σ τ →
  let '(ops, σ') := run_mutations ms σ in
  session_inv σ' ∧ ∃ τ', replay ops τ = Ok τ' ∧ same_session σ' τ'.
Proof.
  revert σ τ. induction ms as [|m ms IH]; intros σ τ Hinv Hroom Hsame; cbn [run_mutations].
  { split; [done|]. by exists τ. }
  unfold room_for in Hroom. cbn [length] in Hroom.
  pose proof (mutation_sound m σ Hinv ltac:(unfold room; lia)) as Hs.
  destruct (apply_mutation m σ) as [[op|e] σ1].
  - destruct Hs as (Hinv1 & Hrep & Huse). destruct (Hrep τ Hsame) as (τ1 & Hτ1 & Hsame1).
    specialize (IH σ1 τ1 Hinv1 ltac:(unfold room_for, uses_one_id in *; lia) Hsame1).
    destruct (run_mutations ms σ1) as [ops σ2]. destruct IH as [? (τ2 & Hτ2 & ?)].
    split; [done|]. exists τ2. unfold replay in *. cbn [try_fold]. unfold id in Hτ1. by rewrite Hτ1.
  - unfold sound in Hs. subst σ1. apply IH; [done| |done]. unfold room_for in *. lia.
Qed.

(** C9: whatever mutations a session runs, failing ones included, its store
    stays consistent and without dangling relationships, its catalog well
    formed, and its graph conforms to the catalog: every node has the label and
    properties of its model, every relationship the type, the properties and
    the end models of its model. *)
Theorem session_run_inv (ms : list Mutation) :
  (Z.of_nat (length ms) < i64_max)%Z → session_inv (run_mutations ms session_new).2.
Proof.
  intros Hlen. pose proof (run_sound ms session_new session_new session_new_inv) as Hrun.
  destruct (run_mutations ms session_new) as [ops σ].
  apply Hrun; [unfold room_for; cbn; lia|]. apply same_session_refl, si_ready, session_new_inv.
Qed.

(** C10: replaying the durable operations of a run on a session with the graph
    and the catalog the run began with, as a checkpoint restores, rebuilds
    exactly the graph, the counters and the catalog the run ended with. *)
Theorem replay_rebuilds_session (ms : list Mutation) σ τ :
  session_inv σ → room_for (length ms) σ → same_session σ τ →
  let '(ops, σ') := run_mutations ms σ in
  ∃ τ', replay ops τ = Ok τ' ∧ same_session σ' τ'.
Proof.
  intros Hinv Hroom Hsame. pose proof (run_sound ms σ τ Hinv Hroom Hsame) as Hrun.
  destruct (run_mutations ms σ). apply Hrun.
Qed.

(** a mutation that fails leaves the session as it was. *)
Theorem failed_mutation_changes_nothing (m : Mutation) σ e σ' :
  session_inv σ → room σ → apply_mutation m σ = (Err e, σ') → σ' = σ.
Proof.
  intros Hinv Hroom Hm. pose proof (mutation_sound m σ Hinv Hroom) as Hs. by rewrite Hm in Hs.
Qed.
End runs.

(** ** A concrete session *)

Section session_witnesses.
Existing Instances serde_default w_formats.

Definition w_field (name : string) (t : FieldValueType) (required : bool) : FieldSpec :=
  {| fs_name := name; fs_value_type := t; fs_required := required |}.

Definition w_mutations : list Mutation :=
  [ MDefineNode {| dn_name := "User"; dn_id_field := "userId";
                   dn_fields := [w_field "name" FString true; w_field "age" FInt false] |};
    MDefineNode {| dn_name := "Post"; dn_id_field := "postId";
                   dn_fields := [w_field "title" FString true] |};
    MDefineEdge {| de_name := "Authored"; de_from_model := "User"; de_to_model := "Post";
                   de_id_field := "authoredId"; de_fields := [w_field "year" FInt true] |};
    MNodeCreate {| nc_model := "User"; nc_props := {["name" := Str "Ada"]} |};
    MNodeCreate {| nc_model := "Post"; nc_props := {["title" := Str "first"]} |};
    MNodeCreate {| nc_model := "Post"; nc_props := {["title" := Str "second"]} |};
    MEdgeCreate {| ec_model := "Authored"; ec_from := 1; ec_to := 2;
                   ec_props := {["year" := value_from_i64 2025]} |};
    MEdgeCreate {| ec_model := "Authored"; ec_from := 1; ec_to := 3;
                   ec_props := {["year" := value_from_i64 2026]} |};
    (* rejected: a post has no author of this model *)
    MEdgeCreate {| ec_model := "Authored"; ec_from := 2; ec_to := 3;
                   ec_props := {["year" := value_from_i64 2026]} |};
    MNodeUpdate {| nu_model := "User"; nu_id := 1; nu_props := {["age" := value_from_i64 36]} |};
    MNodeCreate {| nc_model := "User"; nc_props := {["name" := Str "Bob"]} |};
    MNodeDelete {| nd_model := "User"; nd_id := 4 |};
    MEdgeUpdate {| eu_model := "Authored"; eu_id := 1;
                   eu_props := {["year" := value_from_i64 2024]} |};
    MEdgeDelete {| ed_model := "Authored"; ed_id := 7 |} ].

Definition w_session : SessionState := (run_mutations w_mutations session_new).2.

Lemma w_session_inv : session_inv w_session ∧ room_for 100 w_session.
Proof.
  split; [|by vm_compute].
  pose proof (run_sound w_mutations session_new session_new session_new_inv) as Hrun.
  unfold w_session. destruct (run_mutations w_mutations session_new) as [ops σ].
  apply Hrun; [by vm_compute|]. apply same_session_refl, si_ready, session_new_inv.
Qed.

Lemma session_run_inv_witness :
  session_inv (run_mutations w_mutations session_new).2 ∧
  size (nodes (ss_store w_session)) = 3 ∧ size (rels (ss_store w_session)) = 2 ∧
  length (run_mutations w_mutations session_new).1 = 12.
Proof.
  split; [apply (session_run_inv w_mutations); by vm_compute|].
  by split_and!; vm_compute.
Defined.

Lemma replay_rebuilds_session_witness :
  ∃ τ', replay (run_mutations w_mutations w_session).1 w_session = Ok τ' ∧
        same_session (run_mutations w_mutations w_session).2 τ'.
Proof.
  destruct w_session_inv as [Hinv _].
  pose proof (replay_rebuilds_session w_mutations w_session w_session Hinv) as Hr.
  destruct (run_mutations w_mutations w_session) as [ops σ'].
  apply Hr; [by vm_compute|]. by apply same_session_refl, si_ready.
Defined.

Lemma failed_mutation_changes_nothing_witness :
  let m := MNodeCreate {| nc_model := "User"; nc_props := ∅ |} in
  error_of (apply_mutation m w_session).1 = Some (Constraint "missing required field 'name'") ∧
  (apply_mutation m w_session).2 = w_session.
Proof.
  intros m. assert (error_of (apply_mutation m w_session).1
    = Some (Constraint "missing required field 'name'")) as Hm by by vm_compute.
  split; [done|]. destruct w_session_inv as [Hinv Hroom].
  destruct (apply_mutation m w_session) as [[op|e] σ'] eqn:Hrun; [done|].
  apply (failed_mutation_changes_nothing m w_session e); [done| |done].
  unfold room_for, room in *. lia.
Defined.
End session_witnesses.

Section find_witness.
Existing Instances serde_default w_formats w_formats_laws.

Definition w_find : NodeFindQuery :=
  {| nq_predicates := [{| sp_field := "title"; sp_op := OpEq; sp_value := Lexical "second" |}];
     nq_end_predicates := []; nq_edge_predicates := []; nq_traversals := [];
     nq_order := [{| so_field := "title"; so_direction := SortDesc |}];
     nq_limit := Some 1%N; nq_offset := None; nq_id_filter := None; nq_return_mode := StrEnd;
     nq_format := FormatDefault |}.

Lemma flat_find_is_scan_witness :
  ∃ model, get_node_model (ss_catalog w_session) "Post" = Some model ∧
    let filters := [("title", OpEq, Str "second")] in
    let '(r, t) := find_nodes_with_query (ss_catalog w_session) "Post" w_find (ss_store w_session) in
    store_wf t ∧ same_graph (ss_store w_session) t ∧
    r = (ns ← sort_if (nq_order w_find) (λ ns, sort_nodes ns model (nq_order w_find))
                (filter (λ node, found_by model w_find filters node)
                        (bt_values (nodes (ss_store w_session))));
         Ok (apply_offset_limit ns (nq_offset w_find) (nq_limit w_find))).
Proof.
  destruct (get_node_model (ss_catalog w_session) "Post") as [model|] eqn:Hm.
  2: { exfalso. revert Hm. vm_compute. discriminate. }
  exists model. split; [reflexivity|]. intros filters.
  apply (flat_find_is_scan (ss_catalog w_session) "Post" model w_find filters).
  - destruct w_session_inv as [Hinv _]. apply (sr_wf _ (si_ready _ Hinv)).
  - exact Hm.
  - assert (find_field (nm_fields model) "title" = Some (Build_RuntimeField "title" TString true)) as Hf.
    { revert Hm. vm_compute. by intros [= <-]. }
    unfold parse_model_predicates, w_find. cbn -[find_field]. unfold parse_predicate. cbn -[find_field].
    by rewrite Hf.
  - intros key value [= <- <-] id node v _ _. by intros Hz; destruct v.
Defined.
End find_witness.

(** *** A traversal that answers its root

    Ada wrote a post called second; asked for the authors of one, the session
    answers nobody: the executor keeps one path per author, here the one to the
    first post, and the predicate on the end is applied afterwards. *)

Section return_root.
Existing Instances serde_default w_formats.

Definition w_authors (title : string) : NodeFindRequest :=
  {| nf_model := "User"; nf_predicates := [];
     nf_end_predicates := [{| pp_field := "title"; pp_op := PEq; pp_value := Str title |}];
     nf_edge_predicates := [];
     nf_traversals := [{| ts_direction := TraverseOut; ts_edge_model := Some "Authored";
                          ts_end_model := "Post" |}];
     nf_order := []; nf_limit := None; nf_offset := None; nf_id := None;
     nf_return_mode := Some TraverseToRoot |}.

Definition found_count (title : string) : option nat :=
  match node_find (ss_catalog w_session) node_id_type (w_authors title) (ss_store w_session) with
  | (Ok (FoundNodes ns), _) => Some (length ns)
  | _ => None
  end.

(** The author of a post with the title, read off the graph. *)
Definition wrote (author : Z) (title : string) : bool :=
  existsb (λ rel, (sr_from rel =? author)%Z &&
    match nodes (ss_store w_session) !! sr_to rel ≫= (λ post, sn_props post !! "title") with
    | Some (Str t) => String.eqb t title
    | _ => false
    end) (bt_values (rels (ss_store w_session))).

Example root_missed_after_dedup :
  found_count "first" = Some 1 ∧ found_count "second" = Some 0 ∧
  wrote 1 "first" = true ∧ wrote 1 "second" = true.
Proof. by split_and!; vm_compute. Qed.
End return_root.
