(* ===== verification/Backend.v ===== *)
(** * The interface of the backends and the client over it

    [GraphTx] and [GraphBackend] are the traits of [src/src/backend/graph.rs]; the
    in-memory backend ([src/src/backend/inmemory/graphtx.rs], [graphbackend.rs]) is
    an instance of both.  [GraphBackendLaws] is the contract their documentation
    states: reads observe the transaction's own writes, a commit publishes them, a
    rollback discards them; the in-memory backend satisfies it.  The client
    ([src/src/client/graphclient.rs]) and the macros of [src/src/repo/macros.rs] are
    written over the traits. *)

From S2P Require Export Exec Session.

Local Open Scope string_scope.

(** ** The traits

    [Db] is what the clones of a backend share, [Tx] a transaction. *)

Definition gxm (Db Tx A : Type) : Type := Db → Tx → result A * Db * Tx.

#[export] Instance gxm_ret {Db Tx} : MRet (gxm Db Tx) := λ A a db tx, (Ok a, db, tx).
#[export] Instance gxm_bind {Db Tx} : MBind (gxm Db Tx) := λ A B f m db tx,
  match m db tx with
  | (Ok a, db, tx) => f a db tx
  | (Err e, db, tx) => (Err e, db, tx)
  end.
Definition gx_lift {Db Tx A} (r : result A) : gxm Db Tx A := λ db tx, (r, db, tx).

Section traits.
Context `{SerdeNumber}.

Class GraphTx (Db Tx : Type) := {
  gx_execute_query : string → Value → gxm Db Tx QueryResult;
  gx_execute_graph : GraphQuery → gxm Db Tx QueryResult;
  gx_create_node : list string → Props → gxm Db Tx StoredNode;
  gx_create_nodes : list (list string * Props) → gxm Db Tx (list StoredNode);
  gx_update_node : Z → Props → gxm Db Tx (option StoredNode);
  gx_delete_node : Z → gxm Db Tx unit;
  gx_find_node_by_id : Z → gxm Db Tx (option StoredNode);
  gx_find_nodes_by_property : string → Value → gxm Db Tx (list StoredNode);
  gx_create_relationship : Z → Z → string → Props → gxm Db Tx StoredRel;
  gx_update_relationship : Z → Props → gxm Db Tx (option StoredRel);
  gx_delete_relationship : Z → gxm Db Tx unit;
  gx_outgoing : Z → option string → gxm Db Tx (list (StoredRel * StoredNode));
  gx_incoming : Z → option string → gxm Db Tx (list (StoredRel * StoredNode));
  gx_both : Z → option string → gxm Db Tx (list (StoredRel * StoredNode));
  gx_commit : Db → Tx → result unit * Db;
  gx_rollback : Db → Tx → result unit * Db;
  (** What dropping a transaction that was neither committed nor rolled back does. *)
  gx_drop : Db → Tx → Db;
}.

(** The default of [create_nodes]: one after the other, up to the first error. *)
Fixpoint default_create_nodes {Db Tx} (create : list string → Props → gxm Db Tx StoredNode)
    (inserts : list (list string * Props)) : gxm Db Tx (list StoredNode) :=
  match inserts with
  | [] => mret (M:=gxm Db Tx) []
  | (labels, props) :: inserts =>
      node ← create labels props;
      nodes ← default_create_nodes create inserts;
      mret (M:=gxm Db Tx) (node :: nodes)
  end.

Class GraphBackend (Db Tx : Type) `{!GraphTx Db Tx} := {
  begin_tx : Db → result Tx * Db;
  gb_execute_query : string → Value → Db → result QueryResult * Db;
  gb_execute_graph : GraphQuery → Db → result QueryResult * Db;
}.

(** The default of [GraphBackend::execute_graph]. *)
Definition default_execute_graph {Db Tx} `{!GraphTx Db Tx} (begin : Db → result Tx * Db)
    (q : GraphQuery) (db : Db) : result QueryResult * Db :=
  match begin db with
  | (Ok tx, db) =>
      match gx_execute_graph q db tx with
      | (Ok out, db, tx) =>
          match gx_commit db tx with
          | (Ok _, db) => (Ok out, db)
          | (Err e, db) => (Err e, db)
          end
      | (Err e, db, tx) => (Err e, gx_drop db tx)
      end
  | (Err e, db) => (Err e, db)
  end.

(** ** The client *)

Section client.
Context {Db Tx : Type} `{!GraphTx Db Tx} `{!GraphBackend Db Tx}.

(** [client::Transaction<T>]: [inner] is [None] once it is consumed. *)
Definition txw : Type → Type := gxm Db (option Tx).
#[global] Instance txw_ret : MRet txw := gxm_ret.
#[global] Instance txw_bind : MBind txw := gxm_bind.
Definition txw_lift {A} (r : result A) : txw A := λ db tx, (r, db, tx).
(** [self.tx_mut()?.op(..).await?] *)
Definition on_tx {A} (op : gxm Db Tx A) : txw A := λ db tx,
  match tx with
  | Some inner => let '(r, db, inner) := op db inner in (r, db, Some inner)
  | None => (Err TransactionClosed, db, None)
  end.
(** [commit] and [rollback] take the inner transaction. *)
Definition client_commit : txw unit := λ db tx,
  match tx with
  | Some inner => let '(r, db) := gx_commit db inner in (r, db, None)
  | None => (Err TransactionClosed, db, None)
  end.
Definition client_rollback : txw unit := λ db tx,
  match tx with
  | Some inner => let '(r, db) := gx_rollback db inner in (r, db, None)
  | None => (Err TransactionClosed, db, None)
  end.
Definition drop_transaction (db : Db) (tx : option Tx) : Db :=
  match tx with Some inner => gx_drop db inner | None => db end.

(** [GraphClient::transaction] and [GraphConnection::transaction] *)
Definition client_transaction (db : Db) : result (option Tx) * Db :=
  match begin_tx db with
  | (Ok tx, db) => (Ok (Some tx), db)
  | (Err e, db) => (Err e, db)
  end.
(** A body that runs in a transaction of its own, and ends it. *)
Definition in_client_transaction {A} (body : txw A) (db : Db) : result A * Db :=
  match client_transaction db with
  | (Ok tx, db) => let '(r, db, tx) := body db tx in (r, drop_transaction db tx)
  | (Err e, db) => (Err e, db)
  end.

Record QueryExecution := { qe_gq : GraphQuery; qe_qr : QueryResult }.
(** [QueryExecution::decode_all], the decoder an argument. *)
Definition decode_all {M} (decode : GraphQuery → QueryRow → result M) (exec : QueryExecution)
    : result (list M) := mapM (decode (qe_gq exec)) (qr_rows (qe_qr exec)).

(** [Transaction::execute]; the outer [option] is the panic of a query that returns a
    relationship it does not traverse. *)
Definition client_execute {R} `{!NodeModel R} (q : Query R) : option (txw QueryExecution) :=
  gq ← compile_to_graph q;
  Some (qr ← on_tx (gx_execute_graph gq); mret (M:=txw) {| qe_gq := gq; qe_qr := qr |}).
(** [Transaction::query] *)
Definition client_query {R} `{!NodeModel R} {M} (decode : GraphQuery → QueryRow → result M)
    (q : Query R) : option (txw (list M)) :=
  execute ← client_execute q;
  Some (exec ← execute; txw_lift (decode_all decode exec)).
(** [Transaction::query_rel] *)
Definition client_query_rel {R} `{!NodeModel R} {M} (decode : GraphQuery → QueryRow → result M)
    (q : Query R) : option (txw (list M)) :=
  execute ← client_execute q;
  Some (exec ← execute;
        txw_lift (if return_is_rel (qe_gq exec) then decode_all decode exec
                  else Err (Mapping "query_rel called but query return is not Return::Rel; did you forget .return_rel()?"))).
(** A transaction begins before a body that panics is reached. *)
Definition run_or_panic {A} (run : txw A → Db → result A * Db) (body : option (txw A)) (db : Db)
    : option (result A * Db) :=
  match body, client_transaction db with
  | Some body, _ => Some (run body db)
  | None, (Ok _, _) => None
  | None, (Err e, db) => Some (Err e, db)
  end.
(** [GraphClient::execute] *)
Definition graph_client_execute {R} `{!NodeModel R} (q : Query R)
    : Db → option (result QueryExecution * Db) :=
  run_or_panic in_client_transaction
    (execute ← client_execute q; Some (exec ← execute; _ ← client_commit; mret (M:=txw) exec)).

(** [autocommit!]: the body may change models it was lent, the [X]. *)
Definition autocommit_with {A X} (x : X)
    (body : Db → option Tx → result A * X * Db * option Tx) (db : Db) : result A * X * Db :=
  match client_transaction db with
  | (Err e, db) => (Err e, x, db)
  | (Ok tx, db) =>
      match body db tx with
      | (Ok v, x, db, tx) =>
          match client_commit db tx with
          | (Ok _, db, _) => (Ok v, x, db)
          | (Err e, db, _) => (Err e, x, db)
          end
      | (Err e, x, db, tx) => let '(_, db, _) := client_rollback db tx in (Err e, x, db)
      end
  end.
Definition without_models {A} (body : txw A) (db : Db) (tx : option Tx)
    : result A * () * Db * option Tx :=
  let '(r, db, tx) := body db tx in (r, tt, db, tx).
Definition autocommit {A} (body : txw A) (db : Db) : result A * Db :=
  let '(r, _, db) := autocommit_with tt (without_models body) db in (r, db).
(** [autoread!]: the transaction is dropped. *)
Definition autoread {A} (body : txw A) : Db → result A * Db := in_client_transaction body.
End client.

(** ** The contract *)

(** The operation of the specification that a method of the trait performs. *)
Definition map_result {A B} (f : A → B) (r : result A) : result B :=
  match r with Ok a => Ok (f a) | Err e => Err e end.
Definition gx_step {Db Tx} `{!GraphTx Db Tx} (op : TxOp) : gxm Db Tx TxResult := λ db tx,
  match op with
  | CreateNode labels props =>
      let '(r, db, tx) := gx_create_node labels props db tx in (map_result RNode r, db, tx)
  | UpdateNode id props =>
      let '(r, db, tx) := gx_update_node id props db tx in (map_result RNodeOpt r, db, tx)
  | DeleteNode id =>
      let '(r, db, tx) := gx_delete_node id db tx in (map_result (λ _, RUnit) r, db, tx)
  | FindNode id =>
      let '(r, db, tx) := gx_find_node_by_id id db tx in (map_result RNodeOpt r, db, tx)
  | CreateRelationship from to rel_type props =>
      let '(r, db, tx) := gx_create_relationship from to rel_type props db tx in
      (map_result RRel r, db, tx)
  | UpdateRelationship id props =>
      let '(r, db, tx) := gx_update_relationship id props db tx in
      (map_result RRelOpt r, db, tx)
  | DeleteRelationship id =>
      let '(r, db, tx) := gx_delete_relationship id db tx in
      (map_result (λ _, RUnit) r, db, tx)
  end.

(** The same nodes and relationships; identifiers may have been used up. *)
Definition same_contents (g h : AGraph) : Prop :=
  ag_nodes g = ag_nodes h ∧ ag_rels g = ag_rels h ∧
  (ag_next_node h ≤ ag_next_node g)%Z ∧ (ag_next_rel h ≤ ag_next_rel g)%Z.

(** What is asked of an operation before its meaning is promised; [deletable] says
    when a deletion is. *)
Definition op_asked (deletable : Prop) (op : TxOp) (g : AGraph) : Prop :=
  match op with
  | CreateNode _ _ => (ag_next_node g < i64_max)%Z
  | CreateRelationship from to _ _ =>
      (ag_next_rel g < i64_max)%Z ∧ is_Some (ag_nodes g !! from) ∧ is_Some (ag_nodes g !! to)
  | DeleteNode _ | DeleteRelationship _ => deletable
  | UpdateNode _ _ | FindNode _ | UpdateRelationship _ _ => True
  end.

(** The pairs a traversal answers. *)
Definition pairs_of (g : AGraph) (node : Z) (ty : option string) (dir : Direction)
    (pairs : list (StoredRel * StoredNode)) : Prop :=
  NoDup (pair_ids pairs) ∧
  ∀ rel n, (rel, n) ∈ pairs ↔
    is_Some (ag_nodes g !! node) ∧
    ag_rels g !! sr_id rel = Some rel ∧ rel_matches_neighbor rel node ty dir = true ∧
    ∃ i, neighbor_id rel node dir = Some i ∧ ag_nodes g !! i = Some n.

Class GraphBackendLaws (Db Tx : Type) `{!GraphTx Db Tx} `{!GraphBackend Db Tx} := {
  db_ok : Db → Prop;
  tx_ok : Db → Tx → Prop;
  (** The committed graph, and the graph a transaction sees. *)
  stored : Db → AGraph;
  seen : Db → Tx → AGraph;
  tx_deletable : TxOp → Db → Tx → Prop;
  keyed_law db id node :
    db_ok db → ag_nodes (stored db) !! id = Some node → sn_id node = id;
  begin_law db :
    db_ok db → ∃ tx, begin_tx db = (Ok tx, db) ∧ tx_ok db tx ∧ seen db tx = stored db ∧
                     ∀ op, tx_deletable op db tx;
  step_law op db tx :
    tx_ok db tx → op_asked (tx_deletable op db tx) op (seen db tx) →
    ∃ a db' tx', gx_step op db tx = (Ok a, db', tx') ∧ tx_ok db' tx' ∧
      spec_step op (seen db tx) = (a, seen db' tx') ∧ same_contents (stored db') (stored db);
  create_nodes_law inserts db tx :
    tx_ok db tx → (ag_next_node (seen db tx) + Z.of_nat (length inserts) ≤ i64_max)%Z →
    ∃ created db' tx', gx_create_nodes inserts db tx = (Ok created, db', tx') ∧ tx_ok db' tx' ∧
      spec_run (map (λ '(labels, props), CreateNode labels props) inserts) (seen db tx)
      = (map RNode created, seen db' tx') ∧ same_contents (stored db') (stored db);
  outgoing_law node ty db tx :
    tx_ok db tx → ∃ pairs, gx_outgoing node ty db tx = (Ok pairs, db, tx) ∧
                           pairs_of (seen db tx) node ty DirOut pairs;
  incoming_law node ty db tx :
    tx_ok db tx → ∃ pairs, gx_incoming node ty db tx = (Ok pairs, db, tx) ∧
                           pairs_of (seen db tx) node ty DirIn pairs;
  commit_law db tx :
    tx_ok db tx → ∃ db', gx_commit db tx = (Ok tt, db') ∧ db_ok db' ∧ stored db' = seen db tx;
  rollback_law db tx :
    tx_ok db tx → ∃ db', gx_rollback db tx = (Ok tt, db') ∧ db_ok db' ∧ stored db' = stored db;
  drop_law db tx :
    tx_ok db tx → db_ok (gx_drop db tx) ∧ stored (gx_drop db tx) = stored db;
  (** Identifiers are counted where the clones share them. *)
  counters_law db tx :
    tx_ok db tx → ag_next_node (seen db tx) = ag_next_node (stored db) ∧
                  ag_next_rel (seen db tx) = ag_next_rel (stored db);
}.
End traits.

(** ** The in-memory backend *)

Section inmemory.
Context `{SerdeNumber}.

Definition string_query_error (msg : string) : GrmError := Backend msg.
#[export] Instance inmemory_tx : GraphTx GraphStore InMemoryTx := {|
  gx_execute_query _ _ := λ s tx,
    (Err (string_query_error "InMemory backend does not support string queries; use typed APIs"),
     s, tx);
  gx_execute_graph q := λ s tx, let '(r, s) := execute_graph_query q s tx in (r, s, tx);
  gx_create_node labels props := λ s tx,
    let '(node, s, tx) := create_node labels props s tx in (Ok node, s, tx);
  gx_create_nodes inserts := λ s tx,
    let '(created, s, tx) := create_nodes inserts s tx in (Ok created, s, tx);
  gx_update_node id props := λ s tx,
    let '(node, tx) := update_node id props s tx in (Ok node, s, tx);
  gx_delete_node id := λ s tx, (Ok tt, s, delete_node id s tx);
  gx_find_node_by_id id := λ s tx, (Ok (find_node_by_id id s tx), s, tx);
  gx_find_nodes_by_property key value := λ s tx,
    let '(found, s) := find_nodes_by_property key value s tx in (Ok found, s, tx);
  gx_create_relationship from to rel_type props := λ s tx,
    let '(rel, s, tx) := create_relationship from to rel_type props s tx in (Ok rel, s, tx);
  gx_update_relationship id props := λ s tx,
    let '(rel, tx) := update_relationship id props s tx in (Ok rel, s, tx);
  gx_delete_relationship id := λ s tx, (Ok tt, s, delete_relationship id tx);
  gx_outgoing from rel_type := λ s tx, (Ok (tx_outgoing from rel_type s tx), s, tx);
  gx_incoming to rel_type := λ s tx, (Ok (tx_incoming to rel_type s tx), s, tx);
  gx_both node rel_type := λ s tx, (Ok (tx_both node rel_type s tx), s, tx);
  gx_commit s tx := (Ok tt, (tx_commit s tx).1);
  gx_rollback s tx := (Ok tt, (tx_rollback s tx).1);
  gx_drop s _ := s;
|}.

#[export] Instance inmemory_backend : GraphBackend GraphStore InMemoryTx := {|
  begin_tx s := (Ok tx_new, s);
  gb_execute_query _ _ := λ s,
    (Err (string_query_error
      "InMemoryBackend does not support string queries; use execute_graph (typed)"), s);
  gb_execute_graph q := backend_execute_graph q;
|}.

(** The operations of the trait are those of [Tx]. *)
Lemma inmemory_step op s tx :
  gx_step op s tx = let '(r, s, tx) := tx_step op s tx in (Ok r, s, tx).
Proof.
  destruct op; cbn -[create_node update_node delete_node find_node_by_id create_relationship
    update_relationship delete_relationship]; try done.
  - by destruct (create_node _ _ _ _) as [[node s'] tx'].
  - by destruct (update_node _ _ _ _) as [node tx'].
  - by destruct (create_relationship _ _ _ _ _ _) as [[rel s'] tx'].
  - by destruct (update_relationship _ _ _ _) as [rel tx'].
Qed.
Lemma next_ids_grow op s tx :
  tx_inv s tx → legal op s tx →
  (next_node_id s ≤ next_node_id (tx_step op s tx).1.2)%Z ∧
  (next_rel_id s ≤ next_rel_id (tx_step op s tx).1.2)%Z.
Proof.
  intros Hinv Hlegal. pose proof (tx_step_simulates op s tx Hinv Hlegal) as Hsim.
  unfold simulates in Hsim. destruct (tx_step op s tx) as [[r s'] tx']. destruct Hsim as [Hspec _].
  cbn in *. destruct op; cbn in Hspec; try case_match; injection Hspec; intros; subst; cbn in *; lia.
Qed.
Lemma inmemory_contents op s tx :
  tx_inv s tx → legal op s tx → same_contents (graph_of (tx_step op s tx).1.2) (graph_of s).
Proof.
  intros Hinv Hlegal. destruct (tx_step_frame op s tx) as [Hn Hr].
  destruct (next_ids_grow op s tx Hinv Hlegal). by split_and!.
Qed.

(** A store whose counters moved on, as a transaction that is given up leaves it. *)
Lemma given_up_ready s tx : tx_inv s tx → store_ready s.
Proof.
  intros Hinv. destruct (ti_bounds _ _ Hinv). split; [apply Hinv|apply Hinv| | |done|done].
  - intros id Hid. apply (ti_next_node _ _ Hinv). by left.
  - intros id Hid. apply (ti_next_rel _ _ Hinv). by left.
Qed.

(** [create_nodes] of a transaction in delta mode creates one after the other. *)
Lemma create_nodes_run inserts created s tx :
  tx_working_copy tx = None →
  let '(created', s', tx') := foldl create_nodes_step (created, s, tx) inserts in
  ∃ new, created' = (created ++ new)%list ∧
    tx_run (map (λ '(labels, props), CreateNode labels props) inserts) s tx
    = (map RNode new, s', tx').
Proof.
  revert created s tx. induction inserts as [|[labels props] inserts IH]; intros created s tx Hmode.
  { exists []. by rewrite app_nil_r. }
  cbn -[create_nodes_step create_node]. unfold create_nodes_step at 2, create_node.
  destruct (allocate_node_id s) as [id s1]. rewrite Hmode.
  set (node := {| sn_id := id |}). set (tx1 := set_delta _ tx).
  specialize (IH (created ++ [node])%list s1 tx1 Hmode).
  destruct (foldl create_nodes_step _ inserts) as [[created' s'] tx'].
  destruct IH as (new & -> & Hrun). exists (node :: new). rewrite <-app_assoc. split; [done|].
  by rewrite Hrun.
Qed.
Lemma create_nodes_legal inserts s tx :
  tx_inv s tx → (next_node_id s + Z.of_nat (length inserts) ≤ i64_max)%Z →
  legal_run (map (λ '(labels, props), CreateNode labels props) inserts) s tx.
Proof.
  revert s tx. induction inserts as [|[labels props] inserts IH]; intros s tx Hinv Hroom; [done|].
  cbn [length] in Hroom. assert (legal (CreateNode labels props) s tx) as Hlegal by (cbn; lia).
  split; [done|]. pose proof (tx_step_simulates _ s tx Hinv Hlegal) as Hsim. unfold simulates in Hsim.
  destruct (tx_step (CreateNode labels props) s tx) as [[r s'] tx']. destruct Hsim as [Hspec Hinv'].
  apply IH; [done|]. cbn in Hspec. injection Hspec as _ _ _ Hnext _. cbn. lia.
Qed.
Lemma run_contents ops s tx :
  tx_inv s tx → legal_run ops s tx → same_contents (graph_of (tx_run ops s tx).1.2) (graph_of s).
Proof.
  revert s tx. induction ops as [|op ops IH]; intros s tx Hinv Hlegal; [done|].
  destruct Hlegal as [Hop Hrest]. pose proof (inmemory_contents op s tx Hinv Hop) as (Hn & Hr & ? & ?).
  pose proof (tx_step_simulates op s tx Hinv Hop) as Hsim. unfold simulates in Hsim.
  cbn -[tx_step]. destruct (tx_step op s tx) as [[r s1] tx1]. destruct Hsim as [_ Hinv1].
  specialize (IH s1 tx1 Hinv1 Hrest). destruct (tx_run ops s1 tx1) as [[rs s2] tx2].
  destruct IH as (Hn' & Hr' & ? & ?). unfold same_contents. cbn in *.
  split_and!; [congruence..|lia|lia].
Qed.

(** Nothing the transaction updated is deleted by it. *)
Definition inmemory_deletable (op : TxOp) (s : GraphStore) (tx : InMemoryTx) : Prop :=
  match op with DeleteNode _ | DeleteRelationship _ => legal op s tx | _ => True end.
Lemma asked_legal op s tx :
  op_asked (inmemory_deletable op s tx) op (view s tx) → legal op s tx.
Proof. by destruct op. Qed.
Lemma deletable_new op s : inmemory_deletable op s tx_new.
Proof.
  destruct op; try done; cbn; unfold updated_node, updated_rel; cbn; setoid_rewrite lookup_empty.
  - split; [by intros [[] _]|]. by intros ? ? _ _ [[] _].
  - by intros [[] _].
Qed.
Lemma inmemory_step_law op s tx :
  tx_inv s tx → op_asked (inmemory_deletable op s tx) op (view s tx) →
  ∃ a s' tx', gx_step op s tx = (Ok a, s', tx') ∧ tx_inv s' tx' ∧
    spec_step op (view s tx) = (a, view s' tx') ∧ same_contents (graph_of s') (graph_of s).
Proof.
  intros Hinv Hlegal%asked_legal. rewrite inmemory_step.
  pose proof (inmemory_contents op s tx Hinv Hlegal) as Hsame.
  pose proof (tx_step_simulates op s tx Hinv Hlegal) as Hsim. unfold simulates in Hsim.
  destruct (tx_step op s tx) as [[r s'] tx']. destruct Hsim. by exists r, s', tx'.
Qed.
Lemma inmemory_create_nodes_law inserts s tx :
  tx_inv s tx → (next_node_id s + Z.of_nat (length inserts) ≤ i64_max)%Z →
  ∃ created s' tx', gx_create_nodes inserts s tx = (Ok created, s', tx') ∧ tx_inv s' tx' ∧
    spec_run (map (λ '(labels, props), CreateNode labels props) inserts) (view s tx)
    = (map RNode created, view s' tx') ∧ same_contents (graph_of s') (graph_of s).
Proof.
  intros Hinv Hroom. pose proof (create_nodes_legal inserts s tx Hinv Hroom) as Hlegal.
  pose proof (create_nodes_run inserts [] s tx (ti_mode _ _ Hinv)) as Hrun.
  pose proof (run_contents _ s tx Hinv Hlegal) as Hsame.
  pose proof (tx_run_simulates _ s tx Hinv Hlegal) as Hsim. cbn -[create_nodes]. unfold create_nodes.
  destruct (foldl create_nodes_step _ inserts) as [[created s'] tx']. destruct Hrun as (new & -> & Hrun).
  rewrite Hrun in Hsim, Hsame. destruct Hsim. by exists new, s', tx'.
Qed.

#[export] Program Instance inmemory_laws : GraphBackendLaws GraphStore InMemoryTx := {|
  db_ok := store_ready; tx_ok := tx_inv; stored := graph_of; seen := view;
  tx_deletable := inmemory_deletable;
  step_law := inmemory_step_law;
  create_nodes_law := inmemory_create_nodes_law;
|}.
Next Obligation. intros s id node Hready Hnode. by eapply wf_node_id; [apply Hready|]. Qed.
Next Obligation.
  intros s Hready. exists tx_new. split; [done|]. split; [by apply store_ready_inv|].
  split; [apply view_new|]. intros op. apply deletable_new.
Qed.
Next Obligation. intros. eexists. split; [done|]. by apply neighbor_pairs_exact. Qed.
Next Obligation. intros. eexists. split; [done|]. by apply neighbor_pairs_exact. Qed.
Next Obligation. intros s tx Hinv. destruct (committed_ready s tx Hinv). by eexists. Qed.
Next Obligation. intros s tx Hinv. eexists. split; [done|]. by split; [eapply given_up_ready|]. Qed.
Next Obligation. intros s tx Hinv. by split; [eapply given_up_ready|]. Qed.
Next Obligation. done. Qed.
End inmemory.

(** ** Transactions of a lawful backend *)

Section client_laws.
Context `{SerdeNumber} {Db Tx : Type} `{!GraphTx Db Tx} `{!GraphBackend Db Tx}
  `{!GraphBackendLaws Db Tx}.

Lemma same_contents_refl g : same_contents g g.
Proof. by split_and!. Qed.
Lemma same_contents_trans g1 g2 g3 :
  same_contents g1 g2 → same_contents g2 g3 → same_contents g1 g3.
Proof. intros (?&?&?&?) (?&?&?&?). split_and!; [congruence..|lia|lia]. Qed.

(** Each operation answers what it means and leads to what it means. *)
Definition means {A} (op : TxOp) (f : A → TxResult) (m : gxm Db Tx A) : Prop :=
  ∀ db tx, tx_ok db tx → op_asked (tx_deletable op db tx) op (seen db tx) →
  ∃ a db' tx', m db tx = (Ok a, db', tx') ∧ tx_ok db' tx' ∧
    spec_step op (seen db tx) = (f a, seen db' tx') ∧ same_contents (stored db') (stored db).
Lemma step_means {A} op (f : A → TxResult) (m : gxm Db Tx A) :
  (∀ db tx, gx_step op db tx = let '(r, db, tx) := m db tx in (map_result f r, db, tx)) →
  means op f m.
Proof.
  intros Hm db tx Hok Hasked. destruct (step_law op db tx Hok Hasked) as (a & db' & tx' & Hstep & Hrest).
  rewrite Hm in Hstep. destruct (m db tx) as [[[b|e] db1] tx1]; cbn in Hstep; [|done].
  injection Hstep as <- -> ->. by exists b, db', tx'.
Qed.
Lemma create_node_means labels props : means (CreateNode labels props) RNode (gx_create_node labels props).
Proof. by apply step_means. Qed.
Lemma update_node_means id props : means (UpdateNode id props) RNodeOpt (gx_update_node id props).
Proof. by apply step_means. Qed.
Lemma delete_node_means id : means (DeleteNode id) (λ _ : (), RUnit) (gx_delete_node id).
Proof. by apply step_means. Qed.
Lemma find_node_means id : means (FindNode id) RNodeOpt (gx_find_node_by_id id).
Proof. by apply step_means. Qed.
Lemma create_relationship_means from to ty props :
  means (CreateRelationship from to ty props) RRel (gx_create_relationship from to ty props).
Proof. by apply step_means. Qed.

(** A body in a transaction of its own: what it answers, with the graph it leaves. *)
Definition runs {A X} (body : Db → option Tx → result A * X * Db * option Tx) (db : Db)
    (Q : result A → X → AGraph → Prop) : Prop :=
  ∀ inner, tx_ok db inner → seen db inner = stored db → (∀ op, tx_deletable op db inner) →
  ∃ r x' db1 inner', body db (Some inner) = (r, x', db1, Some inner') ∧ tx_ok db1 inner' ∧
    same_contents (stored db1) (stored db) ∧
    Q r x' (match r with Ok _ => seen db1 inner' | Err _ => stored db1 end).

Lemma autocommit_with_runs {A X} (x : X) body db (Q : result A → X → AGraph → Prop) :
  db_ok db → runs body db Q →
  ∃ r x' db', autocommit_with x body db = (r, x', db') ∧ db_ok db' ∧ Q r x' (stored db') ∧
    (is_ok r = false → same_contents (stored db') (stored db)).
Proof.
  intros Hok Hbody. destruct (begin_law db Hok) as (inner & Hbegin & Htx & Hseen & Hdel).
  destruct (Hbody inner Htx Hseen Hdel) as (r & x' & db1 & inner' & Hrun & Htx' & Hsame & HQ).
  unfold autocommit_with, client_transaction. rewrite Hbegin, Hrun. destruct r as [v|e]; cbn.
  - destruct (commit_law db1 inner' Htx') as (db' & -> & Hok' & Hstored).
    exists (Ok v), x', db'. by rewrite Hstored.
  - destruct (rollback_law db1 inner' Htx') as (db' & -> & Hok' & Hstored).
    exists (Err e), x', db'. by rewrite Hstored.
Qed.
Lemma autocommit_runs {A} (body : txw A) db (Q : result A → AGraph → Prop) :
  db_ok db → runs (without_models body) db (λ r _ g, Q r g) →
  ∃ r db', autocommit body db = (r, db') ∧ db_ok db' ∧ Q r (stored db').
Proof.
  intros Hok Hbody. destruct (autocommit_with_runs tt _ db _ Hok Hbody) as (r & [] & db' & Hrun & ? & ? & _).
  exists r, db'. unfold autocommit. by rewrite Hrun.
Qed.
Lemma autoread_runs {A} (body : txw A) db (Q : result A → AGraph → Prop) :
  db_ok db → runs (without_models body) db (λ r _ _, ∀ g, g = stored db → Q r g) →
  ∃ r db', autoread body db = (r, db') ∧ db_ok db' ∧ Q r (stored db) ∧
           same_contents (stored db') (stored db).
Proof.
  intros Hok Hbody. destruct (begin_law db Hok) as (inner & Hbegin & Htx & Hseen & Hdel).
  destruct (Hbody inner Htx Hseen Hdel) as (r & [] & db1 & inner' & Hrun & Htx' & Hsame & HQ).
  unfold without_models in Hrun. destruct (body db (Some inner)) as [[r1 db2] tx] eqn:Hbody1.
  injection Hrun as -> -> ->. unfold autoread, in_client_transaction, client_transaction.
  rewrite Hbegin, Hbody1. cbn. destruct (drop_law db1 inner' Htx') as [? Hdrop].
  exists r, (gx_drop db1 inner'). rewrite Hdrop. split; [done|]. split; [done|]. split; [by apply HQ|done].
Qed.
End client_laws.
