(* ===== verification/Repo.v ===== *)
(** * Repositories and decoding ([src/src/repo/], [src/src/decode/])

    A repository keeps models of one type in a backend: it writes them as nodes (or
    relationships) and decodes what it reads.  Each call runs in a transaction of
    its own, which ends with the call.  The models a call is lent mutably are part of
    what it answers. *)

From S2P Require Export Backend.

Local Open Scope string_scope.

(** ** Decoding *)

Section decode.
Context `{SerdeNumber}.

(** [labels_match::<M>] *)
Definition model_labels_match (M : Type) `{!NodeModel M} (n : StoredNode) : bool :=
  forallb (λ l, existsb (String.eqb l) (sn_labels n)) (LABELS M).

Definition node_of_value {M} `{!NodeModel M} (error : string) (v : KernelValue) : result M :=
  match v with
  | KNode n => node_from_properties M (node_id_from M (nv_id n)) (nv_props n)
  | _ => Err (Backend error)
  end.
Definition rel_of_value {R} `{!RelModel R} (error : string) (v : KernelValue) : result R :=
  match v with
  | KRel r => rel_from_parts R (rel_id_from R (rv_id r)) (rv_from r) (rv_to r) (rv_props r)
  | _ => Err (Backend error)
  end.
Definition missing_return : GrmError := Backend "execute_graph row missing return var".
Definition decode_node_from_row {M} `{!NodeModel M} (gq : GraphQuery) (row : QueryRow) : result M :=
  v ← ok_or (get_returned row gq) missing_return;
  node_of_value "expected node return value" v.
Definition decode_rel_from_row {R} `{!RelModel R} (gq : GraphQuery) (row : QueryRow) : result R :=
  v ← ok_or (get_returned row gq) missing_return;
  rel_of_value "expected rel return value" v.
(** [DecodeFromRow for KernelValue] *)
Definition decode_kernel_value (_ : GraphQuery) (row : QueryRow) : result KernelValue :=
  match bt_values (row_values row) with
  | [v] => Ok v
  | [] => Err (Mapping "row had no values")
  | vs => Err (Mapping ("row had " +:+ nat_to_string (length vs)
                        +:+ " values; KernelValue::decode expects exactly 1"))
  end.
(** [DecodeFromRowAt] *)
Definition decode_node_at {M} `{!NodeModel M} (_ : GraphQuery) (row : QueryRow) (var : VarId)
    : result M :=
  v ← ok_or (row_get row var) (Backend "row missing var");
  node_of_value "expected node at var" v.

(** A shape decodes itself from a row. *)
Class ResultShape (S Out : Type) := { shape_decode : S → GraphQuery → QueryRow → result Out }.
Record PickNode (M : Type) := { pick_node_var : VarId }.
Record PickRel (R : Type) := { pick_rel_var : VarId }.
Arguments pick_node_var {M}.
Arguments pick_rel_var {R}.
#[global] Instance pick_node_shape {M} `{!NodeModel M} : ResultShape (PickNode M) M :=
  {| shape_decode s gq row := decode_node_at gq row (pick_node_var s) |}.
#[global] Instance pick_rel_shape {R} `{!RelModel R} : ResultShape (PickRel R) R :=
  {| shape_decode s _ row :=
       v ← ok_or (row_get row (pick_rel_var s)) (Backend "row missing var");
       rel_of_value "expected rel at var" v |}.
#[global] Instance pair_shape {A B OA OB} `{!ResultShape A OA} `{!ResultShape B OB}
    : ResultShape (A * B) (OA * OB) :=
  {| shape_decode s gq row :=
       a ← shape_decode s.1 gq row; b ← shape_decode s.2 gq row; Ok (a, b) |}.
#[global] Instance triple_shape {A B C OA OB OC} `{!ResultShape A OA} `{!ResultShape B OB}
    `{!ResultShape C OC} : ResultShape (A * B * C) (OA * OB * OC) | 0 :=
  {| shape_decode s gq row :=
       a ← shape_decode s.1.1 gq row; b ← shape_decode s.1.2 gq row;
       c ← shape_decode s.2 gq row; Ok (a, b, c) |}.
End decode.

(** ** Repositories *)

Section repo.
Context `{SerdeNumber} {Db Tx : Type} `{!GraphTx Db Tx} `{!GraphBackend Db Tx}.

(** A call that is lent models [X]. *)
Definition lent (A X : Type) : Type := Db → option Tx → result A * X * Db * option Tx.

Section nodes.
Context {M : Type} `{!NodeModel M}.

Definition decode_stored_node (node : StoredNode) : result M :=
  node_from_properties M (node_id_from M (sn_id node)) (sn_props node).

(** [create_helper] *)
Definition create_helper (model : M) : lent unit M := λ db tx,
  match on_tx (gx_create_node (LABELS M) (node_to_properties model)) db tx with
  | (Ok stored, db, tx) => (Ok tt, node_set_id model (node_id_from M (sn_id stored)), db, tx)
  | (Err e, db, tx) => (Err e, model, db, tx)
  end.

(** [iter_mut().zip(stored)] *)
Fixpoint set_ids (models : list M) (stored : list StoredNode) : list M :=
  match models, stored with
  | model :: models, node :: stored =>
      node_set_id model (node_id_from M (sn_id node)) :: set_ids models stored
  | models, _ => models
  end.
Definition tx_create_many (models : list M) : lent unit (list M) := λ db tx,
  match models with
  | [] => (Ok tt, [], db, tx)
  | _ =>
      match on_tx (gx_create_nodes (map (λ model, (LABELS M, node_to_properties model)) models))
              db tx with
      | (Ok stored, db, tx) => (Ok tt, set_ids models stored, db, tx)
      | (Err e, db, tx) => (Err e, models, db, tx)
      end
  end.
Definition tx_find_by_id (id : NodeId M) : txw (Db:=Db) (Tx:=Tx) (option M) :=
  stored_opt ← on_tx (gx_find_node_by_id (node_id_into M id));
  match stored_opt with
  | Some stored =>
      if model_labels_match M stored
      then m ← txw_lift (decode_stored_node stored); mret (M:=txw) (Some m)
      else mret (M:=txw) None
  | None => mret (M:=txw) None
  end.
(** The loops that decode, up to the first error. *)
Fixpoint decode_found (stored : list StoredNode) : result (list M) :=
  match stored with
  | [] => Ok []
  | n :: stored =>
      if model_labels_match M n
      then m ← decode_stored_node n; out ← decode_found stored; Ok (m :: out)
      else decode_found stored
  end.
Definition tx_find_by (key : string) (value : Value) : txw (Db:=Db) (Tx:=Tx) (list M) :=
  stored ← on_tx (gx_find_nodes_by_property key value);
  txw_lift (decode_found stored).
Definition tx_update (model : M) : txw (Db:=Db) (Tx:=Tx) unit :=
  _ ← on_tx (gx_update_node (node_id_into M (node_id model)) (node_to_properties model));
  mret (M:=txw) tt.
Definition tx_delete (id : NodeId M) : txw (Db:=Db) (Tx:=Tx) unit :=
  on_tx (gx_delete_node (node_id_into M id)).

(** [NodeRepository]: [create] ends its transaction itself, the others are
    [autocommit!]. *)
Definition repo_create (model : M) (db : Db) : result unit * M * Db :=
  match client_transaction db with
  | (Err e, db) => (Err e, model, db)
  | (Ok tx, db) =>
      match create_helper model db tx with
      | (Ok _, model, db, tx) => let '(r, db, _) := client_commit db tx in (r, model, db)
      | (Err e, model, db, tx) => (Err e, model, drop_transaction db tx)
      end
  end.
Definition repo_create_many (models : list M) : Db → result unit * list M * Db :=
  autocommit_with models (tx_create_many models).
Definition repo_find_by_id (id : NodeId M) : Db → result (option M) * Db :=
  autocommit (tx_find_by_id id).
Definition repo_find_by (key : string) (value : Value) : Db → result (list M) * Db :=
  autocommit (tx_find_by key value).
Definition repo_update (model : M) : Db → result unit * Db := autocommit (tx_update model).
Definition repo_delete (id : NodeId M) : Db → result unit * Db := autocommit (tx_delete id).
(** [execute] and [fetch] *)
Definition repo_execute {R} `{!NodeModel R} (q : Query R) : Db → option (result QueryExecution * Db) :=
  run_or_panic (Db:=Db) (Tx:=Tx) autocommit (client_execute q).
Definition repo_fetch {R} `{!NodeModel R} {D} (decode : GraphQuery → QueryRow → result D)
    (q : Query R) : Db → option (result (list D) * Db) :=
  run_or_panic (Db:=Db) (Tx:=Tx) autocommit (client_query decode q).
End nodes.

Section rels.
Context {R : Type} `{!RelModel R}.

Definition tx_create_between (from_raw to_raw : Z) (rel : R) : lent unit R := λ db tx,
  match on_tx (gx_create_relationship from_raw to_raw (TYPE R) (rel_to_properties rel)) db tx with
  | (Ok stored, db, tx) =>
      (Ok tt, rel_set_to (rel_set_from (rel_set_id rel (rel_id_from R (sr_id stored))) from_raw)
                to_raw, db, tx)
  | (Err e, db, tx) => (Err e, rel, db, tx)
  end.
Fixpoint tx_create_many_between (rels : list (Z * Z * R)) : lent unit (list R) := λ db tx,
  match rels with
  | [] => (Ok tt, [], db, tx)
  | (from_id, to_id, rel) :: rels =>
      match tx_create_between from_id to_id rel db tx with
      | (Ok _, rel, db, tx) =>
          let '(r, rels, db, tx) := tx_create_many_between rels db tx in
          (r, rel :: rels, db, tx)
      | (Err e, rel, db, tx) => (Err e, rel :: map snd rels, db, tx)
      end
  end.
Definition decode_stored_rel (rel : StoredRel) : result R :=
  rel_from_parts R (rel_id_from R (sr_id rel)) (sr_from rel) (sr_to rel) (sr_props rel).
(** The relationship is decoded before the labels of its other end are looked at. *)
Fixpoint decode_pairs (labels : list string) (pairs : list (StoredRel * StoredNode))
    : result (list (R * option Z)) :=
  match pairs with
  | [] => Ok []
  | (rel, n) :: pairs =>
      m ← decode_stored_rel rel;
      out ← decode_pairs labels pairs;
      Ok (if forallb (λ l, existsb (String.eqb l) (sn_labels n)) labels
          then (m, Some (sn_id n)) :: out else out)
  end.
Definition tx_outgoing_from (from_raw : Z) : txw (Db:=Db) (Tx:=Tx) (list (R * option Z)) :=
  pairs ← on_tx (gx_outgoing from_raw (Some (TYPE R)));
  txw_lift (decode_pairs (ToLabels R) pairs).
Definition tx_incoming_to (to_raw : Z) : txw (Db:=Db) (Tx:=Tx) (list (R * option Z)) :=
  pairs ← on_tx (gx_incoming to_raw (Some (TYPE R)));
  txw_lift (decode_pairs (FromLabels R) pairs).

(** [create_between] (its ids converted) and [create_between_i64] *)
Definition repo_create_between (from_id to_id : Z) (rel : R) : Db → result unit * R * Db :=
  autocommit_with rel (tx_create_between from_id to_id rel).
Definition repo_create_many_between (rels : list (Z * Z * R)) : Db → result unit * list R * Db :=
  autocommit_with (map snd rels) (tx_create_many_between rels).
Definition repo_outgoing_from (from_id : Z) : Db → result (list (R * option Z)) * Db :=
  autoread (tx_outgoing_from from_id).
Definition repo_incoming_to (to_id : Z) : Db → result (list (R * option Z)) * Db :=
  autoread (tx_incoming_to to_id).
End rels.
End repo.

(** ** What a repository of nodes is: a map of models

    A shelf holds what each node with the labels of the model decodes to, and the
    next identifier. *)

(** What the derive macros give a model: identifiers convert back and forth, and the
    properties of a model determine it whatever else a node holds. *)
Class NodeModelLaws `{SerdeNumber} (M : Type) `{!NodeModel M} := {
  model_id_from_into (id : NodeId M) : node_id_from M (node_id_into M id) = id;
  model_id_into_from z : in_i64 z = true → node_id_into M (node_id_from M z) = z;
  model_set_id_id (m : M) id : node_id (node_set_id m id) = id;
  model_set_same_id (m : M) : node_set_id m (node_id m) = m;
  model_decodes (m : M) id rest :
    node_from_properties M id (node_to_properties m ∪ rest) = Ok (node_set_id m id);
}.

Section shelf.
Context `{SerdeNumber} {Db Tx : Type} `{!GraphTx Db Tx} `{!GraphBackend Db Tx}.
Context {M : Type} `{!NodeModel M}.

Record Shelf := { shelf_models : gmap Z (result M); shelf_next : Z }.
Definition shelve (node : StoredNode) : option (result M) :=
  if model_labels_match M node then Some (decode_stored_node node) else None.
Definition shelf_of (g : AGraph) : Shelf :=
  {| shelf_models := omap shelve (ag_nodes g); shelf_next := ag_next_node g |}.

Inductive RepoOp :=
  | RepoCreate (model : M)
  | RepoCreateMany (models : list M)
  | RepoFind (id : NodeId M)
  | RepoUpdate (model : M)
  | RepoDelete (id : NodeId M).
Inductive RepoAnswer :=
  | Created (r : result unit) (models : list M)
  | Found (r : result (option M))
  | Finished (r : result unit).

Definition repo_step (op : RepoOp) (db : Db) : RepoAnswer * Db :=
  match op with
  | RepoCreate model => let '(r, model, db) := repo_create model db in (Created r [model], db)
  | RepoCreateMany models =>
      let '(r, models, db) := repo_create_many models db in (Created r models, db)
  | RepoFind id => let '(r, db) := repo_find_by_id id db in (Found r, db)
  | RepoUpdate model => let '(r, db) := repo_update model db in (Finished r, db)
  | RepoDelete id => let '(r, db) := repo_delete (M:=M) id db in (Finished r, db)
  end.
Fixpoint repo_run (ops : list RepoOp) (db : Db) : list RepoAnswer * Db :=
  match ops with
  | [] => ([], db)
  | op :: ops =>
      let '(a, db) := repo_step op db in
      let '(answers, db) := repo_run ops db in (a :: answers, db)
  end.

(** What the operations mean on a shelf. *)
Definition shelf_put (id : Z) (m : M) (shelf : Shelf) : Shelf :=
  {| shelf_models := <[id := Ok m]> (shelf_models shelf); shelf_next := shelf_next shelf |}.
Definition shelf_create (m : M) (shelf : Shelf) : M * Shelf :=
  let id := shelf_next shelf in
  let m := node_set_id m (node_id_from M id) in
  (m, {| shelf_models := <[id := Ok m]> (shelf_models shelf); shelf_next := (id + 1)%Z |}).
Fixpoint shelf_create_many (models : list M) (shelf : Shelf) : list M * Shelf :=
  match models with
  | [] => ([], shelf)
  | m :: models =>
      let '(m, shelf) := shelf_create m shelf in
      let '(models, shelf) := shelf_create_many models shelf in (m :: models, shelf)
  end.
Definition shelf_find (id : Z) (shelf : Shelf) : result (option M) :=
  match shelf_models shelf !! id with
  | Some (Ok m) => Ok (Some m)
  | Some (Err e) => Err e
  | None => Ok None
  end.
Definition shelf_step (op : RepoOp) (shelf : Shelf) : RepoAnswer * Shelf :=
  match op with
  | RepoCreate m => let '(m, shelf) := shelf_create m shelf in (Created (Ok tt) [m], shelf)
  | RepoCreateMany models =>
      let '(models, shelf) := shelf_create_many models shelf in (Created (Ok tt) models, shelf)
  | RepoFind id => (Found (shelf_find (node_id_into M id) shelf), shelf)
  | RepoUpdate m =>
      let id := node_id_into M (node_id m) in
      (Finished (Ok tt), match shelf_models shelf !! id with
                         | Some _ => shelf_put id m shelf
                         | None => shelf
                         end)
  | RepoDelete id =>
      (Finished (Ok tt), {| shelf_models := delete (node_id_into M id) (shelf_models shelf);
                            shelf_next := shelf_next shelf |})
  end.
Fixpoint shelf_run (ops : list RepoOp) (shelf : Shelf) : list RepoAnswer * Shelf :=
  match ops with
  | [] => ([], shelf)
  | op :: ops =>
      let '(a, shelf) := shelf_step op shelf in
      let '(answers, shelf) := shelf_run ops shelf in (a :: answers, shelf)
  end.
(** The identifiers operations use up. *)
Definition repo_cost (op : RepoOp) : nat :=
  match op with RepoCreate _ => 1 | RepoCreateMany models => length models | _ => 0 end.
Definition repo_costs (ops : list RepoOp) : nat := list_sum (map repo_cost ops).
End shelf.

Section shelf_facts.
Context `{SerdeNumber} {Db Tx : Type} `{!GraphTx Db Tx} `{!GraphBackend Db Tx}
  `{!GraphBackendLaws Db Tx}.
Context {M : Type} `{!NodeModel M} `{!NodeModelLaws M}.
Implicit Types (g : AGraph) (m : M).

Definition keyed g : Prop := ∀ id node, ag_nodes g !! id = Some node → sn_id node = id.

Lemma labels_match_own id props :
  model_labels_match M {| sn_id := id; sn_labels := LABELS M; sn_props := props |} = true.
Proof.
  apply forallb_forall. intros l Hl. apply existsb_exists. exists l. by rewrite String.eqb_refl.
Qed.
Lemma shelf_ext n g : {| shelf_models := n; shelf_next := ag_next_node g |} = shelf_of (M:=M) g ↔
  n = omap shelve (ag_nodes g).
Proof. split; [by intros [= ->]|by intros ->]. Qed.

Lemma created_on_shelf m g :
  shelf_of (spec_step (CreateNode (LABELS M) (node_to_properties m)) g).2
  = (shelf_create m (shelf_of g)).2.
Proof.
  cbn. unfold shelf_of. cbn. f_equal. apply omap_insert_Some. unfold shelve.
  rewrite labels_match_own. unfold decode_stored_node. cbn.
  by rewrite <-(map_union_empty (node_to_properties m)), model_decodes.
Qed.
Lemma created_many_on_shelf models g :
  let '(rs, g') := spec_run (map (λ '(labels, props), CreateNode labels props)
                      (map (λ m, (LABELS M, node_to_properties m)) models)) g in
  ∀ created, rs = map RNode created →
    shelf_create_many models (shelf_of g) = (set_ids models created, shelf_of g').
Proof.
  revert g. induction models as [|m models IH]; intros g; [by intros [|]|].
  cbn [map spec_run shelf_create_many]. pose proof (created_on_shelf m g) as Hone.
  destruct (spec_step _ g) as [r g1] eqn:Hstep.
  destruct (shelf_create m (shelf_of g)) as [m' shelf1] eqn:Hshelf. cbn [snd] in Hone. subst shelf1.
  specialize (IH g1). destruct (spec_run _ g1) as [rs g2].
  intros [|node created] Hrs; [done|]. injection Hrs as -> Hrs. rewrite (IH created Hrs).
  cbn in Hstep. injection Hstep as <- _. unfold shelf_create in Hshelf. injection Hshelf as <- _. done.
Qed.
Lemma updated_on_shelf m g :
  keyed g →
  shelf_of (spec_step (UpdateNode (node_id_into M (node_id m)) (node_to_properties m)) g).2
  = (shelf_step (RepoUpdate m) (shelf_of g)).2.
Proof.
  intros Hkeyed. cbn. set (id := node_id_into M (node_id m)). rewrite lookup_omap.
  destruct (ag_nodes g !! id) as [node|] eqn:Hnode; cbn; [|done].
  pose proof (Hkeyed id node Hnode) as Hid. unfold shelf_of, shelf_put, shelve. cbn. rewrite Hid.
  destruct (model_labels_match M node) eqn:Hlabels; cbn.
  - f_equal. apply omap_insert_Some. unfold model_labels_match in *. cbn. rewrite Hlabels.
    unfold decode_stored_node. cbn. rewrite model_decodes. unfold id.
    by rewrite model_id_from_into, model_set_same_id.
  - f_equal. rewrite omap_insert_None by (unfold model_labels_match in *; cbn; by rewrite Hlabels).
    apply delete_id. rewrite lookup_omap, Hnode. cbn. by rewrite Hlabels.
Qed.
Lemma deleted_on_shelf id g :
  shelf_of (spec_step (DeleteNode (node_id_into M id)) g).2
  = (shelf_step (M:=M) (RepoDelete id) (shelf_of g)).2.
Proof. unfold shelf_of. cbn. by rewrite omap_delete. Qed.


Lemma find_node_runs id db inner :
  tx_ok db inner → ∃ db1 inner1,
    gx_find_node_by_id id db inner = (Ok (ag_nodes (seen db inner) !! id), db1, inner1) ∧
    tx_ok db1 inner1 ∧ seen db1 inner1 = seen db inner ∧ same_contents (stored db1) (stored db).
Proof.
  intros Htx. destruct (find_node_means id db inner Htx I) as (a & db1 & inner1 & -> & ? & Hspec & ?).
  cbn in Hspec. injection Hspec as -> Hseen. by exists db1, inner1.
Qed.
(** A graph that is the stored one with the same counters. *)
Lemma unchanged_stored db db1 inner inner1 :
  tx_ok db inner → tx_ok db1 inner1 → seen db inner = stored db → seen db1 inner1 = seen db inner →
  same_contents (stored db1) (stored db) → stored db1 = stored db.
Proof.
  intros Htx Htx1 Hseen Hseen1 (Hn & Hr & _).
  destruct (counters_law db1 inner1 Htx1) as [Hnn Hnr]. rewrite Hseen1, Hseen in Hnn, Hnr.
  destruct (stored db1), (stored db); cbn in *. by subst.
Qed.

Lemma find_by_id_ok id db :
  db_ok db → ∃ db', repo_find_by_id (M:=M) id db
    = (shelf_find (node_id_into M id) (shelf_of (stored db)), db') ∧ db_ok db' ∧ stored db' = stored db.
Proof.
  intros Hok. assert (keyed (stored db)) as Hkeyed by (intros i node; by apply keyed_law).
  destruct (autocommit_runs (tx_find_by_id (M:=M) id) db
    (λ r g, r = shelf_find (node_id_into M id) (shelf_of (stored db)) ∧ g = stored db) Hok)
    as (r & db' & Hrun & Hok' & -> & Hsame); [|by exists db'].
  intros inner Htx Hseen _. set (i := node_id_into M id).
  destruct (find_node_runs i db inner Htx) as (db1 & inner1 & Hfind & Htx1 & Hseen1 & Hsame).
  pose proof (unchanged_stored _ _ _ _ Htx Htx1 Hseen Hseen1 Hsame) as Hstored.
  assert (tx_find_by_id (M:=M) id db (Some inner)
    = (shelf_find i (shelf_of (stored db)), db1, Some inner1)) as Hbody.
  { unfold tx_find_by_id. change (node_id_into M id) with i. unfold mbind, txw_bind, gxm_bind, on_tx. rewrite Hfind, Hseen.
    unfold shelf_find, shelf_of. cbn. rewrite lookup_omap.
    destruct (ag_nodes (stored db) !! i) as [node|]; cbn; [|done]. unfold shelve.
    destruct (model_labels_match M node); [|done]. cbn. unfold txw_lift.
    by destruct (decode_stored_node node). }
  exists (shelf_find i (shelf_of (stored db))), tt, db1, inner1.
  unfold without_models. rewrite Hbody. split; [done|]. split; [done|]. split; [done|].
  split; [done|]. destruct (shelf_find _ _); [by rewrite Hseen1|done].
Qed.

Lemma create_ok m db :
  db_ok db → (ag_next_node (stored db) < i64_max)%Z →
  ∃ db', repo_create m db = (Ok tt, (shelf_create m (shelf_of (stored db))).1, db') ∧ db_ok db' ∧
    stored db' = (spec_step (CreateNode (LABELS M) (node_to_properties m)) (stored db)).2.
Proof.
  intros Hok Hroom. destruct (begin_law db Hok) as (inner & Hbegin & Htx & Hseen & _).
  destruct (create_node_means (LABELS M) (node_to_properties m) db inner Htx) as
    (a & db1 & inner1 & Hcreate & Htx1 & Hspec & _); [by rewrite Hseen|].
  unfold repo_create, client_transaction, create_helper, on_tx. rewrite Hbegin, Hcreate. cbn.
  destruct (commit_law db1 inner1 Htx1) as (db' & -> & Hok' & Hstored). exists db'.
  rewrite Hseen in Hspec. rewrite Hstored. cbn in Hspec |- *. injection Hspec as <- <-. done.
Qed.
Lemma create_many_ok models db :
  db_ok db → (ag_next_node (stored db) + Z.of_nat (length models) ≤ i64_max)%Z →
  ∃ db', repo_create_many models db = (Ok tt, (shelf_create_many models (shelf_of (stored db))).1, db') ∧
    db_ok db' ∧ shelf_of (stored db') = (shelf_create_many models (shelf_of (stored db))).2.
Proof.
  intros Hok Hroom. set (shelf := shelf_create_many models (shelf_of (stored db))).
  destruct (autocommit_with_runs models (tx_create_many models) db
    (λ r models' g, r = Ok tt ∧ models' = shelf.1 ∧ shelf_of g = shelf.2) Hok)
    as (r & models' & db' & Hrun & Hok' & (-> & -> & Hshelf) & _); [|by exists db'].
  intros inner Htx Hseen _. unfold tx_create_many.
  destruct models as [|m models].
  { exists (Ok tt), [], db, inner. cbn. by rewrite Hseen. }
  remember (m :: models) as all eqn:Hall. unfold on_tx.
  destruct (create_nodes_law (map (λ m, (LABELS M, node_to_properties m)) all) db inner Htx) as
    (created & db1 & inner1 & -> & Htx1 & Hspec & Hsame); [by rewrite length_map, Hseen|].
  exists (Ok tt), (set_ids all created), db1, inner1. split; [done|]. split; [done|]. split; [done|].
  pose proof (created_many_on_shelf all (stored db)) as Hmany. rewrite Hseen in Hspec.
  rewrite Hspec in Hmany. unfold shelf. by rewrite (Hmany created eq_refl).
Qed.
Lemma update_ok m db :
  db_ok db → ∃ db', repo_update m db = (Ok tt, db') ∧ db_ok db' ∧
    stored db' = (spec_step (UpdateNode (node_id_into M (node_id m)) (node_to_properties m))
                   (stored db)).2.
Proof.
  intros Hok. destruct (autocommit_runs (tx_update m) db (λ r g, r = Ok tt ∧
    g = (spec_step (UpdateNode (node_id_into M (node_id m)) (node_to_properties m)) (stored db)).2) Hok)
    as (r & db' & Hrun & Hok' & -> & Hg); [|by exists db'].
  intros inner Htx Hseen _.
  destruct (update_node_means (node_id_into M (node_id m)) (node_to_properties m) db inner Htx I) as
    (a & db1 & inner1 & Hup & Htx1 & Hspec & Hsame).
  exists (Ok tt), tt, db1, inner1. unfold without_models, tx_update, on_tx, mbind, txw_bind, gxm_bind.
  cbn beta iota. rewrite Hup. split_and!; try done. by rewrite <-Hseen, Hspec.
Qed.
Lemma delete_ok id db :
  db_ok db → ∃ db', repo_delete (M:=M) id db = (Ok tt, db') ∧ db_ok db' ∧
    stored db' = (spec_step (DeleteNode (node_id_into M id)) (stored db)).2.
Proof.
  intros Hok. destruct (autocommit_runs (tx_delete (M:=M) id) db (λ r g, r = Ok tt ∧
    g = (spec_step (DeleteNode (node_id_into M id)) (stored db)).2) Hok)
    as (r & db' & Hrun & Hok' & -> & Hg); [|by exists db'].
  intros inner Htx Hseen Hdel.
  destruct (delete_node_means (node_id_into M id) db inner Htx (Hdel _)) as
    ([] & db1 & inner1 & Hd & Htx1 & Hspec & Hsame).
  exists (Ok tt), tt, db1, inner1. unfold without_models, tx_delete, on_tx.
  rewrite Hd. split_and!; try done. by rewrite <-Hseen, Hspec.
Qed.

Lemma repo_step_ok op db :
  db_ok db → (ag_next_node (stored db) + Z.of_nat (repo_cost op) ≤ i64_max)%Z →
  let '(a, db') := repo_step op db in
  shelf_step op (shelf_of (stored db)) = (a, shelf_of (stored db')) ∧ db_ok db' ∧
  ag_next_node (stored db') = (ag_next_node (stored db) + Z.of_nat (repo_cost op))%Z.
Proof.
  intros Hok Hroom. assert (keyed (stored db)) as Hkeyed by (intros i node; by apply keyed_law).
  destruct op as [m|models|id|m|id]; cbn [repo_step repo_cost] in *.
  - destruct (create_ok m db Hok) as (db' & -> & Hok' & Hg); [lia|]. rewrite Hg, created_on_shelf.
    cbn [shelf_step]. destruct (shelf_create m (shelf_of (stored db))) as [m' shelf] eqn:Hc.
    split; [done|]. split; [done|]. cbn. lia.
  - destruct (create_many_ok models db Hok Hroom) as (db' & -> & Hok' & Hshelf).
    cbn [shelf_step]. destruct (shelf_create_many models (shelf_of (stored db))) as [ms shelf] eqn:Hc.
    cbn in Hshelf. rewrite Hshelf. split; [done|]. split; [done|].
    change (ag_next_node (stored db')) with (shelf_next (M:=M) (shelf_of (stored db'))).
    change (ag_next_node (stored db)) with (shelf_next (M:=M) (shelf_of (stored db))).
    rewrite Hshelf. clear Hshelf Hroom Hkeyed. revert ms shelf Hc. generalize (shelf_of (M:=M) (stored db)).
    induction models as [|m models IH]; intros shelf0 ms shelf Hc; cbn in *; [injection Hc as _ ->; lia|].
    destruct (shelf_create_many models _) as [ms' shelf'] eqn:Hrest. injection Hc as _ <-.
    apply IH in Hrest. cbn in Hrest. lia.
  - destruct (find_by_id_ok id db Hok) as (db' & -> & Hok' & ->). split; [done|]. split; [done|]. lia.
  - destruct (update_ok m db Hok) as (db' & -> & Hok' & Hg). rewrite Hg, updated_on_shelf by done.
    split; [done|]. split; [done|]. cbn. destruct (ag_nodes (stored db) !! _); cbn; lia.
  - destruct (delete_ok id db Hok) as (db' & -> & Hok' & Hg). rewrite Hg, deleted_on_shelf.
    split; [done|]. split; [done|]. cbn. lia.
Qed.

End shelf_facts.

(** ** Relationships *)

Section rel_facts.
Context `{SerdeNumber} {Db Tx : Type} `{!GraphTx Db Tx} `{!GraphBackend Db Tx}
  `{!GraphBackendLaws Db Tx}.
Context {R : Type} `{!RelModel R}.

Definition has_labels (labels : list string) (n : StoredNode) : bool :=
  forallb (λ l, existsb (String.eqb l) (sn_labels n)) labels.
Lemma decode_pairs_spec labels pairs :
  match decode_pairs (R:=R) labels pairs with
  | Ok out => ∀ m id, (m, id) ∈ out ↔ ∃ rel n, (rel, n) ∈ pairs ∧
      decode_stored_rel rel = Ok m ∧ has_labels labels n = true ∧ id = Some (sn_id n)
  | Err e => ∃ rel n, (rel, n) ∈ pairs ∧ decode_stored_rel (R:=R) rel = Err e
  end.
Proof.
  induction pairs as [|[rel n] pairs IH]; cbn.
  { intros m id. split; [inversion 1|intros (? & ? & Hin & _); inversion Hin]. }
  destruct (decode_stored_rel rel) as [m|e] eqn:Hrel; cbn.
  2:{ exists rel, n. split; [by left|done]. }
  destruct (decode_pairs labels pairs) as [out|e]; cbn.
  - intros m' id. fold (has_labels labels n). setoid_rewrite elem_of_cons.
    assert ((m', id) ∈ (if has_labels labels n then (m, Some (sn_id n)) :: out else out) ↔
      (has_labels labels n = true ∧ (m', id) = (m, Some (sn_id n))) ∨ (m', id) ∈ out) as ->.
    { destruct (has_labels labels n); [rewrite elem_of_cons|]; intuition congruence. }
    rewrite IH. split.
    + intros [[Hl [= -> ->]]|(rel' & n' & Hin & Hrest)]; [exists rel, n|exists rel', n']; auto.
    + intros (rel' & n' & [[= -> ->]|Hin] & Hm & Hl & ->); [left|right; eauto 6].
      rewrite Hrel in Hm. by injection Hm as ->.
  - destruct IH as (rel' & n' & ? & ?). exists rel', n'. split; [by right|done].
Qed.

(** What a traversal of a repository answers: the relationships of its type at the
    node, as the graph has them, with the other end where it has the labels; or
    the error of one that does not decode. *)
Definition traversal_answer (g : AGraph) (labels : list string) (dir : Direction) (node : Z)
    (r : result (list (R * option Z))) : Prop :=
  let at_node rel n := is_Some (ag_nodes g !! node) ∧ ag_rels g !! sr_id rel = Some rel ∧
    rel_matches_neighbor rel node (Some (TYPE R)) dir = true ∧
    ∃ i, neighbor_id rel node dir = Some i ∧ ag_nodes g !! i = Some n in
  match r with
  | Ok out => ∀ m id, (m, id) ∈ out ↔ ∃ rel n, at_node rel n ∧
      decode_stored_rel rel = Ok m ∧ has_labels labels n = true ∧ id = Some (sn_id n)
  | Err e => ∃ rel n, at_node rel n ∧ decode_stored_rel (R:=R) rel = Err e
  end.
Lemma traversal_answered g labels dir node pairs :
  pairs_of g node (Some (TYPE R)) dir pairs →
  traversal_answer g labels dir node (decode_pairs labels pairs).
Proof.
  intros [_ Hpairs]. pose proof (decode_pairs_spec labels pairs) as Hspec. unfold traversal_answer.
  destruct (decode_pairs labels pairs) as [out|e].
  - intros m id. rewrite Hspec. by setoid_rewrite Hpairs.
  - destruct Hspec as (rel & n & Hin & He). exists rel, n. by rewrite <-Hpairs.
Qed.

(** A traversal answers the relationships there are and changes nothing. *)
Theorem traversals_answer_the_graph node db :
  db_ok db →
  (∃ r db', repo_outgoing_from (R:=R) node db = (r, db') ∧ db_ok db' ∧
     traversal_answer (stored db) (ToLabels R) DirOut node r ∧
     same_contents (stored db') (stored db)) ∧
  (∃ r db', repo_incoming_to (R:=R) node db = (r, db') ∧ db_ok db' ∧
     traversal_answer (stored db) (FromLabels R) DirIn node r ∧
     same_contents (stored db') (stored db)).
Proof.
  intros Hok. split.
  - apply (autoread_runs _ _ (λ r g, traversal_answer g (ToLabels R) DirOut node r) Hok).
    intros inner Htx Hseen _. destruct (outgoing_law node (Some (TYPE R)) db inner Htx) as (pairs & Hrun & Hp).
    exists (decode_pairs (ToLabels R) pairs), tt, db, inner.
    unfold without_models, tx_outgoing_from, mbind, txw_bind, gxm_bind, on_tx. rewrite Hrun.
    split; [done|]. split; [done|]. split; [apply same_contents_refl|]. intros g ->.
    rewrite Hseen in Hp. by apply traversal_answered.
  - apply (autoread_runs _ _ (λ r g, traversal_answer g (FromLabels R) DirIn node r) Hok).
    intros inner Htx Hseen _. destruct (incoming_law node (Some (TYPE R)) db inner Htx) as (pairs & Hrun & Hp).
    exists (decode_pairs (FromLabels R) pairs), tt, db, inner.
    unfold without_models, tx_incoming_to, mbind, txw_bind, gxm_bind, on_tx. rewrite Hrun.
    split; [done|]. split; [done|]. split; [apply same_contents_refl|]. intros g ->.
    rewrite Hseen in Hp. by apply traversal_answered.
Qed.

(** Relationships created together: each between visible ends, one identifier each. *)
Fixpoint between_ends (g : AGraph) (rels : list (Z * Z * R)) : Prop :=
  match rels with
  | [] => True
  | (from, to, _) :: rels =>
      is_Some (ag_nodes g !! from) ∧ is_Some (ag_nodes g !! to) ∧ between_ends g rels
  end.
Definition creations (rels : list (Z * Z * R)) : list TxOp :=
  map (λ '(from, to, rel), CreateRelationship from to (TYPE R) (rel_to_properties rel)) rels.
Fixpoint created_rels (id : Z) (rels : list (Z * Z * R)) : list R :=
  match rels with
  | [] => []
  | (from, to, rel) :: rels =>
      rel_set_to (rel_set_from (rel_set_id rel (rel_id_from R id)) from) to
      :: created_rels (id + 1) rels
  end.
Lemma between_ends_nodes g h rels : ag_nodes g = ag_nodes h → between_ends g rels → between_ends h rels.
Proof. intros Heq. induction rels as [|[[from to] rel] rels IH]; cbn; [done|]. rewrite Heq. tauto. Qed.

Lemma spec_run_cons op ops g :
  (spec_run (op :: ops) g).2 = (spec_run ops (spec_step op g).2).2.
Proof.
  cbn -[spec_step]. destruct (spec_step op g) as [r g']. cbn. by destruct (spec_run ops g').
Qed.
Lemma tx_create_many_between_runs rels db inner :
  tx_ok db inner → between_ends (seen db inner) rels →
  (ag_next_rel (seen db inner) + Z.of_nat (length rels) ≤ i64_max)%Z →
  ∃ db1 inner1, tx_create_many_between rels db (Some inner)
    = (Ok tt, created_rels (ag_next_rel (seen db inner)) rels, db1, Some inner1) ∧ tx_ok db1 inner1 ∧
    (spec_run (creations rels) (seen db inner)).2 = seen db1 inner1 ∧
    same_contents (stored db1) (stored db).
Proof.
  revert db inner. induction rels as [|[[from to] rel] rels IH]; intros db inner Htx Hends Hroom.
  { exists db, inner. split; [done|]. split; [done|]. split; [done|]. apply same_contents_refl. }
  destruct Hends as (Hfrom & Hto & Hends). cbn [length] in Hroom.
  destruct (create_relationship_means from to (TYPE R) (rel_to_properties rel) db inner Htx) as
    (a & db1 & inner1 & Hcreate & Htx1 & Hspec & Hsame); [cbn; split_and!; [lia|done|done]|].
  cbn in Hspec. injection Hspec as <- Hseen.
  destruct (IH db1 inner1 Htx1) as (db2 & inner2 & Hrest & Htx2 & Hspec & Hsame2).
  { eapply between_ends_nodes; [|exact Hends]. by rewrite <-Hseen. }
  { rewrite <-Hseen. cbn. lia. }
  exists db2, inner2. cbn [tx_create_many_between]. unfold tx_create_between, on_tx. rewrite Hcreate.
  rewrite Hrest. split; [by rewrite <-Hseen|]. split; [done|]. split.
  - rewrite <-Hspec, <-Hseen. unfold creations. cbn [map]. by rewrite spec_run_cons.
  - by eapply same_contents_trans.
Qed.
(** Relationships created in one call are in the graph with its end, all of them. *)
Theorem relationships_are_created rels db :
  db_ok db → between_ends (stored db) rels →
  (ag_next_rel (stored db) + Z.of_nat (length rels) ≤ i64_max)%Z →
  ∃ db', repo_create_many_between rels db
    = (Ok tt, created_rels (ag_next_rel (stored db)) rels, db') ∧ db_ok db' ∧
    stored db' = (spec_run (creations rels) (stored db)).2.
Proof.
  intros Hok Hends Hroom.
  destruct (autocommit_with_runs (map snd rels) (tx_create_many_between rels) db
    (λ r rels' g, r = Ok tt ∧ rels' = created_rels (ag_next_rel (stored db)) rels ∧
                  g = (spec_run (creations rels) (stored db)).2) Hok)
    as (r & rels' & db' & Hrun & Hok' & (-> & -> & Hg) & _); [|by exists db'].
  intros inner Htx Hseen _. rewrite <-Hseen in Hends, Hroom.
  destruct (tx_create_many_between_runs rels db inner Htx Hends Hroom) as
    (db1 & inner1 & Hrun & Htx1 & Hspec & Hsame).
  exists (Ok tt), (created_rels (ag_next_rel (seen db inner)) rels), db1, inner1.
  rewrite <-Hspec, Hseen. rewrite Hseen in Hrun. by split_and!.
Qed.
End rel_facts.

(** ** Witnesses *)

Section repo_witnesses.
#[local] Existing Instance serde_default.

(** A derived model with one field. *)
Record WUser := { wu_id : Z; wu_name : string }.
#[local] Instance WUser_model : NodeModel WUser := {|
  LABELS := ["User"]; NodeId := Z; node_id_into z := z; node_id_from z := z;
  node_id := wu_id; node_set_id u id := {| wu_id := id; wu_name := wu_name u |};
  node_to_properties u := {["name" := Str (wu_name u)]};
  node_from_properties id props :=
    match props !! "name" with
    | Some (Str name) => Ok {| wu_id := id; wu_name := name |}
    | Some _ => Err (Mapping "failed to deserialize field `name`")
    | None => Err (Mapping "missing field `name`")
    end;
|}.
#[local] Instance WUser_laws : NodeModelLaws WUser.
Proof.
  split; [done|done|done|by intros []|]. intros m id rest. cbn.
  by rewrite (lookup_union_Some_l _ _ "name" (Str (wu_name m))) by apply lookup_singleton_eq.
Qed.

Definition w_user (id : Z) (name : string) : WUser := {| wu_id := id; wu_name := name |}.
Definition w_calls : list (RepoOp (M:=WUser)) :=
  [RepoCreate (w_user 0 "Ada"); RepoCreateMany [w_user 0 "Bob"; w_user 0 "Cy"];
   RepoUpdate (w_user 2 "Bea"); RepoUpdate (w_user 9 "Zoe"); RepoFind (M:=WUser) 2%Z;
   RepoDelete (M:=WUser) 1%Z; RepoFind (M:=WUser) 1%Z; RepoFind (M:=WUser) 9%Z].
Definition is_user (u : WUser) (id : Z) (name : string) : bool :=
  Z.eqb (wu_id u) id && String.eqb (wu_name u) name.
Definition w_answers_right (answers : list (RepoAnswer (M:=WUser))) : bool :=
  match answers with
  | [Created (Ok _) [a]; Created (Ok _) [b; c]; Finished (Ok _); Finished (Ok _);
     Found (Ok (Some f)); Finished (Ok _); Found (Ok None); Found (Ok None)] =>
      is_user a 1 "Ada" && is_user b 2 "Bob" && is_user c 3 "Cy" && is_user f 2 "Bea"
  | _ => false
  end.
End repo_witnesses.
