(* ===== verification/Batch.v ===== *)
(** * Batches of operations ([src/src/runtime/batch.rs])

    A batch runs its operations one after the other on the session.  An atomic
    batch stops at the first error and restores the session it began with; a
    batch that is not goes on and reports the errors. *)

From S2P Require Export Session.

Local Open Scope string_scope.

(** [Display] of the error type ([error.rs]). *)
Definition error_to_string (e : GrmError) : string :=
  match e with
  | Backend msg => "backend error: " +:+ msg
  | Mapping msg => "mapping error: " +:+ msg
  | NotFound => "not found"
  | Constraint msg => "constraint violation: " +:+ msg
  | TransactionClosed => "tx already committed/rolled back"
  | NotSupported msg => "operation not supported by backend: " +:+ msg
  | SaveAborted msg => "cannot save to file: " +:+ msg
  | LoadAborted msg => "cannot load from file: " +:+ msg
  end.

Section batch.
Context `{SerdeNumber} `{Formats}.

Definition op_name (op : SessionBatchOp) : string :=
  match op with
  | BSchemaDefineNode _ _ _ => "schema_define_node"
  | BSchemaDefineEdge _ _ _ _ _ => "schema_define_edge"
  | BNodeCreate _ _ _ => "node_create"
  | BNodeUpdate _ _ _ => "node_update"
  | BNodeDelete _ _ => "node_delete"
  | BEdgeCreate _ _ _ _ => "edge_create"
  | BEdgeUpdate _ _ _ => "edge_update"
  | BEdgeDelete _ _ => "edge_delete"
  end.

Definition is_delete (op : SessionBatchOp) : bool :=
  match op with BNodeDelete _ _ | BEdgeDelete _ _ => true | _ => false end.

Record SessionBatchOutcome := {
  bo_value : Value;
  bo_should_persist : bool;
  bo_durable_ops : list DurableOperation;
}.

Record BatchApplied := {
  ba_op : string;
  ba_model : string;
  ba_id : option Z;
  ba_local_ref : option string;
  ba_durable_op : DurableOperation;
}.

Record BatchSummary := {
  su_applied : bool;
  su_atomic : bool;
  su_detailed : bool;
  su_operation_count : nat;
  su_counts : gmap string (gmap string nat);
  su_errors : list Value;
  su_ids : list Value;
}.

Definition BatchSummary_new (atomic detailed : bool) (operation_count : nat) : BatchSummary :=
  {| su_applied := true; su_atomic := atomic; su_detailed := detailed;
     su_operation_count := operation_count; su_counts := ∅; su_errors := []; su_ids := [] |}.

Definition count_json (n : nat) : Value := value_from_u64 (Z.of_nat n).

Definition record_applied (applied : BatchApplied) (su : BatchSummary) : BatchSummary :=
  let models := default ∅ (su_counts su !! ba_op applied) in
  {| su_applied := su_applied su; su_atomic := su_atomic su; su_detailed := su_detailed su;
     su_operation_count := su_operation_count su;
     su_counts := <[ba_op applied :=
       <[ba_model applied := S (default 0 (models !! ba_model applied))]> models]> (su_counts su);
     su_errors := su_errors su;
     su_ids :=
       if su_detailed su then
         match ba_id applied with
         | Some id =>
             (su_ids su ++
               [Object ([("id", value_from_i64 id); ("model", Str (ba_model applied));
                         ("op", Str (ba_op applied))]
                        ++ match ba_local_ref applied with
                           | Some local_ref => [("ref", Str local_ref)]
                           | None => []
                           end)])%list
         | None => su_ids su
         end
       else su_ids su |}.

Definition recovery_text : string :=
  "Inspect the operation at this index, call grm_schema_list if model fields or ids are uncertain, then retry the failed operation.".

Definition record_error (index : nat) (message : string) (su : BatchSummary) : BatchSummary :=
  {| su_applied := false; su_atomic := su_atomic su; su_detailed := su_detailed su;
     su_operation_count := su_operation_count su; su_counts := su_counts su;
     su_errors := (su_errors su ++
       [Object [("index", count_json index); ("message", Str message);
                ("recovery", Str recovery_text)]])%list;
     su_ids := su_ids su |}.

Definition set_not_applied (su : BatchSummary) : BatchSummary :=
  {| su_applied := false; su_atomic := su_atomic su; su_detailed := su_detailed su;
     su_operation_count := su_operation_count su; su_counts := su_counts su;
     su_errors := su_errors su; su_ids := su_ids su |}.

Definition has_successes (su : BatchSummary) : bool := negb (bool_decide (su_counts su = ∅)).

(** The entries in key order. *)
Definition into_value (su : BatchSummary) : Value :=
  Object
    ([("applied", Bool (su_applied su)); ("atomic", Bool (su_atomic su));
      ("counts", Object (map (λ e : string * gmap string nat,
         (e.1, Object (map (λ c : string * nat, (c.1, count_json c.2)) (bt_iter e.2))))
         (bt_iter (su_counts su))));
      ("errors", Array (su_errors su))]
     ++ (if su_detailed su then [("ids", Array (su_ids su))] else [])
     ++ [("operation_count", count_json (su_operation_count su))])%list.

(** ** One operation *)

Definition parse_field_value_type (raw : string) : option FieldValueType :=
  if String.eqb raw "string" then Some FString
  else if String.eqb raw "int" then Some FInt
  else if String.eqb raw "float" then Some FFloat
  else if String.eqb raw "bool" then Some FBool
  else if String.eqb raw "bytes" then Some FBytes
  else if String.eqb raw "decimal" then Some FDecimal
  else if String.eqb raw "date" then Some FDate
  else if String.eqb raw "datetime" then Some FDateTime
  else if String.eqb raw "duration" then Some FDuration
  else if String.eqb raw "uuid" then Some FUuid
  else None.

Definition parse_field (field : SessionBatchFieldParam) : result FieldSpec :=
  value_type ← ok_or (parse_field_value_type (bf_value_type field))
    (Constraint ("unsupported field type '" +:+ bf_value_type field
       +:+ "', expected one of: string, int, float, bool, bytes, decimal, date, datetime, duration, or uuid"));
  Ok {| fs_name := bf_name field; fs_value_type := value_type;
        fs_required := bf_required field |}.
Definition parse_fields (fields : list SessionBatchFieldParam) : result (list FieldSpec) :=
  mapM parse_field fields.

Definition resolve_batch_endpoint (endpoint : SessionBatchEndpoint) (refs : gmap string Z)
    (field : string) : result Z :=
  match endpoint with
  | EndpointId id => Ok id
  | EndpointRef local_ref =>
      ok_or (refs !! local_ref)
        (Constraint (field +:+ " ref '" +:+ local_ref
                     +:+ "' was not created earlier in this batch"))
  end.

Definition applied (op : SessionBatchOp) (model : string) (id : option Z)
    (durable_op : DurableOperation) : BatchApplied :=
  {| ba_op := op_name op; ba_model := model; ba_id := id; ba_local_ref := None;
     ba_durable_op := durable_op |}.

(** The references grow only when a node is created. *)
Definition apply_batch_op (refs : gmap string Z) (op : SessionBatchOp)
    : session (BatchApplied * gmap string Z) :=
  match op with
  | BSchemaDefineNode name id_field fields =>
      fields ← lift (parse_fields fields);
      outcome ← apply_define_node
        {| dn_name := name; dn_id_field := id_field; dn_fields := fields |};
      mret (applied op (nm_name (ro_value outcome)) None (ro_durable_op outcome), refs)
  | BSchemaDefineEdge name from_model to_model id_field fields =>
      fields ← lift (parse_fields fields);
      outcome ← apply_define_edge
        {| de_name := name; de_from_model := from_model; de_to_model := to_model;
           de_id_field := id_field; de_fields := fields |};
      mret (applied op (rm_name (ro_value outcome)) None (ro_durable_op outcome), refs)
  | BNodeCreate model props local_ref =>
      _ ← lift (match local_ref with
                | Some r =>
                    if bool_decide (is_Some (refs !! r))
                    then Err (Constraint ("duplicate batch ref '" +:+ r +:+ "'"))
                    else Ok tt
                | None => Ok tt
                end);
      outcome ← apply_node_create {| nc_model := model; nc_props := props |};
      let id := sn_id (ro_value outcome) in
      mret ({| ba_op := op_name op; ba_model := model; ba_id := Some id;
               ba_local_ref := local_ref; ba_durable_op := ro_durable_op outcome |},
            match local_ref with Some r => <[r := id]> refs | None => refs end)
  | BNodeUpdate model id props =>
      outcome ← apply_node_update {| nu_model := model; nu_id := id; nu_props := props |};
      mret (applied op model (Some (sn_id (ro_value outcome))) (ro_durable_op outcome), refs)
  | BNodeDelete model id =>
      outcome ← apply_node_delete {| nd_model := model; nd_id := id |};
      mret (applied op (del_model (ro_value outcome)) (Some (del_id (ro_value outcome)))
                    (ro_durable_op outcome), refs)
  | BEdgeCreate model from to props =>
      from ← lift (resolve_batch_endpoint from refs "from");
      to ← lift (resolve_batch_endpoint to refs "to");
      outcome ← apply_edge_create
        {| ec_model := model; ec_from := from; ec_to := to; ec_props := props |};
      mret (applied op model (Some (sr_id (ro_value outcome))) (ro_durable_op outcome), refs)
  | BEdgeUpdate model id props =>
      outcome ← apply_edge_update {| eu_model := model; eu_id := id; eu_props := props |};
      mret (applied op model (Some (sr_id (ro_value outcome))) (ro_durable_op outcome), refs)
  | BEdgeDelete model id =>
      outcome ← apply_edge_delete {| ed_model := model; ed_id := id |};
      mret (applied op (del_model (ro_value outcome)) (Some (del_id (ro_value outcome)))
                    (ro_durable_op outcome), refs)
  end.

(** ** The batch *)

(** What the loop carries besides the session. *)
Record BatchState := {
  bt_refs : gmap string Z;
  bt_summary : BatchSummary;
  bt_durable_ops : list DurableOperation;
}.

(** The early return of an atomic batch. *)
Definition abort_batch (saved : option SessionState) (su : BatchSummary) (σ : SessionState)
    : SessionBatchOutcome * SessionState :=
  ({| bo_value := into_value (set_not_applied su); bo_should_persist := false;
      bo_durable_ops := [] |},
   match saved with Some saved => restore saved σ | None => σ end).

(** Two operations or more become one [Batch]. *)
Definition wrapped (ops : list DurableOperation) : list DurableOperation :=
  match ops with [] => [] | [op] => [op] | ops => [DurBatch ops] end.

Definition finish_batch (st : BatchState) : SessionBatchOutcome :=
  let su := bt_summary st in
  {| bo_value := into_value su; bo_should_persist := su_applied su || has_successes su;
     bo_durable_ops := wrapped (bt_durable_ops st) |}.

Fixpoint batch_loop (params : SessionBatchParams) (saved : option SessionState) (index : nat)
    (ops : list SessionBatchOp) (st : BatchState) (σ : SessionState)
    : SessionBatchOutcome * SessionState :=
  match ops with
  | [] => (finish_batch st, σ)
  | op :: ops =>
      let failed message σ :=
        let su := record_error index message (bt_summary st) in
        if bp_atomic params then abort_batch saved su σ
        else batch_loop params saved (S index) ops
               {| bt_refs := bt_refs st; bt_summary := su;
                  bt_durable_ops := bt_durable_ops st |} σ in
      if is_delete op && negb (bp_allow_deletes params)
      then failed (op_name op +:+ " requires allow_deletes=true on grm_batch") σ
      else
        match apply_batch_op (bt_refs st) op σ with
        | (Ok (applied, refs), σ) =>
            batch_loop params saved (S index) ops
              {| bt_refs := refs; bt_summary := record_applied applied (bt_summary st);
                 bt_durable_ops := (bt_durable_ops st ++ [ba_durable_op applied])%list |} σ
        | (Err e, σ) => failed (error_to_string e) σ
        end
  end.

Definition is_detailed (r : SessionBatchResponse) : bool :=
  match r with BatchDetailedResponse => true | BatchSummaryResponse => false end.

Definition apply_session_batch (params : SessionBatchParams) (σ : SessionState)
    : SessionBatchOutcome * SessionState :=
  let saved := if bp_atomic params then Some (snapshot σ) else None in
  batch_loop params saved 0 (bp_ops params)
    {| bt_refs := ∅;
       bt_summary := BatchSummary_new (bp_atomic params) (is_detailed (bp_response params))
                                      (length (bp_ops params));
       bt_durable_ops := [] |} σ.
End batch.

(** ** All or nothing *)

Section atomicity.
Context `{SerdeNumber} `{Formats}.
Implicit Types (σ τ : SessionState) (params : SessionBatchParams) (st : BatchState).

Lemma sound_unbind {A B} (m : session A) (f : A → B) σ op :
  sound ((a ← m; mret (f a)) σ) σ op → sound (m σ) σ (λ a, op (f a)).
Proof. unfold sound, mbind, session_bind. by destruct (m σ) as [[a|e] σ']. Qed.

(** A batch operation is a mutation. *)
Lemma batch_op_sound refs op σ :
  session_inv σ → room σ →
  sound (apply_batch_op refs op σ) σ (λ a, ba_durable_op a.1).
Proof.
  intros Hinv Hroom.
  destruct op as [name idf fs|name from to idf fs|model props ref|model id props|model id
                 |model from to props|model id props|model id]; cbn [apply_batch_op].
  - apply sound_lift. intros fields _. apply sound_bind. by apply define_node_sound.
  - apply sound_lift. intros fields _. apply sound_bind. by apply define_edge_sound.
  - apply sound_lift. intros u _. apply sound_bind. apply sound_unbind with (op := λ x, x).
    by apply (mutation_sound (MNodeCreate _)).
  - apply sound_bind. apply sound_unbind with (op := λ x, x).
    by apply (mutation_sound (MNodeUpdate _)).
  - apply sound_bind. apply sound_unbind with (op := λ x, x).
    by apply (mutation_sound (MNodeDelete _)).
  - apply sound_lift. intros f _. apply sound_lift. intros t _. apply sound_bind.
    apply sound_unbind with (op := λ x, x). by apply (mutation_sound (MEdgeCreate _)).
  - apply sound_bind. apply sound_unbind with (op := λ x, x).
    by apply (mutation_sound (MEdgeUpdate _)).
  - apply sound_bind. apply sound_unbind with (op := λ x, x).
    by apply (mutation_sound (MEdgeDelete _)).
Qed.

(** Replaying a list of operations, and the batch entry that wraps it. *)
Definition replay_ops (ops : list DurableOperation) σ : result SessionState :=
  try_fold (λ σ op, apply_session_log_entry op σ) σ ops.

Lemma replay_batch ops σ : apply_session_log_entry (DurBatch ops) σ = replay_ops ops σ.
Proof.
  unfold replay_ops. cbn [apply_session_log_entry]. revert σ.
  induction ops as [|op ops IH]; intros σ; [done|]. cbn [try_fold].
  destruct (apply_session_log_entry op σ); [apply IH|done].
Qed.

Lemma replay_wrapped ops σ σ' : replay_ops ops σ = Ok σ' → replay (wrapped ops) σ = Ok σ'.
Proof.
  destruct ops as [|op [|op' ops]]; intros Hr; [done| |].
  - unfold replay, wrapped. cbn [try_fold]. unfold replay_ops in Hr. cbn [try_fold] in Hr.
    by destruct (apply_session_log_entry op σ).
  - unfold replay, wrapped. cbn [try_fold]. by rewrite replay_batch, Hr.
Qed.

(** The state of the loop after the operations before it: [σ0] is where the
    batch began. *)
Record loop_inv (params : SessionBatchParams) σ0 st σ (done : nat) : Prop := {
  li_session : session_inv σ;
  li_replay τ : same_session σ0 τ →
    ∃ τ', replay_ops (bt_durable_ops st) τ = Ok τ' ∧ same_session σ τ';
  li_count : bp_atomic params = true →
    length (bt_durable_ops st) = done ∧ su_applied (bt_summary st) = true;
}.

(** What a batch guarantees. *)
Record batch_ok (params : SessionBatchParams) (total : nat) σ0 (o : SessionBatchOutcome) σ : Prop := {
  bk_session : session_inv σ;
  bk_replay τ : same_session σ0 τ →
    ∃ τ', replay (bo_durable_ops o) τ = Ok τ' ∧ same_session σ τ';
  bk_atomic : bp_atomic params = true →
    if bo_should_persist o
    then ∃ ops, length ops = total ∧ bo_durable_ops o = wrapped ops
    else σ = σ0 ∧ bo_durable_ops o = [];
}.

Lemma batch_loop_ok params index ops σ0 st σ :
  session_inv σ0 → loop_inv params σ0 st σ index → room_for (length ops) σ →
  let '(o, σ') := batch_loop params (if bp_atomic params then Some σ0 else None) index ops st σ in
  batch_ok params (index + length ops) σ0 o σ'.
Proof.
  intros Hinv0. revert index st σ. induction ops as [|op ops IH]; intros index st σ Hli Hroom.
  { cbn [batch_loop length]. rewrite Nat.add_0_r. destruct Hli as [Hs Hr Hc]. split; [done| |].
    - intros τ Hsame. destruct (Hr τ Hsame) as (τ' & Hτ' & ?). exists τ'. split; [|done].
      apply replay_wrapped in Hτ'. done.
    - intros Ha. destruct (Hc Ha) as [Hlen Happ]. cbn. rewrite Happ. cbn.
      by exists (bt_durable_ops st). }
  assert (∀ message, let '(o, σ') :=
    (let su := record_error index message (bt_summary st) in
     if bp_atomic params then abort_batch (if bp_atomic params then Some σ0 else None) su σ
     else batch_loop params (if bp_atomic params then Some σ0 else None) (S index) ops
            {| bt_refs := bt_refs st; bt_summary := su; bt_durable_ops := bt_durable_ops st |} σ)
    in batch_ok params (index + length (op :: ops)) σ0 o σ') as Hfailed.
  { intros message. cbn zeta. destruct (bp_atomic params) eqn:Ha.
    - cbn [abort_batch restore]. split; [done| |].
      + intros τ Hsame. by exists τ.
      + done.
    - specialize (IH (S index) {| bt_refs := bt_refs st;
        bt_summary := record_error index message (bt_summary st);
        bt_durable_ops := bt_durable_ops st |} σ). cbn [length]. rewrite <-Nat.add_succ_comm.
      apply IH; [|unfold room_for in *; cbn [length] in *; lia].
      destruct Hli as [Hs Hr Hc]. split; [done|done|]. by rewrite Ha. }
  cbn [batch_loop]. destruct (is_delete op && negb (bp_allow_deletes params)); [apply Hfailed|].
  pose proof (batch_op_sound (bt_refs st) op σ (li_session _ _ _ _ _ Hli)
    ltac:(unfold room, room_for in *; cbn [length] in *; lia)) as Hs.
  destruct (apply_batch_op (bt_refs st) op σ) as [[[a refs]|e] σ1].
  - destruct Hs as (Hinv1 & Hrep & Huse). cbn [length]. rewrite <-Nat.add_succ_comm.
    apply IH; [|unfold room_for, uses_one_id in *; cbn [length] in *; lia].
    destruct Hli as [Hs Hr Hc]. split; [done| |].
    + intros τ Hsame. destruct (Hr τ Hsame) as (τ1 & Hτ1 & Hsame1).
      destruct (Hrep τ1 Hsame1) as (τ2 & Hτ2 & Hsame2). exists τ2. split; [|done].
      unfold replay_ops in *. cbn [bt_durable_ops]. rewrite try_fold_app, Hτ1. cbn [try_fold].
      cbn [fst] in Hτ2. by rewrite Hτ2.
    + intros Ha. destruct (Hc Ha) as [Hlen Happ]. cbn. rewrite length_app. cbn.
      split; [lia|done].
  - unfold sound in Hs. subst σ1. apply Hfailed.
Qed.

Lemma apply_session_batch_ok params σ :
  session_inv σ → room_for (length (bp_ops params)) σ →
  let '(o, σ') := apply_session_batch params σ in
  batch_ok params (length (bp_ops params)) σ o σ'.
Proof.
  intros Hinv Hroom. apply (batch_loop_ok params 0); [done| |done].
  split; [done| |done]. intros τ Hsame. by exists τ.
Qed.

(** A batch answers one durable operation at most. *)
Lemma wrapped_one ops : (length (wrapped ops) ≤ 1)%nat.
Proof. destruct ops as [|op [|op' ops]]; cbn; lia. Qed.

Lemma batch_loop_one params saved index ops st σ :
  (length (bo_durable_ops (batch_loop params saved index ops st σ).1) ≤ 1)%nat.
Proof.
  revert index st σ. induction ops as [|op ops IH]; intros index st σ; cbn [batch_loop].
  { apply wrapped_one. }
  assert (∀ o : SessionBatchOutcome * SessionState, bo_durable_ops o.1 = [] →
    (length (bo_durable_ops o.1) ≤ 1)%nat) as Hnil by (intros o ->; cbn; lia).
  destruct (_ && _).
  - destruct (bp_atomic params); [by apply Hnil|apply IH].
  - destruct (apply_batch_op (bt_refs st) op σ) as [[[a refs]|e] σ1]; [apply IH|].
    destruct (bp_atomic params); [by apply Hnil|apply IH].
Qed.

Lemma batch_ops_one params σ :
  (length (bo_durable_ops (apply_session_batch params σ).1) ≤ 1)%nat.
Proof. apply batch_loop_one. Qed.

(** C11: after a batch the session is consistent, and the durable operations it
    answers replay to the session it left; an atomic batch that is not to be
    persisted left the session exactly as it was and answers no operation, and
    one that is to be persisted applied every one of its operations. *)
Theorem batch_all_or_nothing params σ :
  session_inv σ → room_for (length (bp_ops params)) σ →
  let '(o, σ') := apply_session_batch params σ in
  batch_ok params (length (bp_ops params)) σ o σ'.
Proof. apply apply_session_batch_ok. Qed.
End atomicity.

(** ** Concrete batches *)

Section batch_witnesses.
Existing Instances serde_default w_formats.

Definition w_batch (bad : bool) : SessionBatchParams :=
  {| bp_atomic := true; bp_allow_deletes := false; bp_response := BatchDetailedResponse;
     bp_ops := [ BNodeCreate "User" {["name" := Str "Cyd"]} (Some "cyd");
                 BNodeCreate "Post" {["title" := Str "third"]} (Some "post");
                 BEdgeCreate "Authored" (EndpointRef (if bad then "nobody" else "cyd"))
                   (EndpointRef "post") {["year" := value_from_i64 2027]} ] |}.

Lemma batch_all_or_nothing_witness :
  (∃ o σ', apply_session_batch (w_batch false) w_session = (o, σ') ∧
     batch_ok (w_batch false) 3 w_session o σ' ∧ bo_should_persist o = true) ∧
  (∃ o σ', apply_session_batch (w_batch true) w_session = (o, σ') ∧
     batch_ok (w_batch true) 3 w_session o σ' ∧ bo_should_persist o = false).
Proof.
  destruct w_session_inv as [Hinv Hroom].
  assert (room_for 3 w_session) as Hroom3 by (unfold room_for in *; lia).
  assert (bo_should_persist (apply_session_batch (w_batch false) w_session).1 = true ∧
          bo_should_persist (apply_session_batch (w_batch true) w_session).1 = false)
    as [Hgood Hbad] by (split; vm_compute; reflexivity).
  pose proof (batch_all_or_nothing (w_batch false) w_session Hinv Hroom3) as H1.
  pose proof (batch_all_or_nothing (w_batch true) w_session Hinv Hroom3) as H2.
  destruct (apply_session_batch (w_batch false) w_session) as [o1 σ1].
  destruct (apply_session_batch (w_batch true) w_session) as [o2 σ2].
  split; [exists o1, σ1|exists o2, σ2]; split_and!; done.
Defined.
End batch_witnesses.
