(* ===== verification/Runtime.v ===== *)
(** * The runtime dispatcher ([SessionState::execute_runtime] of
    [src/src/runtime/session.rs])

    One structured request in, one response and its durable operations out. *)

From S2P Require Export Explain Batch.

Local Open Scope string_scope.

Inductive DurabilityFormat := DurJson | DurBinary.

Record RuntimeModelCount := { mc_model : string; mc_count : nat }.

Record RuntimeSummaryResponse := {
  rs_node_count : nat;
  rs_edge_count : nat;
  rs_node_model_count : nat;
  rs_edge_model_count : nat;
  rs_backend : string;
  rs_node_counts : list RuntimeModelCount;
  rs_edge_counts : list RuntimeModelCount;
}.

(** The requests that read or write files are refused by the dispatcher. *)
Inductive AdminRequest :=
  | AdminSave (format : DurabilityFormat) (path : string)
  | AdminLoad (format : DurabilityFormat) (path : string)
  | AdminExport (path : option string)
  | AdminImport (path : string)
  | AdminSchemaList
  | AdminIndexList
  | AdminSummary.

Section runtime.
Context `{SerdeNumber} `{Formats}.

(** ** Requests and responses *)

Inductive SchemaRequest :=
  | SchemaDefineNode (request : DefineNodeRequest)
  | SchemaDefineEdge (request : DefineEdgeRequest)
  | SchemaList.

Inductive NodeRequest :=
  | NodeCreate (request : NodeCreateRequest)
  | NodeUpdate (request : NodeUpdateRequest)
  | NodeDelete (request : NodeDeleteRequest)
  | NodeFind (request : NodeFindRequest).

Inductive EdgeRequest :=
  | EdgeCreate (request : EdgeCreateRequest)
  | EdgeUpdate (request : EdgeUpdateRequest)
  | EdgeDelete (request : EdgeDeleteRequest)
  | EdgeFind (request : EdgeFindRequest).

Inductive QueryRequest :=
  | QueryNodeFind (request : NodeFindRequest)
  | QueryEdgeFind (request : EdgeFindRequest)
  | QueryTraversal (root : NodeFindRequest).

(** A [BatchRequest] has the fields of [SessionBatchParams]; the clock of a
  profile is the readings it will make. *)
Inductive RuntimeRequest :=
  | ReqSchema (request : SchemaRequest)
  | ReqNode (request : NodeRequest)
  | ReqEdge (request : EdgeRequest)
  | ReqQuery (request : QueryRequest)
  | ReqExplain (request : QueryRequest)
  | ReqProfile (clock : nat → Z) (request : QueryRequest)
  | ReqBatch (request : SessionBatchParams)
  | ReqAdmin (request : AdminRequest).

Record RuntimeSchemaListResponse := {
  sl_node_models : list RuntimeNodeModel;
  sl_edge_models : list RuntimeRelModel;
  sl_backend_id_type : BackendIdType;
}.

Record RuntimeNodeFindResultResponse := {
  nfr_model : string;
  nfr_nodes : list StoredNode;
  nfr_edges : list StoredRel;
}.
Record RuntimeEdgeFindResponse := { efr_model : string; efr_edges : list StoredRel }.

Inductive SchemaResponse :=
  | SchemaDefinedNode (model : RuntimeNodeModel)
  | SchemaDefinedEdge (model : RuntimeRelModel)
  | SchemaListed (models : RuntimeSchemaListResponse).

Inductive NodeResponse :=
  | NodeCreated (node : StoredNode)
  | NodeUpdated (node : StoredNode)
  | NodeDeleted (deleted : RuntimeDelete)
  | NodesFound (found : RuntimeNodeFindResultResponse).

Inductive EdgeResponse :=
  | EdgeCreated (rel : StoredRel)
  | EdgeUpdated (rel : StoredRel)
  | EdgeDeleted (deleted : RuntimeDelete)
  | EdgesFound (found : RuntimeEdgeFindResponse).

Record RuntimeBatchResponse := { rb_value : Value; rb_should_persist : bool }.

Inductive RuntimeResponse :=
  | RespSchema (response : SchemaResponse)
  | RespNode (response : NodeResponse)
  | RespEdge (response : EdgeResponse)
  | RespExplain (plan : Value)
  | RespProfile (profile : Value)
  | RespBatch (response : RuntimeBatchResponse)
  | RespSummary (response : RuntimeSummaryResponse).

Record RuntimeDispatchOutcome := {
  do_response : RuntimeResponse;
  do_durable_ops : list DurableOperation;
}.

(** ** The handlers *)

(** A mutation answers its durable operation, a read none. *)
Definition mutated {A} (m : session (RuntimeOperationOutcome A)) (response : A → RuntimeResponse)
    : session RuntimeDispatchOutcome :=
  o ← m;
  mret {| do_response := response (ro_value o); do_durable_ops := [ro_durable_op o] |}.
Definition answered {A} (m : session A) (response : A → RuntimeResponse)
    : session RuntimeDispatchOutcome :=
  a ← m; mret {| do_response := response a; do_durable_ops := [] |}.

Definition schema_list : session RuntimeSchemaListResponse :=
  c ← catalog;
  mret {| sl_node_models := list_node_models c; sl_edge_models := list_rel_models c;
          sl_backend_id_type := node_id_type |}.

Definition execute_schema_request (request : SchemaRequest) : session RuntimeDispatchOutcome :=
  match request with
  | SchemaDefineNode r => mutated (apply_define_node r) (λ m, RespSchema (SchemaDefinedNode m))
  | SchemaDefineEdge r => mutated (apply_define_edge r) (λ m, RespSchema (SchemaDefinedEdge m))
  | SchemaList => answered schema_list (λ l, RespSchema (SchemaListed l))
  end.

Definition found_response (model : string) (found : SessionFindResult)
    : RuntimeNodeFindResultResponse :=
  match found with
  | FoundNodes ns => {| nfr_model := model; nfr_nodes := ns; nfr_edges := [] |}
  | FoundEdges rs => {| nfr_model := model; nfr_nodes := []; nfr_edges := rs |}
  end.

Definition node_find_result_response (request : NodeFindRequest)
    : session RuntimeNodeFindResultResponse :=
  c ← catalog;
  found ← on_store (node_find c node_id_type request);
  mret (found_response (nf_model request) found).

(** [SessionState::edge_find_query_from_request] parses ids as the
  backend's. *)
Definition edge_find_response (request : EdgeFindRequest) : session RuntimeEdgeFindResponse :=
  c ← catalog;
  edges ← on_store (λ s, (edge_find c rel_id_type request s, s));
  mret {| efr_model := ef_model request; efr_edges := edges |}.

Definition nodes_found (r : RuntimeNodeFindResultResponse) := RespNode (NodesFound r).
Definition edges_found (r : RuntimeEdgeFindResponse) := RespEdge (EdgesFound r).

Definition execute_node_request (request : NodeRequest) : session RuntimeDispatchOutcome :=
  match request with
  | NodeCreate r => mutated (apply_node_create r) (λ n, RespNode (NodeCreated n))
  | NodeUpdate r => mutated (apply_node_update r) (λ n, RespNode (NodeUpdated n))
  | NodeDelete r => mutated (apply_node_delete r) (λ d, RespNode (NodeDeleted d))
  | NodeFind r => answered (node_find_result_response r) nodes_found
  end.

Definition execute_edge_request (request : EdgeRequest) : session RuntimeDispatchOutcome :=
  match request with
  | EdgeCreate r => mutated (apply_edge_create r) (λ e, RespEdge (EdgeCreated e))
  | EdgeUpdate r => mutated (apply_edge_update r) (λ e, RespEdge (EdgeUpdated e))
  | EdgeDelete r => mutated (apply_edge_delete r) (λ d, RespEdge (EdgeDeleted d))
  | EdgeFind r => answered (edge_find_response r) edges_found
  end.

Definition execute_query_request (request : QueryRequest) : session RuntimeDispatchOutcome :=
  match request with
  | QueryNodeFind r => answered (node_find_result_response r) nodes_found
  | QueryEdgeFind r => answered (edge_find_response r) edges_found
  | QueryTraversal _ => lift (Err (NotSupported
      "runtime dispatcher does not support traversal query requests yet"))
  end.

(** [SessionState::explain], [SessionState::profile] *)
Definition session_explain (request : QueryRequest) : session Value :=
  c ← catalog;
  lift match request with
       | QueryNodeFind r | QueryTraversal r => explain_nodes c node_id_type r
       | QueryEdgeFind r => explain_edges c rel_id_type r
       end.
Definition session_profile (clock : nat → Z) (request : QueryRequest) : session Value :=
  c ← catalog;
  on_store (λ s, (match request with
                  | QueryNodeFind r | QueryTraversal r => profile_nodes clock c node_id_type r
                  | QueryEdgeFind r => profile_edges clock c rel_id_type r
                  end s 0).1).

Definition execute_batch_request (request : SessionBatchParams)
    : session RuntimeDispatchOutcome := λ σ,
  let '(o, σ) := apply_session_batch request σ in
  (Ok {| do_response := RespBatch {| rb_value := bo_value o;
                                     rb_should_persist := bo_should_persist o |};
         do_durable_ops := bo_durable_ops o |}, σ).

Definition runtime_summary : session RuntimeSummaryResponse := λ σ,
  let '(node_count, edge_count, nodes_by_label, edges_by_type) :=
    summary_counts_by_storage_type (ss_store σ) in
  let node_counts :=
    map (λ m, {| mc_model := nm_name m; mc_count := default 0 (nodes_by_label !! nm_label m) |})
        (list_node_models (ss_catalog σ)) in
  let edge_counts :=
    map (λ m, {| mc_model := rm_name m; mc_count := default 0 (edges_by_type !! rm_rel_type m) |})
        (list_rel_models (ss_catalog σ)) in
  (Ok {| rs_node_count := node_count; rs_edge_count := edge_count;
         rs_node_model_count := length node_counts; rs_edge_model_count := length edge_counts;
         rs_backend := "in-memory"; rs_node_counts := node_counts;
         rs_edge_counts := edge_counts |}, σ).

Definition execute_runtime (request : RuntimeRequest) : session RuntimeDispatchOutcome :=
  match request with
  | ReqSchema r => execute_schema_request r
  | ReqNode r => execute_node_request r
  | ReqEdge r => execute_edge_request r
  | ReqQuery r => execute_query_request r
  | ReqExplain r => answered (session_explain r) RespExplain
  | ReqProfile clock r => answered (session_profile clock r) RespProfile
  | ReqBatch r => execute_batch_request r
  | ReqAdmin AdminSummary => answered runtime_summary RespSummary
  | ReqAdmin _ => lift (Err (NotSupported
      "runtime dispatcher only supports session summary admin requests"))
  end.
End runtime.

(** ** Reads keep the session *)

Section reads.
Context `{SerdeNumber} `{Formats}.
Implicit Types (σ τ : SessionState) (s t : GraphStore).

(** At most the lazy index of a store differs. *)
Definition kept s t : Prop := store_wf s → store_wf t ∧ same_graph s t.

#[local] Instance kept_preorder : PreOrder kept.
Proof.
  split; [done|]. intros s t u Hst Htu Hwf. destruct (Hst Hwf) as [Hwf' ?].
  destruct (Htu Hwf') as [? ?]. split; [done|by etrans].
Qed.

Lemma refresh_kept s : kept s (refresh_property_index s).
Proof. intros Hwf. by destruct (refresh_wf s Hwf) as (? & ? & _). Qed.

Lemma label_property_kept label key value s : kept s (node_ids_by_label_property label key value s).2.
Proof. unfold node_ids_by_label_property. destruct (ValueKey_from_value value); apply refresh_kept. Qed.

Lemma property_kept key value s : kept s (node_ids_by_property key value s).2.
Proof. unfold node_ids_by_property. destruct (ValueKey_from_value value); apply refresh_kept. Qed.

Lemma candidates_kept labels filters s : kept s (base_node_candidate_ids labels filters s).2.
Proof.
  unfold base_node_candidate_ids. set (eqs := filter _ filters).
  destruct labels as [|l ls].
  - destruct (foldl _ (None, s) eqs) as [best t] eqn:Hst. cbn.
    change t with (best, t).2. rewrite <-Hst. apply foldl_inv; [done|].
    intros [b u] f _ Hu. pose proof (property_kept (pf_key f) (pf_value f) u) as Hk.
    destruct (node_ids_by_property _ _ u). cbn in *. by etrans.
  - set (st := foldl _ (None, s) (l :: ls)).
    assert (kept s st.2) as Hok.
    { apply foldl_inv; [done|]. intros st1 label _ Hst1. apply foldl_inv; [done|].
      intros [b u] f _ Hu. pose proof (label_property_kept label (pf_key f) (pf_value f) u) as Hk.
      destruct (node_ids_by_label_property _ _ _ u). cbn in *. by etrans. }
    by destruct st as [[ids|] t].
Qed.

Lemma visible_nodes_kept labels filters s tx : kept s (visible_nodes_matching labels filters s tx).2.
Proof.
  unfold visible_nodes_matching, base_nodes_matching. destruct (tx_working_copy tx); [done|].
  pose proof (candidates_kept labels filters s) as Hk.
  by destruct (base_node_candidate_ids labels filters s).
Qed.

Lemma seed_roots_kept nm s tx : kept s (seed_roots nm s tx).2.
Proof.
  unfold seed_roots. destruct (nm_id_filter nm); [done|].
  pose proof (visible_nodes_kept (nm_labels nm) (nm_property_filters nm) s tx) as Hk.
  by destruct (visible_nodes_matching _ _ s tx).
Qed.

Lemma execute_kept q s tx : kept s (execute_graph_query q s tx).2.
Proof.
  unfold execute_graph_query. destruct (ExecCtx_build q) as [ctx|e]; [|done].
  pose proof (seed_roots_kept (ctx_root_nm ctx) s tx) as Hk.
  destruct (seed_roots _ s tx) as [[|b bs] t]; [done|]. by destruct (traverse_hops _ t tx (b :: bs)).
Qed.

Lemma snapshot_nodes_kept label id property s : kept s (snapshot_nodes_filtered label id property s).2.
Proof.
  unfold snapshot_nodes_filtered. destruct id; [done|]. destruct property as [[key value]|]; [|done].
  pose proof (label_property_kept label key value s) as Hk.
  by destruct (node_ids_by_label_property label key value s).
Qed.

(** Committing a transaction that changed nothing. *)
Lemma commit_new s :
  store_ready s → store_wf (tx_commit s tx_new).1 ∧ same_graph s (tx_commit s tx_new).1.
Proof.
  intros Hs. destruct (apply_delta_view s tx_new (store_ready_inv s Hs)) as (? & _ & Hg).
  split; [done|]. rewrite view_new in Hg. by apply graph_of_eq.
Qed.

Lemma kept_ready s t : kept s t → store_ready s → store_ready t ∧ same_graph s t.
Proof.
  intros Hk Hs. destruct (Hk (sr_wf _ Hs)) as [Hwf Hsame]. split; [|done].
  destruct Hsame as (Hn & Hr & Hnn & Hnr), Hs.
  split; unfold no_dangling in *; by rewrite <-?Hn, <-?Hr, <-?Hnn, <-?Hnr.
Qed.

Lemma find_nodes_kept c name query s : kept s (find_nodes_with_query c name query s).2.
Proof.
  unfold find_nodes_with_query. destruct (mbind _ _) as [[model filters]|e]; [|done].
  pose proof (snapshot_nodes_kept (nm_label model) (nq_id_filter query)
    (indexed_property filters) s) as Hk.
  by destruct (snapshot_nodes_filtered _ _ _ s).
Qed.

Lemma traversal_kept c name query s :
  store_ready s → let t := (execute_node_traversal_query c name query s).2 in
  store_ready t ∧ same_graph s t.
Proof.
  intros Hs. unfold execute_node_traversal_query.
  destruct (mbind _ _) as [[[model filters] plan]|e]; [|done].
  pose proof (execute_kept (tp_graph_query plan) s tx_new) as Hk.
  destruct (execute_graph_query _ s tx_new) as [res t].
  destruct (kept_ready _ _ Hk Hs) as [Ht Hsame]. destruct res as [res|e]; [|done].
  destruct (commit_new t Ht) as [Hwf Hsame']. cbn -[tx_commit].
  destruct (kept_ready t (tx_commit t tx_new).1 (λ _, conj Hwf Hsame') Ht).
  split; [done|by etrans].
Qed.

Lemma node_query_kept c name query s :
  store_ready s → let t := (execute_node_query c name query s).2 in store_ready t ∧ same_graph s t.
Proof.
  intros Hs. unfold execute_node_query. destruct (nq_traversals query); [|by apply traversal_kept].
  pose proof (kept_ready _ _ (find_nodes_kept c name query s) Hs) as Hk.
  by destruct (find_nodes_with_query _ _ _ s).
Qed.

Lemma node_find_kept c id_type request s :
  store_ready s → let t := (node_find c id_type request s).2 in store_ready t ∧ same_graph s t.
Proof.
  intros Hs. unfold node_find, then_find.
  destruct (node_find_query_from_request c id_type request) as [query|e]; [|done].
  assert (let t := (execute_node_query c (nf_model request) query s).2 in
          store_ready t ∧ same_graph s t) as Hq.
  { by apply node_query_kept. }
  by destruct (execute_node_query _ _ query s).
Qed.

(** A profile reads. *)
Definition prof_keeps {A} (m : prof A) : Prop := ∀ s k,
  store_ready s → let t := (m s k).1.2 in store_ready t ∧ same_graph s t.

Lemma keeps_ret {A} (a : A) : prof_keeps (mret (M:=prof) a).
Proof. done. Qed.
Lemma keeps_bind {A B} (m : prof A) (f : A → prof B) :
  prof_keeps m → (∀ a, prof_keeps (f a)) → prof_keeps (m ≫= f).
Proof.
  intros Hm Hf s k Hs. unfold mbind, prof_bind. destruct (Hm s k Hs) as [Ht Hst].
  destruct (m s k) as [[[a|e] t] k']; cbn [fst snd] in *; [|done].
  destruct (Hf a t k' Ht) as [? ?]. split; [done|by etrans].
Qed.
Lemma keeps_lift {A} (r : result A) : prof_keeps (prof_lift r).
Proof. done. Qed.
Lemma keeps_now clock : prof_keeps (instant_now clock).
Proof. done. Qed.
Lemma keeps_elapsed clock started : prof_keeps (elapsed_since clock started).
Proof. done. Qed.
Lemma keeps_store {A} (m : GraphStore → A * GraphStore) :
  (∀ s, store_ready s → store_ready (m s).2 ∧ same_graph s (m s).2) → prof_keeps (prof_store m).
Proof.
  intros Hm s k Hs. unfold prof_store. pose proof (Hm s Hs) as Ht. by destruct (m s).
Qed.
Create HintDb prof_keeps.
#[local] Hint Resolve keeps_ret keeps_lift keeps_now keeps_elapsed : prof_keeps.
#[local] Ltac keeps :=
  repeat first [ progress auto with prof_keeps | apply keeps_bind; [|intros ?] | case_match ].

Lemma keeps_snapshot label id property : prof_keeps (prof_store (snapshot_nodes_filtered label id property)).
Proof. apply keeps_store. intros s Hs. apply kept_ready; [apply snapshot_nodes_kept|done]. Qed.
Lemma keeps_execute c name query : prof_keeps (prof_store (execute_node_query c name query)).
Proof. apply keeps_store. intros s Hs. by apply node_query_kept. Qed.
Lemma keeps_read {A} (f : GraphStore → A) : prof_keeps (prof_store (λ s, (f s, s))).
Proof. by apply keeps_store. Qed.
#[local] Hint Resolve keeps_snapshot keeps_execute keeps_read : prof_keeps.

Lemma keeps_filter {A} clock plan is_filter (keep : A → bool) items metrics :
  prof_keeps (filter_phase clock plan is_filter keep items metrics).
Proof. unfold filter_phase. keeps. Qed.
Lemma keeps_return {A} clock plan sort offset limit (st : list A * list ProfileStepMetrics) :
  prof_keeps (return_phase clock plan sort offset limit st).
Proof. unfold return_phase. keeps. Qed.
Lemma keeps_push clock plan wanted steps : ∀ index st,
  prof_keeps (push_steps clock plan wanted index steps st).
Proof. induction steps as [|step steps IH]; intros index st; cbn [push_steps]; keeps. Qed.
Lemma keeps_value clock command target plan rows elapsed metrics timings :
  prof_keeps (profile_value_with_phase_timing clock command target plan rows elapsed metrics timings).
Proof. unfold profile_value_with_phase_timing. keeps. Qed.
#[local] Hint Resolve keeps_filter keeps_return keeps_push keeps_value : prof_keeps.

Lemma profile_nodes_keeps clock c id_type request : prof_keeps (profile_nodes clock c id_type request).
Proof.
  unfold profile_nodes, profile_node_query, profile_flat_node_query, profile_traversal_query. keeps.
Qed.
Lemma profile_edges_keeps clock c id_type request : prof_keeps (profile_edges clock c id_type request).
Proof. unfold profile_edges, profile_edge_query. keeps. Qed.

(** ** Every request keeps the session consistent and can be replayed *)

Definition ops_of (res : result RuntimeDispatchOutcome) : list DurableOperation :=
  match res with Ok o => do_durable_ops o | Err _ => [] end.

(** What a request guarantees: the durable operations it answers, none if it
  fails, take a session with the old graph and catalog to the new ones, and a
  crash never splits them. *)
Record dispatched σ (res : result RuntimeDispatchOutcome) σ' : Prop := {
  di_session : session_inv σ';
  di_replay τ : same_session σ τ →
    ∃ τ', replay (ops_of res) τ = Ok τ' ∧ same_session σ' τ';
  di_one : (length (ops_of res) ≤ 1)%nat;
}.

Lemma dispatched_read σ s (res : result RuntimeDispatchOutcome) :
  session_inv σ → store_ready s ∧ same_graph (ss_store σ) s →
  (∀ o, res = Ok o → do_durable_ops o = []) →
  dispatched σ res (set_store s σ).
Proof.
  intros Hinv [Hs Hsame] Hops. assert (ops_of res = []) as Hnone.
  { destruct res as [o|e]; [|done]. by apply Hops. }
  pose proof (proj2 (graph_of_eq _ _) Hsame) as Hg.
  split; [|intros τ Hτ; rewrite Hnone|by rewrite Hnone; cbn; lia].
  - destruct Hinv as [? ? Hc]. split; [done|done|]. cbn. by rewrite <-Hg.
  - exists τ. split; [done|]. destruct Hτ as [Hgτ ? ?]. split; [|done..]. cbn. by rewrite Hgτ.
Qed.

Lemma dispatched_mutation {A} (m : session (RuntimeOperationOutcome A)) f σ :
  session_inv σ → sound (m σ) σ ro_durable_op →
  let '(res, σ') := mutated m f σ in dispatched σ res σ'.
Proof.
  intros Hinv Hs. unfold mutated, mbind, session_bind. destruct (m σ) as [[o|e] σ']; cbn.
  - destruct Hs as (Hinv' & Hrep & _). split; [done| |done]. intros τ Hτ. unfold replay. cbn.
    destruct (Hrep τ Hτ) as (τ' & -> & ?). by exists τ'.
  - unfold sound in Hs. subst. split; [done| |cbn; lia]. intros τ Hτ. by exists τ.
Qed.

(** The operations a request may apply, each using one id at most. *)
Definition request_size (r : RuntimeRequest) : nat :=
  match r with ReqBatch params => length (bp_ops params) | _ => 1 end.

Lemma find_dispatched (r : NodeFindRequest) σ :
  session_inv σ →
  let '(res, σ') := answered (node_find_result_response r) nodes_found σ in dispatched σ res σ'.
Proof.
  intros Hinv. unfold answered, node_find_result_response, mbind, session_bind, catalog, on_store.
  cbn -[node_find]. pose proof (node_find_kept (ss_catalog σ) node_id_type r (ss_store σ)
    (si_ready _ Hinv)) as Hk.
  destruct (node_find _ _ r (ss_store σ)) as [[found|e] s]; cbn; apply dispatched_read; try done;
    by intros o [= <-].
Qed.

Lemma edge_find_dispatched (r : EdgeFindRequest) σ :
  session_inv σ →
  let '(res, σ') := answered (edge_find_response r) edges_found σ in dispatched σ res σ'.
Proof.
  intros Hinv. unfold answered, edge_find_response, mbind, session_bind, catalog, on_store.
  cbn -[edge_find]. destruct (edge_find _ _ r _) as [found|e]; cbn; apply dispatched_read; try done;
    try (by intros o [= <-]); (split; [apply Hinv|done]).
Qed.

Lemma keep_dispatched σ (res : result RuntimeDispatchOutcome) :
  session_inv σ → (∀ o, res = Ok o → do_durable_ops o = []) → dispatched σ res σ.
Proof.
  intros Hinv Hops. rewrite <-(set_store_same σ) at 2. apply dispatched_read; [done| |done].
  split; [apply Hinv|done].
Qed.

Lemma explain_dispatched r σ :
  session_inv σ →
  let '(res, σ') := answered (session_explain r) RespExplain σ in dispatched σ res σ'.
Proof.
  intros Hinv. unfold answered, session_explain, mbind, session_bind, catalog, lift.
  destruct (match r with QueryNodeFind _ => _ | _ => _ end) as [v|e]; cbn;
    apply keep_dispatched; try done; by intros o [= <-].
Qed.

Lemma profile_dispatched clock r σ :
  session_inv σ →
  let '(res, σ') := answered (session_profile clock r) RespProfile σ in dispatched σ res σ'.
Proof.
  intros Hinv. unfold answered, session_profile, mbind, session_bind, catalog, on_store.
  set (m := match r with QueryNodeFind r | QueryTraversal r => _ r | QueryEdgeFind r => _ r end).
  assert (prof_keeps m) as Hm.
  { destruct r; [apply profile_nodes_keeps|apply profile_edges_keeps|apply profile_nodes_keeps]. }
  pose proof (Hm (ss_store σ) 0 (si_ready _ Hinv)) as Hk.
  destruct (m (ss_store σ) 0) as [[[v|e] t] k]; cbn in *; apply dispatched_read; try done;
    by intros o [= <-].
Qed.

Lemma mutate_dispatched {A} (m : session (RuntimeOperationOutcome A)) f σ mut :
  session_inv σ → room σ →
  apply_mutation mut = (o ← m; mret (ro_durable_op o)) →
  let '(res, σ') := mutated m f σ in dispatched σ res σ'.
Proof.
  intros Hinv Hroom Hmut. apply dispatched_mutation; [done|].
  pose proof (mutation_sound mut σ Hinv Hroom) as Hs. rewrite Hmut in Hs.
  by apply sound_unbind in Hs.
Qed.

Lemma batch_dispatched params σ :
  session_inv σ → room_for (length (bp_ops params)) σ →
  let '(res, σ') := execute_batch_request params σ in dispatched σ res σ'.
Proof.
  intros Hinv Hroom. unfold execute_batch_request.
  pose proof (apply_session_batch_ok params σ Hinv Hroom) as Hb.
  pose proof (batch_ops_one params σ) as Hone.
  destruct (apply_session_batch params σ) as [o σ']. destruct Hb as [? Hrep _].
  by split.
Qed.

Lemma execute_runtime_ok (r : RuntimeRequest) σ :
  session_inv σ → room_for (request_size r) σ →
  let '(res, σ') := execute_runtime r σ in dispatched σ res σ'.
Proof.
  intros Hinv Hroom.
  destruct r as [r|r|r|r|r|clock r|params|r]; cbn [execute_runtime].
  1-3: assert (room σ) as Hr by (unfold room_for, room in *; cbn [request_size] in *; lia).
  - destruct r as [r|r|]; cbn [execute_schema_request].
    + by apply (mutate_dispatched _ _ _ (MDefineNode r)).
    + by apply (mutate_dispatched _ _ _ (MDefineEdge r)).
    + apply keep_dispatched; [done|]. by intros o [= <-].
  - destruct r as [r|r|r|r]; cbn [execute_node_request].
    + by apply (mutate_dispatched _ _ _ (MNodeCreate r)).
    + by apply (mutate_dispatched _ _ _ (MNodeUpdate r)).
    + by apply (mutate_dispatched _ _ _ (MNodeDelete r)).
    + by apply find_dispatched.
  - destruct r as [r|r|r|r]; cbn [execute_edge_request].
    + by apply (mutate_dispatched _ _ _ (MEdgeCreate r)).
    + by apply (mutate_dispatched _ _ _ (MEdgeUpdate r)).
    + by apply (mutate_dispatched _ _ _ (MEdgeDelete r)).
    + by apply edge_find_dispatched.
  - destruct r; cbn [execute_query_request];
      [by apply find_dispatched|by apply edge_find_dispatched|by apply keep_dispatched].
  - by apply explain_dispatched.
  - by apply profile_dispatched.
  - by apply batch_dispatched.
  - destruct r; try by apply keep_dispatched. apply keep_dispatched; [done|]. by intros o [= <-].
Qed.
End reads.

(** ** A concrete explanation *)

Section explain_witness.
Existing Instances serde_default w_formats.

Lemma explain_tells_the_find_witness :
  ∃ plan rows t profile k, explain_node_find_query (ss_catalog w_session) "Post" w_find = Ok plan ∧
    find_nodes_with_query (ss_catalog w_session) "Post" w_find (ss_store w_session) = (Ok rows, t) ∧
    profile_node_query (λ _, 0%Z) (ss_catalog w_session) "Post" w_find plan (ss_store w_session) 0
    = (Ok profile, t, k).
Proof.
  pose proof (explain_tells_the_find (λ _, 0%Z) (ss_catalog w_session) "Post" w_find
    (ss_store w_session) 0 eq_refl) as Htell.
  assert (is_ok (explain_node_find_query (ss_catalog w_session) "Post" w_find) = true) as Hok
    by by vm_compute.
  destruct (explain_node_find_query (ss_catalog w_session) "Post" w_find) as [plan|e];
    [|discriminate Hok].
  destruct Htell as (model & filters & anchor & filtering & rows & t & profile & m & k & _ & _ & _
    & _ & Hfind & Hprof & _ & _ & _).
  exists plan, rows, t, profile, k. split; [reflexivity|]. split; [exact Hfind|exact Hprof].
Defined.
End explain_witness.
