(* ===== verification/Api.v ===== *)
(** * Requests of the service ([src/grm-service-api/src/lib.rs])

    The request types a client of the service builds and the handlers receive,
    with the two conversions between them and the requests of the runtime: the
    client converts a runtime request to send it, the handler converts it back.
    The message types in between are generated by [prost] and have the same
    fields.  A type whose name is also a type of [runtime/ops.rs] has [Svc] in
    front. *)

From S2P Require Export Runtime.

Local Open Scope string_scope.

(** ** Fields of a model *)

Inductive SvcFieldValueType :=
  | SvcUnspecified
  | SvcString | SvcInt | SvcFloat | SvcBool | SvcBytes | SvcDecimal | SvcDate | SvcDateTime
  | SvcDuration | SvcUuid.

Definition unspecified_error : GrmError := Constraint "field value type must be specified".

Definition value_type_to_runtime (value_type : SvcFieldValueType) : result FieldValueType :=
  match value_type with
  | SvcUnspecified => Err unspecified_error
  | SvcString => Ok FString | SvcInt => Ok FInt | SvcFloat => Ok FFloat | SvcBool => Ok FBool
  | SvcBytes => Ok FBytes | SvcDecimal => Ok FDecimal | SvcDate => Ok FDate
  | SvcDateTime => Ok FDateTime | SvcDuration => Ok FDuration | SvcUuid => Ok FUuid
  end.

Definition value_type_from_runtime (value_type : FieldValueType) : SvcFieldValueType :=
  match value_type with
  | FString => SvcString | FInt => SvcInt | FFloat => SvcFloat | FBool => SvcBool
  | FBytes => SvcBytes | FDecimal => SvcDecimal | FDate => SvcDate | FDateTime => SvcDateTime
  | FDuration => SvcDuration | FUuid => SvcUuid
  end.

Definition field_value_type_keyword (value_type : SvcFieldValueType) : result string :=
  match value_type with
  | SvcUnspecified => Err unspecified_error
  | SvcString => Ok "string" | SvcInt => Ok "int" | SvcFloat => Ok "float" | SvcBool => Ok "bool"
  | SvcBytes => Ok "bytes" | SvcDecimal => Ok "decimal" | SvcDate => Ok "date"
  | SvcDateTime => Ok "datetime" | SvcDuration => Ok "duration" | SvcUuid => Ok "uuid"
  end.

Record SvcFieldSpec := {
  sf_name : string;
  sf_value_type : SvcFieldValueType;
  sf_required : bool;
}.

Definition field_to_runtime (field : SvcFieldSpec) : result FieldSpec :=
  value_type ← value_type_to_runtime (sf_value_type field);
  Ok {| fs_name := sf_name field; fs_value_type := value_type; fs_required := sf_required field |}.
Definition field_from_runtime (field : FieldSpec) : SvcFieldSpec :=
  {| sf_name := fs_name field; sf_value_type := value_type_from_runtime (fs_value_type field);
     sf_required := fs_required field |}.
Definition convert_fields (fields : list SvcFieldSpec) : result (list FieldSpec) :=
  mapM field_to_runtime fields.

Record SvcDefineNodeRequest := {
  sdn_name : string;
  sdn_id_field : string;
  sdn_fields : list SvcFieldSpec;
}.
Definition define_node_to_runtime (request : SvcDefineNodeRequest) : result DefineNodeRequest :=
  fields ← convert_fields (sdn_fields request);
  Ok {| dn_name := sdn_name request; dn_id_field := sdn_id_field request; dn_fields := fields |}.
Definition define_node_from_runtime (request : DefineNodeRequest) : SvcDefineNodeRequest :=
  {| sdn_name := dn_name request; sdn_id_field := dn_id_field request;
     sdn_fields := map field_from_runtime (dn_fields request) |}.

Record SvcDefineEdgeRequest := {
  sde_name : string;
  sde_from_model : string;
  sde_to_model : string;
  sde_id_field : string;
  sde_fields : list SvcFieldSpec;
}.
Definition define_edge_to_runtime (request : SvcDefineEdgeRequest) : result DefineEdgeRequest :=
  fields ← convert_fields (sde_fields request);
  Ok {| de_name := sde_name request; de_from_model := sde_from_model request;
        de_to_model := sde_to_model request; de_id_field := sde_id_field request;
        de_fields := fields |}.
Definition define_edge_from_runtime (request : DefineEdgeRequest) : SvcDefineEdgeRequest :=
  {| sde_name := de_name request; sde_from_model := de_from_model request;
     sde_to_model := de_to_model request; sde_id_field := de_id_field request;
     sde_fields := map field_from_runtime (de_fields request) |}.

(** The fields of a batch operation name their types. *)
Definition service_fields_to_batch_fields (fields : list SvcFieldSpec)
    : result (list SessionBatchFieldParam) :=
  mapM (λ field,
    keyword ← field_value_type_keyword (sf_value_type field);
    Ok {| bf_name := sf_name field; bf_value_type := keyword; bf_required := sf_required field |})
    fields.

Definition value_type_of_keyword (keyword : string) : result SvcFieldValueType :=
  if String.eqb keyword "string" then Ok SvcString
  else if String.eqb keyword "int" then Ok SvcInt
  else if String.eqb keyword "float" then Ok SvcFloat
  else if String.eqb keyword "bool" then Ok SvcBool
  else if String.eqb keyword "bytes" then Ok SvcBytes
  else if String.eqb keyword "decimal" then Ok SvcDecimal
  else if String.eqb keyword "date" then Ok SvcDate
  else if String.eqb keyword "datetime" then Ok SvcDateTime
  else if String.eqb keyword "duration" then Ok SvcDuration
  else if String.eqb keyword "uuid" then Ok SvcUuid
  else Err (Constraint ("unsupported field type '" +:+ keyword +:+ "'; expected string, int, float, bool, bytes, decimal, date, datetime, duration, or uuid")).

Definition batch_fields_to_service_fields (fields : list SessionBatchFieldParam)
    : result (list SvcFieldSpec) :=
  mapM (λ field,
    value_type ← value_type_of_keyword (bf_value_type field);
    Ok {| sf_name := bf_name field; sf_value_type := value_type; sf_required := bf_required field |})
    fields.

(** ** Predicates, orders and traversals *)

Inductive SvcPredicateOp := SvcEq | SvcNe | SvcGt | SvcGe | SvcLt | SvcLe | SvcContains.
Definition predicate_op_to_runtime (op : SvcPredicateOp) : PredicateOp :=
  match op with
  | SvcEq => PEq | SvcNe => PNe | SvcGt => PGt | SvcGe => PGe | SvcLt => PLt | SvcLe => PLe
  | SvcContains => PContains
  end.
Definition predicate_op_from_runtime (op : PredicateOp) : SvcPredicateOp :=
  match op with
  | PEq => SvcEq | PNe => SvcNe | PGt => SvcGt | PGe => SvcGe | PLt => SvcLt | PLe => SvcLe
  | PContains => SvcContains
  end.

Inductive SvcOrderDirection := SvcAsc | SvcDesc.
Definition direction_to_runtime (direction : SvcOrderDirection) : OrderDirection :=
  match direction with SvcAsc => OrderAsc | SvcDesc => OrderDesc end.
Definition direction_from_runtime (direction : OrderDirection) : SvcOrderDirection :=
  match direction with OrderAsc => SvcAsc | OrderDesc => SvcDesc end.

Record SvcOrderSpec := { so_field : string; so_direction : SvcOrderDirection }.
Definition order_to_runtime (order : SvcOrderSpec) : OrderSpec :=
  {| os_field := so_field order; os_direction := direction_to_runtime (so_direction order) |}.
Definition order_from_runtime (order : OrderSpec) : SvcOrderSpec :=
  {| so_field := os_field order; so_direction := direction_from_runtime (os_direction order) |}.

Inductive SvcTraversalDirection := SvcOut | SvcIn | SvcBoth.
Definition traversal_direction_to_runtime (d : SvcTraversalDirection) : TraversalDirection :=
  match d with SvcOut => TraverseOut | SvcIn => TraverseIn | SvcBoth => TraverseBoth end.
Definition traversal_direction_from_runtime (d : TraversalDirection) : SvcTraversalDirection :=
  match d with TraverseOut => SvcOut | TraverseIn => SvcIn | TraverseBoth => SvcBoth end.

Record SvcTraversalStep := {
  st_direction : SvcTraversalDirection;
  st_edge_model : option string;
  st_end_model : string;
}.
Definition step_to_runtime (step : SvcTraversalStep) : TraversalStepRequest :=
  {| ts_direction := traversal_direction_to_runtime (st_direction step);
     ts_edge_model := st_edge_model step; ts_end_model := st_end_model step |}.
Definition step_from_runtime (step : TraversalStepRequest) : SvcTraversalStep :=
  {| st_direction := traversal_direction_from_runtime (ts_direction step);
     st_edge_model := ts_edge_model step; st_end_model := ts_end_model step |}.

Inductive SvcTraversalReturn := SvcEnd | SvcRoot | SvcEdge.
Definition return_to_runtime (mode : SvcTraversalReturn) : TraversalReturn :=
  match mode with SvcEnd => TraverseToEnd | SvcRoot => TraverseToRoot | SvcEdge => TraverseToEdge end.
Definition return_from_runtime (mode : TraversalReturn) : SvcTraversalReturn :=
  match mode with TraverseToEnd => SvcEnd | TraverseToRoot => SvcRoot | TraverseToEdge => SvcEdge end.

(** [usize] is 64 bits wide. *)
Definition usize_max : N := 18446744073709551615.
Definition convert_u64_option_to_usize (value : option N) (field : string) : result (option N) :=
  match value with
  | None => Ok None
  | Some value =>
      if (value <=? usize_max)%N then Ok (Some value)
      else Err (Constraint (field +:+ " is too large"))
  end.
Definition usize_to_u64 (value : N) : result N :=
  if (value <=? usize_max)%N then Ok value else Err (Constraint "value is too large for u64").
Definition usize_option_to_u64 (value : option N) : result (option N) :=
  match value with None => Ok None | Some value => Some <$> usize_to_u64 value end.

(** ** Values *)

Inductive PropertyValue :=
  | PvString (value : string)
  | PvInt (value : Z)
  | PvFloat (value : f64)
  | PvBool (value : bool)
  | PvBytes (value : string)
  | PvDecimal (value : string)
  | PvDate (value : string)
  | PvDateTime (value : string)
  | PvDuration (value : string)
  | PvUuid (value : string).

Record Property := { prop_name : string; prop_value : PropertyValue }.
Record PropertyMap := { pm_properties : list Property }.

Record SvcPropertyPredicate := {
  sp_field : string;
  sp_op : SvcPredicateOp;
  sp_value : PropertyValue;
}.

(** ** Requests *)

Record SvcNodeCreateRequest := { snc_model : string; snc_props : PropertyMap }.
Record SvcNodeUpdateRequest := { snu_model : string; snu_id : Z; snu_props : PropertyMap }.
Record SvcNodeDeleteRequest := { snd_model : string; snd_id : Z }.
Record SvcEdgeCreateRequest := {
  sec_model : string; sec_from : Z; sec_to : Z; sec_props : PropertyMap }.
Record SvcEdgeUpdateRequest := { seu_model : string; seu_id : Z; seu_props : PropertyMap }.
Record SvcEdgeDeleteRequest := { sed_model : string; sed_id : Z }.

(** [NodeFindRequest] of the service and [NodeFindShape] have the same fields,
    and so have [EdgeFindRequest] and [EdgeFindShape]. *)
Record NodeFindShape := {
  snf_model : string;
  snf_predicates : list SvcPropertyPredicate;
  snf_end_predicates : list SvcPropertyPredicate;
  snf_edge_predicates : list SvcPropertyPredicate;
  snf_traversals : list SvcTraversalStep;
  snf_order : list SvcOrderSpec;
  snf_limit : option N;
  snf_offset : option N;
  snf_id : option Z;
  snf_return_mode : option SvcTraversalReturn;
}.
Record EdgeFindShape := {
  sef_model : string;
  sef_predicates : list SvcPropertyPredicate;
  sef_order : list SvcOrderSpec;
  sef_limit : option N;
  sef_offset : option N;
  sef_id : option Z;
  sef_from : option Z;
  sef_to : option Z;
}.

Inductive SvcQuery :=
  | SvcNodeFind (request : NodeFindShape)
  | SvcEdgeFind (request : EdgeFindShape)
  | SvcTraversal (root : NodeFindShape).

Inductive BatchEndpoint := SvcId (id : Z) | SvcLocalRef (local_ref : string).
Inductive BatchResponseMode := SvcSummaryMode | SvcDetailedMode.

(** Each variant carries the fields of its struct. *)
Inductive BatchOperation :=
  | OpSchemaDefineNode (request : SvcDefineNodeRequest)
  | OpSchemaDefineEdge (request : SvcDefineEdgeRequest)
  | OpNodeCreate (model : string) (props : PropertyMap) (local_ref : option string)
  | OpNodeUpdate (request : SvcNodeUpdateRequest)
  | OpNodeDelete (request : SvcNodeDeleteRequest)
  | OpEdgeCreate (model : string) (from to : BatchEndpoint) (props : PropertyMap)
  | OpEdgeUpdate (request : SvcEdgeUpdateRequest)
  | OpEdgeDelete (request : SvcEdgeDeleteRequest).

Record SvcBatchRequest := {
  sb_atomic : bool;
  sb_allow_deletes : bool;
  sb_response_mode : BatchResponseMode;
  sb_ops : list BatchOperation;
}.

Record SnapshotHandle := { sh_id : string; sh_etag : string }.

Inductive ServiceRequest :=
  | SrvDefineNode (request : SvcDefineNodeRequest)
  | SrvDefineEdge (request : SvcDefineEdgeRequest)
  | SrvSchemaList
  | SrvCreateNode (request : SvcNodeCreateRequest)
  | SrvUpdateNode (request : SvcNodeUpdateRequest)
  | SrvDeleteNode (request : SvcNodeDeleteRequest)
  | SrvFindNodes (request : NodeFindShape)
  | SrvCreateEdge (request : SvcEdgeCreateRequest)
  | SrvUpdateEdge (request : SvcEdgeUpdateRequest)
  | SrvDeleteEdge (request : SvcEdgeDeleteRequest)
  | SrvFindEdges (request : EdgeFindShape)
  | SrvQuery (query : SvcQuery)
  | SrvExplain (query : SvcQuery)
  | SrvProfile (query : SvcQuery)
  | SrvApplyBatch (request : SvcBatchRequest)
  | SrvSave (format : DurabilityFormat) (requested_snapshot_id : option string)
  | SrvLoad (format : DurabilityFormat) (snapshot : SnapshotHandle)
  | SrvExport (snapshot : SnapshotHandle)
  | SrvImport (document : string) (format : DurabilityFormat)
  | SrvIndexList
  | SrvSummary.

Section conversions.
Context `{SerdeNumber} `{Formats}.

(** ** Values *)

(** [TryFrom<PropertyValue> for Value] *)
Definition value_to_json (value : PropertyValue) : result Value :=
  match value with
  | PvString value => Ok (Str value)
  | PvInt value => Ok (value_from_i64 value)
  | PvFloat value => ok_or (Num <$> number_from_f64 value) (Constraint "float value must be finite")
  | PvBool value => Ok (Bool value)
  | PvBytes value => parse_typed_value KBytes (base64_encode value)
  | PvDecimal value => parse_typed_value KDecimal value
  | PvDate value => parse_typed_value KDate value
  | PvDateTime value => parse_typed_value KDateTime value
  | PvDuration value => parse_typed_value KDuration value
  | PvUuid value => parse_typed_value KUuid value
  end.

Definition bytes_error : GrmError := Constraint "invalid typed bytes property value".
Definition graph_value_error : GrmError :=
  Constraint "graph values must be strings, numbers, or booleans".

Definition kind_of (value : Value) (keyword : string) : bool :=
  bool_decide (typed_value_kind value = Some keyword).

(** The arms of [TryFrom<Value> for PropertyValue] for an object and a number. *)
Definition object_to_property (value : Value) : result PropertyValue :=
  let payload := default "" (typed_value_payload value) in
  if kind_of value "bytes" then
  raw ← ok_or (typed_value_payload value) bytes_error;
  PvBytes <$> ok_or (base64_decode raw) bytes_error
  else if kind_of value "decimal" then Ok (PvDecimal payload)
  else if kind_of value "date" then Ok (PvDate payload)
  else if kind_of value "datetime" then Ok (PvDateTime payload)
  else if kind_of value "duration" then Ok (PvDuration payload)
  else if kind_of value "uuid" then Ok (PvUuid payload)
  else Err graph_value_error.
Definition number_to_property (value : Number) : result PropertyValue :=
  match number_as_i64 value with
  | Some value => Ok (PvInt value)
  | None =>
    match number_as_u64 value with
    | Some value =>
        if in_i64 value then Ok (PvInt value)
        else Err (Constraint "integer property value is too large for int64")
    | None =>
        match number_as_f64 value with
        | Some value => Ok (PvFloat value)
        | None =>
            Err (Constraint "numeric property value cannot be represented in service proto")
        end
    end
  end.

Definition value_from_json (value : Value) : result PropertyValue :=
  match value with
  | Str value => Ok (PvString value)
  | Bool value => Ok (PvBool value)
  | Object _ => object_to_property value
  | Num value => number_to_property value
  | Null | Array _ => Err graph_value_error
  end.

(** The loop body of [TryFrom<PropertyMap> for BTreeMap]: a second property of
  the same name is refused, after its value has been converted. *)
Definition insert_property (props : Props) (property : Property) : result Props :=
  value ← value_to_json (prop_value property);
  match props !! prop_name property with
  | Some _ => Err (Constraint ("duplicate property '" +:+ prop_name property +:+ "'"))
  | None => Ok (<[prop_name property := value]> props)
  end.
Definition props_to_map (map : PropertyMap) : result Props :=
  try_fold insert_property ∅ (pm_properties map).

Definition property_from (entry : string * Value) : result Property :=
  value ← value_from_json entry.2;
  Ok {| prop_name := entry.1; prop_value := value |}.
Definition props_from_map (props : Props) : result PropertyMap :=
  Build_PropertyMap <$> mapM property_from (bt_iter props).

Definition predicate_to_runtime (predicate : SvcPropertyPredicate) : result PropertyPredicate :=
  value ← value_to_json (sp_value predicate);
  Ok {| pp_field := sp_field predicate; pp_op := predicate_op_to_runtime (sp_op predicate);
      pp_value := value |}.
Definition predicate_from_runtime (predicate : PropertyPredicate) : result SvcPropertyPredicate :=
  value ← value_from_json (pp_value predicate);
  Ok {| sp_field := pp_field predicate; sp_op := predicate_op_from_runtime (pp_op predicate);
      sp_value := value |}.

(** ** Finds and queries *)

Definition node_find_shape_to_runtime (shape : NodeFindShape) : result NodeFindRequest :=
  predicates ← mapM predicate_to_runtime (snf_predicates shape);
  end_predicates ← mapM predicate_to_runtime (snf_end_predicates shape);
  edge_predicates ← mapM predicate_to_runtime (snf_edge_predicates shape);
  limit ← convert_u64_option_to_usize (snf_limit shape) "limit";
  offset ← convert_u64_option_to_usize (snf_offset shape) "offset";
  Ok {| nf_model := snf_model shape; nf_predicates := predicates;
      nf_end_predicates := end_predicates; nf_edge_predicates := edge_predicates;
      nf_traversals := map step_to_runtime (snf_traversals shape);
      nf_order := map order_to_runtime (snf_order shape);
      nf_limit := limit; nf_offset := offset; nf_id := snf_id shape;
      nf_return_mode := return_to_runtime <$> snf_return_mode shape |}.

Definition node_find_shape_from_runtime (request : NodeFindRequest) : result NodeFindShape :=
  predicates ← mapM predicate_from_runtime (nf_predicates request);
  end_predicates ← mapM predicate_from_runtime (nf_end_predicates request);
  edge_predicates ← mapM predicate_from_runtime (nf_edge_predicates request);
  limit ← usize_option_to_u64 (nf_limit request);
  offset ← usize_option_to_u64 (nf_offset request);
  Ok {| snf_model := nf_model request; snf_predicates := predicates;
      snf_end_predicates := end_predicates; snf_edge_predicates := edge_predicates;
      snf_traversals := map step_from_runtime (nf_traversals request);
      snf_order := map order_from_runtime (nf_order request);
      snf_limit := limit; snf_offset := offset; snf_id := nf_id request;
      snf_return_mode := return_from_runtime <$> nf_return_mode request |}.

Definition edge_find_shape_to_runtime (shape : EdgeFindShape) : result EdgeFindRequest :=
  predicates ← mapM predicate_to_runtime (sef_predicates shape);
  limit ← convert_u64_option_to_usize (sef_limit shape) "limit";
  offset ← convert_u64_option_to_usize (sef_offset shape) "offset";
  Ok {| ef_model := sef_model shape; ef_predicates := predicates;
      ef_order := map order_to_runtime (sef_order shape); ef_limit := limit;
      ef_offset := offset; ef_id := sef_id shape; ef_from := sef_from shape;
      ef_to := sef_to shape |}.

Definition edge_find_shape_from_runtime (request : EdgeFindRequest) : result EdgeFindShape :=
  predicates ← mapM predicate_from_runtime (ef_predicates request);
  limit ← usize_option_to_u64 (ef_limit request);
  offset ← usize_option_to_u64 (ef_offset request);
  Ok {| sef_model := ef_model request; sef_predicates := predicates;
      sef_order := map order_from_runtime (ef_order request); sef_limit := limit;
      sef_offset := offset; sef_id := ef_id request; sef_from := ef_from request;
      sef_to := ef_to request |}.

Definition query_to_runtime (query : SvcQuery) : result QueryRequest :=
  match query with
  | SvcNodeFind shape => QueryNodeFind <$> node_find_shape_to_runtime shape
  | SvcEdgeFind shape => QueryEdgeFind <$> edge_find_shape_to_runtime shape
  | SvcTraversal root => QueryTraversal <$> node_find_shape_to_runtime root
  end.
Definition query_from_runtime (query : QueryRequest) : result SvcQuery :=
  match query with
  | QueryNodeFind request => SvcNodeFind <$> node_find_shape_from_runtime request
  | QueryEdgeFind request => SvcEdgeFind <$> edge_find_shape_from_runtime request
  | QueryTraversal root => SvcTraversal <$> node_find_shape_from_runtime root
  end.

(** ** Mutations *)

Definition node_create_to_runtime (r : SvcNodeCreateRequest) : result NodeCreateRequest :=
  props ← props_to_map (snc_props r); Ok {| nc_model := snc_model r; nc_props := props |}.
Definition node_create_from_runtime (r : NodeCreateRequest) : result SvcNodeCreateRequest :=
  props ← props_from_map (nc_props r); Ok {| snc_model := nc_model r; snc_props := props |}.

Definition node_update_to_runtime (r : SvcNodeUpdateRequest) : result NodeUpdateRequest :=
  props ← props_to_map (snu_props r);
  Ok {| nu_model := snu_model r; nu_id := snu_id r; nu_props := props |}.
Definition node_update_from_runtime (r : NodeUpdateRequest) : result SvcNodeUpdateRequest :=
  props ← props_from_map (nu_props r);
  Ok {| snu_model := nu_model r; snu_id := nu_id r; snu_props := props |}.

Definition node_delete_to_runtime (r : SvcNodeDeleteRequest) : NodeDeleteRequest :=
  {| nd_model := snd_model r; nd_id := snd_id r |}.
Definition node_delete_from_runtime (r : NodeDeleteRequest) : SvcNodeDeleteRequest :=
  {| snd_model := nd_model r; snd_id := nd_id r |}.

Definition edge_create_to_runtime (r : SvcEdgeCreateRequest) : result EdgeCreateRequest :=
  props ← props_to_map (sec_props r);
  Ok {| ec_model := sec_model r; ec_from := sec_from r; ec_to := sec_to r; ec_props := props |}.
Definition edge_create_from_runtime (r : EdgeCreateRequest) : result SvcEdgeCreateRequest :=
  props ← props_from_map (ec_props r);
  Ok {| sec_model := ec_model r; sec_from := ec_from r; sec_to := ec_to r; sec_props := props |}.

Definition edge_update_to_runtime (r : SvcEdgeUpdateRequest) : result EdgeUpdateRequest :=
  props ← props_to_map (seu_props r);
  Ok {| eu_model := seu_model r; eu_id := seu_id r; eu_props := props |}.
Definition edge_update_from_runtime (r : EdgeUpdateRequest) : result SvcEdgeUpdateRequest :=
  props ← props_from_map (eu_props r);
  Ok {| seu_model := eu_model r; seu_id := eu_id r; seu_props := props |}.

Definition edge_delete_to_runtime (r : SvcEdgeDeleteRequest) : EdgeDeleteRequest :=
  {| ed_model := sed_model r; ed_id := sed_id r |}.
Definition edge_delete_from_runtime (r : EdgeDeleteRequest) : SvcEdgeDeleteRequest :=
  {| sed_model := ed_model r; sed_id := ed_id r |}.

(** ** Batches *)

Definition endpoint_to_runtime (endpoint : BatchEndpoint) : SessionBatchEndpoint :=
  match endpoint with SvcId id => EndpointId id | SvcLocalRef r => EndpointRef r end.
Definition endpoint_from_runtime (endpoint : SessionBatchEndpoint) : BatchEndpoint :=
  match endpoint with EndpointId id => SvcId id | EndpointRef r => SvcLocalRef r end.

Definition response_mode_to_runtime (mode : BatchResponseMode) : SessionBatchResponse :=
  match mode with
  | SvcSummaryMode => BatchSummaryResponse
  | SvcDetailedMode => BatchDetailedResponse
  end.
Definition response_mode_from_runtime (mode : SessionBatchResponse) : BatchResponseMode :=
  match mode with
  | BatchSummaryResponse => SvcSummaryMode
  | BatchDetailedResponse => SvcDetailedMode
  end.

Definition batch_operation_to_runtime (op : BatchOperation) : result SessionBatchOp :=
  match op with
  | OpSchemaDefineNode r =>
    fields ← service_fields_to_batch_fields (sdn_fields r);
    Ok (BSchemaDefineNode (sdn_name r) (sdn_id_field r) fields)
  | OpSchemaDefineEdge r =>
    fields ← service_fields_to_batch_fields (sde_fields r);
    Ok (BSchemaDefineEdge (sde_name r) (sde_from_model r) (sde_to_model r) (sde_id_field r) fields)
  | OpNodeCreate model props local_ref =>
    props ← props_to_map props; Ok (BNodeCreate model props local_ref)
  | OpNodeUpdate r =>
    props ← props_to_map (snu_props r); Ok (BNodeUpdate (snu_model r) (snu_id r) props)
  | OpNodeDelete r => Ok (BNodeDelete (snd_model r) (snd_id r))
  | OpEdgeCreate model from to props =>
    props ← props_to_map props;
    Ok (BEdgeCreate model (endpoint_to_runtime from) (endpoint_to_runtime to) props)
  | OpEdgeUpdate r =>
    props ← props_to_map (seu_props r); Ok (BEdgeUpdate (seu_model r) (seu_id r) props)
  | OpEdgeDelete r => Ok (BEdgeDelete (sed_model r) (sed_id r))
  end.

Definition batch_operation_from_runtime (op : SessionBatchOp) : result BatchOperation :=
  match op with
  | BSchemaDefineNode name id_field fields =>
    fields ← batch_fields_to_service_fields fields;
    Ok (OpSchemaDefineNode {| sdn_name := name; sdn_id_field := id_field; sdn_fields := fields |})
  | BSchemaDefineEdge name from_model to_model id_field fields =>
    fields ← batch_fields_to_service_fields fields;
    Ok (OpSchemaDefineEdge {| sde_name := name; sde_from_model := from_model;
          sde_to_model := to_model; sde_id_field := id_field; sde_fields := fields |})
  | BNodeCreate model props local_ref =>
    props ← props_from_map props; Ok (OpNodeCreate model props local_ref)
  | BNodeUpdate model id props =>
    props ← props_from_map props;
    Ok (OpNodeUpdate {| snu_model := model; snu_id := id; snu_props := props |})
  | BNodeDelete model id => Ok (OpNodeDelete {| snd_model := model; snd_id := id |})
  | BEdgeCreate model from to props =>
    props ← props_from_map props;
    Ok (OpEdgeCreate model (endpoint_from_runtime from) (endpoint_from_runtime to) props)
  | BEdgeUpdate model id props =>
    props ← props_from_map props;
    Ok (OpEdgeUpdate {| seu_model := model; seu_id := id; seu_props := props |})
  | BEdgeDelete model id => Ok (OpEdgeDelete {| sed_model := model; sed_id := id |})
  end.

Definition batch_to_runtime (request : SvcBatchRequest) : result SessionBatchParams :=
  ops ← mapM batch_operation_to_runtime (sb_ops request);
  Ok {| bp_atomic := sb_atomic request; bp_allow_deletes := sb_allow_deletes request;
      bp_response := response_mode_to_runtime (sb_response_mode request); bp_ops := ops |}.
Definition batch_from_runtime (request : SessionBatchParams) : result SvcBatchRequest :=
  ops ← mapM batch_operation_from_runtime (bp_ops request);
  Ok {| sb_atomic := bp_atomic request; sb_allow_deletes := bp_allow_deletes request;
      sb_response_mode := response_mode_from_runtime (bp_response request); sb_ops := ops |}.

(** ** A request of the service as a request of the runtime *)

(** [TryFrom<ServiceRequest> for RuntimeRequest]; the clock is what a profile
  will read. *)
Definition into_runtime_request (clock : nat → Z) (request : ServiceRequest)
  : result RuntimeRequest :=
  match request with
  | SrvDefineNode r => (ReqSchema ∘ SchemaDefineNode) <$> define_node_to_runtime r
  | SrvDefineEdge r => (ReqSchema ∘ SchemaDefineEdge) <$> define_edge_to_runtime r
  | SrvSchemaList => Ok (ReqSchema SchemaList)
  | SrvCreateNode r => (ReqNode ∘ NodeCreate) <$> node_create_to_runtime r
  | SrvUpdateNode r => (ReqNode ∘ NodeUpdate) <$> node_update_to_runtime r
  | SrvDeleteNode r => Ok (ReqNode (NodeDelete (node_delete_to_runtime r)))
  | SrvFindNodes r => (ReqNode ∘ NodeFind) <$> node_find_shape_to_runtime r
  | SrvCreateEdge r => (ReqEdge ∘ EdgeCreate) <$> edge_create_to_runtime r
  | SrvUpdateEdge r => (ReqEdge ∘ EdgeUpdate) <$> edge_update_to_runtime r
  | SrvDeleteEdge r => Ok (ReqEdge (EdgeDelete (edge_delete_to_runtime r)))
  | SrvFindEdges r => (ReqEdge ∘ EdgeFind) <$> edge_find_shape_to_runtime r
  | SrvQuery query => ReqQuery <$> query_to_runtime query
  | SrvExplain query => ReqExplain <$> query_to_runtime query
  | SrvProfile query => ReqProfile clock <$> query_to_runtime query
  | SrvApplyBatch r => ReqBatch <$> batch_to_runtime r
  | SrvIndexList => Ok (ReqAdmin AdminIndexList)
  | SrvSummary => Ok (ReqAdmin AdminSummary)
  | SrvSave _ _ | SrvLoad _ _ | SrvExport _ | SrvImport _ _ =>
    Err (NotSupported "service snapshot handle and document admin requests are not mapped to local runtime file operations")
  end.

(** The request each method of [GrpcWorkspaceClient] sends; there is none for the
  other requests. *)
Definition client_request (request : RuntimeRequest) : option (result ServiceRequest) :=
  match request with
  | ReqSchema (SchemaDefineNode r) => Some (Ok (SrvDefineNode (define_node_from_runtime r)))
  | ReqSchema (SchemaDefineEdge r) => Some (Ok (SrvDefineEdge (define_edge_from_runtime r)))
  | ReqSchema SchemaList => Some (Ok SrvSchemaList)
  | ReqNode (NodeCreate r) => Some (SrvCreateNode <$> node_create_from_runtime r)
  | ReqNode (NodeUpdate r) => Some (SrvUpdateNode <$> node_update_from_runtime r)
  | ReqNode (NodeDelete r) => Some (Ok (SrvDeleteNode (node_delete_from_runtime r)))
  | ReqNode (NodeFind r) => Some (SrvFindNodes <$> node_find_shape_from_runtime r)
  | ReqEdge (EdgeCreate r) => Some (SrvCreateEdge <$> edge_create_from_runtime r)
  | ReqEdge (EdgeUpdate r) => Some (SrvUpdateEdge <$> edge_update_from_runtime r)
  | ReqEdge (EdgeDelete r) => Some (Ok (SrvDeleteEdge (edge_delete_from_runtime r)))
  | ReqEdge (EdgeFind r) => Some (SrvFindEdges <$> edge_find_shape_from_runtime r)
  | ReqExplain query => Some (SrvExplain <$> query_from_runtime query)
  | ReqProfile _ query => Some (SrvProfile <$> query_from_runtime query)
  | ReqBatch r => Some (SrvApplyBatch <$> batch_from_runtime r)
  | ReqAdmin AdminSummary => Some (Ok SrvSummary)
  | ReqQuery _ | ReqAdmin _ => None
  end.
End conversions.

(** ** What the client sends is what the handler executes *)

(** The values of a request, and a request with its values replaced. *)
Section requests.
Context `{SerdeNumber}.
Variable f : Value → Value.

Definition map_predicate (p : PropertyPredicate) : PropertyPredicate :=
  {| pp_field := pp_field p; pp_op := pp_op p; pp_value := f (pp_value p) |}.
Definition map_node_find (r : NodeFindRequest) : NodeFindRequest :=
  {| nf_model := nf_model r; nf_predicates := map map_predicate (nf_predicates r);
   nf_end_predicates := map map_predicate (nf_end_predicates r);
   nf_edge_predicates := map map_predicate (nf_edge_predicates r);
   nf_traversals := nf_traversals r; nf_order := nf_order r; nf_limit := nf_limit r;
   nf_offset := nf_offset r; nf_id := nf_id r; nf_return_mode := nf_return_mode r |}.
Definition map_edge_find (r : EdgeFindRequest) : EdgeFindRequest :=
  {| ef_model := ef_model r; ef_predicates := map map_predicate (ef_predicates r);
   ef_order := ef_order r; ef_limit := ef_limit r; ef_offset := ef_offset r; ef_id := ef_id r;
   ef_from := ef_from r; ef_to := ef_to r |}.
Definition map_query (q : QueryRequest) : QueryRequest :=
  match q with
  | QueryNodeFind r => QueryNodeFind (map_node_find r)
  | QueryEdgeFind r => QueryEdgeFind (map_edge_find r)
  | QueryTraversal r => QueryTraversal (map_node_find r)
  end.
Definition map_batch_op (op : SessionBatchOp) : SessionBatchOp :=
  match op with
  | BNodeCreate model props local_ref => BNodeCreate model (f <$> props) local_ref
  | BNodeUpdate model id props => BNodeUpdate model id (f <$> props)
  | BEdgeCreate model from to props => BEdgeCreate model from to (f <$> props)
  | BEdgeUpdate model id props => BEdgeUpdate model id (f <$> props)
  | op => op
  end.
Definition map_request (clock : nat → Z) (r : RuntimeRequest) : RuntimeRequest :=
  match r with
  | ReqNode (NodeCreate r) => ReqNode (NodeCreate {| nc_model := nc_model r; nc_props := f <$> nc_props r |})
  | ReqNode (NodeUpdate r) =>
    ReqNode (NodeUpdate {| nu_model := nu_model r; nu_id := nu_id r; nu_props := f <$> nu_props r |})
  | ReqNode (NodeFind r) => ReqNode (NodeFind (map_node_find r))
  | ReqEdge (EdgeCreate r) =>
    ReqEdge (EdgeCreate {| ec_model := ec_model r; ec_from := ec_from r; ec_to := ec_to r;
                           ec_props := f <$> ec_props r |})
  | ReqEdge (EdgeUpdate r) =>
    ReqEdge (EdgeUpdate {| eu_model := eu_model r; eu_id := eu_id r; eu_props := f <$> eu_props r |})
  | ReqEdge (EdgeFind r) => ReqEdge (EdgeFind (map_edge_find r))
  | ReqQuery q => ReqQuery (map_query q)
  | ReqExplain q => ReqExplain (map_query q)
  | ReqProfile _ q => ReqProfile clock (map_query q)
  | ReqBatch r =>
    ReqBatch {| bp_atomic := bp_atomic r; bp_allow_deletes := bp_allow_deletes r;
                bp_response := bp_response r; bp_ops := map map_batch_op (bp_ops r) |}
  | r => r
  end.
End requests.

Section sendable.
Context `{SerdeNumber} `{Formats}.

(** A value the schema of some field accepts. *)
Definition valid_value (value : Value) : Prop :=
  ∃ kind, validate_value_for_kind kind value = true.
Definition valid_props (props : Props) : Prop := map_Forall (λ _, valid_value) props.
Definition valid_predicates (ps : list PropertyPredicate) : Prop :=
  Forall (λ p, valid_value (pp_value p)) ps.
Definition fits_usize (o : option N) : Prop :=
  match o with Some n => (n <= usize_max)%N | None => True end.

Definition sendable_node_find (r : NodeFindRequest) : Prop :=
  valid_predicates (nf_predicates r) ∧ valid_predicates (nf_end_predicates r) ∧
  valid_predicates (nf_edge_predicates r) ∧ fits_usize (nf_limit r) ∧ fits_usize (nf_offset r).
Definition sendable_edge_find (r : EdgeFindRequest) : Prop :=
  valid_predicates (ef_predicates r) ∧ fits_usize (ef_limit r) ∧ fits_usize (ef_offset r).
Definition sendable_query (q : QueryRequest) : Prop :=
  match q with
  | QueryNodeFind r | QueryTraversal r => sendable_node_find r
  | QueryEdgeFind r => sendable_edge_find r
  end.
Definition known_types (fields : list SessionBatchFieldParam) : Prop :=
  Forall (λ field, is_Some (parse_field_value_type (bf_value_type field))) fields.
Definition sendable_op (op : SessionBatchOp) : Prop :=
  match op with
  | BSchemaDefineNode _ _ fields | BSchemaDefineEdge _ _ _ _ fields => known_types fields
  | BNodeCreate _ props _ | BNodeUpdate _ _ props | BEdgeCreate _ _ _ props
  | BEdgeUpdate _ _ props => valid_props props
  | BNodeDelete _ _ | BEdgeDelete _ _ => True
  end.

(** The requests a method of the client takes, with valid values. *)
Definition sendable (r : RuntimeRequest) : Prop :=
  match r with
  | ReqSchema _ | ReqNode (NodeDelete _) | ReqEdge (EdgeDelete _) | ReqAdmin AdminSummary => True
  | ReqNode (NodeCreate r) => valid_props (nc_props r)
  | ReqNode (NodeUpdate r) => valid_props (nu_props r)
  | ReqNode (NodeFind r) => sendable_node_find r
  | ReqEdge (EdgeCreate r) => valid_props (ec_props r)
  | ReqEdge (EdgeUpdate r) => valid_props (eu_props r)
  | ReqEdge (EdgeFind r) => sendable_edge_find r
  | ReqExplain q | ReqProfile _ q => sendable_query q
  | ReqBatch r => Forall sendable_op (bp_ops r)
  | ReqQuery _ | ReqAdmin _ => False
  end.

(** What becomes of a value on the way. *)
Definition received (value : Value) : Value :=
  match p ← value_from_json value; value_to_json p with Ok value' => value' | Err _ => value end.
End sendable.

Section roundtrip.
Context `{SerdeNumber} `{!NumberLaws} `{Formats}.

Definition is_tagged_kind (kind : PrimitiveKind) : bool :=
  match kind with KString | KInt | KFloat | KBool => false | _ => true end.

(** A valid value of a tagged kind is the tagged text its parser answers. *)
Lemma tagged_value_parses kind value :
  is_tagged_kind kind = true →
  validate_value_for_kind kind value = true →
  ∃ raw, typed_value_parts value = Some (kind_keyword kind, raw) ∧ is_object value = true ∧
  ∃ v, parse_typed_value kind raw = Ok v ∧ value_eqb v value = true.
Proof.
  intros Hk Hv.
  assert (∃ raw v, typed_value_parts value = Some (kind_keyword kind, raw) ∧
          parse_typed_value kind raw = Ok v ∧ value_eqb v value = true) as (raw & v & Hp & Hr & He).
  { destruct kind; try done; unfold validate_value_for_kind in Hv;
    destruct (typed_value_parts value) as [[actual raw]|]; try done;
    apply andb_true_iff in Hv as [<-%String.eqb_eq Hv];
    destruct (parse_typed_value _ raw) as [v|] eqn:Hr; try done; by exists raw, v. }
  exists raw. split; [done|]. split; [|by exists v].
  unfold typed_value_parts, as_object in Hp. by destruct value.
Qed.

Lemma tagged_eqb kind value raw :
  typed_value_parts value = Some (kind_keyword kind, raw) →
  ∀ c, value_eqb (tagged kind c) value = true → c = raw.
Proof.
  intros Hp c He. unfold tagged in He. destruct value as [| | | | |m]; try done.
  cbn in He. destruct m as [|[k1 v1] [|[k2 v2] [|? ?]]]; try done;
  repeat (apply andb_true_iff in He as [? He]); try done.
  all: destruct v1 as [| | |s1| |]; try done; destruct v2 as [| | |s2| |]; try done.
  all: repeat match goal with
  | H : _ && _ = true |- _ => apply andb_true_iff in H as [? H]
  | H : String.eqb _ _ = true |- _ => apply String.eqb_eq in H; subst
  end; try done.
  all: cbn in Hp; by injection Hp as <-.
Qed.

Lemma parsed_tagged kind raw v :
  is_tagged_kind kind = true →
  parse_typed_value kind raw = Ok v → ∃ c, v = tagged kind c.
Proof.
  intros Hk Hv. destruct kind; try done; cbn [parse_typed_value] in Hv.
  - unfold canonical_bytes_value in Hv. inv_ok. eexists. by eapply tag_canonical_Ok.
  - unfold canonical_decimal_value in Hv. inv_ok. by eexists.
  - unfold canonical_date_value in Hv. inv_ok. eexists. by eapply tag_canonical_Ok.
  - unfold canonical_datetime_value in Hv. inv_ok. by eexists.
  - unfold canonical_duration_value in Hv. destruct (str_is_empty _); [done|]. inv_ok.
  eexists. by eapply tag_canonical_Ok.
  - unfold canonical_uuid_value in Hv. inv_ok. eexists. by eapply tag_canonical_Ok.
Qed.

Lemma bytes_decoded raw :
  parse_typed_value KBytes raw = Ok (tagged KBytes raw) →
  ∃ bs, base64_decode raw = Some bs ∧ base64_encode bs = raw.
Proof.
  cbn [parse_typed_value]. unfold canonical_bytes_value. intros Hv.
  apply bind_Ok in Hv as (bs & Hbs%ok_or_Ok & Ht). apply tag_canonical_Ok in Ht as [Henc Ht].
  assert (str_trim raw = raw) as Htrim by (unfold tagged in Ht; by injection Ht).
  rewrite Htrim in *. by exists bs.
Qed.

Lemma object_property value kind raw :
  is_object value = true → typed_value_parts value = Some (kind_keyword kind, raw) →
  is_tagged_kind kind = true →
  parse_typed_value kind raw = Ok (tagged kind raw) →
  ∃ p, value_from_json value = Ok p ∧ value_to_json p = Ok (tagged kind raw).
Proof.
  intros Ho Hp Hk Hv.
  assert (value_from_json value = object_to_property value) as -> by by destruct value.
  unfold object_to_property, kind_of, typed_value_kind, typed_value_payload. rewrite Hp.
  destruct kind; try done; cbn -[bool_decide parse_typed_value]; rewrite ?bool_decide_eq_true_2 by done;
  rewrite ?bool_decide_eq_false_2 by done; try (eexists; split; [reflexivity|exact Hv]).
  destruct (bytes_decoded raw Hv) as (bs & Hd & He). rewrite Hd. eexists. split; [reflexivity|].
  cbn [value_to_json]. by rewrite He.
Qed.

Lemma received_eq value p v :
  value_from_json value = Ok p → value_to_json p = Ok v → received value = v.
Proof. intros Hp Hv. unfold received. rewrite Hp. cbn [mbind result_bind]. by rewrite Hv. Qed.

Lemma value_transported value :
  valid_value value →
  ∃ p v, value_from_json value = Ok p ∧ value_to_json p = Ok v ∧ value_eqb v value = true.
Proof.
  intros [kind Hv].
  destruct (is_tagged_kind kind) eqn:Hk.
  { destruct (tagged_value_parses kind value Hk Hv) as (raw & Hp & Ho & v & Hr & He).
  destruct (parsed_tagged kind raw v Hk Hr) as [c ->].
  pose proof (tagged_eqb kind value raw Hp c He) as ->.
  destruct (object_property value kind raw Ho Hp Hk Hr) as (p & Hp1 & Hp2).
  by exists p, (tagged kind raw). }
  destruct kind; try done; cbn [validate_value_for_kind] in Hv.
  - destruct value as [| | |s| |]; try done. eexists _, _. split; [reflexivity|].
  split; [reflexivity|]. apply value_eqb_refl.
  - apply bool_decide_eq_true in Hv as [z Hz]. destruct value as [| |n| | |]; try done. cbn in Hz.
  exists (PvInt z), (value_from_i64 z). cbn. unfold number_to_property. rewrite Hz.
  split; [done|]. split; [done|].
  apply (number_eqb_i64 _ _ z); [|done]. apply number_from_i64_as. by eapply number_as_i64_from.
  - destruct value as [| |n| | |]; try done. cbn in Hv. apply andb_true_iff in Hv as [Hf Hx].
  destruct (number_as_f64 n) as [x|] eqn:Hn; [|done].
  destruct (number_is_f64_as n Hf) as (_ & Hi & Hu).
  destruct (number_is_f64_finite n x Hf Hn) as [Hfin Hval].
  destruct (number_from_f64_finite x Hfin Hval) as [m Hm].
  exists (PvFloat x), (Num m). cbn. unfold number_to_property. rewrite Hi, Hu, Hn, Hm.
  split; [done|]. split; [done|]. destruct (number_from_f64_as x m Hm) as [Hmf Hmx].
  by eapply number_eqb_f64.
  - destruct value as [|b| | | |]; try done. eexists _, _. split; [reflexivity|].
  split; [reflexivity|]. apply value_eqb_refl.
Qed.

(** A valid value arrives as an equal one. *)
Lemma received_valid value :
  valid_value value → value_eqb (received value) value = true.
Proof. intros Hv. destruct (value_transported value Hv) as (p & v & Hp & Hq & He). by rewrite (received_eq _ _ _ Hp Hq). Qed.

Lemma value_received value :
  valid_value value → ∃ p, value_from_json value = Ok p ∧ value_to_json p = Ok (received value).
Proof.
  intros Hv. destruct (value_transported value Hv) as (p & v & Hp & Hq & _).
  exists p. by rewrite (received_eq _ _ _ Hp Hq).
Qed.

(** *** Property maps and predicates *)

Lemma mapM_round {A B} (f : A → result B) (g : B → result A) (h : A → A) (P : A → Prop) l :
  (∀ a, P a → ∃ b, f a = Ok b ∧ g b = Ok (h a)) → Forall P l →
  ∃ k, mapM f l = Ok k ∧ mapM g k = Ok (map h l).
Proof.
  intros Hfg Hl. induction Hl as [|a l Ha _ IH]; [by exists []|].
  destruct (Hfg a Ha) as (b & Hf & Hg), IH as (k & Hk & Hm).
  exists (b :: k). cbn. rewrite Hf, Hg. cbn. by rewrite Hk, Hm.
Qed.

Lemma props_insert_all (l : list (string * Value)) (m : Props) :
  NoDup l.*1 → (∀ k, k ∈ l.*1 → m !! k = None) → Forall (λ e, valid_value e.2) l →
  ∃ ps, mapM property_from l = Ok ps ∧
  try_fold insert_property m ps = Ok (list_to_map (prod_map id received <$> l) ∪ m).
Proof.
  revert m. induction l as [|[k v] l IH]; intros m Hnd Hm Hv.
  { exists []. cbn. by rewrite (left_id_L ∅ (∪)). }
  cbn in Hnd. apply NoDup_cons in Hnd as [Hk Hnd]. apply Forall_cons in Hv as [Hv Hl].
  destruct (value_received v Hv) as (p & Hp & Hq).
  destruct (IH (<[k := received v]> m)) as (ps & Hps & Hfold); [done| |done|].
  { intros k' Hk'. rewrite lookup_insert_ne by (intros <-; done). apply Hm. by right. }
  exists ({| prop_name := k; prop_value := p |} :: ps). split.
  - assert (property_from (k, v) = Ok {| prop_name := k; prop_value := p |}) as Hone.
  { unfold property_from. cbn [fst snd]. by rewrite Hp. }
  rewrite mapM_cons, Hone. cbn [mbind result_bind]. by rewrite Hps.
  - cbn [try_fold]. unfold insert_property at 1. cbn [prop_name prop_value]. rewrite Hq. cbn [mbind result_bind].
  rewrite (Hm k) by left. rewrite Hfold. f_equal. cbn. rewrite <-insert_union_r, insert_union_l; [done|].
  apply not_elem_of_list_to_map_1. rewrite <-list_fmap_compose. intros Hin. apply Hk.
  by rewrite list_elem_of_fmap in Hin |- *.
Qed.

Lemma props_received (m : Props) :
  valid_props m → ∃ map, props_from_map m = Ok map ∧ props_to_map map = Ok (received <$> m).
Proof.
  intros Hm. destruct (props_insert_all (bt_iter m) ∅) as (ps & Hps & Hfold).
  - apply bt_keys_NoDup.
  - intros. apply lookup_empty.
  - rewrite Forall_forall. intros [k v] He%elem_of_bt_iter. by apply (Hm k).
  - exists (Build_PropertyMap ps). unfold props_from_map, props_to_map. rewrite Hps. split; [done|].
  cbn [pm_properties]. rewrite Hfold, (right_id_L ∅ (∪)). f_equal.
  rewrite list_to_map_fmap. by rewrite list_to_map_bt_iter.
Qed.

Lemma predicates_received ps :
  valid_predicates ps →
  ∃ qs, mapM predicate_from_runtime ps = Ok qs ∧
  mapM predicate_to_runtime qs = Ok (map (map_predicate received) ps).
Proof.
  apply mapM_round. intros p Hp. destruct (value_received _ Hp) as (v & Hv & Hw).
  unfold predicate_from_runtime. rewrite Hv. eexists. split; [reflexivity|].
  unfold predicate_to_runtime. cbn [sp_value sp_field sp_op]. rewrite Hw. cbn.
  unfold map_predicate. by destruct (pp_op p).
Qed.

Lemma usize_received o field :
  fits_usize o → ∃ o', usize_option_to_u64 o = Ok o' ∧ convert_u64_option_to_usize o' field = Ok o.
Proof.
  destruct o as [n|]; [|by exists None]. cbn. intros Hn%N.leb_le. exists (Some n).
  unfold usize_option_to_u64, usize_to_u64. rewrite Hn. split; [done|]. cbn. by rewrite Hn.
Qed.

Lemma map_same {A B} (f : A → B) (g : B → A) l : (∀ a, g (f a) = a) → map g (map f l) = l.
Proof. intros Hgf. rewrite map_map. induction l as [|a l IH]; cbn; [done|]. by rewrite Hgf, IH. Qed.

Lemma orders_received os : map order_to_runtime (map order_from_runtime os) = os.
Proof. apply map_same. by intros [? []]. Qed.
Lemma steps_received ss : map step_to_runtime (map step_from_runtime ss) = ss.
Proof. apply map_same. by intros [[] ? ?]. Qed.
Lemma return_received (o : option TraversalReturn) :
  return_to_runtime <$> (return_from_runtime <$> o) = o.
Proof. by destruct o as [[]|]. Qed.

Lemma node_find_received r :
  sendable_node_find r →
  ∃ shape, node_find_shape_from_runtime r = Ok shape ∧
  node_find_shape_to_runtime shape = Ok (map_node_find received r).
Proof.
  intros (Hp & He & Hr & Hl & Ho).
  destruct (predicates_received _ Hp) as (ps & Hps & Hps').
  destruct (predicates_received _ He) as (es & Hes & Hes').
  destruct (predicates_received _ Hr) as (rs & Hrs & Hrs').
  destruct (usize_received _ "limit" Hl) as (l & Hl1 & Hl2).
  destruct (usize_received _ "offset" Ho) as (o & Ho1 & Ho2).
  unfold node_find_shape_from_runtime. rewrite Hps, Hes, Hrs, Hl1, Ho1. eexists. split; [reflexivity|].
  unfold node_find_shape_to_runtime. cbn -[convert_u64_option_to_usize].
  rewrite Hps', Hes', Hrs', Hl2, Ho2. cbn.
  by rewrite orders_received, steps_received, return_received.
Qed.

Lemma edge_find_received r :
  sendable_edge_find r →
  ∃ shape, edge_find_shape_from_runtime r = Ok shape ∧
  edge_find_shape_to_runtime shape = Ok (map_edge_find received r).
Proof.
  intros (Hp & Hl & Ho).
  destruct (predicates_received _ Hp) as (ps & Hps & Hps').
  destruct (usize_received _ "limit" Hl) as (l & Hl1 & Hl2).
  destruct (usize_received _ "offset" Ho) as (o & Ho1 & Ho2).
  unfold edge_find_shape_from_runtime. rewrite Hps, Hl1, Ho1. eexists. split; [reflexivity|].
  unfold edge_find_shape_to_runtime. cbn -[convert_u64_option_to_usize].
  rewrite Hps', Hl2, Ho2. cbn. by rewrite orders_received.
Qed.

Lemma query_received q :
  sendable_query q →
  ∃ query, query_from_runtime q = Ok query ∧ query_to_runtime query = Ok (map_query received q).
Proof.
  destruct q as [r|r|r]; intros Hq.
  - destruct (node_find_received r Hq) as (s & Hs & Ht). exists (SvcNodeFind s). cbn. by rewrite Hs, Ht.
  - destruct (edge_find_received r Hq) as (s & Hs & Ht). exists (SvcEdgeFind s). cbn. by rewrite Hs, Ht.
  - destruct (node_find_received r Hq) as (s & Hs & Ht). exists (SvcTraversal s). cbn. by rewrite Hs, Ht.
Qed.

(** *** Models and batches *)

Lemma fields_received fields : convert_fields (map field_from_runtime fields) = Ok fields.
Proof.
  unfold convert_fields. apply mapM_Ok. induction fields as [|[n [] r] fields IH]; by constructor.
Qed.

Lemma batch_fields_received fields :
  known_types fields →
  ∃ fs, batch_fields_to_service_fields fields = Ok fs ∧ service_fields_to_batch_fields fs = Ok fields.
Proof.
  intros Hk.
  destruct (mapM_round (λ field, value_type ← value_type_of_keyword (bf_value_type field);
    Ok {| sf_name := bf_name field; sf_value_type := value_type; sf_required := bf_required field |})
  (λ field, keyword ← field_value_type_keyword (sf_value_type field);
    Ok {| bf_name := sf_name field; bf_value_type := keyword; bf_required := sf_required field |})
  (λ field, field) (λ field, is_Some (parse_field_value_type (bf_value_type field))) fields)
  as (fs & Hfs & Hgs); [|exact Hk|by exists fs; rewrite map_id in Hgs].
  intros [name kw required] [t Ht]. cbn [bf_value_type] in Ht. cbn. unfold parse_field_value_type in Ht.
  unfold value_type_of_keyword.
  repeat match goal with
  | |- context [String.eqb kw ?s] => destruct (String.eqb_spec kw s) as [->|]; [by eexists|]
  end.
  done.
Qed.

Lemma endpoint_received e : endpoint_to_runtime (endpoint_from_runtime e) = e.
Proof. by destruct e. Qed.

Lemma batch_op_received op :
  sendable_op op →
  ∃ o, batch_operation_from_runtime op = Ok o ∧
  batch_operation_to_runtime o = Ok (map_batch_op received op).
Proof.
  destruct op; cbn [sendable_op]; intros Hop;
  try (destruct (batch_fields_received _ Hop) as (fs & Hf & Hg));
  try (destruct (props_received _ Hop) as (ps & Hf & Hg)); cbn [batch_operation_from_runtime];
  try rewrite Hf; (eexists; split; [reflexivity|]); cbn [batch_operation_to_runtime sdn_fields sde_fields
    sdn_name sdn_id_field sde_name sde_from_model sde_to_model sde_id_field snu_props snu_model
    snu_id seu_props seu_model seu_id]; try rewrite Hg; try done; cbn.
  by rewrite !endpoint_received.
Qed.

Lemma batch_received r :
  Forall sendable_op (bp_ops r) →
  ∃ b, batch_from_runtime r = Ok b ∧
  batch_to_runtime b = Ok {| bp_atomic := bp_atomic r; bp_allow_deletes := bp_allow_deletes r;
    bp_response := bp_response r; bp_ops := map (map_batch_op received) (bp_ops r) |}.
Proof.
  intros Hops. destruct (mapM_round _ _ (map_batch_op received) _ (bp_ops r) batch_op_received Hops)
  as (ops & Ho & Ho').
  unfold batch_from_runtime. rewrite Ho. eexists. split; [reflexivity|]. unfold batch_to_runtime.
  cbn [sb_ops]. rewrite Ho'. cbn. by destruct (bp_response r).
Qed.

Lemma client_request_transported clock r :
  sendable r →
  ∃ s, client_request r = Some (Ok s) ∧
  into_runtime_request clock s = Ok (map_request received clock r) ∧
  ∀ value, valid_value value → value_eqb (received value) value = true.
Proof.
  intros Hr. enough (∃ s, client_request r = Some (Ok s) ∧
  into_runtime_request clock s = Ok (map_request received clock r)) as (s & Hs & Ht).
  { exists s. split; [done|]. split; [done|apply received_valid]. }
  destruct r as [[r|r|]|[r|r|r|r]|[r|r|r|r]|q|q|? q|r|[]]; try done;
  cbn [sendable nc_props nu_props ec_props eu_props] in Hr;
  try (destruct (props_received _ Hr) as (ps & Hf & Hg));
  try (destruct (node_find_received _ Hr) as (sh & Hf & Hg));
  try (destruct (edge_find_received _ Hr) as (sh & Hf & Hg));
  try (destruct (query_received _ Hr) as (sh & Hf & Hg));
  try (destruct (batch_received _ Hr) as (b & Hf & Hg)).
  all: cbn [client_request]; unfold node_create_from_runtime, node_update_from_runtime,
  edge_create_from_runtime, edge_update_from_runtime; cbn [nc_props nu_props ec_props eu_props];
  try rewrite Hf; (eexists; split; [reflexivity|]); cbn [into_runtime_request];
  unfold node_create_to_runtime, node_update_to_runtime, edge_create_to_runtime,
    edge_update_to_runtime, define_node_to_runtime, define_edge_to_runtime;
  cbn [snc_props snu_props sec_props seu_props sdn_fields sde_fields define_node_from_runtime
       define_edge_from_runtime dn_fields de_fields];
  rewrite ?fields_received; try rewrite Hg; try done; by destruct r.
Qed.

(** a request of the runtime sent by a method of the client is converted on
  both sides without an error, and what the handler executes is the request
  with every value replaced by an equal one; nothing else is lost, no
  property, predicate or operation, nor their order. *)
Theorem client_request_received clock r :
  sendable r →
  ∃ s, client_request r = Some (Ok s) ∧
  into_runtime_request clock s = Ok (map_request received clock r) ∧
  ∀ value, valid_value value → value_eqb (received value) value = true.
Proof. apply client_request_transported. Qed.
End roundtrip.

(** *** At a concrete request *)

Definition w_client_request : @RuntimeRequest serde_default :=
  @ReqNode serde_default (@NodeCreate serde_default
    {| nc_model := "Person";
       nc_props := <["name" := Str "Ada"]> (<["age" := value_from_i64 36]>
         (<["height" := tagged KDecimal "1.6"]> ∅)) |}).

Lemma client_request_received_witness :
  @sendable serde_default w_formats w_client_request ∧
  ∃ s, @client_request serde_default w_formats w_client_request = Some (Ok s) ∧
    @into_runtime_request serde_default w_formats (λ _, 0%Z) s
    = Ok (@map_request serde_default (@received serde_default w_formats) (λ _, 0%Z) w_client_request).
Proof.
  assert (@sendable serde_default w_formats w_client_request) as Hs.
  { cbn. unfold valid_props. repeat apply map_Forall_insert_2; [| | |apply map_Forall_empty].
    - exists KString. reflexivity.
    - exists KInt. reflexivity.
    - exists KDecimal. reflexivity. }
  split; [exact Hs|].
  destruct (@client_request_received serde_default _ w_formats (λ _, 0%Z) w_client_request Hs)
    as (s & H1 & H2 & _).
  exists s. split; [exact H1|exact H2].
Defined.
