(* ===== verification/Security.v ===== *)
(** * Who may do what ([src/grm-service-api/src/lib.rs])

    The principals, resources and operations the service authorizes, the table
    of permissions, the classification of a request into the operations it
    needs, the mapping of client certificates to principals, and the file these
    are configured from. *)

From S2P Require Export Api.

Local Open Scope string_scope.

(** ** Principals, operations and requests *)

Inductive ServiceSecurityProfile := AnonymousLocal | DockerLocalInsecure | Secured.
#[export] Instance ServiceSecurityProfile_eq_dec : EqDecision ServiceSecurityProfile.
Proof. solve_decision. Defined.

Record TransportPeer := {
  remote_address : option string;
  client_certificate_present : bool;
  client_certificate_leaf_der : option string;
}.

Record Principal := {
  issuer : string;
  subject : string;
  authentication_method : string;
}.
Record ActorAssertion := { actor_id : string }.
Record DelegatedActor := { da_actor_id : string; da_delegation_id : string }.

Inductive SecurityAction :=
  | WorkspaceCreate | WorkspaceOpen | WorkspaceClose | WorkspaceInspect | WorkspaceSave
  | WorkspaceLoad | WorkspaceExport | WorkspaceImport | SchemaDefine | SchemaInspect
  | ActNodeCreate | ActNodeRead | ActNodeUpdate | ActNodeDelete
  | ActEdgeCreate | ActEdgeRead | ActEdgeUpdate | ActEdgeDelete
  | ActQuery | ActTraverse | ActExplain | ActProfile | BatchApply | IndexInspect | AuditInspect.
#[export] Instance SecurityAction_eq_dec : EqDecision SecurityAction.
Proof. solve_decision. Defined.

Definition security_action_label (action : SecurityAction) : string :=
  match action with
  | WorkspaceCreate => "workspace.create" | WorkspaceOpen => "workspace.open"
  | WorkspaceClose => "workspace.close" | WorkspaceInspect => "workspace.inspect"
  | WorkspaceSave => "workspace.save" | WorkspaceLoad => "workspace.load"
  | WorkspaceExport => "workspace.export" | WorkspaceImport => "workspace.import"
  | SchemaDefine => "schema.define" | SchemaInspect => "schema.inspect"
  | ActNodeCreate => "node.create" | ActNodeRead => "node.read"
  | ActNodeUpdate => "node.update" | ActNodeDelete => "node.delete"
  | ActEdgeCreate => "edge.create" | ActEdgeRead => "edge.read"
  | ActEdgeUpdate => "edge.update" | ActEdgeDelete => "edge.delete"
  | ActQuery => "query" | ActTraverse => "traverse" | ActExplain => "explain"
  | ActProfile => "profile" | BatchApply => "batch.apply" | IndexInspect => "index.inspect"
  | AuditInspect => "audit.inspect"
  end.

Definition all_actions : list SecurityAction :=
  [WorkspaceCreate; WorkspaceOpen; WorkspaceClose; WorkspaceInspect; WorkspaceSave;
   WorkspaceLoad; WorkspaceExport; WorkspaceImport; SchemaDefine; SchemaInspect;
   ActNodeCreate; ActNodeRead; ActNodeUpdate; ActNodeDelete; ActEdgeCreate; ActEdgeRead;
   ActEdgeUpdate; ActEdgeDelete; ActQuery; ActTraverse; ActExplain; ActProfile; BatchApply;
   IndexInspect; AuditInspect].

(** The match of [security_action_from_str] is the inverse of the labels. *)
Definition action_named (label : string) : option SecurityAction :=
  List.find (λ action, String.eqb (security_action_label action) label) all_actions.

Lemma action_named_label action : action_named (security_action_label action) = Some action.
Proof. by destruct action. Qed.

#[export] Instance SecurityAction_countable : Countable SecurityAction.
Proof. exact (inj_countable security_action_label action_named action_named_label). Defined.

Inductive SecurityResourceKind :=
  | KindService | KindWorkspace | KindNodeModel | KindEdgeModel | KindOperationFamily
  | KindIndexCatalog | KindWorkspaceArtifact | KindReservedAdmin.
#[export] Instance SecurityResourceKind_eq_dec : EqDecision SecurityResourceKind.
Proof. solve_decision. Defined.

Record SecurityResource := {
  res_workspace : string;
  res_kind : SecurityResourceKind;
  res_model : option string;
}.
#[export] Instance SecurityResource_eq_dec : EqDecision SecurityResource.
Proof. solve_decision. Defined.

Record SecurityOperation := { op_action : SecurityAction; op_resource : SecurityResource }.
#[export] Instance SecurityOperation_eq_dec : EqDecision SecurityOperation.
Proof. solve_decision. Defined.

Record SecurityRequestContext := {
  ctx_transport_peer : TransportPeer;
  ctx_authenticated_principal : option Principal;
  ctx_asserted_actor : option ActorAssertion;
  ctx_delegated_actor : option DelegatedActor;
  ctx_workspace : string;
  ctx_operations : list SecurityOperation;
  ctx_policy_version : option string;
}.

Inductive AuthorizationReason :=
  | AnonymousLocalProfile | ExplicitPolicyAllow | NoMatchingPermission.
Inductive AuthorizationDecision :=
  | Allow (reason : AuthorizationReason)
  | Deny (reason : AuthorizationReason).

(** ** The table of permissions *)

Inductive PermissionScope :=
  | ScopeService
  | ScopeWorkspace (workspace : string)
  | DeploymentLocalAllWorkspaces.
#[export] Instance PermissionScope_eq_dec : EqDecision PermissionScope.
Proof. solve_decision. Defined.

Inductive ResourceSelector :=
  | SelService
  | SelWorkspace
  | SelNodeModel (model : string)
  | SelAnyNodeModel
  | SelEdgeModel (model : string)
  | SelAnyEdgeModel
  | SelOperationFamily
  | SelIndexCatalog
  | SelWorkspaceArtifact
  | SelReservedAdmin.
#[export] Instance ResourceSelector_eq_dec : EqDecision ResourceSelector.
Proof. solve_decision. Defined.

Record Permission := { perm_action : SecurityAction; perm_resource : ResourceSelector }.
#[export] Instance Permission_eq_dec : EqDecision Permission.
Proof. solve_decision. Defined.

Record PermissionAssignment := {
  pa_principal : Principal;
  pa_scope : PermissionScope;
  pa_permissions : list Permission;
}.
Record PermissionTableConfig := {
  ptc_version : string;
  ptc_assignments : list PermissionAssignment;
}.
Record PermissionRole := { role_name : string; role_permissions : list Permission }.
Record RolePermissionAssignment := {
  ra_principal : Principal;
  ra_scope : PermissionScope;
  ra_permissions : list Permission;
  ra_roles : list string;
}.
Record RolePermissionTableConfig := {
  rtc_version : string;
  rtc_roles : list PermissionRole;
  rtc_assignments : list RolePermissionAssignment;
}.

Inductive PermissionTableConfigError :=
  | MissingPolicyVersion | DuplicatePrincipalScope | EmptyPermissionSet | EmptyPrincipal
  | EmptyScope | EmptyResourceSelector | EmptyRoleName | DuplicateRole | UnknownRole.

(** [Result<_, E>] for the error types of this crate. *)
Definition res (E A : Type) : Type := sum E A.
#[export] Instance res_ret {E} : MRet (res E) := λ A a, inr a.
#[export] Instance res_bind {E} : MBind (res E) := λ A B f m,
  match m with inl e => inl e | inr a => f a end.
#[export] Instance res_fmap {E} : FMap (res E) := λ A B f m,
  match m with inl e => inl e | inr a => inr (f a) end.

(** A [for] loop with an early return. *)
Fixpoint res_fold {E A B} (f : B → A → res E B) (b : B) (l : list A) : res E B :=
  match l with
  | [] => inr b
  | a :: l => match f b a with inr b => res_fold f b l | inl e => inl e end
  end.

(** [PermissionScopeKey], [PermissionKey] and [ResourceSelectorKey] have the
    variants of [PermissionScope], [Permission] and [ResourceSelector]; only
    their derived orders differ, which no result depends on. *)
Record PrincipalKey := { key_issuer : string; key_subject : string }.
#[export] Instance PrincipalKey_eq_dec : EqDecision PrincipalKey.
Proof. solve_decision. Defined.
#[export] Instance PrincipalKey_countable : Countable PrincipalKey.
Proof.
  refine (inj_countable' (λ p, (key_issuer p, key_subject p))
            (λ p, {| key_issuer := p.1; key_subject := p.2 |}) _).
  by intros [].
Defined.

#[export] Instance PermissionScope_countable : Countable PermissionScope.
Proof.
  refine (inj_countable'
    (λ s, match s with
          | ScopeService => inl false
          | DeploymentLocalAllWorkspaces => inl true
          | ScopeWorkspace w => inr w
          end)
    (λ c, match c with
          | inl false => ScopeService
          | inl true => DeploymentLocalAllWorkspaces
          | inr w => ScopeWorkspace w
          end) _).
  by intros [].
Defined.

#[export] Instance ResourceSelector_countable : Countable ResourceSelector.
Proof.
  refine (inj_countable'
    (λ s, match s with
          | SelService => (0, "") | SelWorkspace => (1, "") | SelNodeModel m => (2, m)
          | SelAnyNodeModel => (3, "") | SelEdgeModel m => (4, m) | SelAnyEdgeModel => (5, "")
          | SelOperationFamily => (6, "") | SelIndexCatalog => (7, "")
          | SelWorkspaceArtifact => (8, "") | SelReservedAdmin => (9, "")
          end)
    (λ c, match c.1 with
          | 0 => SelService | 1 => SelWorkspace | 2 => SelNodeModel c.2 | 3 => SelAnyNodeModel
          | 4 => SelEdgeModel c.2 | 5 => SelAnyEdgeModel | 6 => SelOperationFamily
          | 7 => SelIndexCatalog | 8 => SelWorkspaceArtifact | _ => SelReservedAdmin
          end) _).
  by intros [].
Defined.

#[export] Instance Permission_countable : Countable Permission.
Proof.
  refine (inj_countable' (λ p, (perm_action p, perm_resource p))
            (λ p, {| perm_action := p.1; perm_resource := p.2 |}) _).
  by intros [].
Defined.

Definition principal_key (principal : Principal) : PrincipalKey :=
  {| key_issuer := issuer principal; key_subject := subject principal |}.

Definition scope_key (scope : PermissionScope) : res PermissionTableConfigError PermissionScope :=
  match scope with
  | ScopeWorkspace workspace => if str_is_empty workspace then inl EmptyScope else inr scope
  | _ => inr scope
  end.

Definition resource_selector_key (selector : ResourceSelector)
    : res PermissionTableConfigError ResourceSelector :=
  match selector with
  | SelNodeModel model | SelEdgeModel model =>
      if str_is_empty model then inl EmptyResourceSelector else inr selector
  | _ => inr selector
  end.

Definition permission_key (permission : Permission)
    : res PermissionTableConfigError Permission :=
  resource ← resource_selector_key (perm_resource permission);
  mret (M:=res _) {| perm_action := perm_action permission; perm_resource := resource |}.

(** [PermissionKey::from_operation] *)
Definition permission_of_operation (operation : SecurityOperation) : option Permission :=
  resource ←
    match res_kind (op_resource operation) with
    | KindService => Some SelService
    | KindWorkspace => Some SelWorkspace
    | KindNodeModel => SelNodeModel <$> res_model (op_resource operation)
    | KindEdgeModel => SelEdgeModel <$> res_model (op_resource operation)
    | KindOperationFamily => Some SelOperationFamily
    | KindIndexCatalog => Some SelIndexCatalog
    | KindWorkspaceArtifact => Some SelWorkspaceArtifact
    | KindReservedAdmin => Some SelReservedAdmin
    end;
  Some {| perm_action := op_action operation; perm_resource := resource |}.

(** [ResourceSelectorKey::matches] and [PermissionKey::matches] *)
Definition selector_matches (selector required : ResourceSelector) : bool :=
  match selector, required with
  | SelAnyNodeModel, SelNodeModel _ => true
  | SelAnyEdgeModel, SelEdgeModel _ => true
  | _, _ => bool_decide (selector = required)
  end.
Definition permission_matches (permission required : Permission) : bool :=
  bool_decide (perm_action permission = perm_action required)
  && selector_matches (perm_resource permission) (perm_resource required).

Record PermissionTablePolicy := {
  ptp_version : string;
  ptp_assignments : gmap (PrincipalKey * PermissionScope) (gset Permission);
}.

(** The loop bodies of [PermissionTablePolicy::new]. *)
Definition insert_permission (permissions : gset Permission) (permission : Permission)
    : res PermissionTableConfigError (gset Permission) :=
  key ← permission_key permission;
  mret (M:=res _) ({[key]} ∪ permissions).

Definition insert_assignment
    (assignments : gmap (PrincipalKey * PermissionScope) (gset Permission))
    (assignment : PermissionAssignment)
    : res PermissionTableConfigError (gmap (PrincipalKey * PermissionScope) (gset Permission)) :=
  if str_is_empty (issuer (pa_principal assignment)) || str_is_empty (subject (pa_principal assignment))
  then inl EmptyPrincipal
  else if bool_decide (pa_permissions assignment = [])
  then inl EmptyPermissionSet
  else
    scope ← scope_key (pa_scope assignment);
    let key := (principal_key (pa_principal assignment), scope) in
    permissions ← res_fold insert_permission ∅ (pa_permissions assignment);
    match assignments !! key with
    | Some _ => inl DuplicatePrincipalScope
    | None => mret (M:=res _) (<[key := permissions]> assignments)
    end.

(** [PermissionTablePolicy::new] *)
Definition policy_new (config : PermissionTableConfig)
    : res PermissionTableConfigError PermissionTablePolicy :=
  if str_is_empty (str_trim (ptc_version config)) then inl MissingPolicyVersion
  else
    assignments ← res_fold insert_assignment ∅ (ptc_assignments config);
    mret (M:=res _) {| ptp_version := ptc_version config; ptp_assignments := assignments |}.

Definition insert_role (roles : gmap string (list Permission)) (role : PermissionRole)
    : res PermissionTableConfigError (gmap string (list Permission)) :=
  if str_is_empty (role_name role) then inl EmptyRoleName
  else if bool_decide (role_permissions role = []) then inl EmptyPermissionSet
  else
    match roles !! role_name role with
    | Some _ => inl DuplicateRole
    | None => mret (M:=res _) (<[role_name role := role_permissions role]> roles)
    end.

Definition extend_with_role (roles : gmap string (list Permission)) (permissions : list Permission)
    (name : string) : res PermissionTableConfigError (list Permission) :=
  match roles !! name with
  | Some more => inr (permissions ++ more)%list
  | None => inl UnknownRole
  end.

Definition resolve_roles (roles : gmap string (list Permission))
    (assignment : RolePermissionAssignment)
    : res PermissionTableConfigError PermissionAssignment :=
  permissions ← res_fold (extend_with_role roles) (ra_permissions assignment) (ra_roles assignment);
  mret (M:=res _) {| pa_principal := ra_principal assignment; pa_scope := ra_scope assignment;
                     pa_permissions := permissions |}.

(** [PermissionTablePolicy::from_role_config] *)
Definition policy_from_role_config (config : RolePermissionTableConfig)
    : res PermissionTableConfigError PermissionTablePolicy :=
  roles ← res_fold insert_role ∅ (rtc_roles config);
  assignments ← mapM (resolve_roles roles) (rtc_assignments config);
  policy_new {| ptc_version := rtc_version config; ptc_assignments := assignments |}.

(** The keys [has_permission] looks under. *)
Definition scopes_of (operation : SecurityOperation) : list PermissionScope :=
  if decide (res_kind (op_resource operation) = KindService) then [ScopeService]
  else [ScopeWorkspace (res_workspace (op_resource operation)); DeploymentLocalAllWorkspaces].

Definition has_permission (policy : PermissionTablePolicy) (principal : PrincipalKey)
    (operation : SecurityOperation) (permission : Permission) : bool :=
  existsb (λ scope,
    match ptp_assignments policy !! (principal, scope) with
    | Some permissions => existsb (λ candidate, permission_matches candidate permission)
                            (elements permissions)
    | None => false
    end) (scopes_of operation).

(** The loop of [evaluate]: is every operation permitted? *)
Definition operation_permitted (policy : PermissionTablePolicy) (principal : PrincipalKey)
    (operation : SecurityOperation) : bool :=
  match permission_of_operation operation with
  | Some permission => has_permission policy principal operation permission
  | None => false
  end.

Fixpoint evaluate_operations (policy : PermissionTablePolicy) (principal : PrincipalKey)
    (operations : list SecurityOperation) : AuthorizationDecision :=
  match operations with
  | [] => Allow ExplicitPolicyAllow
  | operation :: operations =>
      if operation_permitted policy principal operation
      then evaluate_operations policy principal operations
      else Deny NoMatchingPermission
  end.

Definition table_evaluate (policy : PermissionTablePolicy) (context : SecurityRequestContext)
    : AuthorizationDecision :=
  match ctx_authenticated_principal context with
  | None => Deny NoMatchingPermission
  | Some principal =>
      evaluate_operations policy (principal_key principal) (ctx_operations context)
  end.

(** *** Policies *)

(** [dyn AuthorizationPolicy]; [None] is a [PolicyEvaluationError]. *)
Record AuthorizationPolicy := {
  ap_policy_version : option string;
  ap_evaluate : SecurityRequestContext → option AuthorizationDecision;
}.

Definition PermissionTable (policy : PermissionTablePolicy) : AuthorizationPolicy :=
  {| ap_policy_version := Some (ptp_version policy);
     ap_evaluate := λ context, Some (table_evaluate policy context) |}.
Definition AnonymousLocalPolicy : AuthorizationPolicy :=
  {| ap_policy_version := None; ap_evaluate := λ _, Some (Allow AnonymousLocalProfile) |}.
Definition DefaultDenyPolicy : AuthorizationPolicy :=
  {| ap_policy_version := None; ap_evaluate := λ _, Some (Deny NoMatchingPermission) |}.
Definition PolicyLoadFailurePolicy : AuthorizationPolicy :=
  {| ap_policy_version := None; ap_evaluate := λ _, None |}.

(** ** The operations a request needs *)

Definition operation (workspace : string) (action : SecurityAction) (kind : SecurityResourceKind)
    (model : option string) : SecurityOperation :=
  {| op_action := action;
     op_resource := {| res_workspace := workspace; res_kind := kind; res_model := model |} |}.

Definition service_security_operation (action : SecurityAction) : SecurityOperation :=
  operation "service" action KindService None.
Definition workspace_security_operation (action : SecurityAction) (workspace : string)
    : SecurityOperation :=
  operation workspace action KindWorkspace None.

Definition traversal_operations (workspace : string) (step : SvcTraversalStep)
    : list SecurityOperation :=
  [operation workspace ActEdgeRead KindEdgeModel (st_edge_model step);
   operation workspace ActNodeRead KindNodeModel (Some (st_end_model step))].

Definition node_find_security_operations (root_model : string) (traversals : list SvcTraversalStep)
    (workspace : string) (force_traverse : bool) : list SecurityOperation :=
  ([operation workspace ActNodeRead KindNodeModel (Some root_model)]
   ++ (if force_traverse || negb (bool_decide (traversals = []))
       then [operation workspace ActTraverse KindOperationFamily None] else [])
   ++ concat (map (traversal_operations workspace) traversals))%list.

Definition query_security_operations (query : SvcQuery) (workspace : string)
    (wrapper_action : SecurityAction) : list SecurityOperation :=
  operation workspace wrapper_action KindOperationFamily None
  :: match query with
     | SvcNodeFind r =>
         node_find_security_operations (snf_model r) (snf_traversals r) workspace false
     | SvcEdgeFind r => [operation workspace ActEdgeRead KindEdgeModel (Some (sef_model r))]
     | SvcTraversal r =>
         node_find_security_operations (snf_model r) (snf_traversals r) workspace true
     end.

Definition batch_security_operation (workspace : string) (op : BatchOperation)
    : SecurityOperation :=
  match op with
  | OpSchemaDefineNode r => operation workspace SchemaDefine KindNodeModel (Some (sdn_name r))
  | OpSchemaDefineEdge r => operation workspace SchemaDefine KindEdgeModel (Some (sde_name r))
  | OpNodeCreate model _ _ => operation workspace ActNodeCreate KindNodeModel (Some model)
  | OpNodeUpdate r => operation workspace ActNodeUpdate KindNodeModel (Some (snu_model r))
  | OpNodeDelete r => operation workspace ActNodeDelete KindNodeModel (Some (snd_model r))
  | OpEdgeCreate model _ _ _ => operation workspace ActEdgeCreate KindEdgeModel (Some model)
  | OpEdgeUpdate r => operation workspace ActEdgeUpdate KindEdgeModel (Some (seu_model r))
  | OpEdgeDelete r => operation workspace ActEdgeDelete KindEdgeModel (Some (sed_model r))
  end.

Definition SECURITY_AUDIT_MAX_OPERATIONS : nat := 64.
Definition SECURITY_AUDIT_MAX_FIELD_BYTES : nat := 128.

(** The loop over a batch: each operation once, in the order they are first
    seen; it stops when there are more than the audit takes. *)
Fixpoint dedup_operations (workspace : string) (ops : list BatchOperation)
    (operations : list SecurityOperation) : list SecurityOperation :=
  match ops with
  | [] => operations
  | op :: ops =>
      let operation := batch_security_operation workspace op in
      if bool_decide (operation ∈ operations) then dedup_operations workspace ops operations
      else
        let operations := (operations ++ [operation])%list in
        if (SECURITY_AUDIT_MAX_OPERATIONS <? length operations)%nat then operations
        else dedup_operations workspace ops operations
  end.

Definition security_operations (request : ServiceRequest) (workspace : string)
    : list SecurityOperation :=
  let operation := operation workspace in
  match request with
  | SrvDefineNode r => [operation SchemaDefine KindNodeModel (Some (sdn_name r))]
  | SrvDefineEdge r => [operation SchemaDefine KindEdgeModel (Some (sde_name r))]
  | SrvSchemaList => [operation SchemaInspect KindWorkspace None]
  | SrvCreateNode r => [operation ActNodeCreate KindNodeModel (Some (snc_model r))]
  | SrvUpdateNode r => [operation ActNodeUpdate KindNodeModel (Some (snu_model r))]
  | SrvDeleteNode r => [operation ActNodeDelete KindNodeModel (Some (snd_model r))]
  | SrvFindNodes r =>
      node_find_security_operations (snf_model r) (snf_traversals r) workspace false
  | SrvCreateEdge r => [operation ActEdgeCreate KindEdgeModel (Some (sec_model r))]
  | SrvUpdateEdge r => [operation ActEdgeUpdate KindEdgeModel (Some (seu_model r))]
  | SrvDeleteEdge r => [operation ActEdgeDelete KindEdgeModel (Some (sed_model r))]
  | SrvFindEdges r => [operation ActEdgeRead KindEdgeModel (Some (sef_model r))]
  | SrvQuery query => query_security_operations query workspace ActQuery
  | SrvExplain query => query_security_operations query workspace ActExplain
  | SrvProfile query => query_security_operations query workspace ActProfile
  | SrvApplyBatch batch =>
      dedup_operations workspace (sb_ops batch) [operation BatchApply KindOperationFamily None]
  | SrvIndexList => [operation IndexInspect KindIndexCatalog None]
  | SrvSummary => [operation WorkspaceInspect KindWorkspace None]
  | SrvSave _ _ => [operation WorkspaceSave KindWorkspaceArtifact None]
  | SrvLoad _ _ => [operation WorkspaceLoad KindWorkspaceArtifact None]
  | SrvExport _ => [operation WorkspaceExport KindWorkspaceArtifact None]
  | SrvImport _ _ => [operation WorkspaceImport KindWorkspaceArtifact None]
  end.

Definition query_traversals (query : SvcQuery) : option (list SvcTraversalStep) :=
  match query with
  | SvcNodeFind r | SvcTraversal r => Some (snf_traversals r)
  | SvcEdgeFind _ => None
  end.

(** An [Err] is the scope error of a traversal without an edge model. *)
Definition validate_secured_operation_scope (request : ServiceRequest) : bool :=
  let traversals :=
    match request with
    | SrvFindNodes r => Some (snf_traversals r)
    | SrvQuery query | SrvExplain query | SrvProfile query => query_traversals query
    | _ => None
    end in
  match traversals with
  | Some steps => forallb (λ step, bool_decide (is_Some (st_edge_model step))) steps
  | None => true
  end.

Definition enforce_security_limits (request : ServiceRequest) (max_batch_operations : N) : bool :=
  match request with
  | SrvApplyBatch batch => (N.of_nat (length (sb_ops batch)) <=? max_batch_operations)%N
  | _ => true
  end.

(** *** Admission to the audit *)

Inductive SecurityEnforcementError :=
  | AnonymousLocalRemotePeer | InvalidActorAssertion | AuthenticationFailed | MissingPrincipal
  | PolicyEvaluationFailed | Denied | AuditClassificationOverflow | AuditEventTooLarge
  | AuditSinkUnavailable.

Record SecurityAuditOperation := {
  ao_action : SecurityAction;
  ao_resource_kind : SecurityResourceKind;
  ao_workspace : string;
  ao_model : option string;
}.

Definition bounded_audit_field (value : string) : res SecurityEnforcementError string :=
  if (SECURITY_AUDIT_MAX_FIELD_BYTES <? String.length value)%nat
  then inl AuditClassificationOverflow
  else inr value.

Definition transpose {E A} (o : option (res E A)) : res E (option A) :=
  match o with
  | None => inr None
  | Some (inl e) => inl e
  | Some (inr a) => inr (Some a)
  end.

Definition audit_operation (operation : SecurityOperation)
    : res SecurityEnforcementError SecurityAuditOperation :=
  workspace ← bounded_audit_field (res_workspace (op_resource operation));
  model ← transpose (bounded_audit_field <$> res_model (op_resource operation));
  mret (M:=res _) {| ao_action := op_action operation;
    ao_resource_kind := res_kind (op_resource operation); ao_workspace := workspace;
    ao_model := model |}.

Definition audit_operations (operations : list SecurityOperation)
    : res SecurityEnforcementError (list SecurityAuditOperation) :=
  if (SECURITY_AUDIT_MAX_OPERATIONS <? length operations)%nat
  then inl AuditClassificationOverflow
  else mapM audit_operation operations.

(** ** Certificates *)

Definition MTLS_CERTIFICATE_AUTHENTICATION_METHOD : string := "mtls-certificate".

(** [ring::digest], which this development does not look into. *)
Class Digest := { sha256 : string → string }.
Class DigestLaws `{Digest} : Prop := { sha256_length s : String.length (sha256 s) = 32%nat }.

(** [CertificateFingerprint]: 32 bytes. *)
Abbreviation CertificateFingerprint := string (only parsing).

Definition hex_nibble (byte : ascii) : option Z :=
  if byte_in 48 57 byte then Some (byte_val byte - 48)%Z
  else if byte_in 97 102 byte then Some (byte_val byte - 97 + 10)%Z
  else if byte_in 65 70 byte then Some (byte_val byte - 65 + 10)%Z
  else None.

(** The loop over [chunks_exact(2)]; [(high << 4) | low]. *)
Fixpoint hex_bytes (s : string) : option string :=
  match s with
  | String h (String l s) =>
      high ← hex_nibble h;
      low ← hex_nibble l;
      rest ← hex_bytes s;
      Some (String (ascii_of_N (Z.to_N (Z.lor (Z.shiftl high 4) low))) rest)
  | _ => Some ""
  end.

(** [None] is a [CertificatePrincipalMappingConfigError], in what follows too. *)
Definition fingerprint_from_hex (input : string) : option CertificateFingerprint :=
  let input := str_trim input in
  if negb (String.length input =? 64)%nat then None else hex_bytes input.

Definition hex_digit (d : Z) : ascii := ascii_of_N (Z.to_N (if (d <? 10)%Z then 48 + d else 87 + d)).
Fixpoint fingerprint_as_hex (fingerprint : CertificateFingerprint) : string :=
  match fingerprint with
  | String c s =>
      String (hex_digit (byte_val c / 16)) (String (hex_digit (byte_val c `mod` 16))
        (fingerprint_as_hex s))
  | EmptyString => EmptyString
  end.

Record CertificatePrincipalMapping := {
  cm_fingerprint : CertificateFingerprint;
  cm_principal : Principal;
}.

Definition insert_mapping (validated : gmap string Principal) (mapping : CertificatePrincipalMapping)
    : option (gmap string Principal) :=
  if str_is_empty (issuer (cm_principal mapping)) || str_is_empty (subject (cm_principal mapping))
  then None
  else
    match validated !! cm_fingerprint mapping with
    | Some _ => None
    | None => Some (<[cm_fingerprint mapping := cm_principal mapping]> validated)
    end.

Fixpoint insert_mappings (validated : gmap string Principal)
    (mappings : list CertificatePrincipalMapping) : option (gmap string Principal) :=
  match mappings with
  | [] => Some validated
  | mapping :: mappings =>
      validated ← insert_mapping validated mapping; insert_mappings validated mappings
  end.
Definition validated_certificate_mappings (mappings : list CertificatePrincipalMapping)
    : option (gmap string Principal) := insert_mappings ∅ mappings.

(** [CertificatePrincipalAuthenticator::authenticate] under the active mappings;
    [None] is an [AuthenticationError]. *)
Definition certificate_authenticate `{Digest} (mappings : gmap string Principal)
    (peer : TransportPeer) : option Principal :=
  leaf_der ← client_certificate_leaf_der peer;
  principal ← mappings !! sha256 leaf_der;
  Some {| issuer := issuer principal; subject := subject principal;
          authentication_method := MTLS_CERTIFICATE_AUTHENTICATION_METHOD |}.

(** [replace_mappings]: the active mappings change only if the new ones are valid. *)
Definition replace_mappings (active : gmap string Principal)
    (mappings : list CertificatePrincipalMapping) : option unit * gmap string Principal :=
  match validated_certificate_mappings mappings with
  | Some validated => (Some tt, validated)
  | None => (None, active)
  end.

Definition pem_begin : string := "-----BEGIN CERTIFICATE-----".
Definition pem_end : string := "-----END CERTIFICATE-----".

(** [str::lines]: at newlines, without a carriage return before one; a last
    line that is empty is none. *)
Definition strip_cr (line : string) : string := default line (str_strip_suffix (bytes [13%Z]) line).
Definition str_lines (s : string) : list string :=
  let parts := split_char "010" s in
  match last parts with
  | Some "" => map strip_cr (removelast parts)
  | Some l => (map strip_cr (removelast parts) ++ [l])%list
  | None => []
  end.

(** The loop over the lines of a PEM text. *)
Fixpoint pem_body `{Formats} (lines : list string) (in_body : bool) (body : string)
    : option string :=
  match lines with
  | [] => None
  | line :: lines =>
      let trimmed := str_trim line in
      if String.eqb trimmed pem_begin then pem_body lines true body
      else if String.eqb trimmed pem_end then base64_decode body
      else pem_body lines in_body (if in_body then body +:+ trimmed else body)
  end.

Definition certificate_fingerprint_from_pem_or_der `{Formats} `{Digest} (input : string)
    : option CertificateFingerprint :=
  if str_starts_with pem_begin input then
    if utf8_valid input then sha256 <$> pem_body (str_lines input) false "" else None
  else Some (sha256 input).

(** ** The configuration file

    What [serde_json] reads from the file is the argument of
    [load_service_security_config]. *)

Record PrincipalFile := { pf_issuer : string; pf_subject : string }.
Record ScopeFile := { scf_kind : string; scf_workspace : option string }.
Record ResourceFile := { rf_kind : string; rf_model : option string }.
Record PermissionFile := { pef_action : string; pef_resource : ResourceFile }.
Record PermissionAssignmentFile := {
  paf_principal : PrincipalFile;
  paf_scope : ScopeFile;
  paf_permissions : list PermissionFile;
}.
Record CertificatePrincipalMappingFile := {
  cf_fingerprint_sha256 : string;
  cf_principal : PrincipalFile;
}.
Record PermissionTableFile := {
  ptf_version : string;
  ptf_assignments : list PermissionAssignmentFile;
}.
Record ServiceSecurityConfigFile := {
  scf_certificate_mappings : list CertificatePrincipalMappingFile;
  scf_permission_table : PermissionTableFile;
}.

Inductive ServiceSecurityConfigFileError :=
  | CertificateMappingError
  | PermissionTableError (error : PermissionTableConfigError)
  | UnknownAction (action : string)
  | UnknownScope (scope : string)
  | UnknownResource (resource : string)
  | MissingWorkspaceScopeValue
  | MissingModelResourceValue.

Definition or_error {E A} (o : option A) (e : E) : res E A :=
  match o with Some a => inr a | None => inl e end.

Definition principal_from_file (principal : PrincipalFile) : Principal :=
  {| issuer := pf_issuer principal; subject := pf_subject principal;
     authentication_method := MTLS_CERTIFICATE_AUTHENTICATION_METHOD |}.

Definition security_action_from_str (action : string)
    : res ServiceSecurityConfigFileError SecurityAction :=
  or_error (action_named action) (UnknownAction action).

Definition resource_selector_from_file (resource : ResourceFile)
    : res ServiceSecurityConfigFileError ResourceSelector :=
  let kind := rf_kind resource in
  if String.eqb kind "service" then inr SelService
  else if String.eqb kind "workspace" then inr SelWorkspace
  else if String.eqb kind "node_model" then
    SelNodeModel <$> or_error (rf_model resource) MissingModelResourceValue
  else if String.eqb kind "any_node_model" then inr SelAnyNodeModel
  else if String.eqb kind "edge_model" then
    SelEdgeModel <$> or_error (rf_model resource) MissingModelResourceValue
  else if String.eqb kind "any_edge_model" then inr SelAnyEdgeModel
  else if String.eqb kind "operation_family" then inr SelOperationFamily
  else if String.eqb kind "index_catalog" then inr SelIndexCatalog
  else if String.eqb kind "workspace_artifact" then inr SelWorkspaceArtifact
  else if String.eqb kind "reserved_admin" then inr SelReservedAdmin
  else inl (UnknownResource kind).

Definition permission_scope_from_file (scope : ScopeFile)
    : res ServiceSecurityConfigFileError PermissionScope :=
  let kind := scf_kind scope in
  if String.eqb kind "service" then inr ScopeService
  else if String.eqb kind "workspace" then
    ScopeWorkspace <$> or_error (scf_workspace scope) MissingWorkspaceScopeValue
  else if String.eqb kind "deployment_local_all_workspaces" then inr DeploymentLocalAllWorkspaces
  else inl (UnknownScope kind).

Definition permission_from_file (permission : PermissionFile)
    : res ServiceSecurityConfigFileError Permission :=
  action ← security_action_from_str (pef_action permission);
  resource ← resource_selector_from_file (pef_resource permission);
  mret (M:=res _) {| perm_action := action; perm_resource := resource |}.

Definition permission_assignment_from_file (assignment : PermissionAssignmentFile)
    : res ServiceSecurityConfigFileError PermissionAssignment :=
  scope ← permission_scope_from_file (paf_scope assignment);
  permissions ← mapM permission_from_file (paf_permissions assignment);
  mret (M:=res _) {| pa_principal := principal_from_file (paf_principal assignment);
                     pa_scope := scope; pa_permissions := permissions |}.

Definition mapping_from_file (mapping : CertificatePrincipalMappingFile)
    : res ServiceSecurityConfigFileError CertificatePrincipalMapping :=
  fingerprint ← or_error (fingerprint_from_hex (cf_fingerprint_sha256 mapping))
                         CertificateMappingError;
  mret (M:=res _) {| cm_fingerprint := fingerprint;
                     cm_principal := principal_from_file (cf_principal mapping) |}.

Definition load_service_security_config (file : ServiceSecurityConfigFile)
    : res ServiceSecurityConfigFileError
          (list CertificatePrincipalMapping * PermissionTableConfig) :=
  certificate_mappings ← mapM mapping_from_file (scf_certificate_mappings file);
  assignments ← mapM permission_assignment_from_file (ptf_assignments (scf_permission_table file));
  mret (M:=res _) (certificate_mappings,
    {| ptc_version := ptf_version (scf_permission_table file); ptc_assignments := assignments |}).

(** The mappings and the table [secured_from_config_file] configures. *)
Definition secured_from_config (file : ServiceSecurityConfigFile)
    : res ServiceSecurityConfigFileError (gmap string Principal * PermissionTablePolicy) :=
  config ← load_service_security_config file;
  mappings ← or_error (validated_certificate_mappings config.1) CertificateMappingError;
  policy ← match policy_new config.2 with
           | inr policy => inr policy
           | inl e => inl (PermissionTableError e)
           end;
  mret (M:=res _) (mappings, policy).

(** ** The table decides as it is written *)

Lemma res_bind_inr {E A B} (m : res E A) (f : A → res E B) b :
  (m ≫= f) = inr b ↔ ∃ a, m = inr a ∧ f a = inr b.
Proof. destruct m; cbn; naive_solver. Qed.

Lemma res_mapM_inr {E A B} (f : A → res E B) l k :
  mapM f l = inr k ↔ Forall2 (λ x y, f x = inr y) l k.
Proof.
  revert k. induction l as [|x l IH]; intros k; cbn.
  - split; [intros [= <-]; constructor|inversion 1; done].
  - split.
    + intros (y & Hy & H)%res_bind_inr. apply res_bind_inr in H as (k' & Hk & [= <-]).
      constructor; [done|]. by apply IH.
    + inversion 1 as [|? y ? k' Hxy Hk]; subst. rewrite Hxy. cbn. apply IH in Hk. by rewrite Hk.
Qed.

(** Opens every successful step of a fallible computation of this file. *)
Ltac inv_inr :=
  repeat match goal with
  | H : inr _ = inr _ |- _ => injection H as H
  | H : inl _ = inr _ |- _ => discriminate H
  | H : mbind _ _ = inr _ |- _ => apply res_bind_inr in H as (? & ? & H)
  end; subst.

Definition granted (assignments : list PermissionAssignment) (principal : Principal)
    (operation : SecurityOperation) : Prop :=
  ∃ a p required, a ∈ assignments ∧ p ∈ pa_permissions a ∧
    principal_key (pa_principal a) = principal_key principal ∧
    pa_scope a ∈ scopes_of operation ∧
    permission_of_operation operation = Some required ∧ permission_matches p required = true.

Lemma resource_selector_key_same selector key : resource_selector_key selector = inr key → key = selector.
Proof. destruct selector; cbn; repeat case_match; by intros [= <-]. Qed.

Lemma permission_key_same p q : permission_key p = inr q → q = p.
Proof.
  unfold permission_key. intros (r & Hr%resource_selector_key_same & [= <-])%res_bind_inr.
  subst r. by destruct p.
Qed.

Lemma insert_permissions_all l s s' :
  res_fold insert_permission s l = inr s' → s' = s ∪ list_to_set l.
Proof.
  revert s. induction l as [|p l IH]; intros s; cbn [res_fold].
  - intros [= <-]. cbn. by rewrite (right_id_L ∅ (∪)).
  - destruct (insert_permission s p) as [e|t] eqn:Ht; [done|]. intros Hf. apply IH in Hf as ->.
    unfold insert_permission in Ht. apply res_bind_inr in Ht as (q & Hq & [= <-]).
    apply permission_key_same in Hq as ->. cbn. set_solver.
Qed.

Lemma scope_key_same scope key : scope_key scope = inr key → key = scope.
Proof. destruct scope; cbn; repeat case_match; by intros [= <-]. Qed.

Lemma insert_assignment_eq m a m' :
  insert_assignment m a = inr m' →
  m !! (principal_key (pa_principal a), pa_scope a) = None ∧
  m' = <[(principal_key (pa_principal a), pa_scope a) := list_to_set (pa_permissions a)]> m.
Proof.
  unfold insert_assignment. case_match; [done|]. case_bool_decide; [done|]. intros Hm.
  apply res_bind_inr in Hm as (scope & Hs%scope_key_same & Hm). subst scope.
  apply res_bind_inr in Hm as (ps & Hps%insert_permissions_all & Hm). rewrite (left_id_L ∅ (∪)) in Hps.
  subst ps. destruct (m !! _) eqn:Hk; [done|]. by injection Hm as <-.
Qed.

Lemma insert_assignments_lookup l m m' key ps :
  res_fold insert_assignment m l = inr m' →
  m' !! key = Some ps ↔ m !! key = Some ps ∨
    ∃ a, a ∈ l ∧ (principal_key (pa_principal a), pa_scope a) = key ∧
         ps = list_to_set (pa_permissions a).
Proof.
  revert m. induction l as [|a l IH]; intros m; cbn [res_fold].
  { intros [= <-]. split; [by left|]. intros [?|(a & Ha & _)]; [done|by apply elem_of_nil in Ha]. }
  destruct (insert_assignment m a) as [e|t] eqn:Ht; [done|]. intros Hf. rewrite (IH t Hf).
  apply insert_assignment_eq in Ht as [Hnone ->].
  set (k := (principal_key (pa_principal a), pa_scope a)) in *.
  destruct (decide (k = key)) as [<-|Hne].
  - rewrite lookup_insert_eq. split.
    + intros [[= <-]|(b & Hb & Hk & ->)]; right; [exists a|exists b]; split_and!; try done;
        [by left|by right].
    + rewrite Hnone. intros [?|(b & Hb & Hk & ->)]; [done|]. apply elem_of_cons in Hb as [->|Hb];
        [by left|right; by exists b].
  - rewrite lookup_insert_ne by done. split.
    + intros [?|(b & Hb & ? & ?)]; [by left|right; exists b]. split_and!; try done. by right.
    + intros [?|(b & Hb & Hk & ?)]; [by left|right]. apply elem_of_cons in Hb as [->|Hb]; [done|].
      by exists b.
Qed.

Lemma operation_permitted_iff config policy principal operation :
  policy_new config = inr policy →
  operation_permitted policy (principal_key principal) operation = true ↔
  granted (ptc_assignments config) principal operation.
Proof.
  unfold policy_new. case_match; [done|]. intros Hp. apply res_bind_inr in Hp as (m & Hm & [= <-]).
  unfold operation_permitted, granted, has_permission. cbn [ptp_assignments].
  destruct (permission_of_operation operation) as [q|]; [|split; [done|by intros (? & ? & ? & _ & _ & _ & _ & ? & _)]].
  rewrite existsb_exists. split.
  - intros (scope & Hscope%list_elem_of_In & Hex). destruct (m !! _) as [ps|] eqn:Hk; [|done].
    rewrite (insert_assignments_lookup _ _ _ _ _ Hm), lookup_empty in Hk.
    destruct Hk as [?|(a & Ha & [= Hi Hs Hsc] & ->)]; [done|].
    apply existsb_exists in Hex as (p & Hp%list_elem_of_In & Hmatch).
    rewrite elem_of_elements, elem_of_list_to_set in Hp. exists a, p, q. subst scope.
    split_and!; try done. unfold principal_key. by rewrite Hi, Hs.
  - intros (a & p & q' & Ha & Hp & Hk & Hscope & [= <-] & Hmatch). exists (pa_scope a).
    split; [by apply list_elem_of_In|].
    assert (m !! (principal_key principal, pa_scope a) = Some (list_to_set (pa_permissions a))) as ->.
    { rewrite (insert_assignments_lookup _ _ _ _ _ Hm). right. exists a. by rewrite Hk. }
    apply existsb_exists. exists p. split; [|done]. apply list_elem_of_In.
    by rewrite elem_of_elements, elem_of_list_to_set.
Qed.

Lemma evaluate_operations_cases policy principal ops :
  evaluate_operations policy principal ops
  = if forallb (operation_permitted policy principal) ops then Allow ExplicitPolicyAllow
    else Deny NoMatchingPermission.
Proof. induction ops as [|op ops IH]; cbn; [done|]. by destruct (operation_permitted policy principal op). Qed.

Lemma table_allows config policy context :
  policy_new config = inr policy →
  table_evaluate policy context = Allow ExplicitPolicyAllow ↔
  ∃ principal, ctx_authenticated_principal context = Some principal ∧
    ∀ op, op ∈ ctx_operations context → granted (ptc_assignments config) principal op.
Proof.
  intros Hp. unfold table_evaluate.
  destruct (ctx_authenticated_principal context) as [principal|]; [|split; [done|by intros (? & ? & _)]].
  rewrite evaluate_operations_cases. destruct (forallb _ _) eqn:Hall.
  - split; [|done]. intros _. exists principal. split; [done|]. intros op Hop.
    rewrite forallb_forall in Hall. apply (operation_permitted_iff config policy); [done|].
    by apply Hall, list_elem_of_In.
  - split; [done|]. intros (principal' & [= <-] & Hgr). exfalso.
    apply eq_true_false_abs with (2 := Hall). apply forallb_forall. intros op Hop%list_elem_of_In.
    apply (operation_permitted_iff config policy); [done|]. by apply Hgr.
Qed.

Lemma table_two_answers policy context :
  table_evaluate policy context = Allow ExplicitPolicyAllow ∨
  table_evaluate policy context = Deny NoMatchingPermission.
Proof.
  unfold table_evaluate. destruct (ctx_authenticated_principal context); [|by right].
  rewrite evaluate_operations_cases. case_match; [by left|by right].
Qed.

(** a table of permissions allows a request exactly when there is an
    authenticated principal and for every operation of the request some row of
    the table, for that issuer and subject and a scope of the operation, has a
    permission that matches it; it denies every other. *)
Theorem table_decides config policy context :
  policy_new config = inr policy →
  (table_evaluate policy context = Allow ExplicitPolicyAllow ↔
   ∃ principal, ctx_authenticated_principal context = Some principal ∧
     ∀ op, op ∈ ctx_operations context → granted (ptc_assignments config) principal op) ∧
  (table_evaluate policy context ≠ Allow ExplicitPolicyAllow →
   table_evaluate policy context = Deny NoMatchingPermission).
Proof.
  intros Hp. split; [by apply table_allows|]. by destruct (table_two_answers policy context).
Qed.

(** ** Roles *)

Definition granted_by_roles (config : RolePermissionTableConfig) (principal : Principal)
    (operation : SecurityOperation) : Prop :=
  ∃ a p required, a ∈ rtc_assignments config ∧
    (p ∈ ra_permissions a ∨
     ∃ role, role ∈ rtc_roles config ∧ role_name role ∈ ra_roles a ∧ p ∈ role_permissions role) ∧
    principal_key (ra_principal a) = principal_key principal ∧
    ra_scope a ∈ scopes_of operation ∧
    permission_of_operation operation = Some required ∧ permission_matches p required = true.

Lemma insert_role_eq m r m' :
  insert_role m r = inr m' →
  m !! role_name r = None ∧ m' = <[role_name r := role_permissions r]> m.
Proof.
  unfold insert_role. case_match; [done|]. case_bool_decide; [done|].
  destruct (m !! role_name r); [done|]. by intros [= <-].
Qed.

Lemma insert_roles_lookup l m m' name ps :
  res_fold insert_role m l = inr m' →
  m' !! name = Some ps ↔ m !! name = Some ps ∨
    ∃ role, role ∈ l ∧ role_name role = name ∧ role_permissions role = ps.
Proof.
  revert m. induction l as [|r l IH]; intros m; cbn [res_fold].
  { intros [= <-]. split; [by left|]. intros [?|(a & Ha & _)]; [done|by apply elem_of_nil in Ha]. }
  destruct (insert_role m r) as [e|t] eqn:Ht; [done|]. intros Hf. rewrite (IH t Hf).
  apply insert_role_eq in Ht as [Hnone ->].
  destruct (decide (role_name r = name)) as [<-|Hne].
  - rewrite lookup_insert_eq, Hnone. split.
    + intros [[= <-]|(b & Hb & Hk & ?)]; right; [exists r|exists b]; split_and!; try done;
        [by left|by right].
    + intros [?|(b & Hb & Hk & <-)]; [done|]. apply elem_of_cons in Hb as [->|Hb];
        [by left|right; by exists b].
  - rewrite lookup_insert_ne by done. split.
    + intros [?|(b & Hb & ? & ?)]; [by left|right; exists b]. split_and!; try done. by right.
    + intros [?|(b & Hb & Hk & ?)]; [by left|right]. apply elem_of_cons in Hb as [->|Hb]; [done|].
      by exists b.
Qed.

Lemma extend_with_roles_elem roles names ps ps' p :
  res_fold (extend_with_role roles) ps names = inr ps' →
  p ∈ ps' ↔ p ∈ ps ∨ ∃ name more, name ∈ names ∧ roles !! name = Some more ∧ p ∈ more.
Proof.
  revert ps. induction names as [|name names IH]; intros ps; cbn [res_fold].
  { intros [= <-]. split; [by left|]. intros [?|(? & ? & Hn & _)]; [done|by apply elem_of_nil in Hn]. }
  unfold extend_with_role at 1. destruct (roles !! name) as [more|] eqn:Hr; [|done]. intros Hf.
  rewrite (IH _ Hf), elem_of_app. split.
  - intros [[?|?]|(n & m & Hn & Hm & ?)]; [by left| |].
    + right. exists name, more. split_and!; try done. by left.
    + right. exists n, m. split_and!; try done. by right.
  - intros [?|(n & m & Hn & Hm & ?)]; [by left; left|]. apply elem_of_cons in Hn as [->|Hn].
    + left. right. by simplify_eq.
    + right. by exists n, m.
Qed.

Lemma roles_granted config policy :
  policy_from_role_config config = inr policy →
  ∃ table, policy_new table = inr policy ∧ ptc_version table = rtc_version config ∧
    ∀ principal op, granted (ptc_assignments table) principal op ↔ granted_by_roles config principal op.
Proof.
  unfold policy_from_role_config. intros (roles & Hroles & H)%res_bind_inr.
  apply res_bind_inr in H as (assignments & Ha & Hp). eexists. split; [exact Hp|]. split; [done|].
  intros principal op. cbn [ptc_assignments]. clear Hp. apply res_mapM_inr in Ha.
  assert (∀ a b, resolve_roles roles a = inr b →
    pa_principal b = ra_principal a ∧ pa_scope b = ra_scope a ∧
    ∀ p, p ∈ pa_permissions b ↔ p ∈ ra_permissions a ∨
      ∃ role, role ∈ rtc_roles config ∧ role_name role ∈ ra_roles a ∧ p ∈ role_permissions role) as Hres.
  { intros a b (ps & Hps & [= <-])%res_bind_inr. split; [done|]. split; [done|]. intros p. cbn.
    rewrite (extend_with_roles_elem _ _ _ _ _ Hps). f_equiv. split.
    - intros (n & more & Hn & Hm & Hpm).
      rewrite (insert_roles_lookup _ _ _ _ _ Hroles), lookup_empty in Hm.
      destruct Hm as [?|(role & Hrole & <- & <-)]; [done|]. by exists role.
    - intros (role & Hrole & Hn & Hpm). exists (role_name role), (role_permissions role).
      split_and!; try done. rewrite (insert_roles_lookup _ _ _ _ _ Hroles). right. by exists role. }
  split.
  - intros (b & p & q & Hb & Hpb & Hk & Hs & Hq & Hm).
    apply list_elem_of_lookup in Hb as [i Hi]. eapply Forall2_lookup_r in Ha as (a & Hai & Hab); [|exact Hi].
    destruct (Hres _ _ Hab) as (Hpr & Hsc & Hps). exists a, p, q.
    split; [by eapply list_elem_of_lookup_2|]. rewrite <-Hps, <-Hpr, <-Hsc. done.
  - intros (a & p & q & Hin & Hpa & Hk & Hs & Hq & Hm).
    apply list_elem_of_lookup in Hin as [i Hi]. eapply Forall2_lookup_l in Ha as (b & Hbi & Hab); [|exact Hi].
    destruct (Hres _ _ Hab) as (Hpr & Hsc & Hps). exists b, p, q.
    split; [by eapply list_elem_of_lookup_2|]. rewrite Hps, Hpr, Hsc. done.
Qed.

(** ** A request needs what its parts need *)

(** Every operation of a request: a batch needs those of all its parts. *)
Definition required_operations (request : ServiceRequest) (workspace : string)
    : list SecurityOperation :=
  match request with
  | SrvApplyBatch batch =>
      operation workspace BatchApply KindOperationFamily None
      :: map (batch_security_operation workspace) (sb_ops batch)
  | request => security_operations request workspace
  end.

Lemma dedup_operations_elem workspace ops acc op :
  (length (dedup_operations workspace ops acc) <= SECURITY_AUDIT_MAX_OPERATIONS)%nat →
  op ∈ dedup_operations workspace ops acc ↔
  op ∈ acc ∨ op ∈ map (batch_security_operation workspace) ops.
Proof.
  revert acc. induction ops as [|b ops IH]; intros acc; cbn [dedup_operations map].
  { intros _. rewrite elem_of_nil. by split; [left|intros [?|?]]. }
  case_bool_decide as Hin.
  - intros Hlen. rewrite (IH acc Hlen), elem_of_cons. split; [by intros [?|?]; auto|].
    by intros [?|[->|?]]; auto.
  - case_match eqn:Hlt; intros Hlen.
    { apply Nat.ltb_lt in Hlt. lia. }
    rewrite (IH _ Hlen), elem_of_app, list_elem_of_singleton, elem_of_cons. tauto.
Qed.

Lemma dedup_operations_NoDup workspace ops acc :
  NoDup acc → NoDup (dedup_operations workspace ops acc).
Proof.
  revert acc. induction ops as [|b ops IH]; intros acc Hacc; cbn [dedup_operations]; [done|].
  case_bool_decide as Hin; [by apply IH|].
  assert (NoDup (acc ++ [batch_security_operation workspace b])) as Hnd.
  { apply NoDup_app. split; [done|]. split; [|apply NoDup_singleton].
    by intros x Hx ->%list_elem_of_singleton. }
  case_match; [done|by apply IH].
Qed.

(** The list never has more than one operation too many: the loop is bounded. *)
Lemma dedup_operations_length workspace ops acc :
  (length acc <= SECURITY_AUDIT_MAX_OPERATIONS)%nat →
  (length (dedup_operations workspace ops acc) <= S SECURITY_AUDIT_MAX_OPERATIONS)%nat.
Proof.
  revert acc. induction ops as [|b ops IH]; intros acc Hacc; cbn [dedup_operations]; [lia|].
  case_bool_decide; [by apply IH|]. rewrite length_app. cbn [length].
  case_match eqn:Hlt.
  - rewrite length_app. cbn [length]. lia.
  - apply IH. rewrite length_app. apply Nat.ltb_ge in Hlt. cbn [length] in *. lia.
Qed.

Lemma audited_length ops audited :
  audit_operations ops = inr audited → (length ops <= SECURITY_AUDIT_MAX_OPERATIONS)%nat.
Proof.
  unfold audit_operations. case_match eqn:Hlt; [done|]. intros _. by apply Nat.ltb_ge in Hlt.
Qed.

Lemma audited_complete request workspace audited op :
  audit_operations (security_operations request workspace) = inr audited →
  op ∈ security_operations request workspace ↔ op ∈ required_operations request workspace.
Proof.
  intros Hlen%audited_length. destruct request; try done. cbn in Hlen |- *.
  rewrite (dedup_operations_elem _ _ _ _ Hlen), list_elem_of_singleton. by rewrite elem_of_cons.
Qed.

(** A traversal over any edge is an operation on no model, which no permission
    matches. *)
Lemma implicit_edge_not_granted assignments principal workspace action :
  ¬ granted assignments principal (operation workspace action KindEdgeModel None).
Proof. by intros (a & p & q & _ & _ & _ & _ & Hq & _). Qed.

Lemma unscoped_needs_implicit_edge request workspace :
  validate_secured_operation_scope request = false →
  operation workspace ActEdgeRead KindEdgeModel None ∈ required_operations request workspace.
Proof.
  assert (∀ root steps force, forallb (λ step, bool_decide (is_Some (st_edge_model step))) steps = false →
    operation workspace ActEdgeRead KindEdgeModel None
      ∈ node_find_security_operations root steps workspace force) as Hfind.
  { intros root steps force Hf. unfold node_find_security_operations. rewrite !elem_of_app. right. right.
    induction steps as [|step steps IH]; [done|]. cbn [forallb] in Hf. cbn [map concat].
    rewrite elem_of_app. apply andb_false_iff in Hf as [Hs|Hf]; [left|right; by apply IH].
    apply bool_decide_eq_false in Hs. unfold traversal_operations.
    destruct (st_edge_model step); [by destruct Hs|by left]. }
  unfold validate_secured_operation_scope. destruct request as [| | | | | |r| | | | |q|q|q| | | | | | |]; try done.
  - apply Hfind.
  - destruct q; cbn; intros Hf; try done; right; by apply Hfind.
  - destruct q; cbn; intros Hf; try done; right; by apply Hfind.
  - destruct q; cbn; intros Hf; try done; right; by apply Hfind.
Qed.

(** C19: a request that the audit takes and the table allows has every operation
    it needs granted, each operation of a batch among them however often it is
    repeated; none of its traversals goes over an edge it does not name; and a
    batch that needs more operations than the audit holds is refused by the
    audit, so it is never partly classified. *)
Theorem admitted_request_is_granted config policy context request workspace audited :
  policy_new config = inr policy →
  ctx_operations context = security_operations request workspace →
  audit_operations (security_operations request workspace) = inr audited →
  table_evaluate policy context = Allow ExplicitPolicyAllow →
  ∃ principal, ctx_authenticated_principal context = Some principal ∧
    (∀ op, op ∈ required_operations request workspace →
       granted (ptc_assignments config) principal op) ∧
    validate_secured_operation_scope request = true.
Proof.
  intros Hp Hops Ha Hallow. apply (table_allows config policy context Hp) in Hallow as (principal & Hc & Hall).
  exists principal. split; [done|].
  assert (∀ op, op ∈ required_operations request workspace → granted (ptc_assignments config) principal op) as Hg.
  { intros op Hop. apply Hall. rewrite Hops. by eapply audited_complete. }
  split; [done|]. destruct (validate_secured_operation_scope request) eqn:Hv; [done|].
  destruct (implicit_edge_not_granted (ptc_assignments config) principal workspace ActEdgeRead).
  by apply Hg, unscoped_needs_implicit_edge.
Qed.

Lemma batch_operations_acc workspace batch :
  NoDup (security_operations (SrvApplyBatch batch) workspace) ∧
  (length (security_operations (SrvApplyBatch batch) workspace) <= S SECURITY_AUDIT_MAX_OPERATIONS)%nat.
Proof.
  cbn [security_operations]. split.
  - apply dedup_operations_NoDup, NoDup_singleton.
  - apply dedup_operations_length. cbn. unfold SECURITY_AUDIT_MAX_OPERATIONS. lia.
Qed.

(** The operations of a batch are listed once each; there are never more than
    65 of them however large the batch is; up to 64 they are exactly those its
    parts need, and beyond that the audit refuses the request. *)
Theorem batch_classification_bounded batch workspace :
  let ops := security_operations (SrvApplyBatch batch) workspace in
  NoDup ops ∧ (length ops <= 65)%nat ∧
  (((length ops <= 64)%nat ∧
    ∀ op, op ∈ ops ↔ op ∈ required_operations (SrvApplyBatch batch) workspace) ∨
   audit_operations ops = inl AuditClassificationOverflow).
Proof.
  destruct (batch_operations_acc workspace batch) as [Hnd Hlen]. cbn zeta. split; [done|]. split; [done|].
  destruct (decide (length (security_operations (SrvApplyBatch batch) workspace) <= 64)%nat) as [Hle|Hgt].
  - left. split; [done|]. intros op. cbn [security_operations required_operations] in *.
    rewrite (dedup_operations_elem _ _ _ _ Hle), list_elem_of_singleton. by rewrite elem_of_cons.
  - right. unfold audit_operations. case_match eqn:Hlt; [done|]. apply Nat.ltb_ge in Hlt. done.
Qed.

(** ** Certificates authenticate the principals they are mapped to *)

Lemma hex_byte c :
  (high ← hex_nibble (hex_digit (byte_val c / 16));
   low ← hex_nibble (hex_digit (byte_val c `mod` 16));
   Some (ascii_of_N (Z.to_N (Z.lor (Z.shiftl high 4) low)))) = Some c.
Proof. by destruct c as [[] [] [] [] [] [] [] []]. Qed.

Lemma hex_roundtrip s : hex_bytes (fingerprint_as_hex s) = Some s.
Proof.
  induction s as [|c s IH]; [done|]. pose proof (hex_byte c) as Hc. cbn [fingerprint_as_hex hex_bytes].
  destruct (hex_nibble (hex_digit (byte_val c / 16))) as [h|]; [|done]. cbn [mbind option_bind] in Hc |- *.
  destruct (hex_nibble (hex_digit (byte_val c `mod` 16))) as [l|]; [|done].
  cbn [mbind option_bind] in Hc |- *. rewrite IH. cbn. by injection Hc as ->.
Qed.

Lemma hex_plain s : all_chars is_plain (fingerprint_as_hex s) = true.
Proof.
  assert (∀ c, is_plain (hex_digit (byte_val c / 16)) && is_plain (hex_digit (byte_val c `mod` 16)) = true)
    as Hp by (intros c; by destruct c as [[] [] [] [] [] [] [] []]).
  induction s as [|c s IH]; [done|]. cbn [fingerprint_as_hex all_chars]. rewrite IH.
  specialize (Hp c). apply andb_true_iff in Hp as [-> ->]. done.
Qed.

Lemma hex_length s : String.length (fingerprint_as_hex s) = (2 * String.length s)%nat.
Proof. induction s as [|c s IH]; [done|]. cbn [fingerprint_as_hex String.length]. rewrite IH. lia. Qed.

Lemma fingerprint_roundtrip f :
  String.length f = 32%nat → fingerprint_from_hex (fingerprint_as_hex f) = Some f.
Proof.
  intros Hf. unfold fingerprint_from_hex. rewrite str_trim_plain by apply hex_plain.
  rewrite hex_length, Hf. cbn [negb Nat.eqb Nat.mul Nat.add]. apply hex_roundtrip.
Qed.

Lemma insert_mapping_eq m a m' :
  insert_mapping m a = Some m' →
  m !! cm_fingerprint a = None ∧ m' = <[cm_fingerprint a := cm_principal a]> m.
Proof.
  unfold insert_mapping. case_match; [done|]. destruct (m !! _); [done|]. by intros [= <-].
Qed.

Lemma insert_mappings_lookup l m m' f p :
  insert_mappings m l = Some m' →
  m' !! f = Some p ↔ m !! f = Some p ∨ ∃ a, a ∈ l ∧ cm_fingerprint a = f ∧ cm_principal a = p.
Proof.
  revert m. induction l as [|a l IH]; intros m; cbn [insert_mappings].
  { intros [= <-]. split; [by left|]. intros [?|(a & Ha & _)]; [done|by apply elem_of_nil in Ha]. }
  destruct (insert_mapping m a) as [t|] eqn:Ht; [|done]. intros Hf. cbn in Hf. rewrite (IH t Hf).
  apply insert_mapping_eq in Ht as [Hnone ->].
  destruct (decide (cm_fingerprint a = f)) as [<-|Hne].
  - rewrite lookup_insert_eq, Hnone. split.
    + intros [[= <-]|(b & Hb & Hk & ?)]; right; [exists a|exists b]; split_and!; try done;
        [by left|by right].
    + intros [?|(b & Hb & Hk & <-)]; [done|]. apply elem_of_cons in Hb as [->|Hb];
        [by left|right; by exists b].
  - rewrite lookup_insert_ne by done. split.
    + intros [?|(b & Hb & ? & ?)]; [by left|right; exists b]. split_and!; try done. by right.
    + intros [?|(b & Hb & Hk & ?)]; [by left|right]. apply elem_of_cons in Hb as [->|Hb]; [done|].
      by exists b.
Qed.

Section certificates.
Context `{Digest} `{!DigestLaws}.

(** under valid mappings a client is the principal [p] exactly when it shows a
  certificate some mapping has the fingerprint of, [p] being the mapping's
  issuer and subject, authenticated by the certificate; and a fingerprint
  written in hexadecimal is read back, so that a certificate can be
  configured by the text of its fingerprint. *)
Theorem certificates_authenticate mappings active peer p :
validated_certificate_mappings mappings = Some active →
(certificate_authenticate active peer = Some p ↔
∃ leaf m, client_certificate_leaf_der peer = Some leaf ∧ m ∈ mappings ∧
 cm_fingerprint m = sha256 leaf ∧
 p = {| issuer := issuer (cm_principal m); subject := subject (cm_principal m);
        authentication_method := MTLS_CERTIFICATE_AUTHENTICATION_METHOD |}) ∧
∀ leaf, fingerprint_from_hex (fingerprint_as_hex (sha256 leaf)) = Some (sha256 leaf).
Proof.
intros Hv. split; [|intros leaf; apply fingerprint_roundtrip, sha256_length].
unfold certificate_authenticate, validated_certificate_mappings in *. split.
- destruct (client_certificate_leaf_der peer) as [leaf|]; [|done]. cbn [mbind option_bind].
destruct (active !! sha256 leaf) as [q|] eqn:Hq; [|done]. intros [= <-].
rewrite (insert_mappings_lookup _ _ _ _ _ Hv), lookup_empty in Hq.
destruct Hq as [?|(m & Hm & Hf & <-)]; [done|]. by exists leaf, m.
- intros (leaf & m & -> & Hm & Hf & ->). cbn [mbind option_bind].
assert (active !! sha256 leaf = Some (cm_principal m)) as ->; [|done].
rewrite (insert_mappings_lookup _ _ _ _ _ Hv). right. by exists m.
Qed.
End certificates.

(** ** At a concrete table *)

Definition w_principal : Principal :=
  {| issuer := "ca"; subject := "alice"; authentication_method := "mtls-certificate" |}.
Definition w_table : PermissionTableConfig :=
  {| ptc_version := "v1";
     ptc_assignments :=
       [{| pa_principal := w_principal; pa_scope := ScopeWorkspace "team";
           pa_permissions := [{| perm_action := BatchApply; perm_resource := SelOperationFamily |};
                              {| perm_action := ActNodeCreate; perm_resource := SelAnyNodeModel |}] |}] |}.
Definition w_policy : PermissionTablePolicy :=
  match policy_new w_table with
  | inr policy => policy
  | inl _ => {| ptp_version := ""; ptp_assignments := ∅ |}
  end.
Definition w_batch : ServiceRequest :=
  SrvApplyBatch {| sb_atomic := true; sb_allow_deletes := false; sb_response_mode := SvcSummaryMode;
    sb_ops := [OpNodeCreate "Person" {| pm_properties := [] |} None;
               OpNodeCreate "Person" {| pm_properties := [] |} None;
               OpNodeCreate "City" {| pm_properties := [] |} None] |}.
Definition w_context : SecurityRequestContext :=
  {| ctx_transport_peer := {| remote_address := None; client_certificate_present := true;
                              client_certificate_leaf_der := Some "der" |};
     ctx_authenticated_principal := Some w_principal; ctx_asserted_actor := None;
     ctx_delegated_actor := None; ctx_workspace := "team";
     ctx_operations := security_operations w_batch "team"; ctx_policy_version := Some "v1" |}.
Definition w_audited : list SecurityAuditOperation :=
  match audit_operations (security_operations w_batch "team") with inr l => l | inl _ => [] end.

Lemma w_policy_new : policy_new w_table = inr w_policy.
Proof. vm_compute. reflexivity. Qed.
Lemma w_allowed : table_evaluate w_policy w_context = Allow ExplicitPolicyAllow.
Proof. vm_compute. reflexivity. Qed.

Lemma table_decides_witness :
  policy_new w_table = inr w_policy ∧
  ∃ principal, ctx_authenticated_principal w_context = Some principal ∧
    ∀ op, op ∈ ctx_operations w_context → granted (ptc_assignments w_table) principal op.
Proof.
  split; [exact w_policy_new|].
  exact (proj1 (proj1 (table_decides w_table w_policy w_context w_policy_new)) w_allowed).
Defined.

Lemma admitted_request_is_granted_witness :
  audit_operations (security_operations w_batch "team") = inr w_audited ∧
  ∃ principal, ctx_authenticated_principal w_context = Some principal ∧
    (∀ op, op ∈ required_operations w_batch "team" →
       granted (ptc_assignments w_table) principal op) ∧
    validate_secured_operation_scope w_batch = true.
Proof.
  split; [reflexivity|].
  exact (admitted_request_is_granted w_table w_policy w_context w_batch "team" w_audited
           w_policy_new eq_refl eq_refl w_allowed).
Defined.

(** A digest of the right length, for the witness. *)
#[local] Instance w_digest : Digest := {| sha256 := λ s, str_take 32 (s +:+ String.concat "" (repeat "0" 32)) |}.
Lemma w_digest_laws : DigestLaws.
Proof.
  constructor. intros s. cbn [sha256 w_digest].
  assert (∀ n t, (n <= String.length t)%nat → String.length (str_take n t) = n) as Htake.
  { induction n as [|n IH]; intros [|c t]; cbn; try lia. intros. rewrite IH; lia. }
  apply Htake. rewrite length_append. cbn. lia.
Qed.

Lemma certificates_authenticate_witness :
  let mapping := {| cm_fingerprint := sha256 "der"; cm_principal := w_principal |} in
  ∃ active, validated_certificate_mappings [mapping] = Some active ∧
    certificate_authenticate active (ctx_transport_peer w_context) = Some w_principal.
Proof.
  exists {[sha256 "der" := w_principal]}. split; [vm_compute; reflexivity|].
  apply (certificates_authenticate [{| cm_fingerprint := sha256 "der"; cm_principal := w_principal |}]
           {[sha256 "der" := w_principal]} (ctx_transport_peer w_context) w_principal (H0 := w_digest_laws)).
  - vm_compute. reflexivity.
  - exists "der", {| cm_fingerprint := sha256 "der"; cm_principal := w_principal |}.
    split; [reflexivity|]. split; [by left|]. split; reflexivity.
Defined.
