(* ===== verification/AuditSink.v ===== *)
(** * The audit ([src/grm-service-api/src/lib.rs])

    The events of the security audit and the sink that keeps a bounded number of
    them in memory ([BoundedSecurityAuditSink]).  Its lock is held for the whole
    of an operation, and no operation panics with it, so an operation is a
    function of the state. *)

From S2P Require Export Security.

Local Open Scope Z_scope.

(** ** Events *)

Inductive SecurityAuditMode := BestEffort | Mandatory.
#[export] Instance SecurityAuditMode_eq_dec : EqDecision SecurityAuditMode.
Proof. solve_decision. Defined.
Inductive SecurityAuditStage :=
  | StAttempt | StAuthentication | StAuthorization | StAdmission | StRuntime | StDurability
  | StDelivery.
#[export] Instance SecurityAuditStage_eq_dec : EqDecision SecurityAuditStage.
Proof. solve_decision. Defined.
Inductive SecurityAuditDecision := DecNotApplicable | DecAllow | DecDeny | DecError.
Inductive SecurityAuditReason :=
  | RsRequestReceived | RsAnonymousLocalProfile | RsExplicitPolicyAllow | RsNoMatchingPermission
  | RsInvalidActorAssertion | RsAuthenticationFailed | RsMissingPrincipal
  | RsPolicyEvaluationFailed | RsMalformedRequest | RsScopeRejected | RsLimitExceeded
  | RsClassificationOverflow | RsRuntimeSucceeded | RsRuntimeFailed | RsCommitted
  | RsNotCommitted | RsUnknownDurability | RsNotApplicable | RsResponseHandedOff
  | RsUnknownDelivery | RsSinkUnavailable.
Inductive SecurityAuditRuntimeOutcome := RoNotReached | RoSucceeded | RoFailed.
Inductive SecurityAuditDurabilityOutcome := DoNotApplicable | DoCommitted | DoNotCommitted | DoUnknown.
Inductive SecurityAuditDeliveryOutcome := DlNotReached | DlHandedOff | DlUnknown.

Record SecurityAuditPrincipal := {
  ap_issuer : string;
  ap_subject : string;
  ap_authentication_provider : string;
  ap_authentication_method : string;
}.
Record SecurityAuditActorAssertion := { aa_actor_id : string; aa_authenticated : bool }.
Record SecurityAuditTransportPeer := {
  at_remote_address_present : bool;
  at_client_certificate_present : bool;
}.

(** The time is in nanoseconds since the epoch. *)
Record SecurityAuditEvent := {
  ev_schema_version : Z;
  ev_event_id : Z;
  ev_request_id : Z;
  ev_service_sequence : Z;
  ev_timestamp : Z;
  ev_service_identity : string;
  ev_mode : SecurityAuditMode;
  ev_stage : SecurityAuditStage;
  ev_transport_peer : SecurityAuditTransportPeer;
  ev_authenticated_principal : option SecurityAuditPrincipal;
  ev_asserted_actor : option SecurityAuditActorAssertion;
  ev_workspace : option string;
  ev_operations : list SecurityAuditOperation;
  ev_policy_version : option string;
  ev_decision : SecurityAuditDecision;
  ev_reason : SecurityAuditReason;
  ev_runtime_outcome : SecurityAuditRuntimeOutcome;
  ev_durability_outcome : SecurityAuditDurabilityOutcome;
  ev_delivery_outcome : SecurityAuditDeliveryOutcome;
}.

Inductive SecurityAuditSinkError := SinkUnavailable | SinkBackpressure | SinkEventTooLarge.
Inductive SecurityAuditSinkHealth := SinkHealthy | SinkDegraded.

Definition DEFAULT_SECURITY_AUDIT_MAX_EVENTS : Z := 256.
Definition DEFAULT_SECURITY_AUDIT_MAX_BYTES : Z := 256 * 1024.
Definition DEFAULT_SECURITY_AUDIT_MAX_AGE : Z := 24 * 60 * 60 * 10 ^ 9.
Definition SECURITY_AUDIT_MAX_EVENT_BYTES : Z := 4096.

(** ** The bounded sink *)

(** [size_of::<SecurityAuditEvent>()], which the compiler chooses. *)
Class EventLayout := { size_of_event : Z }.
Class EventLayoutLaws `{EventLayout} : Prop := { size_of_event_nonneg : 0 <= size_of_event }.

Definition slen (s : string) : Z := Z.of_nat (String.length s).
Definition opt_len (o : option string) : Z := match o with Some s => slen s | None => 0 end.

Definition operation_size (operation : SecurityAuditOperation) : Z :=
  slen (ao_workspace operation) + opt_len (ao_model operation).

Definition security_audit_event_size `{EventLayout} (event : SecurityAuditEvent) : Z :=
  foldl (λ size operation, size + operation_size operation)
    (size_of_event + slen (ev_service_identity event)
     + match ev_authenticated_principal event with
       | Some p => slen (ap_issuer p) + slen (ap_subject p) + slen (ap_authentication_provider p)
                   + slen (ap_authentication_method p)
       | None => 0
       end
     + match ev_asserted_actor event with Some a => slen (aa_actor_id a) | None => 0 end
     + opt_len (ev_workspace event) + opt_len (ev_policy_version event))
    (ev_operations event).

(** The configuration and the state of a [BoundedSecurityAuditSink]. *)
Record AuditLimits := { max_events : Z; max_bytes : Z; max_age : Z }.
Record BoundedSecurityAuditState := {
  bs_events : list SecurityAuditEvent;
  bs_retained_bytes : Z;
  bs_degraded : bool;
  bs_next_request_id : Z;
  bs_next_event_id : Z;
  bs_next_sequence : Z;
}.

Definition default_limits : AuditLimits :=
  {| max_events := DEFAULT_SECURITY_AUDIT_MAX_EVENTS; max_bytes := DEFAULT_SECURITY_AUDIT_MAX_BYTES;
     max_age := DEFAULT_SECURITY_AUDIT_MAX_AGE |}.
Definition sink_new : BoundedSecurityAuditState :=
  {| bs_events := []; bs_retained_bytes := 0; bs_degraded := false; bs_next_request_id := 1;
     bs_next_event_id := 1; bs_next_sequence := 1 |}.

(** [u64::checked_add(1)] *)
Definition checked_succ (id : Z) : option Z := if (id <? u64_max) then Some (id + 1) else None.

Definition sink_allocate_request_id (s : BoundedSecurityAuditState)
    : res SecurityAuditSinkError Z * BoundedSecurityAuditState :=
  let id := bs_next_request_id s in
  match checked_succ id with
  | None => (inl SinkUnavailable, s)
  | Some next =>
      (inr id, {| bs_events := bs_events s; bs_retained_bytes := bs_retained_bytes s;
         bs_degraded := bs_degraded s; bs_next_request_id := next;
         bs_next_event_id := bs_next_event_id s; bs_next_sequence := bs_next_sequence s |})
  end.

Definition set_event_counters (event_id sequence : Z) (s : BoundedSecurityAuditState)
    : BoundedSecurityAuditState :=
  {| bs_events := bs_events s; bs_retained_bytes := bs_retained_bytes s;
     bs_degraded := bs_degraded s; bs_next_request_id := bs_next_request_id s;
     bs_next_event_id := event_id; bs_next_sequence := sequence |}.

(** A sequence that is used up is reported after the event id has advanced. *)
Definition sink_allocate_event_identity (s : BoundedSecurityAuditState)
    : res SecurityAuditSinkError (Z * Z) * BoundedSecurityAuditState :=
  let event_id := bs_next_event_id s in
  let sequence := bs_next_sequence s in
  match checked_succ event_id with
  | None => (inl SinkUnavailable, s)
  | Some next_event_id =>
      match checked_succ sequence with
      | None => (inl SinkUnavailable, set_event_counters next_event_id sequence s)
      | Some next_sequence =>
          (inr (event_id, sequence), set_event_counters next_event_id next_sequence s)
      end
  end.

(** [SystemTime::checked_sub]: seconds are an [i64]. *)
Definition time_min : Z := i64_min * 10 ^ 9.
Definition checked_sub_time (t d : Z) : option Z := if (t - d <? time_min) then None else Some (t - d).

(** The conditions of the loop of [append]. *)
Definition must_expire (limits : AuditLimits) (cutoff : option Z) (event_size retained : Z)
    (events : list SecurityAuditEvent) : bool :=
  (max_events limits <=? Z.of_nat (length events))
  || (max_bytes limits <? retained + event_size)
  || match cutoff, events with
     | Some cutoff, front :: _ => (ev_timestamp front <? cutoff)
     | _, _ => false
     end.

Fixpoint expire `{EventLayout} (limits : AuditLimits) (cutoff : option Z) (event_size : Z)
    (events : list SecurityAuditEvent) (retained : Z) : list SecurityAuditEvent * Z :=
  if must_expire limits cutoff event_size retained events then
    match events with
    | [] => ([], retained)
    | expired :: events =>
        expire limits cutoff event_size events
          (Z.max 0 (retained - security_audit_event_size expired))
    end
  else (events, retained).

Definition sink_append `{EventLayout} (limits : AuditLimits) (event : SecurityAuditEvent)
    (s : BoundedSecurityAuditState)
    : res SecurityAuditSinkError unit * BoundedSecurityAuditState :=
  let event_size := security_audit_event_size event in
  if (SECURITY_AUDIT_MAX_EVENT_BYTES <? event_size) || (max_bytes limits <? event_size)
  then (inl SinkEventTooLarge, s)
  else
    let cutoff := checked_sub_time (ev_timestamp event) (max_age limits) in
    let '(events, retained) := expire limits cutoff event_size (bs_events s) (bs_retained_bytes s) in
    let state events retained degraded :=
      {| bs_events := events; bs_retained_bytes := retained; bs_degraded := degraded;
         bs_next_request_id := bs_next_request_id s; bs_next_event_id := bs_next_event_id s;
         bs_next_sequence := bs_next_sequence s |} in
    if (max_bytes limits <? retained + event_size)
       || (max_events limits <=? Z.of_nat (length events))
    then (inl SinkBackpressure, state events retained true)
    else (inr tt, state (events ++ [event])%list (retained + event_size) false).

Definition sink_health (s : BoundedSecurityAuditState) : SecurityAuditSinkHealth :=
  if bs_degraded s then SinkDegraded else SinkHealthy.

(** ** The sink keeps the latest events, within its bounds *)

Section sink.
Context `{EventLayout} `{!EventLayoutLaws}.
Variable limits : AuditLimits.
Implicit Types (s : BoundedSecurityAuditState) (events : list SecurityAuditEvent).

#[local] Arguments security_audit_event_size : simpl never.

Fixpoint total_size (events : list SecurityAuditEvent) : Z :=
match events with
| [] => 0
| event :: events => security_audit_event_size event + total_size events
end.

Lemma total_size_app events1 events2 :
total_size (events1 ++ events2) = total_size events1 + total_size events2.
Proof. induction events1 as [|e events1 IH]; cbn; [lia|]. rewrite IH. lia. Qed.

Lemma opt_len_nonneg o : 0 <= opt_len o.
Proof. destruct o; unfold opt_len, slen; lia. Qed.

Lemma event_size_nonneg event : 0 <= security_audit_event_size event.
Proof.
unfold security_audit_event_size.
assert (∀ ops acc, 0 <= acc → 0 <= foldl (λ size op, size + operation_size op) acc ops) as Hfold.
{ induction ops as [|op ops IH]; intros acc Ha; cbn; [done|]. apply IH. unfold operation_size.
pose proof (opt_len_nonneg (ao_model op)). unfold slen. lia. }
apply Hfold. pose proof size_of_event_nonneg. pose proof (opt_len_nonneg (ev_workspace event)).
pose proof (opt_len_nonneg (ev_policy_version event)).
destruct (ev_authenticated_principal event), (ev_asserted_actor event); unfold slen; lia.
Qed.

Lemma total_size_nonneg events : 0 <= total_size events.
Proof.
induction events as [|e events IH]; cbn; [lia|]. pose proof (event_size_nonneg e). lia.
Qed.

(** The loop drops events from the front, until it need not. *)
Lemma expire_spec cutoff size events :
let out := expire limits cutoff size events (total_size events) in
out.2 = total_size out.1 ∧ out.1 `suffix_of` events ∧
(out.1 ≠ [] → must_expire limits cutoff size (total_size out.1) out.1 = false).
Proof.
induction events as [|e events IH]; cbn [expire].
{ destruct (must_expire _ _ _ _ _); cbn; split_and!; try done. }
destruct (must_expire limits cutoff size (total_size (e :: events)) (e :: events)) eqn:Hm.
- assert (Z.max 0 (total_size (e :: events) - security_audit_event_size e) = total_size events) as ->.
{ cbn. pose proof (total_size_nonneg events). lia. }
destruct IH as (Hr & Hs & Hn). split_and!; [done|by apply suffix_cons_r|done].
- cbn [fst snd]. split_and!; [done|done|done].
Qed.

Record sink_inv (s : BoundedSecurityAuditState) (accepted : list SecurityAuditEvent) : Prop := {
si_bytes : bs_retained_bytes s = total_size (bs_events s);
si_max_events : Z.of_nat (length (bs_events s)) <= max_events limits;
si_max_bytes : bs_retained_bytes s <= max_bytes limits;
si_latest : bs_events s `suffix_of` accepted;
}.

Lemma suffix_total_size events events' :
events' `suffix_of` events → total_size events' <= total_size events.
Proof. intros [k ->]. rewrite total_size_app. pose proof (total_size_nonneg k). lia. Qed.
Lemma suffix_length_Z events events' :
events' `suffix_of` events → Z.of_nat (length events') <= Z.of_nat (length events).
Proof. intros [k ->]. rewrite length_app. lia. Qed.

Lemma append_inv event s accepted :
sink_inv s accepted →
let out := sink_append limits event s in
sink_inv out.2 (match out.1 with inr _ => (accepted ++ [event])%list | inl _ => accepted end).
Proof.
intros [Hb He Hm Hl]. unfold sink_append. destruct (_ || _) eqn:Hsize; [by split|].
pose proof (expire_spec (checked_sub_time (ev_timestamp event) (max_age limits))
            (security_audit_event_size event) (bs_events s)) as Hx.
rewrite Hb. destruct (expire _ _ _ _ _) as [events retained]. cbn [fst snd] in Hx.
destruct Hx as (-> & Hsuf & _).
pose proof (suffix_total_size _ _ Hsuf). pose proof (suffix_length_Z _ _ Hsuf).
destruct ((max_bytes limits <? total_size events + _) || _) eqn:Hfull; cbn [fst snd].
- split; cbn [bs_events bs_retained_bytes]; [done|lia|lia|by etrans].
- apply orb_false_iff in Hfull as [Hb1%Z.ltb_ge Hb2%Z.leb_gt].
split; cbn [bs_events bs_retained_bytes].
+ rewrite total_size_app. cbn. lia.
+ rewrite length_app. cbn. lia.
+ lia.
+ destruct Hsuf as [k Hk], Hl as [k' ->]. exists (k' ++ k)%list. by rewrite Hk, !app_assoc.
Qed.

(** *** Runs *)

Inductive SinkOp := SinkAppend (event : SecurityAuditEvent) | SinkRequestId | SinkEventId.

(** A run: the state, the accepted events and the request ids handed out. *)
Fixpoint sink_run (ops : list SinkOp) (st : BoundedSecurityAuditState * list SecurityAuditEvent * list Z)
: BoundedSecurityAuditState * list SecurityAuditEvent * list Z :=
match ops with
| [] => st
| op :: ops =>
  let '(s, accepted, ids) := st in
  sink_run ops
    match op with
    | SinkAppend event =>
        let '(r, s) := sink_append limits event s in
        (s, match r with inr _ => (accepted ++ [event])%list | inl _ => accepted end, ids)
    | SinkRequestId =>
        let '(r, s) := sink_allocate_request_id s in
        (s, accepted, match r with inr id => (ids ++ [id])%list | inl _ => ids end)
    | SinkEventId => ((sink_allocate_event_identity s).2, accepted, ids)
    end
end.

Definition ids_from_one (s : BoundedSecurityAuditState) (ids : list Z) : Prop :=
ids = seqZ 1 (Z.of_nat (length ids)) ∧ bs_next_request_id s = 1 + Z.of_nat (length ids).

Lemma append_request_id event s :
bs_next_request_id (sink_append limits event s).2 = bs_next_request_id s.
Proof.
unfold sink_append. destruct (_ || _); [done|]. destruct (expire _ _ _ _ _). by destruct (_ || _).
Qed.

Lemma ids_snoc ids id : ids = seqZ 1 (Z.of_nat (length ids)) → id = 1 + Z.of_nat (length ids) →
(ids ++ [id])%list = seqZ 1 (Z.of_nat (length (ids ++ [id])%list)).
Proof.
intros Hids ->. rewrite length_app. cbn [length]. rewrite Nat2Z.inj_add, seqZ_app by lia.
rewrite <-Hids. done.
Qed.

Lemma sink_run_inv ops s accepted ids :
sink_inv s accepted → ids_from_one s ids →
let '(s', accepted', ids') := sink_run ops (s, accepted, ids) in
sink_inv s' accepted' ∧ ids_from_one s' ids'.
Proof.
revert s accepted ids. induction ops as [|op ops IH]; intros s accepted ids Hi Hids; cbn [sink_run]; [done|].
destruct op as [event| |].
- pose proof (append_inv event s accepted Hi) as Ha. pose proof (append_request_id event s) as Hr.
destruct (sink_append limits event s) as [r t]. cbn [fst snd] in Ha, Hr. apply IH; [done|].
unfold ids_from_one. by rewrite Hr.
- unfold sink_allocate_request_id, checked_succ. destruct (_ <? _); [|by apply IH].
destruct Hi as [? ? ? ?], Hids as [Hids Hnext]. apply IH; [by split|]. split.
+ by apply ids_snoc.
+ cbn [bs_next_request_id]. rewrite length_app. cbn. lia.
- unfold sink_allocate_event_identity. destruct (checked_succ _); [|by apply IH].
destruct Hi as [? ? ? ?]. destruct (checked_succ _); (apply IH; [by split|exact Hids]).
Qed.

(** An event that fits is accepted, and old ones are gone from the front. *)
Lemma append_accepts event s accepted :
sink_inv s accepted → 0 < max_events limits →
security_audit_event_size event <= SECURITY_AUDIT_MAX_EVENT_BYTES →
security_audit_event_size event <= max_bytes limits →
∃ s', sink_append limits event s = (inr tt, s') ∧ last (bs_events s') = Some event ∧
sink_health s' = SinkHealthy ∧
∀ front cutoff, head (bs_events s') = Some front →
  checked_sub_time (ev_timestamp event) (max_age limits) = Some cutoff → 0 <= max_age limits →
  cutoff <= ev_timestamp front.
Proof.
intros [Hb He Hm Hl] Hpos H1 H2. unfold sink_append.
assert ((SECURITY_AUDIT_MAX_EVENT_BYTES <? security_audit_event_size event)
      || (max_bytes limits <? security_audit_event_size event) = false) as ->.
{ apply orb_false_iff; split; by apply Z.ltb_ge. }
pose proof (expire_spec (checked_sub_time (ev_timestamp event) (max_age limits))
            (security_audit_event_size event) (bs_events s)) as Hx.
rewrite Hb. destruct (expire _ _ _ _ _) as [events retained]. cbn [fst snd] in Hx.
destruct Hx as (-> & Hsuf & Hdone).
assert ((max_bytes limits <? total_size events + security_audit_event_size event)
      || (max_events limits <=? Z.of_nat (length events)) = false ∧
      ∀ front cutoff, head events = Some front →
        checked_sub_time (ev_timestamp event) (max_age limits) = Some cutoff →
        cutoff <= ev_timestamp front) as [-> Hfront].
{ destruct events as [|e events].
- split; [|done]. apply orb_false_iff. cbn [total_size length].
  split; [apply Z.ltb_ge; lia|apply Z.leb_gt; lia].
- specialize (Hdone ltac:(done)). unfold must_expire in Hdone.
  apply orb_false_iff in Hdone as [Hdone Hcut]. apply orb_false_iff in Hdone as [Hd1 Hd2].
  rewrite Hd1, Hd2. split; [done|]. intros front cutoff [= <-] Hc. rewrite Hc in Hcut.
  by apply Z.ltb_ge in Hcut. }
eexists. split; [reflexivity|]. cbn [bs_events sink_health bs_degraded]. rewrite last_snoc.
split; [done|]. split; [done|]. intros front cutoff Hhd Hc Hage. destruct events as [|e events].
- injection Hhd as <-. unfold checked_sub_time in Hc. case_match; [done|]. injection Hc as <-. lia.
- by eapply Hfront.
Qed.

(** whatever is appended to a bounded sink, in whatever order, it keeps the
  latest of the events it accepted, never more than its number of events nor
  of bytes, which it counts exactly; the ids of requests are 1, 2, 3, ...;
  and an event within the size limits is always accepted, kept last, and
  leaves no event at the front that is too old. *)
Theorem sink_keeps_latest ops event :
0 < max_events limits → 0 <= max_bytes limits →
let '(s, accepted, ids) := sink_run ops (sink_new, [], []) in
bs_retained_bytes s = total_size (bs_events s) ∧
Z.of_nat (length (bs_events s)) <= max_events limits ∧
bs_retained_bytes s <= max_bytes limits ∧
bs_events s `suffix_of` accepted ∧
ids = seqZ 1 (Z.of_nat (length ids)) ∧
(security_audit_event_size event <= SECURITY_AUDIT_MAX_EVENT_BYTES →
security_audit_event_size event <= max_bytes limits →
∃ s', sink_append limits event s = (inr tt, s') ∧ last (bs_events s') = Some event ∧
 ∀ front cutoff, head (bs_events s') = Some front → 0 <= max_age limits →
   checked_sub_time (ev_timestamp event) (max_age limits) = Some cutoff →
   cutoff <= ev_timestamp front).
Proof.
intros Hn Hb. pose proof (sink_run_inv ops sink_new [] []) as Hrun.
destruct (sink_run ops (sink_new, [], [])) as [[s accepted] ids]. destruct Hrun as [Hi [Hids _]].
{ split; cbn; [done|lia|lia|done]. }
{ by split. }
pose proof Hi as [H1 H2 H3 H4]. split_and!; try done. intros Hs1 Hs2.
destruct (append_accepts event s accepted Hi Hn Hs1 Hs2) as (s' & Ha & Hlast & _ & Hf).
exists s'. split_and!; try done. intros front cutoff Hh Hage Hc. by eapply Hf.
Qed.
End sink.

(** *** At a concrete sink *)

#[local] Instance w_layout : EventLayout := {| size_of_event := 400 |}.
Lemma w_layout_laws : EventLayoutLaws.
Proof. constructor. cbn. lia. Qed.

Definition w_event (t : Z) : SecurityAuditEvent :=
  {| ev_schema_version := 1; ev_event_id := t; ev_request_id := t; ev_service_sequence := t;
     ev_timestamp := t; ev_service_identity := "grm-local-workspace-service"; ev_mode := BestEffort;
     ev_stage := StAttempt;
     ev_transport_peer := {| at_remote_address_present := true; at_client_certificate_present := false |};
     ev_authenticated_principal := None; ev_asserted_actor := None; ev_workspace := None;
     ev_operations := []; ev_policy_version := None; ev_decision := DecNotApplicable;
     ev_reason := RsRequestReceived; ev_runtime_outcome := RoNotReached;
     ev_durability_outcome := DoNotApplicable; ev_delivery_outcome := DlNotReached |}.
Definition w_limits : AuditLimits := {| max_events := 2; max_bytes := 1000; max_age := 100 |}.
Definition w_sink_ops : list SinkOp := [SinkRequestId; SinkAppend (w_event 1); SinkAppend (w_event 2); SinkAppend (w_event 3)].

Lemma sink_keeps_latest_witness :
  bs_events (sink_run w_limits w_sink_ops (sink_new, [], [])).1.1 = [w_event 2; w_event 3] ∧
  let '(s, accepted, ids) := sink_run w_limits w_sink_ops (sink_new, [], []) in
  bs_retained_bytes s <= max_bytes w_limits.
Proof.
  split; [reflexivity|].
  pose proof (sink_keeps_latest (H0 := w_layout_laws) w_limits w_sink_ops (w_event 4)
                ltac:(reflexivity) ltac:(discriminate)) as Hs.
  destruct (sink_run w_limits w_sink_ops (sink_new, [], [])) as [[s accepted] ids].
  exact (proj1 (proj2 (proj2 Hs))).
Defined.
