(* ===== verification/Durable.v ===== *)
(** * Durability of a session

    The append log of durable operations ([src/src/runtime/durability.rs]) and
    the saving, loading and checkpointing of a session with its log
    ([src/src/runtime/session.rs]). *)

From S2P Require Export Files Persist Runtime.

Local Open Scope string_scope.

Definition newline : ascii := "010".
Definition newline_text : string := String newline "".

(** [u8::is_ascii_whitespace]: space, tab, line feed, form feed, carriage
    return. *)
Definition is_ascii_whitespace (c : ascii) : bool :=
  existsb (Z.eqb (byte_val c)) [32; 9; 10; 12; 13]%Z.

(** [bytes.iter().position(|byte| *byte == c)] *)
Fixpoint position (c : ascii) (s : string) : option nat :=
  match s with
  | EmptyString => None
  | String d s => if Ascii.eqb d c then Some 0 else S <$> position c s
  end.

Inductive LoadSource := LoadPrimary | LoadBackup.

Section durable.
Context `{SerdeNumber} `{Formats}.

(** ** The serializers *)

Record PersistedSession := {
  pss_graph : PersistedGraphStore;
  pss_catalog : SessionModelCatalog;
}.
Record BinaryPersistedSession := {
  bps_graph : BinaryPersistedGraphStore;
  bps_catalog : SessionModelCatalog;
}.

(** [serde_json] and [bincode] at the session's types.  Reading binary bytes
    refuses more than [MAX_BINARY_SESSION_FILE_BYTES] and trailing bytes. *)
Class SessionCodec := {
  json_of_session : PersistedSession → option string;
  session_of_json : string → option PersistedSession;
  bytes_of_session : BinaryPersistedSession → option string;
  session_of_bytes : string → option BinaryPersistedSession;
  (** [serde_json::to_vec] and [from_slice] of a log record *)
  line_of_op : DurableOperation → option string;
  op_of_line : string → option DurableOperation;
}.

Definition MAX_BINARY_SESSION_FILE_BYTES : N := 128 * 1024 * 1024.

(** Rust strings are UTF-8. *)
Definition utf8 (s : string) : Prop := utf8_valid s = true.
Definition fields_utf8 (fields : list RuntimeField) : Prop :=
  Forall (λ f, utf8 (field_name f)) fields.
Definition node_model_utf8 (m : RuntimeNodeModel) : Prop :=
  utf8 (nm_name m) ∧ utf8 (nm_label m) ∧ utf8 (nm_id_field m) ∧ fields_utf8 (nm_fields m).
Definition rel_model_utf8 (m : RuntimeRelModel) : Prop :=
  utf8 (rm_name m) ∧ utf8 (rm_rel_type m) ∧ utf8 (rm_from_model m) ∧ utf8 (rm_to_model m) ∧
  utf8 (rm_id_field m) ∧ fields_utf8 (rm_fields m).
Definition catalog_utf8 (c : SessionModelCatalog) : Prop :=
  map_Forall (λ name m, utf8 name ∧ node_model_utf8 m) (node_models c) ∧
  map_Forall (λ name m, utf8 name ∧ rel_model_utf8 m) (rel_models c).

Definition node_safe (node : StoredNode) : Prop :=
  Forall utf8 (sn_labels node) ∧ props_safe (sn_props node).
Definition rel_safe (rel : StoredRel) : Prop :=
  utf8 (sr_rel_type rel) ∧ props_safe (sr_props rel).

Definition simple_op_safe (op : DurableOperation) : Prop :=
  match op with
  | RegisterNodeModel model => node_model_utf8 model
  | RegisterRelModel model => rel_model_utf8 model
  | UpsertNode node => node_safe node
  | UpsertRel rel => rel_safe rel
  | DurDeleteNode _ | DurDeleteRel _ => True
  | DurBatch _ => False
  end.
(** The program's batches hold no batches, so records stay far from the
    parser's recursion limit. *)
Definition op_safe (op : DurableOperation) : Prop :=
  match op with DurBatch ops => Forall simple_op_safe ops | _ => simple_op_safe op end.

(** A record is one line of compact JSON, an object: whatever part of one comes
    first, the same line with another record is not a JSON text. *)
Class SessionLaws `{!SessionCodec} : Prop := {
  json_of_session_total p : is_Some (json_of_session p);
  json_of_session_utf8 p b : json_of_session p = Some b → utf8 b;
  session_of_json_of p b :
    json_of_session p = Some b → graph_safe (pss_graph p) → catalog_utf8 (pss_catalog p) →
    session_of_json b = Some p;
  bytes_of_session_total p : is_Some (bytes_of_session p);
  session_of_bytes_of p b :
    bytes_of_session p = Some b → binary_strings_ok (bps_graph p) → catalog_utf8 (bps_catalog p) →
    (N.of_nat (String.length b) ≤ MAX_BINARY_SESSION_FILE_BYTES)%N →
    session_of_bytes b = Some p;
  line_of_op_total op : is_Some (line_of_op op);
  line_of_op_line op b :
    line_of_op op = Some b → lacks newline b = true ∧ all_chars is_ascii_whitespace b = false;
  op_of_line_of op b : line_of_op op = Some b → op_safe op → op_of_line b = Some op;
  op_of_line_torn op op' start rest b :
    line_of_op op = Some (start +:+ rest) → start ≠ "" →
    line_of_op op' = Some b → op_of_line (start +:+ b) = None;
}.

Context `{!SnapshotCodec} `{!SessionCodec}.

(** ** The log *)

Definition append_operation (path : Path) (entry : DurableOperation) : io unit :=
  fs_exists (log_path path) ≫= λ log_existed,
  open_append (log_path path) ≫= λ _,
  match line_of_op entry return io unit with
  | None => io_fail OtherError
  | Some line =>
      write_all (log_path path) line ≫= λ _,
      write_all (log_path path) newline_text ≫= λ _,
      sync_all ≫= λ _,
      if log_existed : bool then mret (M:=io) tt else sync_parent_dir
  end.

Definition clear_log (path : Path) : io unit := λ fl fs,
  match fs_remove_file (log_path path) fl fs with
  | (Done _, fl, fs) => sync_parent_dir fl fs
  | (Failed NotFoundError, fl, fs) => (Done tt, fl, fs)
  | (Failed e, fl, fs) => (Failed e, fl, fs)
  | (Crashed, fl, fs) => (Crashed, fl, fs)
  end.

Definition malformed_record : GrmError := LoadAborted "malformed durable append log record".

(** The [while] loop of [read_operations]; [None] is out of fuel. *)
Fixpoint read_loop (fuel : nat) (bs : string) (start : nat) (entries : list DurableOperation)
    : option (result (list DurableOperation)) :=
  match fuel with
  | O => None
  | S fuel =>
      if (start <? String.length bs)%nat then
        match position newline (str_drop start bs) with
        | None => Some (Ok entries)
        | Some relative_end =>
            let end_ := (start + relative_end)%nat in
            let line := String.substring 0 relative_end (str_drop start bs) in
            let start := S end_ in
            if all_chars is_ascii_whitespace line then read_loop fuel bs start entries
            else match op_of_line line with
                 | None => Some (Err malformed_record)
                 | Some entry => read_loop fuel bs start (entries ++ [entry])%list
                 end
        end
      else Some (Ok entries)
  end.

Definition parse_log (bs : string) : result (list DurableOperation) :=
  default (Err (Backend "out of fuel")) (read_loop (S (String.length bs)) bs 0 []).

Definition read_operations (path : Path) : io (result (list DurableOperation)) := λ fl fs,
  match fs_read (log_path path) fl fs with
  | (Done bs, fl, fs) => (Done (parse_log bs), fl, fs)
  | (Failed NotFoundError, fl, fs) => (Done (Ok []), fl, fs)
  | (Failed _, fl, fs) =>
      (Done (Err (LoadAborted "failed to read durable append log file")), fl, fs)
  | (Crashed, fl, fs) => (Crashed, fl, fs)
  end.

(** ** Saving *)

Definition persisted_session (σ : SessionState) : PersistedSession :=
  {| pss_graph := to_persisted (ss_store σ); pss_catalog := ss_catalog σ |}.

Definition save_to_json (tags : string * string) (path : Path) (σ : SessionState)
    : io (result unit) :=
  match json_of_session (persisted_session σ) with
  | None => mret (Err (SaveAborted "failed to serialize session as JSON"))
  | Some json =>
      or_abort (write_file_atomically_with_backup tags path json)
               (SaveAborted "failed to write JSON session file") (λ _,
      or_abort (clear_log path) (SaveAborted "failed to clear session log file")
               (λ _, mret (Ok tt)))
  end.

Definition save_to_binary (tags : string * string) (path : Path) (σ : SessionState)
    : io (result unit) :=
  match to_binary_persisted (ss_store σ) with
  | Err e => mret (Err e)
  | Ok graph =>
      match bytes_of_session {| bps_graph := graph; bps_catalog := ss_catalog σ |} with
      | None => mret (Err (SaveAborted "failed to serialize session as binary"))
      | Some bs =>
          or_abort (write_file_atomically_with_backup tags path bs)
                   (SaveAborted "failed to write binary session file") (λ _,
          or_abort (clear_log path) (SaveAborted "failed to clear session log file")
                   (λ _, mret (Ok tt)))
      end
  end.

Definition save_workspace (f : DurabilityFormat) :=
  match f with DurJson => save_to_json | DurBinary => save_to_binary end.
(** [checkpoint_durable] is [save_workspace]. *)
Definition checkpoint_durable := save_workspace.

(** ** Loading: the result, and the session as the load leaves it *)

Definition apply_session_log (path : Path) (σ : SessionState)
    : io (result unit * SessionState) :=
  read_operations path ≫= λ entries, mret (M:=io)
       match entries with
       | Err e => (Err e, σ)
       | Ok entries =>
           match replay entries σ with
           | Ok σ' => (Ok tt, σ')
           | Err e => (Err e, σ)
           end
       end.

Definition apply_persisted_session (p : PersistedSession) : SessionState :=
  {| ss_store := from_persisted (pss_graph p); ss_catalog := pss_catalog p |}.

(** The last two steps of every load. *)
Definition finish_load (path : Path) (source : LoadSource) (σ : SessionState)
    : io (result LoadSource * SessionState) :=
  apply_session_log path σ ≫= λ '(r, σ),
  mret (M:=io) (match r with Ok _ => Ok source | Err e => Err e end, σ).

(** [m.map_err(|_| e)?] in a load: the session stays as it is. *)
Definition or_keep {A} (m : io A) (e : GrmError) (σ : SessionState)
    (k : A → io (result LoadSource * SessionState)) : io (result LoadSource * SessionState) :=
  λ fl fs,
    match m fl fs with
    | (Done a, fl, fs) => k a fl fs
    | (Failed _, fl, fs) => (Done (Err e, σ), fl, fs)
    | (Crashed, fl, fs) => (Crashed, fl, fs)
    end.

Definition json_decode_error : GrmError := LoadAborted "failed to deserialize JSON session file".

Definition load_json_backup (path : Path) (σ : SessionState)
    : io (result LoadSource * SessionState) :=
  or_keep (read_to_string (backup_path path)) json_decode_error σ (λ json,
  match session_of_json json with
  | None => mret (Err json_decode_error, σ)
  | Some persisted => finish_load path LoadBackup (apply_persisted_session persisted)
  end).

Definition load_from_json_with_source (path : Path) (σ : SessionState)
    : io (result LoadSource * SessionState) :=
  or_keep (read_to_string path) (LoadAborted "failed to read JSON session file") σ (λ json,
  match session_of_json json with
  | Some persisted => finish_load path LoadPrimary (apply_persisted_session persisted)
  | None => load_json_backup path σ
  end).

(** [fs::metadata(path).len()] *)
Definition fs_metadata_len (p : Path) : io N :=
  io_call (λ fs, match fs !! file_key p with
                 | Some bs => inl (N.of_nat (String.length bs), fs)
                 | None => inr NotFoundError
                 end) (λ _ fs, fs).

Definition read_limited_binary_session_file (path : Path) (max_bytes : N) (σ : SessionState)
    (k : string → io (result LoadSource * SessionState)) : io (result LoadSource * SessionState) :=
  let read_error := LoadAborted "failed to read binary session file" in
  or_keep (fs_metadata_len path) read_error σ (λ len,
  if (max_bytes <? len)%N
  then mret (Err (LoadAborted "binary session file exceeds maximum supported size"), σ)
  else or_keep (fs_read path) read_error σ k).

(** The graph is decoded before it replaces the one the session has. *)
Definition apply_binary_session (p : BinaryPersistedSession) : result SessionState :=
  store ← from_binary_persisted (bps_graph p);
  Ok {| ss_store := store; ss_catalog := bps_catalog p |}.

Definition load_binary_backup (path : Path) (σ : SessionState)
    : io (result LoadSource * SessionState) :=
  read_limited_binary_session_file (backup_path path) MAX_BINARY_SESSION_FILE_BYTES σ (λ bs,
  match session_of_bytes bs with
  | None => mret (Err (LoadAborted "failed to deserialize binary session file"), σ)
  | Some persisted =>
      match apply_binary_session persisted with
      | Ok σ => finish_load path LoadBackup σ
      | Err e => mret (Err e, σ)
      end
  end).

Definition load_from_binary_with_source (path : Path) (σ : SessionState)
    : io (result LoadSource * SessionState) :=
  read_limited_binary_session_file path MAX_BINARY_SESSION_FILE_BYTES σ (λ bs,
  match session_of_bytes bs with
  | Some persisted =>
      match apply_binary_session persisted with
      | Ok σ => finish_load path LoadPrimary σ
      | Err e => mret (Err e, σ)
      end
  | None => load_binary_backup path σ
  end).

Definition load_workspace_with_source (f : DurabilityFormat) :=
  match f with
  | DurJson => load_from_json_with_source
  | DurBinary => load_from_binary_with_source
  end.
End durable.

(** ** The log as lines *)

Section lines.
Implicit Types (s t rest tail : string) (ls : list string).

Lemma position_Some c s n :
  position c s = Some n →
  s = String.substring 0 n s +:+ String c (str_drop (S n) s) ∧
  lacks c (String.substring 0 n s) = true.
Proof.
  revert n. induction s as [|d s IH]; intros n; cbn [position]; [done|].
  destruct (Ascii.eqb d c) eqn:Hd.
  - apply Ascii.eqb_eq in Hd as ->. intros [= <-]. by destruct s.
  - intros (m & Hm & ->)%fmap_Some. destruct (IH m Hm) as [Hs Hl]. cbn in *.
    rewrite Hd. cbn. split; [by rewrite Hs at 1|done].
Qed.

Lemma position_None c s : position c s = None → lacks c s = true.
Proof.
  induction s as [|d s IH]; cbn [position]; [done|].
  destruct (Ascii.eqb d c) eqn:Hd; [done|]. intros Hn. cbn. rewrite Hd. cbn. apply IH.
  by destruct (position c s).
Qed.

Lemma str_drop_drop n m s : str_drop n (str_drop m s) = str_drop (m + n) s.
Proof. revert s. induction m as [|m IH]; intros s; [done|]. destruct s; [by destruct n|]. apply IH. Qed.

Lemma length_str_drop n s : String.length (str_drop n s) = (String.length s - n)%nat.
Proof. revert s. induction n as [|n IH]; intros [|c s]; cbn; [done..|]. apply IH. Qed.

(** The lines of a file, each ended by a newline, and what comes after. *)
Definition unlines ls : string := foldr (λ l acc, l +:+ newline_text +:+ acc) "" ls.
(** The ended lines of a file. *)
Definition ended_lines s : list string := removelast (split_char newline s).

Lemma split_char_nonempty c s : split_char c s ≠ [].
Proof. destruct s as [|d s]; cbn; [done|]. destruct (Ascii.eqb d c); [done|]. by destruct (split_char c s) eqn:?. Qed.

Lemma ended_lines_cons l s :
  lacks newline l = true → ended_lines (l +:+ String newline s) = l :: ended_lines s.
Proof.
  intros Hl. unfold ended_lines. rewrite split_char_app by done.
  cbn [removelast]. pose proof (split_char_nonempty newline s). by destruct (split_char newline s).
Qed.

Lemma ended_lines_tail tail : lacks newline tail = true → ended_lines tail = [].
Proof. intros Ht. unfold ended_lines. by rewrite split_char_lacks. Qed.

Lemma ended_lines_unlines ls tail :
  Forall (λ l, lacks newline l = true) ls → lacks newline tail = true →
  ended_lines (unlines ls +:+ tail) = ls.
Proof.
  intros Hls Ht. induction Hls as [|l ls Hl _ IH]; [by apply ended_lines_tail|].
  change (unlines (l :: ls)) with (l +:+ String newline (unlines ls)). rewrite append_assoc.
  change (String newline (unlines ls) +:+ tail) with (String newline (unlines ls +:+ tail)).
  by rewrite ended_lines_cons, IH.
Qed.

Lemma unlines_app ls ls' : unlines (ls ++ ls') = unlines ls +:+ unlines ls'.
Proof.
  induction ls as [|l ls IH]; [done|]. change (unlines ((l :: ls) ++ ls'))
    with (l +:+ String newline (unlines (ls ++ ls'))).
  by rewrite IH, (append_assoc l (String newline (unlines ls))).
Qed.
End lines.

(** ** Reading the log *)

Section log.
Context `{SerdeNumber} `{Formats} `{!SessionCodec} `{!SessionLaws}.
Implicit Types (fs : FileSys) (ops : list DurableOperation) (ls : list string).

Definition read_record (l : string) : result DurableOperation := ok_or (op_of_line l) malformed_record.
Definition blank (l : string) : bool := all_chars is_ascii_whitespace l.
(** The records of a file's ended lines. *)
Definition log_records (bs : string) : result (list DurableOperation) :=
  mapM read_record (filter (λ l, negb (blank l)) (ended_lines bs)).

Lemma position_lt c s n : position c s = Some n → (n < String.length s)%nat.
Proof.
  revert n. induction s as [|d s IH]; intros n; cbn [position]; [done|].
  destruct (Ascii.eqb d c); [intros [= <-]; cbn; lia|].
  intros (m & Hm & ->)%fmap_Some. specialize (IH m Hm). cbn. lia.
Qed.

Lemma read_loop_ok fuel bs start entries :
  (String.length bs < fuel + start)%nat → (0 < fuel)%nat →
  read_loop fuel bs start entries
  = Some ((λ ops, (entries ++ ops)%list) <$> log_records (str_drop start bs)).
Proof.
  revert start entries. induction fuel as [|fuel IH]; intros start entries Hfuel Hpos; [lia|].
  cbn [read_loop]. destruct (Nat.ltb_spec start (String.length bs)) as [Hlt|Hge].
  - destruct (position newline (str_drop start bs)) as [n|] eqn:Hp.
    + pose proof (position_lt _ _ _ Hp) as Hn. rewrite length_str_drop in Hn.
      destruct (position_Some _ _ _ Hp) as [Heq Hl]. cbn zeta.
      set (l := String.substring 0 n (str_drop start bs)) in *.
      rewrite Heq, str_drop_drop.
      unfold log_records. rewrite ended_lines_cons by done.
      replace (start + S n)%nat with (S (start + n)) by lia.
      destruct (all_chars is_ascii_whitespace l) eqn:Hb.
      * rewrite IH by lia. rewrite filter_cons_False; [done|]. unfold blank. rewrite Hb. by intros [].
      * rewrite filter_cons_True by (unfold blank; rewrite Hb; exact I).
        rewrite mapM_cons. change (read_record l) with (ok_or (op_of_line l) malformed_record).
        destruct (op_of_line l) as [op|]; [|done]. rewrite IH by lia. cbn [ok_or].
        fold (log_records (str_drop (S (start + n)) bs)).
        destruct (log_records _) as [ops|e]; cbn; [|done]. by rewrite <-app_assoc.
    + unfold log_records. rewrite (ended_lines_tail _ (position_None _ _ Hp)). cbn.
      by rewrite app_nil_r.
  - assert (str_drop start bs = "") as ->.
    { destruct (str_drop start bs) eqn:Hd; [done|]. apply (f_equal String.length) in Hd.
      rewrite length_str_drop in Hd. cbn in Hd. lia. }
    cbn. by rewrite app_nil_r.
Qed.

Lemma parse_log_records bs : parse_log bs = log_records bs.
Proof.
  unfold parse_log. rewrite read_loop_ok by lia. change (str_drop 0 bs) with bs.
  by destruct (log_records bs).
Qed.

(** *** Appending a record *)

Definition log_bytes (path : Path) fs : string := default "" (fs !! file_key (log_path path)).

(** The log holds the records of [ops], and what is left of a record whose
    write did not end. *)
Record log_holds (path : Path) fs ops (tail : string) : Prop := {
  lh_lines : ∃ ls, Forall2 (λ op l, line_of_op op = Some l) ops ls ∧
                   log_bytes path fs = unlines ls +:+ tail;
  lh_safe : Forall op_safe ops;
  lh_tail : lacks newline tail = true;
}.

Lemma lines_lack ops ls :
  Forall2 (λ op l, line_of_op op = Some l) ops ls → Forall (λ l, lacks newline l = true) ls.
Proof. intros Hf. induction Hf as [|op l ops ls Hl _ IH]; constructor; [|done]. apply (line_of_op_line op l Hl). Qed.

Lemma lines_records ops ls :
  Forall2 (λ op l, line_of_op op = Some l) ops ls → Forall op_safe ops →
  mapM read_record (filter (λ l, negb (blank l)) ls) = Ok ops.
Proof.
  intros Hls Hsafe. apply mapM_Ok. revert Hsafe. induction Hls as [|op l ops ls Hl _ IH]; [constructor|].
  intros [Hop Hops]%Forall_cons. destruct (line_of_op_line op l Hl) as [_ Hb].
  rewrite filter_cons_True by (unfold blank; rewrite Hb; exact I).
  constructor; [|by apply IH]. unfold read_record. by rewrite (op_of_line_of op l Hl Hop).
Qed.

Lemma log_holds_records path fs ops tail :
  log_holds path fs ops tail → log_records (log_bytes path fs) = Ok ops.
Proof.
  intros [(ls & Hls & ->) Hsafe Htail]. unfold log_records.
  rewrite ended_lines_unlines by eauto using lines_lack. by apply lines_records.
Qed.

(** What an append may leave: a part of the record, all of it if it reports
    success, in no other file than the log. *)
Record appended (path : Path) (line : string) fs (r : Files.outcome unit) fs' : Prop := {
  ad_frame : only_changed [file_key (log_path path)] fs fs';
  ad_log : ∃ part rest, line +:+ newline_text = part +:+ rest ∧
    log_bytes path fs' = log_bytes path fs +:+ part ∧ (r = Done tt → rest = "");
}.

Lemma io_post_exists p (Q : Files.outcome bool → FileSys → Prop) fs :
  (∀ r, Q r fs) → io_post (fs_exists p) Q fs.
Proof. intros HQ [|[] fl]; cbn; apply HQ. Qed.

Lemma substring_split n s : ∃ rest, s = String.substring 0 n s +:+ rest.
Proof.
  revert s. induction n as [|n IH]; intros s; [exists s; by destruct s|].
  destruct s as [|c s]; [by exists ""|]. destruct (IH s) as [rest Hs]. exists rest.
  cbn. by f_equal.
Qed.

Lemma append_operation_post path op line fs :
  line_of_op op = Some line →
  io_post (append_operation path op) (appended path line fs) fs.
Proof.
  intros Hline. unfold append_operation. rewrite Hline. set (k := file_key (log_path path)).
  assert (∀ r fs' part rest, line +:+ newline_text = part +:+ rest → (r = Done tt → rest = "") →
    (∀ k', k' ≠ k → fs' !! k' = fs !! k') → log_bytes path fs' = log_bytes path fs +:+ part →
    appended path line fs r fs') as Hpost.
  { intros r fs' part rest Heq Hr Hframe Hlog. split; [|eauto].
    intros k' Hk'. apply Hframe. intros ->. apply Hk'. by left. }
  assert (∀ r, r ≠ Done tt → appended path line fs r fs) as Hnone.
  { intros r Hr. apply (Hpost _ _ "" (line +:+ newline_text)); try done. by rewrite append_nil_r. }
  apply io_post_bind, io_post_exists. intros [existed|e|]; [|by apply Hnone..].
  apply io_post_bind, io_post_call; [|by split; apply Hnone].
  set (fs1 := match fs !! k with Some _ => fs | None => <[k := ""]> fs end).
  assert (log_bytes path fs1 = log_bytes path fs ∧ ∀ k', k' ≠ k → fs1 !! k' = fs !! k') as [Hb1 Hf1].
  { unfold fs1, log_bytes. fold k. destruct (fs !! k) eqn:Hk; [by rewrite Hk|]. rewrite lookup_insert_eq.
    split; [done|]. intros. by rewrite lookup_insert_ne. }
  assert (∀ r bs part rest, line +:+ newline_text = part +:+ rest → (r = Done tt → rest = "") →
    bs = log_bytes path fs +:+ part → appended path line fs r (<[k := bs]> fs1)) as Hins.
  { intros r bs part rest Heq Hr ->. apply (Hpost _ _ part rest); [done|done| |].
    - intros k' Hk'. rewrite lookup_insert_ne by done. by apply Hf1.
    - unfold log_bytes at 1. fold k. by rewrite lookup_insert_eq. }
  assert (∀ bs, append_bytes (log_path path) bs fs1 = <[k := log_bytes path fs +:+ bs]> fs1) as Happ.
  { intros bs. unfold append_bytes. by rewrite <-Hb1. }
  apply io_post_bind, io_post_call; cbn beta.
  2: { intros n. rewrite Happ. destruct (substring_split n line) as [rest Hs].
       assert (line +:+ newline_text = String.substring 0 n line +:+ (rest +:+ newline_text)) as Heq
         by by rewrite Hs at 1; rewrite append_assoc.
       by split; eapply Hins. }
  rewrite Happ.
  assert (∀ bs, append_bytes (log_path path) bs (<[k := log_bytes path fs +:+ line]> fs1)
    = <[k := log_bytes path fs +:+ (line +:+ bs)]> fs1) as Happ2.
  { intros bs. unfold append_bytes. fold k. rewrite lookup_insert_eq, insert_insert_eq. cbn.
    by rewrite append_assoc. }
  apply io_post_bind, io_post_call; cbn beta; rewrite ?Happ2.
  2: { intros n. rewrite Happ2. destruct (substring_split n newline_text) as [rest Hs].
       assert (line +:+ newline_text = (line +:+ String.substring 0 n newline_text) +:+ rest) as Heq
         by by rewrite append_assoc, <-Hs.
       by split; eapply Hins. }
  assert (∀ r, appended path line fs r (<[k := log_bytes path fs +:+ (line +:+ newline_text)]> fs1))
    as Hall by (intros r; eapply (Hins _ _ _ ""); [by rewrite append_nil_r|done|done]).
  apply io_post_bind, io_post_sync_all. intros [[]|e|]; [|apply Hall..].
  destruct existed; [by apply io_post_ret|]. by apply io_post_sync_parent_dir.
Qed.

Lemma read_operations_runs path fs :
  read_operations path [] fs = (Done (log_records (log_bytes path fs)), [], fs).
Proof.
  unfold read_operations, log_bytes. rewrite fs_read_runs.
  destruct (fs !! file_key (log_path path)) as [bs|]; [|done]. by rewrite parse_log_records.
Qed.

Lemma unlines_snoc ls l : unlines (ls ++ [l]) = unlines ls +:+ (l +:+ newline_text).
Proof. rewrite unlines_app. by change (unlines [l]) with (l +:+ newline_text). Qed.

(** With no fault an append succeeds. *)
Lemma append_operation_runs path op line fs :
  line_of_op op = Some line → ∃ fs', append_operation path op [] fs = (Done tt, [], fs').
Proof.
  intros Hline. unfold append_operation. rewrite Hline. unfold mbind, io_bind, fs_exists. cbn.
  destruct (bool_decide _); by eexists.
Qed.

(** A log whose last record is whole, after an append of [op]. *)
Lemma appended_holds path op line fs r fs' ops :
  line_of_op op = Some line → op_safe op → log_holds path fs ops "" →
  appended path line fs r fs' →
  (∃ tail rest, line = tail +:+ rest ∧ log_holds path fs' ops tail ∧ r ≠ Done tt) ∨
  log_holds path fs' (ops ++ [op]) "".
Proof.
  intros Hline Hop [(ls & Hls & Hlog) Hsafe _] [_ (part & rest & Heq & Hlog' & Hr)].
  rewrite Hlog, append_nil_r in Hlog'.
  destruct (line_of_op_line op line Hline) as [Hlack _].
  destruct rest as [|c rest _] using str_rev_ind.
  - right. rewrite append_nil_r in Heq. subst part. split; [|by apply Forall_app_2; [|constructor]|done].
    exists (ls ++ [line])%list. split; [by apply Forall2_app; [|constructor]|].
    by rewrite unlines_snoc, append_nil_r.
  - left. rewrite <-append_assoc in Heq. apply str_snoc_inj in Heq as [Heq _].
    exists part, rest. split_and!; [done| |by intros Hd; apply (str_snoc_nil rest c), Hr, Hd].
    split; [by exists ls|done|]. unfold lacks in *. rewrite Heq, all_chars_app in Hlack.
    by apply andb_true_iff in Hlack as [? _].
Qed.

(** reading the log comes to the end of it: the records are those of the
    lines a newline ends, in order and without the blank ones, whatever
    follows the last newline; the first line that is not a record is an error. *)
Theorem log_is_read_to_the_end (bs : string) ls (tail : string) :
  Forall (λ l, lacks newline l = true) ls → lacks newline tail = true →
  bs = unlines ls +:+ tail →
  read_loop (S (String.length bs)) bs 0 []
  = Some (mapM read_record (filter (λ l, negb (blank l)) ls)).
Proof.
  intros Hls Ht ->. rewrite read_loop_ok by lia. change (str_drop 0 ?s) with s.
  unfold log_records. rewrite ended_lines_unlines by done. by destruct (mapM _ _).
Qed.


Lemma appended_to_torn path op torn line start rest fs fs' ops :
  line_of_op op = Some line → log_holds path fs ops start → start ≠ "" →
  line_of_op torn = Some (start +:+ rest) →
  appended path line fs (Done tt) fs' →
  log_records (log_bytes path fs') = Err malformed_record.
Proof.
  intros Hline [(ls & Hls & Hlog) Hsafe Hstart] Hne Htorn [_ (part & r & Heq & Hlog' & Hr)].
  rewrite (Hr eq_refl), append_nil_r in Heq. subst part.
  destruct (line_of_op_line op line Hline) as [Hlack Hblank].
  assert (log_bytes path fs' = unlines (ls ++ [start +:+ line]) +:+ "") as ->.
  { by rewrite Hlog', Hlog, unlines_snoc, append_nil_r, !append_assoc. }
  unfold log_records. rewrite ended_lines_unlines; [|apply Forall_app_2|done].
  - rewrite filter_app, filter_cons_True.
    2: { unfold blank. rewrite all_chars_app, Hblank, andb_false_r. exact I. }
    apply (mapM_app_err _ _ _ ops); [by apply (lines_records ops)|].
    unfold read_record. by rewrite (op_of_line_torn torn op start rest line).
  - by eapply lines_lack.
  - constructor; [|done]. unfold lacks in *. by rewrite all_chars_app, Hstart, Hlack.
Qed.

(** once the log ends in a part of a record (a write that failed, or a crash
    after which the session was recovered without a checkpoint), the next append
    succeeds and makes the log unreadable. *)
Theorem append_after_torn_record path op torn start rest fs ops :
  log_holds path fs ops start → start ≠ "" → line_of_op torn = Some (start +:+ rest) →
  read_operations path [] fs = (Done (Ok ops), [], fs) ∧
  ∃ fs', append_operation path op [] fs = (Done tt, [], fs') ∧
    read_operations path [] fs' = (Done (Err malformed_record), [], fs').
Proof.
  intros Hlog Hne Htorn. rewrite read_operations_runs, (log_holds_records _ _ _ _ Hlog).
  split; [done|]. destruct (line_of_op_total op) as [line Hline].
  destruct (append_operation_runs path op line fs Hline) as [fs' Hrun]. exists fs'.
  split; [done|]. rewrite read_operations_runs. do 3 f_equal. f_equal.
  eapply appended_to_torn; [done..|].
  apply (io_post_run _ _ _ _ _ _ _ (append_operation_post path op line fs Hline) Hrun).
Qed.
End log.

(** ** Checkpoints *)

Section checkpoints.
Context `{SerdeNumber} `{Formats} `{!SnapshotCodec} `{!SnapshotLaws}
  `{!SessionCodec} `{!SessionLaws}.
Implicit Types (fs : FileSys) (σ τ : SessionState) (f : DurabilityFormat) (p : Path).

Definition session_bytes f σ : result string :=
  match f with
  | DurJson => ok_or (json_of_session (persisted_session σ))
                     (SaveAborted "failed to serialize session as JSON")
  | DurBinary =>
      graph ← to_binary_persisted (ss_store σ);
      ok_or (bytes_of_session {| bps_graph := graph; bps_catalog := ss_catalog σ |})
            (SaveAborted "failed to serialize session as binary")
  end.

(** What a file holds, where its format and size let the session be read. *)
Definition session_of f (bs : string) : option (result SessionState) :=
  match f with
  | DurJson =>
      if utf8_valid bs then (λ q, Ok (apply_persisted_session q)) <$> session_of_json bs else None
  | DurBinary =>
      if (N.of_nat (String.length bs) <=? MAX_BINARY_SESSION_FILE_BYTES)%N
      then apply_binary_session <$> session_of_bytes bs else None
  end.

(** A session its format can write and read back. *)
Definition session_safe f σ : Prop :=
  graph_safe (to_persisted (ss_store σ)) ∧ catalog_utf8 (ss_catalog σ) ∧
  match f with
  | DurJson => True
  | DurBinary => ∀ bs, session_bytes f σ = Ok bs →
      (N.of_nat (String.length bs) ≤ MAX_BINARY_SESSION_FILE_BYTES)%N
  end.

Definition reload_session σ : SessionState :=
  {| ss_store := reload (ss_store σ); ss_catalog := ss_catalog σ |}.

Lemma reload_session_same σ : store_wf (ss_store σ) → same_session σ (reload_session σ).
Proof.
  intros Hwf. destruct (reload_ok (ss_store σ) Hwf) as [Hsame Hwf'].
  split; [|done|done]. symmetry. by apply graph_of_eq.
Qed.

Lemma session_snapshot_ok f σ :
  session_safe f σ →
  ∃ bs, session_bytes f σ = Ok bs ∧ session_of f bs = Some (Ok (reload_session σ)).
Proof.
  intros (Hg & Hc & Hbound). destruct f; cbn [session_bytes session_of] in *.
  - destruct (json_of_session_total (persisted_session σ)) as [bs Hbs]. exists bs.
    rewrite Hbs, (json_of_session_utf8 _ _ Hbs), (session_of_json_of _ _ Hbs Hg Hc). done.
  - destruct (to_binary_ok (ss_store σ) Hg) as (b & Hb & Hstr & Hback). rewrite Hb in *.
    cbn in *. set (q := {| bps_graph := b; bps_catalog := ss_catalog σ |}) in *.
    destruct (bytes_of_session_total q) as [bs Hbs]. exists bs. rewrite Hbs in *. cbn in *.
    specialize (Hbound bs eq_refl). rewrite (proj2 (N.leb_le _ _)) by done.
    rewrite (session_of_bytes_of q bs Hbs Hstr Hc Hbound). unfold apply_binary_session. cbn.
    by rewrite Hback.
Qed.

Lemma session_bytes_same f σ τ :
  graph_of (ss_store τ) = graph_of (ss_store σ) → ss_catalog τ = ss_catalog σ →
  session_bytes f τ = session_bytes f σ ∧ to_persisted (ss_store τ) = to_persisted (ss_store σ).
Proof.
  intros [= Hn Hr Hnn Hnr] Hc. assert (to_persisted (ss_store τ) = to_persisted (ss_store σ)) as Hp
    by (unfold to_persisted; congruence).
  split; [|done]. destruct f; cbn; unfold persisted_session; rewrite Hc, ?Hp; [done|].
  unfold to_binary_persisted. by rewrite Hn, Hr, Hnn, Hnr.
Qed.

Lemma session_safe_same f σ τ : same_session σ τ → session_safe f σ → session_safe f τ.
Proof.
  intros [Hg Hc _] (Hs & Hcat & Hb). destruct (session_bytes_same f σ τ Hg Hc) as [Hbytes Hp].
  unfold session_safe. rewrite Hp, Hc. split_and!; [done..|]. destruct f; [done|]. by rewrite Hbytes.
Qed.

(** *** Loading the primary file *)

Definition replay_log (r : result (list DurableOperation)) (base : SessionState)
    : result LoadSource * SessionState :=
  match r ≫= λ ops, replay ops base with
  | Ok τ => (Ok LoadPrimary, τ)
  | Err e => (Err e, base)
  end.

Lemma finish_load_runs p base fs :
  finish_load p LoadPrimary base [] fs
  = (Done (replay_log (log_records (log_bytes p fs)) base), [], fs).
Proof.
  unfold finish_load, apply_session_log, mbind, io_bind. rewrite read_operations_runs.
  unfold replay_log. destruct (log_records _) as [ops|e]; cbn; [|done]. by destruct (replay ops base).
Qed.

Lemma load_workspace_runs f p σ0 bs base fs :
  fs !! file_key p = Some bs → session_of f bs = Some (Ok base) →
  load_workspace_with_source f p σ0 [] fs
  = (Done (replay_log (log_records (log_bytes p fs)) base), [], fs).
Proof.
  intros Hfile Hof. destruct f; cbn [session_of load_workspace_with_source] in *.
  - destruct (utf8_valid bs) eqn:Hutf; [|done]. apply fmap_Some in Hof as (q & Hq & [= ->]).
    unfold load_from_json_with_source, or_keep. rewrite read_to_string_runs, Hfile, Hutf, Hq.
    apply finish_load_runs.
  - destruct (N.leb_spec (N.of_nat (String.length bs)) MAX_BINARY_SESSION_FILE_BYTES) as [Hl|];
      [|done]. apply fmap_Some in Hof as (q & Hq & Hb).
    unfold load_from_binary_with_source, read_limited_binary_session_file, or_keep, fs_metadata_len,
      io_call. rewrite Hfile. cbn -[MAX_BINARY_SESSION_FILE_BYTES].
    rewrite (proj2 (N.ltb_ge _ _)) by done. rewrite fs_read_runs, Hfile, Hq, <-Hb.
    apply finish_load_runs.
Qed.

(** *** How a checkpoint may end *)

Lemma io_post_clear_log p (Q : Files.outcome unit → FileSys → Prop) fs :
  (∀ r, r ≠ Done tt → Q r fs) →
  (∀ r, Q r (delete (file_key (log_path p)) fs)) →
  (fs !! file_key (log_path p) = None → Q (Done tt) fs) →
  io_post (clear_log p) Q fs.
Proof.
  intros Hno Hgone Hnone fl. unfold clear_log, fs_remove_file, io_call.
  destruct fl as [|[|n|n] fl]; [| |by apply Hno..].
  all: destruct (fs !! file_key (log_path p)) as [bs|] eqn:Hl; cbn; [|by apply Hnone].
  all: pose proof (io_post_sync_parent_dir Q (delete (file_key (log_path p)) fs)
         (λ r, Hgone r)) as Hs.
  - apply (Hs []).
  - apply (Hs fl).
Qed.

(** The snapshot is the old one or the new one; the log is the old one, or gone
    with the new snapshot in place. *)
Record checkpointed p (bs : string) fs (r : Files.outcome (result unit)) fs' : Prop := {
  cp_file : fs' !! file_key p = fs !! file_key p ∨ fs' !! file_key p = Some bs;
  cp_log : log_bytes p fs' = log_bytes p fs ∨
           log_bytes p fs' = "" ∧ fs' !! file_key p = Some bs;
  cp_done : r = Done (Ok tt) → fs' !! file_key p = Some bs ∧ log_bytes p fs' = "";
}.

Lemma or_abort_post {A} (m : io unit) e (k : io (result A))
    (Q : Files.outcome (result A) → FileSys → Prop) fs :
  io_post m (λ r fs, match r with
                     | Done _ => io_post k Q fs
                     | Failed _ => Q (Done (Err e)) fs
                     | Crashed => Q Crashed fs
                     end) fs →
  io_post (or_abort m e (λ _, k)) Q fs.
Proof.
  intros Hm fl. specialize (Hm fl). unfold or_abort.
  destruct (m fl fs) as [[[a|e'|] fl'] fs']; [apply Hm|done..].
Qed.

Lemma save_workspace_post f tags p σ bs fs :
  session_bytes f σ = Ok bs →
  io_post (save_workspace f tags p σ) (checkpointed p bs fs) fs.
Proof.
  intros Hbs.
  assert (∀ e1 e2, io_post (or_abort (write_file_atomically_with_backup tags p bs) e1
    (λ _, or_abort (clear_log p) e2 (λ _, mret (Ok tt)))) (checkpointed p bs fs) fs) as Hsave.
  { intros e1 e2. apply or_abort_post. eapply io_post_mono; [apply write_with_backup_post|].
    intros r fs1 [Hframe Hfile _ Hdone].
    assert (log_bytes p fs1 = log_bytes p fs) as Hlog.
    { unfold log_bytes. rewrite Hframe; [done|]. rewrite !not_elem_of_cons.
      pose proof (log_path_ne p). pose proof (temp_ne_log tags.1 p).
      pose proof (backup_log_ne p). pose proof (backup_temp_ne_log tags.2 p).
      split_and!; try congruence. apply not_elem_of_nil. }
    assert (∀ r', r' ≠ Done (Ok tt) → checkpointed p bs fs r' fs1) as Hbad.
    { intros r' Hr'. split; [done|by left|done]. }
    destruct r as [[]|e|]; [|by apply Hbad..]. destruct (Hdone eq_refl) as [Hp _].
    apply or_abort_post. apply io_post_clear_log.
    - intros r Hr. destruct r as [[]|e|]; [done|by apply Hbad..].
    - assert (delete (file_key (log_path p)) fs1 !! file_key p = Some bs) as Hp'
        by (rewrite lookup_delete_ne; [done|apply log_path_ne]).
      assert (log_bytes p (delete (file_key (log_path p)) fs1) = "") as Hl'
        by (unfold log_bytes; by rewrite lookup_delete_eq).
      intros r. assert (∀ r', checkpointed p bs fs r' (delete (file_key (log_path p)) fs1)) as Hc
        by (intros r'; split; [by right|by right|by split]).
      destruct r as [[]|e|]; [by apply io_post_ret|apply Hc..].
    - intros Hnone. apply io_post_ret. split; [by right|by left|]. intros _. split; [done|].
      unfold log_bytes. by rewrite Hnone. }
  destruct f; cbn [session_bytes save_workspace] in *.
  - unfold save_to_json. apply ok_or_Ok in Hbs as ->. apply Hsave.
  - unfold save_to_binary. apply bind_Ok in Hbs as (graph & -> & Hbs).
    apply ok_or_Ok in Hbs as ->. apply Hsave.
Qed.

(** No temporary file is in the way of a checkpoint. *)
Definition fresh_temps (tags : string * string) p fs : Prop :=
  fs !! file_key (atomic_temp_path tags.1 p) = None ∧
  fs !! file_key (atomic_temp_path tags.2 (backup_path p)) = None.

Lemma save_workspace_runs f tags p σ bs fs :
  session_bytes f σ = Ok bs → fresh_temps tags p fs →
  ∃ fs', save_workspace f tags p σ [] fs = (Done (Ok tt), [], fs').
Proof.
  intros Hbs [Ht1 Ht2].
  assert (∀ e1 e2, ∃ fs', or_abort (write_file_atomically_with_backup tags p bs) e1
    (λ _, or_abort (clear_log p) e2 (λ _, mret (Ok tt))) [] fs = (Done (Ok tt), [], fs')) as Hsave.
  { intros e1 e2. unfold or_abort. rewrite write_with_backup_runs by done.
    unfold clear_log, fs_remove_file, io_call. cbn. destruct (_ !! file_key (log_path p)); by eexists. }
  destruct f; cbn [session_bytes save_workspace] in *.
  - unfold save_to_json. apply ok_or_Ok in Hbs as ->. apply Hsave.
  - unfold save_to_binary. apply bind_Ok in Hbs as (graph & -> & Hbs).
    apply ok_or_Ok in Hbs as ->. apply Hsave.
Qed.

End checkpoints.
