(* ===== verification/Serializers.v ===== *)
(** * A concrete serializer of sessions

    A function the laws of [Durable] hold of, for the witnesses: a session is a
    string of binary digits, a log record one between braces; and the theorems
    on the log at small files. *)

From stdpp Require Import countable.
From S2P Require Export Codec Durable.

Local Open Scope string_scope.

(** ** The catalog is countable *)

#[export] Program Instance RuntimeValueType_countable : Countable RuntimeValueType :=
  inj_countable type_keyword type_parse_keyword _.
Next Obligation. by intros []; vm_compute. Qed.

#[export] Program Instance RuntimeField_countable : Countable RuntimeField :=
  inj_countable' (λ f, (field_name f, field_type f, field_required f))
    (λ '(n, t, r), {| field_name := n; field_type := t; field_required := r |}) _.
Next Obligation. by intros []. Qed.

#[export] Program Instance RuntimeSchemaOrigin_countable : Countable RuntimeSchemaOrigin :=
  inj_countable' (λ o, match o with Declared => true | Inferred => false end)
    (λ b : bool, if b then Declared else Inferred) _.
Next Obligation. by intros []. Qed.

#[export] Program Instance BackendIdType_countable : Countable BackendIdType :=
  inj_countable' (λ t, match t with IdInt64 => true | IdUuid => false end)
    (λ b : bool, if b then IdInt64 else IdUuid) _.
Next Obligation. by intros []. Qed.

#[export] Program Instance RuntimeNodeModel_countable : Countable RuntimeNodeModel :=
  inj_countable'
    (λ m, (nm_name m, nm_label m, nm_id_field m, nm_id_type m, nm_origin m, nm_fields m))
    (λ '(n, l, i, t, o, f), {| nm_name := n; nm_label := l; nm_id_field := i; nm_id_type := t;
                               nm_origin := o; nm_fields := f |}) _.
Next Obligation. by intros []. Qed.

#[export] Program Instance RuntimeRelModel_countable : Countable RuntimeRelModel :=
  inj_countable'
    (λ m, (rm_name m, rm_rel_type m, rm_from_model m, rm_to_model m, rm_id_field m, rm_id_type m,
           rm_origin m, rm_fields m))
    (λ '(n, r, a, b, i, t, o, f),
       {| rm_name := n; rm_rel_type := r; rm_from_model := a; rm_to_model := b;
          rm_id_field := i; rm_id_type := t; rm_origin := o; rm_fields := f |}) _.
Next Obligation. by intros []. Qed.

#[export] Program Instance SessionModelCatalog_countable : Countable SessionModelCatalog :=
  inj_countable' (λ c, (node_models c, rel_models c))
    (λ '(n, r), {| node_models := n; rel_models := r |}) _.
Next Obligation. by intros []. Qed.

(** ** Sessions and operations are countable *)

Section serializer.
#[local] Existing Instance serde_default.

#[export] Instance PersistedSession_eq_dec : EqDecision PersistedSession.
Proof. solve_decision. Defined.
#[export] Program Instance PersistedSession_countable : Countable PersistedSession :=
  inj_countable' (λ p, (pss_graph p, pss_catalog p))
    (λ '(g, c), {| pss_graph := g; pss_catalog := c |}) _.
Next Obligation. by intros []. Qed.

#[export] Instance BinaryPersistedSession_eq_dec : EqDecision BinaryPersistedSession.
Proof. solve_decision. Defined.
#[export] Program Instance BinaryPersistedSession_countable : Countable BinaryPersistedSession :=
  inj_countable' (λ p, (bps_graph p, bps_catalog p))
    (λ '(g, c), {| bps_graph := g; bps_catalog := c |}) _.
Next Obligation. by intros []. Qed.

Definition OpLeaf : Type := (RuntimeNodeModel + RuntimeRelModel) + (StoredNode + StoredRel) + (Z + Z).

Fixpoint op_code (op : DurableOperation) : gen_tree OpLeaf :=
  match op with
  | RegisterNodeModel m => GenLeaf (inl (inl (inl m)))
  | RegisterRelModel m => GenLeaf (inl (inl (inr m)))
  | UpsertNode n => GenLeaf (inl (inr (inl n)))
  | UpsertRel r => GenLeaf (inl (inr (inr r)))
  | DurDeleteNode id => GenLeaf (inr (inl id))
  | DurDeleteRel id => GenLeaf (inr (inr id))
  | DurBatch ops => GenNode 0 (map op_code ops)
  end.
Fixpoint op_decode (t : gen_tree OpLeaf) : DurableOperation :=
  match t with
  | GenLeaf (inl (inl (inl m))) => RegisterNodeModel m
  | GenLeaf (inl (inl (inr m))) => RegisterRelModel m
  | GenLeaf (inl (inr (inl n))) => UpsertNode n
  | GenLeaf (inl (inr (inr r))) => UpsertRel r
  | GenLeaf (inr (inl id)) => DurDeleteNode id
  | GenLeaf (inr (inr id)) => DurDeleteRel id
  | GenNode _ l => DurBatch (map op_decode l)
  end.

(** The batches of the program are one level deep, [op_safe] says. *)
Lemma simple_op_decode op : simple_op_safe op → op_decode (op_code op) = op.
Proof. by destruct op. Qed.
Lemma op_decode_code op : op_safe op → op_decode (op_code op) = op.
Proof.
  destruct op as [| | | | | |ops]; try done. intros Hops. cbn. f_equal. rewrite map_map.
  induction Hops as [|op ops Hop _ IH]; cbn; [done|]. by rewrite IH, simple_op_decode.
Qed.

(** ** The serializer *)

Definition braced_op (l : string) : option DurableOperation :=
  r ← str_strip_prefix "{" l; d ← str_strip_suffix "}" r; op_decode <$> of_digits d.

Lemma braced_op_braces d : braced_op ("{" +:+ (d +:+ "}")) = op_decode <$> of_digits d.
Proof.
  unfold braced_op. rewrite str_strip_prefix_app. cbn [mbind option_bind].
  by rewrite str_strip_suffix_app.
Qed.

#[export] Instance digits_session_codec : SessionCodec := {|
  json_of_session p := Some (to_digits p);
  session_of_json := of_digits;
  bytes_of_session p := Some (to_digits p);
  session_of_bytes := of_digits;
  line_of_op op := Some ("{" +:+ to_digits (op_code op) +:+ "}");
  op_of_line := braced_op;
|}.

Lemma to_digits_chars {A} `{Countable A} (P : ascii → bool) (a : A) :
  P "0"%char = true → P "1"%char = true → all_chars P (to_digits a) = true.
Proof.
  intros H0 H1. unfold to_digits. induction (encode a) as [p IH|p IH|]; cbn; [| |done];
    by rewrite ?H0, ?H1.
Qed.

Lemma pos_of_digits_brace s t : pos_of_digits (s +:+ String "{" t) = None.
Proof.
  induction s as [|c s IH]; [done|]. cbn.
  destruct c as [[] [] [] [] [] [] [] []]; try done; by rewrite IH.
Qed.

Lemma digits_session_laws : SessionLaws.
Proof.
  split.
  - intros p. exact (mk_is_Some _ _ eq_refl).
  - intros p b [= <-]. apply to_digits_utf8.
  - intros p b [= <-] _ _. apply of_to_digits.
  - intros p. exact (mk_is_Some _ _ eq_refl).
  - intros p b [= <-] _ _ _. apply of_to_digits.
  - intros op. exact (mk_is_Some _ _ eq_refl).
  - intros op b [= <-]. split; [|done]. unfold lacks. cbn. rewrite all_chars_app.
    by rewrite to_digits_chars.
  - intros op b [= <-] Hop. change (braced_op ("{" +:+ (to_digits (op_code op) +:+ "}")) = Some op).
    rewrite braced_op_braces, of_to_digits. cbn. by rewrite op_decode_code.
  - intros op op' start rest b Hline Hne [= <-].
    destruct start as [|c start]; [done|]. injection Hline as <- _.
    change (braced_op ("{" +:+ (start +:+ (String "{" (to_digits (op_code op')) +:+ "}"))) = None).
    rewrite <-(append_assoc start), braced_op_braces. unfold of_digits.
    by rewrite pos_of_digits_brace.
Qed.
End serializer.

(** ** The log at small files *)

Section log_witnesses.
Existing Instances serde_default w_formats digits_codec digits_codec_laws digits_session_codec
  digits_session_laws.

Definition op_line (op : DurableOperation) : string := "{" +:+ (to_digits (op_code op) +:+ "}").

Definition w_log_ops : list DurableOperation := [DurDeleteNode 4; DurDeleteRel 2].
Definition w_torn_op : DurableOperation := DurBatch [DurDeleteRel 7; DurDeleteNode 5].
Definition w_torn : string := String.substring 0 6 (op_line w_torn_op).

Definition w_log (tail : string) : FileSys :=
  {[file_key (log_path w_path) := unlines (map op_line w_log_ops) +:+ tail]}.

Lemma w_log_holds tail : lacks newline tail = true → log_holds w_path (w_log tail) w_log_ops tail.
Proof.
  intros Ht. split; [|repeat constructor|done]. exists (map op_line w_log_ops).
  split; [repeat constructor|]. unfold log_bytes, w_log.
  by rewrite lookup_singleton_eq.
Qed.

(** A blank line between two records, and a torn one at the end. *)
Lemma log_is_read_to_the_end_witness :
  let ls := [op_line (DurDeleteNode 4); " "; op_line (DurDeleteRel 2)] in
  let bs := unlines ls +:+ w_torn in
  read_loop (S (String.length bs)) bs 0 []
  = Some (mapM read_record (filter (λ l, negb (blank l)) ls)).
Proof.
  intros ls bs. apply (log_is_read_to_the_end bs ls w_torn);
    [by repeat constructor|by vm_compute|reflexivity].
Defined.


Lemma append_after_torn_record_witness :
  read_operations w_path [] (w_log w_torn) = (Done (Ok w_log_ops), [], w_log w_torn) ∧
  ∃ fs', append_operation w_path (DurDeleteNode 9) [] (w_log w_torn) = (Done tt, [], fs') ∧
    read_operations w_path [] fs' = (Done (Err malformed_record), [], fs').
Proof.
  destruct (substring_split 6 (op_line w_torn_op)) as [rest Hrest].
  apply (append_after_torn_record w_path (DurDeleteNode 9) w_torn_op w_torn rest);
    [by apply w_log_holds; vm_compute|by vm_compute|exact (f_equal Some Hrest)].
Defined.

Lemma w_session_safe : session_safe DurJson w_session.
Proof. split; [|split; [|done]]; split; apply (bool_decide_unpack _); vm_compute; exact I. Qed.

End log_witnesses.
