(* ===== verification/Workspace.v ===== *)
(** * The autocommitting workspace ([src/src/runtime/workspace.rs])

    A workspace runs requests on a session, appends the durable operations they
    answer to the log of a session file, and checkpoints the session every
    eight of them. *)

From S2P Require Export Durable Serializers.

Local Open Scope string_scope.

Definition AUTOCOMMIT_CHECKPOINT_INTERVAL : nat := 8.

Record WorkspaceAutocommitTarget := {
  at_format : DurabilityFormat;
  at_path : Path;
  at_pending_entries : nat;
}.

Section workspace.
Context `{SerdeNumber} `{Formats} `{!SnapshotCodec} `{!SessionCodec}.

(** How the standard library shows a path and an error of the system. *)
Class IoText := {
  path_display : Path → string;
  io_error_text : io_error → string;
}.
Context `{!IoText}.

Record Workspace := {
  ws_state : SessionState;
  ws_autocommit : option WorkspaceAutocommitTarget;
}.

Definition from_state (σ : SessionState) : Workspace :=
  {| ws_state := σ; ws_autocommit := None |}.
Definition Workspace_new : Workspace := from_state session_new.

Definition set_pending (n : nat) (target : WorkspaceAutocommitTarget)
    : WorkspaceAutocommitTarget :=
  {| at_format := at_format target; at_path := at_path target; at_pending_entries := n |}.
Definition set_target (target : WorkspaceAutocommitTarget) (w : Workspace) : Workspace :=
  {| ws_state := ws_state w; ws_autocommit := Some target |}.

(** [SessionState::append_durable_operation] *)
Definition append_durable_operation (path : Path) (entry : DurableOperation) : io (result unit) :=
  λ fl fs,
    match append_operation path entry fl fs with
    | (Done _, fl, fs) => (Done (Ok tt), fl, fs)
    | (Failed err, fl, fs) =>
        (Done (Err (Backend ("failed to append durable operation for '" +:+ path_display path
                             +:+ "': " +:+ io_error_text err))), fl, fs)
    | (Crashed, fl, fs) => (Crashed, fl, fs)
    end.

(** [SessionState::load_workspace] *)
Definition load_workspace (format : DurabilityFormat) (path : Path) (σ : SessionState)
    : io (result unit * SessionState) :=
  load_workspace_with_source format path σ ≫= λ '(r, σ), mret (M:=io) ((λ _, tt) <$> r, σ).

Definition enable_autocommit (tags : string * string) (format : DurabilityFormat) (path : Path)
    (w : Workspace) : io (result unit * Workspace) :=
  checkpoint_durable format tags path (ws_state w) ≫= λ r,
  mret (M:=io)
    match r with
    | Ok _ => (Ok tt, set_target {| at_format := format; at_path := path;
                                    at_pending_entries := 0 |} w)
    | Err e => (Err e, w)
    end.

Definition load (format : DurabilityFormat) (path : Path) : io (result Workspace) :=
  load_workspace format path session_new ≫= λ '(r, σ),
  mret (M:=io) ((λ _, from_state σ) <$> r).
Definition open (format : DurabilityFormat) (path : Path) : io (result Workspace) :=
  load format path.

Definition open_autocommit (tags : string * string) (format : DurabilityFormat) (path : Path)
    : io (result Workspace) :=
  open format path ≫= λ r,
  match r return io (result Workspace) with
  | Err e => mret (M:=io) (Err e)
  | Ok w =>
      enable_autocommit tags format path w ≫= λ '(r, w), mret (M:=io) ((λ _, w) <$> r)
  end.

Definition autocommit_failed (path : Path) (err : GrmError) : GrmError :=
  Backend ("workspace autocommit failed for '" +:+ path_display path +:+ "': "
           +:+ error_to_string err).

(** The loop over the operations: an error leaves the count of those before. *)
Fixpoint append_ops (ops : list DurableOperation) (target : WorkspaceAutocommitTarget)
    : io (result unit * WorkspaceAutocommitTarget) :=
  match ops with
  | [] => mret (M:=io) (Ok tt, target)
  | op :: ops =>
      append_durable_operation (at_path target) op ≫= λ r,
      match r with
      | Err err => mret (M:=io) (Err (autocommit_failed (at_path target) err), target)
      | Ok _ => append_ops ops (set_pending (S (at_pending_entries target)) target)
      end
  end.

Definition checkpoint_autocommit (tags : string * string) (w : Workspace) : io (result unit * Workspace) :=
  match ws_autocommit w with
  | None => mret (M:=io) (Ok tt, w)
  | Some target =>
      checkpoint_durable (at_format target) tags (at_path target) (ws_state w) ≫= λ r,
      mret (M:=io)
        match r with
        | Err err => (Err (autocommit_failed (at_path target) err), w)
        | Ok _ => (Ok tt, set_target (set_pending 0 target) w)
        end
  end.

Definition persist_autocommit_ops (tags : string * string) (ops : list DurableOperation)
    (w : Workspace) : io (result unit * Workspace) :=
  match ops with
  | [] => mret (M:=io) (Ok tt, w)
  | _ =>
      match ws_autocommit w with
      | None => mret (M:=io) (Ok tt, w)
      | Some target =>
          append_ops ops target ≫= λ '(r, target),
          let w := set_target target w in
          match r with
          | Err e => mret (M:=io) (Err e, w)
          | Ok _ =>
              if (AUTOCOMMIT_CHECKPOINT_INTERVAL <=? at_pending_entries target)%nat
              then checkpoint_autocommit tags w
              else mret (M:=io) (Ok tt, w)
          end
      end
  end.

(** [Workspace::execute_runtime] *)
Definition workspace_execute (tags : string * string) (request : RuntimeRequest) (w : Workspace)
    : io (result RuntimeDispatchOutcome * Workspace) :=
  let '(res, σ) := execute_runtime request (ws_state w) in
  let w := {| ws_state := σ; ws_autocommit := ws_autocommit w |} in
  match res with
  | Err e => mret (M:=io) (Err e, w)
  | Ok o =>
      persist_autocommit_ops tags (do_durable_ops o) w ≫= λ '(r, w),
      mret (M:=io) ((λ _, o) <$> r, w)
  end.

(** [save] and [checkpoint] are those of the session. *)
Definition workspace_save (tags : string * string) (format : DurabilityFormat) (path : Path)
    (w : Workspace) : io (result unit) := save_workspace format tags path (ws_state w).
Definition workspace_checkpoint (tags : string * string) (format : DurabilityFormat) (path : Path)
    (w : Workspace) : io (result unit) := checkpoint_durable format tags path (ws_state w).
End workspace.

(** ** Every request survives a restart *)

Section restarts.
Context `{SerdeNumber} `{Formats} `{!SnapshotCodec} `{!SnapshotLaws}
  `{!SessionCodec} `{!SessionLaws} `{!IoText}.
Implicit Types (fs : FileSys) (σ τ : SessionState) (w : Workspace) (f : DurabilityFormat) (p : Path).

(** The files of [p] hold a snapshot and the log of the operations since. *)
Record durable f p fs σ ops : Prop := {
  du_file : ∃ bs base, fs !! file_key p = Some bs ∧ session_of f bs = Some (Ok base) ∧
    ∃ τ, replay ops base = Ok τ ∧ same_session σ τ;
  du_log : log_holds p fs ops "";
}.

Lemma durable_loads f p fs σ ops tail σ0 bs base τ :
  fs !! file_key p = Some bs → session_of f bs = Some (Ok base) →
  replay ops base = Ok τ → log_holds p fs ops tail →
  load_workspace_with_source f p σ0 [] fs = (Done (Ok LoadPrimary, τ), [], fs).
Proof.
  intros Hfile Hof Hrep Hlog. rewrite (load_workspace_runs _ _ _ _ _ _ Hfile Hof).
  rewrite (log_holds_records _ _ _ _ Hlog). unfold replay_log. cbn. by rewrite Hrep.
Qed.

Lemma replay_app ops ops' base τ :
  replay ops base = Ok τ → replay (ops ++ ops') base = replay ops' τ.
Proof.
  unfold replay. rewrite try_fold_app. by intros ->.
Qed.

(** An append that does not end with success keeps what is durable, or adds
    the operation. *)
Lemma appended_durable f p fs σ σ' ops op line r fs' :
  durable f p fs σ ops → op_safe op → line_of_op op = Some line →
  (∀ τ, same_session σ τ → ∃ τ', replay [op] τ = Ok τ' ∧ same_session σ' τ') →
  appended p line fs r fs' →
  (∃ tail bs base τ, fs' !! file_key p = Some bs ∧ session_of f bs = Some (Ok base) ∧
     replay ops base = Ok τ ∧ same_session σ τ ∧ log_holds p fs' ops tail ∧ r ≠ Done tt) ∨
  durable f p fs' σ' (ops ++ [op]).
Proof.
  intros [(bs & base & Hfile & Hof & τ & Hrep & Hsame) Hlog] Hop Hline Hstep Had.
  assert (fs' !! file_key p = Some bs) as Hfile'.
  { rewrite (ad_frame _ _ _ _ _ Had); [done|]. intros Hin%list_elem_of_singleton.
    by apply (log_path_ne p). }
  destruct (appended_holds _ _ _ _ _ _ _ Hline Hop Hlog Had) as [(t & rest & _ & Ht & Hr)|Ht].
  - left. exists t, bs, base, τ. done.
  - right. split; [|done]. exists bs, base. split_and!; [done..|].
    destruct (Hstep τ Hsame) as (τ' & Hrep' & Hsame'). exists τ'.
    by rewrite (replay_app _ _ _ _ Hrep).
Qed.

(** A checkpoint starts over with an empty log. *)
Lemma checkpoint_durably f tags p σ fs :
  session_inv σ → session_safe f σ → fresh_temps tags p fs →
  ∃ fs', checkpoint_durable f tags p σ [] fs = (Done (Ok tt), [], fs') ∧ durable f p fs' σ [].
Proof.
  intros Hinv Hsafe Hfresh. destruct (session_snapshot_ok f σ Hsafe) as (bs & Hbs & Hof).
  destruct (save_workspace_runs f tags p σ bs fs Hbs Hfresh) as [fs' Hrun].
  exists fs'. split; [done|].
  pose proof (io_post_run _ _ _ _ _ _ _ (save_workspace_post f tags p σ bs fs Hbs) Hrun)
    as [_ _ Hdone].
  destruct (Hdone eq_refl) as [Hfile Hlog]. split.
  - exists bs, (reload_session σ). split_and!; [done..|]. exists (reload_session σ).
    split; [done|]. apply reload_session_same, Hinv.
  - split; [|constructor|done]. exists []. split; [constructor|]. by rewrite Hlog.
Qed.

(** What holds of a workspace that commits to [p]. *)
Record committing f p w fs : Prop := {
  cm_session : session_inv (ws_state w);
  cm_safe : session_safe f (ws_state w);
  cm_target : ∃ ops, ws_autocommit w = Some {| at_format := f; at_path := p;
      at_pending_entries := length ops |} ∧
    (length ops < AUTOCOMMIT_CHECKPOINT_INTERVAL)%nat ∧ durable f p fs (ws_state w) ops;
}.

Lemma enable_commits f p tags w fs :
  session_inv (ws_state w) → session_safe f (ws_state w) → fresh_temps tags p fs →
  ∃ w' fs', enable_autocommit tags f p w [] fs = (Done (Ok tt, w'), [], fs') ∧
    ws_state w' = ws_state w ∧ committing f p w' fs'.
Proof.
  intros Hinv Hsafe Hfresh.
  destruct (checkpoint_durably f tags p _ fs Hinv Hsafe Hfresh) as (fs' & Hrun & Hdur).
  eexists _, fs'. unfold enable_autocommit, mbind, io_bind. rewrite Hrun.
  split; [reflexivity|]. split; [done|]. split; [done..|]. exists []. split; [done|].
  split; [cbn; unfold AUTOCOMMIT_CHECKPOINT_INTERVAL; lia|done].
Qed.

(** The conditions under which a request is durable: ids are left for it, the
    session it leaves can be written in the format, and so can its operations. *)
Record request_ok f (r : RuntimeRequest) σ : Prop := {
  ro_room : room_for (request_size r) σ;
  ro_safe : session_safe f (execute_runtime r σ).2;
  ro_ops : Forall op_safe (ops_of (execute_runtime r σ).1);
}.

Lemma append_durable_runs p op line fs :
  line_of_op op = Some line →
  ∃ fs', append_durable_operation p op [] fs = (Done (Ok tt), [], fs') ∧
    appended p line fs (Done tt) fs'.
Proof.
  intros Hline. destruct (append_operation_runs p op line fs Hline) as [fs' Hrun].
  exists fs'. unfold append_durable_operation. rewrite Hrun. split; [done|].
  apply (io_post_run _ _ _ _ _ _ _ (append_operation_post p op line fs Hline) Hrun).
Qed.

Lemma fresh_temps_frame tags p fs fs' :
  fresh_temps tags p fs → only_changed [file_key (log_path p)] fs fs' → fresh_temps tags p fs'.
Proof.
  intros [Hf1 Hf2] Hframe. pose proof (temp_ne_log tags.1 p). pose proof (backup_temp_ne_log tags.2 p).
  split; rewrite Hframe; try done; by intros Hin%list_elem_of_singleton.
Qed.

(** A step that answers no operation keeps what is durable. *)
Lemma durable_read f p fs σ σ' ops :
  durable f p fs σ ops →
  (∀ τ, same_session σ τ → ∃ τ', replay [] τ = Ok τ' ∧ same_session σ' τ') →
  durable f p fs σ' ops.
Proof.
  intros [(bs & base & Hfile & Hof & τ & Hrep & Hsame) Hlog] Hstep. split; [|done].
  exists bs, base. split_and!; [done..|]. exists τ. split; [done|].
  by destruct (Hstep τ Hsame) as (τ' & [= <-] & ?).
Qed.

Lemma committing_read f p w fs σ' :
  committing f p w fs → session_inv σ' → session_safe f σ' →
  (∀ τ, same_session (ws_state w) τ → ∃ τ', replay [] τ = Ok τ' ∧ same_session σ' τ') →
  committing f p {| ws_state := σ'; ws_autocommit := ws_autocommit w |} fs.
Proof.
  intros [_ _ (ops & Htarget & Hlen & Hdur)] Hinv Hsafe Hstep. split; [done..|].
  exists ops. split_and!; [done..|]. by eapply durable_read.
Qed.

(** Appending the operation of a request, and the checkpoint every eighth. *)
Lemma persist_commits f p tags w fs σ' op :
  committing f p w fs → session_inv σ' → session_safe f σ' → op_safe op →
  (∀ τ, same_session (ws_state w) τ → ∃ τ', replay [op] τ = Ok τ' ∧ same_session σ' τ') →
  fresh_temps tags p fs →
  ∃ w' fs', persist_autocommit_ops tags [op]
      {| ws_state := σ'; ws_autocommit := ws_autocommit w |} [] fs = (Done (Ok tt, w'), [], fs') ∧
    ws_state w' = σ' ∧ committing f p w' fs'.
Proof.
  intros [_ _ (ops & Htarget & Hlen & Hdur)] Hinv Hsafe Hop Hstep Hfresh.
  destruct (line_of_op_total op) as [line Hline].
  destruct (append_durable_runs p op line fs Hline) as (fs1 & Hrun & Had).
  destruct (appended_durable _ _ _ _ _ _ _ _ _ _ Hdur Hop Hline Hstep Had)
    as [(? & ? & ? & ? & _ & _ & _ & _ & _ & Hne)|Hdur1]; [by destruct Hne|].
  unfold persist_autocommit_ops. rewrite Htarget. cbn [ws_autocommit append_ops at_path].
  unfold mbind, io_bind. rewrite Hrun. cbn -[Nat.leb AUTOCOMMIT_CHECKPOINT_INTERVAL].
  destruct (Nat.leb_spec AUTOCOMMIT_CHECKPOINT_INTERVAL (S (length ops))) as [Hge|Hlt].
  - pose proof (fresh_temps_frame _ _ _ _ Hfresh (ad_frame _ _ _ _ _ Had)) as Hfresh1.
    destruct (checkpoint_durably f tags p σ' fs1 Hinv Hsafe Hfresh1) as (fs2 & Hcp & Hdur2).
    eexists _, fs2. unfold checkpoint_autocommit, mbind, io_bind. cbn. rewrite Hcp.
    split; [reflexivity|]. split; [done|]. split; [done..|]. exists [].
    split_and!; [done| |done]. cbn. unfold AUTOCOMMIT_CHECKPOINT_INTERVAL. lia.
  - eexists _, fs1. split; [reflexivity|]. split; [done|]. split; [done..|].
    exists (ops ++ [op])%list. cbn. rewrite length_app. cbn.
    rewrite Nat.add_1_r. split_and!; [done|unfold AUTOCOMMIT_CHECKPOINT_INTERVAL in *; lia|done].
Qed.

Lemma execute_commits f p tags r w fs :
  committing f p w fs → request_ok f r (ws_state w) → fresh_temps tags p fs →
  ∃ w' fs', workspace_execute tags r w [] fs
      = (Done ((execute_runtime r (ws_state w)).1, w'), [], fs') ∧
    ws_state w' = (execute_runtime r (ws_state w)).2 ∧ committing f p w' fs'.
Proof.
  intros Hc [Hroom Hsafe Hops] Hfresh.
  pose proof (execute_runtime_ok r (ws_state w) (cm_session _ _ _ _ Hc) Hroom) as Hd.
  unfold workspace_execute. destruct (execute_runtime r (ws_state w)) as [res σ'].
  cbn [fst snd] in *. destruct Hd as [Hinv Hstep Hone]. destruct res as [o|e]; cbn [ops_of] in *.
  2: { eexists _, fs. split; [reflexivity|]. split; [done|]. by apply committing_read. }
  destruct (do_durable_ops o) as [|op [|op' ops]] eqn:Ho; [| |cbn in Hone; lia].
  - eexists _, fs. cbn. split; [reflexivity|]. split; [done|]. by apply committing_read.
  - apply Forall_cons in Hops as [Hop _].
    destruct (persist_commits f p tags w fs σ' op Hc Hinv Hsafe Hop Hstep Hfresh)
      as (w' & fs' & Hrun & Hw & Hc'). exists w', fs'.
    unfold mbind, io_bind. rewrite Hrun. done.
Qed.

(** Loading what a workspace committed to. *)
Lemma committing_loads f p w fs :
  committing f p w fs →
  ∃ τ, (∀ σ0, load_workspace_with_source f p σ0 [] fs = (Done (Ok LoadPrimary, τ), [], fs)) ∧
       same_session (ws_state w) τ.
Proof.
  intros [_ _ (ops & _ & _ & [(bs & base & Hfile & Hof & τ & Hrep & Hsame) Hlog])].
  exists τ. split; [|done]. intros σ0. by eapply durable_loads.
Qed.

Lemma same_session_inv σ τ : same_session σ τ → session_inv σ → session_inv τ.
Proof.
  intros Hsame [Hr Hcat Hconf]. split; [by eapply same_ready| |];
    destruct Hsame as [Hg Hm _]; [by rewrite Hm|by rewrite Hm, Hg].
Qed.

Lemma reopen_commits f p tags w fs :
  committing f p w fs → fresh_temps tags p fs →
  ∃ w' fs', open_autocommit tags f p [] fs = (Done (Ok w'), [], fs') ∧
    same_session (ws_state w) (ws_state w') ∧ committing f p w' fs'.
Proof.
  intros Hc Hfresh. destruct (committing_loads _ _ _ _ Hc) as (τ & Hload & Hsame).
  destruct (enable_commits f p tags (from_state τ) fs) as (w' & fs' & Hrun & Hw & Hc'); [| |done|].
  - eapply same_session_inv; [done|apply Hc].
  - eapply session_safe_same; [done|apply Hc].
  - exists w', fs'. split; [|by rewrite Hw].
    unfold open_autocommit, open, load, load_workspace, mbind, io_bind. rewrite Hload. cbn.
    by rewrite Hrun.
Qed.

(** *** The life of a workspace *)

(** Enabled on a session, it runs requests and is closed and opened again. *)
Inductive ws_reach f p : Workspace → FileSys → Prop :=
  | reach_enable tags w fs w' fs' :
      session_inv (ws_state w) → session_safe f (ws_state w) → fresh_temps tags p fs →
      enable_autocommit tags f p w [] fs = (Done (Ok tt, w'), [], fs') → ws_reach f p w' fs'
  | reach_execute tags r w fs res w' fs' :
      ws_reach f p w fs → request_ok f r (ws_state w) → fresh_temps tags p fs →
      workspace_execute tags r w [] fs = (Done (res, w'), [], fs') → ws_reach f p w' fs'
  | reach_reopen tags w fs w' fs' :
      ws_reach f p w fs → fresh_temps tags p fs →
      open_autocommit tags f p [] fs = (Done (Ok w'), [], fs') → ws_reach f p w' fs'.

Lemma reach_commits f p w fs : ws_reach f p w fs → committing f p w fs.
Proof.
  induction 1 as [tags w fs w' fs' Hinv Hsafe Hfresh Hrun|tags r w fs res w' fs' _ IH Hr Hfresh Hrun
                 |tags w fs w' fs' _ IH Hfresh Hrun].
  - destruct (enable_commits f p tags w fs Hinv Hsafe Hfresh) as (w1 & fs1 & Hrun' & _ & Hc).
    rewrite Hrun' in Hrun. by injection Hrun as -> ->.
  - destruct (execute_commits f p tags r w fs IH Hr Hfresh) as (w1 & fs1 & Hrun' & _ & Hc).
    rewrite Hrun' in Hrun. by injection Hrun as _ -> ->.
  - destruct (reopen_commits f p tags w fs IH Hfresh) as (w1 & fs1 & Hrun' & _ & Hc).
    rewrite Hrun' in Hrun. by injection Hrun as -> ->.
Qed.


End restarts.

(** ** A concrete workspace *)

Section workspace_witnesses.
Existing Instances serde_default w_formats digits_codec digits_codec_laws digits_session_codec
  digits_session_laws.

#[local] Instance w_io_text : IoText := {|
  path_display p := Text.join "/" (p_comps p);
  io_error_text e := match e with
                     | NotFoundError => "not found" | ExistsError => "exists"
                     | OtherError => "input/output error"
                     end;
|}.

(** A user and two posts; then an edge, and the end of the user. *)
Definition w_base : SessionState := (run_mutations (take 6 w_mutations) session_new).2.
Definition w_link : RuntimeRequest :=
  ReqEdge (EdgeCreate {| ec_model := "Authored"; ec_from := 1; ec_to := 2;
                         ec_props := {["year" := value_from_i64 2025]} |}).
Definition w_unlink : RuntimeRequest :=
  ReqNode (NodeDelete {| nd_model := "User"; nd_id := 1 |}).
Definition w_linked : SessionState := (execute_runtime w_link w_base).2.

Lemma w_base_inv : session_inv w_base.
Proof.
  pose proof (run_sound (take 6 w_mutations) session_new session_new session_new_inv) as Hrun.
  unfold w_base. destruct (run_mutations (take 6 w_mutations) session_new) as [ops σ].
  apply Hrun; [by vm_compute|]. apply same_session_refl, si_ready, session_new_inv.
Qed.

Definition fits (f : DurabilityFormat) (σ : SessionState) : bool :=
  match f with
  | DurJson => true
  | DurBinary =>
      match session_bytes f σ with
      | Ok bs => (N.of_nat (String.length bs) <=? MAX_BINARY_SESSION_FILE_BYTES)%N
      | Err _ => true
      end
  end.

Lemma session_safe_intro f σ :
  graph_safe (to_persisted (ss_store σ)) → catalog_utf8 (ss_catalog σ) → fits f σ = true →
  session_safe f σ.
Proof.
  intros Hg Hc Hf. split; [done|]. split; [done|]. destruct f; [done|]. intros bs Hbs.
  unfold fits in Hf. rewrite Hbs in Hf. by apply N.leb_le.
Qed.

Ltac decide_it := apply (bool_decide_unpack _); vm_compute; exact I.

#[local] Instance simple_op_safe_dec op : Decision (simple_op_safe op).
Proof. destruct op; cbn; unfold node_model_utf8, rel_model_utf8, fields_utf8, node_safe, rel_safe, props_safe, utf8; apply _. Defined.
#[local] Instance op_safe_dec op : Decision (op_safe op).
Proof. destruct op; cbn [op_safe]; apply _. Defined.

Lemma w_base_safe : session_safe DurBinary w_base.
Proof.
  apply session_safe_intro; [split; decide_it|split; decide_it|by vm_compute].
Qed.

Lemma w_link_ok : request_ok DurBinary w_link w_base.
Proof.
  split; [by vm_compute| |].
  - apply session_safe_intro; [split; decide_it|split; decide_it|by vm_compute].
  - decide_it.
Qed.

Lemma w_unlink_ok : request_ok DurBinary w_unlink w_linked.
Proof.
  split; [by vm_compute| |].
  - apply session_safe_intro; [split; decide_it|split; decide_it|by vm_compute].
  - decide_it.
Qed.

(** A JSON file is safe where a binary one is. *)
Lemma request_ok_json r σ : request_ok DurBinary r σ → request_ok DurJson r σ.
Proof. intros [? (? & ? & _) ?]. split; [done|split; [done|by split]|done]. Qed.

Lemma fresh_temps_empty : fresh_temps w_tags w_path ∅.
Proof. split; apply lookup_empty. Qed.

Lemma w_reached :
  ∃ w1 fs1 w2 fs2,
    enable_autocommit w_tags DurBinary w_path (from_state w_base) [] ∅
      = (Done (Ok tt, w1), [], fs1) ∧
    ws_reach DurBinary w_path w1 fs1 ∧ ws_state w1 = w_base ∧
    workspace_execute w_tags w_link w1 [] fs1
      = (Done ((execute_runtime w_link w_base).1, w2), [], fs2) ∧
    ws_reach DurBinary w_path w2 fs2 ∧ ws_state w2 = w_linked.
Proof.
  destruct (enable_commits DurBinary w_path w_tags (from_state w_base) ∅ w_base_inv w_base_safe
    fresh_temps_empty) as (w1 & fs1 & Hrun1 & Hw1 & Hc1).
  assert (fresh_temps w_tags w_path fs1) as Hfresh1.
  { apply (f_equal snd) in Hrun1. cbn in Hrun1. subst fs1. by split; vm_compute. }
  destruct (execute_commits DurBinary w_path w_tags w_link w1 fs1 Hc1) as (w2 & fs2 & Hrun2 & Hw2 & _);
    [rewrite Hw1; apply w_link_ok|exact Hfresh1|].
  assert (ws_reach DurBinary w_path w1 fs1) as Hreach1
    by (apply (reach_enable _ _ w_tags (from_state w_base) ∅);
      [apply w_base_inv|apply w_base_safe|apply fresh_temps_empty|exact Hrun1]).
  assert (ws_reach DurBinary w_path w2 fs2) as Hreach2.
  { eapply (reach_execute _ _ w_tags w_link w1 fs1); [exact Hreach1| |exact Hfresh1|exact Hrun2].
    rewrite Hw1. apply w_link_ok. }
  rewrite Hw1 in Hrun2, Hw2.
  exists w1, fs1, w2, fs2. repeat (split; [assumption|]). assumption.
Qed.



(** *** A stale log *)

(** The two requests on a fresh workspace, then a checkpoint killed when it is
    about to remove the log, and the relationships of the session opened. *)
Definition w_lifetime : io (result unit * Workspace) :=
  enable_autocommit w_tags DurJson w_path (from_state w_base) ≫= λ '(_, w),
  workspace_execute w_tags w_link w ≫= λ '(_, w),
  workspace_execute w_tags w_unlink w ≫= λ '(r, w), mret (M:=io) ((λ _, tt) <$> r, w).

Definition w_kill : list fault := (repeat CallOk 12 ++ [CallCrashes 0])%list.

Definition dangles (σ : SessionState) : bool :=
  existsb (λ rel, bool_decide (nodes (ss_store σ) !! sr_from rel = None)) (bt_values (rels (ss_store σ))).

Definition stale_check : bool :=
  match w_lifetime [] ∅ with
  | (Done (Ok _, w), [], fs) =>
      negb (dangles (ws_state w)) &&
      match checkpoint_durable DurJson w_tags w_path (ws_state w) w_kill fs with
      | (Crashed, [], fs) =>
          match open DurJson w_path [] fs with
          | (Done (Ok w), [], fs) => dangles (ws_state w)
          | _ => false
          end
      | _ => false
      end
  | _ => false
  end.

End workspace_witnesses.
