(* ===== verification/Interchange.v ===== *)
(** * Import and export ([src/src/runtime/session.rs])

    The interchange document of a session, its export to a JSON file and its
    import into an empty session, and the read-only admin requests
    ([SessionState::admin]). *)

From S2P Require Export Serializers.

Local Open Scope string_scope.

(** ** The document *)

Record InterchangeField := { xf_name : string; xf_value_type : string; xf_required : bool }.
Record InterchangeIdentity := { xi_node : string; xi_edge : string }.
Record InterchangeNodeModel := {
  xnm_name : string;
  xnm_id_field : string;
  xnm_id_type : string;
  xnm_fields : list InterchangeField;
}.
Record InterchangeEdgeModel := {
  xem_name : string;
  xem_from : string;
  xem_to : string;
  xem_id_field : string;
  xem_id_type : string;
  xem_fields : list InterchangeField;
}.
Record InterchangeSchema := {
  xs_nodes : list InterchangeNodeModel;
  xs_edges : list InterchangeEdgeModel;
}.

Section document.
Context `{SerdeNumber} `{Formats}.

Record InterchangeNode := { xn_id : Z; xn_model : string; xn_props : Props }.
Record InterchangeEdge := {
  xe_id : Z;
  xe_model : string;
  xe_from : Z;
  xe_to : Z;
  xe_props : Props;
}.
Record InterchangeData := { xd_nodes : list InterchangeNode; xd_edges : list InterchangeEdge }.
Record InterchangeDocument := {
  xc_format : string;
  xc_version : Z;
  xc_kind : string;
  xc_identity : InterchangeIdentity;
  xc_schema : InterchangeSchema;
  xc_data : InterchangeData;
}.

(** [serde_json::to_string_pretty] and [from_str] at the type of documents. *)
Class InterchangeCodec := {
  json_of_document : InterchangeDocument → option string;
  document_of_json : string → option InterchangeDocument;
}.

(** ** Export *)

Definition interchange_fields (fields : list RuntimeField) : list InterchangeField :=
  map (λ field, {| xf_name := field_name field; xf_value_type := type_keyword (field_type field);
                   xf_required := field_required field |}) fields.

Definition interchange_node_model (model : RuntimeNodeModel) : InterchangeNodeModel :=
  {| xnm_name := nm_name model; xnm_id_field := nm_id_field model;
     xnm_id_type := id_type_keyword (nm_id_type model);
     xnm_fields := interchange_fields (nm_fields model) |}.
Definition interchange_edge_model (model : RuntimeRelModel) : InterchangeEdgeModel :=
  {| xem_name := rm_name model; xem_from := rm_from_model model; xem_to := rm_to_model model;
     xem_id_field := rm_id_field model; xem_id_type := id_type_keyword (rm_id_type model);
     xem_fields := interchange_fields (rm_fields model) |}.

Definition interchange_node_model_name (c : SessionModelCatalog) (node : StoredNode) : string :=
  default "Unknown"
    (or_else (nm_name <$> List.find (λ model, has_label_named node (nm_label model))
                            (list_node_models c))
             (head (sn_labels node))).
Definition interchange_edge_model_name (c : SessionModelCatalog) (rel : StoredRel) : string :=
  default (sr_rel_type rel)
    (rm_name <$> List.find (λ model, String.eqb (rm_rel_type model) (sr_rel_type rel))
                   (list_rel_models c)).

Definition interchange_node (c : SessionModelCatalog) (node : StoredNode) : InterchangeNode :=
  {| xn_id := sn_id node; xn_model := interchange_node_model_name c node;
     xn_props := sn_props node |}.
Definition interchange_edge (c : SessionModelCatalog) (rel : StoredRel) : InterchangeEdge :=
  {| xe_id := sr_id rel; xe_model := interchange_edge_model_name c rel; xe_from := sr_from rel;
     xe_to := sr_to rel; xe_props := sr_props rel |}.

Definition interchange_document (σ : SessionState) : InterchangeDocument :=
  let store := ss_store σ in
  let c := ss_catalog σ in
  {| xc_format := "grm.interchange"; xc_version := 1; xc_kind := "graph";
     xc_identity := {| xi_node := id_type_keyword node_id_type;
                       xi_edge := id_type_keyword rel_id_type |};
     xc_schema := {| xs_nodes := map interchange_node_model (list_node_models c);
                     xs_edges := map interchange_edge_model (list_rel_models c) |};
     xc_data := {| xd_nodes := map (interchange_node c) (bt_values (nodes store));
                   xd_edges := map (interchange_edge c) (bt_values (rels store)) |} |}.

Context `{!InterchangeCodec}.

Definition export_to_json (tag : string) (path : Path) (σ : SessionState) : io (result unit) :=
  match json_of_document (interchange_document σ) with
  | None => mret (Err (SaveAborted "failed to serialize graph export as JSON"))
  | Some json =>
      or_abort (write_file_atomically tag path json)
               (SaveAborted "failed to write JSON export file") (λ _, mret (Ok tt))
  end.

(** ** Import *)

Definition parse_interchange_id_type (input : string) : result BackendIdType :=
  if String.eqb input "int" then Ok IdInt64
  else Err (Constraint ("unsupported import id type '" +:+ input +:+ "'")).

Definition interchange_runtime_field (field : InterchangeField) : result RuntimeField :=
  value_type ← ok_or (type_parse_keyword (xf_value_type field))
    (Constraint ("unsupported import field type '" +:+ xf_value_type field +:+ "'"));
  Ok {| field_name := xf_name field; field_type := value_type;
        field_required := xf_required field |}.
Definition interchange_runtime_fields (fields : list InterchangeField)
    : result (list RuntimeField) :=
  mapM interchange_runtime_field fields.

Definition validate_interchange_header (document : InterchangeDocument) : result unit :=
  if negb (String.eqb (xc_format document) "grm.interchange")
  then Err (Constraint "import file is not a grm.interchange document")
  else if negb (Z.eqb (xc_version document) 1)
  then Err (Constraint ("unsupported import version '" +:+ Z_to_string (xc_version document)
                        +:+ "'"))
  else if negb (String.eqb (xc_kind document) "graph")
  then Err (Constraint ("unsupported import kind '" +:+ xc_kind document +:+ "'"))
  else _ ← parse_interchange_id_type (xi_node (xc_identity document));
       _ ← parse_interchange_id_type (xi_edge (xc_identity document));
       Ok tt.

Definition import_node_model (c : SessionModelCatalog) (model : InterchangeNodeModel)
    : result SessionModelCatalog :=
  id_type ← parse_interchange_id_type (xnm_id_type model);
  fields ← interchange_runtime_fields (xnm_fields model);
  model ← RuntimeNodeModel_new (xnm_name model) (xnm_id_field model) id_type fields;
  register_node_model model c.

Definition import_not_defined (side name : string) : GrmError :=
  Constraint (side +:+ " model '" +:+ name +:+ "' is not defined in import schema").

Definition import_edge_model (c : SessionModelCatalog) (model : InterchangeEdgeModel)
    : result SessionModelCatalog :=
  id_type ← parse_interchange_id_type (xem_id_type model);
  fields ← interchange_runtime_fields (xem_fields model);
  rel_model ← RuntimeRelModel_new (xem_name model) (xem_from model) (xem_to model)
                (xem_id_field model) id_type fields;
  _ ← ok_or (get_node_model c (rm_from_model rel_model))
            (import_not_defined "from" (rm_from_model rel_model));
  _ ← ok_or (get_node_model c (rm_to_model rel_model))
            (import_not_defined "to" (rm_to_model rel_model));
  register_rel_model rel_model c.

Definition validate_interchange_value_type (kind model_name : string) (field : RuntimeField)
    (value : Value) : result unit :=
  if validate_value_for_kind (kind_of_type (field_type field)) value then Ok tt
  else Err (Constraint ("field '" +:+ field_name field +:+ "' for imported " +:+ kind
                        +:+ " model '" +:+ model_name +:+ "' must be "
                        +:+ type_keyword (field_type field))).

(** The bodies of the two loops of [validate_interchange_props]. *)
Definition import_known (kind model_name : string) (fields : list RuntimeField) (_ : unit)
    (key : string) : result unit :=
  if existsb (λ field, String.eqb (field_name field) key) fields then Ok tt
  else Err (Constraint ("unknown field '" +:+ key +:+ "' for imported " +:+ kind +:+ " model '"
                        +:+ model_name +:+ "'")).
Definition import_typed (kind model_name : string) (props : Props) (_ : unit)
    (field : RuntimeField) : result unit :=
  match props !! field_name field with
  | Some value => validate_interchange_value_type kind model_name field value
  | None =>
      if field_required field
      then Err (Constraint ("missing required field '" +:+ field_name field +:+ "' for imported "
                            +:+ kind +:+ " model '" +:+ model_name +:+ "'"))
      else Ok tt
  end.

Definition validate_interchange_props (kind model_name : string) (fields : list RuntimeField)
    (props : Props) : result unit :=
  _ ← try_fold (import_known kind model_name fields) tt (bt_keys props);
  try_fold (import_typed kind model_name props) tt fields.

(** The two loops over the data carry the store and the largest id so far. *)
Definition import_node (c : SessionModelCatalog) (acc : GraphStore * Z) (node : InterchangeNode)
    : result (GraphStore * Z) :=
  let '(store, max_node_id) := acc in
  if (xn_id node <=? 0)%Z
  then Err (Constraint ("imported node id '" +:+ Z_to_string (xn_id node)
                        +:+ "' must be positive"))
  else
    model ← ok_or (get_node_model c (xn_model node)) (import_not_defined "node" (xn_model node));
    _ ← validate_interchange_props "node" (nm_name model) (nm_fields model) (xn_props node);
    let '(inserted, store) :=
      insert_node (xn_id node)
        {| sn_id := xn_id node; sn_labels := [nm_label model]; sn_props := xn_props node |} store in
    match inserted with
    | Some _ => Err (Constraint ("import contains duplicate node id '"
                                 +:+ Z_to_string (xn_id node) +:+ "'"))
    | None => Ok (store, Z.max max_node_id (xn_id node))
    end.

(** What an edge says of itself in an error. *)
Definition edge_says (edge : InterchangeEdge) (what : string) : GrmError :=
  Constraint ("edge '" +:+ Z_to_string (xe_id edge) +:+ "' " +:+ what).

Definition import_end (edge : InterchangeEdge) (store : GraphStore) (side : string) (id : Z)
    : result StoredNode :=
  ok_or (nodes store !! id)
    (edge_says edge ("references missing " +:+ side +:+ " node '" +:+ Z_to_string id +:+ "'")).
Definition import_end_model (edge : InterchangeEdge) (side : string) (id : Z) (node : StoredNode)
    (model_name : string) : result unit :=
  if has_label_named node model_name then Ok tt
  else Err (edge_says edge (side +:+ " node '" +:+ Z_to_string id +:+ "' does not match model '"
                            +:+ model_name +:+ "'")).

Definition import_edge (c : SessionModelCatalog) (acc : GraphStore * Z) (edge : InterchangeEdge)
    : result (GraphStore * Z) :=
  let '(store, max_rel_id) := acc in
  if (xe_id edge <=? 0)%Z
  then Err (Constraint ("imported edge id '" +:+ Z_to_string (xe_id edge)
                        +:+ "' must be positive"))
  else
    model ← ok_or (get_rel_model c (xe_model edge)) (import_not_defined "edge" (xe_model edge));
    _ ← validate_interchange_props "edge" (rm_name model) (rm_fields model) (xe_props edge);
    from ← import_end edge store "from" (xe_from edge);
    to ← import_end edge store "to" (xe_to edge);
    _ ← import_end_model edge "from" (xe_from edge) from (rm_from_model model);
    _ ← import_end_model edge "to" (xe_to edge) to (rm_to_model model);
    let '(inserted, store) :=
      insert_relationship (xe_id edge)
        {| sr_id := xe_id edge; sr_rel_type := rm_rel_type model; sr_from := xe_from edge;
           sr_to := xe_to edge; sr_props := xe_props edge |} store in
    match inserted with
    | Some _ => Err (Constraint ("import contains duplicate edge id '"
                                 +:+ Z_to_string (xe_id edge) +:+ "'"))
    | None => Ok (store, Z.max max_rel_id (xe_id edge))
    end.

Definition build_imported_interchange (document : InterchangeDocument)
    : result (SessionModelCatalog * GraphStore) :=
  _ ← validate_interchange_header document;
  c ← try_fold import_node_model catalog_new (xs_nodes (xc_schema document));
  c ← try_fold import_edge_model c (xs_edges (xc_schema document));
  '(store, max_node_id) ← try_fold (import_node c) (GraphStore_default, 0%Z)
                            (xd_nodes (xc_data document));
  '(store, max_rel_id) ← try_fold (import_edge c) (store, 0%Z) (xd_edges (xc_data document));
  Ok (c, set_next_ids (i64_add max_node_id 1) (i64_add max_rel_id 1) store).

Definition is_empty_for_import (σ : SessionState) : bool :=
  catalog_is_empty (ss_catalog σ) && bool_decide (nodes (ss_store σ) = ∅)
  && bool_decide (rels (ss_store σ) = ∅).

(** The session is replaced by the last two statements only. *)
Definition imported (document : InterchangeDocument) : result SessionState :=
  '(c, store) ← build_imported_interchange document;
  Ok {| ss_store := store; ss_catalog := c |}.

Definition import_from_json (path : Path) (σ : SessionState) : io (result unit * SessionState) :=
  (if negb (is_empty_for_import σ)
   then mret (M:=io) (Err (Constraint "session.import requires an empty session"))
   else
     or_abort (read_to_string path) (LoadAborted "failed to read JSON import file") (λ json,
     match document_of_json json with
     | None => mret (M:=io) (Err (LoadAborted "failed to deserialize JSON import file"))
     | Some document => mret (M:=io) (imported document)
     end)) ≫= λ r,
  mret (M:=io) match r with
               | Ok τ => (Ok tt, τ)
               | Err e => (Err e, σ)
               end.
End document.

(** ** The read-only admin requests

    Objects list their keys in order, as a [serde_json::Map] does; enums without
    [rename_all] are written with the names of their variants. *)

Section admin.
Context `{SerdeNumber} `{Formats} `{!InterchangeCodec}.

Definition id_value (id : Z) : Value := value_from_i64 id.
Definition props_value (props : Props) : Value := Object (bt_iter props).

Definition interchange_field_value (field : InterchangeField) : Value :=
  Object [("name", Str (xf_name field)); ("required", Bool (xf_required field));
          ("type", Str (xf_value_type field))].
Definition interchange_node_model_value (model : InterchangeNodeModel) : Value :=
  Object [("fields", Array (interchange_field_value <$> xnm_fields model));
          ("id_field", Str (xnm_id_field model)); ("id_type", Str (xnm_id_type model));
          ("name", Str (xnm_name model))].
Definition interchange_edge_model_value (model : InterchangeEdgeModel) : Value :=
  Object [("fields", Array (interchange_field_value <$> xem_fields model));
          ("from", Str (xem_from model)); ("id_field", Str (xem_id_field model));
          ("id_type", Str (xem_id_type model)); ("name", Str (xem_name model));
          ("to", Str (xem_to model))].
Definition interchange_node_value (node : InterchangeNode) : Value :=
  Object [("id", id_value (xn_id node)); ("model", Str (xn_model node));
          ("props", props_value (xn_props node))].
Definition interchange_edge_value (edge : InterchangeEdge) : Value :=
  Object [("from", id_value (xe_from edge)); ("id", id_value (xe_id edge));
          ("model", Str (xe_model edge)); ("props", props_value (xe_props edge));
          ("to", id_value (xe_to edge))].

Definition document_value (document : InterchangeDocument) : Value :=
  let schema := xc_schema document in
  let data := xc_data document in
  Object [("data", Object [("edges", Array (interchange_edge_value <$> xd_edges data));
                           ("nodes", Array (interchange_node_value <$> xd_nodes data))]);
          ("format", Str (xc_format document));
          ("identity", Object [("edge", Str (xi_edge (xc_identity document)));
                               ("node", Str (xi_node (xc_identity document)))]);
          ("kind", Str (xc_kind document));
          ("schema", Object [("edges", Array (interchange_edge_model_value <$> xs_edges schema));
                             ("nodes", Array (interchange_node_model_value <$> xs_nodes schema))]);
          ("version", value_from_u64 (xc_version document))].

Definition export_value (σ : SessionState) : Value := document_value (interchange_document σ).

Definition value_type_json (t : RuntimeValueType) : Value :=
  Str match t with
      | TString => "String" | TInt => "Int" | TFloat => "Float" | TBool => "Bool"
      | TBytes => "Bytes" | TDecimal => "Decimal" | TDate => "Date"
      | TDateTime => "DateTime" | TDuration => "Duration" | TUuid => "Uuid"
      end.
Definition origin_json (origin : RuntimeSchemaOrigin) : Value :=
  Str match origin with Declared => "declared" | Inferred => "inferred" end.
Definition id_type_json (t : BackendIdType) : Value :=
  Str match t with IdInt64 => "Int64" | IdUuid => "Uuid" end.
Definition field_json (field : RuntimeField) : Value :=
  Object [("name", Str (field_name field)); ("required", Bool (field_required field));
          ("value_type", value_type_json (field_type field))].
Definition node_model_json (model : RuntimeNodeModel) : Value :=
  Object [("fields", Array (field_json <$> nm_fields model));
          ("id_field_name", Str (nm_id_field model)); ("id_type", id_type_json (nm_id_type model));
          ("label", Str (nm_label model)); ("name", Str (nm_name model));
          ("origin", origin_json (nm_origin model))].
Definition rel_model_json (model : RuntimeRelModel) : Value :=
  Object [("fields", Array (field_json <$> rm_fields model));
          ("from_model", Str (rm_from_model model));
          ("id_field_name", Str (rm_id_field model)); ("id_type", id_type_json (rm_id_type model));
          ("name", Str (rm_name model)); ("origin", origin_json (rm_origin model));
          ("rel_type", Str (rm_rel_type model)); ("to_model", Str (rm_to_model model))].

Definition schema_value (σ : SessionState) : Value :=
  Object [("edges", Array (rel_model_json <$> list_rel_models (ss_catalog σ)));
          ("identity", Object [("edge", Str (id_type_keyword rel_id_type));
                               ("node", Str (id_type_keyword node_id_type))]);
          ("nodes", Array (node_model_json <$> list_node_models (ss_catalog σ)))].

Definition index_json (index : IndexMetadata) : Value :=
  Object [("derived", Bool (im_derived index)); ("durable", Bool (im_durable index));
          ("entity", Str match im_entity index with IndexNode => "node" | IndexEdge => "edge" end);
          ("fields", strings_json (im_fields index));
          ("kind", Str match im_kind index with
                       | IndexSystem => "system"
                       | IndexUserDefined => "user_defined"
                       end);
          ("name", Str (im_name index))].
Definition index_catalog_value : Value :=
  Object [("indexes", Array (index_json <$> system_index_catalog));
          ("notes", Object [
            ("durability", Str "system index contents are backend-maintained derived acceleration structures, not durable source-of-truth data");
            ("user_defined_indexes", Str "future_work")])].

(** [*counts.entry(name).or_default() += 1] over a list. *)
Definition count_entry (counts : gmap string nat) (name : string) : gmap string nat :=
  <[name := S (default 0 (counts !! name))]> counts.
Definition counts_by (names : list string) : gmap string nat := foldl count_entry ∅ names.

Definition counts_value (total : nat) (by_model : gmap string nat) : Value :=
  Object [("by_model", Object ((λ '(model, n), (model, nat_json n)) <$> bt_iter by_model));
          ("total", nat_json total)].
Definition summary_value (σ : SessionState) : Value :=
  let store := ss_store σ in
  let c := ss_catalog σ in
  let nodes_by_model :=
    counts_by (map (interchange_node_model_name c) (bt_values (nodes store))) in
  let edges_by_model :=
    counts_by (map (interchange_edge_model_name c) (bt_values (rels store))) in
  Object [("edges", counts_value (size (rels store)) edges_by_model);
          ("nodes", counts_value (size (nodes store)) nodes_by_model)].

(** [Path::new]: components without the empty ones, and without [.] behind the
    first. *)
Definition path_new (text : string) : Path :=
  let parts := split_char "/" text in
  let behind := filter (λ part, part ≠ "" ∧ part ≠ ".") in
  match parts with
  | "" :: rest => {| p_abs := negb (String.eqb text ""); p_comps := behind rest |}
  | part :: rest => {| p_abs := false; p_comps := part :: behind rest |}
  | [] => {| p_abs := false; p_comps := [] |}
  end.

Definition admin (tag : string) (request : AdminRequest) (σ : SessionState) : io (result Value) :=
  match request with
  | AdminSchemaList => mret (Ok (schema_value σ))
  | AdminIndexList => mret (Ok index_catalog_value)
  | AdminSummary => mret (Ok (summary_value σ))
  | AdminExport (Some path) =>
      export_to_json tag (path_new path) σ ≫= λ exported,
      mret (M:=io) (_ ← exported; Ok (export_value σ))
  | AdminExport None => mret (Ok (export_value σ))
  | AdminSave _ _ | AdminLoad _ _ | AdminImport _ =>
      mret (Err (NotSupported
        "state-mutating admin requests are only available through CLI/session methods"))
  end.
End admin.

(** ** Loops that insert under fresh keys *)

Section keyed.
Context {A B K V : Type} `{Countable K}.
Context (f : B → A → result B) (view : B → gmap K V) (inv : B → Prop).
Context (key : A → K) (val : A → V) (ok : A → Prop) (add : B → A → B).

(** Whether a list can be inserted, and what is there afterwards. *)
Definition insertable (l : list A) (b : B) : Prop :=
  Forall ok l ∧ NoDup (map key l) ∧ ∀ a, a ∈ l → view b !! key a = None.
Definition entries_of (l : list A) : gmap K V := list_to_map (map (λ a, (key a, val a)) l).

Context (Hadd : ∀ b a, inv b → ok a → view b !! key a = None →
                       inv (add b a) ∧ view (add b a) = <[key a := val a]> (view b)).

Lemma insertable_cons a l b :
  inv b →
  insertable (a :: l) b ↔ (ok a ∧ view b !! key a = None) ∧ insertable l (add b a).
Proof.
  intros Hb. unfold insertable. cbn [map]. rewrite Forall_cons, NoDup_cons. split.
  - intros ([Ha Hl] & [Hk Hnd] & Hnew). pose proof (Hnew a (list_elem_of_here _ _)) as Hka.
    split; [done|]. split_and!; [done..|]. intros a' Ha'.
    destruct (Hadd b a Hb Ha Hka) as [_ ->]. rewrite lookup_insert_ne; [apply Hnew; by right|].
    intros Heq. apply Hk. rewrite Heq. by apply list_elem_of_fmap_2.
  - intros ([Ha Hka] & Hl & Hnd & Hnew). destruct (Hadd b a Hb Ha Hka) as [_ Hv].
    rewrite Hv in Hnew. split_and!; try done.
    + intros (a' & Heq & Ha')%list_elem_of_fmap. specialize (Hnew a' Ha').
      by rewrite <-Heq, lookup_insert_eq in Hnew.
    + intros a' [->|Ha']%elem_of_cons; [done|]. specialize (Hnew a' Ha').
      destruct (decide (key a = key a')) as [<-|Hne]; [done|].
      by rewrite lookup_insert_ne in Hnew.
Qed.

Lemma foldl_keyed l b :
  inv b → insertable l b →
  inv (foldl add b l) ∧ view (foldl add b l) = entries_of l ∪ view b.
Proof.
  revert b. induction l as [|a l IH]; intros b Hb Hl; cbn [foldl].
  { split; [done|]. unfold entries_of. cbn. by rewrite (left_id_L ∅ _). }
  apply insertable_cons in Hl as [[Ha Hka] Hl]; [|done].
  destruct (Hadd b a Hb Ha Hka) as [Hb' Hv]. destruct (IH _ Hb' Hl) as [? ->]. split; [done|].
  unfold entries_of. cbn. rewrite Hv, <-insert_union_l. symmetry. apply insert_union_r.
  apply not_elem_of_list_to_map_1.
  intros ([k v] & Hka' & (a' & [= -> ->] & Ha')%list_elem_of_fmap)%list_elem_of_fmap.
  destruct Hl as (_ & _ & Hnew). specialize (Hnew a' Ha').
  by rewrite Hv, Hka', lookup_insert_eq in Hnew.
Qed.

Context (Hf : ∀ b a b', inv b →
                        f b a = Ok b' ↔ (ok a ∧ view b !! key a = None) ∧ b' = add b a).

Lemma try_fold_keyed l b b' :
  inv b → try_fold f b l = Ok b' ↔ insertable l b ∧ b' = foldl add b l.
Proof.
  revert b. induction l as [|a l IH]; intros b Hb; cbn [try_fold foldl].
  { unfold insertable. cbn. split; [intros [= <-]; split_and!; try done; [constructor|set_solver]|].
    by intros [_ ->]. }
  rewrite insertable_cons by done. destruct (f b a) as [b1|e] eqn:Hb1.
  - apply Hf in Hb1 as [[Ha Hka] ->]; [|done].
    rewrite IH by by destruct (Hadd b a Hb Ha Hka). tauto.
  - split; [done|]. intros [[Ha _] _]. destruct (Hf b a (add b a) Hb) as [_ Hok].
    by rewrite Hok in Hb1.
Qed.

Lemma entries_keys l : (map (λ a, (key a, val a)) l).*1 = map key l.
Proof. induction l as [|a l IH]; cbn; [done|]. by f_equal. Qed.
Lemma entries_values l : (map (λ a, (key a, val a)) l).*2 = map val l.
Proof. induction l as [|a l IH]; cbn; [done|]. by f_equal. Qed.

Lemma elem_of_entries l k v :
  NoDup (map key l) → entries_of l !! k = Some v ↔ ∃ a, a ∈ l ∧ key a = k ∧ val a = v.
Proof.
  intros Hnd. unfold entries_of. rewrite <-elem_of_list_to_map.
  - rewrite list_elem_of_fmap. split; [intros (a & [= -> ->] & ?); eauto|].
    intros (a & ? & <- & <-). by exists a.
  - by rewrite entries_keys.
Qed.

Lemma bt_values_entries `{!KeyOrd K} l :
  NoDup (map key l) → bt_values (entries_of l) ≡ₚ map val l.
Proof.
  intros Hnd. unfold bt_values, entries_of. rewrite bt_iter_Permutation, map_to_list_to_map.
  - by rewrite entries_values.
  - by rewrite entries_keys.
Qed.
End keyed.

(** ** What a document says *)

Section meaning.
Context `{SerdeNumber} `{Formats}.
Implicit Types (doc : InterchangeDocument) (c : SessionModelCatalog) (store : GraphStore).

Definition field_of (field : InterchangeField) : RuntimeField :=
  {| field_name := xf_name field;
     field_type := default TString (type_parse_keyword (xf_value_type field));
     field_required := xf_required field |}.
Definition node_model_of (model : InterchangeNodeModel) : RuntimeNodeModel :=
  {| nm_name := xnm_name model; nm_label := xnm_name model; nm_id_field := xnm_id_field model;
     nm_id_type := IdInt64; nm_origin := Declared; nm_fields := map field_of (xnm_fields model) |}.
Definition edge_model_of (model : InterchangeEdgeModel) : RuntimeRelModel :=
  {| rm_name := xem_name model; rm_rel_type := xem_name model; rm_from_model := xem_from model;
     rm_to_model := xem_to model; rm_id_field := xem_id_field model; rm_id_type := IdInt64;
     rm_origin := Declared; rm_fields := map field_of (xem_fields model) |}.
Definition node_of (node : InterchangeNode) : StoredNode :=
  {| sn_id := xn_id node; sn_labels := [xn_model node]; sn_props := xn_props node |}.
Definition edge_of (edge : InterchangeEdge) : StoredRel :=
  {| sr_id := xe_id edge; sr_rel_type := xe_model edge; sr_from := xe_from edge;
     sr_to := xe_to edge; sr_props := xe_props edge |}.

(** The models, nodes and edges of a document, by name and by id. *)
Definition node_models_of (l : list InterchangeNodeModel) : gmap string RuntimeNodeModel :=
  entries_of xnm_name node_model_of l.
Definition edge_models_of (l : list InterchangeEdgeModel) : gmap string RuntimeRelModel :=
  entries_of xem_name edge_model_of l.
Definition nodes_of (l : list InterchangeNode) : gmap Z StoredNode := entries_of xn_id node_of l.
Definition edges_of (l : list InterchangeEdge) : gmap Z StoredRel := entries_of xe_id edge_of l.

(** *** Well-formed models *)

Definition fields_readable (fields : list InterchangeField) : Prop :=
  Forall (λ field, is_Some (type_parse_keyword (xf_value_type field))) fields.
Definition node_model_readable (model : InterchangeNodeModel) : Prop :=
  xnm_id_type model = "int" ∧ fields_readable (xnm_fields model) ∧
  node_model_ok (node_model_of model).
Definition edge_model_readable (N : gmap string RuntimeNodeModel) (model : InterchangeEdgeModel)
    : Prop :=
  xem_id_type model = "int" ∧ fields_readable (xem_fields model) ∧
  rel_model_ok (edge_model_of model) ∧
  is_Some (N !! xem_from model) ∧ is_Some (N !! xem_to model) ∧ N !! xem_name model = None.

Lemma parse_id_type_Ok input t : parse_interchange_id_type input = Ok t ↔ input = "int" ∧ t = IdInt64.
Proof.
  unfold parse_interchange_id_type. destruct (String.eqb_spec input "int") as [->|]; [|naive_solver].
  split; [by intros [= <-]|by intros [_ ->]].
Qed.

Lemma runtime_fields_Ok l fields :
  interchange_runtime_fields l = Ok fields ↔ fields_readable l ∧ fields = map field_of l.
Proof.
  unfold interchange_runtime_fields, fields_readable. rewrite mapM_Ok. split.
  - induction 1 as [|x y l k Hx _ [Hl ->]]; [split; [constructor|done]|].
    unfold interchange_runtime_field in Hx. apply bind_Ok in Hx as (t & Ht & [= <-]).
    unfold ok_or in Ht. destruct (type_parse_keyword _) as [t'|] eqn:Hp; [|done].
    injection Ht as ->. split; [constructor; [by rewrite Hp|done]|]. cbn. f_equal.
    unfold field_of. by rewrite Hp.
  - intros [Hl ->]. induction Hl as [|x l [t Ht] _ IH]; [constructor|]. constructor; [|done].
    unfold interchange_runtime_field, field_of. by rewrite Ht.
Qed.

Lemma check_fields_complete fields seen :
  NoDup (map field_name fields) → (∀ x, x ∈ map field_name fields → x ∉ seen) →
  Forall (λ name, validate_field_name name = Ok tt) (map field_name fields) →
  ∃ seen', try_fold check_field seen fields = Ok seen'.
Proof.
  revert seen. induction fields as [|f fields IH]; intros seen; cbn [map try_fold]; [eauto|].
  intros [Hf Hnd]%NoDup_cons Hnew [Hv Hall]%Forall_cons. unfold check_field at 1. rewrite Hv. cbn.
  rewrite decide_False by (apply Hnew; by left). apply IH; [done| |done].
  intros x Hx. specialize (Hnew x). set_solver.
Qed.

Lemma fields_ok_checked id_field fields :
  fields_ok id_field fields →
  validate_field_name id_field = Ok tt ∧ ∃ seen, check_fields id_field fields = Ok seen.
Proof.
  intros [[Hid Hnd]%NoDup_cons [Hv Hall]%Forall_cons]. split; [done|].
  apply check_fields_complete; [done| |done]. intros x Hx ->%elem_of_singleton. done.
Qed.

Lemma node_model_new_iff name id_field fields m :
  RuntimeNodeModel_new name id_field IdInt64 fields = Ok m ↔
  m = {| nm_name := name; nm_label := name; nm_id_field := id_field; nm_id_type := IdInt64;
         nm_origin := Declared; nm_fields := fields |} ∧
  validate_model_name name = Ok tt ∧ fields_ok id_field fields.
Proof.
  split.
  - intros Hm. pose proof (RuntimeNodeModel_new_ok _ _ _ _ _ Hm) as ((Hn & _ & Hf) & _).
    unfold RuntimeNodeModel_new in Hm. apply bind_Ok in Hm as (? & _ & Hm).
    apply bind_Ok in Hm as (? & _ & Hm). apply bind_Ok in Hm as (? & _ & [= <-]). by split_and!.
  - intros (-> & Hn & [Hi [seen Hs]]%fields_ok_checked). unfold RuntimeNodeModel_new.
    by rewrite Hn, Hi, Hs.
Qed.

Lemma rel_model_new_iff name from to id_field fields m :
  RuntimeRelModel_new name from to id_field IdInt64 fields = Ok m ↔
  m = {| rm_name := name; rm_rel_type := name; rm_from_model := from; rm_to_model := to;
         rm_id_field := id_field; rm_id_type := IdInt64; rm_origin := Declared;
         rm_fields := fields |} ∧
  validate_model_name name = Ok tt ∧ validate_model_name from = Ok tt ∧
  validate_model_name to = Ok tt ∧ fields_ok id_field fields.
Proof.
  split.
  - intros Hm. pose proof (RuntimeRelModel_new_ok _ _ _ _ _ _ _ Hm)
      as ((Hn & _ & Hf) & _).
    unfold RuntimeRelModel_new in Hm. apply bind_Ok in Hm as (? & _ & Hm).
    apply bind_Ok in Hm as (? & Hfrom%unit_Ok & Hm). apply bind_Ok in Hm as (? & Hto%unit_Ok & Hm).
    apply bind_Ok in Hm as (? & _ & Hm). apply bind_Ok in Hm as (? & _ & [= <-]). by split_and!.
  - intros (-> & Hn & Hf & Ht & [Hi [seen Hs]]%fields_ok_checked). unfold RuntimeRelModel_new.
    by rewrite Hn, Hf, Ht, Hi, Hs.
Qed.

(** *** Reading the schema *)

Definition add_node_model c (model : InterchangeNodeModel) : SessionModelCatalog :=
  {| node_models := <[xnm_name model := node_model_of model]> (node_models c);
     rel_models := rel_models c |}.
Definition add_edge_model c (model : InterchangeEdgeModel) : SessionModelCatalog :=
  {| node_models := node_models c;
     rel_models := <[xem_name model := edge_model_of model]> (rel_models c) |}.

Lemma import_node_model_iff c model c' :
  rel_models c = ∅ →
  import_node_model c model = Ok c' ↔
  (node_model_readable model ∧ node_models c !! xnm_name model = None) ∧
  c' = add_node_model c model.
Proof.
  intros Hempty. unfold import_node_model, node_model_readable, node_model_ok.
  rewrite bind_Ok. setoid_rewrite bind_Ok. setoid_rewrite bind_Ok.
  setoid_rewrite parse_id_type_Ok. setoid_rewrite runtime_fields_Ok.
  split.
  - intros (t & [Ht ->] & fields & [Hr ->] & m & (-> & Hn & Hf)%node_model_new_iff & Hreg).
    unfold register_node_model in Hreg. cbn in Hreg.
    destruct (name_taken c (xnm_name model)) eqn:Htk; [done|]. injection Hreg as <-.
    apply name_taken_false in Htk as [? _]. repeat split; try done; apply Hf.
  - intros (((Ht & Hr & Hn & _ & Hf) & Hnew) & ->). exists IdInt64. split; [done|].
    exists (map field_of (xnm_fields model)). split; [done|]. exists (node_model_of model).
    rewrite node_model_new_iff. split; [by split_and!|]. unfold register_node_model. cbn.
    assert (name_taken c (xnm_name model) = false) as ->; [|done].
    apply name_taken_false. by rewrite Hempty, lookup_empty.
Qed.

Lemma import_edge_model_iff c model c' :
  catalog_ok c →
  import_edge_model c model = Ok c' ↔
  (edge_model_readable (node_models c) model ∧ rel_models c !! xem_name model = None) ∧
  c' = add_edge_model c model.
Proof.
  intros Hc. unfold import_edge_model, edge_model_readable, rel_model_ok, get_node_model.
  rewrite bind_Ok. setoid_rewrite bind_Ok. setoid_rewrite bind_Ok.
  setoid_rewrite parse_id_type_Ok. setoid_rewrite runtime_fields_Ok.
  split.
  - intros (t & [Ht ->] & fields & [Hr ->] & m & (-> & Hn & _ & _ & Hf)%rel_model_new_iff & Hreg).
    apply bind_Ok in Hreg as (m1 & Hm1 & Hreg). apply bind_Ok in Hreg as (m2 & Hm2 & Hreg).
    cbn in Hm1, Hm2. apply ok_or_Ok in Hm1, Hm2. unfold register_rel_model in Hreg. cbn in Hreg.
    destruct (name_taken c (xem_name model)) eqn:Htk; [done|]. injection Hreg as <-.
    apply name_taken_false in Htk as [? ?]. by split_and!.
  - intros (((Ht & Hr & (Hn & _ & Hf) & [m1 Hm1] & [m2 Hm2] & Hnone) & Hnew) & ->).
    exists IdInt64. split; [done|].
    exists (map field_of (xem_fields model)). split; [done|]. exists (edge_model_of model).
    destruct (Catalog.co_node _ Hc _ _ Hm1) as (Hn1 & Hv1 & _).
    destruct (Catalog.co_node _ Hc _ _ Hm2) as (Hn2 & Hv2 & _). rewrite Hn1 in Hv1. rewrite Hn2 in Hv2.
    rewrite rel_model_new_iff. split; [by split_and!|]. cbn. rewrite Hm1, Hm2. cbn.
    unfold register_rel_model. cbn.
    assert (name_taken c (xem_name model) = false) as ->; [|done]. by apply name_taken_false.
Qed.
End meaning.

(** *** Reading the data *)

Section data.
Context `{SerdeNumber} `{Formats}.
Implicit Types (doc : InterchangeDocument) (c : SessionModelCatalog) (store : GraphStore).

(** [z] is the largest key of a map of positive ids, or 0 when it is empty. *)
Definition largest {V} (m : gmap Z V) (z : Z) : Prop :=
  (0 ≤ z)%Z ∧ (∀ id, is_Some (m !! id) → (0 < id ≤ z)%Z) ∧ (z = 0%Z ∨ is_Some (m !! z)).

Definition node_readable (N : gmap string RuntimeNodeModel) (node : InterchangeNode) : Prop :=
  (0 < xn_id node)%Z ∧
  ∃ m, N !! xn_model node = Some m ∧ conforms (nm_fields m) (xn_props node).
Definition end_readable (M : gmap Z StoredNode) (id : Z) (model_name : string) : Prop :=
  ∃ node, M !! id = Some node ∧ has_label_named node model_name = true.
Definition edge_readable (R : gmap string RuntimeRelModel) (M : gmap Z StoredNode)
    (edge : InterchangeEdge) : Prop :=
  (0 < xe_id edge)%Z ∧
  ∃ m, R !! xe_model edge = Some m ∧ conforms (rm_fields m) (xe_props edge) ∧
       end_readable M (xe_from edge) (rm_from_model m) ∧
       end_readable M (xe_to edge) (rm_to_model m).

Definition add_node (acc : GraphStore * Z) (node : InterchangeNode) : GraphStore * Z :=
  ((insert_node (xn_id node) (node_of node) acc.1).2, Z.max acc.2 (xn_id node)).
Definition add_edge (acc : GraphStore * Z) (edge : InterchangeEdge) : GraphStore * Z :=
  ((insert_relationship (xe_id edge) (edge_of edge) acc.1).2, Z.max acc.2 (xe_id edge)).

Definition nodes_read (acc : GraphStore * Z) : Prop :=
  store_wf acc.1 ∧ rels acc.1 = ∅ ∧ largest (nodes acc.1) acc.2.
Definition edges_read (M : gmap Z StoredNode) (acc : GraphStore * Z) : Prop :=
  store_wf acc.1 ∧ nodes acc.1 = M ∧ largest (rels acc.1) acc.2.

Lemma largest_empty {V} : largest (∅ : gmap Z V) 0.
Proof. split_and!; [done| |by left]. intros id [? Hl]. by rewrite lookup_empty in Hl. Qed.

Lemma largest_insert {V} (m : gmap Z V) z id v :
  (0 < id)%Z → largest m z → largest (<[id := v]> m) (Z.max z id).
Proof.
  intros Hid (Hz & Hall & Hmax). split_and!; [lia| |].
  - intros id' [? [[<- <-]|[_ Hl]]%lookup_insert_Some]; [lia|]. specialize (Hall id'). 
    assert (0 < id' ≤ z)%Z by (by apply Hall). lia.
  - right. destruct (Z.max_spec z id) as [[? ->]|[? ->]]; [rewrite lookup_insert_eq; eauto|].
    destruct (decide (id = z)) as [<-|]; [rewrite lookup_insert_eq; eauto|].
    rewrite lookup_insert_ne by done. destruct Hmax; [lia|done].
Qed.

Lemma largest_next {V} (m : gmap Z V) z :
  largest m z → (z < i64_max)%Z →
  (∀ id, is_Some (m !! id) → (i64_min ≤ id < i64_add z 1)%Z) ∧
  (i64_min ≤ i64_add z 1 ≤ i64_max)%Z.
Proof.
  intros (Hz & Hall & _) Hlt. unfold i64_min, i64_max in *.
  rewrite i64_add_small by (unfold i64_min, i64_max; lia).
  split; [|lia]. intros id Hid%Hall. lia.
Qed.

Lemma import_props_iff kind model_name fields (props : Props) u :
  validate_interchange_props kind model_name fields props = Ok u ↔ conforms fields props.
Proof.
  unfold validate_interchange_props, conforms. rewrite bind_Ok.
  setoid_rewrite try_fold_unit_Ok. setoid_rewrite elem_of_bt_keys.
  assert (∀ key, import_known kind model_name fields tt key = Ok tt ↔
                 ∃ f, f ∈ fields ∧ field_name f = key) as Hknown.
  { intros key. unfold import_known. destruct (existsb _ fields) eqn:He.
    - split; [|done]. intros _. apply existsb_exists in He as (f & Hf & Heq%String.eqb_eq).
      exists f. by rewrite list_elem_of_In.
    - split; [done|]. intros (f & Hf & <-). exfalso. apply not_true_iff_false in He. apply He.
      apply existsb_exists. exists f. by rewrite <-list_elem_of_In, String.eqb_refl. }
  assert (∀ f, import_typed kind model_name props tt f = Ok tt ↔
               match props !! field_name f with
               | Some v => validate_value_for_kind (kind_of_type (field_type f)) v = true
               | None => field_required f = false
               end) as Htyped.
  { intros f. unfold import_typed, validate_interchange_value_type.
    destruct (props !! field_name f); [by destruct (validate_value_for_kind _ _)|].
    by destruct (field_required f). }
  setoid_rewrite Hknown. setoid_rewrite Htyped. split.
  - by intros ([] & [_ Hk] & _ & Ht).
  - intros [Hk Ht]. exists tt. destruct u. done.
Qed.

Lemma import_node_iff c acc node acc' :
  catalog_ok c →
  import_node c acc node = Ok acc' ↔
  (node_readable (node_models c) node ∧ nodes acc.1 !! xn_id node = None) ∧
  acc' = add_node acc node.
Proof.
  intros Hc. destruct acc as [store z]. unfold import_node, node_readable, get_node_model. cbn [fst].
  destruct (Z.leb_spec (xn_id node) 0) as [Hle|Hlt]; [split; [done|lia]|].
  rewrite bind_Ok. setoid_rewrite bind_Ok. setoid_rewrite ok_or_Ok.
  setoid_rewrite import_props_iff.
  assert (∀ m, node_models c !! xn_model node = Some m → nm_label m = xn_model node) as Hlabel.
  { intros m Hm. destruct (Catalog.co_node _ Hc _ _ Hm) as (<- & _ & ? & _). done. }
  unfold insert_node. split.
  - intros (m & Hm & _ & Hprops & Hins). rewrite (Hlabel m Hm) in Hins.
    destruct (nodes store !! xn_id node) eqn:Hnew; [done|]. injection Hins as <-.
    split; [split; [eauto|done]|]. unfold add_node, insert_node; cbn [fst snd]. by rewrite Hnew.
  - intros (((_ & m & Hm & Hprops) & Hnew) & ->). exists m. split; [done|]. exists tt.
    split; [done|]. rewrite (Hlabel m Hm). unfold add_node, insert_node; cbn [fst snd]. by rewrite Hnew.
Qed.

Lemma import_edge_iff c acc edge acc' :
  catalog_ok c →
  import_edge c acc edge = Ok acc' ↔
  (edge_readable (rel_models c) (nodes acc.1) edge ∧ rels acc.1 !! xe_id edge = None) ∧
  acc' = add_edge acc edge.
Proof.
  intros Hc. destruct acc as [store z].
  unfold import_edge, edge_readable, get_rel_model, import_end, end_readable. cbn [fst].
  destruct (Z.leb_spec (xe_id edge) 0) as [Hle|Hlt]; [split; [done|lia]|].
  pose proof (import_props_iff "edge") as Hvalid. revert Hvalid.
  generalize (validate_interchange_props "edge"). intros valid Hvalid.
  rewrite bind_Ok. repeat setoid_rewrite bind_Ok. setoid_rewrite ok_or_Ok.
  setoid_rewrite Hvalid.
  assert (∀ m, rel_models c !! xe_model edge = Some m → rm_rel_type m = xe_model edge) as Htype.
  { intros m Hm. destruct (Catalog.co_rel _ Hc _ _ Hm) as (<- & (_ & ? & _) & _). done. }
  assert (∀ side id node name u,
    import_end_model edge side id node name = Ok u ↔ has_label_named node name = true) as Hend.
  { intros. unfold import_end_model. destruct u. by destruct (has_label_named node name). }
  setoid_rewrite Hend. unfold insert_relationship. split.
  - intros (m & Hm & _ & Hprops & from & Hfrom & to & Hto & _ & Hl1 & _ & Hl2 & Hins).
    rewrite (Htype m Hm) in Hins.
    destruct (rels store !! xe_id edge) eqn:Hnew; [done|]. injection Hins as <-.
    split; [split; [|done]|].
    + split; [done|]. exists m. eauto 10.
    + unfold add_edge, insert_relationship; cbn [fst snd]. by rewrite Hnew.
  - intros (((_ & m & Hm & Hprops & (from & Hfrom & Hl1) & (to & Hto & Hl2)) & Hnew) & ->).
    exists m. split; [done|]. exists tt. split; [done|]. exists from. split; [done|].
    exists to. split; [done|]. exists tt. split; [done|]. exists tt. split; [done|].
    rewrite (Htype m Hm). unfold add_edge, insert_relationship; cbn [fst snd]. by rewrite Hnew.
Qed.

Lemma add_node_read acc node :
  nodes_read acc → (0 < xn_id node)%Z →
  nodes_read (add_node acc node) ∧
  nodes (add_node acc node).1 = <[xn_id node := node_of node]> (nodes acc.1).
Proof.
  intros (Hwf & Hr & Hmax) Hid. unfold add_node. cbn [fst].
  destruct (insert_node_fields (xn_id node) (node_of node) acc.1) as (Hn & Hr' & _).
  split; [|done]. split_and!; cbn [fst snd].
  - by apply insert_node_wf.
  - by rewrite Hr'.
  - rewrite Hn. by apply largest_insert.
Qed.

Lemma add_edge_read M acc edge :
  edges_read M acc → (0 < xe_id edge)%Z →
  edges_read M (add_edge acc edge) ∧
  rels (add_edge acc edge).1 = <[xe_id edge := edge_of edge]> (rels acc.1).
Proof.
  intros (Hwf & Hm & Hmax) Hid. unfold add_edge. cbn [fst].
  destruct (insert_relationship_frame (xe_id edge) (edge_of edge) acc.1) as [Hside Hr'].
  split; [|done]. split_and!; cbn [fst snd].
  - by apply insert_relationship_wf.
  - destruct Hside as (Hn & _). by rewrite Hn.
  - rewrite Hr'. by apply largest_insert.
Qed.
End data.

(** ** Which documents are imported, and as what *)

Section importing.
Context `{SerdeNumber} `{Formats}.
Implicit Types (doc : InterchangeDocument) (c : SessionModelCatalog) (σ : SessionState).

Definition header_ok doc : Prop :=
  xc_format doc = "grm.interchange" ∧ xc_version doc = 1%Z ∧ xc_kind doc = "graph" ∧
  xi_node (xc_identity doc) = "int" ∧ xi_edge (xc_identity doc) = "int".

Definition catalog_of doc : SessionModelCatalog :=
  {| node_models := node_models_of (xs_nodes (xc_schema doc));
     rel_models := edge_models_of (xs_edges (xc_schema doc)) |}.

(** Every model has a name and fields of its own, edges join models of nodes;
    every node and edge has an id of its own and the properties of its model,
    and every edge joins nodes of the models it says. *)
Record document_ok doc : Prop := {
  do_header : header_ok doc;
  do_node_models : Forall node_model_readable (xs_nodes (xc_schema doc));
  do_node_names : NoDup (map xnm_name (xs_nodes (xc_schema doc)));
  do_edge_models :
    Forall (edge_model_readable (node_models (catalog_of doc))) (xs_edges (xc_schema doc));
  do_edge_names : NoDup (map xem_name (xs_edges (xc_schema doc)));
  do_nodes : Forall (node_readable (node_models (catalog_of doc))) (xd_nodes (xc_data doc));
  do_node_ids : NoDup (map xn_id (xd_nodes (xc_data doc)));
  do_edges :
    Forall (edge_readable (rel_models (catalog_of doc)) (nodes_of (xd_nodes (xc_data doc))))
           (xd_edges (xc_data doc));
  do_edge_ids : NoDup (map xe_id (xd_edges (xc_data doc)));
}.

(** The store and the session of a document. *)
Definition nodes_stored doc : GraphStore * Z :=
  foldl add_node (GraphStore_default, 0%Z) (xd_nodes (xc_data doc)).
Definition graph_stored doc : GraphStore * Z :=
  foldl add_edge ((nodes_stored doc).1, 0%Z) (xd_edges (xc_data doc)).
Definition store_of doc : GraphStore :=
  set_next_ids (i64_add (nodes_stored doc).2 1) (i64_add (graph_stored doc).2 1)
               (graph_stored doc).1.
Definition session_of_document doc : SessionState :=
  {| ss_store := store_of doc; ss_catalog := catalog_of doc |}.

Lemma header_iff doc u : validate_interchange_header doc = Ok u ↔ header_ok doc.
Proof.
  unfold validate_interchange_header, header_ok.
  destruct (String.eqb_spec (xc_format doc) "grm.interchange"); cbn [negb]; [|naive_solver].
  destruct (Z.eqb_spec (xc_version doc) 1); cbn [negb]; [|naive_solver].
  destruct (String.eqb_spec (xc_kind doc) "graph"); cbn [negb]; [|naive_solver].
  rewrite bind_Ok. setoid_rewrite bind_Ok. setoid_rewrite parse_id_type_Ok. destruct u.
  split; [naive_solver|]. intros (_ & _ & _ & ? & ?). exists IdInt64. split; [done|].
  by exists IdInt64.
Qed.

Definition nodes_only c : Prop := rel_models c = ∅ ∧ catalog_ok c.
Definition over_nodes (N : gmap string RuntimeNodeModel) c : Prop :=
  node_models c = N ∧ catalog_ok c.

Lemma add_node_model_ok c m :
  nodes_only c → node_model_readable m → node_models c !! xnm_name m = None →
  nodes_only (add_node_model c m) ∧
  node_models (add_node_model c m) = <[xnm_name m := node_model_of m]> (node_models c).
Proof.
  intros [Hr Hc] (_ & _ & Hok) Hnew. split; [|done]. split; [done|].
  apply (register_node_model_ok (node_model_of m) c); [done|done|].
  unfold register_node_model. cbn.
  assert (name_taken c (xnm_name m) = false) as ->; [|done].
  apply name_taken_false. by rewrite Hr, lookup_empty.
Qed.

Lemma add_edge_model_ok N c m :
  over_nodes N c → edge_model_readable N m → rel_models c !! xem_name m = None →
  over_nodes N (add_edge_model c m) ∧
  rel_models (add_edge_model c m) = <[xem_name m := edge_model_of m]> (rel_models c).
Proof.
  intros [HN Hc] (_ & _ & Hok & Hf & Ht & Hn) Hnew. split; [|done]. split; [done|].
  subst N. apply (register_rel_model_ok (edge_model_of m) c); [done..|].
  unfold register_rel_model. cbn.
  assert (name_taken c (xem_name m) = false) as ->; [|done]. by apply name_taken_false.
Qed.

Lemma add_node_step N acc node :
  nodes_read acc → node_readable N node → nodes acc.1 !! xn_id node = None →
  nodes_read (add_node acc node) ∧
  nodes (add_node acc node).1 = <[xn_id node := node_of node]> (nodes acc.1).
Proof. intros ? [? _] _. by apply add_node_read. Qed.
Lemma add_edge_step R M acc edge :
  edges_read M acc → edge_readable R M edge → rels acc.1 !! xe_id edge = None →
  edges_read M (add_edge acc edge) ∧
  rels (add_edge acc edge).1 = <[xe_id edge := edge_of edge]> (rels acc.1).
Proof. intros ? [? _] _. by apply add_edge_read. Qed.

(** What is inserted into nothing is what the list says. *)
Lemma insertable_empty {A B K V} `{Countable K} (view : B → gmap K V) (key : A → K)
    (ok : A → Prop) l b :
  view b = ∅ → insertable view key ok l b ↔ Forall ok l ∧ NoDup (map key l).
Proof.
  intros Hb. unfold insertable. rewrite Hb. split; [tauto|]. intros [? ?].
  split_and!; [done..|]. intros. apply lookup_empty.
Qed.

(** The four loops, one after the other. *)
Lemma and_iff_under (P Q R : Prop) : (P → Q ↔ R) → P ∧ Q ↔ P ∧ R.
Proof. tauto. Qed.

Lemma node_models_read l c :
  try_fold import_node_model catalog_new l = Ok c ↔
  (Forall node_model_readable l ∧ NoDup (map xnm_name l)) ∧
  c = {| node_models := node_models_of l; rel_models := ∅ |}.
Proof.
  assert (nodes_only catalog_new) as Hnew by (split; [done|apply catalog_new_ok]).
  rewrite (try_fold_keyed import_node_model node_models nodes_only xnm_name node_model_of
             node_model_readable add_node_model add_node_model_ok); [|intros ??? [? _]|done].
  2: by apply import_node_model_iff.
  rewrite insertable_empty by done. apply and_iff_under. intros Hl.
  destruct (foldl_keyed node_models nodes_only xnm_name node_model_of node_model_readable
              add_node_model add_node_model_ok l catalog_new Hnew) as [[Hr _] Hn].
  { by apply insertable_empty. }
  cbn [catalog_new node_models] in Hn. rewrite (right_id_L ∅ _) in Hn. fold (node_models_of l) in Hn.
  destruct (foldl _ _ _) as [n r]. cbn in Hr, Hn. by subst.
Qed.

Lemma node_models_ok l :
  Forall node_model_readable l → NoDup (map xnm_name l) →
  catalog_ok {| node_models := node_models_of l; rel_models := ∅ |}.
Proof.
  intros Hl Hnd.
  destruct (foldl_keyed node_models nodes_only xnm_name node_model_of node_model_readable
              add_node_model add_node_model_ok l catalog_new) as [[Hr Hok] Hn].
  { split; [done|apply catalog_new_ok]. }
  { by apply insertable_empty. }
  cbn [catalog_new node_models] in Hn. rewrite (right_id_L ∅ _) in Hn. fold (node_models_of l) in Hn.
  destruct (foldl _ _ _) as [n r]. cbn in Hr, Hn. by subst.
Qed.

Lemma edge_models_read N l c :
  catalog_ok {| node_models := N; rel_models := ∅ |} →
  try_fold import_edge_model {| node_models := N; rel_models := ∅ |} l = Ok c ↔
  (Forall (edge_model_readable N) l ∧ NoDup (map xem_name l)) ∧
  c = {| node_models := N; rel_models := edge_models_of l |}.
Proof.
  intros Hok. set (c0 := {| node_models := N; rel_models := ∅ |}) in *.
  assert (over_nodes N c0) as Hnew by done.
  rewrite (try_fold_keyed import_edge_model rel_models (over_nodes N) xem_name edge_model_of
             (edge_model_readable N) add_edge_model (add_edge_model_ok N));
    [|intros c1 ?? [<- ?]|done].
  2: by apply import_edge_model_iff.
  rewrite insertable_empty by done. apply and_iff_under. intros Hl.
  destruct (foldl_keyed rel_models (over_nodes N) xem_name edge_model_of (edge_model_readable N)
              add_edge_model (add_edge_model_ok N) l c0 Hnew) as [[Hr _] Hn].
  { by apply insertable_empty. }
  cbn [c0 rel_models] in Hn. rewrite (right_id_L ∅ _) in Hn. fold (edge_models_of l) in Hn.
  destruct (foldl _ _ _) as [n r]. cbn in Hr, Hn. by subst.
Qed.

Lemma edge_models_ok N l :
  catalog_ok {| node_models := N; rel_models := ∅ |} →
  Forall (edge_model_readable N) l → NoDup (map xem_name l) →
  catalog_ok {| node_models := N; rel_models := edge_models_of l |}.
Proof.
  intros Hok Hl Hnd. set (c0 := {| node_models := N; rel_models := ∅ |}) in *.
  assert (over_nodes N c0) as Hnew by done.
  destruct (foldl_keyed rel_models (over_nodes N) xem_name edge_model_of (edge_model_readable N)
              add_edge_model (add_edge_model_ok N) l c0 Hnew) as [[Hr Hfin] Hn].
  { by apply insertable_empty. }
  cbn [c0 rel_models] in Hn. rewrite (right_id_L ∅ _) in Hn. fold (edge_models_of l) in Hn.
  destruct (foldl _ _ _) as [n r]. cbn in Hr, Hn. by subst.
Qed.

Lemma nodes_loop_read c l acc :
  catalog_ok c →
  try_fold (import_node c) (GraphStore_default, 0%Z) l = Ok acc ↔
  (Forall (node_readable (node_models c)) l ∧ NoDup (map xn_id l)) ∧
  acc = foldl add_node (GraphStore_default, 0%Z) l.
Proof.
  intros Hc.
  rewrite (try_fold_keyed (import_node c) (λ acc, nodes acc.1) nodes_read xn_id node_of
             (node_readable (node_models c)) add_node (add_node_step _)).
  - by rewrite insertable_empty.
  - intros ??? _. by apply import_node_iff.
  - split_and!; [apply default_wf|done|apply largest_empty].
Qed.

Lemma edges_loop_read c store l acc :
  catalog_ok c → store_wf store → rels store = ∅ →
  try_fold (import_edge c) (store, 0%Z) l = Ok acc ↔
  (Forall (edge_readable (rel_models c) (nodes store)) l ∧ NoDup (map xe_id l)) ∧
  acc = foldl add_edge (store, 0%Z) l.
Proof.
  intros Hc Hwf Hr.
  rewrite (try_fold_keyed (import_edge c) (λ acc, rels acc.1) (edges_read (nodes store)) xe_id
             edge_of (edge_readable (rel_models c) (nodes store)) add_edge (add_edge_step _ _)).
  - by rewrite insertable_empty.
  - intros ??? (_ & <- & _). by apply import_edge_iff.
  - split_and!; [done..|]. cbn. rewrite Hr. apply largest_empty.
Qed.

Lemma nodes_loop_ok N l :
  Forall (node_readable N) l → NoDup (map xn_id l) →
  nodes_read (foldl add_node (GraphStore_default, 0%Z) l) ∧
  nodes (foldl add_node (GraphStore_default, 0%Z) l).1 = nodes_of l.
Proof.
  intros Hl Hnd.
  destruct (foldl_keyed (λ acc, nodes acc.1) nodes_read xn_id node_of (node_readable N) add_node
              (add_node_step _) l (GraphStore_default, 0%Z)) as [Hread Hn].
  - split_and!; [apply default_wf|done|apply largest_empty].
  - by apply insertable_empty.
  - split; [done|]. rewrite Hn. cbn. by rewrite (right_id_L ∅ _).
Qed.

Lemma nodes_stored_ok doc :
  document_ok doc →
  nodes_read (nodes_stored doc) ∧
  nodes (nodes_stored doc).1 = nodes_of (xd_nodes (xc_data doc)).
Proof. intros Hdoc. eapply nodes_loop_ok; apply Hdoc. Qed.

Lemma graph_stored_ok doc :
  document_ok doc →
  edges_read (nodes_of (xd_nodes (xc_data doc))) (graph_stored doc) ∧
  rels (graph_stored doc).1 = edges_of (xd_edges (xc_data doc)).
Proof.
  intros Hdoc. destruct (nodes_stored_ok doc Hdoc) as [(Hwf & Hr & _) Hn].
  destruct (foldl_keyed (λ acc, rels acc.1) (edges_read (nodes_of (xd_nodes (xc_data doc)))) xe_id
              edge_of (edge_readable (rel_models (catalog_of doc))
                         (nodes_of (xd_nodes (xc_data doc)))) add_edge (add_edge_step _ _)
              (xd_edges (xc_data doc)) ((nodes_stored doc).1, 0%Z)) as [Hread Hrels].
  - split_and!; [done..|]. cbn. rewrite Hr. apply largest_empty.
  - apply insertable_empty; [done|]. split; apply Hdoc.
  - split; [done|]. unfold graph_stored. rewrite Hrels. cbn. by rewrite Hr, (right_id_L ∅ _).
Qed.

Lemma catalog_of_ok doc : document_ok doc → catalog_ok (catalog_of doc).
Proof.
  intros []. apply edge_models_ok; [|done..]. by apply node_models_ok.
Qed.

Lemma build_iff doc c store :
  build_imported_interchange doc = Ok (c, store) ↔
  document_ok doc ∧ c = catalog_of doc ∧ store = store_of doc.
Proof.
  unfold build_imported_interchange. rewrite bind_Ok. split.
  - intros (u & Hhead%header_iff & Hm).
    apply bind_Ok in Hm as (c1 & [[Hn Hnd] ->]%node_models_read & Hm).
    pose proof (node_models_ok _ Hn Hnd) as Hok.
    apply bind_Ok in Hm as (c2 & [[He Hed] ->]%edge_models_read & Hm); [|done].
    pose proof (edge_models_ok _ _ Hok He Hed) as Hok2. fold (catalog_of doc) in Hm, Hok2.
    apply bind_Ok in Hm as (acc1 & [[Hdn Hdnd] ->]%nodes_loop_read & Hm); [|done].
    destruct (nodes_loop_ok _ _ Hdn Hdnd) as [(Hwf & Hr & _) Hnodes].
    fold (nodes_stored doc) in Hm, Hwf, Hr, Hnodes. destruct (nodes_stored doc) as [s1 z1] eqn:Hs1.
    apply bind_Ok in Hm as (acc2 & [[Hde Hded] Hacc2]%edges_loop_read & Hm); [|done..].
    cbn [fst] in Hnodes. rewrite Hnodes in Hde. split; [by split|].
    unfold store_of, graph_stored. rewrite Hs1. cbn [fst snd]. rewrite <-Hacc2.
    destruct acc2 as [s2 z2]. by injection Hm as <- <-.
  - intros (Hdoc & -> & ->). destruct Hdoc as [Hhead Hn Hnd He Hed Hdn Hdnd Hde Hded] eqn:Hd.
    exists tt. split; [by apply header_iff|].
    apply bind_Ok. eexists. split; [by apply node_models_read|].
    pose proof (node_models_ok _ Hn Hnd) as Hok.
    apply bind_Ok. eexists. split; [by apply edge_models_read|]. fold (catalog_of doc).
    pose proof (edge_models_ok _ _ Hok He Hed) as Hok2. fold (catalog_of doc) in Hok2.
    apply bind_Ok. eexists. split; [by apply nodes_loop_read|]. fold (nodes_stored doc).
    destruct (nodes_stored_ok doc Hdoc) as [(Hwf & Hr & _) Hnodes].
    unfold store_of, graph_stored. destruct (nodes_stored doc) as [s1 z1]. cbn [fst snd] in *.
    apply bind_Ok. eexists. split.
    + apply edges_loop_read; [done..|]. split; [split; [by rewrite Hnodes|done]|reflexivity].
    + by destruct (foldl _ _ _).
Qed.
End importing.

(** ** The session of a document, and the document of a session *)

Section roundtrips.
Context `{SerdeNumber} `{Formats}.
Implicit Types (doc : InterchangeDocument) (c : SessionModelCatalog) (σ τ : SessionState).

(** Identifiers leave room for the next one. *)
Definition ids_have_next doc : Prop :=
  Forall (λ node, (xn_id node < i64_max)%Z) (xd_nodes (xc_data doc)) ∧
  Forall (λ edge, (xe_id edge < i64_max)%Z) (xd_edges (xc_data doc)).

(** What the format has no place for: other identifier types, inferred models,
    identifiers that are not positive. *)
Record portable σ : Prop := {
  po_nodes name m : node_models (ss_catalog σ) !! name = Some m →
    nm_id_type m = IdInt64 ∧ nm_origin m = Declared;
  po_rels name m : rel_models (ss_catalog σ) !! name = Some m →
    rm_id_type m = IdInt64 ∧ rm_origin m = Declared;
  po_node_ids id : is_Some (nodes (ss_store σ) !! id) → (0 < id)%Z;
  po_rel_ids id : is_Some (rels (ss_store σ) !! id) → (0 < id)%Z;
}.

(** The types of the fields, spelled as the export spells them. *)
Definition canonical_field (field : InterchangeField) : InterchangeField :=
  {| xf_name := xf_name field; xf_value_type := type_keyword (field_type (field_of field));
     xf_required := xf_required field |}.
Definition canonical_node_model (m : InterchangeNodeModel) : InterchangeNodeModel :=
  {| xnm_name := xnm_name m; xnm_id_field := xnm_id_field m; xnm_id_type := xnm_id_type m;
     xnm_fields := map canonical_field (xnm_fields m) |}.
Definition canonical_edge_model (m : InterchangeEdgeModel) : InterchangeEdgeModel :=
  {| xem_name := xem_name m; xem_from := xem_from m; xem_to := xem_to m;
     xem_id_field := xem_id_field m; xem_id_type := xem_id_type m;
     xem_fields := map canonical_field (xem_fields m) |}.

(** The same document, up to the order of its lists and the spelling of types. *)
Record same_document doc doc' : Prop := {
  sd_header : header_ok doc ∧ header_ok doc';
  sd_node_models : xs_nodes (xc_schema doc') ≡ₚ map canonical_node_model (xs_nodes (xc_schema doc));
  sd_edge_models : xs_edges (xc_schema doc') ≡ₚ map canonical_edge_model (xs_edges (xc_schema doc));
  sd_nodes : xd_nodes (xc_data doc') ≡ₚ xd_nodes (xc_data doc);
  sd_edges : xd_edges (xc_data doc') ≡ₚ xd_edges (xc_data doc);
}.

Lemma type_keyword_parsed t : type_parse_keyword (type_keyword t) = Some t.
Proof. by destruct t; vm_compute. Qed.

Lemma label_named node label name :
  sn_labels node = [label] → has_label_named node name = true ↔ label = name.
Proof.
  unfold has_label_named. intros ->. cbn. rewrite orb_false_r. apply String.eqb_eq.
Qed.

Lemma node_name_found c node name m :
  catalog_ok c → node_models c !! name = Some m → sn_labels node = [name] →
  interchange_node_model_name c node = name.
Proof.
  intros Hc Hm Hl. unfold interchange_node_model_name.
  assert (∀ name' m', node_models c !! name' = Some m' → nm_label m' = name' ∧ nm_name m' = name')
    as Hname.
  { intros name' m' Hm'. destruct (Catalog.co_node _ Hc _ _ Hm') as (<- & _ & ? & _). done. }
  destruct (List.find _ _) as [m'|] eqn:Hf.
  - apply find_some in Hf as [Hin Hlab]. cbn. rewrite (label_named _ name) in Hlab by done.
    apply list_elem_of_In, elem_of_bt_values in Hin as [k Hk]. destruct (Hname _ _ Hk). congruence.
  - exfalso. pose proof (find_none _ _ Hf m) as Hnone. cbn in Hnone.
    apply not_true_iff_false in Hnone; [|by apply list_elem_of_In, elem_of_bt_values; exists name].
    apply Hnone. rewrite (label_named _ name) by done. symmetry. by apply Hname.
Qed.

Lemma edge_name_found c rel name m :
  catalog_ok c → rel_models c !! name = Some m → sr_rel_type rel = name →
  interchange_edge_model_name c rel = name.
Proof.
  intros Hc Hm Hl. unfold interchange_edge_model_name.
  destruct (List.find _ _) as [m'|] eqn:Hf; [|done].
  apply find_some in Hf as [Hin Hlab%String.eqb_eq]. cbn.
  apply list_elem_of_In, elem_of_bt_values in Hin as [k Hk].
  destruct (Catalog.co_rel _ Hc _ _ Hk) as (<- & (_ & ? & _) & _). congruence.
Qed.

(** *** Importing *)

Lemma nodes_of_store doc : document_ok doc →
  nodes (store_of doc) = nodes_of (xd_nodes (xc_data doc)) ∧
  rels (store_of doc) = edges_of (xd_edges (xc_data doc)).
Proof.
  intros Hdoc. destruct (graph_stored_ok doc Hdoc) as [(_ & Hn & _) Hr].
  unfold store_of. by destruct (graph_stored doc).1.
Qed.

Lemma node_stored doc id node :
  document_ok doc → nodes (store_of doc) !! id = Some node →
  ∃ x, x ∈ xd_nodes (xc_data doc) ∧ xn_id x = id ∧ node_of x = node ∧
       node_readable (node_models (catalog_of doc)) x.
Proof.
  intros Hdoc. rewrite (proj1 (nodes_of_store doc Hdoc)). unfold nodes_of.
  rewrite elem_of_entries by apply Hdoc. intros (x & Hx & Hid & Hnode). exists x.
  split_and!; try done. pose proof (do_nodes _ Hdoc) as Hall. rewrite Forall_forall in Hall. auto.
Qed.

Lemma edge_stored doc id rel :
  document_ok doc → rels (store_of doc) !! id = Some rel →
  ∃ x, x ∈ xd_edges (xc_data doc) ∧ xe_id x = id ∧ edge_of x = rel ∧
       edge_readable (rel_models (catalog_of doc)) (nodes (store_of doc)) x.
Proof.
  intros Hdoc. destruct (nodes_of_store doc Hdoc) as [-> ->]. unfold edges_of.
  rewrite elem_of_entries by apply Hdoc. intros (x & Hx & Hid & Hrel). exists x.
  split_and!; try done. pose proof (do_edges _ Hdoc) as Hall. rewrite Forall_forall in Hall. auto.
Qed.

Lemma next_ids_ok doc :
  document_ok doc → ids_have_next doc →
  ((nodes_stored doc).2 < i64_max)%Z ∧ ((graph_stored doc).2 < i64_max)%Z.
Proof.
  intros Hdoc [Hn He].
  destruct (nodes_stored_ok doc Hdoc) as [(_ & _ & _ & _ & Hmax) Hnodes].
  destruct (graph_stored_ok doc Hdoc) as [(_ & _ & _ & _ & Hmax') Hrels].
  rewrite Hnodes in Hmax. rewrite Hrels in Hmax'. rewrite Forall_forall in Hn. rewrite Forall_forall in He. split.
  - destruct Hmax as [->|[v Hv]]; [done|]. unfold nodes_of in Hv.
    apply elem_of_entries in Hv as (x & Hx & <- & _); [by apply Hn|apply Hdoc].
  - destruct Hmax' as [->|[v Hv]]; [done|]. unfold edges_of in Hv.
    apply elem_of_entries in Hv as (x & Hx & <- & _); [by apply He|apply Hdoc].
Qed.

Lemma document_store_ready doc :
  document_ok doc → ids_have_next doc → store_ready (store_of doc).
Proof.
  intros Hdoc Hids. destruct (nodes_of_store doc Hdoc) as [Hn Hr].
  destruct (next_ids_ok doc Hdoc Hids) as [Hz1 Hz2].
  destruct (nodes_stored_ok doc Hdoc) as [(_ & _ & Hmax1) Hnodes].
  destruct (graph_stored_ok doc Hdoc) as [(Hwf & _ & Hmax2) Hrels].
  rewrite Hnodes in Hmax1. rewrite Hrels in Hmax2.
  destruct (largest_next _ _ Hmax1 Hz1) as [Hb1 Hc1].
  destruct (largest_next _ _ Hmax2 Hz2) as [Hb2 Hc2].
  split; [by apply set_next_ids_wf| |rewrite Hn; apply Hb1|rewrite Hr; apply Hb2|apply Hc1|apply Hc2].
  intros id rel Hrel. apply edge_stored in Hrel as (x & _ & _ & <- & _ & m & _ & _ & Hf & Ht); [|done].
  destruct Hf as (n1 & Hn1 & _), Ht as (n2 & Hn2 & _). split; [by exists n1|by exists n2].
Qed.

Lemma document_session_inv doc :
  document_ok doc → ids_have_next doc → session_inv (session_of_document doc).
Proof.
  intros Hdoc Hids. pose proof (catalog_of_ok doc Hdoc) as Hc.
  split; [by apply document_store_ready|done|]. split.
  - intros id node Hnode. apply node_stored in Hnode as (x & _ & _ & <- & _ & m & Hm & Hprops); [|done].
    destruct (Catalog.co_node _ Hc _ _ Hm) as (Hname & _ & Hlabel & _). exists m.
    unfold get_node_model. cbn. rewrite Hlabel, Hname. by split_and!.
  - intros id rel Hrel.
    apply edge_stored in Hrel as (x & _ & _ & <- & _ & m & Hm & Hprops & Hf & Ht); [|done].
    destruct (Catalog.co_rel _ Hc _ _ Hm) as (Hname & (_ & Htype & _) & _). exists m.
    unfold get_rel_model. cbn. rewrite Htype, Hname. by split_and!.
Qed.

Lemma document_portable doc : document_ok doc → portable (session_of_document doc).
Proof.
  intros Hdoc. split; cbn.
  - intros name m Hm. unfold node_models_of in Hm.
    apply elem_of_entries in Hm as (x & _ & _ & <-); [done|apply Hdoc].
  - intros name m Hm. unfold edge_models_of in Hm.
    apply elem_of_entries in Hm as (x & _ & _ & <-); [done|apply Hdoc].
  - intros id [node Hnode]. apply node_stored in Hnode as (x & _ & <- & _ & ? & _); done.
  - intros id [rel Hrel]. apply edge_stored in Hrel as (x & _ & <- & _ & ? & _); done.
Qed.

Lemma interchange_fields_of fields : interchange_fields (map field_of fields) = map canonical_field fields.
Proof. unfold interchange_fields. by rewrite map_map. Qed.

Lemma map_in {A B} (f g : A → B) l : (∀ x, x ∈ l → f x = g x) → map f l = map g l.
Proof. intros Hl. apply map_ext_in. intros x Hx. by apply Hl, list_elem_of_In. Qed.

Lemma exported_again doc :
  document_ok doc → same_document doc (interchange_document (session_of_document doc)).
Proof.
  intros Hdoc. pose proof (catalog_of_ok doc Hdoc) as Hc. split; cbn -[store_of].
  - split; [apply Hdoc|]. by vm_compute.
  - unfold list_node_models. cbn. unfold node_models_of.
    rewrite (bt_values_entries xnm_name node_model_of) by apply Hdoc. rewrite map_map.
    apply reflexive_eq. apply map_in. intros m Hm.
    pose proof (do_node_models _ Hdoc) as Hall. rewrite Forall_forall in Hall.
    destruct (Hall m Hm) as (Hint & _). unfold interchange_node_model, canonical_node_model. cbn.
    by rewrite Hint, interchange_fields_of.
  - unfold list_rel_models. cbn. unfold edge_models_of.
    rewrite (bt_values_entries xem_name edge_model_of) by apply Hdoc. rewrite map_map.
    apply reflexive_eq. apply map_in. intros m Hm.
    pose proof (do_edge_models _ Hdoc) as Hall. rewrite Forall_forall in Hall.
    destruct (Hall m Hm) as (Hint & _). unfold interchange_edge_model, canonical_edge_model. cbn.
    by rewrite Hint, interchange_fields_of.
  - rewrite (proj1 (nodes_of_store doc Hdoc)). unfold nodes_of.
    rewrite (bt_values_entries xn_id node_of) by apply Hdoc. rewrite map_map.
    apply reflexive_eq. rewrite <-(map_id (xd_nodes (xc_data doc))) at 2. apply map_in.
    intros x Hx. pose proof (do_nodes _ Hdoc) as Hall. rewrite Forall_forall in Hall.
    destruct (Hall x Hx) as (_ & m & Hm & _). unfold interchange_node.
    rewrite (node_name_found _ _ _ m Hc Hm) by done. by destruct x.
  - rewrite (proj2 (nodes_of_store doc Hdoc)). unfold edges_of.
    rewrite (bt_values_entries xe_id edge_of) by apply Hdoc. rewrite map_map.
    apply reflexive_eq. rewrite <-(map_id (xd_edges (xc_data doc))) at 2. apply map_in.
    intros x Hx. pose proof (do_edges _ Hdoc) as Hall. rewrite Forall_forall in Hall.
    destruct (Hall x Hx) as (_ & m & Hm & _). unfold interchange_edge.
    rewrite (edge_name_found _ _ _ m Hc Hm) by done. by destruct x.
Qed.
End roundtrips.

Section exporting.
Context `{SerdeNumber} `{Formats}.
Implicit Types (doc : InterchangeDocument) (c : SessionModelCatalog) (σ τ : SessionState).

(** *** Exporting *)

Lemma entries_back {A K V} `{Countable K} `{!KeyOrd K} (key : A → K) (val : A → V) (g : V → A)
    (m : gmap K V) :
  (∀ k v, m !! k = Some v → key (g v) = k ∧ val (g v) = v) →
  entries_of key val (map g (bt_values m)) = m ∧ NoDup (map key (map g (bt_values m))).
Proof.
  intros Hg. pose proof (bt_keys_NoDup m) as Hnd. pose proof (list_to_map_bt_iter m) as Hm.
  unfold entries_of, bt_values, bt_keys in *.
  assert (∀ k v, (k, v) ∈ bt_iter m → key (g v) = k ∧ val (g v) = v) as Hin.
  { intros k v Hkv. apply Hg. by apply elem_of_bt_iter. }
  clear Hg. set (l := bt_iter m) in *.
  assert (map (λ a, (key a, val a)) (map g l.*2) = l ∧ map key (map g l.*2) = l.*1) as [-> ->]; [|done].
  clear -Hin. induction l as [|[k v] l IH]; [done|]. cbn.
  destruct (Hin k v) as [-> ->]; [by left|].
  destruct IH as [-> ->]; [|done]. intros k' v' Hkv. apply Hin. by right.
Qed.

Lemma exported_fields fields :
  map field_of (interchange_fields fields) = fields ∧ fields_readable (interchange_fields fields).
Proof.
  unfold interchange_fields, fields_readable. rewrite map_map. split.
  - rewrite <-(map_id fields) at 2. apply map_in. intros [n t r] _. unfold field_of. cbn.
    by rewrite type_keyword_parsed.
  - apply Forall_forall. intros x (f & -> & _)%list_elem_of_fmap. cbn.
    by rewrite type_keyword_parsed.
Qed.

Lemma exported_node_model m :
  nm_id_type m = IdInt64 → nm_origin m = Declared → node_model_ok m →
  node_model_of (interchange_node_model m) = m ∧ node_model_readable (interchange_node_model m).
Proof.
  intros Ht Ho Hok. assert (node_model_of (interchange_node_model m) = m) as Heq.
  { destruct Hok as (_ & Hl & _). destruct m. unfold node_model_of. cbn in *. subst.
    by rewrite (proj1 (exported_fields _)). }
  split; [done|]. unfold node_model_readable. rewrite Heq. cbn. rewrite Ht.
  split_and!; [done|apply exported_fields|apply Hok..].
Qed.

Lemma exported_edge_model N m :
  rm_id_type m = IdInt64 → rm_origin m = Declared → rel_model_ok m →
  is_Some (N !! rm_from_model m) → is_Some (N !! rm_to_model m) → N !! rm_name m = None →
  edge_model_of (interchange_edge_model m) = m ∧
  edge_model_readable N (interchange_edge_model m).
Proof.
  intros Ht Ho Hok Hf Hto Hn. assert (edge_model_of (interchange_edge_model m) = m) as Heq.
  { destruct Hok as (_ & Hl & _). destruct m. unfold edge_model_of. cbn in *. subst.
    by rewrite (proj1 (exported_fields _)). }
  split; [done|]. unfold edge_model_readable. rewrite Heq. cbn. rewrite Ht.
  split_and!; [done|apply exported_fields|apply Hok..|done|done|done].
Qed.

Section session.
Context (σ : SessionState) (Hinv : session_inv σ) (Hport : portable σ).
Let doc := interchange_document σ.
Let N := node_models (ss_catalog σ).
Let R := rel_models (ss_catalog σ).

Lemma exported_node_models :
  node_models_of (xs_nodes (xc_schema doc)) = N ∧ NoDup (map xnm_name (xs_nodes (xc_schema doc))).
Proof.
  apply entries_back. intros name m Hm. destruct (po_nodes _ Hport _ _ Hm) as [Ht Ho].
  destruct (Catalog.co_node _ (si_catalog _ Hinv) _ _ Hm) as [Hname Hok].
  split; [done|]. by apply exported_node_model.
Qed.

Lemma exported_edge_models :
  edge_models_of (xs_edges (xc_schema doc)) = R ∧ NoDup (map xem_name (xs_edges (xc_schema doc))) ∧
  Forall (edge_model_readable N) (xs_edges (xc_schema doc)).
Proof.
  assert (∀ name m, R !! name = Some m →
    rm_name m = name ∧ edge_model_of (interchange_edge_model m) = m ∧
    edge_model_readable N (interchange_edge_model m)) as Hall.
  { intros name m Hm. destruct (po_rels _ Hport _ _ Hm) as [Ht Ho].
    destruct (Catalog.co_rel _ (si_catalog _ Hinv) _ _ Hm) as (Hname & Hok & Hf & Hto).
    split; [done|]. apply exported_edge_model; try done.
    destruct (Catalog.co_apart _ (si_catalog _ Hinv) (rm_name m)) as [|Hnone]; [done|].
    unfold R in Hm. by rewrite <-Hname, Hnone in Hm. }
  split_and!.
  1,2: apply (entries_back xem_name edge_model_of interchange_edge_model R); intros name m Hm;
    by destruct (Hall _ _ Hm) as (? & ? & _).
  apply Forall_forall. intros x (m & -> & [name Hm]%elem_of_bt_values)%list_elem_of_fmap.
  by destruct (Hall _ _ Hm) as (_ & _ & ?).
Qed.

Lemma exported_nodes :
  nodes_of (xd_nodes (xc_data doc)) = nodes (ss_store σ) ∧
  NoDup (map xn_id (xd_nodes (xc_data doc))) ∧
  Forall (node_readable N) (xd_nodes (xc_data doc)).
Proof.
  pose proof (si_ready _ Hinv) as Hready. pose proof (sr_wf _ Hready) as Hwf.
  assert (∀ id node, nodes (ss_store σ) !! id = Some node →
    let x := interchange_node (ss_catalog σ) node in
    xn_id x = id ∧ node_of x = node ∧ node_readable N x) as Hall.
  { intros id node Hnode x. pose proof (wf_node_id _ Hwf _ _ Hnode) as Hid.
    destruct (gc_nodes _ _ (si_graph _ Hinv) id node Hnode) as (m & Hm & Hl & Hprops).
    destruct (Catalog.co_node _ (si_catalog _ Hinv) _ _ Hm) as (_ & _ & Hlabel & _).
    rewrite Hlabel in Hl.
    assert (interchange_node_model_name (ss_catalog σ) node = nm_name m) as Hmodel
      by (by apply (node_name_found _ _ _ m); [apply Hinv|..]).
    unfold x, interchange_node, node_of, node_readable. cbn. rewrite Hmodel. split_and!; [done| | |].
    - destruct node. cbn in *. by subst.
    - rewrite Hid. apply (po_node_ids _ Hport). by rewrite Hnode.
    - by exists m. }
  split_and!.
  1,2: apply (entries_back xn_id node_of (interchange_node (ss_catalog σ))); intros id node Hnode;
    by destruct (Hall _ _ Hnode) as (? & ? & _).
  apply Forall_forall. intros x (node & -> & [id Hnode]%elem_of_bt_values)%list_elem_of_fmap.
  by destruct (Hall _ _ Hnode) as (_ & _ & ?).
Qed.

Lemma exported_edges :
  edges_of (xd_edges (xc_data doc)) = rels (ss_store σ) ∧
  NoDup (map xe_id (xd_edges (xc_data doc))) ∧
  Forall (edge_readable R (nodes (ss_store σ))) (xd_edges (xc_data doc)).
Proof.
  pose proof (si_ready _ Hinv) as Hready. pose proof (sr_wf _ Hready) as Hwf.
  assert (∀ id rel, rels (ss_store σ) !! id = Some rel →
    let x := interchange_edge (ss_catalog σ) rel in
    xe_id x = id ∧ edge_of x = rel ∧ edge_readable R (nodes (ss_store σ)) x) as Hall.
  { intros id rel Hrel x. pose proof (wf_rel_id _ Hwf _ _ Hrel) as Hid.
    destruct (gc_rels _ _ (si_graph _ Hinv) id rel Hrel) as (m & Hm & Hl & Hprops & Hf & Ht).
    destruct (Catalog.co_rel _ (si_catalog _ Hinv) _ _ Hm) as (_ & (_ & Htype & _) & _).
    rewrite Htype in Hl.
    assert (interchange_edge_model_name (ss_catalog σ) rel = rm_name m) as Hmodel
      by (by apply (edge_name_found _ _ _ m); [apply Hinv|..]).
    unfold x, interchange_edge, edge_of, edge_readable. cbn. rewrite Hmodel. split_and!; [done| | |].
    - destruct rel. cbn in *. by subst.
    - rewrite Hid. apply (po_rel_ids _ Hport). by rewrite Hrel.
    - by exists m. }
  split_and!.
  1,2: apply (entries_back xe_id edge_of (interchange_edge (ss_catalog σ))); intros id rel Hrel;
    by destruct (Hall _ _ Hrel) as (? & ? & _).
  apply Forall_forall. intros x (rel & -> & [id Hrel]%elem_of_bt_values)%list_elem_of_fmap.
  by destruct (Hall _ _ Hrel) as (_ & _ & ?).
Qed.

Lemma exported_document_ok : document_ok doc.
Proof.
  destruct exported_node_models as [Hn Hnd]. destruct exported_edge_models as (He & Hed & Hre).
  destruct exported_nodes as (Hdn & Hdnd & Hrn). destruct exported_edges as (Hde & Hded & Hree).
  split; unfold catalog_of; cbn [node_models rel_models]; rewrite ?Hn, ?He, ?Hdn; try done.
  apply Forall_forall. intros x (m & -> & [name Hm]%elem_of_bt_values)%list_elem_of_fmap.
  destruct (po_nodes _ Hport _ _ Hm) as [Ht Ho].
  destruct (Catalog.co_node _ (si_catalog _ Hinv) _ _ Hm) as [_ Hok]. by apply exported_node_model.
Qed.

Lemma exported_ids : ids_have_next doc.
Proof.
  pose proof (si_ready _ Hinv) as Hready. pose proof (sr_wf _ Hready) as Hwf.
  pose proof (sr_node_bound _ Hready). pose proof (sr_rel_bound _ Hready). split.
  - apply Forall_forall. intros x (node & -> & [id Hnode]%elem_of_bt_values)%list_elem_of_fmap.
    cbn. rewrite (wf_node_id _ Hwf _ _ Hnode).
    assert (i64_min ≤ id < next_node_id (ss_store σ))%Z
      by (apply (sr_node_ids _ Hready); by rewrite Hnode). lia.
  - apply Forall_forall. intros x (rel & -> & [id Hrel]%elem_of_bt_values)%list_elem_of_fmap.
    cbn. rewrite (wf_rel_id _ Hwf _ _ Hrel).
    assert (i64_min ≤ id < next_rel_id (ss_store σ))%Z
      by (apply (sr_rel_ids _ Hready); by rewrite Hrel). lia.
Qed.

(** The session of the exported document: the same catalog and graph. *)
Lemma exported_session :
  ss_catalog (session_of_document doc) = ss_catalog σ ∧
  nodes (ss_store (session_of_document doc)) = nodes (ss_store σ) ∧
  rels (ss_store (session_of_document doc)) = rels (ss_store σ).
Proof.
  destruct (nodes_of_store doc exported_document_ok) as [Hn Hr]. cbn [ss_store session_of_document].
  rewrite Hn, Hr, (proj1 exported_nodes), (proj1 exported_edges). split_and!; [|done|done].
  cbn. unfold catalog_of. rewrite (proj1 exported_node_models), (proj1 exported_edge_models).
  unfold N, R. by destruct (ss_catalog σ).
Qed.
End session.
End exporting.

(** *** What mutations build is portable *)

Section portable_runs.
Context `{SerdeNumber} `{Formats}.
Implicit Types (g : AGraph) (σ : SessionState).

Definition positive g : Prop :=
  (∀ id, is_Some (ag_nodes g !! id) → (0 < id)%Z) ∧ (∀ id, is_Some (ag_rels g !! id) → (0 < id)%Z) ∧
  (0 < ag_next_node g)%Z ∧ (0 < ag_next_rel g)%Z.

(** A portable session whose counters are positive, as those of a new one. *)
Definition grown σ : Prop := portable σ ∧ positive (graph_of (ss_store σ)).

Lemma spec_positive op g r g' : positive g → spec_step op g = (r, g') → positive g'.
Proof.
  intros (Hn & Hr & Hnn & Hnr).
  destruct op; cbn; try case_match; intros [= _ <-]; split_and!; cbn; try done; try lia;
    intros i; rewrite ?lookup_insert_is_Some, ?lookup_delete_is_Some; try (by naive_solver).
  intros [x [Hx _]%map_lookup_filter_Some]. apply Hr. by rewrite Hx.
Qed.

Lemma outcome_grown {A} (r : result A * SessionState) σ (P : A → AGraph → Prop) :
  grown σ → outcome r σ P → (∀ a g, P a g → positive g) → grown r.2.
Proof.
  intros [Hport Hpos] Hout HP. destruct r as [[a|e] σ']; cbn; [|by cbn in Hout; subst].
  destruct Hout as (Hcat & _ & Ha). specialize (HP _ _ Ha). split; [|done].
  destruct HP as (Hn & Hr & _). by split; rewrite ?Hcat; [apply (po_nodes _ Hport)|apply (po_rels _ Hport)|..].
Qed.

Lemma grown_lift {A B} (r : result A) (f : A → session B) σ :
  grown σ → (∀ a, r = Ok a → grown (f a σ).2) → grown ((lift r ≫= f) σ).2.
Proof. intros Hσ Hf. rewrite session_bind_lift. destruct r; [by apply Hf|done]. Qed.
Lemma grown_bind {A B} (m : session A) (f : A → B) σ :
  grown (m σ).2 → grown ((a ← m; mret (f a)) σ).2.
Proof. unfold mbind, session_bind. by destruct (m σ) as [[a|e] σ']. Qed.
Lemma grown_node_model {B} name (f : RuntimeNodeModel → session B) σ :
  grown σ → (∀ m, grown (f m σ).2) → grown ((node_model name ≫= f) σ).2.
Proof.
  intros Hσ Hf. unfold node_model, catalog, lift, mbind, session_bind.
  destruct (get_node_model (ss_catalog σ) name); [apply Hf|done].
Qed.
Lemma grown_rel_model {B} name (f : RuntimeRelModel → session B) σ :
  grown σ → (∀ m, grown (f m σ).2) → grown ((rel_model name ≫= f) σ).2.
Proof.
  intros Hσ Hf. unfold rel_model, catalog, lift, mbind, session_bind.
  destruct (get_rel_model (ss_catalog σ) name); [apply Hf|done].
Qed.

Lemma define_node_grown r σ : grown σ → grown (apply_define_node r σ).2.
Proof.
  intros Hσ. apply grown_lift; [done|]. intros fields _. apply grown_lift; [done|].
  intros m [-> _]%node_model_new_iff. unfold register_model, mbind, session_bind.
  destruct (register_node_model _ _) as [c'|] eqn:Hreg; cbn; [|done].
  unfold register_node_model in Hreg. case_match; [done|]. injection Hreg as <-.
  destruct Hσ as [[Hn Hr ? ?] ?]. split; [|done]. split; try done. cbn.
  intros name m [[_ <-]|[_ Hm]]%lookup_insert_Some; [done|by apply (Hn name)].
Qed.

Lemma define_edge_grown r σ : grown σ → grown (apply_define_edge r σ).2.
Proof.
  intros Hσ. apply grown_lift; [done|]. intros fields _. apply grown_lift; [done|].
  intros m [-> _]%rel_model_new_iff. unfold session_register_rel_model, mbind, session_bind. cbn.
  destruct (node_models (ss_catalog σ) !! de_from_model r); cbn; [|done].
  destruct (node_models (ss_catalog σ) !! de_to_model r); cbn; [|done].
  destruct (register_rel_model _ _) as [c'|] eqn:Hreg; cbn; [|done].
  unfold register_rel_model in Hreg. case_match; [done|]. injection Hreg as <-.
  destruct Hσ as [[Hn Hr ? ?] ?]. split; [|done]. split; try done. cbn.
  intros name m [[_ <-]|[_ Hm]]%lookup_insert_Some; [done|by apply (Hr name)].
Qed.

Lemma mutation_grown mut σ :
  session_inv σ → room σ → grown σ → grown (apply_mutation mut σ).2.
Proof.
  intros Hinv [Hroom Hroom'] Hσ. pose proof (si_ready _ Hinv) as Hready.
  assert (positive (graph_of (ss_store σ))) as Hpos by apply Hσ.
  destruct mut as [r|r|r|r|r|r|r|r]; apply grown_bind.
  - by apply define_node_grown.
  - by apply define_edge_grown.
  - apply grown_bind, grown_node_model; [done|]. intros m. apply grown_lift; [done|].
    intros props _. eapply (outcome_grown _ _ _ Hσ (create_node_tx_ok _ _ _ Hready Hroom)).
    intros a g. by apply spec_positive.
  - apply grown_bind, grown_node_model; [done|]. intros m. apply grown_lift; [done|].
    intros props _. eapply (outcome_grown _ _ _ Hσ (update_node_tx_ok _ _ _ _ Hready)).
    intros a g [_ Hg]. by apply (spec_positive _ _ _ _ Hpos Hg).
  - apply grown_bind, grown_node_model; [done|]. intros m. apply grown_lift; [done|].
    intros i _. eapply (outcome_grown _ _ _ Hσ (delete_node_tx_ok _ _ _ Hready)).
    intros a g [_ Hg]. by apply (spec_positive _ _ _ _ Hpos Hg).
  - apply grown_bind, grown_rel_model; [done|]. intros m. apply grown_lift; [done|].
    intros props _.
    eapply (outcome_grown _ _ _ Hσ (create_relationship_tx_ok _ _ _ _ _ Hready Hroom')).
    intros a g (_ & _ & Hg). by apply (spec_positive _ _ _ _ Hpos Hg).
  - apply grown_bind, grown_rel_model; [done|]. intros m. apply grown_lift; [done|].
    intros props _. destruct (existing_edge_run (eu_model r) (eu_id r) σ) as (res & Hrun & _).
    unfold mbind at 1, session_bind. rewrite Hrun. destruct res as [existing|]; [|done].
    eapply (outcome_grown _ _ _ Hσ (update_relationship_tx_ok _ _ _ _ Hready)).
    intros a g. by apply spec_positive.
  - apply grown_bind. unfold delete_relationship_instance. apply grown_lift; [done|].
    intros i _. destruct (existing_edge_run (ed_model r) i σ) as (res & Hrun & _).
    unfold mbind at 1, session_bind. rewrite Hrun. destruct res as [existing|]; [|done].
    eapply (outcome_grown _ _ _ Hσ (delete_relationship_tx_ok _ _ Hready)).
    intros a g. by apply spec_positive.
Qed.

Lemma new_grown : grown session_new.
Proof.
  split; [split|split_and!]; cbn; try done; intros ?;
    try (intros [? Hl]; by rewrite lookup_empty in Hl); intros ? Hl; by rewrite lookup_empty in Hl.
Qed.

Lemma run_grown ms σ :
  session_inv σ → room_for (length ms) σ → grown σ → grown (run_mutations ms σ).2.
Proof.
  revert σ. induction ms as [|m ms IH]; intros σ Hinv Hroom Hσ; cbn [run_mutations]; [done|].
  unfold room_for in Hroom. cbn [length] in Hroom.
  pose proof (mutation_sound m σ Hinv ltac:(unfold room; lia)) as Hs.
  pose proof (mutation_grown m σ Hinv ltac:(unfold room; lia) Hσ) as Hg.
  destruct (apply_mutation m σ) as [[op|e] σ1]; cbn in Hg.
  - destruct Hs as (Hinv1 & _ & Huse).
    specialize (IH σ1 Hinv1 ltac:(unfold room_for, uses_one_id in *; lia) Hg).
    by destruct (run_mutations ms σ1).
  - unfold sound in Hs. subst σ1. apply IH; [done| |done]. unfold room_for in *. lia.
Qed.
End portable_runs.

(** ** The files *)

Section files.
Context `{SerdeNumber} `{Formats} `{!InterchangeCodec}.
Implicit Types (doc : InterchangeDocument) (σ τ : SessionState) (fs : FileSys) (fl : list fault).

Definition i64_typed (z : Z) : Prop := (i64_min ≤ z ≤ i64_max)%Z.
Definition field_typed (field : InterchangeField) : Prop :=
  utf8 (xf_name field) ∧ utf8 (xf_value_type field).
Definition node_model_typed (m : InterchangeNodeModel) : Prop :=
  utf8 (xnm_name m) ∧ utf8 (xnm_id_field m) ∧ utf8 (xnm_id_type m) ∧
  Forall field_typed (xnm_fields m).
Definition edge_model_typed (m : InterchangeEdgeModel) : Prop :=
  utf8 (xem_name m) ∧ utf8 (xem_from m) ∧ utf8 (xem_to m) ∧ utf8 (xem_id_field m) ∧
  utf8 (xem_id_type m) ∧ Forall field_typed (xem_fields m).
Definition node_typed (node : InterchangeNode) : Prop :=
  i64_typed (xn_id node) ∧ utf8 (xn_model node) ∧ props_safe (xn_props node).
Definition edge_typed (edge : InterchangeEdge) : Prop :=
  i64_typed (xe_id edge) ∧ utf8 (xe_model edge) ∧ i64_typed (xe_from edge) ∧
  i64_typed (xe_to edge) ∧ props_safe (xe_props edge).

(** The documents the types of the code allow, with values a parser reads back. *)
Record document_typed doc : Prop := {
  dt_header : utf8 (xc_format doc) ∧ (0 ≤ xc_version doc < 2 ^ 32)%Z ∧ utf8 (xc_kind doc) ∧
    utf8 (xi_node (xc_identity doc)) ∧ utf8 (xi_edge (xc_identity doc));
  dt_node_models : Forall node_model_typed (xs_nodes (xc_schema doc));
  dt_edge_models : Forall edge_model_typed (xs_edges (xc_schema doc));
  dt_nodes : Forall node_typed (xd_nodes (xc_data doc));
  dt_edges : Forall edge_typed (xd_edges (xc_data doc));
}.

Class InterchangeLaws : Prop := {
  json_of_document_total doc : is_Some (json_of_document doc);
  json_of_document_utf8 doc b : json_of_document doc = Some b → utf8 b;
  document_of_json_of doc b :
    json_of_document doc = Some b → document_typed doc → document_of_json b = Some doc;
}.

Lemma imported_iff doc τ :
  imported doc = Ok τ ↔ document_ok doc ∧ τ = session_of_document doc.
Proof.
  unfold imported. rewrite bind_Ok. split.
  - intros ([c store] & (Hdoc & -> & ->)%build_iff & [= <-]). done.
  - intros [Hdoc ->]. exists (catalog_of doc, store_of doc). rewrite build_iff. done.
Qed.

Lemma import_runs path σ fs json doc :
  is_empty_for_import σ = true → fs !! file_key path = Some json → utf8 json →
  document_of_json json = Some doc →
  import_from_json path σ [] fs =
    (Done match imported doc with Ok τ => (Ok tt, τ) | Err e => (Err e, σ) end, [], fs).
Proof.
  intros Hempty Hfile Hutf Hjson. unfold import_from_json, or_abort, mbind, io_bind.
  rewrite Hempty. cbn [negb]. rewrite read_to_string_runs, Hfile, Hutf, Hjson. cbn.
  by destruct (imported doc).
Qed.

(** C32: an empty session imports a document exactly when it is well formed, and
    is then the session the document says; otherwise it answers an error and is
    as it was. *)
Theorem import_accepts_exactly path σ fs json doc :
  is_empty_for_import σ = true → fs !! file_key path = Some json → utf8 json →
  document_of_json json = Some doc →
  (document_ok doc ∧
   import_from_json path σ [] fs = (Done (Ok tt, session_of_document doc), [], fs)) ∨
  (¬ document_ok doc ∧ ∃ e, import_from_json path σ [] fs = (Done (Err e, σ), [], fs)).
Proof.
  intros Hempty Hfile Hutf Hjson. rewrite (import_runs path σ fs json doc) by done.
  destruct (imported doc) as [τ|e] eqn:Hi.
  - apply imported_iff in Hi as [Hdoc ->]. by left.
  - right. split; [|by eexists]. intros Hdoc.
    assert (imported doc = Ok (session_of_document doc)) as Hok by by apply imported_iff.
    by rewrite Hok in Hi.
Qed.

(** C31: a session imported from a document whose identifiers have a successor is
    consistent with its catalog, and exports the document again, up to the order
    of its lists and the spelling of its types. *)
Theorem import_then_export doc τ :
  imported doc = Ok τ → ids_have_next doc →
  session_inv τ ∧ portable τ ∧ same_document doc (interchange_document τ).
Proof.
  intros [Hdoc ->]%imported_iff Hids. split_and!.
  - by apply document_session_inv.
  - by apply document_portable.
  - by apply exported_again.
Qed.

Lemma exported_typed σ :
  session_inv σ → graph_safe (to_persisted (ss_store σ)) → catalog_utf8 (ss_catalog σ) →
  portable σ → document_typed (interchange_document σ).
Proof.
  intros Hinv [Hgn Hgr] [Hcn Hcr] Hport.
  destruct (exported_ids σ Hinv) as [Hidn Hide].
  pose proof (proj2 (proj2 (exported_nodes σ Hinv Hport))) as Hrn.
  pose proof (proj2 (proj2 (exported_edges σ Hinv Hport))) as Hre.
  pose proof (si_ready _ Hinv) as Hready.
  assert (∀ fields, fields_utf8 fields → Forall field_typed (interchange_fields fields)) as Hfields.
  { intros fields Hf. apply Forall_forall. intros x (f & -> & Hin)%list_elem_of_fmap.
    unfold fields_utf8 in Hf. rewrite Forall_forall in Hf. split; [by apply Hf|].
    by destruct (field_type f); vm_compute. }
  assert (∀ t, utf8 (id_type_keyword t)) as Hid by (intros []; by vm_compute).
  rewrite Forall_forall in Hidn. rewrite Forall_forall in Hide.
  rewrite Forall_forall in Hrn. rewrite Forall_forall in Hre.
  split.
  - by split_and!; vm_compute.
  - apply Forall_forall. intros x (m & -> & [name Hm]%elem_of_bt_values)%list_elem_of_fmap.
    destruct (Hcn _ _ Hm) as (_ & ? & _ & ? & ?).
    unfold node_model_typed. cbn -[utf8 id_type_keyword interchange_fields]. split_and!; auto.
  - apply Forall_forall. intros x (m & -> & [name Hm]%elem_of_bt_values)%list_elem_of_fmap.
    destruct (Hcr _ _ Hm) as (_ & ? & _ & ? & ? & ? & ?).
    unfold edge_model_typed. cbn -[utf8 id_type_keyword interchange_fields]. split_and!; auto.
  - apply Forall_forall. intros x Hx. specialize (Hidn x Hx).
    destruct (Hrn x Hx) as (Hpos & m & Hm & _). destruct (Hcn _ _ Hm) as [Hname _].
    apply list_elem_of_fmap in Hx as (node & -> & [id Hnode]%elem_of_bt_values).
    split_and!; [unfold i64_typed, i64_min in *; lia|done|]. by destruct (Hgn _ _ Hnode).
  - apply Forall_forall. intros x Hx. specialize (Hide x Hx).
    destruct (Hre x Hx) as (Hpos & m & Hm & _ & Hf & Ht). destruct (Hcr _ _ Hm) as [Hname _].
    apply list_elem_of_fmap in Hx as (rel & -> & [id Hrel]%elem_of_bt_values).
    assert (∀ i name, end_readable (nodes (ss_store σ)) i name → i64_typed i) as Hend.
    { intros i name (node & Hi & _). assert (i64_min ≤ i < next_node_id (ss_store σ))%Z
        by (apply (sr_node_ids _ Hready); by rewrite Hi).
      pose proof (sr_node_bound _ Hready). unfold i64_typed. lia. }
    split_and!; [unfold i64_typed, i64_min in *; lia|done|by eapply Hend|by eapply Hend|].
    by destruct (Hgr _ _ Hrel).
Qed.

Lemma counters_reset σ :
  session_inv σ → portable σ → positive (graph_of (ss_store σ)) →
  let τ := session_of_document (interchange_document σ) in
  (next_node_id (ss_store τ) ≤ next_node_id (ss_store σ))%Z ∧
  (next_rel_id (ss_store τ) ≤ next_rel_id (ss_store σ))%Z.
Proof.
  intros Hinv Hport (_ & _ & Hnn & Hnr) τ. pose proof (si_ready _ Hinv) as Hready.
  pose proof (exported_document_ok σ Hinv Hport) as Hdoc.
  destruct (next_ids_ok _ Hdoc (exported_ids σ Hinv)) as [Hz1 Hz2].
  destruct (nodes_stored_ok _ Hdoc) as [(_ & _ & Hpos1 & _ & Hmax1) Hnodes].
  destruct (graph_stored_ok _ Hdoc) as [(_ & _ & Hpos2 & _ & Hmax2) Hrels].
  rewrite Hnodes, (proj1 (exported_nodes σ Hinv Hport)) in Hmax1.
  rewrite Hrels, (proj1 (exported_edges σ Hinv Hport)) in Hmax2. cbn in Hnn, Hnr.
  unfold i64_max in *. cbn -[nodes_stored graph_stored interchange_document].
  rewrite !i64_add_small by (unfold i64_min, i64_max; lia). split.
  - destruct Hmax1 as [->|Hk]; [lia|]. apply (sr_node_ids _ Hready) in Hk. lia.
  - destruct Hmax2 as [->|Hk]; [lia|]. apply (sr_rel_ids _ Hready) in Hk. lia.
Qed.

Context `{!InterchangeLaws}.

End files.

(** ** A concrete serializer of documents *)

#[export] Instance InterchangeField_eq_dec : EqDecision InterchangeField.
Proof. solve_decision. Defined.
#[export] Program Instance InterchangeField_countable : Countable InterchangeField :=
  inj_countable' (λ f, (xf_name f, xf_value_type f, xf_required f))
    (λ '(n, t, r), {| xf_name := n; xf_value_type := t; xf_required := r |}) _.
Next Obligation. by intros []. Qed.
#[export] Instance InterchangeNodeModel_eq_dec : EqDecision InterchangeNodeModel.
Proof. solve_decision. Defined.
#[export] Program Instance InterchangeNodeModel_countable : Countable InterchangeNodeModel :=
  inj_countable' (λ m, (xnm_name m, xnm_id_field m, xnm_id_type m, xnm_fields m))
    (λ '(n, i, t, f), {| xnm_name := n; xnm_id_field := i; xnm_id_type := t; xnm_fields := f |}) _.
Next Obligation. by intros []. Qed.
#[export] Instance InterchangeEdgeModel_eq_dec : EqDecision InterchangeEdgeModel.
Proof. solve_decision. Defined.
#[export] Program Instance InterchangeEdgeModel_countable : Countable InterchangeEdgeModel :=
  inj_countable' (λ m, (xem_name m, xem_from m, xem_to m, xem_id_field m, xem_id_type m, xem_fields m))
    (λ '(n, a, b, i, t, f), {| xem_name := n; xem_from := a; xem_to := b; xem_id_field := i;
                               xem_id_type := t; xem_fields := f |}) _.
Next Obligation. by intros []. Qed.

Section codec.
#[local] Existing Instance serde_default.

#[export] Instance InterchangeNode_eq_dec : EqDecision InterchangeNode.
Proof. solve_decision. Defined.
#[export] Program Instance InterchangeNode_countable : Countable InterchangeNode :=
  inj_countable' (λ x, (xn_id x, xn_model x, xn_props x))
    (λ '(i, m, p), {| xn_id := i; xn_model := m; xn_props := p |}) _.
Next Obligation. by intros []. Qed.
#[export] Instance InterchangeEdge_eq_dec : EqDecision InterchangeEdge.
Proof. solve_decision. Defined.
#[export] Program Instance InterchangeEdge_countable : Countable InterchangeEdge :=
  inj_countable' (λ x, (xe_id x, xe_model x, xe_from x, xe_to x, xe_props x))
    (λ '(i, m, a, b, p), {| xe_id := i; xe_model := m; xe_from := a; xe_to := b; xe_props := p |}) _.
Next Obligation. by intros []. Qed.

Definition document_parts (d : InterchangeDocument) :=
  ((xc_format d, xc_version d, xc_kind d, xi_node (xc_identity d), xi_edge (xc_identity d)),
   (xs_nodes (xc_schema d), xs_edges (xc_schema d)), (xd_nodes (xc_data d), xd_edges (xc_data d))).
#[export] Instance InterchangeDocument_eq_dec : EqDecision InterchangeDocument.
Proof.
  refine (λ d e, cast_if (decide (document_parts d = document_parts e)));
    [|by intros ->]. by destruct d as [??? [] [] []], e as [??? [] [] []]; simplify_eq/=.
Defined.
#[export] Program Instance InterchangeDocument_countable : Countable InterchangeDocument :=
  inj_countable' document_parts
    (λ '((f, v, k, n, e), (ns, es), (dn, de)),
       {| xc_format := f; xc_version := v; xc_kind := k;
          xc_identity := {| xi_node := n; xi_edge := e |};
          xc_schema := {| xs_nodes := ns; xs_edges := es |};
          xc_data := {| xd_nodes := dn; xd_edges := de |} |}) _.
Next Obligation. by intros [??? [] [] []]. Qed.

#[export] Instance digits_interchange_codec : InterchangeCodec := {|
  json_of_document d := Some (to_digits d);
  document_of_json := of_digits;
|}.

Lemma digits_interchange_laws : InterchangeLaws.
Proof.
  split.
  - intros d. exact (mk_is_Some _ _ eq_refl).
  - intros d b [= <-]. apply to_digits_utf8.
  - intros d b [= <-] _. apply of_to_digits.
Qed.
End codec.

(** ** Documents at work *)

Section interchange_witnesses.
Existing Instances serde_default w_formats digits_interchange_codec digits_interchange_laws.

Lemma w_session_grown : grown w_session.
Proof. apply run_grown; [apply session_new_inv|by vm_compute|apply new_grown]. Qed.

Definition w_document : InterchangeDocument := interchange_document w_session.
Lemma w_document_ok : document_ok w_document ∧ ids_have_next w_document.
Proof.
  destruct w_session_inv as [Hinv _]. destruct w_session_grown as [Hport _].
  split; [by apply exported_document_ok|by apply exported_ids].
Qed.

(** The same with another version. *)
Definition w_future : InterchangeDocument :=
  {| xc_format := xc_format w_document; xc_version := 2; xc_kind := xc_kind w_document;
     xc_identity := xc_identity w_document; xc_schema := xc_schema w_document;
     xc_data := xc_data w_document |}.

Lemma import_accepts_exactly_witness :
  (let fs : FileSys := {[file_key w_path := to_digits w_document]} in
   import_from_json w_path session_new [] fs
     = (Done (Ok tt, session_of_document w_document), [], fs)) ∧
  (let fs : FileSys := {[file_key w_path := to_digits w_future]} in
   ∃ e, import_from_json w_path session_new [] fs = (Done (Err e, session_new), [], fs)).
Proof.
  split; intros fs.
  - destruct (import_accepts_exactly w_path session_new fs (to_digits w_document) w_document)
      as [[_ Hok]|[Hno _]]; [by vm_compute|apply lookup_singleton_eq|apply to_digits_utf8
      |apply of_to_digits|exact Hok|]. destruct Hno. apply w_document_ok.
  - destruct (import_accepts_exactly w_path session_new fs (to_digits w_future) w_future)
      as [[Hyes _]|[_ Herr]]; [by vm_compute|apply lookup_singleton_eq|apply to_digits_utf8
      |apply of_to_digits| |exact Herr]. by destruct Hyes as [(_ & ? & _)].
Defined.

Lemma import_then_export_witness :
  imported w_document = Ok (session_of_document w_document) ∧
  session_inv (session_of_document w_document) ∧ portable (session_of_document w_document) ∧
  same_document w_document (interchange_document (session_of_document w_document)).
Proof.
  destruct w_document_ok as [Hdoc Hids].
  assert (imported w_document = Ok (session_of_document w_document)) as Hi
    by by apply imported_iff.
  split; [exact Hi|]. exact (import_then_export w_document _ Hi Hids).
Defined.


(** *** The largest identifier *)

Definition w_largest : InterchangeDocument :=
  {| xc_format := "grm.interchange"; xc_version := 1; xc_kind := "graph";
     xc_identity := {| xi_node := "int"; xi_edge := "int" |};
     xc_schema := {| xs_nodes := [{| xnm_name := "User"; xnm_id_field := "userId";
                                     xnm_id_type := "int"; xnm_fields := [] |}];
                     xs_edges := [] |};
     xc_data := {| xd_nodes := [{| xn_id := i64_max; xn_model := "User"; xn_props := ∅ |}];
                   xd_edges := [] |} |}.

(** The session imported, after the creation of one more node. *)
Definition w_after_largest : result SessionState :=
  τ ← imported w_largest;
  Ok (apply_node_create {| nc_model := "User"; nc_props := ∅ |} τ).2.

Definition largest_check : bool :=
  match w_after_largest with
  | Ok σ =>
      bool_decide (bt_keys (nodes (ss_store σ)) = [i64_min; i64_max]) &&
      bool_decide (error_of (imported (interchange_document σ))
        = Some (Constraint "imported node id '-9223372036854775808' must be positive"))
  | Err _ => false
  end.

(** A document with the largest identifier is imported; the counter wraps, the
    next node gets the smallest identifier, and the export of that session is
    refused by the import. *)
Theorem imported_largest_id_wraps :
  ∃ σ, w_after_largest = Ok σ ∧ bt_keys (nodes (ss_store σ)) = [i64_min; i64_max] ∧
    error_of (imported (interchange_document σ))
      = Some (Constraint "imported node id '-9223372036854775808' must be positive").
Proof.
  assert (largest_check = true) as Hc by by vm_compute.
  unfold largest_check in Hc. destruct w_after_largest as [σ|]; [|discriminate].
  apply andb_true_iff in Hc as [H1%bool_decide_eq_true H2%bool_decide_eq_true].
  exists σ. split; [reflexivity|]. split; [exact H1|exact H2].
Qed.
End interchange_witnesses.
