(* ===== verification/Render.v ===== *)
(** * What the command line prints ([src/src/runtime/session.rs])

    The rendering of values, tables, plans, query results and graphs, as the
    lines a [CliSession] writes. *)

From S2P Require Export Parser Workspace Interchange.

Local Open Scope string_scope.

(** ** Colors *)

Record SessionColors := { sc_enabled : bool }.

Definition ESC : ascii := "027".
Definition GREEN : string := String ESC "[32m".
Definition BLUE : string := String ESC "[34m".
Definition ORANGE : string := String ESC "[38;5;208m".
Definition RESET : string := String ESC "[0m".

Definition plain_colors : SessionColors := {| sc_enabled := false |}.
Definition for_terminal (enabled : bool) : SessionColors := {| sc_enabled := enabled |}.

Definition wrap (colors : SessionColors) (text color : string) : string :=
  if sc_enabled colors then color +:+ text +:+ RESET else text.
Definition type_name (colors : SessionColors) (text : string) : string := wrap colors text GREEN.
Definition property_name (colors : SessionColors) (text : string) : string := wrap colors text BLUE.
Definition string_value (colors : SessionColors) (text : string) : string := wrap colors text ORANGE.

(** The characters a text shows, escape sequences apart; [sequence] says that
    the loop is in one, behind its bracket. *)
Fixpoint visible_chars (sequence : bool) (chars : list string) : nat :=
  match chars with
  | [] => 0
  | c :: chars =>
      if sequence then visible_chars (negb (String.eqb c "m")) chars
      else if String.eqb c (String ESC "") then
        match chars with
        | [] => 0
        | d :: chars => if String.eqb d "[" then visible_chars true chars
                        else S (visible_chars false chars)
        end
      else S (visible_chars false chars)
  end.
Definition visible_width (text : string) : nat := visible_chars false (utf8_chars text).

(** ** Tables *)

Inductive TableHeaderKind := HeaderPlain | HeaderProperty | HeaderType.

Definition blanks (n : nat) : string := String.concat "" (repeat " " n).
Definition dashes (n : nat) : string := String.concat "" (repeat "-" n).

Definition format_table_border (widths : list nat) : string :=
  "+" +:+ String.concat "" (map (λ width, dashes (width + 2) +:+ "+") widths).
Definition format_table_row (cells : list string) (widths : list nat) : string :=
  "|" +:+ String.concat ""
    (zip_with (λ cell width, " " +:+ cell +:+ blanks (width - visible_width cell) +:+ " |")
              cells widths).

Definition header_cell (colors : SessionColors) (header : string) (kind : TableHeaderKind) : string :=
  match kind with
  | HeaderPlain => header
  | HeaderProperty => property_name colors header
  | HeaderType => type_name colors header
  end.
Definition format_table_header_row (headers : list string) (kinds : list TableHeaderKind)
    (widths : list nat) (colors : SessionColors) : string :=
  format_table_row (zip_with (header_cell colors) headers kinds) widths.

(** Rows are as long as the headers: the code would panic on a longer one. *)
Fixpoint widen (widths : list nat) (row : list string) : list nat :=
  match widths, row with
  | width :: widths, cell :: row => Nat.max width (visible_width cell) :: widen widths row
  | _, _ => widths
  end.
Definition table_widths (headers : list string) (rows : list (list string)) : list nat :=
  foldl widen (map String.length headers) rows.

Definition write_table (headers : list string) (kinds : list TableHeaderKind)
    (rows : list (list string)) (colors : SessionColors) : list string :=
  let widths := table_widths headers rows in
  let border := format_table_border widths in
  ([border; format_table_header_row headers kinds widths colors; border]
   ++ map (λ row, format_table_row row widths) rows ++ [border])%list.

Definition bool_to_string (b : bool) : string := if b then "true" else "false".
Definition requirement (required : bool) : string := if required then "required" else "optional".

Section render.
Context `{SerdeNumber} `{Formats}.

(** [Display] of [serde_json::Value]: its compact JSON text. *)
Class JsonText := { json_text : Value → string }.
Context `{!JsonText}.

(** ** Values *)

Definition format_value (value : Value) (colors : SessionColors) : string :=
  match value with
  | Str s =>
      if existsb char_is_whitespace (utf8_chars s)
      then string_value colors (String "034" s +:+ String "034" "")
      else string_value colors s
  | _ => json_text value
  end.
Definition format_table_value (value : option Value) (colors : SessionColors) : string :=
  match value with Some value => format_value value colors | None => "" end.
Definition format_prop (colors : SessionColors) (prop : string * Value) : string :=
  property_name colors prop.1 +:+ "=" +:+ format_value prop.2 colors.
Definition format_props (props : Props) (colors : SessionColors) : string :=
  if bool_decide (props = ∅) then "{}"
  else "{" +:+ Text.join " " (map (format_prop colors) (bt_iter props)) +:+ "}".
Definition format_graph_props (props : Props) (limit : nat) (colors : SessionColors) : string :=
  Text.join " " (map (format_prop colors) (take limit (bt_iter props))).

(** ** Plans *)

Definition access_path_text (path : AccessPath) : string :=
  match access_path_json path with Str s => s | _ => "none" end.
Definition or_none (texts : list string) : string :=
  match texts with [] => "none" | _ => Text.join "," texts end.

Definition format_plan_step_access_metadata (step : PlanStep) : string :=
  let path := access_path (ps_kind step) in
  let head :=
    "access_path=" +:+ default "none" (access_path_text <$> path) +:+
    " index=" +:+ default "none" (path ≫= index_name) +:+
    " indexes=" +:+ or_none (candidate_index_names (ps_kind step)) +:+
    " scan=" +:+ bool_to_string (default false (is_scan <$> path)) in
  let part {A} (name : string) (show : A → string) (o : option A) :=
    match o with Some a => [name +:+ "=" +:+ show a] | None => [] end in
  let some_texts texts := match texts with [] => None | _ => Some (Text.join "," texts) end in
  let usize (n : N) := u_to_string (Z.of_N n) in
  Text.join " " (head ::
    match ps_planner step with
    | None => []
    | Some planner =>
        part "chosen_anchor" id (pl_chosen_anchor planner)
        ++ part "selected_access_path" access_path_text (pl_selected_access_path planner)
        ++ part "residual_filters" id (some_texts (pl_residual_filters planner))
        ++ part "order" id (some_texts (pl_order planner))
        ++ part "limit" usize (pl_limit planner)
        ++ part "offset" usize (pl_offset planner)
    end%list).

Definition plan_step_line (index : nat) (step : PlanStep) : string :=
  "  " +:+ numbered_step index step.
Definition render_plan_steps (plan : ExecutionPlan) (verbose : bool) : list string :=
  "Plan steps:" ::
  concat (imap (λ index step,
    plan_step_line index step ::
    if verbose then ["     " +:+ format_plan_step_access_metadata step] else [])
    (ep_steps plan)).

Definition format_optional_usize (value : option nat) : string :=
  default "unknown" (nat_to_string <$> value).
Definition metric_line (metric : ProfileStepMetrics) : string :=
  "     rows_in=" +:+ format_optional_usize (pm_input_rows metric) +:+
  " rows_out=" +:+ format_optional_usize (pm_output_rows metric) +:+
  " elapsed=" +:+ default "unknown" ((λ micros, u_to_string micros +:+ "us") <$> pm_elapsed_micros metric).
Definition render_profile_plan_steps (plan : ExecutionPlan) (metrics : list ProfileStepMetrics)
    : list string :=
  "Plan steps:" ::
  concat (imap (λ index step,
    [plan_step_line index step; "     " +:+ format_plan_step_access_metadata step]
    ++ match List.find (λ metric, Nat.eqb (pm_step_index metric) index) metrics with
       | Some metric => [metric_line metric]
       | None => []
       end)%list (ep_steps plan)).

Definition render_explain (command target : string) (plan : ExecutionPlan) (verbose : bool)
    : list string :=
  ("Current logical plan for " +:+ command +:+ " " +:+ target) :: render_plan_steps plan verbose.

Record RenderProfile := {
  rp_command : string;
  rp_target : string;
  rp_plan : ExecutionPlan;
  rp_row_count : N;
  rp_elapsed : Z;
  rp_metrics : list ProfileStepMetrics;
  rp_verbose : bool;
}.
Definition render_profile (profile : RenderProfile) : list string :=
  (("Profile for " +:+ rp_command profile +:+ " " +:+ rp_target profile) ::
   (if rp_verbose profile then render_profile_plan_steps (rp_plan profile) (rp_metrics profile)
    else render_plan_steps (rp_plan profile) false)
   ++ ["Result rows: " +:+ u_to_string (Z.of_N (rp_row_count profile));
       "Elapsed: " +:+ format_profile_duration (rp_elapsed profile)])%list.

(** ** Query results *)

Definition id_assignment (colors : SessionColors) (id_field : string) (id : Z) : string :=
  property_name colors id_field +:+ "=" +:+ Z_to_string id.

Definition render_default_query_result (colors : SessionColors) (r : SessionQueryResult)
    : result (list string) :=
  match r with
  | QNodes model rows =>
      Ok match rows with
         | [] => ["No nodes matched model '" +:+ nm_name model +:+ "'."]
         | _ => (nat_to_string (length rows) +:+ " nodes matched model '" +:+ nm_name model +:+ "'.")
                :: map (λ node, "Node " +:+ type_name colors (nm_name model) +:+ " "
                     +:+ id_assignment colors (nm_id_field model) (sn_id node) +:+ " "
                     +:+ format_props (sn_props node) colors) rows
         end
  | QEdges model rows =>
      Ok match rows with
         | [] => ["No edges matched link '" +:+ rm_name model +:+ "'."]
         | _ => (nat_to_string (length rows) +:+ " edges matched link '" +:+ rm_name model +:+ "'.")
                :: map (λ rel, "Edge " +:+ type_name colors (rm_name model) +:+ " "
                     +:+ id_assignment colors (rm_id_field model) (sr_id rel) +:+ " from="
                     +:+ Z_to_string (sr_from rel) +:+ " to=" +:+ Z_to_string (sr_to rel) +:+ " "
                     +:+ format_props (sr_props rel) colors) rows
         end
  | QGraph _ _ _ => Err (NotSupported "graph results must use format=graph")
  end.

Definition jsonl_node (model : RuntimeNodeModel) (node : StoredNode) : Value :=
  Object [("id", value_from_i64 (sn_id node)); ("kind", Str "node");
          ("labels", strings_json (sn_labels node)); ("model", Str (nm_name model));
          ("props", Object (bt_iter (sn_props node)))].
Definition jsonl_edge (model : RuntimeRelModel) (rel : StoredRel) : Value :=
  Object [("from", value_from_i64 (sr_from rel)); ("id", value_from_i64 (sr_id rel));
          ("kind", Str "edge"); ("model", Str (rm_name model));
          ("props", Object (bt_iter (sr_props rel))); ("to", value_from_i64 (sr_to rel));
          ("type", Str (sr_rel_type rel))].
Definition render_jsonl_query_result (r : SessionQueryResult) : result (list string) :=
  match r with
  | QNodes model rows => Ok (map (λ node, json_text (jsonl_node model node)) rows)
  | QEdges model rows => Ok (map (λ rel, json_text (jsonl_edge model rel)) rows)
  | QGraph _ _ _ => Err (NotSupported "graph results do not support jsonl output")
  end.

Definition prop_cells (colors : SessionColors) (fields : list RuntimeField) (props : Props)
    : list string :=
  map (λ field, format_table_value (props !! field_name field) colors) fields.
Definition render_table_query_result (colors : SessionColors) (r : SessionQueryResult)
    : result (list string) :=
  match r with
  | QNodes model rows =>
      Ok (write_table (nm_id_field model :: map field_name (nm_fields model))
            (HeaderProperty :: map (λ _, HeaderProperty) (nm_fields model))
            (map (λ node, Z_to_string (sn_id node)
                          :: prop_cells colors (nm_fields model) (sn_props node)) rows) colors)
  | QEdges model rows =>
      Ok (write_table
            ([rm_id_field model; "from"; "to"; "type"] ++ map field_name (rm_fields model))%list
            ([HeaderProperty; HeaderPlain; HeaderPlain; HeaderType]
             ++ map (λ _, HeaderProperty) (rm_fields model))%list
            (map (λ rel, ([Z_to_string (sr_id rel); Z_to_string (sr_from rel);
                           Z_to_string (sr_to rel); type_name colors (sr_rel_type rel)]
                          ++ prop_cells colors (rm_fields model) (sr_props rel))%list) rows) colors)
  | QGraph _ _ _ => Err (NotSupported "graph results must use format=graph")
  end.

(** ** Graphs *)

Record GraphRenderStep := { gs_rel : StoredRel; gs_node : StoredNode }.
Record GraphRenderPath := { gp_root : StoredNode; gp_steps : list GraphRenderStep }.

Definition graph_missing (what : string) : GrmError :=
  Backend ("graph result missing " +:+ what).

(** The steps of a row, one for each hop of the query. *)
Fixpoint render_steps (row : QueryRow) (matches : list MatchClause)
    : result (list GraphRenderStep) :=
  match matches with
  | [] => Ok []
  | MatchHop hop :: matches =>
      rel ← ok_or (rel_at_var row (hop_rel_var hop)) (graph_missing "relationship");
      node ← ok_or (node_at row (hop_end hop)) (graph_missing "end node");
      steps ← render_steps row matches;
      Ok ({| gs_rel := stored_rel_from_kernel rel; gs_node := stored_node_from_kernel node |} :: steps)
  | MatchNode _ :: matches => render_steps row matches
  end.
Definition build_graph_render_path (plan : RuntimeTraversalPlan) (row : QueryRow)
    : result GraphRenderPath :=
  root ← ok_or (node_at row (tp_root_var plan)) (graph_missing "root node");
  steps ← render_steps row (gq_matches (tp_graph_query plan));
  Ok {| gp_root := stored_node_from_kernel root; gp_steps := steps |}.
Definition build_graph_render_paths (plan : RuntimeTraversalPlan) (rows : list QueryRow)
    : result (list GraphRenderPath) := mapM (build_graph_render_path plan) rows.

Definition path_node_ids (path : GraphRenderPath) : list Z :=
  sn_id (gp_root path) :: map (λ step, sn_id (gs_node step)) (gp_steps path).
Definition path_rel_ids (path : GraphRenderPath) : list Z :=
  map (λ step, sr_id (gs_rel step)) (gp_steps path).
Definition count_graph_entries (paths : list GraphRenderPath) : nat * nat :=
  (size (list_to_set (mjoin (map path_node_ids paths)) : gset Z),
   size (list_to_set (mjoin (map path_rel_ids paths)) : gset Z)).

Fixpoint compare_graph_steps (l r : list GraphRenderStep) : comparison :=
  match l, r with
  | a :: l, b :: r =>
      match Z.compare (sr_id (gs_rel a)) (sr_id (gs_rel b)) with
      | Eq => match Z.compare (sn_id (gs_node a)) (sn_id (gs_node b)) with
              | Eq => compare_graph_steps l r
              | order => order
              end
      | order => order
      end
  | [], [] => Eq
  | [], _ :: _ => Lt
  | _ :: _, [] => Gt
  end.
Definition compare_graph_paths (l r : GraphRenderPath) : comparison :=
  compare_graph_steps (gp_steps l) (gp_steps r).

Definition format_graph_head (head summary : string) : string :=
  if String.eqb summary "" then head else head +:+ " " +:+ summary.
Definition format_graph_node (colors : SessionColors) (node : StoredNode) (already_seen : bool)
    : string :=
  let label := default "Node" (head (sn_labels node)) in
  let shown := "(" +:+ type_name colors label +:+ "#" +:+ Z_to_string (sn_id node) +:+ ")" in
  if already_seen then shown +:+ " [seen]"
  else format_graph_head shown (format_graph_props (sn_props node) 2 colors).
Definition format_graph_rel (colors : SessionColors) (rel : StoredRel) : string :=
  format_graph_head
    ("[" +:+ type_name colors (sr_rel_type rel) +:+ "#" +:+ Z_to_string (sr_id rel) +:+ "]")
    (format_graph_props (sr_props rel) 2 colors).
Definition format_graph_step (colors : SessionColors) (step : GraphRenderStep)
    (already_seen : bool) : string :=
  format_graph_rel colors (gs_rel step) +:+ " -> "
  +:+ format_graph_node colors (gs_node step) already_seen.

(** A path ends at the first node that was seen before. *)
Fixpoint render_linear_graph_path (colors : SessionColors) (steps : list GraphRenderStep)
    (seen : gset Z) : list string * gset Z :=
  match steps with
  | [] => ([], seen)
  | step :: steps =>
      let already := bool_decide (sn_id (gs_node step) ∈ seen) in
      let lines := ["|"; "* " +:+ format_graph_step colors step already] in
      if already then (lines, seen)
      else let '(rest, seen) := render_linear_graph_path colors steps
                                  ({[sn_id (gs_node step)]} ∪ seen) in
           ((lines ++ rest)%list, seen)
  end.
Fixpoint render_branch_steps (colors : SessionColors) (prefix : string)
    (steps : list GraphRenderStep) (seen : gset Z) : list string * gset Z :=
  match steps with
  | [] => ([], seen)
  | step :: steps =>
      let already := bool_decide (sn_id (gs_node step) ∈ seen) in
      let line := prefix +:+ format_graph_step colors step already in
      if already then ([line], seen)
      else let '(rest, seen) := render_branch_steps colors "|   * " steps
                                  ({[sn_id (gs_node step)]} ∪ seen) in
           (line :: rest, seen)
  end.
Definition render_branch_graph_path (colors : SessionColors) (path : GraphRenderPath)
    (seen : gset Z) : list string * gset Z :=
  render_branch_steps colors "| * " (gp_steps path) seen.
Fixpoint render_branches (colors : SessionColors) (paths : list GraphRenderPath) (seen : gset Z)
    : list string :=
  match paths with
  | [] => []
  | path :: paths =>
      let '(lines, seen) := render_branch_graph_path colors path seen in
      (lines ++ render_branches colors paths seen)%list
  end.

(** The paths by their roots; a group shows the root of its first path. *)
Definition group_path (groups : gmap Z (list GraphRenderPath)) (path : GraphRenderPath)
    : gmap Z (list GraphRenderPath) :=
  let id := sn_id (gp_root path) in
  <[id := (default [] (groups !! id) ++ [path])%list]> groups.
Definition group_paths (paths : list GraphRenderPath) : gmap Z (list GraphRenderPath) :=
  foldl group_path ∅ paths.

Definition render_group (colors : SessionColors) (group : list GraphRenderPath) : list string :=
  match group with
  | [] => []
  | first :: _ =>
      let root := gp_root first in
      let paths := sort_by compare_graph_paths group in
      ("* " +:+ format_graph_node colors root false) ::
      if forallb (λ path, match gp_steps path with [] => true | _ => false end) paths then []
      else match paths with
           | [path] => (render_linear_graph_path colors (gp_steps path) {[sn_id root]}).1
           | _ => "|\" :: render_branches colors paths {[sn_id root]}
           end
  end.
Fixpoint render_groups (colors : SessionColors) (groups : list (list GraphRenderPath))
    : list string :=
  match groups with
  | [] => []
  | [group] => render_group colors group
  | group :: groups => (render_group colors group ++ "" :: render_groups colors groups)%list
  end.
Definition render_graph_query_result (colors : SessionColors) (plan : RuntimeTraversalPlan)
    (rows : list QueryRow) : result (list string) :=
  paths ← build_graph_render_paths plan rows;
  let '(node_count, rel_count) := count_graph_entries paths in
  Ok (("graph: " +:+ nat_to_string node_count +:+ " nodes, " +:+ nat_to_string rel_count
       +:+ " links") :: render_groups colors (bt_values (group_paths paths))).

Definition render_query_result (colors : SessionColors) (r : SessionQueryResult)
    (format : OutputFormat) : result (list string) :=
  match format with
  | FormatDefault => render_default_query_result colors r
  | FormatJsonl => render_jsonl_query_result r
  | FormatTable => render_table_query_result colors r
  | FormatGraph =>
      match r with
      | QGraph plan rows _ => render_graph_query_result colors plan rows
      | _ => Err (NotSupported "graph format is only supported for graph-shaped query results")
      end
  end.
(** ** Help, schema and summaries *)

Definition help_lines : list string :=
  ["Available commands:";
   "  model.define [<Name> <id_field> [field:type:required|optional ...]]";
   "  model.list";
   "  model.show <name>";
   "  session.describe [--verbose]";
   "  session.indexes [--verbose]";
   "  tx.begin";
   "  tx.commit";
   "  link.define [<Name> <from_model> <to_model> <id_field> [field:type:required|optional ...]]";
   "  link.list";
   "  link.show <name>";
   "  node.create <ModelName> [field=value ...]";
   "  let <name> = node.create <ModelName> [field=value ...]";
   "  node.find <ModelName> [field=value|field!=value|field>value|field>=value|field<value|field<=value|field~value ...] [via=<out|in|both>:<LinkName|*>:<EndModel> ...] [end.<field>=value ...] [edge.<field>=value ...] [return=root|end|edge] [order=<field>:asc|desc[,<field>:asc|desc ...]] [limit=<n>] [offset=<n>] [format=default|jsonl|table|graph]";
   "  node.update <ModelName> <id> [field=value ...]";
   "  node.delete <ModelName> <id>";
   "  edge.create <LinkName> from=<id|binding> to=<id|binding> [field=value ...]";
   "  edge.find <LinkName> [from=<id>] [to=<id>] [field=value|field!=value|field>value|field>=value|field<value|field<=value|field~value ...] [order=<field>:asc|desc[,<field>:asc|desc ...]] [limit=<n>] [offset=<n>] [format=default|jsonl|table]";
   "  session.explain [--verbose] node.find <ModelName> [node.find terms except format=...]";
   "  session.explain [--verbose] edge.find <LinkName> [edge.find terms except format=...]";
   "  session.profile [--verbose] node.find <ModelName> [node.find terms except format=...]";
   "  session.profile [--verbose] edge.find <LinkName> [edge.find terms except format=...]";
   "  edge.update <LinkName> <id> [field=value ...]";
   "  edge.delete <LinkName> <id>";
   "Examples:";
   ("  node.update User 1 name=" +:+ double_quote +:+ "Alice Johnson" +:+ double_quote +:+ " age=43");
   ("  node.find User name=" +:+ double_quote +:+ "Alice Jones" +:+ double_quote +:+ "");
   ("  node.find User name=" +:+ double_quote +:+ "Alice Jones" +:+ double_quote +:+ " via=out:Authored:Post");
   ("  node.find User name=" +:+ double_quote +:+ "Alice Jones" +:+ double_quote +:+ " via=out:Accessed:Post edge.accessedOn=2026-04-20 return=edge");
   "  node.find User age>=21 order=age:desc,name:asc limit=10";
   "  node.find User age>=21 format=jsonl";
   "  node.find User age>=21 format=table";
   "  let alice = node.create User name=Alice";
   "  edge.create Authored from=alice to=1 year=2026";
   "  tx.begin";
   "  tx.commit";
   "  edge.update Authored 1 authoredOn=2026-04-12";
   "  edge.find Authored from=1 authoredOn>=2026-04-10 order=authoredOn:desc,to:asc";
   ("  session.explain node.find User name=" +:+ double_quote +:+ "Alice Jones" +:+ double_quote +:+ " via=out:Authored:Post");
   "  session.profile edge.find Authored from=1";
   "  session.save --json <path>";
   "  session.save --bin <path>";
   "  session.load --json <path>";
   "  session.load --bin <path>";
   "  session.import --json <path>";
   "  session.export --json <path>";
   "  session.compact";
   "  session.autocommit --json <path>";
   "  session.autocommit --bin <path>";
   "  session.autocommit status";
   "  session.autocommit off";
   "  session.describe";
   "  session.help";
   "  session.exit"].

(** [mode == Script] is checked by the callers. *)
Definition model_list_lines (models : list RuntimeNodeModel) : list string :=
  match models with
  | [] => ["No models defined in this session."]
  | _ => "Session models:" ::
         map (λ model, "  " +:+ nm_name model +:+ " [" +:+ nat_to_string (length (nm_fields model))
                +:+ " fields, label=" +:+ nm_label model +:+ "]") models
  end.
Definition rel_model_list_lines (models : list RuntimeRelModel) : list string :=
  match models with
  | [] => ["No links defined in this session."]
  | _ => "Session links:" ::
         map (λ model, "  " +:+ rm_name model +:+ " [" +:+ nat_to_string (length (rm_fields model))
                +:+ " fields, " +:+ rm_from_model model +:+ " -> " +:+ rm_to_model model
                +:+ ", type=" +:+ rm_rel_type model +:+ "]") models
  end.

(** The fields of a model, behind a margin. *)
Definition field_lines (margin : string) (fields : list RuntimeField) : list string :=
  match fields with
  | [] => [margin +:+ "Fields: none"]
  | _ => (margin +:+ "Fields:") ::
         map (λ field, margin +:+ "  " +:+ field_name field +:+ ": "
                +:+ type_keyword (field_type field) +:+ " ("
                +:+ requirement (field_required field) +:+ ")") fields
  end.
Definition model_show_lines (name : string) (model : option RuntimeNodeModel) : list string :=
  match model with
  | None => ["Model '" +:+ name +:+ "' not found."]
  | Some model =>
      ["Model: " +:+ nm_name model; "Label: " +:+ nm_label model;
       "Id: " +:+ nm_id_field model +:+ " (" +:+ id_type_keyword (nm_id_type model) +:+ ")"]
      ++ field_lines "" (nm_fields model)
  end%list.
Definition rel_model_show_lines (name : string) (model : option RuntimeRelModel) : list string :=
  match model with
  | None => ["Link '" +:+ name +:+ "' not found."]
  | Some model =>
      ["Link: " +:+ rm_name model; "Type: " +:+ rm_rel_type model;
       "From: " +:+ rm_from_model model; "To: " +:+ rm_to_model model;
       "Id: " +:+ rm_id_field model +:+ " (" +:+ id_type_keyword (rm_id_type model) +:+ ")"]
      ++ field_lines "" (rm_fields model)
  end%list.
Definition model_summary_lines (model : RuntimeNodeModel) : list string :=
  (["Model summary:"; "  Name: " +:+ nm_name model; "  Label: " +:+ nm_label model;
    "  Id: " +:+ nm_id_field model +:+ " (" +:+ id_type_keyword (nm_id_type model)
      +:+ ", backend-assigned)"] ++ field_lines "  " (nm_fields model))%list.
Definition rel_model_summary_lines (model : RuntimeRelModel) : list string :=
  (["Link summary:"; "  Name: " +:+ rm_name model; "  Type: " +:+ rm_rel_type model;
    "  From: " +:+ rm_from_model model; "  To: " +:+ rm_to_model model;
    "  Id: " +:+ rm_id_field model +:+ " (" +:+ id_type_keyword (rm_id_type model)
      +:+ ", backend-assigned)"] ++ field_lines "  " (rm_fields model))%list.

(** The types of a summary, and its table of counts. *)
Definition type_lines (colors : SessionColors) (node_types link_types : list string)
    : list string :=
  let names l := Text.join ", " (map (type_name colors) l) in
  match node_types, link_types with
  | [], [] => ["  none"]
  | _, _ => match node_types with [] => [] | _ => ["  nodes: " +:+ names node_types] end
            ++ match link_types with [] => [] | _ => ["  links: " +:+ names link_types] end
  end%list.
Definition count_rows (colors : SessionColors) (kind : string) (counts : gmap string nat)
    : list (list string) :=
  map (λ '(name, count), [kind; type_name colors name; nat_to_string count]) (bt_iter counts).
Definition count_table (colors : SessionColors) (last_header : string)
    (node_counts edge_counts : gmap string nat) : list string :=
  match (count_rows colors "node" node_counts ++ count_rows colors "edge" edge_counts)%list with
  | [] => ["  none"]
  | rows => write_table ["kind"; "type"; last_header] [HeaderPlain; HeaderType; HeaderProperty]
              rows colors
  end.

Record ScriptSummary := {
  created_node_types : list string;
  created_link_types : list string;
  inserted_nodes : gmap string nat;
  inserted_edges : gmap string nat;
}.
Definition ScriptSummary_default : ScriptSummary :=
  {| created_node_types := []; created_link_types := []; inserted_nodes := ∅;
     inserted_edges := ∅ |}.

Definition script_summary_lines (colors : SessionColors) (summary : ScriptSummary) : list string :=
  (["" ; "Script Summary"; "Types created:"]
   ++ type_lines colors (created_node_types summary) (created_link_types summary)
   ++ "Inserted rows:"
   :: count_table colors "inserted" (inserted_nodes summary) (inserted_edges summary))%list.

Definition count_of (p : IndexMetadata → bool) : string :=
  nat_to_string (length (List.filter p system_index_catalog)).
Definition index_kind_text (kind : IndexKind) : string :=
  match kind with IndexSystem => "system" | IndexUserDefined => "userdefined" end.
Definition index_entity_text (entity : IndexEntity) : string :=
  match entity with IndexNode => "node" | IndexEdge => "edge" end.

Definition session_summary_lines (colors : SessionColors) (autocommit : string) (verbose : bool)
    (σ : SessionState) : list string :=
  let c := ss_catalog σ in
  let store := ss_store σ in
  (["Session Summary"; "Types defined:"]
   ++ type_lines colors (map nm_name (list_node_models c)) (map rm_name (list_rel_models c))
   ++ ["Stored rows: " +:+ nat_to_string (size (nodes store)) +:+ " nodes, "
         +:+ nat_to_string (size (rels store)) +:+ " edges"; "By type:"]
   ++ count_table colors "count"
        (counts_by (map (λ node, default "Node" (head (sn_labels node))) (bt_values (nodes store))))
        (counts_by (map sr_rel_type (bt_values (rels store))))
   ++ ["Autocommit: " +:+ autocommit]
   ++ if verbose then
        ["Verbose details:"; "  backend: in_memory";
         "  node id type: " +:+ id_type_keyword node_id_type;
         "  edge id type: " +:+ id_type_keyword rel_id_type;
         "  system indexes: "
           +:+ count_of (λ index, match im_kind index with IndexSystem => true | _ => false end);
         "  derived indexes: " +:+ count_of im_derived;
         "  durable indexes: " +:+ count_of im_durable;
         "  user-defined indexes: future work"]
      else [])%list.

Definition index_row (verbose : bool) (index : IndexMetadata) : list string :=
  let entity := index_entity_text (im_entity index) in
  let fields := Text.join "," (im_fields index) in
  if verbose
  then [im_name index; index_kind_text (im_kind index); entity; fields;
        bool_to_string (im_durable index); bool_to_string (im_derived index)]
  else [im_name index; entity; fields].
Definition index_catalog_lines (colors : SessionColors) (verbose : bool) : list string :=
  let headers := if verbose then ["name"; "kind"; "entity"; "fields"; "durable"; "derived"]
                 else ["name"; "entity"; "fields"] in
  ("Index Catalog" ::
   write_table headers (map (λ _, HeaderPlain) headers)
     (map (index_row verbose) system_index_catalog) colors
   ++ if verbose then
        ["Notes:";
         "  system indexes are backend-maintained derived acceleration structures";
         "  durable=false means index contents are not source-of-truth data";
         "  user-defined indexes are future work"]
      else [])%list.
End render.
