(* ===== verification/Terminal.v ===== *)
(** * The command line ([CliSession] of [src/src/runtime/session.rs])

    A [CliSession] reads command lines from its reader, runs them on its session
    state, writes what they answer, and keeps an autocommit target, the bindings
    of a script and an open script transaction.  Every read, write and file
    operation is a system call that may fail or be the last one before the
    process is killed, as in [Files]; the loops run on the input that is left, and
    [None] stands for a loop that outran it, which no run does. *)

From S2P Require Export Render.

Local Open Scope string_scope.

(** ** Helpers *)

Inductive SessionFileFormat := SfJson | SfBinary.

Definition from_flag (flag : string) : option SessionFileFormat :=
  match flag with
  | "--json" => Some SfJson
  | "--bin" => Some SfBinary
  | _ => None
  end.
Definition flag (format : SessionFileFormat) : string :=
  match format with SfJson => "--json" | SfBinary => "--bin" end.
Definition durability_format (format : SessionFileFormat) : DurabilityFormat :=
  match format with SfJson => DurJson | SfBinary => DurBinary end.

(** A path is kept as the text it was given as. *)
Record AutocommitTarget := {
  ac_format : SessionFileFormat;
  ac_path : string;
  ac_pending_entries : nat;
}.
Record SessionCompactSummary := { cs_format_flag : string; cs_path : string }.

Inductive SessionOutputMode := Interactive | Script.

Definition collect_assignments (assignments : list KeyValueArg) : gmap string string :=
  foldl (λ m arg, <[kv_key arg := kv_value arg]> m) ∅ assignments.
Definition collect_query_terms (terms : list QueryTerm) : gmap string string :=
  foldl (λ m term, <[qt_key term := qt_value term]> m) ∅ terms.

Definition field_value_type_from_runtime (t : RuntimeValueType) : FieldValueType :=
  match t with
  | TString => FString | TInt => FInt | TFloat => FFloat | TBool => FBool | TBytes => FBytes
  | TDecimal => FDecimal | TDate => FDate | TDateTime => FDateTime | TDuration => FDuration
  | TUuid => FUuid
  end.
Definition field_specs_from_runtime (fields : list RuntimeField) : list FieldSpec :=
  map (λ field, {| fs_name := field_name field;
                   fs_value_type := field_value_type_from_runtime (field_type field);
                   fs_required := field_required field |}) fields.

Definition is_binding_name_like (value : string) : bool :=
  match utf8_chars value with
  | [] => false
  | first :: rest =>
      (char_is is_ascii_alphabetic first || String.eqb first "_")
      && forallb (λ c, char_is is_ascii_alphanumeric c || String.eqb c "_") rest
  end.

Definition reject_introspection_format_terms (terms : list QueryTerm) : result unit :=
  if existsb (λ term, String.eqb (qt_key term) "format") terms
  then Err (Constraint "format= is not supported with session.explain or session.profile; introspection output is always text")
  else Ok tt.

(** The characters before the comment, if there is one. *)
Fixpoint before_comment (quote : option string) (chars : list string) : option (list string) :=
  match chars with
  | [] => None
  | c :: rest =>
      match quote with
      | Some q =>
          if String.eqb c "\" then
            match rest with
            | [] => None
            | d :: rest => (λ l, c :: d :: l) <$> before_comment quote rest
            end
          else cons c <$> before_comment (if String.eqb c q then None else quote) rest
      | None =>
          if String.eqb c double_quote || String.eqb c single_quote
          then cons c <$> before_comment (Some c) rest
          else if String.eqb c "#" then Some []
          else cons c <$> before_comment None rest
      end
  end.
Definition strip_script_comment (line : string) : string :=
  match before_comment None (utf8_chars line) with
  | Some chars => str_trim_end (concat_chars chars)
  | None => line
  end.

(** [trim_end_matches(&['\r', '\n'])] *)
Fixpoint trim_line_end (s : string) : string :=
  match s with
  | EmptyString => ""
  | String c s =>
      match trim_line_end s with
      | EmptyString =>
          if Ascii.eqb c "013" || Ascii.eqb c newline_char then "" else String c ""
      | s => String c s
      end
  end.

(** [BufRead::read_line]: up to the next line end, and what is left. *)
Fixpoint take_line (s : string) : string * string :=
  match s with
  | EmptyString => ("", "")
  | String c s =>
      if Ascii.eqb c newline_char then (String c "", s)
      else let '(line, rest) := take_line s in (String c line, rest)
  end.

(** [field:type:required|optional], as the two define commands read it. *)
Definition parse_field_spec (field_spec : string) : result RuntimeField :=
  match split_char ":" field_spec with
  | [name; keyword; need] =>
      value_type ← ok_or (type_parse_keyword keyword)
        (Constraint ("invalid field type '" +:+ keyword +:+ "' in '" +:+ field_spec +:+ "'"));
      required ← match need with
                 | "required" => Ok true
                 | "optional" => Ok false
                 | _ => Err (Constraint ("invalid field requirement '" +:+ need +:+ "' in '"
                                         +:+ field_spec +:+ "'"))
                 end;
      Ok {| field_name := name; field_type := value_type; field_required := required |}
  | _ => Err (Constraint ("invalid field spec '" +:+ field_spec
                          +:+ "'; expected name:type:required|optional"))
  end.

(** ** The session *)

(** What the machine answers: the clock, one reading after another, and the tags
    of temporary files, which are built from its readings and the process id. *)
Class Machine := {
  clock : nat → Z;
  temp_tag : nat → string;
}.

Section terminal.
Context `{SerdeNumber} `{Formats} `{!JsonText} `{!SnapshotCodec} `{!SessionCodec}
  `{!InterchangeCodec} `{!IoText} `{!Machine}.

Record ScriptTransaction := {
  state_snapshot : SessionState;
  bindings_snapshot : gmap string Z;
  script_summary_snapshot : ScriptSummary;
}.

(** The reader is the text it has left to give, the writer the text it was given;
    [c_ticks] counts what was asked of the machine. *)
Record CliSession := {
  c_state : SessionState;
  c_reader : string;
  c_writer : string;
  c_prompt_name : string;
  c_autocommit : option AutocommitTarget;
  c_colors : SessionColors;
  c_output_mode : SessionOutputMode;
  c_script_summary : ScriptSummary;
  c_bindings : gmap string Z;
  c_script_tx : option ScriptTransaction;
  c_ticks : nat;
}.

Definition set_state σ (s : CliSession) : CliSession :=
  {| c_state := σ; c_reader := c_reader s; c_writer := c_writer s;
     c_prompt_name := c_prompt_name s; c_autocommit := c_autocommit s; c_colors := c_colors s;
     c_output_mode := c_output_mode s; c_script_summary := c_script_summary s;
     c_bindings := c_bindings s; c_script_tx := c_script_tx s; c_ticks := c_ticks s |}.
Definition set_reader text (s : CliSession) : CliSession :=
  {| c_state := c_state s; c_reader := text; c_writer := c_writer s;
     c_prompt_name := c_prompt_name s; c_autocommit := c_autocommit s; c_colors := c_colors s;
     c_output_mode := c_output_mode s; c_script_summary := c_script_summary s;
     c_bindings := c_bindings s; c_script_tx := c_script_tx s; c_ticks := c_ticks s |}.
Definition append_written text (s : CliSession) : CliSession :=
  {| c_state := c_state s; c_reader := c_reader s; c_writer := c_writer s +:+ text;
     c_prompt_name := c_prompt_name s; c_autocommit := c_autocommit s; c_colors := c_colors s;
     c_output_mode := c_output_mode s; c_script_summary := c_script_summary s;
     c_bindings := c_bindings s; c_script_tx := c_script_tx s; c_ticks := c_ticks s |}.
Definition set_mode name mode (s : CliSession) : CliSession :=
  {| c_state := c_state s; c_reader := c_reader s; c_writer := c_writer s;
     c_prompt_name := name; c_autocommit := c_autocommit s; c_colors := c_colors s;
     c_output_mode := mode; c_script_summary := c_script_summary s;
     c_bindings := c_bindings s; c_script_tx := c_script_tx s; c_ticks := c_ticks s |}.
Definition set_autocommit target (s : CliSession) : CliSession :=
  {| c_state := c_state s; c_reader := c_reader s; c_writer := c_writer s;
     c_prompt_name := c_prompt_name s; c_autocommit := target; c_colors := c_colors s;
     c_output_mode := c_output_mode s; c_script_summary := c_script_summary s;
     c_bindings := c_bindings s; c_script_tx := c_script_tx s; c_ticks := c_ticks s |}.
Definition set_summary summary (s : CliSession) : CliSession :=
  {| c_state := c_state s; c_reader := c_reader s; c_writer := c_writer s;
     c_prompt_name := c_prompt_name s; c_autocommit := c_autocommit s; c_colors := c_colors s;
     c_output_mode := c_output_mode s; c_script_summary := summary;
     c_bindings := c_bindings s; c_script_tx := c_script_tx s; c_ticks := c_ticks s |}.
Definition set_bindings bindings (s : CliSession) : CliSession :=
  {| c_state := c_state s; c_reader := c_reader s; c_writer := c_writer s;
     c_prompt_name := c_prompt_name s; c_autocommit := c_autocommit s; c_colors := c_colors s;
     c_output_mode := c_output_mode s; c_script_summary := c_script_summary s;
     c_bindings := bindings; c_script_tx := c_script_tx s; c_ticks := c_ticks s |}.
Definition set_script_tx tx (s : CliSession) : CliSession :=
  {| c_state := c_state s; c_reader := c_reader s; c_writer := c_writer s;
     c_prompt_name := c_prompt_name s; c_autocommit := c_autocommit s; c_colors := c_colors s;
     c_output_mode := c_output_mode s; c_script_summary := c_script_summary s;
     c_bindings := c_bindings s; c_script_tx := tx; c_ticks := c_ticks s |}.
Definition tick (n : nat) (s : CliSession) : CliSession :=
  {| c_state := c_state s; c_reader := c_reader s; c_writer := c_writer s;
     c_prompt_name := c_prompt_name s; c_autocommit := c_autocommit s; c_colors := c_colors s;
     c_output_mode := c_output_mode s; c_script_summary := c_script_summary s;
     c_bindings := c_bindings s; c_script_tx := c_script_tx s; c_ticks := n + c_ticks s |}.

Definition with_colors (σ : SessionState) (reader writer : string) (colors : SessionColors)
    : CliSession :=
  {| c_state := σ; c_reader := reader; c_writer := writer; c_prompt_name := "session";
     c_autocommit := None; c_colors := colors; c_output_mode := Interactive;
     c_script_summary := ScriptSummary_default; c_bindings := ∅; c_script_tx := None;
     c_ticks := 0 |}.
Definition CliSession_new (reader writer : string) : CliSession :=
  with_colors session_new reader writer plain_colors.
Definition new_with_color (reader writer : string) (enabled : bool) : CliSession :=
  with_colors session_new reader writer (for_terminal enabled).
Definition with_state (σ : SessionState) (reader writer : string) : CliSession :=
  with_colors σ reader writer plain_colors.
Definition with_state_and_color (σ : SessionState) (reader writer : string) (enabled : bool)
    : CliSession := with_colors σ reader writer (for_terminal enabled).
Definition into_parts (s : CliSession) : SessionState * string * string :=
  (c_state s, c_reader s, c_writer s).

(** ** Steps of a session *)

(** [None] is a loop that outran its input. *)
Definition cli (A : Type) : Type := CliSession → io (option (result A) * CliSession).

#[global] Instance cli_ret : MRet cli := λ A a s fl fs, (Done (Some (Ok a), s), fl, fs).
#[global] Instance cli_bind : MBind cli := λ A B f m s fl fs,
  match m s fl fs with
  | (Done (Some (Ok a), s), fl, fs) => f a s fl fs
  | (Done (Some (Err e), s), fl, fs) => (Done (Some (Err e), s), fl, fs)
  | (Done (None, s), fl, fs) => (Done (None, s), fl, fs)
  | (Failed e, fl, fs) => (Failed e, fl, fs)
  | (Crashed, fl, fs) => (Crashed, fl, fs)
  end.

Definition cli_lift {A} (r : result A) : cli A := λ s fl fs, (Done (Some r, s), fl, fs).
Definition fail {A} (e : GrmError) : cli A := cli_lift (Err e).
Definition gets {A} (f : CliSession → A) : cli A := λ s fl fs, (Done (Some (Ok (f s)), s), fl, fs).
Definition modify (f : CliSession → CliSession) : cli unit := λ s fl fs,
  (Done (Some (Ok tt), f s), fl, fs).

(** A step of the session state. *)
Definition on_session {A} (m : session A) : cli A := λ s fl fs,
  let '(r, σ) := m (c_state s) in (Done (Some r, set_state σ s), fl, fs).
(** A find, which reads the catalog and asks the store. *)
Definition on_find {A} (m : SessionModelCatalog → GraphStore → result A * GraphStore) : cli A :=
  on_session (λ σ, let '(r, store) := m (ss_catalog σ) (ss_store σ) in (r, set_store store σ)).
(** A profile, which reads the clock, too. *)
Definition on_prof {A} (m : SessionModelCatalog → prof A) : cli A := λ s fl fs,
  let σ := c_state s in
  let '(r, store, ticks) := m (ss_catalog σ) (ss_store σ) (c_ticks s) in
  (Done (Some r, tick (ticks - c_ticks s) (set_state (set_store store σ) s)), fl, fs).
(** A step on files, with the two tags the machine has next. *)
Definition on_files {A} (m : string * string → CliSession → io (result A)) : cli A := λ s fl fs,
  match m (temp_tag (c_ticks s), temp_tag (S (c_ticks s))) s fl fs with
  | (Done r, fl, fs) => (Done (Some r, tick 2 s), fl, fs)
  | (Failed e, fl, fs) => (Failed e, fl, fs)
  | (Crashed, fl, fs) => (Crashed, fl, fs)
  end.
(** A step that reads files into the session state. *)
Definition on_load {A} (m : SessionState → io (result A * SessionState)) : cli A := λ s fl fs,
  match m (c_state s) fl fs with
  | (Done (r, σ), fl, fs) => (Done (Some r, set_state σ s), fl, fs)
  | (Failed e, fl, fs) => (Failed e, fl, fs)
  | (Crashed, fl, fs) => (Crashed, fl, fs)
  end.
(** [m.map_err(f)] *)
Definition map_error {A} (f : GrmError → GrmError) (m : cli A) : cli A := λ s fl fs,
  match m s fl fs with
  | (Done (Some (Err e), s), fl, fs) => (Done (Some (Err (f e)), s), fl, fs)
  | r => r
  end.
(** The result itself, and whatever the step did to the session. *)
Definition attempt {A} (m : cli A) : cli (result A) := λ s fl fs,
  match m s fl fs with
  | (Done (Some r, s), fl, fs) => (Done (Some (Ok r), s), fl, fs)
  | (Done (None, s), fl, fs) => (Done (None, s), fl, fs)
  | (Failed e, fl, fs) => (Failed e, fl, fs)
  | (Crashed, fl, fs) => (Crashed, fl, fs)
  end.

Definition on_catalog {A} (f : SessionModelCatalog → A) : cli A :=
  gets (λ s, f (ss_catalog (c_state s))).

(** *** The reader and the writer *)

(** [From<io::Error> for GrmError] *)
Definition error_of_io (e : io_error) : GrmError := Backend (io_error_text e).

(** One write of a text: where it fails, a part of it is written. *)
Definition write (text : string) : cli unit := λ s fl fs,
  match fl with
  | CallFails n :: fl =>
      (Done (Some (Err (error_of_io OtherError)),
             append_written (String.substring 0 n text) s), fl, fs)
  | CallCrashes _ :: fl => (Crashed, fl, fs)
  | _ => (Done (Some (Ok tt), append_written text s), tail fl, fs)
  end.
Definition flush_writer : cli unit := write "".
Definition writeln (text : string) : cli unit := write (text +:+ Parser.newline).
Fixpoint write_lines (lines : list string) : cli unit :=
  match lines with
  | [] => mret tt
  | line :: lines => _ ← writeln line; write_lines lines
  end.

(** A line that is not UTF-8 is read and answered with an error. *)
Definition read_line : cli (option string) := λ s fl fs,
  match fl with
  | CallFails _ :: fl => (Done (Some (Err (error_of_io OtherError)), s), fl, fs)
  | CallCrashes _ :: fl => (Crashed, fl, fs)
  | _ =>
      let '(line, rest) := take_line (c_reader s) in
      let s := set_reader rest s in
      (Done (Some (if String.eqb line "" then Ok None
                   else if utf8_valid line then Ok (Some line)
                   else Err (error_of_io OtherError)), s), tail fl, fs)
  end.

Definition when (b : bool) (m : cli unit) : cli unit := if b then m else mret tt.
Definition script_mode : cli bool :=
  gets (λ s, match c_output_mode s with Script => true | Interactive => false end).
(** [if self.output_mode != SessionOutputMode::Script { ... }] *)
Definition unless_script (m : cli unit) : cli unit := script ← script_mode; when (negb script) m.

(** *** Loops

    A turn of a loop ends it with a value, or goes on with a state.  Every turn
    that goes on has read a line, so the input left bounds the turns. *)
Fixpoint turns {X A} (fuel : nat) (body : X → cli (X + A)) (x : X) : cli A := λ s fl fs,
  match fuel with
  | O => (Done (None, s), fl, fs)
  | S fuel =>
      (r ← body x;
       match r with
       | inl x => turns fuel body x
       | inr a => mret (M:=cli) a
       end) s fl fs
  end.
Definition repeat_turns {X A} (body : X → cli (X + A)) (x : X) : cli A :=
  fuel ← gets (λ s, S (String.length (c_reader s)));
  turns fuel body x.

(** [read_command_line]: a line that ends in a backslash goes on in the next. *)
Definition command_line_turn (state : string * string) : cli (string * string + string) :=
  let '(combined, current) := state in
  let physical := trim_line_end current in
  match str_strip_suffix "\" (str_trim_end physical) with
  | Some content =>
      next ← read_line;
      next ← cli_lift (ok_or next (Constraint "line continuation ended unexpectedly"));
      mret (M:=cli) (inl (combined +:+ content +:+ Parser.newline, next))
  | None => mret (M:=cli) (inr (combined +:+ physical))
  end.
Definition read_command_line : cli (option string) :=
  first_line ← read_line;
  match first_line with
  | None => mret (M:=cli) None
  | Some first_line =>
      line ← repeat_turns command_line_turn ("", first_line);
      mret (M:=cli) (Some line)
  end.

(** ** Autocommit and transactions *)

Definition autocommit_error (path : string) (err : GrmError) : GrmError :=
  Backend ("autocommit failed for '" +:+ path +:+ "': " +:+ error_to_string err).
Definition set_pending_entries (n : nat) (target : AutocommitTarget) : AutocommitTarget :=
  {| ac_format := ac_format target; ac_path := ac_path target; ac_pending_entries := n |}.

Definition checkpoint_autocommit : cli unit :=
  target ← gets c_autocommit;
  match target with
  | None => mret (M:=cli) tt
  | Some target =>
      _ ← map_error (autocommit_error (ac_path target))
            (on_files (λ tags s, checkpoint_durable (durability_format (ac_format target)) tags
                                   (path_new (ac_path target)) (c_state s)));
      modify (set_autocommit (Some (set_pending_entries 0 target)))
  end.

Definition enable_autocommit (format : SessionFileFormat) (path : string) : cli unit :=
  _ ← modify (set_autocommit (Some {| ac_format := format; ac_path := path;
                                      ac_pending_entries := 0 |}));
  checkpoint_autocommit.
Definition enable_autocommit_json : string → cli unit := enable_autocommit SfJson.
Definition enable_autocommit_binary : string → cli unit := enable_autocommit SfBinary.
Definition disable_autocommit : cli unit := modify (set_autocommit None).

(** Nothing is appended while a transaction is open. *)
Definition persist_autocommit_entry (entry : DurableOperation) : cli unit :=
  tx ← gets c_script_tx;
  match tx with
  | Some _ => mret (M:=cli) tt
  | None =>
      target ← gets c_autocommit;
      match target with
      | None => mret (M:=cli) tt
      | Some target =>
          _ ← map_error (autocommit_error (ac_path target))
                (on_files (λ _ _, append_durable_operation (path_new (ac_path target)) entry));
          let pending := S (ac_pending_entries target) in
          _ ← modify (set_autocommit (Some (set_pending_entries pending target)));
          if (AUTOCOMMIT_CHECKPOINT_INTERVAL <=? pending)%nat then checkpoint_autocommit
          else mret (M:=cli) tt
      end
  end.

Definition compact_autocommit : cli SessionCompactSummary :=
  target ← gets c_autocommit;
  _ ← cli_lift (ok_or target (Constraint "session.compact requires autocommit to be enabled"));
  _ ← checkpoint_autocommit;
  target ← gets c_autocommit;
  (* the expectation that the target is there *)
  target ← cli_lift (ok_or target (Backend "checked above"));
  mret (M:=cli) {| cs_format_flag := flag (ac_format target); cs_path := ac_path target |}.

Definition handle_tx_begin : cli unit :=
  tx ← gets c_script_tx;
  match tx with
  | Some _ => fail (Constraint "transaction is already open")
  | None =>
      _ ← modify (λ s, set_script_tx
            (Some {| state_snapshot := snapshot (c_state s); bindings_snapshot := c_bindings s;
                     script_summary_snapshot := c_script_summary s |}) s);
      unless_script (writeln "Transaction started.")
  end.

(** [script_tx.take()]: the transaction is gone, whatever the checkpoint does. *)
Definition take_script_tx : cli (option ScriptTransaction) :=
  tx ← gets c_script_tx;
  _ ← modify (set_script_tx None);
  mret (M:=cli) tx.
Definition handle_tx_commit : cli unit :=
  tx ← take_script_tx;
  match tx with
  | None => fail (Constraint "no open transaction to commit")
  | Some _ =>
      _ ← checkpoint_autocommit;
      unless_script (writeln "Transaction committed.")
  end.

Definition restore_script_transaction (tx : ScriptTransaction) : cli unit :=
  modify (λ s, set_summary (script_summary_snapshot tx)
                 (set_bindings (bindings_snapshot tx)
                   (set_state (restore (state_snapshot tx) (c_state s)) s))).
Definition rollback_script_tx_after_error : cli unit :=
  tx ← take_script_tx;
  match tx with
  | Some tx => restore_script_transaction tx
  | None => mret (M:=cli) tt
  end.

(** ** Commands on the schema *)

Definition note_node_type (name : string) (s : CliSession) : CliSession :=
  let summary := c_script_summary s in
  set_summary {| created_node_types := created_node_types summary ++ [name];
                 created_link_types := created_link_types summary;
                 inserted_nodes := inserted_nodes summary;
                 inserted_edges := inserted_edges summary |} s.
Definition note_link_type (name : string) (s : CliSession) : CliSession :=
  let summary := c_script_summary s in
  set_summary {| created_node_types := created_node_types summary;
                 created_link_types := created_link_types summary ++ [name];
                 inserted_nodes := inserted_nodes summary;
                 inserted_edges := inserted_edges summary |} s.
Definition note_node (name : string) (s : CliSession) : CliSession :=
  let summary := c_script_summary s in
  set_summary {| created_node_types := created_node_types summary;
                 created_link_types := created_link_types summary;
                 inserted_nodes := count_entry (inserted_nodes summary) name;
                 inserted_edges := inserted_edges summary |} s.
Definition note_edge (name : string) (s : CliSession) : CliSession :=
  let summary := c_script_summary s in
  set_summary {| created_node_types := created_node_types summary;
                 created_link_types := created_link_types summary;
                 inserted_nodes := inserted_nodes summary;
                 inserted_edges := count_entry (inserted_edges summary) name |} s.

Definition write_model_list : cli unit :=
  models ← on_catalog list_node_models;
  unless_script (write_lines (model_list_lines models)).
Definition write_rel_model_list : cli unit :=
  models ← on_catalog list_rel_models;
  unless_script (write_lines (rel_model_list_lines models)).
Definition write_model_show (name : string) : cli unit :=
  model ← on_catalog (λ c, get_node_model c name);
  unless_script (write_lines (model_show_lines name model)).
Definition write_rel_model_show (name : string) : cli unit :=
  model ← on_catalog (λ c, get_rel_model c name);
  unless_script (write_lines (rel_model_show_lines name model)).

Definition handle_model_define_args (parts : list string) : cli unit :=
  match parts with
  | name :: id_field :: specs =>
      fields ← cli_lift (mapM parse_field_spec specs);
      outcome ← on_session (apply_define_node
        {| dn_name := name; dn_id_field := id_field;
           dn_fields := field_specs_from_runtime fields |});
      let model := ro_value outcome in
      _ ← modify (note_node_type (nm_name model));
      _ ← persist_autocommit_entry (ro_durable_op outcome);
      unless_script (writeln ("Model '" +:+ nm_name model +:+ "' created from script."))
  | _ => fail (Constraint
      "usage: model.define <Name> <id_field> [field:type:required|optional ...]")
  end.
Definition handle_link_define_args (parts : list string) : cli unit :=
  match parts with
  | name :: from_model :: to_model :: id_field :: specs =>
      fields ← cli_lift (mapM parse_field_spec specs);
      outcome ← on_session (apply_define_edge
        {| de_name := name; de_from_model := from_model; de_to_model := to_model;
           de_id_field := id_field; de_fields := field_specs_from_runtime fields |});
      let model := ro_value outcome in
      _ ← modify (note_link_type (rm_name model));
      _ ← persist_autocommit_entry (ro_durable_op outcome);
      unless_script (writeln ("Link '" +:+ rm_name model +:+ "' created from script."))
  | _ => fail (Constraint
      "usage: link.define <Name> <from_model> <to_model> <id_field> [field:type:required|optional ...]")
  end.

(** ** Commands on nodes and edges *)

Definition ensure_binding_available (binding : string) : cli unit :=
  bindings ← gets c_bindings;
  match bindings !! binding with
  | Some _ => fail (Constraint ("binding '" +:+ binding +:+ "' is already defined"))
  | None => mret (M:=cli) tt
  end.
Definition resolve_binding_or_id (bindings : gmap string Z) (raw field : string) : result string :=
  match bindings !! raw with
  | Some id => Ok (Z_to_string id)
  | None =>
      if bool_decide (is_Some (parse_i64 raw)) then Ok raw
      else if is_binding_name_like raw
      then Err (Constraint ("unknown binding '" +:+ raw +:+ "' for edge.create " +:+ field))
      else Ok raw
  end.

Definition handle_node_create_parsed (model_name : string) (assignments : list KeyValueArg)
    : cli StoredNode :=
  created ← on_session (create_instance model_name (collect_assignments assignments));
  model ← on_session (node_model model_name);
  _ ← modify (note_node (nm_name model));
  _ ← persist_autocommit_entry (UpsertNode created);
  _ ← unless_script (writeln ("Created node " +:+ nm_name model +:+ " with backend id "
        +:+ Z_to_string (sn_id created) +:+ ". " +:+ nm_id_field model +:+ "="
        +:+ Z_to_string (sn_id created) +:+ "."));
  mret (M:=cli) created.
(** The arm [NodeCreate]: a binding is checked before and made after. *)
Definition handle_node_create (binding : option string) (model_name : string)
    (assignments : list KeyValueArg) : cli unit :=
  match binding with
  | None => _ ← handle_node_create_parsed model_name assignments; mret (M:=cli) tt
  | Some binding =>
      _ ← ensure_binding_available binding;
      created ← handle_node_create_parsed model_name assignments;
      modify (λ s, set_bindings (<[binding := sn_id created]> (c_bindings s)) s)
  end.

Definition handle_node_update_parsed (model_name id : string) (assignments : list KeyValueArg)
    : cli unit :=
  raw_id ← cli_lift (parse_backend_id id node_id_type "node id");
  updated ← on_session (update_node_instance model_name (Z_to_string raw_id)
                          (collect_assignments assignments));
  model ← on_session (node_model model_name);
  _ ← persist_autocommit_entry (UpsertNode updated);
  colors ← gets c_colors;
  writeln ("Updated node " +:+ nm_name model +:+ " " +:+ nm_id_field model +:+ "="
           +:+ Z_to_string (sn_id updated) +:+ " " +:+ format_props (sn_props updated) colors).
Definition handle_node_delete_parsed (model_name id : string) : cli unit :=
  raw_id ← cli_lift (parse_backend_id id node_id_type "node id");
  outcome ← on_session (apply_node_delete {| nd_model := model_name; nd_id := raw_id |});
  _ ← persist_autocommit_entry (ro_durable_op outcome);
  writeln ("Deleted node " +:+ model_name +:+ " " +:+ id +:+ ".").

Definition handle_edge_create_parsed (model_name : string) (assignments : list KeyValueArg)
    : cli unit :=
  let values := collect_assignments assignments in
  from_id ← cli_lift (ok_or (values !! "from") (Constraint "edge.create requires from=<id>"));
  let values := delete "from" values in
  to_id ← cli_lift (ok_or (values !! "to") (Constraint "edge.create requires to=<id>"));
  let values := delete "to" values in
  bindings ← gets c_bindings;
  from_id ← cli_lift (resolve_binding_or_id bindings from_id "from");
  to_id ← cli_lift (resolve_binding_or_id bindings to_id "to");
  from_id ← cli_lift (parse_backend_id from_id node_id_type "from node");
  to_id ← cli_lift (parse_backend_id to_id node_id_type "to node");
  created ← on_session (create_relationship_instance model_name (Z_to_string from_id)
                          (Z_to_string to_id) values);
  model ← on_session (rel_model model_name);
  _ ← modify (note_edge (rm_name model));
  _ ← persist_autocommit_entry (UpsertRel created);
  unless_script (writeln ("Created edge " +:+ Z_to_string (sr_id created) +:+ " of type '"
    +:+ rm_rel_type model +:+ "'. " +:+ rm_id_field model +:+ "="
    +:+ Z_to_string (sr_id created) +:+ ".")).
Definition handle_edge_update_parsed (model_name id : string) (assignments : list KeyValueArg)
    : cli unit :=
  raw_id ← cli_lift (parse_backend_id id rel_id_type "edge id");
  updated ← on_session (update_relationship_instance model_name (Z_to_string raw_id)
                          (collect_assignments assignments));
  model ← on_session (rel_model model_name);
  _ ← persist_autocommit_entry (UpsertRel updated);
  colors ← gets c_colors;
  writeln ("Updated edge " +:+ rm_name model +:+ " " +:+ rm_id_field model +:+ "="
           +:+ Z_to_string (sr_id updated) +:+ " from=" +:+ Z_to_string (sr_from updated)
           +:+ " to=" +:+ Z_to_string (sr_to updated) +:+ " "
           +:+ format_props (sr_props updated) colors).
Definition handle_edge_delete_parsed (model_name id : string) : cli unit :=
  raw_id ← cli_lift (parse_backend_id id rel_id_type "edge id");
  outcome ← on_session (apply_edge_delete {| ed_model := model_name; ed_id := raw_id |});
  _ ← persist_autocommit_entry (ro_durable_op outcome);
  writeln ("Deleted edge " +:+ model_name +:+ " " +:+ id +:+ ".").

(** ** Queries *)

(** A script shows no results; nor does it check the format. *)
Definition write_query_result (r : SessionQueryResult) (format : OutputFormat) : cli unit :=
  script ← script_mode;
  if script : bool then mret (M:=cli) tt
  else
    colors ← gets c_colors;
    lines ← cli_lift (render_query_result colors r format);
    write_lines lines.

Definition session_parse_node_find_terms (model_name : string) (terms : list QueryTerm)
    : cli NodeFindQuery :=
  model ← on_session (node_model model_name);
  cli_lift (parse_node_find_terms terms model node_id_type).
Definition session_parse_edge_find_query (model_name : string) (filters : gmap string string)
    : cli EdgeFindQuery :=
  model ← on_session (rel_model model_name);
  cli_lift (parse_edge_find_query filters model rel_id_type node_id_type).

Definition handle_node_find_parsed (model_name : string) (terms : list QueryTerm) : cli unit :=
  query ← session_parse_node_find_terms model_name terms;
  r ← on_find (λ c, execute_node_query c model_name query);
  write_query_result r (nq_format query).
Definition handle_session_explain_node_find (model_name : string) (terms : list QueryTerm)
    (verbose : bool) : cli unit :=
  _ ← cli_lift (reject_introspection_format_terms terms);
  query ← session_parse_node_find_terms model_name terms;
  c ← on_catalog id;
  plan ← cli_lift (explain_node_find_query c model_name query);
  write_lines (render_explain "node.find" model_name plan verbose).
Definition handle_session_profile_node_find (model_name : string) (terms : list QueryTerm)
    (verbose : bool) : cli unit :=
  _ ← cli_lift (reject_introspection_format_terms terms);
  query ← session_parse_node_find_terms model_name terms;
  c ← on_catalog id;
  plan ← cli_lift (explain_node_find_query c model_name query);
  profile ← on_prof (λ c, profile_node_query clock c model_name query plan);
  write_lines (render_profile
    {| rp_command := "node.find"; rp_target := model_name; rp_plan := plan;
       rp_row_count := row_count (sp_result profile); rp_elapsed := sp_elapsed profile;
       rp_metrics := sp_metrics profile; rp_verbose := verbose |}).

Definition handle_edge_find_parsed (model_name : string) (terms : list QueryTerm) : cli unit :=
  query ← session_parse_edge_find_query model_name (collect_query_terms terms);
  rels ← on_find (λ c store, (find_relationships_with_query c model_name query store, store));
  model ← on_session (rel_model model_name);
  write_query_result (QEdges model rels) (eq_format query).
Definition handle_session_explain_edge_find (model_name : string) (terms : list QueryTerm)
    (verbose : bool) : cli unit :=
  _ ← cli_lift (reject_introspection_format_terms terms);
  query ← session_parse_edge_find_query model_name (collect_query_terms terms);
  c ← on_catalog id;
  plan ← cli_lift (explain_edge_find_query c model_name query);
  write_lines (render_explain "edge.find" model_name plan verbose).
Definition handle_session_profile_edge_find (model_name : string) (terms : list QueryTerm)
    (verbose : bool) : cli unit :=
  _ ← cli_lift (reject_introspection_format_terms terms);
  query ← session_parse_edge_find_query model_name (collect_query_terms terms);
  c ← on_catalog id;
  plan ← cli_lift (explain_edge_find_query c model_name query);
  profile ← on_prof (λ c, profile_edge_query clock c model_name query plan);
  write_lines (render_profile
    {| rp_command := "edge.find"; rp_target := model_name; rp_plan := plan;
       rp_row_count := len profile.1.1; rp_elapsed := profile.1.2;
       rp_metrics := profile.2; rp_verbose := verbose |}).

(** ** Commands on files *)

Definition load_session_file (format : SessionFileFormat) (path : string) : cli unit :=
  source ← on_load (load_workspace_with_source (durability_format format) (path_new path));
  _ ← checkpoint_autocommit;
  let what := match format with SfJson => "JSON" | SfBinary => "binary" end in
  match source with
  | LoadPrimary => writeln ("Loaded session from " +:+ what +:+ " file '" +:+ path +:+ "'.")
  | LoadBackup => writeln ("Recovered session from backup " +:+ what +:+ " file '"
                           +:+ path_display (backup_path (path_new path)) +:+ "'.")
  end.
Definition load_session_json : string → cli unit := load_session_file SfJson.
Definition load_session_binary : string → cli unit := load_session_file SfBinary.

Definition save_usage : GrmError :=
  Constraint "usage: session.save --json <path> | session.save --bin <path>".
Definition handle_session_save (args : list string) : cli unit :=
  match args with
  | [mode; path] =>
      let save format :=
        on_files (λ tags s, save_workspace format tags (path_new path) (c_state s)) in
      if String.eqb mode "--json" then
        _ ← save DurJson;
        writeln ("Saved session to JSON file '" +:+ path +:+ "'.")
      else if String.eqb mode "--bin" then
        _ ← save DurBinary;
        writeln ("Saved session to binary file '" +:+ path +:+ "'.")
      else fail save_usage
  | _ => fail save_usage
  end.
Definition load_usage : GrmError :=
  Constraint "usage: session.load --json <path> | session.load --bin <path>".
Definition handle_session_load (args : list string) : cli unit :=
  match args with
  | [mode; path] =>
      match from_flag mode with
      | Some format => load_session_file format path
      | None => fail load_usage
      end
  | _ => fail load_usage
  end.
Definition export_usage : GrmError := Constraint "usage: session.export --json <path>".
Definition handle_session_export (args : list string) : cli unit :=
  match args with
  | [mode; path] =>
      if String.eqb mode "--json" then
        _ ← on_files (λ tags s, export_to_json tags.1 (path_new path) (c_state s));
        writeln ("Exported graph to JSON file '" +:+ path +:+ "'.")
      else fail export_usage
  | _ => fail export_usage
  end.
Definition import_usage : GrmError := Constraint "usage: session.import --json <path>".
Definition handle_session_import (args : list string) : cli unit :=
  match args with
  | [mode; path] =>
      if String.eqb mode "--json" then
        _ ← on_load (import_from_json (path_new path));
        _ ← checkpoint_autocommit;
        writeln ("Imported graph from JSON file '" +:+ path +:+ "'.")
      else fail import_usage
  | _ => fail import_usage
  end.
Definition handle_session_compact : cli unit :=
  summary ← compact_autocommit;
  writeln ("Compacted session into " +:+ cs_format_flag summary +:+ " file '"
           +:+ cs_path summary +:+ "'.").

Definition autocommit_usage : GrmError :=
  Constraint "usage: session.autocommit --json <path> | session.autocommit --bin <path> | session.autocommit status | session.autocommit off".
Definition handle_session_autocommit (args : list string) : cli unit :=
  match args with
  | ["status"] =>
      target ← gets c_autocommit;
      match target with
      | Some target => writeln ("Autocommit is enabled: " +:+ flag (ac_format target) +:+ " "
                                +:+ ac_path target)
      | None => writeln "Autocommit is disabled."
      end
  | ["off"] => _ ← disable_autocommit; writeln "Autocommit disabled."
  | [mode; path] =>
      format ← cli_lift (ok_or (from_flag mode) autocommit_usage);
      _ ← enable_autocommit format path;
      writeln ("Autocommit enabled: " +:+ flag format +:+ " " +:+ path)
  | _ => fail autocommit_usage
  end.

(** ** Summaries *)

Definition write_session_summary (verbose : bool) : cli unit :=
  colors ← gets c_colors;
  target ← gets c_autocommit;
  let autocommit := match target with
                    | Some target => flag (ac_format target) +:+ " " +:+ ac_path target
                    | None => "off"
                    end in
  lines ← gets (λ s, session_summary_lines colors autocommit verbose (c_state s));
  write_lines lines.
Definition write_index_catalog (verbose : bool) : cli unit :=
  colors ← gets c_colors;
  write_lines (index_catalog_lines colors verbose).
Definition write_script_summary : cli unit :=
  lines ← gets (λ s, script_summary_lines (c_colors s) (c_script_summary s));
  write_lines lines.
Definition write_help : cli unit := write_lines help_lines.

(** ** Wizards *)

Definition prompt (text : string) : cli string :=
  _ ← write text;
  _ ← flush_writer;
  line ← read_line;
  line ← cli_lift (ok_or line (Backend "interactive session ended unexpectedly"));
  mret (M:=cli) (str_trim line).

(** Ask until the answer is good, and say why it is not. *)
Definition ask_until {A} (text : string) (good : string → A + list string) : cli A :=
  repeat_turns (λ _ : (), raw ← prompt text;
    match good raw with
    | inl a => mret (M:=cli) (inr a)
    | inr complaint => _ ← write_lines complaint; mret (M:=cli) (inl ())
    end) ().
Definition or_complain {A} (r : result A) : A + list string :=
  match r with Ok a => inl a | Err e => inr [error_to_string e] end.

Definition prompt_model_name : cli string :=
  ask_until "Model name (PascalCase): " (λ name, or_complain (_ ← validate_model_name name; Ok name)).
Definition prompt_id_field_name : cli string :=
  ask_until ("Id field name (backend type: " +:+ id_type_keyword node_id_type +:+ "): ")
    (λ name, or_complain (_ ← validate_field_name name; Ok name)).
Definition prompt_rel_id_field_name : cli string :=
  ask_until ("Relationship id field name (backend type: " +:+ id_type_keyword rel_id_type +:+ "): ")
    (λ name, or_complain (_ ← validate_field_name name; Ok name)).
Definition prompt_existing_node_model (text : string) : cli string :=
  c ← on_catalog id;
  ask_until text (λ name,
    match get_node_model c name with
    | Some _ => inl name
    | None => inr ["Node model '" +:+ name +:+ "' is not defined."]
    end).
Definition prompt_value_type : cli RuntimeValueType :=
  ask_until "Field type [string|int|float|bool]: " (λ raw,
    match type_parse_keyword raw with
    | Some value_type => inl value_type
    | None => inr ["Invalid field type '" +:+ raw +:+ "'."]
    end).
Definition yes_or_no (text : string) : cli bool :=
  ask_until text (λ raw,
    match parse_required_flag raw with
    | Some answer => inl answer
    | None => inr ["Please answer y/n."]
    end).
Definition prompt_required_flag : cli bool := yes_or_no "Required? [y/n]: ".
Definition prompt_yes_no : string → cli bool := yes_or_no.

Definition complain {X A} (x : X) (text : string) : cli (X + A) :=
  _ ← writeln text; mret (M:=cli) (inl x).
Definition field_turn (id_field : string) (fields : list RuntimeField)
    : cli (list RuntimeField + list RuntimeField) :=
  name ← prompt (match fields with
                 | [] => "Field name (or 'done' to finish): "
                 | _ => "Next field name (or 'done' to finish): "
                 end);
  if String.eqb (to_ascii_lowercase name) "done" then mret (M:=cli) (inr fields)
  else if existsb (λ field, String.eqb (field_name field) name) fields
  then complain fields ("field '" +:+ name +:+ "' is already defined")
  else if String.eqb name id_field
  then complain fields ("field '" +:+ name
         +:+ "' is already reserved as the backend-assigned id field")
  else
    match validate_field_name name with
    | Err e => complain fields (error_to_string e)
    | Ok _ =>
        value_type ← prompt_value_type;
        required ← prompt_required_flag;
        mret (M:=cli) (inl (fields ++ [{| field_name := name; field_type := value_type;
                                          field_required := required |}])%list)
    end.
Definition prompt_fields (id_field : string) : cli (list RuntimeField) :=
  repeat_turns (field_turn id_field) [].

(** The values of an instance: a blank skips an optional field. *)
Definition value_prompt (field : RuntimeField) : string :=
  "Value for " +:+ field_name field +:+ " (" +:+ type_keyword (field_type field) +:+ ", "
  +:+ (if field_required field then "required): " else "optional, blank to skip): ").
Definition prompt_value (field : RuntimeField) : cli (option string) :=
  ask_until (value_prompt field) (λ raw,
    if String.eqb raw "" && negb (field_required field) then inl None
    else match parse_value (field_type field) raw with
         | Ok _ => inl (Some raw)
         | Err e => inr [error_to_string e]
         end).
Fixpoint prompt_values (fields : list RuntimeField) (values : gmap string string)
    : cli (gmap string string) :=
  match fields with
  | [] => mret (M:=cli) values
  | field :: fields =>
      answer ← prompt_value field;
      prompt_values fields (match answer with
                            | Some raw => <[field_name field := raw]> values
                            | None => values
                            end)
  end.

(** Neither instance wizard tells autocommit about what it creates. *)
Definition run_create_instance_wizard (model_name : string) : cli unit :=
  model ← on_catalog (λ c, get_node_model c model_name);
  match model with
  | None => writeln ("Model '" +:+ model_name +:+ "' not found.")
  | Some model =>
      _ ← writeln ("Creating instance of '" +:+ nm_name model +:+ "'.");
      values ← prompt_values (nm_fields model) ∅;
      created ← on_session (create_instance (nm_name model) values);
      writeln ("Created node " +:+ Z_to_string (sn_id created) +:+ " with label '"
        +:+ nm_label model +:+ "'. " +:+ nm_id_field model +:+ "="
        +:+ Z_to_string (sn_id created) +:+ ".")
  end.
Definition run_create_relationship_wizard (model_name : string) : cli unit :=
  model ← on_catalog (λ c, get_rel_model c model_name);
  match model with
  | None => writeln ("Link '" +:+ model_name +:+ "' not found.")
  | Some model =>
      _ ← writeln ("Creating link '" +:+ rm_name model +:+ "'.");
      from_id ← prompt ("From node id for model " +:+ rm_from_model model +:+ " ("
                        +:+ id_type_keyword node_id_type +:+ "): ");
      to_id ← prompt ("To node id for model " +:+ rm_to_model model +:+ " ("
                      +:+ id_type_keyword node_id_type +:+ "): ");
      values ← prompt_values (rm_fields model) ∅;
      created ← on_session (create_relationship_instance (rm_name model) from_id to_id values);
      writeln ("Created relationship " +:+ Z_to_string (sr_id created) +:+ " of type '"
        +:+ rm_rel_type model +:+ "'. " +:+ rm_id_field model +:+ "="
        +:+ Z_to_string (sr_id created) +:+ ".")
  end.

Definition run_model_define_wizard : cli unit :=
  _ ← writeln "Creating a runtime node model.";
  name ← prompt_model_name;
  id_field ← prompt_id_field_name;
  fields ← prompt_fields id_field;
  model ← cli_lift (RuntimeNodeModel_new name id_field node_id_type fields);
  _ ← write_lines (model_summary_lines model);
  confirmed ← prompt_yes_no "Confirm model creation? [y/n]: ";
  if negb confirmed then writeln "Model creation canceled."
  else
    outcome ← on_session (apply_define_node
      {| dn_name := nm_name model; dn_id_field := nm_id_field model;
         dn_fields := field_specs_from_runtime (nm_fields model) |});
    _ ← persist_autocommit_entry (ro_durable_op outcome);
    _ ← writeln ("Model '" +:+ nm_name model +:+ "' created.");
    now ← prompt_yes_no "Create the first instance now? [y/n]: ";
    when now (run_create_instance_wizard (nm_name model)).
Definition run_link_define_wizard : cli unit :=
  _ ← writeln "Creating a link.";
  name ← prompt_model_name;
  from_model ← prompt_existing_node_model "From node model: ";
  to_model ← prompt_existing_node_model "To node model: ";
  id_field ← prompt_rel_id_field_name;
  fields ← prompt_fields id_field;
  model ← cli_lift (RuntimeRelModel_new name from_model to_model id_field rel_id_type fields);
  _ ← write_lines (rel_model_summary_lines model);
  confirmed ← prompt_yes_no "Confirm link creation? [y/n]: ";
  if negb confirmed then writeln "Link creation canceled."
  else
    outcome ← on_session (apply_define_edge
      {| de_name := rm_name model; de_from_model := rm_from_model model;
         de_to_model := rm_to_model model; de_id_field := rm_id_field model;
         de_fields := field_specs_from_runtime (rm_fields model) |});
    _ ← persist_autocommit_entry (ro_durable_op outcome);
    _ ← writeln ("Link '" +:+ rm_name model +:+ "' created.");
    now ← prompt_yes_no "Create the first link now? [y/n]: ";
    when now (run_create_relationship_wizard (rm_name model)).

(** ** The dispatch and the two loops *)

Definition run_command (trimmed : string) (command : SessionCommand) : cli unit :=
  match command with
  | CmdHelp => write_help
  | CmdExit => mret (M:=cli) tt
  | CmdSessionDescribe verbose => write_session_summary verbose
  | CmdSessionIndexes verbose => write_index_catalog verbose
  | CmdTxBegin => handle_tx_begin
  | CmdTxCommit => handle_tx_commit
  | CmdModelDefine [] => run_model_define_wizard
  | CmdModelDefine args => handle_model_define_args args
  | CmdModelList => write_model_list
  | CmdModelShow name => write_model_show name
  | CmdLinkDefine [] => run_link_define_wizard
  | CmdLinkDefine args => handle_link_define_args args
  | CmdLinkList => write_rel_model_list
  | CmdLinkShow name => write_rel_model_show name
  | CmdNodeCreate binding model_name assignments =>
      handle_node_create binding model_name assignments
  | CmdNodeFind model_name terms => handle_node_find_parsed model_name terms
  | CmdSessionExplainNodeFind model_name terms verbose =>
      handle_session_explain_node_find model_name terms verbose
  | CmdSessionProfileNodeFind model_name terms verbose =>
      handle_session_profile_node_find model_name terms verbose
  | CmdNodeUpdate model_name id assignments => handle_node_update_parsed model_name id assignments
  | CmdNodeDelete model_name id => handle_node_delete_parsed model_name id
  | CmdEdgeCreate model_name assignments => handle_edge_create_parsed model_name assignments
  | CmdEdgeFind model_name terms => handle_edge_find_parsed model_name terms
  | CmdSessionExplainEdgeFind model_name terms verbose =>
      handle_session_explain_edge_find model_name terms verbose
  | CmdSessionProfileEdgeFind model_name terms verbose =>
      handle_session_profile_edge_find model_name terms verbose
  | CmdEdgeUpdate model_name id assignments => handle_edge_update_parsed model_name id assignments
  | CmdEdgeDelete model_name id => handle_edge_delete_parsed model_name id
  | CmdSessionSave args => handle_session_save args
  | CmdSessionLoad args => handle_session_load args
  | CmdSessionImport args => handle_session_import args
  | CmdSessionExport args => handle_session_export args
  | CmdSessionCompact => handle_session_compact
  | CmdSessionAutocommit args => handle_session_autocommit args
  | CmdUnknown _ => writeln ("Unknown command: " +:+ trimmed)
  end.

(** Whether the session is to end. *)
Definition handle_command (line : string) : cli bool :=
  let trimmed := str_trim line in
  if String.eqb trimmed "" then mret (M:=cli) false
  else
    command ← cli_lift (parse_command_line trimmed);
    match command with
    | CmdExit => mret (M:=cli) true
    | _ => _ ← run_command trimmed command; mret (M:=cli) false
    end.

(** A command of a script: one that fails ends the script, and rolls an open
    transaction back. *)
Definition script_command (trimmed : string) : cli (() + ()) :=
  r ← attempt (handle_command trimmed);
  match r with
  | Ok should_exit => mret (M:=cli) (if should_exit : bool then inr () else inl ())
  | Err err => _ ← rollback_script_tx_after_error; fail err
  end.
(** A turn of [run_script]: blank lines and comments are skipped. *)
Definition script_turn (_ : ()) : cli (() + ()) :=
  line ← read_command_line;
  match line with
  | None => mret (M:=cli) (inr ())
  | Some line =>
      let trimmed := str_trim (strip_script_comment line) in
      if String.eqb trimmed "" || str_starts_with "#" trimmed then mret (M:=cli) (inl ())
      else script_command trimmed
  end.
Definition begin_script (s : CliSession) : CliSession :=
  set_script_tx None (set_bindings ∅ (set_summary ScriptSummary_default
    (set_mode "script" Script s))).
Definition run_script : cli unit :=
  _ ← modify begin_script;
  _ ← writeln "Welcome to GRM-RS CLI.";
  _ ← writeln "Running setup script...";
  _ ← repeat_turns script_turn ();
  tx ← gets c_script_tx;
  match tx with
  | Some _ =>
      _ ← rollback_script_tx_after_error;
      fail (Constraint "script ended with an open transaction")
  | None =>
      _ ← write_script_summary;
      modify (set_mode "session" Interactive)
  end.

Definition write_prompt : cli unit :=
  name ← gets c_prompt_name;
  _ ← write ("grm(" +:+ name +:+ ")> ");
  flush_writer.
(** A turn of the interactive loop: a failed command is shown, and that is all. *)
Definition interactive_turn (_ : ()) : cli (() + ()) :=
  _ ← write_prompt;
  line ← read_command_line;
  match line with
  | None => _ ← writeln ""; mret (M:=cli) (inr ())
  | Some line =>
      r ← attempt (handle_command line);
      match r with
      | Ok should_exit => mret (M:=cli) (if should_exit : bool then inr () else inl ())
      | Err err => complain () (error_to_string err)
      end
  end.
Definition run_interactive_loop (banner : string) : cli unit :=
  _ ← writeln banner;
  repeat_turns interactive_turn ().
Definition banner (second : string) : string :=
  "Welcome to GRM-RS CLI." +:+ Parser.newline +:+ second.
Definition run : cli unit := run_interactive_loop
  (banner "Fresh in-memory graph session started. Type 'session.help' for commands.").
Definition continue_interactive : cli unit := run_interactive_loop
  (banner "Script loaded. Entering interactive session. Type 'session.help' for commands.").
Definition continue_loaded_interactive : cli unit := run_interactive_loop
  (banner "Loaded graph session ready. Type 'session.help' for commands.").

Definition write_startup_autocommit_off : cli unit :=
  writeln "Autocommit: off. Changes are in memory until session.save or session.autocommit is enabled.".
Definition write_startup_autocommit_on (path : string) : cli unit :=
  writeln ("Autocommit: on -> " +:+ path +:+ ". Successful edits will be persisted automatically.").
End terminal.
