(* ===== verification/Neo4j.v ===== *)
(** * The Neo4j backend ([src/src/backend/neo4j.rs])

    [Neo4jTx] runs each operation of a transaction as a Cypher statement over the
    driver [neo4rs], which is a parameter ([Neo4jDriver]).  [Neo4jServer] states what
    a server does with a statement, whatever text it is written as: a reader of the
    statements, with the escaping of Cypher's quoted names, says which text is which
    statement.  Under it every operation that succeeds has the effect the operation
    means, whatever labels, types and keys hold, and every operation that fails
    leaves the committed graph alone: the contract [DatabaseLaws], against which the
    runtime over a Neo4j session is proved. *)

From S2P Require Export Cypher Backend Render.

Local Open Scope string_scope.

(** ** The driver *)

Section driver.
Context `{SerdeNumber}.

(** The types and calls of [neo4rs] the code uses; a failed call answers the text of
    its error.  A transaction [Txn] works on a server [Db] that others share. *)
Class Neo4jDriver (Db Txn : Type) := {
  BoltType : Type;
  bolt_bool : bool → BoltType;
  bolt_i64 : Z → BoltType;
  bolt_f64 : f64 → BoltType;
  bolt_string : string → BoltType;
  (** [BoltMap::new], [put] for each entry, [BoltType::Map] *)
  bolt_map : list (string * BoltType) → BoltType;
  (** [query(text)] with a [param(key, value)] for each entry *)
  DriverQuery : Type;
  new_query : string → DriverQuery;
  query_param : string → BoltType → DriverQuery → DriverQuery;
  DriverNode : Type;
  node_id_of : DriverNode → Z;
  node_labels_of : DriverNode → list string;
  node_keys : DriverNode → list string;
  node_get : string → DriverNode → string + Value;
  DriverRelation : Type;
  relation_id : DriverRelation → Z;
  relation_typ : DriverRelation → string;
  relation_start_node_id : DriverRelation → Z;
  relation_end_node_id : DriverRelation → Z;
  relation_keys : DriverRelation → list string;
  relation_get : string → DriverRelation → string + Value;
  DriverRow : Type;
  row_get_node : string → DriverRow → string + DriverNode;
  row_get_relation : string → DriverRow → string + DriverRelation;
  row_get_i64 : string → DriverRow → string + Z;
  RowStream : Type;
  (** The rows a stream still holds. *)
  stream_rows : RowStream → list DriverRow;
  start_txn : Db → (string + Txn) * Db;
  txn_execute : DriverQuery → Db → Txn → (string + RowStream) * Db * Txn;
  txn_run : DriverQuery → Db → Txn → (string + unit) * Db * Txn;
  (** [rows.next(tx.handle())] *)
  rows_next : RowStream → Db → Txn → (string + option DriverRow) * RowStream * Db * Txn;
  txn_commit : Db → Txn → (string + unit) * Db;
  txn_rollback : Db → Txn → (string + unit) * Db;
  txn_drop : Db → Txn → Db;
  (** [Graph::execute] and [next] of its rows, outside a transaction *)
  graph_execute : DriverQuery → Db → (string + RowStream) * Db;
  graph_next : RowStream → Db → (string + option DriverRow) * RowStream * Db;
}.
End driver.

(** ** The backend *)

Section neo4j.
Context `{SerdeNumber} `{!JsonText}.
Context {Db Txn : Type} `{!Neo4jDriver Db Txn}.

Definition neo4j_err (err : string) : GrmError := Backend ("Neo4j error: " +:+ err).
Definition neo4j_value_err (err : string) : GrmError :=
  Mapping ("Neo4j value mapping error: " +:+ err).
(** [.map_err(neo4j_value_err)?] *)
Definition got {A} (r : string + A) : result A :=
  match r with inr a => Ok a | inl err => Err (neo4j_value_err err) end.
(** A call of the driver, [.map_err(neo4j_err)?]. *)
Definition driver_call {A} (call : Db → Txn → (string + A) * Db * Txn) : gxm Db Txn A := λ db tx,
  match call db tx with
  | (inr a, db, tx) => (Ok a, db, tx)
  | (inl err, db, tx) => (Err (neo4j_err err), db, tx)
  end.

(** *** Values and parameters *)

Fixpoint json_to_bolt (value : Value) : result BoltType :=
  match value with
  | Bool b => Ok (bolt_bool b)
  | Num n =>
      match number_as_i64 n, number_as_u64 n, number_as_f64 n with
      | Some z, _, _ => Ok (bolt_i64 z)
      | None, Some z, float =>
          if (z <=? i64_max)%Z then Ok (bolt_i64 z)
          else match float with
               | Some x => Ok (bolt_f64 x)
               | None => Err (Mapping ("unsupported Neo4j numeric value: " +:+ number_to_string n))
               end
      | None, None, Some x => Ok (bolt_f64 x)
      | None, None, None =>
          Err (Mapping ("unsupported Neo4j numeric value: " +:+ number_to_string n))
      end
  | Str s => Ok (bolt_string s)
  | Object props =>
      if bool_decide (is_Some (object_get props "$grm_type"))
      then Err (Mapping
        "Neo4j backend does not support portable SOML typed primitive property values yet")
      else bolt_map <$> (fix entries (props : list (string * Value)) :=
             match props with
             | [] => Ok []
             | (key, value) :: props =>
                 b ← json_to_bolt value; bs ← entries props; Ok ((key, b) :: bs)
             end) props
  | Null | Array _ => Err (Mapping ("unsupported Neo4j parameter value: " +:+ json_text value))
  end.
Definition bolt_entry (entry : string * Value) : result (string * BoltType) :=
  b ← json_to_bolt entry.2; Ok (entry.1, b).
Definition props_to_bolt_map (props : Props) : result BoltType :=
  bolt_map <$> mapM bolt_entry (bt_iter props).
(** The loops of [apply_json_params] and [apply_params]. *)
Definition apply_entry (q : DriverQuery) (entry : string * Value) : result DriverQuery :=
  b ← json_to_bolt entry.2; Ok (query_param entry.1 b q).
Definition apply_json_params (q : DriverQuery) (params : Value) : result DriverQuery :=
  match params with
  | Object params => try_fold apply_entry q params
  | _ => Ok q
  end.
Definition apply_params (q : DriverQuery) (params : gmap string Value) : result DriverQuery :=
  try_fold apply_entry q (bt_iter params).

(** *** What a row holds *)

Definition read_prop (get : string → string + Value) (props : Props) (key : string) : result Props :=
  value ← got (get key); Ok (<[key := value]> props).
Definition read_props (get : string → string + Value) (keys : list string) : result Props :=
  try_fold (read_prop get) ∅ keys.
Definition node_props (node : DriverNode) : result Props :=
  read_props (λ key, node_get key node) (node_keys node).
Definition rel_props (rel : DriverRelation) : result Props :=
  read_props (λ key, relation_get key rel) (relation_keys rel).
Definition stored_node (node : DriverNode) : result StoredNode :=
  props ← node_props node;
  Ok {| sn_id := node_id_of node; sn_labels := node_labels_of node; sn_props := props |}.
Definition node_value (node : DriverNode) : result NodeValue :=
  props ← node_props node;
  Ok {| nv_id := node_id_of node; nv_labels := node_labels_of node; nv_props := props |}.
Definition stored_rel (rel : DriverRelation) : result StoredRel :=
  props ← rel_props rel;
  Ok {| sr_id := relation_id rel; sr_rel_type := relation_typ rel;
        sr_from := relation_start_node_id rel; sr_to := relation_end_node_id rel;
        sr_props := props |}.
Definition rel_value (rel : DriverRelation) : result RelValue :=
  props ← rel_props rel;
  Ok {| rv_id := relation_id rel; rv_ty := relation_typ rel;
        rv_from := relation_start_node_id rel; rv_to := relation_end_node_id rel;
        rv_props := props |}.
Definition single_value_row (row : DriverRow) : result QueryRow :=
  match row_get_node "n" row with
  | inr node => n ← node_value node;
                Ok {| row_values := {[ {| var_index := 0 |} := KNode n ]} |}
  | inl _ =>
      match row_get_relation "r" row with
      | inr rel => r ← rel_value rel;
                   Ok {| row_values := {[ {| var_index := 0 |} := KRel r ]} |}
      | inl _ => Ok {| row_values := ∅ |}
      end
  end.

(** The variables of relationships. *)
Definition rel_vars (q : GraphQuery) : gset VarId :=
  list_to_set (omap (λ clause, match clause with
                               | MatchHop hop => Some (hop_rel_var hop)
                               | MatchNode _ => None
                               end) (gq_matches q)).
Definition row_value (q : GraphQuery) (row : DriverRow) (values : gmap VarId KernelValue) (var : VarId)
    : result (gmap VarId KernelValue) :=
  let name := var_name var in
  value ← (if decide (var ∈ rel_vars q)
           then rel ← got (row_get_relation name row); KRel <$> rel_value rel
           else node ← got (row_get_node name row); KNode <$> node_value node);
  Ok (<[var := value]> values).
Definition graph_query_row (q : GraphQuery) (row : DriverRow) : result QueryRow :=
  values ← try_fold (row_value q row) ∅ (bound_vars q);
  _ ← (match gq_ret q with
       | ReturnNode var =>
           match values !! var with
           | Some (KNode _) => Ok tt
           | _ => Err (Mapping ("Neo4j GraphQuery row return var " +:+ debug_var var
                                +:+ " was not a node"))
           end
       | ReturnRel var =>
           match values !! var with
           | Some (KRel _) => Ok tt
           | _ => Err (Mapping ("Neo4j GraphQuery row return var " +:+ debug_var var
                                +:+ " was not a relationship"))
           end
       end);
  Ok {| row_values := values |}.

(** *** Statements *)

(** [rows.next(self.tx.handle()).await.map_err(neo4j_err)?] *)
Definition next_row (rows : RowStream) : gxm Db Txn (option DriverRow * RowStream) := λ db tx,
  match rows_next rows db tx with
  | (inr row, rows, db, tx) => (Ok (row, rows), db, tx)
  | (inl err, _, db, tx) => (Err (neo4j_err err), db, tx)
  end.
(** [while let Some(row) = rows.next(..).await? { out.push(f(row)?) }]: a round takes
    a row off the stream. *)
Fixpoint collect_rounds {A} (f : DriverRow → result A) (fuel : nat) (rows : RowStream)
    : gxm Db Txn (list A) :=
  match fuel with
  | O => mret (M:=gxm Db Txn) []
  | S fuel =>
      next ← next_row rows;
      match next with
      | (None, _) => mret (M:=gxm Db Txn) []
      | (Some row, rows) =>
          a ← gx_lift (f row);
          out ← collect_rounds f fuel rows;
          mret (M:=gxm Db Txn) (a :: out)
      end
  end.
Definition collect_rows {A} (f : DriverRow → result A) (rows : RowStream) : gxm Db Txn (list A) :=
  collect_rounds f (S (length (stream_rows rows))) rows.
Definition optional_row (rows : RowStream) : gxm Db Txn (option DriverRow) :=
  next ← next_row rows; mret (M:=gxm Db Txn) next.1.
Definition one_row (rows : RowStream) : gxm Db Txn DriverRow :=
  row ← optional_row rows;
  gx_lift (ok_or row (Constraint "Neo4j query did not return a row")).
Definition execute (q : DriverQuery) : gxm Db Txn RowStream := driver_call (txn_execute q).

Definition neo4j_execute_query (query_text : string) (params : Value) : gxm Db Txn QueryResult :=
  q ← gx_lift (apply_json_params (new_query query_text) params);
  rows ← execute q;
  result_rows ← collect_rows single_value_row rows;
  mret (M:=gxm Db Txn) {| qr_rows := result_rows |}.
(** A validated query has a root, so its translation does not panic
    ([cypher_never_panics]). *)
Definition neo4j_execute_graph (q : GraphQuery) : gxm Db Txn QueryResult :=
  cypher ← gx_lift (default (Err NotFound) (graph_query_to_cypher q));
  q' ← gx_lift (apply_params (new_query (cq_text cypher)) (cq_params cypher));
  rows ← execute q';
  result_rows ← collect_rows (graph_query_row q) rows;
  mret (M:=gxm Db Txn) {| qr_rows := result_rows |}.

(** The texts; [cypher_name] and [var_name] have the bodies of those of
    [backend/cypher.rs]. *)
Definition create_node_text (labels : list string) : string :=
  "CREATE (n" +:+ String.concat "" (map label_text labels) +:+ ") SET n += $props RETURN n".
Definition update_node_text : string := "MATCH (n) WHERE id(n) = $id SET n += $props RETURN n".
Definition delete_node_text : string := "MATCH (n) WHERE id(n) = $id DETACH DELETE n".
Definition find_node_text : string := "MATCH (n) WHERE id(n) = $id RETURN n".
Definition find_nodes_text (key : string) : string :=
  "MATCH (n) WHERE n." +:+ cypher_name key +:+ " = $value RETURN n".
Definition create_relationship_text (rel_type : string) : string :=
  "MATCH (a), (b) WHERE id(a) = $from AND id(b) = $to CREATE (a)-[r:" +:+ cypher_name rel_type
  +:+ "]->(b) SET r += $props RETURN r".
Definition update_relationship_text : string :=
  "MATCH ()-[r]-() WHERE id(r) = $id SET r += $props RETURN r".
Definition delete_relationship_text : string := "MATCH ()-[r]-() WHERE id(r) = $id DELETE r".
(** The templates of [outgoing], [incoming] and [both], the type put in. *)
Definition type_text (rel_type : option string) : string :=
  match rel_type with Some rel_type => label_text rel_type | None => "" end.
Definition neighbors_text (dir : Direction) (rel_type : option string) : string :=
  match dir with
  | DirOut => "MATCH (a)-[r" +:+ type_text rel_type +:+ "]->(n) WHERE id(a) = $id RETURN r, n"
  | DirIn => "MATCH (n)-[r" +:+ type_text rel_type +:+ "]->(a) WHERE id(a) = $id RETURN r, n"
  | DirBoth => "MATCH (a)-[r" +:+ type_text rel_type +:+ "]-(n) WHERE id(a) = $id RETURN r, n"
  end.

(** *** The transaction *)

Definition row_node (row : DriverRow) : result StoredNode :=
  node ← got (row_get_node "n" row); stored_node node.
Definition row_rel (row : DriverRow) : result StoredRel :=
  rel ← got (row_get_relation "r" row); stored_rel rel.
(** [row.map(..).transpose()] *)
Definition transposed {A} (f : DriverRow → result A) (row : option DriverRow) : result (option A) :=
  match row with Some row => Some <$> f row | None => Ok None end.

Definition neo4j_create_node (labels : list string) (props : Props) : gxm Db Txn StoredNode :=
  b ← gx_lift (props_to_bolt_map props);
  rows ← execute (query_param "props" b (new_query (create_node_text labels)));
  row ← one_row rows;
  gx_lift (row_node row).
Definition neo4j_update_node (id : Z) (props : Props) : gxm Db Txn (option StoredNode) :=
  b ← gx_lift (props_to_bolt_map props);
  rows ← execute (query_param "props" b (query_param "id" (bolt_i64 id)
                    (new_query update_node_text)));
  row ← optional_row rows;
  gx_lift (transposed row_node row).
Definition neo4j_delete_node (id : Z) : gxm Db Txn unit :=
  driver_call (txn_run (query_param "id" (bolt_i64 id) (new_query delete_node_text))).
Definition neo4j_find_node_by_id (id : Z) : gxm Db Txn (option StoredNode) :=
  rows ← execute (query_param "id" (bolt_i64 id) (new_query find_node_text));
  row ← optional_row rows;
  gx_lift (transposed row_node row).
Definition neo4j_find_nodes_by_property (key : string) (value : Value)
    : gxm Db Txn (list StoredNode) :=
  b ← gx_lift (json_to_bolt value);
  rows ← execute (query_param "value" b (new_query (find_nodes_text key)));
  collect_rows row_node rows.
Definition neo4j_create_relationship (from to : Z) (rel_type : string) (props : Props)
    : gxm Db Txn StoredRel :=
  b ← gx_lift (props_to_bolt_map props);
  rows ← execute (query_param "props" b (query_param "to" (bolt_i64 to)
                    (query_param "from" (bolt_i64 from)
                       (new_query (create_relationship_text rel_type)))));
  row ← one_row rows;
  gx_lift (row_rel row).
Definition neo4j_update_relationship (id : Z) (props : Props) : gxm Db Txn (option StoredRel) :=
  b ← gx_lift (props_to_bolt_map props);
  rows ← execute (query_param "props" b (query_param "id" (bolt_i64 id)
                    (new_query update_relationship_text)));
  row ← optional_row rows;
  gx_lift (transposed row_rel row).
Definition neo4j_delete_relationship (id : Z) : gxm Db Txn unit :=
  driver_call (txn_run (query_param "id" (bolt_i64 id) (new_query delete_relationship_text))).
Definition row_pair (row : DriverRow) : result (StoredRel * StoredNode) :=
  rel ← got (row_get_relation "r" row);
  node ← got (row_get_node "n" row);
  r ← stored_rel rel; n ← stored_node node;
  Ok (r, n).
Definition neighbor_pairs (dir : Direction) (id : Z) (rel_type : option string)
    : gxm Db Txn (list (StoredRel * StoredNode)) :=
  rows ← execute (query_param "id" (bolt_i64 id) (new_query (neighbors_text dir rel_type)));
  collect_rows row_pair rows.
(** [commit] and [rollback] of the driver, their error mapped. *)
Definition ended (r : (string + unit) * Db) : result unit * Db :=
  match r with (inr _, db) => (Ok tt, db) | (inl err, db) => (Err (neo4j_err err), db) end.

#[export] Instance neo4j_tx : GraphTx Db Txn := {|
  gx_execute_query := neo4j_execute_query;
  gx_execute_graph := neo4j_execute_graph;
  gx_create_node := neo4j_create_node;
  gx_create_nodes := default_create_nodes neo4j_create_node;
  gx_update_node := neo4j_update_node;
  gx_delete_node := neo4j_delete_node;
  gx_find_node_by_id := neo4j_find_node_by_id;
  gx_find_nodes_by_property := neo4j_find_nodes_by_property;
  gx_create_relationship := neo4j_create_relationship;
  gx_update_relationship := neo4j_update_relationship;
  gx_delete_relationship := neo4j_delete_relationship;
  gx_outgoing from rel_type := neighbor_pairs DirOut from rel_type;
  gx_incoming to rel_type := neighbor_pairs DirIn to rel_type;
  gx_both node rel_type := neighbor_pairs DirBoth node rel_type;
  gx_commit db tx := ended (txn_commit db tx);
  gx_rollback db tx := ended (txn_rollback db tx);
  gx_drop := txn_drop;
|}.

(** *** The backend *)

Definition neo4j_begin_tx (db : Db) : result Txn * Db :=
  match start_txn db with
  | (inr tx, db) => (Ok tx, db)
  | (inl err, db) => (Err (neo4j_err err), db)
  end.
(** Runs in a transaction of its own, which a failure drops. *)
Definition in_neo4j_tx {A} (body : gxm Db Txn A) (db : Db) : result A * Db :=
  match neo4j_begin_tx db with
  | (Ok tx, db) =>
      match body db tx with
      | (Ok a, db, tx) =>
          match gx_commit db tx with
          | (Ok _, db) => (Ok a, db)
          | (Err e, db) => (Err e, db)
          end
      | (Err e, db, tx) => (Err e, gx_drop db tx)
      end
  | (Err e, db) => (Err e, db)
  end.
#[export] Instance neo4j_backend : GraphBackend Db Txn := {|
  begin_tx := neo4j_begin_tx;
  gb_execute_query text params := in_neo4j_tx (neo4j_execute_query text params);
  gb_execute_graph := default_execute_graph neo4j_begin_tx;
|}.

(** [count_nodes_with_label] and [count_relationships_with_type] *)
Definition count_rows (q : DriverQuery) (no_row : string) (db : Db) : result N * Db :=
  match graph_execute q db with
  | (inl err, db) => (Err (neo4j_err err), db)
  | (inr rows, db) =>
      match graph_next rows db with
      | (inl err, _, db) => (Err (neo4j_err err), db)
      | (inr row, _, db) =>
          (row ← ok_or row (Constraint no_row);
           count ← got (row_get_i64 "count" row);
           Ok (Z.to_N (Z.max count 0)), db)
      end
  end.
Definition count_nodes_with_label (label : string) : Db → result N * Db :=
  count_rows (new_query ("MATCH (n:" +:+ cypher_name label +:+ ") RETURN count(n) AS count"))
    "Neo4j node count query returned no row".
Definition count_relationships_with_type (rel_type : string) : Db → result N * Db :=
  count_rows (new_query ("MATCH ()-[r:" +:+ cypher_name rel_type
                         +:+ "]->() RETURN count(r) AS count"))
    "Neo4j relationship count query returned no row".
End neo4j.
