(* ===== verification/Database.v ===== *)
(** * What a database promises a transaction

    [DatabaseLaws] is the contract of a backend over a database server, where any
    call may fail: an operation that succeeds has the effect it means on the graph its
    transaction sees, no operation touches the committed graph, and a commit publishes
    what the transaction saw or nothing.  The Neo4j backend satisfies it ([Neo4jServer]);
    the runtime of Neo4j sessions ([Neo4jRuntime]) is proved against it. *)

From S2P Require Export Neo4j.

Local Open Scope string_scope.

Section database.
Context `{SerdeNumber}.

(** ** Graphs by their contents *)

#[global] Instance agraph_equiv : Equiv AGraph := λ g h,
  ag_nodes g = ag_nodes h ∧ ag_rels g = ag_rels h.
#[global] Instance agraph_equivalence : Equivalence (≡@{AGraph}).
Proof. split; [done|by intros ?? [? ?]|intros ??? [Hn Hr] [Hn' Hr']; split; congruence]. Qed.
#[global] Instance ag_nodes_proper : Proper ((≡) ==> (=)) ag_nodes.
Proof. by intros ?? []. Qed.
#[global] Instance ag_rels_proper : Proper ((≡) ==> (=)) ag_rels.
Proof. by intros ?? []. Qed.
#[global] Instance agraph_rewrite : RewriteRelation (≡@{AGraph}) := {}.

Implicit Types g h : AGraph.

(** A relationship as the rows of a query show it, and back. *)
Definition kernel_rel (rel : StoredRel) : KernelValue :=
  KRel {| rv_id := sr_id rel; rv_ty := sr_rel_type rel; rv_from := sr_from rel;
          rv_to := sr_to rel; rv_props := sr_props rel |}.

(** The values a database keeps as they are: texts, truth values, the integers and
    the floats of JSON. *)
Inductive portable : Value → Prop :=
  | portable_str s : portable (Str s)
  | portable_bool b : portable (Bool b)
  | portable_int z : in_i64 z = true → portable (value_from_i64 z)
  | portable_float x n :
      number_from_f64 x = Some n → number_is_f64 n = true → number_as_f64 n = Some x →
      number_as_i64 n = None → number_as_u64 n = None → portable (Num n).
Definition props_portable (props : Props) : Prop := ∀ k v, props !! k = Some v → portable v.

(** The operations the contract speaks of: one label, portable properties. *)
Definition op_storable (op : TxOp) : Prop :=
  match op with
  | CreateNode labels props => (∃ label, labels = [label]) ∧ props_portable props
  | CreateRelationship _ _ _ props | UpdateNode _ props | UpdateRelationship _ props =>
      props_portable props
  | DeleteNode _ | FindNode _ | DeleteRelationship _ => True
  end.

Definition with_nodes (nodes : gmap Z StoredNode) g : AGraph :=
  {| ag_nodes := nodes; ag_rels := ag_rels g; ag_next_node := ag_next_node g;
     ag_next_rel := ag_next_rel g |}.
Definition with_rels (rels : gmap Z StoredRel) g : AGraph :=
  {| ag_nodes := ag_nodes g; ag_rels := rels; ag_next_node := ag_next_node g;
     ag_next_rel := ag_next_rel g |}.

(** What an operation that succeeds does: a creation takes an identifier of the
    database's choice, and a relationship needs its ends. *)
Definition op_effect (op : TxOp) (answer : TxResult) g h : Prop :=
  match op with
  | CreateNode labels props =>
      ∃ id, let node := {| sn_id := id; sn_labels := labels; sn_props := props |} in
        ag_nodes g !! id = None ∧ answer = RNode node ∧
        h ≡ with_nodes (<[id := node]> (ag_nodes g)) g
  | CreateRelationship from to rel_type props =>
      ∃ id, let rel := {| sr_id := id; sr_rel_type := rel_type; sr_from := from; sr_to := to;
                          sr_props := props |} in
        ag_rels g !! id = None ∧ answer = RRel rel ∧
        is_Some (ag_nodes g !! from) ∧ is_Some (ag_nodes g !! to) ∧
        h ≡ with_rels (<[id := rel]> (ag_rels g)) g
  | _ => answer = (spec_step op g).1 ∧ h ≡ (spec_step op g).2
  end.
#[global] Instance op_effect_proper op answer :
  Proper ((≡) ==> (≡) ==> iff) (op_effect op answer).
Proof.
  intros g g' [Hn Hr] h h' Hh. unfold op_effect.
  destruct op; cbn; unfold with_nodes, with_rels; rewrite <-?Hn, <-?Hr;
    repeat case_match; cbn; unfold equiv, agraph_equiv in *; cbn; rewrite <-?Hn, <-?Hr;
    destruct Hh as [<- <-]; done.
Qed.
Inductive effects : list TxOp → list TxResult → AGraph → AGraph → Prop :=
  | no_effects g h : g ≡ h → effects [] [] g h
  | more_effects op ops answer answers g h k :
      op_effect op answer g h → effects ops answers h k →
      effects (op :: ops) (answer :: answers) g k.

Lemma effects_before ops answers g g' h :
  effects ops answers g h → g ≡ g' → effects ops answers g' h.
Proof.
  intros Heff Hg. destruct Heff as [g h Hgh|op ops a answers g h k Hop Heff].
  - constructor. by rewrite <-Hg.
  - econstructor; [|done]. by rewrite <-Hg.
Qed.
Lemma effects_after ops answers g h h' :
  effects ops answers g h → h ≡ h' → effects ops answers g h'.
Proof.
  induction 1 as [g h Hgh|op ops a answers g h k Hop Heff IH]; intros Hh.
  - constructor. by rewrite Hgh.
  - econstructor; [done|]. by apply IH.
Qed.

(** The statement that looks an edge up ([find_edge] of
    [src/src/runtime/neo4j.rs]), and the rows it answers. *)
Definition edge_lookup_text (rel_type : string) : string :=
  "MATCH ()-[r:" +:+ cypher_name rel_type +:+ "]->() WHERE id(r) = $grm_id RETURN r".
Definition edge_lookup_params (id : Z) : Value := Object [("grm_id", value_from_i64 id)].
Definition edge_of (g : AGraph) (id : Z) (rel_type : string) : option StoredRel :=
  rel ← ag_rels g !! id; if String.eqb (sr_rel_type rel) rel_type then Some rel else None.
Definition edge_rows (rel : option StoredRel) : list QueryRow :=
  match rel with
  | Some rel => [{| row_values := {[ {| var_index := 0 |} := kernel_rel rel ]} |}]
  | None => []
  end.

Class DatabaseLaws (Db Tx : Type) `{!GraphTx Db Tx} `{!GraphBackend Db Tx} := {
  server_ok : Db → Prop;
  tx_open : Db → Tx → Prop;
  (** The committed graph, and the graph a transaction sees. *)
  committed : Db → AGraph;
  visible : Db → Tx → AGraph;
  begin_promise db r db' :
    server_ok db → begin_tx db = (r, db') →
    server_ok db' ∧ committed db' ≡ committed db ∧
    ∀ tx, r = Ok tx → tx_open db' tx ∧ visible db' tx ≡ committed db';
  step_promise op db tx r db' tx' :
    tx_open db tx → op_storable op → gx_step op db tx = (r, db', tx') →
    tx_open db' tx' ∧ committed db' ≡ committed db ∧
    ∀ answer, r = Ok answer → op_effect op answer (visible db tx) (visible db' tx');
  lookup_promise id rel_type db tx r db' tx' :
    tx_open db tx → in_i64 id = true →
    gx_execute_query (edge_lookup_text rel_type) (edge_lookup_params id) db tx = (r, db', tx') →
    tx_open db' tx' ∧ committed db' ≡ committed db ∧
    ∀ answer, r = Ok answer →
      visible db' tx' ≡ visible db tx ∧
      qr_rows answer = edge_rows (edge_of (visible db tx) id rel_type);
  commit_promise db tx r db' :
    tx_open db tx → gx_commit db tx = (r, db') →
    server_ok db' ∧
    match r with
    | Ok _ => committed db' ≡ visible db tx
    | Err _ => committed db' ≡ committed db ∨ committed db' ≡ visible db tx
    end;
  rollback_promise db tx r db' :
    tx_open db tx → gx_rollback db tx = (r, db') →
    server_ok db' ∧ committed db' ≡ committed db;
  drop_promise db tx :
    tx_open db tx → server_ok (gx_drop db tx) ∧ committed (gx_drop db tx) ≡ committed db;
}.
End database.

(** ** Steps that keep the committed graph

    A step of a transaction leaves it open and the committed graph as it was, and
    what it answers is so of the graph seen before and after. *)

Section keeps.
Context `{SerdeNumber} {Db Tx : Type}.
Context (opened : Db → Tx → Prop) (common : Db → AGraph) (view : Db → Tx → AGraph).

Definition keeps {A} (m : gxm Db Tx A) db tx (Q : A → AGraph → Prop) : Prop :=
  match m db tx with
  | (r, db', tx') =>
      opened db' tx' ∧ common db' ≡ common db ∧ ∀ a, r = Ok a → Q a (view db' tx')
  end.

Lemma kept_lift {A} (r : result A) db tx (Q : A → AGraph → Prop) :
  opened db tx → (∀ a, r = Ok a → Q a (view db tx)) → keeps (gx_lift r) db tx Q.
Proof. by intros Ho HQ. Qed.
Lemma kept_ret {A} (a : A) db tx (Q : A → AGraph → Prop) :
  opened db tx → Q a (view db tx) → keeps (mret (M:=gxm Db Tx) a) db tx Q.
Proof. intros Ho HQ. split_and!; [done|done|]. by intros ? [= <-]. Qed.
Lemma kept_bind {A B} (m : gxm Db Tx A) (f : A → gxm Db Tx B) db tx Q R :
  keeps m db tx Q →
  (∀ a db' tx', opened db' tx' → Q a (view db' tx') → keeps (f a) db' tx' R) →
  keeps (mbind (M:=gxm Db Tx) f m) db tx R.
Proof.
  unfold keeps, mbind, gxm_bind. destruct (m db tx) as [[r db'] tx'].
  intros (Ho & Hc & HQ) Hf. destruct r as [a|e]; [|by split_and!].
  specialize (Hf a db' tx' Ho (HQ a eq_refl)). destruct (f a db' tx') as [[r db''] tx''].
  destruct Hf as (? & Hc' & ?). split_and!; [done|by rewrite Hc'|done].
Qed.
Lemma kept_ok {A B} (a : A) (f : A → gxm Db Tx B) db tx R :
  keeps (f a) db tx R → keeps (mbind (M:=gxm Db Tx) f (gx_lift (Ok a))) db tx R.
Proof. done. Qed.
Lemma kept_weaken {A} (m : gxm Db Tx A) db tx (Q R : A → AGraph → Prop) :
  keeps m db tx Q → (∀ a h, Q a h → R a h) → keeps m db tx R.
Proof.
  unfold keeps. destruct (m db tx) as [[r db'] tx']. intros (? & ? & HQ) HR.
  split_and!; [done|done|]. intros a Ha. by apply HR, HQ.
Qed.
Lemma kept_map {A B} (f : A → B) (m : gxm Db Tx A) db tx Q :
  keeps m db tx (λ a, Q (f a)) →
  keeps (λ db tx, let '(r, db, tx) := m db tx in (map_result f r, db, tx)) db tx Q.
Proof.
  unfold keeps. destruct (m db tx) as [[r db'] tx']. intros (? & ? & HQ).
  split_and!; [done|done|]. intros b Hb. destruct r as [a|]; [|done].
  injection Hb as <-. by apply HQ.
Qed.
End keeps.

(** *** Runs of operations *)

Section runs.
Context `{SerdeNumber} {Db Tx : Type} `{!GraphTx Db Tx} `{!GraphBackend Db Tx}.
Context `{!DatabaseLaws Db Tx}.

Abbreviation dkeeps := (keeps tx_open committed visible).

Lemma step_keeps op db tx :
  tx_open db tx → op_storable op →
  dkeeps (gx_step op) db tx (λ answer h, op_effect op answer (visible db tx) h).
Proof.
  intros Ho Hs. unfold keeps. destruct (gx_step op db tx) as [[r db'] tx'] eqn:Hstep.
  by apply (step_promise op).
Qed.
Fixpoint gx_run (ops : list TxOp) : gxm Db Tx (list TxResult) :=
  match ops with
  | [] => mret (M:=gxm Db Tx) []
  | op :: ops => answer ← gx_step op; answers ← gx_run ops; mret (M:=gxm Db Tx) (answer :: answers)
  end.
Lemma run_ops_keeps ops db tx :
  tx_open db tx → Forall op_storable ops →
  dkeeps (gx_run ops) db tx (λ answers h, effects ops answers (visible db tx) h).
Proof.
  intros Ho Hs. revert db tx Ho. induction Hs as [|op ops Hop Hs IH]; intros db tx Ho; cbn [gx_run].
  - apply kept_ret; [done|]. by constructor.
  - eapply kept_bind; [by apply step_keeps|]. intros answer db1 tx1 Ho1 Heff.
    eapply kept_bind; [by apply IH|]. intros answers db2 tx2 Ho2 Heffs.
    apply kept_ret; [done|]. econstructor; [exact Heff|exact Heffs].
Qed.
End runs.
