(* ===== verification/Neo4jServer.v ===== *)
(** * Neo4j keeps the contract of a database

    The statements [Neo4jTx] runs ([src/src/backend/neo4j.rs]) are texts; a reader of
    the statements says which text is which, and [Neo4jServerLaws] what a server does
    with each.  The texts of the code are read as the statements they should be,
    whatever names they hold, so that the backend satisfies [DatabaseLaws]. *)

From S2P Require Export Database.

Local Open Scope string_scope.

(** ** Statements *)

Inductive Statement :=
  | SCreateNode (labels : list string)
  | SUpdateNode
  | SDeleteNode
  | SFindNode
  | SCreateRel (rel_type : string)
  | SUpdateRel
  | SDeleteRel
  | SFindRel (rel_type : string).

Definition r_fixed (text : string) (st : Statement) : reader Statement :=
  r_bind (r_token text) (λ _, r_ret st).
Definition statement_readers : list (reader Statement) :=
  [ r_bind (r_token "CREATE (n") (λ _, r_bind (r_many r_label) (λ labels,
      r_fixed ") SET n += $props RETURN n" (SCreateNode labels)));
    r_fixed "MATCH (n) WHERE id(n) = $id SET n += $props RETURN n" SUpdateNode;
    r_fixed "MATCH (n) WHERE id(n) = $id DETACH DELETE n" SDeleteNode;
    r_fixed "MATCH (n) WHERE id(n) = $id RETURN n" SFindNode;
    r_bind (r_token "MATCH (a), (b) WHERE id(a) = $from AND id(b) = $to CREATE (a)-[r") (λ _,
      r_bind r_label (λ rel_type,
      r_fixed "]->(b) SET r += $props RETURN r" (SCreateRel rel_type)));
    r_fixed "MATCH ()-[r]-() WHERE id(r) = $id SET r += $props RETURN r" SUpdateRel;
    r_fixed "MATCH ()-[r]-() WHERE id(r) = $id DELETE r" SDeleteRel;
    r_bind (r_token "MATCH ()-[r") (λ _, r_bind r_label (λ rel_type,
      r_fixed "]->() WHERE id(r) = $grm_id RETURN r" (SFindRel rel_type))) ].
(** A statement is read to its end. *)
Definition r_whole {A} (m : reader A) (s : string) : option A :=
  match m s with Some (a, EmptyString) => Some a | _ => None end.
Fixpoint first_whole {A} (readers : list (reader A)) (s : string) : option A :=
  match readers with
  | [] => None
  | m :: readers => match r_whole m s with Some a => Some a | None => first_whole readers s end
  end.
Definition read_statement : string → option Statement := first_whole statement_readers.

(** *** The texts of the code are the statements *)

Lemma r_whole_takes {A} ok (m : reader A) text a :
  takes ok m text a → ok "" → r_whole m text = Some a.
Proof. intros Hm Hok. unfold r_whole. rewrite <-(append_nil_r text). by rewrite Hm. Qed.
Lemma takes_fixed text st : takes anything (r_fixed text st) text st.
Proof. eapply (takes_then _ _ _ (λ _, st)); [apply takes_token|done]. Qed.
Lemma takes_labels labels :
  takes (λ rest, ∃ s, rest = ")" +:+ s) (r_many r_label)
    (String.concat "" (map label_text labels)) labels.
Proof.
  eapply takes_weaken; [apply (takes_many after_name)|].
  - apply Forall2_fmap_l, Forall_Forall2_diag, Forall_true. intros label.
    split; [apply takes_label|done].
  - intros rest (s & ->). done.
Qed.
Lemma reads_create_node labels :
  read_statement (create_node_text labels) = Some (SCreateNode labels).
Proof.
  unfold read_statement, statement_readers. cbn [first_whole].
  erewrite (r_whole_takes anything); [done| |done].
  apply takes_after. eapply takes_bind; [apply takes_labels|apply takes_fixed|].
  intros rest _. by eexists.
Qed.
Lemma reads_label_statement prefix suffix (st : string → Statement) rel_type :
  (∀ rest, after_name (suffix +:+ rest)) →
  r_whole (r_bind (r_token prefix) (λ _, r_bind r_label (λ rel_type, r_fixed suffix (st rel_type))))
    (prefix +:+ label_text rel_type +:+ suffix) = Some (st rel_type).
Proof.
  intros Hs. apply (r_whole_takes anything); [|done].
  apply takes_after. eapply takes_bind; [apply takes_label|apply takes_fixed|].
  intros rest _. apply Hs.
Qed.
Lemma reads_create_relationship rel_type :
  read_statement (create_relationship_text rel_type) = Some (SCreateRel rel_type).
Proof.
  pose proof (reads_label_statement
    "MATCH (a), (b) WHERE id(a) = $from AND id(b) = $to CREATE (a)-[r"
    "]->(b) SET r += $props RETURN r" SCreateRel rel_type (λ _, eq_refl)) as Hr.
  unfold read_statement, statement_readers. cbn [first_whole].
  unfold create_relationship_text. unfold label_text in Hr. cbn [String.append] in *.
  rewrite Hr. done.
Qed.
Lemma reads_edge_lookup rel_type :
  read_statement (edge_lookup_text rel_type) = Some (SFindRel rel_type).
Proof.
  pose proof (reads_label_statement "MATCH ()-[r" "]->() WHERE id(r) = $grm_id RETURN r" SFindRel
    rel_type (λ _, eq_refl)) as Hr.
  unfold read_statement, statement_readers. cbn [first_whole].
  unfold edge_lookup_text. unfold label_text in Hr. cbn [String.append] in *.
  rewrite Hr. done.
Qed.

(** ** The rows of a graph query *)

Section graph_rows.
Context `{SerdeNumber} `{!JsonText}.
Context {Db Txn : Type} `{!Neo4jDriver Db Txn}.

Lemma cypher_never_panics q : graph_query_to_cypher q ≠ None.
Proof.
  unfold graph_query_to_cypher. destruct (validate q) as [[]|e] eqn:Hv; [|done].
  destruct (build_match_pattern _ _); [|done]. unfold validate in Hv. unfold root_var.
  destruct (gq_matches q) as [|[n|h] l]; try done. cbn. by destruct (build_predicates _ _ _ _).
Qed.

Definition is_rel_value (v : KernelValue) : bool := match v with KRel _ => true | _ => false end.
Definition is_node_value (v : KernelValue) : bool := match v with KNode _ => true | _ => false end.
(** A value of the kind its variable has. *)
Definition right_kind (q : GraphQuery) (var : VarId) (v : KernelValue) : Prop :=
  if decide (var ∈ rel_vars q) then is_rel_value v = true else is_node_value v = true.

Lemma row_value_kind q row values var values' :
  row_value q row values var = Ok values' → ∃ v, values' = <[var := v]> values ∧ right_kind q var v.
Proof.
  unfold row_value, right_kind. intros (v & Hv & [= <-])%bind_Ok. exists v. split; [done|].
  case_decide; by apply bind_Ok in Hv as (x & _ & (y & _ & <-)%fmap_Ok).
Qed.
Lemma row_values_kind q row vars values out :
  try_fold (row_value q row) values vars = Ok out →
  dom out = list_to_set vars ∪ dom values ∧
  ∀ var v, out !! var = Some v → var ∈ vars ∧ right_kind q var v ∨ values !! var = Some v.
Proof.
  revert values. induction vars as [|var vars IH]; intros values; cbn.
  { intros [= <-]. split; [set_solver|]. by right. }
  destruct (row_value q row values var) as [values'|] eqn:Hv; [|done]. intros Hout.
  apply row_value_kind in Hv as (v & -> & Hkind). apply IH in Hout as [Hdom Hval]. split.
  - rewrite Hdom, dom_insert_L. set_solver.
  - intros var' v' [[Hin Hk]|Hl]%Hval; [left; split; [by right|done]|].
    apply lookup_insert_Some in Hl as [[-> ->]|[_ Hl]]; [left; split; [by left|done]|by right].
Qed.
(** The row contract of [GraphTx::execute_graph]: a row holds exactly the bound
    variables, each a value of its kind, and the returned value is of the kind the
    query returns. *)
Lemma graph_query_row_contract q row r :
  graph_query_row q row = Ok r →
  dom (row_values r) = list_to_set (bound_vars q) ∧
  (∀ var v, row_values r !! var = Some v → right_kind q var v) ∧
  ∃ v, get_returned r q = Some v ∧
       if return_is_rel q then is_rel_value v = true else is_node_value v = true.
Proof.
  unfold graph_query_row. intros (values & Hvalues & (u & Hret & [= <-])%bind_Ok)%bind_Ok.
  apply row_values_kind in Hvalues as [Hdom Hkind]. cbn. split_and!.
  - rewrite Hdom, dom_empty_L. set_solver.
  - intros var v [[_ Hk]|Hl]%Hkind; [done|by rewrite lookup_empty in Hl].
  - unfold get_returned, return_var, return_is_rel. cbn.
    destruct (gq_ret q) as [var|var]; destruct (values !! var) as [[n|rel|s]|]; try done;
      by eexists.
Qed.
End graph_rows.

(** ** What a server does *)

Section server.
Context `{SerdeNumber} `{!NumberLaws} `{!JsonText}.
Context {Db Txn : Type} `{!Neo4jDriver Db Txn}.
Implicit Types g h : AGraph.

(** What the driver's values show of a node, a relationship. *)
Definition keys_show (get : string → string + Value) (keys : list string) (props : Props) : Prop :=
  (∀ k, k ∈ keys ↔ is_Some (props !! k)) ∧ ∀ k v, props !! k = Some v → get k = inr v.
Definition row_shows_node (row : DriverRow) (node : StoredNode) : Prop :=
  ∃ n, row_get_node "n" row = inr n ∧ node_id_of n = sn_id node ∧
       node_labels_of n = sn_labels node ∧
       keys_show (λ k, node_get k n) (node_keys n) (sn_props node).
Definition row_shows_rel (row : DriverRow) (rel : StoredRel) : Prop :=
  (∃ err, row_get_node "n" row = inl err) ∧
  ∃ r, row_get_relation "r" row = inr r ∧ relation_id r = sr_id rel ∧
       relation_typ r = sr_rel_type rel ∧ relation_start_node_id r = sr_from rel ∧
       relation_end_node_id r = sr_to rel ∧
       keys_show (λ k, relation_get k r) (relation_keys r) (sr_props rel).

(** What Cypher says each statement does; [json] is the JSON value that [get] answers
    for a value that was stored. *)
Definition bolt_props (json : BoltType → Value) (l : list (string * BoltType)) : Props :=
  list_to_map (map (λ e, (e.1, json e.2)) l).
Definition statement_effect (json : BoltType → Value) (st : Statement)
    (params : gmap string BoltType) g h (rows : list DriverRow) : Prop :=
  match st with
  | SCreateNode labels => ∀ l,
      params !! "props" = Some (bolt_map l) →
      ∃ id labels' row,
        let node := {| sn_id := id; sn_labels := labels'; sn_props := bolt_props json l |} in
        labels' ≡ₚ labels ∧ ag_nodes g !! id = None ∧
        h ≡ with_nodes (<[id := node]> (ag_nodes g)) g ∧ rows = [row] ∧ row_shows_node row node
  | SUpdateNode => ∀ id l,
      params !! "id" = Some (bolt_i64 id) → params !! "props" = Some (bolt_map l) →
      h ≡ (spec_step (UpdateNode id (bolt_props json l)) g).2 ∧
      match ag_nodes h !! id with
      | Some node => ∃ row, rows = [row] ∧ row_shows_node row node
      | None => rows = []
      end
  | SDeleteNode => ∀ id,
      params !! "id" = Some (bolt_i64 id) → h ≡ (spec_step (DeleteNode id) g).2
  | SFindNode => ∀ id,
      params !! "id" = Some (bolt_i64 id) →
      h ≡ g ∧ match ag_nodes g !! id with
              | Some node => ∃ row, rows = [row] ∧ row_shows_node row node
              | None => rows = []
              end
  | SCreateRel rel_type => ∀ from to l,
      params !! "from" = Some (bolt_i64 from) → params !! "to" = Some (bolt_i64 to) →
      params !! "props" = Some (bolt_map l) →
      match ag_nodes g !! from, ag_nodes g !! to with
      | Some _, Some _ =>
          ∃ id row, let rel := {| sr_id := id; sr_rel_type := rel_type; sr_from := from;
                                  sr_to := to; sr_props := bolt_props json l |} in
            ag_rels g !! id = None ∧ h ≡ with_rels (<[id := rel]> (ag_rels g)) g ∧
            rows = [row] ∧ row_shows_rel row rel
      | _, _ => h ≡ g ∧ rows = []
      end
  | SUpdateRel => ∀ id l,
      params !! "id" = Some (bolt_i64 id) → params !! "props" = Some (bolt_map l) →
      h ≡ (spec_step (UpdateRelationship id (bolt_props json l)) g).2 ∧
      match ag_rels h !! id with
      | Some rel => ∃ row more, rows = row :: more ∧ row_shows_rel row rel
      | None => rows = []
      end
  | SDeleteRel => ∀ id,
      params !! "id" = Some (bolt_i64 id) → h ≡ (spec_step (DeleteRelationship id) g).2
  | SFindRel rel_type => ∀ id,
      params !! "grm_id" = Some (bolt_i64 id) →
      h ≡ g ∧ match edge_of g id rel_type with
              | Some rel => ∃ row, rows = [row] ∧ row_shows_rel row rel
              | None => rows = []
              end
  end.

Class Neo4jServerLaws := {
  (** A query is its text and its parameters. *)
  query_text : DriverQuery → string;
  query_params : DriverQuery → gmap string BoltType;
  new_query_text text : query_text (new_query text) = text;
  new_query_params text : query_params (new_query text) = ∅;
  query_param_text key b q : query_text (query_param key b q) = query_text q;
  query_param_params key b q :
    query_params (query_param key b q) = <[key := b]> (query_params q);
  (** What is stored is read back. *)
  json_of_bolt : BoltType → Value;
  json_of_bool b : json_of_bolt (bolt_bool b) = Bool b;
  json_of_i64 z : in_i64 z = true → json_of_bolt (bolt_i64 z) = value_from_i64 z;
  json_of_f64 x n : number_from_f64 x = Some n → json_of_bolt (bolt_f64 x) = Num n;
  json_of_string s : json_of_bolt (bolt_string s) = Str s;
  (** The server, and what a transaction sees of it. *)
  sv_ok : Db → Prop;
  sv_open : Db → Txn → Prop;
  sv_committed : Db → AGraph;
  sv_visible : Db → Txn → AGraph;
  start_law db r db' :
    sv_ok db → start_txn db = (r, db') →
    sv_ok db' ∧ sv_committed db' ≡ sv_committed db ∧
    ∀ tx, r = inr tx → sv_open db' tx ∧ sv_visible db' tx ≡ sv_committed db';
  execute_law q db tx r db' tx' :
    sv_open db tx → txn_execute q db tx = (r, db', tx') →
    sv_open db' tx' ∧ sv_committed db' ≡ sv_committed db ∧
    ∀ rows st, r = inr rows → read_statement (query_text q) = Some st →
      statement_effect json_of_bolt st (query_params q) (sv_visible db tx) (sv_visible db' tx')
        (stream_rows rows);
  run_law q db tx r db' tx' :
    sv_open db tx → txn_run q db tx = (r, db', tx') →
    sv_open db' tx' ∧ sv_committed db' ≡ sv_committed db ∧
    ∀ st, r = inr tt → read_statement (query_text q) = Some st →
      ∃ rows, statement_effect json_of_bolt st (query_params q) (sv_visible db tx)
                (sv_visible db' tx') rows;
  next_law rows db tx r rows' db' tx' :
    sv_open db tx → rows_next rows db tx = (r, rows', db', tx') →
    sv_open db' tx' ∧ sv_committed db' ≡ sv_committed db ∧
    sv_visible db' tx' ≡ sv_visible db tx ∧
    match r with
    | inr (Some row) => stream_rows rows = row :: stream_rows rows'
    | inr None => stream_rows rows = []
    | inl _ => True
    end;
  server_commit_law db tx r db' :
    sv_open db tx → txn_commit db tx = (r, db') →
    sv_ok db' ∧
    match r with
    | inr _ => sv_committed db' ≡ sv_visible db tx
    | inl _ => sv_committed db' ≡ sv_committed db ∨ sv_committed db' ≡ sv_visible db tx
    end;
  server_rollback_law db tx r db' :
    sv_open db tx → txn_rollback db tx = (r, db') →
    sv_ok db' ∧ sv_committed db' ≡ sv_committed db;
  server_drop_law db tx :
    sv_open db tx → sv_ok (txn_drop db tx) ∧ sv_committed (txn_drop db tx) ≡ sv_committed db;
}.
End server.

(** ** The backend keeps the contract *)

Section contract.
Context `{SerdeNumber} `{!NumberLaws} `{!JsonText}.
Context {Db Txn : Type} `{!Neo4jDriver Db Txn} `{!Neo4jServerLaws}.
Implicit Types g h : AGraph.

Abbreviation skeeps := (keeps sv_open sv_committed sv_visible).

(** *** Values *)

Lemma json_to_bolt_portable v :
  portable v → ∃ b, json_to_bolt v = Ok b ∧ json_of_bolt b = v.
Proof.
  intros [s|b|z Hz|x n Hn Hf Hx Hi Hu]; cbn.
  - eexists; split; [done|apply json_of_string].
  - eexists; split; [done|apply json_of_bool].
  - rewrite number_from_i64_as by done. eexists; split; [done|by apply json_of_i64].
  - rewrite Hi, Hu, Hx. eexists; split; [done|by apply json_of_f64].
Qed.
Lemma entries_bolt l :
  (∀ e, e ∈ l → portable e.2) →
  ∃ bs, mapM bolt_entry l = Ok bs ∧ map (λ e, (e.1, json_of_bolt e.2)) bs = l.
Proof.
  induction l as [|[k v] l IH]; intros Hl; [by exists []|].
  destruct IH as (bs & Hbs & Heq); [intros e ?; apply Hl; by right|].
  destruct (json_to_bolt_portable v) as (b & Hb & Hv); [apply (Hl (k, v)); by left|].
  exists ((k, b) :: bs). rewrite mapM_cons, Hbs. unfold bolt_entry; cbn. rewrite Hb. cbn.
  by rewrite Hv, Heq.
Qed.
Lemma props_bolt props :
  props_portable props →
  ∃ l, props_to_bolt_map props = Ok (bolt_map l) ∧ bolt_props json_of_bolt l = props.
Proof.
  intros Hp. destruct (entries_bolt (bt_iter props)) as (l & Hl & Heq).
  { intros [k v] He%elem_of_bt_iter. by eapply Hp. }
  exists l. unfold props_to_bolt_map, bolt_props. rewrite Hl, Heq. split; [done|].
  apply list_to_map_bt_iter.
Qed.

(** *** Rows *)

Lemma read_props_shows get keys props :
  keys_show get keys props → read_props get keys = Ok props.
Proof.
  intros [Hkeys Hget]. unfold read_props.
  assert (∀ l acc, (∀ k, k ∈ l → is_Some (props !! k)) →
    ∃ out, try_fold (read_prop get) acc l = Ok out ∧
           ∀ k, out !! k = if decide (k ∈ l) then props !! k else acc !! k) as Hfold.
  { induction l as [|k l IH]; intros acc Hl.
    { exists acc. split; [done|]. intros k. by rewrite decide_False by apply not_elem_of_nil. }
    destruct (Hl k) as [v Hv]; [by left|].
    destruct (IH (<[k := v]> acc)) as (out & Hout & Hlook); [intros ??; apply Hl; by right|].
    exists out. split; [by unfold read_prop; cbn; rewrite (Hget k v Hv)|].
    intros k'. rewrite Hlook. destruct (decide (k' ∈ l)) as [Hin|Hin].
    - by rewrite decide_True by by right.
    - destruct (decide (k' = k)) as [->|Hne].
      + by rewrite lookup_insert_eq, Hv, decide_True by by left.
      + rewrite lookup_insert_ne by done. rewrite decide_False; [done|].
        by intros [?|?]%elem_of_cons. }
  destruct (Hfold keys ∅) as (out & -> & Hout); [intros k; apply Hkeys|].
  f_equal. apply map_eq. intros k. rewrite Hout. case_decide as Hk; [done|].
  rewrite lookup_empty. destruct (props !! k) eqn:Hv; [|done].
  exfalso. apply Hk, Hkeys. by eexists.
Qed.
Lemma row_node_shows row node : row_shows_node row node → row_node row = Ok node.
Proof.
  intros (n & Hn & Hid & Hlabels & Hkeys). unfold row_node, stored_node, node_props. rewrite Hn.
  cbn. rewrite (read_props_shows _ _ _ Hkeys). cbn. rewrite Hid, Hlabels. by destruct node.
Qed.
Lemma row_rel_shows row rel : row_shows_rel row rel → row_rel row = Ok rel.
Proof.
  intros (_ & r & Hr & Hid & Hty & Hfrom & Hto & Hkeys).
  unfold row_rel, stored_rel, rel_props. rewrite Hr. cbn.
  rewrite (read_props_shows _ _ _ Hkeys). cbn. rewrite Hid, Hty, Hfrom, Hto. by destruct rel.
Qed.
Lemma single_value_row_shows row rel :
  row_shows_rel row rel →
  single_value_row row = Ok {| row_values := {[ {| var_index := 0 |} := kernel_rel rel ]} |}.
Proof.
  intros ((err & Herr) & r & Hr & Hid & Hty & Hfrom & Hto & Hkeys).
  unfold single_value_row, rel_value, rel_props. rewrite Herr, Hr. cbn.
  rewrite (read_props_shows _ _ _ Hkeys). cbn. by rewrite Hid, Hty, Hfrom, Hto.
Qed.

(** *** Calls *)

Lemma execute_keeps q st db tx :
  sv_open db tx → read_statement (query_text q) = Some st →
  skeeps (execute q) db tx (λ rows h,
    statement_effect json_of_bolt st (query_params q) (sv_visible db tx) h (stream_rows rows)).
Proof.
  intros Ho Hst. unfold keeps, execute, driver_call.
  destruct (txn_execute q db tx) as [[r db'] tx'] eqn:Hx.
  destruct (execute_law q db tx r db' tx' Ho Hx) as (Ho' & Hc & Heff).
  destruct r as [err|rows]; split_and!; try done. intros a [= <-]. by apply Heff.
Qed.
Lemma run_keeps q st db tx :
  sv_open db tx → read_statement (query_text q) = Some st →
  skeeps (driver_call (txn_run q)) db tx (λ _ h,
    ∃ rows, statement_effect json_of_bolt st (query_params q) (sv_visible db tx) h rows).
Proof.
  intros Ho Hst. unfold keeps, driver_call.
  destruct (txn_run q db tx) as [[r db'] tx'] eqn:Hx.
  destruct (run_law q db tx r db' tx' Ho Hx) as (Ho' & Hc & Heff).
  destruct r as [err|[]]; split_and!; try done. intros a _. by apply Heff.
Qed.
Lemma next_row_keeps rows db tx :
  sv_open db tx →
  skeeps (next_row rows) db tx (λ next h,
    h ≡ sv_visible db tx ∧
    match next with
    | (Some row, rows') => stream_rows rows = row :: stream_rows rows'
    | (None, _) => stream_rows rows = []
    end).
Proof.
  intros Ho. unfold keeps, next_row.
  destruct (rows_next rows db tx) as [[[r rows'] db'] tx'] eqn:Hx.
  destruct (next_law rows db tx r rows' db' tx' Ho Hx) as (Ho' & Hc & Hv & Hrow).
  destruct r as [err|row]; split_and!; try done; by intros a [= <-].
Qed.
Lemma optional_row_keeps rows db tx :
  sv_open db tx →
  skeeps (optional_row rows) db tx (λ row h,
    h ≡ sv_visible db tx ∧ row = head (stream_rows rows)).
Proof.
  intros Ho. eapply kept_bind; [by apply next_row_keeps|].
  intros [[row|] rows'] db' tx' Ho' [Hv ->]; by apply kept_ret.
Qed.
Lemma one_row_keeps rows db tx :
  sv_open db tx →
  skeeps (one_row rows) db tx (λ row h,
    h ≡ sv_visible db tx ∧ Some row = head (stream_rows rows)).
Proof.
  intros Ho. eapply kept_bind; [by apply optional_row_keeps|].
  intros row db' tx' Ho' [Hv ->]. apply kept_lift; [done|]. intros a Ha.
  split; [done|]. by apply ok_or_Ok in Ha.
Qed.
Lemma collect_keeps {A} (f : DriverRow → result A) rows db tx :
  sv_open db tx →
  skeeps (collect_rows f rows) db tx (λ out h,
    h ≡ sv_visible db tx ∧ mapM f (stream_rows rows) = Ok out).
Proof.
  unfold collect_rows. remember (stream_rows rows) as l eqn:Hl. revert rows db tx Hl.
  induction l as [|row l IH]; intros rows db tx Hl Ho; cbn [length collect_rounds];
    (eapply kept_bind; [by apply next_row_keeps|]);
    intros [[row'|] rows'] db' tx' Ho' [Hv Hrow]; rewrite <-Hl in Hrow; try done; [].
  injection Hrow as <- Hrest.
  eapply (kept_bind _ _ _ _ _ _ _ (λ a h, h ≡ sv_visible db tx ∧ f row = Ok a));
    [by apply kept_lift|]. intros a db2 tx2 Ho2 [Hv2 Ha].
  eapply kept_bind; [by apply IH|].
  intros out db3 tx3 Ho3 [Hv3 Hout]. apply kept_ret; [done|].
  split; [by rewrite Hv3|]. rewrite mapM_cons, Ha, Hout. done.
Qed.

(** *** Operations *)

#[local] Create Rewrite HintDb driver.
#[local] Hint Rewrite query_param_text query_param_params new_query_text new_query_params : driver.
Ltac statement lem := apply execute_keeps; [done|]; autorewrite with driver; apply lem.

Lemma create_node_keeps label props db tx :
  sv_open db tx → props_portable props →
  skeeps (neo4j_create_node [label] props) db tx (λ node h,
    op_effect (CreateNode [label] props) (RNode node) (sv_visible db tx) h).
Proof.
  intros Ho Hp. destruct (props_bolt _ Hp) as (l & Hl & Hprops). unfold neo4j_create_node.
  rewrite Hl. apply kept_ok. eapply kept_bind; [statement reads_create_node|].
  cbn [statement_effect]. autorewrite with driver. intros rows db1 tx1 Ho1 Heff.
  destruct (Heff l (lookup_insert_eq _ _ _)) as (id & labels & row & Hlab & Hfresh & Hh & Hrows & Hrow).
  apply Permutation_singleton_r in Hlab as ->. rewrite Hprops in Hh, Hrow.
  eapply kept_bind; [by apply one_row_keeps|]. intros row' db2 tx2 Ho2 [Hv Hrow'].
  rewrite Hrows in Hrow'. injection Hrow' as ->. apply kept_lift; [done|].
  rewrite (row_node_shows _ _ Hrow). intros node [= <-]. exists id. split_and!; [done|done|].
  by rewrite Hv.
Qed.
Lemma found_node rows node db tx (Q : option StoredNode → AGraph → Prop) :
  sv_open db tx →
  match node with
  | Some node => ∃ row, rows = [row] ∧ row_shows_node row node
  | None => rows = []
  end →
  Q node (sv_visible db tx) → skeeps (gx_lift (transposed row_node (head rows))) db tx Q.
Proof.
  intros Ho Hrow HQ. apply kept_lift; [done|]. destruct node as [node|].
  - destruct Hrow as (r & -> & Hr). cbn. rewrite (row_node_shows _ _ Hr). by intros ? [= <-].
  - subst rows. by intros ? [= <-].
Qed.
Lemma update_node_answer id props g :
  (spec_step (UpdateNode id props) g).1
  = RNodeOpt (ag_nodes (spec_step (UpdateNode id props) g).2 !! id).
Proof.
  cbn. destruct (ag_nodes g !! id) eqn:Hid; cbn; [by rewrite lookup_insert_eq|by rewrite Hid].
Qed.
Lemma update_relationship_answer id props g :
  (spec_step (UpdateRelationship id props) g).1
  = RRelOpt (ag_rels (spec_step (UpdateRelationship id props) g).2 !! id).
Proof.
  cbn. destruct (ag_rels g !! id) eqn:Hid; cbn; [by rewrite lookup_insert_eq|by rewrite Hid].
Qed.

Lemma update_node_keeps id props db tx :
  sv_open db tx → props_portable props →
  skeeps (neo4j_update_node id props) db tx (λ node h,
    op_effect (UpdateNode id props) (RNodeOpt node) (sv_visible db tx) h).
Proof.
  intros Ho Hp. destruct (props_bolt _ Hp) as (l & Hl & Hprops). unfold neo4j_update_node.
  rewrite Hl. apply kept_ok. eapply kept_bind; [by statement (eq_refl (Some SUpdateNode))|].
  cbn [statement_effect]. autorewrite with driver. intros rows db1 tx1 Ho1 Heff.
  destruct (Heff id l) as [Hh Hrows]; [by simplify_map_eq..|]. rewrite Hprops in Hh.
  eapply kept_bind; [by apply optional_row_keeps|]. intros row db2 tx2 Ho2 [Hv ->].
  eapply found_node; [done|exact Hrows|]. unfold op_effect.
  rewrite update_node_answer. split; [by rewrite Hh|by rewrite Hv].
Qed.
Lemma delete_node_keeps id db tx :
  sv_open db tx →
  skeeps (neo4j_delete_node id) db tx (λ _ h,
    op_effect (DeleteNode id) RUnit (sv_visible db tx) h).
Proof.
  intros Ho. eapply kept_weaken.
  - apply run_keeps; [done|]. autorewrite with driver. apply (eq_refl (Some SDeleteNode)).
  - cbn [statement_effect]. autorewrite with driver. intros _ h [rows Heff].
    split; [done|]. apply Heff. by simplify_map_eq.
Qed.
Lemma find_node_keeps id db tx :
  sv_open db tx →
  skeeps (neo4j_find_node_by_id id) db tx (λ node h,
    op_effect (FindNode id) (RNodeOpt node) (sv_visible db tx) h).
Proof.
  intros Ho. unfold neo4j_find_node_by_id.
  eapply kept_bind; [by statement (eq_refl (Some SFindNode))|].
  cbn [statement_effect]. autorewrite with driver. intros rows db1 tx1 Ho1 Heff.
  destruct (Heff id) as [Hh Hrows]; [by simplify_map_eq|].
  eapply kept_bind; [by apply optional_row_keeps|]. intros row db2 tx2 Ho2 [Hv ->].
  eapply found_node; [done|exact Hrows|]. split; [done|]. cbn. by rewrite Hv.
Qed.
Lemma create_relationship_keeps from to rel_type props db tx :
  sv_open db tx → props_portable props →
  skeeps (neo4j_create_relationship from to rel_type props) db tx (λ rel h,
    op_effect (CreateRelationship from to rel_type props) (RRel rel) (sv_visible db tx) h).
Proof.
  intros Ho Hp. destruct (props_bolt _ Hp) as (l & Hl & Hprops).
  unfold neo4j_create_relationship. rewrite Hl. apply kept_ok.
  eapply kept_bind; [statement reads_create_relationship|].
  cbn [statement_effect]. autorewrite with driver. intros rows db1 tx1 Ho1 Heff.
  specialize (Heff from to l). rewrite Hprops in Heff.
  eapply kept_bind; [by apply one_row_keeps|]. intros row' db2 tx2 Ho2 [Hv Hrow'].
  destruct (ag_nodes (sv_visible db tx) !! from) eqn:Hfrom;
    [destruct (ag_nodes (sv_visible db tx) !! to) eqn:Hto|].
  2,3: destruct Heff as [_ Hrows]; [by simplify_map_eq..|]; by rewrite Hrows in Hrow'.
  destruct Heff as (id & row & Hfresh & Hh & Hrows & Hrow); [by simplify_map_eq..|].
  rewrite Hrows in Hrow'. injection Hrow' as ->. apply kept_lift; [done|].
  rewrite (row_rel_shows _ _ Hrow). intros rel [= <-]. exists id.
  rewrite Hfrom, Hto. split_and!; [done|done|by eexists|by eexists|by rewrite Hv].
Qed.
Lemma update_relationship_keeps id props db tx :
  sv_open db tx → props_portable props →
  skeeps (neo4j_update_relationship id props) db tx (λ rel h,
    op_effect (UpdateRelationship id props) (RRelOpt rel) (sv_visible db tx) h).
Proof.
  intros Ho Hp. destruct (props_bolt _ Hp) as (l & Hl & Hprops). unfold neo4j_update_relationship.
  rewrite Hl. apply kept_ok. eapply kept_bind; [by statement (eq_refl (Some SUpdateRel))|].
  cbn [statement_effect]. autorewrite with driver. intros rows db1 tx1 Ho1 Heff.
  destruct (Heff id l) as [Hh Hrows]; [by simplify_map_eq..|]. rewrite Hprops in Hh.
  eapply kept_bind; [by apply optional_row_keeps|]. intros row db2 tx2 Ho2 [Hv ->].
  apply kept_lift; [done|]. intros rel Hrel. unfold op_effect.
  rewrite update_relationship_answer, <-Hh. split; [|by rewrite Hv].
  destruct (ag_rels (sv_visible db1 tx1) !! id) as [r|]; [|by rewrite Hrows in Hrel; injection Hrel as <-].
  destruct Hrows as (row & more & Hrows & Hrow). rewrite Hrows in Hrel. cbn in Hrel.
  rewrite (row_rel_shows _ _ Hrow) in Hrel. by injection Hrel as <-.
Qed.
Lemma delete_relationship_keeps id db tx :
  sv_open db tx →
  skeeps (neo4j_delete_relationship id) db tx (λ _ h,
    op_effect (DeleteRelationship id) RUnit (sv_visible db tx) h).
Proof.
  intros Ho. eapply kept_weaken.
  - apply run_keeps; [done|]. autorewrite with driver. apply (eq_refl (Some SDeleteRel)).
  - cbn [statement_effect]. autorewrite with driver. intros _ h [rows Heff].
    split; [done|]. apply Heff. by simplify_map_eq.
Qed.
Lemma edge_lookup_keeps id rel_type db tx :
  sv_open db tx → in_i64 id = true →
  skeeps (neo4j_execute_query (edge_lookup_text rel_type) (edge_lookup_params id)) db tx
    (λ answer h, h ≡ sv_visible db tx ∧
                 qr_rows answer = edge_rows (edge_of (sv_visible db tx) id rel_type)).
Proof.
  intros Ho Hid. unfold neo4j_execute_query, edge_lookup_params, apply_json_params.
  cbn [try_fold]. unfold apply_entry. cbn [fst snd value_from_i64 json_to_bolt].
  rewrite number_from_i64_as by done. apply kept_ok.
  eapply kept_bind; [statement reads_edge_lookup|].
  cbn [statement_effect]. autorewrite with driver. intros rows db1 tx1 Ho1 Heff.
  destruct (Heff id) as [Hh Hrows]; [by simplify_map_eq|].
  eapply kept_bind; [by apply collect_keeps|]. intros out db2 tx2 Ho2 [Hv Hout].
  apply kept_ret; [done|]. split; [by rewrite Hv|]. cbn.
  destruct (edge_of (sv_visible db tx) id rel_type) as [rel|].
  - destruct Hrows as (row & Hrow & Hshows). rewrite Hrow in Hout. cbn in Hout.
    rewrite (single_value_row_shows _ _ Hshows) in Hout. by injection Hout as <-.
  - rewrite Hrows in Hout. by injection Hout as <-.
Qed.

(** *** The contract *)

Lemma neo4j_step_keeps op db tx :
  sv_open db tx → op_storable op →
  skeeps (gx_step op) db tx (λ answer h, op_effect op answer (sv_visible db tx) h).
Proof.
  intros Ho Hs. destruct op; cbn [op_storable] in Hs.
  - destruct Hs as [[label ->] Hp]. by apply kept_map, create_node_keeps.
  - by apply kept_map, update_node_keeps.
  - by apply kept_map, delete_node_keeps.
  - by apply kept_map, find_node_keeps.
  - by apply kept_map, create_relationship_keeps.
  - by apply kept_map, update_relationship_keeps.
  - by apply kept_map, delete_relationship_keeps.
Qed.

#[export] Program Instance neo4j_database : DatabaseLaws Db Txn := {|
  server_ok := sv_ok; tx_open := sv_open; committed := sv_committed; visible := sv_visible;
|}.
Next Obligation.
  intros db r db' Hok Hb. cbn in Hb. unfold neo4j_begin_tx in Hb.
  destruct (start_txn db) as [r0 db0] eqn:Hs.
  destruct (start_law db r0 db0 Hok Hs) as (Hok' & Hc & Htx).
  destruct r0 as [err|tx]; injection Hb as <- <-; split_and!; try done.
  intros tx0 [= <-]. by apply Htx.
Qed.
Next Obligation.
  intros op db tx r db' tx' Ho Hs Hstep. pose proof (neo4j_step_keeps op db tx Ho Hs) as Hk.
  unfold keeps in Hk. by rewrite Hstep in Hk.
Qed.
Next Obligation.
  intros id rel_type db tx r db' tx' Ho Hid Hq. pose proof (edge_lookup_keeps id rel_type db tx Ho Hid) as Hk.
  unfold keeps in Hk.
  change (neo4j_execute_query (edge_lookup_text rel_type) (edge_lookup_params id) db tx
          = (r, db', tx')) in Hq.
  by rewrite Hq in Hk.
Qed.
Next Obligation.
  intros db tx r db' Ho Hc. cbn in Hc. destruct (txn_commit db tx) as [r0 db0] eqn:Hx.
  destruct (server_commit_law db tx r0 db0 Ho Hx) as [Hok Hr].
  destruct r0; injection Hc as <- <-; done.
Qed.
Next Obligation.
  intros db tx r db' Ho Hc. cbn in Hc. destruct (txn_rollback db tx) as [r0 db0] eqn:Hx.
  pose proof (server_rollback_law db tx r0 db0 Ho Hx). destruct r0; injection Hc as <- <-; done.
Qed.
Next Obligation. intros db tx Ho. by apply server_drop_law. Qed.

End contract.
