(* ===== verification/Neo4jModel.v ===== *)
(** * A small Neo4j server

    A driver and a server that satisfy [Neo4jServerLaws]: it reads a statement, runs it
    on a graph and answers the rows.  The witnesses of the theorems on the Neo4j backend
    and its runtime are evaluated on it. *)

From S2P Require Export Neo4jServer.

Local Open Scope string_scope.

Section model.
Context `{SerdeNumber} `{!NumberLaws} `{!JsonText}.

Inductive MBolt :=
  | MBool (b : bool) | MInt (z : Z) | MFloat (x : f64) | MString (s : string)
  | MMap (l : list (string * MBolt)).
Record MQuery := { mq_text : string; mq_params : gmap string MBolt }.
Definition mbolt_json (b : MBolt) : Value :=
  match b with
  | MBool b => Bool b
  | MInt z => value_from_i64 z
  | MFloat x => match number_from_f64 x with Some n => Num n | None => Null end
  | MString s => Str s
  | MMap _ => Null
  end.
Definition mbolt_int (b : MBolt) : option Z := match b with MInt z => Some z | _ => None end.
Definition mbolt_props (b : MBolt) : option Props :=
  match b with
  | MMap l => Some (list_to_map (map (λ e, (e.1, mbolt_json e.2)) l))
  | _ => None
  end.
Definition get_prop (props : Props) (k : string) : string + Value :=
  match props !! k with Some v => inr v | None => inl "no such property" end.
Definition MRow : Type := StoredNode + StoredRel.

(** A statement on a graph, with the parameters it needs. *)
Definition run_statement (st : Statement) (params : gmap string MBolt) (g : AGraph)
    : option (AGraph * list MRow) :=
  let int key := params !! key ≫= mbolt_int in
  let props := params !! "props" ≫= mbolt_props in
  match st with
  | SCreateNode labels =>
      props ← props;
      let id := fresh (dom (ag_nodes g) : gset Z) in
      let node := {| sn_id := id; sn_labels := labels; sn_props := props |} in
      Some (with_nodes (<[id := node]> (ag_nodes g)) g, [inl node])
  | SUpdateNode =>
      id ← int "id"; props ← props;
      let h := (spec_step (UpdateNode id props) g).2 in
      Some (h, option_list (inl <$> ag_nodes h !! id))
  | SDeleteNode => id ← int "id"; Some ((spec_step (DeleteNode id) g).2, [])
  | SFindNode => id ← int "id"; Some (g, option_list (inl <$> ag_nodes g !! id))
  | SCreateRel rel_type =>
      from ← int "from"; to ← int "to"; props ← props;
      match ag_nodes g !! from, ag_nodes g !! to with
      | Some _, Some _ =>
          let id := fresh (dom (ag_rels g) : gset Z) in
          let rel := {| sr_id := id; sr_rel_type := rel_type; sr_from := from; sr_to := to;
                        sr_props := props |} in
          Some (with_rels (<[id := rel]> (ag_rels g)) g, [inr rel])
      | _, _ => Some (g, [])
      end
  | SUpdateRel =>
      id ← int "id"; props ← props;
      let h := (spec_step (UpdateRelationship id props) g).2 in
      Some (h, option_list (inr <$> ag_rels h !! id))
  | SDeleteRel => id ← int "id"; Some ((spec_step (DeleteRelationship id) g).2, [])
  | SFindRel rel_type =>
      id ← int "grm_id"; Some (g, option_list (inr <$> edge_of g id rel_type))
  end.
Definition run_query (q : MQuery) (g : AGraph) : string + (AGraph * list MRow) :=
  match read_statement (mq_text q) with
  | Some st => match run_statement st (mq_params q) g with
               | Some r => inr r
               | None => inl "parameter missing"
               end
  | None => inl "syntax error"
  end.

(** The server is its committed graph, a transaction the graph it sees. *)
#[export] Instance model_driver : Neo4jDriver AGraph AGraph := {|
  BoltType := MBolt;
  bolt_bool := MBool; bolt_i64 := MInt; bolt_f64 := MFloat; bolt_string := MString;
  bolt_map := MMap;
  DriverQuery := MQuery;
  new_query text := {| mq_text := text; mq_params := ∅ |};
  query_param key b q := {| mq_text := mq_text q; mq_params := <[key := b]> (mq_params q) |};
  DriverNode := StoredNode;
  node_id_of := sn_id; node_labels_of := sn_labels;
  node_keys node := bt_keys (sn_props node);
  node_get k node := get_prop (sn_props node) k;
  DriverRelation := StoredRel;
  relation_id := sr_id; relation_typ := sr_rel_type;
  relation_start_node_id := sr_from; relation_end_node_id := sr_to;
  relation_keys rel := bt_keys (sr_props rel);
  relation_get k rel := get_prop (sr_props rel) k;
  DriverRow := MRow;
  row_get_node key row :=
    match row with inl node => if String.eqb key "n" then inr node else inl "no such column"
                 | inr _ => inl "no such column" end;
  row_get_relation key row :=
    match row with inr rel => if String.eqb key "r" then inr rel else inl "no such column"
                 | inl _ => inl "no such column" end;
  row_get_i64 _ _ := inl "no such column";
  RowStream := list MRow;
  stream_rows rows := rows;
  start_txn db := (inr db, db);
  txn_execute q db tx :=
    match run_query q tx with
    | inr (tx, rows) => (inr rows, db, tx)
    | inl err => (inl err, db, tx)
    end;
  txn_run q db tx :=
    match run_query q tx with
    | inr (tx, _) => (inr tt, db, tx)
    | inl err => (inl err, db, tx)
    end;
  rows_next rows db tx :=
    match rows with
    | row :: rows => (inr (Some row), rows, db, tx)
    | [] => (inr None, [], db, tx)
    end;
  txn_commit _ tx := (inr tt, tx);
  txn_rollback db _ := (inr tt, db);
  txn_drop db _ := db;
  graph_execute q db :=
    match run_query q db with inr (db, rows) => (inr rows, db) | inl err => (inl err, db) end;
  graph_next rows db :=
    match rows with row :: rows => (inr (Some row), rows, db) | [] => (inr None, [], db) end;
|}.

Lemma model_keys_show props : keys_show (get_prop props) (bt_keys props) props.
Proof.
  split.
  - intros k. by rewrite elem_of_bt_keys.
  - intros k v Hv. unfold get_prop. by rewrite Hv.
Qed.
Lemma model_shows_node node : row_shows_node (inl node) node.
Proof. exists node. split_and!; [done..|apply model_keys_show]. Qed.
Lemma model_shows_rel rel : row_shows_rel (inr rel) rel.
Proof. split; [by eexists|]. exists rel. split_and!; [done..|apply model_keys_show]. Qed.

Lemma model_statement st params g h rows :
  run_statement st params g = Some (h, rows) → statement_effect mbolt_json st params g h rows.
Proof.
  destruct st as [labels| | | |ty| | |ty]; cbn [statement_effect run_statement];
    cbn [BoltType bolt_map bolt_i64 DriverRow model_driver].
  - intros Hr l Hl. rewrite Hl in Hr. injection Hr as <- <-. do 3 eexists.
    split_and!; [done| |done|done|apply model_shows_node].
    apply not_elem_of_dom, is_fresh.
  - intros Hr id l Hid Hl. rewrite Hid, Hl in Hr. injection Hr as <- <-.
    split; [done|]. unfold bolt_props.
    destruct (ag_nodes _ !! id) as [node|]; [|done]. eexists; split; [done|]. apply model_shows_node.
  - intros Hr id Hid. rewrite Hid in Hr. by injection Hr as <- <-.
  - intros Hr id Hid. rewrite Hid in Hr. injection Hr as <- <-. split; [done|].
    destruct (ag_nodes g !! id); [|done]. eexists; split; [done|]. apply model_shows_node.
  - intros Hr from to l Hfrom Hto Hl. rewrite Hfrom, Hto, Hl in Hr. cbn in Hr.
    destruct (ag_nodes g !! from), (ag_nodes g !! to); injection Hr as <- <-; try done.
    do 2 eexists. split_and!; [|done|done|apply model_shows_rel]. apply not_elem_of_dom, is_fresh.
  - intros Hr id l Hid Hl. rewrite Hid, Hl in Hr. injection Hr as <- <-.
    split; [done|]. unfold bolt_props.
    destruct (ag_rels _ !! id) as [rel|]; [|done]. do 2 eexists; split; [done|]. apply model_shows_rel.
  - intros Hr id Hid. rewrite Hid in Hr. by injection Hr as <- <-.
  - intros Hr id Hid. rewrite Hid in Hr. injection Hr as <- <-. split; [done|].
    destruct (edge_of g id ty); [|done]. eexists; split; [done|]. apply model_shows_rel.
Qed.
Lemma model_query q g h rows st :
  run_query q g = inr (h, rows) → read_statement (mq_text q) = Some st →
  statement_effect mbolt_json st (mq_params q) g h rows.
Proof.
  unfold run_query. intros Hq Hst. rewrite Hst in Hq.
  destruct (run_statement st (mq_params q) g) as [[h' rows']|] eqn:Hr; [|done].
  injection Hq as -> ->. by apply model_statement.
Qed.

#[export] Program Instance model_server : Neo4jServerLaws (Db:=AGraph) (Txn:=AGraph) := {|
  query_text := mq_text; query_params := mq_params; json_of_bolt := mbolt_json;
  sv_ok _ := True; sv_open _ _ := True; sv_committed db := db; sv_visible _ tx := tx;
|}.
Solve Obligations with try done.
Next Obligation. by intros x n; cbn; intros ->. Qed.
Next Obligation. intros db r db' _ Hs. injection Hs as <- <-. split_and!; [done..|]. by intros ? [= <-]. Qed.
Next Obligation.
  intros q db tx r db' tx' _ Hx. cbn in Hx.
  destruct (run_query q tx) as [err|[h rows]] eqn:Hq; injection Hx as <- <- <-; split_and!; try done.
  intros rows' st [= <-] Hst. by apply model_query.
Qed.
Next Obligation.
  intros q db tx r db' tx' _ Hx. cbn in Hx.
  destruct (run_query q tx) as [err|[h rows]] eqn:Hq; injection Hx as <- <- <-; split_and!; try done.
  intros st _ Hst. exists rows. by apply model_query.
Qed.
Next Obligation.
  intros rows db tx r rows' db' tx' _ Hx. cbn in Hx.
  destruct rows; injection Hx as <- <- <- <-; by split_and!.
Qed.
Next Obligation. intros db tx r db' _ Hx. by injection Hx as <- <-. Qed.
Next Obligation. intros db tx r db' _ Hx. by injection Hx as <- <-. Qed.
End model.

(** ** Transactions *)

Section transaction.
Context `{SerdeNumber} `{!NumberLaws} `{!JsonText}.
Context {Db Txn : Type} `{!Neo4jDriver Db Txn} `{!Neo4jServerLaws}.

End transaction.

#[local] Existing Instance serde_default.
#[local] Existing Instance serde_default_laws.
#[local] Instance witness_json : JsonText := {| json_text _ := "" |}.

(** A name that tries to end the statement. *)
Definition w_label : string := "Per`son) DETACH DELETE (n) //".
Definition w_ops : list TxOp :=
  [ CreateNode [w_label] {["name" := Str "Ada"]};
    CreateNode ["Book"] ∅;
    CreateRelationship 0 1 "WROTE" {["year" := value_from_i64 1843]};
    UpdateNode 0 {["age" := value_from_i64 36]};
    DeleteNode 1;
    FindNode 0 ].
Definition w_empty : AGraph :=
  {| ag_nodes := ∅; ag_rels := ∅; ag_next_node := 0; ag_next_rel := 0 |}.
Definition w_right (r : result (list TxResult) * AGraph) : bool :=
  match r with
  | (Ok answers, g) =>
      match last answers with
      | Some (RNodeOpt (Some node)) =>
          match sn_labels node, sn_props node !! "name", sn_props node !! "age" with
          | [label], Some (Str name), Some age =>
              String.eqb label w_label && String.eqb name "Ada"
              && bool_decide (as_i64 age = Some 36%Z)
          | _, _, _ => false
          end
      | _ => false
      end && bool_decide (size (ag_nodes g) = 1%nat) && bool_decide (ag_rels g = ∅)
  | _ => false
  end.
