(* ===== verification/Neo4jRuntime.v ===== *)
(** * The runtime of Neo4j sessions ([src/src/runtime/neo4j.rs])

    A session over a Neo4j backend keeps its schema itself and its data in the
    database: each request is checked against the catalog and runs in a transaction of
    its own; a batch stages its schema and runs all its operations in one.  The
    definitions are over any backend ([GraphBackend]), of which they use the interface
    only; what they promise is proved over any database ([DatabaseLaws]). *)

From S2P Require Export Batch Database.

Local Open Scope string_scope.

Module Neo4jSession.
Section runtime.
Context `{SerdeNumber} `{Formats}.

(** ** Checks against the schema *)

Definition missing_schema (kind model : string) : GrmError :=
  Constraint (kind +:+ " model '" +:+ model
    +:+ "' is not registered in the GRM-owned session schema; list or define schema before accessing typed Neo4j data").
Definition node_model (σ : SessionState) (name : string) : result RuntimeNodeModel :=
  ok_or (get_node_model (ss_catalog σ) name) (missing_schema "node" name).
Definition rel_model (σ : SessionState) (name : string) : result RuntimeRelModel :=
  ok_or (get_rel_model (ss_catalog σ) name) (missing_schema "edge" name).

Definition ensure_neo4j_value_type_supported (value_type : RuntimeValueType) : result unit :=
  match kind_of_type value_type with
  | KString | KInt | KFloat | KBool => Ok tt
  | KBytes | KDecimal | KDate | KDateTime | KDuration | KUuid =>
      Err (NotSupported "Neo4j runtime primitive preservation for bytes, decimal, date, datetime, duration, and uuid")
  end.
Definition ensure_neo4j_fields_supported (fields : list RuntimeField) : result unit :=
  try_fold (λ _ field, ensure_neo4j_value_type_supported (field_type field)) tt fields.

Definition raw_entry (entry : string * Value) : result (string * string) :=
  match entry.2 with
  | Str value => Ok (entry.1, value)
  | Bool value => Ok (entry.1, bool_to_string value)
  | Num value => Ok (entry.1, number_to_string value)
  | _ => Err (Constraint ("property '" +:+ entry.1 +:+ "' must be a string, number, or boolean"))
  end.
Definition value_map_to_raw (values : Props) : result (gmap string string) :=
  list_to_map <$> mapM raw_entry (bt_iter values).

Definition unknown_model_field (key model_name : string) : GrmError :=
  Constraint ("unknown field '" +:+ key +:+ "' for model '" +:+ model_name +:+ "'").
Definition update_entry (fields : list RuntimeField) (model_name : string)
    (entry : string * string) : result (string * Value) :=
  field ← ok_or (find_field fields entry.1) (unknown_model_field entry.1 model_name);
  _ ← ensure_neo4j_value_type_supported (field_type field);
  value ← parse_value (field_type field) entry.2;
  Ok (entry.1, value).
Definition model_update_props (fields : list RuntimeField) (model_name : string)
    (raw : gmap string string) (special_keys : list string) : result Props :=
  list_to_map <$> mapM (update_entry fields model_name)
    (filter (λ entry, negb (String.eqb entry.1 "id")
                      && negb (existsb (String.eqb entry.1) special_keys)) (bt_iter raw)).
Definition node_update_props (model : RuntimeNodeModel) (raw : gmap string string) : result Props :=
  model_update_props (nm_fields model) (nm_name model) raw [nm_id_field model].
Definition edge_update_props (model : RuntimeRelModel) (raw : gmap string string) : result Props :=
  model_update_props (rm_fields model) (rm_name model) raw [rm_id_field model; "from"; "to"].

Definition validated_edge_create (σ : SessionState) (model_name : string)
    (raw : gmap string string) : result (RuntimeRelModel * string * string * Props) :=
  model ← rel_model σ model_name;
  _ ← ensure_neo4j_fields_supported (rm_fields model);
  from ← node_model σ (rm_from_model model);
  to ← node_model σ (rm_to_model model);
  props ← rel_validate_instance_input model raw;
  Ok (model, nm_label from, nm_label to, props).

(** ** Finds *)

Definition parse_backend_id_value (value : Value) (field : string) : result Z :=
  let error := Constraint (field +:+ " filter must be an integer backend id") in
  match value with
  | Num n => ok_or (number_as_i64 n) error
  | Str s => ok_or (parse_i64 s) error
  | _ => Err error
  end.
(** The loop over the predicates: the id given by an alias, the predicates kept. *)
Definition alias_predicate (id_field_name subject : string)
    (st : option Z * list PropertyPredicate) (predicate : PropertyPredicate)
    : result (option Z * list PropertyPredicate) :=
  let '(alias_id, retained) := st in
  if negb (String.eqb (pp_field predicate) id_field_name)
  then Ok (alias_id, (retained ++ [predicate])%list)
  else if negb (bool_decide (pp_op predicate = PEq))
  then Err (Constraint (subject +:+ " id filter '" +:+ id_field_name +:+ "' only supports equality"))
  else parsed ← parse_backend_id_value (pp_value predicate) id_field_name;
       match alias_id with
       | Some _ => Err (Constraint ("duplicate " +:+ subject +:+ " id filter '" +:+ id_field_name
                                    +:+ "'"))
       | None => Ok (Some parsed, retained)
       end.
Definition normalize_model_id_alias (request_id : option Z) (predicates : list PropertyPredicate)
    (id_field_name subject : string) : result (option Z * list PropertyPredicate) :=
  if String.eqb id_field_name "id" then Ok (request_id, predicates)
  else
    st ← try_fold (alias_predicate id_field_name subject) (None, []) predicates;
    match request_id, st.1 with
    | Some asked, Some alias =>
        if (asked =? alias)%Z then Ok (request_id, st.2)
        else Err (Constraint ("conflicting " +:+ subject +:+ " id filters 'id' and '"
                              +:+ id_field_name +:+ "'"))
    | None, Some id => Ok (Some id, st.2)
    | _, None => Ok (request_id, st.2)
    end.

Definition typed_predicate (fields : list RuntimeField) (model_name : string)
    (predicate : PropertyPredicate) : result (PropertyPredicate * Value) :=
  field ← ok_or (find_field fields (pp_field predicate))
    (unknown_model_field (pp_field predicate) model_name);
  if bool_decide (pp_op predicate = PContains) && negb (bool_decide (kind_of_type (field_type field) = KString))
  then Err (Constraint ("contains filter '" +:+ pp_field predicate +:+ "' requires a string field"))
  else
    _ ← ensure_neo4j_value_type_supported (field_type field);
    raw ← raw_entry (pp_field predicate, pp_value predicate);
    value ← parse_value (field_type field) raw.2;
    Ok (predicate, value).
Definition typed_predicates (predicates : list PropertyPredicate) (fields : list RuntimeField)
    (model_name : string) : result (list (PropertyPredicate * Value)) :=
  mapM (typed_predicate fields model_name) predicates.

Definition reject_node_find_traversal (request : NodeFindRequest) : result unit :=
  match nf_traversals request, nf_end_predicates request, nf_edge_predicates request,
        nf_return_mode request with
  | [], [], [], None => Ok tt
  | _, _, _, _ => Err (NotSupported
      "Neo4j graph sessions support simple node_find only; traversal is not portable")
  end.
Definition validate_order_fields (known : list string) (fields : list RuntimeField)
    (kind name : string) (order : list OrderSpec) : result unit :=
  try_fold (λ _ spec,
    if existsb (String.eqb (os_field spec)) known
       || bool_decide (is_Some (find_field fields (os_field spec)))
    then Ok tt
    else Err (Constraint ("unknown order field '" +:+ os_field spec +:+ "' for " +:+ kind +:+ " '"
                          +:+ name +:+ "'"))) tt order.
Definition validate_node_order_fields (order : list OrderSpec) (model : RuntimeNodeModel)
    : result unit :=
  validate_order_fields ["id"; nm_id_field model] (nm_fields model) "model" (nm_name model) order.
Definition validate_edge_order_fields (order : list OrderSpec) (model : RuntimeRelModel)
    : result unit :=
  validate_order_fields ["id"; rm_id_field model; "from"; "to"] (rm_fields model) "link"
    (rm_name model) order.

(** The clauses of a statement and its parameters. *)
Definition cypher_predicate_op (op : PredicateOp) : string :=
  match op with
  | PEq => "=" | PNe => "<>" | PGt => ">" | PGe => ">=" | PLt => "<" | PLe => "<="
  | PContains => "CONTAINS"
  end.
Definition cypher_node_order_expression (spec : OrderSpec) (id_field : string) : string :=
  if String.eqb (os_field spec) "id" || String.eqb (os_field spec) id_field then "id(n)"
  else "n." +:+ cypher_name (os_field spec).
Definition cypher_edge_order_expression (spec : OrderSpec) (id_field : string) : string :=
  if String.eqb (os_field spec) "id" then "id(r)"
  else if String.eqb (os_field spec) "from" then "id(startNode(r))"
  else if String.eqb (os_field spec) "to" then "id(endNode(r))"
  else if String.eqb (os_field spec) id_field then "id(r)"
  else "r." +:+ cypher_name (os_field spec).
Definition direction_text (d : OrderDirection) : string :=
  match d with OrderAsc => "ASC" | OrderDesc => "DESC" end.
Definition order_clause (order : list OrderSpec) (expression : OrderSpec → string) : list string :=
  match order with
  | [] => []
  | _ => ["ORDER BY " +:+ Text.join ", "
            (map (λ spec, expression spec +:+ " " +:+ direction_text (os_direction spec)) order)]
  end.
(** [offset as i64] *)
Definition page_clause (clause key : string) (n : option N) : list string * Props :=
  match n with
  | Some n => ([clause], {[key := value_from_i64 (i64_wrap (Z.of_N n))]})
  | None => ([], ∅)
  end.
Definition append_order_page (clauses : list string) (params : Props) (order : list OrderSpec)
    (offset limit : option N) (expression : OrderSpec → string) : list string * Props :=
  let skip := page_clause "SKIP $grm_offset" "grm_offset" offset in
  let top := page_clause "LIMIT $grm_limit" "grm_limit" limit in
  ((clauses ++ order_clause order expression ++ skip.1 ++ top.1)%list, top.2 ∪ (skip.2 ∪ params)).

(** A filter on an identifier, where one is asked for. *)
Definition id_filter (filter key : string) (id : option Z) : list string * Props :=
  match id with
  | Some id => ([filter], {[key := value_from_i64 id]})
  | None => ([], ∅)
  end.
Definition predicate_param (index : nat) : string := "p" +:+ nat_to_string index.
Definition predicate_filter (var : string) (index : nat) (predicate : PropertyPredicate) : string :=
  var +:+ "." +:+ cypher_name (pp_field predicate) +:+ " " +:+ cypher_predicate_op (pp_op predicate)
  +:+ " $" +:+ predicate_param index.
Fixpoint predicate_filters (var : string) (index : nat)
    (predicates : list (PropertyPredicate * Value)) : list string * Props :=
  match predicates with
  | [] => ([], ∅)
  | (predicate, value) :: predicates =>
      let '(filters, params) := predicate_filters var (S index) predicates in
      (predicate_filter var index predicate :: filters, <[predicate_param index := value]> params)
  end.
Definition where_clause (filters : list string) : list string :=
  match filters with [] => [] | _ => ["WHERE " +:+ Text.join " AND " filters] end.

Definition node_find_statement (model : RuntimeNodeModel) (request : NodeFindRequest)
    (id : option Z) (predicates : list (PropertyPredicate * Value)) : string * Value :=
  let by_id := id_filter "id(n) = $grm_id" "grm_id" id in
  let by_props := predicate_filters "n" 0 predicates in
  let '(clauses, params) :=
    append_order_page
      (["MATCH (n:" +:+ cypher_name (nm_label model) +:+ ")"]
       ++ where_clause (by_id.1 ++ by_props.1)%list ++ ["RETURN n"])%list
      (by_props.2 ∪ by_id.2) (nf_order request) (nf_offset request) (nf_limit request)
      (λ spec, cypher_node_order_expression spec (nm_id_field model)) in
  (Text.join " " clauses, Object (bt_iter params)).
Definition edge_find_statement (model : RuntimeRelModel) (request : EdgeFindRequest)
    (id : option Z) (predicates : list (PropertyPredicate * Value)) : string * Value :=
  let by_id := id_filter "id(r) = $grm_id" "grm_id" id in
  let by_from := id_filter "id(startNode(r)) = $from_id" "from_id" (ef_from request) in
  let by_to := id_filter "id(endNode(r)) = $to_id" "to_id" (ef_to request) in
  let by_props := predicate_filters "r" 0 predicates in
  let '(clauses, params) :=
    append_order_page
      (["MATCH ()-[r:" +:+ cypher_name (rm_rel_type model) +:+ "]->()"]
       ++ where_clause (by_id.1 ++ by_from.1 ++ by_to.1 ++ by_props.1)%list ++ ["RETURN r"])%list
      (by_props.2 ∪ (by_to.2 ∪ (by_from.2 ∪ by_id.2))) (ef_order request) (ef_offset request)
      (ef_limit request) (λ spec, cypher_edge_order_expression spec (rm_id_field model)) in
  (Text.join " " clauses, Object (bt_iter params)).
End runtime.

(** ** Requests *)

Section requests.
Context `{SerdeNumber} `{Formats} {Db Tx : Type} `{!GraphTx Db Tx} `{!GraphBackend Db Tx}.

Abbreviation tx_step := (txw (Db:=Db) (Tx:=Tx)).

(** Checks first, then a transaction with what they answer. *)
Definition checked {A B} (checks : result A) (run : A → Db → result B * Db) (db : Db)
    : result B * Db :=
  match checks with Ok a => run a db | Err e => (Err e, db) end.
(** [body] in a transaction of its own, committed when it succeeds. *)
Definition transacted {A} (body : tx_step A) : Db → result A * Db :=
  in_client_transaction (a ← body; _ ← client_commit; mret (M:=tx_step) a).

Definition entity_not_found (kind : string) (id : Z) : GrmError :=
  Constraint (kind +:+ " '" +:+ Z_to_string id +:+ "' was not found").
Definition validate_endpoint (id : Z) (label endpoint model_name : string) : tx_step unit :=
  found ← on_tx (gx_find_node_by_id id);
  node ← txw_lift (ok_or found (entity_not_found (endpoint +:+ " node") id));
  txw_lift (if has_label_named node label then Ok tt
            else Err (Constraint (endpoint +:+ " node '" +:+ Z_to_string id
                                  +:+ "' does not match model '" +:+ model_name +:+ "'"))).
Definition update_node (id : Z) (model : RuntimeNodeModel) (props : Props) : tx_step StoredNode :=
  _ ← validate_endpoint id (nm_label model) "node" (nm_name model);
  updated ← on_tx (gx_update_node id props);
  txw_lift (ok_or updated (entity_not_found "node" id)).
Definition delete_node (id : Z) (model : RuntimeNodeModel) : tx_step unit :=
  _ ← validate_endpoint id (nm_label model) "node" (nm_name model);
  on_tx (gx_delete_node id).

(** [row.values.into_values().next()] *)
Definition first_value (row : QueryRow) : option KernelValue := head (bt_values (row_values row)).
Definition edge_of_value (error : string) (value : KernelValue) : result StoredRel :=
  match value with
  | KRel rel => Ok {| sr_id := rv_id rel; sr_rel_type := rv_ty rel; sr_from := rv_from rel;
                      sr_to := rv_to rel; sr_props := rv_props rel |}
  | _ => Err (Mapping error)
  end.
Definition node_of_found (value : KernelValue) : result StoredNode :=
  match value with
  | KNode node => Ok {| sn_id := nv_id node; sn_labels := nv_labels node; sn_props := nv_props node |}
  | _ => Err (Mapping "Neo4j node find returned a non-node value")
  end.
Definition find_edge (id : Z) (rel_type : string) : tx_step (option StoredRel) :=
  answer ← on_tx (gx_execute_query (edge_lookup_text rel_type) (edge_lookup_params id));
  txw_lift (match head (qr_rows answer) ≫= first_value with
            | Some value => Some <$> edge_of_value "Neo4j edge lookup returned a non-edge value" value
            | None => Ok None
            end).
Definition known_edge (id : Z) (model : RuntimeRelModel) : tx_step StoredRel :=
  found ← find_edge id (rm_rel_type model);
  txw_lift (ok_or found (Constraint ("edge '" +:+ Z_to_string id +:+ "' was not found for model '"
                                     +:+ rm_name model +:+ "'"))).
Definition update_edge (id : Z) (model : RuntimeRelModel) (props : Props) : tx_step StoredRel :=
  _ ← known_edge id model;
  updated ← on_tx (gx_update_relationship id props);
  txw_lift (ok_or updated (entity_not_found "edge" id)).
Definition delete_edge (id : Z) (model : RuntimeRelModel) : tx_step unit :=
  _ ← known_edge id model;
  on_tx (gx_delete_relationship id).

Definition neo4j_node_create (σ : SessionState) (request : NodeCreateRequest)
    : Db → result StoredNode * Db :=
  checked (raw ← value_map_to_raw (nc_props request);
           model ← node_model σ (nc_model request);
           _ ← ensure_neo4j_fields_supported (nm_fields model);
           props ← node_validate_instance_input model raw;
           Ok (model, props))
    (λ '(model, props), transacted (on_tx (gx_create_node [nm_label model] props))).
Definition neo4j_node_update (σ : SessionState) (request : NodeUpdateRequest)
    : Db → result StoredNode * Db :=
  checked (raw ← value_map_to_raw (nu_props request);
           model ← node_model σ (nu_model request);
           _ ← ensure_neo4j_fields_supported (nm_fields model);
           props ← node_update_props model raw;
           Ok (model, props))
    (λ '(model, props), transacted (update_node (nu_id request) model props)).
Definition neo4j_node_delete (σ : SessionState) (request : NodeDeleteRequest)
    : Db → result unit * Db :=
  checked (node_model σ (nd_model request))
    (λ model, transacted (delete_node (nd_id request) model)).
(** The rows are decoded after the commit. *)
Definition neo4j_found {A} (decode : KernelValue → result A) (statement : string * Value) (db : Db)
    : result (list A) * Db :=
  let '(answer, db) := transacted (on_tx (gx_execute_query statement.1 statement.2)) db in
  (answer ← answer; mapM decode (omap first_value (qr_rows answer)), db).
Definition neo4j_node_find (σ : SessionState) (request : NodeFindRequest)
    : Db → result (list StoredNode) * Db :=
  checked (_ ← reject_node_find_traversal request;
           model ← node_model σ (nf_model request);
           alias ← normalize_model_id_alias (nf_id request) (nf_predicates request)
                     (nm_id_field model) "node";
           predicates ← typed_predicates alias.2 (nm_fields model) (nm_name model);
           _ ← validate_node_order_fields (nf_order request) model;
           Ok (node_find_statement model request alias.1 predicates))
    (neo4j_found node_of_found).
Definition neo4j_edge_create (σ : SessionState) (request : EdgeCreateRequest)
    : Db → result StoredRel * Db :=
  checked (raw ← value_map_to_raw (ec_props request);
           validated_edge_create σ (ec_model request) raw)
    (λ '(model, from_label, to_label, props), transacted (
       _ ← validate_endpoint (ec_from request) from_label "from" (rm_from_model model);
       _ ← validate_endpoint (ec_to request) to_label "to" (rm_to_model model);
       on_tx (gx_create_relationship (ec_from request) (ec_to request) (rm_rel_type model) props))).
Definition neo4j_edge_update (σ : SessionState) (request : EdgeUpdateRequest)
    : Db → result StoredRel * Db :=
  checked (raw ← value_map_to_raw (eu_props request);
           model ← rel_model σ (eu_model request);
           props ← edge_update_props model raw;
           Ok (model, props))
    (λ '(model, props), transacted (update_edge (eu_id request) model props)).
Definition neo4j_edge_delete (σ : SessionState) (request : EdgeDeleteRequest)
    : Db → result unit * Db :=
  checked (rel_model σ (ed_model request))
    (λ model, transacted (delete_edge (ed_id request) model)).
Definition neo4j_edge_find (σ : SessionState) (request : EdgeFindRequest)
    : Db → result (list StoredRel) * Db :=
  checked (model ← rel_model σ (ef_model request);
           alias ← normalize_model_id_alias (ef_id request) (ef_predicates request)
                     (rm_id_field model) "edge";
           predicates ← typed_predicates alias.2 (rm_fields model) (rm_name model);
           _ ← validate_edge_order_fields (ef_order request) model;
           Ok (edge_find_statement model request alias.1 predicates))
    (neo4j_found (edge_of_value "Neo4j edge find returned a non-edge value")).

(** ** Batches *)

Record Neo4jBatchOutcome := { no_value : Value; no_schema_ops : list DurableOperation }.

(** The [BatchApplied] and [BatchSummary] of this file; a summary is of an atomic batch
    and the text of recovery its own. *)
Record BatchApplied := {
  na_op : string; na_model : string; na_id : option Z; na_local_ref : option string }.
Definition schema (op model : string) : BatchApplied :=
  {| na_op := op; na_model := model; na_id := None; na_local_ref := None |}.
Definition entity (op model : string) (id : Z) (local_ref : option string) : BatchApplied :=
  {| na_op := op; na_model := model; na_id := Some id; na_local_ref := local_ref |}.
Record BatchSummary := {
  ns_applied : bool;
  ns_detailed : bool;
  ns_operation_count : nat;
  ns_counts : gmap string (gmap string nat);
  ns_errors : list Value;
  ns_ids : list Value;
}.
Definition BatchSummary_new (detailed : bool) (operation_count : nat) : BatchSummary :=
  {| ns_applied := true; ns_detailed := detailed; ns_operation_count := operation_count;
     ns_counts := ∅; ns_errors := []; ns_ids := [] |}.
Definition record_applied (applied : BatchApplied) (su : BatchSummary) : BatchSummary :=
  let models := default ∅ (ns_counts su !! na_op applied) in
  {| ns_applied := ns_applied su; ns_detailed := ns_detailed su;
     ns_operation_count := ns_operation_count su;
     ns_counts := <[na_op applied :=
       <[na_model applied := S (default 0 (models !! na_model applied))]> models]> (ns_counts su);
     ns_errors := ns_errors su;
     ns_ids :=
       match na_id applied with
       | Some id =>
           if ns_detailed su then
             (ns_ids su ++
               [Object ([("id", value_from_i64 id); ("model", Str (na_model applied));
                         ("op", Str (na_op applied))]
                        ++ match na_local_ref applied with
                           | Some local_ref => [("ref", Str local_ref)]
                           | None => []
                           end)])%list
           else ns_ids su
       | None => ns_ids su
       end |}.
Definition recovery_text : string :=
  "Inspect the failed operation and current GRM-owned session schema, then retry the batch.".
Definition record_error (index : nat) (message : string) (su : BatchSummary) : BatchSummary :=
  {| ns_applied := false; ns_detailed := ns_detailed su;
     ns_operation_count := ns_operation_count su; ns_counts := ns_counts su;
     ns_errors := (ns_errors su ++
       [Object [("index", count_json index); ("message", Str message);
                ("recovery", Str recovery_text)]])%list;
     ns_ids := ns_ids su |}.
Definition into_value (su : BatchSummary) : Value :=
  Object
    ([("applied", Bool (ns_applied su)); ("atomic", Bool true);
      ("counts", Object (map (λ e : string * gmap string nat,
         (e.1, Object (map (λ c : string * nat, (c.1, count_json c.2)) (bt_iter e.2))))
         (bt_iter (ns_counts su))));
      ("errors", Array (ns_errors su))]
     ++ (if ns_detailed su then [("ids", Array (ns_ids su))] else [])
     ++ [("operation_count", count_json (ns_operation_count su))])%list.

Definition parse_batch_field (field : SessionBatchFieldParam) : result RuntimeField :=
  value_type ← ok_or (type_parse_keyword (bf_value_type field))
    (Constraint ("unsupported field type '" +:+ bf_value_type field
       +:+ "', expected one of: string, int, float, bool, bytes, decimal, date, datetime, duration, or uuid"));
  Ok {| field_name := bf_name field; field_type := value_type;
        field_required := bf_required field |}.
Definition parse_batch_fields (fields : list SessionBatchFieldParam) : result (list RuntimeField) :=
  mapM parse_batch_field fields.
(** [resolve_endpoint] has the body of the function of [runtime/batch.rs]. *)
Definition resolve_endpoint : SessionBatchEndpoint → gmap string Z → string → result Z :=
  resolve_batch_endpoint.

(** What a batch stages besides the transaction. *)
Record Staged := {
  sg_state : SessionState;
  sg_refs : gmap string Z;
  sg_schema_ops : list DurableOperation;
}.
Definition stage_schema (staged : SessionState) (op : DurableOperation) (st : Staged) : Staged :=
  {| sg_state := staged; sg_refs := sg_refs st;
     sg_schema_ops := (sg_schema_ops st ++ [op])%list |}.
(** [staged.register_model(model)?], on the staged session. *)
Definition registered {A} (register : session A) (σ : SessionState) : result SessionState :=
  match register σ with (Ok _, σ) => Ok σ | (Err e, _) => Err e end.

Definition create_batch_node (model_name : string) (values : Props) (local_ref : option string)
    (op : string) (st : Staged) : tx_step (BatchApplied * Staged) :=
  prepared ← txw_lift (
    model ← node_model (sg_state st) model_name;
    _ ← ensure_neo4j_fields_supported (nm_fields model);
    raw ← value_map_to_raw values;
    props ← node_validate_instance_input model raw;
    Ok (model, props));
  node ← on_tx (gx_create_node [nm_label prepared.1] prepared.2);
  mret (M:=tx_step) (entity op model_name (sn_id node) local_ref,
    {| sg_state := sg_state st;
       sg_refs := match local_ref with
                  | Some r => <[r := sn_id node]> (sg_refs st)
                  | None => sg_refs st
                  end;
       sg_schema_ops := sg_schema_ops st |}).
Definition create_batch_edge (model_name : string) (from to : SessionBatchEndpoint)
    (values : Props) (op : string) (st : Staged) : tx_step BatchApplied :=
  prepared ← txw_lift (
    from ← resolve_endpoint from (sg_refs st) "from";
    to ← resolve_endpoint to (sg_refs st) "to";
    raw ← value_map_to_raw values;
    edge ← validated_edge_create (sg_state st) model_name raw;
    Ok (from, to, edge));
  let '(from, to, (model, from_label, to_label, props)) := prepared in
  _ ← validate_endpoint from from_label "from" (rm_from_model model);
  _ ← validate_endpoint to to_label "to" (rm_to_model model);
  edge ← on_tx (gx_create_relationship from to (rm_rel_type model) props);
  mret (M:=tx_step) (entity op model_name (sr_id edge) None).

(** One operation: the match of the loop. *)
Definition apply_batch_op (op : SessionBatchOp) (st : Staged) : tx_step (BatchApplied * Staged) :=
  match op with
  | BSchemaDefineNode name id_field fields =>
      txw_lift (
        fields ← parse_batch_fields fields;
        model ← RuntimeNodeModel_new name id_field node_id_type fields;
        staged ← registered (register_model model) (sg_state st);
        Ok (schema (op_name op) name, stage_schema staged (RegisterNodeModel model) st))
  | BSchemaDefineEdge name from_model to_model id_field fields =>
      txw_lift (
        fields ← parse_batch_fields fields;
        model ← RuntimeRelModel_new name from_model to_model id_field rel_id_type fields;
        staged ← registered (session_register_rel_model model) (sg_state st);
        Ok (schema (op_name op) name, stage_schema staged (RegisterRelModel model) st))
  | BNodeCreate model props local_ref =>
      if match local_ref with Some r => bool_decide (is_Some (sg_refs st !! r)) | None => false end
      then txw_lift (Err (Constraint ("duplicate batch ref '" +:+ default "" local_ref +:+ "'")))
      else create_batch_node model props local_ref (op_name op) st
  | BNodeUpdate model_name id values =>
      prepared ← txw_lift (
        model ← node_model (sg_state st) model_name;
        raw ← value_map_to_raw values;
        props ← node_update_props model raw;
        Ok (model, props));
      node ← update_node id prepared.1 prepared.2;
      mret (M:=tx_step) (entity (op_name op) model_name (sn_id node) None, st)
  | BNodeDelete model_name id =>
      model ← txw_lift (node_model (sg_state st) model_name);
      _ ← delete_node id model;
      mret (M:=tx_step) (entity (op_name op) model_name id None, st)
  | BEdgeCreate model from to props =>
      applied ← create_batch_edge model from to props (op_name op) st;
      mret (M:=tx_step) (applied, st)
  | BEdgeUpdate model_name id values =>
      prepared ← txw_lift (
        model ← rel_model (sg_state st) model_name;
        raw ← value_map_to_raw values;
        props ← edge_update_props model raw;
        Ok (model, props));
      edge ← update_edge id prepared.1 prepared.2;
      mret (M:=tx_step) (entity (op_name op) model_name (sr_id edge) None, st)
  | BEdgeDelete model_name id =>
      model ← txw_lift (rel_model (sg_state st) model_name);
      _ ← delete_edge id model;
      mret (M:=tx_step) (entity (op_name op) model_name id None, st)
  end.

(** The loop: an operation that fails rolls the transaction back and ends the batch
    with its error recorded. *)
Definition failed_batch (index : nat) (message : string) (su : BatchSummary) (db : Db)
    (tx : option Tx) : (Neo4jBatchOutcome + BatchSummary * Staged) * Db * option Tx :=
  let '(_, db, tx) := client_rollback db tx in
  (inl {| no_value := into_value (record_error index message su); no_schema_ops := [] |}, db, tx).
Fixpoint batch_loop (allow_deletes : bool) (index : nat) (ops : list SessionBatchOp)
    (su : BatchSummary) (st : Staged) (db : Db) (tx : option Tx)
    : (Neo4jBatchOutcome + BatchSummary * Staged) * Db * option Tx :=
  match ops with
  | [] => (inr (su, st), db, tx)
  | op :: ops =>
      if is_delete op && negb allow_deletes
      then failed_batch index (op_name op +:+ " requires allow_deletes=true on batch") su db tx
      else
        match apply_batch_op op st db tx with
        | (Ok (applied, st), db, tx) =>
            batch_loop allow_deletes (S index) ops (record_applied applied su) st db tx
        | (Err e, db, tx) => failed_batch index (error_to_string e) su db tx
        end
  end.

Definition apply_neo4j_batch (params : SessionBatchParams) (σ : SessionState) (db : Db)
    : result Neo4jBatchOutcome * SessionState * Db :=
  if negb (bp_atomic params)
  then (Err (NotSupported "Neo4j batch currently requires atomic=true; graph writes are committed only after every supported operation succeeds"), σ, db)
  else
    match client_transaction db with
    | (Err e, db) => (Err e, σ, db)
    | (Ok tx, db) =>
        let su := BatchSummary_new (is_detailed (bp_response params)) (length (bp_ops params)) in
        let st := {| sg_state := snapshot σ; sg_refs := ∅; sg_schema_ops := [] |} in
        match batch_loop (bp_allow_deletes params) 0 (bp_ops params) su st db tx with
        | (inl outcome, db, tx) => (Ok outcome, σ, drop_transaction db tx)
        | (inr (su, st), db, tx) =>
            match client_commit db tx with
            | (Ok _, db, _) =>
                (Ok {| no_value := into_value su; no_schema_ops := sg_schema_ops st |},
                 sg_state st, db)
            | (Err e, db, _) => (Err e, σ, db)
            end
        end
    end.
End requests.
End Neo4jSession.
