(* ===== verification/Neo4jRuns.v ===== *)
(** * What a batch on a Neo4j session does

    The theorems on the runtime of Neo4j sessions ([Neo4jRuntime]), over any database
    ([DatabaseLaws]): a batch means its operations one after the other, happens whole
    or not at all, and keeps the data in line with the schema. *)

From S2P Require Export Neo4jRuntime Neo4jModel.

Local Open Scope string_scope.
Import Neo4jSession.

(** ** Values that were parsed are portable *)

Section parsed.
Context `{SerdeNumber} `{!NumberLaws} `{Formats} `{!FormatLaws}.

Lemma parsed_portable t s v :
  ensure_neo4j_value_type_supported t = Ok tt → parse_value t s = Ok v → portable v.
Proof.
  unfold ensure_neo4j_value_type_supported, parse_value.
  destruct (kind_of_type t); try done; intros _; cbn.
  - intros [= <-]. constructor.
  - intros (z & Hz & ->)%ok_or_Ok%fmap_Some. constructor. by eapply parse_i64_range.
  - intros (x & _ & Hx)%bind_Ok. unfold finite_float_value in Hx.
    destruct (negb (f64_is_finite x)); [done|].
    apply ok_or_Ok, fmap_Some in Hx as (n & Hn & ->).
    destruct (number_from_f64_as _ _ Hn) as [Hf Ha]. destruct (number_is_f64_as _ Hf) as (_ & ? & ?).
    by econstructor.
  - intros Hv. repeat case_match; try done; injection Hv as <-; constructor.
Qed.
Lemma ensured_field fields f :
  ensure_neo4j_fields_supported fields = Ok tt → f ∈ fields →
  ensure_neo4j_value_type_supported (field_type f) = Ok tt.
Proof.
  unfold ensure_neo4j_fields_supported. rewrite try_fold_unit_Ok. intros [_ Hall] Hf.
  apply (Hall f Hf).
Qed.
(** Texts and numbers of the supported kinds hold no date-time. *)
Lemma supported_regular fields raw :
  ensure_neo4j_fields_supported fields = Ok tt → inputs_regular fields raw.
Proof.
  intros Hf f s t Hin Ht. pose proof (ensured_field _ _ Hf Hin) as Hs.
  unfold ensure_neo4j_value_type_supported in Hs. by rewrite Ht in Hs.
Qed.
Lemma input_portable kind model fields raw props :
  NoDup (map field_name fields) → ensure_neo4j_fields_supported fields = Ok tt →
  validate_input kind model fields raw = Ok props → props_portable props.
Proof.
  intros Hnd Hf Hin. unfold validate_input in Hin. apply bind_Ok in Hin as ([] & _ & Hl).
  destruct (input_loop _ _ _ _ Hnd Hl) as [Hall Hout]. intros k v Hv.
  destruct (decide (k ∈ map field_name fields)) as [Hk|Hk];
    [|by rewrite Hout, lookup_empty in Hv].
  apply list_elem_of_fmap in Hk as (f & -> & Hfin). specialize (Hall f Hfin).
  destruct (raw !! field_name f) as [s|].
  - destruct Hall as (w & Hw & Heq). rewrite Hv in Heq. injection Heq as ->.
    eapply parsed_portable; [by eapply ensured_field|done].
  - destruct Hall as [_ Hn]. by rewrite Hv, lookup_empty in Hn.
Qed.

(** What an update sets: given fields only, each of its kind. *)
Lemma update_props_ok fields model raw special props :
  model_update_props fields model raw special = Ok props →
  props_portable props ∧ fits fields props.
Proof.
  unfold model_update_props. intros (l & Hl & <-)%fmap_Ok. apply mapM_Ok in Hl.
  assert (∀ e, e ∈ l → ∃ f, find_field fields e.1 = Some f ∧ portable e.2 ∧
            validate_value_for_kind (kind_of_type (field_type f)) e.2 = true) as Hall.
  { intros e Hin. apply list_elem_of_lookup in Hin as [i Hi].
    eapply Forall2_lookup_r in Hl as ([k s] & _ & He); [|exact Hi]. unfold update_entry in He. cbn in He.
    apply bind_Ok in He as (f & Hf%ok_or_Ok & He). apply bind_Ok in He as ([] & Hs & He).
    apply bind_Ok in He as (v & Hv & [= <-]). exists f. cbn. split_and!; [done| |].
    - by eapply parsed_portable.
    - apply (parsed_values_ok _ _ _ Hv). intros t Ht. unfold ensure_neo4j_value_type_supported in Hs.
      by rewrite Ht in Hs. }
  split.
  - intros k v Hv. apply elem_of_list_to_map_2 in Hv. by destruct (Hall _ Hv) as (f & _ & ? & _).
  - intros k v Hv. apply elem_of_list_to_map_2 in Hv. destruct (Hall _ Hv) as (f & ? & _ & ?).
    by exists f.
Qed.
End parsed.

(** ** What the operations of a batch mean *)

Section meaning.
Context `{SerdeNumber} `{Formats}.
Implicit Types (c : SessionModelCatalog) (refs : gmap string Z) (g h : AGraph).

(** On a catalog, the references made so far and a graph: what is there after, and the
    schema operations. *)
Definition op_means (op : SessionBatchOp) c refs g c' refs' h (schema : list DurableOperation)
    : Prop :=
  let unchanged := c' = c ∧ refs' = refs ∧ schema = [] in
  match op with
  | BSchemaDefineNode name id_field fields => ∃ fs model,
      parse_batch_fields fields = Ok fs ∧
      RuntimeNodeModel_new name id_field node_id_type fs = Ok model ∧
      register_node_model model c = Ok c' ∧ refs' = refs ∧ schema = [RegisterNodeModel model] ∧
      h ≡ g
  | BSchemaDefineEdge name from to id_field fields => ∃ fs model,
      parse_batch_fields fields = Ok fs ∧
      RuntimeRelModel_new name from to id_field rel_id_type fs = Ok model ∧
      is_Some (get_node_model c (rm_from_model model)) ∧
      is_Some (get_node_model c (rm_to_model model)) ∧
      register_rel_model model c = Ok c' ∧ refs' = refs ∧ schema = [RegisterRelModel model] ∧
      h ≡ g
  | BNodeCreate name values local_ref => ∃ model raw props node,
      get_node_model c name = Some model ∧ ensure_neo4j_fields_supported (nm_fields model) = Ok tt ∧
      value_map_to_raw values = Ok raw ∧ node_validate_instance_input model raw = Ok props ∧
      op_effect (CreateNode [nm_label model] props) (RNode node) g h ∧
      c' = c ∧ schema = [] ∧
      match local_ref with
      | Some r => refs !! r = None ∧ refs' = <[r := sn_id node]> refs
      | None => refs' = refs
      end
  | BNodeUpdate name id values => ∃ model raw props node,
      get_node_model c name = Some model ∧
      value_map_to_raw values = Ok raw ∧ node_update_props model raw = Ok props ∧
      labelled g id (nm_label model) ∧
      op_effect (UpdateNode id props) (RNodeOpt (Some node)) g h ∧ unchanged
  | BNodeDelete name id => ∃ model,
      get_node_model c name = Some model ∧ labelled g id (nm_label model) ∧
      op_effect (DeleteNode id) RUnit g h ∧ unchanged
  | BEdgeCreate name from to values => ∃ model from_model to_model from_id to_id raw props rel,
      resolve_endpoint from refs "from" = Ok from_id ∧ resolve_endpoint to refs "to" = Ok to_id ∧
      get_rel_model c name = Some model ∧ ensure_neo4j_fields_supported (rm_fields model) = Ok tt ∧
      get_node_model c (rm_from_model model) = Some from_model ∧
      get_node_model c (rm_to_model model) = Some to_model ∧
      value_map_to_raw values = Ok raw ∧ rel_validate_instance_input model raw = Ok props ∧
      labelled g from_id (nm_label from_model) ∧ labelled g to_id (nm_label to_model) ∧
      op_effect (CreateRelationship from_id to_id (rm_rel_type model) props) (RRel rel) g h ∧
      unchanged
  | BEdgeUpdate name id values => ∃ model raw props old rel,
      get_rel_model c name = Some model ∧
      value_map_to_raw values = Ok raw ∧ edge_update_props model raw = Ok props ∧
      edge_of g id (rm_rel_type model) = Some old ∧
      op_effect (UpdateRelationship id props) (RRelOpt (Some rel)) g h ∧ unchanged
  | BEdgeDelete name id => ∃ model old,
      get_rel_model c name = Some model ∧ edge_of g id (rm_rel_type model) = Some old ∧
      op_effect (DeleteRelationship id) RUnit g h ∧ unchanged
  end.

Inductive batch_means : list SessionBatchOp → SessionModelCatalog → gmap string Z → AGraph →
    SessionModelCatalog → gmap string Z → AGraph → list DurableOperation → Prop :=
  | means_nothing c refs g h : g ≡ h → batch_means [] c refs g c refs h []
  | means_op op ops c refs g c1 refs1 g1 c2 refs2 h s s' :
      op_means op c refs g c1 refs1 g1 s → batch_means ops c1 refs1 g1 c2 refs2 h s' →
      batch_means (op :: ops) c refs g c2 refs2 h (s ++ s').
Lemma batch_means_after ops c refs g c' refs' h s h' :
  batch_means ops c refs g c' refs' h s → h ≡ h' → batch_means ops c refs g c' refs' h' s.
Proof.
  induction 1 as [c refs g h Hg|]; intros Hh; econstructor; eauto. by rewrite Hg.
Qed.
(** Meanings speak of contents. *)
#[global] Instance labelled_proper : Proper ((≡) ==> (=) ==> (=) ==> iff) labelled.
Proof. intros g g' [Hn _] i _ <- m _ <-. unfold labelled. by rewrite Hn. Qed.
#[global] Instance edge_of_proper : Proper ((≡) ==> (=) ==> (=) ==> (=)) edge_of.
Proof. intros g g' [_ Hr] i _ <- m _ <-. unfold edge_of. by rewrite Hr. Qed.
Lemma op_means_before op c refs g c' refs' h s g' :
  op_means op c refs g c' refs' h s → g ≡ g' → op_means op c refs g' c' refs' h s.
Proof.
  intros Hop Hg. destruct op; cbn [op_means] in *; setoid_rewrite <-Hg; exact Hop.
Qed.
Lemma batch_means_before ops c refs g c' refs' h s g' :
  batch_means ops c refs g c' refs' h s → g ≡ g' → batch_means ops c refs g' c' refs' h s.
Proof.
  destruct 1 as [c refs g h Hg|]; intros Hg'; econstructor; eauto; [by rewrite <-Hg'|].
  by eapply op_means_before.
Qed.
End meaning.

(** ** The steps of a transaction *)

Section steps.
Context `{SerdeNumber} `{!NumberLaws} `{Formats} `{!FormatLaws}.
Context {Db Tx : Type} `{!GraphTx Db Tx} `{!GraphBackend Db Tx} `{!DatabaseLaws Db Tx}.
Implicit Types (c : SessionModelCatalog) (g h : AGraph) (tx : option Tx).

(** A client's transaction is open while it holds its inner one. *)
Definition client_open (db : Db) tx : Prop :=
  match tx with Some inner => tx_open db inner | None => False end.
Definition client_view (db : Db) tx : AGraph :=
  match tx with Some inner => visible db inner | None => committed db end.
Abbreviation ckeeps := (keeps client_open committed client_view).

Lemma on_tx_keeps {A} (op : gxm Db Tx A) db tx (Q : A → AGraph → Prop) :
  client_open db tx →
  (∀ inner, tx = Some inner → tx_open db inner → keeps tx_open committed visible op db inner Q) →
  ckeeps (on_tx op) db tx Q.
Proof.
  unfold keeps, on_tx. destruct tx as [inner|]; [|done]. intros Ho Hop.
  specialize (Hop inner eq_refl Ho). by destruct (op db inner) as [[r db'] inner'].
Qed.
(** A method of the interface as the operation it performs. *)
Lemma on_step_keeps {A} (m : gxm Db Tx A) (f : A → TxResult) op db tx :
  client_open db tx → op_storable op →
  (∀ db inner, gx_step op db inner
               = let '(r, db, inner) := m db inner in (map_result f r, db, inner)) →
  ckeeps (on_tx m) db tx (λ a h, op_effect op (f a) (client_view db tx) h).
Proof.
  intros Ho Hs Hm. apply on_tx_keeps; [done|]. intros inner -> Hi.
  pose proof (step_keeps op db inner Hi Hs) as Hk. unfold keeps in *. rewrite Hm in Hk.
  destruct (m db inner) as [[r db'] inner']. destruct Hk as (? & ? & Heff).
  split_and!; [done|done|]. intros a ->. by apply Heff.
Qed.

Lemma find_node_step id db tx :
  client_open db tx →
  ckeeps (on_tx (gx_find_node_by_id id)) db tx (λ found h,
    h ≡ client_view db tx ∧ found = ag_nodes (client_view db tx) !! id).
Proof.
  intros Ho. eapply kept_weaken; [by apply (on_step_keeps _ RNodeOpt (FindNode id))|].
  intros found h [Hf Hh]. cbn in *. split; [done|]. congruence.
Qed.
Lemma validate_endpoint_step id label endpoint model_name db tx :
  client_open db tx →
  ckeeps (validate_endpoint id label endpoint model_name) db tx (λ _ h,
    h ≡ client_view db tx ∧ labelled (client_view db tx) id label).
Proof.
  intros Ho. eapply kept_bind; [by apply find_node_step|]. intros found db1 tx1 Ho1 [Hv ->].
  eapply kept_bind.
  { apply (kept_lift _ _ _ _ _ _ (λ node h, h ≡ client_view db tx ∧
      ag_nodes (client_view db tx) !! id = Some node)); [done|].
    intros node Hn%ok_or_Ok. done. }
  intros node db2 tx2 Ho2 [Hv2 Hn]. apply kept_lift; [done|]. intros [].
  destruct (has_label_named node label) eqn:Hl; [|done]. intros _.
  split; [done|]. by exists node.
Qed.
Lemma update_node_step id model props db tx :
  client_open db tx → props_portable props →
  ckeeps (update_node id model props) db tx (λ node h,
    labelled (client_view db tx) id (nm_label model) ∧
    op_effect (UpdateNode id props) (RNodeOpt (Some node)) (client_view db tx) h).
Proof.
  intros Ho Hp. eapply kept_bind; [by apply validate_endpoint_step|].
  intros [] db1 tx1 Ho1 [Hv Hl].
  eapply kept_bind; [by apply (on_step_keeps _ RNodeOpt (UpdateNode id props))|].
  intros found db2 tx2 Ho2 Heff. apply kept_lift; [done|]. intros node ->%ok_or_Ok.
  split; [done|]. by rewrite <-Hv.
Qed.
Lemma delete_node_step id model db tx :
  client_open db tx →
  ckeeps (delete_node id model) db tx (λ _ h,
    labelled (client_view db tx) id (nm_label model) ∧
    op_effect (DeleteNode id) RUnit (client_view db tx) h).
Proof.
  intros Ho. eapply kept_bind; [by apply validate_endpoint_step|].
  intros [] db1 tx1 Ho1 [Hv Hl]. eapply kept_weaken.
  - by apply (on_step_keeps _ (λ _, RUnit) (DeleteNode id)).
  - intros [] h Heff. split; [done|]. by rewrite <-Hv.
Qed.
Lemma find_edge_step id rel_type db tx :
  client_open db tx → in_i64 id = true →
  ckeeps (find_edge id rel_type) db tx (λ found h,
    h ≡ client_view db tx ∧ found = edge_of (client_view db tx) id rel_type).
Proof.
  intros Ho Hid. eapply kept_bind.
  { apply (on_tx_keeps _ _ _ (λ answer h, h ≡ client_view db tx ∧
      qr_rows answer = edge_rows (edge_of (client_view db tx) id rel_type))); [done|].
    intros inner -> Hi. unfold keeps.
    destruct (gx_execute_query _ _ db inner) as [[r db'] inner'] eqn:Hq.
    by apply (lookup_promise id rel_type db inner r db' inner'). }
  intros answer db1 tx1 Ho1 [Hv Hrows]. apply kept_lift; [done|]. intros found.
  rewrite Hrows. destruct (edge_of _ id rel_type) as [rel|]; [|by intros [= <-]].
  cbn. unfold first_value, bt_values. cbn. destruct rel; cbn. by intros [= <-].
Qed.
Lemma known_edge_step id model db tx :
  client_open db tx → in_i64 id = true →
  ckeeps (known_edge id model) db tx (λ rel h,
    h ≡ client_view db tx ∧ edge_of (client_view db tx) id (rm_rel_type model) = Some rel).
Proof.
  intros Ho Hid. eapply kept_bind; [by apply find_edge_step|]. intros found db1 tx1 Ho1 [Hv ->].
  apply kept_lift; [done|]. by intros rel Hr%ok_or_Ok.
Qed.
Lemma update_edge_step id model props db tx :
  client_open db tx → in_i64 id = true → props_portable props →
  ckeeps (update_edge id model props) db tx (λ rel h,
    is_Some (edge_of (client_view db tx) id (rm_rel_type model)) ∧
    op_effect (UpdateRelationship id props) (RRelOpt (Some rel)) (client_view db tx) h).
Proof.
  intros Ho Hid Hp. eapply kept_bind; [by apply known_edge_step|]. intros old db1 tx1 Ho1 [Hv Hold].
  eapply kept_bind; [by apply (on_step_keeps _ RRelOpt (UpdateRelationship id props))|].
  intros found db2 tx2 Ho2 Heff. apply kept_lift; [done|]. intros rel ->%ok_or_Ok.
  split; [by rewrite Hold|]. by rewrite <-Hv.
Qed.
Lemma delete_edge_step id model db tx :
  client_open db tx → in_i64 id = true →
  ckeeps (delete_edge id model) db tx (λ _ h,
    is_Some (edge_of (client_view db tx) id (rm_rel_type model)) ∧
    op_effect (DeleteRelationship id) RUnit (client_view db tx) h).
Proof.
  intros Ho Hid. eapply kept_bind; [by apply known_edge_step|]. intros old db1 tx1 Ho1 [Hv Hold].
  eapply kept_weaken; [by apply (on_step_keeps _ (λ _, RUnit) (DeleteRelationship id))|].
  intros [] h Heff. split; [by rewrite Hold|]. by rewrite <-Hv.
Qed.
End steps.

(** ** The batch *)

Section batch.
Context `{SerdeNumber} `{!NumberLaws} `{Formats} `{!FormatLaws}.
Context {Db Tx : Type} `{!GraphTx Db Tx} `{!GraphBackend Db Tx} `{!DatabaseLaws Db Tx}.
Implicit Types (c : SessionModelCatalog) (g h : AGraph) (tx : option Tx) (st : Staged).

Abbreviation ckeeps := (keeps (client_open (Db:=Db) (Tx:=Tx)) committed client_view).

(** An operation names an edge by an [i64]. *)
Definition op_id_ok (op : SessionBatchOp) : bool :=
  match op with BEdgeUpdate _ id _ | BEdgeDelete _ id => in_i64 id | _ => true end.

Lemma checks_step {A} (r : result A) db tx :
  client_open db tx →
  ckeeps (txw_lift r) db tx (λ a h, h ≡ client_view db tx ∧ r = Ok a).
Proof. intros Ho. by apply kept_lift. Qed.

Lemma op_means_catalog op c refs g c' refs' h s :
  op_means op c refs g c' refs' h s → catalog_ok c → catalog_ok c'.
Proof.
  intros Hop Hc. destruct op; cbn [op_means] in Hop; try (by naive_solver).
  - destruct Hop as (fs & m & _ & Hm & Hreg & _).
    apply RuntimeNodeModel_new_ok in Hm as (Hok & _ & _). by eapply register_node_model_ok.
  - destruct Hop as (fs & m & _ & Hm & Hfrom & Hto & Hreg & _).
    apply RuntimeRelModel_new_ok in Hm as (Hok & _). by eapply register_rel_model_ok.
Qed.

Lemma node_input_portable c name model raw props :
  catalog_ok c → get_node_model c name = Some model →
  ensure_neo4j_fields_supported (nm_fields model) = Ok tt →
  node_validate_instance_input model raw = Ok props → props_portable props.
Proof.
  intros Hc Hm Hf. destruct (Catalog.co_node _ Hc _ _ Hm) as [_ (_ & _ & Hok)].
  apply input_portable; [by eapply model_fields_nodup|done].
Qed.
Lemma rel_input_portable c name model raw props :
  catalog_ok c → get_rel_model c name = Some model →
  ensure_neo4j_fields_supported (rm_fields model) = Ok tt →
  rel_validate_instance_input model raw = Ok props → props_portable props.
Proof.
  intros Hc Hm Hf. destruct (Catalog.co_rel _ Hc _ _ Hm) as (_ & (_ & _ & Hok) & _).
  apply input_portable; [by eapply model_fields_nodup|done].
Qed.

(** What an operation stages is what it means. *)
Definition stages (op : SessionBatchOp) st g (a : BatchApplied * Staged) h : Prop :=
  ∃ s, op_means op (ss_catalog (sg_state st)) (sg_refs st) g
         (ss_catalog (sg_state a.2)) (sg_refs a.2) h s ∧
       sg_schema_ops a.2 = (sg_schema_ops st ++ s)%list ∧
       ss_store (sg_state a.2) = ss_store (sg_state st).
Lemma stages_same op st g applied h :
  op_means op (ss_catalog (sg_state st)) (sg_refs st) g (ss_catalog (sg_state st)) (sg_refs st) h [] →
  stages op st g (applied, st) h.
Proof. intros Hop. exists []. split_and!; [done|by rewrite app_nil_r|done]. Qed.

Lemma define_node_step name id_field fields st db tx :
  client_open db tx →
  ckeeps (apply_batch_op (BSchemaDefineNode name id_field fields) st) db tx
    (stages (BSchemaDefineNode name id_field fields) st (client_view db tx)).
Proof.
  intros Ho. eapply kept_weaken; [by apply checks_step|].
  intros a h [Hv (fs & Hfs & (m & Hm & (staged & Hreg & [= <-])%bind_Ok)%bind_Ok)%bind_Ok].
  unfold registered, register_model in Hreg.
  destruct (register_node_model m (ss_catalog (sg_state st))) as [c'|] eqn:Hc; [|done].
  injection Hreg as <-. exists [RegisterNodeModel m]. cbn. split_and!; [|done|done].
  exists fs, m. done.
Qed.
Lemma define_edge_step name from to id_field fields st db tx :
  client_open db tx →
  ckeeps (apply_batch_op (BSchemaDefineEdge name from to id_field fields) st) db tx
    (stages (BSchemaDefineEdge name from to id_field fields) st (client_view db tx)).
Proof.
  intros Ho. eapply kept_weaken; [by apply checks_step|].
  intros a h [Hv (fs & Hfs & (m & Hm & (staged & Hreg & [= <-])%bind_Ok)%bind_Ok)%bind_Ok].
  unfold registered, session_register_rel_model in Hreg.
  destruct (get_node_model (ss_catalog (sg_state st)) (rm_from_model m)) eqn:Hf; cbn in Hreg; [|done].
  destruct (get_node_model (ss_catalog (sg_state st)) (rm_to_model m)) eqn:Ht; cbn in Hreg; [|done].
  destruct (register_rel_model m (ss_catalog (sg_state st))) as [c'|] eqn:Hc; [|done].
  injection Hreg as <-. exists [RegisterRelModel m]. cbn. split_and!; [|done|done].
  exists fs, m. split_and!; try done; by eexists.
Qed.
Lemma create_node_step model props ref st db tx :
  client_open db tx → catalog_ok (ss_catalog (sg_state st)) →
  ckeeps (apply_batch_op (BNodeCreate model props ref) st) db tx
    (stages (BNodeCreate model props ref) st (client_view db tx)).
Proof.
  intros Ho Hc. cbn [apply_batch_op].
  destruct (match ref with Some r => _ | None => false end) eqn:Hdup; [by apply kept_lift|].
  eapply kept_bind; [by apply checks_step|].
  intros p db1 tx1 Ho1 [Hv (m & Hm%ok_or_Ok & ([] & Hs & (raw & Hraw & (ps & Hps & [= <-])
    %bind_Ok)%bind_Ok)%bind_Ok)%bind_Ok]. cbn [fst snd].
  eapply kept_bind.
  { apply (on_step_keeps _ RNode (CreateNode [nm_label m] ps)); [done| |done].
    split; [by eexists|]. by eapply node_input_portable. }
  intros node db2 tx2 Ho2 Heff. apply kept_ret; [done|]. exists [].
  cbn [fst snd sg_state sg_refs sg_schema_ops op_means].
  split_and!; [|by rewrite app_nil_r|done]. exists m, raw, ps, node.
  split_and!; try done; [by rewrite <-Hv|].
  destruct ref as [r|]; [|done]. split; [|done].
  by apply bool_decide_eq_false, eq_None_not_Some in Hdup.
Qed.
Lemma update_node_op_step model_name id values st db tx :
  client_open db tx →
  ckeeps (apply_batch_op (BNodeUpdate model_name id values) st) db tx
    (stages (BNodeUpdate model_name id values) st (client_view db tx)).
Proof.
  intros Ho. eapply kept_bind; [by apply checks_step|].
  intros p db1 tx1 Ho1 [Hv (m & Hm%ok_or_Ok & (raw & Hraw & (ps & Hps & [= <-])
    %bind_Ok)%bind_Ok)%bind_Ok]. cbn [fst snd].
  eapply kept_bind; [apply update_node_step; [done|by eapply update_props_ok]|].
  intros node db2 tx2 Ho2 [Hl Heff]. apply kept_ret; [done|]. apply stages_same.
  rewrite Hv in Hl, Heff. by exists m, raw, ps, node.
Qed.
Lemma delete_node_op_step model_name id st db tx :
  client_open db tx →
  ckeeps (apply_batch_op (BNodeDelete model_name id) st) db tx
    (stages (BNodeDelete model_name id) st (client_view db tx)).
Proof.
  intros Ho. eapply kept_bind; [by apply checks_step|]. intros m db1 tx1 Ho1 [Hv Hm%ok_or_Ok].
  eapply kept_bind; [by apply delete_node_step|].
  intros [] db2 tx2 Ho2 [Hl Heff]. apply kept_ret; [done|]. apply stages_same.
  rewrite Hv in Hl, Heff. by exists m.
Qed.
Lemma create_edge_step model from to values st db tx :
  client_open db tx → catalog_ok (ss_catalog (sg_state st)) →
  ckeeps (apply_batch_op (BEdgeCreate model from to values) st) db tx
    (stages (BEdgeCreate model from to values) st (client_view db tx)).
Proof.
  intros Ho Hc. eapply (kept_bind _ _ _ _ _ _ _ (λ _ h, op_means (BEdgeCreate model from to values)
    (ss_catalog (sg_state st)) (sg_refs st) (client_view db tx) (ss_catalog (sg_state st))
    (sg_refs st) h [])).
  2: { intros applied db1 tx1 Ho1 Hop. apply kept_ret; [done|]. by apply stages_same. }
  eapply kept_bind; [by apply checks_step|].
  intros p db1 tx1 Ho1 [Hv (f & Hf & (t & Ht & (raw & Hraw & (e & He & [= <-])
    %bind_Ok)%bind_Ok)%bind_Ok)%bind_Ok].
  apply bind_Ok in He as (m & Hm%ok_or_Ok & ([] & Hs & (mf & Hmf%ok_or_Ok & (mt & Hmt%ok_or_Ok &
    (ps & Hps & [= <-])%bind_Ok)%bind_Ok)%bind_Ok)%bind_Ok).
  eapply kept_bind; [by apply validate_endpoint_step|]. intros [] db2 tx2 Ho2 [Hv2 Hlf].
  eapply kept_bind; [by apply validate_endpoint_step|]. intros [] db3 tx3 Ho3 [Hv3 Hlt].
  eapply kept_bind.
  { apply (on_step_keeps _ RRel (CreateRelationship f t (rm_rel_type m) ps)); [done| |done].
    by eapply rel_input_portable. }
  intros rel db4 tx4 Ho4 Heff. apply kept_ret; [done|].
  cbn beta in Heff. rewrite Hv3, Hv2, Hv in Heff. rewrite Hv in Hlf. rewrite Hv2, Hv in Hlt.
  by exists m, mf, mt, f, t, raw, ps, rel.
Qed.
Lemma update_edge_op_step model_name id values st db tx :
  client_open db tx → in_i64 id = true →
  ckeeps (apply_batch_op (BEdgeUpdate model_name id values) st) db tx
    (stages (BEdgeUpdate model_name id values) st (client_view db tx)).
Proof.
  intros Ho Hid. eapply kept_bind; [by apply checks_step|].
  intros p db1 tx1 Ho1 [Hv (m & Hm%ok_or_Ok & (raw & Hraw & (ps & Hps & [= <-])
    %bind_Ok)%bind_Ok)%bind_Ok]. cbn [fst snd].
  eapply kept_bind; [apply update_edge_step; [done|done|by eapply update_props_ok]|].
  intros rel db2 tx2 Ho2 [[old Hold] Heff]. apply kept_ret; [done|]. apply stages_same.
  rewrite Hv in Heff. rewrite Hv in Hold. by exists m, raw, ps, old, rel.
Qed.
Lemma delete_edge_op_step model_name id st db tx :
  client_open db tx → in_i64 id = true →
  ckeeps (apply_batch_op (BEdgeDelete model_name id) st) db tx
    (stages (BEdgeDelete model_name id) st (client_view db tx)).
Proof.
  intros Ho Hid. eapply kept_bind; [by apply checks_step|]. intros m db1 tx1 Ho1 [Hv Hm%ok_or_Ok].
  eapply kept_bind; [by apply delete_edge_step|].
  intros [] db2 tx2 Ho2 [[old Hold] Heff]. apply kept_ret; [done|]. apply stages_same.
  rewrite Hv in Heff. rewrite Hv in Hold. by exists m, old.
Qed.
Lemma batch_op_step op st db tx :
  client_open db tx → catalog_ok (ss_catalog (sg_state st)) → op_id_ok op = true →
  ckeeps (apply_batch_op op st) db tx (stages op st (client_view db tx)).
Proof.
  intros Ho Hc Hid. destruct op.
  - by apply define_node_step.
  - by apply define_edge_step.
  - by apply create_node_step.
  - by apply update_node_op_step.
  - by apply delete_node_op_step.
  - by apply create_edge_step.
  - by apply update_edge_op_step.
  - by apply delete_edge_op_step.
Qed.

(** *** The loop *)

Definition outcome_applied (o : Neo4jBatchOutcome) : option bool :=
  as_object (no_value o) ≫= λ m, object_get m "applied" ≫= as_bool.

Lemma failed_batch_leaves index message su db tx res db' tx' :
  client_open db tx → failed_batch index message su db tx = (res, db', tx') →
  ∃ o, res = inl o ∧ outcome_applied o = Some false ∧ no_schema_ops o = [] ∧
       server_ok db' ∧ committed db' ≡ committed db ∧ tx' = None.
Proof.
  unfold failed_batch, client_rollback. destruct tx as [inner|]; [|done]. intros Ho.
  destruct (gx_rollback db inner) as [r db1] eqn:Hr. intros [= <- <- <-].
  destruct (rollback_promise db inner r db1 Ho Hr). by eexists.
Qed.

Lemma batch_loop_step allow ops : ∀ index su st db tx res db' tx',
  client_open db tx → catalog_ok (ss_catalog (sg_state st)) → forallb op_id_ok ops = true →
  batch_loop allow index ops su st db tx = (res, db', tx') →
  match res with
  | inl o =>
      outcome_applied o = Some false ∧ no_schema_ops o = [] ∧
      server_ok db' ∧ committed db' ≡ committed db ∧ tx' = None
  | inr (su', st') =>
      client_open db' tx' ∧ committed db' ≡ committed db ∧ ns_applied su' = ns_applied su ∧
      ss_store (sg_state st') = ss_store (sg_state st) ∧
      ∃ s, sg_schema_ops st' = (sg_schema_ops st ++ s)%list ∧
        batch_means ops (ss_catalog (sg_state st)) (sg_refs st) (client_view db tx)
          (ss_catalog (sg_state st')) (sg_refs st') (client_view db' tx') s
  end.
Proof.
  induction ops as [|op ops IH]; intros index su st db tx res db' tx' Ho Hc Hids; cbn [batch_loop].
  { intros [= <- <- <-]. split_and!; try done. exists []. rewrite app_nil_r. split; [done|].
    by constructor. }
  cbn in Hids. apply andb_true_iff in Hids as [Hid Hids].
  destruct (is_delete op && negb allow).
  { intros Hf. by destruct (failed_batch_leaves _ _ _ _ _ _ _ _ Ho Hf) as (o & -> & ?). }
  pose proof (batch_op_step op st db tx Ho Hc Hid) as Hk. unfold keeps in Hk.
  destruct (apply_batch_op op st db tx) as [[[[applied st1]|e] db1] tx1]; destruct Hk as (Ho1 & Hc1 & Hst).
  2: { intros Hf. destruct (failed_batch_leaves _ _ _ _ _ _ _ _ Ho1 Hf) as (o & -> & ? & ? & ? & Hc' & ?).
       split_and!; try done. by rewrite Hc'. }
  destruct (Hst _ eq_refl) as (s & Hop & Hs & Hstore). cbn [snd] in *.
  intros Hl. apply IH in Hl; [|done|by eapply op_means_catalog|done].
  destruct res as [o|[su' st']].
  - destruct Hl as (? & ? & ? & Hc' & ?). split_and!; try done. by rewrite Hc'.
  - destruct Hl as (? & Hc' & ? & Hstore' & s' & Hs' & Hmeans).
    split_and!; try done; [by rewrite Hc'|by rewrite Hstore'|].
    exists (s ++ s')%list. split; [by rewrite Hs', Hs, app_assoc|]. by econstructor.
Qed.

(** *** All or nothing *)

Definition batch_ids_ok (params : SessionBatchParams) : bool := forallb op_id_ok (bp_ops params).
Definition batch_failed (r : result Neo4jBatchOutcome) : Prop :=
  match r with
  | Ok o => outcome_applied o = Some false ∧ no_schema_ops o = []
  | Err _ => True
  end.
(** What a batch can leave: everything, nothing, or everything in the database with the
    answer of its commit lost. *)
Definition batch_ends (params : SessionBatchParams) (σ : SessionState) g
    (r : result Neo4jBatchOutcome) (σ' : SessionState) h : Prop :=
  (∃ o refs, r = Ok o ∧ outcome_applied o = Some true ∧ ss_store σ' = ss_store σ ∧
     batch_means (bp_ops params) (ss_catalog σ) ∅ g (ss_catalog σ') refs h (no_schema_ops o)) ∨
  (batch_failed r ∧ σ' = σ ∧ h ≡ g) ∨
  (is_ok r = false ∧ σ' = σ ∧ ∃ c refs s, batch_means (bp_ops params) (ss_catalog σ) ∅ g c refs h s).

Lemma batch_outcome params σ db r σ' db' :
  server_ok db → catalog_ok (ss_catalog σ) → batch_ids_ok params = true →
  apply_neo4j_batch params σ db = (r, σ', db') →
  server_ok db' ∧ batch_ends params σ (committed db) r σ' (committed db').
Proof.
  intros Hok Hc Hids. unfold apply_neo4j_batch, client_transaction.
  destruct (bp_atomic params); cbn [negb]; [|intros [= <- <- <-]; split; [done|by right; left]].
  destruct (begin_tx db) as [[tx|e] db1] eqn:Hb;
    destruct (begin_promise db _ db1 Hok Hb) as (Hok1 & Hc1 & Htx); cbn [fst snd].
  2: { intros [= <- <- <-]. split; [done|by right; left]. }
  destruct (Htx tx eq_refl) as [Ho Hv]. clear Htx. rewrite Hc1 in Hv.
  destruct (batch_loop _ _ _ _ _ db1 (Some tx)) as [[res db2] tx2] eqn:Hl.
  apply batch_loop_step in Hl; [|exact Ho|exact Hc|exact Hids].
  destruct res as [o|[su st]].
  - destruct Hl as (Happ & Hs & Hok2 & Hc2 & ->). intros [= <- <- <-]. cbn.
    split; [done|]. right; left. split_and!; try done. by rewrite Hc2.
  - destruct Hl as (Ho2 & Hc2 & Happ & Hstore & s & Hs & Hmeans).
    unfold client_commit. destruct tx2 as [tx2|]; [|done].
    apply batch_means_before with (g' := committed db) in Hmeans; [|done]. cbn in Hs, Hmeans, Ho2.
    destruct (gx_commit db2 tx2) as [[u|e] db3] eqn:Hcom;
      destruct (commit_promise db2 tx2 _ db3 Ho2 Hcom) as [Hok3 Hc3]; intros [= <- <- <-];
      (split; [done|]).
    + left. do 2 eexists. split_and!; [done| |done|].
      * unfold outcome_applied. cbn. by rewrite Happ.
      * cbn. rewrite Hs. eapply batch_means_after; [exact Hmeans|by symmetry].
    + destruct Hc3 as [Hc3|Hc3].
      * right; left. split_and!; try done. by rewrite Hc3, Hc2.
      * right; right. split_and!; try done. do 3 eexists.
        eapply batch_means_after; [exact Hmeans|by symmetry].
Qed.

(** *** The data stays in line with the schema *)

Lemma graph_conforms_equiv c g h : g ≡ h → graph_conforms c g → graph_conforms c h.
Proof.
  intros [Hn Hr] [Hcn Hcr]. split; rewrite <-?Hn, <-?Hr; [exact Hcn|].
  intros id rel Hl. destruct (Hcr id rel Hl) as (m & Hm & Ht & Hp & Hf & Hto).
  exists m. split_and!; [done|done|done|..]; (eapply labelled_proper; [split; symmetry; done|done..]).
Qed.
Lemma op_means_conforms op c refs g c' refs' h s :
  op_means op c refs g c' refs' h s → catalog_ok c → graph_conforms c g → graph_conforms c' h.
Proof.
  intros Hop Hc Hg. destruct op; cbn [op_means] in Hop.
  - destruct Hop as (fs & m & _ & _ & Hreg & _ & _ & Hh). eapply graph_conforms_equiv; [by symmetry|].
    by eapply conf_register_node.
  - destruct Hop as (fs & m & _ & _ & _ & _ & Hreg & _ & _ & Hh).
    eapply graph_conforms_equiv; [by symmetry|]. by eapply conf_register_rel.
  - destruct Hop as (m & raw & ps & node & Hm & Hs & _ & Hps & (id & Hfresh & _ & Hh) & -> & _).
    eapply graph_conforms_equiv; [by symmetry|].
    destruct (Catalog.co_node _ Hc _ _ Hm) as [Hname (_ & _ & Hfields)].
    eapply graph_conforms_equiv; [|apply (conf_create_node c {| ag_nodes := ag_nodes g;
      ag_rels := ag_rels g; ag_next_node := id; ag_next_rel := 0 |} m ps)]; [done|..].
    + by eapply graph_conforms_equiv; [|exact Hg].
    + by rewrite Hname.
    + eapply input_conforms; [by eapply model_fields_nodup|by apply supported_regular|exact Hps].
    + done.
  - destruct Hop as (m & raw & ps & node & Hm & _ & Hps & Hl & [Hans Hh] & -> & _).
    eapply graph_conforms_equiv; [by symmetry|].
    destruct (Catalog.co_node _ Hc _ _ Hm) as [Hname _].
    eapply conf_update_node; try done; [by rewrite Hname|by eapply update_props_ok].
  - destruct Hop as (m & _ & _ & [_ Hh] & -> & _). eapply graph_conforms_equiv; [by symmetry|].
    by apply conf_delete_node.
  - destruct Hop as (m & mf & mt & f & t & raw & ps & rel & _ & _ & Hm & Hs & Hmf & Hmt & _ & Hps &
      Hlf & Hlt & (id & Hfresh & _ & _ & _ & Hh) & -> & _).
    eapply graph_conforms_equiv; [by symmetry|].
    destruct (Catalog.co_rel _ Hc _ _ Hm) as (Hname & (_ & _ & Hfields) & _).
    destruct (Catalog.co_node _ Hc _ _ Hmf) as [Hnf (_ & Hlabf & _)].
    destruct (Catalog.co_node _ Hc _ _ Hmt) as [Hnt (_ & Hlabt & _)].
    eapply graph_conforms_equiv; [|apply (conf_create_rel c {| ag_nodes := ag_nodes g;
      ag_rels := ag_rels g; ag_next_node := 0; ag_next_rel := id |} m f t ps)]; [done|..].
    + by eapply graph_conforms_equiv; [|exact Hg].
    + by rewrite Hname.
    + eapply input_conforms; [by eapply model_fields_nodup|by apply supported_regular|exact Hps].
    + rewrite Hlabf, Hnf in Hlf. exact Hlf.
    + rewrite Hlabt, Hnt in Hlt. exact Hlt.
  - destruct Hop as (m & raw & ps & old & rel & Hm & _ & Hps & Hold & [Hans Hh] & -> & _).
    eapply graph_conforms_equiv; [by symmetry|].
    destruct (Catalog.co_rel _ Hc _ _ Hm) as (Hname & _ & _).
    unfold edge_of in Hold. apply bind_Some in Hold as (r & Hr & Hold).
    destruct (String.eqb (sr_rel_type r) (rm_rel_type m)) eqn:Ht; [|done]. apply String.eqb_eq in Ht.
    eapply conf_update_rel; try done; [by rewrite Hname|by eapply update_props_ok].
  - destruct Hop as (m & old & _ & _ & [_ Hh] & -> & _). eapply graph_conforms_equiv; [by symmetry|].
    by apply conf_delete_rel.
Qed.
Lemma batch_means_conforms ops c refs g c' refs' h s :
  batch_means ops c refs g c' refs' h s → catalog_ok c → graph_conforms c g →
  catalog_ok c' ∧ graph_conforms c' h.
Proof.
  induction 1 as [c refs g h Hg|op ops c refs g c1 refs1 g1 c2 refs2 h s s' Hop _ IH]; intros Hc Hconf.
  - split; [done|]. by eapply graph_conforms_equiv.
  - apply IH; [by eapply op_means_catalog|by eapply op_means_conforms].
Qed.

(** C38: a batch on a Neo4j session is all or nothing: it is applied, and then the schema
    and the committed graph are those its operations mean one after the other, each
    checked against the schema as staged so far, the schema operations it answers being
    those it defined; or it is not, whatever failed and wherever, and both are as they
    were; or the commit's own answer was lost. *)
Theorem neo4j_batch_all_or_nothing params σ db r σ' db' :
  server_ok db → catalog_ok (ss_catalog σ) → batch_ids_ok params = true →
  apply_neo4j_batch params σ db = (r, σ', db') →
  server_ok db' ∧ batch_ends params σ (committed db) r σ' (committed db').
Proof. apply batch_outcome. Qed.

(** C39: a batch that is applied keeps the database in line with the schema: if every
    node and relationship conformed to the models of the session, they conform to those
    it has after, and a batch that fails changes neither. *)
Theorem neo4j_batch_keeps_the_schema params σ db o σ' db' :
  server_ok db → catalog_ok (ss_catalog σ) → batch_ids_ok params = true →
  graph_conforms (ss_catalog σ) (committed db) →
  apply_neo4j_batch params σ db = (Ok o, σ', db') →
  catalog_ok (ss_catalog σ') ∧ graph_conforms (ss_catalog σ') (committed db').
Proof.
  intros Hok Hc Hids Hg Hb.
  destruct (batch_outcome params σ db (Ok o) σ' db' Hok Hc Hids Hb)
    as [_ [(o' & refs & _ & _ & _ & Hmeans)|[(_ & -> & Hh)|(Herr & _)]]].
  - by eapply batch_means_conforms.
  - split; [done|]. eapply graph_conforms_equiv; [by symmetry|done].
  - done.
Qed.
End batch.

(** ** At a small server *)

#[local] Existing Instance serde_default.
#[local] Existing Instance serde_default_laws.
#[local] Existing Instance w_formats.
#[local] Existing Instance w_formats_laws.
#[local] Instance witness_json : JsonText := {| json_text _ := "" |}.

Definition w_text_field (name : string) : SessionBatchFieldParam :=
  {| bf_name := name; bf_value_type := "string"; bf_required := true |}.
Definition w_schema : list SessionBatchOp :=
  [ BSchemaDefineNode "Author" "authorId" [w_text_field "name"];
    BSchemaDefineNode "Book" "bookId" [w_text_field "title"];
    BSchemaDefineEdge "Wrote" "Author" "Book" "wroteId"
      [{| bf_name := "year"; bf_value_type := "int"; bf_required := false |}] ].
Definition w_data : list SessionBatchOp :=
  [ BNodeCreate "Author" {["name" := Str "Ada"]} (Some "ada");
    BNodeCreate "Book" {["title" := Str "Notes"]} (Some "notes");
    BEdgeCreate "Wrote" (EndpointRef "ada") (EndpointRef "notes") {["year" := Str "1842"]};
    BEdgeUpdate "Wrote" 0 {["year" := value_from_i64 1843]};
    BNodeUpdate "Author" 0 {["name" := Str "Ada Lovelace"]} ].
Definition w_neo4j_batch (ops : list SessionBatchOp) : SessionBatchParams :=
  {| bp_atomic := true; bp_allow_deletes := false; bp_response := BatchDetailedResponse;
     bp_ops := ops |}.
Definition w_whole : SessionBatchParams := w_neo4j_batch (w_schema ++ w_data).
(** The same with an edge to nowhere. *)
Definition w_broken : SessionBatchParams :=
  w_neo4j_batch (w_schema ++ w_data ++ [BEdgeCreate "Wrote" (EndpointId 0) (EndpointId 7) ∅]).
Definition w_run (params : SessionBatchParams) :=
  apply_neo4j_batch params session_new w_empty.

Definition w_applied (r : result Neo4jBatchOutcome * SessionState * AGraph) : bool :=
  match r with
  | (Ok o, σ, g) =>
      bool_decide (outcome_applied o = Some true) && bool_decide (length (no_schema_ops o) = 3)
      && bool_decide (size (ag_nodes g) = 2) && bool_decide (size (ag_rels g) = 1)
      && bool_decide (is_Some (get_rel_model (ss_catalog σ) "Wrote"))
  | _ => false
  end.
Definition w_refused (r : result Neo4jBatchOutcome * SessionState * AGraph) : bool :=
  match r with
  | (Ok o, σ, g) =>
      bool_decide (outcome_applied o = Some false) && bool_decide (no_schema_ops o = [])
      && bool_decide (ag_nodes g = ∅) && catalog_is_empty (ss_catalog σ)
  | _ => false
  end.

Lemma neo4j_batch_all_or_nothing_witness :
  w_applied (w_run w_whole) = true ∧ w_refused (w_run w_broken) = true ∧
  let '(r, σ, g) := w_run w_broken in batch_ends w_broken session_new w_empty r σ g.
Proof.
  split; [vm_compute; reflexivity|]. split; [vm_compute; reflexivity|].
  destruct (w_run w_broken) as [[r σ] g] eqn:Hrun.
  destruct (neo4j_batch_all_or_nothing w_broken session_new w_empty r σ g) as [_ Hend];
    [exact I|apply catalog_new_ok|reflexivity|exact Hrun|exact Hend].
Defined.

Lemma neo4j_batch_keeps_the_schema_witness :
  w_applied (w_run w_whole) = true ∧
  let '(_, σ, g) := w_run w_whole in graph_conforms (ss_catalog σ) g.
Proof.
  assert (w_applied (w_run w_whole) = true) as Happ by (vm_compute; reflexivity).
  split; [exact Happ|]. revert Happ. destruct (w_run w_whole) as [[[o|e] σ] g] eqn:Hrun;
    [intros _|discriminate].
  destruct (neo4j_batch_keeps_the_schema w_whole session_new w_empty o σ g) as [_ Hconf];
    [exact I|apply catalog_new_ok|reflexivity| |exact Hrun|exact Hconf].
  split; intros ?? Hl; cbn in Hl; by rewrite lookup_empty in Hl.
Defined.
