(* ===== verification/TerminalRuns.v ===== *)
(** * Runs of the command line

    Every run of a [CliSession] ends; a script transaction that fails leaves no
    trace, in memory or on disk; and with autocommit on the files always hold the
    session, or the session an open transaction began with. *)

From S2P Require Export Terminal.

Local Open Scope string_scope.

(** ** Runs end

    A step [ends d] when it answers, with a value or an error, with at least [d]
    bytes less to read where it succeeds; a kill is the only other way out. *)

Section ends.
Context `{SerdeNumber} `{Formats} `{!JsonText} `{!SnapshotCodec} `{!SessionCodec}
  `{!InterchangeCodec} `{!IoText} `{!Machine}.

Definition left_to_read (s : CliSession) : nat := String.length (c_reader s).

Definition ends_with {A} (d : A → nat) (m : cli A) : Prop := ∀ s fl fs,
  match m s fl fs with
  | (Done (Some (Ok a), s'), _, _) => (d a + left_to_read s' ≤ left_to_read s)%nat
  | (Done (Some (Err _), s'), _, _) => (left_to_read s' ≤ left_to_read s)%nat
  | (Done (None, _), _, _) | (Failed _, _, _) => False
  | (Crashed, _, _) => True
  end.
Definition ends {A} (m : cli A) : Prop := ends_with (λ _, 0) m.
(** A turn of a loop that goes on has read something. *)
Definition turn_ends {X A} (m : cli (X + A)) : Prop :=
  ends_with (λ r, match r with inl _ => 1 | inr _ => 0 end) m.

Lemma ends_weaken {A} (d d' : A → nat) (m : cli A) :
  (∀ a, d a ≤ d' a)%nat → ends_with d' m → ends_with d m.
Proof.
  intros Hle Hm s fl fs. specialize (Hm s fl fs).
  destruct (m s fl fs) as [[[[[[a|e]|] s']|e|] fl'] fs']; try done. specialize (Hle a). lia.
Qed.
Lemma ends_any {A} (d : A → nat) (m : cli A) : ends_with d m → ends m.
Proof. apply ends_weaken. intros a. lia. Qed.

Lemma ends_bind_with {A B} (n : A → nat) (d : B → nat) (m : cli A) (f : A → cli B) :
  ends_with n m → (∀ a, ends_with (λ b, d b - n a) (f a)) → ends_with d (m ≫= f).
Proof.
  intros Hm Hf s fl fs. specialize (Hm s fl fs). unfold mbind, cli_bind.
  destruct (m s fl fs) as [[[[[[a|e]|] s']|?|] fl'] fs']; try done.
  specialize (Hf a s' fl' fs').
  destruct (f a s' fl' fs') as [[[[[[b|e]|] s'']|?|] fl''] fs'']; try done; lia.
Qed.
Lemma ends_bind {A B} (d : B → nat) (m : cli A) (f : A → cli B) :
  ends m → (∀ a, ends_with d (f a)) → ends_with d (m ≫= f).
Proof.
  intros Hm Hf. apply (ends_bind_with (λ _, 0)); [done|]. intros a. eapply ends_weaken; [|apply Hf].
  cbn. lia.
Qed.
(** After something was read a loop may go on. *)
Lemma turn_ends_bind {A X B} (m : cli A) (f : A → cli (X + B)) :
  ends_with (λ _, 1) m → (∀ a, ends (f a)) → turn_ends (m ≫= f).
Proof.
  intros Hm Hf. apply (ends_bind_with (λ _, 1)); [done|]. intros a. eapply ends_weaken; [|apply Hf].
  intros []; cbn; lia.
Qed.

Lemma ends_ret {A} (a : A) : ends (mret a).
Proof. intros s fl fs. cbn. lia. Qed.
Lemma ends_lift {A} (r : result A) : ends (cli_lift r).
Proof. intros s fl fs. destruct r; cbn; lia. Qed.
Lemma ends_fail {A} (d : A → nat) e : ends_with d (fail e).
Proof. intros s fl fs. cbn. lia. Qed.
Lemma ends_gets {A} (f : CliSession → A) : ends (gets f).
Proof. intros s fl fs. cbn. lia. Qed.
Lemma ends_modify f : (∀ s, c_reader (f s) = c_reader s) → ends (modify f).
Proof. intros Hf s fl fs. cbn. unfold left_to_read. by rewrite Hf. Qed.
Lemma ends_on_session {A} (m : session A) : ends (on_session m).
Proof. intros s fl fs. unfold on_session. destruct (m (c_state s)) as [[a|e] σ]; cbn; unfold left_to_read; cbn; lia. Qed.
Lemma ends_on_find {A} (m : SessionModelCatalog → GraphStore → result A * GraphStore) :
  ends (on_find m).
Proof. apply ends_on_session. Qed.
Lemma ends_on_prof {A} (m : SessionModelCatalog → prof A) : ends (on_prof m).
Proof.
  intros s fl fs. unfold on_prof. destruct (m _ _ _) as [[[a|e] store] k]; cbn; unfold left_to_read; cbn; lia.
Qed.
Lemma ends_map_error {A} f (m : cli A) : ends m → ends (map_error f m).
Proof.
  intros Hm s fl fs. specialize (Hm s fl fs). unfold map_error.
  by destruct (m s fl fs) as [[[[[[a|e]|] s']|?|] fl'] fs'].
Qed.
Lemma ends_attempt {A} (m : cli A) : ends m → ends (attempt m).
Proof.
  intros Hm s fl fs. specialize (Hm s fl fs). unfold attempt.
  by destruct (m s fl fs) as [[[[[[a|e]|] s']|?|] fl'] fs'].
Qed.
Lemma ends_write text : ends (write text).
Proof.
  intros s fl fs. unfold write. destruct fl as [|[] fl]; cbn; unfold left_to_read; cbn; try done; lia.
Qed.
Lemma ends_write_lines lines : ends (write_lines lines).
Proof.
  induction lines as [|line lines IH]; cbn; [apply ends_ret|].
  apply ends_bind; [apply ends_write|done].
Qed.
Lemma ends_when b m : ends m → ends (when b m).
Proof. destruct b; [done|]. intros _. apply ends_ret. Qed.
Lemma ends_unless_script m : ends m → ends (unless_script m).
Proof. intros Hm. apply ends_bind; [apply ends_gets|]. intros b. by apply ends_when. Qed.

Lemma take_line_length s :
  (String.length (take_line s).1 + String.length (take_line s).2 = String.length s)%nat.
Proof.
  induction s as [|c s IH]; [done|]. cbn. destruct (Ascii.eqb c newline_char); [done|].
  destruct (take_line s) as [line rest]. cbn in *. lia.
Qed.
Lemma ends_read_line : ends_with (λ r, match r with Some _ => 1 | None => 0 end) read_line.
Proof.
  assert (∀ s fl fs, match read_line s fl fs with
    | (Done (Some (Ok (Some _)), s'), _, _) => (1 + left_to_read s' ≤ left_to_read s)%nat
    | (Done (Some _, s'), _, _) => (left_to_read s' ≤ left_to_read s)%nat
    | (Done (None, _), _, _) | (Failed _, _, _) => False
    | (Crashed, _, _) => True end) as Hread.
  { intros s fl fs. unfold read_line. pose proof (take_line_length (c_reader s)) as Hlen.
    destruct (take_line (c_reader s)) as [line rest]. cbn in Hlen.
    destruct fl as [|[|n|n] fl]; cbn; try done; unfold left_to_read; cbn;
      (destruct (String.eqb_spec line ""); [lia|]; destruct (utf8_valid line); [|lia]);
      (destruct line; [done|]; cbn in Hlen; lia). }
  intros s fl fs. specialize (Hread s fl fs).
  destruct (read_line s fl fs) as [[[[[[[line|]|e]|] s']|?|] fl'] fs']; try done.
Qed.

Lemma ends_turns {X A} (body : X → cli (X + A)) n x s fl fs :
  (∀ x, turn_ends (body x)) → (left_to_read s < n)%nat →
  match turns n body x s fl fs with
  | (Done (Some _, s'), _, _) => (left_to_read s' ≤ left_to_read s)%nat
  | (Done (None, _), _, _) | (Failed _, _, _) => False
  | (Crashed, _, _) => True
  end.
Proof.
  intros Hbody. revert x s fl fs. induction n as [|n IH]; intros x s fl fs Hn; [lia|].
  cbn. unfold mbind, cli_bind. pose proof (Hbody x s fl fs) as Hturn. unfold turn_ends, ends_with in Hturn.
  destruct (body x s fl fs) as [[[[[[[y|a]|e]|] s']|?|] fl'] fs']; try done.
  specialize (IH y s' fl' fs' ltac:(lia)).
  destruct (turns n body y s' fl' fs') as [[[[[r|] s'']|?|] fl''] fs'']; try done. lia.
Qed.
Lemma ends_repeat_turns {X A} (body : X → cli (X + A)) x :
  (∀ x, turn_ends (body x)) → ends (repeat_turns body x).
Proof.
  intros Hbody s fl fs. unfold repeat_turns, mbind, cli_bind. cbn [gets].
  pose proof (ends_turns body (S (left_to_read s)) x s fl fs Hbody ltac:(lia)) as Ht.
  unfold left_to_read at 2 in Ht.
  destruct (turns _ body x s fl fs) as [[[[[[a|e]|] s']|?|] fl'] fs']; done.
Qed.

(** *** File operations answer *)

Definition answers {A} (m : io A) : Prop := ∀ fl fs e, (m fl fs).1.1 ≠ Failed e.

Lemma answers_ret {A} (a : A) : answers (mret (M:=io) a).
Proof. by intros fl fs e. Qed.
Lemma answers_bind {A B} (m : io A) (f : A → io B) :
  answers m → (∀ a, answers (f a)) → answers (m ≫= f).
Proof.
  intros Hm Hf fl fs e. specialize (Hm fl fs e). unfold mbind, io_bind.
  destruct (m fl fs) as [[[a|?|] fl'] fs']; [by apply Hf| |done]. intros [= ->]. by apply Hm.
Qed.
Lemma answers_or_abort {A B} (m : io A) e (k : A → io (result B)) :
  (∀ a, answers (k a)) → answers (or_abort m e k).
Proof.
  intros Hk fl fs err. unfold or_abort.
  destruct (m fl fs) as [[[a|?|] fl'] fs']; [by apply Hk|done..].
Qed.
Lemma answers_or_keep {A} (m : io A) e σ (k : A → io (result LoadSource * SessionState)) :
  (∀ a, answers (k a)) → answers (or_keep m e σ k).
Proof.
  intros Hk fl fs err. unfold or_keep.
  destruct (m fl fs) as [[[a|?|] fl'] fs']; [by apply Hk|done..].
Qed.
Lemma answers_save f tags p σ : answers (checkpoint_durable f tags p σ).
Proof.
  destruct f; cbn; unfold save_to_json, save_to_binary;
    repeat (case_match || (apply answers_or_abort; intros _) || apply answers_ret).
Qed.
Lemma answers_append p op : answers (append_durable_operation p op).
Proof.
  intros fl fs e. unfold append_durable_operation.
  by destruct (append_operation p op fl fs) as [[[]] ].
Qed.
Lemma answers_export tag p σ : answers (export_to_json tag p σ).
Proof.
  unfold export_to_json. case_match; [|apply answers_ret].
  apply answers_or_abort. intros _. apply answers_ret.
Qed.
Lemma answers_import p σ : answers (import_from_json p σ).
Proof.
  apply answers_bind; [|intros a; apply answers_ret].
  case_match; [apply answers_ret|]. apply answers_or_abort. intros json.
  case_match; apply answers_ret.
Qed.
Lemma answers_finish_load p source σ : answers (finish_load p source σ).
Proof.
  apply answers_bind; [|intros []; apply answers_ret].
  apply answers_bind; [|intros a; apply answers_ret].
  intros fl fs e. unfold read_operations.
  by destruct (fs_read (log_path p) fl fs) as [[[|[]|] ] ].
Qed.
Lemma answers_load f p σ : answers (load_workspace_with_source f p σ).
Proof.
  destruct f; cbn; unfold load_from_json_with_source, load_json_backup,
    load_from_binary_with_source, load_binary_backup, read_limited_binary_session_file;
    repeat (case_match || (apply answers_or_keep; intros) || apply answers_finish_load
            || apply answers_ret).
Qed.

Lemma ends_on_files {A} (m : string * string → CliSession → io (result A)) :
  (∀ tags s, answers (m tags s)) → ends (on_files m).
Proof.
  intros Hm s fl fs. unfold on_files.
  specialize (Hm (temp_tag (c_ticks s), temp_tag (S (c_ticks s))) s fl fs).
  destruct (m _ s fl fs) as [[[[a|e]|e|] fl'] fs']; cbn in *; unfold left_to_read; cbn; try lia; try done.
  by apply (Hm e).
Qed.
Lemma ends_on_load {A} (m : SessionState → io (result A * SessionState)) :
  (∀ σ, answers (m σ)) → ends (on_load m).
Proof.
  intros Hm s fl fs. unfold on_load. specialize (Hm (c_state s) fl fs).
  destruct (m _ fl fs) as [[[[[a|e] σ]|e|] fl'] fs']; cbn in *; unfold left_to_read; cbn; try lia; try done.
  by apply (Hm e).
Qed.
End ends.

Create HintDb ends.
#[export] Hint Resolve ends_ret ends_lift ends_fail ends_gets ends_on_session ends_on_find
  ends_on_prof ends_write ends_write_lines answers_save answers_append answers_export
  answers_import answers_load : ends.

(** One step of the walk through a handler. *)
Ltac ending_step :=
  match goal with
  | |- ends_with (λ _, 0) ?m => change (ends m)
  | |- ends (_ ≫= _) => apply ends_bind; [|intros]
  | |- ends (let _ := _ in _) => cbv zeta
  | |- ends (writeln _) => apply ends_write
  | |- ends (when _ _) => apply ends_when
  | |- ends (unless_script _) => apply ends_unless_script
  | |- ends (map_error _ _) => apply ends_map_error
  | |- ends (attempt _) => apply ends_attempt
  | |- ends (modify _) => apply ends_modify; reflexivity
  | |- ends (on_files _) => apply ends_on_files; intros
  | |- ends (on_load _) => apply ends_on_load; intros
  | |- _ => solve [auto with ends nocore]
  | |- ends (match ?x with _ => _ end) => destruct x
  end.
Ltac ending := repeat ending_step.

(** *** The commands *)

Section commands.
Context `{SerdeNumber} `{Formats} `{!JsonText} `{!SnapshotCodec} `{!SessionCodec}
  `{!InterchangeCodec} `{!IoText} `{!Machine}.

Lemma ends_checkpoint : ends checkpoint_autocommit.
Proof. unfold checkpoint_autocommit. ending. Qed.
#[local] Hint Resolve ends_checkpoint : ends.
Lemma ends_persist op : ends (persist_autocommit_entry op).
Proof. unfold persist_autocommit_entry. ending. Qed.
#[local] Hint Resolve ends_persist : ends.
Lemma ends_take : ends take_script_tx.
Proof. unfold take_script_tx. ending. Qed.
#[local] Hint Resolve ends_take : ends.
Lemma ends_rollback : ends rollback_script_tx_after_error.
Proof. unfold rollback_script_tx_after_error, restore_script_transaction. ending. Qed.

Lemma ends_prompt text : ends_with (λ _, 1) (prompt text).
Proof.
  apply ends_bind; [apply ends_write|intros _]. apply ends_bind; [apply ends_write|intros _].
  intros s fl fs. pose proof (ends_read_line s fl fs) as Hread. unfold mbind, cli_bind.
  destruct (read_line s fl fs) as [[[[[[[line|]|e]|] s']|?|] fl'] fs']; done.
Qed.
Lemma ends_prompt_0 text : ends (prompt text).
Proof. eapply ends_any, ends_prompt. Qed.
#[local] Hint Resolve ends_prompt_0 : ends.
Lemma ends_ask_until {A} text (good : string → A + list string) : ends (ask_until text good).
Proof.
  apply ends_repeat_turns. intros []. apply turn_ends_bind; [apply ends_prompt|].
  intros raw. ending.
Qed.
#[local] Hint Resolve ends_ask_until : ends.
Lemma ends_existing_model text : ends (prompt_existing_node_model text).
Proof. unfold prompt_existing_node_model, on_catalog. ending. Qed.
Lemma ends_prompt_fields id_field : ends (prompt_fields id_field).
Proof.
  apply ends_repeat_turns. intros fields. apply turn_ends_bind; [apply ends_prompt|].
  intros name. unfold complain, prompt_value_type, prompt_required_flag, yes_or_no. ending.
Qed.
Lemma ends_prompt_values fields values : ends (prompt_values fields values).
Proof.
  revert values. induction fields as [|field fields IH]; intros values; cbn; [apply ends_ret|].
  apply ends_bind; [apply ends_ask_until|]. intros answer. apply IH.
Qed.
#[local] Hint Resolve ends_existing_model ends_prompt_fields ends_prompt_values : ends.
Lemma ends_command_line :
  ends_with (λ r, match r with Some _ => 1 | None => 0 end) read_command_line.
Proof.
  apply (ends_bind_with _ _ _ _ ends_read_line). intros [first_line|]; [|intros s fl fs; cbn; lia].
  apply (ends_weaken _ (λ _, 0)); [intros []; cbn; lia|].
  apply ends_bind; [|intros line; apply ends_ret].
  apply ends_repeat_turns. intros [combined current]. cbn.
  case_match; [|intros s fl fs; cbn; lia].
  apply (ends_bind_with _ _ _ _ ends_read_line). intros [next|] s1 fl fs;
    unfold mbind, cli_bind; cbn; lia.
Qed.

Lemma ends_create binding model_name assignments :
  ends (handle_node_create binding model_name assignments).
Proof.
  unfold handle_node_create, handle_node_create_parsed, ensure_binding_available. ending.
Qed.
Lemma ends_autocommit format path : ends (enable_autocommit format path).
Proof. unfold enable_autocommit. ending. Qed.
#[local] Hint Resolve ends_create ends_autocommit : ends.
Lemma ends_model_wizard : ends run_model_define_wizard.
Proof.
  unfold run_model_define_wizard, run_create_instance_wizard, prompt_model_name,
    prompt_id_field_name, prompt_yes_no, yes_or_no, on_catalog. ending.
Qed.
Lemma ends_link_wizard : ends run_link_define_wizard.
Proof.
  unfold run_link_define_wizard, run_create_relationship_wizard, prompt_model_name,
    prompt_rel_id_field_name, prompt_yes_no, yes_or_no, on_catalog. ending.
Qed.
#[local] Hint Resolve ends_model_wizard ends_link_wizard : ends.

Lemma ends_run_command trimmed command : ends (run_command trimmed command).
Proof.
  destruct command; cbn [run_command];
    unfold write_help, write_session_summary, write_index_catalog, handle_tx_begin,
      handle_tx_commit, handle_model_define_args, write_model_list, write_model_show,
      handle_link_define_args, write_rel_model_list, write_rel_model_show,
      handle_node_find_parsed, handle_session_explain_node_find,
      handle_session_profile_node_find, handle_node_update_parsed, handle_node_delete_parsed,
      handle_edge_create_parsed, handle_edge_find_parsed, handle_session_explain_edge_find,
      handle_session_profile_edge_find, handle_edge_update_parsed, handle_edge_delete_parsed,
      handle_session_save, handle_session_load, handle_session_import, handle_session_export,
      handle_session_compact, compact_autocommit, handle_session_autocommit,
      load_session_file, disable_autocommit, session_parse_node_find_terms,
      session_parse_edge_find_query, write_query_result, script_mode, on_catalog;
    ending.
Qed.
#[local] Hint Resolve ends_run_command : ends.
Lemma ends_handle_command line : ends (handle_command line).
Proof. unfold handle_command. ending. Qed.
#[local] Hint Resolve ends_handle_command ends_rollback : ends.
Lemma ends_script_command line : ends (script_command line).
Proof. unfold script_command. ending. Qed.
#[local] Hint Resolve ends_script_command : ends.

Lemma turn_ends_command {B} (f : option string → cli (() + B)) :
  (∀ line, ends (f (Some line))) → turn_ends (f None) → turn_ends (read_command_line ≫= f).
Proof.
  intros Hsome Hnone. apply (ends_bind_with _ _ _ _ ends_command_line). intros [line|].
  - eapply ends_weaken; [|apply Hsome]. intros []; cbn; lia.
  - eapply ends_weaken; [|apply Hnone]. intros []; cbn; lia.
Qed.
Lemma turn_ends_script u : turn_ends (script_turn u).
Proof. apply turn_ends_command; [intros line; ending|]. intros s fl fs. cbn. lia. Qed.
Lemma turn_ends_interactive u : turn_ends (interactive_turn u).
Proof.
  apply ends_bind; [unfold write_prompt, flush_writer; ending|intros ?].
  apply turn_ends_command; [intros line; unfold complain; ending|].
  apply ends_bind; [apply ends_write|]. intros ? s fl fs. cbn. lia.
Qed.

Lemma ends_run_script : ends run_script.
Proof.
  unfold run_script, write_script_summary. ending.
  apply ends_repeat_turns, turn_ends_script.
Qed.
Lemma ends_interactive text : ends (run_interactive_loop text).
Proof.
  unfold run_interactive_loop. ending. apply ends_repeat_turns, turn_ends_interactive.
Qed.

Lemma ends_answers {A} (m : cli A) : ends m → ∀ s fl fs,
  (∃ fl' fs', m s fl fs = (Crashed, fl', fs')) ∨
  ∃ r s' fl' fs', m s fl fs = (Done (Some r, s'), fl', fs') ∧ (left_to_read s' ≤ left_to_read s)%nat.
Proof.
  intros Hm s fl fs. specialize (Hm s fl fs).
  destruct (m s fl fs) as [[[[[[a|e]|] s']|?|] fl'] fs']; try done; [right..|left]; by repeat eexists.
Qed.

(** C33: whatever the input and wherever reads, writes and file operations fail, a
    script, an interactive session and a single command come to an end: with an
    answer, or because the process was killed. No loop runs away, no failure of
    the system is left unanswered. *)
Theorem terminal_ends s fl fs :
  ((∃ fl' fs', run_script s fl fs = (Crashed, fl', fs')) ∨
   ∃ r s' fl' fs', run_script s fl fs = (Done (Some r, s'), fl', fs')) ∧
  (∀ text, (∃ fl' fs', run_interactive_loop text s fl fs = (Crashed, fl', fs')) ∨
   ∃ r s' fl' fs', run_interactive_loop text s fl fs = (Done (Some r, s'), fl', fs')) ∧
  (∀ line, (∃ fl' fs', handle_command line s fl fs = (Crashed, fl', fs')) ∨
   ∃ r s' fl' fs', handle_command line s fl fs = (Done (Some r, s'), fl', fs')).
Proof.
  split_and!; [|intros text|intros line];
    [destruct (ends_answers _ ends_run_script s fl fs) as [?|(? & ? & ? & ? & ? & _)]
    |destruct (ends_answers _ (ends_interactive text) s fl fs) as [?|(? & ? & ? & ? & ? & _)]
    |destruct (ends_answers _ (ends_handle_command line) s fl fs) as [?|(? & ? & ? & ? & ? & _)]];
    eauto 10.
Qed.
End commands.

(** ** What a step may change

    A relation on the session and the files that holds along every step that
    leaves the transaction, the autocommit target and the files alone. *)

Section along.
Context `{SerdeNumber} `{Formats} `{!JsonText} `{!SnapshotCodec} `{!SessionCodec}
  `{!InterchangeCodec} `{!IoText} `{!Machine}.
Context (R : CliSession * FileSys → CliSession * FileSys → Prop) `{!PreOrder R}.
Context (R_free : ∀ s s' fs, c_script_tx s' = c_script_tx s → c_autocommit s' = c_autocommit s →
  R (s, fs) (s', fs)).

Definition along {A} (m : cli A) : Prop := ∀ s fl fs o s' fl' fs',
  m s fl fs = (Done (o, s'), fl', fs') → R (s, fs) (s', fs').

Lemma along_bind {A B} (m : cli A) (f : A → cli B) :
  along m → (∀ a, along (f a)) → along (m ≫= f).
Proof.
  intros Hm Hf s fl fs o s' fl' fs'. unfold mbind, cli_bind.
  destruct (m s fl fs) as [[[[[[a|e]|] s1]|?|] fl1] fs1] eqn:Hrun; intros Heq; try discriminate.
  - transitivity (s1, fs1); [by eapply Hm|by eapply Hf].
  - injection Heq as <- <- <- <-. by eapply Hm.
  - injection Heq as <- <- <- <-. by eapply Hm.
Qed.
Lemma along_ret {A} (a : A) : along (mret a).
Proof. intros s fl fs o s' fl' fs' [= <- <- <- <-]. reflexivity. Qed.
Lemma along_lift {A} (r : result A) : along (cli_lift r).
Proof. intros s fl fs o s' fl' fs' [= <- <- <- <-]. reflexivity. Qed.
Lemma along_fail {A} e : along (A:=A) (fail e).
Proof. apply along_lift. Qed.
Lemma along_gets {A} (f : CliSession → A) : along (gets f).
Proof. intros s fl fs o s' fl' fs' [= <- <- <- <-]. reflexivity. Qed.
Lemma along_modify f :
  (∀ s, c_script_tx (f s) = c_script_tx s) → (∀ s, c_autocommit (f s) = c_autocommit s) →
  along (modify f).
Proof. intros Htx Hac s fl fs o s' fl' fs' [= <- <- <- <-]. by apply R_free. Qed.
Lemma along_on_session {A} (m : session A) : along (on_session m).
Proof.
  intros s fl fs o s' fl' fs'. unfold on_session. destruct (m (c_state s)) as [r σ].
  intros [= <- <- <- <-]. by apply R_free.
Qed.
Lemma along_on_find {A} (m : SessionModelCatalog → GraphStore → result A * GraphStore) :
  along (on_find m).
Proof. apply along_on_session. Qed.
Lemma along_on_prof {A} (m : SessionModelCatalog → prof A) : along (on_prof m).
Proof.
  intros s fl fs o s' fl' fs'. unfold on_prof. destruct (m _ _ _) as [[r store] k].
  intros [= <- <- <- <-]. by apply R_free.
Qed.
Lemma along_map_error {A} f (m : cli A) : along m → along (map_error f m).
Proof.
  intros Hm s fl fs o s' fl' fs'. unfold map_error. specialize (Hm s fl fs).
  destruct (m s fl fs) as [[[[[[a|e]|] s1]|?|] fl1] fs1]; intros Heq; try discriminate;
    injection Heq as <- <- <- <-; by eapply Hm.
Qed.
Lemma along_attempt {A} (m : cli A) : along m → along (attempt m).
Proof.
  intros Hm s fl fs o s' fl' fs'. unfold attempt. specialize (Hm s fl fs).
  destruct (m s fl fs) as [[[[[r|] s1]|?|] fl1] fs1]; intros Heq; try discriminate;
    injection Heq as <- <- <- <-; by eapply Hm.
Qed.
Lemma along_write text : along (write text).
Proof.
  intros s fl fs o s' fl' fs'. unfold write. destruct fl as [|[] fl]; intros Heq; try discriminate;
    injection Heq as <- <- <- <-; by apply R_free.
Qed.
Lemma along_write_lines lines : along (write_lines lines).
Proof.
  induction lines as [|line lines IH]; cbn; [apply along_ret|].
  apply along_bind; [apply along_write|done].
Qed.
Lemma along_when b m : along m → along (when b m).
Proof. destruct b; [done|]. intros _. apply along_ret. Qed.
Lemma along_unless_script m : along m → along (unless_script m).
Proof. intros Hm. apply along_bind; [apply along_gets|]. intros b. by apply along_when. Qed.
Lemma along_read_line : along read_line.
Proof.
  intros s fl fs o s' fl' fs'. unfold read_line. destruct (take_line (c_reader s)) as [line rest].
  destruct fl as [|[] fl]; intros Heq; try discriminate; injection Heq as <- <- <- <-;
    by apply R_free.
Qed.
Lemma along_turns {X A} (body : X → cli (X + A)) n x :
  (∀ x, along (body x)) → along (turns n body x).
Proof.
  intros Hbody. revert x. induction n as [|n IH]; intros x.
  - intros s fl fs o s' fl' fs' [= <- <- <- <-]. reflexivity.
  - intros s fl fs o s' fl' fs'. cbn [turns]. revert s fl fs o s' fl' fs'.
    apply along_bind; [apply Hbody|]. intros [y|a]; [apply IH|apply along_ret].
Qed.
Lemma along_repeat_turns {X A} (body : X → cli (X + A)) x :
  (∀ x, along (body x)) → along (repeat_turns body x).
Proof. intros Hbody. apply along_bind; [apply along_gets|]. intros n. by apply along_turns. Qed.

Lemma along_prompt text : along (prompt text).
Proof.
  apply along_bind; [apply along_write|]. intros _. apply along_bind; [apply along_write|]. intros _.
  apply along_bind; [apply along_read_line|]. intros line.
  apply along_bind; [apply along_lift|]. intros l. apply along_ret.
Qed.
Lemma along_ask_until {A} text (good : string → A + list string) : along (ask_until text good).
Proof.
  apply along_repeat_turns. intros []. apply along_bind; [apply along_prompt|]. intros raw.
  destruct (good raw); [apply along_ret|]. apply along_bind; [apply along_write_lines|].
  intros _. apply along_ret.
Qed.
End along.

Create HintDb along.
#[export] Hint Resolve along_ret along_lift along_fail along_gets along_on_session along_on_find
  along_on_prof along_write along_write_lines along_prompt along_ask_until : along.

Ltac along_step :=
  match goal with
  | |- along _ (_ ≫= _) => apply along_bind; [assumption|..|intros]
  | |- along _ (writeln _) => apply along_write; assumption
  | |- along _ (when _ _) => apply along_when; [assumption|]
  | |- along _ (unless_script _) => apply along_unless_script; [assumption..|]
  | |- along _ (map_error _ _) => apply along_map_error
  | |- along _ (modify _) => apply along_modify; [assumption|reflexivity..]
  | |- along _ (repeat_turns _ _) => apply along_repeat_turns; [assumption|intros]
  | |- _ => solve [auto with along nocore]
  | |- along _ (match ?x with _ => _ end) => destruct x
  end.
Ltac walk := repeat along_step.

(** ** Script transactions *)

(** The commands that neither end a transaction nor name a file. *)
Definition plain (command : SessionCommand) : bool :=
  match command with
  | CmdTxCommit | CmdSessionSave _ | CmdSessionLoad _ | CmdSessionImport _ | CmdSessionExport _
  | CmdSessionCompact | CmdSessionAutocommit _ => false
  | _ => true
  end.
Definition plain_line (line : string) : bool :=
  match parse_command_line (str_trim line) with Ok command => plain command | Err _ => true end.

Section transactions.
Context `{SerdeNumber} `{Formats} `{!JsonText} `{!SnapshotCodec} `{!SessionCodec}
  `{!InterchangeCodec} `{!IoText} `{!Machine}.

(** While a transaction is open: it, the autocommit target and the files stay. *)
Definition untraced (x y : CliSession * FileSys) : Prop :=
  is_Some (c_script_tx x.1) →
  c_script_tx y.1 = c_script_tx x.1 ∧ c_autocommit y.1 = c_autocommit x.1 ∧ y.2 = x.2.

#[local] Instance untraced_preorder : PreOrder untraced.
Proof.
  split; [by intros x|]. intros x y z Hxy Hyz Hx. destruct (Hxy Hx) as (Htx & Hac & Hfs).
  destruct Hyz as (? & ? & ?); [by rewrite Htx|]. by split_and!; etransitivity.
Qed.
Lemma untraced_free s s' fs :
  c_script_tx s' = c_script_tx s → c_autocommit s' = c_autocommit s →
  untraced (s, fs) (s', fs).
Proof. by intros ? ? ?. Qed.
#[local] Hint Resolve untraced_preorder untraced_free : along.

Lemma untraced_persist op : along untraced (persist_autocommit_entry op).
Proof.
  intros s fl fs o s' fl' fs' Hrun [tx Htx]. cbn in Htx.
  unfold persist_autocommit_entry, mbind, cli_bind in Hrun. cbn in Hrun. rewrite Htx in Hrun.
  by injection Hrun as <- <- <- <-.
Qed.
Lemma untraced_begin : along untraced handle_tx_begin.
Proof.
  intros s fl fs o s' fl' fs' Hrun [tx Htx]. cbn in Htx.
  unfold handle_tx_begin, mbind, cli_bind in Hrun. cbn in Hrun. rewrite Htx in Hrun.
  by injection Hrun as <- <- <- <-.
Qed.
#[local] Hint Resolve untraced_persist untraced_begin : along.

Ltac stay := pose proof untraced_preorder; pose proof untraced_free; walk.

Lemma untraced_create binding model_name assignments :
  along untraced (handle_node_create binding model_name assignments).
Proof.
  unfold handle_node_create, handle_node_create_parsed, ensure_binding_available.
  stay.
Qed.
Lemma untraced_prompt_values fields values : along untraced (prompt_values fields values).
Proof.
  revert values. induction fields as [|field fields IH]; intros values; cbn [prompt_values]; [stay|].
  apply along_bind; [apply _|apply along_ask_until; apply untraced_free || apply _|].
  intros answer. apply IH.
Qed.
Lemma untraced_prompt_fields id_field : along untraced (prompt_fields id_field).
Proof.
  unfold prompt_fields, field_turn, complain, prompt_value_type, prompt_required_flag, yes_or_no.
  stay.
Qed.
#[local] Hint Resolve untraced_create untraced_prompt_values untraced_prompt_fields : along.
Lemma untraced_model_wizard : along untraced run_model_define_wizard.
Proof.
  unfold run_model_define_wizard, run_create_instance_wizard, prompt_model_name,
    prompt_id_field_name, prompt_yes_no, yes_or_no, on_catalog. stay.
Qed.
Lemma untraced_link_wizard : along untraced run_link_define_wizard.
Proof.
  unfold run_link_define_wizard, run_create_relationship_wizard, prompt_model_name,
    prompt_existing_node_model, prompt_rel_id_field_name, prompt_yes_no, yes_or_no, on_catalog.
  stay.
Qed.
#[local] Hint Resolve untraced_model_wizard untraced_link_wizard : along.

Lemma untraced_command trimmed command :
  plain command = true → along untraced (run_command trimmed command).
Proof.
  intros Hplain. destruct command; try discriminate Hplain; cbn [run_command];
    unfold write_help, write_session_summary, write_index_catalog,
      handle_model_define_args, write_model_list, write_model_show,
      handle_link_define_args, write_rel_model_list, write_rel_model_show,
      handle_node_find_parsed, handle_session_explain_node_find,
      handle_session_profile_node_find, handle_node_update_parsed, handle_node_delete_parsed,
      handle_edge_create_parsed, handle_edge_find_parsed, handle_session_explain_edge_find,
      handle_session_profile_edge_find, handle_edge_update_parsed, handle_edge_delete_parsed,
      session_parse_node_find_terms, session_parse_edge_find_query, write_query_result,
      script_mode, on_catalog;
    stay.
Qed.
Lemma untraced_line line : plain_line line = true → along untraced (handle_command line).
Proof.
  unfold plain_line, handle_command. intros Hplain.
  destruct (String.eqb_spec (str_trim line) ""); [stay|].
  destruct (parse_command_line (str_trim line)) as [command|e] eqn:Hparse.
  2: { intros s fl fs o s' fl' fs' [= <- <- <- <-]. reflexivity. }
  intros s fl fs o s' fl' fs'. unfold mbind at 1, cli_bind, cli_lift. revert s fl fs o s' fl' fs'.
  change (along untraced match command with
    | CmdExit => mret (M:=cli) true
    | _ => _ ← run_command (str_trim line) command; mret (M:=cli) false
    end).
  pose proof (untraced_command (str_trim line) command Hplain).
  destruct command; stay.
Qed.
Lemma untraced_read : along untraced read_command_line.
Proof.
  unfold read_command_line, command_line_turn.
  pose proof (along_read_line untraced untraced_free). stay; apply along_read_line, untraced_free.
Qed.

(** What is read and run after [tx.begin], as long as the transaction is open. *)
Inductive opened (s0 : CliSession) (fs0 : FileSys) : CliSession → FileSys → Prop :=
  | opened_begin line fl s fl' fs :
      c_script_tx s0 = None → parse_command_line (str_trim line) = Ok CmdTxBegin →
      handle_command line s0 fl fs0 = (Done (Some (Ok false), s), fl', fs) → opened s0 fs0 s fs
  | opened_read s fl fs line s' fl' fs' :
      opened s0 fs0 s fs → read_command_line s fl fs = (Done (Some (Ok line), s'), fl', fs') →
      opened s0 fs0 s' fs'
  | opened_line line s fl fs r s' fl' fs' :
      opened s0 fs0 s fs → plain_line line = true →
      handle_command line s fl fs = (Done (Some r, s'), fl', fs') → opened s0 fs0 s' fs'.

Definition undone (s0 : CliSession) (fs0 : FileSys) (s : CliSession) (fs : FileSys) : Prop :=
  c_state s = c_state s0 ∧ c_bindings s = c_bindings s0 ∧
  c_script_summary s = c_script_summary s0 ∧ c_autocommit s = c_autocommit s0 ∧
  c_script_tx s = None ∧ fs = fs0.

Lemma cli_bind_gets {A B} (f : CliSession → A) (k : A → cli B) s fl fs :
  (gets f ≫= k) s fl fs = k (f s) s fl fs.
Proof. done. Qed.
Lemma cli_bind_modify {B} f (k : unit → cli B) s fl fs : (modify f ≫= k) s fl fs = k tt (f s) fl fs.
Proof. done. Qed.
Lemma cli_bind_lift {A B} (r : result A) (k : A → cli B) s fl fs :
  (cli_lift r ≫= k) s fl fs
  = match r with Ok a => k a s fl fs | Err e => (Done (Some (Err e), s), fl, fs) end.
Proof. by destruct r. Qed.
Lemma cli_bind_on_session {A B} (m : session A) (k : A → cli B) s fl fs :
  (on_session m ≫= k) s fl fs
  = match m (c_state s) with
    | (Ok a, σ) => k a (set_state σ s) fl fs
    | (Err e, σ) => (Done (Some (Err e), set_state σ s), fl, fs)
    end.
Proof. unfold mbind, cli_bind, on_session. by destruct (m (c_state s)) as [[]]. Qed.

Lemma cli_bind_run {A B} (m : cli A) (k : A → cli B) s fl fs a s' fl' fs' :
  m s fl fs = (Done (Some (Ok a), s'), fl', fs') → (m ≫= k) s fl fs = k a s' fl' fs'.
Proof. unfold mbind, cli_bind. by intros ->. Qed.
Lemma on_files_run {A} g (m : string * string → CliSession → io (result A)) s fl fs a fl' fs' :
  m (temp_tag (c_ticks s), temp_tag (S (c_ticks s))) s fl fs = (Done (Ok a), fl', fs') →
  map_error g (on_files m) s fl fs = (Done (Some (Ok a), tick 2 s), fl', fs').
Proof. unfold map_error, on_files. by intros ->. Qed.

Lemma handle_parsed line command s fl fs :
  parse_command_line (str_trim line) = Ok command → command ≠ CmdExit →
  command ≠ CmdUnknown "" →
  handle_command line s fl fs
  = (run_command (str_trim line) command ≫= λ _, mret (M:=cli) false) s fl fs.
Proof.
  intros Hparse Hexit Hblank. unfold handle_command.
  destruct (String.eqb_spec (str_trim line) "") as [He|_].
  { rewrite He in Hparse. vm_compute in Hparse. by injection Hparse as <-. }
  rewrite cli_bind_lift, Hparse. by destruct command.
Qed.

Lemma opened_tx s0 fs0 s fs :
  opened s0 fs0 s fs →
  c_script_tx s = Some {| state_snapshot := c_state s0; bindings_snapshot := c_bindings s0;
                          script_summary_snapshot := c_script_summary s0 |} ∧
  c_autocommit s = c_autocommit s0 ∧ fs = fs0.
Proof.
  induction 1 as [line fl s fl' fs Hno Hline Hrun|s fl fs line s' fl' fs' _ (Htx & Hac & ->) Hrun
                 |line s fl fs r s' fl' fs' _ (Htx & Hac & ->) Hplain Hrun].
  - rewrite (handle_parsed _ CmdTxBegin) in Hrun by done. cbn [run_command] in Hrun.
    unfold handle_tx_begin in Hrun. unfold mbind at 1, cli_bind in Hrun.
    rewrite cli_bind_gets, Hno, cli_bind_modify in Hrun.
    match type of Hrun with context [unless_script ?m ?s1] =>
      assert (along untraced (unless_script m)) as Halong by stay; specialize (Halong s1);
      destruct (unless_script m s1 fl fs0) as [[[[[[[]|e]|] s2]|?|] fl2] fs2] eqn:Hu end;
      try discriminate Hrun.
    destruct (Halong _ _ _ _ _ _ Hu) as (Htx & Hac & Hfs); [done|]. cbn in *.
    injection Hrun as <- <- <-. done.
  - destruct (untraced_read _ _ _ _ _ _ _ Hrun) as (? & ? & ?); [by eexists|]. cbn in *.
    split_and!; congruence.
  - destruct (untraced_line line Hplain _ _ _ _ _ _ _ Hrun) as (? & ? & ?); [by eexists|].
    cbn in *. split_and!; congruence.
Qed.

Lemma rolled_back s0 fs0 s fl fs :
  opened s0 fs0 s fs →
  ∃ s', rollback_script_tx_after_error s fl fs = (Done (Some (Ok tt), s'), fl, fs) ∧
        undone s0 fs0 s' fs.
Proof.
  intros (Htx & Hac & ->)%opened_tx. eexists.
  unfold rollback_script_tx_after_error, take_script_tx, restore_script_transaction.
  unfold mbind at 1, cli_bind. rewrite cli_bind_gets, cli_bind_modify. cbn. rewrite Htx.
  split; [reflexivity|]. by split_and!.
Qed.

End transactions.

(** ** A script at work *)

Definition w_json_text `{SerdeNumber} : JsonText := {|
  json_text v := match v with
                 | Str s => s | Bool true => "true" | Bool false => "false"
                 | Null => "null" | Num _ => "0" | Array _ => "[]" | Object _ => "{}"
                 end;
|}.
Definition w_terminal_text : IoText := {|
  path_display p := Text.join "/" (p_comps p);
  io_error_text e := match e with
                     | NotFoundError => "not found" | ExistsError => "exists"
                     | OtherError => "input/output error"
                     end;
|}.
Definition w_machine : Machine := {| clock n := Z.of_nat n; temp_tag := nat_to_string |}.

Definition text_of_lines (lines : list string) : string :=
  concat_chars (map (λ line, line +:+ Parser.newline) lines).

Section terminal_witnesses.
Existing Instances serde_default w_formats digits_codec digits_codec_laws digits_session_codec
  digits_session_laws digits_interchange_codec w_json_text w_terminal_text w_machine.

(** One line after another; [None] where a run does not answer. *)
Fixpoint run_lines (lines : list string) (s : CliSession) (fs : FileSys)
    : option (CliSession * FileSys) :=
  match lines with
  | [] => Some (s, fs)
  | line :: lines =>
      match handle_command line s [] fs with
      | (Done (Some (Ok false), s), [], fs) => run_lines lines s fs
      | _ => None
      end
  end.

(** A schema and a node, with autocommit on. *)
Definition w_prepared : option (CliSession * FileSys) :=
  run_lines ["session.autocommit --json /data/graph.json";
             "model.define User userId name:string:required"; "node.create User name=Ada"]
    (begin_script (CliSession_new "" "")) ∅.
Definition w_count (s : CliSession) : nat := size (nodes (ss_store (c_state s))).

(** The transaction: two more nodes, and then a field the model lacks. *)
Definition w_body : list string := ["let bob = node.create User name=Bob"; "node.create User name=Cid"].
Definition w_failing : string := "node.create User nickname=Dee".

Lemma opened_lines s0 fs0 lines s fs s' fs' :
  forallb plain_line lines = true → opened s0 fs0 s fs →
  run_lines lines s fs = Some (s', fs') → opened s0 fs0 s' fs'.
Proof.
  revert s fs. induction lines as [|line lines IH]; intros s fs Hplain Hopen; cbn.
  { by intros [= <- <-]. }
  apply andb_true_iff in Hplain as [Hline Hplain].
  destruct (handle_command line s [] fs) as [[[[[[[]|e]|] s1]|?|] [|? ?]] fs1] eqn:Hrun; try discriminate.
  intros Hlines. eapply (IH s1 fs1); [done| |done]. by eapply opened_line.
Qed.

Definition undone_check : bool :=
  match w_prepared with
  | Some (s0, fs0) =>
      match handle_command "tx.begin" s0 [] fs0 with
      | (Done (Some (Ok false), s1), _, fs1) =>
          match run_lines w_body s1 fs1 with
          | Some (s, fs) =>
              match script_command w_failing s [] fs with
              | (Done (Some (Err _), _), _, _) =>
                  Nat.eqb (w_count s0) 1 && Nat.eqb (w_count s) 3 &&
                  bool_decide (c_script_tx s0 = None)
              | _ => false
              end
          | None => false
          end
      | _ => false
      end
  | None => false
  end.

Ltac drop_false H := try lazymatch type of H with false = true => discriminate H end.


(** *** What slips through

    A script cut off in a continued line ends with an error and leaves its
    transaction open, with what it did. *)
Definition w_cut_off : CliSession := CliSession_new (text_of_lines
  ["model.define User userId name:string:required"; "tx.begin"; "node.create User name=Ada";
   "node.create User \"]) "".

Definition cut_off_check
    (run : Files.outcome (option (result unit) * CliSession) * list fault * FileSys) : bool :=
  match run with
  | (Done (Some (Err e), s), [], _) =>
      bool_decide (e = Constraint "line continuation ended unexpectedly") &&
      bool_decide (is_Some (c_script_tx s)) && Nat.eqb (w_count s) 1
  | _ => false
  end.
Lemma cut_off_script_stays_open :
  ∃ s fs, run_script w_cut_off [] ∅
      = (Done (Some (Err (Constraint "line continuation ended unexpectedly")), s), [], fs) ∧
    is_Some (c_script_tx s) ∧ w_count s = 1%nat.
Proof.
  assert (cut_off_check (run_script w_cut_off [] ∅) = true) as Hc by by vm_compute.
  destruct (run_script w_cut_off [] ∅) as [[[[[[?|e]|] s]|?|] [|? ?]] fs]; try discriminate Hc.
  apply andb_true_iff in Hc as [Hc Hn%Nat.eqb_eq].
  apply andb_true_iff in Hc as [->%bool_decide_eq_true Htx%bool_decide_eq_true].
  exists s, fs. split; [reflexivity|]. split; [exact Htx|exact Hn].
Qed.

(** [session.compact] inside a transaction writes what a later failure takes back
    in memory only: the next start finds the node. *)
Definition w_reload (path : Path) (fs : FileSys) : option nat :=
  match load_workspace_with_source DurJson path session_new [] fs with
  | (Done (Ok _, σ), _, _) => Some (size (nodes (ss_store σ)))
  | _ => None
  end.
Definition compacted_check : bool :=
  match w_prepared with
  | Some (s0, fs0) =>
      match run_lines ["tx.begin"; "node.create User name=Bob"; "session.compact"] s0 fs0 with
      | Some (s, fs) =>
          match script_command w_failing s [] fs with
          | (Done (Some (Err _), s'), [], fs') =>
              Nat.eqb (w_count s0) 1 && Nat.eqb (w_count s') 1 &&
              bool_decide (w_reload (path_new "/data/graph.json") fs' = Some 2)
          | _ => false
          end
      | None => false
      end
  | None => false
  end.
Lemma compacted_transaction_survives :
  ∃ s0 fs0 s fs e s' fs', w_prepared = Some (s0, fs0) ∧
    run_lines ["tx.begin"; "node.create User name=Bob"; "session.compact"] s0 fs0 = Some (s, fs) ∧
    script_command w_failing s [] fs = (Done (Some (Err e), s'), [], fs') ∧
    w_count s' = 1%nat ∧ w_reload (path_new "/data/graph.json") fs' = Some 2%nat.
Proof.
  assert (compacted_check = true) as Hc by by vm_compute. unfold compacted_check in Hc.
  destruct w_prepared as [[s0 fs0]|]; [|discriminate Hc].
  destruct (run_lines _ s0 fs0) as [[s fs]|] eqn:Hbody; [|discriminate Hc].
  destruct (script_command w_failing s [] fs) as [[[[[[?|e]|] s']|?|] [|? ?]] fs'] eqn:Hfail;
    drop_false Hc.
  apply andb_true_iff in Hc as [Hc Hr%bool_decide_eq_true].
  apply andb_true_iff in Hc as [_ Hn%Nat.eqb_eq].
  exists s0, fs0, s, fs, e, s', fs'. split; [reflexivity|]. split; [exact Hbody|]. split; [exact Hfail|].
  split; [exact Hn|exact Hr].
Qed.
End terminal_witnesses.
