(* ===== verification/Autocommit.v ===== *)
(** * Autocommit on the command line

    With autocommit on, the files of its target hold the session at any time, or
    the session an open transaction began with. *)

From S2P Require Export TerminalRuns.

Local Open Scope string_scope.

(** ** Mutations from text *)

Section raw.
Context `{SerdeNumber} `{!NumberLaws} `{Formats} `{!FormatLaws}.
Implicit Types (σ : SessionState) (raw : gmap string string).

(** No value is a date-time that the parser reads and cannot store canonically. *)
Definition raw_regular raw : Prop :=
  ∀ key s t, raw !! key = Some s → parse_from_rfc3339 (str_trim s) = Some t → datetime_regular t.

Lemma raw_inputs fields raw : raw_regular raw → inputs_regular fields raw.
Proof. intros Hr f s t _ _ Hs. by eapply Hr. Qed.

Lemma filters_fit special kind model fields raw props :
  raw_regular raw →
  try_fold (parse_filter special kind model fields) ∅ (bt_iter raw) = Ok props → fits fields props.
Proof.
  intros Hreg. assert (∀ l acc, (∀ e, e ∈ l → ∀ t, parse_from_rfc3339 (str_trim e.2) = Some t →
    datetime_regular t) → fits fields acc →
    try_fold (parse_filter special kind model fields) acc l = Ok props → fits fields props) as Hloop.
  { induction l as [|[key s] l IH]; intros acc Hl Hacc; cbn [try_fold]; [by intros [= <-]|].
    unfold parse_filter at 1. assert (∀ e, e ∈ l → ∀ t, parse_from_rfc3339 (str_trim e.2) = Some t →
      datetime_regular t) as Hl' by (intros e He; apply Hl; by right).
    destruct (special key); [by apply IH|].
    destruct (find_field fields key) as [f|] eqn:Hf; cbn; [|done].
    destruct (parse_value (field_type f) s) as [v|] eqn:Hv; cbn; [|done]. apply IH; [done|].
    intros k v' Hk. destruct (decide (k = key)) as [->|Hne].
    - rewrite lookup_insert_eq in Hk. injection Hk as <-. exists f. split; [done|].
      apply (parsed_values_ok _ _ _ Hv). intros t _ Ht. apply (Hl (key, s)); [by left|done].
    - rewrite lookup_insert_ne in Hk by done. by apply Hacc. }
  apply Hloop; [|by intros k v ?%lookup_empty_Some].
  intros [key s] He t Ht. apply elem_of_bt_iter in He. by eapply Hreg.
Qed.

Lemma create_instance_sound name raw σ :
  session_inv σ → room σ → raw_regular raw → sound (create_instance name raw σ) σ UpsertNode.
Proof.
  intros Hinv Hroom Hreg. apply node_model_bind; [done|]. intros m Hm _. apply sound_lift.
  intros props Hp. apply create_node_sound; [done..|].
  destruct (Catalog.co_node _ (si_catalog _ Hinv) _ _ Hm) as (_ & _ & _ & Hok).
  eapply input_conforms; [by eapply model_fields_nodup|apply raw_inputs, Hreg|exact Hp].
Qed.
Lemma update_node_instance_sound name id raw σ :
  session_inv σ → room σ → raw_regular raw →
  sound (update_node_instance name id raw σ) σ UpsertNode.
Proof.
  intros Hinv Hroom Hreg. apply node_model_bind; [done|]. intros m Hm _.
  apply sound_lift. intros raw_id _. apply sound_lift. intros props Hp.
  apply update_node_sound; [done..|]. by eapply filters_fit.
Qed.
Lemma create_relationship_instance_sound name from to raw σ :
  session_inv σ → room σ → raw_regular raw →
  sound (create_relationship_instance name from to raw σ) σ UpsertRel.
Proof.
  intros Hinv Hroom Hreg. apply rel_model_bind; [done|]. intros m Hm _. apply sound_lift.
  intros props Hp. apply sound_lift. intros f _. apply sound_lift. intros t _.
  apply create_relationship_sound; [done..|].
  destruct (Catalog.co_rel _ (si_catalog _ Hinv) _ _ Hm) as (_ & (_ & _ & Hok) & _).
  eapply input_conforms; [by eapply model_fields_nodup|apply raw_inputs, Hreg|exact Hp].
Qed.
Lemma update_relationship_instance_sound name id raw σ :
  session_inv σ → room σ → raw_regular raw →
  sound (update_relationship_instance name id raw σ) σ UpsertRel.
Proof.
  intros Hinv Hroom Hreg. apply rel_model_bind; [done|]. intros m Hm Hname.
  apply sound_lift. intros raw_id _. apply sound_lift. intros props Hp.
  destruct (existing_edge_run name raw_id σ) as (res & Hrun & Hres).
  unfold mbind, session_bind. rewrite Hrun. destruct res as [existing|]; [|done].
  destruct (Hres existing eq_refl) as (m' & Hm' & He). rewrite <-Hname, Hm in Hm'.
  injection Hm' as <-. apply (update_relationship_sound m); [done..|]. by eapply filters_fit.
Qed.

(** What a mutation upserts is in the session it leaves. *)
Lemma upserted_node node σ σ' :
  session_inv σ → replays (UpsertNode node) σ σ' →
  nodes (ss_store σ') !! sn_id node = Some node.
Proof.
  intros Hinv Hrep. destruct (Hrep σ (same_session_refl _ (si_ready _ Hinv))) as (τ & Hτ & [Hg _ _]).
  destruct (insert_node_fields (sn_id node) node (advance_node_id (sn_id node) (ss_store σ)))
    as [Hn _]. apply (f_equal ag_nodes) in Hg. injection Hτ as <-.
  transitivity (nodes (insert_node (sn_id node) node
    (advance_node_id (sn_id node) (ss_store σ))).2 !! sn_id node); [exact (eq_sym (f_equal (λ m, m !! sn_id node) Hg))|].
  rewrite Hn. apply lookup_insert_eq.
Qed.
Lemma upserted_rel rel σ σ' :
  session_inv σ → replays (UpsertRel rel) σ σ' → rels (ss_store σ') !! sr_id rel = Some rel.
Proof.
  intros Hinv Hrep. destruct (Hrep σ (same_session_refl _ (si_ready _ Hinv))) as (τ & Hτ & [Hg _ _]).
  destruct (insert_relationship_frame (sr_id rel) rel (advance_rel_id (sr_id rel) (ss_store σ)))
    as [_ Hr]. apply (f_equal ag_rels) in Hg. injection Hτ as <-.
  transitivity (rels (insert_relationship (sr_id rel) rel
    (advance_rel_id (sr_id rel) (ss_store σ))).2 !! sr_id rel); [exact (eq_sym (f_equal (λ m, m !! sr_id rel) Hg))|].
  rewrite Hr. apply lookup_insert_eq.
Qed.

Lemma defined_node r σ o σ' :
  apply_define_node r σ = (Ok o, σ') →
  ro_durable_op o = RegisterNodeModel (ro_value o) ∧
  node_models (ss_catalog σ') !! nm_name (ro_value o) = Some (ro_value o).
Proof.
  unfold apply_define_node. rewrite session_bind_lift.
  destruct (mapM runtime_field (dn_fields r)) as [fields|]; [|done]. rewrite session_bind_lift.
  destruct (RuntimeNodeModel_new _ _ _ fields) as [m|]; [|done].
  unfold mbind, session_bind, register_model, register_node_model.
  destruct (name_taken _ _); [done|]. intros [= <- <-]. split; [done|]. apply lookup_insert_eq.
Qed.
Lemma defined_edge r σ o σ' :
  apply_define_edge r σ = (Ok o, σ') →
  ro_durable_op o = RegisterRelModel (ro_value o) ∧
  rel_models (ss_catalog σ') !! rm_name (ro_value o) = Some (ro_value o).
Proof.
  unfold apply_define_edge. rewrite session_bind_lift.
  destruct (mapM runtime_field (de_fields r)) as [fields|]; [|done]. rewrite session_bind_lift.
  destruct (RuntimeRelModel_new _ _ _ _ _ fields) as [m|]; [|done].
  unfold mbind, session_bind, session_register_rel_model, register_rel_model.
  destruct (get_node_model _ (rm_from_model m)); cbn; [|done].
  destruct (get_node_model _ (rm_to_model m)); cbn; [|done].
  destruct (name_taken _ _); [done|]. intros [= <- <-]. split; [done|]. apply lookup_insert_eq.
Qed.
End raw.

(** ** What the files hold *)

Definition workspace_target (target : AutocommitTarget) : WorkspaceAutocommitTarget :=
  {| at_format := durability_format (ac_format target); at_path := path_new (ac_path target);
     at_pending_entries := ac_pending_entries target |}.

Section journal.
Context `{SerdeNumber} `{!NumberLaws} `{Formats} `{!FormatLaws} `{!JsonText}
  `{!SnapshotCodec} `{!SnapshotLaws} `{!SessionCodec} `{!SessionLaws} `{!InterchangeCodec}
  `{!IoText} `{!Machine}.
Implicit Types (f : DurabilityFormat) (p : Path) (s : CliSession) (fs : FileSys)
  (σ τ : SessionState).

(** The session a restart should find: that of [tx.begin] while a transaction
    is open. *)
Definition committed_state s : SessionState :=
  match c_script_tx s with Some tx => state_snapshot tx | None => c_state s end.
Definition workspace_view s : Workspace :=
  {| ws_state := committed_state s; ws_autocommit := workspace_target <$> c_autocommit s |}.

Record journaled f p s fs : Prop := {
  jn_committing : committing f p (workspace_view s) fs;
  jn_inv : session_inv (c_state s);
}.

(** The tags of the next write of a session file. *)
Definition next_tags s : string * string := (temp_tag (c_ticks s), temp_tag (S (c_ticks s))).
Definition fresh_next p s fs : Prop :=
  fresh_temps (next_tags s) p fs ∧ fresh_temps (next_tags (tick 2 s)) p fs.

(** Two sessions a restart cannot tell apart. *)
Record alike s s' : Prop := {
  al_same : same_session (c_state s) (c_state s');
  al_inv : session_inv (c_state s');
  al_tx : c_script_tx s' = c_script_tx s;
  al_target : c_autocommit s' = c_autocommit s;
}.

Lemma alike_refl s : session_inv (c_state s) → alike s s.
Proof. intros Hinv. by split; [apply same_session_refl, si_ready|..]. Qed.
Lemma alike_trans s1 s2 s3 : alike s1 s2 → alike s2 s3 → alike s1 s3.
Proof.
  intros [Hs12 ? ? ?] [Hs23 ? ? ?]. split; [|done|congruence..].
  destruct Hs12 as [Hg12 Hm12 _], Hs23 as [Hg23 Hm23 ?]. split; [|congruence|done].
  by rewrite Hg23.
Qed.

Lemma journaled_alike f p s s' fs :
  journaled f p s fs → alike s s' → session_safe f (c_state s') → journaled f p s' fs.
Proof.
  intros [Hc Hinv] [Hsame Hinv' Htx Htarget] Hsafe. split; [|done].
  unfold workspace_view, committed_state in *. rewrite Htx, Htarget.
  destruct (c_script_tx s); [done|]. apply (committing_read _ _ _ _ _ Hc Hinv' Hsafe).
  intros τ Hτ. exists τ. split; [done|]. destruct Hsame as [Hg Hm _], Hτ as [Hgτ Hmτ ?].
  cbn in *. split; [by rewrite Hgτ|congruence|done].
Qed.

(** Steps that only read, write text and make notes. *)
Definition noiseless {A} (m : cli A) : Prop := ∀ s fs, session_inv (c_state s) →
  ∃ r s', m s [] fs = (Done (Some r, s'), [], fs) ∧ alike s s'.

Lemma noiseless_bind {A B} (m : cli A) (k : A → cli B) :
  noiseless m → (∀ a, noiseless (k a)) → noiseless (m ≫= k).
Proof.
  intros Hm Hk s fs Hinv. destruct (Hm s fs Hinv) as (r & s1 & Hrun & Hal).
  unfold mbind, cli_bind. rewrite Hrun. destruct r as [a|e]; [|by eexists _, _].
  destruct (Hk a s1 fs (al_inv _ _ Hal)) as (r & s2 & Hrun2 & Hal2).
  exists r, s2. split; [done|]. by eapply alike_trans.
Qed.
Lemma noiseless_lift {A} (r : result A) : noiseless (cli_lift r).
Proof. intros s fs Hinv. eexists _, s. split; [reflexivity|]. by apply alike_refl. Qed.
Lemma noiseless_ret {A} (a : A) : noiseless (mret a).
Proof. intros s fs Hinv. eexists _, s. split; [reflexivity|]. by apply alike_refl. Qed.
Lemma noiseless_fail {A} e : noiseless (A:=A) (fail e).
Proof. apply noiseless_lift. Qed.
Lemma noiseless_gets {A} (g : CliSession → A) : noiseless (gets g).
Proof. intros s fs Hinv. eexists _, s. split; [reflexivity|]. by apply alike_refl. Qed.
Lemma noiseless_modify g :
  (∀ s, c_state (g s) = c_state s) → (∀ s, c_script_tx (g s) = c_script_tx s) →
  (∀ s, c_autocommit (g s) = c_autocommit s) → noiseless (modify g).
Proof.
  intros Hst Htx Hac s fs Hinv. eexists _, (g s). split; [reflexivity|].
  split; rewrite ?Hst; [by apply same_session_refl, si_ready|done..].
Qed.
Lemma noiseless_write text : noiseless (write text).
Proof.
  intros s fs Hinv. eexists _, (append_written text s). split; [reflexivity|].
  split; [by apply same_session_refl, si_ready|done..].
Qed.
Lemma noiseless_write_lines lines : noiseless (write_lines lines).
Proof.
  induction lines as [|line lines IH]; cbn; [apply noiseless_ret|].
  apply noiseless_bind; [apply noiseless_write|done].
Qed.
Lemma noiseless_unless_script m : noiseless m → noiseless (unless_script m).
Proof.
  intros Hm. apply noiseless_bind; [apply noiseless_gets|]. intros b. destruct b; [apply noiseless_ret|done].
Qed.

(** Steps of the session that read. *)
Definition reads {A} (m : session A) : Prop := ∀ σ, session_inv σ →
  same_session σ (m σ).2 ∧ session_inv (m σ).2.
Lemma noiseless_on_session {A} (m : session A) : reads m → noiseless (on_session m).
Proof.
  intros Hm s fs Hinv. destruct (Hm (c_state s) Hinv). unfold on_session.
  destruct (m (c_state s)) as [r σ]. eexists r, _. split; [reflexivity|]. by split.
Qed.
Lemma reads_node_model name : reads (node_model name).
Proof.
  intros σ Hinv. unfold node_model, catalog, lift, mbind, session_bind. cbn.
  split; [by apply same_session_refl, si_ready|done].
Qed.
Lemma reads_rel_model name : reads (rel_model name).
Proof.
  intros σ Hinv. unfold rel_model, catalog, lift, mbind, session_bind. cbn.
  split; [by apply same_session_refl, si_ready|done].
Qed.
(** A query that leaves the graph and consistent indexes. *)
Lemma store_read σ store :
  session_inv σ → store_ready store ∧ same_graph (ss_store σ) store →
  same_session σ (set_store store σ) ∧ session_inv (set_store store σ).
Proof.
  intros [Hready Hc Hg] [Hs Hsame]. pose proof (proj2 (graph_of_eq _ _) Hsame) as Heq.
  split; [split; [done|done|apply Hs]|]. split; [done|done|]. cbn. by rewrite <-Heq.
Qed.

(** Finds and profiles. *)
Lemma noiseless_on_find {A} (m : SessionModelCatalog → GraphStore → result A * GraphStore) :
  (∀ c store, store_ready store → store_ready (m c store).2 ∧ same_graph store (m c store).2) →
  noiseless (on_find m).
Proof.
  intros Hm. apply noiseless_on_session. intros σ Hinv.
  pose proof (Hm (ss_catalog σ) (ss_store σ) (si_ready _ Hinv)) as Hk.
  destruct (m (ss_catalog σ) (ss_store σ)) as [r store]. by apply store_read.
Qed.
Lemma noiseless_on_prof {A} (m : SessionModelCatalog → prof A) :
  (∀ c, prof_keeps (m c)) → noiseless (on_prof m).
Proof.
  intros Hm s fs Hinv. unfold on_prof.
  pose proof (Hm (ss_catalog (c_state s)) (ss_store (c_state s)) (c_ticks s) (si_ready _ Hinv)) as Hk.
  destruct (m _ _ _) as [[r store] k]. cbn in Hk.
  destruct (store_read _ _ Hinv Hk) as [Hsame Hinv'].
  eexists r, _. split; [reflexivity|]. by split.
Qed.

Create HintDb profiles.
#[local] Hint Resolve keeps_ret keeps_lift keeps_now keeps_elapsed keeps_snapshot keeps_execute
  keeps_read keeps_filter keeps_return keeps_push : profiles.
Lemma profile_node_keeps c name query plan : prof_keeps (profile_node_query clock c name query plan).
Proof.
  unfold profile_node_query, profile_flat_node_query, profile_traversal_query.
  repeat first [progress auto with profiles | apply keeps_bind; [|intros ?] | case_match].
Qed.
Lemma profile_edge_keeps c name query plan : prof_keeps (profile_edge_query clock c name query plan).
Proof.
  unfold profile_edge_query.
  repeat first [progress auto with profiles | apply keeps_bind; [|intros ?] | case_match].
Qed.

(** ** Appending an operation *)

Lemma workspace_target_eq f p n target :
  workspace_target <$> Some target = Some {| at_format := f; at_path := p; at_pending_entries := n |} →
  durability_format (ac_format target) = f ∧ path_new (ac_path target) = p ∧
  ac_pending_entries target = n.
Proof. by intros [= <- <- <-]. Qed.

(** A checkpoint of the state leaves an empty log. *)
Lemma checkpoint_journals f p s fs target :
  session_inv (c_state s) → session_safe f (c_state s) → c_script_tx s = None →
  c_autocommit s = Some target → durability_format (ac_format target) = f →
  path_new (ac_path target) = p → fresh_temps (next_tags s) p fs →
  ∃ s' fs', checkpoint_autocommit s [] fs = (Done (Some (Ok tt), s'), [], fs') ∧
    journaled f p s' fs' ∧ c_state s' = c_state s.
Proof.
  intros Hinv Hsafe Htx Htarget Hf Hp Hfresh.
  destruct (checkpoint_durably f (next_tags s) p (c_state s) fs Hinv Hsafe Hfresh) as (fs' & Hrun & Hdur).
  eexists _, fs'. unfold checkpoint_autocommit. rewrite cli_bind_gets, Htarget.
  rewrite Hf, Hp. erewrite cli_bind_run by by apply on_files_run. split; [reflexivity|]. split; [|reflexivity]. split; [|exact Hinv].
  unfold workspace_view, committed_state. cbn. rewrite Htx. split; [done|done|]. exists [].
  unfold workspace_target. cbn. rewrite Hf, Hp. split_and!; [done| |done].
  unfold AUTOCOMMIT_CHECKPOINT_INTERVAL. cbn. lia.
Qed.

(** The state moved on by an operation that is not yet in the log. *)
Record moved f s s' (op : DurableOperation) : Prop := {
  mv_inv : session_inv (c_state s');
  mv_safe : session_safe f (c_state s');
  mv_op : op_safe op;
  mv_replays : replays op (c_state s) (c_state s');
  mv_tx : c_script_tx s' = c_script_tx s;
  mv_target : c_autocommit s' = c_autocommit s;
  mv_ticks : c_ticks s' = c_ticks s;
}.

Lemma persist_journals f p s fs s1 op :
  journaled f p s fs → fresh_next p s fs → moved f s s1 op →
  ∃ s2 fs2, persist_autocommit_entry op s1 [] fs = (Done (Some (Ok tt), s2), [], fs2) ∧
    journaled f p s2 fs2 ∧ c_state s2 = c_state s1.
Proof.
  intros Hj [Hfresh1 Hfresh2] [Hinv1 Hsafe1 Hop Hrep Htx1 Hac1 Htk1].
  unfold persist_autocommit_entry. rewrite cli_bind_gets, Htx1.
  destruct (c_script_tx s) as [tx|] eqn:Htx.
  { exists s1, fs. split; [reflexivity|]. split; [|done]. split; [|done].
    destruct Hj as [Hc _]. unfold workspace_view, committed_state in *.
    rewrite Htx in Hc. by rewrite Htx1, Hac1. }
  destruct Hj as [[_ _ (ops & Htarget & Hlen & Hdur)] _].
  unfold workspace_view, committed_state in Hdur. cbn in Hdur, Htarget. rewrite Htx in Hdur.
  destruct (c_autocommit s) as [target|] eqn:Hac; [|discriminate].
  apply workspace_target_eq in Htarget as (Hf & Hp & Hn).
  destruct (line_of_op_total op) as [line Hline].
  destruct (append_durable_runs p op line fs Hline) as (fs1 & Hrun & Had).
  assert (∀ τ, same_session (c_state s) τ →
    ∃ τ', replay [op] τ = Ok τ' ∧ same_session (c_state s1) τ') as Hstep.
  { intros τ Hτ. destruct (Hrep τ Hτ) as (τ' & Hτ' & ?). exists τ'. unfold replay. cbn. by rewrite Hτ'. }
  destruct (appended_durable _ _ _ _ _ _ _ _ _ _ Hdur Hop Hline Hstep Had)
    as [(? & ? & ? & ? & _ & _ & _ & _ & _ & Hne)|Hdur1]; [by destruct Hne|].
  rewrite cli_bind_gets, Hac1, Hp. erewrite cli_bind_run by by apply on_files_run.
  rewrite cli_bind_modify, Hn.
  set (s2 := set_autocommit _ _).
  assert (fresh_temps (next_tags s2) p fs1) as Hfresh.
  { unfold next_tags, s2. cbn [c_ticks set_autocommit tick]. rewrite Htk1.
    by apply (fresh_temps_frame _ _ _ _ Hfresh2 (ad_frame _ _ _ _ _ Had)). }
  destruct (Nat.leb_spec AUTOCOMMIT_CHECKPOINT_INTERVAL (S (length ops))) as [Hge|Hlt].
  - destruct (checkpoint_journals f p s2 fs1 (set_pending_entries (S (length ops)) target))
      as (s3 & fs2 & Hcp & Hj & Hst); try done.
    exists s3, fs2. by rewrite Hcp.
  - exists s2, fs1. split; [reflexivity|]. split; [|done]. split; [|done].
    unfold workspace_view, committed_state, s2. cbn. rewrite Htx1. split; [done..|].
    exists (ops ++ [op])%list. unfold workspace_target. cbn. rewrite Hf, Hp, length_app. cbn.
    rewrite Nat.add_1_r. split_and!; [done|lia|done].
Qed.

(** ** The commands *)

(** Steps that leave the session state as it is. *)
Definition keeps_state {A} (m : cli A) : Prop := ∀ s fl fs o s' fl' fs',
  m s fl fs = (Done (o, s'), fl', fs') → c_state s' = c_state s.

Lemma ks_bind {A B} (m : cli A) (k : A → cli B) :
  keeps_state m → (∀ a, keeps_state (k a)) → keeps_state (m ≫= k).
Proof.
  intros Hm Hk s fl fs o s' fl' fs'. unfold mbind, cli_bind.
  destruct (m s fl fs) as [[[[[[a|e]|] s1]|?|] fl1] fs1] eqn:Hrun; intros Heq; try discriminate.
  - rewrite <-(Hm _ _ _ _ _ _ _ Hrun). by eapply Hk.
  - injection Heq as <- <- <- <-. by eapply Hm.
  - injection Heq as <- <- <- <-. by eapply Hm.
Qed.
Lemma ks_ret {A} (a : A) : keeps_state (mret a).
Proof. by intros s fl fs o s' fl' fs' [= <- <- <- <-]. Qed.
Lemma ks_gets {A} (g : CliSession → A) : keeps_state (gets g).
Proof. by intros s fl fs o s' fl' fs' [= <- <- <- <-]. Qed.
Lemma ks_modify g : (∀ s, c_state (g s) = c_state s) → keeps_state (modify g).
Proof. intros Hg s fl fs o s' fl' fs' [= <- <- <- <-]. apply Hg. Qed.
Lemma ks_write text : keeps_state (write text).
Proof.
  intros s fl fs o s' fl' fs'. unfold write. destruct fl as [|[] fl]; intros Heq; try discriminate;
    by injection Heq as <- <- <- <-.
Qed.
Lemma ks_files {A} g (m : string * string → CliSession → io (result A)) :
  keeps_state (map_error g (on_files m)).
Proof.
  intros s fl fs o s' fl' fs'. unfold map_error, on_files.
  destruct (m _ s fl fs) as [[[[a|e]|?|] fl1] fs1]; intros Heq; try discriminate;
    by injection Heq as <- <- <- <-.
Qed.
Lemma ks_read_line : keeps_state read_line.
Proof.
  intros s fl fs o s' fl' fs'. unfold read_line. destruct (take_line (c_reader s)) as [line rest].
  destruct fl as [|[] fl]; intros Heq; try discriminate; by injection Heq as <- <- <- <-.
Qed.
Lemma ks_lift {A} (r : result A) : keeps_state (cli_lift r).
Proof. by intros s fl fs o s' fl' fs' [= <- <- <- <-]. Qed.
Lemma ks_turns {X A} (body : X → cli (X + A)) n x :
  (∀ x, keeps_state (body x)) → keeps_state (turns n body x).
Proof.
  intros Hbody. revert x. induction n as [|n IH]; intros x.
  - by intros s fl fs o s' fl' fs' [= <- <- <- <-].
  - intros s fl fs o s' fl' fs'. cbn [turns]. revert s fl fs o s' fl' fs'.
    apply ks_bind; [apply Hbody|]. intros [y|a]; [apply IH|apply ks_ret].
Qed.
Lemma ks_read_command_line : keeps_state read_command_line.
Proof.
  apply ks_bind; [apply ks_read_line|]. intros [line|]; [|apply ks_ret].
  apply ks_bind; [|intros l; apply ks_ret]. apply ks_bind; [apply ks_gets|]. intros n.
  apply ks_turns. intros [combined current]. cbn. case_match; [|apply ks_ret].
  apply ks_bind; [apply ks_read_line|]. intros next. apply ks_bind; [apply ks_lift|].
  intros l. apply ks_ret.
Qed.
Lemma ks_unless_script m : keeps_state m → keeps_state (unless_script m).
Proof. intros Hm. apply ks_bind; [apply ks_gets|]. intros []; [apply ks_ret|done]. Qed.
Lemma ks_checkpoint : keeps_state checkpoint_autocommit.
Proof.
  apply ks_bind; [apply ks_gets|]. intros [target|]; [|apply ks_ret].
  apply ks_bind; [apply ks_files|]. intros _. by apply ks_modify.
Qed.
Lemma ks_persist op : keeps_state (persist_autocommit_entry op).
Proof.
  apply ks_bind; [apply ks_gets|]. intros [tx|]; [apply ks_ret|].
  apply ks_bind; [apply ks_gets|]. intros [target|]; [|apply ks_ret].
  apply ks_bind; [apply ks_files|]. intros _. apply ks_bind; [by apply ks_modify|]. intros _.
  case_match; [apply ks_checkpoint|apply ks_ret].
Qed.

(** Steps that write text and make notes. *)
Definition textual {A} (m : cli A) : Prop := noiseless m ∧ keeps_state m.
Lemma textual_bind {A B} (m : cli A) (k : A → cli B) :
  textual m → (∀ a, textual (k a)) → textual (m ≫= k).
Proof.
  intros [Hq Hs] Hk. split; [apply noiseless_bind; [done|]|apply ks_bind; [done|]]; intros a; apply Hk.
Qed.
Lemma textual_ret {A} (a : A) : textual (mret (M:=cli) a).
Proof. split; [apply noiseless_ret|apply ks_ret]. Qed.
Lemma textual_gets {A} (g : CliSession → A) : textual (gets g).
Proof. split; [apply noiseless_gets|apply ks_gets]. Qed.
Lemma textual_modify g :
  (∀ s, c_state (g s) = c_state s) → (∀ s, c_script_tx (g s) = c_script_tx s) →
  (∀ s, c_autocommit (g s) = c_autocommit s) → textual (modify g).
Proof. split; [by apply noiseless_modify|by apply ks_modify]. Qed.
Lemma textual_write text : textual (write text).
Proof. split; [apply noiseless_write|apply ks_write]. Qed.
Lemma textual_unless_script m : textual m → textual (unless_script m).
Proof. intros []. split; [by apply noiseless_unless_script|by apply ks_unless_script]. Qed.

(** A command keeps the files in step, given ids to use and a session it can
    write in the end. *)
Definition stays f p (m : cli unit) : Prop := ∀ s fs o s' fl' fs',
  journaled f p s fs → fresh_next p s fs → room (c_state s) →
  m s [] fs = (Done (o, s'), fl', fs') → session_safe f (c_state s') →
  fl' = [] ∧ journaled f p s' fs'.

Lemma noiseless_stays f p m : noiseless m → stays f p m.
Proof.
  intros Hm s fs o s' fl' fs' Hj _ _ Hrun Hsafe.
  destruct (Hm s fs (jn_inv _ _ _ _ Hj)) as (r & s1 & Hrun1 & Hal).
  rewrite Hrun1 in Hrun. injection Hrun as <- <- <- <-. split; [done|].
  by eapply journaled_alike.
Qed.
Lemma lift_stays {A} f p (r : result A) (k : A → cli unit) :
  (∀ a, stays f p (k a)) → stays f p (cli_lift r ≫= k).
Proof.
  intros Hk s fs o s' fl' fs' Hj Hfresh Hroom. rewrite cli_bind_lift. destruct r as [a|e].
  - by apply (Hk a).
  - intros [= <- <- <- <-] _. by split.
Qed.
Lemma gets_stays {A} f p (g : CliSession → A) (k : A → cli unit) :
  (∀ a, stays f p (k a)) → stays f p (gets g ≫= k).
Proof. intros Hk s fs o s' fl' fs'. rewrite cli_bind_gets. apply Hk. Qed.

(** A mutation, notes of it, its entry, and text. *)
Lemma mutation_stays {A} f p (m : session A) (op : A → DurableOperation) (k : A → cli unit) :
  (∀ σ, session_inv σ → room σ → sound (m σ) σ op) →
  (∀ σ a σ', session_inv σ → room σ → m σ = (Ok a, σ') → session_safe f σ' → op_safe (op a)) →
  (∀ σ a s, session_inv σ → room σ → m σ = (Ok a, c_state s) → ∃ s1 k1, (∀ fs,
     k a s [] fs = (persist_autocommit_entry (op a) ≫= k1) s1 [] fs) ∧
     c_state s1 = c_state s ∧ c_script_tx s1 = c_script_tx s ∧
     c_autocommit s1 = c_autocommit s ∧ c_ticks s1 = c_ticks s ∧
     (∀ u, textual (k1 u))) →
  stays f p (on_session m ≫= k).
Proof.
  intros Hsound Hsafe Hk s fs o s' fl' fs' Hj Hfresh Hroom.
  pose proof (jn_inv _ _ _ _ Hj) as Hinv. rewrite cli_bind_on_session.
  specialize (Hsound (c_state s) Hinv Hroom). destruct (m (c_state s)) as [[a|e] σ'] eqn:Hm.
  2: { unfold sound in Hsound. subst σ'. intros [= <- <- <- <-] Hs. split; [done|].
       eapply journaled_alike; [done| |done]. by split; [apply same_session_refl, si_ready|..]. }
  destruct Hsound as (Hinv' & Hrep & _).
  destruct (Hk (c_state s) a (set_state σ' s) Hinv Hroom Hm)
    as (s1 & k1 & Hrun & Hst & Htx & Hac & Htk & Hq).
  rewrite Hrun. cbn in Hst, Htx, Hac, Htk. intros Hall Hs'.
  assert (keeps_state (persist_autocommit_entry (op a) ≫= k1)) as Hks.
  { apply ks_bind; [apply ks_persist|]. intros u. apply Hq. }
  pose proof (Hks _ _ _ _ _ _ _ Hall) as Heq. rewrite Heq, Hst in Hs'.
  assert (moved f s s1 (op a)) as Hmoved.
  { split; rewrite ?Hst; try done. by eapply Hsafe. }
  destruct (persist_journals f p s fs s1 (op a) Hj Hfresh Hmoved) as (s2 & fs2 & Hp & Hj2 & Hst2).
  unfold mbind, cli_bind in Hall. rewrite Hp in Hall.
  destruct (Hq tt) as [Hnoiseless _].
  destruct (Hnoiseless s2 fs2 (jn_inv _ _ _ _ Hj2)) as (r & s3 & Hrun3 & Hal).
  rewrite Hrun3 in Hall. injection Hall as <- <- <- <-. split; [done|].
  eapply journaled_alike; [done..|]. by rewrite Heq, Hst.
Qed.

(** *** The model of a mutation is still there *)

Definition keeps_catalog {A} (m : session A) : Prop := ∀ σ, ss_catalog (m σ).2 = ss_catalog σ.
Lemma kc_bind {A B} (m : session A) (k : A → session B) :
  keeps_catalog m → (∀ a, keeps_catalog (k a)) → keeps_catalog (m ≫= k).
Proof.
  intros Hm Hk σ. specialize (Hm σ). unfold mbind, session_bind.
  destruct (m σ) as [[a|e] σ']; [|done]. cbn in Hm. by rewrite Hk.
Qed.
Lemma kc_lift {A} (r : result A) : keeps_catalog (lift r).
Proof. done. Qed.
Lemma kc_node_model name : keeps_catalog (node_model name).
Proof. by apply kc_bind. Qed.
Lemma kc_rel_model name : keeps_catalog (rel_model name).
Proof. by apply kc_bind. Qed.
Lemma kc_transaction {A} (steps : txm A) : keeps_catalog (in_transaction steps).
Proof.
  intros σ. unfold in_transaction. by repeat case_match.
Qed.

Lemma node_model_run name (σ : SessionState) :
  node_model name σ = (ok_or (get_node_model (ss_catalog σ) name) NotFound, σ).
Proof. done. Qed.
Lemma rel_model_run name (σ : SessionState) :
  rel_model name σ = (ok_or (get_rel_model (ss_catalog σ) name) NotFound, σ).
Proof. done. Qed.

Lemma model_stays_there {A} name (k : RuntimeNodeModel → session A) σ a σ' :
  (∀ m, keeps_catalog (k m)) → (node_model name ≫= k) σ = (Ok a, σ') →
  ∃ m, get_node_model (ss_catalog σ') name = Some m.
Proof.
  intros Hk. unfold mbind, session_bind. rewrite node_model_run.
  destruct (get_node_model (ss_catalog σ) name) as [m|] eqn:Hm; [|done]. cbn [ok_or].
  intros Hrun. exists m. pose proof (Hk m σ) as Hc. by rewrite Hrun in Hc; cbn in Hc; rewrite Hc.
Qed.
Lemma link_stays_there {A} name (k : RuntimeRelModel → session A) σ a σ' :
  (∀ m, keeps_catalog (k m)) → (rel_model name ≫= k) σ = (Ok a, σ') →
  ∃ m, get_rel_model (ss_catalog σ') name = Some m.
Proof.
  intros Hk. unfold mbind, session_bind. rewrite rel_model_run.
  destruct (get_rel_model (ss_catalog σ) name) as [m|] eqn:Hm; [|done]. cbn [ok_or].
  intros Hrun. exists m. pose proof (Hk m σ) as Hc. by rewrite Hrun in Hc; cbn in Hc; rewrite Hc.
Qed.
Lemma create_instance_model name raw σ a σ' :
  create_instance name raw σ = (Ok a, σ') → ∃ m, get_node_model (ss_catalog σ') name = Some m.
Proof.
  apply model_stays_there. intros m. apply kc_bind; [apply kc_lift|]. intros props.
  apply kc_transaction.
Qed.
Lemma update_node_model name id raw σ a σ' :
  update_node_instance name id raw σ = (Ok a, σ') →
  ∃ m, get_node_model (ss_catalog σ') name = Some m.
Proof.
  apply model_stays_there. intros m. apply kc_bind; [apply kc_lift|]. intros i.
  apply kc_bind; [apply kc_lift|]. intros props. apply kc_transaction.
Qed.
Lemma create_relationship_model name from to raw σ a σ' :
  create_relationship_instance name from to raw σ = (Ok a, σ') →
  ∃ m, get_rel_model (ss_catalog σ') name = Some m.
Proof.
  apply link_stays_there. intros m. apply kc_bind; [apply kc_lift|]. intros props.
  apply kc_bind; [apply kc_lift|]. intros f. apply kc_bind; [apply kc_lift|]. intros t.
  apply kc_transaction.
Qed.
Lemma update_relationship_model name id raw σ a σ' :
  update_relationship_instance name id raw σ = (Ok a, σ') →
  ∃ m, get_rel_model (ss_catalog σ') name = Some m.
Proof.
  apply link_stays_there. intros m. apply kc_bind; [apply kc_lift|]. intros i.
  apply kc_bind; [apply kc_lift|]. intros props. apply kc_bind; [|intros e; apply kc_transaction].
  intros τ. unfold existing_edge, mbind, session_bind, catalog, on_store, lift. by repeat case_match.
Qed.

(** *** Operations that can be written *)

Lemma node_op_safe f node σ σ' :
  session_inv σ → replays (UpsertNode node) σ σ' → session_safe f σ' → op_safe (UpsertNode node).
Proof. intros Hinv Hrep [[Hn _] _]. by apply (Hn (sn_id node)), (upserted_node _ σ). Qed.
Lemma rel_op_safe f rel σ σ' :
  session_inv σ → replays (UpsertRel rel) σ σ' → session_safe f σ' → op_safe (UpsertRel rel).
Proof. intros Hinv Hrep [[_ Hr] _]. by apply (Hr (sr_id rel)), (upserted_rel _ σ). Qed.

Lemma sound_op_safe {A} f (m : session A) (op : A → DurableOperation) σ a σ' :
  (∀ σ, session_inv σ → room σ → sound (m σ) σ op) →
  match op a with UpsertNode _ | UpsertRel _ | DurDeleteNode _ | DurDeleteRel _ => True
  | _ => False end →
  session_inv σ → room σ → m σ = (Ok a, σ') → session_safe f σ' → op_safe (op a).
Proof.
  intros Hsound Hop Hinv Hroom Hrun Hsafe. specialize (Hsound σ Hinv Hroom). rewrite Hrun in Hsound.
  destruct Hsound as (_ & Hrep & _). destruct (op a); try done.
  - by eapply node_op_safe.
  - by eapply rel_op_safe.
Qed.

(** *** Each handler *)

Definition arguments_regular (assignments : list KeyValueArg) : Prop :=
  Forall (λ arg, ∀ t, parse_from_rfc3339 (str_trim (kv_value arg)) = Some t → datetime_regular t)
         assignments.
Lemma collected_regular assignments :
  arguments_regular assignments → raw_regular (collect_assignments assignments).
Proof.
  unfold collect_assignments. intros Hreg.
  assert (∀ l acc, arguments_regular l → raw_regular acc →
    raw_regular (foldl (λ m arg, <[kv_key arg := kv_value arg]> m) acc l)) as Hloop.
  { induction l as [|arg l IH]; intros acc Hl Hacc; [done|]. apply Forall_cons in Hl as [Harg Hl].
    apply IH; [done|]. intros key v t Hv. destruct (decide (key = kv_key arg)) as [->|Hne].
    - rewrite lookup_insert_eq in Hv. injection Hv as <-. apply Harg.
    - rewrite lookup_insert_ne in Hv by done. by eapply Hacc. }
  apply Hloop; [done|]. intros key v t Hv. by rewrite lookup_empty in Hv.
Qed.
Lemma raw_regular_delete key (raw : gmap string string) : raw_regular raw → raw_regular (delete key raw).
Proof. intros Hreg k v t [_ Hv]%lookup_delete_Some. by eapply Hreg. Qed.

Lemma stays_ext f p (m m' : cli unit) :
  (∀ s fl fs, m s fl fs = m' s fl fs) → stays f p m' → stays f p m.
Proof. intros Heq Hm s fs o s' fl' fs'. rewrite Heq. apply Hm. Qed.
Lemma cli_bind_assoc {A B C} (m : cli A) (g : A → cli B) (k : B → cli C) s fl fs :
  ((m ≫= g) ≫= k) s fl fs = (m ≫= λ a, g a ≫= k) s fl fs.
Proof.
  unfold mbind, cli_bind. by destruct (m s fl fs) as [[[[[[a|e]|] s1]|?|] fl1] fs1].
Qed.

Lemma define_node_stays f p parts :
  stays f p (handle_model_define_args parts).
Proof.
  destruct parts as [|name [|id_field specs]]; try (apply noiseless_stays, noiseless_fail).
  apply lift_stays. intros fields. apply (mutation_stays _ _ _ ro_durable_op).
  - intros σ Hinv _. by apply define_node_sound.
  - intros σ o σ' _ _ Hrun (_ & [Hutf _] & _). destruct (defined_node _ _ _ _ Hrun) as [-> Hin].
    apply (Hutf _ _ Hin).
  - intros σ o s _ _ _. eexists _, _. split; [intros fs; rewrite cli_bind_modify; reflexivity|].
    split_and!; [done..|]. intros []. apply textual_unless_script, textual_write.
Qed.
Lemma define_edge_stays f p parts : stays f p (handle_link_define_args parts).
Proof.
  destruct parts as [|name [|from [|to [|id_field specs]]]]; try (apply noiseless_stays, noiseless_fail).
  apply lift_stays. intros fields. apply (mutation_stays _ _ _ ro_durable_op).
  - intros σ Hinv _. by apply define_edge_sound.
  - intros σ o σ' _ _ Hrun (_ & [_ Hutf] & _). destruct (defined_edge _ _ _ _ Hrun) as [-> Hin].
    apply (Hutf _ _ Hin).
  - intros σ o s _ _ _. eexists _, _. split; [intros fs; rewrite cli_bind_modify; reflexivity|].
    split_and!; [done..|]. intros []. apply textual_unless_script, textual_write.
Qed.

Lemma on_node_model_run {B} name m (k : RuntimeNodeModel → cli B) s fl fs :
  get_node_model (ss_catalog (c_state s)) name = Some m →
  (on_session (node_model name) ≫= k) s fl fs = k m (set_state (c_state s) s) fl fs.
Proof. intros Hm. rewrite cli_bind_on_session, node_model_run. by rewrite Hm. Qed.
Lemma on_rel_model_run {B} name m (k : RuntimeRelModel → cli B) s fl fs :
  get_rel_model (ss_catalog (c_state s)) name = Some m →
  (on_session (rel_model name) ≫= k) s fl fs = k m (set_state (c_state s) s) fl fs.
Proof. intros Hm. rewrite cli_bind_on_session, rel_model_run. by rewrite Hm. Qed.

Lemma available_stays f p binding (k : cli unit) :
  stays f p k → stays f p (ensure_binding_available binding ≫= λ _, k).
Proof.
  intros Hk. apply (stays_ext _ _ _ (gets c_bindings ≫= λ bindings, match bindings !! binding with
    | Some _ => fail (Constraint ("binding '" +:+ binding +:+ "' is already defined"))
    | None => k end)).
  - intros s fl fs. unfold ensure_binding_available. rewrite cli_bind_assoc, !cli_bind_gets.
    by destruct (c_bindings s !! binding).
  - apply gets_stays. intros bindings. case_match; [apply noiseless_stays, noiseless_fail|done].
Qed.

(** The rest of a creation is text, and perhaps a binding. *)
Lemma cli_bind_ret {A B} (a : A) (k : A → cli B) s fl fs : (mret a ≫= k) s fl fs = k a s fl fs.
Proof. done. Qed.

Lemma create_stays f p model_name assignments (k : StoredNode → cli unit) :
  arguments_regular assignments → (∀ created, textual (k created)) →
  stays f p (handle_node_create_parsed model_name assignments ≫= k).
Proof.
  intros Hreg Hk. eapply stays_ext; [intros s fl fs; apply cli_bind_assoc|].
  pose proof (collected_regular _ Hreg) as Hraw.
  assert (∀ σ, session_inv σ → room σ →
    sound (create_instance model_name (collect_assignments assignments) σ) σ UpsertNode) as Hsound
    by (intros; by apply create_instance_sound).
  apply (mutation_stays _ _ _ UpsertNode); [done|by intros; eapply sound_op_safe|].
  intros σ created s _ _ Hrun. destruct (create_instance_model _ _ _ _ _ Hrun) as [m Hm].
  eexists _, _. split.
  { intros fs. rewrite cli_bind_assoc, (on_node_model_run _ m) by done.
    rewrite cli_bind_assoc, cli_bind_modify, cli_bind_assoc. reflexivity. }
  split_and!; [done..|]. intros []. rewrite ?cli_bind_assoc.
  apply textual_bind; [|intros created'; apply Hk].
  apply textual_bind; [apply textual_unless_script, textual_write|]. intros []. apply textual_ret.
Qed.
Lemma node_create_stays f p binding model_name assignments :
  arguments_regular assignments → stays f p (handle_node_create binding model_name assignments).
Proof.
  intros Hreg. destruct binding as [binding|]; [apply available_stays|];
    apply create_stays; try done; intros created; [by apply textual_modify|apply textual_ret].
Qed.

Lemma node_update_stays f p model_name id assignments :
  arguments_regular assignments → stays f p (handle_node_update_parsed model_name id assignments).
Proof.
  intros Hreg%collected_regular. apply lift_stays. intros raw_id.
  assert (∀ σ, session_inv σ → room σ → sound (update_node_instance model_name (Z_to_string raw_id)
    (collect_assignments assignments) σ) σ UpsertNode) as Hsound
    by (intros; by apply update_node_instance_sound).
  apply (mutation_stays _ _ _ UpsertNode); [done|by intros; eapply sound_op_safe|].
  intros σ updated s _ _ Hrun. destruct (update_node_model _ _ _ _ _ _ Hrun) as [m Hm].
  eexists _, _. split; [intros fs; rewrite (on_node_model_run _ m) by done; reflexivity|].
  split_and!; [done..|]. intros []. apply textual_bind; [apply textual_gets|]. intros colors.
  apply textual_write.
Qed.
Lemma edge_update_stays f p model_name id assignments :
  arguments_regular assignments → stays f p (handle_edge_update_parsed model_name id assignments).
Proof.
  intros Hreg%collected_regular. apply lift_stays. intros raw_id.
  assert (∀ σ, session_inv σ → room σ → sound (update_relationship_instance model_name
    (Z_to_string raw_id) (collect_assignments assignments) σ) σ UpsertRel) as Hsound
    by (intros; by apply update_relationship_instance_sound).
  apply (mutation_stays _ _ _ UpsertRel); [done|by intros; eapply sound_op_safe|].
  intros σ updated s _ _ Hrun. destruct (update_relationship_model _ _ _ _ _ _ Hrun) as [m Hm].
  eexists _, _. split; [intros fs; rewrite (on_rel_model_run _ m) by done; reflexivity|].
  split_and!; [done..|]. intros []. apply textual_bind; [apply textual_gets|]. intros colors.
  apply textual_write.
Qed.
Lemma edge_create_stays f p model_name assignments :
  arguments_regular assignments → stays f p (handle_edge_create_parsed model_name assignments).
Proof.
  intros Hreg%collected_regular. unfold handle_edge_create_parsed. cbv zeta.
  apply lift_stays. intros from_id. apply lift_stays. intros to_id. apply gets_stays. intros bindings.
  do 4 (apply lift_stays; intros ?).
  set (raw := delete "to" (delete "from" (collect_assignments assignments))).
  assert (raw_regular raw) as Hraw by by apply raw_regular_delete, raw_regular_delete.
  apply (mutation_stays _ _ _ UpsertRel).
  - intros. by apply create_relationship_instance_sound.
  - intros σ created σ' Hinv Hroom Hrun Hsafe.
    refine (sound_op_safe f _ UpsertRel σ created σ' _ _ Hinv Hroom Hrun Hsafe); [|done].
    intros. by apply create_relationship_instance_sound.
  - intros σ created s _ _ Hrun. destruct (create_relationship_model _ _ _ _ _ _ _ Hrun) as [m Hm].
    eexists _, _. split.
    { intros fs. rewrite (on_rel_model_run _ m) by done. rewrite cli_bind_modify. reflexivity. }
    split_and!; [done..|]. intros []. apply textual_unless_script, textual_write.
Qed.

Lemma node_delete_stays f p model_name id : stays f p (handle_node_delete_parsed model_name id).
Proof.
  apply lift_stays. intros raw_id.
  set (r := {| nd_model := model_name; nd_id := raw_id |}).
  assert (∀ σ, session_inv σ → room σ → sound (apply_node_delete r σ) σ ro_durable_op) as Hsound.
  { intros σ Hinv Hroom. pose proof (mutation_sound (MNodeDelete r) σ Hinv Hroom) as Hs.
    by apply sound_unbind in Hs. }
  apply (mutation_stays _ _ _ ro_durable_op); [done| |].
  - intros σ o σ' _ _ Hrun _. unfold apply_node_delete, mbind, session_bind in Hrun.
    destruct (delete_node_instance _ _ σ) as [[[]|] ?]; [|done]. by injection Hrun as <- _.
  - intros σ o s _ _ _. eexists _, _. split; [intros fs; reflexivity|]. split_and!; [done..|].
    intros []. apply textual_write.
Qed.
Lemma edge_delete_stays f p model_name id : stays f p (handle_edge_delete_parsed model_name id).
Proof.
  apply lift_stays. intros raw_id.
  set (r := {| ed_model := model_name; ed_id := raw_id |}).
  assert (∀ σ, session_inv σ → room σ → sound (apply_edge_delete r σ) σ ro_durable_op) as Hsound.
  { intros σ Hinv Hroom. pose proof (mutation_sound (MEdgeDelete r) σ Hinv Hroom) as Hs.
    by apply sound_unbind in Hs. }
  apply (mutation_stays _ _ _ ro_durable_op); [done| |].
  - intros σ o σ' _ _ Hrun _. unfold apply_edge_delete, mbind, session_bind in Hrun.
    destruct (delete_relationship_instance _ _ σ) as [[[]|] ?]; [|done]. by injection Hrun as <- _.
  - intros σ o s _ _ _. eexists _, _. split; [intros fs; reflexivity|]. split_and!; [done..|].
    intros []. apply textual_write.
Qed.

(** *** Transactions *)

Lemma begin_stays f p : stays f p handle_tx_begin.
Proof.
  intros s fs o s' fl' fs' Hj _ _. unfold handle_tx_begin. rewrite cli_bind_gets.
  destruct (c_script_tx s) as [tx|] eqn:Htx.
  - intros [= <- <- <- <-] Hsafe. split; [done|].
    by apply (journaled_alike _ _ _ _ _ Hj (alike_refl s (jn_inv _ _ _ _ Hj))).
  - rewrite cli_bind_modify. set (s1 := set_script_tx _ s). intros Hrun Hsafe.
    destruct (textual_unless_script _ (textual_write ("Transaction started." +:+ Parser.newline)))
      as [Hq Hks].
    destruct (Hq s1 fs (jn_inv _ _ _ _ Hj)) as (r & s2 & Hrun2 & Hal).
    change (unless_script (writeln "Transaction started.") s1 [] fs = (Done (o, s'), fl', fs')) in Hrun.
    unfold writeln in Hrun. rewrite Hrun2 in Hrun. injection Hrun as <- <- <- <-. split; [done|].
    apply (journaled_alike f p s1); [|done..]. destruct Hj as [Hc Hinv]. split; [|done].
    unfold workspace_view, committed_state in *. by rewrite Htx in Hc.
Qed.

Lemma commit_stays f p : stays f p handle_tx_commit.
Proof.
  intros s fs o s' fl' fs' Hj [Hfresh _] _ Hrun Hsafe.
  assert (keeps_state handle_tx_commit) as Hks.
  { apply ks_bind; [|intros [tx|]; [|by intros ??????? [= <- <- <- <-]]].
    - apply ks_bind; [apply ks_gets|]. intros tx. apply ks_bind; [by apply ks_modify|].
      intros []. apply ks_ret.
    - apply ks_bind; [apply ks_checkpoint|]. intros []. apply ks_unless_script, ks_write. }
  rewrite (Hks _ _ _ _ _ _ _ Hrun) in Hsafe. revert Hrun.
  unfold handle_tx_commit, take_script_tx. rewrite cli_bind_assoc, cli_bind_gets, cli_bind_assoc,
    cli_bind_modify.
  destruct (c_script_tx s) as [tx|] eqn:Htx.
  - destruct Hj as [[_ _ (ops & Htarget & _)] Hinv]. cbn in Htarget.
    destruct (c_autocommit s) as [target|] eqn:Hac; [|discriminate].
    apply workspace_target_eq in Htarget as (Hf & Hp & _).
    destruct (checkpoint_journals f p (set_script_tx None s) fs target Hinv Hsafe eq_refl Hac Hf Hp
      Hfresh) as (s1 & fs1 & Hcp & Hj1 & Hst).
    rewrite cli_bind_ret. erewrite cli_bind_run by exact Hcp. intros Hrun.
    destruct (textual_unless_script _ (textual_write ("Transaction committed." +:+ Parser.newline)))
      as [Hq _].
    destruct (Hq s1 fs1 (jn_inv _ _ _ _ Hj1)) as (r & s2 & Hrun2 & Hal).
    unfold writeln in Hrun. rewrite Hrun2 in Hrun. injection Hrun as <- <- <- <-. split; [done|].
    apply (journaled_alike _ _ _ _ _ Hj1 Hal).
    eapply session_safe_same; [apply (al_same _ _ Hal)|]. by rewrite Hst.
  - rewrite cli_bind_ret. intros [= <- <- <- <-]. split; [done|].
    apply (journaled_alike _ _ _ _ _ Hj); [|done].
    by split; [apply same_session_refl, si_ready, (jn_inv _ _ _ _ Hj)|apply Hj|..].
Qed.

(** *** Queries and lists *)

Create HintDb noiseless.
#[local] Hint Constants Opaque : noiseless.
#[local] Hint Resolve noiseless_lift noiseless_ret noiseless_fail noiseless_gets noiseless_write noiseless_write_lines : noiseless.
Lemma noiseless_node_model name : noiseless (on_session (node_model name)).
Proof. apply noiseless_on_session, reads_node_model. Qed.
Lemma noiseless_rel_model name : noiseless (on_session (rel_model name)).
Proof. apply noiseless_on_session, reads_rel_model. Qed.
Lemma noiseless_node_query name query : noiseless (on_find (λ c, execute_node_query c name query)).
Proof. apply noiseless_on_find. intros c store Hs. by apply node_query_kept. Qed.
Lemma noiseless_edge_query name query :
  noiseless (on_find (λ c store, (find_relationships_with_query c name query store, store))).
Proof. by apply noiseless_on_find. Qed.
Lemma noiseless_node_profile name query plan :
  noiseless (on_prof (λ c, profile_node_query clock c name query plan)).
Proof. apply noiseless_on_prof. intros c. apply profile_node_keeps. Qed.
Lemma noiseless_edge_profile name query plan :
  noiseless (on_prof (λ c, profile_edge_query clock c name query plan)).
Proof. apply noiseless_on_prof. intros c. apply profile_edge_keeps. Qed.
#[local] Hint Resolve noiseless_node_model noiseless_rel_model noiseless_node_query noiseless_edge_query
  noiseless_node_profile noiseless_edge_profile : noiseless.

Ltac hush :=
  repeat match goal with
  | |- noiseless (_ ≫= _) => apply noiseless_bind; [|intros]
  | |- noiseless (unless_script _) => apply noiseless_unless_script
  | |- noiseless (writeln _) => apply noiseless_write
  | |- _ => solve [auto with noiseless nocore]
  | |- noiseless (match ?x with _ => _ end) => destruct x
  end.

(** The commands that are followed, and what is asked of their arguments. *)
Definition followed (command : SessionCommand) : bool :=
  match command with
  | CmdModelDefine [] | CmdLinkDefine [] => false
  | CmdTxCommit => true
  | _ => plain command
  end.
Definition command_regular (command : SessionCommand) : Prop :=
  match command with
  | CmdNodeCreate _ _ assignments | CmdNodeUpdate _ _ assignments
  | CmdEdgeCreate _ assignments | CmdEdgeUpdate _ _ assignments => arguments_regular assignments
  | _ => True
  end.

Lemma command_stays f p trimmed command :
  followed command = true → command_regular command → stays f p (run_command trimmed command).
Proof.
  intros Hf Hreg. destruct command; try discriminate Hf; cbn [run_command command_regular] in *.
  all: try (destruct args as [|arg args]; [discriminate Hf|]).
  all: lazymatch goal with
    | |- stays _ _ handle_tx_begin => apply begin_stays
    | |- stays _ _ handle_tx_commit => apply commit_stays
    | |- stays _ _ (handle_model_define_args _) => apply define_node_stays
    | |- stays _ _ (handle_link_define_args _) => apply define_edge_stays
    | |- stays _ _ (handle_node_create _ _ _) => by apply node_create_stays
    | |- stays _ _ (handle_node_update_parsed _ _ _) => by apply node_update_stays
    | |- stays _ _ (handle_node_delete_parsed _ _) => apply node_delete_stays
    | |- stays _ _ (handle_edge_create_parsed _ _) => by apply edge_create_stays
    | |- stays _ _ (handle_edge_update_parsed _ _ _) => by apply edge_update_stays
    | |- stays _ _ (handle_edge_delete_parsed _ _) => apply edge_delete_stays
    | |- _ => apply noiseless_stays
    end.
  all: unfold write_help, write_session_summary, write_index_catalog, write_model_list,
      write_model_show, write_rel_model_list, write_rel_model_show, handle_node_find_parsed,
      handle_session_explain_node_find, handle_session_profile_node_find, handle_edge_find_parsed,
      handle_session_explain_edge_find, handle_session_profile_edge_find,
      session_parse_node_find_terms, session_parse_edge_find_query, write_query_result,
      script_mode, on_catalog; hush.
Qed.

(** *** Lines *)

Definition line_followed (line : string) : Prop :=
  match parse_command_line (str_trim line) with
  | Ok command => followed command = true ∧ command_regular command
  | Err _ => True
  end.

Lemma line_stays f p line s fs o s' fl' fs' :
  line_followed line → journaled f p s fs → fresh_next p s fs → room (c_state s) →
  handle_command line s [] fs = (Done (o, s'), fl', fs') → session_safe f (c_state s') →
  journaled f p s' fs'.
Proof.
  unfold line_followed, handle_command. intros Hline Hj Hfresh Hroom.
  destruct (String.eqb (str_trim line) ""); [by intros [= <- <- <- <-]|]. rewrite cli_bind_lift.
  destruct (parse_command_line (str_trim line)) as [command|e]; [|by intros [= <- <- <- <-]].
  destruct Hline as [Hf Hreg]. intros Hrun Hsafe.
  assert (command = CmdExit ∧ s' = s ∧ fs' = fs ∨
    (run_command (str_trim line) command ≫= λ _, mret (M:=cli) false) s [] fs
      = (Done (o, s'), fl', fs')) as [(_ & -> & ->)|Hrun']; [|done|].
  { destruct command; try (right; exact Hrun). left. by injection Hrun as _ <- _ <-. }
  unfold mbind, cli_bind in Hrun'.
  destruct (run_command (str_trim line) command s [] fs) as [[[[[[u|e]|] s1]|?|] fl1] fs1] eqn:Hcmd;
    try discriminate Hrun'; injection Hrun' as <- <- <- <-;
    by eapply (command_stays f p (str_trim line) command Hf Hreg s fs).
Qed.

Lemma enable_journals f p format path s fs :
  durability_format format = f → path_new path = p → session_inv (c_state s) →
  session_safe f (c_state s) → c_script_tx s = None → fresh_temps (next_tags s) p fs →
  ∃ s' fs', enable_autocommit format path s [] fs = (Done (Some (Ok tt), s'), [], fs') ∧
    journaled f p s' fs' ∧ c_state s' = c_state s.
Proof.
  intros Hf Hp Hinv Hsafe Htx Hfresh. unfold enable_autocommit. rewrite cli_bind_modify.
  set (target := {| ac_format := format; ac_path := path; ac_pending_entries := 0 |}).
  by apply (checkpoint_journals f p (set_autocommit (Some target) s) fs target).
Qed.

(** Reading changes what there is to read. *)
Definition target_stays (x y : CliSession * FileSys) : Prop :=
  c_script_tx y.1 = c_script_tx x.1 ∧ c_autocommit y.1 = c_autocommit x.1 ∧ y.2 = x.2.
#[local] Instance target_stays_preorder : PreOrder target_stays.
Proof. split; [by intros x|]. intros x y z (? & ? & ?) (? & ? & ?). split_and!; congruence. Qed.
Lemma read_stays f p s fs r s' fs' :
  journaled f p s fs → read_command_line s [] fs = (Done (r, s'), [], fs') →
  journaled f p s' fs'.
Proof.
  intros Hj Hrun. assert (∀ s s' fs, c_script_tx s' = c_script_tx s →
    c_autocommit s' = c_autocommit s → target_stays (s, fs) (s', fs)) as Hfree by done.
  assert (along target_stays read_command_line) as Halong.
  { pose proof target_stays_preorder. unfold read_command_line, command_line_turn. walk; by apply along_read_line. }
  destruct (Halong _ _ _ _ _ _ _ Hrun) as (Htx & Hac & Hfs). cbn in *. subst fs'.
  pose proof (ks_read_command_line _ _ _ _ _ _ _ Hrun) as Hst. destruct Hj as [Hc Hinv].
  split; [|by rewrite Hst]. unfold workspace_view, committed_state in *. by rewrite Hst, Htx, Hac.
Qed.
Lemma rollback_stays f p s fs s' fs' :
  journaled f p s fs → rollback_script_tx_after_error s [] fs = (Done (Some (Ok tt), s'), [], fs') →
  journaled f p s' fs'.
Proof.
  intros [Hc Hinv]. unfold rollback_script_tx_after_error, take_script_tx.
  rewrite cli_bind_assoc, cli_bind_gets, cli_bind_assoc, cli_bind_modify, cli_bind_ret.
  destruct (c_script_tx s) as [tx|] eqn:Htx; intros [= <- <-].
  - unfold workspace_view, committed_state in Hc. rewrite Htx in Hc. split; [exact Hc|].
    apply (cm_session _ _ _ _ Hc).
  - unfold workspace_view, committed_state in Hc. rewrite Htx in Hc. by split.
Qed.

(** ** The life of an autocommitting session *)

(** Autocommit is enabled on a session; command lines are read and run, failing
    ones included, and a script rolls an open transaction back. *)
Inductive terminal_life f p : CliSession → FileSys → Prop :=
  | life_enable format path s fs s' fs' :
      durability_format format = f → path_new path = p → session_inv (c_state s) →
      session_safe f (c_state s) → c_script_tx s = None → fresh_temps (next_tags s) p fs →
      enable_autocommit format path s [] fs = (Done (Some (Ok tt), s'), [], fs') →
      terminal_life f p s' fs'
  | life_read s fs r s' fs' :
      terminal_life f p s fs → read_command_line s [] fs = (Done (r, s'), [], fs') →
      terminal_life f p s' fs'
  | life_command line s fs r s' fs' :
      terminal_life f p s fs → line_followed line → fresh_next p s fs → room (c_state s) →
      handle_command line s [] fs = (Done (r, s'), [], fs') → session_safe f (c_state s') →
      terminal_life f p s' fs'
  | life_rollback s fs s' fs' :
      terminal_life f p s fs →
      rollback_script_tx_after_error s [] fs = (Done (Some (Ok tt), s'), [], fs') →
      terminal_life f p s' fs'.

Lemma life_journaled f p s fs : terminal_life f p s fs → journaled f p s fs.
Proof.
  induction 1 as [format path s fs s' fs' Hf Hp Hinv Hsafe Htx Hfresh Hrun
    |s fs r s' fs' _ IH Hrun|line s fs r s' fs' _ IH Hline Hfresh Hroom Hrun Hsafe|s fs s' fs' _ IH Hrun].
  - destruct (enable_journals f p format path s fs Hf Hp Hinv Hsafe Htx Hfresh)
      as (s1 & fs1 & Hrun1 & Hj & _).
    rewrite Hrun1 in Hrun. by injection Hrun as <- <-.
  - by eapply read_stays.
  - by eapply line_stays.
  - by eapply rollback_stays.
Qed.

End journal.

(** ** A session at work *)

Section autocommit_witnesses.
Existing Instances serde_default w_formats w_formats_laws digits_codec digits_codec_laws
  digits_session_codec digits_session_laws digits_interchange_codec w_json_text w_terminal_text
  w_machine.

(** The conditions of a line, as a test: its values are no date-times. *)
Definition dateless (line : string) : bool :=
  match parse_command_line (str_trim line) with
  | Ok command =>
      followed command &&
      match command with
      | CmdNodeCreate _ _ assignments | CmdNodeUpdate _ _ assignments
      | CmdEdgeCreate _ assignments | CmdEdgeUpdate _ _ assignments =>
          forallb (λ arg, bool_decide (parse_from_rfc3339 (str_trim (kv_value arg)) = None)) assignments
      | _ => true
      end
  | Err _ => true
  end.
Lemma dateless_followed line : dateless line = true → line_followed line.
Proof.
  unfold dateless, line_followed. destruct (parse_command_line (str_trim line)) as [command|]; [|done].
  intros [Hf Hreg]%andb_true_iff. split; [exact Hf|].
  destruct command; try exact I; unfold command_regular, arguments_regular;
    apply Forall_forall; intros arg Harg t Ht;
    rewrite forallb_forall in Hreg; specialize (Hreg arg (proj1 (list_elem_of_In _ _) Harg));
    apply bool_decide_eq_true in Hreg; congruence.
Qed.

#[local] Instance catalog_utf8_dec c : Decision (catalog_utf8 c).
Proof.
  unfold catalog_utf8, node_model_utf8, rel_model_utf8, fields_utf8, utf8. apply _.
Defined.
#[local] Instance graph_safe_dec g : Decision (graph_safe g).
Proof. unfold graph_safe, props_safe. apply _. Defined.
Definition safe_json (σ : SessionState) : bool :=
  bool_decide (graph_safe (to_persisted (ss_store σ))) && bool_decide (catalog_utf8 (ss_catalog σ)).
Lemma safe_json_safe σ : safe_json σ = true → session_safe DurJson σ.
Proof.
  intros [Hg%bool_decide_eq_true Hc%bool_decide_eq_true]%andb_true_iff.
  split; [exact Hg|]. split; [exact Hc|exact I].
Qed.

#[local] Instance fresh_temps_dec tags p fs : Decision (fresh_temps tags p fs).
Proof. unfold fresh_temps. apply _. Defined.
Definition w_fresh (p : Path) (s : CliSession) (fs : FileSys) : bool :=
  bool_decide (fresh_temps (next_tags s) p fs) && bool_decide (fresh_temps (next_tags (tick 2 s)) p fs).
Lemma w_fresh_next p s fs : w_fresh p s fs = true → fresh_next p s fs.
Proof. intros [H1%bool_decide_eq_true H2%bool_decide_eq_true]%andb_true_iff. by split. Qed.
Definition w_room (σ : SessionState) : bool :=
  (next_node_id (ss_store σ) <? i64_max)%Z && (next_rel_id (ss_store σ) <? i64_max)%Z.
Lemma w_room_room σ : w_room σ = true → room σ.
Proof. intros [H1%Z.ltb_lt H2%Z.ltb_lt]%andb_true_iff. by split. Qed.

(** A run of lines that meets the conditions all along. *)
Fixpoint live (p : Path) (lines : list string) (s : CliSession) (fs : FileSys)
    : option (CliSession * FileSys) :=
  match lines with
  | [] => Some (s, fs)
  | line :: lines =>
      if dateless line && w_fresh p s fs && w_room (c_state s) then
        match handle_command line s [] fs with
        | (Done (_, s'), [], fs') =>
            if safe_json (c_state s') then live p lines s' fs' else None
        | _ => None
        end
      else None
  end.
Lemma live_life p lines s fs s' fs' :
  terminal_life DurJson p s fs → live p lines s fs = Some (s', fs') → terminal_life DurJson p s' fs'.
Proof.
  revert s fs. induction lines as [|line lines IH]; intros s fs Hlife; cbn [live].
  { by intros [= <- <-]. }
  destruct (dateless line && w_fresh p s fs && w_room (c_state s)) eqn:Hc; [|discriminate].
  apply andb_true_iff in Hc as [[Hd%dateless_followed Hf%w_fresh_next]%andb_true_iff Hr%w_room_room].
  destruct (handle_command line s [] fs) as [[[[r s1]|?|] [|? ?]] fs1] eqn:Hrun; try discriminate.
  destruct (safe_json (c_state s1)) eqn:Hsafe; [|discriminate]. apply IH.
  apply (life_command DurJson p line s fs r); try assumption. by apply safe_json_safe.
Qed.

Definition w_data : Path := path_new "/data/graph.json".
Definition w_lines : list string :=
  ["model.define User userId name:string:required"; "node.create User name=Ada"; "tx.begin";
   "node.create User name=Bob"; "node.create User nickname=Cid"; "node.find User"].

(** Two nodes in the session, one of them in the open transaction only. *)
Definition open_check (o : option (CliSession * FileSys)) : bool :=
  match o with
  | Some (s, _) =>
      Nat.eqb (w_count s) 2 && Nat.eqb (size (nodes (ss_store (committed_state s)))) 1
  | None => false
  end.


(** *** What the wizards leave out

    The first instance of a model, created by the wizard of [model.define], is in
    the session and not in the files: the next start does not find it. *)
Definition w_wizard : CliSession := CliSession_new (text_of_lines
  ["session.autocommit --json /data/graph.json"; "model.define"; "User"; "userId"; "name"; "string";
   "y"; "done"; "y"; "y"; "Ada"; "session.exit"]) "".
Definition wizard_check
    (run : Files.outcome (option (result unit) * CliSession) * list fault * FileSys) : bool :=
  match run with
  | (Done (Some (Ok _), s), _, fs) =>
      Nat.eqb (w_count s) 1 && bool_decide (c_script_tx s = None) &&
      bool_decide (ac_path <$> c_autocommit s = Some "/data/graph.json") &&
      bool_decide (w_reload w_data fs = Some 0)
  | _ => false
  end.
(** With autocommit on, a session that defines a model with the wizard and
    creates its first instance with it ends without an error and with the node in
    its graph; opening the files of the autocommit anew gives no node at all. *)
Theorem wizard_instance_is_lost :
  ∃ s fl fs, run w_wizard [] ∅ = (Done (Some (Ok tt), s), fl, fs) ∧ w_count s = 1%nat ∧
    c_script_tx s = None ∧ ac_path <$> c_autocommit s = Some "/data/graph.json" ∧
    w_reload w_data fs = Some 0%nat.
Proof.
  assert (wizard_check (run w_wizard [] ∅) = true) as Hc by by vm_compute.
  destruct (run w_wizard [] ∅) as [[[[[[[]|?]|] s]|?|] fl] fs]; try discriminate Hc.
  apply andb_true_iff in Hc as [Hc Hr%bool_decide_eq_true].
  apply andb_true_iff in Hc as [Hc Ha%bool_decide_eq_true].
  apply andb_true_iff in Hc as [Hn%Nat.eqb_eq Ht%bool_decide_eq_true].
  exists s, fl, fs. split; [reflexivity|]. split; [exact Hn|]. split; [exact Ht|].
  split; [exact Ha|exact Hr].
Qed.
End autocommit_witnesses.
