(* ===== verification/Service.v ===== *)
(** * The in-process workspace service ([src/grm-service-api/src/lib.rs])

    [InProcessWorkspaceService] keeps the workspaces its clients have open.  A
    client holds a handle; several handles may name one workspace, which stays
    loaded until the last of them is closed, and a named workspace commits to
    one file under the service's root.  The random bytes of a handle, and the
    names of the temporary files of a write, are arguments. *)

From S2P Require Export Security Workspace.

Local Open Scope string_scope.

#[export] Instance Path_countable : Countable Path.
Proof. apply (inj_countable' (λ p, (p_abs p, p_comps p)) (λ x, Build_Path x.1 x.2)). by intros []. Defined.

#[export] Instance DurabilityFormat_eq_dec : EqDecision DurabilityFormat.
Proof. solve_decision. Defined.

Record WorkspaceHandle := { wh_id : string }.
Record WorkspaceRef := { wref_id : string }.

Inductive WorkspaceCreateMode := WcmInMemory | WcmLocalAutocommit.
Record WorkspaceCreateRequest := {
  wcq_mode : WorkspaceCreateMode;
  wcq_workspace : option WorkspaceRef;
  wcq_format : DurabilityFormat;
}.
Record WorkspaceCreateResponse := {
  wcs_handle : WorkspaceHandle;
  wcs_workspace : option WorkspaceRef;
}.
Record WorkspaceOpenRequest := {
  woq_snapshot : option SnapshotHandle;
  woq_workspace : option WorkspaceRef;
  woq_format : DurabilityFormat;
}.
Record WorkspaceOpenResponse := {
  wos_handle : WorkspaceHandle;
  wos_workspace : option WorkspaceRef;
}.
(** The request and the response of a close are a handle. *)
Record WorkspaceCloseRequest := { wlq_handle : WorkspaceHandle }.
Record WorkspaceCloseResponse := { wls_handle : WorkspaceHandle }.
Inductive WorkspaceUnsupportedOperation :=
  OpenLoopExternalInference | HostedDurability | DaemonLifecycle.
Definition unsupported_name (operation : WorkspaceUnsupportedOperation) : string :=
  match operation with
  | OpenLoopExternalInference => "open-loop external inference"
  | HostedDurability => "hosted durability"
  | DaemonLifecycle => "daemon lifecycle"
  end.
(** [LocalWorkspaceSnapshotRequest] and the [LocalWorkspaceSnapshot] kept of it. *)
Record LocalWorkspaceSnapshotRequest := { lsr_format : DurabilityFormat; lsr_path : Path }.
Definition LocalWorkspaceSnapshot : Type := LocalWorkspaceSnapshotRequest.

Inductive WorkspaceServiceError :=
  | SeRuntime (error : GrmError)
  | SeWorkspaceAlreadyExists (workspace : WorkspaceRef)
  | SeUnknownWorkspaceHandle (handle : WorkspaceHandle)
  | SeUnknownSnapshotHandle (snapshot : SnapshotHandle)
  | SeUnsupportedWorkspaceOperation (operation : string).

Definition service_error_to_string (e : WorkspaceServiceError) : string :=
  match e with
  | SeRuntime error => error_to_string error
  | SeWorkspaceAlreadyExists workspace =>
      "workspace '" +:+ wref_id workspace +:+ "' already exists; use open mode"
  | SeUnknownWorkspaceHandle handle => "unknown workspace handle '" +:+ wh_id handle +:+ "'"
  | SeUnknownSnapshotHandle snapshot =>
      "unknown workspace snapshot handle '" +:+ sh_id snapshot +:+ "'"
  | SeUnsupportedWorkspaceOperation operation =>
      "workspace operation is not supported: " +:+ operation
  end.

(** [WorkspaceServiceResult]: the left side is the error. *)
Definition service_result (A : Type) : Type := sum WorkspaceServiceError A.
(** [WorkspaceServiceError::from] *)
Definition of_result {A} (r : result A) : service_result A :=
  match r with Ok a => inr a | Err e => inl (SeRuntime e) end.

(** ** Names and paths *)

Definition is_ref_char (c : ascii) : bool :=
  is_ascii_alphanumeric c || Ascii.eqb c "-"%char || Ascii.eqb c "_"%char.
Definition validate_workspace_ref (workspace : WorkspaceRef) : service_result unit :=
  if str_is_empty (wref_id workspace) then
    inl (SeRuntime (Constraint "workspace ref id must not be empty"))
  else if negb (all_chars is_ref_char (wref_id workspace)) then
    inl (SeRuntime (Constraint
      "workspace ref id may contain only ASCII letters, digits, '-' and '_'"))
  else inr tt.

Definition format_extension (format : DurabilityFormat) : string :=
  match format with DurJson => "json" | DurBinary => "bin" end.

(** The file of a workspace under a root. *)
Definition workspace_file (root : Path) (workspace : WorkspaceRef) (format : DurabilityFormat) : Path :=
  path_join root (wref_id workspace +:+ "." +:+ format_extension format).

Definition local_workspace_path (root : option Path) (workspace : WorkspaceRef)
    (format : DurabilityFormat) : service_result Path :=
  match validate_workspace_ref workspace with
  | inl e => inl e
  | inr _ =>
      match root with
      | None => inl (SeRuntime (Constraint
          "local autocommit workspaces require a configured local workspace root"))
      | Some root => inr (workspace_file root workspace format)
      end
  end.

Definition durability_companion_path (path : Path) (suffix : string) : Path :=
  path_join (default path_dot (path_parent path))
    (default "grm-data" (path_file_name path) +:+ "." +:+ suffix).

(** ** The state of the service *)

Section service.
Context `{SerdeNumber} `{Formats} `{!SnapshotCodec} `{!SessionCodec} `{!IoText}.

Record WorkspaceRuntimeRequest := { wrq_handle : WorkspaceHandle; wrq_request : ServiceRequest }.
Record WorkspaceRuntimeResponse := {
  wrs_handle : WorkspaceHandle;
  wrs_response : RuntimeResponse;
  wrs_durable_operations : list DurableOperation;
}.

Record InProcessWorkspaceService := {
  next_workspace_ref_id : Z;
  next_snapshot_id : Z;
  workspaces : gmap string Workspace;
  workspace_handles : gmap string string;
  live_workspace_paths : gmap Path string;
  workspace_refs : gmap string (option WorkspaceRef);
  local_snapshots : gmap string LocalWorkspaceSnapshot;
  local_workspace_root : option Path;
}.

Definition service_new : InProcessWorkspaceService :=
  {| next_workspace_ref_id := 0; next_snapshot_id := 0; workspaces := ∅; workspace_handles := ∅;
     live_workspace_paths := ∅; workspace_refs := ∅; local_snapshots := ∅;
     local_workspace_root := None |}.
Definition set_local_workspace_root (root : Path) (s : InProcessWorkspaceService)
    : InProcessWorkspaceService :=
  {| next_workspace_ref_id := next_workspace_ref_id s; next_snapshot_id := next_snapshot_id s;
     workspaces := workspaces s; workspace_handles := workspace_handles s;
     live_workspace_paths := live_workspace_paths s; workspace_refs := workspace_refs s;
     local_snapshots := local_snapshots s; local_workspace_root := Some root |}.
Definition with_local_workspace_root (root : Path) : InProcessWorkspaceService :=
  set_local_workspace_root root service_new.

Definition set_workspaces (ws : gmap string Workspace) (handles : gmap string string)
    (paths : gmap Path string) (refs : gmap string (option WorkspaceRef))
    (s : InProcessWorkspaceService) : InProcessWorkspaceService :=
  {| next_workspace_ref_id := next_workspace_ref_id s; next_snapshot_id := next_snapshot_id s;
     workspaces := ws; workspace_handles := handles; live_workspace_paths := paths;
     workspace_refs := refs; local_snapshots := local_snapshots s;
     local_workspace_root := local_workspace_root s |}.
Definition set_next_ref (n : Z) (s : InProcessWorkspaceService) : InProcessWorkspaceService :=
  {| next_workspace_ref_id := n; next_snapshot_id := next_snapshot_id s;
     workspaces := workspaces s; workspace_handles := workspace_handles s;
     live_workspace_paths := live_workspace_paths s; workspace_refs := workspace_refs s;
     local_snapshots := local_snapshots s; local_workspace_root := local_workspace_root s |}.
Definition set_snapshots (n : Z) (m : gmap string LocalWorkspaceSnapshot)
    (s : InProcessWorkspaceService) : InProcessWorkspaceService :=
  {| next_workspace_ref_id := next_workspace_ref_id s; next_snapshot_id := n;
     workspaces := workspaces s; workspace_handles := workspace_handles s;
     live_workspace_paths := live_workspace_paths s; workspace_refs := workspace_refs s;
     local_snapshots := m; local_workspace_root := local_workspace_root s |}.

(** A workspace loaded under a new handle, which is also its name. *)
Definition register_workspace (handle : string) (path : option Path) (workspace : Workspace)
    (ref : option WorkspaceRef) (s : InProcessWorkspaceService) : InProcessWorkspaceService :=
  set_workspaces (<[handle := workspace]> (workspaces s))
    (<[handle := handle]> (workspace_handles s))
    match path with
    | Some path => <[path := handle]> (live_workspace_paths s)
    | None => live_workspace_paths s
    end
    (<[handle := ref]> (workspace_refs s)) s.
(** One more handle of a workspace that is loaded. *)
Definition share_workspace (handle id : string) (ref : WorkspaceRef)
    (s : InProcessWorkspaceService) : InProcessWorkspaceService :=
  set_workspaces (workspaces s) (<[handle := id]> (workspace_handles s)) (live_workspace_paths s)
    (<[handle := Some ref]> (workspace_refs s)) s.

(** ** Handles, names and counters *)

(** [random] is the sixteen bytes the system's generator fills in, or its
  failure. *)
Definition next_workspace_handle (random : option string) : service_result WorkspaceHandle :=
  match random with
  | None => inl (SeRuntime (Backend "could not allocate workspace handle"))
  | Some bytes => inr {| wh_id := "workspace-" +:+ fingerprint_as_hex bytes |}
  end.

(** [u64] addition; the release build wraps around. *)
Definition u64_succ (n : Z) : Z := ((n + 1) `mod` 2 ^ 64)%Z.

Definition next_workspace_ref (s : InProcessWorkspaceService)
    : WorkspaceRef * InProcessWorkspaceService :=
  let n := u64_succ (next_workspace_ref_id s) in
  ({| wref_id := "workspace-" +:+ u_to_string n |}, set_next_ref n s).
Definition next_snapshot_handle (s : InProcessWorkspaceService)
    : SnapshotHandle * InProcessWorkspaceService :=
  let n := u64_succ (next_snapshot_id s) in
  ({| sh_id := "local-snapshot-" +:+ u_to_string n; sh_etag := "" |},
   set_snapshots n (local_snapshots s) s).

(** [Path::try_exists] *)
Definition fs_try_exists (p : Path) : io bool :=
  io_call (λ fs, inl (bool_decide (is_Some (fs !! file_key p)), fs)) (λ _ fs, fs).

Definition inspect_error (workspace : WorkspaceRef) (err : io_error) : WorkspaceServiceError :=
  SeRuntime (Backend ("failed to inspect local workspace '" +:+ wref_id workspace +:+ "': "
                      +:+ io_error_text err)).

(** The two loops of [local_workspace_exists]. *)
Fixpoint any_artifact (workspace : WorkspaceRef) (artifacts : list Path)
    : io (service_result bool) := λ fl fs,
  match artifacts with
  | [] => (Done (inr false), fl, fs)
  | artifact :: artifacts =>
      match fs_try_exists artifact fl fs with
      | (Done true, fl, fs) => (Done (inr true), fl, fs)
      | (Done false, fl, fs) => any_artifact workspace artifacts fl fs
      | (Failed err, fl, fs) => (Done (inl (inspect_error workspace err)), fl, fs)
      | (Crashed, fl, fs) => (Crashed, fl, fs)
      end
  end.
Fixpoint any_format (root : option Path) (workspace : WorkspaceRef)
    (formats : list DurabilityFormat) : io (service_result bool) :=
  match formats with
  | [] => mret (M:=io) (inr false)
  | format :: formats =>
      match local_workspace_path root workspace format with
      | inl e => mret (M:=io) (inl e)
      | inr path =>
          any_artifact workspace
            [path; durability_companion_path path "log"; durability_companion_path path "bak"]
          ≫= λ r,
          match r with
          | inr false => any_format root workspace formats
          | r => mret (M:=io) r
          end
      end
  end.
Definition local_workspace_exists (root : option Path) (workspace : WorkspaceRef)
  : io (service_result bool) := any_format root workspace [DurBinary; DurJson].

(** The [loop] of [next_available_workspace_ref]; [None] is out of fuel. *)
Fixpoint next_available_workspace_ref (fuel : nat) (s : InProcessWorkspaceService)
    : io (option (service_result WorkspaceRef) * InProcessWorkspaceService) :=
  match fuel with
  | O => mret (M:=io) (None, s)
  | S fuel =>
      let '(workspace, s) := next_workspace_ref s in
      local_workspace_exists (local_workspace_root s) workspace ≫= λ r,
      match r with
      | inl e => mret (M:=io) (Some (inl e), s)
      | inr true => next_available_workspace_ref fuel s
      | inr false => mret (M:=io) (Some (inr workspace), s)
      end
  end.

(** ** Creating *)

(** The name of the workspace a request asks for, which must be free. *)
Definition choose_workspace_ref (fuel : nat) (workspace : option WorkspaceRef)
    (s : InProcessWorkspaceService)
    : io (option (service_result WorkspaceRef) * InProcessWorkspaceService) :=
  match workspace with
  | Some workspace =>
      match validate_workspace_ref workspace with
      | inl e => mret (M:=io) (Some (inl e), s)
      | inr _ =>
          local_workspace_exists (local_workspace_root s) workspace ≫= λ r,
          mret (M:=io) (Some match r with
                             | inl e => inl e
                             | inr true => inl (SeWorkspaceAlreadyExists workspace)
                             | inr false => inr workspace
                             end, s)
      end
  | None => next_available_workspace_ref fuel s
  end.

Definition create_in_memory (random : option string) (s : InProcessWorkspaceService)
    : service_result WorkspaceCreateResponse * InProcessWorkspaceService :=
  match next_workspace_handle random with
  | inl e => (inl e, s)
  | inr handle =>
      (inr {| wcs_handle := handle; wcs_workspace := None |},
       register_workspace (wh_id handle) None Workspace_new None s)
  end.

(** The rest of the creation of a workspace under the chosen name. *)
Definition create_named (tags : string * string) (random : option string)
    (workspace_ref : WorkspaceRef) (format : DurabilityFormat) (s : InProcessWorkspaceService)
    : io (service_result WorkspaceCreateResponse * InProcessWorkspaceService) :=
  match local_workspace_path (local_workspace_root s) workspace_ref format with
  | inl e => mret (M:=io) (inl e, s)
  | inr path =>
      enable_autocommit tags format path Workspace_new ≫= λ '(r, workspace),
      mret (M:=io)
        match r with
        | Err e => (inl (SeRuntime e), s)
        | Ok _ =>
            match next_workspace_handle random with
            | inl e => (inl e, s)
            | inr handle =>
                (inr {| wcs_handle := handle; wcs_workspace := Some workspace_ref |},
                 register_workspace (wh_id handle) (Some path) workspace (Some workspace_ref) s)
            end
        end
  end.

Definition create_workspace (fuel : nat) (tags : string * string) (random : option string)
    (request : WorkspaceCreateRequest) (s : InProcessWorkspaceService)
    : io (option (service_result WorkspaceCreateResponse) * InProcessWorkspaceService) :=
  match wcq_mode request with
  | WcmInMemory =>
      let '(r, s) := create_in_memory random s in mret (M:=io) (Some r, s)
  | WcmLocalAutocommit =>
      choose_workspace_ref fuel (wcq_workspace request) s ≫= λ '(r, s),
      match r with
      | None => mret (M:=io) (None, s)
      | Some (inl e) => mret (M:=io) (Some (inl e), s)
      | Some (inr workspace_ref) =>
          create_named tags random workspace_ref (wcq_format request) s ≫= λ '(r, s),
          mret (M:=io) (Some r, s)
      end
  end.

(** ** Opening *)

(** The end of [open_workspace], for a workspace that was loaded. *)
Definition finish_open (random : option string) (workspace : Workspace)
    (workspace_ref : option WorkspaceRef) (format : DurabilityFormat)
    (s : InProcessWorkspaceService)
    : service_result WorkspaceOpenResponse * InProcessWorkspaceService :=
  match next_workspace_handle random with
  | inl e => (inl e, s)
  | inr handle =>
      let response := {| wos_handle := handle; wos_workspace := workspace_ref |} in
      match workspace_ref with
      | None => (inr response, register_workspace (wh_id handle) None workspace None s)
      | Some ref =>
          match local_workspace_path (local_workspace_root s) ref format with
          | inl e => (inl e, s)
          | inr path =>
              (inr response, register_workspace (wh_id handle) (Some path) workspace (Some ref) s)
          end
      end
  end.

Definition open_named (tags : string * string) (random : option string)
    (ref : WorkspaceRef) (format : DurabilityFormat) (s : InProcessWorkspaceService)
    : io (service_result WorkspaceOpenResponse * InProcessWorkspaceService) :=
  match local_workspace_path (local_workspace_root s) ref format with
  | inl e => mret (M:=io) (inl e, s)
  | inr path =>
      match live_workspace_paths s !! path with
      | Some id =>
          mret (M:=io)
            match next_workspace_handle random with
            | inl e => (inl e, s)
            | inr handle =>
                (inr {| wos_handle := handle; wos_workspace := Some ref |},
                 share_workspace (wh_id handle) id ref s)
            end
      | None =>
          open_autocommit tags format path ≫= λ r,
          mret (M:=io)
            match r with
            | Err e => (inl (SeRuntime e), s)
            | Ok workspace => finish_open random workspace (Some ref) format s
            end
      end
  end.

Definition open_snapshot (random : option string) (snapshot_handle : SnapshotHandle)
    (format : DurabilityFormat) (s : InProcessWorkspaceService)
    : io (service_result WorkspaceOpenResponse * InProcessWorkspaceService) :=
  match local_snapshots s !! sh_id snapshot_handle with
  | None => mret (M:=io) (inl (SeUnknownSnapshotHandle snapshot_handle), s)
  | Some snapshot =>
      if decide (lsr_format snapshot = format) then
        Workspace.open format (lsr_path snapshot) ≫= λ r,
        mret (M:=io)
          match r with
          | Err e => (inl (SeRuntime e), s)
          | Ok workspace => finish_open random workspace None format s
          end
      else mret (M:=io)
        (inl (SeRuntime (Constraint
           "workspace open format does not match registered snapshot")), s)
  end.

Definition open_workspace (tags : string * string) (random : option string)
    (request : WorkspaceOpenRequest) (s : InProcessWorkspaceService)
    : io (service_result WorkspaceOpenResponse * InProcessWorkspaceService) :=
  match woq_workspace request, woq_snapshot request with
  | Some _, Some _ => mret (M:=io) (inl (SeRuntime (Constraint
      "workspace open accepts either a workspace ref or snapshot handle, not both")), s)
  | Some ref, None => open_named tags random ref (woq_format request) s
  | None, Some snapshot => open_snapshot random snapshot (woq_format request) s
  | None, None => mret (M:=io) (inl (SeRuntime (Constraint
      "workspace open requires a workspace ref or snapshot handle")), s)
  end.

(** ** Running and closing *)

(** [workspace] and [workspace_mut]: the name and the workspace of a handle. *)
Definition workspace (handle : WorkspaceHandle) (s : InProcessWorkspaceService)
    : service_result (string * Workspace) :=
  match id ← workspace_handles s !! wh_id handle; w ← workspaces s !! id; Some (id, w) with
  | Some w => inr w
  | None => inl (SeUnknownWorkspaceHandle handle)
  end.
Definition put_workspace (id : string) (w : Workspace) (s : InProcessWorkspaceService)
    : InProcessWorkspaceService :=
  set_workspaces (<[id := w]> (workspaces s)) (workspace_handles s) (live_workspace_paths s)
    (workspace_refs s) s.

(** [InProcessWorkspaceService::execute_runtime] *)
Definition service_execute (clock : nat → Z) (tags : string * string)
    (request : WorkspaceRuntimeRequest) (s : InProcessWorkspaceService)
    : io (service_result WorkspaceRuntimeResponse * InProcessWorkspaceService) :=
  match workspace (wrq_handle request) s with
  | inl e => mret (M:=io) (inl e, s)
  | inr (id, w) =>
      match into_runtime_request clock (wrq_request request) with
      | Err e => mret (M:=io) (inl (SeRuntime e), s)
      | Ok r =>
          workspace_execute tags r w ≫= λ '(res, w),
          mret (M:=io)
            (match res with
             | Err e => inl (SeRuntime e)
             | Ok outcome => inr {| wrs_handle := wrq_handle request;
                 wrs_response := do_response outcome;
                 wrs_durable_operations := do_durable_ops outcome |}
             end, put_workspace id w s)
      end
  end.

Definition close_workspace (request : WorkspaceCloseRequest) (s : InProcessWorkspaceService)
    : service_result WorkspaceCloseResponse * InProcessWorkspaceService :=
  let handle := wlq_handle request in
  match workspace_handles s !! wh_id handle with
  | None => (inl (SeUnknownWorkspaceHandle handle), s)
  | Some id =>
      let handles := delete (wh_id handle) (workspace_handles s) in
      let refs := delete (wh_id handle) (workspace_refs s) in
      (inr {| wls_handle := handle |},
       if existsb (String.eqb id) (bt_values handles)
       then set_workspaces (workspaces s) handles (live_workspace_paths s) refs s
       else set_workspaces (delete id (workspaces s)) handles
              (filter (λ e, e.2 ≠ id) (live_workspace_paths s)) refs s)
  end.

Definition unsupported_workspace_operation (operation : WorkspaceUnsupportedOperation)
  : service_result unit := inl (SeUnsupportedWorkspaceOperation (unsupported_name operation)).

Definition register_local_workspace_snapshot (request : LocalWorkspaceSnapshotRequest)
    (s : InProcessWorkspaceService) : SnapshotHandle * InProcessWorkspaceService :=
  let '(snapshot, s) := next_snapshot_handle s in
  (snapshot, set_snapshots (next_snapshot_id s) (<[sh_id snapshot := request]> (local_snapshots s)) s).

Definition save_workspace_to_local_snapshot (tags : string * string) (handle : WorkspaceHandle)
    (request : LocalWorkspaceSnapshotRequest) (s : InProcessWorkspaceService)
    : io (service_result SnapshotHandle * InProcessWorkspaceService) :=
  match workspace handle s with
  | inl e => mret (M:=io) (inl e, s)
  | inr (_, w) =>
      workspace_save tags (lsr_format request) (lsr_path request) w ≫= λ r,
      mret (M:=io)
        match r with
        | Err e => (inl (SeRuntime e), s)
        | Ok _ => let '(snapshot, s) := register_local_workspace_snapshot request s in
                  (inr snapshot, s)
        end
  end.

Definition workspace_log_name (handle : WorkspaceHandle) (s : InProcessWorkspaceService) : string :=
  match workspace_refs s !! wh_id handle with
  | Some (Some workspace) => wref_id workspace
  | _ => wh_id handle
  end.
End service.

(** ** The files the service touches *)

Section touched.
Context `{SerdeNumber} `{Formats} `{!SnapshotCodec} `{!SnapshotLaws}
  `{!SessionCodec} `{!SessionLaws} `{!IoText}.
Implicit Types (fs : FileSys) (p : Path) (k : FileKey).

(** A save is one write and the removal of the log, or nothing. *)
Lemma save_workspace_shape f tags p σ :
  (∃ e, save_workspace f tags p σ = mret (M:=io) (Err e)) ∨
  ∃ bs e1 e2, save_workspace f tags p σ
    = or_abort (write_file_atomically_with_backup tags p bs) e1
        (λ _, or_abort (clear_log p) e2 (λ _, mret (Ok tt))).
Proof.
  destruct f; cbn [save_workspace].
  - unfold save_to_json. destruct (json_of_session _); [right|left]; eauto.
  - unfold save_to_binary. destruct (to_binary_persisted _); [|left; eauto].
    destruct (bytes_of_session _); [right|left]; eauto.
Qed.

(** The temporary files and the log of [p], which a save or an append removes. *)
Definition passing tags p : list FileKey :=
  [file_key (atomic_temp_path tags.1 p); file_key (atomic_temp_path tags.2 (backup_path p));
   file_key (log_path p)].

(** What [m] may do to the files of [p]: change only them, and remove at most
  those that are passing. *)
Record touched tags p fs fs' : Prop := {
  to_frame : only_changed (file_key p :: file_key (backup_path p) :: passing tags p) fs fs';
  to_keeps : ∀ k, k ∉ passing tags p → is_Some (fs !! k) → is_Some (fs' !! k);
}.

Lemma touched_refl tags p fs : touched tags p fs fs.
Proof. by split. Qed.
Lemma touched_trans tags p fs1 fs2 fs3 :
  touched tags p fs1 fs2 → touched tags p fs2 fs3 → touched tags p fs1 fs3.
Proof.
  intros [Hf1 Hk1] [Hf2 Hk2]. split; [|naive_solver]. intros k Hk. by rewrite Hf2, Hf1.
Qed.

Lemma saved_touched tags p bs fs r fs' : saved tags p bs fs r fs' → touched tags p fs fs'.
Proof.
  intros [Hframe Hfile Hbak _]. split.
  - intros k Hk. apply Hframe. unfold passing in Hk. set_solver.
  - intros k Hk Hs. unfold passing in Hk. rewrite !not_elem_of_cons in Hk. destruct Hk as (Ht1 & Ht2 & _).
    destruct (decide (k = file_key p)) as [->|Hp].
    { destruct Hfile as [->| ->]; [done|by eexists]. }
    destruct (decide (k = file_key (backup_path p))) as [->|Hb].
    { destruct Hbak as [->|[-> _]]; [done|by eexists]. }
    rewrite Hframe; [done|]. rewrite !not_elem_of_cons. split_and!; try done. apply not_elem_of_nil.
Qed.

Lemma clear_log_touched tags p fs : touched tags p fs (delete (file_key (log_path p)) fs).
Proof.
  split.
  - intros k Hk. apply lookup_delete_ne. unfold passing in Hk. set_solver.
  - intros k Hk Hs. rewrite lookup_delete_ne; [done|]. unfold passing in Hk. set_solver.
Qed.

Lemma save_workspace_touches f tags p σ fs :
  io_post (save_workspace f tags p σ)
    (λ r fs', touched tags p fs fs' ∧ (r = Done (Ok tt) → is_Some (fs' !! file_key p))) fs.
Proof.
  destruct (save_workspace_shape f tags p σ) as [[e ->]|(bs & e1 & e2 & ->)].
  { apply io_post_ret. split; [apply touched_refl|done]. }
  apply or_abort_post. eapply io_post_mono; [apply write_with_backup_post|].
  intros r fs1 Hs. pose proof (saved_touched _ _ _ _ _ _ Hs) as Ht1.
  destruct r as [[]|e|]; [|by split..]. destruct (sv_done _ _ _ _ _ _ Hs eq_refl) as [Hp _].
  apply or_abort_post. apply io_post_clear_log.
  - intros r Hr. destruct r as [[]|e|]; [done|by split..].
  - pose proof (touched_trans _ _ _ _ _ Ht1 (clear_log_touched tags p fs1)) as Ht2.
    assert (is_Some (delete (file_key (log_path p)) fs1 !! file_key p)) as Hp'.
    { rewrite lookup_delete_ne by apply log_path_ne. by eexists. }
    intros r. destruct r as [[]|e|]; [by apply io_post_ret|by split..].
  - intros _. apply io_post_ret. split; [done|]. intros _. by eexists.
Qed.

Lemma append_touches tags p op fs :
  io_post (append_durable_operation p op) (λ _ fs', touched tags p fs fs') fs.
Proof.
  destruct (line_of_op_total op) as [line Hline].
  pose proof (append_operation_post p op line fs Hline) as Hpost. intros fl. specialize (Hpost fl).
  unfold append_durable_operation.
  destruct (append_operation p op fl fs) as [[r fl'] fs'].
  assert (touched tags p fs fs') as Ht; [|by destruct r as [?|?|]].
  pose proof (ad_frame _ _ _ _ _ Hpost) as Hframe. split.
  - intros k Hk. apply Hframe. unfold passing in Hk. set_solver.
  - intros k Hk Hs. rewrite Hframe; [done|]. unfold passing in Hk. set_solver.
Qed.

Lemma append_ops_touches tags ops target fs :
  io_post (append_ops ops target)
    (λ r fs', touched tags (at_path target) fs fs' ∧
       match r with
       | Done (_, target') => at_path target' = at_path target
       | _ => True
       end) fs.
Proof.
  revert target fs. induction ops as [|op ops IH]; intros target fs; cbn [append_ops].
  { apply io_post_ret. split; [apply touched_refl|done]. }
  apply io_post_bind. eapply io_post_mono; [apply (append_touches tags)|].
  intros [[[]|e]|e|] fs1 Ht; [|by apply io_post_ret|by split..].
  eapply io_post_mono; [apply IH|]. cbn. intros r fs2 [Ht2 Hr]. split; [by eapply touched_trans|done].
Qed.

(** A computation that leaves the files as they are. *)
Definition reads_only {A} (m : io A) : Prop := ∀ fl fs, (m fl fs).2 = fs.

Definition target_path (w : Workspace) : option Path := at_path <$> ws_autocommit w.

Lemma enable_touches tags f p w fs :
  io_post (enable_autocommit tags f p w)
    (λ r fs', touched tags p fs fs' ∧
       match r with
       | Done (Ok _, w') => target_path w' = Some p ∧ is_Some (fs' !! file_key p)
       | _ => True
       end) fs.
Proof.
  apply io_post_bind. eapply io_post_mono; [apply save_workspace_touches|].
  intros [[[]|e]|e|] fs' [Ht Hd]; [| |by split..]; apply io_post_ret; (split; [done|]); [|done].
  split; [done|by apply Hd].
Qed.

(** A run of a workspace touches at most the files of its target, which stays
  its target. *)
Lemma persist_touches tags ops w fs :
  io_post (persist_autocommit_ops tags ops w)
    (λ r fs', match target_path w with
              | Some p => touched tags p fs fs'
              | None => fs' = fs
              end ∧
       match r with Done (_, w') => target_path w' = target_path w | _ => True end) fs.
Proof.
  unfold target_path, persist_autocommit_ops.
  destruct ops as [|op ops].
  { apply io_post_ret. split; [|done]. destruct (ws_autocommit w); [apply touched_refl|done]. }
  destruct (ws_autocommit w) as [target|] eqn:Hw; cbn; [|apply io_post_ret; by rewrite Hw].
  apply io_post_bind. eapply io_post_mono; [apply (append_ops_touches tags (op :: ops))|].
  intros [[r target']|e|] fs1 [Ht Hp]; [|by split..].
  destruct r as [[]|e]; [|apply io_post_ret; cbn; by rewrite Hp].
  case_match; [|apply io_post_ret; cbn; by rewrite Hp].
  unfold checkpoint_autocommit. cbn. apply io_post_bind.
  eapply io_post_mono; [apply save_workspace_touches|]. rewrite Hp.
  intros r fs2 [Ht2 _]. assert (touched tags (at_path target) fs fs2) by by eapply touched_trans.
  destruct r as [[[]|e]|e|]; [..|by split|by split]; apply io_post_ret; cbn; by rewrite ?Hp.
Qed.

Lemma execute_touches tags r w fs :
  io_post (workspace_execute tags r w)
    (λ r fs', match target_path w with
              | Some p => touched tags p fs fs'
              | None => fs' = fs
              end ∧
       match r with Done (_, w') => target_path w' = target_path w | _ => True end) fs.
Proof.
  unfold workspace_execute. destruct (execute_runtime r (ws_state w)) as [res σ].
  destruct res as [o|e].
  - apply io_post_bind. eapply io_post_mono; [apply persist_touches|]. cbn.
    intros [[x w']|?|] fs'; cbn; [|done..]. intros Hq. by apply io_post_ret.
  - apply io_post_ret. cbn. split; [|done].
    change (target_path w) with (at_path <$> ws_autocommit w).
    destruct (ws_autocommit w); [apply touched_refl|done].
Qed.

(** Loading reads only. *)
Lemma reads_ret {A} (a : A) : reads_only (mret (M:=io) a).
Proof. by intros fl fs. Qed.
Lemma reads_bind {A B} (m : io A) (f : A → io B) :
  reads_only m → (∀ a, reads_only (f a)) → reads_only (m ≫= f).
Proof.
  intros Hm Hf fl fs. specialize (Hm fl fs). unfold mbind, io_bind.
  destruct (m fl fs) as [[[a|e|] fl'] fs']; cbn in *; subst; [apply Hf|done..].
Qed.
Lemma reads_call {A} (eff : FileSys → (A * FileSys) + io_error) :
  (∀ fs, match eff fs with inl (_, fs') => fs' = fs | inr _ => True end) →
  reads_only (io_call eff (λ _ fs, fs)).
Proof.
  intros He fl fs. specialize (He fs). unfold io_call.
  destruct fl as [|[] fl]; try done; destruct (eff fs) as [[a fs']|e]; by cbn in *; subst.
Qed.
Lemma reads_or_keep {A} (m : io A) e σ cont :
  reads_only m → (∀ a, reads_only (cont a)) → reads_only (or_keep m e σ cont).
Proof.
  intros Hm Hk fl fs. specialize (Hm fl fs). unfold or_keep.
  destruct (m fl fs) as [[[a|e'|] fl'] fs']; cbn in *; subst; [apply Hk|done..].
Qed.
Lemma reads_read p : reads_only (fs_read p).
Proof. apply reads_call. intros fs. by destruct (fs !! file_key p). Qed.
Lemma reads_read_to_string p : reads_only (read_to_string p).
Proof.
  unfold read_to_string. refine (reads_bind (fs_read p) _ (reads_read p) _). intros bs. by destruct (utf8_valid bs).
Qed.
Lemma reads_operations p : reads_only (read_operations p).
Proof.
  intros fl fs. unfold read_operations. pose proof (reads_read (log_path p) fl fs) as Hr.
  destruct (fs_read (log_path p) fl fs) as [[[bs|[]|] fl'] fs']; done.
Qed.
Lemma reads_finish p src σ : reads_only (finish_load p src σ).
Proof.
  refine (reads_bind _ _ _ _); [|by intros []].
  by refine (reads_bind _ _ (reads_operations p) _).
Qed.
Lemma reads_limited p n σ cont :
  (∀ bs, reads_only (cont bs)) → reads_only (read_limited_binary_session_file p n σ cont).
Proof.
  intros Hk. refine (reads_or_keep _ _ _ _ _ _).
  - apply reads_call. intros fs. by destruct (fs !! file_key p).
  - intros len. case_match; [apply reads_ret|]. exact (reads_or_keep _ _ _ _ (reads_read p) Hk).
Qed.

Lemma load_reads f p σ : reads_only (load_workspace_with_source f p σ).
Proof.
  destruct f; cbn [load_workspace_with_source].
  - refine (reads_or_keep _ _ _ _ (reads_read_to_string p) _). intros json.
    destruct (session_of_json json); [apply reads_finish|].
    refine (reads_or_keep _ _ _ _ (reads_read_to_string _) _). intros json'.
    destruct (session_of_json json'); [apply reads_finish|apply reads_ret].
  - refine (reads_limited _ _ _ _ _). intros bs.
    destruct (session_of_bytes bs) as [b|].
    { destruct (apply_binary_session b); [apply reads_finish|apply reads_ret]. }
    refine (reads_limited _ _ _ _ _). intros bs'.
    destruct (session_of_bytes bs') as [b|]; [|apply reads_ret].
    destruct (apply_binary_session b); [apply reads_finish|apply reads_ret].
Qed.

(** A workspace that is only opened commits to nothing. *)
Lemma open_reads f p fs :
  io_post (Workspace.open f p)
    (λ r fs', fs' = fs ∧ match r with Done (Ok w) => ws_autocommit w = None | _ => True end) fs.
Proof.
  intros fl. unfold Workspace.open, load, load_workspace, mbind, io_bind.
  pose proof (load_reads f p session_new fl fs) as Hr.
  destruct (load_workspace_with_source f p session_new fl fs) as [[[[[|] σ]|e|] fl'] fs']; by cbn in *.
Qed.

Lemma open_autocommit_touches tags f p fs :
  io_post (open_autocommit tags f p)
    (λ r fs', touched tags p fs fs' ∧
       match r with
       | Done (Ok w) => target_path w = Some p ∧ is_Some (fs' !! file_key p)
       | _ => True
       end) fs.
Proof.
  apply io_post_bind. eapply io_post_mono; [apply open_reads|].
  intros [[w|e]|e|] fs' [-> Hw]; [| |split; [apply touched_refl|done]..].
  - apply io_post_bind. eapply io_post_mono; [apply (enable_touches tags f p w)|].
    intros [[[[]|e] w']|e|] fs' [Ht Hr]; [by apply io_post_ret..|by split|by split].
  - apply io_post_ret. split; [apply touched_refl|done].
Qed.
End touched.

(** ** Names of files *)

Definition valid_ref (workspace : WorkspaceRef) : Prop := validate_workspace_ref workspace = inr tt.

Lemma valid_ref_chars r : valid_ref r → all_chars is_ref_char (wref_id r) = true ∧ wref_id r ≠ "".
Proof.
  unfold valid_ref, validate_workspace_ref, str_is_empty.
  destruct (String.eqb_spec (wref_id r) ""); [done|].
  destruct (all_chars is_ref_char (wref_id r)); done.
Qed.
Lemma valid_ref_lacks r : valid_ref r → lacks "." (wref_id r) = true.
Proof.
  intros [Hc _]%valid_ref_chars. eapply all_chars_impl; [|exact Hc]. intros c Hr.
  apply negb_true_iff, Ascii.eqb_neq. by intros ->.
Qed.
Lemma local_path_valid root r f p :
  local_workspace_path root r f = inr p → ∃ root', root = Some root' ∧ valid_ref r ∧ p = workspace_file root' r f.
Proof.
  unfold local_workspace_path. destruct (validate_workspace_ref r) as [e|[]] eqn:Hv; [done|].
  destruct root as [root|]; [|done]. intros [= <-]. by exists root.
Qed.

(** The last name of a path that names a file. *)
Definition key_name (k : FileKey) : option string := last k.2.
Lemma key_name_join p name : name ≠ "." → key_name (file_key (path_join p name)) = Some name.
Proof. intros Hn. rewrite file_key_join by done. apply last_snoc. Qed.

Definition file_of (r : WorkspaceRef) (f : DurabilityFormat) : string :=
  wref_id r +:+ "." +:+ format_extension f.
Lemma file_of_not_dot r f : file_of r f ≠ ".".
Proof.
  unfold file_of. intros Hd%(f_equal String.length). rewrite length_append in Hd.
  destruct f; cbn in Hd; lia.
Qed.
Lemma workspace_file_name root r f : key_name (file_key (workspace_file root r f)) = Some (file_of r f).
Proof. apply key_name_join, file_of_not_dot. Qed.
Lemma file_of_inj r f r' f' :
  valid_ref r → valid_ref r' → file_of r f = file_of r' f' → r = r' ∧ f = f'.
Proof.
  intros Hr%valid_ref_lacks Hr'%valid_ref_lacks Heq.
  apply (f_equal (split_char ".")) in Heq. unfold file_of in Heq. cbn in Heq.
  rewrite !split_char_app in Heq by done. destruct r as [r], r' as [r']. cbn in Heq.
  injection Heq as -> Hf. by destruct f, f'.
Qed.
Lemma workspace_file_inj root r f r' f' :
  valid_ref r → valid_ref r' →
  file_key (workspace_file root r f) = file_key (workspace_file root r' f') → r = r' ∧ f = f'.
Proof.
  intros Hr Hr' Heq. apply file_of_inj; [done..|].
  apply (f_equal key_name) in Heq. rewrite !workspace_file_name in Heq. by injection Heq.
Qed.

(** No file of a workspace has the name of a log, or of a temporary file. *)
Lemma file_of_not_log r f s : file_of r f ≠ s +:+ ".log".
Proof.
  unfold file_of. intros Heq.
  assert (∃ t c, c ≠ "g"%char ∧ wref_id r +:+ "." +:+ format_extension f = t +:+ String c "")
    as (t & c & Hc & Ht).
  { destruct f; [exists (wref_id r +:+ ".jso"), "n"%char|exists (wref_id r +:+ ".bi"), "n"%char];
      (split; [done|]); by rewrite append_assoc. }
  rewrite Ht in Heq. replace (s +:+ ".log") with ((s +:+ ".lo") +:+ "g") in Heq by by rewrite append_assoc.
  by apply str_snoc_inj in Heq as [_ ?].
Qed.
Lemma file_of_not_hidden r f s : valid_ref r → file_of r f ≠ "." +:+ s.
Proof.
  intros Hr. pose proof (valid_ref_chars r Hr) as [_ Hne]. pose proof (valid_ref_lacks r Hr) as Hl.
  unfold file_of. destruct (wref_id r) as [|c id]; [done|]. cbn. intros [= -> _]. done.
Qed.

Lemma workspace_file_not_passing root r f tags p :
  valid_ref r → file_key (workspace_file root r f) ∉ passing tags p.
Proof.
  intros Hr Hin. unfold passing in Hin.
  assert (∀ q, file_key (workspace_file root r f) = file_key q → key_name (file_key q) = Some (file_of r f))
    as Hname by (intros q <-; apply workspace_file_name).
  rewrite !elem_of_cons in Hin. destruct Hin as [Hk|[Hk|[Hk|Hk]]]; [| | |by apply elem_of_nil in Hk].
  all: apply Hname in Hk; unfold atomic_temp_path, log_path in Hk; rewrite key_name_join in Hk.
  all: try (intros Hd%(f_equal String.length); rewrite ?length_append in Hd; cbn in Hd; lia).
  - injection Hk as Hk. by apply (file_of_not_hidden r f _ Hr (eq_sym Hk)).
  - injection Hk as Hk. by apply (file_of_not_hidden r f _ Hr (eq_sym Hk)).
  - injection Hk as Hk. by apply (file_of_not_log r f _ (eq_sym Hk)).
Qed.

(** ** One writer for every file *)

Section registry.
Context `{SerdeNumber} `{Formats} `{!SnapshotCodec} `{!SnapshotLaws}
  `{!SessionCodec} `{!SessionLaws} `{!IoText}.
Implicit Types (fs : FileSys) (p : Path) (s : InProcessWorkspaceService) (w : Workspace)
  (o : option WorkspaceRef).

(** What a workspace commits to, as its handles name it. *)
Definition commits_to o w : Prop :=
  match o with
  | Some r => ∃ root f, target_path w = Some (workspace_file root r f)
  | None => target_path w = None
  end.

Record service_inv s fs : Prop := {
  si_handles : ∀ h id, workspace_handles s !! h = Some id →
    ∃ w o, workspaces s !! id = Some w ∧ workspace_refs s !! h = Some o ∧ commits_to o w;
  si_refs : ∀ h, workspace_handles s !! h = None → workspace_refs s !! h = None;
  si_loaded : ∀ id w, workspaces s !! id = Some w → ∃ h, workspace_handles s !! h = Some id;
  si_paths : ∀ p id, live_workspace_paths s !! p = Some id →
    (∃ w, workspaces s !! id = Some w ∧ target_path w = Some p) ∧
    (∃ root r f, valid_ref r ∧ p = workspace_file root r f) ∧ is_Some (fs !! file_key p);
  si_targets : ∀ id w p, workspaces s !! id = Some w → target_path w = Some p →
    live_workspace_paths s !! p = Some id;
}.

Definition keeps_files fs fs' : Prop := ∀ root r f, valid_ref r →
  is_Some (fs !! file_key (workspace_file root r f)) →
  is_Some (fs' !! file_key (workspace_file root r f)).

Lemma touched_keeps tags p fs fs' : touched tags p fs fs' → keeps_files fs fs'.
Proof. intros [_ Hk] root r f Hr. by apply Hk, workspace_file_not_passing. Qed.

Lemma service_inv_files s fs fs' : keeps_files fs fs' → service_inv s fs → service_inv s fs'.
Proof.
  intros Hkeeps [? ? ? Hp ?]. split; try done. intros p id Hl.
  destruct (Hp p id Hl) as (? & (root & r & f & Hr & ->) & Hs). split; [done|].
  split; [by exists root, r, f|]. by apply Hkeeps.
Qed.

(** The service as far as the invariant sees it. *)
Lemma service_inv_fields s s' fs :
  workspaces s' = workspaces s → workspace_handles s' = workspace_handles s →
  live_workspace_paths s' = live_workspace_paths s → workspace_refs s' = workspace_refs s →
  service_inv s fs → service_inv s' fs.
Proof. destruct s, s'; cbn. intros -> -> -> -> []. by split. Qed.

Lemma service_new_inv fs : service_inv service_new fs.
Proof. split; cbn; intros *; rewrite ?lookup_empty; done. Qed.

(** No workspace and no handle has the name. *)
Definition fresh_name (h : string) s : Prop :=
  workspace_handles s !! h = None ∧ workspaces s !! h = None.

Lemma register_inv h po w o s fs :
  service_inv s fs → fresh_name h s → target_path w = po →
  match o, po with
  | Some r, Some p => valid_ref r ∧ (∃ root f, p = workspace_file root r f) ∧
      live_workspace_paths s !! p = None ∧ is_Some (fs !! file_key p)
  | None, None => True
  | _, _ => False
  end →
  service_inv (register_workspace h po w o s) fs.
Proof.
  intros [Hh Hr Hl Hp Ht] [Hfh Hfw] Hw Ho.
  assert (∀ id, is_Some (workspaces s !! id) → id ≠ h) as Hne by (intros id [? Hs] ->; congruence).
  assert (commits_to o w) as Hc.
  { unfold commits_to. destruct o as [r|], po as [p|]; try done.
    destruct Ho as (_ & (root & f & ->) & _). by exists root, f. }
  split; cbn [register_workspace set_workspaces workspaces workspace_handles workspace_refs live_workspace_paths].
  - intros h' id Hl'. destruct (decide (h' = h)) as [->|Hh'].
    + rewrite lookup_insert_eq in Hl'. injection Hl' as <-.
      exists w, o. by rewrite !lookup_insert_eq.
    + rewrite lookup_insert_ne in Hl' by done. destruct (Hh _ _ Hl') as (w' & o' & Hw' & ? & ?).
      exists w', o'. rewrite !lookup_insert_ne; [done|done|]. intros <-. congruence.
  - intros h' Hl'. destruct (decide (h' = h)) as [->|Hh']; [by rewrite lookup_insert_eq in Hl'|].
    rewrite lookup_insert_ne in Hl' by done. rewrite lookup_insert_ne by done. by apply Hr.
  - intros id w' Hl'. destruct (decide (id = h)) as [->|Hh'].
    + exists h. by rewrite lookup_insert_eq.
    + rewrite lookup_insert_ne in Hl' by done. destruct (Hl _ _ Hl') as [h' Hh1]. exists h'.
      rewrite lookup_insert_ne; [done|]. intros <-. congruence.
  - assert (∀ p id, live_workspace_paths s !! p = Some id →
      (∃ w', <[h:=w]> (workspaces s) !! id = Some w' ∧ target_path w' = Some p) ∧
      (∃ root r f, valid_ref r ∧ p = workspace_file root r f) ∧ is_Some (fs !! file_key p)) as Hold.
    { intros p id Hl'. destruct (Hp p id Hl') as ((w' & Hw' & Ht') & Hrest). split; [|done].
      exists w'. rewrite lookup_insert_ne; [done|]. intros <-. congruence. }
    intros p id Hl'. destruct o as [r|], po as [p'|]; try done; [|by apply Hold].
    destruct Ho as (Hv & (root & f & ->) & Hnone & Hs).
    destruct (decide (p = workspace_file root r f)) as [->|Hp'].
    + rewrite lookup_insert_eq in Hl'. injection Hl' as <-. split.
      * exists w. by rewrite lookup_insert_eq.
      * split; [by exists root, r, f|done].
    + rewrite lookup_insert_ne in Hl' by done. by apply Hold.
  - intros id w' p Hl' Ht'. destruct (decide (id = h)) as [->|Hid].
    + rewrite lookup_insert_eq in Hl'. injection Hl' as <-. rewrite Ht' in Hw. subst po.
      by rewrite lookup_insert_eq.
    + rewrite lookup_insert_ne in Hl' by done. pose proof (Ht _ _ _ Hl' Ht') as Hlive.
      destruct o as [r|], po as [p'|]; try done. destruct Ho as (_ & _ & Hnone & _).
      rewrite lookup_insert_ne; [done|]. intros ->. congruence.
Qed.

Lemma share_inv h id p r root f s fs :
  service_inv s fs → fresh_name h s → live_workspace_paths s !! p = Some id →
  p = workspace_file root r f → service_inv (share_workspace h id r s) fs.
Proof.
  intros [Hh Hr Hl Hp Ht] [Hfh Hfw] Hlive ->.
  destruct (Hp _ _ Hlive) as ((w & Hw & Htw) & _).
  split; cbn [share_workspace set_workspaces workspaces workspace_handles workspace_refs live_workspace_paths];
    [| | |done|done].
  - intros h' id' Hl'. destruct (decide (h' = h)) as [->|Hh'].
    + rewrite lookup_insert_eq in Hl'. injection Hl' as <-. exists w, (Some r).
      rewrite lookup_insert_eq. split; [done|]. split; [done|]. by exists root, f.
    + rewrite lookup_insert_ne in Hl' by done. destruct (Hh _ _ Hl') as (w' & o' & ?).
      exists w', o'. by rewrite lookup_insert_ne.
  - intros h' Hl'. destruct (decide (h' = h)) as [->|Hh']; [by rewrite lookup_insert_eq in Hl'|].
    rewrite lookup_insert_ne in Hl' by done. rewrite lookup_insert_ne by done. by apply Hr.
  - intros id' w' Hl'. destruct (Hl _ _ Hl') as [h' Hh1]. exists h'.
    rewrite lookup_insert_ne; [done|]. intros <-. congruence.
Qed.

Lemma put_workspace_inv id w w' s fs :
  service_inv s fs → workspaces s !! id = Some w → target_path w' = target_path w →
  service_inv (put_workspace id w' s) fs.
Proof.
  intros [Hh Hr Hl Hp Ht] Hid Hw.
  assert (∀ id' w0, workspaces s !! id' = Some w0 →
    ∃ w1, <[id:=w']> (workspaces s) !! id' = Some w1 ∧ target_path w1 = target_path w0) as Hput.
  { intros id' w0 Hl'. destruct (decide (id' = id)) as [->|Hne].
    - exists w'. rewrite lookup_insert_eq. split; [done|]. congruence.
    - exists w0. by rewrite lookup_insert_ne. }
  split; cbn [put_workspace set_workspaces workspaces workspace_handles workspace_refs live_workspace_paths];
    [|done| | |].
  - intros h id' Hl'. destruct (Hh _ _ Hl') as (w0 & o & Hw0 & Ho & Hc).
    destruct (Hput _ _ Hw0) as (w1 & Hw1 & Ht1). exists w1, o. split_and!; [done..|].
    unfold commits_to in *. by rewrite Ht1.
  - intros id' w0 Hl'. destruct (decide (id' = id)) as [->|Hne]; [by apply (Hl _ w)|].
    rewrite lookup_insert_ne in Hl' by done. by apply (Hl _ w0).
  - intros p id' Hl'. destruct (Hp _ _ Hl') as ((w0 & Hw0 & Ht0) & Hrest). split; [|done].
    destruct (Hput _ _ Hw0) as (w1 & Hw1 & Ht1). exists w1. split; [done|congruence].
  - intros id' w0 p Hl' Ht0. destruct (decide (id' = id)) as [->|Hne].
    + rewrite lookup_insert_eq in Hl'. injection Hl' as <-. apply (Ht _ w); congruence.
    + rewrite lookup_insert_ne in Hl' by done. by apply (Ht _ w0).
Qed.

Lemma close_inv request s fs : service_inv s fs → service_inv (close_workspace request s).2 fs.
Proof.
  intros [Hh Hr Hl Hp Ht]. unfold close_workspace.
  set (h := wh_id (wlq_handle request)).
  destruct (workspace_handles s !! h) as [id|] eqn:Hid; [|done]. cbn [snd].
  set (handles := delete h (workspace_handles s)).
  assert (∀ h' id', handles !! h' = Some id' → h' ≠ h ∧ workspace_handles s !! h' = Some id') as Hdel.
  { intros h' id' Hl'. by apply lookup_delete_Some in Hl' as [? ?]. }
  assert (∀ h', handles !! h' = None → delete h (workspace_refs s) !! h' = None) as Hrefs.
  { intros h' Hn. apply lookup_delete_None. unfold handles in Hn.
    apply lookup_delete_None in Hn as [?|Hn]; [by left|right; by apply Hr]. }
  destruct (existsb (String.eqb id) (bt_values handles)) eqn:Hex; split;
    cbn [set_workspaces workspaces workspace_handles workspace_refs live_workspace_paths]; try done.
  - intros h' id' [Hne Hl']%Hdel. destruct (Hh _ _ Hl') as (w & o & Hw & Ho & Hc). exists w, o.
    split_and!; [done| |done]. by rewrite lookup_delete_ne.
  - intros id' w Hw. destruct (decide (id' = id)) as [->|Hne].
    + apply existsb_exists in Hex as (x & Hx & ->%String.eqb_eq).
      apply list_elem_of_In, elem_of_bt_values in Hx as [h' Hh']. by exists h'.
    + destruct (Hl _ _ Hw) as [h' Hh']. exists h'. unfold handles. rewrite lookup_delete_ne; [done|].
      intros <-. congruence.
  - intros h' id' Hl'. pose proof (Hdel _ _ Hl') as [Hne Hl2].
    destruct (Hh _ _ Hl2) as (w & o & Hw & Ho & Hc). exists w, o. rewrite !lookup_delete_ne; try done.
    intros <-. assert (existsb (String.eqb id) (bt_values handles) = true); [|congruence].
    apply existsb_exists. exists id. split; [|apply String.eqb_refl].
    apply list_elem_of_In, elem_of_bt_values. by exists h'.
  - intros id' w Hw. apply lookup_delete_Some in Hw as [Hne Hw].
    destruct (Hl _ _ Hw) as [h' Hh']. exists h'. unfold handles. rewrite lookup_delete_ne; [done|].
    intros <-. congruence.
  - intros p id' [Hlive Hne]%map_lookup_filter_Some. cbn in Hne.
    destruct (Hp _ _ Hlive) as ((w & Hw & Htw) & Hrest). split; [|done]. exists w.
    by rewrite lookup_delete_ne.
  - intros id' w p Hw Htw. apply lookup_delete_Some in Hw as [Hne Hw].
    apply map_lookup_filter_Some. split; [by apply (Ht _ w)|done].
Qed.
End registry.

(** ** Every operation keeps the registry *)

Section operations.
Context `{SerdeNumber} `{Formats} `{!SnapshotCodec} `{!SnapshotLaws}
  `{!SessionCodec} `{!SessionLaws} `{!IoText}.
Implicit Types (fs : FileSys) (p : Path) (s : InProcessWorkspaceService) (w : Workspace).

Definition artifacts p : list Path :=
  [p; durability_companion_path p "log"; durability_companion_path p "bak"].

Lemma any_artifact_finds r l fs :
  io_post (any_artifact r l)
    (λ x fs', fs' = fs ∧ match x with
                         | Done (inr false) => ∀ a, a ∈ l → fs !! file_key a = None
                         | Done (inr true) => ∃ a, a ∈ l ∧ is_Some (fs !! file_key a)
                         | _ => True
                         end) fs.
Proof.
  induction l as [|a l IH]; intros fl; cbn [any_artifact].
  { split; [done|]. intros a Ha. by apply elem_of_nil in Ha. }
  assert (∀ fl, let '(x, _, fs') := match fs_try_exists a fl fs with
      | (Done true, fl, fs) => (Done (inr true), fl, fs)
      | (Done false, fl, fs) => any_artifact r l fl fs
      | (Failed err, fl, fs) => (Done (inl (inspect_error r err)), fl, fs)
      | (Crashed, fl, fs) => (Crashed, fl, fs)
      end in fs' = fs ∧ match x with
                         | Done (inr false) => ∀ b, b ∈ a :: l → fs !! file_key b = None
                         | Done (inr true) => ∃ b, b ∈ a :: l ∧ is_Some (fs !! file_key b)
                         | _ => True
                         end) as Hstep; [|apply Hstep].
  clear fl. intros fl. unfold fs_try_exists, io_call.
  assert (∀ fl, let '(x, _, fs') :=
      if bool_decide (is_Some (fs !! file_key a)) then (Done (inr true), fl, fs)
      else any_artifact r l fl fs in
      fs' = fs ∧ match x with
                 | Done (inr false) => ∀ b, b ∈ a :: l → fs !! file_key b = None
                 | Done (inr true) => ∃ b, b ∈ a :: l ∧ is_Some (fs !! file_key b)
                 | _ => True
                 end) as Hcase.
  { intros fl'. case_bool_decide as Ha.
    - split; [done|]. exists a. split; [by left|done].
    - apply eq_None_not_Some in Ha. specialize (IH fl'). destruct (any_artifact r l fl' fs) as [[x ?] fs'].
      destruct IH as [-> IH]. split; [done|]. destruct x as [[?|[]]|?|]; try done.
      + destruct IH as (b & Hb & Hs). exists b. split; [by right|done].
      + intros b [->|Hb]%elem_of_cons; [done|by apply IH]. }
  destruct fl as [|[|n|n] fl]; cbn; [apply (Hcase [])|apply (Hcase fl)|done|done].
Qed.

Lemma exists_finds root r fs :
  io_post (local_workspace_exists root r)
    (λ x fs', fs' = fs ∧ match x with
       | Done (inr false) => ∀ root' f a, root = Some root' → valid_ref r →
           a ∈ artifacts (workspace_file root' r f) → fs !! file_key a = None
       | Done (inr true) => ∃ root' f a, root = Some root' ∧ valid_ref r ∧
           a ∈ artifacts (workspace_file root' r f) ∧ is_Some (fs !! file_key a)
       | _ => True
       end) fs.
Proof.
  unfold local_workspace_exists.
  assert (∀ formats, io_post (any_format root r formats)
    (λ x fs', fs' = fs ∧ match x with
       | Done (inr false) => ∀ root' f a, f ∈ formats → root = Some root' → valid_ref r →
           a ∈ artifacts (workspace_file root' r f) → fs !! file_key a = None
       | Done (inr true) => ∃ root' f a, root = Some root' ∧ valid_ref r ∧
           a ∈ artifacts (workspace_file root' r f) ∧ is_Some (fs !! file_key a)
       | _ => True
       end) fs) as Hformats.
  { induction formats as [|f formats IH]; cbn [any_format].
    { apply io_post_ret. split; [done|]. intros ??? Hf. by apply elem_of_nil in Hf. }
    destruct (local_workspace_path root r f) as [e|p] eqn:Hp; [by apply io_post_ret|].
    apply local_path_valid in Hp as (root' & -> & Hr & ->).
    apply io_post_bind. eapply io_post_mono; [apply any_artifact_finds|].
    intros [[e|[]]|e|] fs' [-> Hx]; [by apply io_post_ret| | |done|done].
    - apply io_post_ret. split; [done|]. destruct Hx as (a & Ha & Hs). by exists root', f, a.
    - eapply io_post_mono; [apply IH|]. intros x fs' [-> Hx']. split; [done|].
      destruct x as [[?|[]]|?|]; try done. intros root2 f' a Hf [= <-] Hv Ha.
      apply elem_of_cons in Hf as [->|Hf]; [by apply Hx|by eapply Hx']. }
  eapply io_post_mono; [apply Hformats|]. intros x fs' [-> Hx]. split; [done|].
  destruct x as [[?|[]]|?|]; try done. intros root' f a ???. eapply (Hx root' f); try done.
  destruct f; set_solver.
Qed.

(** A free name: no file of the workspace is there. *)
Definition free_ref s r fs : Prop := ∀ root f a, local_workspace_root s = Some root → valid_ref r →
  a ∈ artifacts (workspace_file root r f) → fs !! file_key a = None.

Lemma next_available_finds fuel s fs :
  io_post (next_available_workspace_ref fuel s)
    (λ x fs', fs' = fs ∧ match x with
       | Done (y, s') => (∃ n, s' = set_next_ref n s) ∧
           match y with Some (inr r) => free_ref s r fs | _ => True end
       | _ => True
       end) fs.
Proof.
  revert s. induction fuel as [|fuel IH]; intros s; cbn [next_available_workspace_ref next_workspace_ref].
  { apply io_post_ret. split; [done|]. split; [|done]. exists (next_workspace_ref_id s). by destruct s. }
  apply io_post_bind. eapply io_post_mono; [apply exists_finds|].
  intros [[e|[]]|e|] fs' [-> Hx]; [by apply io_post_ret; eauto| | |done|done].
  - eapply io_post_mono; [apply IH|]. intros [[y s']|?|] fs' [-> Hy]; done.
  - apply io_post_ret. split; [done|]. split; [by eexists|]. intros root f a. apply Hx.
Qed.

Lemma choose_finds fuel o s fs :
  io_post (choose_workspace_ref fuel o s)
    (λ x fs', fs' = fs ∧ match x with
       | Done (y, s') => (∃ n, s' = set_next_ref n s) ∧
           match y with Some (inr r) => free_ref s r fs | _ => True end
       | _ => True
       end) fs.
Proof.
  destruct o as [r|]; cbn [choose_workspace_ref]; [|apply next_available_finds].
  assert (∃ n, s = set_next_ref n s) as Hs by (exists (next_workspace_ref_id s); by destruct s).
  destruct (validate_workspace_ref r); [by apply io_post_ret|].
  apply io_post_bind. eapply io_post_mono; [apply exists_finds|].
  intros [x|e|] fs' [-> Hx]; [|done..]. apply io_post_ret. split; [done|]. split; [done|].
  by destruct x as [e|[]].
Qed.

(** ** Preservation *)

Definition fresh_random (random : option string) s : Prop :=
  ∀ handle, next_workspace_handle random = inr handle → fresh_name (wh_id handle) s.

Lemma create_named_inv tags random r f s fs :
  service_inv s fs → fresh_random random s → free_ref s r fs →
  io_post (create_named tags random r f s)
    (λ x fs', match x with Done (_, s') => service_inv s' fs' | _ => True end) fs.
Proof.
  intros Hi Hfresh Hfree. unfold create_named.
  destruct (local_workspace_path (local_workspace_root s) r f) as [e|p] eqn:Hp; [by apply io_post_ret|].
  apply local_path_valid in Hp as (root & Hroot & Hr & ->).
  assert (live_workspace_paths s !! workspace_file root r f = None) as Hnone.
  { apply eq_None_not_Some. intros [id Hlive]. destruct (si_paths _ _ Hi _ _ Hlive) as (_ & _ & [bs Hs]).
    rewrite (Hfree root f) in Hs; [done..|by left]. }
  apply io_post_bind. eapply io_post_mono; [apply (enable_touches tags)|].
  intros [[x w]|e|] fs' [Ht Hx]; [|done..]. apply io_post_ret.
  pose proof (service_inv_files _ _ _ (touched_keeps _ _ _ _ Ht) Hi) as Hi'.
  destruct x as [[]|e]; [|done]. destruct Hx as [Htarget Hs].
  destruct (next_workspace_handle random) as [e|handle] eqn:Hhandle; [done|].
  apply register_inv; [done|by apply Hfresh|done|]. split; [done|]. split; [by exists root, f|done].
Qed.

Lemma create_inv fuel tags random request s fs :
  service_inv s fs → fresh_random random s →
  io_post (create_workspace fuel tags random request s)
    (λ x fs', match x with Done (_, s') => service_inv s' fs' | _ => True end) fs.
Proof.
  intros Hi Hfresh. unfold create_workspace. destruct (wcq_mode request).
  - unfold create_in_memory. destruct (next_workspace_handle random) as [e|handle] eqn:Hhandle;
      apply io_post_ret; [done|]. apply register_inv; [done|by apply Hfresh|done|done].
  - apply io_post_bind. eapply io_post_mono; [apply choose_finds|].
    intros [[y s']|e|] fs' [-> Hy]; [|done..]. destruct Hy as [[n ->] Hy].
    assert (service_inv (set_next_ref n s) fs) as Hi' by by apply (service_inv_fields s).
    destruct y as [[e|r]|]; [by apply io_post_ret| |by apply io_post_ret].
    apply io_post_bind. eapply io_post_mono; [exact (create_named_inv tags random r _ (set_next_ref n s) fs Hi' Hfresh Hy)|].
    intros [[z s']|e|] fs' Hz; [by apply io_post_ret|done..].
Qed.

Lemma open_inv tags random request s fs :
  service_inv s fs → fresh_random random s →
  io_post (open_workspace tags random request s)
    (λ x fs', match x with Done (_, s') => service_inv s' fs' | _ => True end) fs.
Proof.
  intros Hi Hfresh. unfold open_workspace.
  destruct (woq_workspace request) as [r|], (woq_snapshot request) as [h|]; try by apply io_post_ret.
  - unfold open_named. set (f := woq_format request).
    destruct (local_workspace_path (local_workspace_root s) r f) as [e|p] eqn:Hp; [by apply io_post_ret|].
    pose proof (local_path_valid _ _ _ _ Hp) as (root & Hroot & Hr & Hpath).
    destruct (live_workspace_paths s !! p) as [id|] eqn:Hlive.
    { apply io_post_ret. destruct (next_workspace_handle random) as [e|handle] eqn:Hhandle; [done|].
      eapply share_inv; [done|by apply Hfresh|done|done]. }
    apply io_post_bind. eapply io_post_mono; [apply (open_autocommit_touches tags)|].
    intros [x|e|] fs' [Ht Hx]; [|done..]. apply io_post_ret.
    pose proof (service_inv_files _ _ _ (touched_keeps _ _ _ _ Ht) Hi) as Hi'.
    destruct x as [w|e]; [|done]. destruct Hx as [Htarget Hs]. unfold finish_open.
    destruct (next_workspace_handle random) as [e|handle] eqn:Hhandle; [done|]. rewrite Hp.
    apply register_inv; [done|by apply Hfresh|done|]. split; [done|]. split; [by exists root, f|done].
  - unfold open_snapshot. destruct (local_snapshots s !! sh_id h) as [snapshot|]; [|by apply io_post_ret].
    case_decide; [|by apply io_post_ret].
    apply io_post_bind. eapply io_post_mono; [apply open_reads|].
    intros [x|e|] fs' [-> Hx]; [|done..]. apply io_post_ret. destruct x as [w|e]; [|done].
    unfold finish_open. destruct (next_workspace_handle random) as [e|handle] eqn:Hhandle; [done|].
    apply register_inv; [done|by apply Hfresh| |done]. unfold target_path. by rewrite Hx.
Qed.

Lemma workspace_Some handle s id w :
  workspace handle s = inr (id, w) ↔
  workspace_handles s !! wh_id handle = Some id ∧ workspaces s !! id = Some w.
Proof.
  unfold workspace. destruct (workspace_handles s !! wh_id handle) as [id'|]; cbn; [|naive_solver].
  destruct (workspaces s !! id') as [w'|] eqn:Hw; cbn; split; [intros [= -> ->]|intros [[= ->] Hw']|done|];
    naive_solver.
Qed.

Lemma service_execute_inv clock tags request s fs :
  service_inv s fs →
  io_post (service_execute clock tags request s)
    (λ x fs', match x with Done (_, s') => service_inv s' fs' | _ => True end) fs.
Proof.
  intros Hi. unfold service_execute.
  destruct (workspace (wrq_handle request) s) as [e|[id w]] eqn:Hw; [by apply io_post_ret|].
  apply workspace_Some in Hw as [Hh Hw].
  destruct (into_runtime_request clock (wrq_request request)) as [r|e]; [|by apply io_post_ret].
  apply io_post_bind. eapply io_post_mono; [apply execute_touches|].
  intros [[x w']|e|] fs' [Ht Hx]; [|done..]. apply io_post_ret.
  assert (service_inv s fs') as Hi'.
  { destruct (target_path w); [|by subst]. eapply service_inv_files; [|done]. by eapply touched_keeps. }
  by eapply put_workspace_inv.
Qed.

Lemma save_snapshot_inv tags handle request s fs :
  service_inv s fs →
  io_post (save_workspace_to_local_snapshot tags handle request s)
    (λ x fs', match x with Done (_, s') => service_inv s' fs' | _ => True end) fs.
Proof.
  intros Hi. unfold save_workspace_to_local_snapshot.
  destruct (workspace handle s) as [e|[id w]]; [by apply io_post_ret|].
  apply io_post_bind. eapply io_post_mono; [apply save_workspace_touches|].
  intros [x|e|] fs' [Ht _]; [|done..]. apply io_post_ret.
  pose proof (service_inv_files _ _ _ (touched_keeps _ _ _ _ Ht) Hi) as Hi'.
  destruct x as [[]|e]; [|done]. unfold register_local_workspace_snapshot, next_snapshot_handle. cbn.
  by apply (service_inv_fields s).
Qed.
End operations.

(** ** Creating a workspace only adds files *)

Section creation.
Context `{SerdeNumber} `{Formats} `{!SnapshotCodec} `{!SnapshotLaws}
  `{!SessionCodec} `{!SessionLaws} `{!IoText}.
Implicit Types (fs : FileSys) (p : Path) (s : InProcessWorkspaceService) (w : Workspace).

Lemma io_post_and {A} (m : io A) (P Q : Files.outcome A → FileSys → Prop) fs :
  io_post m P fs → io_post m Q fs → io_post m (λ r fs', P r fs' ∧ Q r fs') fs.
Proof. intros HP HQ fl. specialize (HP fl). specialize (HQ fl). by destruct (m fl fs) as [[r ?] fs']. Qed.

Lemma only_changed_adds ks fs fs' :
  only_changed ks fs fs' → (∀ k, k ∈ ks → fs !! k = None) → fs ⊆ fs'.
Proof.
  intros Hf Hn. apply map_subseteq_spec. intros k x Hk. rewrite Hf; [done|].
  intros Hin. by rewrite Hn in Hk.
Qed.

(** A write to a file that is not there: a temporary file in the way makes it
  fail, any other is new. *)
Lemma write_new tag p bs fs :
  fs !! file_key p = None → io_post (write_file_atomically tag p bs) (λ _ fs', fs ⊆ fs') fs.
Proof.
  intros Hp. destruct (fs !! file_key (atomic_temp_path tag p)) as [t|] eqn:Ht.
  - intros fl. unfold write_file_atomically, mbind, io_bind, open_create_new, io_call.
    destruct fl as [|[] fl]; rewrite ?Ht; cbn; done.
  - eapply io_post_mono; [apply write_file_atomically_post|]. intros r fs' [Hf _ _].
    eapply only_changed_adds; [done|]. intros k. rewrite !elem_of_cons.
    intros [->|[->|Hk]]; [done..|by apply elem_of_nil in Hk].
Qed.

Lemma save_new f tags p σ fs :
  fs !! file_key p = None → fs !! file_key (backup_path p) = None →
  fs !! file_key (log_path p) = None →
  io_post (save_workspace f tags p σ) (λ _ fs', fs ⊆ fs') fs.
Proof.
  intros Hp Hb Hl. destruct (save_workspace_shape f tags p σ) as [[e ->]|(bs & e1 & e2 & ->)].
  { by apply io_post_ret. }
  apply or_abort_post. unfold write_file_atomically_with_backup. apply io_post_bind.
  eapply io_post_mono; [apply (io_post_and _ _ _ _ (write_new tags.1 p bs fs Hp)
    (write_file_atomically_post tags.1 p bs fs))|]. cbn beta.
  intros r fs1 [Hsub [Hf1 _ _]]. destruct r as [[]|e|]; [|done..].
  assert (∀ k, k ≠ file_key p → k ≠ file_key (atomic_temp_path tags.1 p) → fs1 !! k = fs !! k) as Hf1'.
  { intros k H1' H2'. apply Hf1. rewrite !not_elem_of_cons. split_and!; try done. apply not_elem_of_nil. }
  assert (fs1 !! file_key (backup_path p) = None) as Hb1.
  { rewrite Hf1'; [done|apply backup_path_ne|apply not_eq_sym, temp_ne_backup]. }
  assert (fs1 !! file_key (log_path p) = None) as Hl1.
  { rewrite Hf1'; [done|apply log_path_ne|apply not_eq_sym, temp_ne_log]. }
  eapply io_post_mono; [apply (io_post_and _ _ _ _ (write_new tags.2 (backup_path p) bs fs1 Hb1)
    (write_file_atomically_post tags.2 (backup_path p) bs fs1))|]. cbn beta.
  intros r fs2 [Hsub2 [Hf2 _ _]]. assert (fs ⊆ fs2) as Hsub' by by etrans.
  destruct r as [[]|e|]; [|done..].
  assert (fs2 !! file_key (log_path p) = None) as Hl2.
  { rewrite Hf2; [done|]. rewrite !not_elem_of_cons. split_and!; [apply not_eq_sym, backup_log_ne| |apply not_elem_of_nil].
    apply not_eq_sym, backup_temp_ne_log. }
  apply or_abort_post. apply io_post_clear_log.
  - intros x Hx. destruct x as [[]|e|]; done.
  - intros x. rewrite delete_id by done. destruct x as [[]|e|]; [by apply io_post_ret|done..].
  - intros _. by apply io_post_ret.
Qed.

(** *** The companions of a workspace's file *)

Ltac not_dot := unfold default, id, file_of; intros Hd%(f_equal String.length); rewrite ?length_append in Hd;
  try match goal with f : DurabilityFormat |- _ => destruct f end; cbn in Hd; lia.

Lemma workspace_file_parent root r f : path_parent (workspace_file root r f) = Some root.
Proof.
  unfold path_parent, workspace_file, path_join. cbn.
  destruct (p_comps root ++ [_])%list eqn:Hl; [by destruct (p_comps root)|].
  rewrite <-Hl, removelast_last. by destruct root.
Qed.
Lemma workspace_file_file_name root r f : path_file_name (workspace_file root r f) = Some (file_of r f).
Proof.
  apply file_name_last; [apply last_snoc|apply file_of_not_dot|].
  not_dot.
Qed.

Definition in_root root (name : string) : FileKey := ((file_key root).1, ((file_key root).2 ++ [name])%list).

Lemma sibling_in_root root r f name :
  name ≠ "." → file_key (sibling (workspace_file root r f) name) = in_root root name.
Proof.
  intros Hn. unfold sibling, parent_or_dot. rewrite workspace_file_parent.
  rewrite file_key_join by done. unfold in_root, path_is_empty.
  destruct root as [[] [|c l]]; done.
Qed.
Lemma companion_in_root root r f suffix :
  file_key (durability_companion_path (workspace_file root r f) suffix)
  = in_root root (file_of r f +:+ "." +:+ suffix).
Proof.
  unfold durability_companion_path. rewrite workspace_file_parent, workspace_file_file_name.
  apply file_key_join. not_dot.
Qed.
Lemma log_in_root root r f : file_key (log_path (workspace_file root r f)) = in_root root (file_of r f +:+ ".log").
Proof.
  unfold log_path. rewrite workspace_file_file_name. apply sibling_in_root.
  not_dot.
Qed.
Lemma backup_in_root root r f : file_key (backup_path (workspace_file root r f)) = in_root root (file_of r f +:+ ".bak").
Proof.
  unfold backup_path. rewrite workspace_file_file_name. apply sibling_in_root.
  not_dot.
Qed.

(** Everything a save of a workspace's file touches is directly in the root. *)
Lemma touched_in_root tags root r f fs fs' k :
  touched tags (workspace_file root r f) fs fs' → fs' !! k ≠ fs !! k → ∃ name, k = in_root root name.
Proof.
  intros [Hf _] Hk. set (p := workspace_file root r f) in *.
  destruct (decide (k ∈ file_key p :: file_key (backup_path p) :: passing tags p)) as [Hin|Hout];
    [|by apply Hf in Hout].
  unfold passing in Hin. rewrite !elem_of_cons in Hin.
  destruct Hin as [->|[->|[->|[->|[->|Hin]]]]]; [| | | | |by apply elem_of_nil in Hin].
  - exists (file_of r f). apply file_key_join, file_of_not_dot.
  - eexists. apply backup_in_root.
  - eexists. apply sibling_in_root. not_dot.
  - rewrite backup_temp_key. eexists. apply sibling_in_root. not_dot.
  - eexists. apply log_in_root.
Qed.

Definition adds_in_root s fs fs' : Prop :=
  fs ⊆ fs' ∧ ∀ k, fs' !! k ≠ fs !! k →
    ∃ root name, local_workspace_root s = Some root ∧ k = in_root root name.

Lemma create_named_adds tags random r f s fs :
  free_ref s r fs →
  io_post (create_named tags random r f s)
    (λ x fs', adds_in_root s fs fs' ∧
       ∀ response s', x = Done (inr response, s') →
         ∃ root, local_workspace_root s = Some root ∧ wcs_workspace response = Some r ∧
           fs !! file_key (workspace_file root r f) = None ∧
           is_Some (fs' !! file_key (workspace_file root r f))) fs.
Proof.
  intros Hfree. unfold create_named.
  destruct (local_workspace_path (local_workspace_root s) r f) as [e|p] eqn:Hp.
  { apply io_post_ret. split; [|done]. split; [done|]. by intros k []. }
  apply local_path_valid in Hp as (root & Hroot & Hr & ->).
  pose proof (λ a, Hfree root f a Hroot Hr) as Hgone. set (p := workspace_file root r f) in *.
  assert (fs !! file_key p = None) as Hp by (apply Hgone; by left).
  assert (fs !! file_key (log_path p) = None) as Hl.
  { unfold p. rewrite log_in_root. change ".log" with ("." +:+ "log"). rewrite <-(companion_in_root root r f "log"). apply Hgone. right. by left. }
  assert (fs !! file_key (backup_path p) = None) as Hb.
  { unfold p. rewrite backup_in_root. change ".bak" with ("." +:+ "bak"). rewrite <-(companion_in_root root r f "bak"). apply Hgone. right. right. by left. }
  assert (io_post (enable_autocommit tags f p Workspace_new) (λ _ fs', fs ⊆ fs') fs) as Hadd.
  { apply io_post_bind. eapply io_post_mono; [apply save_new; done|]. cbn beta.
    intros [x|e|] fs' Hs; [by apply io_post_ret|done..]. }
  apply io_post_bind. eapply io_post_mono; [apply (io_post_and _ _ _ _ Hadd (enable_touches tags f p Workspace_new fs))|].
  cbn beta. intros x fs' [Hsub [Ht Hx]].
  assert (adds_in_root s fs fs') as Hadds.
  { split; [done|]. intros k Hk. destruct (touched_in_root _ _ _ _ _ _ _ Ht Hk) as [name ->]. by exists root, name. }
  destruct x as [[[[]|e] w]|e|]; [| |by split..].
  - destruct Hx as [_ Hs]. apply io_post_ret. split; [done|]. intros response s'.
    destruct (next_workspace_handle random); [done|]. intros [= <- <-]. by exists root.
  - apply io_post_ret. by split.
Qed.
End creation.

(** ** A free name is found *)

Local Open Scope Z_scope.

Section names.
Context `{SerdeNumber} `{Formats} `{!SnapshotCodec} `{!SnapshotLaws}
  `{!SessionCodec} `{!SessionLaws} `{!IoText}.
Implicit Types (fs : FileSys) (p : Path) (s : InProcessWorkspaceService) (n m : Z).

Definition numbered n : WorkspaceRef := {| wref_id := "workspace-" +:+ u_to_string n |}.

Lemma numbered_valid n : valid_ref (numbered n).
Proof.
  unfold valid_ref, validate_workspace_ref, numbered. cbn [wref_id].
  destruct (str_is_empty _) eqn:He.
  { unfold str_is_empty in He. apply String.eqb_eq in He. done. }
  rewrite all_chars_app.
  assert (all_chars is_ref_char (u_to_string n) = true) as ->; [|done].
  eapply all_chars_impl; [|apply u_to_string_digits]. intros c Hc.
  unfold is_ref_char, is_ascii_alphanumeric. by rewrite Hc, orb_true_r.
Qed.

(** A file that makes the [n]th name taken. *)
Definition taken_by n (k : FileKey) : Prop :=
  ∃ t, key_name k = Some (wref_id (numbered n) +:+ String "." t).

Lemma taken_by_inj n m k : 0 <= n → 0 <= m → taken_by n k → taken_by m k → n = m.
Proof.
  intros Hn Hm [t Ht] [u Hu]. rewrite Ht in Hu. injection Hu as Heq.
  assert (lacks "." (u_to_string n) = true ∧ lacks "." (u_to_string m) = true) as [Hl1 Hl2].
  { split; (eapply digits_lack; [|apply u_to_string_digits]; done). }
  apply (f_equal (split_char ".")) in Heq. rewrite !split_char_app in Heq by done.
  injection Heq as Heq _. apply (f_equal (λ x, parse_digits x 0)) in Heq.
  rewrite !parse_u_to_string in Heq by done. by injection Heq.
Qed.

Lemma artifact_taken root n f a :
  a ∈ artifacts (workspace_file root (numbered n) f) → taken_by n (file_key a).
Proof.
  unfold artifacts. rewrite !elem_of_cons. unfold taken_by.
  assert (∀ x, file_of (numbered n) f +:+ x
    = wref_id (numbered n) +:+ String "." (format_extension f +:+ x)) as Happ.
  { intros x. unfold file_of. by rewrite append_assoc. }
  intros [->|[->|[->|Ha]]]; [| | |by apply elem_of_nil in Ha].
  - exists (format_extension f +:+ ""). rewrite workspace_file_name, <-Happ. by rewrite append_nil_r.
  - eexists. rewrite companion_in_root. unfold in_root, key_name. cbn [snd].
    rewrite last_snoc. f_equal. apply Happ.
  - eexists. rewrite companion_in_root. unfold in_root, key_name. cbn [snd].
    rewrite last_snoc. f_equal. apply Happ.
Qed.

Lemma next_available_ends fuel s fs (K : gset FileKey) :
  K ⊆ dom fs →
  (∀ k, k ∈ K → ∃ m, 0 <= m <= next_workspace_ref_id s ∧ taken_by m k) →
  0 <= next_workspace_ref_id s →
  next_workspace_ref_id s + Z.of_nat (size (dom fs) - size K) + 1 < 2 ^ 64 →
  (size (dom fs) - size K < fuel)%nat →
  io_post (next_available_workspace_ref fuel s)
    (λ x _, match x with Done (None, _) => False | _ => True end) fs.
Proof.
  revert s K. induction fuel as [|fuel IH]; intros s K HK Htaken Hn Hsmall Hfuel; [lia|].
  cbn [next_available_workspace_ref next_workspace_ref].
  assert (u64_succ (next_workspace_ref_id s) = next_workspace_ref_id s + 1) as Hsucc.
  { unfold u64_succ. apply Z.mod_small. lia. }
  rewrite Hsucc. set (n := next_workspace_ref_id s + 1).
  change {| wref_id := "workspace-" +:+ u_to_string n |} with (numbered n).
  apply io_post_bind. eapply io_post_mono; [apply exists_finds|].
  intros [[e|[]]|e|] fs' [-> Hx]; [by apply io_post_ret| |by apply io_post_ret|done|done].
  destruct Hx as (root & f & a & _ & _ & Ha & [bs Hs]). apply artifact_taken in Ha.
  set (k := file_key a) in *.
  assert (k ∈ dom fs) as Hdom by (apply elem_of_dom; by eexists).
  assert (k ∉ K) as Hk.
  { intros Hin. destruct (Htaken _ Hin) as (m & Hm & Htm).
    assert (n = m); [|lia]. apply (taken_by_inj n m k); [lia|lia|done|done]. }
  assert (size ({[k]} ∪ K) = S (size K)) as Hsize.
  { rewrite size_union, size_singleton; [done|]. set_solver. }
  assert (size ({[k]} ∪ K) <= size (dom fs))%nat as Hle by (apply subseteq_size; set_solver).
  apply (IH _ ({[k]} ∪ K)); cbn [set_next_ref next_workspace_ref_id]; [set_solver| |lia|lia|lia].
  intros k' [->%elem_of_singleton|Hk']%elem_of_union; [exists n; split; [lia|done]|].
  destruct (Htaken _ Hk') as (m & Hm & ?). exists m. split; [lia|done].
Qed.

(** With no fault the names are inspected to the end. *)
Lemma any_artifact_runs r l fs :
  ∃ b, any_artifact r l [] fs = (Done (inr b), [], fs).
Proof.
  induction l as [|a l IH]; cbn; [by exists false|].
  case_bool_decide; [by exists true|exact IH].
Qed.
Lemma exists_runs root r fs :
  valid_ref r → ∃ b, local_workspace_exists (Some root) r [] fs = (Done (inr b), [], fs).
Proof.
  intros Hr. unfold local_workspace_exists, any_format, local_workspace_path. rewrite Hr.
  unfold mbind, io_bind.
  pose proof (λ f, any_artifact_runs r (artifacts (workspace_file root r f)) fs) as Hb.
  unfold artifacts in Hb.
  destruct (Hb DurBinary) as [[] ->]; [by exists true|].
  destruct (Hb DurJson) as [[] ->]; [by exists true|by exists false].
Qed.
Lemma next_available_runs fuel s root fs :
  local_workspace_root s = Some root →
  ∃ y s', next_available_workspace_ref fuel s [] fs = (Done (y, s'), [], fs) ∧
    ∀ e, y ≠ Some (inl e).
Proof.
  revert s. induction fuel as [|fuel IH]; intros s Hroot;
    cbn [next_available_workspace_ref next_workspace_ref]; [by eexists _, _|].
  cbn [set_next_ref local_workspace_root]. rewrite Hroot. unfold mbind, io_bind.
  destruct (exists_runs root (numbered (u64_succ (next_workspace_ref_id s))) fs (numbered_valid _)) as [b Hb].
  change {| wref_id := "workspace-" +:+ u_to_string (u64_succ (next_workspace_ref_id s)) |}
    with (numbered (u64_succ (next_workspace_ref_id s))).
  rewrite Hb. destruct b; [by apply IH|by eexists _, _].
Qed.
End names.

(** ** What the service promises *)

Section promises.
Context `{SerdeNumber} `{Formats} `{!SnapshotCodec} `{!SnapshotLaws}
  `{!SessionCodec} `{!SessionLaws} `{!IoText}.
Implicit Types (fs : FileSys) (p : Path) (s : InProcessWorkspaceService) (w : Workspace).

Inductive ServiceOp :=
  | SoSetRoot (root : Path)
  | SoCreate (fuel : nat) (tags : string * string) (random : option string)
      (request : WorkspaceCreateRequest)
  | SoOpen (tags : string * string) (random : option string) (request : WorkspaceOpenRequest)
  | SoExecute (clock : nat → Z) (tags : string * string) (request : WorkspaceRuntimeRequest)
  | SoClose (request : WorkspaceCloseRequest)
  | SoRegisterSnapshot (request : LocalWorkspaceSnapshotRequest)
  | SoSaveSnapshot (tags : string * string) (handle : WorkspaceHandle)
      (request : LocalWorkspaceSnapshotRequest).

(** The state a call leaves. *)
Definition service_step (op : ServiceOp) s : io InProcessWorkspaceService :=
  match op with
  | SoSetRoot root => mret (M:=io) (set_local_workspace_root root s)
  | SoCreate fuel tags random request =>
      create_workspace fuel tags random request s ≫= λ '(_, s), mret (M:=io) s
  | SoOpen tags random request =>
      open_workspace tags random request s ≫= λ '(_, s), mret (M:=io) s
  | SoExecute clock tags request =>
      service_execute clock tags request s ≫= λ '(_, s), mret (M:=io) s
  | SoClose request => mret (M:=io) (close_workspace request s).2
  | SoRegisterSnapshot request => mret (M:=io) (register_local_workspace_snapshot request s).2
  | SoSaveSnapshot tags handle request =>
      save_workspace_to_local_snapshot tags handle request s ≫= λ '(_, s), mret (M:=io) s
  end.

(** The random bytes of a call make a name that is not in use. *)
Definition fresh_op (op : ServiceOp) s : Prop :=
  match op with
  | SoCreate _ _ random _ | SoOpen _ random _ => fresh_random random s
  | _ => True
  end.

Inductive service_reach : InProcessWorkspaceService → FileSys → Prop :=
  | sreach_new fs : service_reach service_new fs
  | sreach_step op s fs fl s' fl' fs' :
      service_reach s fs → fresh_op op s → service_step op s fl fs = (Done s', fl', fs') →
      service_reach s' fs'.

Lemma step_inv op s fs :
  service_inv s fs → fresh_op op s →
  io_post (service_step op s)
    (λ x fs', match x with Done s' => service_inv s' fs' | _ => True end) fs.
Proof.
  assert (∀ A (m : io (A * InProcessWorkspaceService)),
    io_post m (λ x fs', match x with Done (_, s') => service_inv s' fs' | _ => True end) fs →
    io_post (m ≫= λ '(_, s), mret (M:=io) s)
      (λ x fs', match x with Done s' => service_inv s' fs' | _ => True end) fs) as Hdrop.
  { intros A m Hm. apply io_post_bind. eapply io_post_mono; [exact Hm|].
    intros [[a s']|e|] fs' Hs; [by apply io_post_ret|done..]. }
  intros Hi Hfresh. destruct op; cbn [service_step fresh_op] in *.
  - apply io_post_ret. by apply (service_inv_fields s).
  - by apply Hdrop, create_inv.
  - by apply Hdrop, open_inv.
  - by apply Hdrop, service_execute_inv.
  - by apply io_post_ret, close_inv.
  - apply io_post_ret. unfold register_local_workspace_snapshot, next_snapshot_handle. cbn.
    by apply (service_inv_fields s).
  - by apply Hdrop, save_snapshot_inv.
Qed.

Lemma reach_inv s fs : service_reach s fs → service_inv s fs.
Proof.
  induction 1 as [fs|op s fs fl s' fl' fs' _ IH Hfresh Hrun]; [apply service_new_inv|].
  exact (io_post_run _ _ _ _ _ _ _ (step_inv op s fs IH Hfresh) Hrun).
Qed.

(** C20: whatever its clients call and whichever system calls fail, every handle
  of the service resolves to a workspace, which commits to the file of the
  handle's name, or to nothing when the handle has no name; no two of its
  workspaces commit to the same file; the file a workspace commits to is
  there; and a workspace without handles is unloaded. *)
Theorem every_file_has_one_writer s fs :
  service_reach s fs →
  (∀ handle id, workspace_handles s !! wh_id handle = Some id →
     ∃ w o, workspace handle s = inr (id, w) ∧
       workspace_refs s !! wh_id handle = Some o ∧ commits_to o w) ∧
  (∀ id1 id2 w1 w2 p, workspaces s !! id1 = Some w1 → workspaces s !! id2 = Some w2 →
     target_path w1 = Some p → target_path w2 = Some p → id1 = id2) ∧
  (∀ id w p, workspaces s !! id = Some w → target_path w = Some p → is_Some (fs !! file_key p)) ∧
  (∀ id w, workspaces s !! id = Some w → ∃ h, workspace_handles s !! h = Some id).
Proof.
  intros [Hh Hr Hl Hp Ht]%reach_inv. split_and!.
  - intros handle id Hid. destruct (Hh _ _ Hid) as (w & o & Hw & Ho & Hc). exists w, o.
    split; [|done]. by apply workspace_Some.
  - intros id1 id2 w1 w2 p H1' H2' Ht1 Ht2.
    pose proof (Ht _ _ _ H1' Ht1). pose proof (Ht _ _ _ H2' Ht2). congruence.
  - intros id w p Hw Htw. by destruct (Hp _ _ (Ht _ _ _ Hw Htw)) as (_ & _ & Hs).
  - exact Hl.
Qed.

(** creating a workspace, however it ends, keeps every file there is, byte for
  byte, and adds files directly in the root of the service only; when it
  reports a named workspace, the file of that name is new. *)
Theorem create_only_adds fuel tags random request s fs :
  io_post (create_workspace fuel tags random request s)
    (λ r fs', fs ⊆ fs' ∧
       (∀ k, fs' !! k ≠ fs !! k →
          ∃ root name, local_workspace_root s = Some root ∧ k = in_root root name) ∧
       ∀ response s' ref, r = Done (Some (inr response), s') →
         wcs_workspace response = Some ref →
         ∃ root, local_workspace_root s = Some root ∧
           fs !! file_key (workspace_file root ref (wcq_format request)) = None ∧
           is_Some (fs' !! file_key (workspace_file root ref (wcq_format request)))) fs.
Proof.
  unfold create_workspace. destruct (wcq_mode request).
  { unfold create_in_memory. destruct (next_workspace_handle random); apply io_post_ret;
      (split; [done|]); (split; [by intros k []|done || by intros ??? [= <- <-]]). }
  apply io_post_bind. eapply io_post_mono; [apply choose_finds|].
  intros [[y s']|e|] fs' [-> Hy]; [|by (split; [done|]; split; [intros k []|])..].
  destruct Hy as [[n ->] Hy]. destruct y as [[e|r]|];
    [apply io_post_ret; by (split; [done|]; split; [intros k []|])| |
     apply io_post_ret; by (split; [done|]; split; [intros k []|])].
  apply io_post_bind.
  eapply io_post_mono; [exact (create_named_adds tags random r _ (set_next_ref n s) fs Hy)|].
  intros [[z s']|e|] fs' [[Hsub Hroot] Hz]; [|by (split; [done|]; split)..].
  apply io_post_ret. split; [done|]. split; [done|]. intros response s'' ref [= -> ->] Href.
  destruct (Hz _ _ eq_refl) as (root & Hroot' & Href' & Hnew). exists root. split; [done|].
  rewrite Href in Href'. by injection Href' as ->.
Qed.

(** the loop that looks for a free name ends: it inspects at most one name more
  than there are files; when no system call fails and a root is configured
  it answers a valid name none of whose files is there. *)
Theorem free_name_is_found fuel s fs :
  0 <= next_workspace_ref_id s →
  next_workspace_ref_id s + Z.of_nat (size (dom fs)) + 1 < 2 ^ 64 →
  (size (dom fs) < fuel)%nat →
  (∀ fl s' fl' fs', next_available_workspace_ref fuel s fl fs ≠ (Done (None, s'), fl', fs')) ∧
  ∀ root, local_workspace_root s = Some root →
    ∃ r s', next_available_workspace_ref fuel s [] fs = (Done (Some (inr r), s'), [], fs) ∧
      free_ref s r fs.
Proof.
  intros Hn Hsmall Hfuel.
  pose proof (next_available_ends fuel s fs ∅) as Hends. rewrite size_empty, Nat.sub_0_r in Hends.
  specialize (Hends ltac:(set_solver) ltac:(set_solver) Hn Hsmall Hfuel). split.
  - intros fl s' fl' fs' Hrun. exact (io_post_run _ _ _ _ _ _ _ Hends Hrun).
  - intros root Hroot. destruct (next_available_runs fuel s root fs Hroot) as (y & s' & Hrun & Hy).
    pose proof (io_post_run _ _ _ _ _ _ _ Hends Hrun) as Hnone.
    pose proof (io_post_run _ _ _ _ _ _ _ (next_available_finds fuel s fs) Hrun) as (_ & _ & Hfree).
    destruct y as [[e|r]|]; [by destruct (Hy e)| |done]. by exists r, s'.
Qed.
End promises.

(** ** A concrete service *)

Section service_witnesses.
Existing Instances serde_default w_formats digits_codec digits_codec_laws digits_session_codec
  digits_session_laws.

#[local] Instance w_service_text : IoText := {|
  path_display p := Text.join "/" (p_comps p);
  io_error_text e := match e with
                     | NotFoundError => "not found" | ExistsError => "exists"
                     | OtherError => "input/output error"
                     end;
  |}.

Definition fresh_random_b (random : option string) (s : InProcessWorkspaceService) : bool :=
  match next_workspace_handle random with
  | inr handle => bool_decide (workspace_handles s !! wh_id handle = None) &&
                  match workspaces s !! wh_id handle with None => true | Some _ => false end
  | inl _ => true
  end.
Lemma fresh_random_b_sound random s : fresh_random_b random s = true → fresh_random random s.
Proof.
  unfold fresh_random_b, fresh_random. intros Hb handle Hh. rewrite Hh in Hb.
  apply andb_true_iff in Hb as [Hn%bool_decide_eq_true_1 Hw]. split; [done|].
  by destruct (workspaces s !! wh_id handle).
Qed.
Definition fresh_op_b (op : ServiceOp) (s : InProcessWorkspaceService) : bool :=
  match op with
  | SoCreate _ _ random _ | SoOpen _ random _ => fresh_random_b random s
  | _ => true
  end.

(** The calls one after the other, no system call failing. *)
Fixpoint run_service (ops : list ServiceOp) (s : InProcessWorkspaceService) (fs : FileSys)
    : option (InProcessWorkspaceService * FileSys) :=
  match ops with
  | [] => Some (s, fs)
  | op :: ops =>
      if fresh_op_b op s then
        match service_step op s [] fs with
        | (Done s, _, fs) => run_service ops s fs
        | _ => None
        end
      else None
  end.
Lemma run_service_reach ops s fs s' fs' :
  service_reach s fs → run_service ops s fs = Some (s', fs') → service_reach s' fs'.
Proof.
  revert s fs. induction ops as [|op ops IH]; intros s fs Hs; cbn; [by intros [= <- <-]|].
  destruct (fresh_op_b op s) eqn:Hf; [|done].
  destruct (service_step op s [] fs) as [[[s1|e|] fl] fs1] eqn:Hrun; try done.
  apply IH. eapply sreach_step; [exact Hs| |exact Hrun].
  destruct op; try done; by apply fresh_random_b_sound.
Qed.

(** A workspace is created, opened again by another client and left by the first. *)
Definition w_root : Path := {| p_abs := true; p_comps := ["srv"] |}.
Definition w_ref : WorkspaceRef := {| wref_id := "team" |}.
Definition w_service_ops : list ServiceOp :=
  [SoSetRoot w_root;
   SoCreate 1 w_tags (Some "a") {| wcq_mode := WcmLocalAutocommit; wcq_workspace := Some w_ref;
                                   wcq_format := DurJson |};
   SoCreate 1 w_tags (Some "b") {| wcq_mode := WcmInMemory; wcq_workspace := None;
                                   wcq_format := DurJson |};
   SoOpen w_tags (Some "c") {| woq_snapshot := None; woq_workspace := Some w_ref;
                               woq_format := DurJson |};
   SoClose {| wlq_handle := {| wh_id := "workspace-61" |} |}].
Definition w_service_check : bool :=
  match run_service w_service_ops service_new ∅ with
  | Some (s, _) =>
      bool_decide (workspace_handles s !! "workspace-63" = Some "workspace-61") &&
      (size (workspaces s) =? 2)%nat && (size (workspace_handles s) =? 2)%nat
  | None => false
  end.

Lemma every_file_has_one_writer_witness :
  ∃ s fs, service_reach s fs ∧ workspace_handles s !! "workspace-63" = Some "workspace-61" ∧
    (∃ w o, workspace {| wh_id := "workspace-63" |} s = inr ("workspace-61", w) ∧
       workspace_refs s !! "workspace-63" = Some o ∧ commits_to o w).
Proof.
  assert (w_service_check = true) as Hc by (vm_compute; reflexivity).
  unfold w_service_check in Hc.
  destruct (run_service w_service_ops service_new ∅) as [[s fs]|] eqn:Hrun; [|discriminate Hc].
  apply andb_true_iff in Hc as [Hc _]. apply andb_true_iff in Hc as [Hc _].
  apply bool_decide_eq_true_1 in Hc.
  pose proof (run_service_reach _ _ _ _ _ (sreach_new ∅) Hrun) as Hreach.
  exists s, fs. split; [exact Hreach|]. split; [exact Hc|].
  exact (proj1 (every_file_has_one_writer s fs Hreach) {| wh_id := "workspace-63" |} "workspace-61" Hc).
Defined.

(** The first name is taken by a log that was left behind. *)
Definition w_left_behind : FileSys := {[(true, ["srv"; "workspace-1.bin.log"]) := ""]}.

Lemma free_name_is_found_witness :
  ∃ r s', next_available_workspace_ref 2 (with_local_workspace_root w_root) [] w_left_behind
      = (Done (Some (inr r), s'), [], w_left_behind) ∧
    free_ref (with_local_workspace_root w_root) r w_left_behind.
Proof.
  exact (proj2 (free_name_is_found 2 (with_local_workspace_root w_root) w_left_behind
    ltac:(vm_compute; discriminate) ltac:(vm_compute; reflexivity) ltac:(vm_compute; lia))
    w_root eq_refl).
Defined.

(** Asked for any name it creates the second. *)
Definition w_creation : WorkspaceCreateRequest :=
  {| wcq_mode := WcmLocalAutocommit; wcq_workspace := None; wcq_format := DurJson |}.
Definition w_second : WorkspaceRef := {| wref_id := "workspace-2" |}.
Definition w_creation_check : bool :=
  match create_workspace 2 w_tags (Some "a") w_creation (with_local_workspace_root w_root) []
          w_left_behind with
  | (Done (Some (inr response), _), _, _) =>
      bool_decide (wref_id <$> wcs_workspace response = Some "workspace-2")
  | _ => false
  end.

Lemma create_only_adds_witness :
  ∃ response s' fl' fs',
    create_workspace 2 w_tags (Some "a") w_creation (with_local_workspace_root w_root) [] w_left_behind
      = (Done (Some (inr response), s'), fl', fs') ∧
    w_left_behind ⊆ fs' ∧
    ∃ root, local_workspace_root (with_local_workspace_root w_root) = Some root ∧
      w_left_behind !! file_key (workspace_file root w_second DurJson) = None ∧
      is_Some (fs' !! file_key (workspace_file root w_second DurJson)).
Proof.
  assert (w_creation_check = true) as Hc by (vm_compute; reflexivity). unfold w_creation_check in Hc.
  pose proof (create_only_adds 2 w_tags (Some "a") w_creation (with_local_workspace_root w_root)
    w_left_behind []) as Hadds.
  destruct (create_workspace 2 w_tags (Some "a") w_creation (with_local_workspace_root w_root) []
              w_left_behind) as [[[[[[e|response]|] s']|e|] fl'] fs']; try discriminate Hc.
  apply bool_decide_eq_true_1 in Hc. destruct Hadds as (Hsub & _ & Hnew).
  exists response, s', fl', fs'. split; [reflexivity|]. split; [exact Hsub|].
  apply (Hnew response s' w_second eq_refl).
  destruct (wcs_workspace response) as [[id]|]; [injection Hc as ->; reflexivity|discriminate Hc].
Defined.
End service_witnesses.
