(* ===== verification/Wire.v ===== *)
(** * Messages on the wire ([src/grm-service-api/src/lib.rs])

    The messages of [proto/grm/service/v1/*.proto], as [prost] presents them to
    the program: a message field is an [option], an enum is the number it was
    sent as, a [oneof] is an [option] of its variants.  The handler converts a
    request from its message and the response into one; the client does the
    reverse.  The bytes of a message are [prost]'s. *)

From S2P Require Export Service.

Local Open Scope string_scope.
Local Open Scope Z_scope.

(** ** Messages *)

Inductive ProtoKind :=
  | KindStringValue (value : string)
  | KindIntValue (value : Z)
  | KindFloatValue (value : f64)
  | KindBoolValue (value : bool)
  | KindBytesValue (value : string)
  | KindDecimalValue (value : string)
  | KindDateValue (value : string)
  | KindDatetimeValue (value : string)
  | KindDurationValue (value : string)
  | KindUuidValue (value : string).
Record ProtoPropertyValue := { pbv_kind : option ProtoKind }.
Record ProtoProperty := { pbp_name : string; pbp_value : option ProtoPropertyValue }.
Record ProtoPropertyMap := { pbm_properties : list ProtoProperty }.
Record ProtoFieldSpec := { pbf_name : string; pbf_value_type : Z; pbf_required : bool }.

Record ProtoDefineNodeRequest := {
  pdn_name : string; pdn_id_field : string; pdn_fields : list ProtoFieldSpec }.
Record ProtoDefineEdgeRequest := {
  pde_name : string; pde_from_model : string; pde_to_model : string; pde_id_field : string;
  pde_fields : list ProtoFieldSpec }.
Record ProtoNodeCreateRequest := { pnc_model : string; pnc_props : option ProtoPropertyMap }.
Record ProtoNodeUpdateRequest := {
  pnu_model : string; pnu_id : Z; pnu_props : option ProtoPropertyMap }.
Record ProtoNodeDeleteRequest := { pnd_model : string; pnd_id : Z }.
Record ProtoEdgeCreateRequest := {
  pec_model : string; pec_from : Z; pec_to : Z; pec_props : option ProtoPropertyMap }.
Record ProtoEdgeUpdateRequest := {
  peu_model : string; peu_id : Z; peu_props : option ProtoPropertyMap }.
Record ProtoEdgeDeleteRequest := { ped_model : string; ped_id : Z }.
Record ProtoPropertyPredicate := {
  ppp_field : string; ppp_op : Z; ppp_value : option ProtoPropertyValue }.
Record ProtoOrderSpec := { pos_field : string; pos_direction : Z }.
Record ProtoTraversalStep := {
  pts_direction : Z; pts_edge_model : option string; pts_end_model : string }.

(** [NodeFindRequest] and [NodeFindShape], [EdgeFindRequest] and [EdgeFindShape]
    have the same fields. *)
Record ProtoNodeFind := {
  pnf_model : string;
  pnf_predicates : list ProtoPropertyPredicate;
  pnf_end_predicates : list ProtoPropertyPredicate;
  pnf_edge_predicates : list ProtoPropertyPredicate;
  pnf_traversals : list ProtoTraversalStep;
  pnf_order : list ProtoOrderSpec;
  pnf_limit : option N;
  pnf_offset : option N;
  pnf_id : option Z;
  pnf_return_mode : option Z;
}.
Record ProtoEdgeFind := {
  pef_model : string;
  pef_predicates : list ProtoPropertyPredicate;
  pef_order : list ProtoOrderSpec;
  pef_limit : option N;
  pef_offset : option N;
  pef_id : option Z;
  pef_from : option Z;
  pef_to : option Z;
}.
Record ProtoTraversalRequest := { ptr_root : option ProtoNodeFind }.
Inductive ProtoQuery :=
  | QNodeFind (shape : ProtoNodeFind)
  | QEdgeFind (shape : ProtoEdgeFind)
  | QTraversal (request : ProtoTraversalRequest).
Record ProtoQueryRequest := { pq_query : option ProtoQuery }.
(** [ExplainRequest] and [ProfileRequest] *)
Record ProtoExplainRequest := { pex_query : option ProtoQueryRequest }.

Record ProtoBatchNodeCreate := {
  bnc_model : string; bnc_props : option ProtoPropertyMap; bnc_local_ref : option string }.
Inductive ProtoEndpoint := EndId (id : Z) | EndLocalRef (local_ref : string).
Record ProtoBatchEndpoint := { pbe_endpoint : option ProtoEndpoint }.
Record ProtoBatchEdgeCreate := {
  bec_model : string; bec_from : option ProtoBatchEndpoint; bec_to : option ProtoBatchEndpoint;
  bec_props : option ProtoPropertyMap }.
Inductive ProtoBatchOp :=
  | PbSchemaDefineNode (request : ProtoDefineNodeRequest)
  | PbSchemaDefineEdge (request : ProtoDefineEdgeRequest)
  | PbNodeCreate (request : ProtoBatchNodeCreate)
  | PbNodeUpdate (request : ProtoNodeUpdateRequest)
  | PbNodeDelete (request : ProtoNodeDeleteRequest)
  | PbEdgeCreate (request : ProtoBatchEdgeCreate)
  | PbEdgeUpdate (request : ProtoEdgeUpdateRequest)
  | PbEdgeDelete (request : ProtoEdgeDeleteRequest).
Record ProtoBatchOperation := { pbo_op : option ProtoBatchOp }.
Record ProtoBatchRequest := {
  pbr_atomic : bool; pbr_allow_deletes : bool; pbr_response_mode : Z;
  pbr_ops : list ProtoBatchOperation }.

Record ProtoSnapshotHandle := { psh_id : string; psh_etag : string }.
Record ProtoSaveRequest := { psv_format : Z; psv_requested_snapshot_id : option string }.
Record ProtoLoadRequest := { pld_format : Z; pld_snapshot : option ProtoSnapshotHandle }.
Record ProtoExportRequest := { pxp_snapshot : option ProtoSnapshotHandle }.
Record ProtoImportRequest := { pim_document : string; pim_format : Z }.

(** [runtime_request::Request] *)
Inductive ProtoRequest :=
  | PrDefineNode (request : ProtoDefineNodeRequest)
  | PrDefineEdge (request : ProtoDefineEdgeRequest)
  | PrSchemaList
  | PrCreateNode (request : ProtoNodeCreateRequest)
  | PrUpdateNode (request : ProtoNodeUpdateRequest)
  | PrDeleteNode (request : ProtoNodeDeleteRequest)
  | PrFindNodes (request : ProtoNodeFind)
  | PrCreateEdge (request : ProtoEdgeCreateRequest)
  | PrUpdateEdge (request : ProtoEdgeUpdateRequest)
  | PrDeleteEdge (request : ProtoEdgeDeleteRequest)
  | PrFindEdges (request : ProtoEdgeFind)
  | PrQuery (request : ProtoQueryRequest)
  | PrExplain (request : ProtoExplainRequest)
  | PrProfile (request : ProtoExplainRequest)
  | PrApplyBatch (request : ProtoBatchRequest)
  | PrIndexList
  | PrSummary
  | PrSave (request : ProtoSaveRequest)
  | PrLoad (request : ProtoLoadRequest)
  | PrExport (request : ProtoExportRequest)
  | PrImport (request : ProtoImportRequest).
Record ProtoRuntimeRequest := { prq_request : option ProtoRequest }.

Record ProtoWorkspaceHandle := { pwh_id : string }.
Record ProtoWorkspaceRef := { pwr_id : string }.
Record ProtoWorkspaceCreateRequest := {
  pwc_mode : Z; pwc_workspace : option ProtoWorkspaceRef; pwc_format : Z }.
(** The responses of a creation and of an opening. *)
Record ProtoWorkspaceCreateResponse := {
  pwcr_handle : option ProtoWorkspaceHandle; pwcr_workspace : option ProtoWorkspaceRef }.
Record ProtoWorkspaceOpenRequest := {
  pwo_snapshot : option ProtoSnapshotHandle; pwo_format : Z;
  pwo_workspace : option ProtoWorkspaceRef }.
Record ProtoWorkspaceRuntimeRequest := {
  pwq_handle : option ProtoWorkspaceHandle; pwq_request : option ProtoRuntimeRequest }.
(** The request and the response of a close. *)
Record ProtoWorkspaceCloseRequest := { pwl_handle : option ProtoWorkspaceHandle }.

(** ** Errors and enums *)

Definition missing_proto_field (field : string) : GrmError :=
  Constraint ("missing required protobuf field '" +:+ field +:+ "'").
Definition unknown_proto_enum (enum_name : string) (value : Z) : GrmError :=
  Constraint ("unknown " +:+ enum_name +:+ " enum value " +:+ Z_to_string value).
Definition required {A} (o : option A) (field : string) : result A :=
  ok_or o (missing_proto_field field).

(** The numbers of the enums of the proto files. *)
Definition proto_field_value_type_from_service (value_type : SvcFieldValueType) : result Z :=
  match value_type with
  | SvcUnspecified => Err unspecified_error
  | SvcString => Ok 1 | SvcInt => Ok 2 | SvcFloat => Ok 3 | SvcBool => Ok 4 | SvcBytes => Ok 5
  | SvcDecimal => Ok 6 | SvcDate => Ok 7 | SvcDateTime => Ok 8 | SvcDuration => Ok 9 | SvcUuid => Ok 10
  end.
Definition proto_field_value_type (value : Z) : result SvcFieldValueType :=
  match value with
  | 0 => Ok SvcUnspecified
  | 1 => Ok SvcString | 2 => Ok SvcInt | 3 => Ok SvcFloat | 4 => Ok SvcBool | 5 => Ok SvcBytes
  | 6 => Ok SvcDecimal | 7 => Ok SvcDate | 8 => Ok SvcDateTime | 9 => Ok SvcDuration | 10 => Ok SvcUuid
  | _ => Err (unknown_proto_enum "FieldValueType" value)
  end.
Definition proto_predicate_op_from_service (op : SvcPredicateOp) : Z :=
  match op with
  | SvcEq => 0 | SvcNe => 1 | SvcGt => 2 | SvcGe => 3 | SvcLt => 4 | SvcLe => 5 | SvcContains => 6
  end.
Definition proto_predicate_op (value : Z) : result SvcPredicateOp :=
  match value with
  | 0 => Ok SvcEq | 1 => Ok SvcNe | 2 => Ok SvcGt | 3 => Ok SvcGe | 4 => Ok SvcLt | 5 => Ok SvcLe
  | 6 => Ok SvcContains
  | _ => Err (unknown_proto_enum "PredicateOp" value)
  end.
Definition proto_order_direction_from_service (direction : SvcOrderDirection) : Z :=
  match direction with SvcAsc => 0 | SvcDesc => 1 end.
Definition proto_order_direction (value : Z) : result SvcOrderDirection :=
  match value with
  | 0 => Ok SvcAsc | 1 => Ok SvcDesc
  | _ => Err (unknown_proto_enum "OrderDirection" value)
  end.
Definition proto_traversal_direction_from_service (direction : SvcTraversalDirection) : Z :=
  match direction with SvcOut => 0 | SvcIn => 1 | SvcBoth => 2 end.
Definition proto_traversal_direction (value : Z) : result SvcTraversalDirection :=
  match value with
  | 0 => Ok SvcOut | 1 => Ok SvcIn | 2 => Ok SvcBoth
  | _ => Err (unknown_proto_enum "TraversalDirection" value)
  end.
Definition proto_traversal_return_from_service (mode : SvcTraversalReturn) : Z :=
  match mode with SvcEnd => 0 | SvcRoot => 1 | SvcEdge => 2 end.
Definition proto_traversal_return (value : Z) : result SvcTraversalReturn :=
  match value with
  | 0 => Ok SvcEnd | 1 => Ok SvcRoot | 2 => Ok SvcEdge
  | _ => Err (unknown_proto_enum "TraversalReturn" value)
  end.
Definition proto_batch_response_mode_from_service (mode : BatchResponseMode) : Z :=
  match mode with SvcSummaryMode => 0 | SvcDetailedMode => 1 end.
Definition proto_batch_response_mode (value : Z) : result BatchResponseMode :=
  match value with
  | 0 => Ok SvcSummaryMode | 1 => Ok SvcDetailedMode
  | _ => Err (unknown_proto_enum "BatchResponseMode" value)
  end.
Definition proto_workspace_create_mode (value : Z) : result WorkspaceCreateMode :=
  match value with
  | 0 => Ok WcmInMemory | 1 => Ok WcmLocalAutocommit
  | _ => Err (unknown_proto_enum "WorkspaceCreateMode" value)
  end.
Definition proto_durability_format (value : Z) : result DurabilityFormat :=
  match value with
  | 0 => Ok DurJson | 1 => Ok DurBinary
  | _ => Err (unknown_proto_enum "DurabilityFormat" value)
  end.
Definition proto_durability_format_code (format : DurabilityFormat) : Z :=
  match format with DurJson => 0 | DurBinary => 1 end.

(** ** Requests *)

Definition field_spec_from_proto (field : ProtoFieldSpec) : result SvcFieldSpec :=
  value_type ← proto_field_value_type (pbf_value_type field);
  Ok {| sf_name := pbf_name field; sf_value_type := value_type; sf_required := pbf_required field |}.
Definition field_spec_to_proto (field : SvcFieldSpec) : result ProtoFieldSpec :=
  value_type ← proto_field_value_type_from_service (sf_value_type field);
  Ok {| pbf_name := sf_name field; pbf_value_type := value_type; pbf_required := sf_required field |}.

Definition define_node_from_proto (r : ProtoDefineNodeRequest) : result SvcDefineNodeRequest :=
  fields ← mapM field_spec_from_proto (pdn_fields r);
  Ok {| sdn_name := pdn_name r; sdn_id_field := pdn_id_field r; sdn_fields := fields |}.
Definition define_node_to_proto (r : SvcDefineNodeRequest) : result ProtoDefineNodeRequest :=
  fields ← mapM field_spec_to_proto (sdn_fields r);
  Ok {| pdn_name := sdn_name r; pdn_id_field := sdn_id_field r; pdn_fields := fields |}.
Definition define_edge_from_proto (r : ProtoDefineEdgeRequest) : result SvcDefineEdgeRequest :=
  fields ← mapM field_spec_from_proto (pde_fields r);
  Ok {| sde_name := pde_name r; sde_from_model := pde_from_model r; sde_to_model := pde_to_model r;
        sde_id_field := pde_id_field r; sde_fields := fields |}.
Definition define_edge_to_proto (r : SvcDefineEdgeRequest) : result ProtoDefineEdgeRequest :=
  fields ← mapM field_spec_to_proto (sde_fields r);
  Ok {| pde_name := sde_name r; pde_from_model := sde_from_model r; pde_to_model := sde_to_model r;
        pde_id_field := sde_id_field r; pde_fields := fields |}.

Definition kind_to_value (kind : ProtoKind) : PropertyValue :=
  match kind with
  | KindStringValue value => PvString value
  | KindIntValue value => PvInt value
  | KindFloatValue value => PvFloat value
  | KindBoolValue value => PvBool value
  | KindBytesValue value => PvBytes value
  | KindDecimalValue value => PvDecimal value
  | KindDateValue value => PvDate value
  | KindDatetimeValue value => PvDateTime value
  | KindDurationValue value => PvDuration value
  | KindUuidValue value => PvUuid value
  end.
Definition property_value_from_proto (value : ProtoPropertyValue) : result PropertyValue :=
  kind ← required (pbv_kind value) "PropertyValue.kind"; Ok (kind_to_value kind).
Definition property_value_to_proto (value : PropertyValue) : ProtoPropertyValue :=
  {| pbv_kind := Some match value with
     | PvString value => KindStringValue value
     | PvInt value => KindIntValue value
     | PvFloat value => KindFloatValue value
     | PvBool value => KindBoolValue value
     | PvBytes value => KindBytesValue value
     | PvDecimal value => KindDecimalValue value
     | PvDate value => KindDateValue value
     | PvDateTime value => KindDatetimeValue value
     | PvDuration value => KindDurationValue value
     | PvUuid value => KindUuidValue value
     end |}.

Definition property_from_proto (property : ProtoProperty) : result Property :=
  value ← required (pbp_value property) "Property.value";
  value ← property_value_from_proto value;
  Ok {| prop_name := pbp_name property; prop_value := value |}.
Definition property_to_proto (property : Property) : ProtoProperty :=
  {| pbp_name := prop_name property; pbp_value := Some (property_value_to_proto (prop_value property)) |}.
Definition property_map_from_proto (map : ProtoPropertyMap) : result PropertyMap :=
  Build_PropertyMap <$> mapM property_from_proto (pbm_properties map).
Definition property_map_to_proto (map : PropertyMap) : ProtoPropertyMap :=
  {| pbm_properties := property_to_proto <$> pm_properties map |}.
Definition proto_property_map_or_empty (map : option ProtoPropertyMap) : result PropertyMap :=
  match map with
  | Some map => property_map_from_proto map
  | None => Ok {| pm_properties := [] |}
  end.

Definition node_create_from_proto (r : ProtoNodeCreateRequest) : result SvcNodeCreateRequest :=
  props ← proto_property_map_or_empty (pnc_props r);
  Ok {| snc_model := pnc_model r; snc_props := props |}.
Definition node_create_to_proto (r : SvcNodeCreateRequest) : ProtoNodeCreateRequest :=
  {| pnc_model := snc_model r; pnc_props := Some (property_map_to_proto (snc_props r)) |}.
Definition node_update_from_proto (r : ProtoNodeUpdateRequest) : result SvcNodeUpdateRequest :=
  props ← proto_property_map_or_empty (pnu_props r);
  Ok {| snu_model := pnu_model r; snu_id := pnu_id r; snu_props := props |}.
Definition node_update_to_proto (r : SvcNodeUpdateRequest) : ProtoNodeUpdateRequest :=
  {| pnu_model := snu_model r; pnu_id := snu_id r;
     pnu_props := Some (property_map_to_proto (snu_props r)) |}.
Definition node_delete_from_proto (r : ProtoNodeDeleteRequest) : SvcNodeDeleteRequest :=
  {| snd_model := pnd_model r; snd_id := pnd_id r |}.
Definition node_delete_to_proto (r : SvcNodeDeleteRequest) : ProtoNodeDeleteRequest :=
  {| pnd_model := snd_model r; pnd_id := snd_id r |}.
Definition edge_create_from_proto (r : ProtoEdgeCreateRequest) : result SvcEdgeCreateRequest :=
  props ← proto_property_map_or_empty (pec_props r);
  Ok {| sec_model := pec_model r; sec_from := pec_from r; sec_to := pec_to r; sec_props := props |}.
Definition edge_create_to_proto (r : SvcEdgeCreateRequest) : ProtoEdgeCreateRequest :=
  {| pec_model := sec_model r; pec_from := sec_from r; pec_to := sec_to r;
     pec_props := Some (property_map_to_proto (sec_props r)) |}.
Definition edge_update_from_proto (r : ProtoEdgeUpdateRequest) : result SvcEdgeUpdateRequest :=
  props ← proto_property_map_or_empty (peu_props r);
  Ok {| seu_model := peu_model r; seu_id := peu_id r; seu_props := props |}.
Definition edge_update_to_proto (r : SvcEdgeUpdateRequest) : ProtoEdgeUpdateRequest :=
  {| peu_model := seu_model r; peu_id := seu_id r;
     peu_props := Some (property_map_to_proto (seu_props r)) |}.
Definition edge_delete_from_proto (r : ProtoEdgeDeleteRequest) : SvcEdgeDeleteRequest :=
  {| sed_model := ped_model r; sed_id := ped_id r |}.
Definition edge_delete_to_proto (r : SvcEdgeDeleteRequest) : ProtoEdgeDeleteRequest :=
  {| ped_model := sed_model r; ped_id := sed_id r |}.

Definition predicate_from_proto (p : ProtoPropertyPredicate) : result SvcPropertyPredicate :=
  op ← proto_predicate_op (ppp_op p);
  value ← required (ppp_value p) "PropertyPredicate.value";
  value ← property_value_from_proto value;
  Ok {| Api.sp_field := ppp_field p; Api.sp_op := op; Api.sp_value := value |}.
Definition predicate_to_proto (p : SvcPropertyPredicate) : ProtoPropertyPredicate :=
  {| ppp_field := Api.sp_field p; ppp_op := proto_predicate_op_from_service (Api.sp_op p);
     ppp_value := Some (property_value_to_proto (Api.sp_value p)) |}.
Definition order_from_proto (order : ProtoOrderSpec) : result SvcOrderSpec :=
  direction ← proto_order_direction (pos_direction order);
  Ok {| Api.so_field := pos_field order; Api.so_direction := direction |}.
Definition order_to_proto (order : SvcOrderSpec) : ProtoOrderSpec :=
  {| pos_field := Api.so_field order;
     pos_direction := proto_order_direction_from_service (Api.so_direction order) |}.
Definition step_from_proto (step : ProtoTraversalStep) : result SvcTraversalStep :=
  direction ← proto_traversal_direction (pts_direction step);
  Ok {| Api.st_direction := direction; Api.st_edge_model := pts_edge_model step;
        Api.st_end_model := pts_end_model step |}.
Definition step_to_proto (step : SvcTraversalStep) : ProtoTraversalStep :=
  {| pts_direction := proto_traversal_direction_from_service (Api.st_direction step);
     pts_edge_model := Api.st_edge_model step; pts_end_model := Api.st_end_model step |}.
Definition return_mode_from_proto (mode : option Z) : result (option SvcTraversalReturn) :=
  match mode with
  | None => Ok None
  | Some mode => Some <$> proto_traversal_return mode
  end.

Definition node_find_from_proto (r : ProtoNodeFind) : result NodeFindShape :=
  predicates ← mapM predicate_from_proto (pnf_predicates r);
  end_predicates ← mapM predicate_from_proto (pnf_end_predicates r);
  edge_predicates ← mapM predicate_from_proto (pnf_edge_predicates r);
  traversals ← mapM step_from_proto (pnf_traversals r);
  order ← mapM order_from_proto (pnf_order r);
  return_mode ← return_mode_from_proto (pnf_return_mode r);
  Ok {| snf_model := pnf_model r; snf_predicates := predicates;
        snf_end_predicates := end_predicates; snf_edge_predicates := edge_predicates;
        snf_traversals := traversals; snf_order := order; snf_limit := pnf_limit r;
        snf_offset := pnf_offset r; snf_id := pnf_id r; snf_return_mode := return_mode |}.
Definition node_find_to_proto (r : NodeFindShape) : ProtoNodeFind :=
  {| pnf_model := snf_model r; pnf_predicates := predicate_to_proto <$> snf_predicates r;
     pnf_end_predicates := predicate_to_proto <$> snf_end_predicates r;
     pnf_edge_predicates := predicate_to_proto <$> snf_edge_predicates r;
     pnf_traversals := step_to_proto <$> snf_traversals r;
     pnf_order := order_to_proto <$> snf_order r; pnf_limit := snf_limit r;
     pnf_offset := snf_offset r; pnf_id := snf_id r;
     pnf_return_mode := proto_traversal_return_from_service <$> snf_return_mode r |}.
Definition edge_find_from_proto (r : ProtoEdgeFind) : result EdgeFindShape :=
  predicates ← mapM predicate_from_proto (pef_predicates r);
  order ← mapM order_from_proto (pef_order r);
  Ok {| sef_model := pef_model r; sef_predicates := predicates; sef_order := order;
        sef_limit := pef_limit r; sef_offset := pef_offset r; sef_id := pef_id r;
        sef_from := pef_from r; sef_to := pef_to r |}.
Definition edge_find_to_proto (r : EdgeFindShape) : ProtoEdgeFind :=
  {| pef_model := sef_model r; pef_predicates := predicate_to_proto <$> sef_predicates r;
     pef_order := order_to_proto <$> sef_order r; pef_limit := sef_limit r;
     pef_offset := sef_offset r; pef_id := sef_id r; pef_from := sef_from r; pef_to := sef_to r |}.

Definition query_from_proto (r : ProtoQueryRequest) : result SvcQuery :=
  query ← required (pq_query r) "QueryRequest.query";
  match query with
  | QNodeFind shape => SvcNodeFind <$> node_find_from_proto shape
  | QEdgeFind shape => SvcEdgeFind <$> edge_find_from_proto shape
  | QTraversal request =>
      root ← required (ptr_root request) "TraversalRequest.root";
      SvcTraversal <$> node_find_from_proto root
  end.
Definition query_to_proto (query : SvcQuery) : ProtoQueryRequest :=
  {| pq_query := Some match query with
     | SvcNodeFind shape => QNodeFind (node_find_to_proto shape)
     | SvcEdgeFind shape => QEdgeFind (edge_find_to_proto shape)
     | SvcTraversal root => QTraversal {| ptr_root := Some (node_find_to_proto root) |}
     end |}.
(** [field] is the name of the message the query is in. *)
Definition explain_from_proto (field : string) (r : ProtoExplainRequest) : result SvcQuery :=
  query ← required (pex_query r) field; query_from_proto query.
Definition explain_to_proto (query : SvcQuery) : ProtoExplainRequest :=
  {| pex_query := Some (query_to_proto query) |}.

(** *** Batches *)

Definition endpoint_from_proto (endpoint : ProtoBatchEndpoint) : result BatchEndpoint :=
  endpoint ← required (pbe_endpoint endpoint) "BatchEndpoint.endpoint";
  Ok match endpoint with EndId id => SvcId id | EndLocalRef r => SvcLocalRef r end.
Definition endpoint_to_proto (endpoint : BatchEndpoint) : ProtoBatchEndpoint :=
  {| pbe_endpoint := Some match endpoint with
                          | SvcId id => EndId id
                          | SvcLocalRef r => EndLocalRef r
                          end |}.

Definition batch_node_create_from_proto (r : ProtoBatchNodeCreate) : result BatchOperation :=
  props ← proto_property_map_or_empty (bnc_props r);
  Ok (OpNodeCreate (bnc_model r) props (bnc_local_ref r)).
Definition batch_edge_create_from_proto (r : ProtoBatchEdgeCreate) : result BatchOperation :=
  from ← required (bec_from r) "BatchEdgeCreate.from";
  from ← endpoint_from_proto from;
  to ← required (bec_to r) "BatchEdgeCreate.to";
  to ← endpoint_from_proto to;
  props ← proto_property_map_or_empty (bec_props r);
  Ok (OpEdgeCreate (bec_model r) from to props).

Definition batch_operation_from_proto (op : ProtoBatchOperation) : result BatchOperation :=
  op ← required (pbo_op op) "BatchOperation.op";
  match op with
  | PbSchemaDefineNode r => OpSchemaDefineNode <$> define_node_from_proto r
  | PbSchemaDefineEdge r => OpSchemaDefineEdge <$> define_edge_from_proto r
  | PbNodeCreate r => batch_node_create_from_proto r
  | PbNodeUpdate r => OpNodeUpdate <$> node_update_from_proto r
  | PbNodeDelete r => Ok (OpNodeDelete (node_delete_from_proto r))
  | PbEdgeCreate r => batch_edge_create_from_proto r
  | PbEdgeUpdate r => OpEdgeUpdate <$> edge_update_from_proto r
  | PbEdgeDelete r => Ok (OpEdgeDelete (edge_delete_from_proto r))
  end.
Definition batch_operation_to_proto (op : BatchOperation) : result ProtoBatchOperation :=
  (λ op, {| pbo_op := Some op |}) <$>
  match op with
  | OpSchemaDefineNode r => PbSchemaDefineNode <$> define_node_to_proto r
  | OpSchemaDefineEdge r => PbSchemaDefineEdge <$> define_edge_to_proto r
  | OpNodeCreate model props local_ref =>
      Ok (PbNodeCreate {| bnc_model := model; bnc_props := Some (property_map_to_proto props);
                          bnc_local_ref := local_ref |})
  | OpNodeUpdate r => Ok (PbNodeUpdate (node_update_to_proto r))
  | OpNodeDelete r => Ok (PbNodeDelete (node_delete_to_proto r))
  | OpEdgeCreate model from to props =>
      Ok (PbEdgeCreate {| bec_model := model; bec_from := Some (endpoint_to_proto from);
                          bec_to := Some (endpoint_to_proto to);
                          bec_props := Some (property_map_to_proto props) |})
  | OpEdgeUpdate r => Ok (PbEdgeUpdate (edge_update_to_proto r))
  | OpEdgeDelete r => Ok (PbEdgeDelete (edge_delete_to_proto r))
  end.
Definition batch_from_proto (r : ProtoBatchRequest) : result SvcBatchRequest :=
  response_mode ← proto_batch_response_mode (pbr_response_mode r);
  ops ← mapM batch_operation_from_proto (pbr_ops r);
  Ok {| sb_atomic := pbr_atomic r; sb_allow_deletes := pbr_allow_deletes r;
        sb_response_mode := response_mode; sb_ops := ops |}.
Definition batch_to_proto (r : SvcBatchRequest) : result ProtoBatchRequest :=
  ops ← mapM batch_operation_to_proto (sb_ops r);
  Ok {| pbr_atomic := sb_atomic r; pbr_allow_deletes := sb_allow_deletes r;
        pbr_response_mode := proto_batch_response_mode_from_service (sb_response_mode r);
        pbr_ops := ops |}.

(** *** Snapshots *)

Definition snapshot_from_proto (snapshot : ProtoSnapshotHandle) : SnapshotHandle :=
  {| sh_id := psh_id snapshot; sh_etag := psh_etag snapshot |}.
Definition snapshot_to_proto (snapshot : SnapshotHandle) : ProtoSnapshotHandle :=
  {| psh_id := sh_id snapshot; psh_etag := sh_etag snapshot |}.
Definition save_from_proto (r : ProtoSaveRequest) : result ServiceRequest :=
  format ← proto_durability_format (psv_format r);
  Ok (SrvSave format (psv_requested_snapshot_id r)).
Definition load_from_proto (r : ProtoLoadRequest) : result ServiceRequest :=
  format ← proto_durability_format (pld_format r);
  snapshot ← required (pld_snapshot r) "LoadRequest.snapshot";
  Ok (SrvLoad format (snapshot_from_proto snapshot)).
Definition export_from_proto (r : ProtoExportRequest) : result ServiceRequest :=
  snapshot ← required (pxp_snapshot r) "ExportRequest.snapshot";
  Ok (SrvExport (snapshot_from_proto snapshot)).
Definition import_from_proto (r : ProtoImportRequest) : result ServiceRequest :=
  format ← proto_durability_format (pim_format r);
  Ok (SrvImport (pim_document r) format).

(** *** A request *)

(** [TryFrom<proto::RuntimeRequest> for ServiceRequest] *)
Definition service_request_from_proto (r : ProtoRuntimeRequest) : result ServiceRequest :=
  request ← required (prq_request r) "RuntimeRequest.request";
  match request with
  | PrDefineNode r => SrvDefineNode <$> define_node_from_proto r
  | PrDefineEdge r => SrvDefineEdge <$> define_edge_from_proto r
  | PrSchemaList => Ok SrvSchemaList
  | PrCreateNode r => SrvCreateNode <$> node_create_from_proto r
  | PrUpdateNode r => SrvUpdateNode <$> node_update_from_proto r
  | PrDeleteNode r => Ok (SrvDeleteNode (node_delete_from_proto r))
  | PrFindNodes r => SrvFindNodes <$> node_find_from_proto r
  | PrCreateEdge r => SrvCreateEdge <$> edge_create_from_proto r
  | PrUpdateEdge r => SrvUpdateEdge <$> edge_update_from_proto r
  | PrDeleteEdge r => Ok (SrvDeleteEdge (edge_delete_from_proto r))
  | PrFindEdges r => SrvFindEdges <$> edge_find_from_proto r
  | PrQuery r => SrvQuery <$> query_from_proto r
  | PrExplain r => SrvExplain <$> explain_from_proto "ExplainRequest.query" r
  | PrProfile r => SrvProfile <$> explain_from_proto "ProfileRequest.query" r
  | PrApplyBatch r => SrvApplyBatch <$> batch_from_proto r
  | PrIndexList => Ok SrvIndexList
  | PrSummary => Ok SrvSummary
  | PrSave r => save_from_proto r
  | PrLoad r => load_from_proto r
  | PrExport r => export_from_proto r
  | PrImport r => import_from_proto r
  end.

Definition proto_runtime_request_from_service_request (request : ServiceRequest)
    : result ProtoRequest :=
  match request with
  | SrvDefineNode r => PrDefineNode <$> define_node_to_proto r
  | SrvDefineEdge r => PrDefineEdge <$> define_edge_to_proto r
  | SrvSchemaList => Ok PrSchemaList
  | SrvCreateNode r => Ok (PrCreateNode (node_create_to_proto r))
  | SrvUpdateNode r => Ok (PrUpdateNode (node_update_to_proto r))
  | SrvDeleteNode r => Ok (PrDeleteNode (node_delete_to_proto r))
  | SrvFindNodes r => Ok (PrFindNodes (node_find_to_proto r))
  | SrvCreateEdge r => Ok (PrCreateEdge (edge_create_to_proto r))
  | SrvUpdateEdge r => Ok (PrUpdateEdge (edge_update_to_proto r))
  | SrvDeleteEdge r => Ok (PrDeleteEdge (edge_delete_to_proto r))
  | SrvFindEdges r => Ok (PrFindEdges (edge_find_to_proto r))
  | SrvExplain q => Ok (PrExplain (explain_to_proto q))
  | SrvProfile q => Ok (PrProfile (explain_to_proto q))
  | SrvApplyBatch r => PrApplyBatch <$> batch_to_proto r
  | SrvSummary => Ok PrSummary
  | SrvQuery _ | SrvSave _ _ | SrvLoad _ _ | SrvExport _ | SrvImport _ _ | SrvIndexList =>
      Err (NotSupported "GrpcWorkspaceClient ergonomic helpers currently support schema/CRUD/find/explain/profile/batch/summary through ExecuteWorkspace")
  end.

(** *** Requests of workspaces *)

Definition handle_from_proto (handle : ProtoWorkspaceHandle) : WorkspaceHandle :=
  {| wh_id := pwh_id handle |}.
Definition handle_to_proto (handle : WorkspaceHandle) : ProtoWorkspaceHandle :=
  {| pwh_id := wh_id handle |}.
Definition ref_from_proto (workspace : ProtoWorkspaceRef) : WorkspaceRef :=
  {| wref_id := pwr_id workspace |}.
Definition ref_to_proto (workspace : WorkspaceRef) : ProtoWorkspaceRef :=
  {| pwr_id := wref_id workspace |}.
Definition create_from_proto (r : ProtoWorkspaceCreateRequest) : result WorkspaceCreateRequest :=
  mode ← proto_workspace_create_mode (pwc_mode r);
  format ← proto_durability_format (pwc_format r);
  Ok {| wcq_mode := mode; wcq_workspace := ref_from_proto <$> pwc_workspace r; wcq_format := format |}.
Definition open_from_proto (r : ProtoWorkspaceOpenRequest) : result WorkspaceOpenRequest :=
  format ← proto_durability_format (pwo_format r);
  Ok {| woq_snapshot := snapshot_from_proto <$> pwo_snapshot r;
        woq_workspace := ref_from_proto <$> pwo_workspace r; woq_format := format |}.
Definition close_from_proto (r : ProtoWorkspaceCloseRequest) : result WorkspaceCloseRequest :=
  handle ← required (pwl_handle r) "WorkspaceCloseRequest.handle";
  Ok {| wlq_handle := handle_from_proto handle |}.
Definition runtime_request_from_proto (r : ProtoWorkspaceRuntimeRequest)
    : result WorkspaceRuntimeRequest :=
  handle ← required (pwq_handle r) "WorkspaceRuntimeRequest.handle";
  request ← required (pwq_request r) "WorkspaceRuntimeRequest.request";
  request ← service_request_from_proto request;
  Ok {| wrq_handle := handle_from_proto handle; wrq_request := request |}.
Definition create_response_to_proto (r : WorkspaceCreateResponse) : ProtoWorkspaceCreateResponse :=
  {| pwcr_handle := Some (handle_to_proto (wcs_handle r));
     pwcr_workspace := ref_to_proto <$> wcs_workspace r |}.
Definition open_response_to_proto (r : WorkspaceOpenResponse) : ProtoWorkspaceCreateResponse :=
  {| pwcr_handle := Some (handle_to_proto (wos_handle r));
     pwcr_workspace := ref_to_proto <$> wos_workspace r |}.
Definition close_response_to_proto (r : WorkspaceCloseResponse) : ProtoWorkspaceCloseRequest :=
  {| pwl_handle := Some (handle_to_proto (wls_handle r)) |}.

(** ** The requests are read as they were sent *)

Lemma mapM_read {A B} (f : A → result B) (g : B → result A) l k :
  (∀ a b, f a = Ok b → g b = Ok a) → mapM f l = Ok k → mapM g k = Ok l.
Proof.
  intros Hfg Hk%mapM_Ok. apply mapM_Ok. induction Hk; constructor; auto.
Qed.

Lemma mapM_fmap_read {A B} (f : A → B) (g : B → result A) l :
  (∀ a, g (f a) = Ok a) → mapM g (f <$> l) = Ok l.
Proof. intros Hfg. apply mapM_Ok. induction l; constructor; auto. Qed.

Lemma field_type_read t c : proto_field_value_type_from_service t = Ok c → proto_field_value_type c = Ok t.
Proof. by destruct t; intros [= <-]. Qed.
Lemma predicate_op_read op : proto_predicate_op (proto_predicate_op_from_service op) = Ok op.
Proof. by destruct op. Qed.
Lemma value_read v : property_value_from_proto (property_value_to_proto v) = Ok v.
Proof. by destruct v. Qed.
Lemma property_read p : property_from_proto (property_to_proto p) = Ok p.
Proof. destruct p as [name v]. unfold property_from_proto. cbn. by destruct v. Qed.
Lemma props_read m : proto_property_map_or_empty (Some (property_map_to_proto m)) = Ok m.
Proof.
  destruct m as [ps]. cbn. unfold property_map_from_proto. cbn.
  by rewrite (mapM_fmap_read _ _ _ property_read).
Qed.
Lemma predicate_read p : predicate_from_proto (predicate_to_proto p) = Ok p.
Proof. destruct p as [f op v]. unfold predicate_from_proto. cbn. rewrite predicate_op_read. by destruct v. Qed.
Lemma order_read o : order_from_proto (order_to_proto o) = Ok o.
Proof. by destruct o as [f []]. Qed.
Lemma step_read s : step_from_proto (step_to_proto s) = Ok s.
Proof. by destruct s as [[] ? ?]. Qed.
Lemma endpoint_read e : endpoint_from_proto (endpoint_to_proto e) = Ok e.
Proof. by destruct e. Qed.

Lemma field_read f pf : field_spec_to_proto f = Ok pf → field_spec_from_proto pf = Ok f.
Proof.
  destruct f as [name t req]. unfold field_spec_to_proto. intros (c & Hc & [= <-])%bind_Ok.
  unfold field_spec_from_proto. cbn. by rewrite (field_type_read _ _ Hc).
Qed.
Lemma define_node_read r pr : define_node_to_proto r = Ok pr → define_node_from_proto pr = Ok r.
Proof.
  destruct r as [name id fs]. unfold define_node_to_proto. intros (pfs & Hf & [= <-])%bind_Ok.
  unfold define_node_from_proto. cbn. by rewrite (mapM_read _ _ _ _ field_read Hf).
Qed.
Lemma define_edge_read r pr : define_edge_to_proto r = Ok pr → define_edge_from_proto pr = Ok r.
Proof.
  destruct r as [name f t id fs]. unfold define_edge_to_proto. intros (pfs & Hf & [= <-])%bind_Ok.
  unfold define_edge_from_proto. cbn. by rewrite (mapM_read _ _ _ _ field_read Hf).
Qed.

Lemma node_create_read r : node_create_from_proto (node_create_to_proto r) = Ok r.
Proof. destruct r. unfold node_create_from_proto. cbn [pnc_props node_create_to_proto]. by rewrite props_read. Qed.
Lemma node_update_read r : node_update_from_proto (node_update_to_proto r) = Ok r.
Proof. destruct r. unfold node_update_from_proto. cbn [pnu_props node_update_to_proto]. by rewrite props_read. Qed.
Lemma edge_create_read r : edge_create_from_proto (edge_create_to_proto r) = Ok r.
Proof. destruct r. unfold edge_create_from_proto. cbn [pec_props edge_create_to_proto]. by rewrite props_read. Qed.
Lemma edge_update_read r : edge_update_from_proto (edge_update_to_proto r) = Ok r.
Proof. destruct r. unfold edge_update_from_proto. cbn [peu_props edge_update_to_proto]. by rewrite props_read. Qed.

Lemma node_find_read r : node_find_from_proto (node_find_to_proto r) = Ok r.
Proof.
  destruct r as [m ps es rs ts os l o i rm]. unfold node_find_from_proto. cbn.
  rewrite !(mapM_fmap_read _ _ _ predicate_read), (mapM_fmap_read _ _ _ step_read),
    (mapM_fmap_read _ _ _ order_read). by destruct rm as [[]|].
Qed.
Lemma edge_find_read r : edge_find_from_proto (edge_find_to_proto r) = Ok r.
Proof.
  destruct r. unfold edge_find_from_proto. cbn.
  by rewrite (mapM_fmap_read _ _ _ predicate_read), (mapM_fmap_read _ _ _ order_read).
Qed.
Lemma query_read q : query_from_proto (query_to_proto q) = Ok q.
Proof.
  unfold query_from_proto. destruct q; cbn [query_to_proto pq_query required ok_or mbind result_bind ptr_root];
    by rewrite ?node_find_read, ?edge_find_read.
Qed.
Lemma explain_read field q : explain_from_proto field (explain_to_proto q) = Ok q.
Proof. apply query_read. Qed.

Lemma batch_operation_read op pop : batch_operation_to_proto op = Ok pop → batch_operation_from_proto pop = Ok op.
Proof.
  unfold batch_operation_to_proto. intros (? & Ho & <-)%fmap_Ok; destruct op;
    try (apply fmap_Ok in Ho as (? & Ho & <-)); try (injection Ho as <-);
    unfold batch_operation_from_proto, batch_node_create_from_proto, batch_edge_create_from_proto;
    cbn [pbo_op required ok_or mbind result_bind bnc_props bec_from bec_to bec_props bnc_model
         bnc_local_ref bec_model].
  - by rewrite (define_node_read _ _ Ho).
  - by rewrite (define_edge_read _ _ Ho).
  - by rewrite props_read.
  - by rewrite node_update_read.
  - by destruct request.
  - rewrite endpoint_read. cbn [mbind result_bind]. rewrite endpoint_read. cbn [mbind result_bind].
    by rewrite props_read.
  - by rewrite edge_update_read.
  - by destruct request.
Qed.
Lemma batch_read r pr : batch_to_proto r = Ok pr → batch_from_proto pr = Ok r.
Proof.
  destruct r as [a d m ops]. unfold batch_to_proto. intros (pops & Ho & [= <-])%bind_Ok.
  unfold batch_from_proto. cbn [pbr_response_mode pbr_ops sb_response_mode].
  rewrite (mapM_read _ _ _ _ batch_operation_read Ho). by destruct m.
Qed.

Lemma service_request_read s m :
  proto_runtime_request_from_service_request s = Ok m →
  service_request_from_proto {| prq_request := Some m |} = Ok s.
Proof.
  intros Hm. destruct s; cbn [proto_runtime_request_from_service_request] in Hm; try discriminate Hm;
    try (apply fmap_Ok in Hm as (? & Hm & <-)); try (injection Hm as <-);
    unfold service_request_from_proto; cbn [prq_request required ok_or mbind result_bind].
  all: rewrite ?node_create_read, ?node_update_read, ?edge_create_read, ?edge_update_read,
    ?node_find_read, ?edge_find_read, ?explain_read; try done.
  all: try (by rewrite ?(define_node_read _ _ Hm), ?(define_edge_read _ _ Hm), ?(batch_read _ _ Hm)).
  all: try (by rewrite (define_edge_read _ _ Hm)); try (by rewrite (batch_read _ _ Hm)); by destruct request.
Qed.

(** ** Response messages *)

Record ProtoNodeModel := {
  pnm_name : string; pnm_label : string; pnm_id_field_name : string; pnm_id_type : Z;
  pnm_fields : list ProtoFieldSpec }.
Record ProtoEdgeModel := {
  pem_name : string; pem_rel_type : string; pem_from_model : string; pem_to_model : string;
  pem_id_field_name : string; pem_id_type : Z; pem_fields : list ProtoFieldSpec }.
Record ProtoStoredNode := {
  psn_id : Z; psn_labels : list string; psn_props : option ProtoPropertyMap }.
Record ProtoStoredEdge := {
  pse_id : Z; pse_rel_type : string; pse_from : Z; pse_to : Z;
  pse_props : option ProtoPropertyMap }.
Record ProtoDeleteResult := { pdl_model : string; pdl_id : Z }.

(** A [DurableOperation] message, its [DurableOperationBatch] inside. *)
Inductive ProtoDurableOperation :=
  | Build_ProtoDurableOperation (operation : option ProtoOperation)
with ProtoOperation :=
  | PoRegisterNodeModel (model : ProtoNodeModel)
  | PoRegisterEdgeModel (model : ProtoEdgeModel)
  | PoUpsertNode (node : ProtoStoredNode)
  | PoDeleteNodeId (id : Z)
  | PoUpsertEdge (edge : ProtoStoredEdge)
  | PoDeleteEdgeId (id : Z)
  | PoBatch (ops : list ProtoDurableOperation).
Record ProtoDurableMutationOutcome := {
  pdm_durable_ops : list ProtoDurableOperation;
  pdm_durable_op_count : Z;
  pdm_has_durable_mutation : bool }.

Record ProtoSchemaListResponse := {
  psl_node_models : list ProtoNodeModel; psl_edge_models : list ProtoEdgeModel;
  psl_backend_id_type : Z }.
Record ProtoNodeFindResponse := {
  pnr_model : string; pnr_nodes : list ProtoStoredNode; pnr_edges : list ProtoStoredEdge }.
Record ProtoEdgeFindResponse := { per_model : string; per_edges : list ProtoStoredEdge }.
Record ProtoExplainResponse := {
  pxr_plan_kind : string; pxr_steps : list string; pxr_indexes : list string }.
Record ProtoProfileResponse := {
  ppr_plan : option ProtoExplainResponse; ppr_row_count : Z; ppr_elapsed_micros : Z }.
Record ProtoBatchCount := { pbc_op : string; pbc_model : string; pbc_count : Z }.
Record ProtoBatchError := { per_index : Z; per_message : string; per_recovery_hint : string }.
Record ProtoBatchAppliedId := {
  pai_op : string; pai_model : string; pai_id : Z; pai_local_ref : option string }.
Record ProtoBatchResponse := {
  pbs_applied : bool; pbs_atomic : bool; pbs_operation_count : Z;
  pbs_counts : list ProtoBatchCount; pbs_errors : list ProtoBatchError;
  pbs_ids : list ProtoBatchAppliedId; pbs_durability : option ProtoDurableMutationOutcome }.
Record ProtoModelCount := { pmc_model : string; pmc_count : nat }.
Record ProtoSummaryResponse := {
  psr_node_count : nat; psr_edge_count : nat; psr_node_model_count : nat;
  psr_edge_model_count : nat; psr_backend : string;
  psr_node_counts : list ProtoModelCount; psr_edge_counts : list ProtoModelCount }.

(** The messages of the mutations: what was made or deleted, and its durable
    operations. *)
Record ProtoMutated (A : Type) := {
  pmu_value : option A; pmu_durability : option ProtoDurableMutationOutcome }.
Arguments pmu_value {_}.
Arguments pmu_durability {_}.
Arguments Build_ProtoMutated {_}.

(** [runtime_response::Response], the variants a handler makes. *)
Inductive ProtoResponse :=
  | PsDefineNode (response : ProtoMutated ProtoNodeModel)
  | PsDefineEdge (response : ProtoMutated ProtoEdgeModel)
  | PsSchemaList (response : ProtoSchemaListResponse)
  | PsCreateNode (response : ProtoMutated ProtoStoredNode)
  | PsUpdateNode (response : ProtoMutated ProtoStoredNode)
  | PsDeleteNode (response : ProtoMutated ProtoDeleteResult)
  | PsFindNodes (response : ProtoNodeFindResponse)
  | PsCreateEdge (response : ProtoMutated ProtoStoredEdge)
  | PsUpdateEdge (response : ProtoMutated ProtoStoredEdge)
  | PsDeleteEdge (response : ProtoMutated ProtoDeleteResult)
  | PsFindEdges (response : ProtoEdgeFindResponse)
  | PsExplain (response : ProtoExplainResponse)
  | PsProfile (response : ProtoProfileResponse)
  | PsApplyBatch (response : ProtoBatchResponse)
  | PsSummary (response : ProtoSummaryResponse).
Record ProtoRuntimeResponse := { prs_response : option ProtoResponse }.
Record ProtoWorkspaceRuntimeResponse := {
  pwrr_handle : option ProtoWorkspaceHandle; pwrr_response : option ProtoRuntimeResponse;
  pwrr_durable_operations : list ProtoDurableOperation }.

(** ** Responses of the handler *)

Section responses.
Context `{SerdeNumber} `{Formats}.

Definition proto_field_value_type_from_runtime (value_type : RuntimeValueType) : Z :=
  match value_type with
  | TString => 1 | TInt => 2 | TFloat => 3 | TBool => 4 | TBytes => 5 | TDecimal => 6 | TDate => 7
  | TDateTime => 8 | TDuration => 9 | TUuid => 10
  end.
Definition proto_id_type (id_type : BackendIdType) : result Z :=
  match id_type with
  | IdInt64 => Ok 1
  | IdUuid => Err (NotSupported "service proto id type mapping for UUID ids")
  end.
Definition proto_field_spec (field : RuntimeField) : ProtoFieldSpec :=
  {| pbf_name := field_name field;
     pbf_value_type := proto_field_value_type_from_runtime (field_type field);
     pbf_required := field_required field |}.
Definition proto_node_model (model : RuntimeNodeModel) : result ProtoNodeModel :=
  id_type ← proto_id_type (nm_id_type model);
  Ok {| pnm_name := nm_name model; pnm_label := nm_label model;
        pnm_id_field_name := nm_id_field model; pnm_id_type := id_type;
        pnm_fields := proto_field_spec <$> nm_fields model |}.
Definition proto_edge_model (model : RuntimeRelModel) : result ProtoEdgeModel :=
  id_type ← proto_id_type (rm_id_type model);
  Ok {| pem_name := rm_name model; pem_rel_type := rm_rel_type model;
        pem_from_model := rm_from_model model; pem_to_model := rm_to_model model;
        pem_id_field_name := rm_id_field model; pem_id_type := id_type;
        pem_fields := proto_field_spec <$> rm_fields model |}.

Definition numeric_error : GrmError :=
  Constraint "numeric property value cannot be represented in service proto".
Definition value_error : GrmError :=
  Constraint "property value cannot be represented in service proto".

(** The arms of [proto_property_value] for an object and a number; a number
    that is no [i64] is sent as the nearest float. *)
Definition proto_object_kind (value : Value) : result ProtoKind :=
  let payload := default "" (typed_value_payload value) in
  if kind_of value "bytes" then
    raw ← ok_or (typed_value_payload value) bytes_error;
    KindBytesValue <$> ok_or (base64_decode raw) bytes_error
  else if kind_of value "decimal" then Ok (KindDecimalValue payload)
  else if kind_of value "date" then Ok (KindDateValue payload)
  else if kind_of value "datetime" then Ok (KindDatetimeValue payload)
  else if kind_of value "duration" then Ok (KindDurationValue payload)
  else if kind_of value "uuid" then Ok (KindUuidValue payload)
  else Err value_error.
Definition proto_number_kind (value : Number) : result ProtoKind :=
  match number_as_i64 value with
  | Some value => Ok (KindIntValue value)
  | None => KindFloatValue <$> ok_or (number_as_f64 value) numeric_error
  end.
Definition proto_property_value (value : Value) : result ProtoPropertyValue :=
  (λ kind, {| pbv_kind := Some kind |}) <$>
  match value with
  | Str value => Ok (KindStringValue value)
  | Num value => proto_number_kind value
  | Bool value => Ok (KindBoolValue value)
  | Object _ => proto_object_kind value
  | Null | Array _ => Err value_error
  end.
Definition proto_property (entry : string * Value) : result ProtoProperty :=
  value ← proto_property_value entry.2;
  Ok {| pbp_name := entry.1; pbp_value := Some value |}.
Definition proto_property_map (props : Props) : result ProtoPropertyMap :=
  Build_ProtoPropertyMap <$> mapM proto_property (bt_iter props).

Definition proto_stored_node (node : StoredNode) : result ProtoStoredNode :=
  props ← proto_property_map (sn_props node);
  Ok {| psn_id := sn_id node; psn_labels := sn_labels node; psn_props := Some props |}.
Definition proto_stored_edge (edge : StoredRel) : result ProtoStoredEdge :=
  props ← proto_property_map (sr_props edge);
  Ok {| pse_id := sr_id edge; pse_rel_type := sr_rel_type edge; pse_from := sr_from edge;
        pse_to := sr_to edge; pse_props := Some props |}.
Definition proto_delete_result (deleted : RuntimeDelete) : ProtoDeleteResult :=
  {| pdl_model := del_model deleted; pdl_id := del_id deleted |}.
Definition proto_model_count (count : RuntimeModelCount) : ProtoModelCount :=
  {| pmc_model := mc_model count; pmc_count := mc_count count |}.
Definition proto_summary_response (summary : RuntimeSummaryResponse) : ProtoSummaryResponse :=
  {| psr_node_count := rs_node_count summary; psr_edge_count := rs_edge_count summary;
     psr_node_model_count := rs_node_model_count summary;
     psr_edge_model_count := rs_edge_model_count summary; psr_backend := rs_backend summary;
     psr_node_counts := proto_model_count <$> rs_node_counts summary;
     psr_edge_counts := proto_model_count <$> rs_edge_counts summary |}.

Fixpoint proto_durable_operation (op : DurableOperation) : result ProtoDurableOperation :=
  (λ operation, Build_ProtoDurableOperation (Some operation)) <$>
  match op with
  | RegisterNodeModel model => PoRegisterNodeModel <$> proto_node_model model
  | RegisterRelModel model => PoRegisterEdgeModel <$> proto_edge_model model
  | UpsertNode node => PoUpsertNode <$> proto_stored_node node
  | DurDeleteNode id => Ok (PoDeleteNodeId id)
  | UpsertRel rel => PoUpsertEdge <$> proto_stored_edge rel
  | DurDeleteRel id => Ok (PoDeleteEdgeId id)
  | DurBatch ops =>
      PoBatch <$> (fix go ops :=
        match ops with
        | [] => Ok []
        | op :: ops => op ← proto_durable_operation op; ops ← go ops; Ok (op :: ops)
        end) ops
  end.

Definition in_u32 (z : Z) : bool := (0 <=? z) && (z <=? 4294967295).
Definition u32 (z : Z) (e : GrmError) : result Z := if in_u32 z then Ok z else Err e.
Definition proto_durable_mutation_outcome (durable_ops : list DurableOperation)
    : result ProtoDurableMutationOutcome :=
  ops ← mapM proto_durable_operation durable_ops;
  count ← u32 (Z.of_nat (length durable_ops)) (Constraint "durable operation count is too large");
  Ok {| pdm_durable_ops := ops; pdm_durable_op_count := count;
        pdm_has_durable_mutation := negb (bool_decide (durable_ops = [])) |}.

(** *** Reading the JSON of a batch, a plan and a profile *)

(** [Value::get] with a key *)
Definition get (value : Value) (field : string) : option Value :=
  match value with Object m => object_get m field | _ => None end.
Definition as_array (value : Value) : option (list Value) :=
  match value with Array l => Some l | _ => None end.
Definition json_array (value : Value) (field : string) : list Value :=
  default [] (get value field ≫= as_array).
Definition json_bool (value : Value) (field : string) : bool :=
  default false (get value field ≫= as_bool).
Definition json_string (value : Value) (field : string) : string :=
  default "" (get value field ≫= as_str).
Definition json_u32 (value : Value) (field : string) : result Z :=
  u32 (default 0 (get value field ≫= as_u64)) (Constraint (field +:+ " is too large")).
Definition json_string_array (value : Value) (field : string) : result (list string) :=
  match get value field with
  | None => Ok []
  | Some values =>
      values ← ok_or (as_array values) (Constraint (field +:+ " must be an array"));
      mapM (λ value, ok_or (as_str value) (Constraint (field +:+ " must contain only strings"))) values
  end.
Definition required_json_u64 (value : Value) (field : string) : result Z :=
  ok_or (get value field ≫= as_u64)
    (Constraint ("profile response field '" +:+ field +:+ "' must be an unsigned integer")).

Definition proto_batch_count (op : string) (entry : string * Value) : result ProtoBatchCount :=
  let '(model, count) := entry in
  count ← ok_or (as_u64 count)
    (Constraint ("batch count for " +:+ op +:+ "/" +:+ model +:+ " must be an unsigned integer"));
  count ← u32 count
    (Constraint ("batch count for " +:+ op +:+ "/" +:+ model +:+ " is too large"));
  Ok {| pbc_op := op; pbc_model := model; pbc_count := count |}.
Definition proto_op_counts (entry : string * Value) : result (list ProtoBatchCount) :=
  let '(op, models) := entry in
  models ← ok_or (as_object models)
    (Constraint ("batch counts for operation '" +:+ op +:+ "' must be an object keyed by model"));
  mapM (proto_batch_count op) models.
Definition proto_batch_counts (value : Value) : result (list ProtoBatchCount) :=
  match get value "counts" with
  | None => Ok []
  | Some counts =>
      counts ← ok_or (as_object counts)
        (Constraint "batch counts must be an object keyed by operation and model");
      mjoin <$> mapM proto_op_counts counts
  end.
Definition proto_batch_error (value : Value) : result ProtoBatchError :=
  index ← json_u32 value "index";
  Ok {| per_index := index; per_message := json_string value "message";
        per_recovery_hint :=
          default "" (match get value "recovery_hint" with
                      | Some hint => Some hint
                      | None => get value "recovery"
                      end ≫= as_str) |}.
Definition proto_batch_applied_id (value : Value) : ProtoBatchAppliedId :=
  {| pai_op := json_string value "op"; pai_model := json_string value "model";
     pai_id := default 0 (get value "id" ≫= as_i64);
     pai_local_ref := get value "ref" ≫= as_str |}.
Definition proto_batch_response (batch : RuntimeBatchResponse) (durable_ops : list DurableOperation)
    : result ProtoBatchResponse :=
  let value := rb_value batch in
  count ← json_u32 value "operation_count";
  counts ← proto_batch_counts value;
  errors ← mapM proto_batch_error (json_array value "errors");
  durability ← proto_durable_mutation_outcome durable_ops;
  Ok {| pbs_applied := json_bool value "applied"; pbs_atomic := json_bool value "atomic";
        pbs_operation_count := count; pbs_counts := counts; pbs_errors := errors;
        pbs_ids := proto_batch_applied_id <$> json_array value "ids";
        pbs_durability := Some durability |}.

Definition push_unique (values : list string) (value : string) : list string :=
  if existsb (String.eqb value) values then values else (values ++ [value])%list.
Definition detail_indexes (indexes : list string) (detail : Value) : result (list string) :=
  let indexes :=
    match get detail "index" ≫= as_str with
    | Some index => push_unique indexes index
    | None => indexes
    end in
  more ← json_string_array detail "indexes";
  Ok (foldl push_unique indexes more).
Definition plan_indexes (plan : Value) : result (list string) :=
  try_fold detail_indexes [] (json_array plan "details").
Definition proto_explain_response (value : Value) : result ProtoExplainResponse :=
  plan ← ok_or (get value "plan") (Constraint "explain response is missing plan");
  steps ← json_string_array plan "steps";
  indexes ← plan_indexes plan;
  Ok {| pxr_plan_kind :=
          match get value "command" ≫= as_str with
          | Some command => command
          | None => json_string plan "kind"
          end;
        pxr_steps := steps; pxr_indexes := indexes |}.
Definition proto_profile_response (value : Value) : result ProtoProfileResponse :=
  plan ← proto_explain_response value;
  row_count ← required_json_u64 value "result_rows";
  elapsed ← ok_or (get value "elapsed") (Constraint "profile response is missing elapsed");
  micros ← required_json_u64 elapsed "micros";
  Ok {| ppr_plan := Some plan; ppr_row_count := row_count; ppr_elapsed_micros := micros |}.

(** *** A response *)

Definition proto_mutated {A} (value : A) (durable_ops : list DurableOperation)
    : result (ProtoMutated A) :=
  durability ← proto_durable_mutation_outcome durable_ops;
  Ok {| pmu_value := Some value; pmu_durability := Some durability |}.
Definition proto_schema_list_response (schema : RuntimeSchemaListResponse)
    : result ProtoSchemaListResponse :=
  node_models ← mapM proto_node_model (sl_node_models schema);
  edge_models ← mapM proto_edge_model (sl_edge_models schema);
  id_type ← proto_id_type (sl_backend_id_type schema);
  Ok {| psl_node_models := node_models; psl_edge_models := edge_models;
        psl_backend_id_type := id_type |}.
Definition proto_response (response : RuntimeResponse) (durable_ops : list DurableOperation)
    : result ProtoResponse :=
  match response with
  | RespSchema (SchemaDefinedNode model) =>
      model ← proto_node_model model; PsDefineNode <$> proto_mutated model durable_ops
  | RespSchema (SchemaDefinedEdge model) =>
      model ← proto_edge_model model; PsDefineEdge <$> proto_mutated model durable_ops
  | RespSchema (SchemaListed schema) => PsSchemaList <$> proto_schema_list_response schema
  | RespNode (NodeCreated node) =>
      node ← proto_stored_node node; PsCreateNode <$> proto_mutated node durable_ops
  | RespNode (NodeUpdated node) =>
      node ← proto_stored_node node; PsUpdateNode <$> proto_mutated node durable_ops
  | RespNode (NodeDeleted deleted) =>
      PsDeleteNode <$> proto_mutated (proto_delete_result deleted) durable_ops
  | RespNode (NodesFound found) =>
      nodes ← mapM proto_stored_node (nfr_nodes found);
      edges ← mapM proto_stored_edge (nfr_edges found);
      Ok (PsFindNodes {| pnr_model := nfr_model found; pnr_nodes := nodes; pnr_edges := edges |})
  | RespEdge (EdgeCreated edge) =>
      edge ← proto_stored_edge edge; PsCreateEdge <$> proto_mutated edge durable_ops
  | RespEdge (EdgeUpdated edge) =>
      edge ← proto_stored_edge edge; PsUpdateEdge <$> proto_mutated edge durable_ops
  | RespEdge (EdgeDeleted deleted) =>
      PsDeleteEdge <$> proto_mutated (proto_delete_result deleted) durable_ops
  | RespEdge (EdgesFound found) =>
      edges ← mapM proto_stored_edge (efr_edges found);
      Ok (PsFindEdges {| per_model := efr_model found; per_edges := edges |})
  | RespExplain explain => PsExplain <$> proto_explain_response explain
  | RespProfile profile => PsProfile <$> proto_profile_response profile
  | RespBatch batch => PsApplyBatch <$> proto_batch_response batch durable_ops
  | RespSummary summary => Ok (PsSummary (proto_summary_response summary))
  end.
Definition proto_runtime_response (response : RuntimeResponse) (durable_ops : list DurableOperation)
    : result ProtoRuntimeResponse :=
  (λ response, {| prs_response := Some response |}) <$> proto_response response durable_ops.
Definition runtime_response_to_proto (r : WorkspaceRuntimeResponse)
    : result ProtoWorkspaceRuntimeResponse :=
  response ← proto_runtime_response (wrs_response r) (wrs_durable_operations r);
  ops ← mapM proto_durable_operation (wrs_durable_operations r);
  Ok {| pwrr_handle := Some (handle_to_proto (wrs_handle r)); pwrr_response := Some response;
        pwrr_durable_operations := ops |}.
End responses.
