(* ===== verification/Client.v ===== *)
(** * The client of the service ([src/grm-service-api/src/lib.rs])

    [GrpcWorkspaceClient]: each method sends one request to the workspace it has
    open and reads the response.  The channel and the stubs [tonic] generates are
    parameters: a call answers a message or a status. *)

From S2P Require Export Wire.

Local Open Scope string_scope.
Local Open Scope Z_scope.

Section client.
Context `{SerdeNumber} `{Formats}.
(** [tonic::Status], and the errors of connecting a channel *)
Context {Status TransportError : Type}.

Inductive GrpcWorkspaceClientError :=
  | CeTransport (error : TransportError)
  | CeStatus (status : Status)
  | CeMissingField (field : string)
  | CeRuntime (error : GrmError)
  | CeUnexpectedResponse (expected : string).

(** [GrpcWorkspaceClientResult]: the left side is the error. *)
Definition client_result (A : Type) : Type := sum GrpcWorkspaceClientError A.
#[export] Instance client_ret : MRet client_result := λ A a, inr a.
#[export] Instance client_bind : MBind client_result := λ A B f m,
  match m with inl e => inl e | inr a => f a end.
#[export] Instance client_fmap : FMap client_result := λ A B f m,
  match m with inl e => inl e | inr a => inr (f a) end.
(** [map_err(GrpcWorkspaceClientError::Runtime)] *)
Definition runtime {A} (r : result A) : client_result A :=
  match r with Ok a => inr a | Err e => inl (CeRuntime e) end.
Definition status {A} (r : Status + A) : client_result A :=
  match r with inl e => inl (CeStatus e) | inr a => inr a end.
Definition required_client {A} (value : option A) (field : string) : client_result A :=
  match value with Some a => inr a | None => inl (CeMissingField field) end.

(** ** Reading responses *)

Definition runtime_value_type_from_proto (value : Z) : client_result RuntimeValueType :=
  match value with
  | 1 => inr TString | 2 => inr TInt | 3 => inr TFloat | 4 => inr TBool | 5 => inr TBytes
  | 6 => inr TDecimal | 7 => inr TDate | 8 => inr TDateTime | 9 => inr TDuration | 10 => inr TUuid
  | _ => inl (CeRuntime (unknown_proto_enum "FieldValueType" value))
  end.
Definition backend_id_type_from_proto (value : Z) : client_result BackendIdType :=
  match value with
  | 1 => inr IdInt64
  | _ => inl (CeRuntime (unknown_proto_enum "IdType" value))
  end.
Definition runtime_field_from_proto (field : ProtoFieldSpec) : client_result RuntimeField :=
  value_type ← runtime_value_type_from_proto (pbf_value_type field);
  inr {| field_name := pbf_name field; field_type := value_type; field_required := pbf_required field |}.
Definition runtime_node_model_from_proto (model : ProtoNodeModel) : client_result RuntimeNodeModel :=
  fields ← mapM runtime_field_from_proto (pnm_fields model);
  id_type ← backend_id_type_from_proto (pnm_id_type model);
  runtime (RuntimeNodeModel_new (pnm_name model) (pnm_id_field_name model) id_type fields).
Definition runtime_edge_model_from_proto (model : ProtoEdgeModel) : client_result RuntimeRelModel :=
  fields ← mapM runtime_field_from_proto (pem_fields model);
  id_type ← backend_id_type_from_proto (pem_id_type model);
  runtime (RuntimeRelModel_new (pem_name model) (pem_from_model model) (pem_to_model model)
             (pem_id_field_name model) id_type fields).
Definition runtime_schema_list_from_proto (response : ProtoSchemaListResponse)
    : client_result RuntimeSchemaListResponse :=
  node_models ← mapM runtime_node_model_from_proto (psl_node_models response);
  edge_models ← mapM runtime_edge_model_from_proto (psl_edge_models response);
  id_type ← backend_id_type_from_proto (psl_backend_id_type response);
  inr {| sl_node_models := node_models; sl_edge_models := edge_models;
         sl_backend_id_type := id_type |}.

Definition runtime_model_count_from_proto (count : ProtoModelCount) : RuntimeModelCount :=
  {| mc_model := pmc_model count; mc_count := pmc_count count |}.
Definition omitted_counts (kind : string) : GrpcWorkspaceClientError :=
  CeRuntime (Constraint ("summary response omitted " +:+ kind +:+ " model count metadata")).
Definition runtime_summary_from_proto (response : ProtoSummaryResponse)
    : client_result RuntimeSummaryResponse :=
  if negb (psr_node_model_count response =? length (psr_node_counts response))%nat
  then inl (omitted_counts "node")
  else if negb (psr_edge_model_count response =? length (psr_edge_counts response))%nat
  then inl (omitted_counts "edge")
  else inr {| rs_node_count := psr_node_count response; rs_edge_count := psr_edge_count response;
              rs_node_model_count := psr_node_model_count response;
              rs_edge_model_count := psr_edge_model_count response;
              rs_backend := psr_backend response;
              rs_node_counts := runtime_model_count_from_proto <$> psr_node_counts response;
              rs_edge_counts := runtime_model_count_from_proto <$> psr_edge_counts response |}.

(** [proto_property_map_or_empty(props)?.try_into()?] *)
Definition props_from_proto (props : option ProtoPropertyMap) : result Props :=
  map ← proto_property_map_or_empty props; props_to_map map.
Definition stored_node_from_proto (node : ProtoStoredNode) : client_result StoredNode :=
  props ← runtime (props_from_proto (psn_props node));
  inr {| sn_id := psn_id node; sn_labels := psn_labels node; sn_props := props |}.
Definition stored_edge_from_proto (edge : ProtoStoredEdge) : client_result StoredRel :=
  props ← runtime (props_from_proto (pse_props edge));
  inr {| sr_id := pse_id edge; sr_rel_type := pse_rel_type edge; sr_from := pse_from edge;
         sr_to := pse_to edge; sr_props := props |}.
Definition runtime_delete_from_proto (deleted : ProtoDeleteResult) : client_result RuntimeDelete :=
  inr {| del_model := pdl_model deleted; del_id := pdl_id deleted |}.

Record RuntimeNodeFindResponse := { fr_model : string; fr_nodes : list StoredNode }.
Definition runtime_node_find_from_proto (response : ProtoNodeFindResponse)
    : client_result RuntimeNodeFindResponse :=
  nodes ← mapM stored_node_from_proto (pnr_nodes response);
  inr {| fr_model := pnr_model response; fr_nodes := nodes |}.
Definition runtime_node_find_result_from_proto (response : ProtoNodeFindResponse)
    : client_result RuntimeNodeFindResultResponse :=
  nodes ← mapM stored_node_from_proto (pnr_nodes response);
  edges ← mapM stored_edge_from_proto (pnr_edges response);
  inr {| nfr_model := pnr_model response; nfr_nodes := nodes; nfr_edges := edges |}.
Definition runtime_edge_find_from_proto (response : ProtoEdgeFindResponse)
    : client_result RuntimeEdgeFindResponse :=
  edges ← mapM stored_edge_from_proto (per_edges response);
  inr {| efr_model := per_model response; efr_edges := edges |}.

(** The entries of the maps are inserted one after the other; the maps of
    [serde_json] list their keys in order. *)
Definition counts_insert (counts : gmap string (gmap string Z)) (count : ProtoBatchCount)
    : gmap string (gmap string Z) :=
  <[pbc_op count := <[pbc_model count := pbc_count count]>
                      (default ∅ (counts !! pbc_op count))]> counts.
Definition counts_value (counts : gmap string (gmap string Z)) : Value :=
  Object (map (λ e : string * gmap string Z,
    (e.1, Object (map (λ c : string * Z, (c.1, value_from_u64 c.2)) (bt_iter e.2)))) (bt_iter counts)).
Definition batch_error_value (error : ProtoBatchError) : Value :=
  Object [("index", value_from_u64 (per_index error)); ("message", Str (per_message error));
          ("recovery_hint", Str (per_recovery_hint error))].
Definition applied_id_value (id : ProtoBatchAppliedId) : Value :=
  Object [("id", value_from_i64 (pai_id id)); ("model", Str (pai_model id)); ("op", Str (pai_op id));
          ("ref", opt_json Str (pai_local_ref id))].
Definition runtime_batch_response_from_proto (response : ProtoBatchResponse) : RuntimeBatchResponse :=
  {| rb_should_persist :=
       match pbs_durability response with
       | Some durability => pdm_has_durable_mutation durability
       | None => pbs_applied response
       end;
     rb_value := Object
       [("applied", Bool (pbs_applied response)); ("atomic", Bool (pbs_atomic response));
        ("counts", counts_value (foldl counts_insert ∅ (pbs_counts response)));
        ("errors", Array (batch_error_value <$> pbs_errors response));
        ("ids", Array (applied_id_value <$> pbs_ids response));
        ("operation_count", value_from_u64 (pbs_operation_count response))] |}.

(** ** The client *)

Inductive GrpcWorkspaceMode := ModeCreate | ModeOpen.
(** The endpoint and the channel are not kept here. *)
Record GrpcWorkspaceClient := {
  gc_workspace : ProtoWorkspaceRef;
  gc_handle : ProtoWorkspaceHandle;
}.

(** What [connect_with_format_and_tls] does once it has the channel. *)
Definition connect_with_format
    (create : ProtoWorkspaceCreateRequest → Status + ProtoWorkspaceCreateResponse)
    (open_ : ProtoWorkspaceOpenRequest → Status + ProtoWorkspaceCreateResponse)
    (workspace_id : string) (mode : GrpcWorkspaceMode) (format : DurabilityFormat)
    : client_result GrpcWorkspaceClient :=
  let workspace := {| pwr_id := workspace_id |} in
  let format := proto_durability_format_code format in
  handle ← match mode with
    | ModeCreate =>
        response ← status (create {| pwc_mode := 1; pwc_workspace := Some workspace; pwc_format := format |});
        required_client (pwcr_handle response) "WorkspaceCreateResponse.handle"
    | ModeOpen =>
        response ← status (open_ {| pwo_snapshot := None; pwo_format := format;
                                    pwo_workspace := Some workspace |});
        required_client (pwcr_handle response) "WorkspaceOpenResponse.handle"
    end;
  inr {| gc_workspace := workspace; gc_handle := handle |}.
Definition connect create open_ (workspace_id : string) (mode : GrpcWorkspaceMode) :=
  connect_with_format create open_ workspace_id mode DurBinary.

(** The stub's [execute_workspace]: the message sent, the answer. *)
Variable execute : ProtoWorkspaceRuntimeRequest → Status + ProtoWorkspaceRuntimeResponse.
Implicit Types (c : GrpcWorkspaceClient).

Definition execute_proto c (request : ProtoRequest) : client_result ProtoWorkspaceRuntimeResponse :=
  status (execute {| pwq_handle := Some (gc_handle c);
                     pwq_request := Some {| prq_request := Some request |} |}).
Definition execute_service_request c (request : ServiceRequest) : client_result ProtoRuntimeResponse :=
  request ← runtime (proto_runtime_request_from_service_request request);
  response ← execute_proto c request;
  required_client (pwrr_response response) "WorkspaceRuntimeResponse.response".

(** A method: the request converted and sent, the expected variant of the
    response taken out and read. *)
Definition ask {A B} c (request : result ServiceRequest) (expected : string)
    (variant : ProtoResponse → option A) (read : A → client_result B) : client_result B :=
  request ← runtime request;
  response ← execute_service_request c request;
  match prs_response response ≫= variant with
  | Some response => read response
  | None => inl (CeUnexpectedResponse expected)
  end.
Definition read_made {A B} (field : string) (read : A → client_result B) (response : ProtoMutated A)
    : client_result B :=
  value ← required_client (pmu_value response) field; read value.

Definition define_node c (r : DefineNodeRequest) : client_result RuntimeNodeModel :=
  ask c (Ok (SrvDefineNode (define_node_from_runtime r))) "DefineNode"
    (λ m, match m with PsDefineNode m => Some m | _ => None end)
    (read_made "DefineNodeResponse.model" runtime_node_model_from_proto).
Definition define_edge c (r : DefineEdgeRequest) : client_result RuntimeRelModel :=
  ask c (Ok (SrvDefineEdge (define_edge_from_runtime r))) "DefineEdge"
    (λ m, match m with PsDefineEdge m => Some m | _ => None end)
    (read_made "DefineEdgeResponse.model" runtime_edge_model_from_proto).
Definition client_schema_list c : client_result RuntimeSchemaListResponse :=
  ask c (Ok SrvSchemaList) "SchemaList"
    (λ m, match m with PsSchemaList m => Some m | _ => None end) runtime_schema_list_from_proto.
Definition client_create_node c (r : NodeCreateRequest) : client_result StoredNode :=
  ask c (SrvCreateNode <$> node_create_from_runtime r) "CreateNode"
    (λ m, match m with PsCreateNode m => Some m | _ => None end)
    (read_made "NodeCreateResponse.node" stored_node_from_proto).
Definition client_update_node c (r : NodeUpdateRequest) : client_result StoredNode :=
  ask c (SrvUpdateNode <$> node_update_from_runtime r) "UpdateNode"
    (λ m, match m with PsUpdateNode m => Some m | _ => None end)
    (read_made "NodeUpdateResponse.node" stored_node_from_proto).
Definition client_delete_node c (r : NodeDeleteRequest) : client_result RuntimeDelete :=
  ask c (Ok (SrvDeleteNode (node_delete_from_runtime r))) "DeleteNode"
    (λ m, match m with PsDeleteNode m => Some m | _ => None end)
    (read_made "NodeDeleteResponse.deleted" runtime_delete_from_proto).
Definition reject_node_find_edge_return (r : NodeFindRequest) : client_result unit :=
  match nf_return_mode r with
  | Some TraverseToEdge => inl (CeRuntime (NotSupported
      "node.find return=edge is not supported by GrpcWorkspaceClient::find_nodes yet"))
  | _ => inr tt
  end.
Definition find_node_response (m : ProtoResponse) : option ProtoNodeFindResponse :=
  match m with PsFindNodes m => Some m | _ => None end.
Definition client_find_nodes c (r : NodeFindRequest) : client_result RuntimeNodeFindResponse :=
  _ ← reject_node_find_edge_return r;
  ask c (SrvFindNodes <$> node_find_shape_from_runtime r) "FindNodes" find_node_response
    runtime_node_find_from_proto.
Definition client_find_node_results c (r : NodeFindRequest)
    : client_result RuntimeNodeFindResultResponse :=
  ask c (SrvFindNodes <$> node_find_shape_from_runtime r) "FindNodes" find_node_response
    runtime_node_find_result_from_proto.
Definition client_create_edge c (r : EdgeCreateRequest) : client_result StoredRel :=
  ask c (SrvCreateEdge <$> edge_create_from_runtime r) "CreateEdge"
    (λ m, match m with PsCreateEdge m => Some m | _ => None end)
    (read_made "EdgeCreateResponse.edge" stored_edge_from_proto).
Definition client_update_edge c (r : EdgeUpdateRequest) : client_result StoredRel :=
  ask c (SrvUpdateEdge <$> edge_update_from_runtime r) "UpdateEdge"
    (λ m, match m with PsUpdateEdge m => Some m | _ => None end)
    (read_made "EdgeUpdateResponse.edge" stored_edge_from_proto).
Definition client_delete_edge c (r : EdgeDeleteRequest) : client_result RuntimeDelete :=
  ask c (Ok (SrvDeleteEdge (edge_delete_from_runtime r))) "DeleteEdge"
    (λ m, match m with PsDeleteEdge m => Some m | _ => None end)
    (read_made "EdgeDeleteResponse.deleted" runtime_delete_from_proto).
Definition client_find_edges c (r : EdgeFindRequest) : client_result RuntimeEdgeFindResponse :=
  ask c (SrvFindEdges <$> edge_find_shape_from_runtime r) "FindEdges"
    (λ m, match m with PsFindEdges m => Some m | _ => None end) runtime_edge_find_from_proto.
Definition client_explain c (q : QueryRequest) : client_result ProtoExplainResponse :=
  ask c (SrvExplain <$> query_from_runtime q) "Explain"
    (λ m, match m with PsExplain m => Some m | _ => None end) inr.
Definition client_profile c (q : QueryRequest) : client_result ProtoProfileResponse :=
  ask c (SrvProfile <$> query_from_runtime q) "Profile"
    (λ m, match m with PsProfile m => Some m | _ => None end) inr.
Definition client_summary c : client_result RuntimeSummaryResponse :=
  ask c (Ok SrvSummary) "Summary"
    (λ m, match m with PsSummary m => Some m | _ => None end) runtime_summary_from_proto.
Definition client_apply_batch c (r : SessionBatchParams) : client_result RuntimeBatchResponse :=
  ask c (SrvApplyBatch <$> batch_from_runtime r) "ApplyBatch"
    (λ m, match m with PsApplyBatch m => Some m | _ => None end)
    (λ m, inr (runtime_batch_response_from_proto m)).
Definition client_close c (close : ProtoWorkspaceCloseRequest → Status + ProtoWorkspaceCloseRequest)
    : client_result ProtoWorkspaceCloseRequest :=
  status (close {| pwl_handle := Some (gc_handle c) |}).
End client.

(** ** What the client reads is what the session answered *)

(** A stored value with the values of its properties replaced, a model as the
    wire carries it: the name is the label, the origin is not sent. *)
Section sent.
Context `{SerdeNumber} `{Formats}.
Definition sent_node (node : StoredNode) : StoredNode :=
  {| sn_id := sn_id node; sn_labels := sn_labels node; sn_props := received <$> sn_props node |}.
Definition sent_rel (rel : StoredRel) : StoredRel :=
  {| sr_id := sr_id rel; sr_rel_type := sr_rel_type rel; sr_from := sr_from rel; sr_to := sr_to rel;
     sr_props := received <$> sr_props rel |}.
Definition sent_node_model (m : RuntimeNodeModel) : RuntimeNodeModel :=
  {| nm_name := nm_name m; nm_label := nm_label m; nm_id_field := nm_id_field m;
     nm_id_type := nm_id_type m; nm_origin := Declared; nm_fields := nm_fields m |}.
Definition sent_rel_model (m : RuntimeRelModel) : RuntimeRelModel :=
  {| rm_name := rm_name m; rm_rel_type := rm_rel_type m; rm_from_model := rm_from_model m;
     rm_to_model := rm_to_model m; rm_id_field := rm_id_field m; rm_id_type := rm_id_type m;
     rm_origin := Declared; rm_fields := rm_fields m |}.
End sent.

Section received.
Context `{SerdeNumber} `{!NumberLaws} `{Formats}.
Context {Status TransportError : Type}.
Abbreviation client_result := (@client_result Status TransportError).

Lemma mapM_sent {A B} (f : A → result B) (g : B → client_result A) (h : A → A) (P : A → Prop) l :
  (∀ a, P a → ∃ b, f a = Ok b ∧ g b = inr (h a)) → Forall P l →
  ∃ k, mapM f l = Ok k ∧ mapM g k = inr (h <$> l).
Proof.
  intros Hfg Hl. induction Hl as [|a l Ha _ IH]; [by exists []|].
  destruct (Hfg a Ha) as (b & Hf & Hg), IH as (k & Hk & Hm).
  exists (b :: k). cbn. rewrite Hf, Hg. cbn. by rewrite Hk, Hm.
Qed.

Lemma valid_number n : valid_value (Num n) →
  is_Some (number_as_i64 n) ∨
  (∃ x, number_as_i64 n = None ∧ number_as_u64 n = None ∧ number_as_f64 n = Some x).
Proof.
  intros [kind Hk]. destruct (is_tagged_kind kind) eqn:Ht.
  { by destruct (tagged_value_parses kind _ Ht Hk) as (? & _ & ? & _). }
  destruct kind; try done; cbn in Hk.
  - left. by apply bool_decide_eq_true in Hk.
  - right. apply andb_true_iff in Hk as [Hf _].
    destruct (number_is_f64_as n Hf) as ([x Hx] & ? & ?). eauto.
Qed.

(** The handler sends a valid value as the client would. *)
Lemma value_sent v p :
  valid_value v → value_from_json v = Ok p → proto_property_value v = Ok (property_value_to_proto p).
Proof.
  intros Hv. destruct v as [|b|n|s|l|m]; cbn; try done; try (by intros [= <-]).
  - unfold number_to_property, proto_number_kind.
    destruct (valid_number n Hv) as [[z Hz]|(x & -> & -> & ->)]; [rewrite Hz|];
      by intros [= <-].
  - unfold object_to_property, proto_object_kind.
    repeat case_match; cbn; try done; try (by intros [= <-]).
    intros (raw & Hraw & Hb)%bind_Ok. rewrite Hraw. cbn.
    apply fmap_Ok in Hb as (bs & Hbs & <-). by rewrite Hbs.
Qed.

Lemma props_sent (m : Props) :
  valid_props m →
  ∃ pm, proto_property_map m = Ok pm ∧ props_from_proto (Some pm) = Ok (received <$> m).
Proof.
  intros Hm. destruct (props_received m Hm) as (map & Hmap & Hback).
  exists (property_map_to_proto map). split; [|unfold props_from_proto; by rewrite props_read].
  unfold props_from_map in Hmap. apply fmap_Ok in Hmap as (ps & Hps & <-).
  unfold proto_property_map, property_map_to_proto. cbn.
  enough (mapM proto_property (bt_iter m) = Ok (property_to_proto <$> ps)) as -> by done.
  apply mapM_Ok in Hps. apply mapM_Ok, Forall2_fmap_r.
  assert (Forall (λ e, valid_value e.2) (bt_iter m)) as Hv.
  { rewrite Forall_forall. intros [k v] He%elem_of_bt_iter. by apply (Hm k). }
  revert Hv. clear -H0 Hps. induction Hps as [|[k v] p l ps Hp _ IH]; intros Hv; constructor.
  - apply Forall_cons in Hv as [Hv _]. unfold property_from in Hp. cbn in Hp, Hv.
    apply bind_Ok in Hp as (pv & Hpv & [= <-]). unfold proto_property. cbn [fst snd].
    by rewrite (value_sent v pv Hv Hpv).
  - apply Forall_cons in Hv as [_ Hv]. by apply IH.
Qed.

Lemma node_sent (node : StoredNode) :
  valid_props (sn_props node) →
  ∃ pn, proto_stored_node node = Ok pn ∧
    (stored_node_from_proto pn : client_result _) = inr (sent_node node).
Proof.
  intros (pm & Hpm & Hback)%props_sent. unfold proto_stored_node. rewrite Hpm.
  eexists. split; [reflexivity|]. unfold stored_node_from_proto. cbn [psn_props].
  by rewrite Hback.
Qed.
Lemma rel_sent (rel : StoredRel) :
  valid_props (sr_props rel) →
  ∃ pr, proto_stored_edge rel = Ok pr ∧
    (stored_edge_from_proto pr : client_result _) = inr (sent_rel rel).
Proof.
  intros (pm & Hpm & Hback)%props_sent. unfold proto_stored_edge. rewrite Hpm.
  eexists. split; [reflexivity|]. unfold stored_edge_from_proto. cbn [pse_props].
  by rewrite Hback.
Qed.

Lemma field_sent (f : RuntimeField) : (runtime_field_from_proto (proto_field_spec f) : client_result _) = inr f.
Proof. by destruct f as [n [] r]. Qed.
Lemma fields_sent (fs : list RuntimeField) :
  (mapM runtime_field_from_proto (proto_field_spec <$> fs) : client_result _) = inr fs.
Proof. induction fs as [|f fs IH]; [done|]. cbn. rewrite field_sent. cbn. by rewrite IH. Qed.

Lemma check_fields_accepts fields seen :
  NoDup (map field_name fields) → (∀ x, x ∈ map field_name fields → x ∉ seen) →
  Forall (λ name, validate_field_name name = Ok tt) (map field_name fields) →
  ∃ seen', try_fold check_field seen fields = Ok seen'.
Proof.
  revert seen. induction fields as [|f fields IH]; intros seen Hnd Hfresh Hall; [by eexists|].
  cbn in Hnd, Hfresh, Hall. apply NoDup_cons in Hnd as [Hf Hnd]. apply Forall_cons in Hall as [Hv Hall].
  cbn. unfold check_field at 1. rewrite Hv. cbn. rewrite decide_False by (apply Hfresh; left).
  apply IH; [done| |done]. intros x Hx [->%elem_of_singleton|Hs]%elem_of_union; [done|].
  by apply (Hfresh x); [right|].
Qed.
Lemma check_fields_of_ok id_field fields :
  fields_ok id_field fields →
  validate_field_name id_field = Ok tt ∧ ∃ seen, check_fields id_field fields = Ok seen.
Proof.
  intros [[Hid Hnd]%NoDup_cons [Hv Hall]%Forall_cons]. split; [done|].
  apply check_fields_accepts; [done| |done]. intros x Hx ->%elem_of_singleton. done.
Qed.

(** The models a catalog holds, with integer ids. *)
Definition wire_node_model (m : RuntimeNodeModel) : Prop := node_model_ok m ∧ nm_id_type m = IdInt64.
Definition wire_rel_model (m : RuntimeRelModel) : Prop :=
  rel_model_ok m ∧ rm_id_type m = IdInt64 ∧
  validate_model_name (rm_from_model m) = Ok tt ∧ validate_model_name (rm_to_model m) = Ok tt.

Lemma node_model_sent (m : RuntimeNodeModel) :
  wire_node_model m →
  ∃ pm, proto_node_model m = Ok pm ∧
    (runtime_node_model_from_proto pm : client_result _) = inr (sent_node_model m).
Proof.
  intros [(Hname & Hlabel & Hf) Hid]. unfold proto_node_model. rewrite Hid. eexists.
  split; [reflexivity|]. unfold runtime_node_model_from_proto. cbn. rewrite fields_sent. cbn.
  destruct (check_fields_of_ok _ _ Hf) as (Hidf & seen & Hc). unfold RuntimeNodeModel_new.
  rewrite Hname, Hidf, Hc. unfold sent_node_model. by rewrite Hlabel, Hid.
Qed.
Lemma rel_model_sent (m : RuntimeRelModel) :
  wire_rel_model m →
  ∃ pm, proto_edge_model m = Ok pm ∧
    (runtime_edge_model_from_proto pm : client_result _) = inr (sent_rel_model m).
Proof.
  intros ((Hname & Htype & Hf) & Hid & Hfrom & Hto). unfold proto_edge_model. rewrite Hid. eexists.
  split; [reflexivity|]. unfold runtime_edge_model_from_proto. cbn. rewrite fields_sent. cbn.
  destruct (check_fields_of_ok _ _ Hf) as (Hidf & seen & Hc). unfold RuntimeRelModel_new.
  rewrite Hname, Hfrom, Hto, Hidf, Hc. unfold sent_rel_model. by rewrite Htype, Hid.
Qed.
End received.

(** *** Explanations and batches *)

Section json.
Context `{SerdeNumber} `{!NumberLaws} `{Formats}.

Lemma strings_read (l : list string) e :
  mapM (λ value, ok_or (as_str value) e) (Str <$> l) = Ok l.
Proof. apply mapM_fmap_read. done. Qed.

Lemma string_array_read value field l :
  get value field = Some (strings_json l) → json_string_array value field = Ok l.
Proof. unfold json_string_array. intros ->. apply strings_read. Qed.

Lemma u64_read value field z :
  get value field = Some (value_from_u64 z) → in_u64 z = true → required_json_u64 value field = Ok z.
Proof. unfold required_json_u64. intros -> Hz. cbn. by rewrite (number_from_u64_as _ Hz). Qed.

Lemma object_get_app (l m : list (string * Value)) k :
  object_get (l ++ m)%list k = match object_get l k with Some v => Some v | None => object_get m k end.
Proof. induction l as [|[k' v] l IH]; cbn; [done|]. by destruct (String.eqb k' k). Qed.

(** The indexes a step tells, the one of its access path first. *)
Definition step_indexes (step : PlanStep) : list string :=
  (option_list (access_path (ps_kind step) ≫= index_name)
   ++ candidate_index_names (ps_kind step))%list.

Lemma detail_indexes_step indexes step :
  detail_indexes indexes (plan_step_value step) = Ok (foldl push_unique indexes (step_indexes step)).
Proof.
  unfold detail_indexes. rewrite (string_array_read _ _ (candidate_index_names (ps_kind step))) by done.
  cbn [mbind result_bind]. unfold step_indexes. rewrite foldl_app. unfold plan_step_value. cbn [get].
  cbn -[candidate_index_names access_path index_name].
  by destruct (access_path (ps_kind step) ≫= index_name).
Qed.

Lemma push_unique_spec values value :
  NoDup values → NoDup (push_unique values value) ∧
  ∀ i, i ∈ push_unique values value ↔ i ∈ values ∨ i = value.
Proof.
  intros Hnd. unfold push_unique. destruct (existsb (String.eqb value) values) eqn:He.
  - apply existsb_exists in He as (x & Hx & <-%String.eqb_eq). apply list_elem_of_In in Hx.
    split; [done|]. intros i. naive_solver.
  - assert (value ∉ values) as Hn.
    { intros Hin%list_elem_of_In. apply not_true_iff_false in He. apply He.
      apply existsb_exists. exists value. split; [done|apply String.eqb_refl]. }
    split; [apply NoDup_app; split_and!; [done| |apply NoDup_singleton]; set_solver|].
    intros i. rewrite elem_of_app, list_elem_of_singleton. done.
Qed.
Lemma push_all_spec more values :
  NoDup values → NoDup (foldl push_unique values more) ∧
  ∀ i, i ∈ foldl push_unique values more ↔ i ∈ values ∨ i ∈ more.
Proof.
  revert values. induction more as [|x more IH]; intros values Hnd; cbn.
  { split; [done|]. set_solver. }
  destruct (push_unique_spec values x Hnd) as [Hnd' Hin].
  destruct (IH _ Hnd') as [Hnd'' Hall]. split; [done|]. intros i.
  rewrite Hall, Hin, elem_of_cons. tauto.
Qed.

Lemma plan_indexes_spec plan :
  ∃ indexes, plan_indexes (plan_value plan) = Ok indexes ∧ NoDup indexes ∧
    ∀ i, i ∈ indexes ↔ ∃ step, step ∈ ep_steps plan ∧ i ∈ step_indexes step.
Proof.
  unfold plan_indexes. change (json_array (plan_value plan) "details") with (plan_step_value <$> ep_steps plan).
  enough (∀ acc, NoDup acc → ∃ indexes,
    try_fold detail_indexes acc (plan_step_value <$> ep_steps plan) = Ok indexes ∧ NoDup indexes ∧
    ∀ i, i ∈ indexes ↔ i ∈ acc ∨ ∃ step, step ∈ ep_steps plan ∧ i ∈ step_indexes step) as Hall.
  { destruct (Hall [] ltac:(constructor)) as (indexes & Hi & Hnd & Hin). exists indexes.
    split_and!; try done. intros i. rewrite Hin. set_solver. }
  induction (ep_steps plan) as [|step steps IH]; intros acc Hacc; cbn [fmap list_fmap try_fold].
  { exists acc. split_and!; try done. set_solver. }
  rewrite detail_indexes_step. destruct (push_all_spec (step_indexes step) acc Hacc) as [Hnd Hin].
  destruct (IH _ Hnd) as (indexes & -> & Hnd' & Hin'). exists indexes. split_and!; try done.
  intros i. rewrite Hin', Hin. set_solver.
Qed.

(** A plan as the client is told it. *)
Definition tells (command : string) (plan : ExecutionPlan) (r : ProtoExplainResponse) : Prop :=
  pxr_plan_kind r = command ∧ pxr_steps r = step_to_string <$> ep_steps plan ∧
  NoDup (pxr_indexes r) ∧
  ∀ i, i ∈ pxr_indexes r ↔ ∃ step, step ∈ ep_steps plan ∧ i ∈ step_indexes step.

Lemma explain_sent command target plan :
  ∃ r, proto_explain_response (explain_value command target plan) = Ok r ∧ tells command plan r.
Proof.
  destruct (plan_indexes_spec plan) as (indexes & Hi & Hnd & Hin).
  unfold proto_explain_response.
  change (get (explain_value command target plan) "plan") with (Some (plan_value plan)).
  cbn [ok_or mbind result_bind].
  rewrite (string_array_read _ _ (step_to_string <$> ep_steps plan)) by done. cbn [mbind result_bind].
  rewrite Hi. eexists. split; [reflexivity|]. by split_and!.
Qed.

Lemma profile_sent command target plan rows elapsed metrics phases :
  (∀ key, key ∈ ["plan"; "result_rows"; "elapsed"; "command"] → object_get phases key = None) →
  in_u64 (Z.of_N rows) = true → in_u64 (as_micros elapsed) = true →
  ∃ r, proto_profile_response (profile_entries command target plan rows elapsed metrics phases)
       = Ok {| ppr_plan := Some r; ppr_row_count := Z.of_N rows; ppr_elapsed_micros := as_micros elapsed |} ∧
    tells command plan r.
Proof.
  intros Hph Hrows Hel. destruct (plan_indexes_spec plan) as (indexes & Hi & Hnd & Hin).
  set (value := profile_entries _ _ _ _ _ _ _).
  assert (get value "plan" = Some (plan_value plan)) as Hplan.
  { cbn. rewrite object_get_app, Hph by set_solver. done. }
  assert (get value "result_rows" = Some (usize_json rows)) as Hr.
  { cbn. rewrite object_get_app, Hph by set_solver. done. }
  exists {| pxr_plan_kind := command; pxr_steps := step_to_string <$> ep_steps plan; pxr_indexes := indexes |}.
  split; [|by split_and!].
  unfold proto_profile_response, proto_explain_response. rewrite Hplan. cbn [ok_or mbind result_bind].
  rewrite (string_array_read _ _ (step_to_string <$> ep_steps plan)) by done. cbn [mbind result_bind].
  rewrite Hi. cbn [mbind result_bind]. rewrite (u64_read _ _ _ Hr Hrows). cbn [mbind result_bind].
  change (get value "elapsed") with (Some (Object [("display", Str (format_profile_duration elapsed));
                             ("micros", value_from_u64 (as_micros elapsed))])).
  cbn [ok_or mbind result_bind]. by rewrite (u64_read _ "micros" (as_micros elapsed)).
Qed.
End json.

(** *** Batches *)

Section batches.
Context `{SerdeNumber} `{!NumberLaws} `{Formats}.
Implicit Types (su : BatchSummary) (σ : SessionState).

Definition fits_u32 (n : nat) : Prop := (Z.of_nat n ≤ 4294967295)%Z.

Lemma fits_in_u32 n : fits_u32 n → in_u32 (Z.of_nat n) = true.
Proof. unfold fits_u32, in_u32. intros Hn. apply andb_true_iff. rewrite !Z.leb_le. lia. Qed.
Lemma fits_in_u64 n : fits_u32 n → in_u64 (Z.of_nat n) = true.
Proof. unfold fits_u32, in_u64, u64_max. intros Hn. apply andb_true_iff. rewrite !Z.leb_le. lia. Qed.

Lemma count_read value field n :
  get value field = Some (count_json n) → fits_u32 n → json_u32 value field = Ok (Z.of_nat n).
Proof.
  unfold json_u32, u32. intros -> Hn. unfold count_json, value_from_u64. cbn [mbind option_bind as_u64].
  rewrite (number_from_u64_as _ (fits_in_u64 _ Hn)). cbn [default from_option id].
  by rewrite (fits_in_u32 _ Hn).
Qed.

(** What a summary of [n] operations may hold. *)
Record summary_ok (n : nat) su : Prop := {
  sm_count : fits_u32 (su_operation_count su);
  sm_counts op models model c :
    su_counts su !! op = Some models → models !! model = Some c → (c ≤ n)%nat;
  sm_errors : Forall (λ e, ∃ i, fits_u32 i ∧ get e "index" = Some (count_json i)) (su_errors su);
}.

Lemma summary_new_ok atomic detailed total :
  fits_u32 total → summary_ok 0 (BatchSummary_new atomic detailed total).
Proof. intros Ht. split; [done| |constructor]. intros ????. cbn. by rewrite lookup_empty. Qed.

Lemma record_applied_ok n a su : summary_ok n su → summary_ok (S n) (record_applied a su).
Proof.
  intros [Hc Hm He]. split; [done| |done]. cbn. intros op models model c.
  rewrite lookup_insert_Some. intros [[<- <-]|[_ Hl]] Hmc; [|specialize (Hm _ _ _ _ Hl Hmc); lia].
  destruct (su_counts su !! ba_op a) as [old|] eqn:Hold; cbn in Hmc.
  - apply lookup_insert_Some in Hmc as [[<- <-]|[_ Hl]]; [|specialize (Hm _ _ _ _ Hold Hl); lia].
    destruct (old !! ba_model a) as [k|] eqn:Hk; cbn; [specialize (Hm _ _ _ _ Hold Hk)|]; lia.
  - apply lookup_insert_Some in Hmc as [[<- <-]|[_ Hl]]; [cbn|]; [rewrite lookup_empty; cbn; lia|].
    by rewrite lookup_empty in Hl.
Qed.
Lemma record_error_ok n index message su :
  fits_u32 index → summary_ok n su → summary_ok (S n) (record_error index message su).
Proof.
  intros Hi [Hc Hm He]. split; [done| |].
  - cbn. intros op models model c Hl Hmc. specialize (Hm _ _ _ _ Hl Hmc). lia.
  - cbn. apply Forall_app. split; [done|]. constructor; [|constructor]. by exists index.
Qed.
Lemma not_applied_ok n su : summary_ok n su → summary_ok n (set_not_applied su).
Proof. by intros []. Qed.

Lemma batch_count_sent op m c :
  fits_u32 c →
  proto_batch_count op (m, count_json c) = Ok {| pbc_op := op; pbc_model := m; pbc_count := Z.of_nat c |}.
Proof.
  intros Hc. unfold proto_batch_count, u32, count_json, value_from_u64. cbn [as_u64].
  rewrite (number_from_u64_as _ (fits_in_u64 _ Hc)). cbn [ok_or mbind result_bind].
  by rewrite (fits_in_u32 _ Hc).
Qed.

Lemma counts_sent n su :
  fits_u32 n → summary_ok n su → ∃ counts, proto_batch_counts (into_value su) = Ok counts.
Proof.
  intros Hn [_ Hm _]. unfold proto_batch_counts.
  change (get (into_value su) "counts") with (Some (Object (map (λ e : string * gmap string nat,
         (e.1, Object (map (λ c : string * nat, (c.1, count_json c.2)) (bt_iter e.2))))
         (bt_iter (su_counts su))))).
  cbn [as_object ok_or mbind result_bind].
  enough (∃ counts, mapM proto_op_counts (map (λ e : string * gmap string nat,
         (e.1, Object (map (λ c : string * nat, (c.1, count_json c.2)) (bt_iter e.2))))
         (bt_iter (su_counts su))) = Ok counts) as [counts ->] by by eexists.
  assert (Forall (λ e, su_counts su !! e.1 = Some e.2) (bt_iter (su_counts su))) as Hall.
  { apply Forall_forall. by intros [op models] He%elem_of_bt_iter. }
  induction Hall as [|[op models] l Hop _ [counts Hc]]; [by eexists|]. cbn in Hop. cbn [map].
  enough (∃ cs, mapM (proto_batch_count op)
    (map (λ c : string * nat, (c.1, count_json c.2)) (bt_iter models)) = Ok cs) as [cs Hcs].
  { exists (cs :: counts). rewrite mapM_cons.
    assert (∀ m, proto_op_counts (op, Object m) = mapM (proto_batch_count op) m) as -> by done.
    cbn [fst snd]. rewrite Hcs. cbn [mbind result_bind]. by rewrite Hc. }
  assert (Forall (λ e, models !! e.1 = Some e.2) (bt_iter models)) as Hms.
  { apply Forall_forall. by intros [m c] He%elem_of_bt_iter. }
  induction Hms as [|[m c] ms Hmc _ [cs Hcs]]; [by eexists|]. cbn in Hmc. cbn [map].
  assert (fits_u32 c) as Hfc by (specialize (Hm _ _ _ _ Hop Hmc); unfold fits_u32 in *; lia).
  eexists. rewrite mapM_cons. cbn [fst snd]. rewrite (batch_count_sent op m c Hfc). cbn [mbind result_bind].
  by rewrite Hcs.
Qed.

Lemma errors_sent l :
  Forall (λ e, ∃ i, fits_u32 i ∧ get e "index" = Some (count_json i)) l →
  ∃ errors, mapM proto_batch_error l = Ok errors.
Proof.
  intros Hl. induction Hl as [|e l (i & Hi & He) _ [errors IH]]; [by eexists|].
  assert (∃ error, proto_batch_error e = Ok error) as [error Herror].
  { unfold proto_batch_error. rewrite (count_read _ _ _ He Hi). by eexists. }
  eexists. rewrite mapM_cons, Herror. cbn [mbind result_bind]. by rewrite IH.
Qed.

(** The answer of a batch can be sent, and tells what the summary does. *)
Lemma batch_sent n su persist ops durability :
  fits_u32 n → summary_ok n su → proto_durable_mutation_outcome ops = Ok durability →
  ∃ r, proto_batch_response {| rb_value := into_value su; rb_should_persist := persist |} ops = Ok r ∧
    pbs_applied r = su_applied su ∧ pbs_atomic r = su_atomic su ∧
    pbs_operation_count r = Z.of_nat (su_operation_count su) ∧ pbs_durability r = Some durability.
Proof.
  intros Hn Hsu Hd. destruct (counts_sent n su Hn Hsu) as [counts Hc].
  destruct (errors_sent _ (sm_errors _ _ Hsu)) as [errors He].
  unfold proto_batch_response. cbn [rb_value].
  assert (get (into_value su) "operation_count" = Some (count_json (su_operation_count su))) as Hoc.
  { unfold into_value. cbn [get]. by destruct (su_detailed su). }
  rewrite (count_read _ _ _ Hoc (sm_count _ _ Hsu)). cbn [mbind result_bind].
  rewrite Hc. cbn [mbind result_bind].
  change (json_array (into_value su) "errors") with (su_errors su). rewrite He, Hd.
  eexists. split; [reflexivity|]. done.
Qed.
End batches.

(** *** The operations a session answers can be sent *)

Section answered.
Context `{SerdeNumber} `{!NumberLaws} `{Formats}.
Implicit Types (σ τ : SessionState).

(** What the durable operation of one mutation holds. *)
Definition op_plain (op : DurableOperation) : Prop :=
  match op with
  | RegisterNodeModel m => wire_node_model m
  | RegisterRelModel m => wire_rel_model m
  | UpsertNode node => valid_props (sn_props node)
  | UpsertRel rel => valid_props (sr_props rel)
  | DurDeleteNode _ | DurDeleteRel _ => True
  | DurBatch _ => False
  end.
Definition op_shape (op : DurableOperation) : Prop :=
  match op with
  | RegisterNodeModel m => wire_node_model m
  | RegisterRelModel m => wire_rel_model m
  | DurBatch _ => False
  | _ => True
  end.

(** A catalog all of whose models can be sent. *)
Record wire_catalog (c : SessionModelCatalog) : Prop := {
  wc_node name m : node_models c !! name = Some m → wire_node_model m;
  wc_rel name m : rel_models c !! name = Some m → wire_rel_model m;
}.

Lemma conforms_valid fields props : conforms fields props → valid_props props.
Proof.
  intros [Hknown Hall] key v Hv. destruct (Hknown key (mk_is_Some _ _ Hv)) as (f & Hf & <-).
  specialize (Hall f Hf). rewrite Hv in Hall. by eexists.
Qed.
Lemma node_valid σ id node :
  session_inv σ → nodes (ss_store σ) !! id = Some node → valid_props (sn_props node).
Proof. intros [_ _ [Hn _]] Hl. destruct (Hn id node Hl) as (m & _ & _ & Hc). by eapply conforms_valid. Qed.
Lemma rel_valid σ id rel :
  session_inv σ → rels (ss_store σ) !! id = Some rel → valid_props (sr_props rel).
Proof. intros [_ _ [_ Hr]] Hl. destruct (Hr id rel Hl) as (m & _ & _ & Hc & _). by eapply conforms_valid. Qed.

Lemma bind_session_Ok {A B} (m : session A) (f : A → session B) σ b σ' :
  (m ≫= f) σ = (Ok b, σ') → ∃ a τ, m σ = (Ok a, τ) ∧ f a τ = (Ok b, σ').
Proof.
  unfold mbind, session_bind. destruct (m σ) as [[a|e] τ]; [|done]. by exists a, τ.
Qed.
Lemma bind_lift_Ok {A B} (r : result A) (f : A → session B) σ b σ' :
  (lift r ≫= f) σ = (Ok b, σ') → ∃ a, r = Ok a ∧ f a σ = (Ok b, σ').
Proof. rewrite session_bind_lift. destruct r as [a|]; [by exists a|done]. Qed.

(** The node or edge an operation upserts is in the graph after it. *)
Lemma sound_plain {A} (r : result A * SessionState) σ op a σ' :
  session_inv σ → sound r σ op → r = (Ok a, σ') → op_shape (op a) →
  op_plain (op a) ∧ (wire_catalog (ss_catalog σ) → wire_catalog (ss_catalog σ')).
Proof.
  intros Hinv Hs ->. destruct Hs as (Hinv' & Hrep & _).
  destruct (Hrep σ (same_session_refl σ (si_ready _ Hinv))) as (τ & Hτ & [Hg Hc _]).
  rewrite <-Hc. destruct (op a) as [m|m|node|id|rel|id|ops];
    cbn [apply_session_log_entry op_shape op_plain] in *; intros Hshape.
  - split; [done|]. intros Hw. repeat case_match; simplify_eq; [done|].
    apply bind_Ok in Hτ as (c & Hreg & [= <-]). unfold register_node_model in Hreg.
    case_match; [done|]. injection Hreg as <-. destruct Hw as [Hn Hr]. split; cbn; [|exact Hr].
    intros name m' [[<- <-]|[_ Hl]]%lookup_insert_Some; [done|by apply (Hn name)].
  - split; [done|]. intros Hw. repeat case_match; simplify_eq; [done|].
    apply bind_Ok in Hτ as (c & Hreg & [= <-]). unfold register_rel_model in Hreg.
    case_match; [done|]. injection Hreg as <-. destruct Hw as [Hn Hr]. split; cbn; [exact Hn|].
    intros name m' [[<- <-]|[_ Hl]]%lookup_insert_Some; [done|by apply (Hr name)].
  - injection Hτ as <-. split; [|done]. apply (node_valid σ' (sn_id node)); [done|].
    pose proof (f_equal ag_nodes Hg) as Hn. 
    destruct (insert_node_fields (sn_id node) node (advance_node_id (sn_id node) (ss_store σ)))
      as (Hi & _). cbn zeta in Hi. unfold graph_of in Hn. cbn [ag_nodes] in Hn.
    replace (nodes (ss_store σ')) with (<[sn_id node:=node]> (nodes (advance_node_id (sn_id node) (ss_store σ))));
      [by rewrite lookup_insert_eq|]. etrans; [symmetry; exact Hi|exact Hn].
  - by injection Hτ as <-.
  - injection Hτ as <-. split; [|done]. apply (rel_valid σ' (sr_id rel)); [done|].
    pose proof (f_equal ag_rels Hg) as Hn. 
    destruct (insert_relationship_frame (sr_id rel) rel (advance_rel_id (sr_id rel) (ss_store σ)))
      as (_ & Hi). replace (rels (ss_store σ')) with
      (<[sr_id rel:=rel]> (rels (advance_rel_id (sr_id rel) (ss_store σ))));
      [by rewrite lookup_insert_eq|]. etrans; [symmetry; exact Hi|exact Hn].
  - by injection Hτ as <-.
  - done.
Qed.

(** What each handler answers, and the shape of its operation. *)
Lemma define_node_made r σ o σ' :
  apply_define_node r σ = (Ok o, σ') →
  ro_durable_op o = RegisterNodeModel (ro_value o) ∧ wire_node_model (ro_value o).
Proof.
  intros (fs & _ & (m & Hm & (u & τ & _ & [= <- _])%bind_session_Ok)%bind_lift_Ok)%bind_lift_Ok.
  split; [done|]. cbn. destruct (RuntimeNodeModel_new_ok _ _ _ _ _ Hm) as (Hok & _). split; [done|].
  unfold RuntimeNodeModel_new in Hm. inv_ok. done.
Qed.
Lemma define_edge_made r σ o σ' :
  apply_define_edge r σ = (Ok o, σ') →
  ro_durable_op o = RegisterRelModel (ro_value o) ∧ wire_rel_model (ro_value o).
Proof.
  intros (fs & _ & (m & Hm & (u & τ & _ & [= <- _])%bind_session_Ok)%bind_lift_Ok)%bind_lift_Ok.
  split; [done|]. cbn. destruct (RuntimeRelModel_new_ok _ _ _ _ _ _ _ Hm) as (Hok & _). split; [done|].
  unfold RuntimeRelModel_new in Hm. inv_ok. split; [done|]. cbn. split; by eapply unit_Ok.
Qed.
End answered.

Section outcomes.
Context `{SerdeNumber} `{!NumberLaws} `{Formats}.
Implicit Types (σ τ : SessionState) (params : SessionBatchParams) (st : BatchState).

#[local] Ltac session_ok :=
  repeat match goal with
  | H : (lift _ ≫= _) _ = (Ok _, _) |- _ => apply bind_lift_Ok in H as (? & ? & H)
  | H : (_ ≫= _) _ = (Ok _, _) |- _ => apply bind_session_Ok in H as (? & ? & ? & H)
  | H : mret _ _ = (Ok _, _) |- _ => injection H as <- <-
  end.

(** A handler answers what it applied and the operation that applies it. *)
Lemma node_create_made r σ o σ' :
  apply_node_create r σ = (Ok o, σ') → ro_durable_op o = UpsertNode (ro_value o).
Proof. unfold apply_node_create. intros. by session_ok. Qed.
Lemma node_update_made r σ o σ' :
  apply_node_update r σ = (Ok o, σ') → ro_durable_op o = UpsertNode (ro_value o).
Proof. unfold apply_node_update. intros. by session_ok. Qed.
Lemma node_delete_made r σ o σ' :
  apply_node_delete r σ = (Ok o, σ') → ro_durable_op o = DurDeleteNode (del_id (ro_value o)).
Proof. unfold apply_node_delete. intros. by session_ok. Qed.
Lemma edge_create_made r σ o σ' :
  apply_edge_create r σ = (Ok o, σ') → ro_durable_op o = UpsertRel (ro_value o).
Proof. unfold apply_edge_create. intros. by session_ok. Qed.
Lemma edge_update_made r σ o σ' :
  apply_edge_update r σ = (Ok o, σ') → ro_durable_op o = UpsertRel (ro_value o).
Proof. unfold apply_edge_update. intros. by session_ok. Qed.
Lemma edge_delete_made r σ o σ' :
  apply_edge_delete r σ = (Ok o, σ') → ro_durable_op o = DurDeleteRel (del_id (ro_value o)).
Proof. unfold apply_edge_delete. intros. by session_ok. Qed.

Lemma batch_op_shape refs op σ a refs' σ' :
  apply_batch_op refs op σ = (Ok (a, refs'), σ') → op_shape (ba_durable_op a).
Proof.
  destruct op; cbn [apply_batch_op]; intros Ha; session_ok; cbn [ba_durable_op applied].
  - match goal with H : apply_define_node _ _ = _ |- _ =>
      destruct (define_node_made _ _ _ _ H) as [-> ?] end. done.
  - match goal with H : apply_define_edge _ _ = _ |- _ =>
      destruct (define_edge_made _ _ _ _ H) as [-> ?] end. done.
  - match goal with H : apply_node_create _ _ = _ |- _ => by rewrite (node_create_made _ _ _ _ H) end.
  - match goal with H : apply_node_update _ _ = _ |- _ => by rewrite (node_update_made _ _ _ _ H) end.
  - match goal with H : apply_node_delete _ _ = _ |- _ => by rewrite (node_delete_made _ _ _ _ H) end.
  - match goal with H : apply_edge_create _ _ = _ |- _ => by rewrite (edge_create_made _ _ _ _ H) end.
  - match goal with H : apply_edge_update _ _ = _ |- _ => by rewrite (edge_update_made _ _ _ _ H) end.
  - match goal with H : apply_edge_delete _ _ = _ |- _ => by rewrite (edge_delete_made _ _ _ _ H) end.
Qed.

(** A batch answers a summary and operations that can be sent. *)
Record batch_sendable (o : SessionBatchOutcome) σ : Prop := {
  bs_catalog : wire_catalog (ss_catalog σ);
  bs_value : ∃ su n, bo_value o = into_value su ∧ summary_ok n su ∧ fits_u32 n;
  bs_ops : ∃ ops, bo_durable_ops o = wrapped ops ∧ Forall op_plain ops;
}.

Lemma batch_loop_sendable params σ0 index ops st σ :
  session_inv σ → room_for (length ops) σ → fits_u32 (index + length ops) →
  wire_catalog (ss_catalog σ0) → wire_catalog (ss_catalog σ) →
  summary_ok index (bt_summary st) → Forall op_plain (bt_durable_ops st) →
  let '(o, σ') := batch_loop params (if bp_atomic params then Some σ0 else None) index ops st σ in
  batch_sendable o σ'.
Proof.
  intros Hinv Hroom Hfits Hc0. revert index st σ Hinv Hroom Hfits.
  induction ops as [|op ops IH]; intros index st σ Hinv Hroom Hfits Hc Hsu Hops.
  { cbn [batch_loop length] in *. split; [done| |].
    - exists (bt_summary st), index. split_and!; try done. by rewrite Nat.add_0_r in Hfits.
    - by exists (bt_durable_ops st). }
  cbn [length] in Hroom, Hfits. rewrite <-Nat.add_succ_comm in Hfits.
  assert (fits_u32 index) as Hi by (unfold fits_u32 in *; lia).
  assert (fits_u32 (S index)) as Hsi by (unfold fits_u32 in *; lia).
  assert (∀ message, let '(o, σ') :=
    (let su := record_error index message (bt_summary st) in
     if bp_atomic params then abort_batch (if bp_atomic params then Some σ0 else None) su σ
     else batch_loop params (if bp_atomic params then Some σ0 else None) (S index) ops
            {| bt_refs := bt_refs st; bt_summary := su; bt_durable_ops := bt_durable_ops st |} σ)
    in batch_sendable o σ') as Hfailed.
  { intros message. cbn zeta. pose proof (record_error_ok index index message _ Hi Hsu) as Hsu'.
    destruct (bp_atomic params) eqn:Ha.
    - cbn [abort_batch restore]. split; [done| |].
      + eexists _, _. split; [reflexivity|]. split; [by apply not_applied_ok|done].
      + by exists [].
    - specialize (IH (S index) {| bt_refs := bt_refs st;
        bt_summary := record_error index message (bt_summary st);
        bt_durable_ops := bt_durable_ops st |} σ). apply IH; try done.
      unfold room_for in *; lia. }
  cbn [batch_loop]. destruct (is_delete op && negb (bp_allow_deletes params)); [apply Hfailed|].
  pose proof (batch_op_sound (bt_refs st) op σ Hinv
    ltac:(unfold room, room_for in *; lia)) as Hs.
  destruct (apply_batch_op (bt_refs st) op σ) as [[[a refs]|e] σ1] eqn:Hop.
  - destruct (sound_plain _ _ _ _ _ Hinv Hs eq_refl (batch_op_shape _ _ _ _ _ _ Hop)) as [Hplain Hcat].
    cbn [fst] in Hplain. destruct Hs as (Hinv1 & _ & Huse).
    apply IH; try done; [unfold room_for, uses_one_id in *; lia|by apply Hcat| |].
    + by apply record_applied_ok.
    + cbn [bt_durable_ops]. apply Forall_app. split; [done|by constructor].
  - unfold sound in Hs. subst σ1. apply Hfailed.
Qed.

Lemma batch_answered params σ :
  session_inv σ → room_for (length (bp_ops params)) σ → fits_u32 (length (bp_ops params)) →
  wire_catalog (ss_catalog σ) →
  let '(o, σ') := apply_session_batch params σ in batch_sendable o σ'.
Proof.
  intros Hinv Hroom Hfits Hc. by apply (batch_loop_sendable params σ 0).
Qed.

Lemma plain_sent op : op_plain op → ∃ p, proto_durable_operation op = Ok p.
Proof.
  destruct op as [m|m|node|id|rel|id|ops]; cbn [op_plain proto_durable_operation].
  - intros (p & -> & _)%(node_model_sent (Status := unit) (TransportError := unit)). by eexists.
  - intros (p & -> & _)%(rel_model_sent (Status := unit) (TransportError := unit)). by eexists.
  - intros (p & -> & _)%(node_sent (Status := unit) (TransportError := unit)). by eexists.
  - by eexists.
  - intros (p & -> & _)%(rel_sent (Status := unit) (TransportError := unit)). by eexists.
  - by eexists.
  - done.
Qed.

Lemma plains_sent ops : Forall op_plain ops → ∃ ps, mapM proto_durable_operation ops = Ok ps.
Proof.
  intros Hops. induction Hops as [|op ops (p & Hp)%plain_sent _ [ps IH]]; [by eexists|].
  eexists. rewrite mapM_cons, Hp. cbn [mbind result_bind]. by rewrite IH.
Qed.

(** [proto_durable_operation] of a batch runs over its operations. *)
Lemma batch_op_sent ops ps :
  mapM proto_durable_operation ops = Ok ps →
  proto_durable_operation (DurBatch ops) = Ok (Build_ProtoDurableOperation (Some (PoBatch ps))).
Proof.
  intros Hps. cbn [proto_durable_operation].
  enough ((fix go ops := match ops with
    | [] => Ok []
    | op :: ops => op ← proto_durable_operation op; ops ← go ops; Ok (op :: ops)
    end) ops = Ok ps) as -> by done.
  revert ps Hps. induction ops as [|op ops IH]; intros ps Hps; [done|].
  rewrite mapM_cons in Hps. apply bind_Ok in Hps as (p & Hp & Hps).
  apply bind_Ok in Hps as (ps' & Hps' & [= <-]). rewrite Hp. cbn [mbind result_bind].
  by rewrite (IH _ Hps').
Qed.

Lemma outcome_sent ops :
  Forall op_plain ops → ∃ d, proto_durable_mutation_outcome (wrapped ops) = Ok d ∧
    pdm_has_durable_mutation d = negb (bool_decide (ops = [])).
Proof.
  intros Hops. destruct (plains_sent ops Hops) as [ps Hps].
  destruct ops as [|op [|op' ops]]; [by eexists| |].
  - cbn [wrapped]. unfold proto_durable_mutation_outcome. rewrite Hps. by eexists.
  - cbn [wrapped]. unfold proto_durable_mutation_outcome.
    rewrite mapM_cons, (batch_op_sent _ _ Hps). by eexists.
Qed.
End outcomes.

(** *** What a find answers is in the graph *)

Section found.
Context `{SerdeNumber} `{Formats}.
Implicit Types (σ : SessionState) (s t : GraphStore).

Lemma insert_by_in {A} (cmp : A → A → comparison) x l y : y ∈ insert_by cmp x l → y = x ∨ y ∈ l.
Proof.
  induction l as [|z l IH]; cbn; [set_solver|]. destruct (cmp x z); set_solver.
Qed.
Lemma sort_by_in {A} (cmp : A → A → comparison) l y : y ∈ sort_by cmp l → y ∈ l.
Proof.
  induction l as [|x l IH]; cbn; [done|]. intros [->|Hy]%insert_by_in; [left|right; by apply IH].
Qed.
Lemma page_in {A} (l : list A) o n y : y ∈ apply_offset_limit l o n → y ∈ l.
Proof.
  unfold apply_offset_limit. case_match; [by intros ?%elem_of_nil|].
  intros Hy. eapply elem_of_submseteq; [exact Hy|]. apply sublist_submseteq.
  etrans; [apply sublist_take|apply sublist_drop].
Qed.
Lemma sort_if_in {A} orders (sort : list A → result (list A)) l k y :
  (∀ k, sort l = Ok k → y ∈ k → y ∈ l) → sort_if orders sort l = Ok k → y ∈ k → y ∈ l.
Proof. intros Hs. unfold sort_if. destruct orders; [by intros [= <-]|]. apply Hs. Qed.
Lemma sort_nodes_in ns model orders k y : sort_nodes ns model orders = Ok k → y ∈ k → y ∈ ns.
Proof. unfold sort_nodes. intros (u & _ & [= <-])%bind_Ok. apply sort_by_in. Qed.
Lemma sort_rels_in rs model orders k y : sort_relationships rs model orders = Ok k → y ∈ k → y ∈ rs.
Proof. unfold sort_relationships. intros (u & _ & [= <-])%bind_Ok. apply sort_by_in. Qed.

Definition node_in s (node : StoredNode) : Prop := ∃ id, nodes s !! id = Some node.
Definition rel_in s (rel : StoredRel) : Prop := ∃ id, rels s !! id = Some rel.
Definition result_in s (r : SessionQueryResult) : Prop :=
  match r with
  | QNodes _ rows => Forall (node_in s) rows
  | QEdges _ rows => Forall (rel_in s) rows
  | QGraph _ _ _ => True
  end.

Lemma snapshot_in label id property s :
  let '(ns, t) := snapshot_nodes_filtered label id property s in
  ∀ node, node ∈ ns → node_in t node.
Proof.
  unfold snapshot_nodes_filtered. destruct id as [id|].
  - intros node. destruct (nodes s !! id) as [n|] eqn:Hn; [|by intros ?%elem_of_nil].
    case_match; [|by intros ?%elem_of_nil]. intros ->%list_elem_of_singleton. by exists id.
  - destruct (match property with Some _ => _ | None => _ end) as [ids t].
    intros node (id & _ & Hid)%list_elem_of_omap. by exists id.
Qed.

Lemma nodes_found_in c name query s ns t :
  find_nodes_with_query c name query s = (Ok ns, t) → Forall (node_in t) ns.
Proof.
  unfold find_nodes_with_query. destruct (mbind _ _) as [[model filters]|e]; [|done].
  pose proof (snapshot_in (nm_label model) (nq_id_filter query) (indexed_property filters) s) as Hin.
  destruct (snapshot_nodes_filtered _ _ _ s) as [all t'].
  intros [= (k & Hk & [= <-])%bind_Ok <-]. apply Forall_forall. intros node Hn%page_in.
  apply Hin. pose proof (sort_if_in _ _ _ _ node (λ k, sort_nodes_in _ _ _ k node) Hk Hn) as Hf.
  by apply list_elem_of_filter in Hf as [_ ?].
Qed.

Lemma edges_found_in c id_type request s rs :
  edge_find c id_type request s = Ok rs → Forall (rel_in s) rs.
Proof.
  unfold edge_find. intros (query & _ & Hf)%bind_Ok. unfold find_relationships_with_query in Hf.
  apply bind_Ok in Hf as (model & _ & Hf). apply bind_Ok in Hf as (filters & _ & Hf).
  apply bind_Ok in Hf as (k & Hk & [= <-]). apply Forall_forall. intros rel Hr%page_in.
  pose proof (sort_if_in _ _ _ _ rel (λ k, sort_rels_in _ _ _ k rel) Hk Hr) as Hin.
  apply list_elem_of_filter in Hin as [_ Hin]. unfold snapshot_relationships_filtered in Hin.
  destruct (eq_id_filter query) as [id|].
  - destruct (rels s !! id) as [r|] eqn:Hl; [|by apply elem_of_nil in Hin].
    case_match; [|by apply elem_of_nil in Hin]. apply list_elem_of_singleton in Hin as ->. by exists id.
  - apply list_elem_of_filter in Hin as [_ (id & _ & Hid)%list_elem_of_omap]. by exists id.
Qed.

Lemma rows_emitted q s res t row :
  execute_graph_query q s tx_new = (Ok res, t) → row ∈ qr_rows res → ∃ b, row = emit_row t tx_new b.
Proof.
  unfold execute_graph_query. destruct (ExecCtx_build q) as [ctx|e]; [|done].
  destruct (seed_roots _ s tx_new) as [[|b bs] t'].
  { intros [= <- <-] Hr. by apply elem_of_nil in Hr. }
  destruct (traverse_hops _ t' tx_new (b :: bs)); intros [= <- <-] Hr.
  { by apply elem_of_nil in Hr. }
  apply list_elem_of_fmap in Hr as (b' & -> & _). by exists b'.
Qed.

Lemma emitted_value t b v value :
  row_values (emit_row t tx_new b) !! v = Some value →
  (∃ node, value = stored_node_to_kernel node ∧ node_in t node) ∨
  (∃ rel, value = stored_rel_to_kernel rel ∧ rel_in t rel).
Proof.
  cbn. intros [Hv|[_ Hv]]%lookup_union_Some_raw; rewrite lookup_omap in Hv;
    apply bind_Some in Hv as (id & _ & Hv); apply fmap_Some in Hv as (x & Hx & ->).
  - right. exists x. split; [done|]. exists id. unfold visible_rel in Hx. cbn in Hx.
    destruct (rels t !! id) as [rel|]; [|done]. by injection Hx as <-.
  - left. exists x. split; [done|]. by exists id.
Qed.

Lemma returned_in t gq b :
  (∀ node, returned_node gq (emit_row t tx_new b) = Some node → node_in t node) ∧
  (∀ rel, returned_rel gq (emit_row t tx_new b) = Some rel → rel_in t rel).
Proof.
  unfold returned_node, returned_rel.
  assert (∀ value, get_returned (emit_row t tx_new b) gq = Some value →
    (∃ node, value = stored_node_to_kernel node ∧ node_in t node) ∨
    (∃ rel, value = stored_rel_to_kernel rel ∧ rel_in t rel)) as Hall.
  { unfold get_returned. intros value. destruct (gq_ret gq); apply emitted_value. }
  destruct (get_returned _ gq) as [value|]; [|done].
  destruct (Hall value eq_refl) as [([i l p] & -> & Hin)|([i ty f to p] & -> & Hin)]; cbn; split;
    try done; by intros ? [= <-].
Qed.

Lemma result_in_same s t r : same_graph s t → result_in s r → result_in t r.
Proof.
  intros (Hn & Hr & _ & _). destruct r; cbn; [..|done]; intros Hall; eapply Forall_impl; try exact Hall;
    intros x (id & Hid); exists id; congruence.
Qed.

Lemma traversal_result_in t root_model plan query rows r :
  traversal_result root_model plan query rows = Ok r →
  (∀ row, row ∈ rows → ∃ b, row = emit_row t tx_new b) → result_in t r.
Proof.
  unfold traversal_result. intros Hr Hrows. case_decide.
  { apply bind_Ok in Hr as (k & _ & [= <-]). done. }
  case_match; apply bind_Ok in Hr as (k & Hk & [= <-]); cbn; apply Forall_forall; intros x Hx%page_in.
  - apply (sort_if_in _ _ _ _ x (λ k, sort_nodes_in _ _ _ k x) Hk) in Hx.
    apply list_elem_of_omap in Hx as (row & Hrow & Hret). destruct (Hrows row Hrow) as [b ->].
    by apply (returned_in t (tp_graph_query plan) b).
  - apply (sort_if_in _ _ _ _ x (λ k, sort_rels_in _ _ _ k x) Hk) in Hx.
    apply list_elem_of_omap in Hx as (row & Hrow & Hret). destruct (Hrows row Hrow) as [b ->].
    by apply (returned_in t (tp_graph_query plan) b).
Qed.

Lemma traversal_found_in c name query s r t :
  store_ready s → execute_node_traversal_query c name query s = (Ok r, t) → result_in t r.
Proof.
  intros Hs. unfold execute_node_traversal_query.
  destruct (mbind _ _) as [[[model filters] plan]|e]; [|done].
  pose proof (execute_kept (tp_graph_query plan) s tx_new) as Hk.
  destruct (execute_graph_query _ s tx_new) as [[res|e] t1] eqn:Hex; [|done].
  destruct (kept_ready _ _ Hk Hs) as [Ht _]. cbn [snd] in Ht.
  destruct (commit_new t1 Ht) as [_ Hsame]. intros [= Hr <-].
  apply bind_Ok in Hr as (ef & _ & Hr). apply bind_Ok in Hr as (rf & _ & Hr).
  apply (result_in_same t1); [exact Hsame|]. eapply traversal_result_in; [exact Hr|].
  intros row [_ Hrow]%list_elem_of_filter. by apply (rows_emitted _ _ _ _ _ Hex).
Qed.

Lemma node_query_found_in c name query s r t :
  store_ready s → execute_node_query c name query s = (Ok r, t) → result_in t r.
Proof.
  intros Hs. unfold execute_node_query. destruct (nq_traversals query); [|by apply traversal_found_in].
  destruct (find_nodes_with_query c name query s) as [ns t1] eqn:Hf.
  intros [= (ns' & -> & (model & _ & [= <-])%bind_Ok)%bind_Ok <-].
  by apply (nodes_found_in _ _ _ _ _ _ Hf).
Qed.

Definition found_in s (found : SessionFindResult) : Prop :=
  match found with FoundNodes ns => Forall (node_in s) ns | FoundEdges rs => Forall (rel_in s) rs end.

Lemma node_find_in c id_type request s found t :
  store_ready s → node_find c id_type request s = (Ok found, t) → found_in t found.
Proof.
  intros Hs. unfold node_find, then_find.
  destruct (node_find_query_from_request c id_type request) as [query|e]; [|done].
  destruct (execute_node_query c (nf_model request) query s) as [r t1] eqn:Hq.
  intros [= (q & -> & Hr)%bind_Ok <-]. pose proof (node_query_found_in _ _ _ _ _ _ Hs Hq) as Hin.
  destruct q; cbn in Hr; [..|done]; by injection Hr as <-.
Qed.
End found.

(** ** A remote call is a local one *)

Section remote.
Context `{SerdeNumber} `{!NumberLaws} `{Formats}.
Context {Status TransportError : Type}.
Implicit Types (σ : SessionState).
Abbreviation client_result := (@client_result Status TransportError).

Definition sent_nodes_found (f : RuntimeNodeFindResultResponse) : RuntimeNodeFindResultResponse :=
  {| nfr_model := nfr_model f; nfr_nodes := sent_node <$> nfr_nodes f;
     nfr_edges := sent_rel <$> nfr_edges f |}.
Definition sent_response (r : RuntimeResponse) : RuntimeResponse :=
  match r with
  | RespSchema (SchemaDefinedNode m) => RespSchema (SchemaDefinedNode (sent_node_model m))
  | RespSchema (SchemaDefinedEdge m) => RespSchema (SchemaDefinedEdge (sent_rel_model m))
  | RespSchema (SchemaListed l) =>
      RespSchema (SchemaListed {| sl_node_models := sent_node_model <$> sl_node_models l;
                                  sl_edge_models := sent_rel_model <$> sl_edge_models l;
                                  sl_backend_id_type := sl_backend_id_type l |})
  | RespNode (NodeCreated n) => RespNode (NodeCreated (sent_node n))
  | RespNode (NodeUpdated n) => RespNode (NodeUpdated (sent_node n))
  | RespNode (NodesFound f) => RespNode (NodesFound (sent_nodes_found f))
  | RespEdge (EdgeCreated e) => RespEdge (EdgeCreated (sent_rel e))
  | RespEdge (EdgeUpdated e) => RespEdge (EdgeUpdated (sent_rel e))
  | RespEdge (EdgesFound f) =>
      RespEdge (EdgesFound {| efr_model := efr_model f; efr_edges := sent_rel <$> efr_edges f |})
  | r => r
  end.

(** The method of the client for each request that answers what the runtime
    answers; a find of nodes is [find_node_results]. *)
Definition client_call (execute : ProtoWorkspaceRuntimeRequest → Status + ProtoWorkspaceRuntimeResponse)
    (c : GrpcWorkspaceClient) (r : RuntimeRequest) : option (client_result RuntimeResponse) :=
  match r with
  | ReqSchema (SchemaDefineNode r) => Some ((RespSchema ∘ SchemaDefinedNode) <$> define_node execute c r)
  | ReqSchema (SchemaDefineEdge r) => Some ((RespSchema ∘ SchemaDefinedEdge) <$> define_edge execute c r)
  | ReqSchema SchemaList => Some ((RespSchema ∘ SchemaListed) <$> client_schema_list execute c)
  | ReqNode (NodeCreate r) => Some ((RespNode ∘ NodeCreated) <$> client_create_node execute c r)
  | ReqNode (NodeUpdate r) => Some ((RespNode ∘ NodeUpdated) <$> client_update_node execute c r)
  | ReqNode (NodeDelete r) => Some ((RespNode ∘ NodeDeleted) <$> client_delete_node execute c r)
  | ReqNode (NodeFind r) => Some ((RespNode ∘ NodesFound) <$> client_find_node_results execute c r)
  | ReqEdge (EdgeCreate r) => Some ((RespEdge ∘ EdgeCreated) <$> client_create_edge execute c r)
  | ReqEdge (EdgeUpdate r) => Some ((RespEdge ∘ EdgeUpdated) <$> client_update_edge execute c r)
  | ReqEdge (EdgeDelete r) => Some ((RespEdge ∘ EdgeDeleted) <$> client_delete_edge execute c r)
  | ReqEdge (EdgeFind r) => Some ((RespEdge ∘ EdgesFound) <$> client_find_edges execute c r)
  | ReqAdmin AdminSummary => Some (RespSummary <$> client_summary execute c)
  | ReqExplain _ | ReqProfile _ _ | ReqBatch _ | ReqQuery _ | ReqAdmin _ => None
  end.

(** The conversions of the handler around a session: the message that answers
    a message, and the session left. *)
Definition serve_message (clock : nat → Z) (message : ProtoWorkspaceRuntimeRequest) σ
    : result ProtoWorkspaceRuntimeResponse * SessionState :=
  match (request ← runtime_request_from_proto message;
         r ← into_runtime_request clock (wrq_request request);
         Ok (wrq_handle request, r)) with
  | Err e => (Err e, σ)
  | Ok (handle, r) =>
      let '(res, σ) := execute_runtime r σ in
      (o ← res;
       runtime_response_to_proto {| wrs_handle := handle; wrs_response := do_response o;
                                    wrs_durable_operations := do_durable_ops o |}, σ)
  end.

(** *** The message of a request *)

Lemma field_from_runtime_sent (f : FieldSpec) : ∃ p, field_spec_to_proto (field_from_runtime f) = Ok p.
Proof. destruct f as [name [] req]; eexists; reflexivity. Qed.
Lemma fields_from_runtime_sent (fs : list FieldSpec) :
  ∃ ps, mapM field_spec_to_proto (map field_from_runtime fs) = Ok ps.
Proof.
  induction fs as [|f fs [ps IH]]; [by eexists|]. destruct (field_from_runtime_sent f) as [p Hp].
  exists (p :: ps). cbn [map]. rewrite mapM_cons, Hp. cbn [mbind result_bind]. by rewrite IH.
Qed.

Lemma call_message (r : RuntimeRequest) s execute c :
  is_Some (client_call execute c r) → client_request r = Some (Ok s) →
  ∃ m, proto_runtime_request_from_service_request s = Ok m.
Proof.
  intros Hcall Hs. destruct r as [[r|r|]|[r|r|r|r]|[r|r|r|r]|q|q|? q|r|[]];
    try (by destruct Hcall); cbn [client_request] in Hs; injection Hs as Hs;
    try (apply fmap_Ok in Hs as (x & _ & <-)); try subst s;
    cbn [proto_runtime_request_from_service_request]; try by eexists.
  - unfold define_node_to_proto. cbn [sdn_fields define_node_from_runtime].
    destruct (fields_from_runtime_sent (dn_fields r)) as [ps ->]. by eexists.
  - unfold define_edge_to_proto. cbn [sde_fields define_edge_from_runtime].
    destruct (fields_from_runtime_sent (de_fields r)) as [ps ->]. by eexists.
Qed.

(** The message a call sends. *)
Definition message_of (c : GrpcWorkspaceClient) (m : ProtoRequest) : ProtoWorkspaceRuntimeRequest :=
  {| pwq_handle := Some (gc_handle c); pwq_request := Some {| prq_request := Some m |} |}.
Definition client_message (c : GrpcWorkspaceClient) (r : RuntimeRequest)
    : option ProtoWorkspaceRuntimeRequest :=
  match client_request r with
  | Some (Ok s) =>
      match proto_runtime_request_from_service_request s with
      | Ok m => Some (message_of c m)
      | Err _ => None
      end
  | _ => None
  end.

Lemma message_served clock c s m r σ :
  proto_runtime_request_from_service_request s = Ok m → into_runtime_request clock s = Ok r →
  serve_message clock (message_of c m) σ =
  let '(res, σ) := execute_runtime r σ in
  (o ← res;
   runtime_response_to_proto {| wrs_handle := {| wh_id := pwh_id (gc_handle c) |}; wrs_response := do_response o;
                                wrs_durable_operations := do_durable_ops o |}, σ).
Proof.
  intros Hm Hr. unfold serve_message, runtime_request_from_proto, message_of.
  cbn [pwq_handle pwq_request required ok_or mbind result_bind]. rewrite (service_request_read _ _ Hm).
  cbn [mbind result_bind wrq_request wrq_handle]. rewrite Hr. cbn [mbind result_bind].
  by destruct c as [w [h]].
Qed.

Lemma ask_answered {A B} execute c request s m expected (variant : ProtoResponse → option A)
    (read : A → client_result B) handle response ops a :
  request = Ok s → proto_runtime_request_from_service_request s = Ok m →
  execute (message_of c m) = inr {| pwrr_handle := handle;
                                    pwrr_response := Some {| prs_response := Some response |};
                                    pwrr_durable_operations := ops |} →
  variant response = Some a → ask execute c request expected variant read = read a.
Proof.
  intros -> Hm Hex Hv. unfold ask, execute_service_request, execute_proto. cbn [runtime mbind client_bind].
  rewrite Hm. cbn [runtime mbind client_bind]. unfold message_of in Hex. rewrite Hex. cbn. by rewrite Hv.
Qed.
Lemma ask_refused {A B} execute c request s m expected (variant : ProtoResponse → option A)
    (read : A → client_result B) st :
  request = Ok s → proto_runtime_request_from_service_request s = Ok m →
  execute (message_of c m) = inl st → ask execute c request expected variant read = inl (CeStatus st).
Proof.
  intros -> Hm Hex. unfold ask, execute_service_request, execute_proto. cbn [runtime mbind client_bind].
  rewrite Hm. cbn [runtime mbind client_bind]. unfold message_of in Hex. by rewrite Hex.
Qed.

Lemma call_refused execute c (r : RuntimeRequest) s m st :
  is_Some (client_call execute c r) → client_request r = Some (Ok s) →
  proto_runtime_request_from_service_request s = Ok m → execute (message_of c m) = inl st →
  client_call execute c r = Some (inl (CeStatus st)).
Proof.
  intros Hcall Hs Hm Hex. destruct r as [[r|r|]|[r|r|r|r]|[r|r|r|r]|q|q|? q|r|[]];
    try (by destruct Hcall); cbn [client_request] in Hs; injection Hs as Hs; cbn [client_call];
    unfold define_node, define_edge, client_schema_list, client_create_node, client_update_node,
      client_delete_node, client_find_node_results, client_create_edge, client_update_edge,
      client_delete_edge, client_find_edges, client_summary;
    by erewrite ask_refused; [|first [exact Hs|by rewrite Hs]|exact Hm|exact Hex].
Qed.

(** *** What the runtime answers can be sent, and is read as it was *)

Lemma mutated_Ok {A} (m : session (RuntimeOperationOutcome A)) f σ o σ' :
  mutated m f σ = (Ok o, σ') →
  ∃ x, m σ = (Ok x, σ') ∧ o = {| do_response := f (ro_value x); do_durable_ops := [ro_durable_op x] |}.
Proof. intros (x & τ & Hx & [= <- <-])%bind_session_Ok. by exists x. Qed.
Lemma answered_Ok {A} (m : session A) f σ o σ' :
  answered m f σ = (Ok o, σ') →
  ∃ x, m σ = (Ok x, σ') ∧ o = {| do_response := f x; do_durable_ops := [] |}.
Proof. intros (x & τ & Hx & [= <- <-])%bind_session_Ok. by exists x. Qed.

Lemma mutation_plain {A} (m : session (RuntimeOperationOutcome A)) mut σ x σ' :
  session_inv σ → room σ → apply_mutation mut = (o ← m; mret (ro_durable_op o)) →
  m σ = (Ok x, σ') → op_shape (ro_durable_op x) →
  op_plain (ro_durable_op x) ∧ (wire_catalog (ss_catalog σ) → wire_catalog (ss_catalog σ')).
Proof.
  intros Hinv Hroom Hmut Hx Hshape. pose proof (mutation_sound mut σ Hinv Hroom) as Hs.
  rewrite Hmut in Hs. apply sound_unbind in Hs. cbn in Hs.
  by apply (sound_plain _ _ _ _ _ Hinv Hs Hx).
Qed.

Lemma mutated_sent {A} (value : A) op :
  op_plain op → ∃ d, proto_mutated value [op] = Ok {| pmu_value := Some value; pmu_durability := Some d |}.
Proof.
  intros Hop. destruct (outcome_sent [op] ltac:(by constructor)) as (d & Hd & _).
  exists d. unfold proto_mutated. cbn [wrapped] in Hd. by rewrite Hd.
Qed.
End remote.

Section reading.
Context `{SerdeNumber} `{!NumberLaws} `{Formats}.
Context {Status TransportError : Type}.
Implicit Types (σ : SessionState).
Abbreviation client_result := (@client_result Status TransportError).

(** How the method of a request reads the message [m]. *)
Definition reading (r : RuntimeRequest) (m : ProtoResponse) : option (client_result RuntimeResponse) :=
  match r, m with
  | ReqSchema (SchemaDefineNode _), PsDefineNode m =>
      Some ((RespSchema ∘ SchemaDefinedNode) <$>
            read_made "DefineNodeResponse.model" runtime_node_model_from_proto m)
  | ReqSchema (SchemaDefineEdge _), PsDefineEdge m =>
      Some ((RespSchema ∘ SchemaDefinedEdge) <$>
            read_made "DefineEdgeResponse.model" runtime_edge_model_from_proto m)
  | ReqSchema SchemaList, PsSchemaList m =>
      Some ((RespSchema ∘ SchemaListed) <$> runtime_schema_list_from_proto m)
  | ReqNode (NodeCreate _), PsCreateNode m =>
      Some ((RespNode ∘ NodeCreated) <$> read_made "NodeCreateResponse.node" stored_node_from_proto m)
  | ReqNode (NodeUpdate _), PsUpdateNode m =>
      Some ((RespNode ∘ NodeUpdated) <$> read_made "NodeUpdateResponse.node" stored_node_from_proto m)
  | ReqNode (NodeDelete _), PsDeleteNode m =>
      Some ((RespNode ∘ NodeDeleted) <$>
            read_made "NodeDeleteResponse.deleted" runtime_delete_from_proto m)
  | ReqNode (NodeFind _), PsFindNodes m =>
      Some ((RespNode ∘ NodesFound) <$> runtime_node_find_result_from_proto m)
  | ReqEdge (EdgeCreate _), PsCreateEdge m =>
      Some ((RespEdge ∘ EdgeCreated) <$> read_made "EdgeCreateResponse.edge" stored_edge_from_proto m)
  | ReqEdge (EdgeUpdate _), PsUpdateEdge m =>
      Some ((RespEdge ∘ EdgeUpdated) <$> read_made "EdgeUpdateResponse.edge" stored_edge_from_proto m)
  | ReqEdge (EdgeDelete _), PsDeleteEdge m =>
      Some ((RespEdge ∘ EdgeDeleted) <$>
            read_made "EdgeDeleteResponse.deleted" runtime_delete_from_proto m)
  | ReqEdge (EdgeFind _), PsFindEdges m =>
      Some ((RespEdge ∘ EdgesFound) <$> runtime_edge_find_from_proto m)
  | ReqAdmin AdminSummary, PsSummary m => Some (RespSummary <$> runtime_summary_from_proto m)
  | _, _ => None
  end.

Lemma call_read execute c (r : RuntimeRequest) s m handle response ops res :
  reading r response = Some res → client_request r = Some (Ok s) →
  proto_runtime_request_from_service_request s = Ok m →
  execute (message_of c m) = inr {| pwrr_handle := handle;
                                    pwrr_response := Some {| prs_response := Some response |};
                                    pwrr_durable_operations := ops |} →
  client_call execute c r = Some res.
Proof.
  intros Hread Hs Hm Hex. destruct r as [[r|r|]|[r|r|r|r]|[r|r|r|r]|q|q|? q|r|[]];
    destruct response; cbn [reading] in Hread; try discriminate Hread; injection Hread as <-;
    cbn [client_request] in Hs; injection Hs as Hs; cbn [client_call];
    unfold define_node, define_edge, client_schema_list, client_create_node, client_update_node,
      client_delete_node, client_find_node_results, client_create_edge, client_update_edge,
      client_delete_edge, client_find_edges, client_summary;
    by erewrite ask_answered; [|first [exact Hs|by rewrite Hs]|exact Hm|exact Hex|reflexivity].
Qed.

Lemma nodes_sent l s σ :
  session_inv σ → same_graph (ss_store σ) s → Forall (node_in s) l →
  ∃ pl, mapM proto_stored_node l = Ok pl ∧ (mapM stored_node_from_proto pl : client_result _) = inr (sent_node <$> l).
Proof.
  intros Hinv (Hn & _) Hl. apply (mapM_sent _ _ _ (λ n, valid_props (sn_props n))); [intros n; apply node_sent|].
  eapply Forall_impl; [exact Hl|]. intros node [id Hid]. apply (node_valid σ id); [done|]. by rewrite Hn.
Qed.
Lemma rels_sent l s σ :
  session_inv σ → same_graph (ss_store σ) s → Forall (rel_in s) l →
  ∃ pl, mapM proto_stored_edge l = Ok pl ∧ (mapM stored_edge_from_proto pl : client_result _) = inr (sent_rel <$> l).
Proof.
  intros Hinv (_ & Hr & _) Hl. apply (mapM_sent _ _ _ (λ n, valid_props (sr_props n))); [intros n; apply rel_sent|].
  eapply Forall_impl; [exact Hl|]. intros rel [id Hid]. apply (rel_valid σ id); [done|]. by rewrite Hr.
Qed.

(** What is claimed of a response. *)
Definition told (r : RuntimeRequest) (o : RuntimeDispatchOutcome) : Prop :=
  ∃ m, proto_response (do_response o) (do_durable_ops o) = Ok m ∧
       reading r m = Some (inr (sent_response (do_response o))).

Lemma schema_told r σ o σ' :
  session_inv σ → wire_catalog (ss_catalog σ) → room σ →
  execute_schema_request r σ = (Ok o, σ') →
  told (ReqSchema r) o ∧ wire_catalog (ss_catalog σ').
Proof.
  intros Hinv Hc Hroom. destruct r as [r|r|]; cbn [execute_schema_request].
  - intros (x & Hx & ->)%mutated_Ok. destruct (define_node_made _ _ _ _ Hx) as [Hop Hw].
    destruct (mutation_plain _ (MDefineNode r) σ x σ' Hinv Hroom eq_refl Hx) as [Hp Hcat];
      [by rewrite Hop|]. split; [|by apply Hcat].
    destruct (node_model_sent (Status := Status) (TransportError := TransportError) _ Hw) as (pm & Hpm & Hback).
    destruct (mutated_sent pm _ Hp) as [d Hd]. unfold told. cbn [do_response do_durable_ops proto_response].
    rewrite Hpm. cbn [mbind result_bind]. rewrite Hd. eexists. split; [reflexivity|].
    cbn [reading read_made pmu_value required_client mbind client_bind]. unfold read_made. cbn. by rewrite Hback.
  - intros (x & Hx & ->)%mutated_Ok. destruct (define_edge_made _ _ _ _ Hx) as [Hop Hw].
    destruct (mutation_plain _ (MDefineEdge r) σ x σ' Hinv Hroom eq_refl Hx) as [Hp Hcat];
      [by rewrite Hop|]. split; [|by apply Hcat].
    destruct (rel_model_sent (Status := Status) (TransportError := TransportError) _ Hw) as (pm & Hpm & Hback).
    destruct (mutated_sent pm _ Hp) as [d Hd]. unfold told. cbn [do_response do_durable_ops proto_response].
    rewrite Hpm. cbn [mbind result_bind]. rewrite Hd. eexists. split; [reflexivity|].
    cbn [reading]. unfold read_made. cbn. by rewrite Hback.
  - intros [= <- <-]. split; [|done]. destruct Hc as [Hn Hr]. unfold told.
    cbn [do_response do_durable_ops proto_response]. unfold proto_schema_list_response.
    destruct (mapM_sent (Status := Status) (TransportError := TransportError) proto_node_model runtime_node_model_from_proto sent_node_model wire_node_model
      (list_node_models (ss_catalog σ))) as (pn & Hpn & Hbn); [apply node_model_sent| |].
    { apply Forall_forall. intros m Hm%elem_of_bt_values. destruct Hm as [name Hm]. by apply (Hn name). }
    destruct (mapM_sent (Status := Status) (TransportError := TransportError) proto_edge_model runtime_edge_model_from_proto sent_rel_model wire_rel_model
      (list_rel_models (ss_catalog σ))) as (pr & Hpr & Hbr); [apply rel_model_sent| |].
    { apply Forall_forall. intros m Hm%elem_of_bt_values. destruct Hm as [name Hm]. by apply (Hr name). }
    cbn [sl_node_models sl_edge_models sl_backend_id_type]. rewrite Hpn, Hpr. eexists. split; [reflexivity|].
    cbn [reading]. unfold runtime_schema_list_from_proto. cbn [psl_node_models psl_edge_models].
    rewrite Hbn. cbn [mbind client_bind]. by rewrite Hbr.
Qed.

Lemma stored_node_told (node : StoredNode) op m (f : StoredNode → RuntimeResponse)
    (g : ProtoMutated ProtoStoredNode → ProtoResponse) field :
  op_plain (UpsertNode node) → op = UpsertNode node →
  (node ← proto_stored_node node; g <$> proto_mutated node [op]) = m →
  ∃ mu, m = Ok (g mu) ∧ (f <$> read_made field stored_node_from_proto mu : client_result _) = inr (f (sent_node node)).
Proof.
  intros Hp -> <-. destruct (node_sent (Status := Status) (TransportError := TransportError) node Hp)
    as (pn & Hpn & Hback). destruct (mutated_sent pn _ Hp) as [d Hd]. rewrite Hpn.
  cbn [mbind result_bind]. rewrite Hd. eexists. split; [reflexivity|]. unfold read_made. cbn. by rewrite Hback.
Qed.
Lemma stored_rel_told (rel : StoredRel) op m (f : StoredRel → RuntimeResponse)
    (g : ProtoMutated ProtoStoredEdge → ProtoResponse) field :
  op_plain (UpsertRel rel) → op = UpsertRel rel →
  (rel ← proto_stored_edge rel; g <$> proto_mutated rel [op]) = m →
  ∃ mu, m = Ok (g mu) ∧ (f <$> read_made field stored_edge_from_proto mu : client_result _) = inr (f (sent_rel rel)).
Proof.
  intros Hp -> <-. destruct (rel_sent (Status := Status) (TransportError := TransportError) rel Hp)
    as (pn & Hpn & Hback). destruct (mutated_sent pn _ Hp) as [d Hd]. rewrite Hpn.
  cbn [mbind result_bind]. rewrite Hd. eexists. split; [reflexivity|]. unfold read_made. cbn. by rewrite Hback.
Qed.
Lemma deleted_told (deleted : RuntimeDelete) op (f : RuntimeDelete → RuntimeResponse)
    (g : ProtoMutated ProtoDeleteResult → ProtoResponse) field :
  op_plain op →
  ∃ mu, g <$> proto_mutated (proto_delete_result deleted) [op] = Ok (g mu) ∧
    (f <$> read_made field runtime_delete_from_proto mu : client_result _) = inr (f deleted).
Proof.
  intros Hp. destruct (mutated_sent (proto_delete_result deleted) _ Hp) as [d Hd]. rewrite Hd.
  eexists. split; [reflexivity|]. by destruct deleted.
Qed.

#[local] Ltac tell lem :=
  let Hm := fresh in let Hread := fresh in
  destruct lem as (? & Hm & Hread); unfold told; cbn [do_response do_durable_ops proto_response];
  rewrite Hm; eexists; split; [reflexivity|]; cbn [reading]; rewrite Hread.

Lemma node_find_told (r : NodeFindRequest) σ o σ' :
  session_inv σ → answered (node_find_result_response r) nodes_found σ = (Ok o, σ') →
  told (ReqNode (NodeFind r)) o ∧ ss_catalog σ' = ss_catalog σ.
Proof.
  intros Hinv (x & Hx & ->)%answered_Ok. unfold node_find_result_response, catalog, on_store in Hx.
  unfold mbind, session_bind in Hx.
  pose proof (node_find_kept (ss_catalog σ) node_id_type r (ss_store σ) (si_ready _ Hinv)) as Hk.
  destruct (node_find (ss_catalog σ) node_id_type r (ss_store σ)) as [[found|e] s] eqn:Hf; [|done].
  injection Hx as <- <-. destruct Hk as [_ Hsame]. split; [|done].
  pose proof (node_find_in _ _ _ _ _ _ (si_ready _ Hinv) Hf) as Hin. unfold told.
  cbn [do_response do_durable_ops proto_response nodes_found].
  destruct found as [ns|rs]; cbn [found_response nfr_nodes nfr_edges nfr_model]; cbn in Hin.
  - destruct (nodes_sent ns s σ Hinv Hsame Hin) as (pl & Hpl & Hback). rewrite Hpl.
    eexists. split; [reflexivity|]. cbn [reading]. unfold runtime_node_find_result_from_proto.
    cbn [pnr_nodes pnr_edges pnr_model]. by rewrite Hback.
  - destruct (rels_sent rs s σ Hinv Hsame Hin) as (pl & Hpl & Hback). cbn [mapM mbind result_bind mret result_ret].
    rewrite Hpl. eexists. split; [reflexivity|]. cbn [reading]. unfold runtime_node_find_result_from_proto.
    cbn [pnr_nodes pnr_edges pnr_model mapM mbind client_bind mret client_ret].
    by rewrite Hback.
Qed.
Lemma edge_find_told (r : EdgeFindRequest) σ o σ' :
  session_inv σ → answered (edge_find_response r) edges_found σ = (Ok o, σ') →
  told (ReqEdge (EdgeFind r)) o ∧ ss_catalog σ' = ss_catalog σ.
Proof.
  intros Hinv (x & Hx & ->)%answered_Ok. unfold edge_find_response, catalog, on_store in Hx.
  unfold mbind, session_bind in Hx.
  destruct (edge_find (ss_catalog σ) rel_id_type r (ss_store σ)) as [found|e] eqn:Hf; [|done].
  injection Hx as <- <-. split; [|done]. pose proof (edges_found_in _ _ _ _ _ Hf) as Hin. unfold told.
  cbn [do_response do_durable_ops proto_response edges_found efr_model efr_edges].
  destruct (rels_sent found _ σ Hinv ltac:(done) Hin) as (pl & Hpl & Hback). rewrite Hpl.
  eexists. split; [reflexivity|]. cbn [reading]. unfold runtime_edge_find_from_proto.
  cbn [per_edges per_model]. by rewrite Hback.
Qed.

Lemma node_told r σ o σ' :
  session_inv σ → wire_catalog (ss_catalog σ) → room σ →
  execute_node_request r σ = (Ok o, σ') → told (ReqNode r) o ∧ wire_catalog (ss_catalog σ').
Proof.
  intros Hinv Hc Hroom. destruct r as [r|r|r|r]; cbn [execute_node_request].
  4: { intros [Ht ->]%node_find_told; [by split|done]. }
  all: intros (x & Hx & ->)%mutated_Ok.
  - pose proof (node_create_made _ _ _ _ Hx) as Hop.
    destruct (mutation_plain _ (MNodeCreate r) σ x σ' Hinv Hroom eq_refl Hx) as [Hp Hcat];
      [by rewrite Hop|]. split; [|by apply Hcat]. rewrite Hop in Hp.
    by tell (stored_node_told _ _ _ (RespNode ∘ NodeCreated) PsCreateNode "NodeCreateResponse.node" Hp Hop eq_refl).
  - pose proof (node_update_made _ _ _ _ Hx) as Hop.
    destruct (mutation_plain _ (MNodeUpdate r) σ x σ' Hinv Hroom eq_refl Hx) as [Hp Hcat];
      [by rewrite Hop|]. split; [|by apply Hcat]. rewrite Hop in Hp.
    by tell (stored_node_told _ _ _ (RespNode ∘ NodeUpdated) PsUpdateNode "NodeUpdateResponse.node" Hp Hop eq_refl).
  - pose proof (node_delete_made _ _ _ _ Hx) as Hop.
    destruct (mutation_plain _ (MNodeDelete r) σ x σ' Hinv Hroom eq_refl Hx) as [Hp Hcat];
      [by rewrite Hop|]. split; [|by apply Hcat].
    by tell (deleted_told (ro_value x) _ (RespNode ∘ NodeDeleted) PsDeleteNode "NodeDeleteResponse.deleted" Hp).
Qed.
Lemma edge_told r σ o σ' :
  session_inv σ → wire_catalog (ss_catalog σ) → room σ →
  execute_edge_request r σ = (Ok o, σ') → told (ReqEdge r) o ∧ wire_catalog (ss_catalog σ').
Proof.
  intros Hinv Hc Hroom. destruct r as [r|r|r|r]; cbn [execute_edge_request].
  4: { intros [Ht ->]%edge_find_told; [by split|done]. }
  all: intros (x & Hx & ->)%mutated_Ok.
  - pose proof (edge_create_made _ _ _ _ Hx) as Hop.
    destruct (mutation_plain _ (MEdgeCreate r) σ x σ' Hinv Hroom eq_refl Hx) as [Hp Hcat];
      [by rewrite Hop|]. split; [|by apply Hcat]. rewrite Hop in Hp.
    by tell (stored_rel_told _ _ _ (RespEdge ∘ EdgeCreated) PsCreateEdge "EdgeCreateResponse.edge" Hp Hop eq_refl).
  - pose proof (edge_update_made _ _ _ _ Hx) as Hop.
    destruct (mutation_plain _ (MEdgeUpdate r) σ x σ' Hinv Hroom eq_refl Hx) as [Hp Hcat];
      [by rewrite Hop|]. split; [|by apply Hcat]. rewrite Hop in Hp.
    by tell (stored_rel_told _ _ _ (RespEdge ∘ EdgeUpdated) PsUpdateEdge "EdgeUpdateResponse.edge" Hp Hop eq_refl).
  - pose proof (edge_delete_made _ _ _ _ Hx) as Hop.
    destruct (mutation_plain _ (MEdgeDelete r) σ x σ' Hinv Hroom eq_refl Hx) as [Hp Hcat];
      [by rewrite Hop|]. split; [|by apply Hcat].
    by tell (deleted_told (ro_value x) _ (RespEdge ∘ EdgeDeleted) PsDeleteEdge "EdgeDeleteResponse.deleted" Hp).
Qed.

Lemma counts_round (l : list RuntimeModelCount) : runtime_model_count_from_proto <$> (proto_model_count <$> l) = l.
Proof. rewrite <-list_fmap_compose. induction l as [|[m c] l IH]; [done|]. cbn. by f_equal. Qed.
Lemma summary_told σ o σ' :
  answered runtime_summary RespSummary σ = (Ok o, σ') →
  told (ReqAdmin AdminSummary) o ∧ ss_catalog σ' = ss_catalog σ.
Proof.
  intros (x & Hx & ->)%answered_Ok. unfold runtime_summary in Hx.
  destruct (summary_counts_by_storage_type (ss_store σ)) as [[[nc ec] nl] et].
  injection Hx as <- <-. split; [|done]. unfold told. eexists. split; [reflexivity|].
  cbn [reading do_response]. unfold runtime_summary_from_proto, proto_summary_response.
  cbn [psr_node_model_count psr_node_counts psr_edge_model_count psr_edge_counts rs_node_counts rs_edge_counts
       rs_node_model_count rs_edge_model_count psr_node_count psr_edge_count psr_backend].
  rewrite !length_fmap, !Nat.eqb_refl. cbn [negb]. by rewrite !counts_round.
Qed.

Lemma runtime_told (r : RuntimeRequest) (f : Value → Value) clock
    (execute : ProtoWorkspaceRuntimeRequest → Status + ProtoWorkspaceRuntimeResponse) c σ o σ' :
  session_inv σ → wire_catalog (ss_catalog σ) → room σ →
  is_Some (client_call (TransportError := TransportError) execute c r) →
  execute_runtime (map_request f clock r) σ = (Ok o, σ') →
  told r o ∧ wire_catalog (ss_catalog σ').
Proof.
  intros Hinv Hc Hroom Hcall.
  destruct r as [r|r|r|q|q|? q|r|r]; try (by destruct Hcall); cbn [map_request execute_runtime].
  - by apply schema_told.
  - intros Hex. by destruct r; destruct (node_told _ _ _ _ Hinv Hc Hroom Hex).
  - intros Hex. by destruct r; destruct (edge_told _ _ _ _ Hinv Hc Hroom Hex).
  - destruct r; try (by destruct Hcall). intros Hex. by destruct (summary_told _ _ _ Hex) as [Ht ->].
Qed.

(** The operations of an answer are sent beside it. *)
Lemma operations_told clock (execute : ProtoWorkspaceRuntimeRequest → Status + ProtoWorkspaceRuntimeResponse)
    c f (r : RuntimeRequest) σ o σ' pm :
  is_Some (client_call (TransportError := TransportError) execute c r) →
  execute_runtime (map_request f clock r) σ = (Ok o, σ') →
  proto_response (do_response o) (do_durable_ops o) = Ok pm →
  ∃ ops, mapM proto_durable_operation (do_durable_ops o) = Ok ops.
Proof.
  intros Hcall Hrun.
  assert ((∃ A (v : A) d, proto_mutated v (do_durable_ops o) = Ok d) →
          ∃ ops, mapM proto_durable_operation (do_durable_ops o) = Ok ops) as Hops.
  { intros (A & v & d & Hd). unfold proto_mutated, proto_durable_mutation_outcome in Hd.
    apply bind_Ok in Hd as (? & Hd & _). apply bind_Ok in Hd as (ops & Hd & _). by exists ops. }
  destruct r as [[r|r|]|[r|r|r|r]|[r|r|r|r]|q|q|? q|r|[]]; try (by destruct Hcall);
    cbn [map_request execute_runtime execute_schema_request execute_node_request
         execute_edge_request] in Hrun.
  all: first [apply mutated_Ok in Hrun as (x & _ & ->)|apply answered_Ok in Hrun as (x & _ & ->); by eexists].
  all: cbn [do_response do_durable_ops proto_response]; intros Hm.
  all: try (apply fmap_Ok in Hm as (d & Hd & _); apply Hops; eexists _, _, d; exact Hd).
  all: apply bind_Ok in Hm as (? & _ & Hm); apply fmap_Ok in Hm as (d & Hd & _).
  all: apply Hops; eexists _, _, d; exact Hd.
Qed.

Lemma remote_called clock (execute : ProtoWorkspaceRuntimeRequest → Status + ProtoWorkspaceRuntimeResponse)
    status_of c (r : RuntimeRequest) σ :
  session_inv σ → wire_catalog (ss_catalog σ) → room σ → sendable r →
  is_Some (client_call (TransportError := TransportError) execute c r) →
  (∀ message, execute message = match (serve_message clock message σ).1 with
                                | Ok response => inr response
                                | Err e => inl (status_of e)
                                end) →
  let '(res, σ') := execute_runtime (map_request received clock r) σ in
  client_call (TransportError := TransportError) execute c r
    = Some match res with
           | Ok o => inr (sent_response (do_response o))
           | Err e => inl (CeStatus (status_of e))
           end ∧
  (∃ message, client_message c r = Some message ∧ (serve_message clock message σ).2 = σ') ∧
  (is_ok res = true → wire_catalog (ss_catalog σ')).
Proof.
  intros Hinv Hc Hroom Hr Hcall Hex.
  destruct (client_request_transported clock r Hr) as (s & Hs & Hback & _).
  destruct (call_message r s execute c Hcall Hs) as [m Hm].
  pose proof (message_served clock c s m _ σ Hm Hback) as Hserve.
  specialize (Hex (message_of c m)). rewrite Hserve in Hex.
  destruct (execute_runtime (map_request received clock r) σ) as [res σ'] eqn:Hrun.
  split; [|split].
  - destruct res as [o|e]; cbn [mbind result_bind fst] in Hex.
    + destruct (runtime_told r _ _ _ c _ _ _ Hinv Hc Hroom Hcall Hrun) as [(pm & Hpm & Hread) _].
      destruct (operations_told clock execute c _ r _ _ _ _ Hcall Hrun Hpm) as [ops Hops].
      unfold runtime_response_to_proto, proto_runtime_response in Hex.
      cbn [wrs_response wrs_durable_operations wrs_handle] in Hex. rewrite Hpm in Hex.
      cbn [fmap result_fmap mbind result_bind] in Hex. rewrite Hops in Hex.
      by apply (call_read execute c r s m _ _ _ _ Hread Hs Hm Hex).
    + by apply (call_refused execute c r s m).
  - exists (message_of c m). split; [unfold client_message; by rewrite Hs, Hm|]. by rewrite Hserve.
  - destruct res as [o|e]; [|done]. intros _.
    by destruct (runtime_told r _ _ _ c _ _ _ Hinv Hc Hroom Hcall Hrun).
Qed.


(** the answer of a batch can always be sent, for a batch of fewer than
    2^32 operations: the message tells whether it was applied, how many
    operations it had and whether it changed anything durable, as the runtime's
    answer does; and a plan the runtime explains is told step by step, with each
    index it uses once. *)
Theorem batch_and_plan_answers_are_sent params σ command target plan :
  session_inv σ → wire_catalog (ss_catalog σ) →
  room_for (length (bp_ops params)) σ → fits_u32 (length (bp_ops params)) →
  let '(o, σ') := apply_session_batch params σ in
  (∃ su m d, bo_value o = into_value su ∧
    proto_batch_response {| rb_value := bo_value o; rb_should_persist := bo_should_persist o |}
      (bo_durable_ops o) = Ok m ∧
    pbs_applied m = su_applied su ∧ pbs_operation_count m = Z.of_nat (su_operation_count su) ∧
    pbs_durability m = Some d ∧
    rb_should_persist (runtime_batch_response_from_proto m) = negb (bool_decide (bo_durable_ops o = []))) ∧
  wire_catalog (ss_catalog σ') ∧
  ∃ m, proto_explain_response (explain_value command target plan) = Ok m ∧ tells command plan m.
Proof.
  intros Hinv Hc Hroom Hfits. pose proof (batch_answered params σ Hinv Hroom Hfits Hc) as Hb.
  destruct (apply_session_batch params σ) as [o σ'].
  destruct Hb as [Hc' (su & n & Hv & Hsu & Hn) (ops & Hops & Hplain)].
  split; [|split; [done|apply explain_sent]].
  destruct (outcome_sent ops Hplain) as (d & Hd & Hdur).
  destruct (batch_sent n su (bo_should_persist o) _ d Hn Hsu Hd) as (m & Hm & Happ & _ & Hcount & Hdm).
  exists su, m, d. rewrite Hv, Hops. split_and!; try done.
  unfold runtime_batch_response_from_proto. cbn [rb_should_persist]. rewrite Hdm, Hdur.
  f_equal. apply bool_decide_ext. destruct ops as [|op [|op' ops]]; cbn; naive_solver.
Qed.
End reading.

(** ** At a concrete session *)

Section client_witness.
#[local] Existing Instance serde_default.
#[local] Existing Instance w_formats.

Definition w_define : RuntimeRequest :=
  ReqSchema (SchemaDefineNode {| dn_name := "Person"; dn_id_field := "person_id";
    dn_fields := [{| fs_name := "name"; fs_value_type := FString; fs_required := true |}] |}).
Definition w_client : GrpcWorkspaceClient :=
  {| gc_workspace := {| pwr_id := "people" |}; gc_handle := {| pwh_id := "workspace-1" |} |}.
(** A server whose status is the error's text. *)
Definition w_execute (message : ProtoWorkspaceRuntimeRequest) : string + ProtoWorkspaceRuntimeResponse :=
  match (serve_message (λ _, 0%Z) message session_new).1 with
  | Ok response => inr response
  | Err e => inl (error_to_string e)
  end.

Lemma session_new_wire : wire_catalog (ss_catalog session_new).
Proof.
  split; intros name m Hl; [change (node_models _) with (∅ : gmap string RuntimeNodeModel) in Hl
    |change (rel_models _) with (∅ : gmap string RuntimeRelModel) in Hl];
    by rewrite lookup_empty in Hl.
Qed.


Definition w_explained : ExecutionPlan := {| ep_steps := [] |}.
Lemma batch_and_plan_answers_are_sent_witness :
  let '(o, σ') := apply_session_batch (w_batch false) session_new in
  ∃ m, proto_batch_response {| rb_value := bo_value o; rb_should_persist := bo_should_persist o |}
         (bo_durable_ops o) = Ok m.
Proof.
  pose proof (batch_and_plan_answers_are_sent (w_batch false) session_new "node.find" "Person" w_explained
    session_new_inv session_new_wire) as Hb.
  destruct (apply_session_batch (w_batch false) session_new) as [o σ'].
  destruct Hb as ((su & m & d & _ & Hm & _) & _).
  - vm_compute. split; discriminate.
  - vm_compute. discriminate.
  - exists m. exact Hm.
Defined.
End client_witness.
