(* ===== verification/Handlers.v ===== *)
(** * The handlers of the service ([src/grm-service-api/src/lib.rs])

    [GrpcWorkspaceService]: every call is authenticated, classified, authorised,
    admitted and audited around the call of the in-process service.  A call is
    served to its end before the next one begins: the handlers hold the lock of
    the service from the classification of a request to its effect, and the
    interleavings of the rest are not modelled.  [tonic]'s request is what the
    handlers ask of it. *)

From S2P Require Export Wire AuditSink.

Local Open Scope string_scope.
Local Open Scope Z_scope.

(** ** Addresses ([std::net]'s parser) *)

Section addresses.

(** The digits at the front of a text, and their number. *)
Fixpoint read_digits (radix : Z) (s : string) : list Z * string :=
  match s with
  | String c rest =>
      match hex_nibble c with
      | Some d => if (d <? radix) then let '(ds, rest) := read_digits radix rest in (d :: ds, rest)
                  else ([], s)
      | None => ([], s)
      end
  | EmptyString => ([], s)
  end.
Definition read_number (radix : Z) (max_digits : option nat) (allow_zero_prefix : bool) (max : Z)
    (s : string) : option (Z * string) :=
  let '(ds, rest) := read_digits radix s in
  let value := foldl (λ n d, n * radix + d) 0 ds in
  if match max_digits with Some m => (m <? length ds)%nat | None => false end then None
  else if (length ds =? 0)%nat then None
  else if negb allow_zero_prefix && bool_decide (head ds = Some 0) && (1 <? length ds)%nat then None
  else if (max <? value) then None
  else Some (value, rest).

Definition read_given_char (c : ascii) (s : string) : option string :=
  match s with String c' s => if Ascii.eqb c c' then Some s else None | EmptyString => None end.
(** The separator comes before every item but the first. *)
Definition read_separator {A} (sep : ascii) (first : bool) (read : string → option (A * string))
    (s : string) : option (A * string) :=
  if first then read s else s ← read_given_char sep s; read s.

Fixpoint read_octets (n : nat) (first : bool) (s : string) : option (list Z * string) :=
  match n with
  | O => Some ([], s)
  | S n =>
      '(octet, s) ← read_separator "."%char first (read_number 10 (Some 3%nat) false 255) s;
      '(octets, s) ← read_octets n false s;
      Some (octet :: octets, s)
  end.
Definition read_ipv4_addr (s : string) : option (list Z * string) := read_octets 4 true s.

(** [read_groups], and whether an IPv4 address ended it; [n] groups are left. *)
Fixpoint read_groups (n : nat) (first : bool) (s : string) : list Z * bool * string :=
  match n with
  | O => ([], false, s)
  | S n' =>
      match (if (0 <? n')%nat then read_separator ":"%char first read_ipv4_addr s else None) with
      | Some ([a; b; c; d], s) => ([a * 256 + b; c * 256 + d], true, s)
      | _ =>
          match read_separator ":"%char first (read_number 16 (Some 4%nat) true 65535) s with
          | Some (group, s) =>
              let '(groups, ipv4, s) := read_groups n' false s in (group :: groups, ipv4, s)
          | None => ([], false, s)
          end
      end
  end.
Definition read_ipv6_addr (s : string) : option (list Z * string) :=
  let '(groups, ipv4, s) := read_groups 8 true s in
  if (length groups =? 8)%nat then Some (groups, s)
  else if ipv4 then None
  else
    s ← read_given_char ":"%char s;
    s ← read_given_char ":"%char s;
    let '(back, _, s) := read_groups (8 - (length groups + 1)) true s in
    Some (groups ++ replicate (8 - length groups - length back) 0 ++ back, s)%list.

Inductive IpAddr := V4 (octets : list Z) | V6 (groups : list Z).
Definition read_ip_addr (s : string) : option (IpAddr * string) :=
  match read_ipv4_addr s with
  | Some (a, s) => Some (V4 a, s)
  | None => '(a, s) ← read_ipv6_addr s; Some (V6 a, s)
  end.
Definition read_port (s : string) : option (Z * string) :=
  s ← read_given_char ":"%char s; read_number 10 None true 65535 s.
Definition read_socket_addr (s : string) : option (IpAddr * string) :=
  match ('(a, s) ← read_ipv4_addr s; '(_, s) ← read_port s; Some (V4 a, s)) with
  | Some a => Some a
  | None =>
      s ← read_given_char "["%char s;
      '(a, s) ← read_ipv6_addr s;
      let s := default s (s ← read_given_char "%"%char s; '(_, s) ← read_number 10 None true 4294967295 s;
                          Some s) in
      s ← read_given_char "]"%char s;
      '(_, s) ← read_port s;
      Some (V6 a, s)
  end.
(** [str::parse]: the whole text is read. *)
Definition parse_with (read : string → option (IpAddr * string)) (s : string) : option IpAddr :=
  '(a, rest) ← read s; if str_is_empty rest then Some a else None.
Definition is_loopback (a : IpAddr) : bool :=
  match a with
  | V4 octets => bool_decide (head octets = Some 127)
  | V6 groups => bool_decide (groups = [0; 0; 0; 0; 0; 0; 0; 1])
  end.
Definition transport_peer_is_loopback (peer : TransportPeer) : bool :=
  match remote_address peer with
  | None => true
  | Some address =>
      match (match parse_with read_socket_addr address with
             | Some a => Some a
             | None => parse_with read_ip_addr address
             end) with
      | Some a => is_loopback a
      | None => false
      end
  end.
End addresses.

Section loopback_examples.
Definition w_peer (address : string) : TransportPeer :=
  {| remote_address := Some address; client_certificate_present := false;
     client_certificate_leaf_der := None |}.
Example loopback_v4 : transport_peer_is_loopback (w_peer "127.0.0.1:50051") = true.
Proof. reflexivity. Qed.
Example loopback_v6 : transport_peer_is_loopback (w_peer "[::1]:50051") = true.
Proof. reflexivity. Qed.
Example other_v4 : transport_peer_is_loopback (w_peer "10.127.0.1:50051") = false.
Proof. reflexivity. Qed.
Example mapped_v6 : transport_peer_is_loopback (w_peer "[::ffff:127.0.0.1]:1") = false.
Proof. reflexivity. Qed.
Example address_only : transport_peer_is_loopback (w_peer "::1") = true.
Proof. reflexivity. Qed.
Example no_address : transport_peer_is_loopback (w_peer "127.0.0.1:99999") = false.
Proof. reflexivity. Qed.
End loopback_examples.

(** ** Statuses *)

(** [tonic::Code], the codes the handlers use. *)
Inductive StatusCode :=
  | CodeInvalidArgument | CodeNotFound | CodeAlreadyExists | CodePermissionDenied
  | CodeResourceExhausted | CodeUnimplemented | CodeUnavailable | CodeUnauthenticated.
Record Status := { st_code : StatusCode; st_message : string }.
#[local] Abbreviation stat := Build_Status.

Definition security_status (error : SecurityEnforcementError) : Status :=
  match error with
  | AnonymousLocalRemotePeer =>
      stat CodePermissionDenied "anonymous local profile requires a loopback peer"
  | InvalidActorAssertion => stat CodeInvalidArgument "actor assertion metadata is not valid ASCII"
  | AuthenticationFailed => stat CodeUnauthenticated "application authentication failed"
  | MissingPrincipal => stat CodeUnauthenticated "authenticated application principal required"
  | PolicyEvaluationFailed => stat CodeUnavailable "authorization policy evaluation failed"
  | Denied => stat CodePermissionDenied "authorization denied"
  | AuditClassificationOverflow => stat CodeInvalidArgument
      "request is too large for the security audit record: classification exceeds bounded limits"
  | AuditEventTooLarge => stat CodeResourceExhausted
      "request is too large for the security audit record: event exceeds byte limit"
  | AuditSinkUnavailable => stat CodeUnavailable "authoritative security audit sink unavailable"
  end.
Definition proto_status (error : GrmError) : Status :=
  match error with
  | NotSupported message => stat CodeUnimplemented message
  | other => stat CodeInvalidArgument (error_to_string other)
  end.
Definition workspace_status (error : WorkspaceServiceError) : Status :=
  match error with
  | SeWorkspaceAlreadyExists _ => stat CodeAlreadyExists (service_error_to_string error)
  | SeUnknownWorkspaceHandle _ | SeUnknownSnapshotHandle _ =>
      stat CodeNotFound (service_error_to_string error)
  | SeUnsupportedWorkspaceOperation _ => stat CodeUnimplemented (service_error_to_string error)
  | SeRuntime error => proto_status error
  end.
(** The answer of every call that is not of a workspace. *)
Definition unsupported_rpc (name : string) : Status :=
  stat CodeUnimplemented (name +:+ " is not exposed by this local gRPC workspace shell; use ExecuteWorkspace for workspace-scoped runtime requests").

(** ** The log line of a call *)

Record WorkspaceOperationSummary := {
  os_operation : string;
  os_models_defined : Z; os_models_read : Z; os_links_defined : Z; os_links_read : Z;
  os_nodes_created : Z; os_nodes_read : Z; os_nodes_updated : Z; os_nodes_deleted : Z;
  os_edges_created : Z; os_edges_read : Z; os_edges_updated : Z; os_edges_deleted : Z;
}.
(** [..Self::default()]: the schema counts, the node counts, the edge counts. *)
Definition op_summary (operation : string) (models links nodes edges : list Z) : WorkspaceOperationSummary :=
  let at_ (l : list Z) (i : nat) := default 0 (l !! i) in
  {| os_operation := operation;
     os_models_defined := at_ models 0%nat; os_models_read := at_ models 1%nat;
     os_links_defined := at_ links 0%nat; os_links_read := at_ links 1%nat;
     os_nodes_created := at_ nodes 0%nat; os_nodes_read := at_ nodes 1%nat;
     os_nodes_updated := at_ nodes 2%nat; os_nodes_deleted := at_ nodes 3%nat;
     os_edges_created := at_ edges 0%nat; os_edges_read := at_ edges 1%nat;
     os_edges_updated := at_ edges 2%nat; os_edges_deleted := at_ edges 3%nat |}.

Section summaries.
Context `{SerdeNumber} `{Formats}.

(** The sum is of [usize]. *)
Definition batch_operation_count (value : Value) (operation : string) : Z :=
  match Wire.get value "counts" ≫= as_object with
  | None => 0
  | Some counts =>
      match object_get counts operation ≫= as_object with
      | None => 0
      | Some models => foldl (λ n count, (n + count) `mod` 2 ^ 64) 0 (omap (λ m, as_u64 m.2) models)
      end
  end.

Definition from_response (response : RuntimeResponse) : WorkspaceOperationSummary :=
  let len {A} (l : list A) := Z.of_nat (length l) in
  match response with
  | RespSchema (SchemaDefinedNode _) => op_summary "schema.define" [1] [] [] []
  | RespSchema (SchemaDefinedEdge _) => op_summary "schema.define" [] [1] [] []
  | RespSchema (SchemaListed schema) =>
      op_summary "schema.list" [0; len (sl_node_models schema)] [0; len (sl_edge_models schema)] [] []
  | RespNode (NodeCreated _) => op_summary "node.create" [] [] [1] []
  | RespNode (NodeUpdated _) => op_summary "node.update" [] [] [0; 0; 1] []
  | RespNode (NodeDeleted _) => op_summary "node.delete" [] [] [0; 0; 0; 1] []
  | RespNode (NodesFound found) =>
      op_summary "node.find" [] [] [0; len (nfr_nodes found)] [0; len (nfr_edges found)]
  | RespEdge (EdgeCreated _) => op_summary "edge.create" [] [] [] [1]
  | RespEdge (EdgeUpdated _) => op_summary "edge.update" [] [] [] [0; 0; 1]
  | RespEdge (EdgeDeleted _) => op_summary "edge.delete" [] [] [] [0; 0; 0; 1]
  | RespEdge (EdgesFound found) => op_summary "edge.find" [] [] [] [0; len (efr_edges found)]
  | RespExplain _ => op_summary "explain" [] [] [] []
  | RespProfile _ => op_summary "profile" [] [] [] []
  | RespBatch batch =>
      let count := batch_operation_count (rb_value batch) in
      op_summary "batch" [count "schema_define_node"] [count "schema_define_edge"]
        [count "node_create"; 0; count "node_update"; count "node_delete"]
        [count "edge_create"; 0; count "edge_update"; count "edge_delete"]
  | RespSummary summary =>
      op_summary "summary" [0; Z.of_nat (rs_node_model_count summary)]
        [0; Z.of_nat (rs_edge_model_count summary)] [0; Z.of_nat (rs_node_count summary)]
        [0; Z.of_nat (rs_edge_count summary)]
  end.
End summaries.

Definition render (summary : WorkspaceOperationSummary) (workspace : string) : string :=
  foldl (λ log '(name, count),
      if (0 <? count) then log +:+ " " +:+ name +:+ "=" +:+ u_to_string count else log)
    ("workspace_operation completed workspace=" +:+ workspace +:+ " operation="
     +:+ os_operation summary)
    [("models_defined", os_models_defined summary); ("models_read", os_models_read summary);
     ("links_defined", os_links_defined summary); ("links_read", os_links_read summary);
     ("nodes_created", os_nodes_created summary); ("nodes_read", os_nodes_read summary);
     ("nodes_updated", os_nodes_updated summary); ("nodes_deleted", os_nodes_deleted summary);
     ("edges_created", os_edges_created summary); ("edges_read", os_edges_read summary);
     ("edges_updated", os_edges_updated summary); ("edges_deleted", os_edges_deleted summary)].
(** The line [log_workspace_lifecycle] prints. *)
Definition log_workspace_lifecycle (workspace operation : string) : string :=
  render (op_summary operation [] [] [] []) workspace.

(** ** Codes and labels of the audit *)

Definition security_profile_code (profile : ServiceSecurityProfile) : Z :=
  match profile with AnonymousLocal => 1 | DockerLocalInsecure => 2 | Secured => 3 end.
Definition security_identity_status_code (profile : ServiceSecurityProfile)
    (principal : option Principal) : Z :=
  match profile, principal with
  | _, Some _ => 3
  | AnonymousLocal, None => 1
  | DockerLocalInsecure, None => 2
  | Secured, None => 0
  end.
Definition security_audit_mode_code (mode : SecurityAuditMode) : Z :=
  match mode with BestEffort => 1 | Mandatory => 2 end.
Definition security_audit_sink_health_code (health : SecurityAuditSinkHealth) : Z :=
  match health with SinkHealthy => 1 | SinkDegraded => 2 end.
Definition security_audit_stage_code (stage : SecurityAuditStage) : Z :=
  match stage with
  | StAttempt => 1 | StAuthentication => 2 | StAuthorization => 3 | StAdmission => 4
  | StRuntime => 5 | StDurability => 6 | StDelivery => 7
  end.
Definition security_audit_decision_code (decision : SecurityAuditDecision) : Z :=
  match decision with DecNotApplicable => 1 | DecAllow => 2 | DecDeny => 3 | DecError => 4 end.
Definition security_audit_runtime_outcome_code (outcome : SecurityAuditRuntimeOutcome) : Z :=
  match outcome with RoNotReached => 1 | RoSucceeded => 2 | RoFailed => 3 end.
Definition security_audit_durability_outcome_code (outcome : SecurityAuditDurabilityOutcome) : Z :=
  match outcome with
  | DoNotApplicable => 1 | DoCommitted => 2 | DoNotCommitted => 3 | DoUnknown => 4
  end.
Definition security_audit_delivery_outcome_code (outcome : SecurityAuditDeliveryOutcome) : Z :=
  match outcome with DlNotReached => 1 | DlHandedOff => 2 | DlUnknown => 3 end.
Definition security_audit_reason_label (reason : SecurityAuditReason) : string :=
  match reason with
  | RsRequestReceived => "request_received"
  | RsAnonymousLocalProfile => "anonymous_local_profile"
  | RsExplicitPolicyAllow => "explicit_policy_allow"
  | RsNoMatchingPermission => "no_matching_permission"
  | RsInvalidActorAssertion => "invalid_actor_assertion"
  | RsAuthenticationFailed => "authentication_failed"
  | RsMissingPrincipal => "missing_principal"
  | RsPolicyEvaluationFailed => "policy_evaluation_failed"
  | RsMalformedRequest => "malformed_request"
  | RsScopeRejected => "scope_rejected"
  | RsLimitExceeded => "limit_exceeded"
  | RsClassificationOverflow => "classification_overflow"
  | RsRuntimeSucceeded => "runtime_succeeded"
  | RsRuntimeFailed => "runtime_failed"
  | RsCommitted => "committed"
  | RsNotCommitted => "not_committed"
  | RsUnknownDurability => "unknown_durability"
  | RsNotApplicable => "not_applicable"
  | RsResponseHandedOff => "response_handed_off"
  | RsUnknownDelivery => "unknown_delivery"
  | RsSinkUnavailable => "sink_unavailable"
  end.

Definition SECURITY_STATUS_MAX_FIELD_BYTES : nat := 256.
Definition bounded_security_status_field (value : string) : string :=
  if (String.length value <=? SECURITY_STATUS_MAX_FIELD_BYTES)%nat then value
  else "<redacted:too-long>".

(** Whole seconds and three digits of milliseconds. *)
Definition system_time_rfc3339ish (time : Z) : string :=
  if (time <? 0) then "before_unix_epoch"
  else
    let millis := time `mod` 10 ^ 9 / 10 ^ 6 in
    u_to_string (time / 10 ^ 9) +:+ "."
    +:+ String (digit_char (millis / 100))
          (String (digit_char (millis / 10 `mod` 10)) (String (digit_char (millis `mod` 10)) "Z")).
Definition audit_operation_family (operations : list SecurityAuditOperation) : string :=
  default "" (security_action_label ∘ ao_action <$> head operations).

(** ** Status messages *)

Record ProtoSecurityPrincipal := { spr_issuer : string; spr_subject : string }.
Record ProtoSecurityStatusResponse := {
  ssr_security_profile : Z; ssr_identity_status : Z; ssr_principal : option ProtoSecurityPrincipal;
  ssr_authentication_method : string; ssr_policy_version : string }.
Record ProtoSecurityAuditPrincipal := {
  sap_issuer : string; sap_subject : string; sap_authentication_method : string }.
Record ProtoSecurityAuditEventSummary := {
  es_timestamp : string; es_request_id : Z; es_service_sequence : Z; es_stage : Z; es_decision : Z;
  es_reason_code : string; es_principal : option ProtoSecurityAuditPrincipal;
  es_policy_version : string; es_operation_family : string; es_workspace : string;
  es_runtime_outcome : Z; es_durability_outcome : Z; es_delivery_outcome : Z }.
Record ProtoSecurityAuditStatusResponse := {
  sas_security_profile : Z; sas_audit_mode : Z; sas_sink_health : Z;
  sas_mandatory_audit_available : bool; sas_retained_event_count : Z; sas_recent_event_count : Z;
  sas_retention_max_events : Z; sas_retention_max_bytes : Z; sas_retention_max_age_seconds : Z;
  sas_future_dated_record_count : Z; sas_last_recovery_status_code : string;
  sas_recent_events : list ProtoSecurityAuditEventSummary }.

Definition security_status_principal (principal : Principal) : ProtoSecurityPrincipal :=
  {| spr_issuer := bounded_security_status_field (issuer principal);
     spr_subject := bounded_security_status_field (subject principal) |}.
Definition summary_principal (principal : SecurityAuditPrincipal) : ProtoSecurityAuditPrincipal :=
  {| sap_issuer := bounded_security_status_field (ap_issuer principal);
     sap_subject := bounded_security_status_field (ap_subject principal);
     sap_authentication_method := bounded_security_status_field (ap_authentication_method principal) |}.
Definition security_audit_event_summary (event : SecurityAuditEvent) : ProtoSecurityAuditEventSummary :=
  {| es_timestamp := system_time_rfc3339ish (ev_timestamp event);
     es_request_id := ev_request_id event;
     es_service_sequence := ev_service_sequence event;
     es_stage := security_audit_stage_code (ev_stage event);
     es_decision := security_audit_decision_code (ev_decision event);
     es_reason_code := security_audit_reason_label (ev_reason event);
     es_principal := summary_principal <$> ev_authenticated_principal event;
     es_policy_version := default "" (bounded_security_status_field <$> ev_policy_version event);
     es_operation_family := audit_operation_family (ev_operations event);
     es_workspace := default "" (bounded_security_status_field <$> ev_workspace event);
     es_runtime_outcome := security_audit_runtime_outcome_code (ev_runtime_outcome event);
     es_durability_outcome := security_audit_durability_outcome_code (ev_durability_outcome event);
     es_delivery_outcome := security_audit_delivery_outcome_code (ev_delivery_outcome event) |}.

(** ** Configuration and state *)

(** The trait [SecurityAuditSink]: an operation changes the sink behind the
    reference. *)
Class SecurityAuditSink (Sink : Type) := {
  sk_append : SecurityAuditEvent → Sink → res SecurityAuditSinkError unit * Sink;
  sk_allocate_request_id : Sink → res SecurityAuditSinkError Z * Sink;
  sk_allocate_event_identity : Sink → res SecurityAuditSinkError (Z * Z) * Sink;
  sk_health : Sink → SecurityAuditSinkHealth;
  sk_try_recover : Sink → res SecurityAuditSinkError SecurityAuditSinkHealth * Sink;
  sk_retained_events : Sink → list SecurityAuditEvent;
  sk_retention_limits : Sink → Z * Z * Z;
  sk_future_dated_records : Sink → Z;
}.

(** [BoundedSecurityAuditSink], with its limits. *)
Definition BoundedSecurityAuditSink : Type := AuditLimits * BoundedSecurityAuditState.
#[export] Instance bounded_sink `{EventLayout} : SecurityAuditSink BoundedSecurityAuditSink := {|
  sk_append event '(limits, s) := let '(r, s) := sink_append limits event s in (r, (limits, s));
  sk_allocate_request_id '(limits, s) :=
    let '(r, s) := sink_allocate_request_id s in (r, (limits, s));
  sk_allocate_event_identity '(limits, s) :=
    let '(r, s) := sink_allocate_event_identity s in (r, (limits, s));
  sk_health '(_, s) := sink_health s;
  sk_try_recover '(limits, s) := (inr (sink_health s), (limits, s));
  sk_retained_events '(_, s) := bs_events s;
  sk_retention_limits '(limits, _) := (max_events limits, max_bytes limits, max_age limits);
  sk_future_dated_records _ := 0;
|}.

(** A request of [tonic], as the handlers read it; its metadata are [tonic]'s. *)
Record Request (Metadata A : Type) := {
  rq_peer_certs : option (list string);
  rq_remote_addr : option string;
  rq_metadata : Metadata;
  rq_message : A;
}.
Arguments rq_peer_certs {_ _}.
Arguments rq_remote_addr {_ _}.
Arguments rq_metadata {_ _}.
Arguments rq_message {_ _}.

(** [dyn ApplicationAuthenticator]; the left side is an [AuthenticationError]. *)
Definition ApplicationAuthenticator (Metadata : Type) : Type :=
  TransportPeer → Metadata → res unit (option Principal).
Definition NoApplicationAuthenticator {Metadata} : ApplicationAuthenticator Metadata :=
  λ _ _, inr None.
(** [CertificatePrincipalAuthenticator], under its active mappings. *)
Definition CertificatePrincipalAuthenticator {Metadata} `{Digest} (mappings : gmap string Principal)
    : ApplicationAuthenticator Metadata := λ peer _,
  match certificate_authenticate mappings peer with Some p => inr (Some p) | None => inl tt end.

(** [ServiceSecurityConfig]; the sink it holds is part of the state. *)
Record ServiceSecurityConfig (Metadata : Type) := {
  profile : ServiceSecurityProfile;
  authenticator : ApplicationAuthenticator Metadata;
  policy : AuthorizationPolicy;
  max_batch_operations : N;
}.
Arguments profile {_}.
Arguments authenticator {_}.
Arguments policy {_}.
Arguments max_batch_operations {_}.

Section configs.
Context {Metadata : Type}.
Implicit Types (security : ServiceSecurityConfig Metadata).

Definition anonymous_local : ServiceSecurityConfig Metadata :=
  {| profile := AnonymousLocal; authenticator := NoApplicationAuthenticator;
     policy := AnonymousLocalPolicy; max_batch_operations := usize_max |}.
Definition docker_local_insecure : ServiceSecurityConfig Metadata :=
  {| profile := DockerLocalInsecure; authenticator := NoApplicationAuthenticator;
     policy := AnonymousLocalPolicy; max_batch_operations := usize_max |}.
Definition secured : ServiceSecurityConfig Metadata :=
  {| profile := Secured; authenticator := NoApplicationAuthenticator;
     policy := DefaultDenyPolicy; max_batch_operations := 128 |}.
Definition with_authenticator (a : ApplicationAuthenticator Metadata) security :=
  {| profile := profile security; authenticator := a; policy := policy security;
     max_batch_operations := max_batch_operations security |}.
Definition with_policy (p : AuthorizationPolicy) security :=
  {| profile := profile security; authenticator := authenticator security; policy := p;
     max_batch_operations := max_batch_operations security |}.
Definition with_policy_load_failure security := with_policy PolicyLoadFailurePolicy security.
Definition with_max_batch_operations (n : N) security :=
  {| profile := profile security; authenticator := authenticator security;
     policy := policy security; max_batch_operations := n |}.
(** The bind address is given by whether its ip is a loopback one. *)
Definition validate_bind_addr (bind_loopback : bool) security : bool :=
  negb (bool_decide (profile security = AnonymousLocal) && negb bind_loopback).
Definition allows_transport_peer security (peer : TransportPeer) : bool :=
  negb (bool_decide (profile security = AnonymousLocal)) || transport_peer_is_loopback peer.
End configs.

(** What is seen of a run from outside, in order: the events the sink accepted,
    the lines printed, and the calls of the in-process service. *)
Inductive Action :=
  | Audited (event : SecurityAuditEvent)
  | Printed (line : string)
  | Called.

(** The counters and flags of a [GrpcWorkspaceService], the sink, the flag
    [authoritative_persistence] of the request that is served, the readings of
    the clock so far. *)
Record AuditState (Sink : Type) := {
  sink : Sink;
  fallback_audit_request_id : Z;
  fallback_audit_event_id : Z;
  fallback_audit_sequence : Z;
  best_effort_audit_failures : Z;
  audit_degraded : bool;
  authoritative_persistence : bool;
  readings : nat;
  trace : list Action;
}.
Arguments sink {_}.
Arguments fallback_audit_request_id {_}.
Arguments fallback_audit_event_id {_}.
Arguments fallback_audit_sequence {_}.
Arguments best_effort_audit_failures {_}.
Arguments audit_degraded {_}.
Arguments authoritative_persistence {_}.
Arguments readings {_}.
Arguments trace {_}.

Section audit_state.
Context {Sink : Type}.
Implicit Types (a : AuditState Sink).

Definition set_sink (k : Sink) a :=
  {| sink := k; fallback_audit_request_id := fallback_audit_request_id a;
     fallback_audit_event_id := fallback_audit_event_id a;
     fallback_audit_sequence := fallback_audit_sequence a;
     best_effort_audit_failures := best_effort_audit_failures a; audit_degraded := audit_degraded a;
     authoritative_persistence := authoritative_persistence a; readings := readings a;
     trace := trace a |}.
Definition set_fallbacks (request event sequence : Z) a :=
  {| sink := sink a; fallback_audit_request_id := request; fallback_audit_event_id := event;
     fallback_audit_sequence := sequence;
     best_effort_audit_failures := best_effort_audit_failures a; audit_degraded := audit_degraded a;
     authoritative_persistence := authoritative_persistence a; readings := readings a;
     trace := trace a |}.
Definition set_flags (failures : Z) (degraded authoritative : bool) a :=
  {| sink := sink a; fallback_audit_request_id := fallback_audit_request_id a;
     fallback_audit_event_id := fallback_audit_event_id a;
     fallback_audit_sequence := fallback_audit_sequence a;
     best_effort_audit_failures := failures; audit_degraded := degraded;
     authoritative_persistence := authoritative; readings := readings a; trace := trace a |}.
Definition tick a :=
  {| sink := sink a; fallback_audit_request_id := fallback_audit_request_id a;
     fallback_audit_event_id := fallback_audit_event_id a;
     fallback_audit_sequence := fallback_audit_sequence a;
     best_effort_audit_failures := best_effort_audit_failures a; audit_degraded := audit_degraded a;
     authoritative_persistence := authoritative_persistence a; readings := S (readings a);
     trace := trace a |}.
Definition seen (action : Action) a :=
  {| sink := sink a; fallback_audit_request_id := fallback_audit_request_id a;
     fallback_audit_event_id := fallback_audit_event_id a;
     fallback_audit_sequence := fallback_audit_sequence a;
     best_effort_audit_failures := best_effort_audit_failures a; audit_degraded := audit_degraded a;
     authoritative_persistence := authoritative_persistence a; readings := readings a;
     trace := (trace a ++ [action])%list |}.
Definition set_degraded (degraded : bool) a :=
  set_flags (best_effort_audit_failures a) degraded (authoritative_persistence a) a.
Definition set_authoritative (authoritative : bool) a :=
  set_flags (best_effort_audit_failures a) (audit_degraded a) authoritative a.

(** [GrpcWorkspaceService::new], the counters *)
Definition audit_new (k : Sink) : AuditState Sink :=
  {| sink := k; fallback_audit_request_id := 1; fallback_audit_event_id := 1;
     fallback_audit_sequence := 1; best_effort_audit_failures := 0; audit_degraded := false;
     authoritative_persistence := true; readings := 0; trace := [] |}.
End audit_state.

(** ** Auditing *)

(** [SecurityAuditRequest], less the flag the state keeps. *)
Record SecurityAuditRequest := {
  ar_request_id : Z;
  ar_service_identity : string;
  ar_mode : SecurityAuditMode;
  ar_transport_peer : SecurityAuditTransportPeer;
  ar_authenticated_principal : option SecurityAuditPrincipal;
  ar_asserted_actor : option SecurityAuditActorAssertion;
  ar_workspace : option string;
  ar_operations : list SecurityAuditOperation;
  ar_policy_version : option string;
}.
Definition with_transport_peer (peer : SecurityAuditTransportPeer) (r : SecurityAuditRequest) :=
  {| ar_request_id := ar_request_id r; ar_service_identity := ar_service_identity r;
     ar_mode := ar_mode r; ar_transport_peer := peer;
     ar_authenticated_principal := ar_authenticated_principal r;
     ar_asserted_actor := ar_asserted_actor r; ar_workspace := ar_workspace r;
     ar_operations := ar_operations r; ar_policy_version := ar_policy_version r |}.
Definition with_identity (principal : option SecurityAuditPrincipal)
    (actor : option SecurityAuditActorAssertion) (r : SecurityAuditRequest) :=
  {| ar_request_id := ar_request_id r; ar_service_identity := ar_service_identity r;
     ar_mode := ar_mode r; ar_transport_peer := ar_transport_peer r;
     ar_authenticated_principal := principal; ar_asserted_actor := actor;
     ar_workspace := ar_workspace r; ar_operations := ar_operations r;
     ar_policy_version := ar_policy_version r |}.
Definition with_workspace (workspace : option string) (r : SecurityAuditRequest) :=
  {| ar_request_id := ar_request_id r; ar_service_identity := ar_service_identity r;
     ar_mode := ar_mode r; ar_transport_peer := ar_transport_peer r;
     ar_authenticated_principal := ar_authenticated_principal r;
     ar_asserted_actor := ar_asserted_actor r; ar_workspace := workspace;
     ar_operations := ar_operations r; ar_policy_version := ar_policy_version r |}.
Definition with_operations (operations : list SecurityAuditOperation) (r : SecurityAuditRequest) :=
  {| ar_request_id := ar_request_id r; ar_service_identity := ar_service_identity r;
     ar_mode := ar_mode r; ar_transport_peer := ar_transport_peer r;
     ar_authenticated_principal := ar_authenticated_principal r;
     ar_asserted_actor := ar_asserted_actor r; ar_workspace := ar_workspace r;
     ar_operations := operations; ar_policy_version := ar_policy_version r |}.

Definition SECURITY_AUDIT_SCHEMA_VERSION : Z := 1.

Definition audit_transport_peer (peer : TransportPeer) : SecurityAuditTransportPeer :=
  {| at_remote_address_present := bool_decide (is_Some (remote_address peer));
     at_client_certificate_present := client_certificate_present peer |}.
Definition audit_one_principal (principal : Principal)
    : res SecurityEnforcementError SecurityAuditPrincipal :=
  issuer ← bounded_audit_field (issuer principal);
  subject ← bounded_audit_field (subject principal);
  provider ← bounded_audit_field (authentication_method principal);
  method ← bounded_audit_field (authentication_method principal);
  mret (M:=res _) {| ap_issuer := issuer; ap_subject := subject; ap_authentication_provider := provider;
                     ap_authentication_method := method |}.
Definition audit_principal (principal : option Principal)
    : res SecurityEnforcementError (option SecurityAuditPrincipal) :=
  transpose (audit_one_principal <$> principal).
Definition audit_one_actor (actor : ActorAssertion)
    : res SecurityEnforcementError SecurityAuditActorAssertion :=
  actor_id ← bounded_audit_field (actor_id actor);
  mret (M:=res _) {| aa_actor_id := actor_id; aa_authenticated := false |}.
Definition audit_actor (actor : option ActorAssertion)
    : res SecurityEnforcementError (option SecurityAuditActorAssertion) :=
  transpose (audit_one_actor <$> actor).
(** The principal is assigned before the actor is looked at. *)
Definition populate_audit_identity (audit : SecurityAuditRequest) (principal : option Principal)
    (actor : option ActorAssertion) : res SecurityEnforcementError unit * SecurityAuditRequest :=
  match audit_principal principal with
  | inl e => (inl e, audit)
  | inr principal =>
      let audit := with_identity principal (ar_asserted_actor audit) audit in
      match audit_actor actor with
      | inl e => (inl e, audit)
      | inr actor => (inr tt, with_identity (ar_authenticated_principal audit) actor audit)
      end
  end.
Definition audit_reason_from_authorization (reason : AuthorizationReason) : SecurityAuditReason :=
  match reason with
  | AnonymousLocalProfile => RsAnonymousLocalProfile
  | ExplicitPolicyAllow => RsExplicitPolicyAllow
  | NoMatchingPermission => RsNoMatchingPermission
  end.

Definition error_reason (error : SecurityEnforcementError) : SecurityAuditReason :=
  match error with
  | AnonymousLocalRemotePeer | Denied => RsNoMatchingPermission
  | InvalidActorAssertion => RsInvalidActorAssertion
  | AuthenticationFailed => RsAuthenticationFailed
  | MissingPrincipal => RsMissingPrincipal
  | PolicyEvaluationFailed => RsPolicyEvaluationFailed
  | AuditClassificationOverflow | AuditEventTooLarge => RsClassificationOverflow
  | AuditSinkUnavailable => RsSinkUnavailable
  end.
Definition error_decision (error : SecurityEnforcementError) : SecurityAuditDecision :=
  match error with
  | PolicyEvaluationFailed | AuditSinkUnavailable => DecError
  | _ => DecDeny
  end.
Definition durability_reason (durability : SecurityAuditDurabilityOutcome) : SecurityAuditReason :=
  match durability with
  | DoNotApplicable => RsNotApplicable
  | DoCommitted => RsCommitted
  | DoNotCommitted => RsNotCommitted
  | DoUnknown => RsUnknownDurability
  end.

(** The state monad of the audit. *)
Definition act (Sink A : Type) : Type := AuditState Sink → A * AuditState Sink.
#[export] Instance act_ret {Sink} : MRet (act Sink) := λ A x a, (x, a).
#[export] Instance act_bind {Sink} : MBind (act Sink) := λ A B f m a, let '(x, a) := m a in f x a.

Section auditing.
Context {Sink : Type} `{!SecurityAuditSink Sink} {Metadata : Type}.
Variable security : ServiceSecurityConfig Metadata.
(** The readings of [SystemTime::now]. *)
Variable now : nat → Z.
Abbreviation act := (act Sink).
Abbreviation enforced := (res SecurityEnforcementError).
Implicit Types (a : AuditState Sink) (request : SecurityAuditRequest) (event : SecurityAuditEvent).

(** [AtomicU64::fetch_add(1)] of the three counters *)
Definition next_fallback_request : act Z := λ a,
  (fallback_audit_request_id a,
   set_fallbacks (u64_succ (fallback_audit_request_id a)) (fallback_audit_event_id a)
     (fallback_audit_sequence a) a).
Definition next_fallback_event : act Z := λ a,
  (fallback_audit_event_id a,
   set_fallbacks (fallback_audit_request_id a) (u64_succ (fallback_audit_event_id a))
     (fallback_audit_sequence a) a).
Definition next_fallback_sequence : act Z := λ a,
  (fallback_audit_sequence a,
   set_fallbacks (fallback_audit_request_id a) (fallback_audit_event_id a)
     (u64_succ (fallback_audit_sequence a)) a).
Definition record_best_effort_audit_failure : act unit := λ a,
  (tt, set_flags (Z.min (best_effort_audit_failures a + 1) u64_max) (audit_degraded a)
         (authoritative_persistence a) a).
Definition persist (authoritative : bool) : act unit := λ a, (tt, set_authoritative authoritative a).
(** An operation of the sink. *)
Definition asked {A} (op : Sink → A * Sink) : act A := λ a,
  let '(r, k) := op (sink a) in (r, set_sink k a).

Definition audit_mode : SecurityAuditMode :=
  match profile security with
  | Secured => Mandatory
  | AnonymousLocal | DockerLocalInsecure => BestEffort
  end.

Definition ensure_mandatory_audit_available : act (enforced unit) := λ a,
  if negb (bool_decide (profile security = Secured)) then (inr tt, a)
  else if negb (audit_degraded a) then (inr tt, a)
  else
    let '(r, a) := asked sk_try_recover a in
    match r with
    | inr SinkHealthy => (inr tt, set_degraded false a)
    | _ => (inl AuditSinkUnavailable, a)
    end.

Definition start_audit_request : act (enforced SecurityAuditRequest) :=
  let audit (id : Z) (authoritative : bool) : act (enforced SecurityAuditRequest) :=
    _ ← persist authoritative;
    mret (M:=act) (inr {|
      ar_request_id := id; ar_service_identity := "grm-local-workspace-service";
      ar_mode := audit_mode;
      ar_transport_peer := {| at_remote_address_present := false;
                              at_client_certificate_present := false |};
      ar_authenticated_principal := None; ar_asserted_actor := None; ar_workspace := None;
      ar_operations := []; ar_policy_version := ap_policy_version (policy security) |}) in
  r ← asked sk_allocate_request_id;
  match r with
  | inr id =>
      if (id =? 0) then (id ← next_fallback_request; audit id true) else audit id true
  | inl _ =>
      match audit_mode with
      | BestEffort =>
          _ ← record_best_effort_audit_failure; id ← next_fallback_request; audit id false
      | Mandatory => mret (M:=act) (inl AuditSinkUnavailable)
      end
  end.

Definition audit_event request (stage : SecurityAuditStage) (decision : SecurityAuditDecision)
    (reason : SecurityAuditReason) : act SecurityAuditEvent := λ a,
  ({| ev_schema_version := SECURITY_AUDIT_SCHEMA_VERSION; ev_event_id := 0;
      ev_request_id := ar_request_id request; ev_service_sequence := 0;
      ev_timestamp := now (readings a); ev_service_identity := ar_service_identity request;
      ev_mode := ar_mode request; ev_stage := stage; ev_transport_peer := ar_transport_peer request;
      ev_authenticated_principal := ar_authenticated_principal request;
      ev_asserted_actor := ar_asserted_actor request; ev_workspace := ar_workspace request;
      ev_operations := ar_operations request; ev_policy_version := ar_policy_version request;
      ev_decision := decision; ev_reason := reason; ev_runtime_outcome := RoNotReached;
      ev_durability_outcome := DoNotApplicable; ev_delivery_outcome := DlNotReached |}, tick a).

(** An event with its identity, an event with the outcome of the call. *)
Definition identified (event_id sequence : Z) event : SecurityAuditEvent :=
  {| ev_schema_version := ev_schema_version event; ev_event_id := event_id;
     ev_request_id := ev_request_id event; ev_service_sequence := sequence;
     ev_timestamp := ev_timestamp event; ev_service_identity := ev_service_identity event;
     ev_mode := ev_mode event; ev_stage := ev_stage event;
     ev_transport_peer := ev_transport_peer event;
     ev_authenticated_principal := ev_authenticated_principal event;
     ev_asserted_actor := ev_asserted_actor event; ev_workspace := ev_workspace event;
     ev_operations := ev_operations event; ev_policy_version := ev_policy_version event;
     ev_decision := ev_decision event; ev_reason := ev_reason event;
     ev_runtime_outcome := ev_runtime_outcome event;
     ev_durability_outcome := ev_durability_outcome event;
     ev_delivery_outcome := ev_delivery_outcome event |}.
Definition outcomes (runtime : SecurityAuditRuntimeOutcome)
    (durability : SecurityAuditDurabilityOutcome) (delivery : SecurityAuditDeliveryOutcome) event
    : SecurityAuditEvent :=
  {| ev_schema_version := ev_schema_version event; ev_event_id := ev_event_id event;
     ev_request_id := ev_request_id event; ev_service_sequence := ev_service_sequence event;
     ev_timestamp := ev_timestamp event; ev_service_identity := ev_service_identity event;
     ev_mode := ev_mode event; ev_stage := ev_stage event;
     ev_transport_peer := ev_transport_peer event;
     ev_authenticated_principal := ev_authenticated_principal event;
     ev_asserted_actor := ev_asserted_actor event; ev_workspace := ev_workspace event;
     ev_operations := ev_operations event; ev_policy_version := ev_policy_version event;
     ev_decision := ev_decision event; ev_reason := ev_reason event;
     ev_runtime_outcome := runtime; ev_durability_outcome := durability;
     ev_delivery_outcome := delivery |}.

(** What a failure of the sink is to a request: nothing, once it is counted, when
    the audit is a best effort. *)
Definition sink_failed request (error : SecurityEnforcementError) : act (enforced unit) :=
  match ar_mode request with
  | BestEffort =>
      _ ← record_best_effort_audit_failure; _ ← persist false; mret (M:=act) (inr tt)
  | Mandatory => mret (M:=act) (inl error)
  end.
Definition audit_append request event : act (enforced unit) := λ a,
  if negb (authoritative_persistence a) then (inr tt, a)
  else
    let '(identity, a) := asked sk_allocate_event_identity a in
    match identity with
    | inl _ => sink_failed request AuditSinkUnavailable a
    | inr (event_id, sequence) =>
        let '(event_id, a) := (if (event_id =? 0) then next_fallback_event a else (event_id, a)) in
        let '(sequence, a) := (if (sequence =? 0) then next_fallback_sequence a else (sequence, a)) in
        let event := identified event_id sequence event in
        let '(r, a) := asked (sk_append event) a in
        match r with
        | inr _ => (inr tt, seen (Audited event) a)
        | inl SinkEventTooLarge => sink_failed request AuditEventTooLarge a
        | inl _ => sink_failed request AuditSinkUnavailable a
        end
    end.

(** [audit_append(request, audit_event(request, ...))] *)
Definition appended request stage decision reason : act (enforced unit) :=
  event ← audit_event request stage decision reason; audit_append request event.

Definition audit_append_post_effect request event : act unit := λ a,
  let '(r, a) := audit_append request event a in
  match r, ar_mode request with
  | inl _, Mandatory =>
      let '(_, a) := appended request StDelivery DecError RsSinkUnavailable (set_degraded true a) in
      (tt, a)
  | _, _ => (tt, a)
  end.

Definition audit_security_error request (stage : SecurityAuditStage)
    (error : SecurityEnforcementError) : act Status :=
  r ← appended request stage (error_decision error) (error_reason error);
  mret (M:=act) match r with inl audit_error => security_status audit_error
                           | inr _ => security_status error end.
Definition audit_status_error request stage decision reason (status : Status) : act Status :=
  r ← appended request stage decision reason;
  mret (M:=act) match r with inl audit_error => security_status audit_error | inr _ => status end.

Definition audit_authorization_decision request (decision : AuthorizationDecision)
    : act (enforced unit) :=
  match decision with
  | Allow reason => appended request StAuthorization DecAllow (audit_reason_from_authorization reason)
  | Deny reason =>
      r ← appended request StAuthorization DecDeny (audit_reason_from_authorization reason);
      mret (M:=act) match r with inl e => inl e | inr _ => inl Denied end
  end.
Definition audit_admission_allow request : act (enforced unit) :=
  appended request StAdmission DecAllow RsExplicitPolicyAllow.
Definition audit_runtime_success request : act unit :=
  event ← audit_event request StRuntime DecAllow RsRuntimeSucceeded;
  audit_append_post_effect request (outcomes RoSucceeded DoNotApplicable DlNotReached event).
Definition audit_runtime_failure request (durability : SecurityAuditDurabilityOutcome) : act unit :=
  event ← audit_event request StRuntime DecError RsRuntimeFailed;
  audit_append_post_effect request (outcomes RoFailed durability DlNotReached event).
Definition audit_durability request (durability : SecurityAuditDurabilityOutcome) : act unit :=
  event ← audit_event request StDurability DecNotApplicable (durability_reason durability);
  audit_append_post_effect request (outcomes RoNotReached durability DlNotReached event).
Definition audit_delivery_handoff request : act unit :=
  event ← audit_event request StDelivery DecNotApplicable RsResponseHandedOff;
  audit_append_post_effect request (outcomes RoNotReached DoNotApplicable DlHandedOff event).
End auditing.

(** ** The handlers *)

(** The service behind its lock, the audit, the system calls to come and the
    files. *)
Record World `{SerdeNumber} (Sink : Type) := {
  wd_audit : AuditState Sink;
  wd_service : InProcessWorkspaceService;
  wd_faults : list fault;
  wd_files : FileSys;
}.
Arguments wd_audit {_ _}.
Arguments wd_service {_ _}.
Arguments wd_faults {_ _}.
Arguments wd_files {_ _}.

(** A call that does not answer was killed, or ran out of fuel. *)
Definition rpc `{SerdeNumber} (Sink A : Type) : Type :=
  World Sink → option (Status + A) * World Sink.
#[export] Instance rpc_ret `{SerdeNumber} {Sink} : MRet (rpc Sink) := λ A a w, (Some (inr a), w).
#[export] Instance rpc_bind `{SerdeNumber} {Sink} : MBind (rpc Sink) := λ A B f m w,
  match m w with
  | (Some (inr a), w) => f a w
  | (Some (inl status), w) => (Some (inl status), w)
  | (None, w) => (None, w)
  end.

Section handlers.
Context `{SerdeNumber} `{Formats} `{!SnapshotCodec} `{!SessionCodec} `{!IoText}.
Context {Sink : Type} `{!SecurityAuditSink Sink} {Metadata : Type}.
(** [metadata.get(GRM_ACTOR_ID_METADATA)], and the [to_str] of the value *)
Variable actor_metadata : Metadata → option (option string).
Variable security : ServiceSecurityConfig Metadata.
Variable now : nat → Z.
Abbreviation rpc := (rpc Sink).
Abbreviation act := (act Sink).
Abbreviation enforced := (res SecurityEnforcementError).
Implicit Types (w : World Sink) (audit : SecurityAuditRequest).

Definition set_audit (a : AuditState Sink) w : World Sink :=
  {| wd_audit := a; wd_service := wd_service w; wd_faults := wd_faults w; wd_files := wd_files w |}.
(** An action of the audit; [m.map_err(f)?]; [Err(status)?]; [r.map_err(f)?]. *)
Definition audited {A} (m : act A) : rpc A := λ w,
  let '(x, a) := m (wd_audit w) in (Some (inr x), set_audit a w).
Definition answer {A} (status : Status) : rpc A := λ w, (Some (inl status), w).
Definition refuse_with {A E} (f : E → act Status) (r : res E A) : rpc A :=
  match r with
  | inl e => status ← audited (f e); answer status
  | inr x => mret (M:=rpc) x
  end.
Definition or_status {A E} (f : E → Status) (r : res E A) : rpc A :=
  match r with inl e => answer (f e) | inr x => mret (M:=rpc) x end.
(** [m.map_err(security_status)?] *)
Definition enforce {A} (m : act (enforced A)) : rpc A := r ← audited m; or_status security_status r.
(** [self.inner.lock().await] *)
Definition lock : rpc InProcessWorkspaceService := λ w, (Some (inr (wd_service w)), w).
(** A call of the service behind the lock. *)
Definition called {A} (m : InProcessWorkspaceService → io (A * InProcessWorkspaceService)) : rpc A :=
  λ w,
  let a := seen Called (wd_audit w) in
  match m (wd_service w) (wd_faults w) (wd_files w) with
  | (Done (x, s), fl, fs) =>
      (Some (inr x), {| wd_audit := a; wd_service := s; wd_faults := fl; wd_files := fs |})
  | (_, fl, fs) =>
      (None, {| wd_audit := a; wd_service := wd_service w; wd_faults := fl; wd_files := fs |})
  end.
Definition printed (line : string) : rpc unit := audited (λ a, (tt, seen (Printed line) a)).

(** *** Who calls, and what it may do *)

Definition transport_peer_from_request {A} (request : Request Metadata A) : TransportPeer :=
  let leaf := rq_peer_certs request ≫= head in
  {| remote_address := rq_remote_addr request;
     client_certificate_present := bool_decide (is_Some leaf);
     client_certificate_leaf_der := leaf |}.
Definition actor_assertion (metadata : Metadata) : res unit (option ActorAssertion) :=
  match actor_metadata metadata with
  | None => inr None
  | Some None => inl tt
  | Some (Some actor) => inr (Some {| actor_id := actor |})
  end.
Definition request_security_inputs {A} (request : Request Metadata A)
    : enforced (TransportPeer * option Principal * option ActorAssertion) :=
  let peer := transport_peer_from_request request in
  if negb (allows_transport_peer security peer) then inl AnonymousLocalRemotePeer
  else
    match actor_assertion (rq_metadata request) with
    | inl _ => inl InvalidActorAssertion
    | inr actor =>
        match authenticator security peer (rq_metadata request) with
        | inl _ => inl AuthenticationFailed
        | inr None => if decide (profile security = Secured) then inl MissingPrincipal
                      else inr (peer, None, actor)
        | inr (Some principal) => inr (peer, Some principal, actor)
        end
    end.
Definition context_of (inputs : TransportPeer * option Principal * option ActorAssertion)
    (workspace : string) (operations : list SecurityOperation) : SecurityRequestContext :=
  {| ctx_transport_peer := inputs.1.1; ctx_authenticated_principal := inputs.1.2;
     ctx_asserted_actor := inputs.2; ctx_delegated_actor := None; ctx_workspace := workspace;
     ctx_operations := operations; ctx_policy_version := ap_policy_version (policy security) |}.
Definition authorize (inputs : TransportPeer * option Principal * option ActorAssertion)
    (workspace : string) (operations : list SecurityOperation) : enforced AuthorizationDecision :=
  match ap_evaluate (policy security) (context_of inputs workspace operations) with
  | Some decision => inr decision
  | None => inl PolicyEvaluationFailed
  end.

(** *** The parts the handlers share *)

(** From the start of a handler to the event of a successful authentication. *)
Definition authenticated {A} (request : Request Metadata A)
    : rpc (SecurityAuditRequest * (TransportPeer * option Principal * option ActorAssertion)) :=
  audit ← enforce (start_audit_request security);
  let audit := with_transport_peer (audit_transport_peer (transport_peer_from_request request)) audit in
  _ ← enforce (ensure_mandatory_audit_available security);
  _ ← enforce (appended now audit StAttempt DecNotApplicable RsRequestReceived);
  inputs ← refuse_with (audit_security_error now audit StAuthentication) (request_security_inputs request);
  let audit := with_transport_peer (audit_transport_peer inputs.1.1) audit in
  let '(r, audit) := populate_audit_identity audit inputs.1.2 inputs.2 in
  _ ← refuse_with (audit_security_error now audit StAuthentication) r;
  _ ← enforce (appended now audit StAuthentication DecAllow RsExplicitPolicyAllow);
  mret (M:=rpc) (audit, inputs).

(** [request.into_inner().try_into()] *)
Definition parsed {A} audit (r : result A) : rpc A :=
  refuse_with (λ e, audit_status_error now audit StAdmission DecError RsMalformedRequest (proto_status e))
    match r with Ok x => inr x | Err e => inl e end.
Definition named audit (workspace : string) : rpc SecurityAuditRequest :=
  workspace ← refuse_with (audit_security_error now audit StAdmission) (bounded_audit_field workspace);
  mret (M:=rpc) (with_workspace (Some workspace) audit).
Definition authorized audit inputs (workspace : string) (operations : list SecurityOperation)
    : rpc SecurityAuditRequest :=
  operations' ← refuse_with (audit_security_error now audit StAdmission) (audit_operations operations);
  let audit := with_operations operations' audit in
  decision ← refuse_with (audit_security_error now audit StAuthorization)
               (authorize inputs workspace operations);
  _ ← enforce (audit_authorization_decision now audit decision);
  mret (M:=rpc) audit.
(** The workspace of a handle, which must be there. *)
Definition known (handle : WorkspaceHandle) (s : InProcessWorkspaceService) : rpc unit :=
  _ ← or_status workspace_status (workspace handle s); mret (M:=rpc) tt.

(** The end of a handler whose call of the service did not succeed. *)
Definition failed {A} audit (error : WorkspaceServiceError) : rpc A :=
  _ ← audited (audit_runtime_failure now audit DoNotCommitted); answer (workspace_status error).
(** The end of a handler whose call succeeded. *)
Definition succeeded {A} audit (durability : SecurityAuditDurabilityOutcome) (line : string)
    (response : A) : rpc A :=
  _ ← audited (audit_runtime_success now audit);
  _ ← audited (audit_durability now audit durability);
  _ ← printed line;
  _ ← audited (audit_delivery_handoff now audit);
  mret (M:=rpc) response.

(** *** Workspaces *)

Definition workspace_create_durability (request : WorkspaceCreateRequest)
    : SecurityAuditDurabilityOutcome :=
  match wcq_mode request with WcmInMemory => DoNotApplicable | WcmLocalAutocommit => DoCommitted end.
Definition log_name (workspace : option WorkspaceRef) (handle : WorkspaceHandle) : string :=
  default (wh_id handle) (wref_id <$> workspace).

(** Out of fuel, the search for a free name gives no answer. *)
Definition fuelled {A} (m : io (option A * InProcessWorkspaceService))
    : io (A * InProcessWorkspaceService) :=
  m ≫= λ '(r, s), match r with Some r => mret (M:=io) (r, s) | None => λ fl fs, (Crashed, fl, fs) end.

Definition create_workspace (fuel : nat) (tags : string * string) (random : option string)
    (request : Request Metadata ProtoWorkspaceCreateRequest) : rpc ProtoWorkspaceCreateResponse :=
  '(audit, inputs) ← authenticated request;
  request ← parsed audit (create_from_proto (rq_message request));
  let audit := with_workspace (Some "service") audit in
  audit ← authorized audit inputs "service" [service_security_operation WorkspaceCreate];
  _ ← enforce (audit_admission_allow now audit);
  r ← called (λ s, fuelled (Service.create_workspace fuel tags random request s));
  match r with
  | inl error => failed audit error
  | inr response =>
      succeeded audit (workspace_create_durability request)
        (log_workspace_lifecycle (log_name (wcs_workspace response) (wcs_handle response))
           "workspace.create")
        (create_response_to_proto response)
  end.

Definition open_name (request : WorkspaceOpenRequest) : string :=
  match woq_workspace request, woq_snapshot request with
  | Some workspace, _ => wref_id workspace
  | None, Some snapshot => sh_id snapshot
  | None, None => "unknown-workspace"
  end.
Definition open_workspace (tags : string * string) (random : option string)
    (request : Request Metadata ProtoWorkspaceOpenRequest) : rpc ProtoWorkspaceCreateResponse :=
  '(audit, inputs) ← authenticated request;
  request ← parsed audit (open_from_proto (rq_message request));
  let workspace := open_name request in
  audit ← named audit workspace;
  audit ← authorized audit inputs workspace [workspace_security_operation WorkspaceOpen workspace];
  _ ← enforce (audit_admission_allow now audit);
  r ← called (Service.open_workspace tags random request);
  match r with
  | inl error => failed audit error
  | inr response =>
      succeeded audit DoNotApplicable
        (log_workspace_lifecycle (log_name (wos_workspace response) (wos_handle response))
           "workspace.open")
        (open_response_to_proto response)
  end.

Definition scope_status : Status := stat CodeInvalidArgument "secured traversal requires edge_model".
Definition limit_status : Status := stat CodeResourceExhausted "batch operation limit exceeded".
(** A guard of [execute_workspace]: the status of its error is audited. *)
Definition guard_admission audit (holds : bool) (reason : SecurityAuditReason) (status : Status)
    : rpc unit :=
  refuse_with (λ _ : unit, audit_status_error now audit StAdmission DecDeny reason status)
    (if holds then inr tt else inl tt).
Definition execute_workspace (clock : nat → Z) (tags : string * string)
    (request : Request Metadata ProtoWorkspaceRuntimeRequest) : rpc ProtoWorkspaceRuntimeResponse :=
  '(audit, inputs) ← authenticated request;
  request ← parsed audit (runtime_request_from_proto (rq_message request));
  s ← lock;
  let workspace := workspace_log_name (wrq_handle request) s in
  _ ← (if decide (profile security = Secured)
       then guard_admission audit (validate_secured_operation_scope (wrq_request request))
              RsScopeRejected scope_status
       else mret (M:=rpc) tt);
  let operations := security_operations (wrq_request request) workspace in
  audit ← named audit workspace;
  audit ← authorized audit inputs workspace operations;
  _ ← known (wrq_handle request) s;
  _ ← guard_admission audit (enforce_security_limits (wrq_request request) (max_batch_operations security))
        RsLimitExceeded limit_status;
  _ ← enforce (audit_admission_allow now audit);
  r ← called (service_execute clock tags request);
  match r with
  | inl error => failed audit error
  | inr response =>
      let summary := from_response (wrs_response response) in
      let durability :=
        match wrs_durable_operations response with [] => DoNotApplicable | _ => DoCommitted end in
      message ← or_status proto_status
                  match runtime_response_to_proto response with Ok m => inr m | Err e => inl e end;
      succeeded audit durability (render summary workspace) message
  end.

Definition close_workspace (request : Request Metadata ProtoWorkspaceCloseRequest)
    : rpc ProtoWorkspaceCloseRequest :=
  '(audit, inputs) ← authenticated request;
  request ← parsed audit (close_from_proto (rq_message request));
  s ← lock;
  let workspace := workspace_log_name (wlq_handle request) s in
  audit ← named audit workspace;
  audit ← authorized audit inputs workspace [workspace_security_operation WorkspaceClose workspace];
  _ ← known (wlq_handle request) s;
  _ ← enforce (audit_admission_allow now audit);
  r ← called (λ s, mret (M:=io) (Service.close_workspace request s));
  match r with
  | inl error => failed audit error
  | inr response =>
      succeeded audit DoNotApplicable (log_workspace_lifecycle workspace "workspace.close")
        (close_response_to_proto response)
  end.

(** *** The status of the service *)

Definition security_status_response (principal : option Principal) : ProtoSecurityStatusResponse :=
  {| ssr_security_profile := security_profile_code (profile security);
     ssr_identity_status := security_identity_status_code (profile security) principal;
     ssr_principal := security_status_principal <$> principal;
     ssr_authentication_method :=
       default "" (bounded_security_status_field ∘ authentication_method <$> principal);
     ssr_policy_version :=
       default "" (bounded_security_status_field <$> ap_policy_version (policy security)) |}.
Definition rpc_security_status (request : Request Metadata unit) : rpc ProtoSecurityStatusResponse :=
  _ ← enforce (ensure_mandatory_audit_available security);
  inputs ← or_status security_status (request_security_inputs request);
  mret (M:=rpc) (security_status_response inputs.1.2).

(** The latest 25 events, in order. *)
Definition recent (events : list SecurityAuditEvent) : list SecurityAuditEvent :=
  drop (length events - 25) events.
Definition security_audit_status_response (include_recent_events : bool)
    : act ProtoSecurityAuditStatusResponse := λ a,
  let events := sk_retained_events (sink a) in
  let recent_events :=
    if include_recent_events then security_audit_event_summary <$> recent events else [] in
  let '(retention_max_events, retention_max_bytes, retention_max_age) :=
    sk_retention_limits (sink a) in
  let health := sk_health (sink a) in
  ({| sas_security_profile := security_profile_code (profile security);
      sas_audit_mode := security_audit_mode_code (audit_mode security);
      sas_sink_health := security_audit_sink_health_code health;
      sas_mandatory_audit_available :=
        bool_decide (profile security = Secured) &&
        match health with SinkHealthy => true | SinkDegraded => false end && negb (audit_degraded a);
      sas_retained_event_count := Z.of_nat (length events);
      sas_recent_event_count := Z.of_nat (length recent_events);
      sas_retention_max_events := retention_max_events;
      sas_retention_max_bytes := retention_max_bytes;
      sas_retention_max_age_seconds := retention_max_age / 10 ^ 9;
      sas_future_dated_record_count := sk_future_dated_records (sink a);
      sas_last_recovery_status_code := if audit_degraded a then "degraded" else "ok";
      sas_recent_events := recent_events |}, a).

(** The answer while the audit is degraded: nothing is recorded. *)
Definition degraded_audit_status (request : Request Metadata unit)
    : rpc ProtoSecurityAuditStatusResponse :=
  inputs ← or_status security_status (request_security_inputs request);
  decision ← or_status security_status
               (authorize inputs "service" [service_security_operation AuditInspect]);
  match decision with
  | Deny _ => answer (security_status Denied)
  | Allow _ => audited (security_audit_status_response false)
  end.
Definition recovered : act bool := λ a,
  if bool_decide (profile security = Secured) && audit_degraded a then
    let '(r, a) := asked sk_try_recover a in
    match r with
    | inr SinkHealthy => (true, set_degraded false a)
    | _ => (false, a)
    end
  else (true, a).
Definition security_audit_status (request : Request Metadata unit)
    : rpc ProtoSecurityAuditStatusResponse :=
  up ← audited recovered;
  if negb up then degraded_audit_status request
  else
    '(audit, inputs) ← authenticated request;
    let audit := with_workspace (Some "service") audit in
    audit ← authorized audit inputs "service" [service_security_operation AuditInspect];
    _ ← enforce (audit_admission_allow now audit);
    response ← audited (security_audit_status_response true);
    _ ← audited (audit_delivery_handoff now audit);
    mret (M:=rpc) response.
End handlers.
