(* ===== verification/Served.v ===== *)
(** * What the handlers of the service promise

    Every handler of [Handlers] passes a gate - the checks of a call, without the
    audit - and then calls the service: the audit only refuses, in the secured
    profile nothing is touched before four events of the call are accepted, what
    an executed request needs was granted, an outcome is recorded or the service
    is degraded, and a degraded service serves no call. *)

From S2P Require Export Handlers.

Local Open Scope string_scope.
Local Open Scope Z_scope.
#[local] Abbreviation stat := Build_Status.

(** ** What the audit does to a call *)

Section auditing_facts.
Context {Sink : Type} `{!SecurityAuditSink Sink} {Metadata : Type}.
Variable security : ServiceSecurityConfig Metadata.
Variable now : nat → Z.
Implicit Types (a : AuditState Sink) (request : SecurityAuditRequest) (event : SecurityAuditEvent).

(** [a'] is [a] after the sink accepted the events [l]. *)
Definition grows a (l : list SecurityAuditEvent) a' : Prop :=
  trace a' = (trace a ++ (Audited <$> l))%list.
Lemma grows_nil a : grows a [] a.
Proof. unfold grows. by rewrite fmap_nil, app_nil_r. Qed.
Lemma grows_app a l1 a1 l2 a2 : grows a l1 a1 → grows a1 l2 a2 → grows a (l1 ++ l2)%list a2.
Proof. unfold grows. intros H1 H2. by rewrite H2, H1, fmap_app, app_assoc. Qed.

(** An event made for a request. *)
Record of_request request (stage : SecurityAuditStage) (decision : SecurityAuditDecision)
    (reason : SecurityAuditReason) event : Prop := {
  or_request : ev_request_id event = ar_request_id request;
  or_stage : ev_stage event = stage;
  or_decision : ev_decision event = decision;
  or_reason : ev_reason event = reason;
  or_principal : ev_authenticated_principal event = ar_authenticated_principal request;
  or_workspace : ev_workspace event = ar_workspace request;
  or_operations : ev_operations event = ar_operations request;
}.
Lemma audit_event_of request stage decision reason a :
  ∃ event, audit_event now request stage decision reason a = (event, tick a) ∧
    of_request request stage decision reason event.
Proof. eexists. by split. Qed.
Lemma identified_of request stage decision reason i s event :
  of_request request stage decision reason event →
  of_request request stage decision reason (identified i s event).
Proof. by intros []. Qed.
Lemma outcomes_of request stage decision reason o d h event :
  of_request request stage decision reason event →
  of_request request stage decision reason (outcomes o d h event).
Proof. by intros []. Qed.

(** An append succeeds, and adds the event when nothing excuses its loss; or the
    audit is mandatory, and it answers one of two errors. *)
Lemma append_cases request event a r a' :
  audit_append request event a = (r, a') →
  audit_degraded a' = audit_degraded a ∧
  ((r = inr tt ∧ ∃ l, grows a l a' ∧
      (ar_mode request = Mandatory → authoritative_persistence a = true →
       authoritative_persistence a' = true ∧ ∃ i s, l = [identified i s event])) ∨
   (ar_mode request = Mandatory ∧ grows a [] a' ∧
    authoritative_persistence a' = authoritative_persistence a ∧
    (r = inl AuditSinkUnavailable ∨ r = inl AuditEventTooLarge))).
Proof.
  unfold audit_append. destruct (authoritative_persistence a) eqn:Hauth; cbn [negb].
  2: { intros [= <- <-]. split; [done|]. left. split; [done|]. exists []. split; [apply grows_nil|].
       intros _ [=]. }
  assert (∀ e b, (e = AuditSinkUnavailable ∨ e = AuditEventTooLarge) →
    trace b = trace a → audit_degraded b = audit_degraded a → authoritative_persistence b = true →
    sink_failed request e b = (r, a') →
    audit_degraded a' = audit_degraded a ∧
    ((r = inr tt ∧ ∃ l, grows a l a' ∧
        (ar_mode request = Mandatory → true = true →
         authoritative_persistence a' = true ∧ ∃ i s, l = [identified i s event])) ∨
     (ar_mode request = Mandatory ∧ grows a [] a' ∧ authoritative_persistence a' = true ∧
      (r = inl AuditSinkUnavailable ∨ r = inl AuditEventTooLarge)))) as Hfail.
  { intros e b He Ht Hd Ha. unfold sink_failed. destruct (ar_mode request) eqn:Hm; intros [= <- <-]; cbn.
    - split; [done|]. left. split; [done|]. exists []. split; [|done].
      unfold grows. cbn. by rewrite Ht, app_nil_r.
    - split; [done|]. right. split_and!; try done.
      + unfold grows. cbn. by rewrite Ht, app_nil_r.
      + destruct He as [-> | ->]; [by left|by right]. }
  unfold asked. destruct (sk_allocate_event_identity (sink a)) as [[e|[i s]] k].
  { apply Hfail; [by left|done..]. }
  destruct (if i =? 0 then _ else _) as [i' b1] eqn:H1.
  assert (trace b1 = trace a ∧ audit_degraded b1 = audit_degraded a ∧ authoritative_persistence b1 = true) as (Ht1 & Hd1 & Ha1).
  { destruct (i =? 0); injection H1 as <- <-; done. }
  destruct (if s =? 0 then _ else _) as [s' b2] eqn:H2.
  assert (trace b2 = trace a ∧ audit_degraded b2 = audit_degraded a ∧ authoritative_persistence b2 = true) as (Ht2 & Hd2 & Ha2).
  { destruct (s =? 0); injection H2 as <- <-; done. }
  destruct (sk_append _ _) as [[[]|[]] k'];
    [apply Hfail; [by left|done..]|apply Hfail; [by left|done..]|apply Hfail; [by right|done..]|].
  intros [= <- <-]. cbn. split; [done|]. left. split; [done|]. exists [identified i' s' event].
  split; [unfold grows; cbn; by rewrite Ht2|]. intros _ _. split; [done|]. by exists i', s'.
Qed.

Lemma appended_cases request stage decision reason a r a' :
  appended now request stage decision reason a = (r, a') →
  audit_degraded a' = audit_degraded a ∧
  ((r = inr tt ∧ ∃ l, grows a l a' ∧
      (ar_mode request = Mandatory → authoritative_persistence a = true →
       authoritative_persistence a' = true ∧
       ∃ event, l = [event] ∧ of_request request stage decision reason event)) ∨
   (ar_mode request = Mandatory ∧ grows a [] a' ∧
    authoritative_persistence a' = authoritative_persistence a ∧
    (r = inl AuditSinkUnavailable ∨ r = inl AuditEventTooLarge))).
Proof.
  unfold appended, mbind, act_bind.
  destruct (audit_event_of request stage decision reason a) as (event & -> & Hof).
  intros [Hd [[-> (l & Hl & Hm)]|Hfail]]%append_cases; (split; [done|]); [left|right; exact Hfail].
  split; [done|]. exists l. split; [exact Hl|]. intros Hmode Ha. destruct (Hm Hmode Ha) as (Ha' & i & s & ->).
  split; [done|]. exists (identified i s event). split; [done|]. by apply identified_of.
Qed.

(** After the effect: the event is accepted, or the service is degraded. *)
Lemma post_effect_cases request event a a' :
  audit_append_post_effect now request event a = (tt, a') →
  (audit_degraded a = true → audit_degraded a' = true) ∧
  ∃ l, grows a l a' ∧
    (ar_mode request = Mandatory → authoritative_persistence a = true →
     authoritative_persistence a' = true ∧
     (audit_degraded a' = true ∨ ∃ i s, l = [identified i s event])).
Proof.
  unfold audit_append_post_effect. destruct (audit_append request event a) as [r a1] eqn:Happ.
  apply append_cases in Happ as [Hd1 [[-> (l & Hl & Hm)]|(Hmode & Hl & Ha1 & Hr)]].
  - intros [= <-]. split; [by rewrite Hd1|]. exists l. split; [done|]. intros Hmode Ha.
    destruct (Hm Hmode Ha) as [Ha' Hi]. split; [done|]. by right.
  - rewrite Hmode. destruct (appended now request StDelivery DecError RsSinkUnavailable (set_degraded true a1))
      as [r2 a2] eqn:Hem.
    assert ((tt, a2) = (tt, a') → a2 = a') as Heq by congruence.
    intros Hrun. assert (a2 = a') as <- by (destruct Hr as [-> | ->]; by apply Heq). clear Heq Hrun.
    apply appended_cases in Hem as [Hd2 Hem].
    change (audit_degraded (set_degraded true a1)) with true in Hd2. split; [done|].
    assert (∃ l, grows a l a2 ∧ (ar_mode request = Mandatory → authoritative_persistence a = true →
      authoritative_persistence a2 = true)) as (l & Hl' & Hsure).
    { destruct Hem as [[-> (l & Hl2 & Hm)]|(_ & Hl2 & Ha2 & _)].
      - exists l. split; [apply (grows_app a [] a1 l a2 Hl Hl2)|]. intros Hmo Ha.
        apply Hm; [done|]. cbn. congruence.
      - exists []. split; [apply (grows_app a [] a1 [] a2 Hl Hl2)|]. intros _ Ha. rewrite Ha2. cbn. congruence. }
    exists l. split; [done|]. intros Hmo Ha. split; [by apply Hsure|]. by left.
Qed.
End auditing_facts.

(** ** What a call means, without the audit *)

Definition map_err {E E' A} (f : E → E') (r : res E A) : res E' A :=
  match r with inl e => inl (f e) | inr x => inr x end.
Definition of_grm {A} (r : result A) : res GrmError A :=
  match r with Ok x => inr x | Err e => inl e end.

(** The calls of workspaces, with what each takes from its surroundings. *)
Inductive WorkspaceCall (Metadata : Type) :=
  | CallCreate (fuel : nat) (tags : string * string) (random : option string)
      (request : Request Metadata ProtoWorkspaceCreateRequest)
  | CallOpen (tags : string * string) (random : option string)
      (request : Request Metadata ProtoWorkspaceOpenRequest)
  | CallExecute (clock : nat → Z) (tags : string * string)
      (request : Request Metadata ProtoWorkspaceRuntimeRequest)
  | CallClose (request : Request Metadata ProtoWorkspaceCloseRequest).
Arguments CallCreate {_}.
Arguments CallOpen {_}.
Arguments CallExecute {_}.
Arguments CallClose {_}.

Inductive Reply :=
  | ReplyHandle (response : ProtoWorkspaceCreateResponse)
  | ReplyExecuted (response : ProtoWorkspaceRuntimeResponse)
  | ReplyClosed (response : ProtoWorkspaceCloseRequest).

Section gates.
Context `{SerdeNumber} `{Formats} `{!SnapshotCodec} `{!SessionCodec} `{!IoText}.
Context {Metadata : Type}.
Variable actor_metadata : Metadata → option (option string).
Variable security : ServiceSecurityConfig Metadata.
Abbreviation inputs_of := (TransportPeer * option Principal * option ActorAssertion)%type.

(** A call that passed every check: who calls, what it needs, what it does, and
    whether what it did is durable. *)
Record Admission := {
  ad_inputs : inputs_of;
  ad_workspace : string;
  ad_operations : list SecurityOperation;
  ad_call : InProcessWorkspaceService → io (res Status Reply * InProcessWorkspaceService);
  ad_durability : Reply → SecurityAuditDurabilityOutcome;
}.

(** Whoever calls is identified, in fields that fit the audit. *)
Definition identify {A} (request : Request Metadata A) : res Status inputs_of :=
  inputs ← map_err security_status (request_security_inputs actor_metadata security request);
  _ ← map_err security_status (audit_principal inputs.1.2);
  _ ← map_err security_status (audit_actor inputs.2);
  mret (M:=res _) inputs.
(** The operations fit the audit and the policy allows them. *)
Definition permitted (inputs : inputs_of) (workspace : string) (operations : list SecurityOperation)
    : res Status unit :=
  _ ← map_err security_status (audit_operations operations);
  decision ← map_err security_status (authorize security inputs workspace operations);
  match decision with
  | Allow _ => inr tt
  | Deny _ => inl (security_status Denied)
  end.
Definition bounded_name (workspace : string) : res Status unit :=
  _ ← map_err security_status (bounded_audit_field workspace); mret (M:=res _) tt.

(** The call of the service, its answer as the reply or the status. *)
Definition replying {A} (reply : A → res Status Reply)
    (m : io (service_result A * InProcessWorkspaceService))
    : io (res Status Reply * InProcessWorkspaceService) :=
  m ≫= λ '(r, s),
  mret (M:=io) (match r with inl e => inl (workspace_status e) | inr x => reply x end, s).

Definition create_gate (fuel : nat) (tags : string * string) (random : option string)
    (request : Request Metadata ProtoWorkspaceCreateRequest) : res Status Admission :=
  inputs ← identify request;
  message ← map_err proto_status (of_grm (create_from_proto (rq_message request)));
  let operations := [service_security_operation WorkspaceCreate] in
  _ ← permitted inputs "service" operations;
  mret (M:=res _) {| ad_inputs := inputs; ad_workspace := "service"; ad_operations := operations;
    ad_call s := replying (λ x, inr (ReplyHandle (create_response_to_proto x)))
                   (fuelled (Service.create_workspace fuel tags random message s));
    ad_durability _ := workspace_create_durability message |}.
Definition open_gate (tags : string * string) (random : option string)
    (request : Request Metadata ProtoWorkspaceOpenRequest) : res Status Admission :=
  inputs ← identify request;
  message ← map_err proto_status (of_grm (open_from_proto (rq_message request)));
  let workspace := open_name message in
  let operations := [workspace_security_operation WorkspaceOpen workspace] in
  _ ← bounded_name workspace;
  _ ← permitted inputs workspace operations;
  mret (M:=res _) {| ad_inputs := inputs; ad_workspace := workspace; ad_operations := operations;
    ad_call s := replying (λ x, inr (ReplyHandle (open_response_to_proto x)))
                   (Service.open_workspace tags random message s);
    ad_durability _ := DoNotApplicable |}.
Definition execute_gate (clock : nat → Z) (tags : string * string)
    (request : Request Metadata ProtoWorkspaceRuntimeRequest) (s : InProcessWorkspaceService)
    : res Status Admission :=
  inputs ← identify request;
  message ← map_err proto_status (of_grm (runtime_request_from_proto (rq_message request)));
  let workspace := workspace_log_name (wrq_handle message) s in
  _ ← (if decide (profile security = Secured)
       then if validate_secured_operation_scope (wrq_request message) then inr tt else inl scope_status
       else mret (M:=res _) tt);
  let operations := security_operations (wrq_request message) workspace in
  _ ← bounded_name workspace;
  _ ← permitted inputs workspace operations;
  _ ← map_err workspace_status (Service.workspace (wrq_handle message) s);
  _ ← (if enforce_security_limits (wrq_request message) (max_batch_operations security)
       then inr tt else inl limit_status);
  mret (M:=res _) {| ad_inputs := inputs; ad_workspace := workspace; ad_operations := operations;
    ad_call s := replying
      (λ x, map_err proto_status (ReplyExecuted <$> of_grm (runtime_response_to_proto x)))
      (service_execute clock tags message s);
    ad_durability reply :=
      match reply with
      | ReplyExecuted m =>
          match pwrr_durable_operations m with [] => DoNotApplicable | _ => DoCommitted end
      | _ => DoNotApplicable
      end |}.
Definition close_gate (request : Request Metadata ProtoWorkspaceCloseRequest)
    (s : InProcessWorkspaceService) : res Status Admission :=
  inputs ← identify request;
  message ← map_err proto_status (of_grm (close_from_proto (rq_message request)));
  let workspace := workspace_log_name (wlq_handle message) s in
  let operations := [workspace_security_operation WorkspaceClose workspace] in
  _ ← bounded_name workspace;
  _ ← permitted inputs workspace operations;
  _ ← map_err workspace_status (Service.workspace (wlq_handle message) s);
  mret (M:=res _) {| ad_inputs := inputs; ad_workspace := workspace; ad_operations := operations;
    ad_call s := replying (λ x, inr (ReplyClosed (close_response_to_proto x)))
                   (mret (M:=io) (Service.close_workspace message s));
    ad_durability _ := DoNotApplicable |}.
Definition gate (call : WorkspaceCall Metadata) (s : InProcessWorkspaceService) : res Status Admission :=
  match call with
  | CallCreate fuel tags random request => create_gate fuel tags random request
  | CallOpen tags random request => open_gate tags random request
  | CallExecute clock tags request => execute_gate clock tags request s
  | CallClose request => close_gate request s
  end.

(** The handler of a call. *)
Definition serve {Sink} `{!SecurityAuditSink Sink} (now : nat → Z) (call : WorkspaceCall Metadata)
    : rpc Sink Reply :=
  match call with
  | CallCreate fuel tags random request =>
      r ← create_workspace actor_metadata security now fuel tags random request;
      mret (M:=rpc Sink) (ReplyHandle r)
  | CallOpen tags random request =>
      r ← open_workspace actor_metadata security now tags random request;
      mret (M:=rpc Sink) (ReplyHandle r)
  | CallExecute clock tags request =>
      r ← execute_workspace actor_metadata security now clock tags request;
      mret (M:=rpc Sink) (ReplyExecuted r)
  | CallClose request =>
      r ← close_workspace actor_metadata security now request; mret (M:=rpc Sink) (ReplyClosed r)
  end.
End gates.

(** ** The audit only refuses *)

Section gated.
Context `{SerdeNumber} `{Formats} `{!SnapshotCodec} `{!SessionCodec} `{!IoText}.
Context {Sink : Type} `{!SecurityAuditSink Sink} {Metadata : Type}.
Variable actor_metadata : Metadata → option (option string).
Variable security : ServiceSecurityConfig Metadata.
Variable now : nat → Z.
Abbreviation rpc := (rpc Sink).
Abbreviation act := (act Sink).
Abbreviation inputs_of := (TransportPeer * option Principal * option ActorAssertion)%type.
Implicit Types (w : World Sink) (a : AuditState Sink) (audit : SecurityAuditRequest).
Implicit Types (l : list SecurityAuditEvent).

(** The statuses of a sink that takes no more. *)
Definition refusal (st : Status) : Prop :=
  st = security_status AuditSinkUnavailable ∨ st = security_status AuditEventTooLarge.
(** Only the audit has changed, and the sink accepted [l]. *)
Record quiet w l w' : Prop := {
  qt_service : wd_service w' = wd_service w;
  qt_faults : wd_faults w' = wd_faults w;
  qt_files : wd_files w' = wd_files w;
  qt_trace : grows (wd_audit w) l (wd_audit w');
}.
Lemma quiet_app w l1 w1 l2 w2 : quiet w l1 w1 → quiet w1 l2 w2 → quiet w (l1 ++ l2)%list w2.
Proof. intros [] []. split; [congruence..|by eapply grows_app]. Qed.
Lemma quiet_audit w l a : grows (wd_audit w) l a → quiet w l (set_audit a w).
Proof. by split. Qed.
Lemma quiet_refl w : quiet w [] w.
Proof. split; [done..|apply grows_nil]. Qed.
(** No event of a mandatory audit is dropped. *)
Definition sure a : Prop := profile security = Secured → authoritative_persistence a = true.

(** A part of a handler answers what the check [g] answers, unless the mandatory
    audit refuses it. *)
Definition gated {A B} (m : rpc A) w (g : res Status B) (R : A → B → list SecurityAuditEvent → Prop) : Prop :=
  ∃ l w', quiet w l w' ∧
    ((∃ st, m w = (Some (inl st), w') ∧ (g = inl st ∨ profile security = Secured ∧ refusal st)) ∨
     (∃ x y, m w = (Some (inr x), w') ∧ g = inr y ∧ sure (wd_audit w') ∧ R x y l)).

Lemma gated_mono {A B} (m : rpc A) w (g : res Status B) (R R' : A → B → list SecurityAuditEvent → Prop) :
  gated m w g R → (∀ x y l, R x y l → R' x y l) → gated m w g R'.
Proof.
  intros (l & w' & Hq & [Hl|(x & y & Hm & Hg & Hs & HR)]) HR'; exists l, w'; (split; [done|]); [by left|right].
  exists x, y. auto.
Qed.
Lemma gated_bind {A B C D} (m : rpc A) (f : A → rpc C) w (g : res Status B) (h : B → res Status D) R R' :
  gated m w g R →
  (∀ x y l w', R x y l → sure (wd_audit w') → quiet w l w' →
     gated (f x) w' (h y) (λ x' y' l', R' x' y' (l ++ l')%list)) →
  gated (m ≫= f) w (g ≫= h) R'.
Proof.
  intros (l & w1 & Hq & [(st & Hm & Hg)|(x & y & Hm & -> & Hs & HR)]) Hf.
  - exists l, w1. split; [done|]. left. exists st. unfold mbind, rpc_bind. rewrite Hm. split; [done|].
    destruct Hg as [-> |Hg]; [by left|by right].
  - destruct (Hf x y l w1 HR Hs Hq) as (l' & w2 & Hq' & Hr). exists (l ++ l')%list, w2.
    split; [by eapply quiet_app|]. unfold mbind, rpc_bind, res_bind. by rewrite Hm.
Qed.
(** A part that no check answers for. *)
Lemma gated_pass {A C D} (m : rpc A) (f : A → rpc C) w (h : res Status D)
    (R : A → list SecurityAuditEvent → Prop) R' :
  gated m w (inr tt) (λ x _ l, R x l) →
  (∀ x l w', R x l → sure (wd_audit w') → quiet w l w' →
     gated (f x) w' h (λ x' y' l', R' x' y' (l ++ l')%list)) →
  gated (m ≫= f) w h R'.
Proof.
  intros Hm Hf. change h with ((inr tt : res Status unit) ≫= λ _, h).
  eapply gated_bind; [exact Hm|]. intros x [] l w' HR Hs Hq. by apply Hf.
Qed.
Lemma gated_ret {A B} (x : A) (y : B) w (R : A → B → list SecurityAuditEvent → Prop) :
  sure (wd_audit w) → R x y [] → gated (mret (M:=rpc) x) w (inr y) R.
Proof. intros Hs HR. exists [], w. split; [apply quiet_refl|]. right. by exists x, y. Qed.

Lemma mandatory request : ar_mode request = audit_mode security →
  profile security = Secured ↔ ar_mode request = Mandatory.
Proof. intros ->. unfold audit_mode. by destruct (profile security). Qed.

(** *** The parts *)

Lemma gated_appended audit stage decision reason w :
  ar_mode audit = audit_mode security → sure (wd_audit w) →
  gated (enforce (appended now audit stage decision reason)) w (inr tt)
    (λ _ _ l, profile security = Secured → ∃ e, l = [e] ∧ of_request audit stage decision reason e).
Proof.
  intros Hmode Hs. pose proof (mandatory audit Hmode) as Hmand.
  destruct (appended now audit stage decision reason (wd_audit w)) as [r a] eqn:Happ.
  assert (enforce (appended now audit stage decision reason) w
          = or_status security_status r (set_audit a w)) as Hrun.
  { unfold enforce, mbind, rpc_bind, audited. by rewrite Happ. }
  unfold gated. rewrite Hrun.
  apply appended_cases in Happ as [_ [[-> (l & Hl & Hm)]|(Hmo & Hl & Ha & Hr)]].
  - exists l, (set_audit a w). split; [by apply quiet_audit|]. right. exists tt, tt. split_and!; try done.
    + intros Hp. apply Hm; [by apply Hmand|by apply Hs].
    + intros Hp. destruct (Hm (proj1 Hmand Hp) (Hs Hp)) as [_ (e & -> & He)]. by exists e.
  - exists [], (set_audit a w). split; [by apply quiet_audit|]. left.
    apply Hmand in Hmo. destruct Hr as [-> | ->]; eexists; (split; [reflexivity|]); right;
      (split; [done|]); [by left|by right].
Qed.

(** What a refusal does before it answers. *)
Definition reports {E} (f : E → act Status) (h : E → Status) : Prop :=
  ∀ e a, ∃ st a' l, f e a = (st, a') ∧ grows a l a' ∧
    (st = h e ∨ profile security = Secured ∧ refusal st).
Lemma reports_appended {E} audit stage (decision : E → SecurityAuditDecision) (reason : E → SecurityAuditReason)
    (h : E → Status) :
  ar_mode audit = audit_mode security →
  reports (λ e, r ← appended now audit stage (decision e) (reason e);
                mret (M:=act) match r with inl audit_error => security_status audit_error
                                         | inr _ => h e end) h.
Proof.
  intros Hmode e a. pose proof (mandatory audit Hmode) as Hmand.
  unfold mbind, act_bind. destruct (appended now audit stage (decision e) (reason e) a) as [r a'] eqn:Happ.
  apply appended_cases in Happ as [_ [[-> (l & Hl & _)]|(Hmo & Hl & _ & Hr)]].
  - exists (h e), a', l. split_and!; [done|done|by left].
  - apply Hmand in Hmo. destruct Hr as [-> | ->]; eexists _, a', []; split_and!; try done; right;
      (split; [done|]); [by left|by right].
Qed.
Lemma gated_refuse {A E} (f : E → act Status) (h : E → Status) (r : res E A) w :
  reports f h → sure (wd_audit w) →
  gated (refuse_with f r) w (map_err h r) (λ x y l, x = y ∧ r = inr x ∧ l = []).
Proof.
  intros Hf Hs. destruct r as [e|x].
  - destruct (Hf e (wd_audit w)) as (st & a & l & Hrun & Hl & Hst). exists l, (set_audit a w).
    split; [by apply quiet_audit|]. left. exists st. cbn [refuse_with].
    unfold mbind, rpc_bind, audited. rewrite Hrun. split; [done|].
    destruct Hst as [-> |Hst]; [by left|by right].
  - by apply gated_ret.
Qed.
Lemma gated_or_status {A E} (f : E → Status) (r : res E A) w :
  sure (wd_audit w) → gated (or_status f r) w (map_err f r) (λ x y l, x = y ∧ r = inr x ∧ l = []).
Proof.
  intros Hs. destruct r as [e|x]; [|by apply gated_ret].
  exists [], w. split; [apply quiet_refl|]. left. exists (f e). split; [done|by left].
Qed.
Lemma gated_lock w : sure (wd_audit w) →
  gated (lock : rpc _) w (inr tt) (λ s _ l, s = wd_service w ∧ l = []).
Proof. intros Hs. exists [], w. split; [apply quiet_refl|]. right. by exists (wd_service w), tt. Qed.

Lemma start_cases a r a' :
  start_audit_request security a = (r, a') →
  trace a' = trace a ∧ audit_degraded a' = audit_degraded a ∧
  ((∃ audit, r = inr audit ∧ ar_mode audit = audit_mode security ∧ sure a') ∨
   (profile security = Secured ∧ r = inl AuditSinkUnavailable)).
Proof.
  unfold start_audit_request, mbind, act_bind, asked.
  destruct (sk_allocate_request_id (sink a)) as [[e|id] k].
  - destruct (audit_mode security) eqn:Hmode; intros [= <- <-]; (split; [done|]); (split; [done|]).
    + left. eexists. split; [reflexivity|]. split; [done|]. intros Hp. unfold audit_mode in Hmode.
      by rewrite Hp in Hmode.
    + right. split; [|done]. unfold audit_mode in Hmode. by destruct (profile security).
  - destruct (id =? 0); intros [= <- <-]; (split; [done|]); (split; [done|]); left; eexists;
      (split; [reflexivity|]); done.
Qed.
Lemma ensure_cases a r a' :
  ensure_mandatory_audit_available security a = (r, a') →
  trace a' = trace a ∧ authoritative_persistence a' = authoritative_persistence a ∧
  (r = inr tt ∨ (profile security = Secured ∧ r = inl AuditSinkUnavailable)).
Proof.
  unfold ensure_mandatory_audit_available, asked.
  destruct (bool_decide _) eqn:Hp; cbn [negb]; [|intros [= <- <-]; split_and!; auto].
  apply bool_decide_eq_true in Hp.
  destruct (audit_degraded a); cbn [negb]; [|intros [= <- <-]; split_and!; auto].
  destruct (sk_try_recover _) as [[e|[]] k]; intros [= <- <-]; cbn; split_and!; auto.
Qed.
Lemma unchanged_trace w a : trace a = trace (wd_audit w) → quiet w [] (set_audit a w).
Proof. intros Ht. apply quiet_audit. unfold grows. by rewrite Ht, fmap_nil, app_nil_r. Qed.

Lemma gated_start w :
  gated (enforce (start_audit_request security)) w (inr tt)
    (λ audit _ l, l = [] ∧ ar_mode audit = audit_mode security).
Proof.
  destruct (start_audit_request security (wd_audit w)) as [r a] eqn:Hrun.
  assert (enforce (start_audit_request security) w = or_status security_status r (set_audit a w)) as Hw
    by (unfold enforce, audited, mbind, rpc_bind; by rewrite Hrun).
  apply start_cases in Hrun as (Ht & _ & Hr). unfold gated. rewrite Hw.
  exists [], (set_audit a w). split; [by apply unchanged_trace|].
  destruct Hr as [(audit & -> & Hm & Hs)|[Hp ->]].
  - right. by exists audit, tt.
  - left. eexists. split; [reflexivity|]. right. split; [done|by left].
Qed.
Lemma gated_ensure w : sure (wd_audit w) →
  gated (enforce (ensure_mandatory_audit_available security)) w (inr tt) (λ _ _ l, l = []).
Proof.
  intros Hs. destruct (ensure_mandatory_audit_available security (wd_audit w)) as [r a] eqn:Hrun.
  assert (enforce (ensure_mandatory_audit_available security) w
          = or_status security_status r (set_audit a w)) as Hw
    by (unfold enforce, audited, mbind, rpc_bind; by rewrite Hrun).
  apply ensure_cases in Hrun as (Ht & Ha & Hr). unfold gated. rewrite Hw.
  exists [], (set_audit a w). split; [by apply unchanged_trace|]. destruct Hr as [-> |[Hp ->]].
  - right. exists tt, tt. split_and!; try done. intros Hp. cbn. rewrite Ha. by apply Hs.
  - left. eexists. split; [reflexivity|]. right. split; [done|by left].
Qed.
End gated.

Section admitting.
Context `{SerdeNumber} `{Formats} `{!SnapshotCodec} `{!SessionCodec} `{!IoText}.
Context {Sink : Type} `{!SecurityAuditSink Sink} {Metadata : Type}.
Variable actor_metadata : Metadata → option (option string).
Variable security : ServiceSecurityConfig Metadata.
Variable now : nat → Z.
Abbreviation rpc := (rpc Sink).
Abbreviation inputs_of := (TransportPeer * option Principal * option ActorAssertion)%type.
Abbreviation gated := (gated security).
Implicit Types (w : World Sink) (audit : SecurityAuditRequest) (inputs : inputs_of).
Implicit Types (l : list SecurityAuditEvent).

Lemma populate_gate {X} audit p actor (k : res Status X) :
  (_ ← map_err security_status (audit_principal p); _ ← map_err security_status (audit_actor actor); k)
  = (_ ← map_err security_status (populate_audit_identity audit p actor).1; k).
Proof. unfold populate_audit_identity. by destruct (audit_principal p), (audit_actor actor). Qed.
Lemma populate_keeps audit p actor :
  let '(r, audit') := populate_audit_identity audit p actor in
  ar_mode audit' = ar_mode audit ∧ ar_request_id audit' = ar_request_id audit ∧
  (r = inr tt → audit_principal p = inr (ar_authenticated_principal audit')).
Proof.
  unfold populate_audit_identity. destruct (audit_principal p); [done|]. by destruct (audit_actor actor).
Qed.

(** The events of an identified request. *)
Definition introduced audit l : Prop :=
  ∃ e1 e2, l = [e1; e2] ∧ ev_stage e1 = StAttempt ∧ ev_request_id e1 = ar_request_id audit ∧
    of_request audit StAuthentication DecAllow RsExplicitPolicyAllow e2.
Lemma gated_authenticated {A} (request : Request Metadata A) w :
  gated (authenticated actor_metadata security now request) w (identify actor_metadata security request)
    (λ x inputs l, x.2 = inputs ∧ ar_mode x.1 = audit_mode security ∧
       request_security_inputs actor_metadata security request = inr inputs ∧
       audit_principal inputs.1.2 = inr (ar_authenticated_principal x.1) ∧
       (profile security = Secured → introduced x.1 l)).
Proof.
  unfold authenticated. eapply gated_pass; [apply gated_start|].
  intros audit0 l0 w0 [-> Hmode0] Hs0 _. cbn [app].
  set (audit1 := with_transport_peer _ audit0).
  assert (ar_mode audit1 = audit_mode security) as Hmode1 by done.
  eapply gated_pass; [by apply gated_ensure|]. intros [] l1 w1 -> Hs1 _. cbn [app].
  eapply gated_pass; [by apply gated_appended|]. intros [] l2 w2 Hl2 Hs2 _.
  eapply gated_bind; [apply (gated_refuse _ _ security_status); [by apply (reports_appended security now audit1 StAuthentication error_decision error_reason security_status)|done]|].
  intros inputs ? l3 w3 (<- & Hin & ->) Hs3 _. cbn [app].
  set (audit2 := with_transport_peer _ audit1).
  rewrite (populate_gate audit2). pose proof (populate_keeps audit2 inputs.1.2 inputs.2) as Hkeep.
  destruct (populate_audit_identity audit2 inputs.1.2 inputs.2) as [r audit3].
  destruct Hkeep as (Hmode3 & Hid3 & Hp3). cbn [fst].
  assert (ar_mode audit3 = audit_mode security) as Hm3 by (by rewrite Hmode3).
  eapply gated_bind; [apply (gated_refuse _ _ security_status); [by apply (reports_appended security now audit3 StAuthentication error_decision error_reason security_status)|done]|].
  intros [] ? l4 w4 (<- & -> & ->) Hs4 _. cbn [app].
  eapply gated_pass; [by apply gated_appended|]. intros [] l5 w5 Hl5 Hs5 _.
  apply gated_ret; [done|]. cbn [fst snd]. split_and!; try done; [by apply Hp3|].
  intros Hsec. destruct (Hl2 Hsec) as (e1 & -> & He1), (Hl5 Hsec) as (e2 & -> & He2).
  exists e1, e2. split_and!; try done; [apply He1|].
  rewrite (or_request _ _ _ _ _ He1). by rewrite Hid3.
Qed.

Lemma gated_named audit workspace w :
  ar_mode audit = audit_mode security → sure security (wd_audit w) →
  gated (named now audit workspace) w (bounded_name workspace)
    (λ audit' _ l, audit' = with_workspace (Some workspace) audit ∧ l = []).
Proof.
  intros Hm Hs. unfold named, bounded_name.
  eapply gated_bind; [apply (gated_refuse _ _ security_status); [by apply (reports_appended security now audit StAdmission error_decision error_reason security_status)|done]|].
  intros name ? l w' (<- & Hb & ->) Hs' _. apply gated_ret; [done|]. split; [|done].
  unfold bounded_audit_field in Hb. destruct (_ <? _)%nat; [done|]. by injection Hb as ->.
Qed.

Lemma gated_denied audit stage reason w :
  ar_mode audit = audit_mode security → sure security (wd_audit w) →
  gated (enforce (r ← appended now audit stage DecDeny reason;
                  mret (M:=act Sink) match r with inl e => inl e | inr _ => inl Denied end)) w
    (inl (security_status Denied) : res Status unit) (λ (_ : unit) _ _, False).
Proof.
  intros Hm Hs. pose proof (mandatory security audit Hm) as Hmand.
  unfold gated, enforce, mbind, rpc_bind, act_bind, audited.
  destruct (appended now audit stage DecDeny reason (wd_audit w)) as [r a] eqn:Happ.
  apply appended_cases in Happ as [_ [[-> (l & Hl & _)]|(Hmo & Hl & _ & Hr)]].
  - exists l, (set_audit a w). split; [by apply quiet_audit|]. left. eexists. split; [reflexivity|by left].
  - exists [], (set_audit a w). split; [by apply quiet_audit|]. left. apply Hmand in Hmo.
    destruct Hr as [-> | ->]; eexists; (split; [reflexivity|]); right; (split; [done|]); [by left|by right].
Qed.

(** The policy allowed the operations, and the audit has them. *)
Definition allowed audit inputs workspace operations l : Prop :=
  audit_operations operations = inr (ar_operations audit) ∧
  ∃ reason, ap_evaluate (policy security) (context_of security inputs workspace operations)
              = Some (Allow reason) ∧
    (profile security = Secured →
     ∃ e, l = [e] ∧ of_request audit StAuthorization DecAllow (audit_reason_from_authorization reason) e).
Lemma gated_authorized audit inputs workspace operations w :
  ar_mode audit = audit_mode security → sure security (wd_audit w) →
  gated (authorized security now audit inputs workspace operations) w
    (permitted security inputs workspace operations)
    (λ audit' _ l, (∃ ops, audit' = with_operations ops audit) ∧
                   allowed audit' inputs workspace operations l).
Proof.
  intros Hm Hs. unfold authorized, permitted.
  eapply gated_bind; [apply (gated_refuse _ _ security_status); [by apply (reports_appended security now audit StAdmission error_decision error_reason security_status)|done]|].
  intros ops ? l0 w0 (<- & Hops & ->) Hs0 _. cbn [app]. set (audit' := with_operations ops audit).
  assert (ar_mode audit' = audit_mode security) as Hm' by done.
  eapply gated_bind; [apply (gated_refuse _ _ security_status); [by apply (reports_appended security now audit' StAuthorization error_decision error_reason security_status)|done]|].
  intros decision ? l1 w1 (<- & Hauth & ->) Hs1 _. cbn [app].
  unfold authorize in Hauth. destruct (ap_evaluate _ _) as [d|] eqn:Hev; [|done]. injection Hauth as ->.
  destruct decision as [reason|reason]; cbn [audit_authorization_decision].
  - eapply gated_pass; [by apply gated_appended|]. intros [] l2 w2 Hl2 Hs2 _. apply gated_ret; [done|].
    split; [by exists ops|]. split; [done|]. exists reason. split; [done|]. intros Hsec.
    destruct (Hl2 Hsec) as (e & -> & He). exists e. by rewrite app_nil_r.
  - change (inl (security_status Denied)) with
      ((inl (security_status Denied) : res Status unit) ≫= λ _, (inr tt : res Status unit)).
    eapply gated_bind; [by apply gated_denied|]. by intros [] [] l2 w2 [].
Qed.
Lemma gated_guard audit (holds : bool) reason status w :
  ar_mode audit = audit_mode security → sure security (wd_audit w) →
  gated (guard_admission now audit holds reason status) w
    (if holds then inr tt else inl status : res Status unit) (λ _ _ l, l = []).
Proof.
  intros Hm Hs.
  assert (reports security (λ _ : unit, audit_status_error now audit StAdmission DecDeny reason status)
            (λ _, status)) as Hr
    by (by apply (reports_appended security now audit StAdmission (λ _ : unit, DecDeny) (λ _, reason))).
  pose proof (gated_refuse security _ _ (if holds then inr tt else inl tt : res unit unit) w Hr Hs) as Hg.
  unfold guard_admission. destruct holds; (eapply gated_mono; [exact Hg|by intros ??? (_ & _ & ->)]).
Qed.
Lemma gated_known handle s w :
  sure security (wd_audit w) →
  gated (known handle s : rpc unit) w (map_err workspace_status (Service.workspace handle s))
    (λ _ _ l, l = []).
Proof.
  intros Hs. unfold known. destruct (Service.workspace handle s) as [e|x]; cbn [map_err or_status].
  - exists [], w. split; [apply quiet_refl|]. left. exists (workspace_status e). by split; [|left].
  - exists [], w. split; [apply quiet_refl|]. right. by exists tt, x.
Qed.
End admitting.

Section handling.
Context `{SerdeNumber} `{Formats} `{!SnapshotCodec} `{!SessionCodec} `{!IoText}.
Context {Sink : Type} `{!SecurityAuditSink Sink} {Metadata : Type}.
Variable actor_metadata : Metadata → option (option string).
Variable security : ServiceSecurityConfig Metadata.
Variable now : nat → Z.
Abbreviation rpc := (rpc Sink).
Abbreviation gated := (gated security).
Implicit Types (w : World Sink) (audit : SecurityAuditRequest) (ad : Admission).
Implicit Types (l : list SecurityAuditEvent).

(** The four events of an admitted call: of one request, each allowing it, with
    the principal, the workspace and the operations that were authorised. *)
Definition admission ad l : Prop :=
  ∃ e1 e2 e3 e4, l = [e1; e2; e3; e4] ∧
    ev_stage <$> l = [StAttempt; StAuthentication; StAuthorization; StAdmission] ∧
    ev_decision <$> [e2; e3; e4] = [DecAllow; DecAllow; DecAllow] ∧
    (∀ e, e ∈ l → ev_request_id e = ev_request_id e1) ∧
    (∀ e, e ∈ [e2; e3; e4] → audit_principal (ad_inputs ad).1.2 = inr (ev_authenticated_principal e)) ∧
    (∀ e, e ∈ [e3; e4] → ev_workspace e = Some (ad_workspace ad) ∧
                         audit_operations (ad_operations ad) = inr (ev_operations e)).
(** The events and the line of a call that succeeded. *)
Definition completion ad (reply : Reply) (rest : list Action) : Prop :=
  ∃ e1 e2 e3 line, rest = [Audited e1; Audited e2; Printed line; Audited e3] ∧
    ev_stage <$> [e1; e2; e3] = [StRuntime; StDurability; StDelivery] ∧
    ev_runtime_outcome e1 = RoSucceeded ∧ ev_durability_outcome e2 = ad_durability ad reply ∧
    ev_delivery_outcome e3 = DlHandedOff.

(** What a handler does, when it has recorded [l0]: it answers what the gate
    answers, or the audit refuses it; or it calls the service and answers what
    the call answers. *)
Definition handled {A} (m : rpc A) (reply : A → Reply) w (g : res Status Admission) l0 : Prop :=
  (∃ l w' st, quiet w l w' ∧ m w = (Some (inl st), w') ∧
     (g = inl st ∨ profile security = Secured ∧ refusal st)) ∨
  (∃ ad l r w' rest, g = inr ad ∧ (profile security = Secured → admission ad (l0 ++ l)%list) ∧
     m w = (r, w') ∧
     trace (wd_audit w') = (trace (wd_audit w) ++ (Audited <$> l) ++ [Called] ++ rest)%list ∧
     match ad_call ad (wd_service w) (wd_faults w) (wd_files w) with
     | (Done (answer, s), fl, fs) =>
         wd_service w' = s ∧ wd_faults w' = fl ∧ wd_files w' = fs ∧
         match answer with
         | inl st => r = Some (inl st)
         | inr y => ∃ x, r = Some (inr x) ∧ y = reply x ∧
             (profile security = Secured → audit_degraded (wd_audit w') = true ∨ completion ad y rest)
         end
     | (_, fl, fs) =>
         r = None ∧ wd_service w' = wd_service w ∧ wd_faults w' = fl ∧ wd_files w' = fs
     end).

Lemma handled_bind {A B C} (m : rpc A) (f : A → rpc C) (reply : C → Reply) w (g : res Status B)
    (h : B → res Status Admission) R l0 :
  gated m w g R →
  (∀ x y l w', R x y l → sure security (wd_audit w') → quiet w l w' →
     handled (f x) reply w' (h y) (l0 ++ l)%list) →
  handled (m ≫= f) reply w (g ≫= h) l0.
Proof.
  intros (l & w1 & Hq & [(st & Hm & Hg)|(x & y & Hm & -> & Hs & HR)]) Hf.
  - left. exists l, w1, st. unfold mbind, rpc_bind. rewrite Hm. split_and!; try done.
    destruct Hg as [-> |Hg]; [by left|by right].
  - specialize (Hf x y l w1 HR Hs Hq). unfold handled, mbind, rpc_bind, res_bind. rewrite Hm.
    destruct Hf as [(l' & w2 & st & Hq' & Hrun & Hst)|(ad & l' & r & w2 & rest & Hg & Had & Hrun & Ht & Hout)].
    + left. exists (l ++ l')%list, w2, st. split; [by eapply quiet_app|done].
    + right. exists ad, (l ++ l')%list, r, w2, rest. destruct Hq as [Es Efl Efs Et].
      rewrite app_assoc. rewrite Es, Efl, Efs in Hout. split_and!; try done.
      rewrite Ht, Et, fmap_app. by rewrite <-!app_assoc.
Qed.
Lemma handled_pass {A C} (m : rpc A) (f : A → rpc C) (reply : C → Reply) w (h : res Status Admission)
    (R : A → list SecurityAuditEvent → Prop) l0 :
  gated m w (inr tt) (λ x _ l, R x l) →
  (∀ x l w', R x l → sure security (wd_audit w') → quiet w l w' →
     handled (f x) reply w' h (l0 ++ l)%list) →
  handled (m ≫= f) reply w h l0.
Proof.
  intros Hm Hf. change h with ((inr tt : res Status unit) ≫= λ _, h).
  eapply handled_bind; [exact Hm|]. intros x [] l w' HR Hs Hq. by apply Hf.
Qed.

(** *** After the effect *)

Definition extends w (rest : list Action) w' : Prop :=
  trace (wd_audit w') = (trace (wd_audit w) ++ rest)%list ∧ wd_service w' = wd_service w ∧
  wd_faults w' = wd_faults w ∧ wd_files w' = wd_files w.
Lemma post_effect audit stage decision reason o d h w :
  ar_mode audit = audit_mode security →
  ∃ l w', audited (λ a, (let '(event, a) := audit_event now audit stage decision reason a in
                   audit_append_post_effect now audit (outcomes o d h event) a)) w = (Some (inr tt), w') ∧
    extends w (Audited <$> l) w' ∧
    (audit_degraded (wd_audit w) = true → audit_degraded (wd_audit w') = true) ∧
    (profile security = Secured → sure security (wd_audit w) → sure security (wd_audit w') ∧
     (audit_degraded (wd_audit w') = true ∨
      ∃ e, l = [e] ∧ ev_stage e = stage ∧ ev_runtime_outcome e = o ∧ ev_durability_outcome e = d ∧
           ev_delivery_outcome e = h)).
Proof.
  intros Hm. unfold audited.
  destruct (audit_event_of now audit stage decision reason (wd_audit w)) as (event & -> & Hof).
  destruct (audit_append_post_effect now audit (outcomes o d h event) (tick (wd_audit w))) as [[] a] eqn:Hrun.
  apply post_effect_cases in Hrun as (Hd & l & Hl & Hsure). exists l, (set_audit a w).
  split; [done|]. split; [by split|]. split; [exact Hd|]. intros Hsec Hs.
  destruct (Hsure (proj1 (mandatory security audit Hm) Hsec) (Hs Hsec)) as [Ha Hcase]. split; [by intros _|].
  destruct Hcase as [Hdeg|(i & s & ->)]; [by left|]. right. eexists. split; [reflexivity|].
  cbn. split; [apply Hof|done].
Qed.

Lemma extends_app w r1 w1 r2 w2 : extends w r1 w1 → extends w1 r2 w2 → extends w (r1 ++ r2)%list w2.
Proof. intros (Ht1 & ? & ? & ?) (Ht2 & ? & ? & ?). split_and!; try congruence. by rewrite Ht2, Ht1, app_assoc. Qed.
Lemma rpc_step {A B} (m : rpc A) (f : A → rpc B) x w w' : m w = (Some (inr x), w') → (m ≫= f) w = f x w'.
Proof. unfold mbind, rpc_bind. by intros ->. Qed.
Lemma printed_extends line w : ∃ w', printed line w = (Some (inr tt), w') ∧ extends w [Printed line] w' ∧
  audit_degraded (wd_audit w') = audit_degraded (wd_audit w) ∧
  authoritative_persistence (wd_audit w') = authoritative_persistence (wd_audit w).
Proof. eexists. split; [reflexivity|]. by repeat split. Qed.

Lemma succeeded_completes {A} audit ad line (x : A) (y : Reply) w :
  ar_mode audit = audit_mode security → sure security (wd_audit w) →
  ∃ rest w', succeeded now audit (ad_durability ad y) line x w = (Some (inr x), w') ∧
    extends w rest w' ∧
    (profile security = Secured → audit_degraded (wd_audit w') = true ∨ completion ad y rest).
Proof.
  intros Hm Hs. unfold succeeded.
  destruct (post_effect audit StRuntime DecAllow RsRuntimeSucceeded RoSucceeded DoNotApplicable DlNotReached w Hm)
    as (l1 & w1 & Hr1 & He1 & Hd1 & Hc1).
  destruct (post_effect audit StDurability DecNotApplicable (durability_reason (ad_durability ad y))
    RoNotReached (ad_durability ad y) DlNotReached w1 Hm) as (l2 & w2 & Hr2 & He2 & Hd2 & Hc2).
  destruct (printed_extends line w2) as (w3 & Hr3 & He3 & Hd3 & Ha3).
  destruct (post_effect audit StDelivery DecNotApplicable RsResponseHandedOff RoNotReached DoNotApplicable
    DlHandedOff w3 Hm) as (l4 & w4 & Hr4 & He4 & Hd4 & Hc4).
  exists ((Audited <$> l1) ++ (Audited <$> l2) ++ [Printed line] ++ (Audited <$> l4))%list, w4.
  split; [|split].
  - unfold succeeded. etrans; [apply (rpc_step _ _ _ _ _ Hr1)|].
    etrans; [apply (rpc_step _ _ _ _ _ Hr2)|]. etrans; [apply (rpc_step _ _ _ _ _ Hr3)|].
    etrans; [apply (rpc_step _ _ _ _ _ Hr4)|]. done.
  - eapply extends_app; [exact He1|]. eapply extends_app; [exact He2|]. by eapply extends_app.
  - intros Hsec. destruct (Hc1 Hsec Hs) as [Hs1 C1]. destruct (Hc2 Hsec Hs1) as [Hs2 C2].
    assert (sure security (wd_audit w3)) as Hs3 by (intros Hp; rewrite Ha3; by apply Hs2).
    destruct (Hc4 Hsec Hs3) as [_ C4].
    destruct C1 as [C1|(e1 & -> & St1 & O1 & _)]; [left; apply Hd4; rewrite Hd3; by apply Hd2|].
    destruct C2 as [C2|(e2 & -> & St2 & _ & O2 & _)]; [left; apply Hd4; by rewrite Hd3|].
    destruct C4 as [C4|(e4 & -> & St4 & _ & _ & O4)]; [by left|]. right.
    exists e1, e2, e4, line. cbn. by rewrite St1, St2, St4.
Qed.
Lemma failed_answers {A} audit error w :
  ar_mode audit = audit_mode security →
  ∃ rest w', (failed now audit error : rpc A) w = (Some (inl (workspace_status error)), w') ∧ extends w rest w'.
Proof.
  intros Hm. destruct (post_effect audit StRuntime DecError RsRuntimeFailed RoFailed DoNotCommitted
    DlNotReached w Hm) as (l & w1 & Hr & He & _). exists (Audited <$> l), w1. split; [|done].
  unfold failed. etrans; [apply (rpc_step _ _ _ _ _ Hr)|]. done.
Qed.

(** From the call of the service to the end. *)
Lemma handled_end {A X} audit ad l0 (m : InProcessWorkspaceService → io (service_result X * InProcessWorkspaceService))
    (k : X → rpc A) (reply : A → Reply) (rep : X → res Status Reply) w :
  ar_mode audit = audit_mode security → sure security (wd_audit w) →
  (profile security = Secured → admission ad l0) →
  (∀ s, ad_call ad s = replying rep (m s)) →
  (∀ response,
     (∃ st, rep response = inl st ∧ ∀ w, k response w = (Some (inl st), w)) ∨
     (∃ x line, rep response = inr (reply x) ∧
        k response = succeeded now audit (ad_durability ad (reply x)) line x)) →
  handled (r ← called m; match r with inl error => failed now audit error | inr response => k response end)
    reply w (inr ad) l0.
Proof.
  intros Hm Hs Had Hcall Hk. right. exists ad, [].
  unfold mbind at 1, rpc_bind, called. rewrite Hcall. unfold replying, mbind, io_bind.
  destruct (m (wd_service w) (wd_faults w) (wd_files w)) as [[[[[error|response] s]|e|] fl] fs].
  - set (w1 := {| wd_audit := seen Called (wd_audit w); wd_service := s; wd_faults := fl; wd_files := fs |}).
    destruct (failed_answers (A := A) audit error w1 Hm) as (rest & w2 & Hrun & Ht & ? & ? & ?).
    exists (Some (inl (workspace_status error))), w2, rest. split_and!; try done.
    + by rewrite app_nil_r.
    + rewrite Ht. cbn. by rewrite <-app_assoc.
  - set (w1 := {| wd_audit := seen Called (wd_audit w); wd_service := s; wd_faults := fl; wd_files := fs |}).
    destruct (Hk response) as [(st & Hrep & Hst)|(x & line & Hrep & Hx)].
    + exists (Some (inl st)), w1, []. rewrite app_nil_r. split; [done|]. split; [done|].
      split; [apply Hst|]. split; [done|]. cbn. by rewrite Hrep.
    + assert (sure security (wd_audit w1)) as Hs1 by exact Hs. rewrite Hx.
      destruct (succeeded_completes audit ad line x (reply x) w1 Hm Hs1) as (rest & w2 & Hrun & (Ht & ? & ? & ?) & Hc).
      exists (Some (inr x)), w2, rest. split_and!; try done.
      * by rewrite app_nil_r.
      * rewrite Ht. cbn. by rewrite <-app_assoc.
      * rewrite Hrep. split_and!; try done. by exists x.
  - eexists None, _, []. rewrite app_nil_r. by split_and!.
  - eexists None, _, []. rewrite app_nil_r. by split_and!.
Qed.
End handling.

Section serving.
Context `{SerdeNumber} `{Formats} `{!SnapshotCodec} `{!SessionCodec} `{!IoText}.
Context {Sink : Type} `{!SecurityAuditSink Sink} {Metadata : Type}.
Variable actor_metadata : Metadata → option (option string).
Variable security : ServiceSecurityConfig Metadata.
Variable now : nat → Z.
Abbreviation rpc := (rpc Sink).
Abbreviation gated := (gated security).
Abbreviation handled := (handled security).
Implicit Types (w : World Sink) (audit : SecurityAuditRequest) (ad : Admission).
Implicit Types (l : list SecurityAuditEvent).

Lemma admission_made audit name ops ad l1 l2 l3 :
  let audit' := with_operations ops (with_workspace (Some name) audit) in
  (profile security = Secured → introduced audit l1) →
  audit_principal (ad_inputs ad).1.2 = inr (ar_authenticated_principal audit) →
  ad_workspace ad = name →
  allowed security audit' (ad_inputs ad) name (ad_operations ad) l2 →
  (profile security = Secured → ∃ e, l3 = [e] ∧ of_request audit' StAdmission DecAllow RsExplicitPolicyAllow e) →
  profile security = Secured → admission ad (l1 ++ l2 ++ l3)%list.
Proof.
  intros audit' Hintro Hp Hname (Hops & reason & _ & Hauth) Hadm Hsec.
  destruct (Hintro Hsec) as (e1 & e2 & -> & S1 & R1 & [R2 S2 D2 _ P2 _ _]).
  destruct (Hauth Hsec) as (e3 & -> & [R3 S3 D3 _ P3 W3 O3]).
  destruct (Hadm Hsec) as (e4 & -> & [R4 S4 D4 _ P4 W4 O4]).
  exists e1, e2, e3, e4. split; [done|]. split; [cbn; by rewrite S1, S2, S3, S4|].
  split; [cbn; by rewrite D2, D3, D4|]. split; [|split].
  - intros e He. rewrite R1. apply list_elem_of_In in He. cbn in He.
    by destruct He as [<- |[<- |[<- |[<- |[]]]]].
  - intros e He. rewrite Hp. apply list_elem_of_In in He. cbn in He.
    by destruct He as [<- |[<- |[<- |[]]]]; [rewrite P2|rewrite P3|rewrite P4].
  - intros e He. rewrite Hname. apply list_elem_of_In in He. cbn in He.
    by destruct He as [<- |[<- |[]]]; [rewrite W3, O3|rewrite W4, O4].
Qed.

Lemma gated_parsed {A} audit (r : result A) w :
  ar_mode audit = audit_mode security → sure security (wd_audit w) →
  gated (parsed now audit r) w (map_err proto_status (of_grm r)) (λ x y l, x = y ∧ l = []).
Proof.
  intros Hm Hs.
  assert (reports security (λ e, audit_status_error now audit StAdmission DecError RsMalformedRequest
                                   (proto_status e)) proto_status) as Hr
    by (by apply (reports_appended security now audit StAdmission (λ _ : GrmError, DecError)
                    (λ _, RsMalformedRequest))).
  pose proof (gated_refuse security _ _ (of_grm r) w Hr Hs) as Hg.
  eapply gated_mono; [exact Hg|by intros ??? (-> & _ & ->)].
Qed.
Lemma gated_admission audit w :
  ar_mode audit = audit_mode security → sure security (wd_audit w) →
  gated (enforce (audit_admission_allow now audit)) w (inr tt)
    (λ _ _ l, profile security = Secured →
              ∃ e, l = [e] ∧ of_request audit StAdmission DecAllow RsExplicitPolicyAllow e).
Proof. apply gated_appended. Qed.

Lemma create_handled fuel tags random request w :
  handled (create_workspace actor_metadata security now fuel tags random request) ReplyHandle w
    (create_gate actor_metadata security fuel tags random request) [].
Proof.
  unfold create_workspace, create_gate.
  eapply handled_bind; [apply gated_authenticated|].
  intros [audit inputs] ? l1 w1 (<- & Hm1 & _ & Hp & Hi) Hs1 _. cbn [fst snd] in *.
  eapply handled_bind; [by apply gated_parsed|]. intros message ? l2 w2 (<- & ->) Hs2 _.
  eapply handled_bind; [by apply gated_authorized|].
  intros audit' [] l3 w3 ((ops & ->) & Hal) Hs3 _.
  eapply handled_pass; [by apply gated_admission|]. intros [] l4 w4 Hl4 Hs4 _.
  eapply (handled_end security now _ _ _ (λ s, fuelled (Service.create_workspace fuel tags random message s))
    (λ response, succeeded now _ (workspace_create_durability message) _ _)); [done|done| |done|].
  - rewrite !app_nil_r, <-app_assoc. cbn [app]. by eapply admission_made.
  - intros response. right. eexists _, _. by split.
Qed.
Lemma open_handled tags random request w :
  handled (open_workspace actor_metadata security now tags random request) ReplyHandle w
    (open_gate actor_metadata security tags random request) [].
Proof.
  unfold open_workspace, open_gate.
  eapply handled_bind; [apply gated_authenticated|].
  intros [audit inputs] ? l1 w1 (<- & Hm1 & _ & Hp & Hi) Hs1 _. cbn [fst snd] in *.
  eapply handled_bind; [by apply gated_parsed|]. intros message ? l2 w2 (<- & ->) Hs2 _.
  eapply handled_bind; [by apply gated_named|]. intros audit0 [] l2' w2' (-> & ->) Hs2' _.
  eapply handled_bind; [by apply gated_authorized|].
  intros audit' [] l3 w3 ((ops & ->) & Hal) Hs3 _.
  eapply handled_pass; [by apply gated_admission|]. intros [] l4 w4 Hl4 Hs4 _.
  eapply (handled_end security now _ _ _ (Service.open_workspace tags random message)
    (λ response, succeeded now _ DoNotApplicable _ _)); [done|done| |done|].
  - rewrite !app_nil_r, <-app_assoc. cbn [app]. by eapply admission_made.
  - intros response. right. eexists _, _. by split.
Qed.
Lemma close_handled request w :
  handled (close_workspace actor_metadata security now request) ReplyClosed w
    (close_gate actor_metadata security request (wd_service w)) [].
Proof.
  unfold close_workspace, close_gate.
  eapply handled_bind; [apply gated_authenticated|].
  intros [audit inputs] ? l1 w1 (<- & Hm1 & _ & Hp & Hi) Hs1 [E1 _ _ _]. cbn [fst snd] in *.
  eapply handled_bind; [by apply gated_parsed|]. intros message ? l2 w2 (<- & ->) Hs2 [E2 _ _ _].
  eapply handled_pass; [by apply gated_lock|]. intros s l2' w2' (-> & ->) Hs2' _. rewrite E2, E1.
  eapply handled_bind; [by apply gated_named|]. intros audit0 [] l2'' w2'' (-> & ->) Hs2'' _.
  eapply handled_bind; [by apply gated_authorized|].
  intros audit' [] l3 w3 ((ops & ->) & Hal) Hs3 _.
  eapply handled_bind; [by apply gated_known|]. intros [] ? l3' w3' -> Hs3' _.
  eapply handled_pass; [by apply gated_admission|]. intros [] l4 w4 Hl4 Hs4 _.
  eapply (handled_end security now _ _ _ (λ s, mret (M:=io) (Service.close_workspace message s))
    (λ response, succeeded now _ DoNotApplicable _ _)); [done|done| |done|].
  - rewrite !app_nil_r, <-app_assoc. cbn [app]. by eapply admission_made.
  - intros response. right. eexists _, _. by split.
Qed.
Lemma response_sent (x : WorkspaceRuntimeResponse) m :
  runtime_response_to_proto x = Ok m →
  match pwrr_durable_operations m with [] => DoNotApplicable | _ => DoCommitted end
  = match wrs_durable_operations x with [] => DoNotApplicable | _ => DoCommitted end.
Proof.
  unfold runtime_response_to_proto. intros (pr & _ & (ops & Hops & [= <-])%bind_Ok)%bind_Ok.
  cbn [pwrr_durable_operations]. destruct (wrs_durable_operations x) as [|op l].
  - by injection Hops as <-.
  - cbn [mapM] in Hops. apply bind_Ok in Hops as (y & _ & (ys & _ & [= <-])%bind_Ok). done.
Qed.
Lemma execute_handled clock tags request w :
  handled (execute_workspace actor_metadata security now clock tags request) ReplyExecuted w
    (execute_gate actor_metadata security clock tags request (wd_service w)) [].
Proof.
  unfold execute_workspace, execute_gate.
  eapply handled_bind; [apply gated_authenticated|].
  intros [audit inputs] ? l1 w1 (<- & Hm1 & _ & Hp & Hi) Hs1 [E1 _ _ _]. cbn [fst snd] in *.
  eapply handled_bind; [by apply gated_parsed|]. intros message ? l2 w2 (<- & ->) Hs2 [E2 _ _ _].
  eapply handled_pass; [by apply gated_lock|]. intros s l2' w2' (-> & ->) Hs2' _. rewrite E2, E1.
  eapply (handled_bind security _ _ _ _ _ _ (λ _ _ l, l = [])).
  { destruct (decide (profile security = Secured)); [by apply gated_guard|by apply gated_ret]. }
  intros [] [] lg wg -> Hsg _.
  eapply handled_bind; [by apply gated_named|]. intros audit0 [] l2'' w2'' (-> & ->) Hs2'' _.
  eapply handled_bind; [by apply gated_authorized|].
  intros audit' [] l3 w3 ((ops & ->) & Hal) Hs3 _.
  eapply handled_bind; [by apply gated_known|]. intros [] ? l3' w3' -> Hs3' _.
  eapply handled_bind; [by apply gated_guard|]. intros [] [] l3'' w3'' -> Hs3'' _.
  eapply handled_pass; [by apply gated_admission|]. intros [] l4 w4 Hl4 Hs4 _.
  eapply (handled_end security now _ _ _ (service_execute clock tags message)
    (λ response, message ← or_status proto_status (of_grm (runtime_response_to_proto response));
                 succeeded now _ _ _ message)); [done|done| |done|].
  - rewrite !app_nil_r, <-app_assoc. cbn [app]. by eapply admission_made.
  - intros response. cbv beta. destruct (runtime_response_to_proto response) as [m|e] eqn:Hm; [right|left].
    + eexists m, _. split; [done|]. cbn [ad_durability]. by rewrite (response_sent _ _ Hm).
    + exists (proto_status e). by split.
Qed.
End serving.

Section promises.
Context `{SerdeNumber} `{Formats} `{!SnapshotCodec} `{!SessionCodec} `{!IoText}.
Context {Sink : Type} `{!SecurityAuditSink Sink} {Metadata : Type}.
Variable actor_metadata : Metadata → option (option string).
Variable security : ServiceSecurityConfig Metadata.
Variable now : nat → Z.
Abbreviation rpc := (rpc Sink).
Abbreviation handled := (handled security).
Abbreviation serving := (serve actor_metadata security now).
Abbreviation gating := (gate actor_metadata security).
Implicit Types (w : World Sink) (ad : Admission) (l : list SecurityAuditEvent).
Implicit Types (call : WorkspaceCall Metadata).

Lemma handled_reply {A} (m : rpc A) (reply : A → Reply) w g l0 :
  handled m reply w g l0 → handled (x ← m; mret (M:=rpc) (reply x)) id w g l0.
Proof.
  intros [(l & w' & st & Hq & Hm & Hg)|(ad & l & r & w' & rest & Hg & Had & Hm & Ht & Hout)].
  - left. exists l, w', st. unfold mbind, rpc_bind. by rewrite Hm.
  - right. exists ad, l.
    exists (match r with Some (inr x) => Some (inr (reply x)) | Some (inl st) => Some (inl st) | None => None end).
    exists w', rest. split; [done|]. split; [done|].
    split; [unfold mbind, rpc_bind; rewrite Hm; by destruct r as [[]|]|]. split; [done|].
    destruct (ad_call ad _ _ _) as [[[[[st|y] s]|e|] fl] fs].
    + destruct Hout as (? & ? & ? & ->). done.
    + destruct Hout as (? & ? & ? & x & -> & -> & Hc). split_and!; try done. by exists (reply x).
    + by destruct Hout as (-> & ? & ? & ?).
    + by destruct Hout as (-> & ? & ? & ?).
Qed.
Lemma served call w : handled (serving call) id w (gating call (wd_service w)) [].
Proof.
  destruct call; cbn [serve gate]; apply handled_reply.
  - apply create_handled.
  - apply open_handled.
  - apply execute_handled.
  - apply close_handled.
Qed.

(** *** What the gate lets through *)

Lemma permitted_inr inputs workspace operations u :
  permitted security inputs workspace operations = inr u →
  (∃ ops, audit_operations operations = inr ops) ∧
  ∃ reason, ap_evaluate (policy security) (context_of security inputs workspace operations)
              = Some (Allow reason).
Proof.
  unfold permitted, authorize. destruct (audit_operations operations) as [e|ops]; [done|]. intros Hp.
  split; [by exists ops|]. cbn in Hp. destruct (ap_evaluate _ _) as [[reason|reason]|]; try done. by exists reason.
Qed.
Lemma identify_inr {A} (request : Request Metadata A) inputs :
  identify actor_metadata security request = inr inputs →
  request_security_inputs actor_metadata security request = inr inputs.
Proof.
  unfold identify. destruct (request_security_inputs _ _ _) as [e|i]; [done|]. cbn.
  destruct (audit_principal _), (audit_actor _); try done. by intros [= ->].
Qed.
Lemma inputs_principal {A} (request : Request Metadata A) inputs :
  profile security = Secured →
  request_security_inputs actor_metadata security request = inr inputs →
  ∃ principal, inputs.1.2 = Some principal ∧
    authenticator security (transport_peer_from_request request) (rq_metadata request) = inr (Some principal).
Proof.
  intros Hsec. unfold request_security_inputs. destruct (negb _); [done|].
  destruct (actor_assertion _ _) as [e|actor]; [done|].
  destruct (authenticator security _ _) as [e|[p|]]; [done| |by rewrite decide_True].
  intros [= <-]. by exists p.
Qed.
Lemma gate_inr call s ad :
  gating call s = inr ad →
  (∃ reason, ap_evaluate (policy security) (context_of security (ad_inputs ad) (ad_workspace ad) (ad_operations ad))
               = Some (Allow reason)) ∧
  (∃ ops, audit_operations (ad_operations ad) = inr ops) ∧
  (profile security = Secured → ∃ principal, (ad_inputs ad).1.2 = Some principal).
Proof.
  intros Hg. assert (∃ A (request : Request Metadata A) u,
    identify actor_metadata security request = inr (ad_inputs ad) ∧
    permitted security (ad_inputs ad) (ad_workspace ad) (ad_operations ad) = inr u)
    as (A & request & u & Hi & Hp).
  { destruct call; cbn [gate] in Hg;
      unfold create_gate, open_gate, execute_gate, close_gate in Hg; inv_inr;
      unfold mret, res_ret in Hg; injection Hg as <-; do 3 eexists; cbn [ad_inputs ad_workspace ad_operations]; split; eassumption. }
  destruct (permitted_inr _ _ _ _ Hp) as [Hops Hreason]. split_and!; [done..|].
  intros Hsec. destruct (inputs_principal request _ Hsec (identify_inr _ _ Hi)) as (p & Hpr & _). by exists p.
Qed.

Lemma execute_gate_inr clock tags request s ad :
  gating (CallExecute clock tags request) s = inr ad →
  ∃ message inputs audited, runtime_request_from_proto (rq_message request) = Ok message ∧
    request_security_inputs actor_metadata security request = inr inputs ∧
    let name := workspace_log_name (wrq_handle message) s in
    let operations := security_operations (wrq_request message) name in
    audit_operations operations = inr audited ∧
    ∃ reason, ap_evaluate (policy security) (context_of security inputs name operations) = Some (Allow reason).
Proof.
  cbn [gate]. unfold execute_gate. intros (inputs & Hi & Hg)%res_bind_inr.
  apply res_bind_inr in Hg as (message & Hmsg & Hg). cbv zeta in Hg.
  apply res_bind_inr in Hg as (_ & _ & Hg). apply res_bind_inr in Hg as (_ & _ & Hg).
  apply res_bind_inr in Hg as (u & Hp & _). destruct (permitted_inr _ _ _ _ Hp) as [[audited Ha] Hr].
  exists message, inputs, audited. split_and!; [|by apply identify_inr|done..].
  destruct (runtime_request_from_proto _); [|done]. by injection Hmsg as ->.
Qed.

Lemma start_sink (a : AuditState Sink) r a' :
  start_audit_request security a = (r, a') → sink a' = (sk_allocate_request_id (sink a)).2.
Proof.
  unfold start_audit_request, mbind, act_bind, asked.
  destruct (sk_allocate_request_id (sink a)) as [[e|id] k].
  - destruct (audit_mode security); by intros [= <- <-].
  - destruct (id =? 0); by intros [= <- <-].
Qed.
Lemma rpc_fail {A B} (m : rpc A) (f : A → rpc B) st w w' :
  m w = (Some (inl st), w') → (m ≫= f) w = (Some (inl st), w').
Proof. unfold mbind, rpc_bind. by intros ->. Qed.
Lemma authenticated_degraded {A} (request : Request Metadata A) w :
  profile security = Secured → audit_degraded (wd_audit w) = true →
  (sk_try_recover (sk_allocate_request_id (sink (wd_audit w))).2).1 ≠ inr SinkHealthy →
  ∃ w', authenticated actor_metadata security now request w
      = (Some (inl (security_status AuditSinkUnavailable)), w') ∧
    quiet w [] w' ∧ audit_degraded (wd_audit w') = true.
Proof.
  intros Hsec Hdeg Hrec. unfold authenticated.
  destruct (start_audit_request security (wd_audit w)) as [r a] eqn:Hstart.
  assert (enforce (start_audit_request security) w = or_status security_status r (set_audit a w)) as Hw
    by (unfold enforce, audited, mbind, rpc_bind; by rewrite Hstart).
  pose proof (start_sink _ _ _ Hstart) as Hsink.
  apply start_cases in Hstart as (Ht & Hd & [(audit & -> & _ & _)|[_ ->]]).
  2: { exists (set_audit a w). split; [by eapply rpc_fail|]. split; [by apply unchanged_trace|]. cbn. congruence. }
  assert (ensure_mandatory_audit_available security a
          = (inl AuditSinkUnavailable, set_sink (sk_try_recover (sink a)).2 a)) as Hens.
  { unfold ensure_mandatory_audit_available, asked. rewrite bool_decide_eq_true_2 by done.
    rewrite Hd, Hdeg. cbn [negb]. rewrite <-Hsink in Hrec.
    by destruct (sk_try_recover (sink a)) as [[e|[]] k]. }
  exists (set_audit (set_sink (sk_try_recover (sink a)).2 a) w). split; [|split].
  - etrans; [apply (rpc_step _ _ _ _ _ Hw)|]. apply rpc_fail.
    unfold enforce, audited, mbind, rpc_bind. cbn [wd_audit set_audit]. by rewrite Hens.
  - by apply unchanged_trace.
  - cbn. congruence.
Qed.

(** *** The promises *)

(** C22: the audit adds nothing to what a call does but refusals: a call answers the
    status of the first check it fails, and changes nothing; or passes every check
    and answers exactly what the call of the service answers, with the files and
    the service it leaves; unless the profile is the secured one and the audit sink
    takes no more, when the call is refused before it changes anything. *)
Theorem audit_only_refuses call w :
  let '(r, w') := serve actor_metadata security now call w in
  (∃ st, r = Some (inl st) ∧ wd_service w' = wd_service w ∧ wd_faults w' = wd_faults w ∧
     wd_files w' = wd_files w ∧
     (gate actor_metadata security call (wd_service w) = inl st ∨
      profile security = Secured ∧ refusal st)) ∨
  (∃ ad, gate actor_metadata security call (wd_service w) = inr ad ∧
     match ad_call ad (wd_service w) (wd_faults w) (wd_files w) with
     | (Done (answer, s), fl, fs) =>
         r = Some answer ∧ wd_service w' = s ∧ wd_faults w' = fl ∧ wd_files w' = fs
     | (_, fl, fs) =>
         r = None ∧ wd_service w' = wd_service w ∧ wd_faults w' = fl ∧ wd_files w' = fs
     end).
Proof.
  destruct (served call w) as [(l & w' & st & [Es Efl Efs _] & -> & Hg)|(ad & l & r & w' & rest & Hg & _ & -> & _ & Hout)].
  - left. by exists st.
  - right. exists ad. split; [done|].
    destruct (ad_call ad _ _ _) as [[[[[st|y] s]|e|] fl] fs]; [|destruct Hout as (? & ? & ? & x & -> & -> & _)|..];
      by intuition.
Qed.

(** C23: in the secured profile a call reaches the service only after the sink has
    accepted four events of it - the attempt, the authentication, the
    authorisation and the admission, the last three allowing it - for an
    authenticated principal whose operations the policy allows and the events
    list; any other call changes nothing and answers an error. *)
Theorem secured_calls_are_audited call w r w' :
  profile security = Secured → serve actor_metadata security now call w = (r, w') →
  (∃ l st, r = Some (inl st) ∧ wd_service w' = wd_service w ∧ wd_faults w' = wd_faults w ∧
     wd_files w' = wd_files w ∧
     trace (wd_audit w') = (trace (wd_audit w) ++ (Audited <$> l))%list) ∨
  (∃ ad principal reason l rest, gate actor_metadata security call (wd_service w) = inr ad ∧
     (ad_inputs ad).1.2 = Some principal ∧
     ap_evaluate (policy security) (context_of security (ad_inputs ad) (ad_workspace ad) (ad_operations ad))
       = Some (Allow reason) ∧
     admission ad l ∧
     trace (wd_audit w') = (trace (wd_audit w) ++ (Audited <$> l) ++ [Called] ++ rest)%list).
Proof.
  intros Hsec Hrun.
  destruct (served call w) as [(l & w2 & st & [Es Efl Efs Et] & Hm & _)|(ad & l & r2 & w2 & rest & Hg & Had & Hm & Ht & _)];
    rewrite Hrun in Hm; injection Hm as -> ->.
  - left. by exists l, st.
  - right. destruct (gate_inr _ _ _ Hg) as ((reason & Hr) & _ & Hp). destruct (Hp Hsec) as [p Hpr].
    exists ad, p, reason, l, rest. split_and!; try done. by apply Had.
Qed.

(** under a table of permissions in the secured profile, whatever a request does
    to a workspace, the files or its client's answer, it was sent by a client that
    authenticated as a principal, and the table grants that principal every
    operation the request needs, those of each part of a batch among them. *)
Theorem executed_request_is_granted config table clock tags request w r w' :
  profile security = Secured → policy security = PermissionTable table → policy_new config = inr table →
  serve actor_metadata security now (CallExecute clock tags request) w = (r, w') →
  wd_service w' ≠ wd_service w ∨ wd_files w' ≠ wd_files w ∨ (∃ reply, r = Some (inr reply)) →
  ∃ message principal, runtime_request_from_proto (rq_message request) = Ok message ∧
    authenticator security (transport_peer_from_request request) (rq_metadata request)
      = inr (Some principal) ∧
    ∀ op, op ∈ required_operations (wrq_request message)
                 (workspace_log_name (wrq_handle message) (wd_service w)) →
      granted (ptc_assignments config) principal op.
Proof.
  intros Hsec Hpol Hnew Hrun Hdid.
  destruct (served (CallExecute clock tags request) w)
    as [(l & w2 & st & [Es _ Ef _] & Hm & _)|(ad & l & r2 & w2 & rest & Hg & _ & Hm & _ & _)];
    rewrite Hrun in Hm; injection Hm as -> ->.
  { exfalso. destruct Hdid as [Hd|[Hd|[? [=]]]]; by apply Hd. }
  destruct (execute_gate_inr _ _ _ _ _ Hg) as (message & inputs & audited & Hmsg & Hi & Ha & reason & Hev).
  destruct (inputs_principal request inputs Hsec Hi) as (principal & Hpr & Hauth).
  exists message, principal. split_and!; [done..|]. intros op Hop. rewrite Hpol in Hev.
  injection Hev as Hev.
  assert (table_evaluate table (context_of security inputs
    (workspace_log_name (wrq_handle message) (wd_service w))
    (security_operations (wrq_request message) (workspace_log_name (wrq_handle message) (wd_service w))))
    = Allow ExplicitPolicyAllow) as Hallow.
  { match type of Hev with table_evaluate _ ?c = _ => destruct (table_two_answers table c) as [Ht|Ht] end;
      [exact Ht|congruence]. }
  apply (table_allows config table _ Hnew) in Hallow as (principal' & Hp' & Hall).
  cbn [ctx_authenticated_principal context_of] in Hp'. rewrite Hpr in Hp'. injection Hp' as <-.
  apply Hall. cbn [ctx_operations context_of]. by eapply audited_complete.
Qed.

(** in the secured profile a call that answers has its runtime outcome, the
    durability of what it did and the delivery of its response recorded, after
    the four events of its admission; or the service is left degraded. *)
Theorem outcome_is_recorded call w reply w' :
  profile security = Secured →
  serve actor_metadata security now call w = (Some (inr reply), w') →
  audit_degraded (wd_audit w') = true ∨
  ∃ ad l rest, gate actor_metadata security call (wd_service w) = inr ad ∧
    admission ad l ∧ completion ad reply rest ∧
    trace (wd_audit w') = (trace (wd_audit w) ++ (Audited <$> l) ++ [Called] ++ rest)%list.
Proof.
  intros Hsec Hrun.
  destruct (served call w) as [(l & w2 & st & _ & Hm & _)|(ad & l & r2 & w2 & rest & Hg & Had & Hm & Ht & Hout)];
    rewrite Hrun in Hm; [done|]. injection Hm as <- <-.
  destruct (ad_call ad _ _ _) as [[[[[st|y] s]|e|] fl] fs]; [by destruct Hout as (_ & _ & _ & [=])| |by destruct Hout as [[=] _]..].
  destruct Hout as (_ & _ & _ & x & [= <-] & -> & Hc). destruct (Hc Hsec) as [Hd|Hc']; [by left|right].
  exists ad, l, rest. split_and!; try done. by apply Had.
Qed.

(** C24: a secured service whose audit is degraded serves no call of a workspace
    until its sink says it has recovered: each is refused as unavailable, changes
    nothing, and leaves it degraded. *)
Theorem degraded_service_refuses call w :
  profile security = Secured → audit_degraded (wd_audit w) = true →
  (sk_try_recover (sk_allocate_request_id (sink (wd_audit w))).2).1 ≠ inr SinkHealthy →
  ∃ w', serve actor_metadata security now call w = (Some (inl (security_status AuditSinkUnavailable)), w') ∧
    quiet w [] w' ∧ audit_degraded (wd_audit w') = true.
Proof.
  intros Hsec Hdeg Hrec. destruct call as [? ? ? request|? ? request|? ? request|request];
    destruct (authenticated_degraded request w Hsec Hdeg Hrec) as (w' & Hrun & Hq);
    exists w'; (split; [|exact Hq]); cbn [serve]; apply rpc_fail; by apply rpc_fail.
Qed.
End promises.

(** ** At a concrete service *)

Section handler_witnesses.
Existing Instances serde_default w_formats digits_codec digits_codec_laws digits_session_codec
  digits_session_laws.

#[local] Instance h_service_text : IoText := {|
  path_display p := Text.join "/" (p_comps p);
  io_error_text e := "error";
|}.
#[local] Instance h_layout : EventLayout := {| size_of_event := 400 |}.

Definition h_table : PermissionTableConfig :=
  {| ptc_version := "v1";
     ptc_assignments :=
       [{| pa_principal := w_principal; pa_scope := ScopeWorkspace "workspace-61";
           pa_permissions := [{| perm_action := SchemaDefine; perm_resource := SelAnyNodeModel |}] |}] |}.
Definition h_policy : PermissionTablePolicy :=
  match policy_new h_table with
  | inr policy => policy
  | inl _ => {| ptp_version := ""; ptp_assignments := ∅ |}
  end.
Lemma h_policy_new : policy_new h_table = inr h_policy.
Proof. vm_compute. reflexivity. Qed.
(** Every client is alice. *)
Definition h_security : ServiceSecurityConfig unit :=
  with_policy (PermissionTable h_policy) (with_authenticator (λ _ _, inr (Some w_principal)) secured).
Definition h_actor (_ : unit) : option (option string) := None.
Definition h_now (n : nat) : Z := Z.of_nat n * 10 ^ 9.

Definition h_world (degraded : bool) : World BoundedSecurityAuditSink :=
  {| wd_audit := set_degraded degraded (audit_new (default_limits,
       {| bs_events := []; bs_retained_bytes := 0; bs_degraded := degraded; bs_next_request_id := 1;
          bs_next_event_id := 1; bs_next_sequence := 1 |}));
     wd_service := (create_in_memory (Some "a") service_new).2; wd_faults := []; wd_files := ∅ |}.
Definition h_define : WorkspaceCall unit :=
  CallExecute (λ _, 0) w_tags
    {| rq_peer_certs := None; rq_remote_addr := Some "192.0.2.7:40000"; rq_metadata := tt;
       rq_message := {| pwq_handle := Some {| pwh_id := "workspace-61" |};
         pwq_request := Some {| prq_request := Some (PrDefineNode
           {| pdn_name := "Person"; pdn_id_field := "person_id"; pdn_fields := [] |}) |} |} |}.

Definition h_defined : bool :=
  match (serve h_actor h_security h_now h_define (h_world false)).1 with
  | Some (inr _) => true
  | _ => false
  end.
Definition h_recorded : bool :=
  negb (audit_degraded (wd_audit (serve h_actor h_security h_now h_define (h_world false)).2)).

Lemma secured_calls_are_audited_witness :
  ∃ r w', serve h_actor h_security h_now h_define (h_world false) = (r, w') ∧
    ∃ ad principal l rest, (ad_inputs ad).1.2 = Some principal ∧ admission ad l ∧
      trace (wd_audit w') = ((Audited <$> l) ++ [Called] ++ rest)%list.
Proof.
  assert (h_defined = true) as Hd by (vm_compute; reflexivity). unfold h_defined in Hd.
  destruct (serve h_actor h_security h_now h_define (h_world false)) as [r w'] eqn:Hrun.
  exists r, w'. split; [reflexivity|].
  destruct (secured_calls_are_audited h_actor h_security h_now h_define (h_world false) r w' eq_refl Hrun)
    as [(l & st & -> & _)|(ad & p & reason & l & rest & _ & Hp & _ & Had & Ht)]; [discriminate Hd|].
  exists ad, p, l, rest. split; [exact Hp|]. split; [exact Had|exact Ht].
Defined.

Lemma executed_request_is_granted_witness :
  ∃ r w' message principal, serve h_actor h_security h_now h_define (h_world false) = (r, w') ∧
    (∀ op, op ∈ required_operations (wrq_request message)
                  (workspace_log_name (wrq_handle message) (wd_service (h_world false))) →
       granted (ptc_assignments h_table) principal op).
Proof.
  assert (h_defined = true) as Hd by (vm_compute; reflexivity). unfold h_defined in Hd.
  destruct (serve h_actor h_security h_now h_define (h_world false)) as [r w'] eqn:Hrun.
  destruct r as [[st|reply]|]; try discriminate Hd.
  destruct (executed_request_is_granted h_actor h_security h_now h_table h_policy (λ _, 0) w_tags _
    (h_world false) _ w' eq_refl eq_refl h_policy_new Hrun (or_intror (or_intror (ex_intro _ reply eq_refl))))
    as (message & principal & _ & _ & Hg).
  exists (Some (inr reply)), w', message, principal. split; [reflexivity|exact Hg].
Defined.

Lemma outcome_is_recorded_witness :
  ∃ reply w' ad rest, serve h_actor h_security h_now h_define (h_world false) = (Some (inr reply), w') ∧
    completion ad reply rest.
Proof.
  assert (h_defined = true) as Hd by (vm_compute; reflexivity). unfold h_defined in Hd.
  assert (h_recorded = true) as Hr by (vm_compute; reflexivity). unfold h_recorded in Hr.
  destruct (serve h_actor h_security h_now h_define (h_world false)) as [r w'] eqn:Hrun.
  destruct r as [[st|reply]|]; try discriminate Hd.
  destruct (outcome_is_recorded h_actor h_security h_now h_define (h_world false) reply w' eq_refl Hrun)
    as [Hdeg|(ad & l & rest & _ & _ & Hc & _)].
  - cbn [snd] in Hr. rewrite Hdeg in Hr. discriminate Hr.
  - exists reply, w', ad, rest. split; [reflexivity|exact Hc].
Defined.

Lemma degraded_service_refuses_witness :
  ∃ w', serve h_actor h_security h_now h_define (h_world true)
      = (Some (inl (security_status AuditSinkUnavailable)), w') ∧
    wd_service w' = wd_service (h_world true).
Proof.
  destruct (degraded_service_refuses h_actor h_security h_now h_define (h_world true) eq_refl eq_refl)
    as (w' & Hrun & Hq & _); [vm_compute; discriminate|].
  exists w'. split; [exact Hrun|exact (qt_service _ _ _ Hq)].
Defined.
End handler_witnesses.

Section recorded_durability.
Existing Instances serde_default w_formats digits_codec digits_codec_laws digits_session_codec
  digits_session_laws h_service_text h_layout.

(** A named workspace of a local service, and a call whose append is not
    synchronised. *)
Definition h_local : ServiceSecurityConfig unit := docker_local_insecure.
Definition h_create : WorkspaceCall unit :=
  CallCreate 1 w_tags (Some "a")
    {| rq_peer_certs := None; rq_remote_addr := None; rq_metadata := tt;
       rq_message := {| pwc_mode := 1; pwc_workspace := Some {| pwr_id := "team" |}; pwc_format := 0 |} |}.
Definition h_served (call : WorkspaceCall unit) (w : World BoundedSecurityAuditSink) :=
  serve h_actor h_local h_now call w.
Definition with_faults (fl : list fault) (w : World BoundedSecurityAuditSink)
    : World BoundedSecurityAuditSink :=
  {| wd_audit := wd_audit w; wd_service := wd_service w; wd_faults := fl; wd_files := wd_files w |}.
Definition h_team : World BoundedSecurityAuditSink :=
  (h_served h_create
     {| wd_audit := wd_audit (h_world false); wd_service := with_local_workspace_root Service.w_root;
        wd_faults := []; wd_files := ∅ |}).2.
Definition h_unsynced : World BoundedSecurityAuditSink := 
  with_faults [CallOk; CallOk; CallOk; CallOk; CallFails 0] h_team.

Definition refused_reply (r : option (Status + Reply)) : bool :=
  match r with Some (inl _) => true | _ => false end.
Definition records (p : SecurityAuditEvent → bool) (w : World BoundedSecurityAuditSink) : bool :=
  existsb (λ a, match a with Audited e => p e | _ => false end) (trace (wd_audit w)).
Definition not_committed (e : SecurityAuditEvent) : bool :=
  match ev_stage e, ev_durability_outcome e with StRuntime, DoNotCommitted => true | _, _ => false end.
Definition committed (e : SecurityAuditEvent) : bool :=
  match ev_stage e, ev_durability_outcome e with StDurability, DoCommitted => true | _, _ => false end.
(** Whether the file of a workspace holds a model. *)
Definition holds_model (name : string) (p : Path) (fs : FileSys) : bool :=
  match Workspace.open DurJson p [] fs with
  | (Done (Ok w), _, _) => bool_decide (is_Some (node_models (ss_catalog (ws_state w)) !! name))
  | _ => false
  end.
Definition unsynced_ok (x : option (Status + Reply) * World BoundedSecurityAuditSink) : bool :=
  refused_reply x.1 && records not_committed x.2
  && holds_model "Person" (workspace_file Service.w_root Service.w_ref DurJson) (wd_files x.2).
Definition memory_ok (x : option (Status + Reply) * World BoundedSecurityAuditSink) : bool :=
  match x.1 with Some (inr _) => true | _ => false end && records committed x.2
  && bool_decide (wd_files x.2 = ∅).
Lemma unsynced_checked : unsynced_ok (h_served h_define h_unsynced) = true.
Proof. vm_compute. reflexivity. Qed.
Lemma memory_checked : memory_ok (serve h_actor h_security h_now h_define (h_world false)) = true.
Proof. vm_compute. reflexivity. Qed.

End recorded_durability.
