(* ===== verification/AuditStore.v ===== *)
(** * The durable audit store ([src/grm-service-api/src/audit_store.rs])

    The sink of a service that keeps its audit events in files: a metadata file
    with the identifiers it has reserved and accepted, replaced through a
    temporary file, and a log of one record a line, appended to and, when events
    have expired, replaced by the events it keeps.  The store's lock is held for
    the whole of an operation, so an operation is a function of the state; the
    operations of one handle come one after the other, in any order. *)

From S2P Require Export Files Durable AuditSink.

Local Open Scope Z_scope.

(** ** Fallible calls with failure injection *)

Inductive AuditStoreFailurePoint :=
  | ServiceRootSync | InitialMetadataWrite | InitialMetadataSync | MetadataTempWrite
  | MetadataTempSync | MetadataRename | MetadataDirectorySync | AuditLogWrite | AuditLogSync
  | FirstAuditDirectorySync | CompactionWrite | CompactionSync | CompactionRename
  | CompactionDirectorySync | RecoveryDirectorySync | RecoveryLogSync.
#[export] Instance AuditStoreFailurePoint_eq_dec : EqDecision AuditStoreFailurePoint.
Proof. solve_decision. Defined.

Record AuditStoreIoStats := {
  metadata_replacements : Z;
  metadata_file_syncs : Z;
  metadata_directory_syncs : Z;
  audit_log_writes : Z;
  audit_log_syncs : Z;
  compactions : Z;
}.
Record AuditStoreInstrumentation := {
  fail_next : option AuditStoreFailurePoint;
  io_stats : AuditStoreIoStats;
}.
Definition no_stats : AuditStoreIoStats :=
  {| metadata_replacements := 0; metadata_file_syncs := 0; metadata_directory_syncs := 0;
     audit_log_writes := 0; audit_log_syncs := 0; compactions := 0 |}.
Definition instrumentation_default : AuditStoreInstrumentation :=
  {| fail_next := None; io_stats := no_stats |}.

Definition metadata_file_synced (s : AuditStoreIoStats) : AuditStoreIoStats :=
  {| metadata_replacements := metadata_replacements s;
     metadata_file_syncs := metadata_file_syncs s + 1;
     metadata_directory_syncs := metadata_directory_syncs s;
     audit_log_writes := audit_log_writes s; audit_log_syncs := audit_log_syncs s;
     compactions := compactions s |}.
Definition metadata_replaced (s : AuditStoreIoStats) : AuditStoreIoStats :=
  {| metadata_replacements := metadata_replacements s + 1;
     metadata_file_syncs := metadata_file_syncs s;
     metadata_directory_syncs := metadata_directory_syncs s + 1;
     audit_log_writes := audit_log_writes s; audit_log_syncs := audit_log_syncs s;
     compactions := compactions s |}.
Definition log_written (s : AuditStoreIoStats) : AuditStoreIoStats :=
  {| metadata_replacements := metadata_replacements s;
     metadata_file_syncs := metadata_file_syncs s;
     metadata_directory_syncs := metadata_directory_syncs s;
     audit_log_writes := audit_log_writes s + 1; audit_log_syncs := audit_log_syncs s;
     compactions := compactions s |}.
Definition log_synced (s : AuditStoreIoStats) : AuditStoreIoStats :=
  {| metadata_replacements := metadata_replacements s;
     metadata_file_syncs := metadata_file_syncs s;
     metadata_directory_syncs := metadata_directory_syncs s;
     audit_log_writes := audit_log_writes s; audit_log_syncs := audit_log_syncs s + 1;
     compactions := compactions s |}.
Definition log_compacted (s : AuditStoreIoStats) : AuditStoreIoStats :=
  {| metadata_replacements := metadata_replacements s;
     metadata_file_syncs := metadata_file_syncs s;
     metadata_directory_syncs := metadata_directory_syncs s;
     audit_log_writes := audit_log_writes s; audit_log_syncs := audit_log_syncs s;
     compactions := compactions s + 1 |}.

(** A computation that makes system calls and meets injected failures; [None]
    is a process that is gone. *)
Definition sio (A : Type) : Type :=
  AuditStoreInstrumentation → list fault → FileSys →
  option A * (AuditStoreInstrumentation * list fault * FileSys).
#[export] Instance sio_ret : MRet sio := λ A a i fl fs, (Some a, (i, fl, fs)).
#[export] Instance sio_bind : MBind sio := λ A B f m i fl fs,
  match m i fl fs with
  | (Some a, (i, fl, fs)) => f a i fl fs
  | (None, w) => (None, w)
  end.

(** One that can end in an error, with [?]. *)
Definition sres (E A : Type) : Type := sio (res E A).
#[export] Instance sres_ret {E} : MRet (sres E) := λ A a, mret (M:=sio) (inr a).
#[export] Instance sres_bind {E} : MBind (sres E) := λ A B f m,
  mbind (M:=sio) (λ r, match r with inr a => f a | inl e => mret (M:=sio) (inl e) end) m.
Definition raise {E A} (e : E) : sres E A := mret (M:=sio) (inl e).
Definition map_err {E E' A} (f : E → E') (m : sres E A) : sres E' A :=
  mbind (M:=sio) (λ r, mret (M:=sio) match r with inr a => inr a | inl e => inl (f e) end) m.
(** A [match] on a result. *)
Definition on_result {E A B} (m : sres E A) (f : res E A → sio B) : sio B := mbind (M:=sio) f m.

Definition call {A} (m : io A) : sres io_error A := λ i fl fs,
  match m fl fs with
  | (Done a, fl, fs) => (Some (inr a), (i, fl, fs))
  | (Failed e, fl, fs) => (Some (inl e), (i, fl, fs))
  | (Crashed, fl, fs) => (None, (i, fl, fs))
  end.
(** [instrumentation.check(point)] *)
Definition check_point (point : AuditStoreFailurePoint) : sres io_error unit := λ i fl fs,
  if decide (fail_next i = Some point)
  then (Some (inl OtherError), ({| fail_next := None; io_stats := io_stats i |}, fl, fs))
  else (Some (inr tt), (i, fl, fs)).
(** [instrumentation.update(...)] *)
Definition note (f : AuditStoreIoStats → AuditStoreIoStats) : sres io_error unit := λ i fl fs,
  (Some (inr tt), ({| fail_next := fail_next i; io_stats := f (io_stats i) |}, fl, fs)).
(** A loop that is out of fuel gives no answer. *)
Definition answered {A} (o : option A) : sio A := λ i fl fs, (o, (i, fl, fs)).
Definition answered_res {E A} (o : option (res E A)) : sres E A := answered o.

(** [create(true).truncate(true).write(true).open] *)
Definition open_truncate (p : Path) : io unit :=
  io_call (λ fs, inl (tt, <[file_key p := ""%string]> fs)) (λ _ fs, fs).
(** [File::open] *)
Definition fs_open (p : Path) : io unit :=
  io_call (λ fs, match fs !! file_key p with
                 | Some _ => inl (tt, fs)
                 | None => inr NotFoundError
                 end) (λ _ fs, fs).
(** [fs::create_dir_all] and [fs::set_permissions]: no file changes. *)
Definition fs_create_dir_all : io unit := io_call (λ fs, inl (tt, fs)) (λ _ fs, fs).
Definition fs_set_permissions : io unit := io_call (λ fs, inl (tt, fs)) (λ _ fs, fs).
(** [Path::canonicalize] of a directory *)
Definition fs_canonicalize (p : Path) : io FileKey :=
  io_call (λ fs, inl (file_key p, fs)) (λ _ fs, fs).
Definition sync_dir : sres io_error unit := call sync_parent_dir.

(** ** The store *)

Definition METADATA_VERSION : Z := 1.
Definition RECORD_VERSION : Z := 1.
Definition AUDIT_DIR : string := "audit".
Definition METADATA_FILE : string := "store-metadata".
Definition LOG_FILE : string := "security-audit.log".
Definition COMPACTION_FILE : string := "security-audit.log.compacting".
Definition COUNTER_RESERVATION_RANGE : Z := 64.
Definition usize_max : Z := 2 ^ 64 - 1.

Inductive SecurityAuditStoreOpenState := StoreInitialized | StoreReopened.
Inductive SecurityAuditStoreOpenError :=
  | StoreUnavailable | MalformedMetadata | UnsupportedMetadataVersion | MalformedRecord
  | UnsupportedRecordVersion | InconsistentStore | CounterExhausted | InvalidRetention
  | AlreadyOpen.
#[export] Instance SecurityAuditStoreOpenError_eq_dec : EqDecision SecurityAuditStoreOpenError.
Proof. solve_decision. Defined.
Record SecurityAuditStoreRecovery := {
  open_state : SecurityAuditStoreOpenState;
  rc_store_generation_id : string;
  retained_records : Z;
  ignored_torn_final_record : bool;
  rc_next_event_id : Z;
  rc_next_request_id : Z;
  rc_next_service_sequence : Z;
  rc_future_dated_records : Z;
}.
Definition open_error_text (e : SecurityAuditStoreOpenError) : string :=
  match e with
  | StoreUnavailable => "audit store unavailable"
  | MalformedMetadata => "audit store metadata is malformed"
  | UnsupportedMetadataVersion => "audit store metadata version is unsupported"
  | MalformedRecord => "audit store contains a malformed complete record"
  | UnsupportedRecordVersion => "audit store record version is unsupported"
  | InconsistentStore => "audit store metadata and records are inconsistent"
  | CounterExhausted => "audit store identifier space is exhausted"
  | InvalidRetention => "audit store retention configuration is invalid"
  | AlreadyOpen => "audit store is already open in this process"
  end.

Record StoreMetadata := {
  version : Z;
  store_generation_id : string;
  reserved_event_id : Z;
  reserved_request_id : Z;
  reserved_service_sequence : Z;
  accepted_event_id : Z;
  accepted_request_id : Z;
  accepted_service_sequence : Z;
}.
Record PersistedAuditRecord := {
  rec_version : Z;
  rec_store_generation_id : string;
  rec_event : SecurityAuditEvent;
}.
Record StoreState := {
  metadata : StoreMetadata;
  events : list SecurityAuditEvent;
  record_bytes : list Z;
  retained_bytes : Z;
  degraded : bool;
  next_event_id : Z;
  next_request_id : Z;
  next_service_sequence : Z;
  future_dated_records : Z;
}.
(** [DurableSecurityAuditStore]; its paths are those of the directory, and its
    ownership is the registry's entry. *)
Record DurableSecurityAuditStore := {
  audit_dir : Path;
  limits : AuditLimits;
  state : StoreState;
  recovery : SecurityAuditStoreRecovery;
}.
Definition metadata_path (dir : Path) : Path := path_join dir METADATA_FILE.
Definition audit_log_path (dir : Path) : Path := path_join dir LOG_FILE.
Definition compaction_path (dir : Path) : Path := path_join dir COMPACTION_FILE.

Definition with_reserved (event request sequence : Z) (m : StoreMetadata) : StoreMetadata :=
  {| version := version m; store_generation_id := store_generation_id m;
     reserved_event_id := event; reserved_request_id := request;
     reserved_service_sequence := sequence; accepted_event_id := accepted_event_id m;
     accepted_request_id := accepted_request_id m;
     accepted_service_sequence := accepted_service_sequence m |}.
Definition with_accepted (event request sequence : Z) (m : StoreMetadata) : StoreMetadata :=
  {| version := version m; store_generation_id := store_generation_id m;
     reserved_event_id := reserved_event_id m; reserved_request_id := reserved_request_id m;
     reserved_service_sequence := reserved_service_sequence m; accepted_event_id := event;
     accepted_request_id := request; accepted_service_sequence := sequence |}.
Definition set_metadata (m : StoreMetadata) (s : StoreState) : StoreState :=
  {| metadata := m; events := events s; record_bytes := record_bytes s;
     retained_bytes := retained_bytes s; degraded := degraded s;
     next_event_id := next_event_id s; next_request_id := next_request_id s;
     next_service_sequence := next_service_sequence s;
     future_dated_records := future_dated_records s |}.
Definition set_kept (es : list SecurityAuditEvent) (bs : list Z) (retained : Z) (s : StoreState)
    : StoreState :=
  {| metadata := metadata s; events := es; record_bytes := bs; retained_bytes := retained;
     degraded := degraded s; next_event_id := next_event_id s;
     next_request_id := next_request_id s; next_service_sequence := next_service_sequence s;
     future_dated_records := future_dated_records s |}.
Definition mark_degraded (b : bool) (s : StoreState) : StoreState :=
  {| metadata := metadata s; events := events s; record_bytes := record_bytes s;
     retained_bytes := retained_bytes s; degraded := b; next_event_id := next_event_id s;
     next_request_id := next_request_id s; next_service_sequence := next_service_sequence s;
     future_dated_records := future_dated_records s |}.
Definition set_next (event request sequence : Z) (s : StoreState) : StoreState :=
  {| metadata := metadata s; events := events s; record_bytes := record_bytes s;
     retained_bytes := retained_bytes s; degraded := degraded s; next_event_id := event;
     next_request_id := request; next_service_sequence := sequence;
     future_dated_records := future_dated_records s |}.

(** [u64::checked_add], [SystemTime::checked_add] *)
Definition checked_add_u64 (a b : Z) : option Z := if (a + b <=? u64_max) then Some (a + b) else None.
Definition checked_add_usize (a b : Z) : option Z :=
  if (a + b <=? usize_max) then Some (a + b) else None.
Definition time_max : Z := i64_max * 10 ^ 9 + 999999999.
Definition checked_add_time (t d : Z) : option Z := if (t + d <=? time_max) then Some (t + d) else None.

(** ** The records *)

(** [serde_json] at the types of the store. *)
Class AuditCodec := {
  json_of_metadata : StoreMetadata → option string;
  metadata_of_json : string → option StoreMetadata;
  json_of_record : PersistedAuditRecord → option string;
  record_of_json : string → option PersistedAuditRecord;
}.

Section store.
Context `{EventLayout} `{AuditCodec}.

Definition bounded (value : string) : bool := (String.length value <=? SECURITY_AUDIT_MAX_FIELD_BYTES)%nat.
Definition bounded_opt (value : option string) : bool :=
  match value with Some value => bounded value | None => true end.

(** [validate_event_common(event).is_ok()] *)
Definition validate_event_common (event : SecurityAuditEvent) : bool :=
  negb (negb (ev_schema_version event =? 1)
  || (SECURITY_AUDIT_MAX_OPERATIONS <? length (ev_operations event))%nat
  || negb (bounded (ev_service_identity event))
  || (ev_timestamp event <? 0)
  || (SECURITY_AUDIT_MAX_EVENT_BYTES <? security_audit_event_size event)
  || negb (bounded_opt (ev_workspace event))
  || negb (bounded_opt (ev_policy_version event))
  || match ev_asserted_actor event with Some actor => negb (bounded (aa_actor_id actor)) | None => false end
  || match ev_authenticated_principal event with
     | Some principal =>
         negb (bounded (ap_issuer principal)) || negb (bounded (ap_subject principal))
         || negb (bounded (ap_authentication_provider principal))
         || negb (bounded (ap_authentication_method principal))
     | None => false
     end
  || existsb (λ operation, negb (bounded (ao_workspace operation))
                           || negb (bounded_opt (ao_model operation))) (ev_operations event)).

Definition validate_event_for_append (now : Z) (event : SecurityAuditEvent) : bool :=
  validate_event_common event &&
  match checked_add_time now (5 * 60 * 10 ^ 9) with
  | None => false
  | Some latest_timestamp => negb (latest_timestamp <? ev_timestamp event)
  end.

(** Whether the event is of the future, when it is one the store may hold. *)
Definition validate_event_for_recovery (now : Z) (event : SecurityAuditEvent) (bytes max_bytes : Z)
    : res SecurityAuditStoreOpenError bool :=
  if negb (validate_event_common event) || (SECURITY_AUDIT_MAX_EVENT_BYTES <? bytes)
     || (max_bytes <? bytes)
  then inl MalformedRecord
  else inr (now <? ev_timestamp event).

(** The conditions and the loop of [prune_retention]. *)
Definition must_prune (l : AuditLimits) (cutoff : option Z) (retained : Z)
    (es : list SecurityAuditEvent) : bool :=
  (max_events l <? Z.of_nat (length es))
  || (max_bytes l <? retained)
  || match cutoff, es with Some cutoff, event :: _ => (ev_timestamp event <? cutoff) | _, _ => false end.

Fixpoint prune_loop (fuel : nat) (l : AuditLimits) (cutoff : option Z)
    (es : list SecurityAuditEvent) (bytes : list Z) (retained : Z)
    : option (list SecurityAuditEvent * list Z * Z) :=
  match fuel with
  | O => None
  | S fuel =>
      if must_prune l cutoff retained es then
        match bytes with
        | b :: bytes => prune_loop fuel l cutoff (tail es) bytes (Z.max 0 (retained - b))
        | [] => prune_loop fuel l cutoff (tail es) [] retained
        end
      else Some (es, bytes, retained)
  end.

Definition prune_retention (l : AuditLimits) (now : Z) (s : StoreState) : option StoreState :=
  '(es, bytes, retained) ← prune_loop (S (length (events s) + length (record_bytes s))) l (checked_sub_time now (max_age l))
                             (events s) (record_bytes s) (retained_bytes s);
  Some (set_kept es bytes retained s).

Definition record_of (generation : string) (event : SecurityAuditEvent) : PersistedAuditRecord :=
  {| rec_version := RECORD_VERSION; rec_store_generation_id := generation; rec_event := event |}.

(** The [while] loop of [read_records]; [None] is out of fuel. *)
Fixpoint read_records_loop (fuel : nat) (generation : string) (bs : string) (start : nat)
    (records : list (SecurityAuditEvent * Z))
    : option (res SecurityAuditStoreOpenError (list (SecurityAuditEvent * Z) * bool)) :=
  match fuel with
  | O => None
  | S fuel =>
      if (start <? String.length bs)%nat then
        match position newline (str_drop start bs) with
        | None => Some (inr (records, true))
        | Some relative_end =>
            let line := String.substring 0 relative_end (str_drop start bs) in
            let start := S (start + relative_end) in
            if (String.length line =? 0)%nat then read_records_loop fuel generation bs start records
            else match record_of_json line with
                 | None => Some (inl MalformedRecord)
                 | Some record =>
                     if negb (rec_version record =? RECORD_VERSION)
                     then Some (inl UnsupportedRecordVersion)
                     else if negb (String.eqb (rec_store_generation_id record) generation)
                     then Some (inl InconsistentStore)
                     else read_records_loop fuel generation bs start
                            (records ++ [(rec_event record, Z.of_nat (String.length line) + 1)])%list
                 end
        end
      else Some (inr (records, false))
  end.

Definition unavailable {A} (m : sres io_error A) : sres SecurityAuditStoreOpenError A :=
  map_err (λ _, StoreUnavailable) m.

(** The reading of a log of a size that is allowed. *)
Definition read_log (path : Path) (m : StoreMetadata)
    : sres SecurityAuditStoreOpenError (list (SecurityAuditEvent * Z) * bool) :=
  bs ← unavailable (call (fs_read path));
  answered_res (read_records_loop (S (String.length bs)) (store_generation_id m) bs 0 []).
Definition read_records (path : Path) (m : StoreMetadata) (max_bytes : Z)
    : sres SecurityAuditStoreOpenError (list (SecurityAuditEvent * Z) * bool) :=
  match checked_add_usize max_bytes SECURITY_AUDIT_MAX_EVENT_BYTES with
  | None => raise StoreUnavailable
  | Some maximum_physical_bytes =>
      on_result (call (fs_metadata_len path)) (λ r,
      match r with
      | inl NotFoundError => mret (M:=sres _) ([], false)
      | inl _ => raise StoreUnavailable
      | inr len =>
          if (maximum_physical_bytes <? Z.of_N len) then raise MalformedRecord
          else read_log path m
      end)
  end.

(** ** The metadata *)

Definition is_hexdigit (c : ascii) : bool := bool_decide (is_Some (hex_nibble c)).
Definition generation_ok (generation : string) : bool :=
  (String.length generation =? 32)%nat && all_chars is_hexdigit generation.

(** [random] are the bytes of [SystemRandom]. *)
Definition random_generation_id (random : option string) : res SecurityAuditStoreOpenError string :=
  match random with
  | None => inl StoreUnavailable
  | Some bytes => inr (fingerprint_as_hex bytes)
  end.

(** Directories are no part of the model: the calls may fail, and change no file. *)
Definition create_private_dir : sres SecurityAuditStoreOpenError unit :=
  _ ← unavailable (call fs_create_dir_all); unavailable (call fs_set_permissions).

Definition json_or_error (json : option string) : sres io_error string :=
  match json with Some bytes => mret (M:=sres _) bytes | None => raise OtherError end.

Definition write_new_metadata (path : Path) (m : StoreMetadata)
    : sres SecurityAuditStoreOpenError unit :=
  bytes ← unavailable (json_or_error (json_of_metadata m));
  _ ← unavailable (call (open_create_new path));
  _ ← unavailable (check_point InitialMetadataWrite);
  _ ← unavailable (call (write_all path bytes));
  _ ← unavailable (call (write_all path newline_text));
  _ ← unavailable (check_point InitialMetadataSync);
  _ ← unavailable (call sync_all);
  unavailable (note metadata_file_synced).

Definition read_metadata (path : Path) : sres SecurityAuditStoreOpenError StoreMetadata :=
  bytes ← unavailable (call (fs_read path));
  match metadata_of_json bytes return sres SecurityAuditStoreOpenError StoreMetadata with
  | Some m => mret (M:=sres _) m
  | None => raise MalformedMetadata
  end.

Definition metadata_temp (dir : Path) : Path := path_join dir "store-metadata.tmp".
Definition replace_metadata (dir : Path) (m : StoreMetadata) : sres io_error unit :=
  let temp := metadata_temp dir in
  bytes ← json_or_error (json_of_metadata m);
  _ ← call (open_truncate temp);
  _ ← check_point MetadataTempWrite;
  _ ← call (write_all temp bytes);
  _ ← call (write_all temp newline_text);
  _ ← check_point MetadataTempSync;
  _ ← call sync_all;
  _ ← note metadata_file_synced;
  _ ← check_point MetadataRename;
  _ ← call (fs_rename temp (metadata_path dir));
  _ ← check_point MetadataDirectorySync;
  _ ← sync_dir;
  note metadata_replaced.

(** ** The log *)

Definition append_and_sync (path : Path) (line : string) : sres io_error unit :=
  _ ← call (open_append path);
  _ ← check_point AuditLogWrite;
  _ ← call (write_all path line);
  _ ← note log_written;
  _ ← check_point AuditLogSync;
  _ ← call sync_all;
  note log_synced.

(** The [for] loop of [compact]. *)
Fixpoint write_records (temp : Path) (generation : string) (es : list SecurityAuditEvent)
    : sres SecurityAuditStoreOpenError unit :=
  match es with
  | [] => mret (M:=sres _) tt
  | event :: es =>
      line ← unavailable (json_or_error (json_of_record (record_of generation event)));
      _ ← unavailable (check_point CompactionWrite);
      _ ← unavailable (call (write_all temp line));
      _ ← unavailable (call (write_all temp newline_text));
      write_records temp generation es
  end.

Definition compact (dir : Path) (m : StoreMetadata) (es : list SecurityAuditEvent)
    : sres SecurityAuditStoreOpenError unit :=
  let temp := compaction_path dir in
  _ ← unavailable (call (open_truncate temp));
  _ ← write_records temp (store_generation_id m) es;
  _ ← unavailable (check_point CompactionSync);
  _ ← unavailable (call sync_all);
  _ ← unavailable (check_point CompactionRename);
  _ ← unavailable (call (fs_rename temp (audit_log_path dir)));
  _ ← unavailable (check_point CompactionDirectorySync);
  _ ← unavailable sync_dir;
  unavailable (note log_compacted).

(** ** Recovery *)

(** What the loops over the records of [open_with_instrumentation] and
    [try_recover] compute. *)
Record Recovered := {
  rv_events : list SecurityAuditEvent;
  rv_bytes : list Z;
  rv_retained : Z;
  rv_event : Z;
  rv_request : Z;
  rv_sequence : Z;
  rv_future : Z;
}.

(** The clock is read once for each record. *)
Fixpoint recover_records (clock : nat → Z) (max_bytes : Z) (records : list (SecurityAuditEvent * Z))
    (previous_event previous_sequence : Z) (rv : Recovered) : res SecurityAuditStoreOpenError Recovered :=
  match records with
  | [] => inr rv
  | (event, bytes) :: records =>
      future ← validate_event_for_recovery (clock (length (rv_events rv))) event bytes max_bytes;
      if (ev_event_id event <=? previous_event) || (ev_service_sequence event <=? previous_sequence)
      then inl InconsistentStore
      else
        match checked_add_usize (rv_retained rv) bytes with
        | None => inl InconsistentStore
        | Some retained =>
            recover_records clock max_bytes records (ev_event_id event) (ev_service_sequence event)
              {| rv_events := rv_events rv ++ [event]; rv_bytes := rv_bytes rv ++ [bytes];
                 rv_retained := retained; rv_event := Z.max (rv_event rv) (ev_event_id event);
                 rv_request := Z.max (rv_request rv) (ev_request_id event);
                 rv_sequence := Z.max (rv_sequence rv) (ev_service_sequence event);
                 rv_future := (if future : bool then Z.min usize_max (rv_future rv + 1)
                               else rv_future rv) |}
        end
  end.

Definition over_reserved (event request sequence : Z) (m : StoreMetadata) : bool :=
  (reserved_event_id m <? event) || (reserved_request_id m <? request)
  || (reserved_service_sequence m <? sequence).

(** The records of a log, checked against its metadata. *)
Definition recovered (clock : nat → Z) (max_bytes : Z) (m : StoreMetadata)
    (records : list (SecurityAuditEvent * Z)) : res SecurityAuditStoreOpenError Recovered :=
  rv ← recover_records clock max_bytes records 0 0
         {| rv_events := []; rv_bytes := []; rv_retained := 0; rv_event := accepted_event_id m;
            rv_request := accepted_request_id m; rv_sequence := accepted_service_sequence m;
            rv_future := 0 |};
  if over_reserved (rv_event rv) (rv_request rv) (rv_sequence rv) m then inl InconsistentStore
  else inr rv.

(** The identifiers after the reserved ones. *)
Definition next_reserved (m : StoreMetadata) : res SecurityAuditStoreOpenError (Z * Z * Z) :=
  match checked_add_u64 (reserved_event_id m) 1, checked_add_u64 (reserved_request_id m) 1,
        checked_add_u64 (reserved_service_sequence m) 1 with
  | Some event, Some request, Some sequence => inr (event, request, sequence)
  | _, _, _ => inl CounterExhausted
  end.

Definition state_of (m : StoreMetadata) (rv : Recovered) (degraded : bool) (next : Z * Z * Z)
    : StoreState :=
  {| metadata := m; events := rv_events rv; record_bytes := rv_bytes rv;
     retained_bytes := rv_retained rv; degraded := degraded; next_event_id := next.1.1;
     next_request_id := next.1.2; next_service_sequence := next.2;
     future_dated_records := rv_future rv |}.

(** Whether the log is not what the state keeps. *)
Definition needs_compaction (torn : bool) (rv : Recovered) (s : StoreState) : bool :=
  torn || negb (length (rv_events rv) =? length (events s))%nat
  || negb (rv_retained rv =? retained_bytes s).

Definition lift_res {E A} (r : res E A) : sres E A := mret (M:=sio) r.
Definition ensure {E} (b : bool) (e : E) : sres E unit :=
  if b then mret (M:=sres E) tt else raise e.

(** ** Opening *)

Definition new_metadata (generation : string) : StoreMetadata :=
  {| version := METADATA_VERSION; store_generation_id := generation; reserved_event_id := 0;
     reserved_request_id := 0; reserved_service_sequence := 0; accepted_event_id := 0;
     accepted_request_id := 0; accepted_service_sequence := 0 |}.

Definition opened_metadata (random : option string) (dir : Path)
    : sres SecurityAuditStoreOpenError (StoreMetadata * SecurityAuditStoreOpenState) :=
  existed ← unavailable (call (fs_exists (metadata_path dir)));
  if existed : bool then
    m ← read_metadata (metadata_path dir); mret (M:=sres _) (m, StoreReopened)
  else
    generation ← lift_res (random_generation_id random);
    let m := new_metadata generation in
    _ ← write_new_metadata (metadata_path dir) m;
    _ ← unavailable (check_point MetadataDirectorySync);
    _ ← unavailable sync_dir;
    mret (M:=sres _) (m, StoreInitialized).

(** A result that is dropped. *)
Definition ignored {E E'} (m : sres E unit) : sres E' unit :=
  on_result m (λ _, mret (M:=sio) (inr tt)).

(** [compact_if_pruned] *)
Definition compact_if_pruned (dir : Path) (s : StoreState) : sres SecurityAuditStoreOpenError unit :=
  if (length (events s) =? length (record_bytes s))%nat
  then compact dir (metadata s) (events s)
  else mret (M:=sres _) tt.

(** From the sync of the service's directory on. *)
Definition open_owned (audit_dir_existed : bool) (random : option string) (clock : nat → Z)
    (dir : Path) (l : AuditLimits) : sres SecurityAuditStoreOpenError DurableSecurityAuditStore :=
  _ ← (if audit_dir_existed then mret (M:=sres _) tt
       else (_ ← unavailable (check_point ServiceRootSync); unavailable sync_dir));
  '(m, st) ← opened_metadata random dir;
  _ ← ensure (version m =? METADATA_VERSION) UnsupportedMetadataVersion;
  _ ← ensure (generation_ok (store_generation_id m)) MalformedMetadata;
  '(records, torn) ← read_records (audit_log_path dir) m (max_bytes l);
  rv ← lift_res (recovered clock (max_bytes l) m records);
  next ← lift_res (next_reserved m);
  s ← answered_res (inr <$> prune_retention l (clock (length records)) (state_of m rv false next));
  let recovery := {|
    open_state := st; rc_store_generation_id := store_generation_id m;
    retained_records := Z.of_nat (length (events s)); ignored_torn_final_record := torn;
    rc_next_event_id := reserved_event_id m + 1; rc_next_request_id := reserved_request_id m + 1;
    rc_next_service_sequence := reserved_service_sequence m + 1;
    rc_future_dated_records := rv_future rv |} in
  _ ← ignored (call (fs_remove_file (compaction_path dir)));
  _ ← (if needs_compaction torn rv s then compact_if_pruned dir s else mret (M:=sres _) tt);
  mret (M:=sres _) {| audit_dir := dir; limits := l; state := s; recovery := recovery |}.

(** The registry of the directories the process has open; an entry goes when
    the store is dropped, and with the process.  [audit_dir_existed] is what
    [exists] says of the directory. *)
Definition open_with_instrumentation (audit_dir_existed : bool) (random : option string)
    (clock : nat → Z) (service_root : Path) (l : AuditLimits) (registry : gset FileKey)
    : sio (res SecurityAuditStoreOpenError DurableSecurityAuditStore * gset FileKey) :=
  if (max_events l =? 0) || (max_bytes l =? 0) || (max_age l =? 0)
  then mret (M:=sio) (inl InvalidRetention, registry)
  else
    let dir := path_join service_root AUDIT_DIR in
    on_result (_ ← create_private_dir;
               _ ← create_private_dir;
               unavailable (call (fs_canonicalize dir))) (λ r,
    match r with
    | inl e => mret (M:=sio) (inl e, registry)
    | inr key =>
        if decide (key ∈ registry) then mret (M:=sio) (inl AlreadyOpen, registry)
        else on_result (open_owned audit_dir_existed random clock dir l) (λ r,
             mret (M:=sio) match r with
                           | inl e => (inl e, registry)
                           | inr store => (inr store, {[key]} ∪ registry)
                           end)
    end).
Definition open_store (audit_dir_existed : bool) (random : option string) (clock : nat → Z)
    (service_root : Path) (l : AuditLimits) (registry : gset FileKey) :=
  open_with_instrumentation audit_dir_existed random clock service_root l registry.
Definition open_default (audit_dir_existed : bool) (random : option string) (clock : nat → Z)
    (service_root : Path) (registry : gset FileKey) :=
  open_store audit_dir_existed random clock service_root default_limits registry.
Definition drop_store (store : DurableSecurityAuditStore) (registry : gset FileKey) : gset FileKey :=
  registry ∖ {[file_key (audit_dir store)]}.

(** ** The operations of the sink *)

(** An operation answers its result and the state it leaves. *)
Definition refuse_op {A} (s : StoreState) : sio (res SecurityAuditSinkError A * StoreState) :=
  mret (M:=sio) (inl SinkUnavailable, s).

Definition issue_request_id (s : StoreState) : sio (res SecurityAuditSinkError Z * StoreState) :=
  let id := next_request_id s in
  match checked_add_u64 id 1 with
  | None => refuse_op s
  | Some next => mret (M:=sio) (inr id, set_next (next_event_id s) next (next_service_sequence s) s)
  end.

Definition store_allocate_request_id (dir : Path) (s : StoreState)
    : sio (res SecurityAuditSinkError Z * StoreState) :=
  let m := metadata s in
  if (reserved_request_id m <? next_request_id s) then
    match checked_add_u64 (reserved_request_id m) COUNTER_RESERVATION_RANGE with
    | None => refuse_op s
    | Some reserved =>
        let m := with_reserved (reserved_event_id m) reserved (reserved_service_sequence m) m in
        on_result (replace_metadata dir m) (λ r,
        match r with
        | inl _ => refuse_op (mark_degraded true s)
        | inr _ => issue_request_id (set_metadata m s)
        end)
    end
  else issue_request_id s.

(** A sequence that is used up is reported after the event id has advanced. *)
Definition issue_event_identity (s : StoreState)
    : sio (res SecurityAuditSinkError (Z * Z) * StoreState) :=
  let event_id := next_event_id s in
  let sequence := next_service_sequence s in
  match checked_add_u64 event_id 1 with
  | None => refuse_op s
  | Some next_event =>
      let s := set_next next_event (next_request_id s) sequence s in
      match checked_add_u64 sequence 1 with
      | None => refuse_op s
      | Some next_sequence =>
          mret (M:=sio) (inr (event_id, sequence),
                         set_next next_event (next_request_id s) next_sequence s)
      end
  end.

Definition store_allocate_event_identity (dir : Path) (s : StoreState)
    : sio (res SecurityAuditSinkError (Z * Z) * StoreState) :=
  let m := metadata s in
  if (reserved_event_id m <? next_event_id s) || (reserved_service_sequence m <? next_service_sequence s)
  then
    match checked_add_u64 (reserved_event_id m) COUNTER_RESERVATION_RANGE with
    | None => refuse_op s
    | Some reserved =>
        let m' := with_reserved reserved (reserved_request_id m) (reserved_service_sequence m) m in
        match checked_add_u64 (reserved_service_sequence m) COUNTER_RESERVATION_RANGE with
        | None => refuse_op (set_metadata m' s)
        | Some sequence =>
            let m' := with_reserved reserved (reserved_request_id m) sequence m in
            on_result (replace_metadata dir m') (λ r,
            match r with
            | inl _ => refuse_op (mark_degraded true s)
            | inr _ => issue_event_identity (set_metadata m' s)
            end)
        end
    end
  else issue_event_identity s.

(** The write of a line, and the sync of the directory when the log is new. *)
Definition append_line (dir : Path) (line : string) : sres io_error unit :=
  log_existed ← call (fs_exists (audit_log_path dir));
  _ ← append_and_sync (audit_log_path dir) line;
  if log_existed : bool then mret (M:=sres _) tt
  else _ ← check_point FirstAuditDirectorySync; sync_dir.

Definition accept (event : SecurityAuditEvent) (bytes : Z) (s : StoreState) : StoreState :=
  let m := metadata s in
  set_kept (events s ++ [event])%list (record_bytes s ++ [bytes])%list (retained_bytes s + bytes)
    (set_metadata (with_accepted (Z.max (accepted_event_id m) (ev_event_id event))
                     (Z.max (accepted_request_id m) (ev_request_id event))
                     (Z.max (accepted_service_sequence m) (ev_service_sequence event)) m) s).

(** What follows the acceptance of an event: pruning, the compaction it makes
    necessary, and the metadata. *)
Definition settle (dir : Path) (before : nat) (s : StoreState) : sres SecurityAuditStoreOpenError unit :=
  _ ← (if negb (length (events s) =? before)%nat then compact dir (metadata s) (events s)
       else mret (M:=sres _) tt);
  unavailable (replace_metadata dir (metadata s)).

Definition store_append (dir : Path) (l : AuditLimits) (now now' : Z) (event : SecurityAuditEvent)
    (s : StoreState) : sio (res SecurityAuditSinkError unit * StoreState) :=
  if negb (validate_event_for_append now event) then mret (M:=sio) (inl SinkEventTooLarge, s)
  else
    match json_of_record (record_of (store_generation_id (metadata s)) event) with
    | None => refuse_op s
    | Some text =>
        let line := text +:+ newline_text in
        if (SECURITY_AUDIT_MAX_EVENT_BYTES <? slen line) || (max_bytes l <? slen line)
        then mret (M:=sio) (inl SinkEventTooLarge, s)
        else if over_reserved (ev_event_id event) (ev_request_id event) (ev_service_sequence event)
                  (metadata s)
        then refuse_op (mark_degraded true s)
        else
          on_result (append_line dir line) (λ r,
          match r with
          | inl _ => refuse_op (mark_degraded true s)
          | inr _ =>
              let s := accept event (slen line) s in
              let before := length (events s) in
              s ← answered (prune_retention l now' s);
              on_result (settle dir before s) (λ r,
              match r with
              | inl _ => refuse_op (mark_degraded true s)
              | inr _ => mret (M:=sio) (inr tt, mark_degraded false s)
              end)
          end)
    end.

Definition store_health (s : StoreState) : SecurityAuditSinkHealth :=
  if degraded s then SinkDegraded else SinkHealthy.

(** The log is synced when it need not be replaced. *)
Definition resync (dir : Path) (s : StoreState) : sres SecurityAuditStoreOpenError unit :=
  on_result (call (fs_open (audit_log_path dir))) (λ r,
  match r with
  | inr _ => unavailable (_ ← check_point RecoveryLogSync; call sync_all)
  | inl NotFoundError => match events s with [] => mret (M:=sres _) tt | _ => raise StoreUnavailable end
  | inl _ => raise StoreUnavailable
  end).

(** The closure of [try_recover]. *)
Definition probe (dir : Path) (l : AuditLimits) (clock : nat → Z) (s : StoreState)
    : sres SecurityAuditStoreOpenError StoreState :=
  m ← read_metadata (metadata_path dir);
  _ ← ensure ((version m =? METADATA_VERSION)
              && String.eqb (store_generation_id m) (store_generation_id (metadata s))
              && generation_ok (store_generation_id m)
              && (accepted_event_id m <=? reserved_event_id m)
              && (accepted_request_id m <=? reserved_request_id m)
              && (accepted_service_sequence m <=? reserved_service_sequence m)) InconsistentStore;
  next ← lift_res (next_reserved m);
  '(records, torn) ← read_records (audit_log_path dir) m (max_bytes l);
  rv ← lift_res (recovered clock (max_bytes l) m records);
  s' ← answered_res (inr <$> prune_retention l (clock (length records))
         (state_of m rv true (Z.max (next_event_id s) next.1.1, Z.max (next_request_id s) next.1.2,
                              Z.max (next_service_sequence s) next.2)));
  _ ← (if needs_compaction torn rv s' then compact dir (metadata s') (events s') else resync dir s');
  let m := with_accepted (rv_event rv) (rv_request rv) (rv_sequence rv) m in
  _ ← unavailable (replace_metadata dir m);
  _ ← unavailable (check_point RecoveryDirectorySync);
  _ ← unavailable sync_dir;
  mret (M:=sres _) (mark_degraded false (set_metadata m s')).

Definition store_try_recover (dir : Path) (l : AuditLimits) (clock : nat → Z) (s : StoreState)
    : sio (res SecurityAuditSinkError SecurityAuditSinkHealth * StoreState) :=
  on_result (probe dir l clock s) (λ r,
  mret (M:=sio) match r with
                | inr candidate => (inr SinkHealthy, candidate)
                | inl _ => (inl SinkUnavailable, mark_degraded true s)
                end).
End store.

(** ** The laws of the serializer *)

Definition in_u64 (x : Z) : Prop := 0 <= x <= u64_max.
Definition in_u16 (x : Z) : Prop := 0 <= x < 65536.
Definition utf8_opt (o : option string) : Prop := match o with Some s => utf8 s | None => True end.

(** The ranges of the fields' types. *)
Record metadata_typed (m : StoreMetadata) : Prop := {
  mt_version : in_u16 (version m);
  mt_generation : utf8 (store_generation_id m);
  mt_reserved : in_u64 (reserved_event_id m) ∧ in_u64 (reserved_request_id m) ∧
    in_u64 (reserved_service_sequence m);
  mt_accepted : in_u64 (accepted_event_id m) ∧ in_u64 (accepted_request_id m) ∧
    in_u64 (accepted_service_sequence m);
}.
Record event_typed (event : SecurityAuditEvent) : Prop := {
  et_schema : in_u16 (ev_schema_version event);
  et_ids : in_u64 (ev_event_id event) ∧ in_u64 (ev_request_id event) ∧
    in_u64 (ev_service_sequence event);
  et_time : time_min <= ev_timestamp event <= time_max;
  et_strings : utf8 (ev_service_identity event) ∧ utf8_opt (ev_workspace event) ∧
    utf8_opt (ev_policy_version event) ∧
    match ev_asserted_actor event with Some a => utf8 (aa_actor_id a) | None => True end ∧
    match ev_authenticated_principal event with
    | Some p => utf8 (ap_issuer p) ∧ utf8 (ap_subject p) ∧ utf8 (ap_authentication_provider p) ∧
                utf8 (ap_authentication_method p)
    | None => True
    end ∧
    Forall (λ operation, utf8 (ao_workspace operation) ∧ utf8_opt (ao_model operation))
      (ev_operations event);
}.

(** What [serde_json] promises of the two types, each an object on one line: it
    writes every value, but for a time before the epoch; it reads back what it
    wrote, whitespace after it or not, and nothing of which the end is missing;
    and a part of a record followed by a record is no JSON text. *)
Class AuditCodecLaws `{AuditCodec} : Prop := {
  json_of_metadata_total m : is_Some (json_of_metadata m);
  metadata_of_json_of m text :
    json_of_metadata m = Some text → metadata_typed m →
    metadata_of_json text = Some m ∧ metadata_of_json (text +:+ newline_text) = Some m;
  metadata_of_json_typed text m : metadata_of_json text = Some m → metadata_typed m;
  metadata_of_json_part m start rest :
    json_of_metadata m = Some (start +:+ rest) → rest ≠ "" → metadata_of_json start = None;
  json_of_record_total r : 0 <= ev_timestamp (rec_event r) → is_Some (json_of_record r);
  json_of_record_line r text :
    json_of_record r = Some text → lacks newline text = true ∧ text ≠ "";
  record_of_json_of r text :
    json_of_record r = Some text → event_typed (rec_event r) → utf8 (rec_store_generation_id r) →
    in_u16 (rec_version r) → record_of_json text = Some r;
  record_of_json_torn r r' start rest text :
    json_of_record r = Some (start +:+ rest) → start ≠ "" → json_of_record r' = Some text →
    record_of_json (start +:+ text) = None;
}.
