(* ===== verification/AuditRecovery.v ===== *)
(** * Crash safety of the durable audit store

    What the operations of [AuditStore] leave on disk however their calls end, and
    what opening and recovery make of it: Hoare-style rules for computations that
    fail or are killed ([sio_post]) and for those no call of which fails
    ([succeeds]), the invariant of a store in order ([in_order]), and the three
    promises on appending, opening and recovery. *)

From S2P Require Export AuditStore.

Local Open Scope Z_scope.

Create HintDb quiet.

(** ** What holds however the calls end *)

(** No call of the list kills the process. *)
Definition no_crash (fl : list fault) : Prop := Forall (λ f, ∀ n, f ≠ CallCrashes n) fl.
Definition io_total {A} (m : io A) : Prop :=
  ∀ fl fs, no_crash fl → let '(r, fl', _) := m fl fs in r ≠ Crashed ∧ no_crash fl'.

(** Every run of [m] from [fs] ends in a state of [Q], with an answer unless the
    process is killed. *)
Definition sio_post {A} (m : sio A) (Q : option A → FileSys → Prop) (fs : FileSys) : Prop :=
  ∀ i fl, let '(r, (_, fl', fs')) := m i fl fs in
    Q r fs' ∧ (no_crash fl → r ≠ None ∧ no_crash fl').

Lemma no_crash_tail fl : no_crash fl → no_crash (tail fl).
Proof. intros Hfl. destruct Hfl; [constructor|done]. Qed.

Lemma io_total_call {A} (eff : FileSys → (A * FileSys) + io_error) partial : io_total (io_call eff partial).
Proof.
  intros fl fs Hfl. pose proof (no_crash_tail _ Hfl) as Ht. unfold io_call.
  destruct fl as [|[|n|n] fl]; cbn in *; [by destruct (eff fs) as [[]|]|by destruct (eff fs) as [[]|]|done|].
  apply Forall_cons in Hfl as [Hn _]. by destruct (Hn n).
Qed.
Lemma io_total_bind {A B} (m : io A) (f : A → io B) :
  io_total m → (∀ a, io_total (f a)) → io_total (m ≫= f).
Proof.
  intros Hm Hf fl fs Hfl. specialize (Hm fl fs Hfl). unfold mbind, io_bind.
  destruct (m fl fs) as [[[a|e|] fl'] fs']; destruct Hm as [? ?]; [by apply Hf|done..].
Qed.
Lemma io_total_exists p : io_total (fs_exists p).
Proof.
  intros fl fs Hfl. pose proof (no_crash_tail _ Hfl) as Ht. unfold fs_exists.
  destruct fl as [|[|n|n] fl]; cbn in *; try done. apply Forall_cons in Hfl as [Hn _]. by destruct (Hn n).
Qed.
Lemma io_total_sync_parent_dir : io_total sync_parent_dir.
Proof. apply io_total_bind; [apply io_total_call|intros; apply io_total_call]. Qed.
#[export] Hint Resolve io_total_call io_total_exists io_total_sync_parent_dir : quiet.

Section posts.
Implicit Types (fs : FileSys).

Lemma sio_post_ret {A} (a : A) (Q : option A → FileSys → Prop) fs :
  Q (Some a) fs → sio_post (mret (M:=sio) a) Q fs.
Proof. by intros HQ i fl. Qed.

Lemma sio_post_bind {A B} (m : sio A) (f : A → sio B) (Q : option B → FileSys → Prop) fs :
  sio_post m (λ r fs, match r with Some a => sio_post (f a) Q fs | None => Q None fs end) fs →
  sio_post (mbind (M:=sio) f m) Q fs.
Proof.
  intros Hm i fl. specialize (Hm i fl). unfold mbind, sio_bind.
  destruct (m i fl fs) as [[a|] [[i' fl'] fs']]; destruct Hm as [Hf Hl]; [|naive_solver].
  specialize (Hf i' fl'). destruct (f a i' fl' fs') as [r [[? ?] ?]]. naive_solver.
Qed.

Lemma sio_post_mono {A} (m : sio A) (Q R : option A → FileSys → Prop) fs :
  sio_post m Q fs → (∀ r fs', Q r fs' → R r fs') → sio_post m R fs.
Proof.
  intros Hm HQ i fl. specialize (Hm i fl). destruct (m i fl fs) as [r [[? ?] fs']]. naive_solver.
Qed.

Lemma sio_post_run {A} (m : sio A) (Q : option A → FileSys → Prop) fs i fl r i' fl' fs' :
  sio_post m Q fs → m i fl fs = (r, (i', fl', fs')) → Q r fs' ∧ (no_crash fl → r ≠ None).
Proof. intros Hm Heq. specialize (Hm i fl). rewrite Heq in Hm. naive_solver. Qed.

Lemma sres_post_bind {E A B} (m : sres E A) (f : A → sres E B) (Q : option (res E B) → FileSys → Prop) fs :
  sio_post m (λ r fs, match r with
                      | Some (inr a) => sio_post (f a) Q fs
                      | Some (inl e) => Q (Some (inl e)) fs
                      | None => Q None fs
                      end) fs →
  sio_post (mbind (M:=sres E) f m) Q fs.
Proof.
  intros Hm. refine (sio_post_bind m _ Q fs _). eapply sio_post_mono; [exact Hm|].
  intros [[e|a]|] fs' HQ; [by apply sio_post_ret|done..].
Qed.

Lemma sio_post_call_total {A} (m : io A) (Q : option (res io_error A) → FileSys → Prop) fs :
  io_total m →
  io_post m (λ r fs, match r with
                     | Done a => Q (Some (inr a)) fs
                     | Failed e => Q (Some (inl e)) fs
                     | Crashed => Q None fs
                     end) fs →
  sio_post (call m) Q fs.
Proof.
  intros Ht Hm i fl. specialize (Hm fl). specialize (Ht fl fs). unfold call.
  destruct (m fl fs) as [[[a|e|] ?] fs']; naive_solver.
Qed.
Lemma sio_post_call {A} (eff : FileSys → (A * FileSys) + io_error) partial
    (Q : option (res io_error A) → FileSys → Prop) fs :
  io_post (io_call eff partial) (λ r fs, match r with
                     | Done a => Q (Some (inr a)) fs
                     | Failed e => Q (Some (inl e)) fs
                     | Crashed => Q None fs
                     end) fs →
  sio_post (call (io_call eff partial)) Q fs.
Proof. apply sio_post_call_total, io_total_call. Qed.

Lemma sio_post_answered {A} (a : A) (Q : option A → FileSys → Prop) fs :
  Q (Some a) fs → sio_post (answered (Some a)) Q fs.
Proof. by intros HQ i fl. Qed.
End posts.

Lemma sio_post_map_err {E E' A} (f : E → E') (m : sres E A) (Q : option (res E' A) → FileSys → Prop) fs :
  sio_post m (λ r fs, match r with
                      | Some (inr a) => Q (Some (inr a)) fs
                      | Some (inl e) => Q (Some (inl (f e))) fs
                      | None => Q None fs
                      end) fs →
  sio_post (map_err f m) Q fs.
Proof.
  intros Hm. refine (sio_post_bind m _ Q fs _). eapply sio_post_mono; [exact Hm|].
  intros [[e|a]|] fs' HQ; [by apply sio_post_ret..|done].
Qed.

Lemma sio_post_check point (Q : option (res io_error unit) → FileSys → Prop) (fs : FileSys) :
  (∀ r, Q r fs) → sio_post (check_point point) Q fs.
Proof. intros HQ i fl. unfold check_point. by destruct (decide _); split; [apply HQ| |apply HQ|]. Qed.

Lemma sio_post_note f (Q : option (res io_error unit) → FileSys → Prop) (fs : FileSys) :
  Q (Some (inr tt)) fs → sio_post (note f) Q fs.
Proof. by intros HQ i fl. Qed.

(** Calls that leave the files alone. *)
Definition quiet_io {A} (m : sio A) : Prop :=
  ∀ (Q : option A → FileSys → Prop) fs, (∀ r, Q r fs) → sio_post m Q fs.

Lemma quiet_call {A} (eff : FileSys → A + io_error) :
  quiet_io (call (io_call (λ fs, match eff fs with inl a => inl (a, fs) | inr e => inr e end) (λ _ fs, fs))).
Proof.
  intros Q fs HQ. apply sio_post_call, io_post_call; [|by split]. by destruct (eff fs).
Qed.
Lemma quiet_ret {A} (a : A) : quiet_io (mret (M:=sio) a).
Proof. intros Q fs HQ. apply sio_post_ret, HQ. Qed.
Lemma quiet_bind {A B} (m : sio A) (f : A → sio B) :
  quiet_io m → (∀ a, quiet_io (f a)) → quiet_io (mbind (M:=sio) f m).
Proof.
  intros Hm Hf Q fs HQ. apply sio_post_bind, Hm. intros [a|]; [by apply Hf|apply HQ].
Qed.
Lemma quiet_res_bind {E A B} (m : sres E A) (f : A → sres E B) :
  quiet_io m → (∀ a, quiet_io (f a)) → quiet_io (mbind (M:=sres E) f m).
Proof.
  intros Hm Hf. apply quiet_bind; [done|]. intros [e|a]; [apply quiet_ret|apply Hf].
Qed.
Lemma quiet_map_err {E E' A} (f : E → E') (m : sres E A) : quiet_io m → quiet_io (map_err f m).
Proof. intros Hm. apply quiet_bind; [done|]. intros. apply quiet_ret. Qed.
Lemma quiet_unavailable {A} (m : sres io_error A) : quiet_io m → quiet_io (unavailable m).
Proof. apply quiet_map_err. Qed.
Lemma quiet_check point : quiet_io (check_point point).
Proof. intros Q fs. apply sio_post_check. Qed.
Lemma quiet_note f : quiet_io (note f).
Proof. intros Q fs HQ. apply sio_post_note, HQ. Qed.
Lemma quiet_sync_all : quiet_io (call sync_all).
Proof. exact (quiet_call (λ _, inl tt)). Qed.
Lemma quiet_sync_dir : quiet_io sync_dir.
Proof. intros Q fs HQ. apply sio_post_call_total, io_post_sync_parent_dir; [apply io_total_sync_parent_dir|]. intros []; apply HQ. Qed.
Lemma quiet_read p : quiet_io (call (fs_read p)).
Proof.
  intros Q fs HQ. apply sio_post_call, io_post_call; [|by split]. by destruct (fs !! file_key p).
Qed.
Lemma quiet_exists p : quiet_io (call (fs_exists p)).
Proof. intros Q fs HQ. apply sio_post_call_total, io_post_exists; [apply io_total_exists|]. intros []; apply HQ. Qed.
Lemma quiet_len p : quiet_io (call (fs_metadata_len p)).
Proof.
  intros Q fs HQ. apply sio_post_call, io_post_call; [|by split]. by destruct (fs !! file_key p).
Qed.
Lemma quiet_open p : quiet_io (call (fs_open p)).
Proof.
  intros Q fs HQ. apply sio_post_call, io_post_call; [|by split]. by destruct (fs !! file_key p).
Qed.
Lemma quiet_create_dir_all : quiet_io (call fs_create_dir_all).
Proof. exact (quiet_call (λ _, inl tt)). Qed.
Lemma quiet_set_permissions : quiet_io (call fs_set_permissions).
Proof. exact (quiet_call (λ _, inl tt)). Qed.
Lemma quiet_canonicalize p : quiet_io (call (fs_canonicalize p)).
Proof. exact (quiet_call (λ _, inl (file_key p))). Qed.

#[export] Hint Resolve quiet_ret quiet_check quiet_note quiet_sync_all
  quiet_sync_dir quiet_read quiet_exists quiet_len quiet_open quiet_create_dir_all
  quiet_set_permissions quiet_canonicalize quiet_unavailable quiet_map_err : quiet.

Lemma quiet_then {E A B} (m : sres E A) (f : A → sres E B) (Q : option (res E B) → FileSys → Prop)
    (fs : FileSys) :
  quiet_io m → (∀ e, Q (Some (inl e)) fs) → Q None fs → (∀ a, sio_post (f a) Q fs) →
  sio_post (mbind (M:=sres E) f m) Q fs.
Proof. intros Hm He Hn Hf. apply sres_post_bind, Hm. intros [[e|a]|]; auto. Qed.

Lemma ret_then {E A B} (a : A) (f : A → sres E B) (Q : option (res E B) → FileSys → Prop)
    (fs : FileSys) :
  sio_post (f a) Q fs → sio_post (mbind (M:=sres E) f (mret (M:=sres E) a)) Q fs.
Proof. done. Qed.

(** The next call, which leaves the files alone. *)
Ltac quiet := refine (quiet_then _ _ _ _ _ _ _ _); [solve [eauto with quiet]|..].

(** ** The files of a store *)

Lemma path_join_ne dir n m :
  n ≠ "."%string → m ≠ "."%string → n ≠ m → file_key (path_join dir n) ≠ file_key (path_join dir m).
Proof.
  intros Hn Hm Hne Heq. rewrite !file_key_join in Heq by done. injection Heq as Heq.
  by apply app_inj_tail in Heq as [_ ?].
Qed.

(** The outcomes of writing [bs] to [p] through [temp]. *)
Record replaced {E} (p temp : Path) (bs : string) (fs : FileSys) (r : option (res E unit))
    (fs' : FileSys) : Prop := {
  rp_frame : only_changed [file_key p; file_key temp] fs fs';
  rp_atomic : fs' !! file_key p = fs !! file_key p ∨ fs' !! file_key p = Some bs;
  rp_done : r = Some (inr tt) → fs' !! file_key p = Some bs;
}.

Section replacing.
Context {E : Type} (p temp : Path) (bs : string) (fs : FileSys).
Hypothesis Hne : file_key temp ≠ file_key p.

Lemma replaced_not (r : option (res E unit)) fs' :
  (∀ k, k ≠ file_key temp → fs' !! k = fs !! k) → r ≠ Some (inr tt) → replaced p temp bs fs r fs'.
Proof.
  intros Hf Hr. split; [|left; apply Hf; congruence|done].
  intros k Hk. apply Hf. intros ->. apply Hk. right. by left.
Qed.

Lemma replaced_temp (r : option (res E unit)) text :
  r ≠ Some (inr tt) → replaced p temp bs fs r (<[file_key temp := text]> fs).
Proof. intros Hr. apply replaced_not; [|done]. intros k Hk. by rewrite lookup_insert_ne. Qed.

Lemma replaced_done (r : option (res E unit)) :
  replaced p temp bs fs r (<[file_key p := bs]> (delete (file_key temp) (<[file_key temp := bs]> fs))).
Proof.
  split; [|right; apply lookup_insert_eq|intros _; apply lookup_insert_eq].
  intros k Hk. rewrite !not_elem_of_cons in Hk. destruct Hk as (? & ? & _).
  by rewrite lookup_insert_ne, lookup_delete_ne, lookup_insert_ne.
Qed.
End replacing.

Lemma post_truncate p (Q : option (res io_error unit) → FileSys → Prop) (fs : FileSys) :
  Q (Some (inr tt)) (<[file_key p := ""%string]> fs) → (∀ e, Q (Some (inl e)) fs) → Q None fs →
  sio_post (call (open_truncate p)) Q fs.
Proof. intros. by apply sio_post_call, io_post_call; [|split]. Qed.

Lemma post_write p bs text (Q : option (res io_error unit) → FileSys → Prop) (fs : FileSys) :
  Q (Some (inr tt)) (<[file_key p := text +:+ bs]> fs) →
  (∀ r part rest, bs = part +:+ rest → r ≠ Some (inr tt) → Q r (<[file_key p := text +:+ part]> fs)) →
  sio_post (call (write_all p bs)) Q (<[file_key p := text]> fs).
Proof.
  intros Hd Hp.
  assert (∀ bs, append_bytes p bs (<[file_key p := text]> fs) = <[file_key p := text +:+ bs]> fs) as Ha.
  { intros b. unfold append_bytes. by rewrite lookup_insert_eq, insert_insert_eq. }
  apply sio_post_call, io_post_call; cbn beta; rewrite ?Ha; [done|].
  intros n. rewrite Ha. destruct (substring_split n bs) as [rest Hs]. by split; eapply Hp.
Qed.

Lemma post_rename temp p bs (Q : option (res io_error unit) → FileSys → Prop) (fs : FileSys) :
  (∀ r, r ≠ Some (inr tt) → Q r (<[file_key temp := bs]> fs)) →
  Q (Some (inr tt)) (<[file_key p := bs]> (delete (file_key temp) (<[file_key temp := bs]> fs))) →
  sio_post (call (fs_rename temp p)) Q (<[file_key temp := bs]> fs).
Proof.
  intros Hb Hd. apply sio_post_call, io_post_call; [|intros _; split; by apply Hb].
  by rewrite lookup_insert_eq.
Qed.

Section files.
Context `{EventLayout} `{AuditCodec}.
Implicit Types (dir : Path) (fs : FileSys) (es : list SecurityAuditEvent).

Definition metadata_key dir : FileKey := file_key (metadata_path dir).
Definition log_key dir : FileKey := file_key (audit_log_path dir).
Definition temp_key dir : FileKey := file_key (metadata_temp dir).
Definition compaction_key dir : FileKey := file_key (compaction_path dir).

Lemma store_keys dir : NoDup [metadata_key dir; log_key dir; temp_key dir; compaction_key dir].
Proof.
  repeat (apply NoDup_cons; split; [|try apply NoDup_nil_2]);
    rewrite ?not_elem_of_cons; split_and?; try apply not_elem_of_nil; by apply path_join_ne.
Qed.
Lemma temp_metadata_ne dir : temp_key dir ≠ metadata_key dir.
Proof. by apply path_join_ne. Qed.
Lemma compaction_log_ne dir : compaction_key dir ≠ log_key dir.
Proof. by apply path_join_ne. Qed.

Lemma replace_metadata_post dir m text fs :
  json_of_metadata m = Some text →
  sio_post (replace_metadata dir m)
    (replaced (metadata_path dir) (metadata_temp dir) (text +:+ newline_text) fs) fs.
Proof.
  intros Hm. pose proof (temp_metadata_ne dir) as Hne. unfold replace_metadata. rewrite Hm.
  set (good := replaced _ _ _ _).
  assert (∀ r : option (res io_error unit), r ≠ Some (inr tt) → good r fs) as Hold
    by (intros r Hr; by apply replaced_not).
  assert (∀ (r : option (res io_error unit)) t, r ≠ Some (inr tt) → good r (<[temp_key dir := t]> fs))
    as Htemp by (intros r t Hr; by apply replaced_temp).
  assert (∀ r : option (res io_error unit), good r (<[metadata_key dir := text +:+ newline_text]>
    (delete (temp_key dir) (<[temp_key dir := text +:+ newline_text]> fs)))) as Hnew
    by (intros r; by apply replaced_done).
  apply ret_then, sres_post_bind, post_truncate; [|by intros; apply Hold..].
  quiet; [by intros; apply Htemp..|intros _].
  apply sres_post_bind, post_write; [|intros [[e|[]]|] ? ? ? ?; first [done|by apply Htemp]].
  apply sres_post_bind, post_write; [|intros [[e|[]]|] ? ? ? ?; first [done|by apply Htemp]].
  do 3 (quiet; [by intros; apply Htemp..|intros _]). quiet; [by intros; apply Htemp..|intros _].
  apply sres_post_bind, post_rename; [intros [[e|[]]|] ?; first [done|by apply Htemp]|].
  do 2 (quiet; [by intros; apply Hnew..|intros _]). apply quiet_note. intros r. apply Hnew.
Qed.

(** *** The lines of the log *)

(** The line of an event, without the newline. *)
Definition line_for (generation : string) (event : SecurityAuditEvent) (line : string) : Prop :=
  json_of_record (record_of generation event) = Some line.
Definition lines_for (generation : string) (es : list SecurityAuditEvent) : option (list string) :=
  mapM (λ event, json_of_record (record_of generation event)) es.

Lemma write_records_post temp generation es lines text fs :
  lines_for generation es = Some lines →
  sio_post (write_records temp generation es)
    (λ r fs', ∃ text', fs' = <[file_key temp := text']> fs ∧
       (r = Some (inr tt) → text' = text +:+ unlines lines)) (<[file_key temp := text]> fs).
Proof.
  revert lines text. induction es as [|event es IH]; intros lines text Hl.
  { injection Hl as <-. apply sio_post_ret. exists text. by rewrite append_nil_r. }
  unfold lines_for in Hl. cbn [mapM] in Hl.
  apply bind_Some in Hl as (line & Hline & (rest & Hrest & [= <-])%bind_Some).
  cbn [write_records]. rewrite Hline.
  assert (∀ r t, r ≠ Some (inr tt) → ∃ text', <[file_key temp := t]> fs = <[file_key temp := text']> fs ∧
    (r = @Some (res SecurityAuditStoreOpenError unit) (inr tt) → text' = text +:+ unlines (line :: rest)))
    as Hpart by (intros r t Hr; by exists t).
  apply ret_then. quiet; [by intros; apply Hpart..|intros _].
  apply sres_post_bind, sio_post_map_err, post_write; [|intros [[e|[]]|] ? ? ? ?; first [done|by apply Hpart]].
  apply sres_post_bind, sio_post_map_err, post_write; [|intros [[e|[]]|] ? ? ? ?; first [done|by apply Hpart]].
  eapply sio_post_mono; [apply (IH rest _ Hrest)|]. intros r fs' (t & -> & Ht). exists t. split; [done|].
  intros Hr. rewrite (Ht Hr), !append_assoc. done.
Qed.

Lemma compact_post dir m es lines fs :
  lines_for (store_generation_id m) es = Some lines →
  sio_post (compact dir m es) (replaced (audit_log_path dir) (compaction_path dir) (unlines lines) fs) fs.
Proof.
  intros Hl. pose proof (compaction_log_ne dir) as Hne. unfold compact.
  set (good := replaced _ _ _ _).
  assert (∀ r : option (res SecurityAuditStoreOpenError unit), r ≠ Some (inr tt) → good r fs) as Hold
    by (intros r Hr; by apply replaced_not).
  assert (∀ (r : option (res SecurityAuditStoreOpenError unit)) t, r ≠ Some (inr tt) →
    good r (<[compaction_key dir := t]> fs)) as Htemp by (intros r t Hr; by apply replaced_temp).
  assert (∀ r : option (res SecurityAuditStoreOpenError unit), good r (<[log_key dir := unlines lines]>
    (delete (compaction_key dir) (<[compaction_key dir := unlines lines]> fs)))) as Hnew
    by (intros r; by apply replaced_done).
  apply sres_post_bind, sio_post_map_err, post_truncate; [|by intros; apply Hold..].
  apply sres_post_bind. eapply sio_post_mono; [by apply write_records_post|].
  intros r fs' (t & -> & Ht). destruct r as [[e|[]]|]; [by apply Htemp| |by apply Htemp].
  rewrite (Ht eq_refl). change ("" +:+ unlines lines) with (unlines lines).
  do 3 (quiet; [by intros; apply Htemp..|intros _]).
  apply sres_post_bind, sio_post_map_err, post_rename; [intros [[e|[]]|] ?; first [done|by apply Htemp]|].
  do 2 (quiet; [by intros; apply Hnew..|intros _]). apply quiet_unavailable; [apply quiet_note|].
  intros r. apply Hnew.
Qed.

(** What an append to the log may leave: a part of the line, all of it if it
    reports success. *)
Record line_appended (dir : Path) (line : string) (fs : FileSys)
    (r : option (res io_error unit)) (fs' : FileSys) : Prop := {
  la_frame : only_changed [log_key dir] fs fs';
  la_log : ∃ part rest, line = part +:+ rest ∧
    default "" (fs' !! log_key dir) = default "" (fs !! log_key dir) +:+ part ∧
    (r = Some (inr tt) → rest = "" ∧ is_Some (fs' !! log_key dir));
}.

Lemma append_line_post dir line fs : sio_post (append_line dir line) (line_appended dir line fs) fs.
Proof.
  set (old := default "" (fs !! log_key dir)).
  assert (∀ r, r ≠ Some (inr tt) → line_appended dir line fs r fs) as Hold.
  { intros r Hr. split; [done|]. exists "", line. split_and!; [done|by rewrite append_nil_r|done]. }
  assert (∀ r part rest, line = part +:+ rest → (r = Some (inr tt) → rest = "") →
    line_appended dir line fs r (<[log_key dir := old +:+ part]> fs)) as Hpart.
  { intros r part rest Heq Hr. split.
    - intros k Hk. apply lookup_insert_ne. intros <-. apply Hk. by left.
    - exists part, rest. rewrite lookup_insert_eq. split_and!; [done..|]. intros Hd. eauto. }
  quiet; [by intros; apply Hold..|intros existed].
  apply sres_post_bind. unfold append_and_sync.
  apply sres_post_bind, sio_post_call, io_post_call; [|by intros _; split; apply Hold].
  assert (match fs !! log_key dir with Some _ => fs | None => <[log_key dir := ""%string]> fs end
    = <[log_key dir := old]> fs) as Hopen.
  { unfold old. destruct (fs !! log_key dir) eqn:Hk; cbn; [by rewrite insert_id|done]. }
  cbv zeta. fold (log_key dir). rewrite Hopen.
  assert (∀ r, r ≠ Some (inr tt) → line_appended dir line fs r (<[log_key dir := old]> fs)) as Hnone.
  { intros r Hr. rewrite <-(append_nil_r old). by apply (Hpart r "" line). }
  assert (∀ r, line_appended dir line fs r (<[log_key dir := old +:+ line]> fs)) as Hall.
  { intros r. by apply (Hpart r line ""); [rewrite append_nil_r|]. }
  quiet; [by intros; apply Hnone..|intros _].
  apply sres_post_bind, post_write.
  2: { intros [[e|[]]|] part rest Heq Hr; [by apply (Hpart _ part rest)|done|by apply (Hpart _ part rest)]. }
  do 3 (quiet; [by intros; apply Hall..|intros _]). apply quiet_note. intros [[e|[]]|]; [apply Hall| |apply Hall].
  destruct existed; [apply sio_post_ret, Hall|]. quiet; [by intros; apply Hall..|intros _].
  apply quiet_sync_dir. intros r. apply Hall.
Qed.

(** A new metadata file holds a part of its text, all of it if it is reported. *)
Lemma write_new_metadata_post dir m text fs :
  json_of_metadata m = Some text →
  sio_post (write_new_metadata (metadata_path dir) m)
    (λ r fs', only_changed [metadata_key dir] fs fs' ∧
       (fs' !! metadata_key dir = fs !! metadata_key dir ∧ r ≠ Some (inr tt) ∨
        fs !! metadata_key dir = None ∧ ∃ part rest, text +:+ newline_text = part +:+ rest ∧
          fs' !! metadata_key dir = Some part ∧ (r = Some (inr tt) → rest = ""))) fs.
Proof.
  intros Hm. unfold write_new_metadata. rewrite Hm. set (good := λ r fs', _ ∧ _).
  assert (∀ r : option (res SecurityAuditStoreOpenError unit), r ≠ Some (inr tt) → good r fs) as Hold.
  { intros r Hr. split; [done|by left]. }
  apply ret_then, sres_post_bind, sio_post_map_err, sio_post_call, io_post_call;
    [|by intros _; split; apply Hold].
  fold (metadata_key dir). destruct (fs !! metadata_key dir) eqn:Hk; [by apply Hold|].
  assert (∀ r part rest, text +:+ newline_text = part +:+ rest → (r = Some (inr tt) → rest = "") →
    good r (<[metadata_key dir := part]> fs)) as Hpart.
  { intros r part rest Heq Hr. split.
    - intros k Hk'. apply lookup_insert_ne. intros <-. apply Hk'. by left.
    - right. split; [done|]. exists part, rest. by rewrite lookup_insert_eq. }
  assert (∀ r, good r (<[metadata_key dir := text +:+ newline_text]> fs)) as Hall.
  { intros r. apply (Hpart r _ ""); [by rewrite append_nil_r|done]. }
  quiet; [by intros; apply (Hpart _ "" (text +:+ newline_text))..|intros _].
  apply sres_post_bind, sio_post_map_err, post_write.
  2: { intros [[e|[]]|] part rest -> Hr; try done;
         apply (Hpart _ part (rest +:+ newline_text)); by rewrite ?append_assoc. }
  apply sres_post_bind, sio_post_map_err, post_write.
  2: { intros [[e|[]]|] part rest Heq Hr; try done;
         apply (Hpart _ (text +:+ part) rest); by rewrite ?append_assoc, ?Heq. }
  do 2 (quiet; [by intros; apply Hall..|intros _]). apply quiet_unavailable; [apply quiet_note|].
  intros r. apply Hall.
Qed.
End files.

(** ** Pruning *)

Definition sum (l : list Z) : Z := foldr Z.add 0 l.
Lemma sum_app l k : sum (l ++ k) = sum l + sum k.
Proof. induction l as [|x l IH]; cbn; [done|]. unfold sum in *. rewrite IH. lia. Qed.

(** What pruning keeps: the longest end of the list with nothing to prune. *)
Fixpoint pruned (l : AuditLimits) (cutoff : option Z) (size : SecurityAuditEvent → Z)
    (es : list SecurityAuditEvent) : list SecurityAuditEvent :=
  match es with
  | [] => []
  | _ :: es' => if must_prune l cutoff (sum (size <$> es)) es then pruned l cutoff size es' else es
  end.

Section pruning.
Context (l : AuditLimits) (cutoff : option Z) (size : SecurityAuditEvent → Z).
Hypothesis Hsize : ∀ event, 0 <= size event.
Hypothesis Hlimits : 0 <= max_events l ∧ 0 <= max_bytes l.
Implicit Types (es : list SecurityAuditEvent).

Lemma sum_sizes_nonneg es : 0 <= sum (size <$> es).
Proof. induction es as [|e es IH]; [done|]. cbn in *. specialize (Hsize e). unfold sum in *. lia. Qed.

Lemma must_prune_nil : must_prune l cutoff 0 [] = false.
Proof.
  unfold must_prune. destruct Hlimits. rewrite (proj2 (Z.ltb_ge _ _)), (proj2 (Z.ltb_ge _ _)) by (cbn; lia).
  by destruct cutoff.
Qed.

(** The loop ends, with the events that [pruned] says and the sizes of these. *)
Lemma prune_loop_pruned es fuel :
  (length es < fuel)%nat →
  prune_loop fuel l cutoff es (size <$> es) (sum (size <$> es))
  = Some (pruned l cutoff size es, size <$> pruned l cutoff size es, sum (size <$> pruned l cutoff size es)).
Proof.
  revert fuel. induction es as [|e es IH]; intros [|fuel] Hf; cbn in Hf; try lia.
  - cbn. by rewrite must_prune_nil.
  - cbn [prune_loop pruned]. destruct (must_prune _ _ _ _); [|done]. cbn [fmap list_fmap tail].
    pose proof (sum_sizes_nonneg es) as Hs.
    replace (Z.max 0 (sum (size e :: (size <$> es)) - size e)) with (sum (size <$> es))
      by (unfold sum in *; cbn; lia).
    apply IH. lia.
Qed.

Lemma pruned_suffix es : ∃ k, pruned l cutoff size es = drop k es.
Proof.
  induction es as [|e es [k IH]]; [by exists 0%nat|]. cbn [pruned].
  destruct (must_prune _ _ _ _); [by exists (S k)|by exists 0%nat].
Qed.

Lemma pruned_stays es : must_prune l cutoff (sum (size <$> pruned l cutoff size es)) (pruned l cutoff size es) = false.
Proof.
  induction es as [|e es IH]; [apply must_prune_nil|]. cbn [pruned].
  by destruct (must_prune _ _ _ (e :: es)) eqn:Hm.
Qed.

Lemma pruned_within es :
  Z.of_nat (length (pruned l cutoff size es)) <= max_events l ∧
  sum (size <$> pruned l cutoff size es) <= max_bytes l.
Proof.
  pose proof (pruned_stays es) as Hp. unfold must_prune in Hp.
  apply orb_false_iff in Hp as [[H1 H2]%orb_false_iff _]. rewrite Z.ltb_ge in H1, H2. done.
Qed.

Lemma pruned_idle es : must_prune l cutoff (sum (size <$> es)) es = false → pruned l cutoff size es = es.
Proof. destruct es; [done|]. cbn [pruned]. by intros ->. Qed.
End pruning.

(** ** Reading a log *)

Section reading.
Context `{EventLayout} `{AuditCodec}.
Implicit Types (es : list SecurityAuditEvent) (fs : FileSys) (generation : string).

Definition read_line generation (line : string) : res SecurityAuditStoreOpenError (SecurityAuditEvent * Z) :=
  match record_of_json line with
  | None => inl MalformedRecord
  | Some record =>
      if negb (rec_version record =? RECORD_VERSION) then inl UnsupportedRecordVersion
      else if negb (String.eqb (rec_store_generation_id record) generation) then inl InconsistentStore
      else inr (rec_event record, Z.of_nat (String.length line) + 1)
  end.
Lemma mapM_read_cons generation line lines :
  mapM (read_line generation) (line :: lines)
  = match read_line generation line with
    | inr x => (λ records, x :: records) <$> mapM (read_line generation) lines
    | inl e => inl e
    end.
Proof. cbn. destruct (read_line generation line); [done|]. by destruct (mapM _ lines). Qed.
Definition filled (line : string) : bool := negb (String.length line =? 0)%nat.
(** The records of a file's ended lines, and what comes after the last newline. *)
Definition log_entries generation (bs : string)
    : res SecurityAuditStoreOpenError (list (SecurityAuditEvent * Z)) :=
  mapM (read_line generation) (filter (λ line, filled line) (ended_lines bs)).
Definition log_tail (bs : string) : string := default ""%string (last (split_char newline bs)).
Definition log_read generation (bs : string)
    : res SecurityAuditStoreOpenError (list (SecurityAuditEvent * Z) * bool) :=
  (λ records, (records, filled (log_tail bs))) <$> log_entries generation bs.

Lemma log_tail_cons line bs :
  lacks newline line = true → log_tail (line +:+ String newline bs) = log_tail bs.
Proof.
  intros Hl. unfold log_tail. rewrite split_char_app by done.
  pose proof (split_char_nonempty newline bs). by destruct (split_char newline bs).
Qed.
Lemma log_tail_lacks tail : lacks newline tail = true → log_tail tail = tail.
Proof. intros Ht. unfold log_tail. by rewrite split_char_lacks. Qed.
Lemma log_tail_unlines ls tail :
  Forall (λ line, lacks newline line = true) ls → lacks newline tail = true →
  log_tail (unlines ls +:+ tail) = tail.
Proof.
  intros Hls Ht. induction Hls as [|line ls Hl _ IH]; [by apply log_tail_lacks|].
  change (unlines (line :: ls)) with (line +:+ String newline (unlines ls)). rewrite append_assoc.
  change (String newline (unlines ls) +:+ tail) with (String newline (unlines ls +:+ tail)).
  by rewrite log_tail_cons.
Qed.

(** The loop ends, with the records of the lines in order. *)
Lemma read_records_loop_ok fuel generation bs start records :
  (String.length bs < fuel + start)%nat → (0 < fuel)%nat →
  read_records_loop fuel generation bs start records
  = Some ((λ '(rest, torn), ((records ++ rest)%list, torn : bool)) <$> log_read generation (str_drop start bs)).
Proof.
  revert start records. induction fuel as [|fuel IH]; intros start records Hfuel Hpos; [lia|].
  cbn [read_records_loop]. destruct (Nat.ltb_spec start (String.length bs)) as [Hlt|Hge].
  - destruct (position newline (str_drop start bs)) as [n|] eqn:Hp.
    + pose proof (position_lt _ _ _ Hp) as Hn. rewrite length_str_drop in Hn.
      destruct (position_Some _ _ _ Hp) as [Heq Hl]. cbn zeta.
      set (line := String.substring 0 n (str_drop start bs)) in *.
      rewrite Heq, str_drop_drop.
      unfold log_read, log_entries. rewrite log_tail_cons, ended_lines_cons by done.
      replace (start + S n)%nat with (S (start + n)) by lia.
      destruct (String.length line =? 0)%nat eqn:Hb.
      * rewrite IH by lia. rewrite filter_cons_False; [done|]. unfold filled. rewrite Hb. by intros [].
      * rewrite filter_cons_True by (unfold filled; rewrite Hb; exact I).
        rewrite mapM_read_cons. unfold read_line at 1. destruct (record_of_json line) as [record|]; [|done].
        destruct (rec_version record =? RECORD_VERSION); [|done]. cbn [negb].
        destruct (String.eqb _ _); [|done]. cbn [negb]. rewrite IH by lia.
        unfold log_read. fold (log_entries generation (str_drop (S (start + n)) bs)).
        destruct (log_entries _ _) as [e|rest]; cbn; [done|]. by rewrite <-app_assoc.
    + unfold log_read, log_entries. pose proof (position_None _ _ Hp) as Hl.
      rewrite (ended_lines_tail _ Hl), (log_tail_lacks _ Hl). cbn. rewrite app_nil_r.
      unfold filled. rewrite length_str_drop. by destruct (Nat.eqb_spec (String.length bs - start) 0); [lia|].
  - assert (str_drop start bs = "") as ->.
    { destruct (str_drop start bs) eqn:Hd; [done|]. apply (f_equal String.length) in Hd.
      rewrite length_str_drop in Hd. cbn in Hd. lia. }
    cbn. by rewrite app_nil_r.
Qed.

Lemma read_records_loop_read generation bs :
  read_records_loop (S (String.length bs)) generation bs 0 [] = Some (log_read generation bs).
Proof.
  rewrite read_records_loop_ok by lia. change (str_drop 0 bs) with bs.
  by destruct (log_read generation bs) as [e|[records torn]].
Qed.

(** What the reading of the log can answer. *)
Lemma read_records_post path m max_bytes fs :
  sio_post (read_records path m max_bytes)
    (λ r fs', fs' = fs ∧ ∀ x, r = Some (inr x) →
       log_read (store_generation_id m) (default "" (fs !! file_key path)) = inr x) fs.
Proof.
  assert (∀ e, fs = fs ∧ ∀ x, Some (inl e) = @Some (res SecurityAuditStoreOpenError _) (inr x) →
    log_read (store_generation_id m) (default "" (fs !! file_key path)) = inr x) as Hno by done.
  unfold read_records. destruct (checked_add_usize _ _) as [maximum|]; [|by apply sio_post_ret].
  apply sio_post_bind, sio_post_call, io_post_call; [|by intros _; split; [apply sio_post_ret|]].
  destruct (fs !! file_key path) as [bs|] eqn:Hbs.
  - destruct (_ <? _); [by apply sio_post_ret|].
    apply sres_post_bind, sio_post_map_err, sio_post_call, io_post_call; [|done].
    rewrite Hbs. rewrite read_records_loop_read. apply sio_post_answered. split; [done|].
    intros x Hx. by injection Hx.
  - apply sio_post_ret. split; [done|]. by intros x [= <-].
Qed.

(** ** A log of events *)

Definition line_size generation (event : SecurityAuditEvent) : Z :=
  match json_of_record (record_of generation event) with Some line => slen line + 1 | None => 0 end.

Lemma line_size_nonneg generation event : 0 <= line_size generation event.
Proof. unfold line_size, slen. destruct (json_of_record _); lia. Qed.

Fixpoint increasing (previous : Z) (ids : list Z) : Prop :=
  match ids with [] => True | id :: ids => previous < id ∧ increasing id ids end.
Lemma increasing_weaken p q ids : p <= q → increasing q ids → increasing p ids.
Proof. destruct ids; cbn; [done|]. intros ? [? ?]. split; [lia|done]. Qed.
Lemma increasing_drop p ids k : increasing p ids → increasing p (drop k ids).
Proof.
  revert p k. induction ids as [|id ids IH]; intros p [|k]; cbn; try done.
  intros [Hp Hi]. apply IH. apply (increasing_weaken p id); [lia|done].
Qed.

(** Events a store may hold under reserved identifiers. *)
Record event_kept (max_bytes : Z) (m : StoreMetadata) (event : SecurityAuditEvent) : Prop := {
  ek_typed : event_typed event;
  ek_valid : validate_event_common event = true;
  ek_line : is_Some (json_of_record (record_of (store_generation_id m) event));
  ek_size : line_size (store_generation_id m) event <= SECURITY_AUDIT_MAX_EVENT_BYTES ∧
    line_size (store_generation_id m) event <= max_bytes;
  ek_reserved : over_reserved (ev_event_id event) (ev_request_id event) (ev_service_sequence event) m
    = false;
}.
Record events_kept (max_bytes : Z) (m : StoreMetadata) es : Prop := {
  eks_each : Forall (event_kept max_bytes m) es;
  eks_ids : increasing 0 (ev_event_id <$> es);
  eks_sequences : increasing 0 (ev_service_sequence <$> es);
}.

Lemma events_kept_drop max_bytes m es k : events_kept max_bytes m es → events_kept max_bytes m (drop k es).
Proof.
  intros [Heach Hids Hseqs]. split; [by apply Forall_drop|..];
    rewrite fmap_drop; by apply increasing_drop.
Qed.

Lemma over_reserved_false event request sequence m :
  over_reserved event request sequence m = false ↔
  event <= reserved_event_id m ∧ request <= reserved_request_id m ∧ sequence <= reserved_service_sequence m.
Proof.
  unfold over_reserved. rewrite !orb_false_iff, !Z.ltb_ge. tauto.
Qed.

(** The records of a log of such events are recovered, each once. *)
Lemma recover_records_kept clock max_bytes m es pe ps rv :
  0 <= rv_retained rv →
  rv_retained rv + sum (line_size (store_generation_id m) <$> es) <= usize_max →
  Forall (event_kept max_bytes m) es → increasing pe (ev_event_id <$> es) →
  increasing ps (ev_service_sequence <$> es) →
  ∃ future, recover_records clock max_bytes ((λ e, (e, line_size (store_generation_id m) e)) <$> es) pe ps rv
  = inr {| rv_events := rv_events rv ++ es;
           rv_bytes := rv_bytes rv ++ (line_size (store_generation_id m) <$> es);
           rv_retained := rv_retained rv + sum (line_size (store_generation_id m) <$> es);
           rv_event := foldl Z.max (rv_event rv) (ev_event_id <$> es);
           rv_request := foldl Z.max (rv_request rv) (ev_request_id <$> es);
           rv_sequence := foldl Z.max (rv_sequence rv) (ev_service_sequence <$> es);
           rv_future := future |}.
Proof.
  set (size := line_size (store_generation_id m)).
  revert pe ps rv. induction es as [|e es IH]; intros pe ps rv Hnn Hsum Hkept Hids Hseqs.
  { exists (rv_future rv). cbn. rewrite !app_nil_r, Z.add_0_r. by destruct rv. }
  apply Forall_cons in Hkept as [[_ Hvalid _ [Hs1 Hs2] _] Hkept].
  destruct Hids as [Hid Hids], Hseqs as [Hseq Hseqs].
  assert (0 <= size e) as Hse by apply line_size_nonneg.
  assert (0 <= sum (size <$> es)) as Hses by (apply sum_sizes_nonneg, line_size_nonneg).
  change (sum (size <$> e :: es)) with (size e + sum (size <$> es)) in *.
  cbn [fmap list_fmap recover_records]. unfold validate_event_for_recovery.
  fold size. fold size in Hs1, Hs2. rewrite Hvalid. cbn [negb orb].
  rewrite !(proj2 (Z.ltb_ge _ _)) by done. cbn [orb mbind res_bind].
  rewrite !(proj2 (Z.leb_gt _ _)) by done. cbn [orb].
  unfold checked_add_usize. rewrite (proj2 (Z.leb_le _ _)) by lia.
  edestruct IH as [future ->]; [..|exists future]; cbn; try done; try lia.
  rewrite <-!app_assoc, Z.add_assoc. done.
Qed.

Lemma foldl_max_le a ids x : a <= x → Forall (λ id, id <= x) ids → foldl Z.max a ids <= x.
Proof. intros Ha Hids. revert a Ha. induction Hids as [|id ids ? _ IH]; cbn; [done|]. intros. apply IH. lia. Qed.
Lemma foldl_max_ge a ids : a <= foldl Z.max a ids.
Proof. revert a. induction ids as [|id ids IH]; cbn; [lia|]. intros a. specialize (IH (Z.max a id)). lia. Qed.

Definition accepted_reserved (m : StoreMetadata) : Prop :=
  over_reserved (accepted_event_id m) (accepted_request_id m) (accepted_service_sequence m) m = false.

Lemma recovered_kept clock max_bytes m es :
  sum (line_size (store_generation_id m) <$> es) <= usize_max →
  events_kept max_bytes m es → accepted_reserved m →
  ∃ rv, recovered clock max_bytes m ((λ e, (e, line_size (store_generation_id m) e)) <$> es) = inr rv ∧
    rv_events rv = es ∧ rv_bytes rv = line_size (store_generation_id m) <$> es ∧
    rv_retained rv = sum (line_size (store_generation_id m) <$> es) ∧
    over_reserved (rv_event rv) (rv_request rv) (rv_sequence rv) m = false ∧
    accepted_event_id m <= rv_event rv ∧ accepted_request_id m <= rv_request rv ∧
    accepted_service_sequence m <= rv_sequence rv.
Proof.
  intros Hsum [Heach Hids Hseqs] Hacc. unfold recovered.
  edestruct recover_records_kept as [future ->]; [| |done..|]; [done|done|].
  cbn [mbind res_bind rv_event rv_request rv_sequence].
  assert (over_reserved (foldl Z.max (accepted_event_id m) (ev_event_id <$> es))
    (foldl Z.max (accepted_request_id m) (ev_request_id <$> es))
    (foldl Z.max (accepted_service_sequence m) (ev_service_sequence <$> es)) m = false) as Hover.
  { unfold accepted_reserved in Hacc. rewrite over_reserved_false in Hacc |- *. destruct Hacc as (? & ? & ?).
    assert (∀ e, e ∈ es → ev_event_id e <= reserved_event_id m ∧ ev_request_id e <= reserved_request_id m ∧
      ev_service_sequence e <= reserved_service_sequence m) as Hall.
    { intros e He. apply over_reserved_false. rewrite Forall_forall in Heach. apply (Heach e He). }
    split_and!; (apply foldl_max_le; [done|]); apply Forall_fmap, Forall_forall; intros e He;
      apply (Hall e He). }
  rewrite Hover. eexists. split; [done|]. cbn. rewrite Hover. split_and!; try done; apply foldl_max_ge.
Qed.
End reading.

(** ** The files a store leaves *)

Section order.
Context `{EventLayout} `{AuditCodecLaws}.
Implicit Types (dir : Path) (l : AuditLimits) (es : list SecurityAuditEvent) (fs : FileSys)
  (generation : string) (m : StoreMetadata) (s : StoreState).

(** The log holds the records of [es], and [tail] after the last newline. *)
Record log_has dir generation es (tail : string) fs : Prop := {
  lh_lines : ∃ lines, lines_for generation es = Some lines ∧
    default "" (fs !! log_key dir) = unlines lines +:+ tail;
  lh_tail : lacks newline tail = true;
}.

Lemma lines_for_app generation es es' lines lines' :
  lines_for generation es = Some lines → lines_for generation es' = Some lines' →
  lines_for generation (es ++ es') = Some (lines ++ lines')%list.
Proof.
  unfold lines_for. intros Hq1 Hq2. apply mapM_Some in Hq1, Hq2. apply mapM_Some.
  by apply Forall2_app.
Qed.
Lemma lines_for_drop generation es lines k :
  lines_for generation es = Some lines → lines_for generation (drop k es) = Some (drop k lines).
Proof.
  unfold lines_for. intros Hq1. apply mapM_Some in Hq1. apply mapM_Some. by apply Forall2_drop.
Qed.
Lemma lines_for_size generation es lines :
  lines_for generation es = Some lines → slen (unlines lines) = sum (line_size generation <$> es).
Proof.
  unfold lines_for. intros Hq1. apply mapM_Some in Hq1.
  induction Hq1 as [|e line es lines He _ IH]; [done|]. 
  change (sum (line_size generation <$> e :: es))
    with (line_size generation e + sum (line_size generation <$> es)).
  change (unlines (line :: lines)) with (line +:+ String newline (unlines lines)).
  unfold line_size at 1. rewrite He, <-IH. unfold slen. rewrite length_append.
  cbn [String.length]. lia.
Qed.
Lemma lines_for_lack generation es lines :
  lines_for generation es = Some lines → Forall (λ line, lacks newline line = true ∧ line ≠ "") lines.
Proof.
  unfold lines_for. intros Hq1. apply mapM_Some in Hq1.
  induction Hq1 as [|e line es lines He _ IH]; constructor; [|done]. by eapply json_of_record_line.
Qed.

Record metadata_good m : Prop := {
  mg_typed : metadata_typed m;
  mg_version : version m = METADATA_VERSION;
  mg_generation : generation_ok (store_generation_id m) = true;
  mg_accepted : accepted_reserved m;
}.

Lemma log_has_read dir es tail fs m max_bytes :
  log_has dir (store_generation_id m) es tail fs → metadata_good m → events_kept max_bytes m es →
  log_read (store_generation_id m) (default "" (fs !! log_key dir))
  = inr ((λ e, (e, line_size (store_generation_id m) e)) <$> es, filled tail).
Proof.
  intros [(lines & Hlines & ->) Ht] [[_ Hgen _ _] _ _ _] [Heach _ _].
  pose proof (lines_for_lack _ _ _ Hlines) as Hlack.
  assert (Forall (λ line, lacks newline line = true) lines) as Hlack' by (eapply Forall_impl; [exact Hlack|by intros ? []]).
  unfold log_read, log_entries. rewrite log_tail_unlines, ended_lines_unlines by done.
  assert (∀ x, mapM (read_line (store_generation_id m)) (filter (λ line, filled line) lines) = inr x →
    (λ records, (records, filled tail)) <$> mapM (read_line (store_generation_id m)) (filter (λ line, filled line) lines)
    = inr (x, filled tail)) as Hx by by intros x ->.
  apply Hx. clear Hx. unfold lines_for in Hlines. apply mapM_Some in Hlines.
  induction Hlines as [|e line es lines He _ IH]; [done|].
  apply Forall_cons in Heach as [[Hty _ _ _ _] Heach], Hlack as [[_ Hne] Hlack], Hlack' as [_ Hlack'].
  rewrite filter_cons_True by (unfold filled; destruct line; [done|exact I]).
  rewrite mapM_read_cons. rewrite IH by done. unfold read_line.
  rewrite (record_of_json_of _ _ He) by (done || by split). cbn. rewrite String.eqb_refl. cbn.
  by unfold line_size at 2; rewrite He.
Qed.

Definition stored_metadata dir fs : option StoreMetadata :=
  text ← fs !! metadata_key dir; metadata_of_json text.

(** What is on disk: metadata, and a log of the events [es] and of a part of a
    record whose write did not end. *)
Record disk_holds dir l generation es (tail : string) fs : Prop := {
  dh_metadata : ∃ m, stored_metadata dir fs = Some m ∧ metadata_good m ∧
    store_generation_id m = generation ∧ events_kept (max_bytes l) m es;
  dh_log : log_has dir generation es tail fs;
  dh_size : sum (line_size generation <$> es) + slen tail <= max_bytes l + SECURITY_AUDIT_MAX_EVENT_BYTES;
}.

Definition reserved_below m m' : Prop :=
  reserved_event_id m <= reserved_event_id m' ∧ reserved_request_id m <= reserved_request_id m' ∧
  reserved_service_sequence m <= reserved_service_sequence m'.

(** A store in order: its memory says what is on disk. *)
Record in_order dir l s fs : Prop := {
  od_disk : ∃ m, stored_metadata dir fs = Some m ∧ metadata_good m ∧
    store_generation_id m = store_generation_id (metadata s) ∧ reserved_below (metadata s) m;
  od_metadata : metadata_good (metadata s);
  od_log : log_has dir (store_generation_id (metadata s)) (events s) "" fs;
  od_kept : events_kept (max_bytes l) (metadata s) (events s);
  od_bytes : record_bytes s = line_size (store_generation_id (metadata s)) <$> events s;
  od_retained : retained_bytes s = sum (line_size (store_generation_id (metadata s)) <$> events s);
  od_within : Z.of_nat (length (events s)) <= max_events l ∧ retained_bytes s <= max_bytes l;
}.

(** The limits of the store as its types and [open] allow them. *)
Record limits_good l : Prop := {
  lg_positive : 0 < max_events l ∧ 0 < max_bytes l ∧ 0 < max_age l;
  lg_usize : max_bytes l + SECURITY_AUDIT_MAX_EVENT_BYTES <= usize_max;
}.

Lemma event_kept_below max_bytes m m' event :
  store_generation_id m' = store_generation_id m → reserved_below m m' →
  event_kept max_bytes m event → event_kept max_bytes m' event.
Proof.
  intros Hgen (Hq1 & Hq2 & Hq3) [? ? ? ? Hr]. rewrite over_reserved_false in Hr.
  split; rewrite ?Hgen; try done. apply over_reserved_false. lia.
Qed.
Lemma events_kept_below max_bytes m m' es :
  store_generation_id m' = store_generation_id m → reserved_below m m' →
  events_kept max_bytes m es → events_kept max_bytes m' es.
Proof.
  intros Hgen Hb [Heach ? ?]. split; [|done..].
  eapply Forall_impl; [exact Heach|]. intros. by eapply event_kept_below.
Qed.
Lemma reserved_below_refl m : reserved_below m m.
Proof. unfold reserved_below. lia. Qed.

Lemma in_order_disk dir l s fs :
  in_order dir l s fs →
  disk_holds dir l (store_generation_id (metadata s)) (events s) "" fs.
Proof.
  intros [(m & Hm & Hg & Hgen & Hb) _ Hlog Hkept _ Hret [_ Hw]]. split; [|done|].
  - exists m. split_and!; [done..|]. by eapply events_kept_below.
  - rewrite <-Hret. unfold slen, SECURITY_AUDIT_MAX_EVENT_BYTES. cbn. lia.
Qed.

Lemma stored_metadata_frame dir fs fs' :
  fs' !! metadata_key dir = fs !! metadata_key dir → stored_metadata dir fs' = stored_metadata dir fs.
Proof. unfold stored_metadata. by intros ->. Qed.
Lemma log_has_frame dir generation es tail fs fs' :
  fs' !! log_key dir = fs !! log_key dir → log_has dir generation es tail fs → log_has dir generation es tail fs'.
Proof. intros Heq [Hl Ht]. split; [|done]. by rewrite Heq. Qed.

Lemma stored_metadata_text dir fs m text :
  json_of_metadata m = Some text → metadata_typed m → fs !! metadata_key dir = Some (text +:+ newline_text) →
  stored_metadata dir fs = Some m.
Proof. intros Ht Hm Hk. unfold stored_metadata. rewrite Hk. by apply metadata_of_json_of. Qed.

Lemma unlines_snoc_line lines (text : string) :
  unlines (lines ++ [text]) = unlines lines +:+ (text +:+ newline_text).
Proof. rewrite unlines_app. by change (unlines [text]) with (text +:+ newline_text). Qed.

(** A part of a line and its newline is a line without one, or all of it. *)
Lemma line_part (text part rest : string) :
  lacks newline text = true → text +:+ newline_text = part +:+ rest →
  lacks newline part = true ∨ part = text +:+ newline_text.
Proof.
  intros Hl Heq. destruct rest as [|c rest _] using str_rev_ind.
  - right. by rewrite append_nil_r in Heq.
  - left. rewrite <-append_assoc in Heq. apply str_snoc_inj in Heq as [-> _].
    unfold lacks in *. rewrite all_chars_app in Hl. by apply andb_true_iff in Hl as [? _].
Qed.

Lemma sum_sizes_drop generation es k :
  sum (line_size generation <$> drop k es) <= sum (line_size generation <$> es).
Proof.
  rewrite <-(take_drop k es) at 2. rewrite fmap_app, sum_app.
  pose proof (sum_sizes_nonneg (line_size generation) (line_size_nonneg generation) (take k es)). lia.
Qed.

(** The metadata is the old or of a store that keeps the same events. *)
Lemma disk_metadata_replaced dir l generation es tail fs fs' m' :
  disk_holds dir l generation es tail fs → fs' !! log_key dir = fs !! log_key dir →
  stored_metadata dir fs' = stored_metadata dir fs ∨
  stored_metadata dir fs' = Some m' ∧ metadata_good m' ∧ store_generation_id m' = generation ∧
    events_kept (max_bytes l) m' es →
  disk_holds dir l generation es tail fs'.
Proof.
  intros [Hm Hlog Hsize] Hk Hst. split; [|by eapply log_has_frame|done].
  destruct Hst as [->|(? & ? & ? & ?)]; [done|by exists m'].
Qed.

(** The log is a later end of what it was. *)
Lemma disk_compacted dir l generation es tail fs fs' k :
  disk_holds dir l generation es tail fs → fs' !! metadata_key dir = fs !! metadata_key dir →
  log_has dir generation (drop k es) "" fs' →
  disk_holds dir l generation (drop k es) "" fs'.
Proof.
  intros [(m & Hm & Hg & Hgen & Hkept) _ Hsize] Hk Hlog. split; [|done|].
  - exists m. rewrite (stored_metadata_frame _ fs) by done. split_and!; [done..|by apply events_kept_drop].
  - pose proof (sum_sizes_drop generation es k). unfold slen in *. cbn. lia.
Qed.

(** After an append to the log of a store in order. *)
Lemma appended_disk dir l s e text fs r fs' :
  in_order dir l s fs → event_kept (max_bytes l) (metadata s) e →
  events_kept (max_bytes l) (metadata s) (events s ++ [e]) →
  json_of_record (record_of (store_generation_id (metadata s)) e) = Some text →
  line_appended dir (text +:+ newline_text) fs r fs' →
  (∃ tail, disk_holds dir l (store_generation_id (metadata s)) (events s) tail fs' ∧ r ≠ Some (inr tt)) ∨
  disk_holds dir l (store_generation_id (metadata s)) (events s ++ [e]) "" fs'.
Proof.
  intros Hord [_ _ _ Hsize _] Hkept Htext [Hframe (part & rest & Heq & Hlog & Hr)].
  pose proof (in_order_disk _ _ _ _ Hord) as [(m & Hm & Hg & Hgen & Hkm) [(lines & Hlines & Hbytes) _] _].
  destruct Hord as [(m2 & Hm2 & _ & _ & Hb) _ _ _ _ Hret [_ Hw]].
  rewrite Hm in Hm2. injection Hm2 as <-.
  assert (stored_metadata dir fs' = Some m) as Hm'.
  { rewrite <-Hm. apply stored_metadata_frame, Hframe. rewrite elem_of_cons, elem_of_nil.
    intros [Hx|[]]. by apply path_join_ne in Hx. }
  destruct (json_of_record_line _ _ Htext) as [Hlack _].
  assert (line_size (store_generation_id (metadata s)) e = slen (text +:+ newline_text)) as Hls.
  { unfold line_size. rewrite Htext. unfold slen. rewrite length_append. cbn. lia. }
  rewrite Hbytes, append_nil_r in Hlog. rewrite Hret in Hw.
  destruct (line_part _ _ _ Hlack Heq) as [Hpl| ->].
  - left. exists part. split.
    + split; [by exists m|split; [by exists lines|done]|].
      rewrite Hls, Heq in Hsize. unfold slen in *. rewrite length_append in Hsize. lia.
    + intros Hd. destruct (Hr Hd) as [-> _]. rewrite append_nil_r in Heq. subst part.
      unfold lacks in Hpl. rewrite all_chars_app in Hpl. apply andb_true_iff in Hpl as [_ [=]].
  - right. assert (lines_for (store_generation_id (metadata s)) [e] = Some [text]) as Hl1.
    { unfold lines_for. apply mapM_Some. by constructor. }
    split.
    + exists m. split_and!; [done..|]. by eapply events_kept_below.
    + split; [|done]. exists (lines ++ [text])%list. split; [by apply lines_for_app|].
      by rewrite Hlog, unlines_snoc_line, append_nil_r.
    + rewrite fmap_app, sum_app. cbn [fmap list_fmap]. change (sum [?x]) with (x + 0).
      unfold slen. cbn. lia.
Qed.

(** After the metadata has been replaced by that of a store that keeps the events. *)
Lemma disk_replace_post dir l m es fs :
  disk_holds dir l (store_generation_id m) es "" fs → metadata_good m → events_kept (max_bytes l) m es →
  sio_post (unavailable (replace_metadata dir m))
    (λ r fs', disk_holds dir l (store_generation_id m) es "" fs' ∧
       (r = Some (inr tt) → stored_metadata dir fs' = Some m)) fs.
Proof.
  intros Hdisk Hg Hkept. destruct (json_of_metadata_total m) as [text Htext].
  apply sio_post_map_err. eapply sio_post_mono; [by apply replace_metadata_post|].
  intros r fs' [Hframe Hat Hdone].
  assert (disk_holds dir l (store_generation_id m) es "" fs') as Hd'.
  { apply (disk_metadata_replaced _ _ _ _ _ fs _ m); [done| |].
    - apply Hframe. rewrite !elem_of_cons, elem_of_nil. intros [Hx|[Hx|[]]]; by apply path_join_ne in Hx.
    - destruct Hat as [Hat|Hat]; [left; by apply stored_metadata_frame|right].
      split_and!; [|done..]. eapply stored_metadata_text; [done|apply Hg|exact Hat]. }
  destruct r as [[er|[]]|]; split; try done. intros _.
  eapply stored_metadata_text; [done|apply Hg|by apply Hdone].
Qed.

(** What a store writes once it has accepted an event. *)
Lemma settle_post dir l s es k fs :
  disk_holds dir l (store_generation_id (metadata s)) es "" fs →
  metadata_good (metadata s) → events_kept (max_bytes l) (metadata s) es → events s = drop k es →
  sio_post (settle dir (length es) s)
    (λ r fs', (disk_holds dir l (store_generation_id (metadata s)) es "" fs' ∨
               disk_holds dir l (store_generation_id (metadata s)) (events s) "" fs') ∧
       (r = Some (inr tt) → disk_holds dir l (store_generation_id (metadata s)) (events s) "" fs' ∧
          stored_metadata dir fs' = Some (metadata s))) fs.
Proof.
  intros Hdisk Hg Hkept Hk.
  pose proof (events_kept_drop _ _ _ k Hkept) as Hkept'. rewrite <-Hk in Hkept'.
  unfold settle. destruct (Nat.eqb_spec (length (events s)) (length es)) as [Hlen|Hlen]; cbn [negb].
  - assert (events s = es) as Heq.
    { rewrite Hk in *. rewrite length_drop in Hlen. destruct k; [done|]. destruct es; [done|]. cbn in Hlen. lia. }
    apply ret_then. eapply sio_post_mono; [by apply (disk_replace_post dir l (metadata s) es)|].
    intros r fs' [Hd' Hst]. rewrite Heq. split; [by left|]. eauto.
  - destruct Hdisk as [Hdm [(lines & Hlines & Hbytes) Ht] Hsize].
    pose proof (lines_for_drop _ _ _ k Hlines) as Hl2. rewrite <-Hk in Hl2.
    apply sres_post_bind. eapply sio_post_mono; [by apply compact_post|].
    intros r fs1 [Hframe Hat Hdone].
    assert (fs1 !! metadata_key dir = fs !! metadata_key dir) as Hmk.
    { apply Hframe. rewrite !elem_of_cons, elem_of_nil. intros [Hx|[Hx|[]]]; by apply path_join_ne in Hx. }
    assert (disk_holds dir l (store_generation_id (metadata s)) es "" fs) as Hdisk
      by (split; [done|split; [by exists lines|done]|done]).
    assert (fs1 !! log_key dir = Some (unlines (drop k lines)) →
      disk_holds dir l (store_generation_id (metadata s)) (events s) "" fs1) as Hnew.
    { intros Hlog. rewrite Hk. eapply disk_compacted; [exact Hdisk|done|]. split; [|done].
      exists (drop k lines). rewrite <-Hk. split; [done|]. change (fs1 !! log_key dir) with (fs1 !! log_key dir) in *.
      rewrite Hlog. by rewrite append_nil_r. }
    assert (disk_holds dir l (store_generation_id (metadata s)) es "" fs1 ∨
      disk_holds dir l (store_generation_id (metadata s)) (events s) "" fs1) as Hboth.
    { destruct Hat as [Hat|Hat]; [left|right; by apply Hnew].
      apply (disk_metadata_replaced _ _ _ _ _ fs _ (metadata s)); [done..|].
      left. by apply stored_metadata_frame. }
    destruct r as [[er|[]]|]; [by split| |by split].
    eapply sio_post_mono; [apply (disk_replace_post dir l (metadata s) (events s)); [by apply Hnew, Hdone|done..]|].
    intros r fs' [Hd' Hst]. split; [by right|]. eauto.
Qed.

(** *** Appending an event *)

(** The events a store keeps of [es] at a time. *)
Definition kept_at l generation (now : Z) es : list SecurityAuditEvent :=
  pruned l (checked_sub_time now (max_age l)) (line_size generation) es.

Lemma kept_at_suffix l generation now es : ∃ k, kept_at l generation now es = drop k es.
Proof. apply pruned_suffix. Qed.
Lemma prune_retention_kept l now s :
  limits_good l → record_bytes s = line_size (store_generation_id (metadata s)) <$> events s →
  retained_bytes s = sum (line_size (store_generation_id (metadata s)) <$> events s) →
  prune_retention l now s =
    let es := kept_at l (store_generation_id (metadata s)) now (events s) in
    Some (set_kept es (line_size (store_generation_id (metadata s)) <$> es)
            (sum (line_size (store_generation_id (metadata s)) <$> es)) s).
Proof.
  intros [(? & ? & _) _] Hb Hr. unfold prune_retention. rewrite Hb, Hr.
  rewrite prune_loop_pruned; [done|apply line_size_nonneg|lia|lia].
Qed.

Lemma accept_good e bytes s :
  metadata_good (metadata s) → event_typed e →
  over_reserved (ev_event_id e) (ev_request_id e) (ev_service_sequence e) (metadata s) = false →
  metadata_good (metadata (accept e bytes s)).
Proof.
  intros [[? ? ? (? & ? & ?)] ? ? Ha] [_ (? & ? & ?) _ _] Ho. split; [split|..]; try done; cbn.
  - unfold in_u64 in *. lia.
  - unfold accepted_reserved in *. rewrite over_reserved_false in Ha, Ho |- *. cbn. lia.
Qed.

(** What is on disk after an append: the events that were there, those and the new
    one, or what is kept of these, which is so if the append reports success. *)
Record append_outcome dir l now' e s (r : option (res SecurityAuditSinkError unit * StoreState)) fs : Prop := {
  ao_disk : ∃ kept tail, disk_holds dir l (store_generation_id (metadata s)) kept tail fs ∧
    (kept = events s ∨ kept = (events s ++ [e])%list ∨
     kept = kept_at l (store_generation_id (metadata s)) now' (events s ++ [e]));
  ao_done : ∀ s', r = Some (inr tt, s') →
    in_order dir l s' fs ∧ degraded s' = false ∧
    store_generation_id (metadata s') = store_generation_id (metadata s) ∧
    events s' = kept_at l (store_generation_id (metadata s)) now' (events s ++ [e]);
}.

Lemma store_append_post dir l now now' e s fs :
  limits_good l → in_order dir l s fs → event_typed e →
  increasing 0 (ev_event_id <$> (events s ++ [e])) →
  increasing 0 (ev_service_sequence <$> (events s ++ [e])) →
  sio_post (store_append dir l now now' e s) (append_outcome dir l now' e s) fs.
Proof.
  intros Hl Hord Hty Hids Hseqs. set (generation := store_generation_id (metadata s)).
  assert (∀ r (x : SecurityAuditSinkError) s', r = Some (inl x, s') ∨ r = None → append_outcome dir l now' e s r fs) as Hsame.
  { intros r x s' Hr. split; [|naive_solver]. exists (events s), ""%string. split; [by apply in_order_disk|by left]. }
  unfold store_append, refuse_op. destruct (validate_event_for_append now e) eqn:Hv; cbn [negb];
    [|apply sio_post_ret; eapply Hsame; by left].
  apply andb_true_iff in Hv as [Hv _].
  destruct (json_of_record _) as [text|] eqn:Htext; [|apply sio_post_ret; eapply Hsame; by left].
  destruct (_ || _) eqn:Hsz; [apply sio_post_ret; eapply Hsame; by left|].
  apply orb_false_iff in Hsz as [Hsz1 Hsz2]. rewrite Z.ltb_ge in Hsz1, Hsz2.
  destruct (over_reserved _ _ _ _) eqn:Hover; [apply sio_post_ret; eapply Hsame; by left|].
  assert (line_size generation e = slen (text +:+ newline_text)) as Hls.
  { unfold line_size, generation. rewrite Htext. unfold slen. rewrite length_append. cbn. lia. }
  pose proof Hord as [_ Hg _ [Heach _ _] Hb Hr _].
  assert (event_kept (max_bytes l) (metadata s) e) as Hek.
  { split; try done. fold generation. rewrite Hls. done. }
  assert (events_kept (max_bytes l) (metadata s) (events s ++ [e])) as Hkept
    by (split; [by apply Forall_app_2; [|constructor]|done..]).
  apply sio_post_bind. eapply sio_post_mono; [apply append_line_post|].
  intros r fs1 Hla. pose proof (appended_disk _ _ _ _ _ _ _ _ Hord Hek Hkept Htext Hla) as Hd.
  assert (∀ r', (∀ s', r' ≠ Some (inr tt, s')) → append_outcome dir l now' e s r' fs1) as Hnot.
  { intros r' Hr'. split; [|by intros s' Hs'%Hr'].
    destruct Hd as [(tail & Hd & _)|Hd]; eexists _, _; (split; [exact Hd|]); auto. }
  destruct r as [[x|[]]|]; [by apply sio_post_ret, Hnot| |by apply Hnot].
  destruct Hd as [(tail & _ & [])|Hd]; [done|]. clear Hnot.
  set (s1 := accept e (slen (text +:+ newline_text)) s).
  assert (record_bytes s1 = line_size generation <$> events s1) as Hb1.
  { unfold s1. cbn. rewrite fmap_app, Hb, <-Hls. done. }
  assert (retained_bytes s1 = sum (line_size generation <$> events s1)) as Hr1.
  { unfold s1. cbn. rewrite fmap_app, sum_app, Hr, <-Hls. unfold generation. cbn. lia. }
  rewrite (prune_retention_kept l now' s1) by done. cbv zeta.
  change (store_generation_id (metadata s1)) with generation.
  change (events s1) with (events s ++ [e])%list.
  set (es := kept_at l generation now' (events s ++ [e])). set (s2 := set_kept _ _ _ s1).
  apply sio_post_bind, sio_post_answered. apply sio_post_bind.
  destruct (kept_at_suffix l generation now' (events s ++ [e])) as [k Hk].
  assert (metadata_good (metadata s1)) as Hg1 by (by apply accept_good).
  eapply sio_post_mono.
  { apply (settle_post dir l s2 (events s ++ [e]) k fs1); [exact Hd|exact Hg1| |exact Hk].
    eapply events_kept_below; [| |exact Hkept]; [done|]. unfold reserved_below. cbn. lia. }
  intros r fs' [Hdisk Hdone]. change (events s2) with es in Hdisk, Hdone.
  assert (∃ kept tail, disk_holds dir l generation kept tail fs' ∧
    (kept = events s ∨ kept = (events s ++ [e])%list ∨ kept = es)) as Hfinal.
  { destruct Hdisk as [Hdisk|Hdisk]; eexists _, _; (split; [exact Hdisk|]); auto. }
  destruct r as [[x|[]]|]; [apply sio_post_ret; by split| |by split].
  apply sio_post_ret. split; [done|]. intros s' [= <-]. destruct (Hdone eq_refl) as [Hd' Hm'].
  split_and!; try done. split; cbn; try done.
  - exists (metadata s2). split_and!; first [done|apply reserved_below_refl].
  - apply Hd'.
  - unfold es. rewrite Hk. apply events_kept_drop. eapply events_kept_below; [| |exact Hkept]; [done|].
    unfold reserved_below. cbn. lia.
  - apply pruned_within. destruct Hl as [(? & ? & ?) ?]. lia.
Qed.

(** *** Opening *)

(** The files after the store has been read: as they were, or with the log
    replaced by what is kept. *)
Definition disk_reread dir l generation es (tail : string) (now : Z) fs : Prop :=
  disk_holds dir l generation es tail fs ∨
  disk_holds dir l generation (kept_at l generation now es) "" fs.

Lemma disk_compaction_frame dir l generation es tail fs fs' :
  only_changed [compaction_key dir] fs fs' →
  disk_holds dir l generation es tail fs → disk_holds dir l generation es tail fs'.
Proof.
  intros Hframe Hd. pose proof Hd as [(m & Hm & _) _ _].
  assert (∀ n, n ≠ "."%string → n ≠ COMPACTION_FILE →
    fs' !! file_key (path_join dir n) = fs !! file_key (path_join dir n)) as Hf.
  { intros n Hn Hne. apply Hframe. rewrite elem_of_cons, elem_of_nil.
    intros [Hx|[]]. by apply path_join_ne in Hx. }
  apply (disk_metadata_replaced _ _ _ _ _ fs _ m); [done|by apply Hf|].
  left. by apply stored_metadata_frame, Hf.
Qed.

(** The log is replaced by a later end of it. *)
Lemma disk_compact_post dir l m es tail k fs :
  disk_holds dir l (store_generation_id m) es tail fs →
  sio_post (compact dir m (drop k es))
    (λ r fs', (disk_holds dir l (store_generation_id m) es tail fs' ∨
               disk_holds dir l (store_generation_id m) (drop k es) "" fs') ∧
       stored_metadata dir fs' = stored_metadata dir fs ∧
       (r = Some (inr tt) → disk_holds dir l (store_generation_id m) (drop k es) "" fs')) fs.
Proof.
  intros Hdisk. pose proof Hdisk as [(md & _) [(lines & Hlines & Hbytes) _] _].
  pose proof (lines_for_drop _ _ _ k Hlines) as Hl2.
  eapply sio_post_mono; [by apply compact_post|].
  intros r fs1 [Hframe Hat Hdone].
  assert (fs1 !! metadata_key dir = fs !! metadata_key dir) as Hmk.
  { apply Hframe. rewrite !elem_of_cons, elem_of_nil. intros [Hx|[Hx|[]]]; by apply path_join_ne in Hx. }
  assert (fs1 !! log_key dir = Some (unlines (drop k lines)) →
    disk_holds dir l (store_generation_id m) (drop k es) "" fs1) as Hnew.
  { intros Hlog. eapply disk_compacted; [exact Hdisk|done|]. split; [|done].
    exists (drop k lines). split; [done|]. rewrite Hlog. by rewrite append_nil_r. }
  split_and!; [|by apply stored_metadata_frame|intros Hr; by apply Hnew, Hdone].
  destruct Hat as [Hat|Hat]; [left|right; by apply Hnew].
  apply (disk_metadata_replaced _ _ _ _ _ fs _ md); [done..|]. left. by apply stored_metadata_frame.
Qed.

Lemma opened_metadata_post dir random fs m :
  stored_metadata dir fs = Some m →
  sio_post (opened_metadata random dir)
    (λ r fs', fs' = fs ∧ ∀ x, r = Some (inr x) → x = (m, StoreReopened)) fs.
Proof.
  intros Hm. unfold stored_metadata in Hm. apply bind_Some in Hm as (text & Htext & Hm).
  quiet; [by intros..|intros existed]. destruct existed.
  - apply sres_post_bind. apply sres_post_bind, sio_post_map_err, sio_post_call, io_post_call; [|done].
    fold (metadata_key dir). rewrite Htext, Hm. apply sio_post_ret, sio_post_ret. split; [done|]. by intros x [= <-].
  - destruct (random_generation_id random) as [e|generation]; [by apply sio_post_ret|].
    refine (ret_then generation _ _ _ _).
    destruct (json_of_metadata_total (new_metadata generation)) as [new Hnew].
    apply sres_post_bind. eapply sio_post_mono; [by apply write_new_metadata_post|].
    intros r fs' [Hframe [[Hsame Hr]|[Hnone _]]]; [|congruence].
    assert (fs' = fs) as ->.
    { apply map_eq. intros k. destruct (decide (k = metadata_key dir)) as [->|Hk]; [done|].
      apply Hframe. rewrite elem_of_cons, elem_of_nil. naive_solver. }
    by destruct r as [[e|[]]|].
Qed.

Lemma filled_empty (tail : string) : filled tail = false → tail = ""%string.
Proof. unfold filled. by destruct tail. Qed.

(** What the metadata and the log of such a disk are read as. *)
Lemma recovered_state dir l m es tail fs clock records torn rv now next b :
  limits_good l → disk_holds dir l (store_generation_id m) es tail fs →
  stored_metadata dir fs = Some m →
  log_read (store_generation_id m) (default "" (fs !! log_key dir)) = inr (records, torn) →
  recovered clock (max_bytes l) m records = inr rv →
  ∃ s, prune_retention l now (state_of m rv b next) = Some s ∧
  length records = length es ∧ torn = filled tail ∧
  events s = kept_at l (store_generation_id m) now es ∧ metadata s = m ∧ degraded s = b ∧
  (next_event_id s, next_request_id s, next_service_sequence s) = next ∧
  record_bytes s = line_size (store_generation_id m) <$> events s ∧
  retained_bytes s = sum (line_size (store_generation_id m) <$> events s) ∧
  over_reserved (rv_event rv) (rv_request rv) (rv_sequence rv) m = false ∧
  accepted_event_id m <= rv_event rv ∧ accepted_request_id m <= rv_request rv ∧
  accepted_service_sequence m <= rv_sequence rv ∧
  (needs_compaction torn rv s = false → tail = "" ∧ kept_at l (store_generation_id m) now es = es).
Proof.
  intros Hl [(m2 & Hm2 & Hg & _ & Hkept) Hlog Hsize] Hm Hread Hrv.
  rewrite Hm in Hm2. injection Hm2 as <-.
  rewrite (log_has_read _ _ _ _ _ _ Hlog Hg Hkept) in Hread. injection Hread as <- <-.
  destruct (recovered_kept clock (max_bytes l) m es) as (rv' & Hrv' & He & Hb & Hr & Ho & Ha1 & Ha2 & Ha3);
    [|done|apply Hg|].
  { destruct Hl as [_ Hl]. unfold slen in Hsize. lia. }
  rewrite Hrv in Hrv'. injection Hrv' as <-.
  rewrite (prune_retention_kept _ _ _ Hl) by (cbn [state_of metadata events record_bytes retained_bytes]; by rewrite He). eexists. split; [done|]. cbn.
  rewrite He. split_and!; try done; [by rewrite length_fmap|by destruct next as [[] ?]|].
  unfold needs_compaction. cbn. rewrite He, !orb_false_iff, negb_false_iff. intros [[Ht Hlen%Nat.eqb_eq] _].
  split; [by apply filled_empty|].
  change (length es = length (kept_at l (store_generation_id m) now es)) in Hlen.
  destruct (kept_at_suffix l (store_generation_id m) now es) as [k Hk]. rewrite Hk in *.
  rewrite length_drop in Hlen. destruct k; [done|]. destruct es; [done|]. cbn in Hlen. lia.
Qed.

Record opened_outcome dir l generation es tail now
    (r : option (res SecurityAuditStoreOpenError DurableSecurityAuditStore)) fs : Prop := {
  oo_disk : disk_reread dir l generation es tail now fs;
  oo_done : ∀ store, r = Some (inr store) →
    in_order dir l (state store) fs ∧ events (state store) = kept_at l generation now es ∧
    store_generation_id (metadata (state store)) = generation ∧
    audit_dir store = dir ∧ limits store = l ∧ degraded (state store) = false ∧
    open_state (recovery store) = StoreReopened ∧ ignored_torn_final_record (recovery store) = filled tail;
}.

Lemma open_owned_post existed random clock dir l generation es tail fs :
  limits_good l → disk_holds dir l generation es tail fs →
  sio_post (open_owned existed random clock dir l)
    (opened_outcome dir l generation es tail (clock (length es))) fs.
Proof.
  intros Hl Hdisk. pose proof Hdisk as [(m & Hm & Hg & <- & Hkept) _ _].
  set (now := clock (length es)).
  assert (∀ r, (∀ store, r ≠ Some (inr store)) →
    opened_outcome dir l (store_generation_id m) es tail now r fs) as Hsame.
  { intros r Hr. split; [by left|]. by intros store Hs%Hr. }
  apply sres_post_bind. eapply (sio_post_mono _ (λ _ fs', fs' = fs)).
  { destruct existed; [by apply sio_post_ret|].
    quiet; [done..|intros _]. by apply quiet_unavailable; [apply quiet_sync_dir|]. }
  intros [[e|[]]|] ? ->; [by apply Hsame| |by apply Hsame].
  apply sres_post_bind. eapply sio_post_mono; [by apply opened_metadata_post|].
  intros [[e|[m' st]]|] ? [-> Hx]; [by apply Hsame| |by apply Hsame].
  injection (Hx _ eq_refl) as -> ->. clear Hx.
  unfold ensure. rewrite (mg_version _ Hg), (mg_generation _ Hg). apply ret_then, ret_then.
  apply sres_post_bind. eapply sio_post_mono; [apply read_records_post|].
  intros [[e|[records torn]]|] ? [-> Hread]; [by apply Hsame| |by apply Hsame].
  specialize (Hread _ eq_refl).
  destruct (recovered clock (max_bytes l) m records) as [e|rv] eqn:Hrv; [by apply sio_post_ret, Hsame|].
  refine (ret_then rv _ _ _ _).
  destruct (next_reserved m) as [e|next] eqn:Hnext; [by apply sio_post_ret, Hsame|].
  refine (ret_then next _ _ _ _).
  destruct (recovered_state dir l m es tail fs clock records torn rv (clock (length records)) next false
    Hl Hdisk Hm Hread Hrv) as (s & -> & Hlen & -> & Hes & Hms & Hds & _ & Hb & Hr & _ & _ & _ & _ & Hneed).
  rewrite Hlen in *. fold now in Hes, Hneed.
  apply sres_post_bind, sio_post_answered.
  destruct (kept_at_suffix l (store_generation_id m) now es) as [k Hk].
  assert (∀ fs', disk_holds dir l (store_generation_id m) (events s) "" fs' →
    stored_metadata dir fs' = Some m → in_order dir l s fs') as Hord.
  { intros fs' Hd' Hm'. split; rewrite ?Hms; try done.
    - exists m. split_and!; first [done|apply reserved_below_refl].
    - apply Hd'.
    - rewrite Hes, Hk. by apply events_kept_drop.
    - rewrite Hr, Hes. apply pruned_within. destruct Hl as [(? & ? & ?) ?]. lia. }
  apply sres_post_bind. eapply (sio_post_mono _ (λ r fs', only_changed [compaction_key dir] fs fs' ∧ ∀ e, r ≠ Some (inl e))).
  { apply sio_post_bind, sio_post_call, io_post_call; [|by intros; split; [apply sio_post_ret|]].
    fold (compaction_key dir). destruct (fs !! compaction_key dir); apply sio_post_ret; split; try done.
    intros k' Hk'. apply lookup_delete_ne. intros <-. apply Hk'. by left. }
  intros r fs1 [Hframe Hno].
  pose proof (disk_compaction_frame _ _ _ _ _ _ _ Hframe Hdisk) as Hd1.
  assert (stored_metadata dir fs1 = Some m) as Hm1.
  { rewrite <-Hm. apply stored_metadata_frame, Hframe. rewrite elem_of_cons, elem_of_nil.
    intros [Hx|[]]. by apply path_join_ne in Hx. }
  destruct r as [[e|[]]|]; [by destruct (Hno e)| |by split; [left|]].
  assert (∀ fs', in_order dir l s fs' →
    disk_reread dir l (store_generation_id m) es tail now fs' →
    opened_outcome dir l (store_generation_id m) es tail now (Some (inr {| audit_dir := dir; limits := l; state := s;
      recovery := {| open_state := StoreReopened; rc_store_generation_id := store_generation_id m;
        retained_records := Z.of_nat (length (events s)); ignored_torn_final_record := filled tail;
        rc_next_event_id := reserved_event_id m + 1; rc_next_request_id := reserved_request_id m + 1;
        rc_next_service_sequence := reserved_service_sequence m + 1;
        rc_future_dated_records := rv_future rv |} |})) fs') as Hdone.
  { intros fs' Ho Hd. split; [done|]. intros store [= <-]. cbn. rewrite Hms. done. }
  destruct (needs_compaction (filled tail) rv s) eqn:Hn.
  - unfold compact_if_pruned.
    assert ((length (events s) =? length (record_bytes s))%nat = true) as ->
      by (rewrite Hb, length_fmap; apply Nat.eqb_refl).
    replace (compact dir (metadata s) (events s)) with (compact dir m (drop k es)) by congruence.
    apply sres_post_bind. eapply sio_post_mono; [by apply disk_compact_post|].
    intros r fs2 (Hd2 & Hm2 & Hr2). rewrite <-Hk in Hd2, Hr2.
    destruct r as [[e|[]]|]; [by split; [exact Hd2|]|apply sio_post_ret|by split; [exact Hd2|]].
    apply Hdone; [|exact Hd2]. apply Hord; [by rewrite Hes; apply Hr2|congruence].
  - destruct (Hneed eq_refl) as [-> Hall]. apply ret_then, sio_post_ret. apply Hdone; [|by left].
    apply Hord; [by rewrite Hes, Hall|done].
Qed.

(** *** Recovery *)

Record recovery_outcome dir l es (tail : string) now s
    (r : option (res SecurityAuditSinkError SecurityAuditSinkHealth * StoreState)) fs : Prop := {
  ro_disk : disk_reread dir l (store_generation_id (metadata s)) es tail now fs;
  ro_done : ∀ x s', r = Some (x, s') →
    x = inl SinkUnavailable ∧ s' = mark_degraded true s ∨
    x = inr SinkHealthy ∧ in_order dir l s' fs ∧ degraded s' = false ∧
      store_generation_id (metadata s') = store_generation_id (metadata s) ∧
      events s' = kept_at l (store_generation_id (metadata s)) now es;
}.

Lemma with_accepted_good m event request sequence :
  metadata_good m → over_reserved event request sequence m = false →
  accepted_event_id m <= event → accepted_request_id m <= request →
  accepted_service_sequence m <= sequence →
  metadata_good (with_accepted event request sequence m).
Proof.
  intros [[? ? (? & ? & ?) (? & ? & ?)] ? ? _] Ho ? ? ?. pose proof Ho as Hle.
  rewrite over_reserved_false in Hle. split; [split|..]; try done; cbn; unfold in_u64 in *; lia.
Qed.

Lemma resync_post dir s (Q : option (res SecurityAuditStoreOpenError unit) → FileSys → Prop) fs :
  (∀ r, Q r fs) → sio_post (resync dir s) Q fs.
Proof.
  intros HQ. apply sio_post_bind, sio_post_call, io_post_call; [|by intros; split; [apply sio_post_ret|]].
  destruct (fs !! _); [|destruct (events s); by apply sio_post_ret].
  apply quiet_unavailable; [|done]. apply quiet_res_bind; [apply quiet_check|intros; apply quiet_sync_all].
Qed.

(** The log is brought in line with what is kept. *)
Lemma realigned_post dir l m es tail now rv s fs :
  disk_holds dir l (store_generation_id m) es tail fs → metadata s = m →
  events s = kept_at l (store_generation_id m) now es →
  (needs_compaction (filled tail) rv s = false → tail = "" ∧ kept_at l (store_generation_id m) now es = es) →
  sio_post (if needs_compaction (filled tail) rv s then compact dir (metadata s) (events s) else resync dir s)
    (λ r fs', disk_reread dir l (store_generation_id m) es tail now fs' ∧
       stored_metadata dir fs' = stored_metadata dir fs ∧
       (r = Some (inr tt) →
          disk_holds dir l (store_generation_id m) (kept_at l (store_generation_id m) now es) "" fs')) fs.
Proof.
  intros Hdisk Hms Hes Hneed. unfold disk_reread. rewrite Hms, Hes.
  destruct (kept_at_suffix l (store_generation_id m) now es) as [k Hk].
  destruct (needs_compaction (filled tail) rv s).
  - rewrite Hk. by apply disk_compact_post.
  - destruct (Hneed eq_refl) as [-> Hall]. rewrite Hall. apply resync_post. auto.
Qed.

Lemma probe_post dir l clock es tail s fs :
  limits_good l → disk_holds dir l (store_generation_id (metadata s)) es tail fs →
  sio_post (probe dir l clock s)
    (λ r fs', disk_reread dir l (store_generation_id (metadata s)) es tail (clock (length es)) fs' ∧
       ∀ s', r = Some (inr s') → in_order dir l s' fs' ∧ degraded s' = false ∧
         store_generation_id (metadata s') = store_generation_id (metadata s) ∧
         events s' = kept_at l (store_generation_id (metadata s)) (clock (length es)) es) fs.
Proof.
  intros Hl Hdisk. pose proof Hdisk as [(m & Hm & Hg & Hgen & Hkept) _ _].
  set (now := clock (length es)). rewrite <-Hgen in *. set (good := λ r fs', _ ∧ _).
  assert (∀ r fs', disk_reread dir l (store_generation_id m) es tail now fs' →
    (∀ s', r ≠ Some (inr s')) → good r fs') as Hbad by (intros r fs' ? Hr; split; [done|by intros s' Hs%Hr]).
  assert (∀ r, (∀ s', r ≠ Some (inr s')) → good r fs) as Hsame by (intros r; apply Hbad; by left).
  pose proof Hm as (text & Htext & Htm)%bind_Some.
  unfold probe, read_metadata. apply sres_post_bind, sres_post_bind, sio_post_map_err, sio_post_call, io_post_call;
    [|by intros _; split; apply Hsame].
  fold (metadata_key dir). rewrite Htext, Htm. apply sio_post_ret.
  unfold ensure. destruct (_ && _); [apply ret_then|by apply sio_post_ret, Hsame].
  destruct (next_reserved m) as [e|next] eqn:Hnext; [by apply sio_post_ret, Hsame|].
  refine (ret_then next _ _ _ _).
  apply sres_post_bind. eapply sio_post_mono; [apply read_records_post|].
  intros [[e|[records torn]]|] ? [-> Hread]; [by apply Hsame| |by apply Hsame].
  specialize (Hread _ eq_refl).
  destruct (recovered clock (max_bytes l) m records) as [e|rv] eqn:Hrv; [by apply sio_post_ret, Hsame|].
  refine (ret_then rv _ _ _ _). set (next' := (_, _, _)).
  destruct (recovered_state dir l m es tail fs clock records torn rv (clock (length records)) next' true
    Hl Hdisk Hm Hread Hrv) as (s1 & -> & Hlen & -> & Hes & Hms & _ & _ & Hb & Hr & Ho & Ha1 & Ha2 & Ha3 & Hneed).
  rewrite Hlen in *. fold now in Hes, Hneed.
  apply sres_post_bind, sio_post_answered.
  apply sres_post_bind. eapply sio_post_mono; [by apply (realigned_post dir l m es tail now)|].
  intros r fs1 (Hd1 & Hm1 & Hr1). destruct r as [[e|[]]|]; [by apply Hbad| |by apply Hbad].
  specialize (Hr1 eq_refl). clear Hsame Hd1. rewrite <-Hes in Hr1.
  set (m' := with_accepted _ _ _ m).
  assert (metadata_good m') as Hg' by by apply with_accepted_good.
  assert (events_kept (max_bytes l) m' (events s1)) as Hkept'.
  { rewrite Hes. destruct (kept_at_suffix l (store_generation_id m) now es) as [k ->].
    apply events_kept_drop. eapply events_kept_below; [| |exact Hkept]; [done|]. unfold reserved_below. cbn. lia. }
  apply sres_post_bind. eapply sio_post_mono; [by apply (disk_replace_post dir l m' (events s1))|].
  intros r fs2 [Hd2 Hm2]. change (store_generation_id m') with (store_generation_id m) in Hd2.
  assert (∀ r, (∀ s', r ≠ Some (inr s')) → good r fs2) as Hsame.
  { intros r' Hr'. apply Hbad; [|done]. right. by rewrite <-Hes. }
  destruct r as [[e|[]]|]; [by apply Hsame| |by apply Hsame].
  do 2 (quiet; [by intros; apply Hsame..|intros _]).
  apply sio_post_ret. split; [right; by rewrite <-Hes|]. intros s' [= <-]. cbn. split_and!; try done.
  split; cbn; try done.
  - exists m'. split_and!; first [by apply Hm2|done|apply reserved_below_refl].
  - apply Hd2.
  - rewrite Hr, Hes. apply pruned_within. destruct Hl as [(? & ? & ?) ?]. lia.
Qed.

Lemma store_try_recover_post dir l clock es tail s fs :
  limits_good l → disk_holds dir l (store_generation_id (metadata s)) es tail fs →
  sio_post (store_try_recover dir l clock s) (recovery_outcome dir l es tail (clock (length es)) s) fs.
Proof.
  intros Hl Hdisk. apply sio_post_bind. eapply sio_post_mono; [by apply probe_post|].
  intros [[e|s']|] fs' [Hd Hdone]; [apply sio_post_ret| apply sio_post_ret|by split].
  - split; [done|]. intros x s' [= <- <-]. by left.
  - split; [done|]. intros x s'' [= <- <-]. right. by destruct (Hdone s' eq_refl) as (? & ? & ? & ?).
Qed.
End order.

(** ** With no failure *)

(** No injected failure. *)
Definition calm (st : AuditStoreIoStats) : AuditStoreInstrumentation :=
  {| fail_next := None; io_stats := st |}.
Definition succeeds {A} (m : sio A) (Q : A → FileSys → Prop) (fs : FileSys) : Prop :=
  ∀ st, ∃ a st' fs', m (calm st) [] fs = (Some a, (calm st', [], fs')) ∧ Q a fs'.

Section successes.
Implicit Types (fs : FileSys).

Lemma succeeds_ret {A} (a : A) (Q : A → FileSys → Prop) fs : Q a fs → succeeds (mret (M:=sio) a) Q fs.
Proof. intros HQ st. by exists a, st, fs. Qed.
Lemma succeeds_bind {A B} (m : sio A) (f : A → sio B) (Q : B → FileSys → Prop) fs :
  succeeds m (λ a fs, succeeds (f a) Q fs) fs → succeeds (mbind (M:=sio) f m) Q fs.
Proof.
  intros Hm st. destruct (Hm st) as (a & st1 & fs1 & Hrun & Hf). destruct (Hf st1) as (b & st2 & fs2 & Hrun2 & HQ).
  exists b, st2, fs2. unfold mbind, sio_bind. by rewrite Hrun.
Qed.
Lemma succeeds_res {E A B} (m : sres E A) (f : A → sres E B) (Q : res E B → FileSys → Prop) fs :
  succeeds m (λ r fs, ∃ a, r = inr a ∧ succeeds (f a) Q fs) fs → succeeds (mbind (M:=sres E) f m) Q fs.
Proof.
  intros Hm. refine (succeeds_bind m _ Q fs _). intros st.
  destruct (Hm st) as (a & st1 & fs1 & Hrun & a' & -> & Hf). exists (inr a'), st1, fs1. by split.
Qed.
Lemma succeeds_mono {A} (m : sio A) (P Q : A → FileSys → Prop) fs :
  succeeds m P fs → (∀ a fs', P a fs' → Q a fs') → succeeds m Q fs.
Proof. intros Hm HQ st. destruct (Hm st) as (a & st1 & fs1 & ? & ?). exists a, st1, fs1. auto. Qed.
Lemma succeeds_post {A} (m : sio A) (P : option A → FileSys → Prop) (Q : A → FileSys → Prop) fs :
  sio_post m P fs → succeeds m Q fs → succeeds m (λ a fs', P (Some a) fs' ∧ Q a fs') fs.
Proof.
  intros Hp Hm st. destruct (Hm st) as (a & st1 & fs1 & Hrun & HQ). exists a, st1, fs1. split; [done|].
  split; [|done]. by apply (sio_post_run _ _ _ _ _ _ _ _ _ Hp Hrun).
Qed.
Lemma succeeds_map_err {E E' A} (f : E → E') (m : sres E A) (Q : res E' A → FileSys → Prop) fs :
  succeeds m (λ r fs, ∃ a, r = inr a ∧ Q (inr a) fs) fs → succeeds (map_err f m) Q fs.
Proof.
  intros Hm. refine (succeeds_bind m _ Q fs _). eapply succeeds_mono; [exact Hm|].
  intros r fs' (a & -> & HQ). by apply succeeds_ret.
Qed.
Lemma succeeds_call {A} (m : io A) a fs' (Q : res io_error A → FileSys → Prop) fs :
  m [] fs = (Done a, [], fs') → Q (inr a) fs' → succeeds (call m) Q fs.
Proof. intros Hm HQ st. exists (inr a), st, fs'. unfold call. by rewrite Hm. Qed.
Lemma succeeds_call_failed {A} (m : io A) e fs' (Q : res io_error A → FileSys → Prop) fs :
  m [] fs = (Failed e, [], fs') → Q (inl e) fs' → succeeds (call m) Q fs.
Proof. intros Hm HQ st. exists (inl e), st, fs'. unfold call. by rewrite Hm. Qed.
Lemma succeeds_check point (Q : res io_error unit → FileSys → Prop) fs :
  Q (inr tt) fs → succeeds (check_point point) Q fs.
Proof. intros HQ st. by exists (inr tt), st, fs. Qed.
Lemma succeeds_note f (Q : res io_error unit → FileSys → Prop) fs : Q (inr tt) fs → succeeds (note f) Q fs.
Proof. intros HQ st. by exists (inr tt), (f st), fs. Qed.
Lemma succeeds_answered {A} (a : A) (Q : A → FileSys → Prop) fs :
  Q a fs → succeeds (answered (Some a)) Q fs.
Proof. intros HQ st. by exists a, st, fs. Qed.
End successes.

(** The next call succeeds, and leaves the files alone. *)
Ltac call_ok :=
  apply succeeds_res; try apply succeeds_map_err;
  first [ apply succeeds_check | apply succeeds_note
        | eapply succeeds_call; [reflexivity|] ];
  repeat (eexists; split; [reflexivity|]).
Ltac last_ok :=
  try apply succeeds_map_err;
  first [ apply succeeds_check | apply succeeds_note | eapply succeeds_call; [reflexivity|] ];
  repeat (eexists; split; [reflexivity|]); try reflexivity.

Lemma write_runs p bs text (fs : FileSys) :
  write_all p bs [] (<[file_key p := text]> fs) = (Done tt, [], <[file_key p := text +:+ bs]> fs).
Proof.
  unfold write_all, io_call, append_bytes. cbn. by rewrite lookup_insert_eq, insert_insert_eq.
Qed.
Lemma rename_runs p q text (fs : FileSys) :
  fs_rename p q [] (<[file_key p := text]> fs)
  = (Done tt, [], <[file_key q := text]> (delete (file_key p) (<[file_key p := text]> fs))).
Proof. unfold fs_rename, io_call. by rewrite lookup_insert_eq. Qed.

Section runs.
Context `{EventLayout} `{AuditCodecLaws}.
Implicit Types (dir : Path) (l : AuditLimits) (fs : FileSys) (m : StoreMetadata) (s : StoreState)
  (es : list SecurityAuditEvent).

Definition went_well {E A} (r : res E A) (_ : FileSys) : Prop := ∃ a, r = inr a.

Lemma replace_metadata_runs dir m fs : succeeds (replace_metadata dir m) (λ r _, r = inr tt) fs.
Proof.
  destruct (json_of_metadata_total m) as [text Htext]. unfold replace_metadata. rewrite Htext.
  apply succeeds_res, succeeds_ret. exists text. split; [done|].
  call_ok. call_ok.
  do 2 (apply succeeds_res; eapply succeeds_call; [apply write_runs|]; eexists; split; [reflexivity|]).
  do 4 call_ok. apply succeeds_res. eapply succeeds_call; [apply rename_runs|]. eexists. split; [reflexivity|].
  do 2 call_ok. last_ok.
Qed.

Lemma write_records_runs temp generation es lines text fs :
  lines_for generation es = Some lines →
  succeeds (write_records temp generation es)
    (λ r fs', r = inr tt ∧ ∃ text', fs' = <[file_key temp := text']> fs) (<[file_key temp := text]> fs).
Proof.
  revert lines text. induction es as [|event es IH]; intros lines text Hl.
  { apply succeeds_ret. split; [done|]. by exists text. }
  unfold lines_for in Hl. cbn [mapM] in Hl.
  apply bind_Some in Hl as (line & Hline & (rest & Hrest & [= <-])%bind_Some).
  cbn [write_records]. rewrite Hline. apply succeeds_res, succeeds_map_err, succeeds_ret.
  exists line. split; [done|]. exists line. split; [done|]. call_ok.
  do 2 (apply succeeds_res, succeeds_map_err; eapply succeeds_call; [apply write_runs|];
    eexists; split; [reflexivity|]; eexists; split; [reflexivity|]).
  by eapply IH.
Qed.

Lemma compact_runs dir m es lines fs :
  lines_for (store_generation_id m) es = Some lines → succeeds (compact dir m es) (λ r _, r = inr tt) fs.
Proof.
  intros Hl. unfold compact. call_ok.
  apply succeeds_res. eapply succeeds_mono; [by eapply write_records_runs|].
  intros r fs' [-> [text ->]]. exists tt. split; [done|]. do 3 call_ok.
  apply succeeds_res, succeeds_map_err. eapply succeeds_call; [apply rename_runs|].
  eexists. split; [reflexivity|]. eexists. split; [reflexivity|]. do 2 call_ok. last_ok.
Qed.

Lemma append_line_runs dir line fs : succeeds (append_line dir line) (λ r _, r = inr tt) fs.
Proof.
  unfold append_line, append_and_sync. call_ok. apply succeeds_res, succeeds_res.
  eapply succeeds_call; [reflexivity|]. eexists. split; [reflexivity|].
  do 5 call_ok. apply succeeds_note. eexists. split; [reflexivity|].
  destruct (bool_decide _); [by apply succeeds_ret|]. call_ok. last_ok.
Qed.

Lemma kept_lines dir generation es tail fs now l :
  log_has dir generation es tail fs → ∃ lines, lines_for generation (kept_at l generation now es) = Some lines.
Proof.
  intros [(lines & Hl & _) _]. destruct (kept_at_suffix l generation now es) as [k ->].
  eexists. by apply lines_for_drop.
Qed.

(** An event the store may take is taken. *)
Record taken l now s (e : SecurityAuditEvent) : Prop := {
  tk_valid : validate_event_for_append now e = true;
  tk_size : line_size (store_generation_id (metadata s)) e <= SECURITY_AUDIT_MAX_EVENT_BYTES ∧
    line_size (store_generation_id (metadata s)) e <= max_bytes l;
  tk_reserved : over_reserved (ev_event_id e) (ev_request_id e) (ev_service_sequence e) (metadata s) = false;
}.

Lemma store_append_runs dir l now now' e s fs :
  limits_good l → in_order dir l s fs → taken l now s e →
  succeeds (store_append dir l now now' e s) (λ r _, r.1 = inr tt) fs.
Proof.
  intros Hl Hord [Hv [Hs1 Hs2] Ho]. unfold store_append. rewrite Hv. cbn [negb].
  assert (0 <= ev_timestamp e) as Htime.
  { apply andb_true_iff in Hv as [Hv _]. unfold validate_event_common in Hv. apply negb_true_iff in Hv.
    repeat (apply orb_false_iff in Hv as [Hv ?]). by apply Z.ltb_ge. }
  destruct (json_of_record_total (record_of (store_generation_id (metadata s)) e) Htime) as [text Htext].
  rewrite Htext.
  assert (line_size (store_generation_id (metadata s)) e = slen (text +:+ newline_text)) as Hls.
  { unfold line_size. rewrite Htext. unfold slen. rewrite length_append. cbn. lia. }
  rewrite Hls in Hs1, Hs2. rewrite !(proj2 (Z.ltb_ge _ _)) by done. cbn [orb]. rewrite Ho.
  apply succeeds_bind. eapply succeeds_mono; [apply append_line_runs|]. intros r fs1 ->. cbv zeta.
  destruct Hord as [_ _ [(lines & Hlines & _) _] _ Hb Hr _].
  set (generation := store_generation_id (metadata s)) in *.
  rewrite prune_retention_kept; [|done|..].
  2: { cbn. rewrite fmap_app, Hb, <-Hls. done. }
  2: { cbn. rewrite fmap_app, sum_app, Hr, <-Hls. unfold generation. cbn. lia. }
  cbv zeta. apply succeeds_bind, succeeds_answered, succeeds_bind.
  set (s2 := set_kept _ _ _ _).
  assert (∃ lines, lines_for generation (events s2) = Some lines) as [lines2 Hl2].
  { change (events s2) with (kept_at l generation now' (events s ++ [e])).
    destruct (kept_at_suffix l generation now' (events s ++ [e])) as [k ->].
    exists (drop k (lines ++ [text])%list). apply lines_for_drop, lines_for_app; [exact Hlines|].
    unfold lines_for. apply mapM_Some. by constructor. }
  eapply (succeeds_mono _ (λ r _, r = inr tt)); [|intros r fs2 ->; by apply succeeds_ret].
  unfold settle. apply succeeds_res.
  assert (∀ fs, succeeds (unavailable (replace_metadata dir (metadata s2))) (λ r _, r = inr tt) fs) as Hrep.
  { intros fs0. apply succeeds_map_err. eapply succeeds_mono; [apply replace_metadata_runs|].
    intros r fs' ->. by exists tt. }
  destruct (negb _).
  - eapply succeeds_mono; [by eapply (compact_runs dir (metadata s2))|]. intros r fs' ->. by exists tt.
  - apply succeeds_ret. by exists tt.
Qed.

Lemma read_records_runs dir m es tail max_bytes fs :
  log_has dir (store_generation_id m) es tail fs → metadata_good m → events_kept max_bytes m es →
  sum (line_size (store_generation_id m) <$> es) + slen tail <= max_bytes + SECURITY_AUDIT_MAX_EVENT_BYTES →
  max_bytes + SECURITY_AUDIT_MAX_EVENT_BYTES <= usize_max →
  succeeds (read_records (audit_log_path dir) m max_bytes)
    (λ r fs', fs' = fs ∧ r = inr ((λ e, (e, line_size (store_generation_id m) e)) <$> es, filled tail)) fs.
Proof.
  intros Hlog Hg Hkept Hsize Hmax. pose proof (log_has_read _ _ _ _ _ _ Hlog Hg Hkept) as Hread.
  destruct Hlog as [(lines & Hlines & Hbytes) Ht]. pose proof (lines_for_size _ _ _ Hlines) as Hlen.
  unfold read_records, checked_add_usize. rewrite (proj2 (Z.leb_le _ _)) by done.
  unfold log_key in *. unfold on_result. apply succeeds_bind.
  destruct (fs !! file_key (audit_log_path dir)) as [bs|] eqn:Hfs.
  - change (default ""%string (Some bs)) with bs in Hbytes, Hread. eapply (succeeds_call _ (N.of_nat (String.length bs))).
    { unfold fs_metadata_len, io_call. by rewrite Hfs. }
    rewrite (proj2 (Z.ltb_ge _ _)).
    2: { rewrite Hbytes, length_append. unfold slen in *. lia. }
    apply succeeds_res, succeeds_map_err. eapply (succeeds_call _ bs).
    { unfold fs_read, io_call. by rewrite Hfs. }
    exists bs. split; [done|]. exists bs. split; [done|].
    rewrite read_records_loop_read, Hread. by apply succeeds_answered.
  - eapply (succeeds_call_failed _ NotFoundError).
    { unfold fs_metadata_len, io_call. by rewrite Hfs. }
    apply succeeds_ret. split; [done|]. exact Hread.
Qed.

(** Identifiers are left to be issued. *)
Definition counters_left dir fs : Prop :=
  ∃ m next, stored_metadata dir fs = Some m ∧ next_reserved m = inr next.

Lemma succeeds_then {E A B} (m : sres E A) (f : A → sres E B) (Q : res E B → FileSys → Prop) (P : A → FileSys → Prop) fs :
  succeeds m (λ r fs', ∃ a, r = inr a ∧ P a fs') fs →
  (∀ a fs', P a fs' → succeeds (f a) Q fs') → succeeds (mbind (M:=sres E) f m) Q fs.
Proof.
  intros Hm Hf. apply succeeds_res. eapply succeeds_mono; [exact Hm|].
  intros r fs' (a & -> & Ha). eauto.
Qed.
Lemma succeeds_value {E A B} (a : A) (f : A → sres E B) (Q : res E B → FileSys → Prop) fs :
  succeeds (f a) Q fs → succeeds (mbind (M:=sres E) f (mret (M:=sio) (inr a))) Q fs.
Proof. done. Qed.

Lemma read_metadata_runs dir fs m :
  stored_metadata dir fs = Some m →
  succeeds (read_metadata (metadata_path dir)) (λ r fs', r = inr m ∧ fs' = fs) fs.
Proof.
  intros (text & Htext & Hm)%bind_Some. apply succeeds_res, succeeds_map_err. eapply (succeeds_call _ text).
  { unfold fs_read, io_call. unfold metadata_key in Htext. by rewrite Htext. }
  exists text. split; [done|]. exists text. split; [done|]. rewrite Hm. by apply succeeds_ret.
Qed.

Lemma open_owned_runs existed random clock dir l generation es tail fs :
  limits_good l → disk_holds dir l generation es tail fs → counters_left dir fs →
  succeeds (open_owned existed random clock dir l) went_well fs.
Proof.
  intros Hl Hdisk (m' & next & Hm' & Hnext).
  pose proof Hdisk as [(m & Hm & Hg & <- & Hkept) Hlog Hsize]. rewrite Hm in Hm'. injection Hm' as <-.
  eapply (succeeds_then _ _ _ (λ _ fs', fs' = fs)).
  { destruct existed; [apply succeeds_ret; by exists tt|]. call_ok. apply succeeds_map_err.
    eapply succeeds_call; [reflexivity|]. by exists tt; split; [|exists tt]. }
  intros _ ? ->. unfold opened_metadata.
  eapply (succeeds_then _ _ _ (λ x fs', x = (m, StoreReopened) ∧ fs' = fs)).
  { apply succeeds_res, succeeds_map_err. pose proof Hm as (text & Htext & _)%bind_Some.
    eapply (succeeds_call _ true).
    { unfold fs_exists. unfold metadata_key in Htext. by rewrite Htext. }
    exists true. split; [done|]. exists true. split; [done|]. apply succeeds_res.
    eapply succeeds_mono; [by apply read_metadata_runs|]. intros r fs' [-> ->]. exists m. split; [done|].
    apply succeeds_ret. by eexists. }
  intros ? ? [-> ->]. unfold ensure. rewrite (mg_version _ Hg), (mg_generation _ Hg).
  apply succeeds_value, succeeds_value.
  eapply (succeeds_then _ _ _ (λ x fs', fs' = fs ∧ x = ((λ e, (e, line_size (store_generation_id m) e)) <$> es, filled tail))).
  { eapply succeeds_mono; [apply (read_records_runs dir m es tail (max_bytes l)); try done; apply Hl|].
    intros r fs' [-> ->]. by eexists. }
  intros [records torn] ? [-> [= -> ->]].
  destruct (recovered_kept clock (max_bytes l) m es) as (rv & Hrv & _); [|done|apply Hg|].
  { destruct Hl as [_ Hl]. unfold slen in Hsize. lia. }
  rewrite Hrv, Hnext. apply succeeds_value, succeeds_value. set (records := _ <$> es).
  destruct (recovered_state dir l m es tail fs clock records (filled tail) rv (clock (length records)) next false
    Hl Hdisk Hm) as (s & -> & _ & _ & Hes & Hms & _ & _ & Hb & _); [by apply (log_has_read dir es tail fs m (max_bytes l))|done|].
  apply succeeds_res, succeeds_answered. exists s. split; [done|].
  assert (∃ fs', succeeds (ignored (call (fs_remove_file (compaction_path dir))))
    (λ r fs2, r = @inr SecurityAuditStoreOpenError _ tt ∧ fs2 = fs') fs) as [fs' Hrm].
  { destruct (fs !! file_key (compaction_path dir)) as [bs|] eqn:Hc; eexists; apply succeeds_bind.
    - eapply succeeds_call; [unfold fs_remove_file, io_call; by rewrite Hc|]. by apply succeeds_ret.
    - eapply succeeds_call_failed; [unfold fs_remove_file, io_call; by rewrite Hc|]. by apply succeeds_ret. }
  apply succeeds_res. eapply succeeds_mono; [exact Hrm|]. intros r fs2 [-> ->]. exists tt. split; [done|].
  destruct (kept_lines _ _ _ _ _ (clock (length records)) l Hlog) as [lines Hlines].
  eapply (succeeds_then _ _ _ (λ _ _, True)).
  - destruct (needs_compaction _ _ _); [|apply succeeds_ret; by exists tt]. unfold compact_if_pruned.
    destruct (_ =? _)%nat; [|apply succeeds_ret; by exists tt].
    eapply succeeds_mono; [eapply (compact_runs dir (metadata s) (events s)); by rewrite Hms, Hes|].
    intros r fs3 ->. by exists tt.
  - intros [] fs3 _. apply succeeds_ret. by eexists.
Qed.

Lemma probe_runs dir l clock es tail s fs :
  limits_good l → disk_holds dir l (store_generation_id (metadata s)) es tail fs → counters_left dir fs →
  succeeds (probe dir l clock s) went_well fs.
Proof.
  intros Hl Hdisk (m' & next & Hm' & Hnext).
  pose proof Hdisk as [(m & Hm & Hg & Hgen & Hkept) Hlog Hsize]. rewrite Hm in Hm'. injection Hm' as <-.
  rewrite <-Hgen in Hdisk, Hlog, Hsize.
  eapply (succeeds_then _ _ _ (λ x fs', x = m ∧ fs' = fs)).
  { eapply succeeds_mono; [by apply read_metadata_runs|]. intros r fs' [-> ->]. by eexists. }
  intros ? ? [-> ->]. pose proof (mg_accepted _ Hg) as Hacc. unfold accepted_reserved in Hacc.
  rewrite over_reserved_false in Hacc. destruct Hacc as (? & ? & ?).
  rewrite (mg_version _ Hg), (mg_generation _ Hg), <-Hgen, String.eqb_refl, !(proj2 (Z.leb_le _ _)) by done.
  apply succeeds_value. rewrite Hnext. apply succeeds_value.
  eapply (succeeds_then _ _ _ (λ x fs', fs' = fs ∧ x = ((λ e, (e, line_size (store_generation_id m) e)) <$> es, filled tail))).
  { eapply succeeds_mono; [apply (read_records_runs dir m es tail (max_bytes l)); try done; apply Hl|].
    intros r fs' [-> ->]. by eexists. }
  intros [records torn] ? [-> [= -> ->]].
  destruct (recovered_kept clock (max_bytes l) m es) as (rv & Hrv & _); [|done|apply Hg|].
  { destruct Hl as [_ Hl]. unfold slen in Hsize. lia. }
  rewrite Hrv. apply succeeds_value. set (records := _ <$> es). set (next' := (_, _, _)).
  destruct (recovered_state dir l m es tail fs clock records (filled tail) rv (clock (length records)) next' true
    Hl Hdisk Hm) as (s1 & -> & _ & _ & Hes & Hms & _ & _ & Hb & _ & _ & _ & _ & _ & Hneed);
    [by apply (log_has_read dir es tail fs m (max_bytes l))|done|].
  apply succeeds_res, succeeds_answered. exists s1. split; [done|].
  destruct (kept_lines _ _ _ _ _ (clock (length records)) l Hlog) as [lines Hlines].
  eapply (succeeds_then _ _ _ (λ _ _, True)).
  { destruct (needs_compaction _ _ _) eqn:Hn.
    - eapply succeeds_mono; [eapply (compact_runs dir (metadata s1) (events s1)); by rewrite Hms, Hes|].
      intros r fs3 ->. by exists tt.
    - destruct (Hneed eq_refl) as [-> Hall]. apply succeeds_bind. unfold log_key in *.
      destruct Hlog as [(lns & Hlns & Hbytes) _].
      destruct (fs !! file_key (audit_log_path dir)) as [bs|] eqn:Hfs.
      + eapply (succeeds_call _ tt); [unfold fs_open, io_call; by rewrite Hfs|].
        apply succeeds_map_err. call_ok. eapply succeeds_call; [reflexivity|]. by exists tt; split; [|exists tt].
      + eapply (succeeds_call_failed _ NotFoundError); [unfold fs_open, io_call; by rewrite Hfs|].
        rewrite Hes, Hall. destruct es as [|e es]; [apply succeeds_ret; by exists tt|].
        unfold lines_for in Hlns. apply mapM_Some in Hlns.
        destruct lns as [|line lns]; [by apply Forall2_nil_inv_r in Hlns|].
        exfalso. unfold log_key in Hbytes. rewrite Hfs in Hbytes.
        apply (f_equal String.length) in Hbytes. cbn in Hbytes.
        rewrite !length_append in Hbytes. cbn in Hbytes. lia. }
  intros [] fs3 _. apply succeeds_res, succeeds_map_err.
  eapply succeeds_mono; [apply replace_metadata_runs|]. intros r fs4 ->.
  exists tt. split; [done|]. exists tt. split; [done|]. do 2 call_ok. apply succeeds_ret. by eexists.
Qed.
End runs.

(** ** The promises *)

Section promises.
Context `{EventLayout} `{AuditCodecLaws}.
Implicit Types (l : AuditLimits) (fs : FileSys) (s : StoreState) (es : list SecurityAuditEvent).


Lemma open_store_post existed random clock root l generation es tail registry fs :
  limits_good l → disk_holds (path_join root AUDIT_DIR) l generation es tail fs →
  file_key (path_join root AUDIT_DIR) ∉ registry →
  sio_post (open_store existed random clock root l registry)
    (λ r fs', disk_reread (path_join root AUDIT_DIR) l generation es tail (clock (length es)) fs' ∧
       match r with
       | Some (inr store, registry') =>
           registry' = {[file_key (path_join root AUDIT_DIR)]} ∪ registry ∧
           opened_outcome (path_join root AUDIT_DIR) l generation es tail (clock (length es))
             (Some (inr store)) fs'
       | Some (inl _, registry') => registry' = registry
       | None => True
       end) fs.
Proof.
  intros Hl Hdisk Hreg. unfold open_store, open_with_instrumentation.
  pose proof Hl as [(? & ? & ?) _]. rewrite !(proj2 (Z.eqb_neq _ _)) by lia. cbn [orb].
  set (dir := path_join root AUDIT_DIR) in *.
  apply sio_post_bind. eapply (sio_post_mono _ (λ r fs', fs' = fs ∧ ∀ key, r = Some (inr key) → key = file_key dir)).
  { unfold create_private_dir.
    do 2 (apply sres_post_bind; quiet; [done..|intros _]; apply quiet_unavailable; [apply quiet_set_permissions|];
      intros [[er|[]]|]; [done| |done]).
    apply sio_post_map_err, sio_post_call, io_post_call; [|done]. split; [done|]. by intros key [= <-]. }
  intros r ? [-> Hkey]. destruct r as [[er|key]|]; [apply sio_post_ret; by split; [left|]| |by split; [left|]].
  rewrite (Hkey key eq_refl), decide_False by done.
  apply sio_post_bind. eapply sio_post_mono; [by apply open_owned_post|].
  intros r fs' Hout. destruct r as [[er|store]|]; [apply sio_post_ret|apply sio_post_ret|]; split; try apply Hout; done.
Qed.

Lemma open_store_runs existed random clock root l generation es tail registry fs :
  limits_good l → disk_holds (path_join root AUDIT_DIR) l generation es tail fs →
  file_key (path_join root AUDIT_DIR) ∉ registry → counters_left (path_join root AUDIT_DIR) fs →
  succeeds (open_store existed random clock root l registry) (λ r _, ∃ store, r.1 = inr store) fs.
Proof.
  intros Hl Hdisk Hreg Hc. unfold open_store, open_with_instrumentation.
  pose proof Hl as [(? & ? & ?) _]. rewrite !(proj2 (Z.eqb_neq _ _)) by lia. cbn [orb].
  set (dir := path_join root AUDIT_DIR) in *.
  apply succeeds_bind. eapply (succeeds_mono _ (λ r fs', r = inr (file_key dir) ∧ fs' = fs)).
  { unfold create_private_dir.
    do 2 (eapply (succeeds_then _ _ _ (λ _ fs', fs' = fs));
      [call_ok; apply succeeds_map_err; eapply succeeds_call; [reflexivity|]; by exists tt; split; [|exists tt]|
       intros _ ? ->]).
    apply succeeds_map_err. eapply succeeds_call; [reflexivity|]. by eexists. }
  intros ? ? [-> ->]. rewrite decide_False by done. apply succeeds_bind.
  eapply succeeds_mono; [by eapply open_owned_runs|]. intros r fs' [store ->]. apply succeeds_ret. by exists store.
Qed.

(** C27: opening a directory whose log holds the records of [es] and perhaps a part
    of a record: however it ends the log holds these, or what the retention keeps
    of them and nothing else; if it succeeds the store is in order and has just
    these events, and no other store of the process can open the directory.  It
    answers unless the process is killed, and succeeds when no call fails and
    identifiers are left. *)
Theorem reopening_reads_the_log existed random clock root l generation es tail registry i fl fs r i' fl' fs' :
  limits_good l → disk_holds (path_join root AUDIT_DIR) l generation es tail fs →
  file_key (path_join root AUDIT_DIR) ∉ registry →
  open_store existed random clock root l registry i fl fs = (r, (i', fl', fs')) →
  disk_reread (path_join root AUDIT_DIR) l generation es tail (clock (length es)) fs' ∧
  match r with
  | Some (inr store, registry') =>
      registry' = {[file_key (path_join root AUDIT_DIR)]} ∪ registry ∧
      in_order (path_join root AUDIT_DIR) l (state store) fs' ∧
      events (state store) = kept_at l generation (clock (length es)) es ∧
      ignored_torn_final_record (recovery store) = filled tail
  | Some (inl _, registry') => registry' = registry
  | None => ¬ no_crash fl
  end ∧
  (fail_next i = None → fl = [] → counters_left (path_join root AUDIT_DIR) fs →
     ∃ store registry', r = Some (inr store, registry')).
Proof.
  intros Hl Hdisk Hreg Hrun.
  destruct (sio_post_run _ _ _ _ _ _ _ _ _
    (open_store_post existed random clock root l generation es tail registry fs Hl Hdisk Hreg) Hrun) as [[Hd Hr] Hans].
  split_and!; [done| |].
  - destruct r as [[[er|store] registry']|]; [done| |by intros Hn%Hans].
    destruct Hr as [-> [_ Hdone]]. destruct (Hdone store eq_refl) as (? & ? & _ & _ & _ & _ & _ & ?). done.
  - intros Hi -> Hc. destruct i as [f st]. cbn in Hi. subst f.
    destruct (open_store_runs existed random clock root l generation es tail registry fs Hl Hdisk Hreg Hc st)
      as ([x registry'] & st' & fs2 & Hrun' & store & Hx).
    cbn in Hx. subst x. unfold calm in Hrun'. rewrite Hrun in Hrun'. injection Hrun' as -> _ _ _. by eexists _, _.
Qed.

(** a probe of a store whose log holds the records of [es] and perhaps a part of
    a record either leaves the memory as it was, degraded, or leaves a healthy
    store in order with what the retention keeps of [es]; however it ends the
    log still holds these.  It succeeds when no call fails and identifiers are
    left. *)
Theorem recovery_restores_order dir l clock es tail s i fl fs r i' fl' fs' :
  limits_good l → disk_holds dir l (store_generation_id (metadata s)) es tail fs →
  store_try_recover dir l clock s i fl fs = (r, (i', fl', fs')) →
  recovery_outcome dir l es tail (clock (length es)) s r fs' ∧ (no_crash fl → r ≠ None) ∧
  (fail_next i = None → fl = [] → counters_left dir fs → ∃ s', r = Some (inr SinkHealthy, s')).
Proof.
  intros Hl Hdisk Hrun.
  destruct (sio_post_run _ _ _ _ _ _ _ _ _ (store_try_recover_post dir l clock es tail s fs Hl Hdisk) Hrun).
  split_and!; [done..|]. intros Hi -> Hc. destruct i as [f st]. cbn in Hi. subst f.
  assert (succeeds (store_try_recover dir l clock s) (λ r _, r.1 = inr SinkHealthy) fs) as Hs.
  { apply succeeds_bind. eapply succeeds_mono; [by eapply probe_runs|]. intros r' fs2 [s' ->]. by apply succeeds_ret. }
  destruct (Hs st) as ([x s'] & st' & fs2 & Hrun' & Hx).
  cbn in Hx. subst x. unfold calm in Hrun'. rewrite Hrun in Hrun'. injection Hrun' as -> _ _ _. by eexists.
Qed.
End promises.
