(* ===== verification/AuditIds.v ===== *)
(** * The identifiers of the durable audit store

    No request id, event id or sequence is issued twice, whatever is done with the
    store, whichever calls fail and however often the process is killed: an
    invariant of the metadata file ([disk_ids]) and of the memory ([state_ids]),
    and a system of calls and restarts that keeps it. *)

From S2P Require Export AuditRecovery.

Local Open Scope Z_scope.

Create HintDb keeps.

(** ** Identifiers are never issued twice *)

(** What holds of a run that may give no answer. *)
Definition sio_part {A} (m : sio A) (Q : option A → FileSys → Prop) (fs : FileSys) : Prop :=
  ∀ i fl, let '(r, (_, _, fs')) := m i fl fs in Q r fs'.
(** A computation that leaves a file alone. *)
Definition keeps {A} (k : FileKey) (m : sio A) : Prop :=
  ∀ fs, sio_part m (λ _ fs', fs' !! k = fs !! k) fs.

Section parts.
Implicit Types (fs : FileSys) (k : FileKey).

Lemma sio_part_ret {A} (a : A) (Q : option A → FileSys → Prop) fs :
  Q (Some a) fs → sio_part (mret (M:=sio) a) Q fs.
Proof. by intros HQ i fl. Qed.
Lemma sio_part_bind {A B} (m : sio A) (f : A → sio B) (Q : option B → FileSys → Prop) fs :
  sio_part m (λ r fs, match r with Some a => sio_part (f a) Q fs | None => Q None fs end) fs →
  sio_part (mbind (M:=sio) f m) Q fs.
Proof.
  intros Hm i fl. specialize (Hm i fl). unfold mbind, sio_bind.
  destruct (m i fl fs) as [[a|] [[i' fl'] fs']]; [apply Hm|done].
Qed.
Lemma sio_part_mono {A} (m : sio A) (Q R : option A → FileSys → Prop) fs :
  sio_part m Q fs → (∀ r fs', Q r fs' → R r fs') → sio_part m R fs.
Proof.
  intros Hm HQ i fl. specialize (Hm i fl). destruct (m i fl fs) as [r [[? ?] fs']]. naive_solver.
Qed.
Lemma sio_part_post {A} (m : sio A) (Q : option A → FileSys → Prop) fs :
  sio_post m Q fs → sio_part m Q fs.
Proof. intros Hm i fl. specialize (Hm i fl). destruct (m i fl fs) as [r [[? ?] fs']]. naive_solver. Qed.
Lemma sres_part_bind {E A B} (m : sres E A) (f : A → sres E B) (Q : option (res E B) → FileSys → Prop) fs :
  sio_part m (λ r fs, match r with
                      | Some (inr a) => sio_part (f a) Q fs
                      | Some (inl e) => Q (Some (inl e)) fs
                      | None => Q None fs
                      end) fs →
  sio_part (mbind (M:=sres E) f m) Q fs.
Proof.
  intros Hm. refine (sio_part_bind m _ Q fs _). eapply sio_part_mono; [exact Hm|].
  intros [[e|a]|] fs' HQ; [by apply sio_part_ret|done..].
Qed.
Lemma sio_part_answered {A} (o : option A) (Q : option A → FileSys → Prop) fs :
  Q o fs → sio_part (answered o) Q fs.
Proof. by intros HQ i fl. Qed.

Lemma keeps_quiet {A} k (m : sio A) : quiet_io m → keeps k m.
Proof. intros Hm fs. by apply sio_part_post, Hm. Qed.
Lemma keeps_mret {A} k (a : A) : keeps k (mret (M:=sio) a).
Proof. intros fs. by apply sio_part_ret. Qed.
Lemma keeps_then {A B} k (m : sio A) (f : A → sio B) :
  keeps k m → (∀ a, keeps k (f a)) → keeps k (mbind (M:=sio) f m).
Proof.
  intros Hm Hf fs. apply sio_part_bind. eapply sio_part_mono; [apply Hm|].
  intros [a|] fs' Hk; [|done]. eapply sio_part_mono; [apply Hf|]. by intros r fs2 ->.
Qed.
Lemma keeps_res_bind {E A B} k (m : sres E A) (f : A → sres E B) :
  keeps k m → (∀ a, keeps k (f a)) → keeps k (mbind (M:=sres E) f m).
Proof. intros Hm Hf. apply keeps_then; [done|]. intros [e|a]; [apply keeps_mret|apply Hf]. Qed.
Lemma keeps_unavailable {A} k (m : sres io_error A) : keeps k m → keeps k (unavailable m).
Proof. intros Hm. apply keeps_then; [done|]. intros. apply keeps_mret. Qed.
Lemma keeps_answered {A} k (o : option A) : keeps k (answered o).
Proof. intros fs. by apply sio_part_answered. Qed.
Lemma keeps_call {A} k (eff : FileSys → (A * FileSys) + io_error) (partial : nat → FileSys → FileSys) :
  (∀ fs, match eff fs with inl (_, fs') => fs' !! k = fs !! k | inr _ => True end) →
  (∀ n fs, partial n fs !! k = fs !! k) → keeps k (call (io_call eff partial)).
Proof.
  intros He Hp fs. apply sio_part_post, sio_post_call, io_post_call; [|intros n; split; apply Hp].
  specialize (He fs). by destruct (eff fs) as [[a fs']|e].
Qed.
Lemma keeps_truncate k p : file_key p ≠ k → keeps k (call (open_truncate p)).
Proof. intros Hp. apply keeps_call; [intros fs; by rewrite lookup_insert_ne|done]. Qed.
Lemma keeps_write k p bs : file_key p ≠ k → keeps k (call (write_all p bs)).
Proof.
  intros Hp. unfold write_all, append_bytes.
  apply keeps_call; [intros fs|intros n fs]; by rewrite lookup_insert_ne.
Qed.
Lemma keeps_append k p : file_key p ≠ k → keeps k (call (open_append p)).
Proof.
  intros Hp. apply keeps_call; [|done]. intros fs.
  destruct (fs !! file_key p); [done|]. by rewrite lookup_insert_ne.
Qed.
Lemma keeps_rename k p q : file_key p ≠ k → file_key q ≠ k → keeps k (call (fs_rename p q)).
Proof.
  intros Hp Hq. apply keeps_call; [|done]. intros fs. destruct (fs !! file_key p); [|done].
  by rewrite lookup_insert_ne, lookup_delete_ne.
Qed.
Lemma keeps_remove k p : file_key p ≠ k → keeps k (call (fs_remove_file p)).
Proof.
  intros Hp. apply keeps_call; [|done]. intros fs. destruct (fs !! file_key p); [|done].
  by rewrite lookup_delete_ne.
Qed.
End parts.

#[export] Hint Resolve keeps_mret keeps_unavailable keeps_answered keeps_truncate keeps_write
  keeps_append keeps_rename keeps_remove : keeps.
(** The next call leaves the file alone. *)
Ltac keep :=
  first [apply keeps_res_bind | apply keeps_then];
  [solve [eauto with keeps | apply keeps_quiet; eauto with quiet]|intros ?].

Section identifiers.
Context `{EventLayout} `{AuditCodecLaws}.
Implicit Types (dir : Path) (l : AuditLimits) (fs : FileSys) (m : StoreMetadata) (s : StoreState)
  (es : list SecurityAuditEvent).

Lemma write_records_keeps k temp generation es :
  file_key temp ≠ k → keeps k (write_records temp generation es).
Proof.
  intros Hne. induction es as [|event es IH]; cbn [write_records]; [apply keeps_mret|].
  apply keeps_res_bind.
  { destruct (json_of_record _); apply keeps_mret. }
  intros line. do 3 keep. apply IH.
Qed.
Lemma compact_keeps dir m es : keeps (metadata_key dir) (compact dir m es).
Proof.
  assert (file_key (compaction_path dir) ≠ metadata_key dir) as Hc by by apply path_join_ne.
  assert (file_key (audit_log_path dir) ≠ metadata_key dir) as Hl by by apply path_join_ne.
  unfold compact. keep. apply keeps_res_bind; [by apply write_records_keeps|intros _].
  do 4 keep. keep. keep. apply keeps_unavailable, keeps_quiet, quiet_note.
Qed.
Lemma append_line_keeps dir line : keeps (metadata_key dir) (append_line dir line).
Proof.
  assert (file_key (audit_log_path dir) ≠ metadata_key dir) as Hl by by apply path_join_ne.
  unfold append_line, append_and_sync. keep. apply keeps_res_bind.
  - do 6 keep. apply keeps_quiet, quiet_note.
  - intros _. destruct a; [apply keeps_mret|]. keep. apply keeps_quiet, quiet_sync_dir.
Qed.
Lemma read_records_keeps k path m max_bytes : keeps k (read_records path m max_bytes).
Proof.
  intros fs. apply sio_part_post. eapply sio_post_mono; [apply read_records_post|].
  by intros r fs' [-> _].
Qed.
Lemma resync_keeps k dir s : keeps k (resync dir s).
Proof. intros fs. by apply sio_part_post, resync_post. Qed.

(** The identifiers issued so far, in the order of their issue. *)
Record Issued := { is_requests : list Z; is_events : list Z; is_sequences : list Z }.
Definition issued_nothing : Issued := {| is_requests := []; is_events := []; is_sequences := [] |}.
Definition issue_request (id : Z) (x : Issued) : Issued :=
  {| is_requests := is_requests x ++ [id]; is_events := is_events x; is_sequences := is_sequences x |}.
Definition issue_event (id : Z * Z) (x : Issued) : Issued :=
  {| is_requests := is_requests x; is_events := is_events x ++ [id.1];
     is_sequences := is_sequences x ++ [id.2] |}.

Definition all_below (b : Z) (ids : list Z) : Prop := Forall (λ id, id < b) ids.
Record issued_below (x : Issued) (event request sequence : Z) : Prop := {
  ib_events : all_below event (is_events x);
  ib_requests : all_below request (is_requests x);
  ib_sequences : all_below sequence (is_sequences x);
}.
(** Each list goes up. *)
Record issued_once (x : Issued) : Prop := {
  io_events : StronglySorted Z.lt (is_events x);
  io_requests : StronglySorted Z.lt (is_requests x);
  io_sequences : StronglySorted Z.lt (is_sequences x);
}.

Lemma all_below_weaken b b' ids : all_below b ids → b <= b' → all_below b' ids.
Proof. intros Hi Hb. eapply Forall_impl; [exact Hi|]. cbn. lia. Qed.
Lemma all_below_snoc b ids id : all_below id ids → id < b → all_below b (ids ++ [id]).
Proof.
  intros Hi Hb. apply Forall_app_2; [eapply all_below_weaken; [eassumption|lia]|by constructor].
Qed.
Lemma sorted_snoc ids id : StronglySorted Z.lt ids → all_below id ids → StronglySorted Z.lt (ids ++ [id]).
Proof.
  intros Hs Hb. induction Hs as [|x ids Hs IH Hx]; cbn; [by repeat constructor|].
  apply Forall_cons in Hb as [? Hb]. constructor; [by apply IH|]. by apply Forall_app_2; [|constructor].
Qed.

Definition paired m : Prop := reserved_event_id m = reserved_service_sequence m.
(** The metadata file of a store that has issued [x]; a file that cannot be read
    is a store that will not open. *)
Definition disk_ids x (text : option string) : Prop :=
  match text with
  | None => x = issued_nothing
  | Some text => ∀ m, metadata_of_json text = Some m →
      paired m ∧ issued_below x (reserved_event_id m + 1) (reserved_request_id m + 1)
                   (reserved_service_sequence m + 1)
  end.
Record state_ids x s (text : option string) : Prop := {
  si_typed : metadata_typed (metadata s);
  si_paired : paired (metadata s);
  si_disk : ∃ t m, text = Some t ∧ metadata_of_json t = Some m ∧ paired m ∧ reserved_below (metadata s) m;
  si_issued : issued_below x (next_event_id s) (next_request_id s) (next_service_sequence s);
  si_next : next_event_id s <= reserved_event_id (metadata s) + 1 ∧
    next_request_id s <= reserved_request_id (metadata s) + 1 ∧
    next_service_sequence s <= reserved_service_sequence (metadata s) + 1;
}.
Definition store_ids x (s : option StoreState) text : Prop :=
  match s with Some s => state_ids x s text | None => disk_ids x text end.

Lemma state_ids_disk x s text : state_ids x s text → disk_ids x text.
Proof.
  intros [_ _ (t & m & -> & Hm & Hp & Hb) [? ? ?] Hn] m' Hm'. rewrite Hm in Hm'. injection Hm' as <-.
  unfold reserved_below in Hb. split; [done|].
  split; (eapply all_below_weaken; [eassumption|lia]).
Qed.
Lemma state_ids_degraded x b s text : state_ids x s text → state_ids x (mark_degraded b s) text.
Proof. by intros []. Qed.

(** After a replacement of the metadata by more than what is reserved. *)
Lemma replace_metadata_ids dir x s m fs (Q : option (res io_error unit) → FileSys → Prop) :
  state_ids x s (fs !! metadata_key dir) → metadata_typed m → paired m → reserved_below (metadata s) m →
  (∀ r fs', state_ids x s (fs' !! metadata_key dir) →
     (r = Some (inr tt) → ∃ t, fs' !! metadata_key dir = Some t ∧ metadata_of_json t = Some m) → Q r fs') →
  sio_part (replace_metadata dir m) Q fs.
Proof.
  intros Hs Ht Hp Hb HQ. destruct (json_of_metadata_total m) as [text Htext].
  apply sio_part_post. eapply sio_post_mono; [by apply replace_metadata_post|].
  pose proof (metadata_of_json_of _ _ Htext Ht) as [_ Hread].
  intros r fs' [_ Hat Hdone]. apply HQ.
  - destruct Hat as [Hat|Hat]; [by unfold metadata_key in *; rewrite Hat|].
    destruct Hs as [? ? _ ? ?]. split; try done. by exists (text +:+ newline_text), m.
  - intros Hr. exists (text +:+ newline_text). split; [by apply Hdone|done].
Qed.

Lemma checked_add_u64_Some a b c : checked_add_u64 a b = Some c ↔ c = a + b ∧ a + b <= u64_max.
Proof.
  unfold checked_add_u64. destruct (Z.leb_spec (a + b) u64_max); split; naive_solver lia.
Qed.

Definition op_ids {A} (issue : A → Issued → Issued) x
    (r : option (res SecurityAuditSinkError A * StoreState)) text : Prop :=
  match r with
  | Some (inr id, s') => state_ids (issue id x) s' text ∧ (issued_once x → issued_once (issue id x))
  | Some (inl _, s') => state_ids x s' text
  | None => disk_ids x text
  end.

Lemma issue_request_id_ids dir x s fs :
  state_ids x s (fs !! metadata_key dir) → next_request_id s <= reserved_request_id (metadata s) →
  sio_part (issue_request_id s) (λ r fs', op_ids issue_request x r (fs' !! metadata_key dir)) fs.
Proof.
  intros Hs Hnext. unfold issue_request_id, refuse_op.
  destruct (checked_add_u64 _ 1) as [next|] eqn:Hadd; apply sio_part_ret; [|exact Hs].
  apply checked_add_u64_Some in Hadd as [-> _]. destruct Hs as [? ? ? [? Hr ?] ?]. split.
  - split; cbn; try done; [split; cbn; try done|lia]. apply all_below_snoc; [done|lia].
  - intros [? ? ?]. split; cbn; try done. by apply sorted_snoc.
Qed.

Lemma allocate_request_ids dir x s fs :
  state_ids x s (fs !! metadata_key dir) →
  sio_part (store_allocate_request_id dir s) (λ r fs', op_ids issue_request x r (fs' !! metadata_key dir)) fs.
Proof.
  intros Hs. unfold store_allocate_request_id, refuse_op.
  destruct (Z.ltb_spec (reserved_request_id (metadata s)) (next_request_id s)); [|by apply issue_request_id_ids].
  destruct (checked_add_u64 _ _) as [reserved|] eqn:Hadd; [|by apply sio_part_ret].
  apply checked_add_u64_Some in Hadd as [-> Hmax]. unfold COUNTER_RESERVATION_RANGE in *.
  set (m := with_reserved _ _ _ _). pose proof Hs as [[? ? (He & Hr & Hq) ?] Hp _ _ Hn].
  assert (metadata_typed m) as Hm by (split; try done; cbn; unfold in_u64 in *; lia).
  assert (reserved_below (metadata s) m) as Hb by (unfold reserved_below; cbn; lia).
  apply sio_part_bind. eapply (replace_metadata_ids _ x s); [done..|]. intros r fs' Hs' Hdone.
  destruct r as [[e|[]]|]; [apply sio_part_ret; by apply state_ids_degraded| |by eapply state_ids_disk].
  destruct (Hdone eq_refl) as (t & Ht & Hread). apply issue_request_id_ids; [|cbn; lia].
  destruct Hs' as [_ _ _ Hi ?]. split; cbn; try done; [|lia].
  exists t, m. split_and!; first [done|apply reserved_below_refl].
Qed.

Lemma issue_event_identity_ids dir x s fs :
  state_ids x s (fs !! metadata_key dir) → next_event_id s <= reserved_event_id (metadata s) →
  next_service_sequence s <= reserved_service_sequence (metadata s) →
  sio_part (issue_event_identity s) (λ r fs', op_ids issue_event x r (fs' !! metadata_key dir)) fs.
Proof.
  intros Hs Hnext Hnext'. unfold issue_event_identity, refuse_op.
  destruct (checked_add_u64 (next_event_id s) 1) as [next|] eqn:Hadd; [|by apply sio_part_ret].
  apply checked_add_u64_Some in Hadd as [-> _]. destruct Hs as [? ? ? [He ? Hq] ?].
  destruct (checked_add_u64 (next_service_sequence s) 1) as [next|] eqn:Hadd; apply sio_part_ret.
  - apply checked_add_u64_Some in Hadd as [-> _]. split.
    + split; cbn; try done; [split; cbn; try done; (apply all_below_snoc; [done|lia])|lia].
    + intros [? ? ?]. split; cbn; try done; by apply sorted_snoc.
  - split; cbn; try done; [split; cbn; try done|lia]. eapply all_below_weaken; [eassumption|lia].
Qed.

Lemma allocate_event_ids dir x s fs :
  state_ids x s (fs !! metadata_key dir) →
  sio_part (store_allocate_event_identity dir s) (λ r fs', op_ids issue_event x r (fs' !! metadata_key dir)) fs.
Proof.
  intros Hs. unfold store_allocate_event_identity, refuse_op.
  destruct (_ || _) eqn:Hneed.
  2: { apply orb_false_iff in Hneed as [Hn1 Hn2]. rewrite Z.ltb_ge in Hn1, Hn2. by apply issue_event_identity_ids. }
  destruct (checked_add_u64 (reserved_event_id _) _) as [reserved|] eqn:Hadd; [|by apply sio_part_ret].
  pose proof Hs as [[? ? (He & Hr & Hq) ?] Hp _ _ Hn]. unfold paired in Hp. rewrite <-Hp, Hadd.
  apply checked_add_u64_Some in Hadd as [-> Hmax]. unfold COUNTER_RESERVATION_RANGE in *. cbv zeta.
  set (m := with_reserved _ _ _ _).
  assert (metadata_typed m) as Hm by (split; try done; cbn; unfold in_u64 in *; lia).
  assert (reserved_below (metadata s) m) as Hb by (unfold reserved_below; cbn; lia).
  apply sio_part_bind. eapply (replace_metadata_ids _ x s); [done..|]. intros r fs' Hs' Hdone.
  destruct r as [[e|[]]|]; [apply sio_part_ret; by apply state_ids_degraded| |by eapply state_ids_disk].
  destruct (Hdone eq_refl) as (t & Ht & Hread). apply issue_event_identity_ids; [|cbn; lia..].
  destruct Hs' as [_ _ _ Hi ?]. split; cbn; try done; [|lia].
  exists t, m. split_and!; first [done|apply reserved_below_refl].
Qed.

Lemma settle_ids dir before x s fs (Q : option (res SecurityAuditStoreOpenError unit) → FileSys → Prop) :
  state_ids x s (fs !! metadata_key dir) →
  (∀ r fs', state_ids x s (fs' !! metadata_key dir) → Q r fs') → sio_part (settle dir before s) Q fs.
Proof.
  intros Hs HQ. apply sres_part_bind.
  eapply (sio_part_mono _ (λ _ fs', fs' !! metadata_key dir = fs !! metadata_key dir)).
  { destruct (negb _); [apply compact_keeps|by apply sio_part_ret]. }
  intros [[e|[]]|] fs' Hk; [apply HQ; by rewrite Hk| |apply HQ; by rewrite Hk].
  apply sio_part_bind. eapply (replace_metadata_ids _ x s); [by rewrite Hk|apply Hs|apply Hs|apply reserved_below_refl|].
  intros [[e|[]]|] fs2 Hs2 _; [apply sio_part_ret, HQ, Hs2|apply sio_part_ret, HQ, Hs2|apply HQ, Hs2].
Qed.

(** An operation that issues nothing. *)
Definition silent_ids {A} x (r : option (res SecurityAuditSinkError A * StoreState)) text : Prop :=
  store_ids x (snd <$> r) text.

Lemma store_append_ids dir l now now' e x s fs :
  state_ids x s (fs !! metadata_key dir) → event_typed e →
  sio_part (store_append dir l now now' e s) (λ r fs', silent_ids x r (fs' !! metadata_key dir)) fs.
Proof.
  intros Hs [_ (He & Hr & Hq) _ _]. unfold store_append, refuse_op.
  destruct (negb _); [by apply sio_part_ret|].
  destruct (json_of_record _) as [text|]; [|by apply sio_part_ret].
  destruct (_ || _); [by apply sio_part_ret|].
  destruct (over_reserved _ _ _ _) eqn:Ho; [apply sio_part_ret; by apply state_ids_degraded|].
  apply sio_part_bind. eapply sio_part_mono; [apply append_line_keeps|].
  intros r fs1 Hk. rewrite <-Hk in Hs.
  destruct r as [[er|[]]|]; [apply sio_part_ret; by apply state_ids_degraded| |by eapply state_ids_disk].
  set (s1 := accept _ _ _).
  assert (∀ text', state_ids x s text' → state_ids x s1 text') as Hacc.
  { intros text' [[? ? ? (? & ? & ?)] ? ? ? ?]. split; try done. split; try done; cbn. unfold in_u64 in *. lia. }
  apply sio_part_bind, sio_part_answered. destruct (prune_retention l now' s1) as [s2|] eqn:Hp;
    [|by eapply state_ids_disk].
  unfold prune_retention in Hp. apply bind_Some in Hp as ([[es bs] ret] & _ & [= <-]).
  set (s2 := set_kept _ _ _ s1).
  assert (∀ text', state_ids x s1 text' → state_ids x s2 text') as Hpr by (by intros text' []).
  apply sio_part_bind. eapply (settle_ids _ _ x s2); [by apply Hpr, Hacc|]. intros r fs' Hs'.
  destruct r as [[er|[]]|]; [apply sio_part_ret; by apply state_ids_degraded|
    apply sio_part_ret; by apply state_ids_degraded|by eapply state_ids_disk].
Qed.

Lemma recover_records_ge clock max_bytes records pe ps rv rv' :
  recover_records clock max_bytes records pe ps rv = inr rv' →
  rv_event rv <= rv_event rv' ∧ rv_request rv <= rv_request rv' ∧ rv_sequence rv <= rv_sequence rv'.
Proof.
  revert pe ps rv. induction records as [|[event bytes] records IH]; intros pe ps rv; cbn [recover_records].
  { intros [= <-]. lia. }
  intros (future & _ & Hr)%res_bind_inr. destruct (_ || _); [done|].
  destruct (checked_add_usize _ _); [|done]. apply IH in Hr. cbn in Hr. lia.
Qed.
Lemma recovered_typed clock max_bytes m records rv :
  metadata_typed m → recovered clock max_bytes m records = inr rv →
  metadata_typed (with_accepted (rv_event rv) (rv_request rv) (rv_sequence rv) m).
Proof.
  intros [? ? (? & ? & ?) (? & ? & ?)] (rv' & Hrv & Ho)%res_bind_inr.
  apply recover_records_ge in Hrv. destruct (over_reserved _ _ _ _) eqn:Hov; [done|]. injection Ho as ->.
  apply over_reserved_false in Hov. cbn in Hrv. split; try done; cbn. unfold in_u64 in *. lia.
Qed.
Lemma next_reserved_inr m next :
  next_reserved m = inr next →
  next = (reserved_event_id m + 1, reserved_request_id m + 1, reserved_service_sequence m + 1).
Proof.
  unfold next_reserved.
  destruct (checked_add_u64 (reserved_event_id m) 1) as [a|] eqn:Ha; [|done].
  destruct (checked_add_u64 (reserved_request_id m) 1) as [b|] eqn:Hb; [|done].
  destruct (checked_add_u64 (reserved_service_sequence m) 1) as [c|] eqn:Hc; [|done]. intros [= <-].
  by apply checked_add_u64_Some in Ha as [-> _], Hb as [-> _], Hc as [-> _].
Qed.

Lemma probe_ids dir l clock x s fs :
  state_ids x s (fs !! metadata_key dir) →
  sio_part (probe dir l clock s)
    (λ r fs', state_ids x s (fs' !! metadata_key dir) ∧
       ∀ s', r = Some (inr s') → state_ids x s' (fs' !! metadata_key dir)) fs.
Proof.
  intros Hs. pose proof Hs as [_ _ (text & m & Htext & Hm & Hp & Hb) _ _].
  set (good := λ r fs', _ ∧ _).
  assert (∀ r fs', state_ids x s (fs' !! metadata_key dir) → (∀ s', r ≠ Some (inr s')) → good r fs') as Hbad
    by (intros r fs' ? Hr; split; [done|by intros s' Hs'%Hr]).
  unfold probe, read_metadata. apply sres_part_bind, sio_part_post, sres_post_bind, sio_post_map_err, sio_post_call, io_post_call;
    [|by intros _; split; apply Hbad].
  unfold metadata_key in Htext. rewrite Htext, Hm. apply sio_post_ret.
  unfold ensure. destruct (_ && _); [|by apply sio_part_ret, Hbad].
  apply sres_part_bind, sio_part_ret.
  destruct (next_reserved m) as [er|next] eqn:Hnext; [by apply sres_part_bind, sio_part_ret, Hbad|].
  apply sres_part_bind, sio_part_ret. apply sres_part_bind.
  eapply sio_part_mono; [apply read_records_keeps|]. intros r fs1 Hk1. rewrite <-Hk1 in Hs.
  destruct r as [[er|[records torn]]|]; [by apply Hbad| |by apply Hbad].
  destruct (recovered clock (max_bytes l) m records) as [er|rv] eqn:Hrv; [by apply sres_part_bind, sio_part_ret, Hbad|].
  apply sres_part_bind, sio_part_ret. apply sres_part_bind, sio_part_answered.
  destruct (prune_retention _ _ _) as [s1|] eqn:Hp1; [|by apply Hbad].
  unfold prune_retention in Hp1. apply bind_Some in Hp1 as ([[es bs] ret] & _ & [= <-]). cbn [fmap option_fmap].
  set (s1 := set_kept es bs ret _).
  apply sres_part_bind. eapply (sio_part_mono _ (λ _ fs', fs' !! metadata_key dir = fs1 !! metadata_key dir)).
  { destruct (needs_compaction torn rv s1); [apply compact_keeps|apply resync_keeps]. }
  intros r fs2 Hk2. rewrite <-Hk2 in Hs. destruct r as [[er|[]]|]; [by apply Hbad| |by apply Hbad].
  set (m' := with_accepted _ _ _ m).
  assert (metadata_typed m') as Ht' by (eapply recovered_typed; [by eapply metadata_of_json_typed|exact Hrv]).
  apply sres_part_bind, sio_part_bind. eapply (replace_metadata_ids _ x s); [done..|].
  intros r fs3 Hs3 Hdone. destruct r as [[er|[]]|]; [by apply sio_part_ret, Hbad|apply sio_part_ret|by apply Hbad].
  assert (∀ r fs', fs' !! metadata_key dir = fs3 !! metadata_key dir → (∀ s', r ≠ Some (inr s')) → good r fs') as Hbad3.
  { intros r fs' Hk. apply Hbad. by rewrite Hk. }
  apply sio_part_post. do 2 (quiet; [by intros; apply Hbad3..|intros _]).
  apply sio_post_ret. split; [done|]. intros s' [= <-]. destruct (Hdone eq_refl) as (t & Ht & Hread).
  apply next_reserved_inr in Hnext as ->. destruct Hs3 as [_ _ _ [? ? ?] ?]. unfold reserved_below in Hb.
  split; cbn; try done.
  - exists t, m'. split_and!; first [done|apply reserved_below_refl].
  - split; cbn; (eapply all_below_weaken; [eassumption|lia]).
  - lia.
Qed.

Lemma store_try_recover_ids dir l clock x s fs :
  state_ids x s (fs !! metadata_key dir) →
  sio_part (store_try_recover dir l clock s) (λ r fs', silent_ids x r (fs' !! metadata_key dir)) fs.
Proof.
  intros Hs. apply sio_part_bind. eapply sio_part_mono; [by apply probe_ids|].
  intros [[er|s']|] fs' [Hs' Hdone]; [apply sio_part_ret; by apply state_ids_degraded|
    apply sio_part_ret; by apply Hdone|by eapply state_ids_disk].
Qed.

Lemma hex_utf8 bytes : utf8 (fingerprint_as_hex bytes).
Proof.
  unfold utf8. induction bytes as [|c bytes IH]; [done|]. cbn [fingerprint_as_hex].
  assert (∀ d (t : string), 0 <= d < 16 → utf8_valid t = true → utf8_valid (String (hex_digit d) t) = true) as Hd.
  { intros d t Hd Hs. assert (d ∈ seqZ 0 16) as Hin by (apply elem_of_seqZ; lia).
    repeat (apply elem_of_cons in Hin as [->|Hin]; [exact Hs|]). by apply elem_of_nil in Hin. }
  pose proof (N_ascii_bounded c) as Hc. unfold byte_val.
  apply Hd; [split; [apply Z.div_pos|apply Z.div_lt_upper_bound]; lia|].
  apply Hd; [apply Z.mod_pos_bound; lia|exact IH].
Qed.
Lemma new_metadata_typed generation : utf8 generation → metadata_typed (new_metadata generation).
Proof. intros Hg. split; [done|exact Hg|done|done]. Qed.

Lemma part_of_snoc (text part rest : string) c :
  text +:+ String c "" = part +:+ rest →
  part = text +:+ String c "" ∨ ∃ rest', text = part +:+ rest'.
Proof.
  destruct rest as [|d rest _] using str_rev_ind; intros Heq.
  - left. by rewrite append_nil_r in Heq.
  - right. exists rest. rewrite <-append_assoc in Heq. by apply str_snoc_inj in Heq as [-> _].
Qed.

Lemma opened_metadata_ids dir random x fs :
  disk_ids x (fs !! metadata_key dir) →
  sio_part (opened_metadata random dir)
    (λ r fs', disk_ids x (fs' !! metadata_key dir) ∧
       ∀ m st, r = Some (inr (m, st)) → ∃ text, fs' !! metadata_key dir = Some text ∧
         metadata_of_json text = Some m) fs.
Proof.
  intros Hd. apply sio_part_post. quiet; [by intros..|intros existed]. destruct existed.
  - apply sres_post_bind. apply sres_post_bind, sio_post_map_err, sio_post_call, io_post_call; [|done].
    fold (metadata_key dir). destruct (fs !! metadata_key dir) as [text|] eqn:Ht; [|by split].
    destruct (metadata_of_json text) as [m|] eqn:Hm; apply sio_post_ret; [|by rewrite Ht; split].
    apply sio_post_ret. rewrite Ht. split; [done|]. intros m0 st [= <- _]. by exists text.
  - destruct random as [bytes|]; [|by apply sio_post_ret].
    refine (ret_then (fingerprint_as_hex bytes) _ _ _ _). set (m := new_metadata _).
    assert (metadata_typed m) as Hty by apply new_metadata_typed, hex_utf8.
    destruct (json_of_metadata_total m) as [text Htext].
    destruct (metadata_of_json_of _ _ Htext Hty) as [Hr1 Hr2]. unfold newline_text in Hr2.
    apply sres_post_bind. eapply sio_post_mono; [by apply write_new_metadata_post|].
    intros r fs' [_ [(Hsame & Hr)|(Hnone & part & rest & Heq & Hk & Hdone)]].
    { rewrite <-Hsame in Hd. by destruct r as [[er|[]]|]. }
    rewrite Hnone in Hd. cbn in Hd. subst x.
    assert (disk_ids issued_nothing (fs' !! metadata_key dir)) as Hd'.
    { rewrite Hk. intros m' Hm'.
      assert (m' = m) as ->.
      { destruct (part_of_snoc _ _ _ _ Heq) as [->|[rest' Hrest]]; [congruence|].
        destruct (decide (rest' = "")) as [->|Hne]; [rewrite append_nil_r in Hrest; congruence|].
        rewrite Hrest in Htext. by rewrite (metadata_of_json_part _ _ _ Htext Hne) in Hm'. }
      split; [done|]. repeat constructor. }
    destruct r as [[er|[]]|]; [by split| |by split].
    do 2 (quiet; [by intros; split..|intros _]). apply sio_post_ret. split; [done|].
    intros m' st [= <- _]. exists part. split; [done|].
    rewrite (Hdone eq_refl), append_nil_r in Heq. by rewrite <-Heq.
Qed.

Lemma open_owned_ids existed random clock dir l x fs :
  disk_ids x (fs !! metadata_key dir) →
  sio_part (open_owned existed random clock dir l)
    (λ r fs', disk_ids x (fs' !! metadata_key dir) ∧
       ∀ store, r = Some (inr store) → audit_dir store = dir ∧
         state_ids x (state store) (fs' !! metadata_key dir)) fs.
Proof.
  intros Hd. set (good := λ r fs', _ ∧ _).
  assert (∀ r fs', disk_ids x (fs' !! metadata_key dir) → (∀ store, r ≠ Some (inr store)) → good r fs') as Hbad
    by (intros r fs' ? Hr; split; [done|by intros store Hs'%Hr]).
  apply sres_part_bind. eapply (sio_part_mono _ (λ _ fs', fs' !! metadata_key dir = fs !! metadata_key dir)).
  { destruct existed; [by apply sio_part_ret|]. keep. apply keeps_unavailable, keeps_quiet, quiet_sync_dir. }
  intros r fs1 Hk1. rewrite <-Hk1 in Hd. destruct r as [[er|[]]|]; [by apply Hbad| |by apply Hbad].
  apply sres_part_bind. eapply sio_part_mono; [by apply opened_metadata_ids|].
  intros r fs2 [Hd2 Hm2]. destruct r as [[er|[m st]]|]; [by apply Hbad| |by apply Hbad].
  destruct (Hm2 m st eq_refl) as (text & Htext & Hm). clear Hm2 Hd Hk1.
  unfold ensure. destruct (_ =? _); [|by apply sres_part_bind, sio_part_ret, Hbad].
  apply sres_part_bind, sio_part_ret.
  destruct (generation_ok _); [|by apply sres_part_bind, sio_part_ret, Hbad].
  apply sres_part_bind, sio_part_ret, sres_part_bind. eapply sio_part_mono; [apply read_records_keeps|].
  intros r fs3 Hk3. rewrite <-Hk3 in Hd2, Htext.
  destruct r as [[er|[records torn]]|]; [by apply Hbad| |by apply Hbad].
  destruct (recovered clock (max_bytes l) m records) as [er|rv] eqn:Hrv; [by apply sres_part_bind, sio_part_ret, Hbad|].
  apply sres_part_bind, sio_part_ret.
  destruct (next_reserved m) as [er|next] eqn:Hnext; [by apply sres_part_bind, sio_part_ret, Hbad|].
  apply next_reserved_inr in Hnext as ->. apply sres_part_bind, sio_part_ret, sres_part_bind, sio_part_answered.
  destruct (prune_retention _ _ _) as [s1|] eqn:Hp1; [|by apply Hbad].
  unfold prune_retention in Hp1. apply bind_Some in Hp1 as ([[es bs] ret] & _ & [= <-]). cbn [fmap option_fmap].
  set (s1 := set_kept es bs ret _).
  apply sres_part_bind. eapply (sio_part_mono _ (λ _ fs', fs' !! metadata_key dir = fs3 !! metadata_key dir)).
  { apply keeps_then; [|intros; apply keeps_mret]. apply keeps_remove. by apply path_join_ne. }
  intros r fs4 Hk4. rewrite <-Hk4 in Hd2, Htext. destruct r as [[er|[]]|]; [by apply Hbad| |by apply Hbad].
  apply sres_part_bind. eapply (sio_part_mono _ (λ _ fs', fs' !! metadata_key dir = fs4 !! metadata_key dir)).
  { destruct (needs_compaction _ _ _); [|by apply sio_part_ret]. unfold compact_if_pruned.
    destruct (_ =? _)%nat; [apply compact_keeps|by apply sio_part_ret]. }
  intros r fs5 Hk5. rewrite <-Hk5 in Hd2, Htext. destruct r as [[er|[]]|]; [by apply Hbad| |by apply Hbad].
  apply sio_part_ret. split; [done|]. intros store [= <-]. split; [done|]. cbn [state].
  rewrite Htext in Hd2 |- *. destruct (Hd2 m Hm) as [Hp Hi].
  split; cbn; try done; [by eapply metadata_of_json_typed|].
  exists text, m. split_and!; first [done|apply reserved_below_refl].
Qed.

(** ** A process that uses the store, again and again *)

Record AuditSystem := {
  sy_files : FileSys;
  sy_registry : gset FileKey;
  sy_store : option DurableSecurityAuditStore;
  sy_issued : Issued;
}.
Inductive AuditCall :=
  | OpenCall (audit_dir_existed : bool) (random : option string) (clock : nat → Z) (l : AuditLimits)
  | RequestIdCall
  | EventIdentityCall
  | AppendCall (now now' : Z) (event : SecurityAuditEvent)
  | RecoverCall (clock : nat → Z)
  | DropCall
  | RestartCall.

(** A call with the failures it meets; a process that is killed starts anew. *)
Definition Attempted : Type := AuditCall * AuditStoreInstrumentation * list fault.

Definition restarted fs (y : AuditSystem) : AuditSystem :=
  {| sy_files := fs; sy_registry := ∅; sy_store := None; sy_issued := sy_issued y |}.
Definition with_state fs s (store : DurableSecurityAuditStore) issued (y : AuditSystem) : AuditSystem :=
  {| sy_files := fs; sy_registry := sy_registry y;
     sy_store := Some {| audit_dir := audit_dir store; limits := limits store; state := s;
                         recovery := recovery store |};
     sy_issued := issued |}.
Definition operated {A} (issue : A → Issued → Issued)
    (m : DurableSecurityAuditStore → sio (res SecurityAuditSinkError A * StoreState))
    (i : AuditStoreInstrumentation) (fl : list fault) (y : AuditSystem) : AuditSystem :=
  match sy_store y with
  | None => y
  | Some store =>
      match m store i fl (sy_files y) with
      | (Some (inr a, s), (_, _, fs)) => with_state fs s store (issue a (sy_issued y)) y
      | (Some (inl _, s), (_, _, fs)) => with_state fs s store (sy_issued y) y
      | (None, (_, _, fs)) => restarted fs y
      end
  end.

Definition audit_step (root : Path) (attempted : Attempted) (y : AuditSystem) : AuditSystem :=
  let '(c, i, fl) := attempted in
  match c with
  | OpenCall existed random clock l =>
      match open_store existed random clock root l (sy_registry y) i fl (sy_files y) with
      | (Some (inr store, registry), (_, _, fs)) =>
          {| sy_files := fs; sy_registry := registry; sy_store := Some store; sy_issued := sy_issued y |}
      | (Some (inl _, registry), (_, _, fs)) =>
          {| sy_files := fs; sy_registry := registry; sy_store := sy_store y; sy_issued := sy_issued y |}
      | (None, (_, _, fs)) => restarted fs y
      end
  | RequestIdCall =>
      operated issue_request (λ st, store_allocate_request_id (audit_dir st) (state st)) i fl y
  | EventIdentityCall =>
      operated issue_event (λ st, store_allocate_event_identity (audit_dir st) (state st)) i fl y
  | AppendCall now now' event =>
      operated (λ _ x, x) (λ st, store_append (audit_dir st) (limits st) now now' event (state st)) i fl y
  | RecoverCall clock =>
      operated (λ _ x, x) (λ st, store_try_recover (audit_dir st) (limits st) clock (state st)) i fl y
  | DropCall =>
      match sy_store y with
      | None => y
      | Some store => {| sy_files := sy_files y; sy_registry := drop_store store (sy_registry y);
                         sy_store := None; sy_issued := sy_issued y |}
      end
  | RestartCall => restarted (sy_files y) y
  end.
Definition audit_run (root : Path) (calls : list Attempted) (y : AuditSystem) : AuditSystem :=
  foldl (λ y c, audit_step root c y) y calls.

(** A machine on which the store has never been opened. *)
Definition fresh_system fs : AuditSystem :=
  {| sy_files := fs; sy_registry := ∅; sy_store := None; sy_issued := issued_nothing |}.

Definition call_typed (c : Attempted) : Prop :=
  match c with (AppendCall _ _ event, _, _) => event_typed event | _ => True end.

Record system_ok (root : Path) (y : AuditSystem) : Prop := {
  sok_once : issued_once (sy_issued y);
  sok_disk : disk_ids (sy_issued y) (sy_files y !! metadata_key (path_join root AUDIT_DIR));
  sok_store : ∀ store, sy_store y = Some store →
    audit_dir store = path_join root AUDIT_DIR ∧
    file_key (path_join root AUDIT_DIR) ∈ sy_registry y ∧
    state_ids (sy_issued y) (state store) (sy_files y !! metadata_key (path_join root AUDIT_DIR));
}.

Lemma operated_ok {A} (issue : A → Issued → Issued)
    (m : DurableSecurityAuditStore → sio (res SecurityAuditSinkError A * StoreState)) root i fl y :
  (∀ store x fs, audit_dir store = path_join root AUDIT_DIR →
     state_ids x (state store) (fs !! metadata_key (path_join root AUDIT_DIR)) → issued_once x →
     sio_part (m store) (λ r fs', op_ids issue x r (fs' !! metadata_key (path_join root AUDIT_DIR))) fs) →
  system_ok root y → system_ok root (operated issue m i fl y).
Proof.
  intros Hm [Honce Hdisk Hstore]. unfold operated.
  destruct (sy_store y) as [store|] eqn:Hy; [|by split; rewrite ?Hy].
  destruct (Hstore store eq_refl) as (Hdir & Hreg & Hids).
  specialize (Hm store _ _ Hdir Hids Honce i fl).
  destruct (m store i fl (sy_files y)) as [[[[er|a] s']|] [[? ?] fs']].
  - split; cbn; [done|by eapply state_ids_disk|]. by intros st [= <-].
  - destruct Hm as [Hs Ho]. split; cbn; [by apply Ho|by eapply state_ids_disk|]. by intros st [= <-].
  - by split; cbn.
Qed.

Lemma silent_op {A} x (r : option (res SecurityAuditSinkError A * StoreState)) text :
  silent_ids x r text → op_ids (λ _ x, x) x r text.
Proof. by destruct r as [[[er|a] s]|]; [| |]. Qed.

Lemma open_ok root existed random clock l i fl y :
  system_ok root y → system_ok root (audit_step root (OpenCall existed random clock l, i, fl) y).
Proof.
  intros [Honce Hdisk Hstore]. set (dir := path_join root AUDIT_DIR) in *. cbn [audit_step].
  assert (sio_part (open_store existed random clock root l (sy_registry y))
    (λ r fs', disk_ids (sy_issued y) (fs' !! metadata_key dir) ∧
       match r with
       | Some (inr store, registry) => audit_dir store = dir ∧ file_key dir ∈ registry ∧
           state_ids (sy_issued y) (state store) (fs' !! metadata_key dir)
       | Some (inl _, registry) => registry = sy_registry y ∧
           (file_key dir ∈ registry → fs' !! metadata_key dir = sy_files y !! metadata_key dir)
       | None => True
       end) (sy_files y)) as Hopen.
  { unfold open_store, open_with_instrumentation.
    destruct (_ || _); [by apply sio_part_ret|]. fold dir.
    apply sio_part_bind. eapply (sio_part_mono _ (λ r fs', fs' !! metadata_key dir = sy_files y !! metadata_key dir ∧
      ∀ key, r = Some (inr key) → key = file_key dir)).
    { apply sio_part_post. unfold create_private_dir.
      do 2 (apply sres_post_bind; quiet; [done..|intros _]; apply quiet_unavailable; [apply quiet_set_permissions|];
        intros [[er|[]]|]; [done| |done]).
      apply sio_post_map_err, sio_post_call, io_post_call; [|done]. split; [done|]. by intros key [= <-]. }
    intros r fs1 [Hk Hkey]. rewrite <-Hk in Hdisk.
    destruct r as [[er|key]|]; [by apply sio_part_ret| |done]. rewrite (Hkey key eq_refl).
    destruct (decide _); [by apply sio_part_ret|].
    apply sio_part_bind. eapply sio_part_mono; [by apply open_owned_ids|].
    intros r fs2 [Hd Hst]. destruct r as [[er|store]|]; [apply sio_part_ret; split; [done|]; by split|
      apply sio_part_ret|by split].
    destruct (Hst store eq_refl). split_and!; try done. set_solver. }
  specialize (Hopen i fl).
  destruct (open_store _ _ _ _ _ _ i fl (sy_files y)) as [[[[er|store] registry]|] [[? ?] fs']].
  - destruct Hopen as [Hd [-> Hsame]]. split; [done..|]. intros store Hs.
    cbn [sy_store sy_registry sy_issued sy_files] in *. fold dir.
    destruct (Hstore store Hs) as (? & Hreg & ?). by rewrite (Hsame Hreg).
  - destruct Hopen as [Hd [? ?]]. split; cbn; [done..|]. by intros st [= <-].
  - by destruct Hopen; split; cbn.
Qed.

Lemma audit_step_ok root c y : system_ok root y → call_typed c → system_ok root (audit_step root c y).
Proof.
  intros Hok Hc. destruct c as [[c i] fl].
  destruct c as [existed random clock l| | |now now' event|clock| |]; [by apply open_ok|..]; cbn [audit_step].
  - apply operated_ok; [|done]. intros store x fs <- Hs _. by apply allocate_request_ids.
  - apply operated_ok; [|done]. intros store x fs <- Hs _. by apply allocate_event_ids.
  - apply operated_ok; [|done]. intros store x fs <- Hs _.
    eapply sio_part_mono; [by apply store_append_ids|]. intros r fs'. apply silent_op.
  - apply operated_ok; [|done]. intros store x fs <- Hs _.
    eapply sio_part_mono; [by apply store_try_recover_ids|]. intros r fs'. apply silent_op.
  - destruct Hok as [? ? Hst]. destruct (sy_store y) eqn:Hy; by split; cbn; rewrite ?Hy.
  - by destruct Hok; split; cbn.
Qed.

(** C28: whatever a process does with the store - opening it, reserving, appending,
    recovering, dropping it - whichever calls fail, and however often it is killed
    and starts anew, no request id, event id or sequence is issued twice: those
    issued go up, from the first use of the directory on. *)
Theorem identifiers_never_issued_twice root calls fs :
  fs !! metadata_key (path_join root AUDIT_DIR) = None → Forall call_typed calls →
  issued_once (sy_issued (audit_run root calls (fresh_system fs))).
Proof.
  intros Hfresh Hcalls. unfold audit_run.
  assert (system_ok root (fresh_system fs)) as Hok.
  { split; cbn; [by split; constructor|by rewrite Hfresh|done]. }
  cut (system_ok root (foldl (λ y c, audit_step root c y) (fresh_system fs) calls)); [by intros []|].
  revert Hok. generalize (fresh_system fs). induction Hcalls as [|c calls Hc _ IH]; intros y Hok; cbn; [done|].
  apply IH. by apply audit_step_ok.
Qed.
End identifiers.
