(* ===== verification/AuditCodec.v ===== *)
(** * The audit store at concrete files

    A serializer the laws of [AuditStore] hold of, for the witnesses: the metadata
    and a record are strings of binary digits between braces.  The promises of
    [AuditRecovery] and [AuditIds] at small stores, and two runs after which a log
    can no longer be read. *)

From stdpp Require Import countable finite.
From S2P Require Export Serializers AuditRecovery AuditIds.

Local Open Scope Z_scope.

(** ** Events are countable *)

#[export] Program Instance SecurityAuditMode_finite : Finite SecurityAuditMode :=
  {| enum := [BestEffort; Mandatory] |}.
Next Obligation. by apply (bool_decide_unpack _). Qed.
Next Obligation. intros []; by apply (bool_decide_unpack _). Qed.
#[export] Program Instance SecurityAuditStage_finite : Finite SecurityAuditStage :=
  {| enum := [StAttempt; StAuthentication; StAuthorization; StAdmission; StRuntime; StDurability;
              StDelivery] |}.
Next Obligation. by apply (bool_decide_unpack _). Qed.
Next Obligation. intros []; by apply (bool_decide_unpack _). Qed.
#[export] Instance SecurityAuditDecision_eq_dec : EqDecision SecurityAuditDecision.
Proof. solve_decision. Defined.
#[export] Program Instance SecurityAuditDecision_finite : Finite SecurityAuditDecision :=
  {| enum := [DecNotApplicable; DecAllow; DecDeny; DecError] |}.
Next Obligation. by apply (bool_decide_unpack _). Qed.
Next Obligation. intros []; by apply (bool_decide_unpack _). Qed.
#[export] Instance SecurityAuditReason_eq_dec : EqDecision SecurityAuditReason.
Proof. solve_decision. Defined.
#[export] Program Instance SecurityAuditReason_finite : Finite SecurityAuditReason :=
  {| enum := [RsRequestReceived; RsAnonymousLocalProfile; RsExplicitPolicyAllow; RsNoMatchingPermission;
              RsInvalidActorAssertion; RsAuthenticationFailed; RsMissingPrincipal;
              RsPolicyEvaluationFailed; RsMalformedRequest; RsScopeRejected; RsLimitExceeded;
              RsClassificationOverflow; RsRuntimeSucceeded; RsRuntimeFailed; RsCommitted;
              RsNotCommitted; RsUnknownDurability; RsNotApplicable; RsResponseHandedOff;
              RsUnknownDelivery; RsSinkUnavailable] |}.
Next Obligation. by apply (bool_decide_unpack _). Qed.
Next Obligation. intros []; by apply (bool_decide_unpack _). Qed.
#[export] Instance SecurityAuditRuntimeOutcome_eq_dec : EqDecision SecurityAuditRuntimeOutcome.
Proof. solve_decision. Defined.
#[export] Program Instance SecurityAuditRuntimeOutcome_finite : Finite SecurityAuditRuntimeOutcome :=
  {| enum := [RoNotReached; RoSucceeded; RoFailed] |}.
Next Obligation. by apply (bool_decide_unpack _). Qed.
Next Obligation. intros []; by apply (bool_decide_unpack _). Qed.
#[export] Instance SecurityAuditDurabilityOutcome_eq_dec : EqDecision SecurityAuditDurabilityOutcome.
Proof. solve_decision. Defined.
#[export] Program Instance SecurityAuditDurabilityOutcome_finite : Finite SecurityAuditDurabilityOutcome :=
  {| enum := [DoNotApplicable; DoCommitted; DoNotCommitted; DoUnknown] |}.
Next Obligation. by apply (bool_decide_unpack _). Qed.
Next Obligation. intros []; by apply (bool_decide_unpack _). Qed.
#[export] Instance SecurityAuditDeliveryOutcome_eq_dec : EqDecision SecurityAuditDeliveryOutcome.
Proof. solve_decision. Defined.
#[export] Program Instance SecurityAuditDeliveryOutcome_finite : Finite SecurityAuditDeliveryOutcome :=
  {| enum := [DlNotReached; DlHandedOff; DlUnknown] |}.
Next Obligation. by apply (bool_decide_unpack _). Qed.
Next Obligation. intros []; by apply (bool_decide_unpack _). Qed.
#[export] Program Instance SecurityAction_finite : Finite SecurityAction :=
  {| enum := [WorkspaceCreate; WorkspaceOpen; WorkspaceClose; WorkspaceInspect; WorkspaceSave;
              WorkspaceLoad; WorkspaceExport; WorkspaceImport; SchemaDefine; SchemaInspect;
              ActNodeCreate; ActNodeRead; ActNodeUpdate; ActNodeDelete; ActEdgeCreate; ActEdgeRead;
              ActEdgeUpdate; ActEdgeDelete; ActQuery; ActTraverse; ActExplain; ActProfile;
              BatchApply; IndexInspect; AuditInspect] |}.
Next Obligation. by apply (bool_decide_unpack _). Qed.
Next Obligation. intros []; by apply (bool_decide_unpack _). Qed.
#[export] Program Instance SecurityResourceKind_finite : Finite SecurityResourceKind :=
  {| enum := [KindService; KindWorkspace; KindNodeModel; KindEdgeModel; KindOperationFamily;
              KindIndexCatalog; KindWorkspaceArtifact; KindReservedAdmin] |}.
Next Obligation. by apply (bool_decide_unpack _). Qed.
Next Obligation. intros []; by apply (bool_decide_unpack _). Qed.

(** A value is written as the list of its parts. *)
Definition Outcomes : Type :=
  SecurityAuditRuntimeOutcome * SecurityAuditDurabilityOutcome * SecurityAuditDeliveryOutcome.
Definition Verdict : Type :=
  SecurityAuditMode * SecurityAuditStage * SecurityAuditDecision * SecurityAuditReason.
Definition OperationParts : Type := SecurityAction * SecurityResourceKind * (string * option string).
Definition Part : Type :=
  (Z + string) + (option string + (bool * bool)) + ((option (list string) + option (string * bool))
  + (Verdict + Outcomes)) + list OperationParts.

Definition operation_parts (op : SecurityAuditOperation) : OperationParts :=
  (ao_action op, ao_resource_kind op, (ao_workspace op, ao_model op)).
Definition parts_operation (p : OperationParts) : SecurityAuditOperation :=
  {| ao_action := p.1.1; ao_resource_kind := p.1.2; ao_workspace := p.2.1; ao_model := p.2.2 |}.

Definition int_part (z : Z) : Part := inl (inl (inl (inl z))).
Definition text_part (s : string) : Part := inl (inl (inl (inr s))).
Definition opt_part (o : option string) : Part := inl (inl (inr (inl o))).
Definition peer_part (p : bool * bool) : Part := inl (inl (inr (inr p))).
Definition principal_part (p : option (list string)) : Part := inl (inr (inl (inl p))).
Definition actor_part (a : option (string * bool)) : Part := inl (inr (inl (inr a))).
Definition verdict_part (v : Verdict) : Part := inl (inr (inr (inl v))).
Definition outcomes_part (o : Outcomes) : Part := inl (inr (inr (inr o))).
Definition operations_part (l : list OperationParts) : Part := inr l.

Definition event_parts (e : SecurityAuditEvent) : list Part :=
  [int_part (ev_schema_version e); int_part (ev_event_id e); int_part (ev_request_id e);
   int_part (ev_service_sequence e); int_part (ev_timestamp e); text_part (ev_service_identity e);
   verdict_part (ev_mode e, ev_stage e, ev_decision e, ev_reason e);
   peer_part (at_remote_address_present (ev_transport_peer e),
              at_client_certificate_present (ev_transport_peer e));
   principal_part ((λ p, [ap_issuer p; ap_subject p; ap_authentication_provider p;
                          ap_authentication_method p]) <$> ev_authenticated_principal e);
   actor_part ((λ a, (aa_actor_id a, aa_authenticated a)) <$> ev_asserted_actor e);
   opt_part (ev_workspace e); operations_part (operation_parts <$> ev_operations e);
   opt_part (ev_policy_version e);
   outcomes_part (ev_runtime_outcome e, ev_durability_outcome e, ev_delivery_outcome e)].
Definition parts_event (l : list Part) : option SecurityAuditEvent :=
  match l with
  | [inl (inl (inl (inl schema))); inl (inl (inl (inl event))); inl (inl (inl (inl request)));
     inl (inl (inl (inl sequence))); inl (inl (inl (inl time))); inl (inl (inl (inr identity)));
     inl (inr (inr (inl (mode, stage, decision, reason)))); inl (inl (inr (inr (remote, cert))));
     inl (inr (inl (inl principal))); inl (inr (inl (inr actor))); inl (inl (inr (inl workspace)));
     inr operations; inl (inl (inr (inl policy)));
     inl (inr (inr (inr (runtime, durability, delivery))))] =>
      Some {| ev_schema_version := schema; ev_event_id := event; ev_request_id := request;
              ev_service_sequence := sequence; ev_timestamp := time;
              ev_service_identity := identity; ev_mode := mode; ev_stage := stage;
              ev_transport_peer := {| at_remote_address_present := remote;
                                      at_client_certificate_present := cert |};
              ev_authenticated_principal :=
                (λ p, match p with
                      | [a; b; c; d] => {| ap_issuer := a; ap_subject := b;
                          ap_authentication_provider := c; ap_authentication_method := d |}
                      | _ => {| ap_issuer := ""; ap_subject := ""; ap_authentication_provider := "";
                                ap_authentication_method := "" |}
                      end) <$> principal;
              ev_asserted_actor :=
                (λ a : string * bool, {| aa_actor_id := a.1; aa_authenticated := a.2 |}) <$> actor;
              ev_workspace := workspace; ev_operations := parts_operation <$> operations;
              ev_policy_version := policy; ev_decision := decision; ev_reason := reason;
              ev_runtime_outcome := runtime; ev_durability_outcome := durability;
              ev_delivery_outcome := delivery |}
  | _ => None
  end.
Lemma parts_event_parts e : parts_event (event_parts e) = Some e.
Proof.
  destruct e as [? ? ? ? ? ? ? ? [] principal actor ? operations ? ? ? ? ? ?]. cbn. do 2 f_equal.
  - by destruct principal as [[]|].
  - by destruct actor as [[]|].
  - induction operations as [|[] operations IH]; cbn; [done|]. by f_equal.
Qed.

#[export] Instance SecurityAuditEvent_eq_dec : EqDecision SecurityAuditEvent.
Proof.
  intros e e'. destruct (decide (event_parts e = event_parts e')) as [Heq|Hne].
  - left. apply (inj Some). by rewrite <-!parts_event_parts, Heq.
  - right. by intros ->.
Defined.
#[export] Instance SecurityAuditEvent_countable : Countable SecurityAuditEvent :=
  inj_countable event_parts parts_event parts_event_parts.

#[export] Instance PersistedAuditRecord_eq_dec : EqDecision PersistedAuditRecord.
Proof. solve_decision. Defined.
Definition record_parts (r : PersistedAuditRecord) : list Part :=
  int_part (rec_version r) :: text_part (rec_store_generation_id r) :: event_parts (rec_event r).
Definition parts_record (l : list Part) : option PersistedAuditRecord :=
  match l with
  | inl (inl (inl (inl version))) :: inl (inl (inl (inr generation))) :: l =>
      (λ e, {| rec_version := version; rec_store_generation_id := generation; rec_event := e |})
      <$> parts_event l
  | _ => None
  end.
Lemma parts_record_parts r : parts_record (record_parts r) = Some r.
Proof.
  destruct r as [version generation e]. unfold record_parts, parts_record, int_part, text_part.
  cbn [rec_version rec_store_generation_id rec_event]. by rewrite parts_event_parts.
Qed.
#[export] Instance PersistedAuditRecord_countable : Countable PersistedAuditRecord :=
  inj_countable record_parts parts_record parts_record_parts.

#[export] Instance StoreMetadata_eq_dec : EqDecision StoreMetadata.
Proof. solve_decision. Defined.
#[export] Program Instance StoreMetadata_countable : Countable StoreMetadata :=
  inj_countable'
    (λ m, (store_generation_id m, [version m; reserved_event_id m; reserved_request_id m;
       reserved_service_sequence m; accepted_event_id m; accepted_request_id m;
       accepted_service_sequence m]))
    (λ '(generation, l),
       {| version := nth 0 l 0; store_generation_id := generation; reserved_event_id := nth 1 l 0;
          reserved_request_id := nth 2 l 0; reserved_service_sequence := nth 3 l 0;
          accepted_event_id := nth 4 l 0; accepted_request_id := nth 5 l 0;
          accepted_service_sequence := nth 6 l 0 |}) _.
Next Obligation. by intros []. Qed.

(** ** The serializer *)

Definition u64_b (x : Z) : bool := (0 <=? x) && (x <=? u64_max).
Definition metadata_typed_b (m : StoreMetadata) : bool :=
  (0 <=? version m) && (version m <? 65536) && utf8_valid (store_generation_id m)
  && (u64_b (reserved_event_id m) && u64_b (reserved_request_id m) && u64_b (reserved_service_sequence m))
  && (u64_b (accepted_event_id m) && u64_b (accepted_request_id m) && u64_b (accepted_service_sequence m)).
Lemma metadata_typed_spec m : metadata_typed_b m = true ↔ metadata_typed m.
Proof.
  unfold metadata_typed_b, u64_b. rewrite !andb_true_iff, !Z.leb_le, Z.ltb_lt.
  split; [intros; split; unfold in_u16, in_u64, utf8; naive_solver|].
  intros [? ? ? ?]. unfold in_u16, in_u64, utf8 in *. naive_solver.
Qed.

Definition braces (d : string) : string := "{" +:+ (d +:+ "}").
Definition braced {A} `{Countable A} (text : string) : option A :=
  r ← str_strip_prefix "{" text; d ← str_strip_suffix "}" r; of_digits d.
(** A newline at the end is no matter. *)
Definition braced_line {A} `{Countable A} (text : string) : option A :=
  braced (default text (str_strip_suffix newline_text text)).

#[export] Instance digits_audit_codec : AuditCodec := {|
  json_of_metadata m := Some (braces (to_digits m));
  metadata_of_json text :=
    m ← braced_line text; if metadata_typed_b m then Some m else None;
  json_of_record r := Some (braces (to_digits r));
  record_of_json := braced;
|}.

Definition binary_digit (c : ascii) : bool := Ascii.eqb c "0" || Ascii.eqb c "1".
Lemma to_digits_binary {A} `{Countable A} (a : A) : all_chars binary_digit (to_digits a) = true.
Proof. by apply to_digits_chars. Qed.

Lemma braced_braces {A} `{Countable A} (d : string) : braced (A:=A) (braces d) = of_digits d.
Proof.
  unfold braced, braces. rewrite str_strip_prefix_app. cbn [mbind option_bind].
  by rewrite str_strip_suffix_app.
Qed.
Lemma strip_suffix_lacks c (s : string) : lacks c s = true → str_strip_suffix (String c "") s = None.
Proof.
  intros Hs. destruct (str_strip_suffix _ s) as [r|] eqn:Hr; [|done].
  apply str_strip_suffix_Some in Hr as ->. unfold lacks in Hs. rewrite all_chars_app in Hs.
  cbn in Hs. rewrite Ascii.eqb_refl, andb_false_r in Hs. done.
Qed.
Lemma binary_lacks c (s : string) : binary_digit c = false → all_chars binary_digit s = true → lacks c s = true.
Proof.
  intros Hc. apply all_chars_impl. intros d Hd. destruct (Ascii.eqb_spec d c) as [->|]; [congruence|done].
Qed.
Lemma braces_lack c (d : string) :
  binary_digit c = false → Ascii.eqb "{" c = false → Ascii.eqb "}" c = false →
  all_chars binary_digit d = true → lacks c (braces d) = true.
Proof.
  intros Hc Hopen Hclose Hd. unfold braces, lacks.
  rewrite !all_chars_app. change (all_chars ?P "{") with (P "{"%char && true).
  change (all_chars ?P "}") with (P "}"%char && true). cbv beta. rewrite Hopen, Hclose.
  fold (lacks c d). by rewrite binary_lacks.
Qed.
Lemma braced_line_braces {A} `{Countable A} (a : A) :
  braced_line (braces (to_digits a)) = Some a ∧ braced_line (braces (to_digits a) +:+ newline_text) = Some a.
Proof.
  assert (str_strip_suffix newline_text (braces (to_digits a)) = None) as Hnone.
  { apply strip_suffix_lacks, braces_lack; [done..|apply to_digits_binary]. }
  unfold braced_line. rewrite str_strip_suffix_app, Hnone.
  cbn [default from_option id]. by rewrite braced_braces, of_to_digits.
Qed.

Lemma braces_part (d start rest : string) :
  all_chars binary_digit d = true → braces d = start +:+ rest → rest ≠ "" →
  start = "" ∨ ∃ p, start = String "{" p ∧ all_chars binary_digit p = true.
Proof.
  intros Hd Heq Hne. destruct rest as [|c rest _] using str_rev_ind; [done|].
  destruct start as [|b start]; [by left|]. right. exists start.
  unfold braces in Heq. change ("{" +:+ (d +:+ "}")) with (String "{" (d +:+ "}")) in Heq.
  change (String b start +:+ (rest +:+ String c "")) with (String b (start +:+ (rest +:+ String c ""))) in Heq.
  injection Heq as <- Heq. split; [done|].
  rewrite <-append_assoc in Heq. apply str_snoc_inj in Heq as [-> _].
  rewrite all_chars_app in Hd. by apply andb_true_iff in Hd as [? _].
Qed.

Lemma braced_line_part {A} `{Countable A} (d start rest : string) :
  all_chars binary_digit d = true → braces d = start +:+ rest → rest ≠ "" → braced_line (A:=A) start = None.
Proof.
  intros Hd Heq Hne. destruct (braces_part d start rest Hd Heq Hne) as [->|(p & -> & Hp)]; [done|].
  assert (str_strip_suffix newline_text (String "{" p) = None) as Hnone.
  { apply strip_suffix_lacks. change (lacks newline p = true). by apply binary_lacks. }
  unfold braced_line. rewrite Hnone.
  cbn [default from_option id]. unfold braced. change (String "{" p) with ("{" +:+ p).
  rewrite str_strip_prefix_app. cbn [mbind option_bind].
  by rewrite strip_suffix_lacks by (by apply binary_lacks).
Qed.

#[export] Instance digits_audit_laws : AuditCodecLaws.
Proof.
  split.
  - intros m. exact (mk_is_Some _ _ eq_refl).
  - intros m text [= <-] Hm. apply metadata_typed_spec in Hm.
    destruct (braced_line_braces m) as [H1 H2]. cbn [metadata_of_json digits_audit_codec].
    rewrite H1, H2. cbn. by rewrite Hm.
  - intros text m. cbn [metadata_of_json digits_audit_codec].
    intros (m' & _ & Hm)%bind_Some. destruct (metadata_typed_b m') eqn:Ht; [|done].
    injection Hm as <-. by apply metadata_typed_spec.
  - intros m start rest [= Heq] Hne. cbn [metadata_of_json digits_audit_codec].
    by rewrite (braced_line_part (to_digits m) start rest (to_digits_binary m)).
  - intros r _. exact (mk_is_Some _ _ eq_refl).
  - intros r text [= <-]. split; [|done]. apply braces_lack; [done..|apply to_digits_binary].
  - intros r text [= <-] _ _ _. change (braced (A:=PersistedAuditRecord) (braces (to_digits r)) = Some r).
    by rewrite braced_braces, of_to_digits.
  - intros r r' start rest text [= Heq] Hne [= <-].
    destruct start as [|c start]; [done|]. injection Heq as <- _.
    change (braced (A:=PersistedAuditRecord) ("{" +:+ (start +:+ braces (to_digits r'))) = None).
    unfold braced. rewrite str_strip_prefix_app. cbn [mbind option_bind].
    replace (start +:+ braces (to_digits r')) with ((start +:+ String "{" (to_digits r')) +:+ "}")
      by (unfold braces; by rewrite append_assoc).
    rewrite str_strip_suffix_app. cbn [mbind option_bind]. unfold of_digits.
    by rewrite pos_of_digits_brace.
Qed.

(** ** Small stores *)

Section witnesses.
#[local] Instance a_layout : EventLayout := {| size_of_event := 400 |}.

Definition a_root : Path := {| p_abs := true; p_comps := ["srv"] |}.
Definition a_dir : Path := path_join a_root AUDIT_DIR.
Definition a_limits : AuditLimits :=
  {| max_events := 2; max_bytes := 16384; max_age := 3600 * 10 ^ 9 |}.
Definition a_generation : string := "00000000000000000000000000000000".
Definition a_now : Z := 5 * 10 ^ 9.
Definition a_clock : nat → Z := λ _, a_now.
Definition a_event (id : Z) : SecurityAuditEvent := {|
  ev_schema_version := 1; ev_event_id := id; ev_request_id := 1; ev_service_sequence := id;
  ev_timestamp := 10 ^ 9; ev_service_identity := "grm"; ev_mode := Mandatory; ev_stage := StAttempt;
  ev_transport_peer := {| at_remote_address_present := true; at_client_certificate_present := true |};
  ev_authenticated_principal := None; ev_asserted_actor := None; ev_workspace := Some "w";
  ev_operations := []; ev_policy_version := None; ev_decision := DecNotApplicable;
  ev_reason := RsRequestReceived; ev_runtime_outcome := RoNotReached;
  ev_durability_outcome := DoNotApplicable; ev_delivery_outcome := DlNotReached |}.

Definition a_metadata : StoreMetadata :=
  {| version := 1; store_generation_id := a_generation; reserved_event_id := 64;
     reserved_request_id := 64; reserved_service_sequence := 64; accepted_event_id := 1;
     accepted_request_id := 1; accepted_service_sequence := 1 |}.
Definition a_line (id : Z) : string := braces (to_digits (record_of a_generation (a_event id))).
Definition a_disk (tail : string) : FileSys :=
  <[metadata_key a_dir := braces (to_digits a_metadata) +:+ newline_text]>
    {[log_key a_dir := unlines [a_line 1] +:+ tail]}.
Definition a_state : StoreState := {|
  metadata := a_metadata; events := [a_event 1];
  record_bytes := [line_size a_generation (a_event 1)];
  retained_bytes := line_size a_generation (a_event 1); degraded := false; next_event_id := 2;
  next_request_id := 2; next_service_sequence := 2; future_dated_records := 0 |}.

Lemma a_limits_good : limits_good a_limits.
Proof. by split. Qed.
Lemma a_event_typed id : 0 <= id <= u64_max → event_typed (a_event id).
Proof.
  intros Hid. by split; cbn; unfold in_u64 in *; try done; split_and!; try done; try lia.
Qed.
Lemma a_line_size id : (slen (a_line id) + 1 <=? 4096) = true → 0 <= id <= 64 →
  line_size a_generation (a_event id) <= 4096.
Proof. intros Hs%Z.leb_le _. exact Hs. Qed.
Lemma a_sizes : (slen (a_line 1) + 1 <=? 4096) && (slen (a_line 2) + 1 <=? 4096) = true.
Proof. vm_compute. reflexivity. Qed.
Lemma a_event_size id : id = 1 ∨ id = 2 → line_size a_generation (a_event id) <= 4096.
Proof.
  pose proof a_sizes as [H1 H2]%andb_true_iff. rewrite Z.leb_le in H1, H2. by intros [->| ->].
Qed.
Lemma a_valid id : validate_event_common (a_event id) = true.
Proof. reflexivity. Qed.
Lemma a_event_kept id : id = 1 ∨ id = 2 → event_kept (max_bytes a_limits) a_metadata (a_event id).
Proof.
  intros Hid. pose proof (a_event_size id Hid) as Hs. split.
  - apply a_event_typed. unfold u64_max. lia.
  - apply a_valid.
  - exact (mk_is_Some _ _ eq_refl).
  - split; [exact Hs|]. etrans; [exact Hs|]. done.
  - apply over_reserved_false. cbn. lia.
Qed.
Lemma a_events_kept : events_kept (max_bytes a_limits) a_metadata [a_event 1].
Proof. split; [constructor; [apply a_event_kept; by left|constructor]|by cbn..]. Qed.
Lemma a_metadata_good : metadata_good a_metadata.
Proof. split; [by apply metadata_typed_spec|done|reflexivity|done]. Qed.
Lemma a_stored tail : stored_metadata a_dir (a_disk tail) = Some a_metadata.
Proof.
  eapply stored_metadata_text; [reflexivity|apply a_metadata_good|]. unfold a_disk. apply lookup_insert_eq.
Qed.
Lemma a_log tail : lacks newline tail = true → log_has a_dir a_generation [a_event 1] tail (a_disk tail).
Proof.
  intros Ht. split; [|done]. exists [a_line 1]. split; [reflexivity|].
  unfold a_disk. rewrite lookup_insert_ne by (by apply path_join_ne). by rewrite lookup_singleton_eq.
Qed.
Lemma a_disk_holds tail :
  lacks newline tail = true → slen tail <= 4096 →
  disk_holds a_dir a_limits a_generation [a_event 1] tail (a_disk tail).
Proof.
  intros Ht Hs. split; [|by apply a_log|].
  - exists a_metadata. split; [apply a_stored|]. split; [apply a_metadata_good|]. split; [done|apply a_events_kept].
  - pose proof (a_event_size 1 (or_introl eq_refl)). cbn [fmap list_fmap]. unfold sum. cbn [foldr].
    change (max_bytes a_limits) with 16384. unfold SECURITY_AUDIT_MAX_EVENT_BYTES. lia.
Qed.
Lemma a_in_order : in_order a_dir a_limits a_state (a_disk "").
Proof.
  split.
  - exists a_metadata. split; [apply a_stored|]. split; [apply a_metadata_good|]. split; [done|]. apply reserved_below_refl.
  - apply a_metadata_good.
  - by apply a_log.
  - apply a_events_kept.
  - reflexivity.
  - cbn [retained_bytes a_state]. change (events a_state) with [a_event 1]. cbn [fmap list_fmap]. unfold sum.
    cbn [foldr]. by rewrite Z.add_0_r.
  - split; [done|]. change (retained_bytes a_state) with (line_size a_generation (a_event 1)).
    pose proof (a_event_size 1 (or_introl eq_refl)). change (max_bytes a_limits) with 16384. lia.
Qed.


Definition a_torn : string := String.substring 0 6 (a_line 2).

(** After a crash that left a part of a record. *)
Lemma reopening_reads_the_log_witness :
  ∃ r w store registry, open_store true None a_clock a_root a_limits ∅ instrumentation_default [] (a_disk a_torn)
      = (r, w) ∧ r = Some (inr store, registry) ∧
    events (state store) = kept_at a_limits a_generation a_now [a_event 1] ∧
    ignored_torn_final_record (recovery store) = true.
Proof.
  destruct (open_store true None a_clock a_root a_limits ∅ instrumentation_default [] (a_disk a_torn))
    as [r [[i fl] fs]] eqn:Hrun.
  destruct (reopening_reads_the_log true None a_clock a_root a_limits a_generation [a_event 1] a_torn ∅
    instrumentation_default [] (a_disk a_torn) r i fl fs) as (_ & Hr & Hok).
  - exact a_limits_good.
  - apply a_disk_holds; by vm_compute.
  - by apply not_elem_of_empty.
  - exact Hrun.
  - destruct Hok as (store & registry & ->); [reflexivity|reflexivity| |].
    + exists a_metadata, (65, 65, 65). split; [apply a_stored|reflexivity].
    + exists (Some (inr store, registry)), (i, fl, fs), store, registry.
      destruct Hr as (_ & _ & Hes & Ht). split; [reflexivity|]. split; [reflexivity|]. split; [exact Hes|].
      rewrite Ht. by vm_compute.
Defined.

(** A degraded store whose last write was cut short. *)
Lemma recovery_restores_order_witness :
  ∃ s' w, store_try_recover a_dir a_limits a_clock (mark_degraded true a_state) instrumentation_default []
      (a_disk a_torn) = (Some (inr SinkHealthy, s'), w) ∧
    in_order a_dir a_limits s' w.2 ∧ degraded s' = false.
Proof.
  destruct (store_try_recover a_dir a_limits a_clock (mark_degraded true a_state) instrumentation_default []
    (a_disk a_torn)) as [r [[i fl] fs]] eqn:Hrun.
  destruct (recovery_restores_order a_dir a_limits a_clock [a_event 1] a_torn (mark_degraded true a_state)
    instrumentation_default [] (a_disk a_torn) r i fl fs) as ([_ Hdone] & _ & Hok).
  - exact a_limits_good.
  - apply a_disk_holds; by vm_compute.
  - exact Hrun.
  - destruct Hok as (s' & ->); [reflexivity|reflexivity| |].
    + exists a_metadata, (65, 65, 65). split; [apply a_stored|reflexivity].
    + exists s', (i, fl, fs). split; [reflexivity|].
      destruct (Hdone _ _ eq_refl) as [[[=] _]|(_ & Hord & Hdeg & _)]. split; [exact Hord|exact Hdeg].
Defined.

(** *** Runs *)

Definition calmly (c : AuditCall) : Attempted := (c, instrumentation_default, []).
Definition a_open : Attempted := calmly (OpenCall true (Some "0123456789abcdef") a_clock a_limits).

(** Killed in an append, and started again. *)
Definition a_calls : list Attempted :=
  [a_open; calmly RequestIdCall; calmly EventIdentityCall;
   (AppendCall a_now a_now (a_event 1), instrumentation_default, [CallOk; CallOk; CallCrashes 3]);
   a_open; calmly EventIdentityCall; calmly EventIdentityCall].
Lemma a_calls_checked :
  bool_decide (is_events (sy_issued (audit_run a_root a_calls (fresh_system ∅))) = [1; 65; 66]) = true.
Proof. vm_compute. reflexivity. Qed.

Lemma identifiers_never_issued_twice_witness :
  is_events (sy_issued (audit_run a_root a_calls (fresh_system ∅))) = [1; 65; 66] ∧
  issued_once (sy_issued (audit_run a_root a_calls (fresh_system ∅))).
Proof.
  split; [exact (bool_decide_eq_true_1 _ a_calls_checked)|].
  apply (identifiers_never_issued_twice a_root a_calls ∅).
  - apply lookup_empty.
  - repeat (constructor; [first [exact I|apply a_event_typed; unfold u64_max; lia]|]). constructor.
Defined.

(** A store that is open, not degraded, and keeps the events. *)
Definition healthy_with (es : list SecurityAuditEvent) (y : AuditSystem) : bool :=
  match sy_store y with
  | Some store => negb (degraded (state store)) && bool_decide (events (state store) = es)
  | None => false
  end.
(** What opening the files answers, and what a probe of the open store does. *)
Definition open_refused (e : SecurityAuditStoreOpenError) (fs : FileSys) : bool :=
  match open_store true None a_clock a_root a_limits ∅ instrumentation_default [] fs with
  | (Some (inl e', _), _) => bool_decide (e' = e)
  | _ => false
  end.
Definition probe_fails (y : AuditSystem) : bool :=
  match sy_store y with
  | Some store =>
      match store_try_recover (audit_dir store) (limits store) a_clock (state store)
              instrumentation_default [] (sy_files y) with
      | (Some (inl _, _), _) => true
      | _ => false
      end
  | None => false
  end.

(** The events of two requests: identified one after the other, and appended the
    other way round. *)
Definition crossed_calls : list Attempted :=
  [a_open; calmly RequestIdCall; calmly EventIdentityCall; calmly EventIdentityCall;
   calmly (AppendCall a_now a_now (a_event 2)); calmly (AppendCall a_now a_now (a_event 1))].
(** A write that stops after five bytes, and the next event. *)
Definition torn_calls : list Attempted :=
  [a_open; calmly RequestIdCall; calmly EventIdentityCall;
   (AppendCall a_now a_now (a_event 1), instrumentation_default, [CallOk; CallOk; CallFails 5]);
   calmly EventIdentityCall; calmly (AppendCall a_now a_now (a_event 2))].

Lemma crossed_checked :
  let y := audit_run a_root crossed_calls (fresh_system ∅) in
  healthy_with [a_event 2; a_event 1] y && open_refused InconsistentStore (sy_files y) && probe_fails y = true.
Proof. vm_compute. reflexivity. Qed.
Lemma torn_checked :
  let y := audit_run a_root torn_calls (fresh_system ∅) in
  healthy_with [a_event 2] y && open_refused MalformedRecord (sy_files y) && probe_fails y = true.
Proof. vm_compute. reflexivity. Qed.

End witnesses.
